(* ===== verification/_CoqProject ===== *)
-Q . S2P
Prelude.v
Bytes.v
Text.v
Wire.v
BootConfig.v
BootCodec.v
AuthMessages.v
AuthProof.v
Net.v
Framing.v
AuthSession.v
Messages.v
GuestDispatch.v
Dispatcher.v
Rpc.v
Scheduler.v
Oci.v
BTree.v
Cpio.v
Flatten.v
Hardlinks.v
TarCpio.v
IndexCodec.v
IndexStore.v
Guid.v
Newc.v
IpAddr.v
HcsJournal.v
HcsHost.v
HcsText.v
Hns.v
HnsSafe.v
HcsCleanup.v
HcsLaunch.v
HcsInv.v
HcsSafe.v
HcsRecover.v
HcsTrack.v
HcsSystem.v
HcsFiles.v
HcsBounded.v
HcsExample.v
VmModel.v
LaunchConfig.v
Runtime.v
RuntimeSafe.v
Boot.v
BootSafe.v
HcsAdapter.v
KernelSpec.v
KernelRequest.v
Materialize.v
KernelBuild.v
Extract.v
Overlay.v
BootCache.v
Capture.v
HostDispatch.v
DirectProcess.v
GuestProcess.v
GuestOps.v
Triggers.v
Facade.v
Artifacts.v
