(* ===== verification/Prelude.v ===== *)
(** * Jyth: verification of the control plane, the launcher, the scheduler, the
    image core and the Windows machine lifecycle

    Jyth boots micro virtual machines from OCI images.  The host compiles or
    fetches a kernel, resolves and flattens an image into a [newc] archive,
    boots a machine whose [init] is part of the repository, and drives that
    machine through an authenticated command channel.  This library models
    the parts of the program in which its own logic lives and proves what
    makes them correct.

    ** The program and its parts

    - [libs/protocol]: the messages.  [src/auth.rs] has the boot
      configuration handed to the guest over its serial port, the READY,
      challenge, response, acceptance and bootstrap-result messages with their
      bounded codecs, and the HMAC proofs; [src/lib.rs] has the [Command] and
      [Event] vocabulary archived with rkyv.
    - [libs/com]: the host side of the channel: framing, the handshake, the
      connector and the command calls, once blocking and once on Tokio.
    - [libs/init]: the guest.  [bus/dispatch.rs] accepts connections,
      authenticates each, performs one command and replies;
      [components/com.rs] has the serial port framing.
    - [libs/scheduler]: conditional actions attached to a running machine.
    - [libs/image-core]: OCI references, archive names, the [newc] writer,
      the overlay of layers into one archive, and the storage index that
      remembers which source was materialised where.
    - [libs/hypervisor-hcs]: machines on the Windows Host Compute Service.
      [vm.rs] launches a machine (HNS network and endpoint, VHDX disks, compute
      system), publishes and closes it; every side effect is first written to
      the session's journal ([journal.rs]), from which a later process cleans
      up what a crashed one left behind.
    - [libs/vm-model]: validated machine configurations.  [libs/jyth-runtime]:
      the launcher, the live machine and its observer over injected ports;
      [libs/jyth/src/adapters] has the ports' default implementations, among
      them the host's end of the serial boot exchange.
    - [libs/kernel], [libs/rootfs] and [libs/image-core/src/materialize.rs]:
      kernel specifications and the services that materialise kernels and root
      file systems through the store.
    - [libs/boot-image]: the archive a machine boots from and its caches.
    - [libs/guest-client]: the host's dispatcher of guest commands, its client,
      and processes run in the guest; [libs/init/src/components] has the
      guest's end, the process manager.
    - the remaining crates (kernel builder, facade) call these; see the end.

    The host sends a [BootConfigV1] frame; the guest answers READY with a
    proof over that frame; from then on every TCP connection performs one
    handshake (challenge, response, acceptance), one command frame, one event
    frame.  The archive the guest boots from is the output of the flattening.

    ** Files

    Foundations:
    - [Prelude]: outcomes ([Ok], [Err], [Panic]), tactics, hint databases,
      list and integer lemmas.
    - [Bytes]: bytes, little-endian integers of a fixed width.
    - [Text]: UTF-8 validation and the character classes the sources use.
    - [BTree]: [BTreeMap] as a sorted association list.
    - [Net]: programs over a byte stream, their semantics against any
      environment ([exec]), against a recorded peer ([serve]) and against
      each other under arbitrary interleaving ([step]), with confluence.

    Messages ([libs/protocol/src/auth.rs]):
    - [Wire]: [WireWriter] and [WireReader] with two program logics.
    - [BootConfig], [BootCodec]: [BootConfigV1], [GuestNetworkConfigV1],
      [GuestDiskConfigV1], [BootstrapConfigV1]: validation, encoding,
      decoding.
    - [AuthMessages]: [ReadyV1], [AuthChallengeV1], [AuthResponseV1],
      [AuthAcceptedV1], [BootstrapResultV1].
    - [AuthProof]: HMAC over an arbitrary SHA-256, the three domain-separated
      proofs and [ReadyV1::verify].

    The channel ([libs/com/src], [libs/init/src]):
    - [Framing]: the four writers and four readers of length-prefixed frames.
    - [AuthSession]: [authenticate_blocking] and [authenticate_async] of the
      host and [authenticate_connection] of the guest, with its connection
      counter.
    - [Messages]: [Command], [Event], their archives behind the class [Rkyv].
    - [GuestDispatch]: [handle_connection], every command arm.
    - [Dispatcher]: [Dispatcher::run] and its handlers as a transition system.
    - [Rpc]: [TcpEndpoint::command] and [bind] against the guest.

    [Scheduler]: [libs/scheduler/src/lib.rs] as a transition system.

    The image core ([libs/image-core/src]):
    - [Oci]: [oci_reference.rs].
    - [Cpio]: path normalisation and the [newc] writer of [ops/cpio.rs].
    - [Flatten]: [ops/flatten.rs]: reading layers, whiteouts, substitution,
      symbolic-link ancestors, emission.
    - [Hardlinks]: the hard-link plan of the same file.
    - [TarCpio]: the conversion of a TAR archive ([ops/cpio.rs]).
    - [Newc]: the class [NewcCrate] of the [newc] reader and writer the boot
      image uses, and the documented format as its instance.
    - [IndexCodec]: the persisted values of [storage/index/serde.rs], with the
      types of [storage/], [artifact/] and [digest.rs] they encode.
    - [IndexStore]: the operations of [storage/index/link_ref.rs],
      [file_ref.rs], [blueprint.rs] and [store.rs] on byte tables with
      transactions, the abstract index they refine, and its invariants.

    Windows machines ([libs/hypervisor-hcs/src]):
    - [Guid]: GUIDs and their texts ([hns.rs]).
    - [HcsJournal]: records of [journal.rs] and its operations as functions on
      the four tables of a session database.
    - [HcsHost]: host programs (calls to Windows and journal transactions),
      the world they act on, their executions with crashes ([exec]), the
      predicate that every execution keeps an invariant at every point and
      ends well ([safe]), and what is assumed of Windows ([windows_call]).
    - [HcsText]: the search for HRESULTs in report texts.
    - [Hns]: networks and endpoints ([hns.rs]); [HnsSafe]: their lemmas.
    - [HcsCleanup]: the cleanup pass and recovery of stale sessions ([vm.rs],
      [operation.rs], [cs/]).
    - [HcsLaunch]: [Session::open], [Vm::from_conf], [start],
      [mark_published], [close] and the two [Drop]s ([vm.rs]).
    - [HcsInv]: the invariant that ties the journal to the host;
      [HcsSafe], [HcsRecover], [HcsTrack]: cleanup, recovery and launch keep
      it; [HcsSystem]: histories of whole programs.
    - [HcsFiles]: which files disappear; [HcsBounded]: what a pass does to the
      journal and how many recoveries are enough; [HcsExample]: a concrete
      host and the instances.

    Machines and their launch ([libs/vm-model/src], [libs/jyth-runtime/src]):
    - [IpAddr]: the address parsers of the standard library.
    - [VmModel]: paths, disks, networks and [VmConfig]; the class [IpNet] is
      what the code uses of the ipnet crate.
    - [LaunchConfig]: what the launcher derives from a request: memory, the
      boot configuration, attached disks and warnings.
    - [Runtime]: [Launcher], [LiveVm], the shutdown action and the observer as
      flows of port calls in which every await may be cancelled; [RuntimeSafe]:
      their theorems.
    - [Boot]: both ends of the serial boot exchange and of the bootstrap
      transfer ([libs/init/src/main.rs], [ops/bootstrap.rs], [bus/mod.rs],
      [libs/jyth/src/adapters/runtime.rs]); [BootSafe]: their theorems.
    - [HcsAdapter]: backend errors and the readiness probe of the same file.

    Kernels and root file systems ([libs/kernel/src], [libs/rootfs/src]):
    - [KernelSpec]: versions, paths, configurations ([spec/]), digests and URLs
      ([image-core/src/digest.rs], [http_url.rs]), the source catalog, the
      constructors and [lower] of [lib.rs].
    - [KernelRequest]: [LinkDigestBuilder], the compiler identity and the
      request digests the caches are keyed by.
    - [Materialize]: [image-core/src/materialize.rs], [kernel/src/service.rs]
      and [rootfs/src/service.rs] as programs over the store and the artifact
      operations.
    - [Artifacts]: the operations that bring content in: formats, staging and
      publication, loading and decompression ([image-core/src/ops/format.rs],
      [io.rs], [load.rs], [decompress.rs]), as programs over a file system that
      may fail and whose destination other processes may change.
    - [KernelBuild]: identical custom builds sharing the store and the lock of
      [cache_lock.rs], as a transition system over the same programs.
    - [Extract]: [ops/extract_kernel.rs], [ops/extract_modules.rs] and
      [rootfs/src/ops/validate_cpio.rs].

    Boot images ([libs/boot-image/src]):
    - [Overlay]: guest paths, overlay entries, the overlay archive, its merge
      with the base archive and the image cache ([overlay.rs], [assembly.rs]).
    - [BootCache]: publication under a content-derived name by concurrent
      processes, the run cache ([cache.rs]) and the boot artifact provider of
      [libs/jyth/src/adapters/runtime.rs].

    Guest commands and processes ([libs/guest-client/src], [libs/init/src]):
    - [Capture]: capture policies, the output accumulator, process errors and
      the lifecycle cell of an observer ([process.rs]).
    - [HostDispatch]: the dispatcher as functions and step relations
      ([transport.rs]), the client ([client.rs]) and files ([files.rs]).
    - [DirectProcess]: process handles ([process.rs]), a prepared process run
      to completion ([direct.rs]) and the cleanup tasks ([cleanup.rs]).
    - [GuestProcess]: the guest's table of processes, their results and pipes
      ([components/process_manager.rs]) as a transition system.
    - [GuestOps]: the guest's disks ([ops/disks.rs]) as the commands they run,
      and its netlink requests ([ops/netlink.rs]).

    The facade ([libs/jyth/src]):
    - [Triggers]: the conditions of [builder/mod.rs] and their join sets, as a
      transition system on trees of futures.
    - [Facade]: process descriptions ([vm/process.rs]), files and directories
      ([builder/file.rs], [builder/dir.rs]), the machine builder
      ([builder/mod.rs]) and the build stage ([build/]); it composes
      [Materialize], [Runtime], [DirectProcess] and [Triggers].

    ** What the theorems show

    - Codecs ([BootCodec], [AuthMessages]): each decoder accepts exactly the
      encodings of valid values, never panics, and the encoder accepts exactly
      the values whose encoding fits; the one exit code that is lost is
      exhibited.
    - Proofs ([AuthProof]): each accepted proof determines the data it covers,
      and proofs of different domains are never interchangeable.  Every such
      theorem has a concrete SHA-256 collision as its alternative, so no
      cryptographic assumption is made.
    - Framing: any writer's frame is read by any reader, allocation is bounded
      by the limit, a truncated frame is an error.
    - Sessions ([AuthSession], [GuestDispatch], [Rpc]): the handshake
      completes for peers that share the capability and is refused otherwise,
      under every schedule; no external call happens before authentication; a
      command call returns exactly the event the guest's components determine.
    - Admission ([Dispatcher]): at most 32 handlers, distinct challenge
      counters, and the loop ends only on an authenticated shutdown.
    - Scheduler: runs end, states are explained by what happened, success is
      earned, concurrency is bounded.
    - Image core: references are identified by their canonical form, the
      component scanner equals its documented expression, archive names are
      confined to the root, whiteouts hide exactly what they name, surviving
      hard links share inodes and counts, and the emitted archive is a well
      formed sequence of aligned records; a converted TAR archive is its
      members' records, links next to their targets ([TarCpio]).
    - Storage index: each codec decodes exactly what it encodes; every
      operation is atomic and refines the abstract index under arbitrary
      database failures; links and identities correspond one to one; a
      published file is found exactly while its bytes are intact.
    - Windows machines: whatever fails and wherever the process dies, compute
      systems, networks and endpoints stay accounted for in a journal, the
      journal tells the truth, no foreign file is deleted and cleanup deletes
      only what its record entitles it to ([HcsSystem], [HcsFiles]); a
      cleanup pass has exactly three outcomes and a stale record is settled
      after four recoveries ([HcsBounded]).  [HcsExample] has the executions
      behind the findings, such as a refused deletion that is read as absence.

    - Machine model and launch: a path is normalised as resolving it would, a
      NAT definition is accepted exactly when it is usable, and the boot
      configuration is the request's ([VmModel], [LaunchConfig]).  However a
      launch ends, everything it obtained was released once; a machine is
      published only after its own READY and probe; retries and shutdown do
      exactly what they promise ([RuntimeSafe]).
    - Boot ([BootSafe]): guest and host finish the exchange under every
      schedule, the host accepts only a READY that proves the frame it sent,
      the bootstrap protocol copies the artifact, and against any peer only
      content with the announced digest is ever published.

    - Kernels: versions, paths and catalogs are accepted exactly when they are
      canonical ([KernelSpec]); requests that share a cache digest are equal,
      up to a concrete BLAKE3 collision ([KernelRequest]); whatever is
      materialised has the right artifact type and is vouched for by the store
      ([Materialize]); identical builds are serialised under every
      interleaving, failure and crash ([KernelBuild]); the extracted kernel is
      the requested member's body ([Extract]); what is loaded or decompressed
      is whole, verified and described by its record before it is moved into
      place, and a failed operation moves nothing; a caller's file is replaced
      whole or kept, whereas publication may lose a stale one ([Artifacts]).
    - Boot images: publication is atomic under every interleaving, and the
      artifacts of a launch are the given kernel and the base with the overlay
      applied and [init] in place, whatever the caches' files hold
      ([BootCache]).
    - Guest commands: no request of the host is lost, answered twice or left
      waiting for a permit that is free, and the dispatcher comes to rest
      ([HostDispatch]); the captured output does not depend on how the stream
      was cut ([Capture]); a run of a process reports what its observer sees
      and leaves no acknowledged process unattended ([DirectProcess]); the
      guest records one end of a process and replays it ([GuestProcess]).
    - Guest devices ([GuestOps]): no formatting tool runs on a disk that existed
      before, as long as the guest's device names are the kernel's, which is up
      to index 26; netlink attributes are read as they are written, and no
      reply makes the guest panic.
    - Facade: a trigger decides its condition in whatever order futures end
      ([Triggers]); the launch request is what the builder was given, and every
      scheduled process starts its own program ([launch_request_exact]); the
      observer of a launch ends in the state that tells how the launch ended
      ([launch_observed]); a configured process builder never panics
      ([process_built]).

    ** Conventions, bounds and fuel

    - Fixed-width integers are [Z] with their range stated where it matters;
      [as] casts, [checked_add] and [saturating] operations are written out.
    - A stream program is a finite resumption: the source's loops over a
      stream are bounded by the frame length they have just validated, so no
      fuel is involved.  [read_exact] and [write_all] are built on single
      reads and writes of the environment's choice.
    - [component_loop] of [Oci] takes the length of the component as fuel:
      each iteration consumes at least one byte, and
      [component_scanner_exact] is an equivalence, so the fuel suffices.
    - [resolve_loop] of [Flatten] takes 40, the source's own
      [MAX_SYMLINK_RESOLUTION_DEPTH].
    - Host programs are finite resumptions too; a crash is an execution cut
      short after any step, with the committed transactions kept.
    - [receive_artifact] of [Boot] takes the announced length as fuel: every
      accepted chunk has at least one byte, so running out is impossible.
    - Decimal rendering of a [u16] port takes 5 digits.
    - A scheduler run of [n] actions ends within [24 * n + 7] steps, a run of
      a trigger within [on_weight] steps.
    - [start_loop] of [HostDispatch] takes the number of pending requests: each
      round starts one, and [start_ready_none_ready] shows none is left that
      could start.  [inbound_framed] of [GuestProcess] takes the length of the
      input: every frame has four bytes of prefix.  [scsi_letters] of
      [GuestOps] takes the index, [attributes] the end of the message: an
      attribute has at least four bytes.  [cursor_reads] of [Artifacts] takes
      the length of the buffer that is left; [cursor_content] shows all of it
      is read.

    ** Parameters

    Code outside the repository is a parameter, and the theorems hold for
    every value of it that meets the stated laws:
    - [sha256] ([sha2]): any function to 32-byte digests.
    - [Rkyv] ([rkyv]): serialisation with a validating deserialiser; the law
      is that what was serialised deserialises to itself.
    - [Url_parse] ([url]): what parsing a URL yields.
    - [redb]: a table is a finite map from key bytes to value bytes, a commit
      publishes a transaction at once and any other exit discards it; which
      calls fail is an argument.  [blake3] is any function.  The path encodings
      of the two platforms are instances of the class [Platform].
    - the [newc] reader ([cpio] crate): a layer is the list of results it
      yields, in any order and with any error; for boot images the class
      [NewcCrate], with the laws that an entry is read from the bytes it
      consumes and that what was written is read back.
    - the [tar] crate: an archive is the list of members each pass reads.
    - [flate2]: any compression function.
    - [uuid] and [serde_json]: the classes [UuidText] and [Serde]; the laws are
      that texts of UUIDs are distinct and have the canonical form of the GUID,
      and that what was written is read back.
    - Windows ([windows_call]): any call may fail, and a failing creation or
      deletion may or may not have taken effect.  Assumed is only that success
      and the not-found codes mean what they say, that listings by name are
      complete, that a new endpoint gets an unused GUID, and that [New-VHD]
      does not overwrite a file.  [honest_windows] adds that texts
      and unrelated calls do not mention the not-found codes; the theorems on
      files and on the journal's bounds do without it.
    - ipnet ([IpNet], [IpNetLaws]): what parsing a network yields, with
      membership, network and broadcast address as documented.
    - [UrlCrate] ([url]): parsing and the parts of a URL, any functions; the
      catalog is what the TOML reader yields.
    - artifact operations of the services: calls that may fail; assumed is only
      that each produces the artifact type it is named for ([ops_typed]); for
      decompression that is [decompress_staged].  In [Artifacts] the hash
      functions and the tar reader's verdict on a first entry are any functions,
      and what a source or a decoder delivers is any list of reads.
    - the allocator: whether it grants a buffer of a given size; the guest's
      operating system: any answer to starting, polling and killing a child.
    - sockets, clocks, file system: the environment of the
      stream programs and transition systems, answering as it likes.

    ** Not modelled, and the plan

    Debug formatting, zeroisation, tracing and, outside the Windows part
    (where the code classifies errors by their text), display formatting and
    error attachments have no functional content and are left out.  Of
    [hypervisor-hcs], the JSON documents sent to Windows, named pipes,
    security descriptors, the console reader and the administration helper
    ([hcs-admin]) are calls that may fail; [hypervisor-kvm] is a stub.
    Mounts, modules and sockets of the guest are system calls of its boot
    program.  The retry loop around opening the shared index database is
    left out, and so are compiling the init binary and the choice of
    cache directories.  Routing an output
    stream into a host file is a parameter of [DirectProcess]; the output relays
    of the guest, which copy bytes, are left out.  Of the facade, compiling
    binaries with cargo is a parameter, and compiling a kernel in a bootstrap
    machine is left out.  Registry access, HTTP requests and the resolution of
    blueprints are not modelled: they drive third-party protocols. *)

From Stdlib Require Import ZArith Lia.
From Stdlib Require Strings.Byte.
From stdpp Require Import base tactics option list numbers strings countable.

#[global] Open Scope Z_scope.
#[global] Set Default Goal Selector "!".

(** ** Outcomes

    A Rust computation that returns [Result<A, Report<E>>] has three
    outcomes in the model: a value, an error (the report's current context;
    attachments are diagnostics only), and a panic ([expect], [unwrap],
    [assert!], out-of-range indexing).  Keeping the panic explicit lets the
    theorems state that it cannot happen. *)

Inductive res (E A : Type) : Type :=
  | Ok (a : A)
  | Err (e : E)
  | Panic.
Arguments Ok {E A} _.
Arguments Err {E A} _.
Arguments Panic {E A}.

#[global] Instance res_ret {E} : MRet (res E) := fun A a => Ok a.
#[global] Instance res_bind {E} : MBind (res E) := fun A B f m =>
  match m with
  | Ok a => f a
  | Err e => Err e
  | Panic => Panic
  end.
#[global] Instance res_fmap {E} : FMap (res E) := fun A B f m =>
  match m with
  | Ok a => Ok (f a)
  | Err e => Err e
  | Panic => Panic
  end.

(** [map_err]: replace the error context. *)
Definition map_err {E F A} (f : E -> F) (m : res E A) : res F A :=
  match m with
  | Ok a => Ok a
  | Err e => Err (f e)
  | Panic => Panic
  end.

(** [Option::ok_or] and [Option::expect]. *)
Definition ok_or {E A} (o : option A) (e : E) : res E A :=
  match o with Some a => Ok a | None => Err e end.
Definition expect {E A} (o : option A) : res E A :=
  match o with Some a => Ok a | None => Panic end.

(** An early [return Err(e)] guarded by a boolean condition. *)
Definition fail_if {E} (c : bool) (e : E) : res E unit :=
  if c then Err e else Ok tt.
(** [assert!(c)]. *)
Definition assert_that {E} (c : bool) : res E unit :=
  if c then Ok tt else Panic.

Definition is_ok {E A} (m : res E A) : bool :=
  match m with Ok _ => true | _ => false end.

#[global] Instance res_eq_dec {E A} `{EqDecision E, EqDecision A} : EqDecision (res E A).
Proof. solve_decision. Defined.

Section ResLemmas.
Context {E A B : Type}.

Lemma res_bind_ok (a : A) (k : A -> res E B) : (Ok a ≫= k) = k a.
Proof. reflexivity. Qed.

Lemma res_bind_ok_inv (m : res E A) (k : A -> res E B) b :
  (m ≫= k) = Ok b -> exists a, m = Ok a /\ k a = Ok b.
Proof. destruct m; cbn; [eauto|discriminate..]. Qed.

Lemma res_bind_err_inv (m : res E A) (k : A -> res E B) e :
  (m ≫= k) = Err e -> m = Err e \/ exists a, m = Ok a /\ k a = Err e.
Proof. destruct m; cbn; [eauto|intros [= ->]; eauto|discriminate]. Qed.

Lemma res_bind_panic_inv (m : res E A) (k : A -> res E B) :
  (m ≫= k) = Panic -> m = Panic \/ exists a, m = Ok a /\ k a = Panic.
Proof. destruct m; cbn; [eauto|discriminate|eauto]. Qed.

Lemma fail_if_ok c (e : E) u : fail_if c e = Ok u -> c = false.
Proof. by destruct c. Qed.

Lemma fail_if_false c (e : E) : c = false -> fail_if c e = Ok tt.
Proof. by intros ->. Qed.

Lemma fail_if_not_panic c (e : E) : fail_if c e <> Panic.
Proof. by destruct c. Qed.

Lemma ok_or_ok (o : option A) (e : E) a : ok_or o e = Ok a -> o = Some a.
Proof. destruct o; cbn; congruence. Qed.

Lemma expect_ok (o : option A) a : expect (E:=E) o = Ok a -> o = Some a.
Proof. destruct o; cbn; congruence. Qed.
End ResLemmas.

(** [res_inv H] takes a hypothesis [m = Ok v] built from binds, guards and
    conversions apart, one step at a time. *)
Ltac res_inv1 H :=
  lazymatch type of H with
  | (_ ≫= _) = Ok _ =>
      let a := fresh "x" in let H1 := fresh "Hx" in
      apply res_bind_ok_inv in H as (a & H1 & H); cbn beta in H;
      try (is_var a; destruct a as [? ?]); cbn beta iota in H
  | fail_if _ _ = Ok _ => apply fail_if_ok in H
  | ok_or _ _ = Ok _ => apply ok_or_ok in H
  | expect _ = Ok _ => apply expect_ok in H
  end.

Create HintDb jyth discriminated.
Create Rewrite HintDb jyth.
#[export] Hint Rewrite @res_bind_ok : jyth.

(** ** Machine integers

    A [w]-bit unsigned Rust integer is a [Z] in [0 <= z < 2^w]. *)

Definition in_u (w : Z) (z : Z) : Prop := 0 <= z < 2 ^ w.
Abbreviation is_u8 := (in_u 8).
Abbreviation is_u16 := (in_u 16).
Abbreviation is_u32 := (in_u 32).
Abbreviation is_u64 := (in_u 64).
Abbreviation is_u128 := (in_u 128).

Definition U32_MAX : Z := 2 ^ 32 - 1.
Definition U64_MAX : Z := 2 ^ 64 - 1.

#[global] Instance in_u_dec w z : Decision (in_u w z).
Proof. unfold in_u. apply _. Defined.

(** [uN::try_from(z)] for a non-negative [z]. *)
Definition try_from_u (w : Z) (z : Z) : option Z :=
  if decide (in_u w z) then Some z else None.

(** [usize::checked_add] on a 64-bit target. *)
Definition checked_add (w a b : Z) : option Z := try_from_u w (a + b).

(** [uN::saturating_add]. *)
Definition saturating_add (w a b : Z) : Z := Z.min (a + b) (2 ^ w - 1).

Lemma try_from_u_ok w z : in_u w z -> try_from_u w z = Some z.
Proof. intros H. unfold try_from_u. by rewrite decide_True. Qed.

Lemma try_from_u_inv w z z' : try_from_u w z = Some z' -> z' = z /\ in_u w z.
Proof. unfold try_from_u. case_decide; naive_solver. Qed.

(** Lengths are compared as integers: the code's bounds are far beyond what
    unary numbers can represent. *)
Definition len {A} (l : list A) : Z := Z.of_nat (length l).

Lemma len_nonneg {A} (l : list A) : 0 <= len l.
Proof. unfold len. lia. Qed.
Lemma len_nil {A} : len (A:=A) [] = 0.
Proof. reflexivity. Qed.
Lemma len_cons {A} (x : A) l : len (x :: l) = 1 + len l.
Proof. unfold len. cbn [length]. lia. Qed.
Lemma len_app {A} (l k : list A) : len (l ++ k) = len l + len k.
Proof. unfold len. rewrite length_app. lia. Qed.
Lemma len_length {A} (l : list A) n : length l = n -> len l = Z.of_nat n.
Proof. by intros <-. Qed.
#[export] Hint Rewrite @len_nil @len_cons @len_app : jyth.
#[export] Hint Resolve len_nonneg : jyth.

(** ** Guards and loops as propositions *)

Section Guards.
Context {E A : Type}.

Lemma guard_ok_iff c (e : E) (k : unit -> res E A) v :
  (fail_if c e ≫= k) = Ok v <-> c = false /\ k tt = Ok v.
Proof. destruct c; cbn; naive_solver. Qed.

Lemma bind_ok_iff {B} (m : res E B) (k : B -> res E A) v :
  (m ≫= k) = Ok v <-> exists b, m = Ok b /\ k b = Ok v.
Proof. split; [apply res_bind_ok_inv|]. intros (b & -> & H). exact H. Qed.

Lemma bind_unit_ok_iff (m : res E unit) (k : unit -> res E A) v :
  (m ≫= k) = Ok v <-> m = Ok tt /\ k tt = Ok v.
Proof. destruct m as [[]| |]; cbn; naive_solver. Qed.

Lemma bind_not_panic {B} (m : res E B) (k : B -> res E A) :
  m <> Panic -> (forall b, m = Ok b -> k b <> Panic) -> (m ≫= k) <> Panic.
Proof. destruct m; cbn; auto. Qed.

Lemma guard_not_panic c (e : E) (k : unit -> res E A) :
  (c = false -> k tt <> Panic) -> (fail_if c e ≫= k) <> Panic.
Proof. destruct c; cbn; auto. Qed.
End Guards.

Lemma map_err_ok {E F A} (g : E -> F) (m : res E A) a : map_err g m = Ok a <-> m = Ok a.
Proof. destruct m; cbn; split; congruence. Qed.

Lemma unit_ok_iff {E} (m : res E unit) : m = Ok tt <-> exists u, m = Ok u.
Proof. split; [eauto|]. by intros [[] ?]. Qed.

(** [for x in xs { s = f(s, x)? }] *)
Fixpoint for_each {E S A} (f : S -> A -> res E S) (xs : list A) (s : S) : res E S :=
  match xs with
  | [] => Ok s
  | x :: xs => s ← f s x; for_each f xs s
  end.

Lemma for_each_unit_ok {E A} (f : unit -> A -> res E unit) xs :
  for_each f xs tt = Ok tt <-> Forall (fun x => f tt x = Ok tt) xs.
Proof.
  induction xs as [|x xs IH]; cbn; [split; auto|].
  rewrite bind_ok_iff, Forall_cons_iff, <-IH. split.
  - intros ([] & ? & ?). auto.
  - intros [? ?]. eauto.
Qed.

Lemma for_each_not_panic {E S A} (f : S -> A -> res E S) xs s :
  (forall s x, f s x <> Panic) -> for_each f xs s <> Panic.
Proof.
  intros H. revert s. induction xs as [|x xs IH]; intros s; cbn; [done|].
  apply bind_not_panic; auto.
Qed.

(** [Iterator::sum]. *)
Definition sum_z (l : list Z) : Z := foldr Z.add 0 l.

Lemma len_concat_map {A B} (f : A -> list B) (l : list A) :
  len (concat (map f l)) = sum_z (map (fun x => len (f x)) l).
Proof. induction l as [|x l IH]; cbn; [done|]. by rewrite len_app, IH. Qed.

Lemma sum_z_ext {A} (f g : A -> Z) l :
  Forall (fun x => f x = g x) l -> sum_z (map f l) = sum_z (map g l).
Proof. induction 1 as [|x l H _ IH]; cbn; [done|]. by rewrite H; f_equal. Qed.

Definition is_empty {A} (l : list A) : bool := match l with [] => true | _ => false end.

Lemma is_empty_false {A} (l : list A) : is_empty l = false <-> l <> [].
Proof. by destruct l. Qed.
