(* ===== verification/Bytes.v ===== *)
(** * Bytes, fixed-width integer codecs, and UTF-8

    [u8] buffers are [list byte] over the standard library's [Byte.byte], so
    the byte bound is carried by the type.  The file models the parts of the
    Rust standard library the sources use on them: [to_le_bytes],
    [to_be_bytes], [from_le_bytes], [from_be_bytes], [str::from_utf8] and
    [str::chars]; a Rust [String] is a byte list whose [utf8_valid] is
    [true]. *)

From Stdlib Require Import ZArith Lia.
From Stdlib Require Import Ascii.
From Stdlib Require Strings.Byte.
From stdpp Require Import base tactics option list numbers strings countable.
From S2P Require Import Prelude.

Abbreviation byte := Byte.byte.
Abbreviation bytes := (list byte).

#[global] Instance byte_eq_dec : EqDecision byte := Byte.byte_eq_dec.
#[global] Instance byte_countable : Countable byte :=
  inj_countable Byte.to_N Byte.of_N Byte.of_to_N.

(** ** Bytes as integers *)

Definition b2z (b : byte) : Z := Z.of_N (Byte.to_N b).
Definition z2b (z : Z) : byte := default Byte.x00 (Byte.of_N (Z.to_N (z mod 256))).

Lemma b2z_range b : 0 <= b2z b < 256.
Proof.
  unfold b2z. pose proof (Byte.to_N_bounded b). lia.
Qed.

Lemma z2b_b2z b : z2b (b2z b) = b.
Proof.
  unfold z2b. rewrite Z.mod_small by apply b2z_range.
  unfold b2z. rewrite N2Z.id, Byte.of_to_N. reflexivity.
Qed.

Lemma b2z_z2b z : b2z (z2b z) = z mod 256.
Proof.
  unfold z2b, b2z. pose proof (Z.mod_pos_bound z 256 ltac:(lia)) as Hm.
  destruct (Byte.of_N (Z.to_N (z mod 256))) as [b|] eqn:Hb; cbn.
  - apply Byte.to_of_N in Hb. rewrite Hb. lia.
  - apply Byte.of_N_None_iff in Hb. lia.
Qed.

Lemma b2z_inj b c : b2z b = b2z c -> b = c.
Proof. intros H. rewrite <-(z2b_b2z b), H. apply z2b_b2z. Qed.

Lemma b2z_z2b_small z : 0 <= z < 256 -> b2z (z2b z) = z.
Proof. intros. rewrite b2z_z2b. by apply Z.mod_small. Qed.

#[export] Hint Rewrite z2b_b2z : jyth.
#[export] Hint Resolve b2z_range : jyth.

(** Text literals of the source, as their UTF-8 bytes. *)
Definition str (s : string) : bytes := String.list_byte_of_string s.
(** A one-character ASCII literal. *)
Definition chr (a : Ascii.ascii) : byte := Ascii.byte_of_ascii a.
#[global] Arguments chr a%_char.

(** ** Fixed-width integers

    [le_bytes n z] is the little-endian encoding of [z] on [n] bytes. *)

Fixpoint le_bytes (n : nat) (z : Z) : bytes :=
  match n with
  | O => []
  | S n => z2b z :: le_bytes n (z / 256)
  end.

Fixpoint le_val (l : bytes) : Z :=
  match l with
  | [] => 0
  | b :: l => b2z b + 256 * le_val l
  end.

Definition be_bytes (n : nat) (z : Z) : bytes := reverse (le_bytes n z).
Definition be_val (l : bytes) : Z := le_val (reverse l).

Lemma length_le_bytes n z : length (le_bytes n z) = n.
Proof. revert z. induction n; intros; cbn; auto. Qed.

Lemma length_be_bytes n z : length (be_bytes n z) = n.
Proof. unfold be_bytes. by rewrite length_reverse, length_le_bytes. Qed.

Lemma len_le_bytes n z : len (le_bytes n z) = Z.of_nat n.
Proof. apply len_length, length_le_bytes. Qed.

Lemma len_be_bytes n z : len (be_bytes n z) = Z.of_nat n.
Proof. apply len_length, length_be_bytes. Qed.

Lemma pow256_S n : 256 ^ Z.of_nat (S n) = 256 * 256 ^ Z.of_nat n.
Proof. rewrite Nat2Z.inj_succ, Z.pow_succ_r by lia. reflexivity. Qed.

Lemma le_val_le_bytes n z : le_val (le_bytes n z) = z mod 256 ^ Z.of_nat n.
Proof.
  revert z. induction n as [|n IH]; intros z.
  - cbn. by rewrite Z.mod_1_r.
  - cbn [le_bytes le_val]. rewrite IH, b2z_z2b, pow256_S.
    rewrite Z.rem_mul_r; lia.
Qed.

Lemma le_val_range l : 0 <= le_val l < 256 ^ Z.of_nat (length l).
Proof.
  induction l as [|b l IH]; [cbn; lia|].
  cbn [le_val length]. rewrite pow256_S. pose proof (b2z_range b). nia.
Qed.

Lemma le_bytes_le_val l : le_bytes (length l) (le_val l) = l.
Proof.
  induction l as [|b l IH]; [done|]. cbn [length le_bytes le_val].
  pose proof (b2z_range b). pose proof (le_val_range l).
  assert ((b2z b + 256 * le_val l) / 256 = le_val l) as ->.
  { rewrite Z.mul_comm, Z.div_add by lia. rewrite Z.div_small by lia. lia. }
  rewrite IH. f_equal. apply b2z_inj. rewrite b2z_z2b.
  rewrite Z.mul_comm, Z.mod_add by lia. by apply Z.mod_small.
Qed.

Lemma le_val_le_bytes_u n z : in_u (8 * Z.of_nat n) z -> le_val (le_bytes n z) = z.
Proof.
  intros [? H]. rewrite le_val_le_bytes, Z.mod_small; [done|].
  rewrite Z.pow_mul_r in H by lia. change (2 ^ 8) with 256 in H. lia.
Qed.

Lemma le_bytes_le_val_n n l : length l = n -> le_bytes n (le_val l) = l.
Proof. intros <-. apply le_bytes_le_val. Qed.

Lemma be_val_be_bytes_u n z : in_u (8 * Z.of_nat n) z -> be_val (be_bytes n z) = z.
Proof.
  intros H. unfold be_val, be_bytes. rewrite reverse_involutive.
  by apply le_val_le_bytes_u.
Qed.

Lemma be_bytes_be_val_n n l : length l = n -> be_bytes n (be_val l) = l.
Proof.
  intros <-. unfold be_val, be_bytes.
  rewrite <-(length_reverse l), le_bytes_le_val. apply reverse_involutive.
Qed.

Lemma le_val_u n l : length l = n -> in_u (8 * Z.of_nat n) (le_val l).
Proof.
  intros <-. pose proof (le_val_range l) as H. split; [lia|].
  rewrite Z.pow_mul_r by lia. apply H.
Qed.

Lemma be_val_u n l : length l = n -> in_u (8 * Z.of_nat n) (be_val l).
Proof. intros <-. apply le_val_u. by rewrite length_reverse. Qed.

Lemma le_bytes_inj n x y :
  in_u (8 * Z.of_nat n) x -> in_u (8 * Z.of_nat n) y -> le_bytes n x = le_bytes n y -> x = y.
Proof.
  intros Hx Hy H. apply (f_equal le_val) in H.
  by rewrite !le_val_le_bytes_u in H.
Qed.

Lemma be_bytes_inj n x y :
  in_u (8 * Z.of_nat n) x -> in_u (8 * Z.of_nat n) y -> be_bytes n x = be_bytes n y -> x = y.
Proof.
  intros Hx Hy H. apply (f_equal be_val) in H.
  by rewrite !be_val_be_bytes_u in H.
Qed.

#[export] Hint Rewrite len_le_bytes len_be_bytes : jyth.

(** ** UTF-8

    [core::str::from_utf8]'s acceptance: the well-formed sequences of
    Unicode Table 3-7. *)

Definition in_range (lo hi : Z) (b : byte) : bool := (lo <=? b2z b) && (b2z b <=? hi).
Definition is_cont (b : byte) : bool := in_range 128 191 b.

Fixpoint utf8_valid (l : bytes) : bool :=
  match l with
  | [] => true
  | b0 :: l0 =>
    if in_range 0 127 b0 then utf8_valid l0 else
    match l0 with
    | [] => false
    | b1 :: l1 =>
      if in_range 194 223 b0 then is_cont b1 && utf8_valid l1 else
      match l1 with
      | [] => false
      | b2 :: l2 =>
        if in_range 224 224 b0 then in_range 160 191 b1 && is_cont b2 && utf8_valid l2 else
        if in_range 237 237 b0 then in_range 128 159 b1 && is_cont b2 && utf8_valid l2 else
        if in_range 225 239 b0 then is_cont b1 && is_cont b2 && utf8_valid l2 else
        match l2 with
        | [] => false
        | b3 :: l3 =>
          if in_range 240 240 b0
          then in_range 144 191 b1 && is_cont b2 && is_cont b3 && utf8_valid l3 else
          if in_range 241 243 b0
          then is_cont b1 && is_cont b2 && is_cont b3 && utf8_valid l3 else
          if in_range 244 244 b0
          then in_range 128 143 b1 && is_cont b2 && is_cont b3 && utf8_valid l3
          else false
        end
      end
    end
  end.

(** [str::chars]: the scalar values of a valid string.  On a byte string
    that is not UTF-8 (which no [&str] is) the remaining bytes are dropped. *)
Fixpoint utf8_chars (l : bytes) : list Z :=
  match l with
  | [] => []
  | b0 :: l0 =>
    if in_range 0 127 b0 then b2z b0 :: utf8_chars l0 else
    match l0 with
    | [] => []
    | b1 :: l1 =>
      if in_range 194 223 b0
      then (Z.land (b2z b0) 31 * 64 + Z.land (b2z b1) 63) :: utf8_chars l1 else
      match l1 with
      | [] => []
      | b2 :: l2 =>
        if in_range 224 239 b0
        then (Z.land (b2z b0) 15 * 4096 + Z.land (b2z b1) 63 * 64 + Z.land (b2z b2) 63)
               :: utf8_chars l2 else
        match l2 with
        | [] => []
        | b3 :: l3 =>
          (Z.land (b2z b0) 7 * 262144 + Z.land (b2z b1) 63 * 4096
             + Z.land (b2z b2) 63 * 64 + Z.land (b2z b3) 63) :: utf8_chars l3
        end
      end
    end
  end.

(** [String::from_utf8]. *)
Definition from_utf8 (l : bytes) : option bytes :=
  if utf8_valid l then Some l else None.

Definition is_ascii (b : byte) : bool := in_range 0 127 b.

Lemma utf8_valid_ascii_cons b l : is_ascii b = true -> utf8_valid (b :: l) = utf8_valid l.
Proof. unfold is_ascii. cbn [utf8_valid]. by intros ->. Qed.

Lemma utf8_valid_ascii l : forallb is_ascii l = true -> utf8_valid l = true.
Proof.
  induction l as [|b l IH]; [done|]. cbn [forallb]. rewrite andb_true_iff.
  intros [? ?]. rewrite utf8_valid_ascii_cons; auto.
Qed.

Example utf8_valid_examples :
  utf8_valid (str "/build") = true
  /\ utf8_valid (map z2b [240; 159; 166; 128]) = true (* a four-byte scalar *)
  /\ utf8_valid (map z2b [192; 128]) = false          (* overlong NUL *)
  /\ utf8_valid (map z2b [237; 160; 128]) = false     (* surrogate *)
  /\ utf8_chars (map z2b [226; 128; 168]) = [8232].
Proof. vm_compute. repeat split. Qed.

(** ** ASCII classes used by the validators *)

Definition is_ascii_digit (b : byte) : bool := in_range 48 57 b.
Definition is_ascii_lowercase (b : byte) : bool := in_range 97 122 b.
Definition is_ascii_uppercase (b : byte) : bool := in_range 65 90 b.
Definition is_ascii_alphanumeric (b : byte) : bool :=
  is_ascii_digit b || is_ascii_lowercase b || is_ascii_uppercase b.
Definition is_ascii_hexdigit (b : byte) : bool :=
  is_ascii_digit b || in_range 97 102 b || in_range 65 70 b.
Definition to_ascii_lowercase (b : byte) : byte :=
  if is_ascii_uppercase b then z2b (b2z b + 32) else b.
Definition eq_ignore_ascii_case (l k : bytes) : bool :=
  bool_decide (map to_ascii_lowercase l = map to_ascii_lowercase k).
