(* ===== verification/Text.v ===== *)
(** * String operations

    The [str] methods the sources use, on UTF-8 byte lists: [split],
    [join], [split_once], [rsplit_once], [rfind], [starts_with],
    [ends_with], [strip_prefix], [replace] of one ASCII character, and the
    byte-wise ordering of [BTreeMap<String, _>].  All separators in the
    sources are ASCII, so the byte view and the [char] view agree. *)

From Stdlib Require Import ZArith Lia.
From stdpp Require Import base tactics option list numbers strings.
From S2P Require Import Prelude Bytes.

(** ** Splitting and joining *)

(** [s.split(c)]: always at least one segment. *)
Fixpoint split_by (p : byte -> bool) (s : bytes) : list bytes :=
  match s with
  | [] => [[]]
  | b :: s =>
    if p b then [] :: split_by p s
    else match split_by p s with
         | [] => [[b]]
         | seg :: segs => (b :: seg) :: segs
         end
  end.
Definition is_byte (c : byte) : byte -> bool := fun b => bool_decide (b = c).
Definition split_on (c : byte) (s : bytes) : list bytes := split_by (is_byte c) s.

(** [segs.join(sep)]. *)
Fixpoint join_with (sep : bytes) (segs : list bytes) : bytes :=
  match segs with
  | [] => []
  | [seg] => seg
  | seg :: segs => seg ++ sep ++ join_with sep segs
  end.

Definition contains_byte (c : byte) (s : bytes) : bool := existsb (is_byte c) s.

Definition free_of (c : byte) (s : bytes) : Prop := c ∉ s.

#[global] Instance free_of_dec c s : Decision (free_of c s).
Proof. unfold free_of. apply _. Defined.

Lemma is_byte_true c b : is_byte c b = true <-> b = c.
Proof. unfold is_byte. apply bool_decide_eq_true. Qed.

Lemma is_byte_refl c : is_byte c c = true.
Proof. by apply is_byte_true. Qed.

Lemma contains_byte_true c s : contains_byte c s = true <-> c ∈ s.
Proof.
  unfold contains_byte. rewrite existsb_exists. setoid_rewrite is_byte_true.
  rewrite list_elem_of_In. naive_solver.
Qed.

Lemma contains_byte_false c s : contains_byte c s = false <-> c ∉ s.
Proof. rewrite <-contains_byte_true, not_true_iff_false. done. Qed.

Lemma split_by_nonempty p s : split_by p s <> [].
Proof.
  destruct s as [|b s]; cbn; [done|]. destruct (p b); [done|].
  by destruct (split_by p s).
Qed.

Lemma split_by_segments p s :
  Forall (fun seg => Forall (fun b => p b = false) seg) (split_by p s).
Proof.
  induction s as [|b s IH]; cbn; [by repeat constructor|].
  destruct (p b) eqn:Hb; [by repeat constructor|].
  destruct (split_by p s) as [|seg segs]; [by repeat constructor|].
  inversion IH; subst. constructor; [|done]. by constructor.
Qed.

Lemma split_on_free c s : Forall (free_of c) (split_on c s).
Proof.
  unfold split_on. eapply Forall_impl; [apply split_by_segments|].
  intros seg Hseg Hin. rewrite Forall_forall in Hseg. specialize (Hseg c Hin).
  by rewrite is_byte_refl in Hseg.
Qed.

Lemma split_on_cons_sep c s : split_on c (c :: s) = [] :: split_on c s.
Proof. unfold split_on. cbn. by rewrite is_byte_refl. Qed.

Lemma join_split c s : join_with [c] (split_on c s) = s.
Proof.
  unfold split_on. induction s as [|b s IH]; [done|]. cbn [split_by].
  pose proof (split_by_nonempty (is_byte c) s) as Hne.
  destruct (is_byte c b) eqn:Hb.
  - apply is_byte_true in Hb as ->.
    destruct (split_by (is_byte c) s) as [|seg segs]; [done|].
    cbn [join_with app]. f_equal. exact IH.
  - destruct (split_by (is_byte c) s) as [|seg [|seg' segs]]; [done| |];
      cbn [join_with app] in *; by rewrite <-IH.
Qed.

Lemma split_on_app_free c s t :
  c ∉ s -> split_on c (s ++ t) =
           match split_on c t with [] => [s] | seg :: segs => (s ++ seg) :: segs end.
Proof.
  unfold split_on. intros Hs. pose proof (split_by_nonempty (is_byte c) t) as Hne.
  induction s as [|b s IH]; cbn [app split_by].
  - by destruct (split_by (is_byte c) t).
  - assert (is_byte c b = false) as ->.
    { apply not_true_iff_false. rewrite is_byte_true. intros ->. apply Hs. by left. }
    rewrite IH by (intros ?; apply Hs; by right).
    by destruct (split_by (is_byte c) t).
Qed.

Lemma split_on_free_single c s : c ∉ s -> split_on c s = [s].
Proof.
  intros Hs. rewrite <-(app_nil_r s) at 1.
  rewrite split_on_app_free by done. cbn. by rewrite app_nil_r.
Qed.

Lemma split_join c segs :
  segs <> [] -> Forall (free_of c) segs -> split_on c (join_with [c] segs) = segs.
Proof.
  intros Hne Hf. induction Hf as [|seg segs Hseg Hf IH]; [done|].
  destruct segs as [|seg' segs].
  - by apply split_on_free_single.
  - cbn [join_with]. rewrite split_on_app_free by done.
    cbn [app]. rewrite split_on_cons_sep.
    rewrite app_nil_r. f_equal. by apply IH.
Qed.

Lemma join_with_nil_iff c segs :
  Forall (fun seg => seg <> []) segs -> join_with [c] segs = [] <-> segs = [].
Proof.
  intros Hf. split; [|by intros ->].
  destruct Hf as [|seg [|seg' segs]]; cbn; [done| |]; destruct seg; done.
Qed.

(** ** Prefixes and suffixes *)

Fixpoint strip_prefix (p s : bytes) : option bytes :=
  match p, s with
  | [], s => Some s
  | a :: p, b :: s => if decide (a = b) then strip_prefix p s else None
  | _ :: _, [] => None
  end.

Definition starts_with (p s : bytes) : bool :=
  match strip_prefix p s with Some _ => true | None => false end.
Definition strip_suffix (p s : bytes) : option bytes :=
  reverse <$> strip_prefix (reverse p) (reverse s).
Definition ends_with (p s : bytes) : bool :=
  match strip_suffix p s with Some _ => true | None => false end.

Lemma strip_prefix_Some p s t : strip_prefix p s = Some t <-> s = p ++ t.
Proof.
  revert s. induction p as [|a p IH]; intros s; cbn.
  - naive_solver.
  - destruct s as [|b s]; [naive_solver|]. case_decide as Hab.
    + subst. rewrite IH. naive_solver.
    + naive_solver.
Qed.

Lemma starts_with_true p s : starts_with p s = true <-> exists t, s = p ++ t.
Proof.
  unfold starts_with. destruct (strip_prefix p s) as [t|] eqn:H.
  - apply strip_prefix_Some in H. naive_solver.
  - split; [done|]. intros [t Ht]. apply strip_prefix_Some in Ht. congruence.
Qed.

Lemma starts_with_app p t : starts_with p (p ++ t) = true.
Proof. apply starts_with_true. eauto. Qed.

(** ** Splitting at the first or last separator *)

(** [s.split_once(c)]. *)
Fixpoint split_once (c : byte) (s : bytes) : option (bytes * bytes) :=
  match s with
  | [] => None
  | b :: s =>
    if decide (b = c) then Some ([], s)
    else match split_once c s with
         | Some (l, r) => Some (b :: l, r)
         | None => None
         end
  end.

(** [s.rsplit_once(c)]; [s.rfind(c)] is the length of its first part. *)
Definition rsplit_once (c : byte) (s : bytes) : option (bytes * bytes) :=
  match split_once c (reverse s) with
  | Some (l, r) => Some (reverse r, reverse l)
  | None => None
  end.

Lemma split_once_Some c s l r :
  split_once c s = Some (l, r) <-> s = l ++ c :: r /\ c ∉ l.
Proof.
  revert l. induction s as [|b s IH]; intros l; cbn.
  - split; [done|]. intros [H _]. by destruct l.
  - case_decide as Hb.
    + subst b. split.
      * intros [= <- <-]. split; [done|]. apply not_elem_of_nil.
      * intros [H Hl]. destruct l as [|a l]; [naive_solver|].
        cbn in H. injection H as <- _. exfalso. apply Hl. by left.
    + destruct (split_once c s) as [[l' r']|] eqn:Hs.
      * split.
        -- intros [= <- <-]. destruct (proj1 (IH l') eq_refl) as [-> Hl'].
           split; [done|]. rewrite not_elem_of_cons. naive_solver.
        -- intros [H Hl]. destruct l as [|a l]; [naive_solver|].
           cbn in H. injection H as <- H.
           assert (split_once c s = Some (l, r)) as E.
           { rewrite Hs. apply IH. split; [done|]. intros ?; apply Hl; by right. }
           rewrite Hs in E. congruence.
      * split; [done|]. intros [H Hl]. destruct l as [|a l]; [naive_solver|].
        cbn in H. injection H as <- H.
        assert (None = Some (l, r)) as E; [|done].
        apply IH. split; [done|]. intros ?; apply Hl; by right.
Qed.

Lemma split_once_None c s : split_once c s = None <-> c ∉ s.
Proof.
  induction s as [|b s IH]; cbn.
  - split; [intros _; apply not_elem_of_nil|done].
  - rewrite not_elem_of_cons. case_decide as Hb; [naive_solver|].
    destruct (split_once c s) as [[l r]|]; naive_solver.
Qed.

Lemma reverse_split {A} (l r : list A) c : reverse (l ++ c :: r) = reverse r ++ c :: reverse l.
Proof. by rewrite reverse_app, reverse_cons, <-app_assoc. Qed.

Lemma rsplit_once_Some c s l r :
  rsplit_once c s = Some (l, r) <-> s = l ++ c :: r /\ c ∉ r.
Proof.
  assert (split_once c (reverse s) = Some (reverse r, reverse l)
          <-> s = l ++ c :: r /\ c ∉ r) as <-.
  { rewrite split_once_Some, elem_of_reverse, <-reverse_split. split.
    - intros [H%(f_equal reverse) ?]. by rewrite !reverse_involutive in H.
    - by intros [-> ?]. }
  unfold rsplit_once. destruct (split_once c (reverse s)) as [[l' r']|]; [|done].
  split; intros [= H1 H2]; subst; by rewrite ?reverse_involutive.
Qed.

Lemma rsplit_once_None c s : rsplit_once c s = None <-> c ∉ s.
Proof.
  unfold rsplit_once.
  destruct (split_once c (reverse s)) as [[l r]|] eqn:H.
  - split; [done|]. intros Hs. apply split_once_Some in H as [H _].
    exfalso. apply Hs. rewrite <-elem_of_reverse, H. apply elem_of_app. right. by left.
  - apply split_once_None in H. by rewrite elem_of_reverse in H.
Qed.

(** [s.replace(a, b)] for single ASCII characters. *)
Definition replace_byte (a b : byte) (s : bytes) : bytes :=
  map (fun c => if decide (c = a) then b else c) s.

(** ** Byte-wise lexicographic order ([Ord for str]) *)

Fixpoint bytes_ltb (s t : bytes) : bool :=
  match s, t with
  | _, [] => false
  | [], _ :: _ => true
  | a :: s, b :: t => (b2z a <? b2z b) || (bool_decide (a = b) && bytes_ltb s t)
  end.

Definition bytes_lt (s t : bytes) : Prop := bytes_ltb s t = true.

Lemma bytes_lt_irrefl s : ~ bytes_lt s s.
Proof.
  unfold bytes_lt. induction s as [|a s IH]; cbn; [done|].
  rewrite Z.ltb_irrefl, bool_decide_true by done. cbn. done.
Qed.

Lemma bytes_lt_cons a s b t :
  bytes_lt (a :: s) (b :: t) <-> b2z a < b2z b \/ (a = b /\ bytes_lt s t).
Proof.
  unfold bytes_lt. cbn. rewrite orb_true_iff, andb_true_iff, Z.ltb_lt, bool_decide_eq_true.
  done.
Qed.

Lemma bytes_lt_trans s t u : bytes_lt s t -> bytes_lt t u -> bytes_lt s u.
Proof.
  revert t u. induction s as [|a s IH]; intros [|b t] [|c u]; try done.
  rewrite !bytes_lt_cons. intros [?|[-> ?]] [?|[-> ?]]; [lia|by left|by left|].
  right. eauto.
Qed.

Lemma bytes_lt_total s t : bytes_lt s t \/ s = t \/ bytes_lt t s.
Proof.
  revert t. induction s as [|a s IH]; intros [|b t].
  - by right; left.
  - by left.
  - by right; right.
  - rewrite !bytes_lt_cons.
    destruct (Z.lt_trichotomy (b2z a) (b2z b)) as [?|[Hab|?]]; [tauto| |tauto].
    apply b2z_inj in Hab as <-. destruct (IH t) as [?|[->|?]]; tauto.
Qed.

Lemma bytes_lt_prefix s b t : bytes_lt s (s ++ b :: t).
Proof.
  induction s as [|a s IH]; [done|]. cbn. rewrite bytes_lt_cons. by right.
Qed.
