(* ===== verification/Wire.v ===== *)
(** * The bounded wire encoding of the control plane

    [libs/protocol/src/auth.rs] encodes the boot and authentication messages
    with two private helpers: [WireWriter], an append-only buffer, and
    [WireReader], a slice with an offset.  This file models both, and gives
    the two program logics the message proofs use:

    - [accepts p input Q]: [p] does not panic, and if it succeeds then [Q]
      holds of the value and of the bytes left (the rules equate [input] with
      what was consumed, followed by what is left);
    - [runs p input Q]: on this input [p] succeeds, and [Q] holds of the value
      and of the bytes left. *)

From Stdlib Require Import ZArith Lia.
From stdpp Require Import base tactics option list numbers strings.
From S2P Require Import Prelude Bytes Text.

(** [ProtocolError] ([libs/protocol/src/lib.rs]). *)
Inductive ProtocolError :=
  | Access
  | Deserialize
  | Serialize
  | InvalidFrame
  | VersionMismatch
  | InvalidValue
  | Randomness
  | Authentication.

#[global] Instance ProtocolError_eq_dec : EqDecision ProtocolError.
Proof. solve_decision. Defined.

Definition invalid_frame : ProtocolError := InvalidFrame.
Definition invalid_value : ProtocolError := InvalidValue.

(** ** The writer *)

Record WireWriter := { ww_bytes : bytes }.

Definition WireWriter_with_capacity (capacity : Z) : WireWriter := {| ww_bytes := [] |}.
Definition push_bytes (w : WireWriter) (b : bytes) : WireWriter :=
  {| ww_bytes := ww_bytes w ++ b |}.
Definition push_u8 (w : WireWriter) (v : Z) : WireWriter := push_bytes w [z2b v].
Definition push_u16 (w : WireWriter) (v : Z) : WireWriter := push_bytes w (le_bytes 2 v).
Definition push_u32 (w : WireWriter) (v : Z) : WireWriter := push_bytes w (le_bytes 4 v).
Definition push_u64 (w : WireWriter) (v : Z) : WireWriter := push_bytes w (le_bytes 8 v).
Definition push_string (w : WireWriter) (v : bytes) : res ProtocolError WireWriter :=
  n ← expect (try_from_u 16 (len v));
  Ok (push_bytes (push_u16 w n) v).
Definition WireWriter_finish (w : WireWriter) (maximum : Z) : res ProtocolError bytes :=
  if maximum <? len (ww_bytes w) then Err invalid_frame else Ok (ww_bytes w).

(** ** The reader *)

Record WireReader := { wr_bytes : bytes; wr_offset : Z }.

Definition WireReader_new (b : bytes) : WireReader := {| wr_bytes := b; wr_offset := 0 |}.

(** A reading computation: [&mut self] threaded through [ProtocolResult]. *)
Definition rd (A : Type) : Type := WireReader -> res ProtocolError (A * WireReader).

#[global] Instance rd_ret : MRet rd := fun A a r => Ok (a, r).
#[global] Instance rd_bind : MBind rd := fun A B k m r =>
  match m r with
  | Ok (a, r) => k a r
  | Err e => Err e
  | Panic => Panic
  end.
Definition lift {A} (m : res ProtocolError A) : rd A := fun r => (fun a => (a, r)) <$> m.

(** [slice.get(a..b)]. *)
Definition get_range (b : bytes) (lo hi : Z) : option bytes :=
  if (lo <=? hi) && (hi <=? len b)
  then Some (take (Z.to_nat (hi - lo)) (drop (Z.to_nat lo) b)) else None.

Definition take_bytes (length : Z) : rd bytes := fun r =>
  end_ ← ok_or (checked_add 64 (wr_offset r) length) invalid_frame;
  value ← ok_or (get_range (wr_bytes r) (wr_offset r) end_) invalid_frame;
  Ok (value, {| wr_bytes := wr_bytes r; wr_offset := end_ |}).

(** [copy_from_slice] panics when the lengths differ. *)
Definition take_array (N : Z) : rd bytes :=
  b ← take_bytes N;
  _ ← lift (assert_that (len b =? N));
  mret b.

Definition take_u8 : rd Z :=
  b ← take_bytes 1;
  v ← lift (expect (head b));
  mret (b2z v).
Definition take_u16 : rd Z := b ← take_array 2; mret (le_val b).
Definition take_u32 : rd Z := b ← take_array 4; mret (le_val b).
Definition take_u64 : rd Z := b ← take_array 8; mret (le_val b).

Definition take_string (maximum : Z) : rd bytes :=
  length ← take_u16;
  _ ← lift (fail_if (maximum <? length) invalid_value);
  b ← take_bytes length;
  lift (ok_or (from_utf8 b) invalid_value).

Definition WireReader_finish : rd unit := fun r =>
  if wr_offset r =? len (wr_bytes r) then Ok (tt, r) else Err invalid_frame.

(** [for _ in 0..n { v.push(p()?) }] *)
Fixpoint repeat_rd {A} (n : nat) (p : rd A) : rd (list A) :=
  match n with
  | O => mret []
  | S n => x ← p; xs ← repeat_rd n p; mret (x :: xs)
  end.

(** ** Lemmas on the writer *)

Lemma push_bytes_bytes w b : ww_bytes (push_bytes w b) = ww_bytes w ++ b.
Proof. reflexivity. Qed.
Lemma push_u8_bytes w v : ww_bytes (push_u8 w v) = ww_bytes w ++ [z2b v].
Proof. reflexivity. Qed.
Lemma push_u16_bytes w v : ww_bytes (push_u16 w v) = ww_bytes w ++ le_bytes 2 v.
Proof. reflexivity. Qed.
Lemma push_u32_bytes w v : ww_bytes (push_u32 w v) = ww_bytes w ++ le_bytes 4 v.
Proof. reflexivity. Qed.
Lemma push_u64_bytes w v : ww_bytes (push_u64 w v) = ww_bytes w ++ le_bytes 8 v.
Proof. reflexivity. Qed.
Lemma with_capacity_bytes n : ww_bytes (WireWriter_with_capacity n) = [].
Proof. reflexivity. Qed.
#[export] Hint Rewrite push_bytes_bytes push_u8_bytes push_u16_bytes push_u32_bytes
  push_u64_bytes with_capacity_bytes : jyth.

(** The wire form of a length-prefixed string. *)
Definition string_wire (s : bytes) : bytes := le_bytes 2 (len s) ++ s.

Lemma writer_ext w w' : ww_bytes w = ww_bytes w' -> w = w'.
Proof. destruct w, w'; cbn. by intros ->. Qed.

Lemma push_string_ok w s :
  len s < 2 ^ 16 -> push_string w s = Ok (push_bytes w (string_wire s)).
Proof.
  intros H. unfold push_string. rewrite try_from_u_ok by (split; [apply len_nonneg|done]).
  cbn. f_equal. apply writer_ext. cbn. by rewrite <-app_assoc.
Qed.

(** A loop whose body appends the encoding of each element. *)
Lemma for_each_push {A} (f : WireWriter -> A -> res ProtocolError WireWriter)
    (enc : A -> bytes) xs w :
  Forall (fun x => forall w, f w x = Ok (push_bytes w (enc x))) xs ->
  for_each f xs w = Ok (push_bytes w (concat (map enc xs))).
Proof.
  intros H. revert w. induction H as [|x xs Hx _ IH]; intros w; cbn.
  - f_equal. apply writer_ext. cbn. by rewrite app_nil_r.
  - rewrite Hx. cbn. rewrite IH. f_equal. apply writer_ext. cbn. by rewrite app_assoc.
Qed.

(** ** The reader's view: the bytes not yet consumed *)

Definition reader_at (r : WireReader) (rest : bytes) : Prop :=
  0 <= wr_offset r <= len (wr_bytes r) /\ len (wr_bytes r) < 2 ^ 64
  /\ drop (Z.to_nat (wr_offset r)) (wr_bytes r) = rest.

Lemma reader_at_new b : len b < 2 ^ 64 -> reader_at (WireReader_new b) b.
Proof. intros H. split_and!; cbn; try done. apply len_nonneg. Qed.

Lemma reader_at_len r rest : reader_at r rest -> len rest = len (wr_bytes r) - wr_offset r.
Proof.
  intros (Ho & _ & <-). unfold len in *. rewrite length_drop. lia.
Qed.

Lemma take_bytes_ok r b rest :
  reader_at r (b ++ rest) ->
  exists r', take_bytes (len b) r = Ok (b, r') /\ reader_at r' rest.
Proof.
  intros Hr. pose proof (reader_at_len _ _ Hr) as Hl. rewrite len_app in Hl.
  destruct Hr as (Ho & Hw & Hd).
  pose proof (len_nonneg b). pose proof (len_nonneg rest).
  exists {| wr_bytes := wr_bytes r; wr_offset := wr_offset r + len b |}.
  unfold take_bytes, checked_add. rewrite try_from_u_ok by (unfold in_u; lia). cbn.
  unfold get_range. rewrite (proj2 (Z.leb_le _ _)), (proj2 (Z.leb_le _ _)) by lia. cbn.
  replace (wr_offset r + len b - wr_offset r) with (len b) by lia.
  rewrite Hd. unfold len at 1. rewrite Nat2Z.id, take_app_length. split; [done|].
  split_and!; cbn; [lia..|].
  rewrite Z2Nat.inj_add by lia. rewrite <-drop_drop, Hd.
  unfold len. by rewrite Nat2Z.id, drop_app_length.
Qed.

Lemma take_bytes_inv n r rest v r' :
  0 <= n -> reader_at r rest -> take_bytes n r = Ok (v, r') ->
  exists rest', rest = v ++ rest' /\ len v = n /\ reader_at r' rest'.
Proof.
  intros Hn Hr H. pose proof (reader_at_len _ _ Hr) as Hl.
  unfold take_bytes in H. res_inv1 H. res_inv1 Hx.
  apply try_from_u_inv in Hx as [-> Hx].
  apply res_bind_ok_inv in H as (v0 & Hv & H). injection H as <- <-.
  apply ok_or_ok in Hv. unfold get_range in Hv.
  destruct (_ && _) eqn:Hc; [|done]. apply andb_true_iff in Hc as [_ Hc%Z.leb_le].
  injection Hv as <-. destruct Hr as (Ho & Hw & Hd).
  assert (length rest >= Z.to_nat n)%nat as Hlen by (unfold len in *; lia).
  exists (drop (Z.to_nat n) rest).
  replace (wr_offset r + n - wr_offset r) with n by lia. rewrite Hd.
  split; [by rewrite take_drop|]. split.
  { unfold len. rewrite length_take. lia. }
  split_and!; cbn; [lia..|].
  by rewrite Z2Nat.inj_add, <-drop_drop, Hd by lia.
Qed.

Lemma take_bytes_not_panic n r : take_bytes n r <> Panic.
Proof.
  unfold take_bytes. destruct (checked_add _ _ _); [|done]. cbn.
  by destruct (get_range _ _ _).
Qed.

(** ** What an accepting read has consumed *)

Definition accepts {A} (p : rd A) (input : bytes) (Q : A -> bytes -> Prop) : Prop :=
  forall r, reader_at r input ->
  match p r with
  | Ok (v, r') => exists rest, reader_at r' rest /\ Q v rest
  | Err _ => True
  | Panic => False
  end.

Section Accepts.
Context {A B : Type}.

Lemma accepts_ret (v : A) input (Q : A -> bytes -> Prop) :
  Q v input -> accepts (mret v) input Q.
Proof. intros HQ r Hr. cbn. by exists input. Qed.

Lemma accepts_bind (p : rd A) (k : A -> rd B) input Q :
  accepts p input (fun v rest => accepts (k v) rest Q) -> accepts (p ≫= k) input Q.
Proof.
  intros Hp r Hr. specialize (Hp r Hr). unfold mbind, rd_bind.
  destruct (p r) as [[v r']| |]; [|done..].
  destruct Hp as (rest & Hr' & Hk). by apply Hk.
Qed.

Lemma accepts_lift (m : res ProtocolError A) input (Q : A -> bytes -> Prop) :
  m <> Panic -> (forall v, m = Ok v -> Q v input) -> accepts (lift m) input Q.
Proof.
  intros Hp HQ r Hr. unfold lift. destruct m as [v|e|]; cbn; [|done..].
  exists input. auto.
Qed.

Lemma accepts_fail (e : ProtocolError) input (Q : A -> bytes -> Prop) :
  accepts (lift (Err e)) input Q.
Proof. by apply accepts_lift. Qed.
End Accepts.

(** A guard [if c { return Err(e) }]. *)
Lemma accepts_guard {B} (c : bool) e (k : unit -> rd B) input Q :
  (c = false -> accepts (k tt) input Q) -> accepts (lift (fail_if c e) ≫= k) input Q.
Proof.
  intros H. apply accepts_bind, accepts_lift; [apply fail_if_not_panic|].
  intros [] Hc%fail_if_ok. by apply H.
Qed.

Lemma accepts_take n input (Q : bytes -> bytes -> Prop) :
  0 <= n -> (forall b rest, input = b ++ rest -> len b = n -> Q b rest) ->
  accepts (take_bytes n) input Q.
Proof.
  intros Hn HQ r Hr. pose proof (take_bytes_not_panic n r).
  destruct (take_bytes n r) as [[v r']| |] eqn:H'; [|done..].
  destruct (take_bytes_inv _ _ _ _ _ Hn Hr H') as (rest' & -> & Hv & Hr').
  exists rest'. auto.
Qed.

Lemma accepts_array n input (Q : bytes -> bytes -> Prop) :
  0 <= n -> (forall b rest, input = b ++ rest -> len b = n -> Q b rest) ->
  accepts (take_array n) input Q.
Proof.
  intros Hn HQ. apply accepts_bind, accepts_take; [done|]. intros b rest -> Hb.
  rewrite Hb, Z.eqb_refl. cbn. apply accepts_bind, accepts_lift; [done|].
  intros _ _. apply accepts_ret. auto.
Qed.

Lemma accepts_u8 input (Q : Z -> bytes -> Prop) :
  (forall v rest, input = z2b v :: rest -> is_u8 v -> Q v rest) -> accepts take_u8 input Q.
Proof.
  intros HQ. apply accepts_bind, accepts_take; [done|]. intros b rest -> Hb.
  destruct b as [|x [|y l]]; [done| |rewrite !len_cons in Hb; pose proof (len_nonneg l); lia].
  apply accepts_bind, accepts_lift; [done|]. intros v [= ->].
  apply accepts_ret, HQ; [by rewrite z2b_b2z|apply b2z_range].
Qed.

Lemma accepts_le n input (Q : Z -> bytes -> Prop) :
  (forall v rest, input = le_bytes n v ++ rest -> in_u (8 * Z.of_nat n) v -> Q v rest) ->
  accepts (b ← take_array (Z.of_nat n); mret (le_val b)) input Q.
Proof.
  intros HQ. apply accepts_bind, accepts_array; [lia|]. intros b rest -> Hb.
  assert (length b = n) as Hn by (unfold len in Hb; lia).
  apply accepts_ret, HQ; [by rewrite le_bytes_le_val_n|by apply le_val_u].
Qed.

Lemma accepts_u16 input (Q : Z -> bytes -> Prop) :
  (forall v rest, input = le_bytes 2 v ++ rest -> is_u16 v -> Q v rest) ->
  accepts take_u16 input Q.
Proof. apply (accepts_le 2). Qed.
Lemma accepts_u32 input (Q : Z -> bytes -> Prop) :
  (forall v rest, input = le_bytes 4 v ++ rest -> is_u32 v -> Q v rest) ->
  accepts take_u32 input Q.
Proof. apply (accepts_le 4). Qed.
Lemma accepts_u64 input (Q : Z -> bytes -> Prop) :
  (forall v rest, input = le_bytes 8 v ++ rest -> is_u64 v -> Q v rest) ->
  accepts take_u64 input Q.
Proof. apply (accepts_le 8). Qed.

Lemma from_utf8_Some b s : from_utf8 b = Some s <-> b = s /\ utf8_valid s = true.
Proof.
  unfold from_utf8. destruct (utf8_valid b) eqn:Hb.
  - split; [by intros [= <-]|by intros [-> _]].
  - split; [done|]. intros [-> ?]. congruence.
Qed.

Lemma accepts_utf8 b e input (Q : bytes -> bytes -> Prop) :
  (utf8_valid b = true -> Q b input) -> accepts (lift (ok_or (from_utf8 b) e)) input Q.
Proof.
  intros HQ. apply accepts_lift; [by destruct (from_utf8 b)|].
  intros v [<- ?]%ok_or_ok%from_utf8_Some. auto.
Qed.

Lemma accepts_string m input (Q : bytes -> bytes -> Prop) :
  (forall s rest, input = string_wire s ++ rest -> len s <= m -> utf8_valid s = true ->
     Q s rest) ->
  accepts (take_string m) input Q.
Proof.
  intros HQ. apply accepts_bind, accepts_u16. intros n rest -> Hn.
  apply accepts_guard. intros Hm%Z.ltb_ge.
  apply accepts_bind, accepts_take; [apply Hn|]. intros b rest' -> Hb.
  apply accepts_utf8. intros Hu. apply HQ; [|lia|done].
  unfold string_wire. by rewrite Hb, app_assoc.
Qed.

Lemma accepts_repeat {A} (p : rd A) (enc : A -> bytes) (P : A -> Prop) n input
    (Q : list A -> bytes -> Prop) :
  (forall input (Q : A -> bytes -> Prop),
     (forall v rest, input = enc v ++ rest -> P v -> Q v rest) -> accepts p input Q) ->
  (forall vs rest, input = concat (map enc vs) ++ rest -> length vs = n -> Forall P vs ->
     Q vs rest) ->
  accepts (repeat_rd n p) input Q.
Proof.
  intros Hp. revert input Q. induction n as [|n IH]; intros input Q HQ; cbn.
  - apply accepts_ret. by apply (HQ []).
  - apply accepts_bind, Hp. intros v rest -> Hv.
    apply accepts_bind, IH. intros vs rest' -> Hn Hvs. apply accepts_ret, HQ; cbn.
    + by rewrite app_assoc.
    + by f_equal.
    + by constructor.
Qed.

Lemma accepts_finish input (Q : unit -> bytes -> Prop) :
  (input = [] -> Q tt []) -> accepts WireReader_finish input Q.
Proof.
  intros HQ r Hr. pose proof (reader_at_len _ _ Hr) as Hl. unfold WireReader_finish.
  destruct (_ =? _) eqn:He; [|done]. apply Z.eqb_eq in He.
  assert (input = []) as -> by (destruct input; [done|unfold len in *; cbn in *; lia]).
  exists []. auto.
Qed.

Lemma accepts_new {A} (p : rd A) input (Q : A -> bytes -> Prop) :
  len input < 2 ^ 64 -> accepts p input Q ->
  p (WireReader_new input) <> Panic
  /\ forall v r, p (WireReader_new input) = Ok (v, r) -> exists rest, Q v rest.
Proof.
  intros Hl Hp. specialize (Hp _ (reader_at_new _ Hl)).
  destruct (p _) as [[v r]| |]; [|done..]. split; [done|].
  intros v' r' [= <- <-]. naive_solver.
Qed.

(** ** Inputs on which a read succeeds *)

Definition runs {A} (p : rd A) (input : bytes) (Q : A -> bytes -> Prop) : Prop :=
  forall r, reader_at r input ->
  exists v r' rest, p r = Ok (v, r') /\ reader_at r' rest /\ Q v rest.

Section Runs.
Context {A B : Type}.

Lemma runs_ret (v : A) input (Q : A -> bytes -> Prop) : Q v input -> runs (mret v) input Q.
Proof. intros HQ r Hr. by exists v, r, input. Qed.

Lemma runs_bind (p : rd A) (k : A -> rd B) input Q :
  runs p input (fun v rest => runs (k v) rest Q) -> runs (p ≫= k) input Q.
Proof.
  intros Hp r Hr. destruct (Hp r Hr) as (v & r' & rest & E & Hr' & Hk).
  unfold mbind, rd_bind. rewrite E. by apply Hk.
Qed.

Lemma runs_lift (m : res ProtocolError A) v input (Q : A -> bytes -> Prop) :
  m = Ok v -> Q v input -> runs (lift m) input Q.
Proof. intros -> HQ r Hr. by exists v, r, input. Qed.
End Runs.

Lemma runs_guard {B} (c : bool) e (k : unit -> rd B) input Q :
  c = false -> runs (k tt) input Q -> runs (lift (fail_if c e) ≫= k) input Q.
Proof. intros -> Hk. apply runs_bind. by eapply runs_lift. Qed.

Lemma runs_take n b rest (Q : bytes -> bytes -> Prop) :
  len b = n -> Q b rest -> runs (take_bytes n) (b ++ rest) Q.
Proof.
  intros <- HQ r Hr. destruct (take_bytes_ok _ _ _ Hr) as (r' & E & Hr').
  by exists b, r', rest.
Qed.

Lemma runs_array n b rest (Q : bytes -> bytes -> Prop) :
  len b = n -> Q b rest -> runs (take_array n) (b ++ rest) Q.
Proof.
  intros Hb HQ. apply runs_bind, runs_take; [done|].
  apply runs_bind. eapply runs_lift; [by rewrite Hb, Z.eqb_refl|].
  by apply runs_ret.
Qed.

Lemma runs_u8 v rest (Q : Z -> bytes -> Prop) :
  is_u8 v -> Q v rest -> runs take_u8 (z2b v :: rest) Q.
Proof.
  intros Hv HQ. apply runs_bind, (runs_take _ [z2b v]); [done|].
  apply runs_bind. eapply runs_lift; [done|]. apply runs_ret.
  by rewrite b2z_z2b_small.
Qed.

Lemma runs_le n v rest (Q : Z -> bytes -> Prop) :
  in_u (8 * Z.of_nat n) v -> Q v rest ->
  runs (b ← take_array (Z.of_nat n); mret (le_val b)) (le_bytes n v ++ rest) Q.
Proof.
  intros Hv HQ. apply runs_bind, runs_array; [apply len_le_bytes|].
  apply runs_ret. by rewrite le_val_le_bytes_u.
Qed.

Lemma runs_u16 v rest (Q : Z -> bytes -> Prop) :
  is_u16 v -> Q v rest -> runs take_u16 (le_bytes 2 v ++ rest) Q.
Proof. apply (runs_le 2). Qed.
Lemma runs_u32 v rest (Q : Z -> bytes -> Prop) :
  is_u32 v -> Q v rest -> runs take_u32 (le_bytes 4 v ++ rest) Q.
Proof. apply (runs_le 4). Qed.
Lemma runs_u64 v rest (Q : Z -> bytes -> Prop) :
  is_u64 v -> Q v rest -> runs take_u64 (le_bytes 8 v ++ rest) Q.
Proof. apply (runs_le 8). Qed.

Lemma runs_string m s rest (Q : bytes -> bytes -> Prop) :
  len s <= m -> m < 2 ^ 16 -> utf8_valid s = true -> Q s rest ->
  runs (take_string m) (string_wire s ++ rest) Q.
Proof.
  intros Hs Hm Hu HQ. pose proof (len_nonneg s). unfold string_wire. rewrite <-app_assoc.
  apply runs_bind, runs_u16; [split; lia|].
  apply runs_guard; [by apply Z.ltb_ge|].
  apply runs_bind, runs_take; [done|].
  eapply runs_lift; [|done]. unfold from_utf8. by rewrite Hu.
Qed.

Lemma runs_repeat {A} (p : rd A) (enc : A -> bytes) n vs rest (Q : list A -> bytes -> Prop) :
  Forall (fun v => forall rest (Q : A -> bytes -> Prop),
            Q v rest -> runs p (enc v ++ rest) Q) vs ->
  length vs = n -> Q vs rest ->
  runs (repeat_rd n p) (concat (map enc vs) ++ rest) Q.
Proof.
  intros Hvs <-. revert Q. induction Hvs as [|v vs Hv _ IH]; intros Q HQ; cbn.
  - by apply runs_ret.
  - rewrite <-app_assoc. apply runs_bind, Hv. apply runs_bind, IH.
    by apply runs_ret.
Qed.

Lemma runs_finish (Q : unit -> bytes -> Prop) : Q tt [] -> runs WireReader_finish [] Q.
Proof.
  intros HQ r Hr. pose proof (reader_at_len _ _ Hr) as Hl. rewrite len_nil in Hl.
  exists tt, r, []. unfold WireReader_finish.
  rewrite (proj2 (Z.eqb_eq _ _)) by lia. done.
Qed.

Lemma runs_new {A} (p : rd A) input (Q : A -> bytes -> Prop) :
  len input < 2 ^ 64 -> runs p input Q ->
  exists v r rest, p (WireReader_new input) = Ok (v, r) /\ Q v rest.
Proof.
  intros Hl Hp. destruct (Hp _ (reader_at_new _ Hl)) as (v & r & rest & E & _ & HQ). eauto.
Qed.

(** The step tactics the message proofs use: one read at a time. *)
Ltac accept_step :=
  first
    [ apply accepts_guard; intro
    | apply accepts_fail
    | apply accepts_bind, accepts_u8; intros ? ? -> ?
    | apply accepts_bind, accepts_u16; intros ? ? -> ?
    | apply accepts_bind, accepts_u32; intros ? ? -> ?
    | apply accepts_bind, accepts_u64; intros ? ? -> ?
    | apply accepts_bind, accepts_array; [done|]; intros ? ? -> ?
    | apply accepts_bind, accepts_string; intros ? ? -> ? ?
    | apply accepts_bind, accepts_finish; intros ->
    | apply accepts_ret ].
Ltac run_step :=
  first
    [ apply runs_guard; [|]
    | apply runs_bind, runs_u8; [|]
    | apply runs_bind, runs_u16; [|]
    | apply runs_bind, runs_u32; [|]
    | apply runs_bind, runs_u64; [|]
    | apply runs_bind, runs_array; [done|]
    | apply runs_bind, runs_string; [done|done|done|]
    | apply runs_bind, runs_finish
    | apply runs_ret ].

(** ** The interface of a wire message

    What the transports rely on: a message type with a bounded encoder and a
    decoder that are inverse to each other on the typed values, and a decoder
    that is total. *)

Class WireMessage (M : Type) := {
  wm_encode : M -> res ProtocolError bytes;
  wm_decode : bytes -> res ProtocolError M;
  wm_typed : M -> Prop;
  wm_limit : Z;
}.

Class WireMessageLaws (M : Type) `{!WireMessage M} : Prop := {
  wm_exact b (m : M) : wm_decode b = Ok m <-> wm_typed m /\ wm_encode m = Ok b;
  wm_total b : wm_decode (M:=M) b <> Panic;
  wm_bounded b (m : M) : wm_encode m = Ok b -> len b <= wm_limit;
}.

(** The interface is discharged, for a fixed-layout message, from its reading
    program and its wire form. *)
Section FixedMessage.
Context {M : Type} (read : rd M) (wire : M -> bytes) (typed ok : M -> Prop) (limit : Z).
Context (encode : M -> res ProtocolError bytes).
Hypothesis Hlimit : limit < 2 ^ 64.
Hypothesis Hencode : forall m b, typed m ->
  encode m = Ok b <-> ok m /\ b = wire m /\ len b <= limit.
Hypothesis Hruns : forall m, typed m -> ok m -> runs read (wire m) (fun v rest => v = m).
Hypothesis Haccepts : forall input, accepts read input (fun m rest =>
  input = wire m /\ typed m /\ ok m).

Definition decode_with (b : bytes) : res ProtocolError M :=
  _ ← fail_if (limit <? len b) invalid_frame;
  fst <$> read (WireReader_new b).

Lemma fixed_message_exact b m : decode_with b = Ok m <-> typed m /\ encode m = Ok b.
Proof.
  unfold decode_with. rewrite guard_ok_iff, Z.ltb_ge. split.
  - intros [Hl H]. assert (len b < 2 ^ 64) as Hl' by lia.
    destruct (accepts_new _ _ _ Hl' (Haccepts b)) as [_ Hacc].
    destruct (read _) as [[m' r]| |]; cbn in H; [|done..]. injection H as ->.
    destruct (Hacc m r eq_refl) as (? & -> & Ht & Hok). split; [done|].
    by apply Hencode.
  - intros [Ht H]. apply Hencode in H as (Hok & -> & Hl); [|done]. split; [done|].
    assert (len (wire m) < 2 ^ 64) as Hl' by lia.
    destruct (runs_new _ _ _ Hl' (Hruns m Ht Hok)) as (m' & r & rest & E & ->).
    by rewrite E.
Qed.

Lemma fixed_message_total b : decode_with b <> Panic.
Proof.
  unfold decode_with. apply guard_not_panic. intros Hl%Z.ltb_ge.
  assert (len b < 2 ^ 64) as Hl' by lia.
  destruct (accepts_new _ _ _ Hl' (Haccepts b)) as [Hp _].
  by destruct (read _) as [[]| |].
Qed.
End FixedMessage.

Lemma finish_ok_iff w m b :
  WireWriter_finish w m = Ok b <-> b = ww_bytes w /\ len b <= m.
Proof.
  unfold WireWriter_finish. destruct (Z.ltb_spec m (len (ww_bytes w))).
  - split; [done|]. intros [-> ?]. lia.
  - split; [intros [= <-]; done|]. by intros [-> _].
Qed.
