(* ===== verification/BootConfig.v ===== *)
(** * The COM1 boot configuration

    [BootConfigV1], the host-to-guest message that carries the VM identity,
    the session capability, the network, the disks and the optional bootstrap
    command ([libs/protocol/src/auth.rs]), with its validators, its encoder
    and its decoder.  Rust's fixed arrays are byte lists whose length is part
    of [*_typed]; a [String] is a byte list that is valid UTF-8. *)

From Stdlib Require Import Ascii ZArith Lia.
From stdpp Require Import base tactics option list numbers strings.
From S2P Require Import Prelude Bytes Text Wire.

(** ** Constants *)

Definition PROTOCOL_VERSION : Z := 1.
Definition MAX_BOOT_CONFIG_FRAME : Z := 64 * 1024.
Definition MAX_AUTH_FRAME : Z := 4 * 1024.
Definition MAX_COMMAND_FRAME : Z := 16 * 1024 * 1024.
Definition MAX_BOOTSTRAP_CHUNK : Z := 64 * 1024.
Definition MAX_BOOTSTRAP_ARTIFACT_BYTES : Z := 256 * 1024 * 1024.
Definition MAX_GUEST_CONNECTIONS : Z := 32.
Definition CAPABILITY_LEN : Z := 32.
Definition NONCE_LEN : Z := 32.
Definition MAC_LEN : Z := 32.
Definition MAX_DNS_SERVERS : Z := 16.
Definition MAX_DISKS : Z := 64.
Definition MAX_MOUNT_PATH_BYTES : Z := 4096.
Definition MAX_BOOTSTRAP_ARGS : Z := 16.
Definition MAX_BOOTSTRAP_STRING_BYTES : Z := 4096.
Definition BOOT_CONFIG_TAG : Z := 16.

(** ** Guest network *)

Record GuestNetworkConfigV1 := {
  gn_guest_ip : bytes;
  gn_gateway : bytes;
  gn_prefix_len : Z;
  gn_dns : list bytes;
}.

Definition ipv4_u32 (b : bytes) : Z := be_val b.

(** [u32::MAX << (32 - prefix)], truncated to 32 bits. *)
Definition subnet_mask (prefix_len : Z) : Z :=
  if prefix_len =? 32 then U32_MAX
  else Z.land (Z.shiftl U32_MAX (32 - prefix_len)) U32_MAX.

Definition GuestNetworkConfigV1_validate (c : GuestNetworkConfigV1) : res ProtocolError unit :=
  _ ← fail_if (negb ((1 <=? gn_prefix_len c) && (gn_prefix_len c <=? 32))) invalid_value;
  _ ← fail_if (bool_decide (gn_guest_ip c = gn_gateway c)) invalid_value;
  let mask := subnet_mask (gn_prefix_len c) in
  _ ← fail_if (negb (Z.land (ipv4_u32 (gn_guest_ip c)) mask
                     =? Z.land (ipv4_u32 (gn_gateway c)) mask)) invalid_value;
  _ ← fail_if (MAX_DNS_SERVERS <? len (gn_dns c)) invalid_value;
  Ok tt.

Definition GuestNetworkConfigV1_new (guest_ip gateway : bytes) (prefix_len : Z)
    (dns : list bytes) : res ProtocolError GuestNetworkConfigV1 :=
  let config := {| gn_guest_ip := guest_ip; gn_gateway := gateway;
                   gn_prefix_len := prefix_len; gn_dns := dns |} in
  _ ← GuestNetworkConfigV1_validate config;
  Ok config.

(** ** Guest disks *)

Record GuestDiskConfigV1 := {
  gd_device_index : Z;
  gd_mount_path : bytes;
  gd_initialize : bool;
}.

Definition nul : byte := Byte.x00.
Definition slash : byte := chr "/".

Definition GuestDiskConfigV1_validate (c : GuestDiskConfigV1) : res ProtocolError unit :=
  _ ← fail_if (is_empty (gd_mount_path c)
               || negb (starts_with [slash] (gd_mount_path c))
               || contains_byte nul (gd_mount_path c)
               || (MAX_MOUNT_PATH_BYTES <? len (gd_mount_path c))) invalid_value;
  Ok tt.

Definition GuestDiskConfigV1_new (device_index : Z) (mount_path : bytes) (initialize : bool)
    : res ProtocolError GuestDiskConfigV1 :=
  let config := {| gd_device_index := device_index; gd_mount_path := mount_path;
                   gd_initialize := initialize |} in
  _ ← GuestDiskConfigV1_validate config;
  Ok config.

(** ** Bootstrap command *)

Record BootstrapConfigV1 := {
  bs_program : bytes;
  bs_args : list bytes;
  bs_artifact : bytes;
}.

Definition validate_bootstrap_path (path : bytes) : res ProtocolError unit :=
  _ ← fail_if (is_empty path
               || negb (starts_with [slash] path)
               || contains_byte nul path
               || (MAX_BOOTSTRAP_STRING_BYTES <? len path)
               || existsb (fun component => bool_decide (component = str ".."))
                    (split_on slash path)) invalid_value;
  Ok tt.

Definition BootstrapConfigV1_validate (c : BootstrapConfigV1) : res ProtocolError unit :=
  _ ← validate_bootstrap_path (bs_program c);
  _ ← validate_bootstrap_path (bs_artifact c);
  _ ← fail_if (MAX_BOOTSTRAP_ARGS <? len (bs_args c)) invalid_value;
  for_each (fun _ argument =>
    _ ← fail_if (contains_byte nul argument) invalid_value;
    _ ← fail_if (MAX_BOOTSTRAP_STRING_BYTES <? len argument) invalid_value;
    Ok tt) (bs_args c) tt.

Definition BootstrapConfigV1_new (program : bytes) (args : list bytes) (artifact : bytes)
    : res ProtocolError BootstrapConfigV1 :=
  let config := {| bs_program := program; bs_args := args; bs_artifact := artifact |} in
  _ ← BootstrapConfigV1_validate config;
  Ok config.

Definition BootstrapConfigV1_encoded_len (c : BootstrapConfigV1) : Z :=
  2 + len (bs_program c) + 1
    + sum_z (map (fun argument => 2 + len argument) (bs_args c))
    + 2 + len (bs_artifact c).

(** ** The boot configuration *)

(** [SessionCapability]: 32 secret bytes. *)
Record SessionCapability := { cap_bytes : bytes }.

Record BootConfigV1 := {
  bc_version : Z;
  bc_vm_id : bytes;
  bc_capability : SessionCapability;
  bc_host_nonce : bytes;
  bc_network : option GuestNetworkConfigV1;
  bc_disks : list GuestDiskConfigV1;
  bc_bootstrap : option BootstrapConfigV1;
}.

(** One round of the disk loop of [BootConfigV1::validate]: the indexes and
    paths already seen are the loop state. *)
Definition validate_disk_entry (seen : list Z * list bytes) (disk : GuestDiskConfigV1)
    : res ProtocolError (list Z * list bytes) :=
  let '(indexes, paths) := seen in
  _ ← GuestDiskConfigV1_validate disk;
  _ ← fail_if (bool_decide (gd_device_index disk ∈ indexes)) invalid_value;
  _ ← fail_if (bool_decide (gd_mount_path disk ∈ paths)) invalid_value;
  Ok (indexes ++ [gd_device_index disk], paths ++ [gd_mount_path disk]).

Definition BootConfigV1_validate (c : BootConfigV1) : res ProtocolError unit :=
  _ ← fail_if (negb (bc_version c =? PROTOCOL_VERSION)) VersionMismatch;
  _ ← match bc_network c with
      | Some network => GuestNetworkConfigV1_validate network
      | None => Ok tt
      end;
  _ ← fail_if (MAX_DISKS <? len (bc_disks c)) invalid_value;
  _ ← for_each validate_disk_entry (bc_disks c) ([], []);
  _ ← match bc_bootstrap c with
      | Some bootstrap => BootstrapConfigV1_validate bootstrap
      | None => Ok tt
      end;
  Ok tt.

Definition BootConfigV1_new (vm_id : bytes) (capability : SessionCapability)
    (host_nonce : bytes) (network : option GuestNetworkConfigV1)
    (disks : list GuestDiskConfigV1) : res ProtocolError BootConfigV1 :=
  let config := {| bc_version := PROTOCOL_VERSION; bc_vm_id := vm_id;
                   bc_capability := capability; bc_host_nonce := host_nonce;
                   bc_network := network; bc_disks := disks; bc_bootstrap := None |} in
  _ ← BootConfigV1_validate config;
  Ok config.

Definition set_bootstrap (c : BootConfigV1) (b : option BootstrapConfigV1) : BootConfigV1 :=
  {| bc_version := bc_version c; bc_vm_id := bc_vm_id c;
     bc_capability := bc_capability c; bc_host_nonce := bc_host_nonce c;
     bc_network := bc_network c; bc_disks := bc_disks c; bc_bootstrap := b |}.

Definition with_bootstrap (c : BootConfigV1) (bootstrap : BootstrapConfigV1)
    : res ProtocolError BootConfigV1 :=
  let c := set_bootstrap c (Some bootstrap) in
  _ ← BootConfigV1_validate c;
  Ok c.

Definition with_optional_bootstrap (c : BootConfigV1) (bootstrap : option BootstrapConfigV1)
    : res ProtocolError BootConfigV1 :=
  let c := set_bootstrap c bootstrap in
  _ ← BootConfigV1_validate c;
  Ok c.

Definition BootConfigV1_encoded_len (c : BootConfigV1) : Z :=
  let network_len :=
    match bc_network c with
    | None => 1
    | Some network => 1 + 4 + 4 + 1 + 1 + len (gn_dns network) * 4
    end in
  1 + 2 + 16 + CAPABILITY_LEN + NONCE_LEN + network_len + 2
    + sum_z (map (fun disk => 2 + 1 + 2 + len (gd_mount_path disk)) (bc_disks c))
    + match bc_bootstrap c with
      | None => 1
      | Some bootstrap => BootstrapConfigV1_encoded_len bootstrap
      end.

Definition push_network (w : WireWriter) (network : option GuestNetworkConfigV1)
    : res ProtocolError WireWriter :=
  match network with
  | Some network =>
    let w := push_u8 w 1 in
    let w := push_bytes w (gn_guest_ip network) in
    let w := push_bytes w (gn_gateway network) in
    let w := push_u8 w (gn_prefix_len network) in
    n ← expect (try_from_u 8 (len (gn_dns network)));
    let w := push_u8 w n in
    for_each (fun w dns => Ok (push_bytes w dns)) (gn_dns network) w
  | None => Ok (push_u8 w 0)
  end.

Definition push_disk (w : WireWriter) (disk : GuestDiskConfigV1) : res ProtocolError WireWriter :=
  let w := push_u16 w (gd_device_index disk) in
  let w := push_u8 w (if gd_initialize disk then 1 else 0) in
  n ← expect (try_from_u 16 (len (gd_mount_path disk)));
  let w := push_u16 w n in
  Ok (push_bytes w (gd_mount_path disk)).

Definition push_bootstrap (w : WireWriter) (bootstrap : option BootstrapConfigV1)
    : res ProtocolError WireWriter :=
  match bootstrap with
  | Some bootstrap =>
    let w := push_u8 w 1 in
    w ← push_string w (bs_program bootstrap);
    n ← expect (try_from_u 8 (len (bs_args bootstrap)));
    let w := push_u8 w n in
    w ← for_each push_string (bs_args bootstrap) w;
    push_string w (bs_artifact bootstrap)
  | None => Ok (push_u8 w 0)
  end.

Definition BootConfigV1_to_bytes (c : BootConfigV1) : res ProtocolError bytes :=
  _ ← BootConfigV1_validate c;
  let encoded_len := BootConfigV1_encoded_len c in
  _ ← fail_if (MAX_BOOT_CONFIG_FRAME <? encoded_len) invalid_frame;
  let w := WireWriter_with_capacity encoded_len in
  let w := push_u8 w BOOT_CONFIG_TAG in
  let w := push_u16 w (bc_version c) in
  let w := push_bytes w (bc_vm_id c) in
  let w := push_bytes w (cap_bytes (bc_capability c)) in
  let w := push_bytes w (bc_host_nonce c) in
  w ← push_network w (bc_network c);
  n ← expect (try_from_u 16 (len (bc_disks c)));
  let w := push_u16 w n in
  w ← for_each push_disk (bc_disks c) w;
  w ← push_bootstrap w (bc_bootstrap c);
  WireWriter_finish w MAX_BOOT_CONFIG_FRAME.

Definition take_network : rd (option GuestNetworkConfigV1) :=
  flag ← take_u8;
  if flag =? 0 then mret None
  else if flag =? 1 then
    guest_ip ← take_array 4;
    gateway ← take_array 4;
    prefix_len ← take_u8;
    dns_count ← take_u8;
    _ ← lift (fail_if (MAX_DNS_SERVERS <? dns_count) invalid_value);
    dns ← repeat_rd (Z.to_nat dns_count) (take_array 4);
    network ← lift (GuestNetworkConfigV1_new guest_ip gateway prefix_len dns);
    mret (Some network)
  else lift (Err invalid_frame).

Definition take_flag : rd bool :=
  flag ← take_u8;
  if flag =? 0 then mret false
  else if flag =? 1 then mret true
  else lift (Err invalid_frame).

Definition take_disk : rd GuestDiskConfigV1 :=
  device_index ← take_u16;
  initialize ← take_flag;
  path_len ← take_u16;
  _ ← lift (fail_if (MAX_MOUNT_PATH_BYTES <? path_len) invalid_value);
  raw ← take_bytes path_len;
  mount_path ← lift (ok_or (from_utf8 raw) invalid_value);
  lift (GuestDiskConfigV1_new device_index mount_path initialize).

Definition take_bootstrap : rd (option BootstrapConfigV1) :=
  flag ← take_u8;
  if flag =? 0 then mret None
  else if flag =? 1 then
    program ← take_string MAX_BOOTSTRAP_STRING_BYTES;
    argument_count ← take_u8;
    _ ← lift (fail_if (MAX_BOOTSTRAP_ARGS <? argument_count) invalid_value);
    args ← repeat_rd (Z.to_nat argument_count) (take_string MAX_BOOTSTRAP_STRING_BYTES);
    artifact ← take_string MAX_BOOTSTRAP_STRING_BYTES;
    bootstrap ← lift (BootstrapConfigV1_new program args artifact);
    mret (Some bootstrap)
  else lift (Err invalid_frame).

Definition BootConfigV1_read : rd BootConfigV1 :=
  tag ← take_u8;
  _ ← lift (fail_if (negb (tag =? BOOT_CONFIG_TAG)) invalid_frame);
  version ← take_u16;
  _ ← lift (fail_if (negb (version =? PROTOCOL_VERSION)) VersionMismatch);
  vm_id ← take_array 16;
  capability ← take_array CAPABILITY_LEN;
  host_nonce ← take_array NONCE_LEN;
  network ← take_network;
  disk_count ← take_u16;
  _ ← lift (fail_if (MAX_DISKS <? disk_count) invalid_value);
  disks ← repeat_rd (Z.to_nat disk_count) take_disk;
  bootstrap ← take_bootstrap;
  _ ← WireReader_finish;
  config ← lift (BootConfigV1_new vm_id {| cap_bytes := capability |} host_nonce network disks);
  lift (with_optional_bootstrap config bootstrap).

Definition BootConfigV1_try_from (b : bytes) : res ProtocolError BootConfigV1 :=
  _ ← fail_if (MAX_BOOT_CONFIG_FRAME <? len b) invalid_frame;
  fst <$> BootConfigV1_read (WireReader_new b).

(** ** What a valid configuration is *)

Definition network_valid (c : GuestNetworkConfigV1) : Prop :=
  1 <= gn_prefix_len c <= 32
  /\ gn_guest_ip c <> gn_gateway c
  /\ ipv4_u32 (gn_guest_ip c) / 2 ^ (32 - gn_prefix_len c)
     = ipv4_u32 (gn_gateway c) / 2 ^ (32 - gn_prefix_len c)
  /\ len (gn_dns c) <= 16.

Definition absolute_path (m : Z) (p : bytes) : Prop :=
  (exists t, p = slash :: t) /\ (nul ∉ p) /\ len p <= m.

Definition bootstrap_path_valid (p : bytes) : Prop :=
  absolute_path 4096 p /\ str ".." ∉ split_on slash p.

Definition bootstrap_valid (c : BootstrapConfigV1) : Prop :=
  bootstrap_path_valid (bs_program c) /\ bootstrap_path_valid (bs_artifact c)
  /\ len (bs_args c) <= 16
  /\ Forall (fun a => (nul ∉ a) /\ len a <= 4096) (bs_args c).

Definition opt_all {A} (P : A -> Prop) (o : option A) : Prop :=
  match o with Some x => P x | None => True end.

Definition BootConfigV1_valid (c : BootConfigV1) : Prop :=
  bc_version c = 1
  /\ opt_all network_valid (bc_network c)
  /\ len (bc_disks c) <= 64
  /\ Forall (fun d => absolute_path 4096 (gd_mount_path d)) (bc_disks c)
  /\ NoDup (gd_device_index <$> bc_disks c)
  /\ NoDup (gd_mount_path <$> bc_disks c)
  /\ opt_all bootstrap_valid (bc_bootstrap c).

(** The values the Rust types can hold. *)
Definition network_typed (c : GuestNetworkConfigV1) : Prop :=
  len (gn_guest_ip c) = 4 /\ len (gn_gateway c) = 4 /\ is_u8 (gn_prefix_len c)
  /\ Forall (fun d => len d = 4) (gn_dns c).
Definition disk_typed (d : GuestDiskConfigV1) : Prop :=
  is_u16 (gd_device_index d) /\ utf8_valid (gd_mount_path d) = true.
Definition bootstrap_typed (c : BootstrapConfigV1) : Prop :=
  utf8_valid (bs_program c) = true /\ utf8_valid (bs_artifact c) = true
  /\ Forall (fun a => utf8_valid a = true) (bs_args c).
Definition BootConfigV1_typed (c : BootConfigV1) : Prop :=
  is_u16 (bc_version c) /\ len (bc_vm_id c) = 16
  /\ len (cap_bytes (bc_capability c)) = 32 /\ len (bc_host_nonce c) = 32
  /\ opt_all network_typed (bc_network c)
  /\ Forall disk_typed (bc_disks c)
  /\ opt_all bootstrap_typed (bc_bootstrap c).

(** ** The wire format, as a function of the message *)

Definition network_wire (n : option GuestNetworkConfigV1) : bytes :=
  match n with
  | None => [z2b 0]
  | Some n => z2b 1 :: gn_guest_ip n ++ gn_gateway n ++ z2b (gn_prefix_len n)
                :: z2b (len (gn_dns n)) :: concat (map id (gn_dns n))
  end.
Definition disk_wire (d : GuestDiskConfigV1) : bytes :=
  le_bytes 2 (gd_device_index d) ++ z2b (if gd_initialize d then 1 else 0)
    :: string_wire (gd_mount_path d).
Definition bootstrap_wire (b : option BootstrapConfigV1) : bytes :=
  match b with
  | None => [z2b 0]
  | Some b => z2b 1 :: string_wire (bs_program b) ++ z2b (len (bs_args b))
                :: concat (map string_wire (bs_args b)) ++ string_wire (bs_artifact b)
  end.
Definition BootConfigV1_wire (c : BootConfigV1) : bytes :=
  z2b BOOT_CONFIG_TAG :: le_bytes 2 (bc_version c) ++ bc_vm_id c
    ++ cap_bytes (bc_capability c) ++ bc_host_nonce c ++ network_wire (bc_network c)
    ++ le_bytes 2 (len (bc_disks c)) ++ concat (map disk_wire (bc_disks c))
    ++ bootstrap_wire (bc_bootstrap c).

(** ** The validators decide validity *)

Lemma subnet_mask_spec p i :
  1 <= p <= 32 -> 0 <= i -> Z.testbit (subnet_mask p) i = (32 - p <=? i) && (i <? 32).
Proof.
  intros Hp Hi. unfold subnet_mask. change U32_MAX with (Z.ones 32).
  destruct (Z.eqb_spec p 32) as [->|].
  - rewrite Z.testbit_ones_nonneg by lia. by rewrite (proj2 (Z.leb_le _ i)) by lia.
  - rewrite Z.land_spec, Z.shiftl_spec, Z.testbit_ones by lia.
    rewrite Z.testbit_ones_nonneg by lia.
    destruct (Z.leb_spec 0 (i - (32 - p))), (Z.leb_spec (32 - p) i), (Z.ltb_spec i 32),
      (Z.ltb_spec (i - (32 - p)) 32); cbn; lia || done.
Qed.

Lemma land_subnet_mask p x :
  1 <= p <= 32 -> is_u32 x ->
  Z.land x (subnet_mask p) = Z.shiftl (x / 2 ^ (32 - p)) (32 - p).
Proof.
  intros Hp Hx. rewrite <-Z.shiftr_div_pow2 by lia. apply Z.bits_inj'. intros i Hi.
  rewrite Z.land_spec, subnet_mask_spec, Z.shiftl_spec by lia.
  destruct (Z.leb_spec (32 - p) i) as [Hle|Hlt]; cbn.
  - rewrite Z.shiftr_spec by lia. replace (i - (32 - p) + (32 - p)) with i by lia.
    destruct (Z.ltb_spec i 32); [by rewrite andb_true_r|].
    rewrite andb_false_r. symmetry. apply Z.testbit_false; [lia|].
    rewrite Z.div_small; [done|]. destruct Hx. split; [done|].
    eapply Z.lt_le_trans; [done|]. apply Z.pow_le_mono_r; lia.
  - rewrite andb_false_r. symmetry. apply Z.testbit_neg_r. lia.
Qed.

Lemma same_subnet_iff p x y :
  1 <= p <= 32 -> is_u32 x -> is_u32 y ->
  Z.land x (subnet_mask p) = Z.land y (subnet_mask p)
  <-> x / 2 ^ (32 - p) = y / 2 ^ (32 - p).
Proof.
  intros Hp Hx Hy. rewrite !land_subnet_mask by done. split; [|by intros ->].
  rewrite !Z.shiftl_mul_pow2 by lia. apply Z.mul_reg_r.
  assert (0 < 2 ^ (32 - p)) by (apply Z.pow_pos_nonneg; lia). lia.
Qed.

Lemma network_validate_iff c :
  network_typed c -> GuestNetworkConfigV1_validate c = Ok tt <-> network_valid c.
Proof.
  intros (Hi & Hg & _ & _). unfold GuestNetworkConfigV1_validate, network_valid.
  rewrite !guard_ok_iff, !negb_false_iff, andb_true_iff, !Z.leb_le, bool_decide_eq_false.
  rewrite Z.eqb_eq, Z.ltb_ge. unfold MAX_DNS_SERVERS.
  assert (is_u32 (ipv4_u32 (gn_guest_ip c)) /\ is_u32 (ipv4_u32 (gn_gateway c))) as [??].
  { split; apply (be_val_u 4); unfold len in *; lia. }
  split.
  - intros (Hp & Hne & Hs & Hd & _). apply same_subnet_iff in Hs; auto.
  - intros (Hp & Hne & Hs & Hd). rewrite same_subnet_iff; auto.
Qed.

Lemma absolute_path_iff m p :
  is_empty p || negb (starts_with [slash] p) || contains_byte nul p || (m <? len p) = false
  <-> absolute_path m p.
Proof.
  rewrite !orb_false_iff, negb_false_iff, starts_with_true, contains_byte_false, Z.ltb_ge.
  unfold absolute_path. split; [tauto|]. intros ([t ->] & ? & ?). eauto.
Qed.

Lemma disk_validate_iff d :
  GuestDiskConfigV1_validate d = Ok tt <-> absolute_path 4096 (gd_mount_path d).
Proof.
  unfold GuestDiskConfigV1_validate. rewrite guard_ok_iff, absolute_path_iff. tauto.
Qed.

Lemma bootstrap_path_iff p :
  validate_bootstrap_path p = Ok tt <-> bootstrap_path_valid p.
Proof.
  unfold validate_bootstrap_path, bootstrap_path_valid.
  rewrite guard_ok_iff, orb_false_iff, absolute_path_iff.
  assert (existsb (fun c => bool_decide (c = str "..")) (split_on slash p) = false
          <-> str ".." ∉ split_on slash p) as ->; [|tauto].
  rewrite <-not_true_iff_false, existsb_exists. setoid_rewrite bool_decide_eq_true.
  setoid_rewrite <-list_elem_of_In. naive_solver.
Qed.

Lemma bootstrap_args_iff args :
  for_each (fun _ argument =>
    _ ← fail_if (contains_byte nul argument) invalid_value;
    _ ← fail_if (MAX_BOOTSTRAP_STRING_BYTES <? len argument) invalid_value;
    Ok tt) args tt = Ok tt
  <-> Forall (fun a => (nul ∉ a) /\ len a <= 4096) args.
Proof.
  rewrite for_each_unit_ok. apply Forall_iff. intros a.
  rewrite !guard_ok_iff, contains_byte_false, Z.ltb_ge. tauto.
Qed.

Lemma bootstrap_validate_iff c : BootstrapConfigV1_validate c = Ok tt <-> bootstrap_valid c.
Proof.
  unfold BootstrapConfigV1_validate, bootstrap_valid, MAX_BOOTSTRAP_ARGS.
  rewrite bind_unit_ok_iff, bootstrap_path_iff, bind_unit_ok_iff, bootstrap_path_iff.
  rewrite guard_ok_iff, Z.ltb_ge, bootstrap_args_iff. tauto.
Qed.

Lemma disk_entry_iff I P d s :
  validate_disk_entry (I, P) d = Ok s
  <-> absolute_path 4096 (gd_mount_path d)
      /\ (gd_device_index d ∉ I) /\ (gd_mount_path d ∉ P)
      /\ s = (I ++ [gd_device_index d], P ++ [gd_mount_path d]).
Proof.
  unfold validate_disk_entry. rewrite bind_unit_ok_iff, disk_validate_iff, !guard_ok_iff.
  rewrite !bool_decide_eq_false. split; [|naive_solver]. intros (? & ? & ? & [= <-]). done.
Qed.

Lemma disk_loop_iff disks I P :
  (exists s, for_each validate_disk_entry disks (I, P) = Ok s)
  <-> Forall (fun d => absolute_path 4096 (gd_mount_path d)) disks
      /\ NoDup (gd_device_index <$> disks) /\ NoDup (gd_mount_path <$> disks)
      /\ (forall d, d ∈ disks -> (gd_device_index d ∉ I) /\ gd_mount_path d ∉ P).
Proof.
  revert I P. induction disks as [|d disks IH]; intros I P; csimpl.
  { split; [|eauto]. intros _. repeat split; try constructor; by apply not_elem_of_nil in H. }
  setoid_rewrite bind_ok_iff. setoid_rewrite disk_entry_iff.
  rewrite Forall_cons_iff, !NoDup_cons. split.
  - intros (s & s' & (Hd & Hi & Hp & ->) & Hs).
    destruct (proj1 (IH _ _) (ex_intro _ s Hs)) as (HF & HI & HP & Hfresh).
    split_and!; try done.
    + rewrite list_elem_of_fmap. intros (d' & E & Hd'). apply (proj1 (Hfresh d' Hd')).
      rewrite <-E. apply elem_of_app. right. by left.
    + rewrite list_elem_of_fmap. intros (d' & E & Hd'). apply (proj2 (Hfresh d' Hd')).
      rewrite <-E. apply elem_of_app. right. by left.
    + intros d' [->|Hd']%elem_of_cons; [done|].
      destruct (Hfresh d' Hd') as [H1 H2]. rewrite not_elem_of_app in H1. rewrite not_elem_of_app in H2. tauto.
  - intros ([Hd HF] & [Hi HI] & [Hp HP] & Hfresh).
    destruct (Hfresh d) as [Hi' Hp']; [by left|].
    destruct (proj2 (IH (I ++ [gd_device_index d]) (P ++ [gd_mount_path d]))) as [s Hs].
    { split_and!; try done. intros d' Hd'. destruct (Hfresh d') as [H1 H2]; [by right|].
      rewrite !not_elem_of_app, !list_elem_of_singleton. split_and!; try done.
      - intros E. apply Hi. rewrite <-E. by apply list_elem_of_fmap_2.
      - intros E. apply Hp. rewrite <-E. by apply list_elem_of_fmap_2. }
    exists s. eexists. split; [|exact Hs]. done.
Qed.

Lemma optional_validate_iff {A} (f : A -> res ProtocolError unit) (P : A -> Prop) o :
  opt_all (fun x => f x = Ok tt <-> P x) o ->
  match o with Some x => f x | None => Ok tt end = Ok tt <-> opt_all P o.
Proof. destruct o; cbn; tauto. Qed.

Lemma opt_all_impl {A} (P Q : A -> Prop) o : (forall x, P x -> Q x) -> opt_all P o -> opt_all Q o.
Proof. destruct o; cbn; auto. Qed.

Lemma BootConfigV1_validate_net_iff c :
  opt_all network_typed (bc_network c) -> BootConfigV1_validate c = Ok tt <-> BootConfigV1_valid c.
Proof.
  intros Hn. unfold BootConfigV1_validate, BootConfigV1_valid.
  rewrite guard_ok_iff, negb_false_iff, Z.eqb_eq, bind_unit_ok_iff, guard_ok_iff.
  rewrite Z.ltb_ge, bind_ok_iff. setoid_rewrite bind_unit_ok_iff.
  pose proof (optional_validate_iff _ network_valid (bc_network c)
    (opt_all_impl _ _ _ network_validate_iff Hn)) as HN.
  assert (opt_all (fun b => BootstrapConfigV1_validate b = Ok tt <-> bootstrap_valid b)
            (bc_bootstrap c)) as HB%optional_validate_iff
    by (destruct (bc_bootstrap c); [apply bootstrap_validate_iff|done]).
  pose proof (disk_loop_iff (bc_disks c) [] []) as HD.
  unfold MAX_DISKS, PROTOCOL_VERSION. split.
  - intros (Hv & HN' & Hl & s & Hs & HB' & _).
    destruct (proj1 HD (ex_intro _ s Hs)) as (? & ? & ? & _). tauto.
  - intros (Hv & HN' & Hl & HF & HI & HP & HB').
    destruct (proj2 HD) as [s Hs]; [split_and!; try done; intros; split; apply not_elem_of_nil|].
    split_and!; [done|tauto|done|]. exists s. tauto.
Qed.

Lemma BootConfigV1_validate_iff c :
  BootConfigV1_typed c -> BootConfigV1_validate c = Ok tt <-> BootConfigV1_valid c.
Proof. intros (_ & _ & _ & _ & Hn & _ & _). by apply BootConfigV1_validate_net_iff. Qed.
