(* ===== verification/BootCodec.v ===== *)
(** * Correctness of the boot-configuration codec

    [BootConfigV1::to_bytes] and [BootConfigV1::try_from] are inverse to each
    other on exactly the well-typed valid configurations whose encoding fits
    [MAX_BOOT_CONFIG_FRAME]: every frame the guest accepts is the canonical
    encoding of the configuration it decodes to. *)

From Stdlib Require Import Ascii ZArith Lia.
From stdpp Require Import base tactics option list numbers strings.
From S2P Require Import Prelude Bytes Text Wire BootConfig.

(** ** The encoder produces the wire format *)

Ltac writer_eq := cbn; f_equal; apply writer_ext; cbn; rewrite <-?app_assoc; reflexivity.

Lemma push_network_ok w n :
  opt_all network_valid n -> push_network w n = Ok (push_bytes w (network_wire n)).
Proof.
  destruct n as [n|]; [|done]. intros (_ & _ & _ & Hd). unfold push_network.
  rewrite try_from_u_ok by (split; [apply len_nonneg|lia]). cbn [mbind res_bind expect].
  rewrite (for_each_push _ id) by (by apply Forall_true). writer_eq.
Qed.

Lemma push_disk_ok w d :
  len (gd_mount_path d) <= 4096 -> push_disk w d = Ok (push_bytes w (disk_wire d)).
Proof.
  intros H. unfold push_disk. rewrite try_from_u_ok by (split; [apply len_nonneg|lia]).
  unfold disk_wire, string_wire. writer_eq.
Qed.

Lemma push_bootstrap_ok w b :
  opt_all bootstrap_valid b -> push_bootstrap w b = Ok (push_bytes w (bootstrap_wire b)).
Proof.
  destruct b as [b|]; [|done].
  intros ([(_ & _ & Hp) _] & [(_ & _ & Ha) _] & Hn & Hargs). unfold push_bootstrap.
  rewrite push_string_ok by lia. cbn [mbind res_bind].
  rewrite try_from_u_ok by (split; [apply len_nonneg|lia]). cbn [mbind res_bind expect].
  rewrite (for_each_push _ string_wire).
  2: { eapply Forall_impl; [exact Hargs|]. intros a [_ ?] w'. apply push_string_ok. lia. }
  cbn [mbind res_bind]. rewrite push_string_ok by lia. writer_eq.
Qed.

Lemma len_network_wire n :
  opt_all network_typed n ->
  len (network_wire n)
  = match n with None => 1 | Some n => 1 + 4 + 4 + 1 + 1 + len (gn_dns n) * 4 end.
Proof.
  destruct n as [n|]; [|done]. intros (Hi & Hg & _ & Hd). cbn [network_wire].
  autorewrite with jyth. rewrite Hi, Hg, len_concat_map.
  assert (sum_z (map (fun x => len (id x)) (gn_dns n)) = len (gn_dns n) * 4) as ->; [|lia].
  clear -Hd. induction Hd as [|d l Hd _ IH]; [done|].
  cbn [map]. unfold sum_z in *. cbn [foldr]. rewrite IH, len_cons. unfold id. lia.
Qed.

Lemma len_string_wire s : len (string_wire s) = 2 + len s.
Proof. unfold string_wire. by autorewrite with jyth. Qed.
#[export] Hint Rewrite len_string_wire : jyth.

Lemma len_disks_wire l :
  len (concat (map disk_wire l)) = sum_z (map (fun d => 2 + 1 + 2 + len (gd_mount_path d)) l).
Proof.
  rewrite len_concat_map. apply sum_z_ext, Forall_true. intros d. unfold disk_wire.
  autorewrite with jyth. lia.
Qed.

(** The size the encoder reserves misses the presence byte of a bootstrap
    command; the final length check still sees it. *)
Definition presence_gap (c : BootConfigV1) : Z :=
  match bc_bootstrap c with Some _ => 1 | None => 0 end.

Lemma len_bootstrap_wire b :
  len (bootstrap_wire b)
  = match b with None => 1 | Some b => BootstrapConfigV1_encoded_len b + 1 end.
Proof.
  destruct b as [b|]; [|done]. cbn [bootstrap_wire]. unfold BootstrapConfigV1_encoded_len.
  autorewrite with jyth. rewrite len_concat_map.
  rewrite (sum_z_ext _ (fun a => 2 + len a)) by (apply Forall_true, len_string_wire). lia.
Qed.

Lemma BootConfigV1_wire_len c :
  BootConfigV1_typed c ->
  len (BootConfigV1_wire c) = BootConfigV1_encoded_len c + presence_gap c.
Proof.
  intros (_ & Hv & Hc & Hn & Hnet & _ & _). unfold BootConfigV1_wire, BootConfigV1_encoded_len.
  autorewrite with jyth. rewrite Hv, Hc, Hn, len_network_wire by done.
  rewrite len_disks_wire, len_bootstrap_wire. unfold presence_gap, CAPABILITY_LEN, NONCE_LEN.
  destruct (bc_bootstrap c), (bc_network c); lia.
Qed.

Lemma BootConfigV1_to_bytes_valid c :
  BootConfigV1_typed c -> BootConfigV1_valid c ->
  BootConfigV1_to_bytes c
  = if MAX_BOOT_CONFIG_FRAME <? len (BootConfigV1_wire c)
    then Err invalid_frame else Ok (BootConfigV1_wire c).
Proof.
  intros Ht Hv. pose proof (BootConfigV1_wire_len c Ht) as Hl.
  unfold BootConfigV1_to_bytes.
  rewrite (proj2 (BootConfigV1_validate_iff c Ht) Hv). cbn [mbind res_bind].
  destruct (Z.ltb_spec MAX_BOOT_CONFIG_FRAME (BootConfigV1_encoded_len c)) as [Hgt|Hle].
  { rewrite (proj2 (Z.ltb_lt _ _)); [done|].
    rewrite Hl. unfold presence_gap. destruct (bc_bootstrap c); lia. }
  destruct Hv as (_ & Hnet & Hd & HF & _ & _ & Hb). cbn [mbind res_bind fail_if].
  rewrite push_network_ok by done. cbn [mbind res_bind].
  rewrite try_from_u_ok by (split; [apply len_nonneg|lia]). cbn [mbind res_bind expect].
  rewrite (for_each_push _ disk_wire).
  2: { eapply Forall_impl; [exact HF|]. intros d (_ & _ & ?) w. by apply push_disk_ok. }
  cbn [mbind res_bind]. rewrite push_bootstrap_ok by done. cbn [mbind res_bind].
  unfold WireWriter_finish, BootConfigV1_wire.
  cbn [ww_bytes push_bytes push_u8 push_u16 WireWriter_with_capacity].
  cbn [app]. rewrite <-!app_assoc. reflexivity.
Qed.

Lemma BootConfigV1_to_bytes_inv c b :
  BootConfigV1_typed c -> BootConfigV1_to_bytes c = Ok b ->
  BootConfigV1_valid c /\ b = BootConfigV1_wire c /\ len b <= MAX_BOOT_CONFIG_FRAME.
Proof.
  intros Ht H. assert (BootConfigV1_valid c) as Hv.
  { apply BootConfigV1_validate_iff; [done|]. unfold BootConfigV1_to_bytes in H.
    by apply bind_unit_ok_iff in H as [H _]. }
  rewrite BootConfigV1_to_bytes_valid in H by done.
  destruct (Z.ltb_spec MAX_BOOT_CONFIG_FRAME (len (BootConfigV1_wire c))); naive_solver.
Qed.

(** ** The decoder accepts the wire format *)

Lemma u8_small z : 0 <= z <= 255 -> is_u8 z.
Proof. unfold in_u. lia. Qed.
Lemma u16_small z : 0 <= z <= 65535 -> is_u16 z.
Proof. unfold in_u. lia. Qed.
Lemma to_nat_len {A} (l : list A) : Z.to_nat (len l) = length l.
Proof. unfold len. apply Nat2Z.id. Qed.

Lemma network_new_ok n :
  network_typed n -> network_valid n ->
  GuestNetworkConfigV1_new (gn_guest_ip n) (gn_gateway n) (gn_prefix_len n) (gn_dns n) = Ok n.
Proof.
  intros Ht Hv. apply (network_validate_iff n Ht) in Hv. unfold GuestNetworkConfigV1_new.
  destruct n; cbn in *. by rewrite Hv.
Qed.

Lemma runs_network n rest (Q : option GuestNetworkConfigV1 -> bytes -> Prop) :
  opt_all network_typed n -> opt_all network_valid n -> Q n rest ->
  runs take_network (network_wire n ++ rest) Q.
Proof.
  destruct n as [n|]; cbn [network_wire].
  2: { intros _ _ HQ. apply runs_bind, runs_u8; [by apply u8_small|]. by apply runs_ret. }
  intros Ht Hv HQ. pose proof Ht as (Hi & Hg & Hp & Hd). pose proof Hv as (_ & _ & _ & Hl).
  pose proof (len_nonneg (gn_dns n)).
  cbn [app]. apply runs_bind, runs_u8; [by apply u8_small|]. cbn [Z.eqb Pos.eqb].
  rewrite <-!app_assoc. run_step. run_step. cbn [app].
  run_step; [done|]. run_step; [apply u8_small; lia|].
  apply runs_guard; [by apply Z.ltb_ge|].
  apply runs_bind, runs_repeat; [|by rewrite to_nat_len|].
  { eapply Forall_impl; [exact Hd|]. intros a Ha rest' Q' HQ'. by apply runs_array. }
  apply runs_bind. eapply runs_lift; [by apply network_new_ok|]. by apply runs_ret.
Qed.

Lemma runs_flag (b : bool) rest (Q : bool -> bytes -> Prop) :
  Q b rest -> runs take_flag (z2b (if b then 1 else 0) :: rest) Q.
Proof.
  intros HQ. apply runs_bind, runs_u8; [by destruct b|].
  destruct b; by apply runs_ret.
Qed.

Lemma runs_disk d rest (Q : GuestDiskConfigV1 -> bytes -> Prop) :
  disk_typed d -> absolute_path 4096 (gd_mount_path d) -> Q d rest ->
  runs take_disk (disk_wire d ++ rest) Q.
Proof.
  intros [Hi Hu] Hv HQ. pose proof Hv as (_ & _ & Hl). pose proof (len_nonneg (gd_mount_path d)).
  unfold disk_wire, string_wire. rewrite <-!app_assoc. cbn [app].
  run_step; [done|]. apply runs_bind, runs_flag. rewrite <-app_assoc.
  run_step; [apply u16_small; lia|].
  apply runs_guard; [by apply Z.ltb_ge|]. apply runs_bind, runs_take; [done|].
  apply runs_bind. eapply runs_lift; [unfold from_utf8; by rewrite Hu|].
  apply disk_validate_iff in Hv. eapply runs_lift; [|exact HQ].
  unfold GuestDiskConfigV1_new. destruct d; cbn in *. by rewrite Hv.
Qed.

Lemma runs_bootstrap b rest (Q : option BootstrapConfigV1 -> bytes -> Prop) :
  opt_all bootstrap_typed b -> opt_all bootstrap_valid b -> Q b rest ->
  runs take_bootstrap (bootstrap_wire b ++ rest) Q.
Proof.
  destruct b as [b|]; cbn [bootstrap_wire].
  2: { intros _ _ HQ. apply runs_bind, runs_u8; [by apply u8_small|]. by apply runs_ret. }
  intros (Hpu & Hau & Hargsu) Hv HQ.
  pose proof Hv as ([(_ & _ & Hp) _] & [(_ & _ & Ha) _] & Hn & Hargs).
  pose proof (len_nonneg (bs_args b)).
  cbn [app]. apply runs_bind, runs_u8; [by apply u8_small|]. cbn [Z.eqb Pos.eqb].
  rewrite <-!app_assoc. run_step. cbn [app]. run_step; [apply u8_small; lia|].
  apply runs_guard; [by apply Z.ltb_ge|]. rewrite <-app_assoc.
  apply runs_bind, (runs_repeat _ string_wire); [|by rewrite to_nat_len|].
  { rewrite Forall_forall in Hargs, Hargsu. apply Forall_forall. intros a Hin rest' Q' HQ'.
    apply runs_string; [by apply Hargs|done|by apply Hargsu|done]. }
  run_step. apply runs_bind. apply bootstrap_validate_iff in Hv.
  eapply runs_lift; [|by apply runs_ret].
  unfold BootstrapConfigV1_new. destruct b; cbn in *. by rewrite Hv.
Qed.

(** The two validation passes at the end of the decoder. *)
Lemma valid_set_bootstrap c b :
  BootConfigV1_valid c -> opt_all bootstrap_valid b -> BootConfigV1_valid (set_bootstrap c b).
Proof. unfold BootConfigV1_valid. cbn. tauto. Qed.
Lemma typed_set_bootstrap c b :
  BootConfigV1_typed c -> opt_all bootstrap_typed b -> BootConfigV1_typed (set_bootstrap c b).
Proof. unfold BootConfigV1_typed. cbn. tauto. Qed.

Lemma assemble_valid c :
  BootConfigV1_typed c -> BootConfigV1_valid c ->
  BootConfigV1_new (bc_vm_id c) (bc_capability c) (bc_host_nonce c) (bc_network c)
    (bc_disks c) = Ok (set_bootstrap c None)
  /\ with_optional_bootstrap (set_bootstrap c None) (bc_bootstrap c) = Ok c.
Proof.
  intros Ht Hv.
  pose proof (valid_set_bootstrap c None Hv I) as Hv0.
  apply BootConfigV1_validate_iff in Hv0; [|by apply typed_set_bootstrap].
  apply (BootConfigV1_validate_iff c Ht) in Hv as Hv1.
  destruct Hv as [Hver _]. unfold BootConfigV1_new, with_optional_bootstrap.
  destruct c as [ver vm cap non net disks boot]; unfold set_bootstrap, PROTOCOL_VERSION in *.
  cbn [bc_version bc_vm_id bc_capability bc_host_nonce bc_network bc_disks bc_bootstrap] in *.
  subst ver. by rewrite Hv0, Hv1.
Qed.

Lemma BootConfigV1_read_runs c :
  BootConfigV1_typed c -> BootConfigV1_valid c ->
  runs BootConfigV1_read (BootConfigV1_wire c) (fun v rest => v = c).
Proof.
  intros Ht Hv. destruct (assemble_valid c Ht Hv) as [Hnew Hwith].
  pose proof Ht as (Hver & Hvm & Hcap & Hnon & Hnet & Hdt & Hbt).
  pose proof Hv as (Hver1 & Hnv & Hdl & HF & _ & _ & Hbv). pose proof (len_nonneg (bc_disks c)).
  unfold BootConfigV1_read, BootConfigV1_wire.
  run_step; [by apply u8_small|]. run_step; [done|]. run_step; [done|].
  apply runs_guard; [by rewrite Hver1|]. run_step. run_step. run_step.
  apply runs_bind, runs_network; [done|done|]. run_step; [apply u16_small; lia|].
  apply runs_guard; [by apply Z.ltb_ge|].
  apply runs_bind, (runs_repeat _ disk_wire); [|by rewrite to_nat_len|].
  { rewrite Forall_forall in HF, Hdt. apply Forall_forall. intros d Hin rest Q HQ.
    apply runs_disk; auto. }
  rewrite <-(app_nil_r (bootstrap_wire _)). apply runs_bind, runs_bootstrap; [done..|].
  run_step. apply runs_bind. eapply runs_lift.
  { destruct (bc_capability c) eqn:E. cbn. exact Hnew. }
  by eapply runs_lift.
Qed.

(** ** The decoder accepts nothing else *)

Lemma validate_not_panic_network c : GuestNetworkConfigV1_validate c <> Panic.
Proof. unfold GuestNetworkConfigV1_validate. repeat (apply guard_not_panic; intros _). done. Qed.
Lemma validate_not_panic_disk d : GuestDiskConfigV1_validate d <> Panic.
Proof. unfold GuestDiskConfigV1_validate. by apply guard_not_panic. Qed.
Lemma validate_not_panic_bootstrap c : BootstrapConfigV1_validate c <> Panic.
Proof.
  unfold BootstrapConfigV1_validate, validate_bootstrap_path.
  apply bind_not_panic; [by apply guard_not_panic|intros _ _].
  apply bind_not_panic; [by apply guard_not_panic|intros _ _].
  apply guard_not_panic. intros _. apply for_each_not_panic. intros _ a.
  apply guard_not_panic. intros _. by apply guard_not_panic.
Qed.
Lemma validate_not_panic_disk_entry s d : validate_disk_entry s d <> Panic.
Proof.
  destruct s. unfold validate_disk_entry. apply bind_not_panic; [apply validate_not_panic_disk|].
  intros _ _. repeat (apply guard_not_panic; intros _). done.
Qed.
Lemma BootConfigV1_validate_not_panic c : BootConfigV1_validate c <> Panic.
Proof.
  unfold BootConfigV1_validate. apply guard_not_panic. intros _.
  apply bind_not_panic.
  { destruct (bc_network c); [apply validate_not_panic_network|done]. }
  intros _ _. apply guard_not_panic. intros _. apply bind_not_panic.
  { apply for_each_not_panic, validate_not_panic_disk_entry. }
  intros _ _. apply bind_not_panic; [|done].
  destruct (bc_bootstrap c); [apply validate_not_panic_bootstrap|done].
Qed.

(** [new] is [validate] followed by the value. *)
Lemma checked_not_panic {A} (m : res ProtocolError unit) (v : A) :
  m <> Panic -> (_ ← m; Ok v) <> Panic.
Proof. by destruct m as [[]| |]. Qed.
Lemma checked_ok_inv {A} (m : res ProtocolError unit) (v v' : A) :
  (_ ← m; Ok v) = Ok v' -> v' = v /\ m = Ok tt.
Proof. intros [H [= <-]]%bind_unit_ok_iff. done. Qed.

Lemma accepts_network input (Q : option GuestNetworkConfigV1 -> bytes -> Prop) :
  (forall n rest, input = network_wire n ++ rest -> opt_all network_typed n ->
     opt_all network_valid n -> Q n rest) ->
  accepts take_network input Q.
Proof.
  intros HQ. unfold take_network. accept_step.
  destruct (Z.eqb_spec v 0) as [->|_]; [accept_step; by apply HQ|].
  destruct (Z.eqb_spec v 1) as [->|_]; [|accept_step].
  do 5 accept_step.
  apply accepts_bind, (accepts_repeat _ id (fun a => len a = 4)).
  { intros i Q' HQ'. by apply accepts_array. }
  intros dns rest' -> Hlen HF. apply accepts_bind, accepts_lift.
  { apply checked_not_panic, validate_not_panic_network. }
  intros n [-> Hv]%checked_ok_inv. accept_step.
  assert (len dns = v0) as Hv0 by (unfold len, in_u in *; lia).
  rewrite <-Hv0 in *. apply HQ.
  - cbn [network_wire gn_guest_ip gn_gateway gn_prefix_len gn_dns app].
    by rewrite <-!app_assoc.
  - split_and!; done.
  - by apply network_validate_iff in Hv.
Qed.

Lemma accepts_disk input (Q : GuestDiskConfigV1 -> bytes -> Prop) :
  (forall d rest, input = disk_wire d ++ rest ->
     disk_typed d /\ absolute_path 4096 (gd_mount_path d) -> Q d rest) ->
  accepts take_disk input Q.
Proof.
  intros HQ. unfold take_disk. accept_step.
  apply accepts_bind with (k := fun initialize => _).
  apply accepts_bind, accepts_u8. intros flag rest' -> Hflag.
  assert (forall b : bool, flag = (if b then 1 else 0) ->
    accepts (path_len ← take_u16;
      _ ← lift (fail_if (MAX_MOUNT_PATH_BYTES <? path_len) invalid_value);
      raw ← take_bytes path_len;
      mount_path ← lift (ok_or (from_utf8 raw) invalid_value);
      lift (GuestDiskConfigV1_new v mount_path b)) rest' Q) as Hrest.
  { intros b ->. do 2 accept_step. apply accepts_bind, accepts_take; [apply H0|].
    intros raw rest'' -> Hraw. apply accepts_bind, accepts_utf8. intros Hu.
    apply accepts_lift; [apply checked_not_panic, validate_not_panic_disk|].
    intros d [-> Hv]%checked_ok_inv. apply disk_validate_iff in Hv. apply HQ; [|done].
    unfold disk_wire, string_wire. cbn [gd_device_index gd_initialize gd_mount_path].
    rewrite Hraw, <-!app_assoc. cbn [app]. by rewrite <-app_assoc. }
  destruct (Z.eqb_spec flag 0); [apply accepts_ret; by apply (Hrest false)|].
  destruct (Z.eqb_spec flag 1); [apply accepts_ret; by apply (Hrest true)|accept_step].
Qed.

Lemma accepts_bootstrap input (Q : option BootstrapConfigV1 -> bytes -> Prop) :
  (forall b rest, input = bootstrap_wire b ++ rest -> opt_all bootstrap_typed b ->
     opt_all bootstrap_valid b -> Q b rest) ->
  accepts take_bootstrap input Q.
Proof.
  intros HQ. unfold take_bootstrap. accept_step.
  destruct (Z.eqb_spec v 0) as [->|_]; [accept_step; by apply HQ|].
  destruct (Z.eqb_spec v 1) as [->|_]; [|accept_step].
  do 3 accept_step.
  apply accepts_bind, (accepts_repeat _ string_wire (fun a => utf8_valid a = true)).
  { intros i Q' HQ'. apply accepts_string. auto. }
  intros args rest' -> Hlen HF. accept_step. apply accepts_bind, accepts_lift.
  { apply checked_not_panic, validate_not_panic_bootstrap. }
  intros b [-> Hv]%checked_ok_inv. accept_step.
  assert (len args = v) as <- by (unfold len, in_u in *; lia).
  apply HQ.
  - cbn [bootstrap_wire bs_program bs_args bs_artifact app].
    rewrite <-!app_assoc. cbn [app]. by rewrite <-!app_assoc.
  - split_and!; done.
  - by apply bootstrap_validate_iff in Hv.
Qed.

Lemma BootConfigV1_read_accepts input :
  accepts BootConfigV1_read input (fun c rest =>
    input = BootConfigV1_wire c /\ BootConfigV1_typed c /\ BootConfigV1_valid c).
Proof.
  unfold BootConfigV1_read. do 7 accept_step.
  repeat match goal with
  | Hc : negb (_ =? _) = false |- _ => apply negb_false_iff, Z.eqb_eq in Hc; subst
  end.
  apply accepts_bind, accepts_network. intros net rest' -> Hnt Hnv.
  do 2 accept_step.
  apply accepts_bind, (accepts_repeat _ disk_wire
    (fun d => disk_typed d /\ absolute_path 4096 (gd_mount_path d))).
  { intros i Q HQ. by apply accepts_disk. }
  intros disks rest'' -> Hlen HF. apply accepts_bind, accepts_bootstrap.
  intros boot rest3 -> Hbt Hbv. accept_step. apply accepts_bind, accepts_lift.
  { apply checked_not_panic, BootConfigV1_validate_not_panic. }
  intros c [-> Hv]%checked_ok_inv. apply accepts_lift.
  { apply checked_not_panic, BootConfigV1_validate_not_panic. }
  intros c [-> Hv']%checked_ok_inv.
  assert (len disks = v) as <- by (unfold len, in_u in *; lia).
  apply Forall_and in HF as [HFt _]. unfold set_bootstrap in *.
  match goal with |- _ = BootConfigV1_wire ?c /\ _ => assert (BootConfigV1_typed c) as Ht end.
  { split_and!; try done. }
  split; [|split; [done|by apply BootConfigV1_validate_iff]].
  unfold BootConfigV1_wire.
  cbn [bc_version bc_vm_id bc_capability bc_host_nonce bc_network bc_disks bc_bootstrap cap_bytes].
  by rewrite app_nil_r.
Qed.

Lemma BootConfigV1_encode_iff c b :
  BootConfigV1_typed c ->
  BootConfigV1_to_bytes c = Ok b
  <-> BootConfigV1_valid c /\ b = BootConfigV1_wire c /\ len b <= MAX_BOOT_CONFIG_FRAME.
Proof.
  intros Ht. split; [by apply BootConfigV1_to_bytes_inv|]. intros (Hv & -> & Hl).
  rewrite BootConfigV1_to_bytes_valid by done. by rewrite (proj2 (Z.ltb_ge _ _)).
Qed.

Lemma BootConfigV1_to_bytes_bounded c b :
  BootConfigV1_to_bytes c = Ok b -> len b <= MAX_BOOT_CONFIG_FRAME.
Proof.
  unfold BootConfigV1_to_bytes. rewrite bind_unit_ok_iff, guard_ok_iff, bind_ok_iff.
  intros (_ & _ & w & _ & H). apply bind_ok_iff in H as (n & _ & H).
  apply bind_ok_iff in H as (w' & _ & H). apply bind_ok_iff in H as (w'' & _ & H).
  by apply finish_ok_iff in H as [_ H].
Qed.

#[global] Instance BootConfigV1_message : WireMessage BootConfigV1 := {
  wm_encode := BootConfigV1_to_bytes; wm_decode := BootConfigV1_try_from;
  wm_typed := BootConfigV1_typed; wm_limit := MAX_BOOT_CONFIG_FRAME }.

#[global] Instance BootConfigV1_laws : WireMessageLaws BootConfigV1.
Proof.
  split.
  - apply (fixed_message_exact _ BootConfigV1_wire _ BootConfigV1_valid).
    + done.
    + apply BootConfigV1_encode_iff.
    + apply BootConfigV1_read_runs.
    + apply BootConfigV1_read_accepts.
  - eapply (fixed_message_total _ BootConfigV1_wire); [done|]. apply BootConfigV1_read_accepts.
  - intros b m. apply BootConfigV1_to_bytes_bounded.
Qed.

(** ** The codec theorems *)

(** C8: the codec is exact.  A frame decodes to a configuration if and only
    if the configuration is one the Rust type can hold and the frame is the
    encoding of it: the round trip holds in both directions, so every frame
    the guest accepts is canonical, and the encoder emits only frames the
    guest accepts. *)
Theorem boot_config_codec_exact (b : bytes) (c : BootConfigV1) :
  BootConfigV1_try_from b = Ok c
  <-> BootConfigV1_typed c /\ BootConfigV1_to_bytes c = Ok b.
Proof. exact (wm_exact (M:=BootConfigV1) b c). Qed.

(** the decoder never panics, on any input; in particular the [expect]
    calls, the slice copies and the indexings it performs are all in bounds. *)
Theorem boot_config_decode_total (b : bytes) : BootConfigV1_try_from b <> Panic.
Proof. exact (wm_total (M:=BootConfigV1) b). Qed.

(** the encoder accepts exactly the valid configurations whose wire form
    fits the frame limit, writes that wire form, and never panics. *)
Theorem boot_config_encode_spec (c : BootConfigV1) (Ht : BootConfigV1_typed c) :
  match BootConfigV1_to_bytes c with
  | Ok b => BootConfigV1_valid c /\ b = BootConfigV1_wire c /\ len b <= MAX_BOOT_CONFIG_FRAME
  | Err _ => ~ BootConfigV1_valid c \/ MAX_BOOT_CONFIG_FRAME < len (BootConfigV1_wire c)
  | Panic => False
  end.
Proof.
  pose proof (BootConfigV1_to_bytes_valid c Ht) as Hval.
  destruct (BootConfigV1_to_bytes c) as [b|e|] eqn:H.
  - by apply BootConfigV1_to_bytes_inv.
  - destruct (BootConfigV1_validate c) as [[]|e'|] eqn:Hv.
    + right. apply (BootConfigV1_validate_iff c Ht) in Hv. specialize (Hval Hv).
      by destruct (Z.ltb_spec MAX_BOOT_CONFIG_FRAME (len (BootConfigV1_wire c))).
    + left. intros Hv'%(BootConfigV1_validate_iff c Ht). congruence.
    + by apply BootConfigV1_validate_not_panic in Hv.
  - destruct (BootConfigV1_validate c) as [[]|e'|] eqn:Hv.
    + apply (BootConfigV1_validate_iff c Ht) in Hv. specialize (Hval Hv).
      by destruct (_ <? _).
    + unfold BootConfigV1_to_bytes in H. by rewrite Hv in H.
    + by apply BootConfigV1_validate_not_panic in Hv.
Qed.

(** A configuration with a network, two disks and a bootstrap command. *)
Definition sample_boot : BootConfigV1 :=
  {| bc_version := 1;
     bc_vm_id := le_bytes 16 7;
     bc_capability := {| cap_bytes := le_bytes 32 11 |};
     bc_host_nonce := le_bytes 32 13;
     bc_network := Some {| gn_guest_ip := map z2b [172; 20; 16; 2];
                           gn_gateway := map z2b [172; 20; 16; 1];
                           gn_prefix_len := 20; gn_dns := [map z2b [1; 1; 1; 1]] |};
     bc_disks := [ {| gd_device_index := 0; gd_mount_path := str "/build"; gd_initialize := true |};
                   {| gd_device_index := 1; gd_mount_path := str "/cache"; gd_initialize := false |} ];
     bc_bootstrap := Some {| bs_program := str "/bin/mkfs"; bs_args := [str "-F"];
                             bs_artifact := str "/out/image" |} |}.

Lemma sample_boot_typed : BootConfigV1_typed sample_boot.
Proof.
  split_and!; try reflexivity.
  - by apply u16_small.
  - cbn. split_and!; try reflexivity; [by apply u8_small|by repeat constructor].
  - by repeat constructor.
  - by repeat constructor.
Qed.

Lemma boot_config_encode_spec_witness :
  BootConfigV1_typed sample_boot
  /\ match BootConfigV1_to_bytes sample_boot with
     | Ok b => BootConfigV1_valid sample_boot /\ b = BootConfigV1_wire sample_boot
               /\ len b <= MAX_BOOT_CONFIG_FRAME
     | Err _ => ~ BootConfigV1_valid sample_boot
                \/ MAX_BOOT_CONFIG_FRAME < len (BootConfigV1_wire sample_boot)
     | Panic => False
     end.
Proof.
  split; [exact sample_boot_typed|]. apply (boot_config_encode_spec _ sample_boot_typed).
Defined.

Example sample_boot_roundtrip :
  match BootConfigV1_to_bytes sample_boot with
  | Ok b => BootConfigV1_try_from b = Ok sample_boot
  | _ => False
  end.
Proof. vm_compute. reflexivity. Qed.
