(* ===== verification/AuthMessages.v ===== *)
(** * READY, authentication and bootstrap-result messages

    The fixed-layout envelopes of [libs/protocol/src/auth.rs]:
    [BootstrapResultV1], [ReadyV1], [AuthChallengeV1], [AuthResponseV1] and
    [AuthAcceptedV1], each shown to implement the [WireMessage] interface. *)

From Stdlib Require Import ZArith Lia.
From stdpp Require Import base tactics option list numbers strings.
From S2P Require Import Prelude Bytes Text Wire BootConfig BootCodec.

Definition READY_TAG : Z := 17.
Definition BOOTSTRAP_RESULT_TAG : Z := 18.
Definition AUTH_CHALLENGE_TAG : Z := 32.
Definition AUTH_RESPONSE_TAG : Z := 33.
Definition AUTH_ACCEPTED_TAG : Z := 34.

(** ** [BootstrapResultV1] *)

Record BootstrapResultV1 := {
  br_version : Z;
  br_status : Z;
  br_exit_code : option Z;
  br_artifact_len : Z;
  br_artifact_digest : bytes;
}.

Definition SUCCESS : Z := 0.
Definition COMMAND_FAILED : Z := 1.
Definition ARTIFACT_UNAVAILABLE : Z := 2.
Definition zeros (n : nat) : bytes := replicate n Byte.x00.

Definition BootstrapResultV1_validate (r : BootstrapResultV1) : res ProtocolError unit :=
  _ ← fail_if (negb (br_version r =? PROTOCOL_VERSION)) VersionMismatch;
  _ ← fail_if (negb ((br_status r =? SUCCESS) || (br_status r =? COMMAND_FAILED)
                     || (br_status r =? ARTIFACT_UNAVAILABLE))) invalid_value;
  _ ← (if br_status r =? SUCCESS then
         _ ← fail_if ((br_artifact_len r =? 0)
                      || (MAX_BOOTSTRAP_ARTIFACT_BYTES <? br_artifact_len r)) invalid_value;
         fail_if (bool_decide (br_exit_code r <> Some 0)) invalid_value
       else fail_if (negb (br_artifact_len r =? 0)
                     || bool_decide (br_artifact_digest r <> zeros 32)) invalid_value);
  Ok tt.

Definition BootstrapResultV1_success (artifact_len : Z) (artifact_digest : bytes)
    : res ProtocolError BootstrapResultV1 :=
  let result := {| br_version := PROTOCOL_VERSION; br_status := SUCCESS;
                   br_exit_code := Some 0; br_artifact_len := artifact_len;
                   br_artifact_digest := artifact_digest |} in
  _ ← BootstrapResultV1_validate result;
  Ok result.

Definition command_failed (exit_code : option Z) : BootstrapResultV1 :=
  {| br_version := PROTOCOL_VERSION; br_status := COMMAND_FAILED; br_exit_code := exit_code;
     br_artifact_len := 0; br_artifact_digest := zeros 32 |}.

Definition artifact_unavailable : BootstrapResultV1 :=
  {| br_version := PROTOCOL_VERSION; br_status := ARTIFACT_UNAVAILABLE;
     br_exit_code := Some 0; br_artifact_len := 0; br_artifact_digest := zeros 32 |}.

Definition BootstrapResultV1_to_bytes (r : BootstrapResultV1) : res ProtocolError bytes :=
  _ ← BootstrapResultV1_validate r;
  let w := WireWriter_with_capacity (1 + 2 + 1 + 4 + 8 + 32) in
  let w := push_u8 w BOOTSTRAP_RESULT_TAG in
  let w := push_u16 w (br_version r) in
  let w := push_u8 w (br_status r) in
  let w := push_u32 w (default U32_MAX (br_exit_code r)) in
  let w := push_u64 w (br_artifact_len r) in
  let w := push_bytes w (br_artifact_digest r) in
  WireWriter_finish w MAX_AUTH_FRAME.

Definition BootstrapResultV1_read : rd BootstrapResultV1 :=
  tag ← take_u8;
  _ ← lift (fail_if (negb (tag =? BOOTSTRAP_RESULT_TAG)) invalid_frame);
  version ← take_u16;
  status ← take_u8;
  encoded_exit_code ← take_u32;
  let exit_code := if negb (encoded_exit_code =? U32_MAX) then Some encoded_exit_code else None in
  artifact_len ← take_u64;
  artifact_digest ← take_array 32;
  let result := {| br_version := version; br_status := status; br_exit_code := exit_code;
                   br_artifact_len := artifact_len; br_artifact_digest := artifact_digest |} in
  _ ← WireReader_finish;
  _ ← lift (BootstrapResultV1_validate result);
  mret result.

Definition BootstrapResultV1_try_from (b : bytes) : res ProtocolError BootstrapResultV1 :=
  _ ← fail_if (MAX_AUTH_FRAME <? len b) invalid_frame;
  fst <$> BootstrapResultV1_read (WireReader_new b).

(** ** [ReadyV1] *)

Record ReadyV1 := {
  rv_version : Z;
  rv_vm_id : bytes;
  rv_host_nonce : bytes;
  rv_mac : bytes;
}.

Definition ReadyV1_to_bytes (r : ReadyV1) : res ProtocolError bytes :=
  _ ← fail_if (negb (rv_version r =? PROTOCOL_VERSION)) VersionMismatch;
  let w := WireWriter_with_capacity (1 + 2 + 16 + NONCE_LEN + MAC_LEN) in
  let w := push_u8 w READY_TAG in
  let w := push_u16 w (rv_version r) in
  let w := push_bytes w (rv_vm_id r) in
  let w := push_bytes w (rv_host_nonce r) in
  let w := push_bytes w (rv_mac r) in
  WireWriter_finish w MAX_AUTH_FRAME.

Definition ReadyV1_read : rd ReadyV1 :=
  tag ← take_u8;
  _ ← lift (fail_if (negb (tag =? READY_TAG)) invalid_frame);
  version ← take_u16;
  _ ← lift (fail_if (negb (version =? PROTOCOL_VERSION)) VersionMismatch);
  vm_id ← take_array 16;
  host_nonce ← take_array NONCE_LEN;
  mac ← take_array MAC_LEN;
  _ ← WireReader_finish;
  mret {| rv_version := version; rv_vm_id := vm_id; rv_host_nonce := host_nonce;
          rv_mac := mac |}.

Definition ReadyV1_try_from (b : bytes) : res ProtocolError ReadyV1 :=
  _ ← fail_if (MAX_AUTH_FRAME <? len b) invalid_frame;
  fst <$> ReadyV1_read (WireReader_new b).

(** ** [AuthChallengeV1], [AuthResponseV1], [AuthAcceptedV1] *)

Record AuthChallengeV1 := { ac_version : Z; ac_challenge : bytes }.
Record AuthResponseV1 := { ar_version : Z; ar_mac : bytes }.
Record AuthAcceptedV1 := { aa_version : Z }.

Definition AuthChallengeV1_to_bytes (c : AuthChallengeV1) : res ProtocolError bytes :=
  _ ← fail_if (negb (ac_version c =? PROTOCOL_VERSION)) VersionMismatch;
  let w := WireWriter_with_capacity (1 + 2 + MAC_LEN) in
  let w := push_u8 w AUTH_CHALLENGE_TAG in
  let w := push_u16 w (ac_version c) in
  let w := push_bytes w (ac_challenge c) in
  WireWriter_finish w MAX_AUTH_FRAME.

Definition AuthChallengeV1_read : rd AuthChallengeV1 :=
  tag ← take_u8;
  _ ← lift (fail_if (negb (tag =? AUTH_CHALLENGE_TAG)) invalid_frame);
  version ← take_u16;
  _ ← lift (fail_if (negb (version =? PROTOCOL_VERSION)) VersionMismatch);
  challenge ← take_array MAC_LEN;
  _ ← WireReader_finish;
  mret {| ac_version := version; ac_challenge := challenge |}.

Definition AuthChallengeV1_try_from (b : bytes) : res ProtocolError AuthChallengeV1 :=
  _ ← fail_if (MAX_AUTH_FRAME <? len b) invalid_frame;
  fst <$> AuthChallengeV1_read (WireReader_new b).

Definition AuthResponseV1_to_bytes (c : AuthResponseV1) : res ProtocolError bytes :=
  _ ← fail_if (negb (ar_version c =? PROTOCOL_VERSION)) VersionMismatch;
  let w := WireWriter_with_capacity (1 + 2 + MAC_LEN) in
  let w := push_u8 w AUTH_RESPONSE_TAG in
  let w := push_u16 w (ar_version c) in
  let w := push_bytes w (ar_mac c) in
  WireWriter_finish w MAX_AUTH_FRAME.

Definition AuthResponseV1_read : rd AuthResponseV1 :=
  tag ← take_u8;
  _ ← lift (fail_if (negb (tag =? AUTH_RESPONSE_TAG)) invalid_frame);
  version ← take_u16;
  _ ← lift (fail_if (negb (version =? PROTOCOL_VERSION)) VersionMismatch);
  mac ← take_array MAC_LEN;
  _ ← WireReader_finish;
  mret {| ar_version := version; ar_mac := mac |}.

Definition AuthResponseV1_try_from (b : bytes) : res ProtocolError AuthResponseV1 :=
  _ ← fail_if (MAX_AUTH_FRAME <? len b) invalid_frame;
  fst <$> AuthResponseV1_read (WireReader_new b).

Definition AuthAcceptedV1_to_bytes (c : AuthAcceptedV1) : res ProtocolError bytes :=
  _ ← fail_if (negb (aa_version c =? PROTOCOL_VERSION)) VersionMismatch;
  let w := WireWriter_with_capacity (1 + 2) in
  let w := push_u8 w AUTH_ACCEPTED_TAG in
  let w := push_u16 w (aa_version c) in
  WireWriter_finish w MAX_AUTH_FRAME.

Definition AuthAcceptedV1_read : rd AuthAcceptedV1 :=
  tag ← take_u8;
  _ ← lift (fail_if (negb (tag =? AUTH_ACCEPTED_TAG)) invalid_frame);
  version ← take_u16;
  _ ← lift (fail_if (negb (version =? PROTOCOL_VERSION)) VersionMismatch);
  _ ← WireReader_finish;
  mret {| aa_version := version |}.

Definition AuthAcceptedV1_try_from (b : bytes) : res ProtocolError AuthAcceptedV1 :=
  _ ← fail_if (MAX_AUTH_FRAME <? len b) invalid_frame;
  fst <$> AuthAcceptedV1_read (WireReader_new b).

(** ** Types and wire forms *)

Definition ReadyV1_typed (r : ReadyV1) : Prop :=
  is_u16 (rv_version r) /\ len (rv_vm_id r) = 16 /\ len (rv_host_nonce r) = 32
  /\ len (rv_mac r) = 32.
Definition ReadyV1_wire (r : ReadyV1) : bytes :=
  z2b READY_TAG :: le_bytes 2 (rv_version r) ++ rv_vm_id r ++ rv_host_nonce r ++ rv_mac r.
Definition AuthChallengeV1_typed (c : AuthChallengeV1) : Prop :=
  is_u16 (ac_version c) /\ len (ac_challenge c) = 32.
Definition AuthResponseV1_typed (c : AuthResponseV1) : Prop :=
  is_u16 (ar_version c) /\ len (ar_mac c) = 32.
Definition AuthAcceptedV1_typed (c : AuthAcceptedV1) : Prop := is_u16 (aa_version c).

(** The exit code [u32::MAX] is the encoding of "no exit code". *)
Definition BootstrapResultV1_typed (r : BootstrapResultV1) : Prop :=
  is_u16 (br_version r) /\ is_u8 (br_status r)
  /\ opt_all (fun code => is_u32 code /\ code <> U32_MAX) (br_exit_code r)
  /\ is_u64 (br_artifact_len r) /\ len (br_artifact_digest r) = 32.
Definition BootstrapResultV1_wire (r : BootstrapResultV1) : bytes :=
  z2b BOOTSTRAP_RESULT_TAG :: le_bytes 2 (br_version r) ++ z2b (br_status r)
    :: le_bytes 4 (default U32_MAX (br_exit_code r)) ++ le_bytes 8 (br_artifact_len r)
    ++ br_artifact_digest r.

(** ** The encoders and decoders implement the interface *)

Lemma versioned_encode_iff v e w b (wire : bytes) :
  ww_bytes w = wire ->
  (_ ← fail_if (negb (v =? PROTOCOL_VERSION)) e; WireWriter_finish w MAX_AUTH_FRAME) = Ok b
  <-> v = 1 /\ b = wire /\ len b <= MAX_AUTH_FRAME.
Proof.
  intros <-. rewrite guard_ok_iff, negb_false_iff, Z.eqb_eq, finish_ok_iff.
  unfold PROTOCOL_VERSION. tauto.
Qed.

Ltac bytes_norm :=
  cbn [ww_bytes push_bytes push_u8 push_u16 push_u32 push_u64 WireWriter_with_capacity app];
  rewrite <-?app_assoc; cbn [app]; rewrite <-?app_assoc; reflexivity.

Ltac guards :=
  repeat match goal with
  | H : negb (_ =? _) = false |- _ => apply negb_false_iff, Z.eqb_eq in H; subst
  end.

Ltac simple_runs :=
  repeat first
    [ run_step | by apply u8_small | done
    | match goal with H : _ = 1 |- negb _ = false => by rewrite H end ].

#[global] Instance ReadyV1_message : WireMessage ReadyV1 := {
  wm_encode := ReadyV1_to_bytes; wm_decode := ReadyV1_try_from;
  wm_typed := ReadyV1_typed; wm_limit := MAX_AUTH_FRAME }.

Lemma ReadyV1_accepts input :
  accepts ReadyV1_read input (fun m rest =>
    input = ReadyV1_wire m /\ ReadyV1_typed m /\ rv_version m = 1).
Proof.
  unfold ReadyV1_read. repeat accept_step. guards. rewrite app_nil_r.
  split_and!; done.
Qed.

Lemma ReadyV1_runs m :
  ReadyV1_typed m -> rv_version m = 1 -> runs ReadyV1_read (ReadyV1_wire m) (fun v rest => v = m).
Proof.
  intros (Hv & Hi & Hn & Hm) H1. unfold ReadyV1_read, ReadyV1_wire.
  rewrite <-(app_nil_r (rv_mac m)). simple_runs. by destruct m.
Qed.

#[global] Instance ReadyV1_laws : WireMessageLaws ReadyV1.
Proof.
  split.
  - apply (fixed_message_exact _ ReadyV1_wire _ (fun m => rv_version m = 1)).
    + done.
    + intros m b _. apply versioned_encode_iff. unfold ReadyV1_wire. bytes_norm.
    + apply ReadyV1_runs.
    + apply ReadyV1_accepts.
  - eapply (fixed_message_total _ ReadyV1_wire); [done|]. apply ReadyV1_accepts.
  - intros b m [_ [_ H]%finish_ok_iff]%guard_ok_iff. exact H.
Qed.

(** Challenge and response share a layout: tag, version, 32 bytes. *)
Definition tagged_wire (tag version : Z) (payload : bytes) : bytes :=
  z2b tag :: le_bytes 2 version ++ payload.

#[global] Instance AuthChallengeV1_message : WireMessage AuthChallengeV1 := {
  wm_encode := AuthChallengeV1_to_bytes; wm_decode := AuthChallengeV1_try_from;
  wm_typed := AuthChallengeV1_typed; wm_limit := MAX_AUTH_FRAME }.

Definition AuthChallengeV1_wire (m : AuthChallengeV1) : bytes :=
  tagged_wire AUTH_CHALLENGE_TAG (ac_version m) (ac_challenge m).

Lemma AuthChallengeV1_accepts input :
  accepts AuthChallengeV1_read input (fun m rest =>
    input = AuthChallengeV1_wire m /\ AuthChallengeV1_typed m /\ ac_version m = 1).
Proof.
  unfold AuthChallengeV1_read. repeat accept_step. guards. rewrite app_nil_r.
  split_and!; done.
Qed.

#[global] Instance AuthChallengeV1_laws : WireMessageLaws AuthChallengeV1.
Proof.
  split.
  - apply (fixed_message_exact _ AuthChallengeV1_wire _ (fun m => ac_version m = 1)).
    + done.
    + intros m b _. apply versioned_encode_iff. unfold AuthChallengeV1_wire. bytes_norm.
    + intros m (Hv & Hm) H1. unfold AuthChallengeV1_read, AuthChallengeV1_wire, tagged_wire.
      rewrite <-(app_nil_r (ac_challenge m)). simple_runs. by destruct m.
    + apply AuthChallengeV1_accepts.
  - eapply (fixed_message_total _ AuthChallengeV1_wire); [done|]. apply AuthChallengeV1_accepts.
  - intros b m [_ [_ H]%finish_ok_iff]%guard_ok_iff. exact H.
Qed.

#[global] Instance AuthResponseV1_message : WireMessage AuthResponseV1 := {
  wm_encode := AuthResponseV1_to_bytes; wm_decode := AuthResponseV1_try_from;
  wm_typed := AuthResponseV1_typed; wm_limit := MAX_AUTH_FRAME }.

Definition AuthResponseV1_wire (m : AuthResponseV1) : bytes :=
  tagged_wire AUTH_RESPONSE_TAG (ar_version m) (ar_mac m).

Lemma AuthResponseV1_accepts input :
  accepts AuthResponseV1_read input (fun m rest =>
    input = AuthResponseV1_wire m /\ AuthResponseV1_typed m /\ ar_version m = 1).
Proof.
  unfold AuthResponseV1_read. repeat accept_step. guards. rewrite app_nil_r.
  split_and!; done.
Qed.

#[global] Instance AuthResponseV1_laws : WireMessageLaws AuthResponseV1.
Proof.
  split.
  - apply (fixed_message_exact _ AuthResponseV1_wire _ (fun m => ar_version m = 1)).
    + done.
    + intros m b _. apply versioned_encode_iff. unfold AuthResponseV1_wire. bytes_norm.
    + intros m (Hv & Hm) H1. unfold AuthResponseV1_read, AuthResponseV1_wire, tagged_wire.
      rewrite <-(app_nil_r (ar_mac m)). simple_runs. by destruct m.
    + apply AuthResponseV1_accepts.
  - eapply (fixed_message_total _ AuthResponseV1_wire); [done|]. apply AuthResponseV1_accepts.
  - intros b m [_ [_ H]%finish_ok_iff]%guard_ok_iff. exact H.
Qed.

Lemma AuthResponseV1_decode_inv b m :
  AuthResponseV1_try_from b = Ok m -> ar_version m = 1 /\ b = AuthResponseV1_wire m.
Proof.
  intros H. pose proof (proj1 (wm_exact (M:=AuthResponseV1) b m)) as Hx. apply Hx in H as [_ H].
  apply guard_ok_iff in H as [Hv%negb_false_iff%Z.eqb_eq [-> _]%finish_ok_iff]. done.
Qed.

#[global] Instance AuthAcceptedV1_message : WireMessage AuthAcceptedV1 := {
  wm_encode := AuthAcceptedV1_to_bytes; wm_decode := AuthAcceptedV1_try_from;
  wm_typed := AuthAcceptedV1_typed; wm_limit := MAX_AUTH_FRAME }.

Definition AuthAcceptedV1_wire (m : AuthAcceptedV1) : bytes :=
  tagged_wire AUTH_ACCEPTED_TAG (aa_version m) [].

Lemma AuthAcceptedV1_accepts input :
  accepts AuthAcceptedV1_read input (fun m rest =>
    input = AuthAcceptedV1_wire m /\ AuthAcceptedV1_typed m /\ aa_version m = 1).
Proof.
  unfold AuthAcceptedV1_read. repeat accept_step. guards.
  split_and!; done.
Qed.

#[global] Instance AuthAcceptedV1_laws : WireMessageLaws AuthAcceptedV1.
Proof.
  split.
  - apply (fixed_message_exact _ AuthAcceptedV1_wire _ (fun m => aa_version m = 1)).
    + done.
    + intros m b _. apply versioned_encode_iff. unfold AuthAcceptedV1_wire, tagged_wire.
      rewrite app_nil_r. bytes_norm.
    + intros m Hv H1. unfold AuthAcceptedV1_read, AuthAcceptedV1_wire, tagged_wire.
      simple_runs. by destruct m.
    + apply AuthAcceptedV1_accepts.
  - eapply (fixed_message_total _ AuthAcceptedV1_wire); [done|]. apply AuthAcceptedV1_accepts.
  - intros b m [_ [_ H]%finish_ok_iff]%guard_ok_iff. exact H.
Qed.

#[global] Instance BootstrapResultV1_message : WireMessage BootstrapResultV1 := {
  wm_encode := BootstrapResultV1_to_bytes; wm_decode := BootstrapResultV1_try_from;
  wm_typed := BootstrapResultV1_typed; wm_limit := MAX_AUTH_FRAME }.

Lemma BootstrapResultV1_validate_not_panic r : BootstrapResultV1_validate r <> Panic.
Proof.
  unfold BootstrapResultV1_validate. do 2 (apply guard_not_panic; intros _).
  apply bind_not_panic; [|done]. destruct (_ =? _).
  - apply guard_not_panic. intros _. apply fail_if_not_panic.
  - apply fail_if_not_panic.
Qed.

(** What the decoder recovers of an exit code, and what the encoder wrote. *)
Definition decode_exit_code (z : Z) : option Z :=
  if negb (z =? U32_MAX) then Some z else None.

Lemma exit_code_roundtrip o :
  opt_all (fun code => is_u32 code /\ code <> U32_MAX) o ->
  decode_exit_code (default U32_MAX o) = o.
Proof.
  destruct o as [z|]; [|done]. intros [_ Hz]. unfold decode_exit_code. cbn.
  by destruct (Z.eqb_spec z U32_MAX).
Qed.

Lemma exit_code_canonical z :
  is_u32 z ->
  default U32_MAX (decode_exit_code z) = z
  /\ opt_all (fun code => is_u32 code /\ code <> U32_MAX) (decode_exit_code z).
Proof.
  intros Hz. unfold decode_exit_code. by destruct (Z.eqb_spec z U32_MAX) as [->|].
Qed.

Lemma BootstrapResultV1_accepts input :
  accepts BootstrapResultV1_read input (fun m rest =>
    input = BootstrapResultV1_wire m /\ BootstrapResultV1_typed m
    /\ BootstrapResultV1_validate m = Ok tt).
Proof.
  unfold BootstrapResultV1_read. repeat accept_step. guards.
  apply accepts_bind, accepts_lift; [apply BootstrapResultV1_validate_not_panic|].
  intros [] Hval. accept_step.
  match goal with Hc : is_u32 ?z |- _ => destruct (exit_code_canonical z Hc) as [E Hopt] end.
  unfold decode_exit_code in *. split_and!; try done.
  unfold BootstrapResultV1_wire.
  cbn [br_version br_status br_exit_code br_artifact_len br_artifact_digest].
  by rewrite E, app_nil_r.
Qed.

Lemma BootstrapResultV1_runs m :
  BootstrapResultV1_typed m -> BootstrapResultV1_validate m = Ok tt ->
  runs BootstrapResultV1_read (BootstrapResultV1_wire m) (fun v rest => v = m).
Proof.
  intros (Hv & Hs & He & Hl & Hd) Hval. pose proof (exit_code_roundtrip _ He) as Hrt.
  unfold BootstrapResultV1_read, BootstrapResultV1_wire.
  rewrite <-(app_nil_r (br_artifact_digest m)).
  run_step; [by apply u8_small|]. run_step; [done|]. run_step; [done|].
  run_step; [done|]. run_step.
  { destruct (br_exit_code m); cbn in *; [naive_solver|done]. }
  run_step; [done|]. run_step. run_step.
  unfold decode_exit_code in Hrt. rewrite Hrt.
  apply runs_bind. eapply runs_lift; [by destruct m|]. apply runs_ret. by destruct m.
Qed.

#[global] Instance BootstrapResultV1_laws : WireMessageLaws BootstrapResultV1.
Proof.
  split.
  - apply (fixed_message_exact _ BootstrapResultV1_wire _
             (fun m => BootstrapResultV1_validate m = Ok tt)).
    + done.
    + intros m b _. unfold wm_encode. cbn. unfold BootstrapResultV1_to_bytes.
      rewrite bind_unit_ok_iff, finish_ok_iff.
      assert (forall w, ww_bytes w = BootstrapResultV1_wire m ->
        b = ww_bytes w /\ len b <= MAX_AUTH_FRAME
        <-> b = BootstrapResultV1_wire m /\ len b <= MAX_AUTH_FRAME) as Hw
        by (intros w ->; done).
      rewrite Hw; [done|]. unfold BootstrapResultV1_wire. bytes_norm.
    + apply BootstrapResultV1_runs.
    + apply BootstrapResultV1_accepts.
  - eapply (fixed_message_total _ BootstrapResultV1_wire); [done|].
    apply BootstrapResultV1_accepts.
  - intros b m [_ [_ H]%finish_ok_iff]%bind_unit_ok_iff. exact H.
Qed.

(** ** Theorems *)

(** the five fixed-layout control-plane messages (READY, challenge,
    response, acceptance, bootstrap result) have exact codecs: a frame decodes
    to a message if and only if it is the encoding of that message (a bootstrap
    result carries no exit code equal to [u32::MAX]). *)
Theorem control_messages_codec_exact (b : bytes) :
  (forall m, ReadyV1_try_from b = Ok m <-> ReadyV1_typed m /\ ReadyV1_to_bytes m = Ok b)
  /\ (forall m, AuthChallengeV1_try_from b = Ok m
        <-> AuthChallengeV1_typed m /\ AuthChallengeV1_to_bytes m = Ok b)
  /\ (forall m, AuthResponseV1_try_from b = Ok m
        <-> AuthResponseV1_typed m /\ AuthResponseV1_to_bytes m = Ok b)
  /\ (forall m, AuthAcceptedV1_try_from b = Ok m
        <-> AuthAcceptedV1_typed m /\ AuthAcceptedV1_to_bytes m = Ok b)
  /\ (forall m, BootstrapResultV1_try_from b = Ok m
        <-> BootstrapResultV1_typed m /\ BootstrapResultV1_to_bytes m = Ok b).
Proof.
  split_and!; intros m; [exact (wm_exact (M:=ReadyV1) b m)|exact (wm_exact (M:=AuthChallengeV1) b m)
    |exact (wm_exact (M:=AuthResponseV1) b m)|exact (wm_exact (M:=AuthAcceptedV1) b m)
    |exact (wm_exact (M:=BootstrapResultV1) b m)].
Qed.

(** an exit code of [u32::MAX] does not survive the wire: a failed-command
    result that carries it is encoded, and decoded as a result without an exit
    code. *)
Theorem bootstrap_exit_code_max_lost :
  exists b,
    BootstrapResultV1_to_bytes (command_failed (Some U32_MAX)) = Ok b
    /\ BootstrapResultV1_try_from b = Ok (command_failed None).
Proof.
  exists (BootstrapResultV1_wire (command_failed (Some U32_MAX))).
  split; vm_compute; reflexivity.
Qed.
