(* ===== verification/AuthProof.v ===== *)
(** * HMAC-SHA-256 transcripts and the READY proof

    [hmac_sha256], the three transcripts it authenticates and
    [ReadyV1::for_boot] / [ReadyV1::verify] ([libs/protocol/src/auth.rs]).
    SHA-256 itself is the [sha2] crate, a parameter [sha256] of the model with
    its documented 32-byte output; the theorems about forgery are reductions:
    two different transcripts with one MAC exhibit a SHA-256 collision. *)

From Stdlib Require Import ZArith Lia.
From stdpp Require Import base tactics option list numbers strings.
From S2P Require Import Prelude Bytes Text Wire BootConfig BootCodec AuthMessages.

Definition NUL_TERMINATED (s : string) : bytes := str s ++ [nul].
Definition BOOT_DOMAIN : bytes := NUL_TERMINATED "jyth/boot-ready/v1".
Definition CHALLENGE_DOMAIN : bytes := NUL_TERMINATED "jyth/auth-challenge/v1".
Definition RESPONSE_DOMAIN : bytes := NUL_TERMINATED "jyth/auth-response/v1".
Definition COMMAND_AUTH_CONTEXT_V1 : bytes := str "00000400-FACB-11E6-BD58-64006A7986D3".

Definition BLOCK_SIZE : Z := 64.

(** [slice.ct_eq(other)]: equal lengths and equal contents, without an
    early exit (timing is outside the model). *)
Definition constant_time_eq (left right : bytes) : bool := bool_decide (left = right).

(** [block[..part.len()].copy_from_slice(part)] on a zeroed block. *)
Definition copy_prefix (part : bytes) : bytes :=
  part ++ replicate (Z.to_nat (BLOCK_SIZE - len part)) Byte.x00.

Definition xor_pad (pad : Z) (block : bytes) : bytes :=
  map (fun b => z2b (Z.lxor pad (b2z b))) block.

Section Sha256.
Variable sha256 : bytes -> bytes.

Definition hmac_key_block (key : bytes) : bytes :=
  if BLOCK_SIZE <? len key then copy_prefix (sha256 key) else copy_prefix key.

(** [Sha256::update] on successive parts hashes their concatenation. *)
Definition hmac_sha256 (key : bytes) (parts : list bytes) : bytes :=
  let key_block := hmac_key_block key in
  let ipad := xor_pad 54 key_block in
  let opad := xor_pad 92 key_block in
  let inner_digest := sha256 (ipad ++ concat parts) in
  sha256 (opad ++ inner_digest).

Definition derive_auth_challenge (capability : SessionCapability) (vm_id : bytes)
    (connection_counter : Z) : bytes :=
  let counter := le_bytes 8 connection_counter in
  hmac_sha256 (cap_bytes capability) [CHALLENGE_DOMAIN; vm_id; counter].

Definition compute_auth_mac (capability : SessionCapability) (vm_id service_id challenge : bytes)
    : bytes :=
  let version := le_bytes 2 PROTOCOL_VERSION in
  let service_len := le_bytes 4 (len service_id) in
  hmac_sha256 (cap_bytes capability)
    [RESPONSE_DOMAIN; version; vm_id; service_len; service_id; challenge].

Definition compute_ready_mac (capability : SessionCapability) (boot_frame : bytes) : bytes :=
  hmac_sha256 (cap_bytes capability) [BOOT_DOMAIN; boot_frame].

Definition ReadyV1_for_boot (capability : SessionCapability) (boot_frame : bytes)
    : res ProtocolError ReadyV1 :=
  boot ← BootConfigV1_try_from boot_frame;
  Ok {| rv_version := PROTOCOL_VERSION; rv_vm_id := bc_vm_id boot;
        rv_host_nonce := bc_host_nonce boot;
        rv_mac := compute_ready_mac capability boot_frame |}.

Definition ReadyV1_verify (r : ReadyV1) (capability : SessionCapability) (boot_frame : bytes)
    : res ProtocolError unit :=
  _ ← fail_if (negb (rv_version r =? PROTOCOL_VERSION)) VersionMismatch;
  boot ← BootConfigV1_try_from boot_frame;
  _ ← fail_if (bool_decide (rv_vm_id r <> bc_vm_id boot)
               || bool_decide (rv_host_nonce r <> bc_host_nonce boot)) Authentication;
  let expected := compute_ready_mac capability boot_frame in
  _ ← fail_if (negb (constant_time_eq expected (rv_mac r))) Authentication;
  Ok tt.

Definition AuthResponseV1_for_challenge (capability : SessionCapability) (vm_id : bytes)
    (challenge : AuthChallengeV1) : AuthResponseV1 :=
  {| ar_version := PROTOCOL_VERSION;
     ar_mac := compute_auth_mac capability vm_id COMMAND_AUTH_CONTEXT_V1
                 (ac_challenge challenge) |}.

(** ** HMAC binds the key and the transcript *)

Definition collision : Prop := exists x y, x <> y /\ sha256 x = sha256 y.

Lemma sha256_inj x y : sha256 x = sha256 y -> x = y \/ collision.
Proof. intros H. destruct (decide (x = y)); [by left|right; by exists x, y]. Qed.

Lemma lxor_pad_inj pad x y : Z.lxor pad x = Z.lxor pad y -> x = y.
Proof.
  intros H. apply (f_equal (Z.lxor pad)) in H.
  by rewrite <-!Z.lxor_assoc, !Z.lxor_nilpotent, !Z.lxor_0_l in H.
Qed.

Lemma lxor_byte_range pad x : 0 <= pad < 256 -> 0 <= x < 256 -> 0 <= Z.lxor pad x < 256.
Proof.
  intros Hp Hx. split; [apply Z.lxor_nonneg; lia|].
  destruct (Z.eq_dec (Z.lxor pad x) 0) as [->|Hne]; [lia|].
  assert (0 <= Z.lxor pad x) by (apply Z.lxor_nonneg; lia).
  apply (Z.log2_lt_cancel _ 256). eapply Z.le_lt_trans; [apply Z.log2_lxor; lia|].
  assert (forall z, 0 <= z < 256 -> Z.log2 z < 8) as Hlog.
  { intros z Hz. destruct (Z.eq_dec z 0) as [->|]; [done|]. apply Z.log2_lt_pow2; lia. }
  pose proof (Hlog pad Hp). pose proof (Hlog x Hx). change (Z.log2 256) with 8. lia.
Qed.

Lemma xor_pad_inj pad b c : 0 <= pad < 256 -> xor_pad pad b = xor_pad pad c -> b = c.
Proof.
  intros Hp. revert c. induction b as [|x b IH]; intros [|y c]; try done.
  cbn. intros [= H1 H2]. f_equal; [|by apply IH].
  apply (f_equal b2z) in H1.
  rewrite !b2z_z2b_small in H1 by (apply lxor_byte_range; [done|apply b2z_range]).
  by apply lxor_pad_inj, b2z_inj in H1.
Qed.

Lemma length_xor_pad pad b : length (xor_pad pad b) = length b.
Proof. apply length_map. Qed.

Lemma length_copy_prefix k : len k <= 64 -> length (copy_prefix k) = 64%nat.
Proof.
  intros H. unfold copy_prefix, BLOCK_SIZE. rewrite length_app, length_replicate.
  unfold len in *. lia.
Qed.

Definition capability_typed (c : SessionCapability) : Prop := len (cap_bytes c) = 32.

Lemma capability_block c :
  capability_typed c -> hmac_key_block (cap_bytes c) = cap_bytes c ++ replicate 32 Byte.x00.
Proof.
  intros Hc. unfold hmac_key_block, BLOCK_SIZE. rewrite Hc. cbn.
  unfold copy_prefix. by rewrite Hc.
Qed.

Lemma hmac_inj c c' parts parts' :
  capability_typed c -> capability_typed c' ->
  hmac_sha256 (cap_bytes c) parts = hmac_sha256 (cap_bytes c') parts' ->
  (c = c' /\ concat parts = concat parts') \/ collision.
Proof.
  intros Hc Hc' H. unfold hmac_sha256 in H. rewrite !capability_block in H by done.
  apply sha256_inj in H as [H|]; [|by right].
  assert (forall c pad, capability_typed c ->
    length (xor_pad pad (cap_bytes c ++ replicate 32 Byte.x00)) = 64%nat) as Hlen.
  { intros d pad Hd. rewrite length_xor_pad, length_app, length_replicate.
    unfold capability_typed, len in Hd. lia. }
  apply app_inj_1 in H as [Ho Hi]; [|by rewrite !Hlen].
  apply xor_pad_inj in Ho; [|lia]. apply app_inj_2 in Ho as [Hk _]; [|done].
  apply sha256_inj in Hi as [Hi|]; [|by right].
  apply app_inj_1 in Hi as [_ Hp]; [|by rewrite !Hlen].
  left. destruct c, c'; cbn in *. by subst.
Qed.
End Sha256.

(** ** The transcripts are injective and domain separated *)

Lemma app_len_inj {A} (a b c d : list A) :
  len a = len b -> a ++ c = b ++ d -> a = b /\ c = d.
Proof. intros Hl H. apply app_inj_1 in H; [done|]. unfold len in Hl. lia. Qed.

Lemma auth_transcript_inj vm vm' s s' ch ch' :
  len vm = 16 -> len vm' = 16 -> len s < 2 ^ 32 -> len s' < 2 ^ 32 ->
  concat [RESPONSE_DOMAIN; le_bytes 2 PROTOCOL_VERSION; vm; le_bytes 4 (len s); s; ch]
  = concat [RESPONSE_DOMAIN; le_bytes 2 PROTOCOL_VERSION; vm'; le_bytes 4 (len s'); s'; ch'] ->
  vm = vm' /\ s = s' /\ ch = ch'.
Proof.
  intros Hvm Hvm' Hs Hs'. cbn [concat].
  intros [_ [_ [-> H]%app_len_inj]%app_len_inj]%app_len_inj; try done; [|by rewrite Hvm, Hvm'].
  apply app_len_inj in H as [Hl H]; [|by rewrite !len_le_bytes].
  apply le_bytes_inj in Hl; [|split; [apply len_nonneg|done]..].
  apply app_len_inj in H as [-> H]; [|done]. by rewrite !app_nil_r in H.
Qed.

Lemma challenge_transcript_inj vm vm' n n' :
  len vm = 16 -> len vm' = 16 -> is_u64 n -> is_u64 n' ->
  concat [CHALLENGE_DOMAIN; vm; le_bytes 8 n] = concat [CHALLENGE_DOMAIN; vm'; le_bytes 8 n'] ->
  vm = vm' /\ n = n'.
Proof.
  intros Hvm Hvm' Hn Hn'. cbn [concat]. rewrite !app_nil_r.
  intros [_ [-> H]%app_len_inj]%app_len_inj; [|congruence|done].
  by apply le_bytes_inj in H.
Qed.

(** ** Theorems *)

(** READY verification accepts exactly one message per capability and boot
    frame, the one the guest computes: a frame that does not decode, another
    identity, another nonce or another MAC is refused. *)
Theorem ready_verify_exact sha256 (r : ReadyV1) (cap : SessionCapability) (frame : bytes) :
  ReadyV1_verify sha256 r cap frame = Ok tt <-> ReadyV1_for_boot sha256 cap frame = Ok r.
Proof.
  unfold ReadyV1_verify, ReadyV1_for_boot. rewrite guard_ok_iff, negb_false_iff, Z.eqb_eq.
  destruct (BootConfigV1_try_from frame) as [boot| |]; cbn; [|naive_solver..].
  rewrite !guard_ok_iff, orb_false_iff, !bool_decide_eq_false, negb_false_iff.
  unfold constant_time_eq. rewrite bool_decide_eq_true. split.
  - intros (Hv & [Hi Hn] & Hm & _). apply dec_stable in Hi, Hn.
    destruct r; cbn in *. by subst.
  - intros [= <-]. cbn. tauto.
Qed.

(** One READY message verifies for one capability and one boot frame only,
    or else SHA-256 has a collision: the proof is bound to the exact bytes the
    host sent. *)
Theorem ready_binds_boot_frame sha256 (r : ReadyV1) (cap cap' : SessionCapability)
    (frame frame' : bytes)
    (Hc : capability_typed cap) (Hc' : capability_typed cap')
    (Hr : ReadyV1_verify sha256 r cap frame = Ok tt)
    (Hr' : ReadyV1_verify sha256 r cap' frame' = Ok tt) :
  (cap = cap' /\ frame = frame') \/ collision sha256.
Proof.
  unfold ReadyV1_verify in *.
  apply guard_ok_iff in Hr as [_ Hr], Hr' as [_ Hr'].
  apply bind_ok_iff in Hr as (b & _ & Hr), Hr' as (b' & _ & Hr').
  rewrite !guard_ok_iff, negb_false_iff in Hr, Hr'.
  unfold constant_time_eq in *. rewrite bool_decide_eq_true in Hr, Hr'.
  destruct Hr as (_ & Hm & _), Hr' as (_ & Hm' & _). rewrite <-Hm' in Hm.
  apply hmac_inj in Hm as [[-> Hp]|]; [|by right|done..]. left. split; [done|].
  cbn [concat] in Hp. rewrite !app_nil_r in Hp. by apply app_inv_head in Hp.
Qed.

(** A command-connection MAC determines the capability, the VM, the service
    context and the challenge it answers, or else SHA-256 has a collision: a
    response cannot be replayed for another VM, context or challenge. *)
Theorem auth_mac_binding sha256 (cap cap' : SessionCapability) (vm vm' s s' ch ch' : bytes)
    (Hc : capability_typed cap) (Hc' : capability_typed cap')
    (Hvm : len vm = 16) (Hvm' : len vm' = 16)
    (Hs : len s < 2 ^ 32) (Hs' : len s' < 2 ^ 32)
    (H : compute_auth_mac sha256 cap vm s ch = compute_auth_mac sha256 cap' vm' s' ch') :
  (cap = cap' /\ vm = vm' /\ s = s' /\ ch = ch') \/ collision sha256.
Proof.
  apply hmac_inj in H as [[-> H]|]; [|by right|done..].
  apply auth_transcript_inj in H; naive_solver.
Qed.

(** challenges derived from different connection counters (or VMs, or
    capabilities) differ, or else SHA-256 has a collision: no connection of a
    session is challenged twice with the same bytes. *)
Theorem auth_challenges_distinct sha256 (cap cap' : SessionCapability) (vm vm' : bytes) (n n' : Z)
    (Hc : capability_typed cap) (Hc' : capability_typed cap')
    (Hvm : len vm = 16) (Hvm' : len vm' = 16) (Hn : is_u64 n) (Hn' : is_u64 n')
    (H : derive_auth_challenge sha256 cap vm n = derive_auth_challenge sha256 cap' vm' n') :
  (cap = cap' /\ vm = vm' /\ n = n') \/ collision sha256.
Proof.
  apply hmac_inj in H as [[-> H]|]; [|by right|done..].
  apply challenge_transcript_inj in H; naive_solver.
Qed.

(** the three uses of the capability are domain separated: a READY MAC, a
    challenge and a response MAC computed under typed capabilities are never
    equal unless SHA-256 has a collision. *)
Theorem mac_domains_separated sha256 (cap cap' : SessionCapability) (frame vm s ch : bytes) (n : Z)
    (Hc : capability_typed cap) (Hc' : capability_typed cap')
    (H : compute_ready_mac sha256 cap frame = compute_auth_mac sha256 cap' vm s ch
         \/ compute_ready_mac sha256 cap frame = derive_auth_challenge sha256 cap' vm n
         \/ derive_auth_challenge sha256 cap vm n = compute_auth_mac sha256 cap' vm s ch) :
  collision sha256.
Proof.
  (* the constant prefixes differ, so the transcripts do *)
  destruct H as [H|[H|H]]; by apply hmac_inj in H as [[_ H]|].
Qed.

(** ** Concrete instances: a toy digest of 32 bytes *)

Definition toy_sha256 (b : bytes) : bytes := le_bytes 32 (le_val (reverse b) + len b).
Definition toy_cap : SessionCapability := {| cap_bytes := le_bytes 32 5 |}.
Definition sample_frame : bytes := BootConfigV1_wire sample_boot.
Definition toy_ready : ReadyV1 :=
  {| rv_version := 1; rv_vm_id := bc_vm_id sample_boot; rv_host_nonce := bc_host_nonce sample_boot;
     rv_mac := compute_ready_mac toy_sha256 toy_cap sample_frame |}.

Lemma ready_binds_boot_frame_witness :
  ReadyV1_verify toy_sha256 toy_ready toy_cap sample_frame = Ok tt
  /\ ((toy_cap = toy_cap /\ sample_frame = sample_frame) \/ collision toy_sha256).
Proof.
  assert (ReadyV1_verify toy_sha256 toy_ready toy_cap sample_frame = Ok tt) as H
    by (vm_compute; reflexivity).
  split; [exact H|].
  exact (ready_binds_boot_frame toy_sha256 toy_ready toy_cap toy_cap sample_frame sample_frame
           eq_refl eq_refl H H).
Defined.

Lemma auth_mac_binding_witness :
  (toy_cap = toy_cap /\ le_bytes 16 7 = le_bytes 16 7
   /\ COMMAND_AUTH_CONTEXT_V1 = COMMAND_AUTH_CONTEXT_V1 /\ le_bytes 32 9 = le_bytes 32 9)
  \/ collision toy_sha256.
Proof.
  exact (auth_mac_binding toy_sha256 toy_cap toy_cap (le_bytes 16 7) (le_bytes 16 7)
           COMMAND_AUTH_CONTEXT_V1 COMMAND_AUTH_CONTEXT_V1 (le_bytes 32 9) (le_bytes 32 9)
           eq_refl eq_refl eq_refl eq_refl eq_refl eq_refl eq_refl).
Defined.

Lemma auth_challenges_distinct_witness :
  (toy_cap = toy_cap /\ le_bytes 16 7 = le_bytes 16 7 /\ 3 = 3) \/ collision toy_sha256.
Proof.
  refine (auth_challenges_distinct toy_sha256 toy_cap toy_cap (le_bytes 16 7) (le_bytes 16 7) 3 3
           eq_refl eq_refl eq_refl eq_refl _ _ eq_refl); split; done.
Defined.

(** A digest that ignores its input: every domain collides, and so does the
    digest, as the theorem says. *)
Definition const_sha256 (b : bytes) : bytes := le_bytes 32 0.

Lemma mac_domains_separated_witness : collision const_sha256.
Proof.
  refine (mac_domains_separated const_sha256 toy_cap toy_cap sample_frame (le_bytes 16 7)
            COMMAND_AUTH_CONTEXT_V1 (le_bytes 32 9) 1 eq_refl eq_refl _).
  left. reflexivity.
Defined.
