(* ===== verification/Net.v ===== *)
(** * Programs over a byte stream

    The transports of [libs/com], the guest dispatcher of [libs/init] and the
    COM1 exchange are straight-line programs over a connected byte stream.
    They are modelled as resumptions ([prog]): the program stops at each
    socket operation and continues with whatever the environment answers.
    Three semantics are given:

    - [exec]: any environment, answering every operation as it likes;
    - [serve]: the peer's bytes are all there, then end of file;
    - [step]: two programs connected by two FIFO byte channels, interleaved
      arbitrarily, with the confluence of that system. *)

From Stdlib Require Import ZArith Lia.
From stdpp Require Import base tactics option list numbers strings.
From S2P Require Import Prelude Bytes Text.

(** The [std::io::ErrorKind]s the sources distinguish. *)
Inductive ErrorKind :=
  | UnexpectedEof
  | TimedOutKind
  | WouldBlock
  | InvalidInput
  | InvalidData
  | OutOfMemory
  | OtherKind.

(** Socket options the sources set. *)
Inductive sockopt :=
  | SetNonblocking (on : bool)
  | SetReadTimeout (armed : bool)
  | SetWriteTimeout (armed : bool).

Inductive action :=
  | WriteAll (b : bytes)
  | Flush
  | SetOpt (o : sockopt)
  | ShutdownBoth.

(** Calls a component makes to other components, with their answers. *)
Record effects := { ext : Type; ext_ans : ext -> Type }.
Definition no_effects : effects := {| ext := Empty_set; ext_ans := fun _ => Empty_set |}.

Inductive prog (F : effects) (E A : Type) : Type :=
  | Done (r : res E A)
  | ReadExact (n : Z) (k : bytes + ErrorKind -> prog F E A)
  | Act (a : action) (k : option ErrorKind -> prog F E A)
  | Reserve (n : Z) (k : bool -> prog F E A)
  | Elapsed (k : bool -> prog F E A)
  | Ext (x : ext F) (k : ext_ans F x -> prog F E A).
Arguments Done {F E A}.
Arguments ReadExact {F E A}.
Arguments Act {F E A}.
Arguments Reserve {F E A}.
Arguments Elapsed {F E A}.
Arguments Ext {F E A}.

Fixpoint pbind {F E A B} (f : A -> prog F E B) (p : prog F E A) : prog F E B :=
  match p with
  | Done (Ok a) => f a
  | Done (Err e) => Done (Err e)
  | Done Panic => Done Panic
  | ReadExact n k => ReadExact n (fun a => pbind f (k a))
  | Act a k => Act a (fun x => pbind f (k x))
  | Reserve n k => Reserve n (fun x => pbind f (k x))
  | Elapsed k => Elapsed (fun x => pbind f (k x))
  | Ext x k => Ext x (fun a => pbind f (k a))
  end.

#[global] Instance prog_ret {F E} : MRet (prog F E) := fun A a => Done (Ok a).
#[global] Instance prog_bind {F E} : MBind (prog F E) := fun A B f p => pbind f p.

Definition of_res {F E A} (r : res E A) : prog F E A := Done r.

Lemma of_res_bind {F E A B} (a : A) (f : A -> prog F E B) : (of_res (Ok a) ≫= f) = f a.
Proof. reflexivity. Qed.

(** Observe the result of a subprogram ([match], [let _ =], [map_err]). *)
Fixpoint ptry {F E E' A B} (f : res E A -> prog F E' B) (p : prog F E A) : prog F E' B :=
  match p with
  | Done r => f r
  | ReadExact n k => ReadExact n (fun a => ptry f (k a))
  | Act a k => Act a (fun x => ptry f (k x))
  | Reserve n k => Reserve n (fun x => ptry f (k x))
  | Elapsed k => Elapsed (fun x => ptry f (k x))
  | Ext x k => Ext x (fun a => ptry f (k a))
  end.

Definition pmap_err {F E E' A} (f : E -> E') (p : prog F E A) : prog F E' A :=
  ptry (fun r => Done (map_err f r)) p.

(** [race(p, timer)] and [tokio::time::timeout]: at every suspension the
    deadline may have elapsed, and the whole program then fails with [e]. *)
Fixpoint with_deadline {F E A} (e : E) (p : prog F E A) : prog F E A :=
  Elapsed (fun late =>
    if late then Done (Err e) else
    match p with
    | Done r => Done r
    | ReadExact n k => ReadExact n (fun a => with_deadline e (k a))
    | Act a k => Act a (fun x => with_deadline e (k x))
    | Reserve n k => Reserve n (fun x => with_deadline e (k x))
    | Elapsed k => Elapsed (fun x => with_deadline e (k x))
    | Ext x k => Ext x (fun a => with_deadline e (k a))
    end).

(** ** Any environment *)

Inductive event (F : effects) : Type :=
  | EvRead (n : Z) (a : bytes + ErrorKind)
  | EvAct (a : action) (x : option ErrorKind)
  | EvReserve (n : Z) (ok : bool)
  | EvElapsed (late : bool)
  | EvExt (x : ext F) (a : ext_ans F x).
Arguments EvRead {F}.
Arguments EvAct {F}.
Arguments EvReserve {F}.
Arguments EvElapsed {F}.
Arguments EvExt {F}.

(** [read_exact] fills the whole buffer when it succeeds. *)
Definition read_answer_ok (n : Z) (a : bytes + ErrorKind) : Prop :=
  match a with inl b => len b = n | inr _ => True end.

Fixpoint exec {F E A} (p : prog F E A) (tr : list (event F)) (r : res E A) : Prop :=
  match p with
  | Done r0 => tr = [] /\ r = r0
  | ReadExact n k => exists a tr', tr = EvRead n a :: tr' /\ read_answer_ok n a /\ exec (k a) tr' r
  | Act a k => exists x tr', tr = EvAct a x :: tr' /\ exec (k x) tr' r
  | Reserve n k => exists ok tr', tr = EvReserve n ok :: tr' /\ exec (k ok) tr' r
  | Elapsed k => exists late tr', tr = EvElapsed late :: tr' /\ exec (k late) tr' r
  | Ext x k => exists a tr', tr = EvExt x a :: tr' /\ exec (k a) tr' r
  end.

(** The trace of a sequence is the trace of the first part, then of the rest. *)
Lemma exec_bind_inv {F E A B} (f : A -> prog F E B) (p : prog F E A) tr r :
  exec (p ≫= f) tr r ->
  exists tr1 tr2 r1, tr = tr1 ++ tr2 /\ exec p tr1 r1 /\
    match r1 with
    | Ok a => exec (f a) tr2 r
    | Err e => tr2 = [] /\ r = Err e
    | Panic => tr2 = [] /\ r = Panic
    end.
Proof.
  revert tr. induction p as [r0|n k IH|a k IH|n k IH|k IH|x k IH]; intros tr H; cbn in H.
  { destruct r0 as [a|e|]; [|destruct H as [-> ->]..].
    - by exists [], tr, (Ok a).
    - by exists [], [], (Err e).
    - by exists [], [], Panic. }
  { destruct H as (a & tr' & -> & Ha & H). apply IH in H as (tr1 & tr2 & r1 & -> & H1 & H2).
    exists (EvRead n a :: tr1), tr2, r1. split_and!; [done|cbn; eauto|done]. }
  { destruct H as (a' & tr' & -> & H). apply IH in H as (tr1 & tr2 & r1 & -> & H1 & H2).
    exists (EvAct a a' :: tr1), tr2, r1. split_and!; [done|cbn; eauto|done]. }
  { destruct H as (a' & tr' & -> & H). apply IH in H as (tr1 & tr2 & r1 & -> & H1 & H2).
    exists (EvReserve n a' :: tr1), tr2, r1. split_and!; [done|cbn; eauto|done]. }
  { destruct H as (a' & tr' & -> & H). apply IH in H as (tr1 & tr2 & r1 & -> & H1 & H2).
    exists (EvElapsed a' :: tr1), tr2, r1. split_and!; [done|cbn; eauto|done]. }
  { destruct H as (a' & tr' & -> & H). apply IH in H as (tr1 & tr2 & r1 & -> & H1 & H2).
    exists (EvExt x a' :: tr1), tr2, r1. split_and!; [done|cbn; eauto|done]. }
Qed.

Lemma exec_try_inv {F E E' A B} (f : res E A -> prog F E' B) (p : prog F E A) tr r :
  exec (ptry f p) tr r ->
  exists tr1 tr2 r1, tr = tr1 ++ tr2 /\ exec p tr1 r1 /\ exec (f r1) tr2 r.
Proof.
  revert tr. induction p as [r0|n k IH|a k IH|n k IH|k IH|x k IH]; intros tr H; cbn in H.
  { by exists [], tr, r0. }
  { destruct H as (a & tr' & -> & Ha & H). apply IH in H as (tr1 & tr2 & r1 & -> & H1 & H2).
    exists (EvRead n a :: tr1), tr2, r1. split_and!; [done|cbn; eauto|done]. }
  { destruct H as (a' & tr' & -> & H). apply IH in H as (tr1 & tr2 & r1 & -> & H1 & H2).
    exists (EvAct a a' :: tr1), tr2, r1. split_and!; [done|cbn; eauto|done]. }
  { destruct H as (a' & tr' & -> & H). apply IH in H as (tr1 & tr2 & r1 & -> & H1 & H2).
    exists (EvReserve n a' :: tr1), tr2, r1. split_and!; [done|cbn; eauto|done]. }
  { destruct H as (a' & tr' & -> & H). apply IH in H as (tr1 & tr2 & r1 & -> & H1 & H2).
    exists (EvElapsed a' :: tr1), tr2, r1. split_and!; [done|cbn; eauto|done]. }
  { destruct H as (a' & tr' & -> & H). apply IH in H as (tr1 & tr2 & r1 & -> & H1 & H2).
    exists (EvExt x a' :: tr1), tr2, r1. split_and!; [done|cbn; eauto|done]. }
Qed.

(** ** A peer that has sent everything it will send

    [serve h p input] runs [p] when [input] is all the peer sends before it
    closes, every other operation succeeds and no deadline elapses; it returns
    the result, the unread input and the bytes written. *)
Fixpoint serve {F E A} (h : forall x, ext_ans F x) (p : prog F E A) (input : bytes)
    : res E A * bytes * bytes :=
  match p with
  | Done r => (r, input, [])
  | ReadExact n k =>
    if n <=? len input
    then serve h (k (inl (take (Z.to_nat n) input))) (drop (Z.to_nat n) input)
    else serve h (k (inr UnexpectedEof)) []
  | Act a k =>
    let '(r, rest, out) := serve h (k None) input in
    (r, rest, match a with WriteAll b => b ++ out | _ => out end)
  | Reserve n k => serve h (k true) input
  | Elapsed k => serve h (k false) input
  | Ext x k => serve h (k (h x)) input
  end.

Section Serve.
Context {F : effects} (h : forall x, ext_ans F x).

Lemma serve_bind {E A B} (f : A -> prog F E B) (p : prog F E A) input :
  serve h (p ≫= f) input =
  match serve h p input with
  | (Ok a, rest, out) => let '(r, rest', out') := serve h (f a) rest in (r, rest', out ++ out')
  | (Err e, rest, out) => (Err e, rest, out)
  | (Panic, rest, out) => (Panic, rest, out)
  end.
Proof.
  revert input. induction p as [r|n k IH|a k IH|n k IH|k IH|x k IH]; intros input;
    unfold mbind, prog_bind in *; cbn.
  - destruct r; cbn; [|done..]. by destruct (serve h (f a) input) as [[? ?] ?].
  - destruct (n <=? len input); apply IH.
  - rewrite IH. destruct (serve h (k None) input) as [[[a'|e|] rest] out]; [|by destruct a..].
    destruct (serve h (f a') rest) as [[r' rest'] out'].
    destruct a; by rewrite ?app_assoc.
  - apply IH.
  - apply IH.
  - apply IH.
Qed.

Lemma serve_try {E E' A B} (f : res E A -> prog F E' B) (p : prog F E A) input :
  serve h (ptry f p) input =
  let '(r, rest, out) := serve h p input in
  let '(r', rest', out') := serve h (f r) rest in (r', rest', out ++ out').
Proof.
  revert input. induction p as [r|n k IH|a k IH|n k IH|k IH|x k IH]; intros input; cbn.
  - by destruct (serve h (f r) input) as [[? ?] ?].
  - destruct (n <=? len input); apply IH.
  - rewrite IH. destruct (serve h (k None) input) as [[r rest] out].
    destruct (serve h (f r) rest) as [[r' rest'] out'].
    destruct a; by rewrite ?app_assoc.
  - apply IH.
  - apply IH.
  - apply IH.
Qed.

Lemma serve_deadline {E A} (e : E) (p : prog F E A) input :
  serve h (with_deadline e p) input = serve h p input.
Proof.
  revert input. induction p as [r|n k IH|a k IH|n k IH|k IH|x k IH]; intros input; cbn.
  - done.
  - destruct (n <=? len input); apply IH.
  - by rewrite IH.
  - apply IH.
  - apply IH.
  - apply IH.
Qed.
End Serve.

(** ** Two programs connected by FIFO channels *)

(** [drive h p input]: run [p] on the bytes that have arrived, external calls
    answered by [h]; [None] when it would block waiting for more. *)
Fixpoint drive {F E A} (h : forall x, ext_ans F x) (p : prog F E A) (input : bytes)
    : option (res E A * bytes * bytes) :=
  match p with
  | Done r => Some (r, input, [])
  | ReadExact n k =>
    if n <=? len input
    then drive h (k (inl (take (Z.to_nat n) input))) (drop (Z.to_nat n) input)
    else None
  | Act a k =>
    '(r, rest, out) ← drive h (k None) input;
    Some (r, rest, match a with WriteAll b => b ++ out | _ => out end)
  | Reserve n k => drive h (k true) input
  | Elapsed k => drive h (k false) input
  | Ext x k => drive h (k (h x)) input
  end.

(** [close h p]: the program with its external calls answered by [h]. *)
Fixpoint close {F E A} (h : forall x, ext_ans F x) (p : prog F E A) : prog no_effects E A :=
  match p with
  | Done r => Done r
  | ReadExact n k => ReadExact n (fun a => close h (k a))
  | Act a k => Act a (fun x => close h (k x))
  | Reserve n k => Reserve n (fun x => close h (k x))
  | Elapsed k => Elapsed (fun x => close h (k x))
  | Ext x k => close h (k (h x))
  end.

Section Drive.
Context {F : effects} (h : forall x, ext_ans F x).

Lemma drive_bind {E A B} (f : A -> prog F E B) (p : prog F E A) input a rest out :
  drive h p input = Some (Ok a, rest, out) ->
  drive h (p ≫= f) input =
    match drive h (f a) rest with
    | Some (r, rest', out') => Some (r, rest', out ++ out')
    | None => None
    end.
Proof.
  unfold mbind, prog_bind. revert input out.
  induction p as [r|n k IH|ac k IH|n k IH|k IH|x k IH]; intros input out H; cbn in *.
  - injection H as -> -> <-. cbn. by destruct (drive h (f a) rest) as [[[? ?] ?]|].
  - destruct (n <=? len input); [|done]. by apply IH.
  - destruct (drive h (k None) input) as [[[r rest0] out0]|] eqn:Hd; cbn in H; [|done].
    injection H as -> -> <-. rewrite (IH _ _ _ Hd).
    destruct (drive h (f a) rest) as [[[r' rest'] out']|]; cbn; [|done].
    destruct ac; by rewrite ?app_assoc.
  - by apply IH.
  - by apply IH.
  - by apply IH.
Qed.

Lemma drive_try {E E' A B} (f : res E A -> prog F E' B) (p : prog F E A) input a rest out :
  drive h p input = Some (a, rest, out) ->
  drive h (ptry f p) input =
    match drive h (f a) rest with
    | Some (r, rest', out') => Some (r, rest', out ++ out')
    | None => None
    end.
Proof.
  revert input out.
  induction p as [r|n k IH|ac k IH|n k IH|k IH|x k IH]; intros input out H; cbn in *.
  - injection H as -> -> <-. cbn. by destruct (drive h (f a) rest) as [[[? ?] ?]|].
  - destruct (n <=? len input); [|done]. by apply IH.
  - destruct (drive h (k None) input) as [[[r rest0] out0]|] eqn:Hd; cbn in H; [|done].
    injection H as -> -> <-. rewrite (IH _ _ _ Hd).
    destruct (drive h (f a) rest) as [[[r' rest'] out']|]; cbn; [|done].
    destruct ac; by rewrite ?app_assoc.
  - by apply IH.
  - by apply IH.
  - by apply IH.
Qed.

Lemma drive_deadline {E A} (e : E) (p : prog F E A) input :
  drive h (with_deadline e p) input = drive h p input.
Proof.
  revert input. induction p as [r|n k IH|a k IH|n k IH|k IH|x k IH]; intros input; cbn.
  - done.
  - destruct (n <=? len input); [apply IH|done].
  - by rewrite IH.
  - apply IH.
  - apply IH.
  - apply IH.
Qed.

Lemma drive_serve {E A} (p : prog F E A) input x :
  drive h p input = Some x -> serve h p input = x.
Proof.
  revert input x. induction p as [r|n k IH|ac k IH|n k IH|k IH|e k IH]; intros input x H; cbn in *.
  - by simplify_eq.
  - destruct (n <=? len input); [|done]. by apply IH.
  - destruct (drive h (k None) input) as [[[r1 rest1] out1]|] eqn:Hd; cbn in H; [|done].
    simplify_eq. by rewrite (IH _ _ _ Hd).
  - by apply IH.
  - by apply IH.
  - by apply IH.
Qed.
End Drive.

Definition no_handler : forall x, ext_ans no_effects x := fun x => match x with end.

(** A side that has failed drops its socket: its peer reads end of file. *)
Definition closed {E A} (p : prog no_effects E A) : bool :=
  match p with Done (Err _) | Done Panic => true | _ => false end.

Definition advance {E A} (peer_closed : bool) (p : prog no_effects E A) (inq outq : bytes)
    : option (prog no_effects E A * bytes * bytes) :=
  match p with
  | Done _ => None
  | ReadExact n k =>
    if n <=? len inq
    then Some (k (inl (take (Z.to_nat n) inq)), drop (Z.to_nat n) inq, outq)
    else if peer_closed then Some (k (inr UnexpectedEof), [], outq) else None
  | Act a k => Some (k None, inq, outq ++ match a with WriteAll b => b | _ => [] end)
  | Reserve n k => Some (k true, inq, outq)
  | Elapsed k => Some (k false, inq, outq)
  | Ext x _ => match x with end
  end.

Record link (E1 A1 E2 A2 : Type) := mk_link {
  lk_left : prog no_effects E1 A1;
  lk_right : prog no_effects E2 A2;
  lk_to_right : bytes;
  lk_to_left : bytes;
}.
Arguments mk_link {E1 A1 E2 A2}.
Arguments lk_left {E1 A1 E2 A2}.
Arguments lk_right {E1 A1 E2 A2}.
Arguments lk_to_right {E1 A1 E2 A2}.
Arguments lk_to_left {E1 A1 E2 A2}.

Inductive step {E1 A1 E2 A2} : link E1 A1 E2 A2 -> link E1 A1 E2 A2 -> Prop :=
  | step_left l r tr tl l' tl' tr' :
      advance (closed r) l tl tr = Some (l', tl', tr') ->
      step (mk_link l r tr tl) (mk_link l' r tr' tl')
  | step_right l r tr tl r' tr' tl' :
      advance (closed l) r tr tl = Some (r', tr', tl') ->
      step (mk_link l r tr tl) (mk_link l r' tr' tl').

(** [n] steps. *)
Inductive steps {E1 A1 E2 A2} : nat -> link E1 A1 E2 A2 -> link E1 A1 E2 A2 -> Prop :=
  | steps_0 s : steps 0 s s
  | steps_S n s s' s'' : step s s' -> steps n s' s'' -> steps (S n) s s''.

Definition stuck {E1 A1 E2 A2} (s : link E1 A1 E2 A2) : Prop := forall s', ~ step s s'.

(** What one side does is not disturbed by what the other side does. *)
Lemma advance_input {E A} c c' (p p' : prog no_effects E A) inq inq' outq outq' b :
  advance c p inq outq = Some (p', inq', outq') ->
  c = false ->
  advance c' p (inq ++ b) outq = Some (p', inq' ++ b, outq').
Proof.
  intros H ->. destruct p as [r|n k|a k|n k|k|x k]; cbn in *; try by simplify_eq.
  destruct (Z.leb_spec n (len inq)); [|done]. simplify_eq.
  rewrite len_app, (proj2 (Z.leb_le _ _)) by (pose proof (len_nonneg b); lia).
  unfold len in *. rewrite take_app_le, drop_app_le by lia. done.
Qed.

Lemma advance_output {E A} c (p p' : prog no_effects E A) inq inq' outq outq' x :
  advance c p inq outq = Some (p', inq', outq') ->
  exists b, outq' = outq ++ b /\ advance c p inq x = Some (p', inq', x ++ b).
Proof.
  destruct p as [r|n k|a k|n k|k|e k]; cbn; intros H; try done.
  - exists []. rewrite !app_nil_r. destruct (n <=? len inq); [by simplify_eq|].
    destruct c; by simplify_eq.
  - simplify_eq. eauto.
  - simplify_eq. exists []. by rewrite !app_nil_r.
  - simplify_eq. exists []. by rewrite !app_nil_r.
Qed.

Lemma advance_not_closed {E A} c (p p' : prog no_effects E A) inq inq' outq outq' :
  advance c p inq outq = Some (p', inq', outq') -> closed p = false.
Proof. by destruct p as [[]| | | | |]. Qed.

Lemma advance_input_open {E A} c' (p p' : prog no_effects E A) inq inq' outq outq' b :
  advance false p inq outq = Some (p', inq', outq') ->
  advance c' p (inq ++ b) outq = Some (p', inq' ++ b, outq').
Proof. intros H. by eapply advance_input. Qed.

Lemma step_diamond {E1 A1 E2 A2} (s a b : link E1 A1 E2 A2) :
  step s a -> step s b -> a = b \/ exists c, step a c /\ step b c.
Proof.
  intros Ha Hb. destruct Ha as [l r tr tl l' tl' tr' Ha|l r tr tl r' tr' tl' Ha];
    inversion Hb as [? ? ? ? l2 tl2 tr2 H2|? ? ? ? r2 tr2 tl2 H2]; subst.
  - left. rewrite Ha in H2. by simplify_eq.
  - right. rewrite (advance_not_closed _ _ _ _ _ _ _ H2) in Ha.
    rewrite (advance_not_closed _ _ _ _ _ _ _ Ha) in H2.
    destruct (advance_output _ _ _ _ _ _ _ [] Ha) as (bl & -> & _).
    destruct (advance_output _ _ _ _ _ _ _ [] H2) as (br & -> & _).
    eexists (mk_link l' r2 (tr2 ++ bl) (tl' ++ br)). split.
    + apply step_right. apply (advance_input_open (closed l')) with (b := bl) in H2.
      destruct (advance_output _ _ _ _ _ _ _ tl' H2) as (b' & E & H2').
      apply app_inv_head in E as <-. exact H2'.
    + apply step_left. apply (advance_input_open (closed r2)) with (b := br) in Ha.
      destruct (advance_output _ _ _ _ _ _ _ tr2 Ha) as (b' & E & Ha').
      apply app_inv_head in E as <-. exact Ha'.
  - right. rewrite (advance_not_closed _ _ _ _ _ _ _ H2) in Ha.
    rewrite (advance_not_closed _ _ _ _ _ _ _ Ha) in H2.
    destruct (advance_output _ _ _ _ _ _ _ [] Ha) as (bl & -> & _).
    destruct (advance_output _ _ _ _ _ _ _ [] H2) as (br & -> & _).
    eexists (mk_link l2 r' (tr' ++ br) (tl2 ++ bl)). split.
    + apply step_left. apply (advance_input_open (closed r')) with (b := bl) in H2.
      destruct (advance_output _ _ _ _ _ _ _ tr' H2) as (b' & E & H2').
      apply app_inv_head in E as <-. exact H2'.
    + apply step_right. apply (advance_input_open (closed l2)) with (b := br) in Ha.
      destruct (advance_output _ _ _ _ _ _ _ tl2 Ha) as (b' & E & Ha').
      apply app_inv_head in E as <-. exact Ha'.
  - left. rewrite Ha in H2. by simplify_eq.
Qed.

(** Every schedule: if one run of [n] steps ends in a stuck state, every run
    is at most that long and can only end in that state. *)
Lemma steps_confluent {E1 A1 E2 A2} n (s x : link E1 A1 E2 A2) :
  steps n s x -> stuck x ->
  forall m y, steps m s y -> exists k, (n = m + k)%nat /\ steps k y x.
Proof.
  intros Hn Hx m. revert n s Hn. induction m as [|m IH]; intros n s Hn y Hm.
  { inversion Hm; subst. by exists n. }
  inversion Hm as [|? ? s1 ? Hs1 Hm']; subst.
  assert (exists n', n = S n' /\ steps n' s1 x) as (n' & -> & Hn').
  { clear -Hn Hx Hs1. revert s1 Hs1. induction Hn as [s|n s s' s'' Hs' Hn IH]; intros s1 Hs1.
    { by apply Hx in Hs1. }
    destruct (step_diamond _ _ _ Hs' Hs1) as [<-|(c & Hc & Hc')]; [eauto|].
    destruct (IH Hx _ Hc) as (n' & -> & Hc'').
    exists (S n'). split; [done|]. by eapply steps_S. }
  destruct (IH _ _ Hn' _ Hm') as (k & -> & Hk). by exists k.
Qed.

Lemma steps_trans {E1 A1 E2 A2} n m (s s' s'' : link E1 A1 E2 A2) :
  steps n s s' -> steps m s' s'' -> steps (n + m) s s''.
Proof. induction 1; cbn; [done|]. intros. eapply steps_S; eauto. Qed.

Definition reaches {E1 A1 E2 A2} (s s' : link E1 A1 E2 A2) : Prop := exists n, steps n s s'.

Lemma reaches_trans {E1 A1 E2 A2} (s s' s'' : link E1 A1 E2 A2) :
  reaches s s' -> reaches s' s'' -> reaches s s''.
Proof. intros [n Hn] [m Hm]. exists (n + m)%nat. by eapply steps_trans. Qed.

Lemma reaches_step {E1 A1 E2 A2} (s s' s'' : link E1 A1 E2 A2) :
  step s s' -> reaches s' s'' -> reaches s s''.
Proof. intros H [n Hn]. exists (S n). by eapply steps_S. Qed.

Lemma reaches_refl {E1 A1 E2 A2} (s : link E1 A1 E2 A2) : reaches s s.
Proof. exists 0%nat. constructor. Qed.

(** ** Partial runs

    [pumps h p i p' rest out]: on the bytes [i] that have arrived, [p] can run
    up to [p'], leaving [rest] and having written [out]. *)
Definition written (a : action) : bytes := match a with WriteAll b => b | _ => [] end.

Inductive pumps {F E A} (h : forall x, ext_ans F x)
    : prog F E A -> bytes -> prog F E A -> bytes -> bytes -> Prop :=
  | pumps_refl p i : pumps h p i p i []
  | pumps_read n k i p' rest out :
      n <= len i ->
      pumps h (k (inl (take (Z.to_nat n) i))) (drop (Z.to_nat n) i) p' rest out ->
      pumps h (ReadExact n k) i p' rest out
  | pumps_act a k i p' rest out :
      pumps h (k None) i p' rest out -> pumps h (Act a k) i p' rest (written a ++ out)
  | pumps_reserve n k i p' rest out :
      pumps h (k true) i p' rest out -> pumps h (Reserve n k) i p' rest out
  | pumps_elapsed k i p' rest out :
      pumps h (k false) i p' rest out -> pumps h (Elapsed k) i p' rest out
  | pumps_ext x k i p' rest out :
      pumps h (k (h x)) i p' rest out -> pumps h (Ext x k) i p' rest out.

Section Pumps.
Context {F : effects} (h : forall x, ext_ans F x).

Lemma pumps_trans {E A} (p p' p'' : prog F E A) i rest rest' out out' :
  pumps h p i p' rest out -> pumps h p' rest p'' rest' out' ->
  pumps h p i p'' rest' (out ++ out').
Proof.
  induction 1; cbn; intros; try (by constructor; auto); [done|].
  rewrite <-app_assoc. constructor. auto.
Qed.

Lemma pumps_bind {E A B} (f : A -> prog F E B) (p p' : prog F E A) i rest out :
  pumps h p i p' rest out -> pumps h (p ≫= f) i (p' ≫= f) rest out.
Proof. unfold mbind, prog_bind. induction 1; cbn; by constructor. Qed.

Lemma pumps_try {E E' A B} (f : res E A -> prog F E' B) (p p' : prog F E A) i rest out :
  pumps h p i p' rest out -> pumps h (ptry f p) i (ptry f p') rest out.
Proof. induction 1; cbn; by constructor. Qed.

Lemma pumps_deadline {E A} (e : E) (p p' : prog F E A) i rest out :
  pumps h p i p' rest out -> pumps h (with_deadline e p) i (with_deadline e p') rest out.
Proof. induction 1; cbn [with_deadline]; [constructor|by do 2 constructor..]. Qed.

Lemma drive_pumps {E A} (p : prog F E A) i x rest out :
  drive h p i = Some (x, rest, out) -> pumps h p i (Done x) rest out.
Proof.
  revert i out. induction p as [r|n k IH|ac k IH|n k IH|k IH|e k IH]; intros i out H; cbn in H.
  - simplify_eq. constructor.
  - destruct (Z.leb_spec n (len i)); [|done]. constructor; auto.
  - destruct (drive h (k None) i) as [[[r1 rest1] out1]|] eqn:Hd; cbn in H; [|done].
    simplify_eq. apply IH, (pumps_act h ac) in Hd. by destruct ac.
  - constructor. auto.
  - constructor. auto.
  - constructor. auto.
Qed.

(** A partial run is the beginning of the whole run. *)
Lemma pumps_drive {E A} (p p' : prog F E A) i rest out r rest' out' :
  pumps h p i p' rest out -> drive h p' rest = Some (r, rest', out') ->
  drive h p i = Some (r, rest', out ++ out').
Proof.
  intros H Hd. induction H as [p i|n k i p' rest out Hn _ IH|ac k i p' rest out _ IH
    |n k i p' rest out _ IH|k i p' rest out _ IH|x k i p' rest out _ IH]; cbn; auto.
  - rewrite (proj2 (Z.leb_le _ _)) by done. auto.
  - rewrite IH by done. cbn. destruct ac; cbn; by rewrite ?app_assoc.
Qed.

Lemma pumps_serve {E A} (p p' : prog F E A) i rest out r rest' out' :
  pumps h p i p' rest out -> serve h p' rest = (r, rest', out') ->
  serve h p i = (r, rest', out ++ out').
Proof.
  intros H Hd. induction H as [p i|n k i p' rest out Hn _ IH|ac k i p' rest out _ IH
    |n k i p' rest out _ IH|k i p' rest out _ IH|x k i p' rest out _ IH]; cbn; auto.
  - rewrite (proj2 (Z.leb_le _ _)) by done. auto.
  - rewrite IH by done. cbn. destruct ac; cbn; by rewrite ?app_assoc.
Qed.

Lemma pumps_serve_silent {E A} (p p' : prog F E A) i rest x :
  pumps h p i p' rest [] -> serve h p' rest = x -> serve h p i = x.
Proof. destruct x as [[r rest'] out']. apply (pumps_serve p p' i rest [] r rest' out'). Qed.

(** A sequence whose first part runs to its end. *)
Lemma drive_pumps_bind {E A B} (f : A -> prog F E B) (p : prog F E A) i a rest out :
  drive h p i = Some (Ok a, rest, out) -> pumps h (p ≫= f) i (f a) rest out.
Proof. intros H. by apply drive_pumps, (pumps_bind f) in H. Qed.
End Pumps.

Lemma reaches_pump_left {F E1 A1 E2 A2} (h : forall x, ext_ans F x) (q q' : prog F E1 A1)
    (r : prog no_effects E2 A2) tr tl tl' out :
  pumps h q tl q' tl' out ->
  reaches (mk_link (close h q) r tr tl) (mk_link (close h q') r (tr ++ out) tl').
Proof.
  intros H. revert tr. induction H as [p i|n k i p' rest out Hn _ IH|ac k i p' rest out _ IH
    |n k i p' rest out _ IH|k i p' rest out _ IH|x k i p' rest out _ IH]; intros tr; cbn.
  - rewrite app_nil_r. apply reaches_refl.
  - eapply reaches_step; [|apply IH]. apply step_left. cbn. by rewrite (proj2 (Z.leb_le _ _)).
  - eapply reaches_step; [by apply step_left|]. rewrite app_assoc. apply IH.
  - eapply reaches_step; [by apply step_left|]. apply IH.
  - eapply reaches_step; [by apply step_left|]. apply IH.
  - apply IH.
Qed.

Definition flip_link {E1 A1 E2 A2} (s : link E1 A1 E2 A2) : link E2 A2 E1 A1 :=
  mk_link (lk_right s) (lk_left s) (lk_to_left s) (lk_to_right s).

Lemma reaches_flip {E1 A1 E2 A2} (s s' : link E1 A1 E2 A2) :
  reaches s s' -> reaches (flip_link s) (flip_link s').
Proof.
  intros [n H]. exists n. induction H as [s|n s s' s'' Hs _ IH]; [constructor|].
  eapply steps_S; [|exact IH]. inversion Hs; subst; cbn; by constructor.
Qed.

Lemma reaches_pump_right {F E1 A1 E2 A2} (h : forall x, ext_ans F x) (q q' : prog F E2 A2)
    (l : prog no_effects E1 A1) tr tl tr' out :
  pumps h q tr q' tr' out ->
  reaches (mk_link l (close h q) tr tl) (mk_link l (close h q') tr' (tl ++ out)).
Proof. intros H. apply (reaches_pump_left h q q' l tl) in H. by apply reaches_flip in H. Qed.

(** The peer has failed and closed: reads past its bytes see end of file. *)
Lemma reaches_left_closed {F E1 A1 E2 A2} (h : forall x, ext_ans F x) (q : prog F E1 A1)
    (r : prog no_effects E2 A2) tr tl x tl' out :
  closed r = true -> serve h q tl = (x, tl', out) ->
  reaches (mk_link (close h q) r tr tl) (mk_link (Done x) r (tr ++ out) tl').
Proof.
  intros Hr. revert tr tl out.
  induction q as [r0|n k IH|ac k IH|n k IH|k IH|e k IH]; intros tr tl out H; cbn in H; cbn [close].
  - simplify_eq. rewrite app_nil_r. apply reaches_refl.
  - destruct (n <=? len tl) eqn:Hn;
      (eapply reaches_step; [|by apply IH]); apply step_left; cbn; by rewrite Hn, ?Hr.
  - destruct (serve h (k None) tl) as [[r1 rest1] out1] eqn:Hd.
    simplify_eq. eapply reaches_step; [by apply step_left|].
    destruct ac; cbn; rewrite ?app_assoc, ?app_nil_r; by apply IH.
  - eapply reaches_step; [by apply step_left|]. by apply IH.
  - eapply reaches_step; [by apply step_left|]. by apply IH.
  - by apply IH.
Qed.

(** [inevitable s x]: whatever the schedule, the system started in [s] stops,
    after a bounded number of steps, in [x]. *)
Definition inevitable {E1 A1 E2 A2} (s x : link E1 A1 E2 A2) : Prop :=
  stuck x /\ exists n, forall m y, steps m s y ->
    (m <= n)%nat /\ reaches y x /\ (stuck y -> y = x).

Lemma reaches_inevitable {E1 A1 E2 A2} (s x : link E1 A1 E2 A2) :
  reaches s x -> stuck x -> inevitable s x.
Proof.
  intros [n Hn] Hx. split; [done|]. exists n. intros m y Hm.
  destruct (steps_confluent n s x Hn Hx m y Hm) as (k & -> & Hk).
  split_and!; [lia|by exists k|]. intros Hy. inversion Hk as [|? ? ? ? Hs]; [done|].
  by apply Hy in Hs.
Qed.

Lemma done_stuck {E1 A1 E2 A2} (x : res E1 A1) (y : res E2 A2) tr tl :
  stuck (mk_link (Done x) (Done y) tr tl).
Proof. intros s' H. by inversion H. Qed.

(** ** Replay

    An executable run that also records its trace: the peer's bytes [i] have
    arrived, [h] answers the external calls. *)
Fixpoint replay {F E A} (h : forall x, ext_ans F x) (p : prog F E A) (i : bytes)
    : option (list (event F) * res E A) :=
  let log ev r := match r with Some (tr, x) => Some (ev :: tr, x) | None => None end in
  match p with
  | Done r => Some ([], r)
  | ReadExact n k =>
    if (0 <=? n) && (n <=? len i)
    then log (EvRead n (inl (take (Z.to_nat n) i)))
           (replay h (k (inl (take (Z.to_nat n) i))) (drop (Z.to_nat n) i))
    else None
  | Act a k => log (EvAct a None) (replay h (k None) i)
  | Reserve n k => log (EvReserve n true) (replay h (k true) i)
  | Elapsed k => log (EvElapsed false) (replay h (k false) i)
  | Ext x k => log (EvExt x (h x)) (replay h (k (h x)) i)
  end.

Lemma replay_exec {F E A} (h : forall x, ext_ans F x) (p : prog F E A) i tr r :
  replay h p i = Some (tr, r) -> exec p tr r.
Proof.
  revert i tr. induction p as [r0|n k IH|ac k IH|n k IH|k IH|x k IH]; intros i tr H; cbn in H |- *.
  - by simplify_eq.
  - destruct (Z.leb_spec 0 n); [|done]. destruct (Z.leb_spec n (len i)); [|done]. cbn in H.
    destruct (replay h _ _) as [[tr' r']|] eqn:Hr; [|done]. simplify_eq.
    eexists _, tr'. split_and!; [done| |by eapply IH]. cbn. unfold len in *.
    rewrite length_take. lia.
  - destruct (replay h _ _) as [[tr' r']|] eqn:Hr; [|done]. simplify_eq. eauto 6.
  - destruct (replay h _ _) as [[tr' r']|] eqn:Hr; [|done]. simplify_eq. eauto 6.
  - destruct (replay h _ _) as [[tr' r']|] eqn:Hr; [|done]. simplify_eq. eauto 6.
  - destruct (replay h _ _) as [[tr' r']|] eqn:Hr; [|done]. simplify_eq. eauto 6.
Qed.
