(* ===== verification/Framing.v ===== *)
(** * Length-prefixed frames

    The three frame codecs of the system: the host transport
    ([libs/com/src/framing.rs], over the blocking and the Tokio adapter of
    [sync.rs] and [async.rs]), the guest dispatcher ([read_frame],
    [write_payload] of [libs/init/src/bus/dispatch.rs]) and the guest's COM1
    port ([send_frame], [recv_frame] of [libs/init/src/components/com.rs]). *)

From Stdlib Require Import ZArith Lia.
From stdpp Require Import base tactics option list numbers strings.
From S2P Require Import Prelude Bytes Text Wire BootConfig Net.

(** ** Errors *)

Inductive TransportError :=
  | Transport_Connect
  | Transport_Serialize
  | Transport_Deserialize
  | Transport_WriteFrame
  | Transport_ReadFrame
  | Transport_FrameTooLarge
  | Transport_FrameAllocation
  | Transport_FrameTruncated
  | Transport_AuthenticationFailed
  | Transport_TimedOut
  | Transport_StreamConversion
  | Transport_BindExpectedProcessBound.

Inductive InitError :=
  | Init_MountNul
  | Init_MountInternal
  | Init_Io
  | Init_NetworkInterfaceTimeout
  | Init_NetworkConfig
  | Init_NetworkListener
  | Init_UnsupportedHost
  | Init_NotFoundCmdlineBackend
  | Init_NotFoundKernelModules
  | Init_RequiredModuleNotLoaded
  | Init_BusDisconnected
  | Init_Serialize
  | Init_Deserialize
  | Init_BootProtocol
  | Init_Authentication
  | Init_FrameTooLarge
  | Init_FrameAllocation
  | Init_Bootstrap
  | Init_FrameTruncated
  | Init_FrameIoTimeout
  | Init_ProcessSpawn
  | Init_ResourceNotFound
  | Init_DiskDeviceMissing
  | Init_DiskFormatFailed
  | Init_DiskMountFailed.

#[global] Instance TransportError_eq_dec : EqDecision TransportError.
Proof. solve_decision. Defined.
#[global] Instance InitError_eq_dec : EqDecision InitError.
Proof. solve_decision. Defined.

(** ** Socket primitives *)

Section Primitives.
Context {F : effects}.

(** [socket.read_exact(buf)] with [buf.len() = n]. *)
Definition read_exact (n : Z) : prog F ErrorKind bytes :=
  ReadExact n (fun a => Done (match a with inl b => Ok b | inr kind => Err kind end)).
Definition act (a : action) : prog F ErrorKind unit :=
  Act a (fun x => Done (match x with None => Ok tt | Some kind => Err kind end)).
Definition write_all (b : bytes) : prog F ErrorKind unit := act (WriteAll b).
Definition flush : prog F ErrorKind unit := act Flush.
Definition set_nonblocking (on : bool) : prog F ErrorKind unit := act (SetOpt (SetNonblocking on)).
Definition set_read_timeout (armed : bool) : prog F ErrorKind unit :=
  act (SetOpt (SetReadTimeout armed)).
Definition set_write_timeout (armed : bool) : prog F ErrorKind unit :=
  act (SetOpt (SetWriteTimeout armed)).
(** [Vec::try_reserve_exact]. *)
Definition try_reserve_exact {E} (n : Z) (e : E) : prog F E unit :=
  Reserve n (fun ok => Done (if ok then Ok tt else Err e)).
End Primitives.

Definition map_async_read_error (k : ErrorKind) : TransportError :=
  match k with
  | UnexpectedEof => Transport_FrameTruncated
  | TimedOutKind => Transport_TimedOut
  | _ => Transport_ReadFrame
  end.

Definition map_sync_read_error (k : ErrorKind) : TransportError :=
  match k with
  | UnexpectedEof => Transport_FrameTruncated
  | TimedOutKind | WouldBlock => Transport_TimedOut
  | _ => Transport_ReadFrame
  end.

(** ** The host codec, over an adapter *)

(** The traits [SyncFrameIo] and [AsyncFrameIo]. *)
Class FrameIo (F : effects) := {
  read_frame_bytes : Z -> prog F TransportError bytes;
  write_frame_bytes : bytes -> prog F TransportError unit;
  flush_frame : prog F TransportError unit;
}.

(** [Stream]: the blocking adapter. *)
Definition Stream_read_frame_bytes {F} (n : Z) : prog F TransportError bytes :=
  _ ← pmap_err (fun _ => Transport_ReadFrame) (set_nonblocking false);
  pmap_err map_sync_read_error (read_exact n).
Definition Stream_write_frame_bytes {F} (data : bytes) : prog F TransportError unit :=
  _ ← pmap_err (fun _ => Transport_WriteFrame) (set_nonblocking false);
  pmap_err (fun _ => Transport_WriteFrame) (write_all data).
Definition Stream_flush_frame {F} : prog F TransportError unit :=
  pmap_err (fun _ => Transport_WriteFrame) flush.
Definition Stream_io {F} : FrameIo F := {|
  read_frame_bytes := Stream_read_frame_bytes;
  write_frame_bytes := Stream_write_frame_bytes;
  flush_frame := Stream_flush_frame |}.

(** [AsyncStream]: the Tokio adapter. *)
Definition AsyncStream_read_frame_bytes {F} (n : Z) : prog F TransportError bytes :=
  pmap_err map_async_read_error (read_exact n).
Definition AsyncStream_write_frame_bytes {F} (data : bytes) : prog F TransportError unit :=
  pmap_err (fun _ => Transport_WriteFrame) (write_all data).
Definition AsyncStream_flush_frame {F} : prog F TransportError unit :=
  pmap_err (fun _ => Transport_WriteFrame) flush.
Definition AsyncStream_io {F} : FrameIo F := {|
  read_frame_bytes := AsyncStream_read_frame_bytes;
  write_frame_bytes := AsyncStream_write_frame_bytes;
  flush_frame := AsyncStream_flush_frame |}.

Definition validate_frame_limit (maximum : Z) : res TransportError unit :=
  fail_if (MAX_COMMAND_FRAME <? maximum) Transport_FrameTooLarge.

Definition checked_frame_len (length maximum : Z) : res TransportError Z :=
  _ ← validate_frame_limit maximum;
  _ ← fail_if (maximum <? length) Transport_FrameTooLarge;
  ok_or (try_from_u 32 length) Transport_FrameTooLarge.

Section Codec.
Context {F : effects} `{!FrameIo F}.

Definition write_frame_limited (data : bytes) (maximum : Z) : prog F TransportError unit :=
  n ← of_res (checked_frame_len (len data) maximum);
  _ ← write_frame_bytes (le_bytes 4 n);
  _ ← write_frame_bytes data;
  flush_frame.

Definition read_frame_with_limit (maximum : Z) : prog F TransportError bytes :=
  _ ← of_res (validate_frame_limit maximum);
  len_buf ← read_frame_bytes 4;
  let n := le_val len_buf in
  _ ← of_res (fail_if (maximum <? n) Transport_FrameTooLarge);
  _ ← try_reserve_exact n Transport_FrameAllocation;
  read_frame_bytes n.
End Codec.

(** [Stream::read_frame_with_deadline]: arm the read timeout, read, disarm,
    then report the read's result. *)
Definition Stream_read_frame_with_deadline {F} (maximum : Z) : prog F TransportError bytes :=
  _ ← pmap_err (fun _ => Transport_ReadFrame) (set_read_timeout true);
  ptry (fun result =>
    _ ← pmap_err (fun _ => Transport_ReadFrame) (set_read_timeout false);
    Done result) (read_frame_with_limit (FrameIo0 := Stream_io) maximum).

(** [AsyncStream::read_frame_with_deadline]: a timer around the read. *)
Definition AsyncStream_read_frame_with_deadline {F} (maximum : Z) : prog F TransportError bytes :=
  with_deadline Transport_TimedOut (read_frame_with_limit (FrameIo0 := AsyncStream_io) maximum).

(** ** The guest dispatcher's codec *)

Section Guest.
Context {F : effects}.

Definition guest_validate_frame_limit (maximum : Z) : res InitError unit :=
  fail_if (MAX_COMMAND_FRAME <? maximum) Init_FrameTooLarge.

Definition guest_read_error (k : ErrorKind) : InitError :=
  match k with UnexpectedEof => Init_FrameTruncated | _ => Init_Io end.

Definition read_frame (maximum : Z) : prog F InitError bytes :=
  _ ← of_res (guest_validate_frame_limit maximum);
  len_buf ← pmap_err guest_read_error (read_exact 4);
  let n := le_val len_buf in
  _ ← of_res (fail_if (maximum <? n) Init_FrameTooLarge);
  _ ← try_reserve_exact n Init_FrameAllocation;
  pmap_err guest_read_error (read_exact n).

Definition read_frame_bounded (maximum : Z) : prog F InitError bytes :=
  with_deadline Init_FrameIoTimeout (read_frame maximum).

Definition write_payload (payload : bytes) (maximum : Z) : prog F InitError unit :=
  _ ← of_res (guest_validate_frame_limit maximum);
  n ← of_res (ok_or (try_from_u 32 (len payload)) Init_FrameTooLarge);
  _ ← of_res (fail_if (maximum <? len payload) Init_FrameTooLarge);
  _ ← pmap_err (fun _ => Init_Io) (write_all (le_bytes 4 n));
  pmap_err (fun _ => Init_Io) (write_all payload).

(** ** The guest's COM1 port *)

Definition send_frame (payload : bytes) (maximum : Z) : prog F ErrorKind unit :=
  _ ← of_res (fail_if (MAX_COMMAND_FRAME <? maximum) InvalidInput);
  n ← of_res (ok_or (try_from_u 32 (len payload)) InvalidInput);
  _ ← of_res (fail_if (maximum <? len payload) InvalidInput);
  _ ← write_all (le_bytes 4 n);
  _ ← write_all payload;
  flush.

Definition recv_frame (maximum : Z) : prog F ErrorKind bytes :=
  _ ← of_res (fail_if (MAX_COMMAND_FRAME <? maximum) InvalidInput);
  length_bytes ← read_exact 4;
  let n := le_val length_bytes in
  _ ← of_res (fail_if (maximum <? n) InvalidData);
  _ ← try_reserve_exact n OutOfMemory;
  read_exact n.

Definition recv_boot_frame : prog F ErrorKind bytes := recv_frame MAX_BOOT_CONFIG_FRAME.
End Guest.

(** ** What an adapter promises *)

Definition frame_wire (d : bytes) : bytes := le_bytes 4 (len d) ++ d.

Class FrameIoLaws {F} (io : FrameIo F) : Prop := {
  read_frame_bytes_drive h n input :
    drive h (read_frame_bytes n) input =
    if n <=? len input
    then Some (Ok (take (Z.to_nat n) input), drop (Z.to_nat n) input, []) else None;
  read_frame_bytes_eof h n input :
    len input < n -> serve h (read_frame_bytes n) input = (Err Transport_FrameTruncated, [], []);
  write_frame_bytes_drive h b input : drive h (write_frame_bytes b) input = Some (Ok tt, input, b);
  flush_frame_drive h input : drive h flush_frame input = Some (Ok tt, input, []);
}.

#[global] Instance Stream_io_laws {F} : FrameIoLaws (F:=F) Stream_io.
Proof.
  split.
  - intros h n input. cbn. by destruct (n <=? len input).
  - intros h n input Hn. cbn. by rewrite (proj2 (Z.leb_gt _ _)).
  - intros h b input. cbn. by rewrite app_nil_r.
  - intros h input. done.
Qed.

#[global] Instance AsyncStream_io_laws {F} : FrameIoLaws (F:=F) AsyncStream_io.
Proof.
  split.
  - intros h n input. cbn. by destruct (n <=? len input).
  - intros h n input Hn. cbn. by rewrite (proj2 (Z.leb_gt _ _)).
  - intros h b input. cbn. by rewrite app_nil_r.
  - intros h input. done.
Qed.

Lemma take_len_app {A} (b rest : list A) : take (Z.to_nat (len b)) (b ++ rest) = b.
Proof. unfold len. by rewrite Nat2Z.id, take_app_length. Qed.
Lemma drop_len_app {A} (b rest : list A) : drop (Z.to_nat (len b)) (b ++ rest) = rest.
Proof. unfold len. by rewrite Nat2Z.id, drop_app_length. Qed.

Lemma drive_of_res {F E A} h (r : res E A) input :
  drive (F:=F) h (of_res r) input = Some (r, input, []).
Proof. done. Qed.

Lemma frame_len_u32 (d : bytes) m : len d <= m -> m <= MAX_COMMAND_FRAME -> is_u32 (len d).
Proof.
  intros Hd Hm. unfold MAX_COMMAND_FRAME in Hm. pose proof (len_nonneg d). unfold in_u. lia.
Qed.

(** ** Writers emit the frame; readers accept it *)

Section Host.
Context {F : effects} (h : forall x, ext_ans F x) `{HF : FrameIo F} `{!FrameIoLaws HF}.

Lemma write_frame_limited_drive d m input :
  len d <= m -> m <= MAX_COMMAND_FRAME ->
  drive h (write_frame_limited d m) input = Some (Ok tt, input, frame_wire d).
Proof.
  intros Hd Hm. unfold write_frame_limited, checked_frame_len, validate_frame_limit.
  rewrite (fail_if_false _ _ (proj2 (Z.ltb_ge _ _) Hm)). cbn [mbind res_bind].
  rewrite (fail_if_false _ _ (proj2 (Z.ltb_ge _ _) Hd)). cbn [mbind res_bind].
  rewrite try_from_u_ok by (by eapply frame_len_u32). cbn [ok_or].
  rewrite (drive_bind h _ (of_res (Ok (len d))) _ (len d) input []) by done.
  erewrite drive_bind by apply write_frame_bytes_drive.
  erewrite drive_bind by apply write_frame_bytes_drive.
  by rewrite flush_frame_drive, app_nil_r.
Qed.

Lemma read_frame_with_limit_drive d m rest :
  len d <= m -> m <= MAX_COMMAND_FRAME ->
  drive h (read_frame_with_limit m) (frame_wire d ++ rest) = Some (Ok d, rest, []).
Proof.
  intros Hd Hm. unfold read_frame_with_limit, validate_frame_limit.
  rewrite (fail_if_false _ _ (proj2 (Z.ltb_ge _ _) Hm)).
  rewrite (drive_bind h _ (of_res (Ok tt)) _ tt (frame_wire d ++ rest) []) by done.
  unfold frame_wire. rewrite <-app_assoc. erewrite drive_bind.
  2: { rewrite read_frame_bytes_drive, len_app, len_le_bytes.
       rewrite (proj2 (Z.leb_le _ _)) by (pose proof (len_nonneg (d ++ rest)); lia).
       change (Z.to_nat 4) with 4%nat.
       rewrite take_app_length', drop_app_length' by (by rewrite length_le_bytes). reflexivity. }
  rewrite le_val_le_bytes_u by (by eapply (frame_len_u32 d m)).
  rewrite (fail_if_false _ _ (proj2 (Z.ltb_ge _ _) Hd)). unfold of_res.
  rewrite (drive_bind h _ (Done (Ok tt)) _ tt (d ++ rest) []) by done.
  rewrite (drive_bind h _ (try_reserve_exact _ _) _ tt (d ++ rest) []) by done.
  rewrite read_frame_bytes_drive, len_app.
  rewrite (proj2 (Z.leb_le _ _)) by (pose proof (len_nonneg rest); lia).
  by rewrite take_len_app, drop_len_app.
Qed.
End Host.

(** The guest's codecs, step by step like the host's. *)
Section GuestCodec.
Context {F : effects} (h : forall x, ext_ans F x).

Lemma read_exact_drive n input :
  drive h (read_exact n) input =
  if n <=? len input
  then Some (Ok (take (Z.to_nat n) input), drop (Z.to_nat n) input, []) else None.
Proof. cbn. by destruct (n <=? len input). Qed.

Lemma map_err_drive {E E' A} (f : E -> E') (p : prog F E A) input a rest out :
  drive h p input = Some (Ok a, rest, out) ->
  drive h (pmap_err f p) input = Some (Ok a, rest, out).
Proof. intros H. unfold pmap_err. rewrite (drive_try h _ _ _ _ _ _ H). cbn. by rewrite app_nil_r. Qed.

Lemma read_exact_wire (d rest : bytes) :
  drive h (read_exact (len d)) (d ++ rest) = Some (Ok d, rest, []).
Proof.
  rewrite read_exact_drive, len_app.
  rewrite (proj2 (Z.leb_le _ _)) by (pose proof (len_nonneg rest); lia).
  by rewrite take_len_app, drop_len_app.
Qed.

Lemma read_exact_prefix (z : Z) (rest : bytes) :
  drive h (read_exact 4) (le_bytes 4 z ++ rest) = Some (Ok (le_bytes 4 z), rest, []).
Proof. rewrite <-(len_le_bytes 4 z) at 1. apply read_exact_wire. Qed.

Lemma write_all_drive (b input : bytes) : drive h (write_all b) input = Some (Ok tt, input, b).
Proof. cbn. by rewrite app_nil_r. Qed.

Lemma write_payload_drive d m input :
  len d <= m -> m <= MAX_COMMAND_FRAME ->
  drive h (write_payload d m) input = Some (Ok tt, input, frame_wire d).
Proof.
  intros Hd Hm. unfold write_payload, guest_validate_frame_limit.
  rewrite (fail_if_false _ _ (proj2 (Z.ltb_ge _ _) Hm)).
  rewrite (fail_if_false _ _ (proj2 (Z.ltb_ge _ _) Hd)).
  rewrite try_from_u_ok by (by eapply frame_len_u32). cbn [ok_or]. rewrite !of_res_bind.
  erewrite (drive_bind h _ (pmap_err _ _)); [|eapply map_err_drive, write_all_drive].
  rewrite (map_err_drive _ _ _ _ _ _ (write_all_drive d input)). done.
Qed.

Lemma read_frame_drive d m rest :
  len d <= m -> m <= MAX_COMMAND_FRAME ->
  drive h (read_frame m) (frame_wire d ++ rest) = Some (Ok d, rest, []).
Proof.
  intros Hd Hm. unfold read_frame, guest_validate_frame_limit, frame_wire.
  rewrite (fail_if_false _ _ (proj2 (Z.ltb_ge _ _) Hm)), of_res_bind, <-app_assoc.
  erewrite (drive_bind h _ (pmap_err _ _)); [|eapply map_err_drive, read_exact_prefix].
  rewrite le_val_le_bytes_u by (by eapply (frame_len_u32 d m)).
  rewrite (fail_if_false _ _ (proj2 (Z.ltb_ge _ _) Hd)). rewrite of_res_bind.
  rewrite (drive_bind h _ (try_reserve_exact _ _) _ tt (d ++ rest) []) by done.
  by rewrite (map_err_drive _ _ _ _ _ _ (read_exact_wire d rest)).
Qed.

Lemma send_frame_drive d m input :
  len d <= m -> m <= MAX_COMMAND_FRAME ->
  drive h (send_frame d m) input = Some (Ok tt, input, frame_wire d).
Proof.
  intros Hd Hm. unfold send_frame.
  rewrite (fail_if_false _ _ (proj2 (Z.ltb_ge _ _) Hm)).
  rewrite (fail_if_false _ _ (proj2 (Z.ltb_ge _ _) Hd)).
  rewrite try_from_u_ok by (by eapply frame_len_u32). cbn [ok_or]. rewrite !of_res_bind.
  erewrite (drive_bind h _ (write_all _)); [|apply write_all_drive].
  erewrite (drive_bind h _ (write_all _)); [|apply write_all_drive].
  cbn. by rewrite app_nil_r.
Qed.

Lemma recv_frame_drive d m rest :
  len d <= m -> m <= MAX_COMMAND_FRAME ->
  drive h (recv_frame m) (frame_wire d ++ rest) = Some (Ok d, rest, []).
Proof.
  intros Hd Hm. unfold recv_frame, frame_wire.
  rewrite (fail_if_false _ _ (proj2 (Z.ltb_ge _ _) Hm)), of_res_bind, <-app_assoc.
  erewrite (drive_bind h _ (read_exact _)); [|apply read_exact_prefix].
  rewrite le_val_le_bytes_u by (by eapply (frame_len_u32 d m)).
  rewrite (fail_if_false _ _ (proj2 (Z.ltb_ge _ _) Hd)). rewrite of_res_bind.
  rewrite (drive_bind h _ (try_reserve_exact _ _) _ tt (d ++ rest) []) by done.
  by rewrite read_exact_wire.
Qed.

End GuestCodec.

(** ** Oversized and truncated frames *)

(** Every allocation in a trace is bounded by [m]. *)
Definition reserves_below {F} (m : Z) (tr : list (event F)) : Prop :=
  forall n ok, EvReserve n ok ∈ tr -> n <= m.

(** A program that allocates nothing. *)
Definition no_reserve {F E A} (p : prog F E A) : Prop :=
  forall tr r, exec p tr r -> forall n ok, EvReserve n ok ∉ tr.

Lemma reserves_below_app {F} m (t1 t2 : list (event F)) :
  reserves_below m t1 -> reserves_below m t2 -> reserves_below m (t1 ++ t2).
Proof. intros H1 H2 n ok [?|?]%elem_of_app; eauto. Qed.

Lemma reserves_below_bind {F E A B} m (f : A -> prog F E B) (p : prog F E A) tr r :
  (forall tr r, exec p tr r -> reserves_below m tr) ->
  (forall a tr r, exec (f a) tr r -> reserves_below m tr) ->
  exec (p ≫= f) tr r -> reserves_below m tr.
Proof.
  intros Hp Hf (t1 & t2 & r1 & -> & H1 & H2)%exec_bind_inv.
  apply reserves_below_app; [by eapply Hp|].
  destruct r1; [by eapply Hf|destruct H2 as [-> _]..]; intros n ok Hin;
    by apply not_elem_of_nil in Hin.
Qed.

Lemma no_reserve_below {F E A} m (p : prog F E A) tr r :
  no_reserve p -> exec p tr r -> reserves_below m tr.
Proof. intros Hp H n ok Hin. by apply (Hp _ _ H) in Hin. Qed.

Ltac exec_inv :=
  repeat match goal with
  | H : exec _ _ _ |- _ => progress cbn in H
  | H : exists _, _ |- _ => destruct H
  | H : _ /\ _ |- _ => destruct H
  end; subst.

Lemma no_reserve_read_exact {F} n : no_reserve (F:=F) (read_exact n).
Proof.
  intros tr r H k ok. exec_inv. rewrite not_elem_of_cons. split; [done|apply not_elem_of_nil].
Qed.
Lemma no_reserve_act {F} a : no_reserve (F:=F) (act a).
Proof.
  intros tr r H k ok. exec_inv. rewrite not_elem_of_cons. split; [done|apply not_elem_of_nil].
Qed.
Lemma no_reserve_done {F E A} (r : res E A) : no_reserve (F:=F) (Done r).
Proof. intros tr r' [-> _] k ok. apply not_elem_of_nil. Qed.
Lemma no_reserve_try {F E E' A B} (f : res E A -> prog F E' B) p :
  no_reserve p -> (forall r, no_reserve (f r)) -> no_reserve (ptry f p).
Proof.
  intros Hp Hf tr r (t1 & t2 & r1 & -> & H1 & H2)%exec_try_inv n ok.
  rewrite not_elem_of_app. split; [by eapply Hp|by eapply Hf].
Qed.
Lemma no_reserve_map_err {F E E' A} (f : E -> E') (p : prog F E A) :
  no_reserve p -> no_reserve (pmap_err f p).
Proof. intros Hp. apply no_reserve_try; [done|]. intros r. apply no_reserve_done. Qed.
Lemma no_reserve_bind {F E A B} (f : A -> prog F E B) (p : prog F E A) :
  no_reserve p -> (forall a, no_reserve (f a)) -> no_reserve (p ≫= f).
Proof.
  intros Hp Hf tr r (t1 & t2 & r1 & -> & H1 & H2)%exec_bind_inv n ok.
  rewrite not_elem_of_app. split; [by eapply Hp|].
  destruct r1; [by eapply Hf|destruct H2 as [-> _]; apply not_elem_of_nil..].
Qed.

Lemma reserve_below {F E} m n (e : E) tr r :
  n <= m -> exec (F:=F) (try_reserve_exact n e) tr r -> reserves_below m tr.
Proof.
  intros Hn H. exec_inv. intros n' ok Hin. apply elem_of_cons in Hin as [[= -> ->]|Hin]; [done|].
  by apply not_elem_of_nil in Hin.
Qed.

(** The common shape of the readers: prefix, bound check, allocation, body. *)
Lemma reader_reserves_below {F E} m (q : prog F E bytes) (e1 e2 : E)
    (body : Z -> prog F E bytes) tr r :
  no_reserve q -> (forall n, no_reserve (body n)) ->
  exec (len_buf ← q;
        _ ← of_res (fail_if (m <? le_val len_buf) e1);
        _ ← try_reserve_exact (le_val len_buf) e2;
        body (le_val len_buf)) tr r ->
  reserves_below m tr.
Proof.
  intros Hq Hb H. eapply reserves_below_bind; [| |exact H].
  { intros t x. by apply no_reserve_below. }
  intros b t x Hx. cbn beta in Hx. destruct (Z.ltb_spec m (le_val b)) as [?|Hle].
  { cbn in Hx. destruct Hx as [-> _]. intros n ok Hin. by apply not_elem_of_nil in Hin. }
  cbn [fail_if] in Hx. rewrite of_res_bind in Hx.
  eapply reserves_below_bind; [| |exact Hx].
  - intros t' x'. by apply reserve_below.
  - intros u t' x'. apply no_reserve_below, Hb.
Qed.

Lemma guarded_reserves_below {F E A} m (g : res E unit) (p : prog F E A) tr r :
  (forall tr r, exec p tr r -> reserves_below m tr) ->
  exec (_ ← of_res g; p) tr r -> reserves_below m tr.
Proof.
  intros Hp. apply reserves_below_bind; [|auto].
  intros t x. apply no_reserve_below, no_reserve_done.
Qed.

Lemma stream_read_no_reserve {F} n : no_reserve (F:=F) (Stream_read_frame_bytes n).
Proof.
  apply no_reserve_bind; [apply no_reserve_map_err, no_reserve_act|].
  intros _. apply no_reserve_map_err, no_reserve_read_exact.
Qed.

(** ** Truncation *)

Lemma serve_of_res {F E A} h (r : res E A) input :
  serve (F:=F) h (of_res r) input = (r, input, []).
Proof. done. Qed.

Lemma serve_read_exact_short {F E} h (f : ErrorKind -> E) n input :
  len input < n -> serve (F:=F) h (pmap_err f (read_exact n)) input = (Err (f UnexpectedEof), [], []).
Proof. intros H. cbn. by rewrite (proj2 (Z.leb_gt _ _)). Qed.

(** A strict prefix of a frame is either shorter than the length prefix, or
    the length prefix followed by a strict prefix of the payload. *)
Lemma frame_prefix_cases d n :
  (n < length (frame_wire d))%nat ->
  (len (take n (frame_wire d)) < 4)
  \/ exists d', take n (frame_wire d) = le_bytes 4 (len d) ++ d' /\ len d' < len d.
Proof.
  intros Hn. unfold frame_wire in *. rewrite length_app, length_le_bytes in Hn.
  destruct (decide (n < 4)%nat).
  - left. unfold len. rewrite length_take, length_app, length_le_bytes. lia.
  - right. exists (take (n - 4) d). rewrite take_app, take_ge by (rewrite length_le_bytes; lia).
    rewrite length_le_bytes. split; [done|]. unfold len. rewrite length_take. lia.
Qed.

Section Truncated.
Context {F : effects} (h : forall x, ext_ans F x) `{HF : FrameIo F} `{!FrameIoLaws HF}.

Lemma read_frame_truncated d m n :
  len d <= m -> m <= MAX_COMMAND_FRAME -> (n < length (frame_wire d))%nat ->
  fst (fst (serve h (read_frame_with_limit m) (take n (frame_wire d))))
  = Err Transport_FrameTruncated.
Proof.
  intros Hd Hm Hn. unfold read_frame_with_limit, validate_frame_limit.
  rewrite (fail_if_false _ _ (proj2 (Z.ltb_ge _ _) Hm)), of_res_bind, serve_bind.
  destruct (frame_prefix_cases d n Hn) as [Hs|(d' & -> & Hd')].
  { by rewrite read_frame_bytes_eof. }
  erewrite drive_serve.
  2: { rewrite read_frame_bytes_drive, len_app, len_le_bytes.
       rewrite (proj2 (Z.leb_le _ _)) by (pose proof (len_nonneg d'); lia).
       change (Z.to_nat 4) with 4%nat.
       rewrite take_app_length', drop_app_length' by (by rewrite length_le_bytes). reflexivity. }
  cbv beta iota. rewrite le_val_le_bytes_u by (by eapply (frame_len_u32 d m)).
  rewrite (fail_if_false _ _ (proj2 (Z.ltb_ge _ _) Hd)), of_res_bind, serve_bind.
  rewrite (drive_serve h (try_reserve_exact _ _) d' (Ok tt, d', [])) by done.
  by rewrite read_frame_bytes_eof.
Qed.
End Truncated.

Lemma guest_read_frame_truncated {F} (h : forall x, ext_ans F x) d m n :
  len d <= m -> m <= MAX_COMMAND_FRAME -> (n < length (frame_wire d))%nat ->
  fst (fst (serve h (read_frame m) (take n (frame_wire d))))
  = Err Init_FrameTruncated.
Proof.
  intros Hd Hm Hn. unfold read_frame, guest_validate_frame_limit.
  rewrite (fail_if_false _ _ (proj2 (Z.ltb_ge _ _) Hm)), of_res_bind, serve_bind.
  destruct (frame_prefix_cases d n Hn) as [Hs|(d' & -> & Hd')].
  { by rewrite serve_read_exact_short. }
  rewrite (drive_serve h _ _ _ (map_err_drive h _ _ _ _ _ _ (read_exact_prefix h _ d'))).
  cbv beta iota. rewrite le_val_le_bytes_u by (by eapply (frame_len_u32 d m)).
  rewrite (fail_if_false _ _ (proj2 (Z.ltb_ge _ _) Hd)), of_res_bind, serve_bind.
  rewrite (drive_serve h (try_reserve_exact _ _) d' (Ok tt, d', [])) by done.
  by rewrite serve_read_exact_short.
Qed.

(** ** Theorems *)

(** the three frame codecs speak the same format.  Any payload within the
    writer's bound is written as its 32-bit little-endian length and its bytes
    by the host transport (blocking and async), the guest dispatcher and the
    COM1 port, and each of their readers, with any bound that admits it, gets
    the payload back and leaves the bytes that follow unread. *)
Theorem frames_interoperate (F : effects) (h : forall x, ext_ans F x) (d rest : bytes) (m : Z)
    (Hd : len d <= m) (Hm : m <= MAX_COMMAND_FRAME) :
  (drive h (write_frame_limited (FrameIo0 := Stream_io) d m) rest = Some (Ok tt, rest, frame_wire d)
   /\ drive h (write_frame_limited (FrameIo0 := AsyncStream_io) d m) rest
      = Some (Ok tt, rest, frame_wire d)
   /\ drive h (write_payload d m) rest = Some (Ok tt, rest, frame_wire d)
   /\ drive h (send_frame d m) rest = Some (Ok tt, rest, frame_wire d))
  /\ drive h (read_frame_with_limit (FrameIo0 := Stream_io) m) (frame_wire d ++ rest)
     = Some (Ok d, rest, [])
  /\ drive h (read_frame_with_limit (FrameIo0 := AsyncStream_io) m) (frame_wire d ++ rest)
     = Some (Ok d, rest, [])
  /\ drive h (read_frame m) (frame_wire d ++ rest) = Some (Ok d, rest, [])
  /\ drive h (recv_frame m) (frame_wire d ++ rest) = Some (Ok d, rest, []).
Proof.
  split_and!; auto using write_frame_limited_drive, write_payload_drive, send_frame_drive,
    read_frame_with_limit_drive, read_frame_drive, recv_frame_drive, Stream_io_laws,
    AsyncStream_io_laws.
Qed.

Lemma frames_interoperate_witness :
  drive no_handler (read_frame 10) (frame_wire (str "hello") ++ str "!") = Some (Ok (str "hello"), str "!", []).
Proof.
  refine (proj1 (proj2 (proj2 (proj2 (frames_interoperate no_effects no_handler (str "hello") (str "!") 10 _ _)))));
    vm_compute; discriminate.
Defined.


(** a peer that closes inside a frame yields a truncation error, never a
    short payload, in the host transport and in the guest dispatcher. *)
Theorem truncated_frame_rejected (F : effects) (h : forall x, ext_ans F x) (d : bytes) (m : Z) (n : nat)
    (Hd : len d <= m) (Hm : m <= MAX_COMMAND_FRAME) (Hn : (n < length (frame_wire d))%nat) :
  fst (fst (serve h (read_frame_with_limit (FrameIo0 := Stream_io) m) (take n (frame_wire d))))
    = Err Transport_FrameTruncated
  /\ fst (fst (serve h (read_frame_with_limit (FrameIo0 := AsyncStream_io) m)
                 (take n (frame_wire d))))
    = Err Transport_FrameTruncated
  /\ fst (fst (serve h (read_frame m) (take n (frame_wire d)))) = Err Init_FrameTruncated.
Proof.
  split_and!; auto using read_frame_truncated, guest_read_frame_truncated, Stream_io_laws,
    AsyncStream_io_laws.
Qed.

Lemma truncated_frame_rejected_witness :
  fst (fst (serve no_handler (read_frame 10) (take 6 (frame_wire (str "hello")))))
  = Err Init_FrameTruncated.
Proof.
  refine (proj2 (proj2 (truncated_frame_rejected no_effects no_handler (str "hello") 10 6 _ _ _)));
    vm_compute; try discriminate; lia.
Defined.
