(* ===== verification/AuthSession.v ===== *)
(** * The authentication handshake of a command connection

    Host side: [TcpEndpoint::authenticate_blocking] and [authenticate_async]
    ([libs/com/src/auth.rs]).  Guest side: [authenticate_connection] and the
    connection counter of [GuestAuthentication] ([libs/init/src/bus/dispatch.rs]).
    The two programs are run against each other over the FIFO channels of
    [Net], under every schedule, and the guest alone against any peer. *)

From Stdlib Require Import ZArith Lia.
From stdpp Require Import base tactics option list numbers strings.
From S2P Require Import Prelude Bytes Text Wire BootConfig BootCodec AuthMessages AuthProof.
From S2P Require Import Net Framing.

(** [TcpEndpoint]; the socket address only selects the connection. *)
Record TcpEndpoint := { ep_vm_id : bytes; ep_capability : SessionCapability }.

Record GuestAuthentication := {
  ga_vm_id : bytes;
  ga_capability : SessionCapability;
  ga_next_connection : Z;
}.

Definition GuestAuthentication_new (vm_id : bytes) (capability : SessionCapability)
    : GuestAuthentication :=
  {| ga_vm_id := vm_id; ga_capability := capability; ga_next_connection := 0 |}.

(** [fetch_update(|current| current.checked_add(1))]: the previous value, and
    the counter after the update; at [u64::MAX] the update is refused. *)
Definition next_counter (a : GuestAuthentication) : res InitError Z * GuestAuthentication :=
  match checked_add 64 (ga_next_connection a) 1 with
  | Some n => (Ok (ga_next_connection a),
               {| ga_vm_id := ga_vm_id a; ga_capability := ga_capability a;
                  ga_next_connection := n |})
  | None => (Err Init_Authentication, a)
  end.

Section Handshake.
Context {F : effects} (sha256 : bytes -> bytes).

Definition auth_failed {E A} (r : res E A) : res TransportError A :=
  map_err (fun _ => Transport_AuthenticationFailed) r.

(** The part the blocking and the async exchange share, over their adapter;
    [finish] is what follows the guest's acceptance. *)
Definition exchange `{!FrameIo F} (ep : TcpEndpoint) (finish : prog F TransportError unit)
    : prog F TransportError unit :=
  challenge_payload ← pmap_err (fun _ => Transport_AuthenticationFailed)
                        (read_frame_with_limit MAX_AUTH_FRAME);
  challenge ← of_res (auth_failed (AuthChallengeV1_try_from challenge_payload));
  let response := AuthResponseV1_for_challenge sha256 (ep_capability ep) (ep_vm_id ep) challenge in
  response_payload ← of_res (auth_failed (AuthResponseV1_to_bytes response));
  _ ← pmap_err (fun _ => Transport_AuthenticationFailed)
        (write_frame_limited response_payload MAX_AUTH_FRAME);
  accepted_payload ← pmap_err (fun _ => Transport_AuthenticationFailed)
                       (read_frame_with_limit MAX_AUTH_FRAME);
  accepted ← of_res (auth_failed (AuthAcceptedV1_try_from accepted_payload));
  _ ← of_res (fail_if (negb (aa_version accepted =? PROTOCOL_VERSION))
                Transport_AuthenticationFailed);
  finish.

Definition authenticate_blocking (ep : TcpEndpoint) : prog F TransportError unit :=
  let failed := fun _ : ErrorKind => Transport_AuthenticationFailed in
  _ ← pmap_err failed (set_read_timeout true);
  _ ← pmap_err failed (set_write_timeout true);
  exchange (FrameIo0 := Stream_io) ep
    (_ ← pmap_err failed (set_read_timeout false);
     pmap_err failed (set_write_timeout false)).

Definition authenticate_async (ep : TcpEndpoint) : prog F TransportError unit :=
  exchange (FrameIo0 := AsyncStream_io) ep (mret tt).

Definition auth_error {E A} (r : res E A) : res InitError A :=
  map_err (fun _ => Init_Authentication) r.

(** The guest's side after the counter was taken. *)
Definition authenticate_with_counter (a : GuestAuthentication) (counter : Z)
    : prog F InitError unit :=
  let challenge := {| ac_version := PROTOCOL_VERSION;
                      ac_challenge := derive_auth_challenge sha256 (ga_capability a)
                                        (ga_vm_id a) counter |} in
  challenge_payload ← of_res (auth_error (AuthChallengeV1_to_bytes challenge));
  _ ← write_payload challenge_payload MAX_AUTH_FRAME;
  response_payload ← read_frame MAX_AUTH_FRAME;
  response ← of_res (auth_error (AuthResponseV1_try_from response_payload));
  let expected := compute_auth_mac sha256 (ga_capability a) (ga_vm_id a)
                    COMMAND_AUTH_CONTEXT_V1 (ac_challenge challenge) in
  _ ← of_res (fail_if (negb (constant_time_eq expected (ar_mac response))) Init_Authentication);
  let accepted := {| aa_version := PROTOCOL_VERSION |} in
  accepted_payload ← of_res (auth_error (AuthAcceptedV1_to_bytes accepted));
  write_payload accepted_payload MAX_AUTH_FRAME.

Definition authenticate_connection (a : GuestAuthentication)
    : prog F InitError unit * GuestAuthentication :=
  let '(counter, a') := next_counter a in
  (counter ← of_res counter; authenticate_with_counter a counter, a').
End Handshake.

(** ** The messages of one handshake *)

Section Messages.
Context (sha256 : bytes -> bytes).
Hypothesis sha256_len : forall b, len (sha256 b) = 32.

Definition challenge_of (a : GuestAuthentication) (counter : Z) : AuthChallengeV1 :=
  {| ac_version := 1; ac_challenge := derive_auth_challenge sha256 (ga_capability a)
                                        (ga_vm_id a) counter |}.
Definition response_of (cap : SessionCapability) (vm_id : bytes) (c : AuthChallengeV1)
    : AuthResponseV1 :=
  {| ar_version := 1;
     ar_mac := compute_auth_mac sha256 cap vm_id COMMAND_AUTH_CONTEXT_V1 (ac_challenge c) |}.
Definition accepted_v1 : AuthAcceptedV1 := {| aa_version := 1 |}.

Lemma hmac_len key parts : len (hmac_sha256 sha256 key parts) = 32.
Proof. apply sha256_len. Qed.

Lemma tagged_len tag p : len p = 32 -> len (tagged_wire tag 1 p) <= MAX_AUTH_FRAME.
Proof. intros H. unfold tagged_wire. autorewrite with jyth. rewrite H. done. Qed.

Lemma challenge_codec a n :
  AuthChallengeV1_to_bytes (challenge_of a n) = Ok (AuthChallengeV1_wire (challenge_of a n))
  /\ AuthChallengeV1_try_from (AuthChallengeV1_wire (challenge_of a n)) = Ok (challenge_of a n)
  /\ len (AuthChallengeV1_wire (challenge_of a n)) <= MAX_AUTH_FRAME.
Proof.
  assert (AuthChallengeV1_to_bytes (challenge_of a n) = Ok (AuthChallengeV1_wire (challenge_of a n)))
    as H.
  { unfold AuthChallengeV1_to_bytes. cbn [mbind res_bind fail_if negb]. apply finish_ok_iff.
    split; [done|]. apply tagged_len, hmac_len. }
  split_and!; [done| |by apply tagged_len, hmac_len].
  refine (proj2 (wm_exact (M:=AuthChallengeV1) _ _) _). split; [|exact H]. split; [done|apply hmac_len].
Qed.

Lemma response_codec cap vm c :
  AuthResponseV1_to_bytes (response_of cap vm c) = Ok (AuthResponseV1_wire (response_of cap vm c))
  /\ AuthResponseV1_try_from (AuthResponseV1_wire (response_of cap vm c))
     = Ok (response_of cap vm c)
  /\ len (AuthResponseV1_wire (response_of cap vm c)) <= MAX_AUTH_FRAME.
Proof.
  assert (AuthResponseV1_to_bytes (response_of cap vm c)
          = Ok (AuthResponseV1_wire (response_of cap vm c))) as H.
  { unfold AuthResponseV1_to_bytes. cbn [mbind res_bind fail_if negb]. apply finish_ok_iff.
    split; [done|]. apply tagged_len, hmac_len. }
  split_and!; [done| |by apply tagged_len, hmac_len].
  refine (proj2 (wm_exact (M:=AuthResponseV1) _ _) _). split; [|exact H]. split; [done|apply hmac_len].
Qed.

Lemma accepted_codec :
  AuthAcceptedV1_to_bytes accepted_v1 = Ok (AuthAcceptedV1_wire accepted_v1)
  /\ AuthAcceptedV1_try_from (AuthAcceptedV1_wire accepted_v1) = Ok accepted_v1
  /\ len (AuthAcceptedV1_wire accepted_v1) <= MAX_AUTH_FRAME.
Proof. split_and!; done. Qed.
End Messages.

(** ** The two halves of each side *)

Section Run.
Context (sha256 : bytes -> bytes).
Hypothesis sha256_len : forall b, len (sha256 b) = 32.

Lemma auth_frame_max : MAX_AUTH_FRAME <= MAX_COMMAND_FRAME.
Proof. done. Qed.

Section HostRun.
Context {F : effects} (h : forall x, ext_ans F x) `{HF : FrameIo F} `{!FrameIoLaws HF}.

(** The host after its response was sent. *)
Definition host_waiting (fin : prog F TransportError unit) : prog F TransportError unit :=
  accepted_payload ← pmap_err (fun _ => Transport_AuthenticationFailed)
                       (read_frame_with_limit MAX_AUTH_FRAME);
  accepted ← of_res (auth_failed (AuthAcceptedV1_try_from accepted_payload));
  _ ← of_res (fail_if (negb (aa_version accepted =? PROTOCOL_VERSION))
                Transport_AuthenticationFailed);
  fin.

Lemma host_answers ep fin a n rest :
  pumps h (exchange sha256 ep fin) (frame_wire (AuthChallengeV1_wire (challenge_of sha256 a n)) ++ rest)
    (host_waiting fin) rest
    (frame_wire (AuthResponseV1_wire
       (response_of sha256 (ep_capability ep) (ep_vm_id ep) (challenge_of sha256 a n)))).
Proof.
  destruct (challenge_codec sha256 sha256_len a n) as (_ & Hcd & Hcl).
  destruct (response_codec sha256 sha256_len (ep_capability ep) (ep_vm_id ep)
              (challenge_of sha256 a n)) as (Hre & _ & Hrl).
  unfold exchange. eapply (pumps_trans _ _ _ _ _ _ _ []).
  { apply drive_pumps_bind, map_err_drive.
    apply read_frame_with_limit_drive; [apply _|done|apply auth_frame_max]. }
  rewrite Hcd. cbn [auth_failed map_err]. rewrite of_res_bind.
  change (AuthResponseV1_for_challenge sha256 (ep_capability ep) (ep_vm_id ep) _)
    with (response_of sha256 (ep_capability ep) (ep_vm_id ep) (challenge_of sha256 a n)).
  rewrite Hre. cbn [auth_failed map_err]. rewrite of_res_bind.
  apply (drive_pumps_bind h (fun _ => host_waiting fin) _ _ tt), map_err_drive,
    write_frame_limited_drive; [apply _|done|apply auth_frame_max].
Qed.

Lemma host_finishes fin rest :
  pumps h (host_waiting fin) (frame_wire (AuthAcceptedV1_wire accepted_v1) ++ rest) fin rest [].
Proof.
  destruct accepted_codec as (_ & Had & Hal).
  unfold host_waiting. eapply (pumps_trans _ _ _ _ _ _ _ []).
  { apply drive_pumps_bind, map_err_drive.
    apply read_frame_with_limit_drive; [apply _|done|apply auth_frame_max]. }
  rewrite Had. cbn [auth_failed map_err]. rewrite of_res_bind. constructor.
Qed.

(** A peer that closed instead of accepting. *)
Lemma host_refused fin :
  serve h (host_waiting fin) [] = (Err Transport_AuthenticationFailed, [], []).
Proof.
  unfold host_waiting. rewrite serve_bind. unfold pmap_err. rewrite serve_try.
  unfold read_frame_with_limit, validate_frame_limit.
  rewrite (fail_if_false _ _ (proj2 (Z.ltb_ge _ _) auth_frame_max)), of_res_bind, serve_bind.
  by rewrite read_frame_bytes_eof.
Qed.
End HostRun.

Section GuestRun.
Context {F : effects} (h : forall x, ext_ans F x).

(** The guest after its challenge was sent. *)
Definition guest_waiting (a : GuestAuthentication) (n : Z) : prog F InitError unit :=
  response_payload ← read_frame MAX_AUTH_FRAME;
  response ← of_res (auth_error (AuthResponseV1_try_from response_payload));
  _ ← of_res (fail_if (negb (constant_time_eq
                (compute_auth_mac sha256 (ga_capability a) (ga_vm_id a)
                   COMMAND_AUTH_CONTEXT_V1 (ac_challenge (challenge_of sha256 a n)))
                (ar_mac response))) Init_Authentication);
  accepted_payload ← of_res (auth_error (AuthAcceptedV1_to_bytes accepted_v1));
  write_payload accepted_payload MAX_AUTH_FRAME.

Lemma guest_challenges a n rest :
  pumps h (authenticate_with_counter sha256 a n) rest (guest_waiting a n) rest
    (frame_wire (AuthChallengeV1_wire (challenge_of sha256 a n))).
Proof.
  destruct (challenge_codec sha256 sha256_len a n) as (Hce & _ & Hcl).
  unfold authenticate_with_counter.
  change {| ac_version := PROTOCOL_VERSION; ac_challenge := _ |} with (challenge_of sha256 a n).
  rewrite Hce. cbn [auth_error map_err]. rewrite of_res_bind.
  apply (drive_pumps_bind h (fun _ => guest_waiting a n) _ _ tt), write_payload_drive; [done|apply auth_frame_max].
Qed.

Lemma guest_accepts a n rest :
  pumps h (guest_waiting a n)
    (frame_wire (AuthResponseV1_wire
       (response_of sha256 (ga_capability a) (ga_vm_id a) (challenge_of sha256 a n))) ++ rest)
    (Done (Ok tt)) rest (frame_wire (AuthAcceptedV1_wire accepted_v1)).
Proof.
  destruct (response_codec sha256 sha256_len (ga_capability a) (ga_vm_id a)
              (challenge_of sha256 a n)) as (_ & Hrd & Hrl).
  destruct accepted_codec as (Hae & _ & Hal).
  unfold guest_waiting. eapply (pumps_trans _ _ _ _ _ _ _ []).
  { apply drive_pumps_bind, read_frame_drive; [done|apply auth_frame_max]. }
  rewrite Hrd. cbn [auth_error map_err]. rewrite of_res_bind.
  unfold constant_time_eq. rewrite bool_decide_true by done. cbn [negb fail_if].
  rewrite of_res_bind, Hae. cbn [auth_error map_err]. rewrite of_res_bind.
  apply drive_pumps, write_payload_drive; [done|apply auth_frame_max].
Qed.

Lemma guest_refuses cap vm a n rest :
  ar_mac (response_of sha256 cap vm (challenge_of sha256 a n))
  <> ar_mac (response_of sha256 (ga_capability a) (ga_vm_id a) (challenge_of sha256 a n)) ->
  pumps h (guest_waiting a n)
    (frame_wire (AuthResponseV1_wire (response_of sha256 cap vm (challenge_of sha256 a n))) ++ rest)
    (Done (Err Init_Authentication)) rest [].
Proof.
  intros Hne.
  destruct (response_codec sha256 sha256_len cap vm (challenge_of sha256 a n)) as (_ & Hrd & Hrl).
  unfold guest_waiting. eapply (pumps_trans _ _ _ _ _ _ _ []).
  { apply drive_pumps_bind, read_frame_drive; [done|apply auth_frame_max]. }
  rewrite Hrd. cbn [auth_error map_err]. rewrite of_res_bind.
  unfold constant_time_eq. rewrite bool_decide_false by (intros E; by apply Hne).
  constructor.
Qed.
End GuestRun.
End Run.

(** ** The guest against any peer *)

Definition frame_sent {F} (d : bytes) : list (event F) :=
  [EvAct (WriteAll (le_bytes 4 (len d))) None; EvAct (WriteAll d) None].
Definition frame_received {F} (d : bytes) : list (event F) :=
  [EvRead 4 (inl (le_bytes 4 (len d))); EvReserve (len d) true; EvRead (len d) (inl d)].

Lemma exec_bind_ok {F E A B} (f : A -> prog F E B) (p : prog F E A) tr b :
  exec (p ≫= f) tr (Ok b) ->
  exists t1 t2 a, tr = t1 ++ t2 /\ exec p t1 (Ok a) /\ exec (f a) t2 (Ok b).
Proof.
  intros (t1 & t2 & r1 & -> & H1 & H2)%exec_bind_inv.
  destruct r1; [by eauto 10|by destruct H2..].
Qed.

Lemma exec_of_res_ok {F E A} (r : res E A) tr a :
  exec (F:=F) (of_res r) tr (Ok a) -> tr = [] /\ r = Ok a.
Proof. by intros [-> <-]. Qed.

Lemma exec_map_err_ok {F E E' A} (f : E -> E') (p : prog F E A) tr a :
  exec (pmap_err f p) tr (Ok a) -> exec p tr (Ok a).
Proof.
  intros (t1 & t2 & r1 & -> & H1 & H2)%exec_try_inv. destruct H2 as [-> H2].
  rewrite app_nil_r. destruct r1; cbn in H2; by simplify_eq.
Qed.

Lemma exec_write_all_ok {F} b tr u :
  exec (F:=F) (write_all b) tr (Ok u) -> tr = [EvAct (WriteAll b) None].
Proof. intros (x & t & -> & -> & H). by destruct x. Qed.

Lemma exec_read_exact_ok {F} n tr d :
  exec (F:=F) (read_exact n) tr (Ok d) -> tr = [EvRead n (inl d)] /\ len d = n.
Proof. intros (x & t & -> & Hx & -> & H). destruct x; simplify_eq. done. Qed.

Lemma exec_reserve_ok {F E} n (e : E) tr u :
  exec (F:=F) (try_reserve_exact n e) tr (Ok u) -> tr = [EvReserve n true].
Proof. intros (x & t & -> & -> & H). by destruct x. Qed.

Ltac exec_ok H :=
  let t1 := fresh "t" in let t2 := fresh "t" in let a := fresh "v" in let H1 := fresh "Hstep" in
  apply exec_bind_ok in H as (t1 & t2 & a & -> & H1 & H).

Lemma exec_write_payload_ok {F} d m tr u :
  exec (F:=F) (write_payload d m) tr (Ok u) -> tr = frame_sent d.
Proof.
  intros H. unfold write_payload in H.
  exec_ok H. apply exec_of_res_ok in Hstep as [-> _].
  exec_ok H. apply exec_of_res_ok in Hstep as [-> Hn].
  apply ok_or_ok, try_from_u_inv in Hn as [-> _].
  exec_ok H. apply exec_of_res_ok in Hstep as [-> _].
  exec_ok H. apply exec_map_err_ok, exec_write_all_ok in Hstep as ->.
  apply exec_map_err_ok, exec_write_all_ok in H as ->. done.
Qed.

Lemma exec_read_frame_ok {F} m tr d :
  exec (F:=F) (read_frame m) tr (Ok d) -> tr = frame_received d.
Proof.
  intros H. unfold read_frame in H.
  exec_ok H. apply exec_of_res_ok in Hstep as [-> _].
  exec_ok H. apply exec_map_err_ok, exec_read_exact_ok in Hstep as [-> Hl].
  exec_ok H. apply exec_of_res_ok in Hstep as [-> _].
  exec_ok H. apply exec_reserve_ok in Hstep as ->.
  apply exec_map_err_ok, exec_read_exact_ok in H as [-> Hd].
  unfold frame_received. rewrite Hd.
  rewrite le_bytes_le_val_n by (unfold len in Hl; lia). done.
Qed.

Lemma exec_bind_intro {F E A B} (f : A -> prog F E B) (p : prog F E A) t1 t2 a r :
  exec p t1 (Ok a) -> exec (f a) t2 r -> exec (p ≫= f) (t1 ++ t2) r.
Proof.
  unfold mbind, prog_bind. intros Hp Hf. revert t1 Hp.
  induction p as [r0|n k IH|ac k IH|n k IH|k IH|x k IH]; intros t1 Hp; cbn in Hp.
  { destruct Hp as [-> <-]. exact Hf. }
  { destruct Hp as (x & t & -> & Hx & Hp). exists x, (t ++ t2). auto. }
  all: destruct Hp as (y & t & -> & Hp); exists y, (t ++ t2); auto.
Qed.

Lemma exec_of_res {F E A} (a : A) : exec (F:=F) (E:=E) (of_res (Ok a)) [] (Ok a).
Proof. done. Qed.

Lemma exec_map_err {F E E' A} (f : E -> E') (p : prog F E A) t a :
  exec p t (Ok a) -> exec (pmap_err f p) t (Ok a).
Proof.
  unfold pmap_err. revert t.
  induction p as [r0|n k IH|ac k IH|n k IH|k IH|x k IH]; intros t Hp; cbn in Hp.
  { destruct Hp as [-> <-]. done. }
  { destruct Hp as (x & t' & -> & Hx & Hp). exists x, t'. auto. }
  all: destruct Hp as (y & t' & -> & Hp); exists y, t'; auto.
Qed.

Lemma exec_write_all {F} b : exec (F:=F) (write_all b) [EvAct (WriteAll b) None] (Ok tt).
Proof. by exists None, []. Qed.
Lemma exec_read_exact {F} n d :
  len d = n -> exec (F:=F) (read_exact n) [EvRead n (inl d)] (Ok d).
Proof. intros. by exists (inl d), []. Qed.

Lemma exec_write_payload {F} d m :
  len d <= m -> m <= MAX_COMMAND_FRAME ->
  exec (F:=F) (write_payload d m) (frame_sent d) (Ok tt).
Proof.
  intros Hd Hm. unfold write_payload, guest_validate_frame_limit.
  rewrite (fail_if_false _ _ (proj2 (Z.ltb_ge _ _) Hm)).
  rewrite (fail_if_false _ _ (proj2 (Z.ltb_ge _ _) Hd)).
  rewrite try_from_u_ok by (by eapply frame_len_u32). cbn [ok_or]. rewrite !of_res_bind.
  apply (exec_bind_intro _ _ [_] [_] tt); apply exec_map_err, exec_write_all.
Qed.

Lemma exec_read_frame {F} d m :
  len d <= m -> m <= MAX_COMMAND_FRAME ->
  exec (F:=F) (read_frame m) (frame_received d) (Ok d).
Proof.
  intros Hd Hm. unfold read_frame, guest_validate_frame_limit.
  rewrite (fail_if_false _ _ (proj2 (Z.ltb_ge _ _) Hm)), of_res_bind.
  apply (exec_bind_intro _ _ [_] [_; _] (le_bytes 4 (len d))).
  { apply exec_map_err, exec_read_exact, len_le_bytes. }
  rewrite le_val_le_bytes_u by (by eapply (frame_len_u32 d m)).
  rewrite (fail_if_false _ _ (proj2 (Z.ltb_ge _ _) Hd)), of_res_bind.
  apply (exec_bind_intro _ _ [_] [_] tt); [by exists true, []|].
  by apply exec_map_err, exec_read_exact.
Qed.

(** A successful exchange can only be the expected one. *)
Lemma guest_exec_inv {F} sha256 (a : GuestAuthentication) (tr : list (event F)) :
  exec (fst (authenticate_connection sha256 a)) tr (Ok tt) ->
  exists counter,
    fst (next_counter a) = Ok counter
    /\ tr = frame_sent (AuthChallengeV1_wire (challenge_of sha256 a counter))
            ++ frame_received (AuthResponseV1_wire
                 (response_of sha256 (ga_capability a) (ga_vm_id a) (challenge_of sha256 a counter)))
            ++ frame_sent (AuthAcceptedV1_wire accepted_v1).
Proof.
  intros H. unfold authenticate_connection in H. destruct (next_counter a) as [c a'] eqn:Hc. cbn [fst] in *.
  exec_ok H. apply exec_of_res_ok in Hstep as [-> ->]. exists v. split; [done|].
  unfold authenticate_with_counter in H.
  exec_ok H. apply exec_of_res_ok in Hstep as [-> Hch].
  exec_ok H. apply exec_write_payload_ok in Hstep as ->.
  exec_ok H. apply exec_read_frame_ok in Hstep as ->.
  exec_ok H. apply exec_of_res_ok in Hstep as [-> Hresp].
  exec_ok H. apply exec_of_res_ok in Hstep as [-> Hmac].
  exec_ok H. apply exec_of_res_ok in Hstep as [-> Hacc].
  apply exec_write_payload_ok in H as ->.
  destruct (AuthChallengeV1_to_bytes _) as [b0| |] eqn:E0; [|done..]. cbn in Hch. simplify_eq.
  destruct (AuthResponseV1_try_from v2) as [resp| |] eqn:E1; [|done..]. cbn in Hresp. simplify_eq.
  destruct accepted_codec as (Hacc' & _).
  change {| aa_version := PROTOCOL_VERSION |} with accepted_v1 in Hacc.
  rewrite Hacc' in Hacc. cbn in Hacc. simplify_eq.
  apply fail_if_ok, negb_false_iff in Hmac. unfold constant_time_eq in Hmac.
  apply bool_decide_eq_true in Hmac.
  apply AuthResponseV1_decode_inv in E1 as [Hv ->].
  apply guard_ok_iff in E0 as [_ [-> _]%finish_ok_iff].
  replace v3 with (response_of sha256 (ga_capability a) (ga_vm_id a) (challenge_of sha256 a v));
    [done|].
  destruct v3; cbn in *. by subst.
Qed.

(** ** Both programs, every schedule *)

Section Linked.
Context (sha256 : bytes -> bytes).
Hypothesis sha256_len : forall b, len (sha256 b) = 32.
Context `{HF : FrameIo no_effects} `{!FrameIoLaws HF}.

Lemma handshake_half ep fin a n :
  reaches (mk_link (close no_handler (exchange sha256 ep fin))
             (close no_handler (authenticate_with_counter sha256 a n)) [] [])
    (mk_link (close no_handler (host_waiting fin)) (close no_handler (guest_waiting sha256 a n))
       (frame_wire (AuthResponseV1_wire
          (response_of sha256 (ep_capability ep) (ep_vm_id ep) (challenge_of sha256 a n)))) []).
Proof.
  eapply reaches_trans; [apply reaches_pump_right, guest_challenges, sha256_len|].
  eapply reaches_trans; [apply reaches_pump_left|apply reaches_refl].
  cbn [app]. rewrite <-(app_nil_r (frame_wire _)) at 1. by apply host_answers.
Qed.

Lemma handshake_exchange ep fin a n :
  ep_capability ep = ga_capability a -> ep_vm_id ep = ga_vm_id a ->
  drive no_handler fin [] = Some (Ok tt, [], []) ->
  reaches (mk_link (close no_handler (exchange sha256 ep fin))
             (close no_handler (authenticate_with_counter sha256 a n)) [] [])
          (mk_link (Done (Ok tt)) (Done (Ok tt)) [] []).
Proof.
  intros Hc Hv Hfin. eapply reaches_trans; [apply handshake_half|]. rewrite Hc, Hv.
  rewrite <-(app_nil_r (frame_wire _)).
  eapply reaches_trans; [apply reaches_pump_right; by apply guest_accepts|].
  cbn [app]. rewrite <-(app_nil_r (frame_wire _)).
  eapply reaches_trans; [apply reaches_pump_left; by apply host_finishes|].
  apply (reaches_pump_left no_handler fin (Done (Ok tt)) _ [] [] [] []). by apply drive_pumps.
Qed.

Lemma handshake_refused ep fin a n :
  ar_mac (response_of sha256 (ep_capability ep) (ep_vm_id ep) (challenge_of sha256 a n))
  <> ar_mac (response_of sha256 (ga_capability a) (ga_vm_id a) (challenge_of sha256 a n)) ->
  reaches (mk_link (close no_handler (exchange sha256 ep fin))
             (close no_handler (authenticate_with_counter sha256 a n)) [] [])
          (mk_link (Done (Err Transport_AuthenticationFailed)) (Done (Err Init_Authentication)) [] []).
Proof.
  intros Hne. eapply reaches_trans; [apply handshake_half|].
  rewrite <-(app_nil_r (frame_wire _)).
  eapply reaches_trans; [apply reaches_pump_right; by apply guest_refuses|].
  by apply (reaches_left_closed no_handler _ _ [] [] _ [] []), host_refused.
Qed.
End Linked.

(** ** Theorems *)

(** C29: the handshake completes.  When host and guest share the capability and
    the VM identity, then whatever the interleaving of their socket operations,
    the system stops after a bounded number of steps with both sides having
    succeeded and no byte left in flight: no schedule deadlocks, fails or
    leaves a stray frame for the command that follows.  ([sha256_len] is the
    digest size of SHA-256.) *)
Theorem handshake_completes (sha256 : bytes -> bytes)
    (sha256_len : forall b, len (sha256 b) = 32)
    (ep : TcpEndpoint) (a : GuestAuthentication) (counter : Z) (a' : GuestAuthentication)
    (Hcap : ep_capability ep = ga_capability a) (Hvm : ep_vm_id ep = ga_vm_id a)
    (Hcounter : next_counter a = (Ok counter, a')) :
  let guest := close no_handler (fst (authenticate_connection sha256 a)) in
  inevitable (mk_link (close no_handler (authenticate_blocking sha256 ep)) guest [] [])
             (mk_link (Done (Ok tt)) (Done (Ok tt)) [] [])
  /\ inevitable (mk_link (close no_handler (authenticate_async sha256 ep)) guest [] [])
                (mk_link (Done (Ok tt)) (Done (Ok tt)) [] []).
Proof.
  unfold authenticate_connection. rewrite Hcounter. cbn [fst]. rewrite of_res_bind.
  split; (apply reaches_inevitable; [|apply done_stuck]).
  - unfold authenticate_blocking.
    eapply reaches_trans; [by apply reaches_pump_left, drive_pumps_bind|].
    eapply reaches_trans; [by apply reaches_pump_left, drive_pumps_bind|].
    apply handshake_exchange; try done; apply _.
  - apply handshake_exchange; try done; apply _.
Qed.


(** the guest authenticates a peer if and only if that peer sent, as its
    whole reply, the one response frame whose MAC the guest computes from its
    own capability, VM identity and challenge; the exchange is exactly challenge
    out, response in, acceptance out. *)
Theorem guest_accepts_only_expected_response (F : effects) (sha256 : bytes -> bytes)
    (sha256_len : forall b, len (sha256 b) = 32)
    (a : GuestAuthentication) (tr : list (event F)) :
  exec (fst (authenticate_connection sha256 a)) tr (Ok tt)
  <-> exists counter,
    fst (next_counter a) = Ok counter
    /\ tr = frame_sent (AuthChallengeV1_wire (challenge_of sha256 a counter))
            ++ frame_received (AuthResponseV1_wire
                 (response_of sha256 (ga_capability a) (ga_vm_id a) (challenge_of sha256 a counter)))
            ++ frame_sent (AuthAcceptedV1_wire accepted_v1).
Proof.
  split; [apply guest_exec_inv|]. intros (n & Hn & ->).
  unfold authenticate_connection. destruct (next_counter a) as [c a'].
  cbn [fst] in *. subst c. rewrite of_res_bind. unfold authenticate_with_counter.
  destruct (challenge_codec sha256 sha256_len a n) as (Hce & _ & Hcl).
  destruct (response_codec sha256 sha256_len (ga_capability a) (ga_vm_id a)
              (challenge_of sha256 a n)) as (_ & Hrd & Hrl).
  destruct accepted_codec as (Hae & _ & Hal).
  change {| ac_version := PROTOCOL_VERSION; ac_challenge := _ |} with (challenge_of sha256 a n).
  rewrite Hce. cbn [auth_error map_err]. rewrite of_res_bind.
  eapply exec_bind_intro; [by apply exec_write_payload|].
  eapply exec_bind_intro; [by apply exec_read_frame|].
  rewrite Hrd. cbn [auth_error map_err]. rewrite of_res_bind.
  unfold constant_time_eq. rewrite bool_decide_true by done. cbn [negb fail_if].
  change {| aa_version := PROTOCOL_VERSION |} with accepted_v1.
  rewrite of_res_bind, Hae. cbn [auth_error map_err]. rewrite of_res_bind.
  by apply exec_write_payload.
Qed.

(** The counters handed to [k] successive connections. *)
Fixpoint take_counters (k : nat) (a : GuestAuthentication)
    : list (res InitError Z) * GuestAuthentication :=
  match k with
  | O => ([], a)
  | S k => let '(c, a) := next_counter a in
           let '(cs, a) := take_counters k a in (c :: cs, a)
  end.

(** successive connections get the consecutive counter values, without
    wrap-around: once [u64::MAX] is reached every further connection is refused
    and the counter stays there. *)
Theorem connection_counters_fresh (k : nat) (a : GuestAuthentication)
    (Ha : is_u64 (ga_next_connection a)) :
  fst (take_counters k a)
  = (fun i => if ga_next_connection a + i <? U64_MAX
              then Ok (ga_next_connection a + i) else Err Init_Authentication)
    <$> seqZ 0 (Z.of_nat k)
  /\ ga_next_connection (snd (take_counters k a))
     = Z.min (ga_next_connection a + Z.of_nat k) U64_MAX
  /\ ga_capability (snd (take_counters k a)) = ga_capability a
  /\ ga_vm_id (snd (take_counters k a)) = ga_vm_id a.
Proof.
  revert a Ha. induction k as [|k IH]; intros a Ha.
  { unfold in_u in Ha. split_and!; try done. cbn. unfold U64_MAX. lia. }
  cbn [take_counters]. unfold next_counter, checked_add, try_from_u.
  assert (Z.of_nat (S k) = Z.succ (Z.of_nat k)) as -> by lia.
  rewrite seqZ_cons by lia. rewrite Z.pred_succ, fmap_cons, Z.add_0_r.
  destruct (decide (in_u 64 (ga_next_connection a + 1))) as [Hn|Hn].
  - destruct (IH {| ga_vm_id := ga_vm_id a; ga_capability := ga_capability a;
                    ga_next_connection := ga_next_connection a + 1 |} Hn) as (H1 & H2 & H3 & H4).
    destruct (take_counters k _) as [cs a'] eqn:E. cbn in H1, H2, H3, H4 |- *.
    unfold in_u in *. rewrite (proj2 (Z.ltb_lt _ _)) by (unfold U64_MAX; lia).
    rewrite H1, H2. split_and!; [|unfold U64_MAX; lia|done|done]. f_equal.
    change (Z.succ 0) with (1 + 0). rewrite <-(fmap_add_seqZ 1 0), <-list_fmap_compose.
    apply list_fmap_ext. intros j i _. cbn. by rewrite Z.add_assoc.
  - destruct (IH a Ha) as (H1 & H2 & H3 & H4).
    destruct (take_counters k a) as [cs a'] eqn:E. cbn in H1, H2, H3, H4 |- *.
    assert (ga_next_connection a = U64_MAX) as Hmax by (unfold in_u, U64_MAX in *; lia).
    rewrite Hmax in *. rewrite Z.ltb_irrefl, H1, H2. split_and!; [|lia|done|done]. f_equal.
    change (Z.succ 0) with (1 + 0). rewrite <-(fmap_add_seqZ 1 0), <-list_fmap_compose.
    apply list_fmap_ext. intros j i [-> _]%lookup_seqZ. cbn.
    by rewrite !(proj2 (Z.ltb_ge _ _)) by lia.
Qed.

(** ** Concrete instances *)

Definition toy_endpoint : TcpEndpoint := {| ep_vm_id := le_bytes 16 7; ep_capability := toy_cap |}.
Definition toy_guest : GuestAuthentication := GuestAuthentication_new (le_bytes 16 7) toy_cap.
Definition other_guest : GuestAuthentication := GuestAuthentication_new (le_bytes 16 8) toy_cap.

Lemma toy_sha256_len b : len (toy_sha256 b) = 32.
Proof. apply len_le_bytes. Qed.

Lemma handshake_completes_witness :
  inevitable (mk_link (close no_handler (authenticate_blocking toy_sha256 toy_endpoint))
                      (close no_handler (fst (authenticate_connection toy_sha256 toy_guest))) [] [])
             (mk_link (Done (Ok tt)) (Done (Ok tt)) [] []).
Proof.
  refine (proj1 (handshake_completes toy_sha256 toy_sha256_len toy_endpoint toy_guest 0
                   {| ga_vm_id := le_bytes 16 7; ga_capability := toy_cap;
                      ga_next_connection := 1 |} eq_refl eq_refl _)).
  vm_compute. reflexivity.
Defined.


Definition toy_trace : list (event no_effects) :=
  frame_sent (AuthChallengeV1_wire (challenge_of toy_sha256 toy_guest 0))
  ++ frame_received (AuthResponseV1_wire
       (response_of toy_sha256 toy_cap (le_bytes 16 7) (challenge_of toy_sha256 toy_guest 0)))
  ++ frame_sent (AuthAcceptedV1_wire accepted_v1).

Lemma guest_accepts_only_expected_response_witness :
  exec (fst (authenticate_connection toy_sha256 toy_guest)) toy_trace (Ok tt).
Proof.
  refine (proj2 (guest_accepts_only_expected_response no_effects toy_sha256 toy_sha256_len
                   toy_guest toy_trace) _).
  exists 0. split; reflexivity.
Defined.

Lemma connection_counters_fresh_witness :
  fst (take_counters 2 {| ga_vm_id := []; ga_capability := toy_cap;
                          ga_next_connection := U64_MAX - 1 |})
  = [Ok (U64_MAX - 1 + 0); Err Init_Authentication].
Proof.
  refine (proj1 (connection_counters_fresh 2
    {| ga_vm_id := []; ga_capability := toy_cap; ga_next_connection := U64_MAX - 1 |} _)).
  vm_compute. split; [discriminate|reflexivity].
Defined.
