(* ===== verification/Messages.v ===== *)
(** * Commands and events

    The request and reply vocabulary of [libs/protocol/src/lib.rs] and its
    conversion to and from bytes.  The archive format is the [rkyv] crate, an
    interface ([Rkyv]) of the model: [access] validates an archive,
    [deserialize] rebuilds the value, [to_bytes] serialises it; its documented
    guarantee ([RkyvLaws]) is that what it serialises it reads back. *)

From Stdlib Require Import ZArith Lia.
From stdpp Require Import base tactics option list numbers strings.
From S2P Require Import Prelude Bytes Text Wire.

Inductive ProcessStdio := Stdio_Pipe | Stdio_Null | Stdio_File (path : bytes).
Inductive ProcessOutputStream := Output_Stdout | Output_Stderr.

Inductive Command :=
  | Command_Ping
  | Command_VMShutdown
  | Command_FileRead (path : bytes)
  | Command_FileWrite (path data : bytes)
  | Command_FileRemove (path : bytes)
  | Command_DirRead (path : bytes)
  | Command_DirCreate (path : bytes)
  | Command_DirRemove (path : bytes)
  | Command_ProcessStart (uuid path : bytes) (args : list bytes) (envs : list (bytes * bytes))
      (cwd : option bytes) (stdout stderr : ProcessStdio)
  | Command_ProcessBind (uuid : bytes) (stay_framed : bool)
  | Command_ProcessOutputBind (uuid : bytes) (stream : ProcessOutputStream)
  | Command_ProcessStop (uuid : bytes)
  | Command_ProcessWait (uuid : bytes)
  | Command_ProcessClose (uuid : bytes)
  | Command_PortBind (port : Z).

Inductive Event :=
  | Event_VMReady
  | Event_ProcessStarted (uuid : bytes)
  | Event_ProcessExited (uuid : bytes) (exit_code signal : option Z)
  | Event_ProcessBound (uuid : bytes)
  | Event_ProcessClosed (uuid : bytes)
  | Event_FileRead (path data : bytes)
  | Event_FileWritten (path : bytes)
  | Event_FileRemoved (path : bytes)
  | Event_DirRead (path : bytes) (entries : list bytes)
  | Event_DirCreated (path : bytes)
  | Event_DirRemoved (path : bytes)
  | Event_PortBound (port : Z)
  | Event_Shutdowned
  | Event_Error (code : Z) (msg : bytes).

Inductive GuestErrorCode :=
  | Guest_ProcessStart
  | Guest_ProcessStop
  | Guest_ProcessWait
  | Guest_ProcessClose
  | Guest_FileRead
  | Guest_FileWrite
  | Guest_FileRemove
  | Guest_DirRead
  | Guest_DirCreate
  | Guest_DirRemove
  | Guest_Unknown (code : Z).

#[global] Instance ProcessStdio_eq_dec : EqDecision ProcessStdio.
Proof. solve_decision. Defined.
#[global] Instance ProcessOutputStream_eq_dec : EqDecision ProcessOutputStream.
Proof. solve_decision. Defined.
#[global] Instance Command_eq_dec : EqDecision Command.
Proof. solve_decision. Defined.
#[global] Instance Event_eq_dec : EqDecision Event.
Proof. solve_decision. Defined.
#[global] Instance GuestErrorCode_eq_dec : EqDecision GuestErrorCode.
Proof. solve_decision. Defined.

Definition GuestErrorCode_from_u32 (code : Z) : GuestErrorCode :=
  match code with
  | 1 => Guest_ProcessStart
  | 2 => Guest_ProcessStop
  | 9 => Guest_ProcessWait
  | 10 => Guest_ProcessClose
  | 3 => Guest_FileRead
  | 4 => Guest_FileWrite
  | 5 => Guest_FileRemove
  | 6 => Guest_DirRead
  | 7 => Guest_DirCreate
  | 8 => Guest_DirRemove
  | other => Guest_Unknown other
  end.

Definition Event_kind (e : Event) : bytes :=
  match e with
  | Event_VMReady => str "VMReady"
  | Event_ProcessStarted _ => str "ProcessStarted"
  | Event_ProcessExited _ _ _ => str "ProcessExited"
  | Event_ProcessBound _ => str "ProcessBound"
  | Event_ProcessClosed _ => str "ProcessClosed"
  | Event_FileRead _ _ => str "FileRead"
  | Event_FileWritten _ => str "FileWritten"
  | Event_FileRemoved _ => str "FileRemoved"
  | Event_DirRead _ _ => str "DirRead"
  | Event_DirCreated _ => str "DirCreated"
  | Event_DirRemoved _ => str "DirRemoved"
  | Event_PortBound _ => str "PortBound"
  | Event_Shutdowned => str "Shutdowned"
  | Event_Error _ _ => str "Error"
  end.

(** ** The archive library *)

Class Rkyv (M : Type) := {
  archived : Type;
  rkyv_access : bytes -> option archived;
  rkyv_deserialize : archived -> option M;
  rkyv_to_bytes : M -> option bytes;
}.

Class RkyvLaws (M : Type) `{!Rkyv M} : Prop :=
  rkyv_roundtrip (m : M) b :
    rkyv_to_bytes m = Some b ->
    exists a, rkyv_access b = Some a /\ rkyv_deserialize a = Some m.

Section Codec.
Context `{!Rkyv Command, !Rkyv Event}.

Definition Command_try_from (value : bytes) : res ProtocolError Command :=
  archived ← ok_or (rkyv_access (M:=Command) value) Access;
  ok_or (rkyv_deserialize archived) Deserialize.
Definition Command_try_into (c : Command) : res ProtocolError bytes :=
  ok_or (rkyv_to_bytes c) Serialize.

Definition Event_try_from (value : bytes) : res ProtocolError Event :=
  archived ← ok_or (rkyv_access (M:=Event) value) Access;
  ok_or (rkyv_deserialize archived) Deserialize.
Definition Event_try_into (e : Event) : res ProtocolError bytes :=
  ok_or (rkyv_to_bytes e) Serialize.

Lemma command_roundtrip `{!RkyvLaws Command} c b :
  Command_try_into c = Ok b -> Command_try_from b = Ok c.
Proof.
  intros H%ok_or_ok%rkyv_roundtrip. destruct H as (a & Ha & Hd).
  unfold Command_try_from. rewrite Ha. cbn. by rewrite Hd.
Qed.

Lemma event_roundtrip `{!RkyvLaws Event} e b :
  Event_try_into e = Ok b -> Event_try_from b = Ok e.
Proof.
  intros H%ok_or_ok%rkyv_roundtrip. destruct H as (a & Ha & Hd).
  unfold Event_try_from. rewrite Ha. cbn. by rewrite Hd.
Qed.
End Codec.

(** ** A small archive format

    Shows that the laws above can hold: it archives the few messages the
    worked examples send, and refuses the others. *)

Definition toy_command_bytes (c : Command) : option bytes :=
  match c with
  | Command_Ping => Some [z2b 1]
  | Command_FileRead path => Some (z2b 2 :: path)
  | Command_PortBind port => if decide (in_u 8 port) then Some [z2b 3; z2b port] else None
  | Command_ProcessBind uuid framed => Some (z2b 4 :: z2b (Z.b2z framed) :: uuid)
  | Command_VMShutdown => Some [z2b 5]
  | _ => None
  end.
Definition toy_command_access (b : bytes) : option Command :=
  match b with
  | t :: rest =>
    match b2z t, rest with
    | 1, [] => Some Command_Ping
    | 2, path => Some (Command_FileRead path)
    | 3, [p] => Some (Command_PortBind (b2z p))
    | 4, f :: uuid => Some (Command_ProcessBind uuid (Z.eqb (b2z f) 1))
    | 5, [] => Some Command_VMShutdown
    | _, _ => None
    end
  | [] => None
  end.
Definition toy_event_bytes (e : Event) : option bytes :=
  match e with
  | Event_VMReady => Some [z2b 1]
  | Event_FileRead path data =>
      if decide (in_u 8 (len path)) then Some (z2b 2 :: z2b (len path) :: path ++ data) else None
  | Event_ProcessBound uuid => Some (z2b 4 :: uuid)
  | Event_Shutdowned => Some [z2b 5]
  | _ => None
  end.
Definition toy_event_access (b : bytes) : option Event :=
  match b with
  | t :: rest =>
    match b2z t, rest with
    | 1, [] => Some Event_VMReady
    | 2, n :: body =>
        Some (Event_FileRead (take (Z.to_nat (b2z n)) body) (drop (Z.to_nat (b2z n)) body))
    | 4, uuid => Some (Event_ProcessBound uuid)
    | 5, [] => Some Event_Shutdowned
    | _, _ => None
    end
  | [] => None
  end.

Definition toy_command : Rkyv Command :=
  {| archived := Command; rkyv_access := toy_command_access; rkyv_deserialize := Some;
     rkyv_to_bytes := toy_command_bytes |}.
Definition toy_event : Rkyv Event :=
  {| archived := Event; rkyv_access := toy_event_access; rkyv_deserialize := Some;
     rkyv_to_bytes := toy_event_bytes |}.

Lemma toy_command_laws : RkyvLaws Command (Rkyv0 := toy_command).
Proof.
  intros m b H. exists m. split; [|done]. destruct m; cbn in H; try done.
  all: try case_decide; simplify_eq; cbn; try done.
  - by destruct stay_framed.
  - by rewrite (b2z_z2b_small port) by (unfold in_u in *; lia).
Qed.

Lemma toy_event_laws : RkyvLaws Event (Rkyv0 := toy_event).
Proof.
  intros m b H. exists m. split; [|done]. destruct m; cbn in H; try done.
  all: try case_decide; simplify_eq; cbn; try done.
  change (b2z (z2b 2)) with 2. rewrite b2z_z2b_small by (unfold in_u in *; lia). unfold len. rewrite Nat2Z.id.
  by rewrite take_app_length, drop_app_length.
Qed.
