(* ===== verification/GuestDispatch.v ===== *)
(** * The guest command dispatcher

    [handle_connection] of [libs/init/src/bus/dispatch.rs]: authenticate,
    read one command frame, perform it, reply with one event frame, close.
    The components it calls (process manager, file system, cancellation
    token) are external calls of the model, answered by the environment. *)

From Stdlib Require Import ZArith Lia.
From stdpp Require Import base tactics option list numbers strings.
From S2P Require Import Prelude Bytes Text Wire BootConfig BootCodec AuthMessages AuthProof.
From S2P Require Import Net Framing AuthSession Messages.

(** A report of another component: its context and its debug rendering. *)
Record report := { rep_context : InitError; rep_debug : bytes }.
Record ProcessExit := { pe_exit_code : option Z; pe_signal : option Z }.

Inductive guest_call :=
  | Pm_spawn (uuid path : bytes) (args : list bytes) (envs : list (bytes * bytes))
      (cwd : option bytes) (stdout stderr : ProcessStdio)
  | Pm_kill (uuid : bytes)
  | Pm_wait (uuid : bytes)
  | Pm_close (uuid : bytes)
  | Pm_bind (uuid : bytes) (stay_framed : bool)
  | Pm_bind_output (uuid : bytes) (output : ProcessOutputStream)
  | Fs_read (path : bytes)
  | Fs_write (path data : bytes)
  | Fs_remove_file (path : bytes)
  | Fs_read_dir (path : bytes)
  | Fs_create_dir_all (path : bytes)
  | Fs_remove_dir_all (path : bytes)
  | Cancel.

Definition guest_answer (c : guest_call) : Type :=
  match c with
  | Pm_spawn _ _ _ _ _ _ _ | Pm_close _ | Pm_bind _ _ | Pm_bind_output _ _ => unit + report
  | Pm_kill _ | Pm_wait _ => ProcessExit + report
  | Fs_read _ => bytes + bytes
  | Fs_read_dir _ => list bytes + bytes
  | Fs_write _ _ | Fs_remove_file _ | Fs_create_dir_all _ | Fs_remove_dir_all _ => unit + bytes
  | Cancel => unit
  end.

Definition guest_effects : effects := {| ext := guest_call; ext_ans := guest_answer |}.

Definition call (c : guest_call) : prog guest_effects InitError (guest_answer c) :=
  Ext (F := guest_effects) c (fun a => Done (Ok a)).

(** [let _ = p;] *)
Definition ignore {E A} (p : prog guest_effects E A) : prog guest_effects InitError unit :=
  ptry (fun r => match r with Panic => Done Panic | _ => Done (Ok tt) end) p.
Definition shutdown_both : prog guest_effects InitError unit := ignore (act ShutdownBoth).

Section Dispatch.
Context `{!Rkyv Command, !Rkyv Event}.

Definition write_frame (event : Event) : prog guest_effects InitError unit :=
  payload ← of_res (map_err (fun _ => Init_Serialize) (Event_try_into event));
  with_deadline Init_FrameIoTimeout (write_payload payload MAX_COMMAND_FRAME).

(** Reply and close: the write's result is discarded. *)
Definition reply (event : Event) : prog guest_effects InitError unit :=
  _ ← ignore (write_frame event);
  shutdown_both.

(** The reply of a call that may fail: the success event, or an error event
    with the operation's code. *)
Definition reply_result {A R} (render : R -> bytes) (ok : A -> Event) (code : Z)
    (r : A + R) : Event :=
  match r with
  | inl a => ok a
  | inr e => Event_Error code (render e)
  end.

Definition bind_ack (uuid : bytes) (c : guest_call)
    (result : guest_answer c -> unit + report) : prog guest_effects InitError unit :=
  ptry (fun r =>
    match r with
    | Ok _ =>
      a ← call c;
      match result a with
      | inl _ => Done (Ok tt)
      | inr e => Done (Err (rep_context e))
      end
    | Err _ => _ ← shutdown_both; Done (Err Init_Io)
    | Panic => Done Panic
    end) (write_frame (Event_ProcessBound uuid)).

Definition handle_command (cmd : Command) : prog guest_effects InitError unit :=
  match cmd with
  | Command_ProcessStart uuid path args envs cwd stdout stderr =>
    r ← call (Pm_spawn uuid path args envs cwd stdout stderr);
    reply (reply_result rep_debug (fun _ : unit => Event_ProcessStarted uuid) 1 r)
  | Command_ProcessStop uuid =>
    r ← call (Pm_kill uuid);
    reply (reply_result rep_debug
             (fun x => Event_ProcessExited uuid (pe_exit_code x) (pe_signal x)) 2 r)
  | Command_ProcessWait uuid =>
    r ← call (Pm_wait uuid);
    reply (reply_result rep_debug
             (fun x => Event_ProcessExited uuid (pe_exit_code x) (pe_signal x)) 9 r)
  | Command_ProcessClose uuid =>
    r ← call (Pm_close uuid);
    reply (reply_result rep_debug (fun _ : unit => Event_ProcessClosed uuid) 10 r)
  | Command_ProcessBind uuid stay_framed => bind_ack uuid (Pm_bind uuid stay_framed) id
  | Command_ProcessOutputBind uuid output => bind_ack uuid (Pm_bind_output uuid output) id
  | Command_VMShutdown =>
    _ ← reply Event_Shutdowned;
    call Cancel
  | Command_Ping => reply Event_VMReady
  | Command_FileRead path =>
    r ← call (Fs_read path);
    reply (reply_result id (fun data => Event_FileRead path data) 3 r)
  | Command_FileWrite path data =>
    r ← call (Fs_write path data);
    reply (reply_result id (fun _ : unit => Event_FileWritten path) 4 r)
  | Command_FileRemove path =>
    r ← call (Fs_remove_file path);
    reply (reply_result id (fun _ : unit => Event_FileRemoved path) 5 r)
  | Command_DirRead path =>
    r ← call (Fs_read_dir path);
    reply (reply_result id (fun entries => Event_DirRead path entries) 6 r)
  | Command_DirCreate path =>
    r ← call (Fs_create_dir_all path);
    reply (reply_result id (fun _ : unit => Event_DirCreated path) 7 r)
  | Command_DirRemove path =>
    r ← call (Fs_remove_dir_all path);
    reply (reply_result id (fun _ : unit => Event_DirRemoved path) 8 r)
  | Command_PortBind port => shutdown_both
  end.

Definition serve_command : prog guest_effects InitError unit :=
  payload ← read_frame_bounded MAX_COMMAND_FRAME;
  cmd ← of_res (map_err (fun _ => Init_Deserialize) (Command_try_from payload));
  handle_command cmd.

Definition handle_connection (sha256 : bytes -> bytes) (a : GuestAuthentication)
    : prog guest_effects InitError unit * GuestAuthentication :=
  let '(auth, a') := authenticate_connection sha256 a in
  (_ ← with_deadline Init_Authentication auth; serve_command, a').
End Dispatch.

(** ** What each command calls and replies *)

Definition command_call (cmd : Command) : option guest_call :=
  match cmd with
  | Command_ProcessStart uuid path args envs cwd stdout stderr =>
      Some (Pm_spawn uuid path args envs cwd stdout stderr)
  | Command_ProcessStop uuid => Some (Pm_kill uuid)
  | Command_ProcessWait uuid => Some (Pm_wait uuid)
  | Command_ProcessClose uuid => Some (Pm_close uuid)
  | Command_ProcessBind uuid stay_framed => Some (Pm_bind uuid stay_framed)
  | Command_ProcessOutputBind uuid output => Some (Pm_bind_output uuid output)
  | Command_VMShutdown => Some Cancel
  | Command_FileRead path => Some (Fs_read path)
  | Command_FileWrite path data => Some (Fs_write path data)
  | Command_FileRemove path => Some (Fs_remove_file path)
  | Command_DirRead path => Some (Fs_read_dir path)
  | Command_DirCreate path => Some (Fs_create_dir_all path)
  | Command_DirRemove path => Some (Fs_remove_dir_all path)
  | Command_Ping | Command_PortBind _ => None
  end.

(** The event a command is answered with when the components answer [h]. *)
Definition reply_event (h : forall c, guest_answer c) (cmd : Command) : option Event :=
  match cmd with
  | Command_Ping => Some Event_VMReady
  | Command_VMShutdown => Some Event_Shutdowned
  | Command_FileRead path =>
      Some match h (Fs_read path) with
           | inl data => Event_FileRead path data | inr msg => Event_Error 3 msg end
  | Command_FileWrite path data =>
      Some match h (Fs_write path data) with
           | inl _ => Event_FileWritten path | inr msg => Event_Error 4 msg end
  | Command_FileRemove path =>
      Some match h (Fs_remove_file path) with
           | inl _ => Event_FileRemoved path | inr msg => Event_Error 5 msg end
  | Command_DirRead path =>
      Some match h (Fs_read_dir path) with
           | inl entries => Event_DirRead path entries | inr msg => Event_Error 6 msg end
  | Command_DirCreate path =>
      Some match h (Fs_create_dir_all path) with
           | inl _ => Event_DirCreated path | inr msg => Event_Error 7 msg end
  | Command_DirRemove path =>
      Some match h (Fs_remove_dir_all path) with
           | inl _ => Event_DirRemoved path | inr msg => Event_Error 8 msg end
  | Command_ProcessStart uuid path args envs cwd stdout stderr =>
      Some match h (Pm_spawn uuid path args envs cwd stdout stderr) with
           | inl _ => Event_ProcessStarted uuid | inr e => Event_Error 1 (rep_debug e) end
  | Command_ProcessStop uuid =>
      Some match h (Pm_kill uuid) with
           | inl x => Event_ProcessExited uuid (pe_exit_code x) (pe_signal x)
           | inr e => Event_Error 2 (rep_debug e) end
  | Command_ProcessWait uuid =>
      Some match h (Pm_wait uuid) with
           | inl x => Event_ProcessExited uuid (pe_exit_code x) (pe_signal x)
           | inr e => Event_Error 9 (rep_debug e) end
  | Command_ProcessClose uuid =>
      Some match h (Pm_close uuid) with
           | inl _ => Event_ProcessClosed uuid | inr e => Event_Error 10 (rep_debug e) end
  | Command_ProcessBind uuid _ => Some (Event_ProcessBound uuid)
  | Command_ProcessOutputBind uuid _ => Some (Event_ProcessBound uuid)
  | Command_PortBind _ => None
  end.

(** The handler's own result: only a failed bind is an error. *)
Definition handler_result (h : forall c, guest_answer c) (cmd : Command) : res InitError unit :=
  let of_bind (r : unit + report) :=
    match r with inl _ => Ok tt | inr e => Err (rep_context e) end in
  match cmd with
  | Command_ProcessBind uuid stay_framed => of_bind (h (Pm_bind uuid stay_framed))
  | Command_ProcessOutputBind uuid output => of_bind (h (Pm_bind_output uuid output))
  | _ => Ok tt
  end.

Section Replies.
Context `{!Rkyv Command, !Rkyv Event} (h : forall c, guest_answer c).

Lemma write_frame_drive ev b input :
  Event_try_into ev = Ok b -> len b <= MAX_COMMAND_FRAME ->
  drive (F:=guest_effects) h (write_frame ev) input = Some (Ok tt, input, frame_wire b).
Proof.
  intros He Hb. unfold write_frame. rewrite He. cbn [map_err]. rewrite of_res_bind, drive_deadline.
  by apply write_payload_drive.
Qed.

Lemma ignore_drive {E A} (p : prog guest_effects E A) input a rest out :
  drive (F:=guest_effects) h p input = Some (Ok a, rest, out) ->
  drive (F:=guest_effects) h (ignore p) input = Some (Ok tt, rest, out).
Proof.
  intros H. unfold ignore. rewrite (drive_try (F:=guest_effects) h _ _ _ _ _ _ H). cbn.
  by rewrite app_nil_r.
Qed.

Lemma reply_drive ev b input :
  Event_try_into ev = Ok b -> len b <= MAX_COMMAND_FRAME ->
  drive (F:=guest_effects) h (reply ev) input = Some (Ok tt, input, frame_wire b).
Proof.
  intros He Hb. unfold reply.
  rewrite (drive_bind (F:=guest_effects) h _ _ _ _ _ _
             (ignore_drive _ _ _ _ _ (write_frame_drive ev b input He Hb))).
  cbn. by rewrite app_nil_r.
Qed.

Lemma bind_ack_drive uuid c result b input :
  Event_try_into (Event_ProcessBound uuid) = Ok b -> len b <= MAX_COMMAND_FRAME ->
  drive (F:=guest_effects) h (bind_ack uuid c result) input
  = Some (match result (h c) with inl _ => Ok tt | inr e => Err (rep_context e) end,
          input, frame_wire b).
Proof.
  intros He Hb. unfold bind_ack.
  rewrite (drive_try (F:=guest_effects) h _ _ _ _ _ _ (write_frame_drive _ b input He Hb)).
  cbn. destruct (result (h c)); cbn; by rewrite app_nil_r.
Qed.

Lemma handle_command_drive cmd ev b input :
  reply_event h cmd = Some ev -> Event_try_into ev = Ok b -> len b <= MAX_COMMAND_FRAME ->
  drive (F:=guest_effects) h (handle_command cmd) input
  = Some (handler_result h cmd, input, frame_wire b).
Proof.
  intros Hev He Hb. destruct cmd; cbn [reply_event] in Hev; try discriminate Hev; injection Hev as Hev;
    cbn [handle_command handler_result];
    try (cbn [mbind prog_bind pbind call drive]; unfold reply_result, id;
         match goal with |- context [h ?c] => destruct (h c) end; subst ev; by apply reply_drive);
    try (subst ev; by apply reply_drive).
  - subst ev. rewrite (drive_bind (F:=guest_effects) h _ _ _ _ _ _ (reply_drive _ b input He Hb)).
    cbn. destruct (h Cancel). by rewrite app_nil_r.
  - subst ev. by apply (bind_ack_drive uuid (Pm_bind uuid stay_framed)).
  - subst ev. by apply (bind_ack_drive uuid (Pm_bind_output uuid stream)).
Qed.

Lemma port_bind_drive port input :
  drive (F:=guest_effects) h (handle_command (Command_PortBind port)) input
  = Some (Ok tt, input, []).
Proof. reflexivity. Qed.

Lemma serve_command_drive cmd cb ev b rest :
  Command_try_from cb = Ok cmd -> len cb <= MAX_COMMAND_FRAME ->
  reply_event h cmd = Some ev -> Event_try_into ev = Ok b -> len b <= MAX_COMMAND_FRAME ->
  drive (F:=guest_effects) h serve_command (frame_wire cb ++ rest)
  = Some (handler_result h cmd, rest, frame_wire b).
Proof.
  intros Hc Hcb Hev He Hb. unfold serve_command.
  erewrite (drive_bind (F:=guest_effects)).
  2: { unfold read_frame_bounded. rewrite drive_deadline. by apply read_frame_drive. }
  rewrite Hc. cbn [map_err]. rewrite of_res_bind. by rewrite (handle_command_drive cmd ev b).
Qed.
End Replies.

(** ** Which effects a run can have, whatever the peer does *)

Definition is_ext {F} (ev : event F) : bool := match ev with EvExt _ _ => true | _ => false end.
Definition is_tick {F} (ev : event F) : bool := match ev with EvElapsed _ => true | _ => false end.
(** The external calls of a trace, and the trace without deadline checks. *)
Definition ext_events {F} (tr : list (event F)) : list (event F) := List.filter is_ext tr.
Definition untimed {F} (tr : list (event F)) : list (event F) :=
  List.filter (fun ev => negb (is_tick ev)) tr.

(** A program that calls no other component. *)
Fixpoint quiet {F E A} (p : prog F E A) : Prop :=
  match p with
  | Done _ => True
  | ReadExact _ k => forall a, quiet (k a)
  | Act _ k => forall x, quiet (k x)
  | Reserve _ k => forall x, quiet (k x)
  | Elapsed k => forall x, quiet (k x)
  | Ext _ _ => False
  end.

Section Quiet.
Context {F : effects}.

Lemma ext_events_app (t1 t2 : list (event F)) :
  ext_events (t1 ++ t2) = ext_events t1 ++ ext_events t2.
Proof. apply List.filter_app. Qed.

Lemma quiet_exec {E A} (p : prog F E A) tr r : quiet p -> exec p tr r -> ext_events tr = [].
Proof.
  revert tr. induction p as [r0|n k IH|ac k IH|n k IH|k IH|x k IH]; intros tr Hq H; cbn in H.
  - by destruct H as [-> _].
  - destruct H as (a & t & -> & _ & H). by apply (IH a t).
  - destruct H as (a & t & -> & H). by apply (IH a t).
  - destruct H as (a & t & -> & H). by apply (IH a t).
  - destruct H as (a & t & -> & H). by apply (IH a t).
  - done.
Qed.

Lemma quiet_bind {E A B} (f : A -> prog F E B) (p : prog F E A) :
  quiet p -> (forall a, quiet (f a)) -> quiet (p ≫= f).
Proof.
  unfold mbind, prog_bind. intros Hp Hf.
  induction p as [[]| | | | |]; cbn in *; auto.
Qed.

Lemma quiet_try {E E' A B} (f : res E A -> prog F E' B) (p : prog F E A) :
  quiet p -> (forall r, quiet (f r)) -> quiet (ptry f p).
Proof. intros Hp Hf. induction p; cbn in *; auto. Qed.

Lemma quiet_map_err {E E' A} (f : E -> E') (p : prog F E A) : quiet p -> quiet (pmap_err f p).
Proof. intros Hp. by apply quiet_try. Qed.

Lemma quiet_deadline {E A} (e : E) (p : prog F E A) : quiet p -> quiet (with_deadline e p).
Proof.
  intros Hp. induction p as [r0|n k IH|ac k IH|n k IH|k IH|x k IH]; cbn in *; intros []; try done; cbn; auto.
Qed.

(** A run under a deadline is a run, or the deadline elapsed part way. *)
Lemma exec_deadline_inv {E A} (e : E) (p : prog F E A) tr r :
  exec (with_deadline e p) tr r ->
  (exists tr', exec p tr' r /\ untimed tr = untimed tr' /\ ext_events tr = ext_events tr')
  \/ r = Err e.
Proof.
  revert tr. induction p as [r0|n k IH|ac k IH|n k IH|k IH|x k IH]; intros tr H;
    cbn [with_deadline exec] in H; destruct H as (late & t & -> & H);
    (destruct late; [right; by destruct H|]).
  - left. destruct H as [-> ->]. by exists [].
  - destruct H as (a & t' & -> & Ha & H). apply IH in H as [(t'' & H & E1 & E2)|]; [|by right].
    left. exists (EvRead n a :: t''). cbn. unfold untimed, ext_events in *. cbn.
    rewrite E1, E2. split; [by eauto|done].
  - destruct H as (a & t' & -> & H). apply IH in H as [(t'' & H & E1 & E2)|]; [|by right].
    left. exists (EvAct ac a :: t''). cbn. unfold untimed, ext_events in *. cbn.
    rewrite E1, E2. split; [by eauto|done].
  - destruct H as (a & t' & -> & H). apply IH in H as [(t'' & H & E1 & E2)|]; [|by right].
    left. exists (EvReserve n a :: t''). cbn. unfold untimed, ext_events in *. cbn.
    rewrite E1, E2. split; [by eauto|done].
  - destruct H as (a & t' & -> & H). apply IH in H as [(t'' & H & E1 & E2)|]; [|by right].
    left. exists (EvElapsed a :: t''). cbn. unfold untimed, ext_events in *. cbn.
    rewrite E1, E2. split; [by eauto|done].
  - destruct H as (a & t' & -> & H). apply IH in H as [(t'' & H & E1 & E2)|]; [|by right].
    left. exists (EvExt x a :: t''). cbn. unfold untimed, ext_events in *. cbn.
    rewrite E1, E2. split; [by eauto|done].
Qed.

Lemma quiet_of_res {E A} (r : res E A) : quiet (F:=F) (of_res r).
Proof. done. Qed.

Lemma quiet_write_payload d m : quiet (F:=F) (write_payload d m).
Proof.
  unfold write_payload. repeat (apply quiet_bind; [done|intros ?]). by apply quiet_map_err.
Qed.

Lemma quiet_read_frame m : quiet (F:=F) (read_frame m).
Proof.
  unfold read_frame. apply quiet_bind; [done|intros _].
  apply quiet_bind; [|intros ?; repeat (apply quiet_bind; [done|intros ?])];
    apply quiet_map_err; by intros [].
Qed.

Lemma quiet_authenticate sha256 a : quiet (F:=F) (fst (authenticate_connection sha256 a)).
Proof.
  unfold authenticate_connection. destruct (next_counter a) as [c a']. cbn [fst].
  apply quiet_bind; [done|intros n]. unfold authenticate_with_counter.
  apply quiet_bind; [done|intros ?]. apply quiet_bind; [apply quiet_write_payload|intros _].
  apply quiet_bind; [apply quiet_read_frame|intros ?].
  do 3 (apply quiet_bind; [done|intros ?]). apply quiet_write_payload.
Qed.
End Quiet.

Section Effects.
Context `{!Rkyv Command, !Rkyv Event}.

Lemma quiet_ignore {E A} (p : prog guest_effects E A) : quiet p -> quiet (ignore p).
Proof. intros Hp. apply quiet_try; [done|]. by intros []. Qed.

Lemma quiet_shutdown : quiet shutdown_both.
Proof. by apply quiet_ignore. Qed.

Lemma quiet_write_frame ev : quiet (write_frame ev).
Proof.
  unfold write_frame. apply quiet_bind; [done|intros ?].
  apply quiet_deadline, quiet_write_payload.
Qed.

Lemma quiet_reply ev : quiet (reply ev).
Proof.
  unfold reply. apply quiet_bind; [apply quiet_ignore, quiet_write_frame|].
  intros _. apply quiet_shutdown.
Qed.

(** A call followed by quiet work makes exactly that call. *)
Lemma call_then_quiet {B} c (f : guest_answer c -> prog guest_effects InitError B) tr r :
  (forall a, quiet (f a)) -> exec (call c ≫= f) tr r ->
  exists ans, ext_events tr = [EvExt (F:=guest_effects) c ans].
Proof.
  intros Hf (a & t & -> & H). exists a. cbn. f_equal. by apply (quiet_exec (f a) t r).
Qed.

Lemma quiet_then {A B} (p : prog guest_effects InitError A)
    (f : A -> prog guest_effects InitError B) tr r :
  quiet p -> exec (p ≫= f) tr r ->
  ext_events tr = [] \/ exists a t1 t2, tr = t1 ++ t2 /\ exec p t1 (Ok a) /\ exec (f a) t2 r
                                      /\ ext_events tr = ext_events t2.
Proof.
  intros Hp (t1 & t2 & r1 & -> & H1 & H2)%exec_bind_inv.
  rewrite ext_events_app, (quiet_exec _ _ _ Hp H1).
  destruct r1; [right; by exists a, t1, t2|left; by destruct H2 as [-> _]..].
Qed.

Lemma bind_ack_effects uuid c result tr r :
  exec (bind_ack uuid c result) tr r ->
  ext_events tr = [] \/ exists ans, ext_events tr = [EvExt (F:=guest_effects) c ans].
Proof.
  intros (t1 & t2 & r1 & -> & H1 & H2)%exec_try_inv.
  rewrite ext_events_app, (quiet_exec _ _ _ (quiet_write_frame _) H1). cbn [app].
  destruct r1.
  - right. eapply call_then_quiet; [|exact H2]. intros x. cbn beta. by destruct (result x).
  - left. eapply quiet_exec; [|exact H2]. apply quiet_bind; [apply quiet_shutdown|done].
  - left. by destruct H2 as [-> _].
Qed.

Lemma handle_command_effects cmd tr r :
  exec (handle_command cmd) tr r ->
  ext_events tr = []
  \/ exists c ans, command_call cmd = Some c
       /\ ext_events tr = [EvExt (F:=guest_effects) c ans].
Proof.
  intros H. destruct cmd; cbn [handle_command] in H; cbn [command_call];
    try (right; eexists; apply call_then_quiet in H as [ans H];
         [by exists ans|intros ?; apply quiet_reply]);
    try (apply bind_ack_effects in H as [H|[ans H]]; [by left|right; by eauto]).
  - left. by apply (quiet_exec _ _ _ (quiet_reply _) H).
  - apply (quiet_then _ _ _ _ (quiet_reply _)) in H as [H|(a & t1 & t2 & -> & _ & H & ->)];
      [by left|].
    right. destruct H as (u & t & -> & -> & _). by eexists _, u.
  - left. by apply (quiet_exec _ _ _ quiet_shutdown H).
Qed.

Lemma serve_command_effects tr r :
  exec serve_command tr r ->
  ext_events tr = []
  \/ exists payload cmd c ans,
       EvRead (len payload) (inl payload) ∈ tr
       /\ Command_try_from payload = Ok cmd /\ command_call cmd = Some c
       /\ ext_events tr = [EvExt (F:=guest_effects) c ans].
Proof.
  intros H. apply quiet_then in H as [H|(payload & t1 & t2 & -> & H1 & H2 & ->)];
    [by left| |apply quiet_deadline, quiet_read_frame].
  assert (EvRead (len payload) (inl payload) ∈ t1) as Hread.
  { apply exec_deadline_inv in H1 as [(t' & H1 & Hu & _)|]; [|done].
    apply exec_read_frame_ok in H1 as ->.
    assert (EvRead (len payload) (inl payload) ∈ untimed (F:=guest_effects) (frame_received payload))
      as Hin by (right; right; by left).
    rewrite <-Hu in Hin. apply list_elem_of_In, List.filter_In in Hin as [Hin _].
    by apply list_elem_of_In. }
  apply quiet_then in H2 as [H2|(cmd & t3 & t4 & -> & H3 & H4 & ->)]; [by left| |done].
  apply exec_of_res_ok in H3 as [-> H3].
  destruct (Command_try_from payload) as [cmd'| |] eqn:Hc; [|done..].
  cbn in H3. injection H3 as ->.
  apply handle_command_effects in H4 as [H4|(c & ans & Hcc & H4)]; [by left|].
  right. exists payload, cmd, c, ans. split_and!; try done. apply elem_of_app. by left.
Qed.

(** An external call lies after any quiet beginning of the trace. *)
Lemma ext_after_quiet (t1 t2 u v : list (event guest_effects)) ev :
  ext_events t1 = [] -> is_ext ev = true -> t1 ++ t2 = u ++ ev :: v ->
  exists w, u = t1 ++ w /\ t2 = w ++ ev :: v.
Proof.
  revert u. induction t1 as [|e t1 IH]; intros u Hq He H; [by exists u|].
  destruct u as [|e' u]; cbn in H; injection H as -> H.
  { unfold ext_events in Hq. cbn in Hq. by rewrite He in Hq. }
  destruct (IH u) as (w & -> & ->); try done; [|by exists w].
  unfold ext_events in *. cbn in Hq. by destruct (is_ext e').
Qed.

(** What precedes a call: the handshake, then the command frame that asks for
    this very call. *)
Lemma call_history sha256 (a : GuestAuthentication) u v r (c : guest_call) (ans : guest_answer c) :
  exec (fst (handle_connection sha256 a)) (u ++ EvExt (F:=guest_effects) c ans :: v) r ->
  exists counter payload cmd t1 t2 t3,
    u = t1 ++ t2 ++ t3
    /\ fst (next_counter a) = Ok counter
    /\ untimed t1
       = frame_sent (AuthChallengeV1_wire (challenge_of sha256 a counter))
         ++ frame_received (AuthResponseV1_wire
              (response_of sha256 (ga_capability a) (ga_vm_id a) (challenge_of sha256 a counter)))
         ++ frame_sent (AuthAcceptedV1_wire accepted_v1)
    /\ untimed t2 = frame_received payload
    /\ Command_try_from payload = Ok cmd /\ command_call cmd = Some c.
Proof.
  unfold handle_connection. intros H.
  destruct (authenticate_connection sha256 a) as [auth a'] eqn:Ha. cbn [fst] in H.
  assert (auth = fst (authenticate_connection (F:=guest_effects) sha256 a)) as -> by (by rewrite Ha).
  apply exec_bind_inv in H as (t1 & tb & r1 & Htr & H1 & H2).
  apply eq_sym, ext_after_quiet in Htr as (w & -> & ->);
    [|exact (quiet_exec _ _ _ (quiet_deadline _ _ (quiet_authenticate _ _)) H1)|done].
  destruct r1 as [[]| |]; [|exfalso; destruct H2 as [H2 _]; by destruct w..].
  apply exec_bind_inv in H2 as (t2 & tc & r2 & Htr & H2 & H3).
  apply eq_sym, ext_after_quiet in Htr as (w' & -> & ->);
    [|exact (quiet_exec _ _ _ (quiet_deadline _ _ (quiet_read_frame _)) H2)|done].
  destruct r2 as [payload| |]; [|exfalso; destruct H3 as [H3 _]; by destruct w'..].
  apply exec_bind_inv in H3 as (t0 & td & r3 & Htr & [-> ->] & H3). cbn [app] in Htr. subst td.
  destruct (Command_try_from payload) as [cmd| |] eqn:Hcmd; cbn [map_err] in H3;
    [|exfalso; destruct H3 as [H3 _]; by destruct w'..].
  apply handle_command_effects in H3.
  rewrite ext_events_app in H3. cbn in H3.
  destruct H3 as [H3|(c' & ans' & Hcc & H3)]; [by destruct (ext_events w')|].
  assert (c' = c) as ->.
  { destruct (ext_events w') as [|? [|? ?]]; by inversion H3. }
  apply exec_deadline_inv in H1 as [(s1 & H1 & Hu1 & _)|]; [|done].
  apply exec_deadline_inv in H2 as [(s2 & H2 & Hu2 & _)|]; [|done].
  apply guest_exec_inv in H1 as (counter & Hc & ->). apply exec_read_frame_ok in H2 as ->.
  exists counter, payload, cmd, t1, t2, w'. by split_and!.
Qed.

(** C3: an unauthenticated peer causes nothing.  In any run of a connection
    handler, against any peer and any timing, a call to the process manager,
    the file system or the cancellation token is preceded by the complete
    exchange of this connection's challenge and the one response that only a
    holder of the capability can compute, and then by a command frame that
    asks for this very call with these arguments. *)
Theorem unauthenticated_peer_causes_nothing (sha256 : bytes -> bytes) (a : GuestAuthentication)
    (tr : list (event guest_effects)) (r : res InitError unit)
    (H : exec (fst (handle_connection sha256 a)) tr r)
    (c : guest_call) (ans : guest_answer c)
    (Hcall : EvExt (F:=guest_effects) c ans ∈ tr) :
  exists counter payload cmd t1 t2 t3 t4,
    tr = t1 ++ t2 ++ t3 ++ EvExt (F:=guest_effects) c ans :: t4
    /\ fst (next_counter a) = Ok counter
    /\ untimed t1
       = frame_sent (AuthChallengeV1_wire (challenge_of sha256 a counter))
         ++ frame_received (AuthResponseV1_wire
              (response_of sha256 (ga_capability a) (ga_vm_id a) (challenge_of sha256 a counter)))
         ++ frame_sent (AuthAcceptedV1_wire accepted_v1)
    /\ untimed t2 = frame_received payload
    /\ Command_try_from payload = Ok cmd /\ command_call cmd = Some c.
Proof.
  apply list_elem_of_split in Hcall as (u & v & ->).
  destruct (call_history sha256 a u v r c ans H) as (counter & payload & cmd & t1 & t2 & t3 & -> & Hrest).
  exists counter, payload, cmd, t1, t2, t3, v. by rewrite <-!app_assoc.
Qed.

(** one connection performs at most one call, and only the one its command
    frame asks for: the handler decodes the payload it received, calls the
    operation that command names with that command's arguments, and nothing
    else. *)
Theorem connection_performs_its_command (sha256 : bytes -> bytes) (a : GuestAuthentication)
    (tr : list (event guest_effects)) (r : res InitError unit)
    (H : exec (fst (handle_connection sha256 a)) tr r) :
  ext_events tr = []
  \/ exists payload cmd c ans,
       EvRead (len payload) (inl payload) ∈ tr
       /\ Command_try_from payload = Ok cmd /\ command_call cmd = Some c
       /\ ext_events tr = [EvExt (F:=guest_effects) c ans].
Proof.
  unfold handle_connection in H.
  destruct (authenticate_connection sha256 a) as [auth a'] eqn:Ha. cbn [fst] in H.
  assert (auth = fst (authenticate_connection (F:=guest_effects) sha256 a)) as -> by (by rewrite Ha).
  apply quiet_then in H as [H|(u & t1 & t2 & -> & _ & H & ->)];
    [by left| |apply quiet_deadline, quiet_authenticate].
  apply serve_command_effects in H as [H|(payload & cmd & c & ans & Hr & Hrest)]; [by left|].
  right. exists payload, cmd, c, ans. split; [|done]. apply elem_of_app. by right.
Qed.

End Effects.

(** ** A worked connection: the host reads a file *)

Definition toy_answers (c : guest_call) : guest_answer c :=
  match c with
  | Fs_read path => inl (path ++ path)
  | Pm_spawn _ _ _ _ _ _ _ | Pm_close _ | Pm_bind _ _ | Pm_bind_output _ _ => inl tt
  | Pm_kill _ | Pm_wait _ => inl {| pe_exit_code := Some 0; pe_signal := None |}
  | Fs_read_dir _ => inl []
  | Fs_write _ _ | Fs_remove_file _ | Fs_create_dir_all _ | Fs_remove_dir_all _ => inl tt
  | Cancel => tt
  end.

Definition toy_request : bytes :=
  frame_wire (AuthResponseV1_wire
    (response_of toy_sha256 toy_cap (le_bytes 16 7) (challenge_of toy_sha256 toy_guest 0)))
  ++ frame_wire (z2b 2 :: str "/x").

Definition toy_handler : prog guest_effects InitError unit :=
  fst (handle_connection (Rkyv0 := toy_command) (Rkyv1 := toy_event) toy_sha256 toy_guest).

Definition toy_run : list (event guest_effects) * res InitError unit :=
  default ([], Panic) (replay (F:=guest_effects) toy_answers toy_handler toy_request).

Lemma toy_run_exec : exec toy_handler (fst toy_run) (Ok tt).
Proof. apply (replay_exec (F:=guest_effects) toy_answers toy_handler toy_request). vm_compute. reflexivity. Qed.

Lemma toy_run_reads_file :
  EvExt (F:=guest_effects) (Fs_read (str "/x")) (inl (str "/x/x")) ∈ fst toy_run.
Proof. apply (list_elem_of_lookup_2 _ 22%nat). vm_compute. reflexivity. Qed.

Lemma unauthenticated_peer_causes_nothing_witness :
  exists counter payload cmd t1 t2 t3 t4,
    fst toy_run
      = t1 ++ t2 ++ t3 ++ EvExt (F:=guest_effects) (Fs_read (str "/x")) (inl (str "/x/x")) :: t4
    /\ fst (next_counter toy_guest) = Ok counter
    /\ untimed t1
       = frame_sent (AuthChallengeV1_wire (challenge_of toy_sha256 toy_guest counter))
         ++ frame_received (AuthResponseV1_wire
              (response_of toy_sha256 toy_cap (le_bytes 16 7)
                 (challenge_of toy_sha256 toy_guest counter)))
         ++ frame_sent (AuthAcceptedV1_wire accepted_v1)
    /\ untimed t2 = frame_received payload
    /\ Command_try_from (Rkyv0 := toy_command) payload = Ok cmd
    /\ command_call cmd = Some (Fs_read (str "/x")).
Proof.
  exact (unauthenticated_peer_causes_nothing (Rkyv0 := toy_command) (Rkyv1 := toy_event)
           toy_sha256 toy_guest (fst toy_run) (Ok tt) toy_run_exec _ _ toy_run_reads_file).
Defined.

Lemma connection_performs_its_command_witness :
  ext_events (fst toy_run) = []
  \/ exists payload cmd c ans,
       EvRead (len payload) (inl payload) ∈ fst toy_run
       /\ Command_try_from (Rkyv0 := toy_command) payload = Ok cmd /\ command_call cmd = Some c
       /\ ext_events (fst toy_run) = [EvExt (F:=guest_effects) c ans].
Proof.
  exact (connection_performs_its_command (Rkyv0 := toy_command) (Rkyv1 := toy_event)
           toy_sha256 toy_guest (fst toy_run) (Ok tt) toy_run_exec).
Defined.
