(* ===== verification/Dispatcher.v ===== *)
(** * The guest accept loop

    [Dispatcher::run] of [libs/init/src/bus/dispatch.rs] with its connection
    admission: a semaphore of [MAX_GUEST_CONNECTIONS] permits, one detached
    handler task per admitted connection, and a cancellation token.  The loop
    and its handlers are a transition system: every step is one poll of the
    loop or one socket operation, clock check or external call of one
    handler, in any order. *)

From Stdlib Require Import ZArith Lia.
From stdpp Require Import base tactics option list numbers strings.
From S2P Require Import Prelude Bytes Text Wire BootConfig BootCodec AuthMessages AuthProof.
From S2P Require Import Net Framing AuthSession Messages GuestDispatch.

(** The semaphore: available permits. *)
Record ConnectionAdmission := { permits : Z }.
Definition ConnectionAdmission_new : ConnectionAdmission := {| permits := MAX_GUEST_CONNECTIONS |}.
Definition ConnectionAdmission_try_acquire (c : ConnectionAdmission) : option ConnectionAdmission :=
  if 0 <? permits c then Some {| permits := permits c - 1 |} else None.
Definition release (c : ConnectionAdmission) : ConnectionAdmission := {| permits := permits c + 1 |}.

(** [TcpCommandListener::accept]: the listener's answer, then [set_nodelay]'s. *)
Definition tcp_accept (inner nodelay : option ErrorKind) : res InitError unit :=
  match inner with
  | Some _ => Err Init_NetworkListener
  | None => match nodelay with Some _ => Err Init_NetworkListener | None => Ok tt end
  end.

Definition accept_error_is_disconnect (e : InitError) : bool :=
  match e with Init_BusDisconnected => true | _ => false end.

(** A handler task: admitted and not yet polled, or running with the events of
    its connection so far and the rest of its program. *)
Inductive handler :=
  | Spawned
  | Running (auth : GuestAuthentication) (past : list (event guest_effects))
      (rest : prog guest_effects InitError unit).

(** Where the loop is: at the [while] test, waiting in [race], or returned. *)
Inductive loop_state := AtTest | InRace | Returned (r : res InitError unit).

Record Dispatcher := {
  d_loop : loop_state;
  d_cancel : bool;
  d_authentication : GuestAuthentication;
  d_admission : ConnectionAdmission;
  d_handlers : list handler;
  d_finished : list handler;
}.

Definition Dispatcher_new (vm_id : bytes) (capability : SessionCapability) : Dispatcher :=
  {| d_loop := AtTest; d_cancel := false;
     d_authentication := GuestAuthentication_new vm_id capability;
     d_admission := ConnectionAdmission_new; d_handlers := []; d_finished := [] |}.

Definition set_loop (l : loop_state) (d : Dispatcher) : Dispatcher :=
  {| d_loop := l; d_cancel := d_cancel d; d_authentication := d_authentication d;
     d_admission := d_admission d; d_handlers := d_handlers d; d_finished := d_finished d |}.

(** One turn of the loop's body, on the outcome of the race. *)
Definition on_accepted (accepted : res InitError unit) (d : Dispatcher) : Dispatcher :=
  match accepted with
  | Ok _ =>
    match ConnectionAdmission_try_acquire (d_admission d) with
    | None => set_loop AtTest d (* the stream is shut down *)
    | Some adm =>
      {| d_loop := AtTest; d_cancel := d_cancel d; d_authentication := d_authentication d;
         d_admission := adm; d_handlers := d_handlers d ++ [Spawned];
         d_finished := d_finished d |}
    end
  | Err e => if accept_error_is_disconnect e then set_loop (Returned (Ok tt)) d else set_loop AtTest d
  | Panic => set_loop (Returned Panic) d
  end.

(** One event of a program. *)
Inductive fires {F E A} : prog F E A -> event F -> prog F E A -> Prop :=
  | fires_read n k a : read_answer_ok n a -> fires (ReadExact n k) (EvRead n a) (k a)
  | fires_act a k x : fires (Act a k) (EvAct a x) (k x)
  | fires_reserve n k ok : fires (Reserve n k) (EvReserve n ok) (k ok)
  | fires_elapsed k late : fires (Elapsed k) (EvElapsed late) (k late)
  | fires_ext x k a : fires (Ext x k) (EvExt x a) (k a).

(** [cancel.cancel()] is the one call that sets the token. *)
Definition is_cancel (ev : event guest_effects) : bool :=
  match ev with
  | EvExt x _ => match (x : guest_call) with Cancel => true | _ => false end
  | _ => false
  end.

Section Run.
Context `{!Rkyv Command, !Rkyv Event} (sha256 : bytes -> bytes).

Inductive dstep : Dispatcher -> Dispatcher -> Prop :=
  | step_test d :
      d_loop d = AtTest ->
      dstep d (set_loop (if d_cancel d then Returned (Ok tt) else InRace) d)
  | step_cancelled d :
      d_loop d = InRace -> d_cancel d = true ->
      dstep d (on_accepted (Err Init_BusDisconnected) d)
  | step_accept inner nodelay d :
      d_loop d = InRace -> dstep d (on_accepted (tcp_accept inner nodelay) d)
  | step_start before after p auth d :
      d_handlers d = before ++ Spawned :: after ->
      handle_connection sha256 (d_authentication d) = (p, auth) ->
      dstep d {| d_loop := d_loop d; d_cancel := d_cancel d; d_authentication := auth;
                 d_admission := d_admission d;
                 d_handlers := before ++ Running (d_authentication d) [] p :: after;
                 d_finished := d_finished d |}
  | step_handler before after auth past p ev p' d :
      d_handlers d = before ++ Running auth past p :: after -> fires p ev p' ->
      dstep d {| d_loop := d_loop d; d_cancel := d_cancel d || is_cancel ev;
                 d_authentication := d_authentication d; d_admission := d_admission d;
                 d_handlers := before ++ Running auth (past ++ [ev]) p' :: after;
                 d_finished := d_finished d |}
  | step_finish before after auth past r d :
      d_handlers d = before ++ Running auth past (Done r) :: after ->
      dstep d {| d_loop := d_loop d; d_cancel := d_cancel d;
                 d_authentication := d_authentication d; d_admission := release (d_admission d);
                 d_handlers := before ++ after;
                 d_finished := Running auth past (Done r) :: d_finished d |}.

Inductive reachable (vm_id : bytes) (capability : SessionCapability) : Dispatcher -> Prop :=
  | reach_new : reachable vm_id capability (Dispatcher_new vm_id capability)
  | reach_step d d' : reachable vm_id capability d -> dstep d d' -> reachable vm_id capability d'.
End Run.

(** ** Partial runs of a handler *)

(** [runs_to p tr p']: the events [tr] take [p] to [p']. *)
Inductive runs_to {F E A} (p : prog F E A) : list (event F) -> prog F E A -> Prop :=
  | runs_here : runs_to p [] p
  | runs_snoc tr p' ev p'' : runs_to p tr p' -> fires p' ev p'' -> runs_to p (tr ++ [ev]) p''.

Lemma fires_exec {F E A} (p p' : prog F E A) ev tr r :
  fires p ev p' -> exec p' tr r -> exec p (ev :: tr) r.
Proof. destruct 1; cbn; eauto 8. Qed.

Lemma runs_to_exec {F E A} (p p' : prog F E A) tr tr' r :
  runs_to p tr p' -> exec p' tr' r -> exec p (tr ++ tr') r.
Proof.
  intros H. revert tr'. induction H as [|tr p' ev p'' _ IH Hf]; intros tr' H; [done|].
  rewrite <-app_assoc. apply IH. cbn. by eapply fires_exec.
Qed.

(** Every program can be run to its end, whatever it has done so far. *)
Lemma exec_total {F E A} (h : forall x, ext_ans F x) (p : prog F E A) : exists tr r, exec p tr r.
Proof.
  induction p as [r|n k IH|a k IH|n k IH|k IH|x k IH].
  - by exists [], r.
  - destruct (IH (inr OtherKind)) as (tr & r & H). exists (EvRead n (inr OtherKind) :: tr), r. by eexists _, _.
  - destruct (IH None) as (tr & r & H). exists (EvAct a None :: tr), r. by eexists _, _.
  - destruct (IH true) as (tr & r & H). exists (EvReserve n true :: tr), r. by eexists _, _.
  - destruct (IH false) as (tr & r & H). exists (EvElapsed false :: tr), r. by eexists _, _.
  - destruct (IH (h x)) as (tr & r & H). exists (EvExt x (h x) :: tr), r. by eexists _, _.
Qed.

(** ** The invariant *)

Section Invariant.
Context `{!Rkyv Command, !Rkyv Event} (sha256 : bytes -> bytes).
Context (vm_id : bytes) (capability : SessionCapability).

(** The task's events are a run of a connection handler of this session. *)
Definition handler_ok (t : handler) : Prop :=
  match t with
  | Spawned => True
  | Running auth past rest =>
      runs_to (fst (handle_connection sha256 auth)) past rest
      /\ ga_vm_id auth = vm_id /\ ga_capability auth = capability
  end.

(** The counter a started task drew. *)
Definition drawn (t : handler) : list Z :=
  match t with
  | Running auth _ _ => match fst (next_counter auth) with Ok c => [c] | _ => [] end
  | Spawned => []
  end.

Definition has_cancelled (t : handler) : bool :=
  match t with Running _ past _ => existsb is_cancel past | Spawned => false end.

(** What holds of the session state, the token and the tasks started so far. *)
Record tasks_inv (auth : GuestAuthentication) (cancel : bool) (ts : list handler) : Prop := {
  inv_session : ga_vm_id auth = vm_id /\ ga_capability auth = capability;
  inv_handlers : Forall handler_ok ts;
  inv_fresh : NoDup (flat_map drawn ts);
  inv_drawn : Forall (fun c => c < ga_next_connection auth) (flat_map drawn ts);
  inv_cancel : cancel = existsb has_cancelled ts;
}.

Record dispatcher_inv (d : Dispatcher) : Prop := {
  inv_permits : 0 <= permits (d_admission d);
  inv_admitted : permits (d_admission d) + len (d_handlers d) = MAX_GUEST_CONNECTIONS;
  inv_tasks : tasks_inv (d_authentication d) (d_cancel d) (d_handlers d ++ d_finished d);
  inv_return : forall r, d_loop d = Returned r -> r = Ok tt /\ d_cancel d = true;
}.

Lemma existsb_perm {A} (f : A -> bool) l k : l ≡ₚ k -> existsb f l = existsb f k.
Proof. induction 1; cbn; [done|congruence| |congruence]. by destruct (f x), (f y). Qed.

#[local] Instance tasks_inv_perm auth cancel : Proper (Permutation ==> iff) (tasks_inv auth cancel).
Proof.
  assert (forall l k, l ≡ₚ k -> tasks_inv auth cancel l -> tasks_inv auth cancel k) as Himp.
  { intros l k Hp []. split; [done|..].
    - by rewrite <-Hp.
    - by rewrite <-(Permutation_flat_map drawn Hp).
    - by rewrite <-(Permutation_flat_map drawn Hp).
    - by rewrite <-(existsb_perm _ _ _ Hp). }
  intros l k Hp. split; by apply Himp.
Qed.

Lemma middle_front (before after fin : list handler) t :
  (before ++ t :: after) ++ fin ≡ₚ t :: (before ++ after) ++ fin.
Proof. rewrite <-!app_assoc. cbn. symmetry. apply Permutation_middle. Qed.

(** A new task draws nothing and cancels nothing. *)
Lemma tasks_inv_spawn auth cancel ts :
  tasks_inv auth cancel ts -> tasks_inv auth cancel (Spawned :: ts).
Proof. intros []. split; try done. by constructor. Qed.

(** A task's first poll draws the next counter. *)
Lemma tasks_inv_start auth cancel ts p auth' :
  handle_connection sha256 auth = (p, auth') ->
  tasks_inv auth cancel (Spawned :: ts) -> tasks_inv auth' cancel (Running auth [] p :: ts).
Proof.
  intros Hp [[Hv Hc] Ht Hf Hd Hx]. inversion Ht as [|? ? _ Ht']; subst.
  assert (auth' = snd (next_counter auth) /\ p = fst (handle_connection sha256 auth)) as [-> ->].
  { rewrite Hp. unfold handle_connection, authenticate_connection in Hp.
    destruct (next_counter auth). by simplify_eq. }
  unfold next_counter in *. cbn in Hf, Hd.
  unfold checked_add in *. destruct (try_from_u 64 (ga_next_connection auth + 1)) as [c|] eqn:E;
    (split; [done|by repeat constructor|..]); cbn; unfold next_counter, checked_add; rewrite ?E; cbn.
  - apply try_from_u_inv in E as [-> _]. constructor; [|done]. intros Hin.
    rewrite Forall_forall in Hd. apply Hd in Hin. lia.
  - apply try_from_u_inv in E as [-> _]. constructor; [cbn; lia|].
    eapply Forall_impl; [exact Hd|]. cbn. lia.
  - done.
  - done.
  - done.
  - done.
Qed.

Lemma tasks_inv_event auth cancel ts a past p ev p' :
  fires p ev p' -> tasks_inv auth cancel (Running a past p :: ts) ->
  tasks_inv auth (cancel || is_cancel ev) (Running a (past ++ [ev]) p' :: ts).
Proof.
  intros Hf [Hs Ht Hn Hd ->]. apply Forall_cons in Ht as [(Hr & Hv & Hc) Ht'].
  split; [done| |done|done|].
  - constructor; [|done]. split_and!; [by eapply runs_snoc|done|done].
  - cbn. rewrite existsb_app. cbn. rewrite orb_false_r, <-!orb_assoc. f_equal. apply orb_comm.
Qed.

Lemma dispatcher_inv_step d d' : dispatcher_inv d -> dstep sha256 d d' -> dispatcher_inv d'.
Proof.
  intros [Hp Ha Ht Hr] Hs. destruct Hs as [d Hl|d Hl Hc|inner nodelay d Hl|before after p auth d Hh E
    |before after auth past p ev p' d Hh E|before after auth past r d Hh].
  - split; try done. cbn. destruct (d_cancel d) eqn:Hc; [by intros r [= <-]|done].
  - split; try done. cbn. by intros r [= <-].
  - destruct inner, nodelay; cbn; try (by split).
    unfold ConnectionAdmission_try_acquire. destruct (Z.ltb_spec 0 (permits (d_admission d))); [|by split].
    split; cbn; [lia|autorewrite with jyth; lia| |done].
    rewrite <-app_assoc. cbn. rewrite <-Permutation_middle. by apply tasks_inv_spawn.
  - rewrite Hh in *. split; cbn; [done|by autorewrite with jyth in *| |done].
    rewrite middle_front in *. by eapply tasks_inv_start.
  - rewrite Hh in *. split; cbn; [done|by autorewrite with jyth in *| |].
    + rewrite middle_front in *. by eapply tasks_inv_event.
    + intros r [-> ->]%Hr. by rewrite orb_true_l.
  - rewrite Hh in *. autorewrite with jyth in *. split; cbn; autorewrite with jyth; [lia|lia| |done].
    rewrite middle_front in Ht. by rewrite <-Permutation_middle.
Qed.

Lemma dispatcher_inv_reachable d : reachable sha256 vm_id capability d -> dispatcher_inv d.
Proof.
  induction 1 as [|d d' _ IH Hs]; [|by eapply dispatcher_inv_step].
  split; cbn; [done|done| |done]. split; [done|..]; by constructor.
Qed.
End Invariant.

(** ** Theorems *)

(** Admission control.  However connections arrive, stall, fail and
    finish, the guest never retains more than [MAX_GUEST_CONNECTIONS] handlers
    and no permit is lost or duplicated; and the handshake counters of all
    connections ever started are pairwise distinct, so no challenge is
    repeated within a session. *)
Theorem admission_bounded `{!Rkyv Command, !Rkyv Event} (sha256 : bytes -> bytes)
    (vm_id : bytes) (capability : SessionCapability) (d : Dispatcher)
    (H : reachable sha256 vm_id capability d) :
  0 <= permits (d_admission d)
  /\ permits (d_admission d) + len (d_handlers d) = MAX_GUEST_CONNECTIONS
  /\ NoDup (flat_map drawn (d_handlers d ++ d_finished d)).
Proof.
  apply dispatcher_inv_reachable in H as [Hp Ha [_ _ Hf _ _] _]. done.
Qed.

(** Only an authenticated shutdown command stops the guest.  If the accept
    loop has returned, in any interleaving of the loop with its handlers and
    whatever errors [accept] reported, then it returned successfully and some
    connection completed the handshake of this session and then sent a frame
    that decodes to [VMShutdown]. *)
Theorem dispatcher_stops_only_on_shutdown `{!Rkyv Command, !Rkyv Event} (sha256 : bytes -> bytes)
    (vm_id : bytes) (capability : SessionCapability) (d : Dispatcher) (r : res InitError unit)
    (H : reachable sha256 vm_id capability d) (Hr : d_loop d = Returned r) :
  r = Ok tt
  /\ exists auth past rest counter payload t1 t2 t3,
       Running auth past rest ∈ d_handlers d ++ d_finished d
       /\ past = t1 ++ t2 ++ t3
       /\ fst (next_counter auth) = Ok counter
       /\ untimed t1
          = frame_sent (AuthChallengeV1_wire (challenge_of sha256 auth counter))
            ++ frame_received (AuthResponseV1_wire
                 (response_of sha256 capability vm_id (challenge_of sha256 auth counter)))
            ++ frame_sent (AuthAcceptedV1_wire accepted_v1)
       /\ untimed t2 = frame_received payload
       /\ Command_try_from payload = Ok Command_VMShutdown.
Proof.
  apply dispatcher_inv_reachable in H as [_ _ [_ Hh _ _ Hc] Hret].
  apply Hret in Hr as [-> Hcancel]. split; [done|]. rewrite Hcancel in Hc.
  symmetry in Hc. apply existsb_exists in Hc as (t & Hin & Ht). apply list_elem_of_In in Hin.
  rewrite Forall_forall in Hh. pose proof (Hh t Hin) as Hok.
  destruct t as [|auth past rest]; [done|]. destruct Hok as (Hrun & Hv & Hcap).
  cbn in Ht. apply existsb_exists in Ht as (ev & Hev & Hc). apply list_elem_of_In in Hev.
  destruct ev as [| | | |c ans]; try done. cbn in c. destruct c; try done.
  apply list_elem_of_split in Hev as (u & v & ->).
  destruct (exec_total (F:=guest_effects) toy_answers rest) as (tr & r & Hex).
  apply (runs_to_exec _ _ _ _ _ Hrun) in Hex. rewrite <-app_assoc in Hex. cbn in Hex.
  apply call_history in Hex as (counter & payload & cmd & t1 & t2 & t3 & -> & Hn & H1 & H2 & H3 & H4).
  exists auth, ((t1 ++ t2 ++ t3) ++ EvExt (F:=guest_effects) Cancel ans :: v), rest, counter, payload, t1, t2, (t3 ++ EvExt (F:=guest_effects) Cancel ans :: v).
  rewrite Hv, Hcap in H1. destruct cmd; try done. split_and!; try done. by rewrite <-!app_assoc.
Qed.

(** ** A worked session: one connection shuts the guest down *)

Lemma exec_cons_inv {F E A} (p : prog F E A) ev tr r :
  exec p (ev :: tr) r -> exists p', fires p ev p' /\ exec p' tr r.
Proof.
  destruct p as [r0|n k|ac k|n k|k|x k]; cbn; [by intros []|..].
  - intros (a & t & [= -> ->] & Ha & H). eexists. split; [by constructor|done].
  - intros (a & t & [= -> ->] & H). eexists. split; [by constructor|done].
  - intros (a & t & [= -> ->] & H). eexists. split; [by constructor|done].
  - intros (a & t & [= -> ->] & H). eexists. split; [by constructor|done].
  - intros (a & t & [= -> ->] & H). eexists. split; [by constructor|done].
Qed.

(** A handler run without interruption. *)
Lemma reachable_handler `{!Rkyv Command, !Rkyv Event} sha256 vm_id cap
    tr l c au adm fin auth past p r :
  exec p tr r ->
  reachable sha256 vm_id cap (Build_Dispatcher l c au adm [Running auth past p] fin) ->
  reachable sha256 vm_id cap
    (Build_Dispatcher l (c || existsb is_cancel tr) au adm [Running auth (past ++ tr) (Done r)] fin).
Proof.
  revert c past p. induction tr as [|ev tr IH]; intros c past p He Hr.
  - destruct p; cbn in He; try (by destruct He as (? & ? & ? & ?)). destruct He as [_ ->].
    cbn. by rewrite orb_false_r, app_nil_r.
  - apply exec_cons_inv in He as (p' & Hf & He). cbn [existsb].
    rewrite orb_assoc, (cons_middle ev past tr), app_assoc. apply (IH _ _ p'); [done|].
    eapply reach_step; [exact Hr|].
    by apply (step_handler sha256 [] [] auth past p ev p' (Build_Dispatcher l c au adm [Running auth past p] fin)).
Qed.

Definition shutdown_request : bytes :=
  frame_wire (AuthResponseV1_wire
    (response_of toy_sha256 toy_cap (le_bytes 16 7) (challenge_of toy_sha256 toy_guest 0)))
  ++ frame_wire [z2b 5].

Definition shutdown_run : list (event guest_effects) * res InitError unit :=
  default ([], Panic) (replay (F:=guest_effects) toy_answers toy_handler shutdown_request).

(** The session after its only connection ran [tr]. *)
Definition session_after (tr : list (event guest_effects)) (auth auth' : GuestAuthentication)
    (l : loop_state) (c : bool) (r : res InitError unit) : Dispatcher :=
  {| d_loop := l; d_cancel := c; d_authentication := auth'; d_admission := {| permits := 31 |};
     d_handlers := [Running auth tr (Done r)]; d_finished := [] |}.

Lemma session_reachable `{!Rkyv Command, !Rkyv Event} sha256 vm_id cap tr p auth' r :
  handle_connection sha256 (GuestAuthentication_new vm_id cap) = (p, auth') ->
  exec p tr r -> existsb is_cancel tr = true ->
  reachable sha256 vm_id cap
    (session_after tr (GuestAuthentication_new vm_id cap) auth' (Returned (Ok tt)) true r).
Proof.
  intros Hp He Hc. set (auth := GuestAuthentication_new vm_id cap) in *.
  eapply reach_step;
    [|by apply (step_test sha256 (session_after tr auth auth' AtTest true r))].
  unfold session_after. rewrite <-Hc.
  apply (reachable_handler sha256 vm_id cap tr AtTest false auth' _ [] auth [] p r He).
  eapply reach_step.
  2: { by apply (step_start sha256 [] [] p auth'
         (Build_Dispatcher AtTest false auth {| permits := 31 |} [Spawned] [])). }
  eapply reach_step.
  2: { by apply (step_accept sha256 None None
         (Build_Dispatcher InRace false auth {| permits := 32 |} [] [])). }
  eapply reach_step; [apply reach_new|]. by apply (step_test sha256 (Dispatcher_new vm_id cap)).
Qed.

Definition stopped : Dispatcher :=
  session_after (fst shutdown_run) toy_guest
    (snd (handle_connection (Rkyv0 := toy_command) (Rkyv1 := toy_event) toy_sha256 toy_guest))
    (Returned (Ok tt)) true (Ok tt).

Lemma stopped_reachable :
  reachable (Rkyv0 := toy_command) (Rkyv1 := toy_event) toy_sha256 (le_bytes 16 7) toy_cap stopped.
Proof.
  apply (session_reachable (Rkyv0 := toy_command) (Rkyv1 := toy_event) toy_sha256 (le_bytes 16 7)
           toy_cap (fst shutdown_run) toy_handler).
  - unfold toy_handler, toy_guest. by destruct (handle_connection _ _).
  - apply (replay_exec (F:=guest_effects) toy_answers toy_handler shutdown_request).
    vm_compute. reflexivity.
  - vm_compute. reflexivity.
Qed.

Lemma admission_bounded_witness :
  0 <= permits (d_admission stopped)
  /\ permits (d_admission stopped) + len (d_handlers stopped) = MAX_GUEST_CONNECTIONS
  /\ NoDup (flat_map drawn (d_handlers stopped ++ d_finished stopped)).
Proof.
  exact (admission_bounded (Rkyv0 := toy_command) (Rkyv1 := toy_event) toy_sha256 (le_bytes 16 7)
           toy_cap stopped stopped_reachable).
Defined.

Lemma dispatcher_stops_only_on_shutdown_witness :
  Ok (E:=InitError) tt = Ok tt
  /\ exists auth past rest counter payload t1 t2 t3,
       Running auth past rest ∈ d_handlers stopped ++ d_finished stopped
       /\ past = t1 ++ t2 ++ t3
       /\ fst (next_counter auth) = Ok counter
       /\ untimed t1
          = frame_sent (AuthChallengeV1_wire (challenge_of toy_sha256 auth counter))
            ++ frame_received (AuthResponseV1_wire
                 (response_of toy_sha256 toy_cap (le_bytes 16 7)
                    (challenge_of toy_sha256 auth counter)))
            ++ frame_sent (AuthAcceptedV1_wire accepted_v1)
       /\ untimed t2 = frame_received payload
       /\ Command_try_from (Rkyv0 := toy_command) payload = Ok Command_VMShutdown.
Proof.
  exact (dispatcher_stops_only_on_shutdown (Rkyv0 := toy_command) (Rkyv1 := toy_event) toy_sha256
           (le_bytes 16 7) toy_cap stopped (Ok tt) stopped_reachable eq_refl).
Defined.
