(* ===== verification/Rpc.v ===== *)
(** * Command round trips

    [TcpEndpoint::command] and [TcpEndpoint::bind], blocking and async
    ([libs/com/src/rpc.rs]), on a connection that has been opened, and their
    composition with the guest's [handle_connection]: authentication, one
    command, one reply, under every schedule. *)

From Stdlib Require Import ZArith Lia.
From stdpp Require Import base tactics option list numbers strings.
From S2P Require Import Prelude Bytes Text Wire BootConfig BootCodec AuthMessages AuthProof.
From S2P Require Import Net Framing AuthSession Messages GuestDispatch.

Section Client.
Context {F : effects} `{!Rkyv Command, !Rkyv Event} (sha256 : bytes -> bytes).

(** The request half: serialise and send. *)
Definition send_command `{!FrameIo F} (cmd : Command) : prog F TransportError unit :=
  payload ← of_res (map_err (fun _ => Transport_Serialize) (Command_try_into cmd));
  write_frame_limited payload MAX_COMMAND_FRAME.

Definition decode_reply (payload : bytes) : res TransportError Event :=
  map_err (fun _ => Transport_Deserialize) (Event_try_from payload).

Definition command (ep : TcpEndpoint) (cmd : Command) : prog F TransportError Event :=
  _ ← authenticate_blocking sha256 ep;
  _ ← send_command (FrameIo0 := Stream_io) cmd;
  reply_payload ← Stream_read_frame_with_deadline MAX_COMMAND_FRAME;
  of_res (decode_reply reply_payload).

Definition connect_async (ep : TcpEndpoint) : prog F TransportError unit :=
  with_deadline Transport_AuthenticationFailed (authenticate_async sha256 ep).

Definition command_async (ep : TcpEndpoint) (cmd : Command) : prog F TransportError Event :=
  _ ← connect_async ep;
  _ ← send_command (FrameIo0 := AsyncStream_io) cmd;
  reply_payload ← AsyncStream_read_frame_with_deadline MAX_COMMAND_FRAME;
  of_res (decode_reply reply_payload).

(** The reply of a binding command must be [ProcessBound]. *)
Definition expect_bound (event : Event) : res TransportError unit :=
  match event with
  | Event_ProcessBound _ => Ok tt
  | _ => Err Transport_BindExpectedProcessBound
  end.

Definition bind (ep : TcpEndpoint) (cmd : Command) : prog F TransportError unit :=
  _ ← authenticate_blocking sha256 ep;
  _ ← send_command (FrameIo0 := Stream_io) cmd;
  reply_payload ← Stream_read_frame_with_deadline MAX_COMMAND_FRAME;
  event ← of_res (decode_reply reply_payload);
  of_res (expect_bound event).

Definition bind_async (ep : TcpEndpoint) (cmd : Command) : prog F TransportError unit :=
  _ ← connect_async ep;
  _ ← send_command (FrameIo0 := AsyncStream_io) cmd;
  reply_payload ← AsyncStream_read_frame_with_deadline MAX_COMMAND_FRAME;
  event ← of_res (decode_reply reply_payload);
  of_res (expect_bound event).
End Client.

(** ** The host's side of a round trip *)

Section HostSteps.
Context `{!Rkyv Command, !Rkyv Event}.

Lemma send_command_drive `{HF : FrameIo no_effects} `{!FrameIoLaws HF} cmd cb input :
  Command_try_into cmd = Ok cb -> len cb <= MAX_COMMAND_FRAME ->
  drive no_handler (send_command cmd) input = Some (Ok tt, input, frame_wire cb).
Proof.
  intros Hc Hl. unfold send_command. rewrite Hc. cbn [map_err]. rewrite of_res_bind.
  apply write_frame_limited_drive; [apply _|done|done].
Qed.

Lemma read_deadline_drive b rest :
  len b <= MAX_COMMAND_FRAME ->
  drive no_handler (Stream_read_frame_with_deadline MAX_COMMAND_FRAME) (frame_wire b ++ rest)
  = Some (Ok b, rest, [])
  /\ drive no_handler (AsyncStream_read_frame_with_deadline MAX_COMMAND_FRAME)
       (frame_wire b ++ rest) = Some (Ok b, rest, []).
Proof.
  intros Hb. split.
  - unfold Stream_read_frame_with_deadline.
    rewrite (drive_bind no_handler _ (pmap_err _ (set_read_timeout true)) _ tt
               (frame_wire b ++ rest) []) by done.
    erewrite drive_try; [|apply read_frame_with_limit_drive; [apply _|done|done]]. done.
  - unfold AsyncStream_read_frame_with_deadline. rewrite drive_deadline.
    apply read_frame_with_limit_drive; [apply _|done|done].
Qed.

Lemma port_bind_served (h : forall c, guest_answer c) cb port rest :
  Command_try_from cb = Ok (Command_PortBind port) -> len cb <= MAX_COMMAND_FRAME ->
  drive (F:=guest_effects) h serve_command (frame_wire cb ++ rest) = Some (Ok tt, rest, []).
Proof.
  intros Hc Hcb. unfold serve_command. erewrite (drive_bind (F:=guest_effects)).
  2: { unfold read_frame_bounded. rewrite drive_deadline. by apply read_frame_drive. }
  rewrite Hc. cbn [map_err]. by rewrite of_res_bind.
Qed.
End HostSteps.

(** ** Both sides *)

(** A host program: an authenticated request that reads one reply. *)
Section RoundTrip.
Context `{!Rkyv Command, !Rkyv Event, !RkyvLaws Command, !RkyvLaws Event}.
Context (sha256 : bytes -> bytes) (sha256_len : forall b, len (sha256 b) = 32).
Context (h : forall c, guest_answer c).
Context (ep : TcpEndpoint) (a : GuestAuthentication) (counter : Z) (a' : GuestAuthentication).
Hypothesis Hcap : ep_capability ep = ga_capability a.
Hypothesis Hvm : ep_vm_id ep = ga_vm_id a.
Hypothesis Hcounter : next_counter a = (Ok counter, a').

Abbreviation guest := (close (F:=guest_effects) h (fst (handle_connection sha256 a))).

(** The authenticated part: host inside any continuation, guest inside its
    deadline and followed by the command service. *)
Lemma connected_reaches {A} `{HF : FrameIo no_effects} `{!FrameIoLaws HF}
    (pre : prog no_effects TransportError unit -> prog no_effects TransportError unit)
    fin (k : unit -> prog no_effects TransportError A) :
  (forall p p' i rest out, pumps no_handler p i p' rest out ->
     pumps no_handler (pre p) i (pre p') rest out) ->
  pumps no_handler (pre fin) [] (Done (Ok tt)) [] [] ->
  reaches (mk_link (close no_handler (pre (exchange sha256 ep fin) ≫= k)) guest [] [])
          (mk_link (close no_handler (k tt))
             (close (F:=guest_effects) h
                (with_deadline Init_Authentication (Done (Ok tt)) ≫= fun _ => serve_command)) [] []).
Proof.
  intros Hpre Hfin. unfold handle_connection, authenticate_connection. rewrite Hcounter.
  cbn [fst]. rewrite of_res_bind.
  eapply reaches_trans.
  { apply reaches_pump_right, pumps_bind, pumps_deadline, guest_challenges, sha256_len. }
  cbn [app]. rewrite <-(app_nil_r (frame_wire _)).
  eapply reaches_trans.
  { apply reaches_pump_left, pumps_bind, Hpre. by apply host_answers. }
  cbn [app]. rewrite Hcap, Hvm. rewrite <-(app_nil_r (frame_wire _)).
  eapply reaches_trans.
  { apply reaches_pump_right, pumps_bind, pumps_deadline. by apply guest_accepts. }
  cbn [app]. rewrite <-(app_nil_r (frame_wire _)).
  eapply reaches_trans.
  { apply reaches_pump_left, pumps_bind, Hpre. by apply host_finishes. }
  apply (reaches_pump_left no_handler (pre fin ≫= k) (k tt) _ [] [] [] []).
  by apply (pumps_bind no_handler k) in Hfin.
Qed.

(** The command and its reply. *)
Lemma request_reaches {A} `{HF : FrameIo no_effects} `{!FrameIoLaws HF} cmd cb ev eb
    (read : prog no_effects TransportError bytes)
    (k : bytes -> prog no_effects TransportError A) x :
  Command_try_into cmd = Ok cb -> len cb <= MAX_COMMAND_FRAME ->
  reply_event h cmd = Some ev -> Event_try_into ev = Ok eb -> len eb <= MAX_COMMAND_FRAME ->
  drive no_handler read (frame_wire eb ++ []) = Some (Ok eb, [], []) ->
  drive no_handler (k eb) [] = Some (x, [], []) ->
  reaches
    (mk_link (close no_handler (_ ← send_command cmd; b ← read; k b))
       (close (F:=guest_effects) h
          (with_deadline Init_Authentication (Done (Ok tt)) ≫= fun _ => serve_command)) [] [])
    (mk_link (Done x) (Done (handler_result h cmd)) [] []).
Proof.
  intros Hc Hcl Hr He Hel Hread Hk.
  eapply reaches_trans.
  { apply reaches_pump_left, drive_pumps_bind. by apply (send_command_drive cmd cb). }
  cbn [app]. rewrite <-(app_nil_r (frame_wire cb)).
  eapply reaches_trans.
  { apply (reaches_pump_right (F:=guest_effects) h _ (Done (handler_result h cmd)) _ _ _ []
             (frame_wire eb)).
    apply pumps_elapsed. apply (drive_pumps (F:=guest_effects)).
    apply (serve_command_drive h cmd cb ev eb []); try done. by apply command_roundtrip. }
  cbn [app]. rewrite <-(app_nil_r (frame_wire eb)).
  eapply reaches_trans; [apply reaches_pump_left; by apply drive_pumps_bind|].
  apply (reaches_pump_left no_handler (k eb) (Done x) _ [] [] [] []). by apply drive_pumps.
Qed.

(** The blocking connection, followed by [k]. *)
Lemma connect_blocking_reaches {A} (k : unit -> prog no_effects TransportError A) :
  reaches (mk_link (close no_handler (authenticate_blocking sha256 ep ≫= k)) guest [] [])
          (mk_link (close no_handler (k tt))
             (close (F:=guest_effects) h
                (with_deadline Init_Authentication (Done (Ok tt)) ≫= fun _ => serve_command)) [] []).
Proof.
  unfold authenticate_blocking.
  eapply reaches_trans; [by apply reaches_pump_left, pumps_bind, drive_pumps_bind|].
  eapply reaches_trans; [by apply reaches_pump_left, pumps_bind, drive_pumps_bind|].
  apply (connected_reaches id); [auto|]. by apply drive_pumps.
Qed.

(** The async connection under its deadline, followed by [k]. *)
Lemma connect_async_reaches {A} (k : unit -> prog no_effects TransportError A) :
  reaches (mk_link (close no_handler (connect_async sha256 ep ≫= k)) guest [] [])
          (mk_link (close no_handler (k tt))
             (close (F:=guest_effects) h
                (with_deadline Init_Authentication (Done (Ok tt)) ≫= fun _ => serve_command)) [] []).
Proof.
  unfold connect_async, authenticate_async.
  apply (connected_reaches (with_deadline Transport_AuthenticationFailed)).
  - intros. by apply pumps_deadline.
  - by apply drive_pumps.
Qed.
End RoundTrip.

(** ** Theorems *)

(** C23: a command round trip returns the guest's answer.  When host and guest
    share the capability and identity and the command and its reply serialise
    within the frame bound, then under every schedule of the two sides'
    socket operations the system stops with [command] (blocking or async)
    returning exactly the event that the guest components' answers determine,
    and no byte in flight. *)
Theorem command_round_trip `{!Rkyv Command, !Rkyv Event, !RkyvLaws Command, !RkyvLaws Event}
    (sha256 : bytes -> bytes) (sha256_len : forall b, len (sha256 b) = 32)
    (h : forall c, guest_answer c) (ep : TcpEndpoint) (a : GuestAuthentication)
    (counter : Z) (a' : GuestAuthentication)
    (Hcap : ep_capability ep = ga_capability a) (Hvm : ep_vm_id ep = ga_vm_id a)
    (Hcounter : next_counter a = (Ok counter, a'))
    (cmd : Command) (cb : bytes) (ev : Event) (eb : bytes)
    (Hcmd : Command_try_into cmd = Ok cb) (Hcb : len cb <= MAX_COMMAND_FRAME)
    (Hev : reply_event h cmd = Some ev)
    (Heb : Event_try_into ev = Ok eb) (Hel : len eb <= MAX_COMMAND_FRAME) :
  let guest := close (F:=guest_effects) h (fst (handle_connection sha256 a)) in
  let final := mk_link (Done (Ok ev)) (Done (handler_result h cmd)) [] [] in
  inevitable (mk_link (close no_handler (command sha256 ep cmd)) guest [] []) final
  /\ inevitable (mk_link (close no_handler (command_async sha256 ep cmd)) guest [] []) final.
Proof.
  split; (apply reaches_inevitable; [|apply done_stuck]).
  - eapply reaches_trans; [by eapply connect_blocking_reaches|].
    eapply request_reaches; try done; [apply _|by apply read_deadline_drive|].
    unfold decode_reply. by rewrite (event_roundtrip ev eb).
  - eapply reaches_trans; [by eapply connect_async_reaches|].
    eapply request_reaches; try done; [apply _|by apply read_deadline_drive|].
    unfold decode_reply. by rewrite (event_roundtrip ev eb).
Qed.

(** a bind succeeds exactly when the command is a binding command.  Under
    the same conditions, [bind] (blocking or async) ends under every schedule
    with success when the guest's reply is [ProcessBound], and with
    [BindExpectedProcessBound] for the reply of any other command. *)
Theorem bind_round_trip `{!Rkyv Command, !Rkyv Event, !RkyvLaws Command, !RkyvLaws Event}
    (sha256 : bytes -> bytes) (sha256_len : forall b, len (sha256 b) = 32)
    (h : forall c, guest_answer c) (ep : TcpEndpoint) (a : GuestAuthentication)
    (counter : Z) (a' : GuestAuthentication)
    (Hcap : ep_capability ep = ga_capability a) (Hvm : ep_vm_id ep = ga_vm_id a)
    (Hcounter : next_counter a = (Ok counter, a'))
    (cmd : Command) (cb : bytes) (ev : Event) (eb : bytes)
    (Hcmd : Command_try_into cmd = Ok cb) (Hcb : len cb <= MAX_COMMAND_FRAME)
    (Hev : reply_event h cmd = Some ev)
    (Heb : Event_try_into ev = Ok eb) (Hel : len eb <= MAX_COMMAND_FRAME) :
  let guest := close (F:=guest_effects) h (fst (handle_connection sha256 a)) in
  let final := mk_link
    (Done (match cmd with
           | Command_ProcessBind _ _ | Command_ProcessOutputBind _ _ => Ok tt
           | _ => Err Transport_BindExpectedProcessBound
           end)) (Done (handler_result h cmd)) [] [] in
  inevitable (mk_link (close no_handler (bind sha256 ep cmd)) guest [] []) final
  /\ inevitable (mk_link (close no_handler (bind_async sha256 ep cmd)) guest [] []) final.
Proof.
  assert (match cmd with
          | Command_ProcessBind _ _ | Command_ProcessOutputBind _ _ => Ok tt
          | _ => Err Transport_BindExpectedProcessBound
          end = expect_bound ev) as ->.
  { destruct cmd; cbn in Hev; simplify_eq; try done;
      match goal with |- context [h ?c] => by destruct (h c) end. }
  split; (apply reaches_inevitable; [|apply done_stuck]).
  - eapply reaches_trans; [by eapply connect_blocking_reaches|].
    eapply request_reaches; try done; [apply _|by apply read_deadline_drive|].
    unfold decode_reply. by rewrite (event_roundtrip ev eb).
  - eapply reaches_trans; [by eapply connect_async_reaches|].
    eapply request_reaches; try done; [apply _|by apply read_deadline_drive|].
    unfold decode_reply. by rewrite (event_roundtrip ev eb).
Qed.

(** a port-binding request is never answered.  Given the authenticated
    request, the guest writes its challenge and its acceptance and nothing
    more, and returns; a host that gets exactly those bytes before the close
    fails with [FrameTruncated]. *)
Theorem port_bind_is_not_answered `{!Rkyv Command, !Rkyv Event, !RkyvLaws Command}
    (sha256 : bytes -> bytes) (sha256_len : forall b, len (sha256 b) = 32)
    (h : forall c, guest_answer c) (ep : TcpEndpoint) (a : GuestAuthentication)
    (counter : Z) (a' : GuestAuthentication)
    (Hcap : ep_capability ep = ga_capability a) (Hvm : ep_vm_id ep = ga_vm_id a)
    (Hcounter : next_counter a = (Ok counter, a'))
    (port : Z) (cb : bytes)
    (Hcmd : Command_try_into (Command_PortBind port) = Ok cb) (Hcb : len cb <= MAX_COMMAND_FRAME) :
  let challenge := frame_wire (AuthChallengeV1_wire (challenge_of sha256 a counter)) in
  let response := frame_wire (AuthResponseV1_wire
    (response_of sha256 (ga_capability a) (ga_vm_id a) (challenge_of sha256 a counter))) in
  let accepted := frame_wire (AuthAcceptedV1_wire accepted_v1) in
  drive (F:=guest_effects) h (fst (handle_connection sha256 a)) (response ++ frame_wire cb)
    = Some (Ok tt, [], challenge ++ accepted)
  /\ serve no_handler (command sha256 ep (Command_PortBind port)) (challenge ++ accepted)
    = (Err Transport_FrameTruncated, [], response ++ frame_wire cb).
Proof.
  split.
  - unfold handle_connection, authenticate_connection. rewrite Hcounter. cbn [fst].
    rewrite of_res_bind.
    eapply (pumps_drive (F:=guest_effects) h);
      [apply pumps_bind, pumps_deadline, guest_challenges, sha256_len|].
    rewrite <-(app_nil_r (frame_wire (AuthAcceptedV1_wire _))).
    eapply (pumps_drive (F:=guest_effects) h);
      [apply pumps_bind, pumps_deadline; by apply guest_accepts|].
    cbn [with_deadline]. rewrite <-(app_nil_r (frame_wire cb)).
    apply (port_bind_served h cb port); [by apply command_roundtrip|done].
  - unfold command, authenticate_blocking. rewrite <-Hcap, <-Hvm.
    eapply pumps_serve_silent; [by apply pumps_bind, drive_pumps_bind|].
    eapply pumps_serve_silent; [by apply pumps_bind, drive_pumps_bind|].
    eapply (pumps_serve no_handler); [apply pumps_bind, host_answers; try done; apply _|].
    rewrite <-(app_nil_r (frame_wire (AuthAcceptedV1_wire _))).
    eapply pumps_serve_silent; [apply pumps_bind, host_finishes; apply _|].
    eapply pumps_serve_silent; [by apply pumps_bind, drive_pumps|]. cbv beta.
    rewrite <-(app_nil_r (frame_wire cb)).
    eapply (pumps_serve no_handler).
    { eapply (drive_pumps_bind no_handler _ (send_command (Command_PortBind port)) [] tt).
      by apply (send_command_drive (Command_PortBind port) cb). }
    reflexivity.
Qed.

(** ** Worked round trips *)

Definition toy_guest_next : GuestAuthentication :=
  {| ga_vm_id := le_bytes 16 7; ga_capability := toy_cap; ga_next_connection := 1 |}.

Definition toy_peer : prog no_effects InitError unit :=
  close (F:=guest_effects) toy_answers toy_handler.

Lemma command_round_trip_witness :
  inevitable
    (mk_link (close no_handler (command (Rkyv0 := toy_command) (Rkyv1 := toy_event) toy_sha256
                                  toy_endpoint (Command_FileRead (str "/x")))) toy_peer [] [])
    (mk_link (Done (Ok (Event_FileRead (str "/x") (str "/x/x")))) (Done (Ok tt)) [] []).
Proof.
  refine (proj1 (command_round_trip (Rkyv0 := toy_command) (Rkyv1 := toy_event)
    (RkyvLaws0 := toy_command_laws) (RkyvLaws1 := toy_event_laws) toy_sha256 toy_sha256_len
    toy_answers toy_endpoint toy_guest 0 toy_guest_next eq_refl eq_refl _
    (Command_FileRead (str "/x")) (z2b 2 :: str "/x") _ (z2b 2 :: z2b 2 :: str "/x/x/x")
    eq_refl _ eq_refl _ _)); vm_compute; first [reflexivity|discriminate].
Defined.

Lemma bind_round_trip_witness :
  inevitable
    (mk_link (close no_handler (bind (Rkyv0 := toy_command) (Rkyv1 := toy_event) toy_sha256
                                  toy_endpoint (Command_ProcessBind (str "p") false))) toy_peer [] [])
    (mk_link (Done (Ok tt)) (Done (Ok tt)) [] []).
Proof.
  refine (proj1 (bind_round_trip (Rkyv0 := toy_command) (Rkyv1 := toy_event)
    (RkyvLaws0 := toy_command_laws) (RkyvLaws1 := toy_event_laws) toy_sha256 toy_sha256_len
    toy_answers toy_endpoint toy_guest 0 toy_guest_next eq_refl eq_refl _
    (Command_ProcessBind (str "p") false) (z2b 4 :: z2b 0 :: str "p") _ (z2b 4 :: str "p")
    eq_refl _ eq_refl _ _)); vm_compute; first [reflexivity|discriminate].
Defined.

Lemma port_bind_is_not_answered_witness :
  drive (F:=guest_effects) toy_answers toy_handler
    (frame_wire (AuthResponseV1_wire
       (response_of toy_sha256 toy_cap (le_bytes 16 7) (challenge_of toy_sha256 toy_guest 0)))
     ++ frame_wire [z2b 3; z2b 80])
  = Some (Ok tt, [], frame_wire (AuthChallengeV1_wire (challenge_of toy_sha256 toy_guest 0))
                     ++ frame_wire (AuthAcceptedV1_wire accepted_v1)).
Proof.
  refine (proj1 (port_bind_is_not_answered (Rkyv0 := toy_command) (Rkyv1 := toy_event)
    (RkyvLaws0 := toy_command_laws) toy_sha256 toy_sha256_len
    toy_answers toy_endpoint toy_guest 0 toy_guest_next eq_refl eq_refl _ 80
    [z2b 3; z2b 80] _ _)); vm_compute; first [reflexivity|discriminate].
Defined.
