(* ===== verification/Scheduler.v ===== *)
(** * The conditional-action scheduler

    [libs/scheduler/src/lib.rs].  A run is a transition system: one task per
    scheduled action ([run_action] behind the optional semaphore), the
    coordinator ([coordinate]) with its cancellation branch and final pass,
    and one observer blocked in [RunObserver::wait].  The trigger and action
    futures are the environment: a trigger may resolve either way, an action
    may return any result, either may panic, and a timer may fire, at any
    time. *)

From Stdlib Require Import ZArith Lia.
From stdpp Require Import base tactics option list numbers gmap fin_maps.
From S2P Require Import Prelude Bytes.

(** ** Data *)

Record ActionResult := { succeeded : bool; message : option bytes }.
Definition ActionResult_success : ActionResult := {| succeeded := true; message := None |}.
Definition ActionResult_failure (msg : bytes) : ActionResult :=
  {| succeeded := false; message := Some msg |}.

Inductive TaskState :=
  | Task_Pending
  | Task_Running
  | Task_Succeeded (r : ActionResult)
  | Task_Failed (r : ActionResult)
  | Task_TimedOut
  | Task_Cancelled.

Definition terminal (s : TaskState) : bool :=
  match s with Task_Pending | Task_Running => false | _ => true end.

Record RunSnapshot := { tasks : gmap nat TaskState; finished : bool }.

(** [Scheduler]: [grace] tells whether a post-cancel grace is configured. *)
Record Scheduler := { max_concurrent : option Z; post_cancel_grace : bool }.
Definition Scheduler_new : Scheduler := {| max_concurrent := None; post_cancel_grace := false |}.
Definition with_max_concurrent (max : Z) (s : Scheduler) : Scheduler :=
  {| max_concurrent := Some max; post_cancel_grace := post_cancel_grace s |}.
Definition with_post_cancel_grace (s : Scheduler) : Scheduler :=
  {| max_concurrent := max_concurrent s; post_cancel_grace := true |}.

(** ** State changes of the snapshot *)

Definition initial_snapshot (count : nat) : RunSnapshot :=
  {| tasks := map_seq 0 (replicate count Task_Pending); finished := false |}.

Definition set_state (s : RunSnapshot) (index : nat) (st : TaskState) : RunSnapshot :=
  {| tasks := <[index := st]> (tasks s); finished := finished s |}.

(** The coordinator's last pass. *)
Definition close_out (s : RunSnapshot) : RunSnapshot :=
  {| tasks := (fun v => if terminal v then v else Task_Cancelled) <$> tasks s; finished := true |}.

Definition RunReport_succeeded (s : RunSnapshot) : bool :=
  forallb (fun kv => match snd kv with Task_Succeeded r => succeeded r | _ => false end)
    (map_to_list (tasks s)).

(** The state an outcome is published as. *)
Definition outcome_state (r : ActionResult) : TaskState :=
  if succeeded r then Task_Succeeded r else Task_Failed r.

(** ** Tasks *)

(** Where a task is suspended.  [J_publish st] is the task about to run its
    last [set_state]; [J_done] has left the join set. *)
Inductive job_pc :=
  | J_acquire
  | J_trigger
  | J_start
  | J_act
  | J_grace
  | J_publish (st : TaskState)
  | J_done.

(** What happened to a task, for the specification. *)
Inductive job_event :=
  | Triggered (value : bool)
  | SawCancel
  | Invoked
  | Returned (r : ActionResult)
  | DeadlineElapsed
  | Dropped.

Record job := { j_deadline : bool; j_pc : job_pc; j_log : list job_event }.

Definition goto (j : job) (pc : job_pc) (log : list job_event) : job :=
  {| j_deadline := j_deadline j; j_pc := pc; j_log := j_log j ++ log |}.

(** One transition of [run_action] in state [pc], with the [set_state] it
    performs.  [aborting]: [abort_all] has been called, so the task may be
    dropped at any suspension; a panic of the trigger or the action ends the
    task the same way. *)
Inductive jstep (cancelled aborting grace : bool) (j : job) : option TaskState -> job -> Prop :=
  | j_trigger (value : bool) :
      j_pc j = J_trigger ->
      jstep cancelled aborting grace j None
        (goto j (if value then J_start else J_publish Task_Cancelled) [Triggered value])
  | j_cancelled :
      j_pc j = J_trigger -> cancelled = true ->
      jstep cancelled aborting grace j None (goto j (J_publish Task_Cancelled) [SawCancel])
  | j_start :
      j_pc j = J_start ->
      jstep cancelled aborting grace j (Some Task_Running) (goto j J_act [Invoked])
  | j_return r :
      j_pc j = J_act ->
      jstep cancelled aborting grace j None (goto j (J_publish (outcome_state r)) [Returned r])
  | j_timer :
      j_pc j = J_act -> j_deadline j = true ->
      jstep cancelled aborting grace j None
        (goto j (if grace then J_grace else J_publish Task_TimedOut) [DeadlineElapsed])
  | j_grace :
      j_pc j = J_grace ->
      jstep cancelled aborting grace j None (goto j (J_publish Task_TimedOut) [])
  | j_publish st :
      j_pc j = J_publish st ->
      jstep cancelled aborting grace j (Some st) (goto j J_done [])
  | j_aborted :
      j_pc j <> J_acquire -> j_pc j <> J_done -> aborting = true ->
      jstep cancelled aborting grace j None (goto j J_done [Dropped])
  | j_panic :
      j_pc j = J_trigger \/ j_pc j = J_act \/ j_pc j = J_grace ->
      jstep cancelled aborting grace j None (goto j J_done [Dropped]).

(** ** The run *)

(** The coordinator: in the select loop, waiting out the grace, finished. *)
Inductive coordinator := C_select | C_grace | C_done.

(** The observer in [RunObserver::wait]: about to lock and inspect, blocked
    on a registered notification, or returned with a snapshot. *)
Inductive waiter := W_inspect | W_blocked | W_returned (s : RunSnapshot).

Record run := {
  snapshot : RunSnapshot;
  to_notify : nat;           (* writes whose [notify_waiters] is still to come *)
  cancelled : bool;
  permits : option Z;
  jobs : list job;
  coord : coordinator;
  grace_started : bool;
  aborting : bool;
  observer : waiter;
}.

(** Permits are held from the acquisition to the end of the task. *)
Definition holds_permit (j : job) : bool :=
  match j_pc j with J_acquire | J_done => false | _ => true end.
Definition job_done (j : job) : bool := match j_pc j with J_done => true | _ => false end.

Definition start (s : Scheduler) (deadlines : list bool) : run :=
  {| snapshot := initial_snapshot (length deadlines); to_notify := 0; cancelled := false;
     permits := max_concurrent s;
     jobs := (fun d => {| j_deadline := d; j_pc := J_acquire; j_log := [] |}) <$> deadlines;
     coord := C_select; grace_started := false; aborting := false; observer := W_inspect |}.

Definition set_job (i : nat) (j : job) (write : option TaskState) (p : option Z) (r : run) : run :=
  {| snapshot := match write with Some st => set_state (snapshot r) i st | None => snapshot r end;
     to_notify := match write with Some _ => S (to_notify r) | None => to_notify r end;
     cancelled := cancelled r; permits := p; jobs := <[i := j]> (jobs r); coord := coord r;
     grace_started := grace_started r; aborting := aborting r; observer := observer r |}.

Definition set_coord (c : coordinator) (started abort : bool) (r : run) : run :=
  {| snapshot := snapshot r; to_notify := to_notify r; cancelled := cancelled r;
     permits := permits r; jobs := jobs r; coord := c; grace_started := started;
     aborting := abort; observer := observer r |}.

Definition complete (r : run) : run :=
  {| snapshot := close_out (snapshot r); to_notify := S (to_notify r); cancelled := cancelled r;
     permits := permits r; jobs := jobs r; coord := C_done; grace_started := grace_started r;
     aborting := aborting r; observer := observer r |}.

Definition set_observer (w : waiter) (n : nat) (r : run) : run :=
  {| snapshot := snapshot r; to_notify := n; cancelled := cancelled r; permits := permits r;
     jobs := jobs r; coord := coord r; grace_started := grace_started r; aborting := aborting r;
     observer := w |}.

(** [RunHandle::cancel]. *)
Definition cancel (r : run) : run :=
  {| snapshot := snapshot r; to_notify := to_notify r; cancelled := true; permits := permits r;
     jobs := jobs r; coord := coord r; grace_started := grace_started r; aborting := aborting r;
     observer := observer r |}.

(** [permits] after acquiring or releasing one. *)
Definition take_permit (p : option Z) : option (option Z) :=
  match p with
  | None => Some None
  | Some n => if 0 <? n then Some (Some (n - 1)) else None
  end.
Definition give_permit (j : job) (p : option Z) : option Z :=
  if job_done j then Z.succ <$> p else p.

Inductive step (grace : bool) (r : run) : run -> Prop :=
  | step_acquire i j p :
      jobs r !! i = Some j -> j_pc j = J_acquire -> take_permit (permits r) = Some p ->
      step grace r (set_job i (goto j J_trigger []) None p r)
  | step_abort_waiting i j :
      jobs r !! i = Some j -> j_pc j = J_acquire -> aborting r = true ->
      step grace r (set_job i (goto j J_done [Dropped]) None (permits r) r)
  | step_job i j write j' :
      jobs r !! i = Some j -> jstep (cancelled r) (aborting r) grace j write j' ->
      step grace r (set_job i j' write (give_permit j' (permits r)) r)
  | step_cancel_seen :
      coord r = C_select -> cancelled r = true -> grace_started r = false ->
      step grace r (set_coord (if grace then C_grace else C_select) true (negb grace) r)
  | step_grace_over :
      coord r = C_grace -> step grace r (set_coord C_select true true r)
  | step_complete :
      coord r = C_select -> forallb job_done (jobs r) = true -> step grace r (complete r)
  | step_notify n :
      to_notify r = S n ->
      step grace r (set_observer (match observer r with W_blocked => W_inspect | w => w end) n r)
  | step_inspect :
      observer r = W_inspect ->
      step grace r (set_observer (if finished (snapshot r) then W_returned (snapshot r) else W_blocked)
                      (to_notify r) r).

(** Runs of a scheduler on a plan after [k] steps, with the user cancelling
    when they like. *)
Inductive reachable (s : Scheduler) (deadlines : list bool) : nat -> run -> Prop :=
  | reach_start : reachable s deadlines 0 (start s deadlines)
  | reach_step k r r' :
      reachable s deadlines k r -> step (post_cancel_grace s) r r' -> reachable s deadlines (S k) r'
  | reach_cancel k r : reachable s deadlines k r -> reachable s deadlines k (cancel r).

(** ** Specification: what each final state means *)

Definition explains (j : job) (st : TaskState) : Prop :=
  match st with
  | Task_Succeeded r => j_log j = [Triggered true; Invoked; Returned r] /\ succeeded r = true
  | Task_Failed r => j_log j = [Triggered true; Invoked; Returned r] /\ succeeded r = false
  | Task_TimedOut => j_log j = [Triggered true; Invoked; DeadlineElapsed] /\ j_deadline j = true
  | Task_Cancelled =>
      j_log j = [Triggered false] \/ j_log j = [SawCancel] \/ last (j_log j) = Some Dropped
  | Task_Pending | Task_Running => False
  end.

(** ** Invariant *)

(** A task and its published state, [closed] after the coordinator's pass. *)
Definition job_inv (closed : bool) (j : job) (st : TaskState) : Prop :=
  match j_pc j with
  | J_acquire | J_trigger => st = Task_Pending /\ j_log j = []
  | J_start => st = Task_Pending /\ j_log j = [Triggered true]
  | J_act => st = Task_Running /\ j_log j = [Triggered true; Invoked]
  | J_grace => st = Task_Running /\ j_log j = [Triggered true; Invoked; DeadlineElapsed]
               /\ j_deadline j = true
  | J_publish st' => terminal st = false /\ explains j st'
  | J_done => explains j st \/ (closed = false /\ terminal st = false /\ last (j_log j) = Some Dropped)
  end.

Definition permits_inv (s : Scheduler) (r : run) : Prop :=
  match max_concurrent s, permits r with
  | None, None => True
  | Some m, Some p => p + len (List.filter holds_permit (jobs r)) = m
                      /\ (0 <= m -> 0 <= p)
  | _, _ => False
  end.

Record run_inv (s : Scheduler) (n : nat) (r : run) : Prop := {
  inv_length : length (jobs r) = n;
  inv_jobs i j : jobs r !! i = Some j ->
    exists st, tasks (snapshot r) !! i = Some st /\ job_inv (finished (snapshot r)) j st;
  inv_dom i st : tasks (snapshot r) !! i = Some st -> is_Some (jobs r !! i);
  inv_permits : permits_inv s r;
  inv_coord : match coord r with
              | C_select => aborting r = grace_started r /\ (grace_started r = true -> cancelled r = true)
              | C_grace => grace_started r = true /\ cancelled r = true /\ aborting r = false
              | C_done => forallb job_done (jobs r) = true
              end;
  inv_finished : finished (snapshot r) = match coord r with C_done => true | _ => false end;
  inv_observer : match observer r with
                 | W_inspect => True
                 | W_blocked => finished (snapshot r) = true -> to_notify r <> O
                 | W_returned sn => sn = snapshot r /\ finished sn = true
                 end;
}.

Lemma explains_terminal j st : explains j st -> terminal st = true.
Proof. by destruct st. Qed.

Lemma goto_pc j pc log : j_pc (goto j pc log) = pc.
Proof. done. Qed.

(** A task's transition keeps its relation to its published state. *)
Lemma jstep_inv c a g j w j' st :
  jstep c a g j w j' -> job_inv false j st -> job_inv false j' (default st w).
Proof.
  unfold job_inv. destruct 1 as [value E|E _|E|r E|E Hd|E|st' E|E1 E2 _|E]; cbn.
  - rewrite E. intros [-> Hl]. destruct value; cbn; rewrite Hl; auto.
  - rewrite E. intros [-> Hl]. cbn. rewrite Hl. auto.
  - rewrite E. intros [-> Hl]. by rewrite Hl.
  - rewrite E. intros [-> Hl]. split; [done|]. unfold outcome_state.
    destruct (succeeded r) eqn:Hr; cbn; by rewrite Hl.
  - rewrite E. intros [-> Hl]. destruct g; cbn; by rewrite Hl.
  - rewrite E. intros (-> & Hl & Hd). cbn. by rewrite app_nil_r.
  - rewrite E. intros (_ & He). left. unfold explains in *. cbn. by rewrite app_nil_r.
  - intros Hj. right. rewrite last_snoc. split_and!; try done.
    destruct (j_pc j); try done; by destruct Hj as [-> _] || by destruct Hj.
  - intros Hj. right. rewrite last_snoc. split_and!; try done.
    by destruct E as [E|[E|E]]; rewrite E in Hj; destruct Hj as [-> _].
Qed.

(** A task that has published its final state does nothing more. *)
Lemma jstep_not_done c a g j w j' : jstep c a g j w j' -> j_pc j <> J_done /\ j_pc j <> J_acquire.
Proof. destruct 1; try (by rewrite H); [done|]. by destruct H as [->|[->| ->]]. Qed.

Lemma forallb_done_lookup (js : list job) i j :
  forallb job_done js = true -> js !! i = Some j -> j_pc j = J_done.
Proof.
  intros H Hi. rewrite forallb_forall in H.
  apply list_elem_of_lookup_2, list_elem_of_In, H in Hi. unfold job_done in Hi. by destruct (j_pc j).
Qed.

(** Counting permit holders under an update. *)
Lemma count_insert (js : list job) i j j' :
  js !! i = Some j ->
  len (List.filter holds_permit (<[i := j']> js)) + Z.b2z (holds_permit j)
  = len (List.filter holds_permit js) + Z.b2z (holds_permit j').
Proof.
  revert i. induction js as [|x js IH]; intros [|i] H; simpl in *; try done.
  - simplify_eq. destruct (holds_permit j), (holds_permit j'); autorewrite with jyth; unfold Z.b2z; lia.
  - specialize (IH i H). destruct (holds_permit x); autorewrite with jyth; lia.
Qed.

Lemma run_inv_set_job s n r i j j' w p :
  run_inv s n r -> jobs r !! i = Some j -> j_pc j <> J_done ->
  (forall st, job_inv false j st -> job_inv false j' (default st w)) ->
  permits_inv s (set_job i j' w p r) ->
  run_inv s n (set_job i j' w p r).
Proof.
  intros [Hlen Hjobs Hdom _ Hcoord Hfin Hobs] Hi Hpc Hstep Hp.
  assert (coord r <> C_done) as Hc.
  { intros E. rewrite E in Hcoord. by apply Hpc, (forallb_done_lookup (jobs r) i). }
  assert (finished (snapshot r) = false) as Hf by (rewrite Hfin; by destruct (coord r)).
  assert (finished (snapshot (set_job i j' w p r)) = false) as Hf' by (by destruct w).
  split; try done.
  - cbn. by rewrite length_insert.
  - intros k jk Hk. rewrite Hf'. cbn in Hk.
    destruct (decide (k = i)) as [->|Hne].
    + rewrite list_lookup_insert_eq in Hk by (by eapply lookup_lt_Some). injection Hk as <-.
      destruct (Hjobs i j Hi) as (st & Hst & Hinv). rewrite Hf in Hinv. apply Hstep in Hinv.
      exists (default st w). split; [|done]. destruct w; cbn; [by rewrite lookup_insert_eq|done].
    + rewrite list_lookup_insert_ne in Hk by done.
      destruct (Hjobs k jk Hk) as (st & Hst & Hinv). rewrite Hf in Hinv. exists st. split; [|done].
      destruct w; cbn; [by rewrite lookup_insert_ne|done].
  - intros k st Hk. cbn. rewrite list_lookup_insert_is_Some.
    destruct w; cbn in Hk; [|by apply Hdom in Hk].
    destruct (decide (k = i)) as [->|Hne]; [by eexists|].
    rewrite lookup_insert_ne in Hk by done. by apply Hdom in Hk.
  - cbn. by destruct (coord r).
  - rewrite Hf'. cbn. by destruct (coord r).
  - rewrite Hf'. cbn. destruct (observer r) as [| |sn]; [done|done|].
    destruct Hobs as [-> Ho]. by rewrite Hf in Ho.
Qed.

Lemma permits_acquire s r i j p :
  permits_inv s r -> jobs r !! i = Some j -> j_pc j = J_acquire -> take_permit (permits r) = Some p ->
  permits_inv s (set_job i (goto j J_trigger []) None p r).
Proof.
  unfold permits_inv, take_permit. cbn [set_job permits jobs]. intros Hp Hi Hpc Ht.
  pose proof (count_insert _ _ _ (goto j J_trigger []) Hi) as Hc.
  assert (holds_permit j = false) as Hj by (unfold holds_permit; by rewrite Hpc).
  rewrite Hj in Hc. cbn in Hc.
  destruct (max_concurrent s), (permits r) as [q|]; try done; [|by injection Ht as <-].
  destruct (Z.ltb_spec 0 q); [|done]. injection Ht as <-. lia.
Qed.

Lemma permits_job s r i j w j' c a g :
  permits_inv s r -> jobs r !! i = Some j -> jstep c a g j w j' ->
  permits_inv s (set_job i j' w (give_permit j' (permits r)) r).
Proof.
  unfold permits_inv, give_permit. cbn [set_job permits jobs]. intros Hp Hi Hs.
  pose proof (count_insert _ _ _ j' Hi) as Hc.
  destruct (jstep_not_done _ _ _ _ _ _ Hs) as [H1 H2].
  assert (holds_permit j = true) as Hj by (unfold holds_permit; by destruct (j_pc j)).
  assert (holds_permit j' = negb (job_done j')) as Hj'.
  { unfold holds_permit, job_done. destruct Hs; cbn; try done; [by destruct value|by destruct g]. }
  rewrite Hj, Hj' in Hc. clear Hs.
  destruct (max_concurrent s), (permits r) as [q|]; try done;
    destruct (job_done j'); cbn in *; try done; lia.
Qed.

Lemma permits_abort s r i j :
  permits_inv s r -> jobs r !! i = Some j -> j_pc j = J_acquire ->
  permits_inv s (set_job i (goto j J_done [Dropped]) None (permits r) r).
Proof.
  unfold permits_inv. cbn [set_job permits jobs]. intros Hp Hi Hpc.
  pose proof (count_insert _ _ _ (goto j J_done [Dropped]) Hi) as Hc.
  assert (holds_permit j = false) as Hj by (unfold holds_permit; by rewrite Hpc).
  rewrite Hj in Hc. cbn in Hc. destruct (max_concurrent s), (permits r); try done. lia.
Qed.

(** The coordinator's pass on a run whose tasks are all done. *)
Lemma run_inv_complete s n r :
  run_inv s n r -> coord r = C_select -> forallb job_done (jobs r) = true -> run_inv s n (complete r).
Proof.
  intros [Hlen Hjobs Hdom Hp Hcoord Hfin Hobs] Hc Hd. rewrite Hc in Hfin. split; try done.
  - intros i j Hi. destruct (Hjobs i j Hi) as (st & Hst & Hinv). cbn. rewrite lookup_fmap, Hst.
    eexists. split; [done|]. unfold job_inv in *. rewrite (forallb_done_lookup _ _ _ Hd Hi) in *.
    left. destruct Hinv as [Hinv|(_ & Ht & Hl)].
    + by rewrite (explains_terminal _ _ Hinv).
    + rewrite Ht. cbn. auto.
  - intros i st. cbn. rewrite lookup_fmap. intros (st' & Hst & _)%fmap_Some. by eapply Hdom.
  - cbn. destruct (observer r) as [| |sn]; [done|done|].
    destruct Hobs as [-> Ho]. by rewrite Hfin in Ho.
Qed.

Lemma run_inv_step s n r r' : run_inv s n r -> step (post_cancel_grace s) r r' -> run_inv s n r'.
Proof.
  intros Hinv Hs. pose proof Hinv as [Hlen Hjobs Hdom Hp Hcoord Hfin Hobs].
  destruct Hs as [i j p Hi Hpc Ht|i j Hi Hpc Ha|i j w j' Hi Hj|Hc Hk Hg|Hc|Hc Hd|m Hn|Ho].
  - apply (run_inv_set_job s n r i j); try done; [by rewrite Hpc| |by apply permits_acquire].
    intros st. unfold job_inv. rewrite Hpc. cbn. intros [-> Hl]. by rewrite app_nil_r.
  - apply (run_inv_set_job s n r i j); try done; [by rewrite Hpc| |by apply permits_abort].
    intros st. unfold job_inv. rewrite Hpc. cbn. intros [-> Hl]. right. by rewrite last_snoc.
  - apply (run_inv_set_job s n r i j); try done.
    + by apply (jstep_not_done _ _ _ _ _ _ Hj).
    + intros st. by eapply jstep_inv.
    + by eapply permits_job.
  - rewrite Hc, Hg in Hcoord. destruct Hcoord as [Ha _].
    split; try done; cbn; destruct (post_cancel_grace s); try done; by rewrite Hfin, Hc.
  - rewrite Hc in Hcoord. destruct Hcoord as (Hg & Hk & Ha). split; try done; cbn; by rewrite ?Hfin, ?Hc.
  - by apply run_inv_complete.
  - split; try done. cbn. destruct (observer r) as [| |sn]; [done|done|]. destruct Hobs as [-> Ho]. by split.
  - split; try done. cbn. destruct (finished (snapshot r)) eqn:Hf; [by split|done].
Qed.

Lemma run_inv_reachable s deadlines k r :
  reachable s deadlines k r -> run_inv s (length deadlines) r.
Proof.
  induction 1 as [|k r r' _ IH Hs|k r _ IH].
  - split; cbn; try done.
    + by rewrite length_fmap.
    + intros i j. rewrite list_lookup_fmap. intros (d & Hd & ->)%fmap_Some.
      exists Task_Pending. split; [|done].
      rewrite lookup_map_seq_0. apply lookup_replicate. split; [done|by eapply lookup_lt_Some].
    + intros i st. rewrite lookup_map_seq_0. intros [_ Hi]%lookup_replicate.
      apply lookup_lt_is_Some_2. by rewrite length_fmap.
    + unfold permits_inv. cbn. destruct (max_concurrent s); [|done].
      assert (List.filter holds_permit ((fun d => {| j_deadline := d; j_pc := J_acquire; j_log := [] |})
        <$> deadlines) = []) as ->; [|rewrite len_nil; lia]. by induction deadlines.
  - by eapply run_inv_step.
  - destruct IH as [? ? ? ? Hcoord ? ?]. split; try done. cbn. destruct (coord r); [|..|done].
    + by destruct Hcoord.
    + by destruct Hcoord as (? & ? & ?).
Qed.

(** ** Termination *)

Definition pc_rank (pc : job_pc) : nat :=
  match pc with
  | J_acquire => 6 | J_trigger => 5 | J_start => 4 | J_act => 3 | J_grace => 2
  | J_publish _ => 1 | J_done => 0
  end.
Definition coord_rank (r : run) : nat :=
  match coord r with
  | C_done => 0
  | C_select => if grace_started r then 4 else 6
  | C_grace => 5
  end.
Definition observer_rank (w : waiter) : nat := match w with W_inspect => 1 | _ => 0 end.

Definition measure (r : run) : nat :=
  4 * sum_list_with (fun j => pc_rank (j_pc j)) (jobs r) + coord_rank r + 2 * to_notify r
  + observer_rank (observer r).

Lemma sum_list_with_insert {A} (f : A -> nat) l i x y :
  l !! i = Some x -> (sum_list_with f (<[i := y]> l) + f x = sum_list_with f l + f y)%nat.
Proof.
  revert i. induction l as [|z l IH]; intros [|i] H; simpl in *; try done; simplify_eq; [lia|].
  specialize (IH i H). lia.
Qed.

Lemma jstep_rank c a g j w j' : jstep c a g j w j' -> (pc_rank (j_pc j') < pc_rank (j_pc j))%nat.
Proof.
  destruct 1 as [value E|E _|E|r E|E Hd|E|st' E|E1 E2 _|E]; rewrite ?goto_pc.
  - rewrite E. destruct value; cbn; lia.
  - rewrite E. cbn; lia.
  - rewrite E. cbn; lia.
  - rewrite E. cbn; lia.
  - rewrite E. destruct g; cbn; lia.
  - rewrite E. cbn; lia.
  - rewrite E. cbn; lia.
  - destruct (j_pc j); cbn; (done || lia).
  - destruct E as [->|[->| ->]]; cbn; lia.
Qed.

Lemma measure_set_job r i j j' w p :
  jobs r !! i = Some j -> (pc_rank (j_pc j') < pc_rank (j_pc j))%nat ->
  (measure (set_job i j' w p r) < measure r)%nat.
Proof.
  intros Hi Hr. pose proof (sum_list_with_insert (fun j => pc_rank (j_pc j)) _ _ _ j' Hi) as Hs.
  unfold measure, coord_rank. cbn [set_job jobs coord grace_started to_notify observer] in *.
  destruct w; lia.
Qed.

(** Every step uses up some of the measure. *)
Lemma step_measure g r r' : step g r r' -> (measure r' < measure r)%nat.
Proof.
  destruct 1 as [i j p Hi Hpc Ht|i j Hi Hpc Ha|i j w j' Hi Hj|Hc Hk Hg|Hc|Hc Hd|m Hn|Ho].
  - apply (measure_set_job r i j); [done|]. rewrite Hpc. cbn. lia.
  - apply (measure_set_job r i j); [done|]. rewrite Hpc. cbn. lia.
  - apply (measure_set_job r i j); [done|]. by eapply jstep_rank.
  - unfold measure, coord_rank. cbn. rewrite Hc, Hg. destruct g; lia.
  - unfold measure, coord_rank. cbn. rewrite Hc. lia.
  - unfold measure, coord_rank. cbn. rewrite Hc. destruct (grace_started r); lia.
  - unfold measure, coord_rank. cbn. rewrite Hn. destruct (observer r); cbn; lia.
  - unfold measure, coord_rank. cbn. rewrite Ho. destruct (finished (snapshot r)); cbn; lia.
Qed.

Lemma reachable_measure s deadlines k r :
  reachable s deadlines k r -> (k + measure r <= 24 * length deadlines + 7)%nat.
Proof.
  induction 1 as [|k r r' _ IH Hs|k r _ IH].
  - unfold measure, coord_rank. cbn [start jobs coord grace_started to_notify observer observer_rank].
    assert (sum_list_with (fun j => pc_rank (j_pc j))
      ((fun d => {| j_deadline := d; j_pc := J_acquire; j_log := [] |}) <$> deadlines)
      = 6 * length deadlines)%nat as ->; [|lia].
    induction deadlines as [|d ds IH]; [done|]. cbn in *. lia.
  - apply step_measure in Hs. lia.
  - done.
Qed.

(** A task that is not waiting for a permit and not done can move. *)
Lemma jstep_progress c a g j :
  j_pc j <> J_acquire -> j_pc j <> J_done -> exists w j', jstep c a g j w j'.
Proof.
  intros H1 H2. destruct (j_pc j) as [| | | | |st|] eqn:E; try done.
  - eexists _, _. by apply (j_trigger _ _ _ _ true).
  - eexists _, _. by apply j_start.
  - eexists _, _. by apply (j_return _ _ _ _ ActionResult_success).
  - eexists _, _. by apply j_grace.
  - eexists _, _. by apply (j_publish _ _ _ _ st).
Qed.

(** Where the coordinator waits, the run can move, unless the semaphore was
    created without permits and nobody cancels. *)
Lemma select_progress s n r :
  run_inv s n r -> coord r = C_select ->
  (exists r', step (post_cancel_grace s) r r')
  \/ (exists m, max_concurrent s = Some m /\ m <= 0) /\ cancelled r = false.
Proof.
  intros [_ _ _ Hp Hcoord _ _] Hc. rewrite Hc in Hcoord. destruct Hcoord as [Ha Hg].
  destruct (forallb job_done (jobs r)) eqn:Hd; [left; eexists; by apply step_complete|].
  destruct (decide (Exists (fun j => holds_permit j = true) (jobs r))) as [He|He].
  { left. apply Exists_exists in He as (j & [i Hi]%list_elem_of_lookup_1 & Hh).
    destruct (jstep_progress (cancelled r) (aborting r) (post_cancel_grace s) j) as (w & j' & Hs);
      [by unfold holds_permit in Hh; destruct (j_pc j)..|].
    eexists. by eapply step_job. }
  assert (List.filter holds_permit (jobs r) = []) as Hnone.
  { apply not_Exists_Forall in He; [|intros ?; apply _]. clear -He.
    induction He as [|j js Hj _ IH]; cbn; [done|]. apply not_true_is_false in Hj. by rewrite Hj. }
  assert (exists i j, jobs r !! i = Some j /\ j_pc j = J_acquire) as (i & j & Hi & Hj).
  { apply not_true_iff_false in Hd. rewrite forallb_forall in Hd.
    destruct (decide (Exists (fun j => job_done j = false) (jobs r))) as [Hx|Hx].
    - apply Exists_exists in Hx as (j & Hin & Hj). pose proof Hin as [i Hi]%list_elem_of_lookup_1.
      exists i, j. split; [done|]. apply not_Exists_Forall in He; [|intros ?; apply _].
      rewrite Forall_forall in He. specialize (He j Hin). cbn in He. unfold job_done, holds_permit in *.
      destruct (j_pc j); (done || by destruct He).
    - exfalso. apply Hd. intros j Hj%list_elem_of_In. apply not_false_is_true. intros E. apply Hx, Exists_exists. eauto. }
  destruct (take_permit (permits r)) as [p|] eqn:Ht; [left; eexists; by eapply step_acquire|].
  destruct (aborting r) eqn:Hab; [left; eexists; by eapply step_abort_waiting|].
  destruct (cancelled r) eqn:Hk; [left; eexists; apply step_cancel_seen; [done|done|by rewrite <-Ha]|].
  right. split; [|done]. unfold permits_inv, take_permit in *. rewrite Hnone, len_nil in Hp.
  destruct (max_concurrent s) as [m|], (permits r) as [q|]; try done.
  destruct (Z.ltb_spec 0 q); [done|]. exists m. split; [done|lia].
Qed.

(** ** Theorems *)


(** Final states are final and mean what they say.  In any reachable state
    the snapshot holds exactly one state per action; a terminal state is
    explained by what happened to that action: [Succeeded r] and [Failed r]
    only for an action whose trigger resolved [true], which was invoked and
    returned [r]; [TimedOut] only after its configured deadline; [Cancelled]
    only when the trigger resolved [false], the task saw the cancellation, or
    it was dropped.  No later step changes it, and once the run is finished
    every state is terminal. *)
Theorem task_states_explained (s : Scheduler) (deadlines : list bool) (k : nat) (r : run)
    (H : reachable s deadlines k r) :
  (forall i, is_Some (tasks (snapshot r) !! i) <-> (i < length deadlines)%nat)
  /\ (forall i st, tasks (snapshot r) !! i = Some st -> terminal st = true ->
        (exists j, jobs r !! i = Some j /\ explains j st)
        /\ forall r', step (post_cancel_grace s) r r' -> tasks (snapshot r') !! i = Some st)
  /\ (finished (snapshot r) = true ->
        forall i st, tasks (snapshot r) !! i = Some st -> terminal st = true).
Proof.
  apply run_inv_reachable in H as Hinv. pose proof Hinv as [Hlen Hjobs Hdom _ Hcoord Hfin _].
  split_and!.
  - intros i. rewrite <-Hlen. split.
    + intros [st Hst]. apply Hdom in Hst as [j Hj]. by eapply lookup_lt_Some.
    + intros [j Hj]%lookup_lt_is_Some. destruct (Hjobs i j Hj) as (st & Hst & _). eauto.
  - intros i st Hst Ht. destruct (Hdom i st Hst) as [j Hj].
    destruct (Hjobs i j Hj) as (st' & Hst' & Hji). rewrite Hst in Hst'. injection Hst' as <-.
    unfold job_inv in Hji.
    assert (explains j st /\ j_pc j = J_done) as [He Hpc].
    { destruct (j_pc j); (by destruct Hji as [-> _]) || (destruct Hji; naive_solver congruence). }
    split; [by exists j|]. intros r' Hs.
    destruct Hs as [i' j' p Hi Hpc' _|i' j' Hi Hpc' _|i' j' w j'' Hi Hj'| | |Hc Hd| | ]; try done.
    + destruct w as [st'|]; [|done]. cbn. rewrite lookup_insert_ne; [done|]. intros ->.
      rewrite Hj in Hi. injection Hi as <-. by apply jstep_not_done in Hj' as [].
    + cbn. by rewrite lookup_fmap, Hst, fmap_Some_2 with (x := st), Ht.
  - intros Hf i st Hst. destruct (Hdom i st Hst) as [j Hj].
    destruct (Hjobs i j Hj) as (st' & Hst' & Hji). rewrite Hst in Hst'. injection Hst' as <-.
    rewrite Hf in *. destruct (coord r); try done.
    unfold job_inv in Hji. rewrite (forallb_done_lookup _ _ _ Hcoord Hj) in Hji.
    destruct Hji as [He|[? _]]; [by eapply explains_terminal|done].
Qed.

(** the concurrency limit holds: at no point do more than [max_concurrent]
    actions hold a permit, that is, wait for their trigger, run or publish. *)
Theorem concurrency_bounded (max : Z) (grace : bool) (deadlines : list bool) (k : nat) (r : run)
    (Hmax : 0 <= max)
    (H : reachable {| max_concurrent := Some max; post_cancel_grace := grace |} deadlines k r) :
  len (List.filter holds_permit (jobs r)) <= max.
Proof.
  apply run_inv_reachable in H as [_ _ _ Hp _ _ _]. unfold permits_inv in Hp. cbn in Hp.
  destruct (permits r) as [p|]; [|done]. lia.
Qed.

(** a report of success is earned.  When a finished run reports success,
    every action's trigger resolved [true], the action was invoked and
    returned a successful result. *)
Theorem report_success_earned (s : Scheduler) (deadlines : list bool) (k : nat) (r : run)
    (H : reachable s deadlines k r) (Hs : RunReport_succeeded (snapshot r) = true) :
  forall i, (i < length deadlines)%nat ->
  exists j res, jobs r !! i = Some j /\ j_log j = [Triggered true; Invoked; Returned res]
                /\ succeeded res = true.
Proof.
  intros i Hi. apply run_inv_reachable in H as [Hlen Hjobs _ _ _ _ _]. rewrite <-Hlen in Hi.
  apply lookup_lt_is_Some in Hi as [j Hj]. destruct (Hjobs i j Hj) as (st & Hst & Hji).
  unfold RunReport_succeeded in Hs. rewrite forallb_forall in Hs.
  apply elem_of_map_to_list, list_elem_of_In, Hs in Hst. cbn in Hst.
  destruct st as [| |res| | |]; try done. exists j, res. unfold job_inv in Hji.
  destruct (j_pc j); try (by destruct Hji). destruct Hji as [[He _]|(_ & ? & _)]; done.
Qed.

(** ** A worked run: one action, one permit *)

Definition demo_scheduler : Scheduler := with_max_concurrent 1 Scheduler_new.
Definition demo_job (n : nat) : job :=
  {| j_deadline := false;
     j_pc := nth n [J_acquire; J_trigger; J_start; J_act; J_publish (Task_Succeeded ActionResult_success)]
               J_done;
     j_log := take (n - 1) [Triggered true; Invoked; Returned ActionResult_success] |}.

Definition demo_at (n : nat) : run :=
  nth n [start demo_scheduler [false];
         set_job 0 (demo_job 1) None (Some 0) (start demo_scheduler [false])]
    (set_job 0 (demo_job 2) None (Some 0)
       (set_job 0 (demo_job 1) None (Some 0) (start demo_scheduler [false]))).
Definition demo_running : run := set_job 0 (demo_job 3) (Some Task_Running) (Some 0) (demo_at 2).
Definition demo_returned : run := set_job 0 (demo_job 4) None (Some 0) demo_running.
Definition demo_published : run :=
  set_job 0 (demo_job 5) (Some (Task_Succeeded ActionResult_success)) (Some 1) demo_returned.
Definition demo_final : run :=
  set_observer (W_returned (snapshot (complete demo_published))) 3 (complete demo_published).

Lemma demo_running_reachable : reachable demo_scheduler [false] 3 demo_running.
Proof.
  apply (reach_step _ _ _ (demo_at 2)); [apply (reach_step _ _ _ (demo_at 1));
    [apply (reach_step _ _ _ (demo_at 0)); [apply reach_start|]|]|].
  - exact (step_acquire false (demo_at 0) 0 (demo_job 0) (Some 0) eq_refl eq_refl eq_refl).
  - exact (step_job false (demo_at 1) 0 (demo_job 1) None (demo_job 2) eq_refl
             (j_trigger _ _ _ (demo_job 1) true eq_refl)).
  - exact (step_job false (demo_at 2) 0 (demo_job 2) (Some Task_Running) (demo_job 3) eq_refl
             (j_start _ _ _ (demo_job 2) eq_refl)).
Qed.

Lemma demo_final_reachable : reachable demo_scheduler [false] 7 demo_final.
Proof.
  apply (reach_step _ _ _ (complete demo_published)); [apply (reach_step _ _ _ demo_published);
    [apply (reach_step _ _ _ demo_returned); [apply (reach_step _ _ _ demo_running);
      [apply demo_running_reachable|]|]|]|].
  - exact (step_job false demo_running 0 (demo_job 3) None (demo_job 4) eq_refl
             (j_return _ _ _ (demo_job 3) ActionResult_success eq_refl)).
  - exact (step_job false demo_returned 0 (demo_job 4) (Some (Task_Succeeded ActionResult_success))
             (demo_job 5) eq_refl (j_publish _ _ _ (demo_job 4) _ eq_refl)).
  - exact (step_complete false demo_published eq_refl eq_refl).
  - exact (step_inspect false (complete demo_published) eq_refl).
Qed.


Lemma task_states_explained_witness :
  exists j, jobs demo_final !! 0%nat = Some j /\ explains j (Task_Succeeded ActionResult_success).
Proof.
  apply (proj1 (proj1 (proj2 (task_states_explained demo_scheduler [false] 7 demo_final
    demo_final_reachable)) 0%nat (Task_Succeeded ActionResult_success) eq_refl eq_refl)).
Defined.

Lemma concurrency_bounded_witness : len (List.filter holds_permit (jobs demo_running)) <= 1.
Proof.
  apply (concurrency_bounded 1 false [false] 3 demo_running).
  - lia.
  - exact demo_running_reachable.
Defined.

Lemma report_success_earned_witness :
  exists j res, jobs demo_final !! 0%nat = Some j
    /\ j_log j = [Triggered true; Invoked; Returned res] /\ succeeded res = true.
Proof.
  refine (report_success_earned demo_scheduler [false] 7 demo_final demo_final_reachable _ 0%nat _).
  - vm_compute. reflexivity.
  - cbn. lia.
Defined.
