(* ===== verification/Oci.v ===== *)
(** * OCI image references

    [libs/image-core/src/oci_reference.rs]: the reference grammar, the
    canonical form that carries equality and hashing, and the registry URLs. *)

From Stdlib Require Import ZArith Lia Ascii.
From stdpp Require Import base tactics option list numbers strings.
From S2P Require Import Prelude Bytes Text.

Inductive OciReferenceError :=
  | Oci_Empty
  | Oci_HasUrlScheme
  | Oci_InvalidReference
  | Oci_InvalidDigest
  | Oci_UnsupportedDigestAlgorithm
  | Oci_InvalidDigestHex
  | Oci_InvalidTag
  | Oci_EmptyRepositoryComponent
  | Oci_InvalidRepositoryComponent
  | Oci_InvalidManifestUrl.

Record OciReference := {
  oci_host : bytes;
  oci_repository : bytes;
  oci_tag : option bytes;
  oci_digest : option bytes;
  oci_scheme : bytes;
  oci_canonical : bytes;
}.

Definition DEFAULT_HOST : bytes := str "registry-1.docker.io".
Definition MAX_COMPONENT_LEN : Z := 255.
Definition MAX_TAG_LEN : Z := 128.

(** The ASCII separators. *)
Definition c_slash : byte := chr "/".
Definition c_colon : byte := chr ":".
Definition c_at : byte := chr "@".
Definition c_dot : byte := chr ".".
Definition c_dash : byte := chr "-".
Definition c_underscore : byte := chr "_".

(** [value.split_once("://")]. *)
Fixpoint split_once_str (p s : bytes) : option (bytes * bytes) :=
  match strip_prefix p s with
  | Some rest => Some ([], rest)
  | None =>
    match s with
    | [] => None
    | b :: s => match split_once_str p s with Some (l, r) => Some (b :: l, r) | None => None end
    end
  end.

(** [s.rfind(c)]. *)
Definition rfind (c : byte) (s : bytes) : option Z :=
  match rsplit_once c s with Some (l, _) => Some (len l) | None => None end.

Definition looks_like_host (first : bytes) : bool :=
  contains_byte c_dot first || contains_byte c_colon first
  || bool_decide (first = str "localhost")
  || (starts_with (str "[") first && contains_byte (chr "]") first).

Definition validate_digest (digest : bytes) : res OciReferenceError unit :=
  match split_once c_colon digest with
  | None => Err Oci_InvalidDigest
  | Some (algorithm, hex) =>
    expected_len ← (if bool_decide (algorithm = str "sha256") then Ok 64
                    else if bool_decide (algorithm = str "sha512") then Ok 128
                    else Err Oci_UnsupportedDigestAlgorithm);
    fail_if (negb (len hex =? expected_len) || negb (forallb is_ascii_hexdigit hex))
      Oci_InvalidDigestHex
  end.

Definition validate_tag (tag : bytes) : res OciReferenceError unit :=
  _ ← fail_if (is_empty tag || (MAX_TAG_LEN <? len tag)) Oci_InvalidTag;
  match tag with
  | [] => Panic
  | first :: chars =>
    _ ← fail_if (negb (is_ascii_alphanumeric first || is_byte c_underscore first)) Oci_InvalidTag;
    fail_if (existsb (fun c => negb (is_ascii_alphanumeric c || is_byte c_underscore c
                                     || is_byte c_dot c || is_byte c_dash c)) chars)
      Oci_InvalidTag
  end.

(** [while index < bytes.len() && p(bytes[index]) { index += 1 }]. *)
Fixpoint skip_while (p : byte -> bool) (s : bytes) : bytes :=
  match s with
  | b :: s' => if p b then skip_while p s' else s
  | [] => []
  end.
Definition is_lower_or_digit (b : byte) : bool := is_ascii_lowercase b || is_ascii_digit b.

(** The separator at the front of [s]. *)
Definition skip_separator (b : byte) (s : bytes) : res OciReferenceError bytes :=
  if decide (b = c_dot) then Ok s
  else if decide (b = c_underscore) then
    Ok (match s with b' :: s' => if decide (b' = c_underscore) then s' else s | [] => [] end)
  else if decide (b = c_dash) then Ok (skip_while (is_byte c_dash) s)
  else Err Oci_InvalidRepositoryComponent.

(** The [((\.|_|__|-+)[a-z0-9]+)*] loop; each turn consumes at least one byte,
    so the component's length is enough fuel. *)
Fixpoint component_loop (fuel : nat) (s : bytes) : res OciReferenceError unit :=
  match s, fuel with
  | [], _ => Ok tt
  | _ :: _, O => Panic
  | b :: s, S fuel =>
    segment ← skip_separator b s;
    let rest := skip_while is_lower_or_digit segment in
    _ ← fail_if (len rest =? len segment) Oci_InvalidRepositoryComponent;
    component_loop fuel rest
  end.

Definition validate_component (component : bytes) : res OciReferenceError unit :=
  let rest := skip_while is_lower_or_digit component in
  _ ← fail_if (len rest =? len component) Oci_InvalidRepositoryComponent;
  component_loop (length rest) rest.

Definition validate_repository (repository : bytes) : res OciReferenceError unit :=
  _ ← fail_if (is_empty repository) Oci_EmptyRepositoryComponent;
  for_each (fun _ component =>
    _ ← fail_if (is_empty component) Oci_EmptyRepositoryComponent;
    _ ← fail_if (MAX_COMPONENT_LEN <? len component) Oci_InvalidRepositoryComponent;
    validate_component component) (split_on c_slash repository) tt.

Definition build_canonical (host repository : bytes) (tag digest : option bytes) : bytes :=
  host ++ [c_slash] ++ repository
  ++ match tag with Some tag => [c_colon] ++ tag | None => [] end
  ++ match digest with Some digest => [c_at] ++ digest | None => [] end.

(** The stages of [parse]. *)
Definition split_scheme (value : bytes) : res OciReferenceError (option bytes * bytes) :=
  match split_once_str (str "://") value with
  | Some (scheme, rest) =>
    if bool_decide (scheme = str "http") || bool_decide (scheme = str "https")
    then if is_empty rest then Err Oci_InvalidReference else Ok (Some scheme, rest)
    else Err Oci_HasUrlScheme
  | None => Ok (None, value)
  end.

Definition split_digest (reference : bytes) : res OciReferenceError (bytes * option bytes) :=
  match split_once c_at reference with
  | Some (name, digest) =>
    if negb (is_empty name) && negb (is_empty digest)
    then _ ← validate_digest digest; Ok (name, Some digest)
    else Err Oci_InvalidDigest
  | None => Ok (reference, None)
  end.

Definition split_tag (name : bytes) : res OciReferenceError (bytes * option bytes) :=
  let last_slash := rfind c_slash name in
  let tag_separator :=
    match rfind c_colon name with
    | Some index =>
      if match last_slash with Some slash => slash <? index | None => true end
      then Some index else None
    | None => None
    end in
  match tag_separator with
  | Some index =>
    let repository := take (Z.to_nat index) name in
    let tag := drop (Z.to_nat (index + 1)) name in
    _ ← fail_if (is_empty repository || is_empty tag) Oci_InvalidTag;
    Ok (repository, Some tag)
  | None => Ok (name, None)
  end.

Definition split_host (repository : bytes) : bytes * bytes :=
  match split_once c_slash repository with
  | None => (DEFAULT_HOST, repository)
  | Some (first, rest) =>
    if looks_like_host first then (first, rest) else (DEFAULT_HOST, repository)
  end.

Definition library_prefix (host repository : bytes) : bytes :=
  if bool_decide (host = DEFAULT_HOST) && negb (contains_byte c_slash repository)
  then str "library/" ++ repository else repository.

Definition OciReference_parse (value : bytes) : res OciReferenceError OciReference :=
  _ ← fail_if (is_empty value) Oci_Empty;
  '(scheme, reference) ← split_scheme value;
  '(name, digest) ← split_digest reference;
  '(repository, tag) ← split_tag name;
  _ ← match tag with Some tag => validate_tag tag | None => Ok tt end;
  let '(host, repository) := split_host repository in
  let repository := library_prefix host repository in
  _ ← validate_repository repository;
  let tag := match tag with
             | Some tag => Some tag
             | None => match digest with None => Some (str "latest") | Some _ => None end
             end in
  Ok {| oci_host := host; oci_repository := repository; oci_tag := tag; oci_digest := digest;
        oci_scheme := default (str "https") scheme;
        oci_canonical := build_canonical host repository tag digest |}.

(** Equality and hashing use the canonical string. *)
Definition OciReference_eq (a b : OciReference) : bool :=
  bool_decide (oci_canonical a = oci_canonical b).

Definition selector (r : OciReference) : bytes :=
  match oci_digest r with
  | Some digest => digest
  | None => default (str "latest") (oci_tag r)
  end.

Definition url_for (r : OciReference) (kind reference : bytes) : bytes :=
  oci_scheme r ++ str "://" ++ oci_host r ++ str "/v2/" ++ oci_repository r ++ kind ++ reference.
Definition manifest_url (r : OciReference) : bytes := url_for r (str "/manifests/") (selector r).
Definition manifest_url_for_digest (r : OciReference) (digest : bytes) : bytes :=
  url_for r (str "/manifests/") digest.
Definition blob_url (r : OciReference) (digest : bytes) : bytes := url_for r (str "/blobs/") digest.

(** ** References from manifest URLs

    URL syntax is the [url] crate: [Url_parse] is a parameter, a parsed URL is
    the parts the code reads of it. *)
Record Url := {
  url_scheme : bytes;
  url_host_str : option bytes;
  url_port : option Z;
  url_path : bytes;
}.

(** [format!("{port}")] for a [u16]: at most five digits. *)
Fixpoint dec_digits (fuel : nat) (z : Z) (acc : bytes) : bytes :=
  match fuel with
  | O => acc
  | S fuel =>
    let acc := z2b (48 + z mod 10) :: acc in
    if z <? 10 then acc else dec_digits fuel (z / 10) acc
  end.
Definition display_u16 (z : Z) : bytes := dec_digits 5 z [].

(** [iter().rposition(p)]. *)
Fixpoint rposition {A} (p : A -> bool) (l : list A) : option nat :=
  match l with
  | [] => None
  | x :: l => match rposition p l with
              | Some i => Some (S i)
              | None => if p x then Some O else None
              end
  end.

Section ManifestUrl.
Context (Url_parse : bytes -> option Url).

Definition from_manifest_url (url : bytes) : res OciReferenceError OciReference :=
  parsed ← ok_or (Url_parse url) Oci_InvalidManifestUrl;
  _ ← fail_if (negb (bool_decide (url_scheme parsed = str "https"))
               && negb (bool_decide (url_scheme parsed = str "http"))) Oci_InvalidManifestUrl;
  host ← ok_or (url_host_str parsed) Oci_InvalidManifestUrl;
  let host := match url_port parsed with
              | Some port => host ++ [c_colon] ++ display_u16 port
              | None => host
              end in
  let segments := List.filter (fun s => negb (is_empty s)) (split_on c_slash (url_path parsed)) in
  _ ← fail_if (bool_decide (len segments < 3)
               || negb (bool_decide (segments !! 0%nat = Some (str "v2")))) Oci_InvalidManifestUrl;
  manifests_idx ← match rposition (fun s => bool_decide (s = str "manifests")) segments with
                  | Some idx => if (0 <? Z.of_nat idx) && (Z.of_nat idx =? len segments - 2)
                                then Ok idx else Err Oci_InvalidManifestUrl
                  | None => Err Oci_InvalidManifestUrl
                  end;
  let repository := join_with [c_slash] (drop 1 (take manifests_idx segments)) in
  _ ← validate_repository repository;
  selector ← expect (segments !! (length segments - 1)%nat);
  '(tag, digest) ← (if starts_with (str "sha256:") selector || starts_with (str "sha512:") selector
                    then _ ← validate_digest selector; Ok (None, Some selector)
                    else _ ← validate_tag selector; Ok (Some selector, None));
  Ok {| oci_host := host; oci_repository := repository; oci_tag := tag; oci_digest := digest;
        oci_scheme := url_scheme parsed;
        oci_canonical := build_canonical host repository tag digest |}.
End ManifestUrl.

(** ** The repository component grammar *)

(** [(\.|_|__|-+)] *)
Inductive separator : bytes -> Prop :=
  | sep_dot : separator [c_dot]
  | sep_underscore : separator [c_underscore]
  | sep_double : separator [c_underscore; c_underscore]
  | sep_dashes n : separator (replicate (S n) c_dash).

(** [[a-z0-9]+] *)
Definition word (w : bytes) : Prop := w <> [] /\ Forall (fun b => is_lower_or_digit b = true) w.

(** [((\.|_|__|-+)[a-z0-9]+)*] *)
Inductive component_tail : bytes -> Prop :=
  | tail_nil : component_tail []
  | tail_cons sep w t : separator sep -> word w -> component_tail t -> component_tail (sep ++ w ++ t).

Definition component_grammar (c : bytes) : Prop := exists w t, c = w ++ t /\ word w /\ component_tail t.

(** What follows a word does not continue it. *)
Definition stops (p : byte -> bool) (t : bytes) : Prop :=
  match t with [] => True | b :: _ => p b = false end.

Lemma skip_while_app p w t :
  Forall (fun b => p b = true) w -> stops p t -> skip_while p (w ++ t) = t.
Proof.
  intros Hw Ht. induction Hw as [|b w Hb _ IH]; cbn; [|by rewrite Hb].
  destruct t as [|b t]; [done|]. cbn in *. by rewrite Ht.
Qed.

Lemma skip_while_split p s :
  exists w, s = w ++ skip_while p s /\ Forall (fun b => p b = true) w /\ stops p (skip_while p s).
Proof.
  induction s as [|b s (w & E & Hw & Ht)]; cbn; [by exists []|].
  destruct (p b) eqn:Hb; [|by exists []]. exists (b :: w). cbn. rewrite <-E. auto.
Qed.

Lemma skip_while_len p s w :
  s = w ++ skip_while p s -> (len (skip_while p s) =? len s) = false <-> w <> [].
Proof.
  intros E. apply (f_equal len) in E. rewrite len_app in E. rewrite Z.eqb_neq. split.
  - intros H ->. rewrite len_nil in E. lia.
  - intros Hw. destruct w as [|b w]; [done|]. rewrite len_cons in E. pose proof (len_nonneg w). lia.
Qed.

Lemma tail_stops t : component_tail t -> stops is_lower_or_digit t.
Proof. destruct 1 as [|sep w t Hs _ _]; [done|]. by destruct Hs. Qed.

Lemma word_not b w : word w -> is_lower_or_digit b = false -> stops (is_byte b) w.
Proof.
  intros [Hne Hw] Hb. destruct Hw as [|x w Hx _]; [done|]. cbn.
  apply not_true_iff_false. rewrite is_byte_true. intros ->. by rewrite Hb in Hx.
Qed.

(** A separator in front of a word is skipped exactly. *)
Lemma skip_separator_complete sep w t :
  separator sep -> word w ->
  exists b s, sep ++ w ++ t = b :: s /\ skip_separator b s = Ok (w ++ t).
Proof.
  intros Hs Hw. destruct Hs as [| | |n]; (eexists _, _; split; [done|]); unfold skip_separator.
  - done.
  - pose proof (word_not c_underscore w Hw eq_refl) as Hb. destruct Hw as [Hne _].
    rewrite decide_False, decide_True by done.
    destruct w as [|x w]; [done|]. cbn [app]. rewrite decide_False; [done|].
    intros ->. cbn [stops] in Hb. by rewrite is_byte_refl in Hb.
  - done.
  - rewrite !decide_False, decide_True by done. f_equal. apply skip_while_app.
    + apply Forall_replicate. apply is_byte_refl.
    + pose proof (word_not c_dash w Hw eq_refl) as Hb. destruct Hw as [Hne _].
      by destruct w.
Qed.

Lemma skip_separator_sound b s seg :
  skip_separator b s = Ok seg -> exists sep, separator sep /\ b :: s = sep ++ seg.
Proof.
  unfold skip_separator. repeat case_decide; [..|done]; subst; intros [= <-].
  - exists [c_dot]. split; [constructor|done].
  - destruct s as [|b s]; [exists [c_underscore]; split; [constructor|done]|].
    case_decide; subst.
    + exists [c_underscore; c_underscore]. split; [constructor|done].
    + exists [c_underscore]. split; [constructor|done].
  - destruct (skip_while_split (is_byte c_dash) s) as (w & E & Hw & _).
    assert (w = replicate (length w) c_dash) as Hr.
    { clear -Hw. induction Hw as [|x w Hx _ IH]; [done|]. cbn. apply is_byte_true in Hx as ->. by f_equal. }
    exists (c_dash :: w). split; [rewrite Hr; apply (sep_dashes (length w))|].
    cbn [app]. by rewrite <-E.
Qed.

Lemma component_loop_complete t fuel :
  component_tail t -> (length t <= fuel)%nat -> component_loop fuel t = Ok tt.
Proof.
  intros Ht. revert fuel. induction Ht as [|sep w t Hs Hw Ht IH]; intros fuel Hf.
  { by destruct fuel. }
  destruct (skip_separator_complete sep w t Hs Hw) as (b & s & E & Hsk).
  rewrite E in Hf |- *. destruct fuel as [|fuel]; [cbn in Hf; lia|]. cbn [component_loop].
  rewrite Hsk. cbn [mbind res_bind].
  destruct Hw as [Hne Hw].
  assert (skip_while is_lower_or_digit (w ++ t) = t) as Esk by (by apply skip_while_app, tail_stops).
  rewrite (proj2 (skip_while_len _ (w ++ t) w ltac:(by rewrite Esk)) Hne). cbn.
  rewrite Esk. apply IH.
  apply (f_equal length) in E. rewrite !length_app in E. cbn in E, Hf.
  destruct Hs; cbn in E; lia.
Qed.

Lemma component_loop_sound t fuel : component_loop fuel t = Ok tt -> component_tail t.
Proof.
  revert t. induction fuel as [|fuel IH]; intros [|b s] H; try done; [constructor..|].
  cbn [component_loop] in H. res_inv1 H. apply skip_separator_sound in Hx as (sep & Hs & ->).
  apply guard_ok_iff in H as [Hl H]. apply IH in H.
  destruct (skip_while_split is_lower_or_digit x) as (w & E & Hw & _).
  rewrite E. constructor; [done| |done]. split; [|done]. by apply (skip_while_len _ x w E).
Qed.

Lemma component_loop_fuel t fuel : (length t <= fuel)%nat -> component_loop fuel t <> Panic.
Proof.
  revert t. induction fuel as [|fuel IH]; intros [|b s] Hf; try done; [cbn in Hf; lia|].
  cbn [component_loop]. apply bind_not_panic.
  { unfold skip_separator. by repeat case_decide. }
  intros seg Hseg. apply guard_not_panic. intros _. apply IH.
  destruct (skip_while_split is_lower_or_digit seg) as (w & E & _).
  apply skip_separator_sound in Hseg as (sep & Hs & E'). apply (f_equal length) in E, E'.
  rewrite length_app in E, E'. cbn in E', Hf. destruct Hs; cbn in E'; lia.
Qed.

Lemma component_scanner_sound c : validate_component c = Ok tt -> component_grammar c.
Proof.
  unfold validate_component. intros [Hl H]%guard_ok_iff. apply component_loop_sound in H.
  destruct (skip_while_split is_lower_or_digit c) as (w & E & Hw & _).
  exists w, (skip_while is_lower_or_digit c). split_and!; [done| |done].
  split; [|done]. by apply (skip_while_len _ c w E).
Qed.

(** the hand-written scanner of a repository component accepts exactly the
    documented grammar [[a-z0-9]+((\.|_|__|-+)[a-z0-9]+)*], and never indexes
    out of bounds or runs forever. *)
Theorem component_scanner_exact (c : bytes) :
  (validate_component c = Ok tt <-> component_grammar c) /\ validate_component c <> Panic.
Proof.
  unfold validate_component. split; [split|].
  - apply component_scanner_sound.
  - intros (w & t & -> & [Hne Hw] & Ht).
    assert (skip_while is_lower_or_digit (w ++ t) = t) as E by (by apply skip_while_app, tail_stops).
    rewrite (proj2 (skip_while_len _ (w ++ t) w ltac:(by rewrite E)) Hne). cbn.
    rewrite E. by apply component_loop_complete.
  - apply guard_not_panic. intros _. by apply component_loop_fuel.
Qed.

(** ** Splitting *)

Lemma split_once_str_Some p s l r : split_once_str p s = Some (l, r) -> s = l ++ p ++ r.
Proof.
  revert l. induction s as [|b s IH]; intros l H; cbn in H.
  - destruct (strip_prefix p []) eqn:E; [|done]. simplify_eq. by apply strip_prefix_Some in E.
  - destruct (strip_prefix p (b :: s)) eqn:E.
    + simplify_eq. by apply strip_prefix_Some in E.
    + destruct (split_once_str p s) as [[l' r']|]; [|done]. simplify_eq. cbn. f_equal. by apply IH.
Qed.

Lemma split_on_app_sep c l t : split_on c (l ++ c :: t) = split_on c l ++ split_on c t.
Proof.
  induction l as [|b l IH]; cbn [app].
  - by rewrite split_on_cons_sep.
  - unfold split_on in *. cbn [split_by]. rewrite IH. destruct (is_byte c b); [done|].
    destruct (split_by (is_byte c) l) eqn:E; [by apply split_by_nonempty in E|done].
Qed.

Lemma split_on_app_free_r c s t :
  c ∉ t -> exists pre x, split_on c s = pre ++ [x] /\ split_on c (s ++ t) = pre ++ [x ++ t].
Proof.
  intros Ht. induction s as [|b s (pre & x & E1 & E2)].
  - exists [], []. split; [done|]. cbn. by apply split_on_free_single.
  - unfold split_on in *. cbn [app split_by]. rewrite E1, E2. destruct (is_byte c b).
    + by exists ([] :: pre), x.
    + destruct pre as [|y pre]; [by exists [], (b :: x)|by exists ((b :: y) :: pre), x].
Qed.

Lemma split_once_app c l r : c ∉ l -> split_once c (l ++ c :: r) = Some (l, r).
Proof. intros. by apply split_once_Some. Qed.

Lemma rfind_app c l r : c ∉ r -> rfind c (l ++ c :: r) = Some (len l).
Proof. intros H. unfold rfind. by rewrite (proj2 (rsplit_once_Some c _ l r)). Qed.

Lemma rfind_None c s : c ∉ s -> rfind c s = None.
Proof. intros H. unfold rfind. by rewrite (proj2 (rsplit_once_None c s)). Qed.

Lemma rfind_inv c s i :
  rfind c s = Some i -> exists l r, s = l ++ c :: r /\ (c ∉ r) /\ i = len l.
Proof.
  unfold rfind. destruct (rsplit_once c s) as [[l r]|] eqn:E; [|done]. intros [= <-].
  apply rsplit_once_Some in E as []. eauto.
Qed.

Lemma take_len {A} (l r : list A) : take (Z.to_nat (len l)) (l ++ r) = l.
Proof. unfold len. rewrite Nat2Z.id. apply take_app_length. Qed.
Lemma drop_len {A} (l : list A) x r : drop (Z.to_nat (len l + 1)) (l ++ x :: r) = r.
Proof.
  unfold len. replace (Z.to_nat _) with (S (length l)) by lia.
  rewrite cons_middle, app_assoc. replace (S (length l)) with (length (l ++ [x])); [apply drop_app_length|].
  rewrite length_app. cbn. lia.
Qed.

(** ** What the validators guarantee *)

Definition tag_byte (b : byte) : bool :=
  is_ascii_alphanumeric b || is_byte c_underscore b || is_byte c_dot b || is_byte c_dash b.
Definition repository_byte (b : byte) : bool :=
  is_lower_or_digit b || is_byte c_underscore b || is_byte c_dot b || is_byte c_dash b.

Lemma validate_tag_bytes tag :
  validate_tag tag = Ok tt -> tag <> [] /\ Forall (fun b => tag_byte b = true) tag.
Proof.
  unfold validate_tag. intros [H1 H]%guard_ok_iff. destruct tag as [|b tag]; [done|].
  apply guard_ok_iff in H as [Hb H]. apply fail_if_ok in H.
  split; [done|]. constructor.
  - apply negb_false_iff in Hb. unfold tag_byte. by rewrite Hb.
  - rewrite Forall_forall. intros x Hx. apply not_false_is_true. intros E.
    apply not_true_iff_false in H. apply H, existsb_exists. exists x.
    split; [by apply list_elem_of_In|]. unfold tag_byte in E. by rewrite E.
Qed.

Lemma not_elem_by {p : byte -> bool} {c s} :
  Forall (fun b => p b = true) s -> p c = false -> c ∉ s.
Proof. intros Hs Hc Hin. rewrite Forall_forall in Hs. apply Hs in Hin. congruence. Qed.

Lemma separator_bytes sep : separator sep -> Forall (fun b => repository_byte b = true) sep.
Proof. destruct 1; [by repeat constructor..|]. by apply Forall_replicate. Qed.

Lemma word_bytes w : word w -> Forall (fun b => repository_byte b = true) w.
Proof.
  intros [_ Hw]. eapply Forall_impl; [exact Hw|]. intros b Hb. unfold repository_byte.
  cbn in Hb. by rewrite Hb.
Qed.

Lemma component_bytes c : component_grammar c -> Forall (fun b => repository_byte b = true) c.
Proof.
  intros (w & t & -> & Hw & Ht). apply Forall_app. split; [by apply word_bytes|].
  clear Hw. induction Ht as [|sep w' t Hs Hw _ IH]; [constructor|].
  rewrite !Forall_app. auto using separator_bytes, word_bytes.
Qed.

(** A validated repository: non-empty components of the grammar. *)
Lemma validate_repository_segments repo :
  validate_repository repo = Ok tt ->
  Forall (fun c => c <> [] /\ component_grammar c) (split_on c_slash repo).
Proof.
  unfold validate_repository. intros [_ H]%guard_ok_iff. apply for_each_unit_ok in H.
  eapply Forall_impl; [exact H|]. cbn. intros c [Hc [_ H']%guard_ok_iff]%guard_ok_iff.
  apply is_empty_false in Hc. split; [done|]. by apply component_scanner_sound.
Qed.

(** Every byte of a joined list is a byte of a segment or the separator. *)
Lemma split_on_bytes c s (P : byte -> Prop) :
  P c -> Forall (Forall P) (split_on c s) -> Forall P s.
Proof.
  unfold split_on. intros Hc. induction s as [|b s IH]; cbn [split_by]; [constructor|].
  destruct (is_byte c b) eqn:E.
  - apply is_byte_true in E as ->. intros [_ H]%Forall_cons. by constructor; auto.
  - destruct (split_by (is_byte c) s) as [|seg segs].
    + intros [[Hb _]%Forall_cons _]%Forall_cons. constructor; auto.
    + intros [[Hb Hseg]%Forall_cons Hsegs]%Forall_cons. constructor; auto.
Qed.

Lemma repository_not c repo :
  validate_repository repo = Ok tt -> repository_byte c = false -> c <> c_slash -> c ∉ repo.
Proof.
  intros H%validate_repository_segments Hc Hs Hin.
  assert (Forall (fun b => b <> c) repo) as Hf; [|rewrite Forall_forall in Hf; by apply (Hf c)].
  apply (split_on_bytes c_slash); [done|]. eapply Forall_impl; [exact H|]. cbn.
  intros seg [_ Hg]. apply component_bytes in Hg. eapply Forall_impl; [exact Hg|].
  cbn. intros b Hb ->. congruence.
Qed.

(** ** Canonical references *)

(** What [parse] establishes of its parts. *)
Record oci_wf (r : OciReference) : Prop := {
  wf_host : looks_like_host (oci_host r) = true;
  wf_host_slash : c_slash ∉ oci_host r;
  wf_host_at : c_at ∉ oci_host r;
  wf_repository : validate_repository (oci_repository r) = Ok tt;
  wf_library : library_prefix (oci_host r) (oci_repository r) = oci_repository r;
  wf_tag : match oci_tag r with Some t => validate_tag t = Ok tt | None => oci_digest r <> None end;
  wf_digest : match oci_digest r with Some d => validate_digest d = Ok tt | None => True end;
  wf_canonical : oci_canonical r
    = build_canonical (oci_host r) (oci_repository r) (oci_tag r) (oci_digest r);
}.

Lemma library_prefix_idem h r : library_prefix h (library_prefix h r) = library_prefix h r.
Proof.
  unfold library_prefix. destruct (bool_decide (h = DEFAULT_HOST)); cbn [andb]; [|done].
  destruct (contains_byte c_slash r) eqn:Hr; cbn [negb]; [by rewrite Hr|done].
Qed.

Lemma split_host_wf name h repo :
  c_at ∉ name -> split_host name = (h, repo) ->
  looks_like_host h = true /\ (c_slash ∉ h) /\ (c_at ∉ h).
Proof.
  intros Hat. unfold split_host.
  assert (looks_like_host DEFAULT_HOST = true /\ (c_slash ∉ DEFAULT_HOST) /\ (c_at ∉ DEFAULT_HOST)) as Hd.
  { split_and!; [done|by apply contains_byte_false..]. }
  destruct (split_once c_slash name) as [[first rest]|] eqn:E; [|by intros [= <- <-]].
  apply split_once_Some in E as [-> Hf].
  destruct (looks_like_host first) eqn:Hl; intros [= <- <-]; [|done].
  split_and!; [done|done|]. intros Hin. apply Hat, elem_of_app. by left.
Qed.

Lemma split_digest_inv reference name digest :
  split_digest reference = Ok (name, digest) ->
  (c_at ∉ name) /\ match digest with Some d => validate_digest d = Ok tt | None => True end.
Proof.
  unfold split_digest. destruct (split_once c_at reference) as [[n d]|] eqn:E.
  - apply split_once_Some in E as [-> Hn]. destruct (negb (is_empty n) && negb (is_empty d)); [|done].
    intros H. apply bind_unit_ok_iff in H as [Hd [= <- <-]]. done.
  - intros [= <- <-]. by apply split_once_None in E.
Qed.

Lemma split_tag_sub name repository tag :
  split_tag name = Ok (repository, tag) -> forall b, b ∉ name -> b ∉ repository.
Proof.
  unfold split_tag. destruct (rfind c_colon name) as [i|]; [|by intros [= <- _]].
  destruct (match rfind c_slash name with Some slash => slash <? i | None => true end);
    [|by intros [= <- _]].
  intros [_ [= <- _]]%guard_ok_iff b Hb Hin.
  apply Hb. by apply (subseteq_take (Z.to_nat i) name).
Qed.

Lemma parse_wf value r : OciReference_parse value = Ok r -> oci_wf r.
Proof.
  unfold OciReference_parse. intros [_ H]%guard_ok_iff.
  apply bind_ok_iff in H as ([scheme reference] & _ & H).
  apply bind_ok_iff in H as ([name digest] & Hd & H).
  apply bind_ok_iff in H as ([repository tag] & Ht & H).
  apply bind_unit_ok_iff in H as [Hvt H].
  destruct (split_host repository) as [host repo] eqn:Hh.
  apply bind_unit_ok_iff in H as [Hvr [= <-]].
  apply split_digest_inv in Hd as [Hat Hvd].
  apply (split_host_wf repository) in Hh as (Hl & Hs & Ha); [|by eapply split_tag_sub].
  split; try done; cbn.
  - apply library_prefix_idem.
  - destruct tag; [done|]. by destruct digest.
Qed.

(** ** Reparsing the canonical form *)

Lemma looks_nonempty h : looks_like_host h = true -> h <> [].
Proof. by intros H ->. Qed.

Lemma validate_digest_bytes d :
  validate_digest d = Ok tt -> d <> [] /\ (c_slash ∉ d).
Proof.
  unfold validate_digest. destruct (split_once c_colon d) as [[alg hex]|] eqn:E; [|done].
  apply split_once_Some in E as [-> _]. intros H. apply bind_ok_iff in H as (n & Hn & H).
  apply fail_if_ok, orb_false_iff in H as [_ H]. apply negb_false_iff in H.
  split; [by destruct alg|]. rewrite elem_of_app, elem_of_cons. intros [Hin|[Hin|Hin]]; [|done|].
  - case_bool_decide as E1; [|case_bool_decide as E2; [|done]];
      subst alg; revert Hin; by apply contains_byte_false.
  - rewrite forallb_forall in H. apply list_elem_of_In, H in Hin. done.
Qed.

Definition tag_part (t : option bytes) : bytes :=
  match t with Some tag => c_colon :: tag | None => [] end.
Definition digest_part (d : option bytes) : bytes :=
  match d with Some digest => c_at :: digest | None => [] end.

Lemma build_canonical_parts h repo t d :
  build_canonical h repo t d = (h ++ c_slash :: repo ++ tag_part t) ++ digest_part d.
Proof.
  unfold build_canonical, tag_part, digest_part. rewrite <-app_assoc. f_equal.
  change ([c_slash] ++ ?x) with (c_slash :: x). cbn [app]. f_equal. rewrite <-app_assoc.
  by destruct t, d.
Qed.

(** No two slashes in a row, hence no scheme separator. *)
Lemma no_scheme s :
  Forall (fun seg => seg <> []) (split_on c_slash s) -> split_scheme s = Ok (None, s).
Proof.
  intros H. unfold split_scheme. destruct (split_once_str (str "://") s) as [[l r]|] eqn:E; [|done].
  exfalso. apply split_once_str_Some in E. subst s.
  replace (l ++ str "://" ++ r) with ((l ++ [c_colon]) ++ c_slash :: c_slash :: r) in H
    by (by rewrite <-app_assoc).
  rewrite split_on_app_sep, split_on_cons_sep in H. apply Forall_app in H as [_ H].
  by apply Forall_cons in H as [H _].
Qed.

Lemma split_digest_canonical name d :
  name <> [] -> c_at ∉ name -> match d with Some x => validate_digest x = Ok tt | None => True end ->
  split_digest (name ++ digest_part d) = Ok (name, d).
Proof.
  intros Hne Hat Hd. unfold split_digest. destruct d as [x|]; cbn [digest_part].
  - rewrite split_once_app by done. destruct (validate_digest_bytes x Hd) as [Hx _].
    rewrite (proj2 (is_empty_false name) Hne), (proj2 (is_empty_false x) Hx). cbn [negb andb].
    by rewrite Hd.
  - rewrite app_nil_r. by rewrite (proj2 (split_once_None c_at name) Hat).
Qed.

Lemma split_tag_canonical h repo t :
  c_colon ∉ repo ->
  match t with Some x => validate_tag x = Ok tt | None => True end ->
  split_tag (h ++ c_slash :: repo ++ tag_part t) = Ok (h ++ c_slash :: repo, t).
Proof.
  intros Hc Ht. unfold split_tag. destruct t as [x|]; cbn [tag_part].
  - destruct (validate_tag_bytes x Ht) as [Hne Hx].
    assert (forall b, tag_byte b = false -> b ∉ x) as Hn by (intros b Hb; by eapply not_elem_by).
    replace (h ++ c_slash :: repo ++ c_colon :: x) with ((h ++ c_slash :: repo) ++ c_colon :: x)
      by (by rewrite <-app_assoc).
    rewrite rfind_app by (by apply Hn).
    destruct (rfind c_slash _) as [slash|] eqn:Es.
    + apply rfind_inv in Es as (l & r & E & Hr & ->).
      assert (len l < len (h ++ c_slash :: repo)) as Hlt.
      { destruct (Z.le_gt_cases (len (h ++ c_slash :: repo)) (len l)) as [Hle|]; [|done].
        exfalso. assert (c_slash ∈ x) as Hin; [|by apply (Hn c_slash)].
        apply app_eq_inv in E as [(k & E1 & E2)|(k & E1 & E2)].
        - apply (f_equal len) in E1. rewrite (len_app l) in E1. destruct k as [|b k]; [done|].
          rewrite len_cons in E1. pose proof (len_nonneg k). lia.
        - destruct k as [|b k]; [done|]. cbn in E2. injection E2 as _ ->.
          apply elem_of_app. right. by left. }
      rewrite (proj2 (Z.ltb_lt _ _) Hlt), take_len, drop_len.
      rewrite (proj2 (is_empty_false x) Hne), orb_false_r.
      rewrite (proj2 (is_empty_false (h ++ c_slash :: repo))); [done|]. by destruct h.
    + rewrite take_len, drop_len. rewrite (proj2 (is_empty_false x) Hne), orb_false_r.
      rewrite (proj2 (is_empty_false (h ++ c_slash :: repo))); [done|]. by destruct h.
  - rewrite app_nil_r. destruct (rfind c_colon _) as [i|] eqn:Ec; [|done].
    apply rfind_inv in Ec as (l & r & E & Hr & ->).
    assert (c_slash ∈ r) as Hin.
    { apply app_eq_inv in E as [(k & E1 & E2)|(k & E1 & E2)].
      - destruct k as [|b k]; cbn in E2; [by injection E2|]. injection E2 as _ ->.
        apply elem_of_app. right. by left.
      - destruct k as [|b k]; cbn in E2; [by injection E2|]. injection E2 as _ ->. exfalso.
        apply Hc, elem_of_app. right. by left. }
    destruct (rfind c_slash (h ++ c_slash :: repo)) as [slash|] eqn:Es.
    2: { unfold rfind in Es. destruct (rsplit_once c_slash _) as [[]|] eqn:En; [done|].
         apply rsplit_once_None in En. exfalso. apply En, elem_of_app. right. by left. }
    apply rfind_inv in Es as (l' & r' & E' & Hr' & ->).
    destruct (Z.ltb_spec (len l') (len l)); [|done]. exfalso. rewrite E' in E.
    apply app_eq_inv in E as [(k & E1 & E2)|(k & E1 & E2)].
    + apply (f_equal len) in E1. rewrite len_app in E1. pose proof (len_nonneg k). lia.
    + destruct k as [|b k]; cbn in E2; [by injection E2|]. injection E2 as _ E2.
      apply Hr'. rewrite E2. apply elem_of_app. right. by right.
Qed.

Lemma canonical_segments r :
  oci_wf r -> Forall (fun seg => seg <> []) (split_on c_slash (oci_canonical r)).
Proof.
  intros [Hh Hs Ha Hr _ Ht Hd ->]. rewrite build_canonical_parts, <-app_assoc. cbn [app].
  rewrite split_on_app_sep, (split_on_free_single c_slash _ Hs). apply Forall_app.
  split; [constructor; [by apply looks_nonempty|constructor]|].
  rewrite <-app_assoc.
  assert (c_slash ∉ tag_part (oci_tag r) ++ digest_part (oci_digest r)) as Hfree.
  { rewrite elem_of_app. intros [Hin|Hin].
    - destruct (oci_tag r) as [t|]; cbn in Hin; [|by apply not_elem_of_nil in Hin].
      apply elem_of_cons in Hin as [Hin|Hin]; [done|].
      apply validate_tag_bytes in Ht as [_ Ht]. by apply (not_elem_by (c := c_slash) Ht).
    - destruct (oci_digest r) as [d|]; cbn in Hin; [|by apply not_elem_of_nil in Hin].
      apply elem_of_cons in Hin as [Hin|Hin]; [done|]. by apply validate_digest_bytes in Hd as []. }
  destruct (split_on_app_free_r c_slash (oci_repository r) _ Hfree) as (pre & x & E1 & ->).
  apply validate_repository_segments in Hr. rewrite E1 in Hr.
  apply Forall_app in Hr as [Hpre Hx]. apply Forall_app. split.
  - eapply Forall_impl; [exact Hpre|]. by intros ? [? _].
  - apply Forall_cons in Hx as [[Hx _] _]. constructor; [|constructor]. by destruct x.
Qed.

(** The canonical string of a parsed reference parses back to it. *)
Lemma canonical_reparse r :
  oci_wf r ->
  OciReference_parse (oci_canonical r)
  = Ok {| oci_host := oci_host r; oci_repository := oci_repository r; oci_tag := oci_tag r;
          oci_digest := oci_digest r; oci_scheme := str "https"; oci_canonical := oci_canonical r |}.
Proof.
  intros Hwf. pose proof (canonical_segments r Hwf) as Hseg.
  destruct Hwf as [Hh Hs Ha Hr Hlib Ht Hd Hcan]. unfold OciReference_parse.
  assert (oci_canonical r <> []) as Hne.
  { rewrite Hcan, build_canonical_parts. apply looks_nonempty in Hh. by destruct (oci_host r). }
  rewrite (proj2 (is_empty_false _) Hne). cbn [fail_if mbind res_bind].
  rewrite no_scheme by done. cbn [mbind res_bind].
  rewrite Hcan at 1. rewrite build_canonical_parts.
  assert (c_at ∉ oci_host r ++ c_slash :: oci_repository r ++ tag_part (oci_tag r)) as Hat.
  { rewrite elem_of_app, elem_of_cons, elem_of_app. intros [Hin|[Hin|[Hin|Hin]]]; try done.
    - by apply (repository_not c_at) in Hin.
    - destruct (oci_tag r) as [t|]; cbn in Hin; [|by apply not_elem_of_nil in Hin].
      apply elem_of_cons in Hin as [Hin|Hin]; [done|].
      apply validate_tag_bytes in Ht as [_ Ht]. by apply (not_elem_by (c := c_at) Ht). }
  rewrite split_digest_canonical; [|by destruct (oci_host r)|done|done]. cbn [mbind res_bind].
  rewrite split_tag_canonical; [|by apply repository_not|by destruct (oci_tag r)].
  cbn [mbind res_bind].
  assert (match oci_tag r with Some tag => validate_tag tag | None => Ok tt end = Ok tt) as ->
    by (by destruct (oci_tag r)).
  cbn [mbind res_bind].
  assert (split_host (oci_host r ++ c_slash :: oci_repository r) = (oci_host r, oci_repository r)) as ->.
  { unfold split_host. rewrite split_once_app by done. by rewrite Hh. }
  rewrite Hlib, Hr. cbn [mbind res_bind].
  assert (match oci_tag r with
          | Some tag => Some tag
          | None => match oci_digest r with None => Some (str "latest") | Some _ => None end
          end = oci_tag r) as ->.
  { destruct (oci_tag r); [done|]. by destruct (oci_digest r). }
  by rewrite <-Hcan.
Qed.

(** C38: the canonical string identifies a reference.  Parsing the canonical form
    of any accepted reference succeeds and returns the same host, repository,
    tag and digest (over the default scheme), so the canonical form is a fixed
    point, and two accepted references compare equal exactly when these four
    parts agree. *)
Theorem canonical_identifies_reference (v1 v2 : bytes) (r1 r2 : OciReference)
    (H1 : OciReference_parse v1 = Ok r1) (H2 : OciReference_parse v2 = Ok r2) :
  OciReference_parse (oci_canonical r1)
  = Ok {| oci_host := oci_host r1; oci_repository := oci_repository r1; oci_tag := oci_tag r1;
          oci_digest := oci_digest r1; oci_scheme := str "https";
          oci_canonical := oci_canonical r1 |}
  /\ (OciReference_eq r1 r2 = true
      <-> oci_host r1 = oci_host r2 /\ oci_repository r1 = oci_repository r2
          /\ oci_tag r1 = oci_tag r2 /\ oci_digest r1 = oci_digest r2).
Proof.
  apply parse_wf in H1, H2. split; [by apply canonical_reparse|].
  unfold OciReference_eq. rewrite bool_decide_eq_true. split.
  - intros E. apply canonical_reparse in H1, H2. rewrite E, H2 in H1. by injection H1.
  - intros (E1 & E2 & E3 & E4). rewrite (wf_canonical r1), (wf_canonical r2) by done.
    by rewrite E1, E2, E3, E4.
Qed.

(** ** Manifest URLs *)

Lemma rposition_last {A} (p : A -> bool) l x y :
  p x = true -> p y = false -> rposition p (l ++ [x; y]) = Some (length l).
Proof.
  intros Hx Hy. induction l as [|z l IH]; cbn [app rposition length].
  - by rewrite Hx, Hy.
  - by rewrite IH.
Qed.

Lemma rposition_end {A} (p : A -> bool) l x : p x = true -> rposition p (l ++ [x]) = Some (length l).
Proof.
  intros Hx. induction l as [|z l IH]; cbn [app rposition length]; [by rewrite Hx|by rewrite IH].
Qed.

Lemma parse_selector r :
  oci_wf r ->
  selector r <> [] /\ (c_slash ∉ selector r)
  /\ if starts_with (str "sha256:") (selector r) || starts_with (str "sha512:") (selector r)
     then validate_digest (selector r) = Ok tt else validate_tag (selector r) = Ok tt.
Proof.
  intros [_ _ _ _ _ Ht Hd _]. unfold selector. destruct (oci_digest r) as [d|].
  - destruct (validate_digest_bytes d Hd). split_and!; [done|done|].
    assert (starts_with (str "sha256:") d || starts_with (str "sha512:") d = true) as ->; [|done].
    unfold validate_digest in Hd. destruct (split_once c_colon d) as [[alg hex]|] eqn:E; [|done].
    apply split_once_Some in E as [-> _]. apply bind_ok_iff in Hd as (n & Hn & _).
    case_bool_decide as E1; [subst alg; exact (orb_true_intro _ _ (or_introl (starts_with_app (str "sha256:") hex)))|].
    case_bool_decide as E2; [|done]. subst alg.
    exact (orb_true_intro _ _ (or_intror (starts_with_app (str "sha512:") hex))).
  - destruct (oci_tag r) as [t|]; [|done]. cbn [default].
    destruct (validate_tag_bytes t Ht) as [Hne Hb].
    assert (forall b, tag_byte b = false -> b ∉ t) as Hn by (intros b Hb'; by eapply not_elem_by).
    split_and!; [done|by apply Hn|].
    assert (forall p, c_colon ∈ p -> starts_with p t = false) as Hs.
    { intros p Hp. apply not_true_iff_false. intros (x & ->)%starts_with_true.
      apply (Hn c_colon); [done|]. apply elem_of_app. by left. }
    rewrite !Hs; [done|by apply contains_byte_true..].
Qed.

(** The path of a manifest URL, split. *)
Lemma manifest_path_segments r :
  oci_wf r ->
  List.filter (fun s => negb (is_empty s))
    (split_on c_slash (str "/v2/" ++ oci_repository r ++ str "/manifests/" ++ selector r))
  = str "v2" :: split_on c_slash (oci_repository r) ++ [str "manifests"; selector r].
Proof.
  intros Hwf. destruct (parse_selector r Hwf) as (Hne & Hs & _). destruct Hwf as [_ _ _ Hr _ _ _ _].
  change (str "/v2/" ++ ?x) with ([] ++ c_slash :: str "v2" ++ c_slash :: x).
  change (str "/manifests/" ++ ?x) with (c_slash :: str "manifests" ++ c_slash :: x).
  rewrite !split_on_app_sep.
  change (split_on c_slash []) with [@nil byte].
  rewrite (split_on_free_single c_slash (str "v2")), (split_on_free_single c_slash (str "manifests")),
    (split_on_free_single c_slash (selector r)) by (done || by apply contains_byte_false).
  cbn [app].
  assert (List.filter (fun s => negb (is_empty s)) (split_on c_slash (oci_repository r))
          = split_on c_slash (oci_repository r)) as E.
  { apply validate_repository_segments in Hr. clear -Hr.
    induction Hr as [|x l [Hx _] _ IH]; [done|]. cbn. by rewrite (proj2 (is_empty_false x) Hx), IH. }
  cbn [List.filter is_empty negb str]. rewrite List.filter_app, E. cbn.
  by rewrite (proj2 (is_empty_false _) Hne).
Qed.

(** How a manifest URL of [r] parses, as the [url] crate documents it for a
    scheme, authority and path already in normal form. *)
Definition url_of (r : OciReference) (u : Url) : Prop :=
  url_scheme u = oci_scheme r
  /\ (exists h, url_host_str u = Some h
        /\ match url_port u with Some port => h ++ [c_colon] ++ display_u16 port | None => h end
           = oci_host r)
  /\ url_path u = str "/v2/" ++ oci_repository r ++ str "/manifests/" ++ selector r.

(** The reference a manifest URL names: one selector, the digest if pinned. *)
Definition pinned (r : OciReference) : OciReference :=
  let is_digest := starts_with (str "sha256:") (selector r) || starts_with (str "sha512:") (selector r) in
  let tag := if is_digest then None else Some (selector r) in
  let digest := if is_digest then Some (selector r) else None in
  {| oci_host := oci_host r; oci_repository := oci_repository r; oci_tag := tag;
     oci_digest := digest; oci_scheme := oci_scheme r;
     oci_canonical := build_canonical (oci_host r) (oci_repository r) tag digest |}.

Lemma pinned_url r : manifest_url (pinned r) = manifest_url r.
Proof.
  unfold manifest_url, url_for. do 4 f_equal. f_equal. f_equal. unfold pinned, selector at 1. cbn.
  by destruct (_ || _).
Qed.

Lemma parse_scheme value r :
  OciReference_parse value = Ok r -> oci_scheme r = str "http" \/ oci_scheme r = str "https".
Proof.
  unfold OciReference_parse. intros [_ H]%guard_ok_iff.
  apply bind_ok_iff in H as ([scheme reference] & Hs & H).
  apply bind_ok_iff in H as ([name digest] & _ & H). apply bind_ok_iff in H as ([repository tag] & _ & H).
  apply bind_unit_ok_iff in H as [_ H]. destruct (split_host repository).
  apply bind_unit_ok_iff in H as [_ [= <-]]. cbn.
  unfold split_scheme in Hs. destruct (split_once_str _ value) as [[sc rest]|]; [|simplify_eq; by right].
  do 2 case_bool_decide; cbn in Hs; destruct (is_empty rest); simplify_eq; cbn; auto.
Qed.

Lemma from_manifest_url_body Url_parse r u :
  oci_wf r -> oci_scheme r = str "http" \/ oci_scheme r = str "https" ->
  Url_parse (manifest_url r) = Some u -> url_of r u ->
  from_manifest_url Url_parse (manifest_url r)
  = if bool_decide (selector r = str "manifests") then Err Oci_InvalidManifestUrl else Ok (pinned r).
Proof.
  intros Hwf Hscheme Hu (Es & (h & Eh & Ehost) & Ep).
  destruct (parse_selector r Hwf) as (Hne & Hs & Hval).
  pose proof (manifest_path_segments r Hwf) as Hseg. rewrite <-Ep in Hseg.
  pose proof (wf_repository r Hwf) as Hr.
  unfold from_manifest_url. rewrite Hu. cbn [ok_or mbind res_bind]. rewrite Es, Hseg.
  assert (negb (bool_decide (oci_scheme r = str "https")) && negb (bool_decide (oci_scheme r = str "http"))
          = false) as -> by (by destruct Hscheme as [-> | ->]).
  cbn [fail_if mbind res_bind]. rewrite Eh. cbn [ok_or mbind res_bind]. rewrite Ehost.
  set (segs := split_on c_slash (oci_repository r)) in *.
  assert (1 <= len segs) as Hlen.
  { unfold segs. pose proof (split_by_nonempty (is_byte c_slash) (oci_repository r)) as Hn.
    unfold split_on. destruct (split_by _ _) as [|x l]; [done|]. rewrite len_cons. pose proof (len_nonneg l). lia. }
  rewrite bool_decide_false by (rewrite len_cons, len_app, !len_cons, len_nil; lia).
  cbn [orb negb fail_if mbind res_bind lookup list_lookup]. rewrite bool_decide_true by done.
  cbn [negb fail_if mbind res_bind].
  replace (str "v2" :: segs ++ [str "manifests"; selector r])
    with ((str "v2" :: segs) ++ [str "manifests"; selector r]) by done.
  case_bool_decide as Em.
  - rewrite Em. replace ((str "v2" :: segs) ++ [str "manifests"; str "manifests"])
      with (((str "v2" :: segs) ++ [str "manifests"]) ++ [str "manifests"]) by (by rewrite <-app_assoc).
    rewrite rposition_end by (by apply bool_decide_eq_true). rewrite andb_comm.
    destruct (Z.eqb_spec (Z.of_nat (length ((str "v2" :: segs) ++ [str "manifests"])))
      (len (((str "v2" :: segs) ++ [str "manifests"]) ++ [str "manifests"]) - 2)) as [E|]; [|done].
    exfalso. unfold len in E. rewrite !length_app in E. cbn in E. lia.
  - rewrite rposition_last; [|by apply bool_decide_eq_true|by apply bool_decide_eq_false].
    rewrite (proj2 (Z.ltb_lt _ _)) by (cbn; lia).
    rewrite (proj2 (Z.eqb_eq _ _)) by (unfold len; rewrite length_app; cbn; lia).
    cbn [andb mbind res_bind]. rewrite take_app_length. cbn [drop].
    rewrite drop_0. assert (join_with [c_slash] segs = oci_repository r) as -> by apply join_split.
    rewrite Hr. cbn [mbind res_bind].
    assert (((str "v2" :: segs) ++ [str "manifests"; selector r])
              !! (length ((str "v2" :: segs) ++ [str "manifests"; selector r]) - 1)%nat
            = Some (selector r)) as ->.
    { rewrite length_app. rewrite lookup_app_r by (cbn; lia). cbn [length].
      replace (S (length segs) + 2 - 1 - S (length segs))%nat with 1%nat by lia. done. }
    cbn [expect mbind res_bind]. unfold pinned.
    destruct (starts_with (str "sha256:") (selector r) || starts_with (str "sha512:") (selector r));
      rewrite Hval; done.
Qed.

(** a manifest URL leads back to its reference, with one exception.  For an
    accepted reference whose manifest URL the URL parser takes apart as
    written, [from_manifest_url] recovers host, repository, scheme and
    selector (so the same manifest URL again); but when the selector is the
    tag [manifests] it fails with [InvalidManifestUrl]. *)
Theorem manifest_url_round_trip (Url_parse : bytes -> option Url) (v : bytes) (r : OciReference) (u : Url)
    (H : OciReference_parse v = Ok r)
    (Hu : Url_parse (manifest_url r) = Some u) (Hof : url_of r u) :
  (selector r <> str "manifests" ->
     from_manifest_url Url_parse (manifest_url r) = Ok (pinned r)
     /\ manifest_url (pinned r) = manifest_url r)
  /\ (selector r = str "manifests" ->
     from_manifest_url Url_parse (manifest_url r) = Err Oci_InvalidManifestUrl).
Proof.
  pose proof (from_manifest_url_body Url_parse r u (parse_wf v r H) (parse_scheme v r H) Hu Hof) as E.
  split; intros Hsel.
  - rewrite bool_decide_false in E by done. split; [done|apply pinned_url].
  - by rewrite bool_decide_true in E.
Qed.

(** ** Concrete references *)

Definition ubuntu : OciReference :=
  {| oci_host := DEFAULT_HOST; oci_repository := str "library/ubuntu"; oci_tag := Some (str "latest");
     oci_digest := None; oci_scheme := str "https";
     oci_canonical := str "registry-1.docker.io/library/ubuntu:latest" |}.
Definition ubuntu_manifests : OciReference :=
  {| oci_host := str "localhost:5000"; oci_repository := str "ubuntu"; oci_tag := Some (str "manifests");
     oci_digest := None; oci_scheme := str "http";
     oci_canonical := str "localhost:5000/ubuntu:manifests" |}.

Lemma canonical_identifies_reference_witness :
  OciReference_parse (str "registry-1.docker.io/library/ubuntu:latest") = Ok ubuntu
  /\ (OciReference_eq ubuntu ubuntu = true
      <-> oci_host ubuntu = oci_host ubuntu /\ oci_repository ubuntu = oci_repository ubuntu
          /\ oci_tag ubuntu = oci_tag ubuntu /\ oci_digest ubuntu = oci_digest ubuntu).
Proof.
  refine (canonical_identifies_reference (str "ubuntu") (str "ubuntu:latest") ubuntu ubuntu _ _);
    vm_compute; reflexivity.
Defined.

(** A URL parser that knows two URLs. *)
Definition toy_url (r : OciReference) (host : bytes) (port : option Z) : Url :=
  {| url_scheme := oci_scheme r; url_host_str := Some host; url_port := port;
     url_path := str "/v2/" ++ oci_repository r ++ str "/manifests/" ++ selector r |}.
Definition toy_Url_parse (b : bytes) : option Url :=
  if decide (b = manifest_url ubuntu) then Some (toy_url ubuntu DEFAULT_HOST None)
  else if decide (b = manifest_url ubuntu_manifests)
  then Some (toy_url ubuntu_manifests (str "localhost") (Some 5000)) else None.

Lemma manifest_url_round_trip_witness :
  from_manifest_url toy_Url_parse (manifest_url ubuntu) = Ok (pinned ubuntu)
  /\ from_manifest_url toy_Url_parse (manifest_url ubuntu_manifests) = Err Oci_InvalidManifestUrl.
Proof.
  split.
  - refine (proj1 (proj1 (manifest_url_round_trip toy_Url_parse (str "ubuntu") ubuntu
      (toy_url ubuntu DEFAULT_HOST None) _ _ _) _)); [vm_compute; reflexivity..| |].
    + split_and!; [done| |done]. by exists DEFAULT_HOST.
    + vm_compute. discriminate.
  - refine (proj2 (manifest_url_round_trip toy_Url_parse (str "http://localhost:5000/ubuntu:manifests")
      ubuntu_manifests (toy_url ubuntu_manifests (str "localhost") (Some 5000)) _ _ _) _);
      [vm_compute; reflexivity..| |].
    + split_and!; [done| |done]. exists (str "localhost"). split; [done|]. vm_compute. reflexivity.
    + vm_compute. reflexivity.
Defined.
