(* ===== verification/BTree.v ===== *)
(** * Ordered maps

    [std::collections::BTreeMap] as a list of bindings sorted by key: lookup,
    insertion, removal, and iteration in key order.  The key types the
    sources use are instances of [KeyOrder]. *)

From Stdlib Require Import ZArith Lia Sorted.
From stdpp Require Import base tactics option list numbers sorting.
From S2P Require Import Prelude Bytes Text.

Class KeyOrder (K : Type) := {
  key_eq_dec :: EqDecision K;
  key_ltb : K -> K -> bool;
  key_irrefl k : key_ltb k k = false;
  key_trans a b c : key_ltb a b = true -> key_ltb b c = true -> key_ltb a c = true;
  key_total a b : key_ltb a b = true \/ a = b \/ key_ltb b a = true;
}.

#[global, program] Instance bytes_order : KeyOrder bytes := {| key_ltb := bytes_ltb |}.
Next Obligation. intros s. apply not_true_iff_false, bytes_lt_irrefl. Qed.
Next Obligation. intros s t u. apply bytes_lt_trans. Qed.
Next Obligation. intros s t. apply bytes_lt_total. Qed.

#[global, program] Instance Z_order : KeyOrder Z := {| key_ltb := Z.ltb |}.
Next Obligation. intros. apply Z.ltb_irrefl. Qed.
Next Obligation. intros a b c. rewrite !Z.ltb_lt. lia. Qed.
Next Obligation. intros a b. rewrite !Z.ltb_lt. lia. Qed.

(** Tuples compare lexicographically. *)
#[global, program] Instance pair_order {A B} `{KeyOrder A, KeyOrder B} : KeyOrder (A * B) :=
  {| key_ltb := fun x y =>
       key_ltb (fst x) (fst y) || (bool_decide (fst x = fst y) && key_ltb (snd x) (snd y)) |}.
Next Obligation. intros A B HA HB [a b]. cbn. by rewrite !key_irrefl, andb_false_r. Qed.
Next Obligation.
  intros A B HA HB [a b] [a' b'] [a'' b'']. cbn.
  rewrite !orb_true_iff, !andb_true_iff, !bool_decide_eq_true.
  intros [H1|[-> H1]] [H2|[-> H2]]; [left; by eapply key_trans|by left..|].
  right. split; [done|by eapply key_trans].
Qed.
Next Obligation.
  intros A B HA HB [a b] [a' b']. cbn.
  rewrite !orb_true_iff, !andb_true_iff, !bool_decide_eq_true.
  destruct (key_total a a') as [?|[->|?]]; [auto| |auto].
  destruct (key_total b b') as [?|[->|?]]; auto.
Qed.

Section BTree.
Context {K V : Type} `{KeyOrder K}.

Definition btree := list (K * V).

Fixpoint bt_get (k : K) (m : btree) : option V :=
  match m with
  | [] => None
  | (k', v) :: m => if decide (k = k') then Some v else bt_get k m
  end.

Fixpoint bt_insert (k : K) (v : V) (m : btree) : btree :=
  match m with
  | [] => [(k, v)]
  | (k', v') :: m' =>
    if key_ltb k k' then (k, v) :: m
    else if decide (k = k') then (k, v) :: m'
    else (k', v') :: bt_insert k v m'
  end.

Fixpoint bt_remove (k : K) (m : btree) : btree :=
  match m with
  | [] => []
  | (k', v) :: m => if decide (k = k') then m else (k', v) :: bt_remove k m
  end.

Definition bt_keys (m : btree) : list K := map fst m.
Definition bt_contains (k : K) (m : btree) : bool :=
  match bt_get k m with Some _ => true | None => false end.

(** [for victim in victims { map.remove(&victim) }] *)
Definition bt_remove_all (ks : list K) (m : btree) : btree :=
  fold_left (fun m k => bt_remove k m) ks m.

(** Keys strictly increasing. *)
Definition bt_wf (m : btree) : Prop :=
  StronglySorted (fun a b => key_ltb (fst a) (fst b) = true) m.

Lemma bt_wf_nil : bt_wf [].
Proof. constructor. Qed.

Lemma key_lt_ne a b : key_ltb a b = true -> a <> b.
Proof. intros H1 ->. by rewrite key_irrefl in H1. Qed.

(** Below the first key nothing is found. *)
Lemma bt_get_below k k' v m :
  bt_wf ((k', v) :: m) -> key_ltb k k' = true -> bt_get k ((k', v) :: m) = None.
Proof.
  intros Hs Hlt. inversion Hs as [|? ? _ Hf]; subst. cbn.
  rewrite decide_False by (by apply key_lt_ne).
  induction Hf as [|[k2 v2] m Hk2 _ IH]; [done|]. cbn in *.
  rewrite decide_False by (apply key_lt_ne; by eapply key_trans). apply IH.
  inversion Hs as [|? ? Hs' Hf']; subst. inversion Hs'; subst. inversion Hf'; subst. by constructor.
Qed.

Lemma bt_get_insert k k' v m :
  bt_wf m -> bt_get k (bt_insert k' v m) = if decide (k = k') then Some v else bt_get k m.
Proof.
  intros Hs. induction m as [|[k2 v2] m IH]; [done|].
  cbn [bt_insert]. destruct (key_ltb k' k2) eqn:Hlt.
  { cbn [bt_get]. by case_decide. }
  destruct (decide (k' = k2)) as [->|Hne].
  { cbn [bt_get]. by case_decide. }
  cbn [bt_get]. inversion Hs; subst. rewrite IH by done.
  destruct (decide (k = k2)) as [->|]; [|done]. by rewrite decide_False.
Qed.

Lemma bt_wf_insert k v m : bt_wf m -> bt_wf (bt_insert k v m).
Proof.
  intros Hs. induction m as [|[k2 v2] m IH]; [by repeat constructor|].
  inversion Hs as [|? ? Hs' Hf]; subst. cbn [bt_insert].
  destruct (key_ltb k k2) eqn:Hlt.
  { constructor; [done|]. constructor; [done|]. eapply Forall_impl; [exact Hf|].
    intros [k3 v3]. cbn. by apply key_trans. }
  destruct (decide (k = k2)) as [->|Hne]; [by constructor|].
  constructor; [by apply IH|]. clear IH Hs Hs'.
  induction Hf as [|[k3 v3] m Hk3 Hf IH]; cbn [bt_insert].
  - constructor; [|done]. destruct (key_total k k2) as [?|[?|?]]; [congruence|done|done].
  - destruct (key_total k k2) as [?|[?|Hk]]; [congruence|done|].
    destruct (key_ltb k k3); [by repeat constructor|].
    destruct (decide (k = k3)); by constructor.
Qed.

Lemma bt_insert_subset k v m x : x ∈ bt_insert k v m -> x = (k, v) \/ x ∈ m.
Proof.
  induction m as [|[k' v'] m IH]; cbn; [by intros ->%list_elem_of_singleton; left|].
  destruct (key_ltb k k'); [by intros [?|?]%elem_of_cons; [left|right]|]. case_decide.
  - intros [?|?]%elem_of_cons; [by left|right]. by right.
  - intros [?|[?|?]%IH]%elem_of_cons; [right; subst; by left|by left|right; by right].
Qed.

Lemma bt_remove_subset k m : Forall (fun x => x ∈ m) (bt_remove k m).
Proof.
  induction m as [|[k' v] m IH]; cbn; [constructor|]. case_decide.
  - apply Forall_forall. intros x Hx. by right.
  - constructor; [by left|]. eapply Forall_impl; [exact IH|]. intros x Hx. by right.
Qed.

Lemma bt_wf_remove k m : bt_wf m -> bt_wf (bt_remove k m).
Proof.
  induction 1 as [|[k' v] m Hs IH Hf]; cbn; [constructor|]. case_decide; [done|].
  constructor; [done|]. rewrite Forall_forall in Hf.
  eapply Forall_impl; [apply bt_remove_subset|]. intros x Hx. by apply Hf.
Qed.

Lemma bt_get_remove k k' m :
  bt_wf m -> bt_get k (bt_remove k' m) = if decide (k = k') then None else bt_get k m.
Proof.
  induction 1 as [|[k2 v] m Hs IH Hf]; cbn; [by case_decide|].
  destruct (decide (k' = k2)) as [->|Hne].
  - destruct (decide (k = k2)) as [->|]; [|done].
    destruct m as [|[k3 v3] m]; [done|]. inversion Hf; subst. by apply bt_get_below.
  - cbn. rewrite IH. destruct (decide (k = k2)) as [->|]; [|done].
    by rewrite decide_False.
Qed.

Lemma bt_remove_all_spec ks m :
  bt_wf m ->
  bt_wf (bt_remove_all ks m)
  /\ forall k, bt_get k (bt_remove_all ks m) = if decide (k ∈ ks) then None else bt_get k m.
Proof.
  revert m. induction ks as [|k ks IH]; intros m Hs; cbn.
  - split; [done|]. intros k. rewrite decide_False; [done|]. apply not_elem_of_nil.
  - destruct (IH (bt_remove k m)) as [H1 H2]; [by apply bt_wf_remove|]. split; [done|].
    intros k'. rewrite H2, bt_get_remove by done.
    destruct (decide (k' ∈ ks)) as [Hin|Hin].
    + rewrite decide_True; [done|by right].
    + destruct (decide (k' = k)) as [->|Hne].
      * rewrite decide_True; [done|by left].
      * rewrite decide_False; [done|]. rewrite elem_of_cons. tauto.
Qed.

Lemma bt_keys_get k m : k ∈ bt_keys m <-> is_Some (bt_get k m).
Proof.
  induction m as [|[k' v] m IH]; cbn.
  - split; [by intros ?%not_elem_of_nil|by intros []].
  - rewrite elem_of_cons, IH. case_decide; naive_solver.
Qed.

Lemma bt_contains_get k m : bt_contains k m = true <-> is_Some (bt_get k m).
Proof. unfold bt_contains. destruct (bt_get k m); split; try done; by intros []. Qed.

Lemma bt_get_in k v m : bt_get k m = Some v -> (k, v) ∈ m.
Proof.
  induction m as [|[k' v'] m IH]; [done|]. cbn. case_decide; [|by right; apply IH].
  intros [= <-]. subst. by left.
Qed.

(** A binding of a well-formed map is what lookup finds. *)
Lemma bt_get_elem k v m : bt_wf m -> (k, v) ∈ m <-> bt_get k m = Some v.
Proof.
  intros Hs. split.
  - induction Hs as [|[k' v'] m Hs IH Hf]; [by intros ?%not_elem_of_nil|].
    rewrite elem_of_cons. intros [[= <- <-]|Hin]; cbn; [by rewrite decide_True|].
    rewrite Forall_forall in Hf. specialize (Hf _ Hin). cbn in Hf.
    rewrite decide_False; [by apply IH|]. intros ->. by rewrite key_irrefl in Hf.
  - apply bt_get_in.
Qed.

Lemma bt_keys_sorted m : bt_wf m -> StronglySorted (fun a b => key_ltb a b = true) (bt_keys m).
Proof. induction 1 as [|x m Hs IH Hf]; cbn; constructor; [done|]. by apply Forall_map. Qed.

Lemma sorted_app_lt (l1 l2 : list K) a b :
  StronglySorted (fun a b => key_ltb a b = true) (l1 ++ l2) -> a ∈ l1 -> b ∈ l2 -> key_ltb a b = true.
Proof.
  induction l1 as [|x l1 IH]; intros Hs Ha Hb; [by apply not_elem_of_nil in Ha|].
  cbn in Hs. inversion Hs as [|? ? Hs' Hf]; subst. apply elem_of_cons in Ha as [->|Ha]; [|by apply IH].
  rewrite Forall_forall in Hf. apply Hf, elem_of_app. by right.
Qed.

Lemma sorted_keys_NoDup ks : StronglySorted (fun a b => key_ltb a b = true) ks -> NoDup ks.
Proof.
  induction 1 as [|k ks _ IH Hf]; constructor; [|done]. intros Hin.
  rewrite Forall_forall in Hf. apply Hf in Hin. by rewrite key_irrefl in Hin.
Qed.

Lemma bt_keys_NoDup m : bt_wf m -> NoDup (bt_keys m).
Proof. intros Hs. by apply sorted_keys_NoDup, bt_keys_sorted. Qed.
End BTree.
Arguments btree : clear implicits.
#[export] Hint Resolve bt_wf_nil bt_wf_insert bt_wf_remove : jyth.
