(* ===== verification/Cpio.v ===== *)
(** * CPIO archives

    [libs/image-core/src/ops/cpio.rs]: the path normalisation every archive
    name goes through, and the [newc] record writer. *)

From Stdlib Require Import ZArith Lia Ascii.
From stdpp Require Import base tactics option list numbers strings.
From S2P Require Import Prelude Bytes Text.

Inductive OperationError :=
  | Op_ReadSource
  | Op_WriteDestination
  | Op_HttpRequest
  | Op_HttpStatus
  | Op_SizeMismatch
  | Op_DigestMismatch
  | Op_UnsupportedCompression
  | Op_UnsupportedArtifact
  | Op_InvalidTar
  | Op_InvalidCpio
  | Op_UnsafePath
  | Op_KernelNotFound
  | Op_InvalidKernel
  | Op_InvalidManifest
  | Op_PlatformNotFound
  | Op_Cancelled.

Definition p_slash : byte := chr "/".
Definition p_backslash : byte := chr "\".
Definition p_dot : byte := chr ".".
Definition dot : bytes := [p_dot].
Definition dotdot : bytes := [p_dot; p_dot].

(** ** Path normalisation *)

Definition is_separator (b : byte) : bool := is_byte p_slash b || is_byte p_backslash b.

(** The [while let Some(rest) = cursor.strip_prefix("./")...] loop. *)
Fixpoint strip_current_dir (s : bytes) : bytes :=
  match s with
  | b :: (c :: rest) as s' =>
      if is_byte p_dot b && is_separator c then strip_current_dir rest else s
  | _ => s
  end.

(** One trailing separator is a directory marker. *)
Definition strip_trailing_separator (s : bytes) : bytes :=
  match last s with
  | Some b => if is_separator b then removelast s else s
  | None => s
  end.

(** The component walk, [out] so far. *)
Definition walk_segment (out segment : bytes) : res OperationError bytes :=
  if is_empty segment then Err Op_UnsafePath
  else if bool_decide (segment = dotdot) then Err Op_UnsafePath
  else if bool_decide (segment = dot) then
    _ ← fail_if (negb (is_empty out)) Op_UnsafePath;
    Ok (out ++ dot)
  else
    let out := if negb (is_empty out) && negb (ends_with [p_slash] out) then out ++ [p_slash] else out in
    Ok (out ++ segment).

Definition has_drive_prefix (raw : bytes) : bool :=
  match raw with _ :: c :: _ => is_byte (chr ":") c | _ => false end.

Definition normalize_path (raw : bytes) : res OperationError bytes :=
  _ ← fail_if (has_drive_prefix raw) Op_UnsafePath;
  _ ← fail_if (match raw with c :: _ => is_separator c | [] => false end) Op_UnsafePath;
  _ ← fail_if (is_empty raw) Op_UnsafePath;
  let cursor := strip_current_dir raw in
  if is_empty cursor then Ok dot else
  let cursor := strip_trailing_separator cursor in
  if is_empty cursor then Ok dot else
  let normalized := replace_byte p_backslash p_slash cursor in
  out ← for_each walk_segment (split_on p_slash normalized) [];
  _ ← fail_if (is_empty out) Op_UnsafePath;
  Ok out.

(** ** The [newc] writer *)

Definition MAGIC_NEWC : bytes := str "070701".
Definition HEADER_LEN : Z := 110.
Definition TRAILER_NAME : bytes := str "TRAILER!!!".

Inductive Body := Body_Empty | Body_Owned (b : bytes).

Record Record_ := {
  rec_name : bytes;
  rec_mode : Z;
  rec_uid : Z;
  rec_gid : Z;
  rec_mtime : Z;
  rec_nlink : Z;
  rec_dev_major : Z;
  rec_dev_minor : Z;
  rec_ino : Z;
  rec_rdev_major : Z;
  rec_rdev_minor : Z;
  rec_body : Body;
}.

Definition hex_digit (d : Z) : byte := z2b (if d <? 10 then 48 + d else 87 + d).
(** [{:08x}] of a [u32]. *)
Definition hex8 (value : Z) : bytes :=
  map (fun i => hex_digit (Z.land (Z.shiftr value (4 * i)) 15)) [7; 6; 5; 4; 3; 2; 1; 0].

Definition pad_bytes (n : Z) : bytes :=
  let overhang := n mod 4 in
  if overhang =? 0 then [] else replicate (Z.to_nat (4 - overhang)) (z2b 0).

Definition encode_header (record : Record_) (file_size name_len : Z) : bytes :=
  MAGIC_NEWC
  ++ hex8 (rec_ino record) ++ hex8 (rec_mode record) ++ hex8 (rec_uid record)
  ++ hex8 (rec_gid record) ++ hex8 (rec_nlink record) ++ hex8 (rec_mtime record)
  ++ hex8 file_size ++ hex8 (rec_dev_major record) ++ hex8 (rec_dev_minor record)
  ++ hex8 (rec_rdev_major record) ++ hex8 (rec_rdev_minor record)
  ++ hex8 (name_len mod 2 ^ 32) ++ hex8 0
  ++ rec_name record ++ [z2b 0] ++ pad_bytes (HEADER_LEN + name_len).

(** The bytes [write_entry] appends. *)
Definition write_entry (record : Record_) : res OperationError bytes :=
  file_size ← match rec_body record with
              | Body_Empty => Ok 0
              | Body_Owned b => _ ← fail_if (U32_MAX <? len b) Op_InvalidCpio; Ok (len b)
              end;
  let name_len := len (rec_name record) + 1 in
  Ok (encode_header record file_size name_len
      ++ match rec_body record with Body_Empty => [] | Body_Owned b => b end
      ++ pad_bytes file_size).

(** [copy_exactly]: the first [size] bytes of the reader, which fails if it
    holds fewer. *)
Definition copy_exactly (reader : bytes) (size : Z) : res OperationError bytes :=
  _ ← fail_if (len reader <? size) Op_InvalidTar;
  Ok (take (Z.to_nat size) reader).

Definition write_streaming_entry (record : Record_) (size : Z) (reader : bytes)
    : res OperationError bytes :=
  let name_len := len (rec_name record) + 1 in
  body ← copy_exactly reader size;
  Ok (encode_header record size name_len ++ body ++ pad_bytes size).

Definition trailer_record : Record_ :=
  {| rec_name := TRAILER_NAME; rec_mode := 0; rec_uid := 0; rec_gid := 0; rec_mtime := 0;
     rec_nlink := 1; rec_dev_major := 0; rec_dev_minor := 0; rec_ino := 0; rec_rdev_major := 0;
     rec_rdev_minor := 0; rec_body := Body_Empty |}.
Definition write_trailer : res OperationError bytes := write_entry trailer_record.

(** ** Normal paths *)

(** A component that stays where it is: not empty, not [.] or [..], and
    without separators of either kind. *)
Definition normal_segment (seg : bytes) : Prop :=
  seg <> [] /\ seg <> dot /\ seg <> dotdot /\ (p_slash ∉ seg) /\ (p_backslash ∉ seg).

(** A relative path of normal components. *)
Definition normal_path (p : bytes) : Prop :=
  exists segs, segs <> [] /\ Forall normal_segment segs /\ p = join_with [p_slash] segs.

Lemma ends_with_slash_false s : p_slash ∉ s -> s <> [] -> ends_with [p_slash] s = false.
Proof.
  intros Hs Hne. unfold ends_with, strip_suffix. destruct (strip_prefix _ (reverse s)) as [t|] eqn:E; [|done].
  apply strip_prefix_Some in E. exfalso. apply Hs. rewrite <-elem_of_reverse, E. by left.
Qed.

Lemma ends_with_app_free s t : p_slash ∉ t -> t <> [] -> ends_with [p_slash] (s ++ t) = false.
Proof.
  intros Ht Hne. unfold ends_with, strip_suffix. destruct (strip_prefix _ (reverse (s ++ t))) as [u|] eqn:E; [|done].
  apply strip_prefix_Some in E. exfalso. rewrite reverse_app in E.
  destruct (reverse t) as [|b t'] eqn:Er; [by apply Hne; rewrite <-(reverse_involutive t), Er|].
  cbn in E. injection E as -> _. apply Ht. rewrite <-elem_of_reverse, Er. by left.
Qed.

Lemma walk_segment_ok out seg o :
  out <> [] -> ends_with [p_slash] out = false ->
  walk_segment out seg = Ok o <->
  (seg <> [] /\ seg <> dot /\ seg <> dotdot) /\ o = out ++ [p_slash] ++ seg.
Proof.
  intros Hne He. unfold walk_segment. rewrite He, (proj2 (is_empty_false out) Hne).
  destruct seg as [|b seg]; cbn [is_empty]; [naive_solver|].
  repeat case_bool_decide; cbn [negb andb fail_if mbind res_bind]; [naive_solver..|].
  rewrite app_assoc. naive_solver.
Qed.

Lemma walk_segment_first seg o :
  walk_segment [] seg = Ok o <-> (seg <> [] /\ seg <> dotdot) /\ o = seg.
Proof.
  unfold walk_segment. destruct seg as [|b seg]; cbn [is_empty]; [naive_solver|].
  case_bool_decide as E1; [split; [done|tauto]|].
  case_bool_decide as E2.
  - rewrite E2 in *. cbn. split; [by intros [= <-]|by intros [_ ->]].
  - cbn. split; [by intros [= <-]|by intros [_ ->]].
Qed.

(** The walk continues a non-empty output with normal components only. *)
Lemma walk_from segs out out' :
  Forall (fun seg => (p_slash ∉ seg) /\ (p_backslash ∉ seg)) segs ->
  out <> [] -> ends_with [p_slash] out = false ->
  for_each walk_segment segs out = Ok out' <->
  Forall normal_segment segs /\ out' = join_with [p_slash] (out :: segs).
Proof.
  revert out. induction segs as [|seg segs IH]; intros out Hf Hne He.
  { cbn. split; [by intros [= <-]|]. by intros [_ ->]. }
  apply Forall_cons in Hf as [[Hs Hb] Hf]. cbn [for_each]. rewrite bind_ok_iff.
  setoid_rewrite walk_segment_ok; [|done..]. rewrite Forall_cons.
  assert (forall o, seg <> [] -> o = out ++ [p_slash] ++ seg ->
    for_each walk_segment segs o = Ok out' <->
    Forall normal_segment segs /\ out' = join_with [p_slash] (out :: seg :: segs)) as HI.
  { intros o Hn ->. rewrite IH.
    - cbn [join_with]. destruct segs; by rewrite <-?app_assoc.
    - done.
    - by destruct out.
    - rewrite app_assoc. by apply ends_with_app_free. }
  unfold normal_segment at 1. split.
  - intros (o & [Hn ->] & Ho). apply HI in Ho; [|tauto|done]. tauto.
  - intros [[Hn Hsegs] Hj]. eexists. split; [split; [tauto|done]|]. apply HI; tauto.
Qed.

(** After the loop no leading [./] is left. *)
Definition no_current_dir (s : bytes) : Prop :=
  match s with b :: c :: _ => is_byte p_dot b && is_separator c = false | _ => True end.

Lemma strip_current_dir_done s : no_current_dir (strip_current_dir s).
Proof.
  remember (length s) as n eqn:Hn. revert s Hn.
  induction (lt_wf n) as [n _ IH]. intros s ->. destruct s as [|b [|c s]]; [done|done|].
  cbn [strip_current_dir]. destruct (is_byte p_dot b && is_separator c) eqn:E.
  - apply (IH (length s)); [cbn; lia|done].
  - by cbn.
Qed.

Lemma strip_current_dir_id s : no_current_dir s -> strip_current_dir s = s.
Proof. destruct s as [|b [|c s]]; [done|done|]. cbn. by intros ->. Qed.

Lemma strip_trailing_no_current_dir s : no_current_dir s -> no_current_dir (strip_trailing_separator s).
Proof.
  unfold strip_trailing_separator. destruct (last s) as [b|]; [|done]. destruct (is_separator b); [|done].
  destruct s as [|x [|y [|z s]]]; done.
Qed.

Lemma replace_byte_no_source a b s : a <> b -> a ∉ replace_byte a b s.
Proof.
  intros Hab Hin. unfold replace_byte in Hin. apply list_elem_of_In, in_map_iff in Hin as (x & E & _).
  case_decide; congruence.
Qed.

Lemma replace_byte_id a b s : a ∉ s -> replace_byte a b s = s.
Proof.
  intros Ha. unfold replace_byte. induction s as [|x s IH]; cbn; [done|].
  apply not_elem_of_cons in Ha as [Hx Hs]. rewrite decide_False, IH by done. done.
Qed.

(** A first component [.] is the whole path. *)
Lemma dot_first_alone s rest :
  no_current_dir s -> split_on p_slash (replace_byte p_backslash p_slash s) = dot :: rest -> rest = [].
Proof.
  intros Hn E. pose proof (join_split p_slash (replace_byte p_backslash p_slash s)) as Hj.
  rewrite E in Hj. destruct rest as [|seg rest]; [done|]. exfalso. cbn [join_with dot app] in Hj.
  unfold replace_byte in Hj. destruct s as [|b [|c s]]; cbn [map] in Hj; [done|done|].
  injection Hj as Hb Hc _.
  assert (b = p_dot) as ->.
  { destruct (decide (b = p_backslash)) as [->|]; [discriminate Hb|done]. }
  unfold no_current_dir in Hn. rewrite is_byte_refl in Hn. cbn in Hn.
  unfold is_separator, is_byte in Hn.
  destruct (decide (c = p_backslash)) as [->|]; [done|]. subst c. done.
Qed.

Definition split_free (segs : list bytes) : Prop :=
  Forall (fun seg => (p_slash ∉ seg) /\ (p_backslash ∉ seg)) segs.

Lemma normalized_segments s : split_free (split_on p_slash (replace_byte p_backslash p_slash s)).
Proof.
  unfold split_free. apply Forall_and. split; [apply split_on_free|].
  apply Forall_forall. intros seg Hseg Hin.
  apply (replace_byte_no_source p_backslash p_slash s); [done|].
  rewrite <-(join_split p_slash (replace_byte p_backslash p_slash s)).
  revert Hseg. generalize (split_on p_slash (replace_byte p_backslash p_slash s)) as segs.
  induction segs as [|x segs IH]; [by intros ?%not_elem_of_nil|].
  rewrite elem_of_cons. intros [<-|Hseg].
  - destruct segs; cbn [join_with]; [done|]. apply elem_of_app. by left.
  - destruct segs as [|y segs]; [by apply not_elem_of_nil in Hseg|]. cbn [join_with].
    apply elem_of_app. right. right. by apply IH.
Qed.

(** What the walk accepts from the start. *)
Lemma walk_all segs out :
  segs <> [] -> split_free segs ->
  for_each walk_segment segs [] = Ok out <->
  out = join_with [p_slash] segs
  /\ exists seg rest, segs = seg :: rest /\ (seg = dot \/ normal_segment seg) /\ Forall normal_segment rest.
Proof.
  intros Hne Hf. destruct segs as [|seg rest]; [done|]. unfold split_free in Hf.
  apply Forall_cons in Hf as [[Hs Hb] Hf]. cbn [for_each]. rewrite bind_ok_iff.
  setoid_rewrite walk_segment_first.
  assert (seg <> [] -> for_each walk_segment rest seg = Ok out
          <-> Forall normal_segment rest /\ out = join_with [p_slash] (seg :: rest)) as HW.
  { intros Hn. apply walk_from; [done|done|by apply ends_with_slash_false]. }
  split.
  - intros (o & [[Hn Hdd] ->] & Ho). apply HW in Ho as [Hr ->]; [|done]. split; [done|].
    exists seg, rest. split_and!; [done| |done].
    destruct (decide (seg = dot)); [by left|right]. by split_and!.
  - intros (-> & s' & r' & [= <- <-] & Hseg & Hr). exists seg.
    assert (seg <> [] /\ seg <> dotdot) as [Hn Hdd].
    { destruct Hseg as [->|(? & _ & ? & _)]; done. }
    split; [done|]. by apply HW.
Qed.

Lemma normal_byte seg b : normal_segment seg -> b ∈ seg -> is_separator b = false.
Proof.
  intros (_ & _ & _ & Hs & Hb) Hin. unfold is_separator, is_byte. apply orb_false_iff.
  split; apply bool_decide_eq_false; by intros ->.
Qed.

Lemma join_last segs :
  segs <> [] -> Forall normal_segment segs ->
  exists pre x, join_with [p_slash] segs = pre ++ [x] /\ is_separator x = false.
Proof.
  intros Hne Hf. induction Hf as [|seg segs Hseg _ IH]; [done|]. destruct segs as [|s2 segs].
  - cbn [join_with]. destruct (exists_last (proj1 Hseg)) as (pre & x & ->). exists pre, x. split; [done|].
    eapply normal_byte; [exact Hseg|]. apply elem_of_app. right. by left.
  - destruct IH as (pre & x & E & Hx); [done|]. exists (seg ++ [p_slash] ++ pre), x. split; [|done].
    cbn [join_with] in *. by rewrite E, <-!app_assoc.
Qed.

Lemma normal_path_facts p :
  normal_path p ->
  p <> [] /\ no_current_dir p /\ (p_backslash ∉ p) /\ strip_trailing_separator p = p
  /\ match p with c :: _ => is_separator c = false | [] => True end
  /\ exists segs, segs <> [] /\ split_on p_slash p = segs /\ Forall normal_segment segs.
Proof.
  intros (segs & Hne & Hf & ->).
  assert (split_on p_slash (join_with [p_slash] segs) = segs) as Hsplit.
  { apply split_join; [done|]. eapply Forall_impl; [exact Hf|]. by intros seg (_ & _ & _ & ? & _). }
  assert (p_backslash ∉ join_with [p_slash] segs) as Hbs.
  { assert (Forall (fun b => b <> p_backslash) (join_with [p_slash] segs)) as HF.
    { clear Hsplit Hne. induction Hf as [|seg segs (_ & _ & _ & _ & Hb) _ IH]; [constructor|].
      assert (Forall (fun b => b <> p_backslash) seg) as Hseg
        by (apply Forall_forall; by intros x Hx ->).
      destruct segs; cbn [join_with]; [done|]. apply Forall_app. split; [done|]. by constructor. }
    intros Hin. rewrite Forall_forall in HF. by apply (HF _ Hin). }
  destruct segs as [|seg segs]; [done|]. pose proof Hf as [(Hn & Hd & _ & Hs & Hb) Hr]%Forall_cons.
  destruct seg as [|b seg]; [done|].
  assert (is_separator b = false) as Hsep.
  { apply Forall_cons in Hf as [Hseg _]. eapply normal_byte; [exact Hseg|by left]. }
  split_and!; try done.
  - by destruct segs.
  - destruct seg as [|c seg].
    + destruct segs as [|s2 segs]; [done|]. cbn. apply andb_false_iff. left.
      apply bool_decide_eq_false. by intros ->.
    + assert (is_separator c = false) as Hc.
      { apply Forall_cons in Hf as [Hseg _]. eapply normal_byte; [exact Hseg|right; by left]. }
      destruct segs; cbn; by rewrite Hc, andb_false_r.
  - destruct (join_last ((b :: seg) :: segs)) as (pre & x & -> & Hx); [done|done|].
    unfold strip_trailing_separator. by rewrite last_snoc, Hx.
  - destruct segs; done.
  - by exists ((b :: seg) :: segs).
Qed.

Lemma normalize_path_inv raw out :
  normalize_path raw = Ok out -> out = dot \/ normal_path out.
Proof.
  unfold normalize_path. intros [_ [_ [_ H]%guard_ok_iff]%guard_ok_iff]%guard_ok_iff.
  destruct (is_empty (strip_current_dir raw)); [by left; injection H|].
  set (cursor := strip_trailing_separator (strip_current_dir raw)) in H.
  assert (no_current_dir cursor) as Hcur
    by apply strip_trailing_no_current_dir, strip_current_dir_done.
  destruct (is_empty cursor); [by left; injection H|].
  apply bind_ok_iff in H as (o & Hw & [_ [= <-]]%guard_ok_iff).
  apply walk_all in Hw as (-> & seg & rest & E & Hseg & Hr);
    [|apply split_by_nonempty|apply normalized_segments].
  destruct Hseg as [->|Hseg].
  - left. rewrite E, (dot_first_alone cursor rest); done.
  - right. rewrite E. exists (seg :: rest). by split_and!; [|constructor|].
Qed.

Lemma normalize_path_normal p :
  normal_path p -> has_drive_prefix p = false -> normalize_path p = Ok p.
Proof.
  intros Hp Hd. destruct (normal_path_facts p Hp) as (Hne & Hcur & Hbs & Htr & Hsep & segs & Hsne & Hsp & Hf).
  unfold normalize_path. rewrite Hd. cbn [fail_if mbind res_bind].
  assert (match p with c :: _ => is_separator c | [] => false end = false) as -> by (by destruct p).
  rewrite strip_current_dir_id, Htr, (proj2 (is_empty_false p) Hne) by done. cbn [fail_if mbind res_bind].
  rewrite replace_byte_id, Hsp by done.
  assert (for_each walk_segment segs [] = Ok p) as ->.
  { apply walk_all; [done| |].
    - eapply Forall_impl; [exact Hf|]. by intros ? (_ & _ & _ & ? & ?).
    - split; [by rewrite <-Hsp, join_split|]. destruct Hf as [|seg rest Hseg Hr]; [done|]. eauto 8. }
  cbn [mbind res_bind]. by rewrite (proj2 (is_empty_false p) Hne).
Qed.

(** archive names are confined to the root.  Every name [normalize_path]
    accepts becomes [.] or a relative path of ordinary components (none empty,
    [.] or [..], no separator of either kind inside), so no accepted name can
    leave the directory it is extracted into; the result is its own normal
    form, unless it begins with a drive prefix such as [C:]; and the function
    never panics. *)
Theorem normalize_path_confined (raw : bytes) :
  normalize_path raw <> Panic
  /\ forall out, normalize_path raw = Ok out ->
       (out = dot \/ normal_path out)
       /\ (has_drive_prefix out = false -> normalize_path out = Ok out).
Proof.
  split.
  - unfold normalize_path. do 3 (apply guard_not_panic; intros _).
    destruct (is_empty _); [done|]. destruct (is_empty _); [done|].
    apply bind_not_panic; [|intros; by apply guard_not_panic].
    apply for_each_not_panic. intros s x. unfold walk_segment.
    repeat case_match; try done. by apply guard_not_panic.
  - intros out H. apply normalize_path_inv in H. split; [done|]. intros Hd.
    destruct H as [->|H]; [done|]. by apply normalize_path_normal.
Qed.

(** a drive prefix hidden behind a leading [./] is not seen: the check runs
    before the leading markers are stripped, so such a name is accepted and
    its normal form is a name the same function refuses. *)
Theorem drive_prefix_survives :
  exists raw out, normalize_path raw = Ok out /\ has_drive_prefix out = true
                  /\ normalize_path out = Err Op_UnsafePath.
Proof.
  exists (str "./C:/windows"), (str "C:/windows"). split_and!; vm_compute; reflexivity.
Qed.

(** ** Record layout *)

Lemma pad_bytes_aligned n : 0 <= n -> (n + len (pad_bytes n)) mod 4 = 0.
Proof.
  intros Hn. unfold pad_bytes. pose proof (Z.mod_pos_bound n 4 ltac:(lia)) as Hb.
  destruct (Z.eqb_spec (n mod 4) 0) as [E|E].
  - rewrite len_nil. by rewrite Z.add_0_r.
  - unfold len. rewrite length_replicate, Z2Nat.id by lia.
    rewrite (Z.div_mod n 4) at 1 by lia.
    replace (4 * (n / 4) + n mod 4 + (4 - n mod 4)) with ((n / 4 + 1) * 4) by lia.
    apply Z.mod_mul. lia.
Qed.

Lemma len_hex8 v : len (hex8 v) = 8.
Proof. reflexivity. Qed.

Lemma encode_header_len r size name_len :
  len (encode_header r size name_len)
  = HEADER_LEN + (len (rec_name r) + 1) + len (pad_bytes (HEADER_LEN + name_len)).
Proof.
  unfold encode_header, HEADER_LEN. rewrite !len_app, !len_hex8.
  change (len MAGIC_NEWC) with 6. change (len [z2b 0]) with 1. lia.
Qed.

Lemma record_aligned r size body out :
  0 <= size -> len body = size ->
  out = encode_header r size (len (rec_name r) + 1) ++ body ++ pad_bytes size -> len out mod 4 = 0.
Proof.
  intros Hs Hb ->. rewrite !len_app, encode_header_len, Hb.
  rewrite <-Z.add_mod_idemp_l by lia.
  rewrite pad_bytes_aligned by (unfold HEADER_LEN; pose proof (len_nonneg (rec_name r)); lia).
  by apply pad_bytes_aligned.
Qed.

Lemma write_entry_aligned r out : write_entry r = Ok out -> len out mod 4 = 0.
Proof.
  unfold write_entry. destruct (rec_body r) as [|b]; cbn [mbind res_bind].
  - intros [= <-]. by apply (record_aligned r 0 []).
  - destruct (U32_MAX <? len b); cbn; [done|]. intros [= <-].
    apply (record_aligned r (len b) b); [apply len_nonneg|done|done].
Qed.

Lemma write_streaming_entry_aligned r size reader out :
  0 <= size -> write_streaming_entry r size reader = Ok out -> len out mod 4 = 0.
Proof.
  intros Hs. unfold write_streaming_entry, copy_exactly.
  destruct (Z.ltb_spec (len reader) size); cbn; [done|]. intros [= <-].
  eapply (record_aligned r size); [done| |done]. unfold len in *. rewrite length_take. lia.
Qed.
