(* ===== verification/Flatten.v ===== *)
(** * Layer flattening

    [libs/image-core/src/ops/flatten.rs]: overlaying a sequence of OCI layers
    into one root file system archive.  The [newc] reader is the [cpio] crate:
    a layer is the sequence of results that reader yields.  The spool file is
    the bytes appended to it. *)

From Stdlib Require Import ZArith Lia Sorted Ascii.
From stdpp Require Import base tactics option list numbers strings.
From S2P Require Import Prelude Bytes Text BTree Cpio.

Definition S_IFMT : Z := 61440.  (* 0o170000 *)
Definition S_IFREG : Z := 32768. (* 0o100000 *)
Definition S_IFDIR : Z := 16384. (* 0o040000 *)
Definition S_IFLNK : Z := 40960. (* 0o120000 *)
Definition MAX_SYMLINK_RESOLUTION_DEPTH : nat := 40.

Record SpoolRange := { sr_offset : Z; sr_size : Z }.

Inductive EntryBody :=
  | EntryBody_Empty
  | EntryBody_Symlink (target : bytes)
  | EntryBody_Spool (range : option SpoolRange).

Record Metadata := {
  md_mode : Z;
  md_uid : Z;
  md_gid : Z;
  md_mtime : Z;
  md_dev_major : Z;
  md_ino : Z;
  md_rdev_major : Z;
  md_rdev_minor : Z;
  md_nlink_source : Z;
  md_source_layer : Z;
  md_body : EntryBody;
}.

Definition is_directory (m : Metadata) : bool := Z.land (md_mode m) S_IFMT =? S_IFDIR.
Definition is_regular (m : Metadata) : bool := Z.land (md_mode m) S_IFMT =? S_IFREG.
Definition link_key (m : Metadata) : Z * Z * Z := (md_source_layer m, md_dev_major m, md_ino m).

Inductive Whiteout :=
  | Whiteout_Named (parent name : bytes)
  | Whiteout_Opaque (parent : bytes).

Inductive LayerEntry :=
  | LayerEntry_Regular (path : bytes) (metadata : Metadata)
  | LayerEntry_Whiteout (w : Whiteout).

(** [State.entries]. *)
Abbreviation State := (btree bytes Metadata).

(** ** Whiteouts *)

(** [map.keys().filter(p)] collected, then each removed. *)
Definition remove_where (p : bytes -> bool) (m : State) : State :=
  bt_remove_all (List.filter p (bt_keys m)) m.

Definition remove_subtree (m : State) (target : bytes) : State :=
  let prefix := target ++ [p_slash] in
  remove_where (fun key => bool_decide (key = target) || starts_with prefix key) m.

Definition apply_whiteout (m : State) (wh : Whiteout) : State :=
  match wh with
  | Whiteout_Named parent name =>
    let target := if is_empty parent then name else parent ++ [p_slash] ++ name in
    remove_subtree m target
  | Whiteout_Opaque parent =>
    let prefix := if is_empty parent then [] else parent ++ [p_slash] in
    remove_where (fun key => is_empty prefix || starts_with prefix key) m
  end.

(** ** Substitution *)

Definition remove_descendants (m : State) (path : bytes) : State :=
  remove_where (starts_with (path ++ [p_slash])) m.

Definition insert_and_replace (m : State) (path : bytes) (metadata : Metadata) : State :=
  let m :=
    match bt_get path m with
    | Some existing =>
      let was_dir := is_directory existing in
      let is_dir := is_directory metadata in
      if was_dir && negb is_dir then remove_descendants m path
      else if is_dir && negb was_dir then bt_remove path m
      else m
    | None => m
    end in
  bt_insert path metadata m.

(** ** Symlinked ancestors *)

(** The component loop: [..] pops, and pops nothing at the root. *)
Definition push_component (normalized : list bytes) (component : bytes) : list bytes :=
  if is_empty component || bool_decide (component = dot) then normalized
  else if bool_decide (component = dotdot) then removelast normalized
  else normalized ++ [component].

Definition join_symlink_target (symlink_path target remainder : bytes) : option bytes :=
  if is_empty target then None else
  let base := if negb (starts_with [p_slash] target)
              then match rsplit_once p_slash symlink_path with
                   | Some (parent, _) => split_on p_slash parent
                   | None => []
                   end
              else [] in
  let components := base ++ split_on p_slash target ++ split_on p_slash remainder in
  Some (join_with [p_slash] (fold_left push_component components [])).

(** What the ancestor scan finds first. *)
Inductive ancestor := NoLink | BadLink | Link (next : bytes).

Fixpoint first_link (entries : State) (prefix : bytes) (components : list bytes) : ancestor :=
  match components with
  | [] => NoLink
  | component :: rest =>
    if is_empty rest then NoLink (* the last component is not an ancestor *)
    else
      let prefix := (if is_empty prefix then prefix else prefix ++ [p_slash]) ++ component in
      match bt_get prefix entries with
      | Some metadata =>
        match md_body metadata with
        | EntryBody_Symlink target =>
          if utf8_valid target
          then match join_symlink_target prefix target (join_with [p_slash] rest) with
               | Some next => Link next
               | None => BadLink
               end
          else first_link entries prefix rest
        | _ => first_link entries prefix rest
        end
      | None => first_link entries prefix rest
      end
  end.

Fixpoint resolve_loop (fuel : nat) (entries : State) (resolved : bytes) : bytes :=
  match fuel with
  | O => resolved
  | S fuel =>
    match first_link entries [] (split_on p_slash resolved) with
    | Link next => resolve_loop fuel entries next
    | NoLink | BadLink => resolved
    end
  end.
Definition resolve_symlink_ancestors (path : bytes) (entries : State) : bytes :=
  resolve_loop MAX_SYMLINK_RESOLUTION_DEPTH entries path.

(** ** Assembling the state *)

(** One layer: whiteouts against the lower layers, then the layer's entries. *)
Definition whiteouts_of (l : list LayerEntry) : list Whiteout :=
  omap (fun e => match e with LayerEntry_Whiteout w => Some w | _ => None end) l.
Definition regulars_of (l : list LayerEntry) : list (bytes * Metadata) :=
  omap (fun e => match e with LayerEntry_Regular p m => Some (p, m) | _ => None end) l.

Definition insert_entry (m : State) (e : bytes * Metadata) : State :=
  insert_and_replace m (resolve_symlink_ancestors (fst e) m) (snd e).

Definition apply_layer (m : State) (l : list LayerEntry) : State :=
  let '(m, regulars) :=
    fold_left (fun '(m, regulars) decoded =>
      match decoded with
      | LayerEntry_Whiteout wh => (apply_whiteout m wh, regulars)
      | LayerEntry_Regular path metadata => (m, regulars ++ [(path, metadata)])
      end) l (m, []) in
  fold_left insert_entry regulars m.

(** ** Reading a layer *)

Definition MAX_IN_MEMORY_ENTRY_BYTES : Z := 67108864.

(** An entry as the [newc] reader presents it: header fields, the body bytes
    still in the archive, and whether the padding after it is complete. *)
Record NewcEntry := {
  ne_name : bytes;
  ne_mode : Z;
  ne_uid : Z;
  ne_gid : Z;
  ne_mtime : Z;
  ne_nlink : Z;
  ne_dev_major : Z;
  ne_dev_minor : Z;
  ne_ino : Z;
  ne_rdev_major : Z;
  ne_rdev_minor : Z;
  ne_file_size : Z;
  ne_body : bytes;
  ne_finish : bool;
}.

(** One turn of the reader: a bad header, the trailer with the outcome of
    draining it and of the one-byte read after it ([None]: read error), or an
    entry.  [st_cancelled] is what the cancellation check before it saw. *)
Inductive newc_read :=
  | Newc_error
  | Newc_trailer (drained : bool) (extra : option bool)
  | Newc_entry (e : NewcEntry).
Record newc_step := { st_cancelled : bool; st_read : newc_read }.

Definition append_body (spool body : bytes) (size : Z) : res OperationError (SpoolRange * bytes) :=
  _ ← fail_if (len body <? size) Op_InvalidCpio;
  Ok ({| sr_offset := len spool; sr_size := size |}, spool ++ take (Z.to_nat size) body).

Definition finish_reader (ok : bool) : res OperationError unit := fail_if (negb ok) Op_InvalidCpio.

Definition decode_entry_metadata (entry : NewcEntry) (spool : bytes) (source_layer : Z)
    : res OperationError (Metadata * bytes) :=
  let file_type := Z.land (ne_mode entry) S_IFMT in
  '(body, spool) ←
    (if file_type =? S_IFREG then
       '(range, spool) ← append_body spool (ne_body entry) (ne_file_size entry);
       _ ← finish_reader (ne_finish entry);
       Ok (EntryBody_Spool (Some range), spool)
     else if file_type =? S_IFLNK then
       _ ← fail_if (MAX_IN_MEMORY_ENTRY_BYTES <? ne_file_size entry) Op_InvalidCpio;
       _ ← fail_if (len (ne_body entry) <? ne_file_size entry) Op_InvalidCpio;
       _ ← finish_reader (ne_finish entry);
       Ok (EntryBody_Symlink (take (Z.to_nat (ne_file_size entry)) (ne_body entry)), spool)
     else
       _ ← finish_reader (ne_finish entry);
       Ok (EntryBody_Empty, spool));
  Ok ({| md_mode := ne_mode entry; md_uid := ne_uid entry; md_gid := ne_gid entry;
         md_mtime := ne_mtime entry; md_dev_major := ne_dev_major entry; md_ino := ne_ino entry;
         md_rdev_major := ne_rdev_major entry; md_rdev_minor := ne_rdev_minor entry;
         md_nlink_source := ne_nlink entry; md_source_layer := source_layer; md_body := body |},
      spool).

Definition parent_dir_of (path : bytes) : bytes :=
  match rsplit_once p_slash path with Some (parent, _) => parent | None => [] end.
Definition basename_of (path : bytes) : bytes :=
  match rsplit_once p_slash path with Some (_, name) => name | None => path end.

(** The whiteout a normalised name stands for. *)
Definition whiteout_of (normalized : bytes) : option Whiteout :=
  match strip_prefix (str ".wh.") (basename_of normalized) with
  | Some rest =>
    if bool_decide (rest = str ".wh..opq") then Some (Whiteout_Opaque (parent_dir_of normalized))
    else Some (Whiteout_Named (parent_dir_of normalized) rest)
  | None => None
  end.

(** The entry loop of [read_layer]; [Panic] marks a reader that stops without
    a result, which it never does. *)
Fixpoint read_entries (steps : list newc_step) (spool : bytes) (source_layer : Z)
    (decoded : list LayerEntry) : res OperationError (list LayerEntry * bytes) :=
  match steps with
  | [] => Panic
  | step :: steps =>
    _ ← fail_if (st_cancelled step) Op_Cancelled;
    match st_read step with
    | Newc_error => Err Op_InvalidCpio
    | Newc_trailer drained extra =>
      _ ← finish_reader drained;
      match extra with
      | Some false => Ok (decoded, spool)
      | Some true | None => Err Op_InvalidCpio
      end
    | Newc_entry entry =>
      normalized ← normalize_path (ne_name entry);
      match whiteout_of normalized with
      | Some wh =>
        _ ← finish_reader (ne_finish entry);
        read_entries steps spool source_layer (decoded ++ [LayerEntry_Whiteout wh])
      | None =>
        '(metadata, spool) ← decode_entry_metadata entry spool source_layer;
        read_entries steps spool source_layer (decoded ++ [LayerEntry_Regular normalized metadata])
      end
    end
  end.

(** A source layer: whether the file's digest is the recorded one, and the
    reader's results. *)
Record layer_source := { ls_digest_ok : bool; ls_steps : list newc_step }.

Definition read_layer (layer : layer_source) (spool : bytes) (source_layer : Z)
    : res OperationError (list LayerEntry * bytes) :=
  _ ← fail_if (negb (ls_digest_ok layer)) Op_DigestMismatch;
  read_entries (ls_steps layer) spool source_layer [].

(** [for (layer_index, layer) in src.iter().enumerate()]. *)
Fixpoint build_layers (src : list layer_source) (layer_index : Z) (entries : State) (spool : bytes)
    : res OperationError (State * bytes) :=
  match src with
  | [] => Ok (entries, spool)
  | layer :: src =>
    '(layer_entries, spool) ← read_layer layer spool layer_index;
    build_layers src (layer_index + 1) (apply_layer entries layer_entries) spool
  end.
Definition build_state (src : list layer_source) : res OperationError (State * bytes) :=
  build_layers src 0 [] [].

(** ** Hard-link planning *)

Abbreviation Assignment := (Z * Z)%type.

Record HardlinkPlan := {
  hp_identity : btree bytes Assignment;
  hp_nlink : btree Assignment Z;
  hp_canonical : btree Assignment bytes;
}.

Definition assignment_for (plan : HardlinkPlan) (path : bytes) : res OperationError (Assignment * bool) :=
  assignment ← expect (bt_get path (hp_identity plan));
  let canonical := default path (bt_get assignment (hp_canonical plan)) in
  Ok (assignment, bool_decide (canonical = path)).

Definition nlink_for (plan : HardlinkPlan) (path : bytes) : res OperationError Z :=
  assignment ← expect (bt_get path (hp_identity plan));
  Ok (default 1 (bt_get assignment (hp_nlink plan))).

Definition body_size_of (m : Metadata) : Z :=
  match md_body m with
  | EntryBody_Empty => 0
  | EntryBody_Symlink target => len target mod 2 ^ 32
  | EntryBody_Spool (Some range) => sr_size range
  | EntryBody_Spool None => 0
  end.

(** Only regular files declared with more than one link are grouped. *)
Definition grouped (m : Metadata) : bool := is_regular m && (1 <? md_nlink_source m).

Abbreviation link_groups := (btree (Z * Z * Z) (list bytes)).
Definition add_to_group (groups : link_groups) (e : bytes * Metadata) : link_groups :=
  let '(path, metadata) := e in
  if negb (grouped metadata) then groups
  else bt_insert (link_key metadata)
         (default [] (bt_get (link_key metadata) groups) ++ [path]) groups.

(** [members.sort()]. *)
Fixpoint sort_insert (p : bytes) (l : list bytes) : list bytes :=
  match l with
  | [] => [p]
  | q :: l' => if key_ltb q p then q :: sort_insert p l' else p :: l
  end.
Definition sort_members (l : list bytes) : list bytes := foldr sort_insert [] l.

(** The member with the largest body, the first of equals. *)
Definition better (state : State) (best current : bytes) : res OperationError bytes :=
  best_size ← body_size_of <$> expect (bt_get best state);
  current_size ← body_size_of <$> expect (bt_get current state);
  Ok (if best_size <? current_size then current else best).
Definition canonical_member (state : State) (members : list bytes) : res OperationError bytes :=
  match members with
  | [] => Panic
  | first :: rest => for_each (better state) rest first
  end.

(** The maps under construction and the next identity. *)
Record planning := { pl_plan : HardlinkPlan; pl_next_dev : Z; pl_next_ino : Z }.

Definition assign (members : list bytes) (canonical : bytes) (p : planning) : planning :=
  let id := (pl_next_dev p, pl_next_ino p) in
  {| pl_plan :=
       {| hp_identity := fold_left (fun m member => bt_insert member id m) members
                           (hp_identity (pl_plan p));
          hp_nlink := bt_insert id (len members mod 2 ^ 32) (hp_nlink (pl_plan p));
          hp_canonical := bt_insert id canonical (hp_canonical (pl_plan p)) |};
     pl_next_dev := saturating_add 32 (pl_next_dev p) 1;
     pl_next_ino := saturating_add 32 (pl_next_ino p) 1 |}.

Definition empty_planning : planning :=
  {| pl_plan := {| hp_identity := []; hp_nlink := []; hp_canonical := [] |};
     pl_next_dev := 1; pl_next_ino := 1 |}.

Definition plan_group (state : State) (p : planning) (group : Z * Z * Z * list bytes)
    : res OperationError planning :=
  let members := sort_members (snd group) in
  canonical ← canonical_member state members;
  Ok (assign members canonical p).

Definition plan_single (p : planning) (path : bytes) : planning :=
  if bt_contains path (hp_identity (pl_plan p)) then p else assign [path] path p.

Definition plan_hardlinks (state : State) : res OperationError HardlinkPlan :=
  let groups := fold_left add_to_group state [] in
  p ← for_each (plan_group state) groups empty_planning;
  Ok (pl_plan (fold_left plan_single (bt_keys state) p)).

(** ** Emission *)

Definition build_record (path : bytes) (metadata : Metadata) (assignment : Assignment) (nlink : Z)
    : Record_ :=
  {| rec_name := path; rec_mode := md_mode metadata; rec_uid := md_uid metadata;
     rec_gid := md_gid metadata; rec_mtime := md_mtime metadata; rec_nlink := nlink;
     rec_dev_major := fst assignment; rec_dev_minor := 0; rec_ino := snd assignment;
     rec_rdev_major := md_rdev_major metadata; rec_rdev_minor := md_rdev_minor metadata;
     rec_body := Body_Empty |}.

Definition emit_entry (plan : HardlinkPlan) (spool : bytes) (path : bytes) (metadata : Metadata)
    : res OperationError bytes :=
  assigned ← assignment_for plan path;
  let (assignment, is_canonical_body) := (assigned : Assignment * bool) in
  nlink ← nlink_for plan path;
  let record := build_record path metadata assignment nlink in
  match md_body metadata with
  | EntryBody_Empty => write_entry record
  | EntryBody_Symlink target =>
    _ ← fail_if (U32_MAX <? len target) Op_InvalidCpio;
    write_streaming_entry record (len target) target
  | EntryBody_Spool (Some range) =>
    if is_canonical_body
    then write_streaming_entry record (sr_size range)
           (take (Z.to_nat (sr_size range)) (drop (Z.to_nat (sr_offset range)) spool))
    else write_entry record
  | EntryBody_Spool None => write_entry record
  end.

Definition emit (state : State) (spool : bytes) : res OperationError bytes :=
  plan ← plan_hardlinks state;
  out ← for_each (fun out (e : bytes * Metadata) =>
          record ← emit_entry plan spool (fst e) (snd e);
          Ok (out ++ record)) state [];
  trailer ← write_trailer;
  Ok (out ++ trailer).

(** [run_blocking]: the archive of the layers. *)
Definition flatten (src : list layer_source) : res OperationError bytes :=
  '(state, spool) ← build_state src;
  emit state spool.

(** ** Overlay operations *)

(** [k] lies strictly below the directory [d] (the root when [d] is empty). *)
Definition below (d k : bytes) : Prop := exists rest, k = d ++ p_slash :: rest.

Lemma starts_with_below d k : starts_with (d ++ [p_slash]) k = true <-> below d k.
Proof.
  rewrite starts_with_true. unfold below. split; intros [t ->]; exists t; by rewrite <-app_assoc.
Qed.

Definition hides (wh : Whiteout) (k : bytes) : Prop :=
  match wh with
  | Whiteout_Named parent name =>
    let target := if is_empty parent then name else parent ++ p_slash :: name in
    k = target \/ below target k
  | Whiteout_Opaque parent => parent = [] \/ below parent k
  end.

#[global] Instance below_dec d k : Decision (below d k).
Proof.
  destruct (starts_with (d ++ [p_slash]) k) eqn:E.
  - left. by apply starts_with_below.
  - right. intros H%starts_with_below. congruence.
Defined.

#[global] Instance hides_dec wh k : Decision (hides wh k).
Proof. destruct wh; cbn; apply _. Defined.

Lemma remove_where_spec p m :
  bt_wf m ->
  bt_wf (remove_where p m) /\ forall k, bt_get k (remove_where p m) = if p k then None else bt_get k m.
Proof.
  intros Hm. unfold remove_where. destruct (bt_remove_all_spec (List.filter p (bt_keys m)) m Hm) as [Hw Hg].
  split; [done|]. intros k. rewrite Hg. case_decide as Hin.
  - apply list_elem_of_In, List.filter_In in Hin as [_ ->]. done.
  - destruct (p k) eqn:Hp; [|done]. destruct (bt_get k m) as [v|] eqn:E; [|done]. exfalso.
    apply Hin, list_elem_of_In, List.filter_In. split; [|done].
    apply list_elem_of_In, bt_keys_get. by rewrite E.
Qed.

Lemma apply_whiteout_spec wh m :
  bt_wf m ->
  bt_wf (apply_whiteout m wh)
  /\ forall k, bt_get k (apply_whiteout m wh) = if decide (hides wh k) then None else bt_get k m.
Proof.
  intros Hm. destruct wh as [parent name|parent]; cbn [apply_whiteout hides].
  - unfold remove_subtree. destruct (remove_where_spec (fun key =>
      bool_decide (key = (if is_empty parent then name else parent ++ [p_slash] ++ name))
      || starts_with ((if is_empty parent then name else parent ++ [p_slash] ++ name) ++ [p_slash]) key)
      m Hm) as [Hw Hg].
    split; [exact Hw|]. intros k. rewrite Hg.
    set (target := if is_empty parent then name else parent ++ p_slash :: name).
    change (if is_empty parent then name else parent ++ [p_slash] ++ name) with target.
    case_decide as Hh.
    + replace (bool_decide (k = target) || starts_with (target ++ [p_slash]) k) with true; [done|].
      symmetry. rewrite orb_true_iff, bool_decide_eq_true, starts_with_below. done.
    + replace (bool_decide (k = target) || starts_with (target ++ [p_slash]) k) with false; [done|].
      symmetry. apply not_true_iff_false. by rewrite orb_true_iff, bool_decide_eq_true, starts_with_below.
  - destruct (remove_where_spec (fun key =>
      is_empty (if is_empty parent then [] else parent ++ [p_slash])
      || starts_with (if is_empty parent then [] else parent ++ [p_slash]) key) m Hm) as [Hw Hg].
    split; [exact Hw|]. intros k. rewrite Hg. destruct parent as [|b parent].
    + cbn [is_empty orb]. rewrite decide_True by (by left). done.
    + cbn [is_empty]. replace (is_empty ((b :: parent) ++ [p_slash])) with false by done. cbn [orb].
      case_decide as Hh.
      * destruct Hh as [|Hh]; [done|]. by apply starts_with_below in Hh as ->.
      * destruct (starts_with ((b :: parent) ++ [p_slash]) k) eqn:E; [|done].
        exfalso. apply Hh. right. by apply starts_with_below.
Qed.

(** Inserting at [path] with [md] removes exactly the entries below it, and
    only when a directory gives way to something else. *)
Definition holds_directory (m : State) (path : bytes) : bool :=
  match bt_get path m with Some old => is_directory old | None => false end.
Definition evicts (m : State) (path : bytes) (md : Metadata) (k : bytes) : Prop :=
  below path k /\ holds_directory m path = true /\ is_directory md = false.

#[global] Instance evicts_dec m path md k : Decision (evicts m path md k).
Proof. unfold evicts. apply _. Defined.

Lemma insert_and_replace_spec m path md :
  bt_wf m ->
  bt_wf (insert_and_replace m path md)
  /\ forall k, bt_get k (insert_and_replace m path md)
       = if decide (k = path) then Some md
         else if decide (evicts m path md k) then None else bt_get k m.
Proof.
  intros Hm. unfold insert_and_replace.
  assert (forall k, evicts m path md k <-> below path k /\ holds_directory m path = true /\ is_directory md = false)
    as Hev by done.
  unfold holds_directory in Hev.
  destruct (bt_get path m) as [old|] eqn:Eold.
  2: { split; [by apply bt_wf_insert|]. intros k. rewrite bt_get_insert by done.
       case_decide; [done|]. rewrite decide_False by naive_solver. done. }
  destruct (remove_where_spec (starts_with (path ++ [p_slash])) m Hm) as [Hw Hg].
  destruct (is_directory old) eqn:Eo, (is_directory md) eqn:En; cbn [negb andb].
  - split; [by apply bt_wf_insert|]. intros k. rewrite bt_get_insert by done.
    case_decide; [done|]. rewrite decide_False by naive_solver. done.
  - split; [by apply bt_wf_insert|]. intros k. rewrite bt_get_insert by done.
    case_decide; [done|]. unfold remove_descendants. rewrite Hg. case_decide as Hb.
    + apply Hev in Hb as (Hb & _ & _). by apply starts_with_below in Hb as ->.
    + destruct (starts_with (path ++ [p_slash]) k) eqn:E; [|done].
      exfalso. apply Hb, Hev. split_and!; [by apply starts_with_below|done|done].
  - split; [by apply bt_wf_insert, bt_wf_remove|]. intros k.
    rewrite bt_get_insert by (by apply bt_wf_remove).
    case_decide; [done|]. rewrite bt_get_remove by done.
    rewrite decide_False by done. rewrite decide_False by naive_solver. done.
  - split; [by apply bt_wf_insert|]. intros k. rewrite bt_get_insert by done.
    case_decide; [done|]. rewrite decide_False by naive_solver. done.
Qed.

(** A whole layer: its whiteouts act on the lower layers only, wherever its
    markers stand in the archive. *)
Definition hidden (l : list LayerEntry) (k : bytes) : Prop :=
  Exists (fun wh => hides wh k) (whiteouts_of l).

#[global] Instance hidden_dec l k : Decision (hidden l k).
Proof. unfold hidden. apply _. Defined.

Definition lower_after (m : State) (l : list LayerEntry) : State :=
  fold_left apply_whiteout (whiteouts_of l) m.

Lemma whiteouts_spec ws m :
  bt_wf m ->
  bt_wf (fold_left apply_whiteout ws m)
  /\ forall k, bt_get k (fold_left apply_whiteout ws m)
       = if decide (Exists (fun wh => hides wh k) ws) then None else bt_get k m.
Proof.
  revert m. induction ws as [|wh ws IH]; intros m Hm; cbn.
  - split; [done|]. intros k. rewrite decide_False; [done|]. by intros ?%Exists_nil.
  - destruct (apply_whiteout_spec wh m Hm) as [Hw Hg].
    destruct (IH _ Hw) as [Hw' Hg']. split; [done|]. intros k. rewrite Hg', Hg.
    destruct (decide (Exists _ ws)) as [He|He].
    + by rewrite decide_True by (apply Exists_cons; by right).
    + destruct (decide (hides wh k)) as [Hh|Hh].
      * by rewrite decide_True by (apply Exists_cons; by left).
      * rewrite decide_False; [done|]. rewrite Exists_cons. tauto.
Qed.

Lemma apply_layer_phases m l :
  apply_layer m l = fold_left insert_entry (regulars_of l) (lower_after m l).
Proof.
  unfold apply_layer, lower_after.
  assert (forall m rs, fold_left (fun '(m, regulars) decoded =>
      match decoded with
      | LayerEntry_Whiteout wh => (apply_whiteout m wh, regulars)
      | LayerEntry_Regular path metadata => (m, regulars ++ [(path, metadata)])
      end) l (m, rs) = (fold_left apply_whiteout (whiteouts_of l) m, rs ++ regulars_of l)) as Hl.
  { induction l as [|e l IH]; intros m' rs; cbn.
    - by rewrite app_nil_r.
    - destruct e as [path md|wh]; cbn; rewrite IH; [|done]. by rewrite <-app_assoc. }
  by rewrite Hl.
Qed.


Lemma insert_entries_wf rs m : bt_wf m -> bt_wf (fold_left insert_entry rs m).
Proof.
  revert m. induction rs as [|[p md] rs IH]; intros m Hm; cbn; [done|].
  by apply IH, insert_and_replace_spec.
Qed.

Lemma apply_layer_wf m l : bt_wf m -> bt_wf (apply_layer m l).
Proof. intros Hm. rewrite apply_layer_phases. by apply insert_entries_wf, whiteouts_spec. Qed.

(** ** Confinement *)

Definition confined_segment (seg : bytes) : Prop :=
  seg <> [] /\ seg <> dot /\ seg <> dotdot /\ (p_slash ∉ seg).

(** A relative path that never leaves the root. *)
Definition confined_path (p : bytes) : Prop :=
  p = dot \/ exists segs, segs <> [] /\ Forall confined_segment segs /\ p = join_with [p_slash] segs.

Lemma normal_confined p : p = dot \/ normal_path p -> confined_path p.
Proof.
  intros [->|(segs & Hne & Hf & ->)]; [by left|right]. exists segs. split_and!; [done| |done].
  eapply Forall_impl; [exact Hf|]. by intros seg (? & ? & ? & ? & _).
Qed.

Lemma push_component_confined acc c :
  Forall confined_segment acc -> p_slash ∉ c -> Forall confined_segment (push_component acc c).
Proof.
  intros Ha Hc. unfold push_component. destruct (is_empty c) eqn:E0; [done|].
  apply is_empty_false in E0. cbn [orb]. case_bool_decide as E1; [done|].
  case_bool_decide as E2.
  - destruct (decide (acc = [])) as [->|Hne]; [done|].
    destruct (exists_last Hne) as (l & x & ->). rewrite removelast_last.
    by apply Forall_app in Ha as [? _].
  - apply Forall_app. split; [done|]. by repeat constructor.
Qed.

Lemma push_confined acc c : confined_segment c -> push_component acc c = acc ++ [c].
Proof.
  intros (H0 & H1 & H2 & _). unfold push_component.
  rewrite (proj2 (is_empty_false c) H0), !bool_decide_false by done. done.
Qed.

Lemma push_all_confined rest acc :
  Forall confined_segment rest -> fold_left push_component rest acc = acc ++ rest.
Proof.
  intros Hr. revert acc. induction Hr as [|c rest Hc _ IH]; intros acc; cbn; [by rewrite app_nil_r|].
  rewrite push_confined by done. by rewrite IH, <-app_assoc.
Qed.

Lemma push_all_free cs acc :
  Forall confined_segment acc -> Forall (free_of p_slash) cs ->
  Forall confined_segment (fold_left push_component cs acc).
Proof.
  intros Ha Hf. revert acc Ha. induction Hf as [|c cs Hc _ IH]; intros acc Ha; cbn; [done|].
  by apply IH, push_component_confined.
Qed.

Lemma join_symlink_confined prefix target rest next :
  rest <> [] -> Forall confined_segment rest ->
  join_symlink_target prefix target (join_with [p_slash] rest) = Some next -> confined_path next.
Proof.
  intros Hne Hr H. unfold join_symlink_target in H. destruct (is_empty target); [done|].
  injection H as <-. right.
  set (base := if negb _ then _ else _).
  assert (Forall (free_of p_slash) base) as Hb.
  { unfold base. destruct (negb _); [|constructor].
    destruct (rsplit_once p_slash prefix) as [[parent ?]|]; [apply split_on_free|constructor]. }
  rewrite (split_join p_slash rest) by (done || (eapply Forall_impl; [exact Hr|]; by intros ? (_ & _ & _ & ?))).
  rewrite app_assoc, fold_left_app, push_all_confined by done.
  eexists. split_and!; [| |done].
  - by destruct (fold_left _ _ _), rest.
  - apply Forall_app. split; [|done]. apply push_all_free; [constructor|].
    apply Forall_app. split; [done|apply split_on_free].
Qed.

Lemma first_link_confined entries segs prefix next :
  Forall confined_segment segs -> first_link entries prefix segs = Link next -> confined_path next.
Proof.
  intros Hf. revert prefix. induction Hf as [|c rest Hc Hr IH]; intros prefix; cbn; [done|].
  destruct (is_empty rest) eqn:E; [done|]. apply is_empty_false in E.
  destruct (bt_get _ entries) as [md|]; [|apply IH].
  destruct (md_body md) as [|target|]; [apply IH| |apply IH].
  destruct (utf8_valid target); [|apply IH].
  destruct (join_symlink_target _ target _) as [n|] eqn:En; [|done]. intros [= <-].
  by eapply join_symlink_confined.
Qed.

Lemma confined_split p :
  confined_path p -> p = dot \/ Forall confined_segment (split_on p_slash p).
Proof.
  intros [->|(segs & Hne & Hf & ->)]; [by left|right].
  rewrite split_join; [done|done|]. eapply Forall_impl; [exact Hf|]. by intros ? (_ & _ & _ & ?).
Qed.

Lemma resolve_confined path entries :
  confined_path path -> confined_path (resolve_symlink_ancestors path entries).
Proof.
  unfold resolve_symlink_ancestors. generalize MAX_SYMLINK_RESOLUTION_DEPTH as fuel.
  intros fuel. revert path. induction fuel as [|fuel IH]; intros path Hp; cbn [resolve_loop]; [done|].
  destruct (first_link entries [] (split_on p_slash path)) as [| |next] eqn:E; [done|done|].
  apply IH. destruct (confined_split path Hp) as [->|Hf]; [by vm_compute in E|]. by eapply first_link_confined.
Qed.

(** Sizes recorded in the state are sizes of something. *)
Definition sized (md : Metadata) : Prop :=
  match md_body md with EntryBody_Spool (Some range) => 0 <= sr_size range | _ => True end.

(** What holds of every surviving entry. *)
Definition entry_ok (e : bytes * Metadata) : Prop := confined_path (fst e) /\ sized (snd e).
Definition entries_ok (m : State) : Prop := forall k md, bt_get k m = Some md -> entry_ok (k, md).

Lemma insert_entry_ok m e :
  bt_wf m -> entries_ok m -> entry_ok e -> entries_ok (insert_entry m e).
Proof.
  intros Hm Hk [Hp Hs] k md. unfold insert_entry.
  rewrite (proj2 (insert_and_replace_spec m _ (snd e) Hm)). case_decide as E.
  - intros [= <-]. subst. split; [by apply resolve_confined|done].
  - case_decide; [done|]. apply Hk.
Qed.

Lemma insert_entries_ok rs m :
  bt_wf m -> entries_ok m -> Forall entry_ok rs -> entries_ok (fold_left insert_entry rs m).
Proof.
  intros Hm Hk Hr. revert m Hm Hk. induction Hr as [|e rs He _ IH]; intros m Hm Hk; cbn; [done|].
  apply IH; [by apply insert_and_replace_spec|by apply insert_entry_ok].
Qed.

Lemma apply_layer_ok m l :
  bt_wf m -> entries_ok m -> Forall entry_ok (regulars_of l) -> entries_ok (apply_layer m l).
Proof.
  intros Hm Hk Hr. rewrite apply_layer_phases. destruct (whiteouts_spec (whiteouts_of l) m Hm) as [Hw Hg].
  apply insert_entries_ok; [done| |done]. intros k md. unfold lower_after. rewrite Hg.
  case_decide; [done|]. apply Hk.
Qed.

Lemma regulars_of_app l k : regulars_of (l ++ k) = regulars_of l ++ regulars_of k.
Proof. apply omap_app. Qed.

(** File sizes of the archive header are 32-bit. *)
Definition step_typed (st : newc_step) : Prop :=
  match st_read st with Newc_entry e => is_u32 (ne_file_size e) | _ => True end.

Lemma decode_sized entry spool i md spool' :
  is_u32 (ne_file_size entry) -> decode_entry_metadata entry spool i = Ok (md, spool') -> sized md.
Proof.
  intros Hu H. unfold decode_entry_metadata in H. apply bind_ok_iff in H as ([body sp] & Hb & [= <- <-]).
  unfold sized. cbn. destruct (_ =? S_IFREG).
  - apply bind_ok_iff in Hb as ([range sp'] & Ha & Hb). apply bind_unit_ok_iff in Hb as [_ [= <- <-]].
    unfold append_body in Ha. apply guard_ok_iff in Ha as [_ [= <- <-]]. cbn. unfold in_u in Hu. lia.
  - destruct (_ =? S_IFLNK).
    + do 2 (apply guard_ok_iff in Hb as [_ Hb]). by apply bind_unit_ok_iff in Hb as [_ [= <- <-]].
    + by apply bind_unit_ok_iff in Hb as [_ [= <- <-]].
Qed.

Lemma read_entries_ok steps spool i decoded l spool' :
  Forall step_typed steps -> Forall entry_ok (regulars_of decoded) ->
  read_entries steps spool i decoded = Ok (l, spool') -> Forall entry_ok (regulars_of l).
Proof.
  intros Ht. revert spool decoded.
  induction Ht as [|st steps Hst _ IH]; intros spool decoded Hd H; cbn in H; [done|].
  apply guard_ok_iff in H as [_ H]. unfold step_typed in Hst.
  destruct (st_read st) as [|drained extra|entry]; [done| |].
  - apply bind_unit_ok_iff in H as [_ H]. destruct extra as [[]|]; [done| |done]. by injection H as <- <-.
  - apply bind_ok_iff in H as (name & Hn & H). apply normalize_path_inv, normal_confined in Hn.
    destruct (whiteout_of name) as [wh|].
    + apply bind_unit_ok_iff in H as [_ H]. apply (IH _ _) in H; [done|].
      rewrite regulars_of_app. cbn. by rewrite app_nil_r.
    + apply bind_ok_iff in H as ([md sp] & Hmd & H). apply (IH _ _) in H; [done|].
      rewrite regulars_of_app. apply Forall_app. split; [done|]. apply Forall_singleton.
      split; [done|by eapply decode_sized].
Qed.

Lemma build_layers_ok src i m spool m' spool' :
  Forall (fun layer => Forall step_typed (ls_steps layer)) src ->
  bt_wf m -> entries_ok m -> build_layers src i m spool = Ok (m', spool') ->
  bt_wf m' /\ entries_ok m'.
Proof.
  intros Ht. revert i m spool.
  induction Ht as [|layer src Hlt _ IH]; intros i m spool Hm Hk H; cbn in H.
  { by injection H as <- <-. }
  apply bind_ok_iff in H as ([l sp] & Hl & H). unfold read_layer in Hl.
  apply guard_ok_iff in Hl as [_ Hl]. apply read_entries_ok in Hl; [|done|constructor].
  apply IH in H; [done|by apply apply_layer_wf|by apply apply_layer_ok].
Qed.

(** ** The archive *)

Lemma emit_loop plan spool (es : State) acc out :
  for_each (fun out (e : bytes * Metadata) =>
      record ← emit_entry plan spool (fst e) (snd e); Ok (out ++ record)) es acc = Ok out ->
  exists recs, out = acc ++ concat recs
    /\ Forall2 (fun e r => emit_entry plan spool (fst e) (snd e) = Ok r) es recs.
Proof.
  revert acc. induction es as [|e es IH]; intros acc H; cbn in H.
  { injection H as <-. exists []. cbn. rewrite app_nil_r. by split. }
  apply bind_ok_iff in H as (o & Ho & H). apply bind_ok_iff in Ho as (r & Hr & [= <-]).
  apply IH in H as (recs & -> & Hf). exists (r :: recs). cbn. rewrite <-app_assoc. by split; [|constructor].
Qed.

Lemma emit_entry_aligned plan spool path md r :
  sized md -> emit_entry plan spool path md = Ok r -> len r mod 4 = 0.
Proof.
  unfold emit_entry, sized. intros Hs H. apply bind_ok_iff in H as ([a c] & _ & H).
  apply bind_ok_iff in H as (n & _ & H).
  destruct (md_body md) as [|target|[range|]].
  - by eapply write_entry_aligned.
  - apply guard_ok_iff in H as [_ H]. eapply write_streaming_entry_aligned; [|exact H]. apply len_nonneg.
  - destruct c; [by eapply write_streaming_entry_aligned|by eapply write_entry_aligned].
  - by eapply write_entry_aligned.
Qed.

(** Parents sort before what is below them. *)
Lemma below_lt d k : below d k -> key_ltb d k = true.
Proof. intros [rest ->]. apply (bytes_lt_prefix d p_slash rest). Qed.

(** C7: the flattened archive is well formed.  Whatever the layers contain
    (whiteouts, symlinked directories, symlink cycles, [..] in link targets),
    if flattening succeeds the archive is one record per surviving entry
    followed by the trailer; the record names are confined to the root (no
    component is empty, [.] or [..]), strictly increasing (so no name occurs
    twice), each entry precedes everything below it, and every record is
    padded to a multiple of four bytes. *)
Theorem flattened_archive_well_formed (src : list layer_source) (out : bytes)
    (Htyped : Forall (fun layer => Forall step_typed (ls_steps layer)) src)
    (H : flatten src = Ok out) :
  exists state spool plan recs trailer,
    build_state src = Ok (state, spool)
    /\ plan_hardlinks state = Ok plan
    /\ Forall2 (fun e r => emit_entry plan spool (fst e) (snd e) = Ok r) state recs
    /\ write_trailer = Ok trailer
    /\ out = concat recs ++ trailer
    /\ Forall confined_path (bt_keys state)
    /\ StronglySorted (fun a b => key_ltb a b = true) (bt_keys state)
    /\ (forall d k, d ∈ bt_keys state -> k ∈ bt_keys state -> below d k ->
          exists l1 l2 l3, bt_keys state = l1 ++ d :: l2 ++ k :: l3)
    /\ Forall (fun r => len r mod 4 = 0) recs.
Proof.
  unfold flatten in H. apply bind_ok_iff in H as ([state spool] & Hb & H).
  unfold emit in H. apply bind_ok_iff in H as (plan & Hp & H).
  apply bind_ok_iff in H as (body & Hl & H). apply bind_ok_iff in H as (trailer & Ht & [= <-]).
  apply emit_loop in Hl as (recs & -> & Hf).
  pose proof Hb as Hb'. apply build_layers_ok in Hb' as [Hm Hk]; [|done|constructor|done].
  exists state, spool, plan, recs, trailer. split_and!; try done.
  - apply Forall_forall. intros k [md Hmd]%bt_keys_get. by apply (Hk k md).
  - by apply bt_keys_sorted.
  - intros d k Hd Hin Hbel. apply bt_keys_sorted in Hm. apply below_lt in Hbel.
    apply list_elem_of_split in Hd as (l1 & l2 & E). rewrite E in *.
    apply elem_of_app in Hin as [Hin|Hin].
    { exfalso. apply (sorted_app_lt l1 _ k d) in Hm; [|done|by left].
      pose proof (key_trans _ _ _ Hbel Hm) as Hbad. by rewrite key_irrefl in Hbad. }
    apply elem_of_cons in Hin as [->|Hin]; [by rewrite key_irrefl in Hbel|].
    apply list_elem_of_split in Hin as (l3 & l4 & ->). by exists l1, l3, l4.
  - assert (Forall (fun e => sized (snd e)) state) as Hs.
    { apply Forall_forall. intros [k md] Hin. apply (bt_get_elem k md state Hm) in Hin. by apply Hk in Hin as []. }
    clear -Hf Hs. induction Hf as [|e r es rs He _ IH]; [constructor|].
    apply Forall_cons in Hs as [Hs1 Hs]. constructor; [by eapply emit_entry_aligned|by apply IH].
Qed.

(** ** Worked layers

    A lower layer with a directory, a file in it and a symlink to the
    directory; an upper layer that whites the file out and writes through the
    symlink. *)

Definition archive_entry (name : bytes) (mode : Z) (body : bytes) : newc_step :=
  {| st_cancelled := false;
     st_read := Newc_entry
       {| ne_name := name; ne_mode := mode; ne_uid := 0; ne_gid := 0; ne_mtime := 0; ne_nlink := 1;
          ne_dev_major := 0; ne_dev_minor := 0; ne_ino := 0; ne_rdev_major := 0; ne_rdev_minor := 0;
          ne_file_size := len body; ne_body := body; ne_finish := true |} |}.
Definition archive_end : newc_step :=
  {| st_cancelled := false; st_read := Newc_trailer true (Some false) |}.

Definition lower_layer : layer_source :=
  {| ls_digest_ok := true;
     ls_steps := [archive_entry (str "./usr/lib/") (16384 + 493) [];
                  archive_entry (str "./usr/lib/old.so") (32768 + 420) (str "old");
                  archive_entry (str "lib") (40960 + 511) (str "usr/lib"); archive_end] |}.
Definition upper_layer : layer_source :=
  {| ls_digest_ok := true;
     ls_steps := [archive_entry (str "lib/new.so") (32768 + 420) (str "new!!");
                  archive_entry (str "usr/lib/.wh.old.so") (32768 + 420) []; archive_end] |}.

Definition worked_archive : bytes :=
  match flatten [lower_layer; upper_layer] with Ok out => out | _ => [] end.

Example worked_names :
  (fun s => bt_keys (fst s)) <$> build_state [lower_layer; upper_layer]
  = Ok [str "lib"; str "usr/lib"; str "usr/lib/new.so"].
Proof. vm_compute. reflexivity. Qed.

Lemma flattened_archive_well_formed_witness :
  exists state spool plan recs trailer,
    build_state [lower_layer; upper_layer] = Ok (state, spool)
    /\ plan_hardlinks state = Ok plan
    /\ Forall2 (fun e r => emit_entry plan spool (fst e) (snd e) = Ok r) state recs
    /\ write_trailer = Ok trailer
    /\ worked_archive = concat recs ++ trailer
    /\ Forall confined_path (bt_keys state)
    /\ StronglySorted (fun a b => key_ltb a b = true) (bt_keys state)
    /\ (forall d k, d ∈ bt_keys state -> k ∈ bt_keys state -> below d k ->
          exists l1 l2 l3, bt_keys state = l1 ++ d :: l2 ++ k :: l3)
    /\ Forall (fun r => len r mod 4 = 0) recs.
Proof.
  refine (flattened_archive_well_formed [lower_layer; upper_layer] worked_archive _ _).
  - repeat constructor; vm_compute; discriminate.
  - vm_compute. reflexivity.
Defined.

Definition plain (mode : Z) : Metadata :=
  {| md_mode := mode; md_uid := 0; md_gid := 0; md_mtime := 0; md_dev_major := 0; md_ino := 0;
     md_rdev_major := 0; md_rdev_minor := 0; md_nlink_source := 1; md_source_layer := 0;
     md_body := EntryBody_Empty |}.
Definition two_files : State := [(str "d/f", plain 33188); (str "e", plain 33188)].
Definition hide_d : list LayerEntry := [LayerEntry_Whiteout (Whiteout_Named [] (str "d"))].


(** A file replacing a directory that has no entry of its own leaves what was
    in that directory below the file. *)
Example implicit_directory_survives :
  bt_keys (insert_and_replace [(str "d/f", plain 33188)] (str "d") (plain 33188)) = [str "d"; str "d/f"].
Proof. vm_compute. reflexivity. Qed.
