(* ===== verification/Hardlinks.v ===== *)
(** * Hard-link planning is exact

    The plan of [plan_hardlinks] ([libs/image-core/src/ops/flatten.rs])
    gives two surviving entries one identity exactly when they are names of
    one file of one layer, counts the names, and chooses the body to keep. *)

From Stdlib Require Import ZArith Lia Sorted.
From stdpp Require Import base tactics option list numbers strings.
From S2P Require Import Prelude Bytes Text BTree Cpio Flatten.

(** Two entries are names of one file: regular files of one layer, declared
    with several links, with one device and inode. *)
Definition multiply_linked (m : Metadata) : Prop := is_regular m = true /\ 1 < md_nlink_source m.
Definition linked (a b : Metadata) : Prop :=
  multiply_linked a /\ multiply_linked b
  /\ md_source_layer a = md_source_layer b
  /\ md_dev_major a = md_dev_major b /\ md_ino a = md_ino b.

Lemma linked_grouped a b :
  linked a b <-> grouped a = true /\ grouped b = true /\ link_key a = link_key b.
Proof.
  unfold linked, multiply_linked, grouped, link_key. rewrite !andb_true_iff, !Z.ltb_lt.
  split.
  - intros (? & ? & -> & -> & ->). done.
  - intros (? & ? & E). injection E as -> -> ->. done.
Qed.

(** ** Sorting *)

Lemma sort_members_sorted l :
  StronglySorted (fun a b => key_ltb a b = true) l -> sort_members l = l.
Proof.
  induction 1 as [|p l _ IH Hf]; [done|]. unfold sort_members in *. cbn. rewrite IH.
  destruct l as [|q l]; [done|]. cbn. apply Forall_cons in Hf as [Hq _].
  destruct (bytes_ltb q p) eqn:E; [|done]. exfalso.
  pose proof (key_trans p q p Hq E) as H. by rewrite key_irrefl in H.
Qed.

Lemma filter_sorted (f : bytes * Metadata -> bool) (es : State) :
  bt_wf es -> StronglySorted (fun a b => key_ltb a b = true) (map fst (List.filter f es)).
Proof.
  induction 1 as [|e es _ IH Hf]; cbn; [constructor|]. destruct (f e); [|done].
  cbn. constructor; [done|]. apply Forall_map. apply Forall_forall. intros x Hx.
  rewrite Forall_forall in Hf. apply Hf. apply list_elem_of_In.
  by apply list_elem_of_In, List.filter_In in Hx as [? _].
Qed.

(** ** Groups *)

Definition in_group (kk : Z * Z * Z) (e : bytes * Metadata) : bool :=
  grouped (snd e) && bool_decide (link_key (snd e) = kk).
Definition members_of (kk : Z * Z * Z) (es : State) : list bytes :=
  map fst (List.filter (in_group kk) es).

Lemma groups_spec (es : State) :
  bt_wf (fold_left add_to_group es [])
  /\ forall kk, bt_get kk (fold_left add_to_group es [])
       = if is_empty (members_of kk es) then None else Some (members_of kk es).
Proof.
  induction es as [|[path md] es [Hw Hg]] using rev_ind; [split; [constructor|done]|].
  rewrite fold_left_app. cbn [fold_left add_to_group].
  assert (forall kk, members_of kk (es ++ [(path, md)])
    = members_of kk es ++ if in_group kk (path, md) then [path] else []) as Hm.
  { intros kk. unfold members_of. rewrite List.filter_app, map_app. cbn [List.filter].
    by destruct (in_group kk (path, md)). }
  destruct (grouped md) eqn:Hgr; cbn [negb].
  - split; [by apply bt_wf_insert|]. intros kk. rewrite bt_get_insert, Hm by done.
    unfold in_group. cbn [snd]. rewrite Hgr. cbn [andb]. case_decide as E.
    + subst kk. rewrite bool_decide_true, Hg by done. destruct (members_of (link_key md) es) eqn:El; done.
    + rewrite bool_decide_false by congruence. by rewrite app_nil_r, Hg.
  - split; [done|]. intros kk. rewrite Hm. unfold in_group. cbn [snd]. rewrite Hgr. cbn [andb].
    by rewrite app_nil_r, Hg.
Qed.

(** ** Assignments *)

Lemma insert_all_spec members (id : Assignment) (m : btree bytes Assignment) :
  bt_wf m ->
  bt_wf (fold_left (fun m member => bt_insert member id m) members m)
  /\ forall k, bt_get k (fold_left (fun m member => bt_insert member id m) members m)
       = if decide (k ∈ members) then Some id else bt_get k m.
Proof.
  revert m. induction members as [|x members IH]; intros m Hm; cbn [fold_left].
  - split; [done|]. intros k. by rewrite decide_False by apply not_elem_of_nil.
  - destruct (IH (bt_insert x id m)) as [Hw Hg]; [by apply bt_wf_insert|]. split; [done|].
    intros k. rewrite Hg, bt_get_insert by done.
    destruct (decide (k ∈ members)) as [Hin|Hin]; [by rewrite decide_True by (by right)|].
    destruct (decide (k = x)) as [->|Hne]; [by rewrite decide_True by (by left)|].
    rewrite decide_False; [done|]. rewrite elem_of_cons. tauto.
Qed.

(** A block: the names that get one identity, and the one that keeps the body. *)
Abbreviation block := (list bytes * bytes)%type.
Definition assign_all (bs : list block) (p : planning) : planning :=
  fold_left (fun p b => assign (fst b) (snd b) p) bs p.

Record planning_wf (n : Z) (p : planning) : Prop := {
  pw_dev : pl_next_dev p = n;
  pw_ino : pl_next_ino p = n;
  pw_identity : bt_wf (hp_identity (pl_plan p));
  pw_nlink : bt_wf (hp_nlink (pl_plan p));
  pw_canonical : bt_wf (hp_canonical (pl_plan p));
}.

Lemma assign_wf ms c p n :
  planning_wf n p -> 1 <= n < U32_MAX -> planning_wf (n + 1) (assign ms c p).
Proof.
  intros [Hd Hi H1 H2 H3] Hn. unfold U32_MAX in Hn.
  split; cbn; rewrite ?Hd, ?Hi.
  - unfold saturating_add. lia.
  - unfold saturating_add. lia.
  - by apply insert_all_spec.
  - by apply bt_wf_insert.
  - by apply bt_wf_insert.
Qed.

Lemma assign_all_spec bs p n :
  planning_wf n p -> 1 <= n -> n + len bs <= U32_MAX ->
  NoDup (concat (map fst bs)) -> Forall (fun b => len (fst b) < 2 ^ 32) bs ->
  let p' := assign_all bs p in
  planning_wf (n + len bs) p'
  /\ (forall i b, bs !! i = Some b ->
        let id := (n + Z.of_nat i, n + Z.of_nat i) in
        (forall m, m ∈ fst b -> bt_get m (hp_identity (pl_plan p')) = Some id)
        /\ bt_get id (hp_nlink (pl_plan p')) = Some (len (fst b))
        /\ bt_get id (hp_canonical (pl_plan p')) = Some (snd b))
  /\ (forall k, k ∉ concat (map fst bs) ->
        bt_get k (hp_identity (pl_plan p')) = bt_get k (hp_identity (pl_plan p)))
  /\ (forall j, j < n ->
        bt_get (j, j) (hp_nlink (pl_plan p')) = bt_get (j, j) (hp_nlink (pl_plan p))
        /\ bt_get (j, j) (hp_canonical (pl_plan p')) = bt_get (j, j) (hp_canonical (pl_plan p))).
Proof.
  revert p n. induction bs as [|[ms c] bs IH]; intros p n Hp Hn Hb Hnd Hl.
  { cbn. rewrite len_nil, Z.add_0_r. split_and!; try done. }
  rewrite len_cons in Hb. pose proof (len_nonneg bs) as Hbs.
  cbn [map concat fst] in Hnd. apply NoDup_app in Hnd as (Hms & Hdisj & Hnd).
  apply Forall_cons in Hl as [Hl1 Hl]. cbn [fst] in Hl1.
  pose proof (assign_wf ms c p n Hp ltac:(lia)) as Hp1.
  destruct (IH (assign ms c p) (n + 1) Hp1 ltac:(lia) ltac:(lia) Hnd Hl) as (H1 & H2 & H3 & H4).
  pose proof Hp as [Hd Hi Hw1 Hw2 Hw3]. cbn [assign_all fold_left fst snd].
  change (fold_left (fun p b => assign (fst b) (snd b) p) bs (assign ms c p))
    with (assign_all bs (assign ms c p)) in *.
  assert (forall k, bt_get k (hp_identity (pl_plan (assign ms c p)))
    = if decide (k ∈ ms) then Some (n, n) else bt_get k (hp_identity (pl_plan p))) as Hid.
  { intros k. cbn. rewrite Hd, Hi. by apply insert_all_spec. }
  split_and!.
  - rewrite len_cons. by replace (n + (1 + len bs)) with (n + 1 + len bs) by lia.
  - intros [|i] b Hbi; cbn in Hbi.
    + injection Hbi as <-. cbn [fst snd]. rewrite Z.add_0_r. split_and!.
      * intros m Hm. rewrite H3 by (by apply Hdisj). by rewrite Hid, decide_True.
      * rewrite (proj1 (H4 n ltac:(lia))). cbn. rewrite Hd, Hi, bt_get_insert by done.
        rewrite decide_True by done. f_equal. apply Z.mod_small. pose proof (len_nonneg ms). lia.
      * rewrite (proj2 (H4 n ltac:(lia))). cbn. rewrite Hd, Hi, bt_get_insert by done.
        by rewrite decide_True.
    + replace (n + Z.of_nat (S i)) with (n + 1 + Z.of_nat i) by lia. by apply H2.
  - intros k Hk. cbn [map concat fst] in Hk. rewrite elem_of_app in Hk. rewrite H3 by tauto. rewrite Hid. by rewrite decide_False by tauto.
  - intros j Hj. destruct (H4 j ltac:(lia)) as [E1 E2]. rewrite E1, E2. cbn. rewrite Hd, Hi.
    rewrite !bt_get_insert by done. rewrite !decide_False; [done|..]; intros [= ->]; lia.
Qed.

(** ** The two loops as assignments *)

(** The chosen member is one of the group, and none has a larger body. *)
Definition best_of (m : State) (ms : list bytes) (c : bytes) : Prop :=
  exists mdc, c ∈ ms /\ bt_get c m = Some mdc
  /\ forall q mdq, q ∈ ms -> bt_get q m = Some mdq -> body_size_of mdq <= body_size_of mdc.

Lemma canonical_member_ok (m : State) ms :
  ms <> [] -> Forall (fun q => is_Some (bt_get q m)) ms ->
  exists c, canonical_member m ms = Ok c /\ best_of m ms c.
Proof.
  intros Hne Hf. destruct Hf as [|first rest [md Hmd] Hr]; [done|]. cbn [canonical_member].
  assert (forall seen best mdb, best ∈ seen -> bt_get best m = Some mdb ->
    (forall q mdq, q ∈ seen -> bt_get q m = Some mdq -> body_size_of mdq <= body_size_of mdb) ->
    exists c, for_each (better m) rest best = Ok c /\ best_of m (seen ++ rest) c) as Hloop.
  2: { apply (Hloop [first] first md); [by left|done|]. intros q mdq Hq%list_elem_of_singleton Hmq.
       subst. rewrite Hmd in Hmq. injection Hmq as <-. lia. }
  clear Hmd md first Hne. induction Hr as [|x rest [mdx Hx] _ IH]; intros seen best mdb Hin Hb Hmax.
  - exists best. split; [done|]. exists mdb. by rewrite app_nil_r.
  - cbn [for_each].
    assert (better m best x = Ok (if body_size_of mdb <? body_size_of mdx then x else best)) as ->
      by (unfold better; by rewrite Hb, Hx).
    cbn [mbind res_bind].
    rewrite (cons_middle x seen rest), app_assoc.
    destruct (Z.ltb_spec (body_size_of mdb) (body_size_of mdx)) as [Hlt|Hge].
    + apply (IH _ _ mdx); [apply elem_of_app; right; by left|done|].
      intros q mdq [Hq|Hq%list_elem_of_singleton]%elem_of_app Hmq.
      * specialize (Hmax q mdq Hq Hmq). lia.
      * subst. rewrite Hx in Hmq. injection Hmq as <-. lia.
    + apply (IH _ _ mdb); [apply elem_of_app; by left|done|].
      intros q mdq [Hq|Hq%list_elem_of_singleton]%elem_of_app Hmq.
      * by apply (Hmax q mdq).
      * subst. rewrite Hx in Hmq. injection Hmq as <-. lia.
Qed.

(** A group's block: its members, sorted already, and their best. *)
Definition group_block (m : State) (g : Z * Z * Z * list bytes) (b : block) : Prop :=
  fst b = snd g /\ best_of m (snd g) (snd b).

Lemma plan_groups_ok (m : State) (gs : link_groups) p :
  Forall (fun g => snd g <> [] /\ sort_members (snd g) = snd g
                   /\ Forall (fun q => is_Some (bt_get q m)) (snd g)) gs ->
  exists bs, for_each (plan_group m) gs p = Ok (assign_all bs p) /\ Forall2 (group_block m) gs bs.
Proof.
  intros Hf. revert p. induction Hf as [|g gs (Hne & Hs & Hin) _ IH]; intros p.
  { by exists []. }
  destruct (canonical_member_ok m (snd g) Hne Hin) as (c & Hc & Hbest).
  cbn [for_each].
  assert (plan_group m p g = Ok (assign (snd g) c p)) as -> by (unfold plan_group; by rewrite Hs, Hc).
  cbn [mbind res_bind].
  destruct (IH (assign (snd g) c p)) as (bs & Hbs & Hf2).
  exists ((snd g, c) :: bs). split; [exact Hbs|]. by constructor.
Qed.

Definition single_block (k : bytes) : block := ([k], k).

Definition unassigned (p : planning) (keys : list bytes) : list bytes :=
  List.filter (fun k => negb (bt_contains k (hp_identity (pl_plan p)))) keys.

Lemma plan_singles_eq keys p n :
  planning_wf n p -> 1 <= n -> n + len (unassigned p keys) <= U32_MAX -> NoDup keys ->
  fold_left plan_single keys p = assign_all (map single_block (unassigned p keys)) p.
Proof.
  revert p n. induction keys as [|k keys IH]; intros p n Hp Hn Hb Hnd; [done|].
  apply NoDup_cons in Hnd as [Hk Hnd]. cbn [fold_left]. unfold unassigned in *. cbn [List.filter] in *.
  destruct (bt_contains k (hp_identity (pl_plan p))) eqn:E; cbn [negb] in *;
    [replace (plan_single p k) with p by (unfold plan_single; by rewrite E)
    |replace (plan_single p k) with (assign [k] k p) by (unfold plan_single; by rewrite E)].
  - by apply (IH p n).
  - rewrite len_cons in Hb.
    pose proof (len_nonneg (List.filter (fun k => negb (bt_contains k (hp_identity (pl_plan p)))) keys)).
    assert (List.filter (fun q => negb (bt_contains q (hp_identity (pl_plan (assign [k] k p))))) keys
            = List.filter (fun q => negb (bt_contains q (hp_identity (pl_plan p)))) keys) as Ef.
    { apply List.filter_ext_in. intros q Hq%list_elem_of_In. f_equal. unfold bt_contains. cbn.
      rewrite bt_get_insert by apply Hp. rewrite decide_False; [done|]. by intros ->. }
    cbn [map]. change (assign_all (single_block k :: ?l) p) with (assign_all l (assign [k] k p)).
    rewrite <-Ef. apply (IH (assign [k] k p) (n + 1)); [apply assign_wf; [done|lia]|lia| |done].
    rewrite Ef. lia.
Qed.

(** ** Blocks partition the entries *)

Lemma elem_members kk (m : State) p :
  bt_wf m -> p ∈ members_of kk m <-> exists md, bt_get p m = Some md /\ in_group kk (p, md) = true.
Proof.
  intros Hm. unfold members_of. rewrite list_elem_of_In, in_map_iff. split.
  - intros ([q md] & <- & [Hin Hg]%List.filter_In). exists md. split; [|done].
    apply (bt_get_elem _ _ _ Hm). by apply list_elem_of_In.
  - intros (md & Hmd & Hg). exists (p, md). split; [done|]. apply List.filter_In. split; [|done].
    apply list_elem_of_In. by apply (bt_get_elem _ _ _ Hm).
Qed.

Lemma group_members_NoDup (m : State) (gs : link_groups) :
  bt_wf m -> NoDup (map fst gs) -> Forall (fun g => snd g = members_of (fst g) m) gs ->
  NoDup (concat (map snd gs)).
Proof.
  intros Hm. induction gs as [|[kk ms] gs IH]; intros Hn Hf; cbn; [constructor|].
  cbn in Hn. apply NoDup_cons in Hn as [Hk Hn]. apply Forall_cons in Hf as [Hms Hf]. cbn in Hms.
  apply NoDup_app. split_and!.
  - rewrite Hms. by apply sorted_keys_NoDup, filter_sorted.
  - intros p Hp Hin. rewrite list_elem_of_In, in_concat in Hin.
    destruct Hin as (ms' & (g & <- & Hg)%in_map_iff & Hin).
    apply list_elem_of_In in Hg, Hin. rewrite Forall_forall in Hf. rewrite (Hf g Hg) in Hin.
    subst ms. apply elem_members in Hp as (md & Hmd & Hg1), Hin as (md' & Hmd' & Hg2); [|done..].
    rewrite Hmd in Hmd'. injection Hmd' as <-. unfold in_group in Hg1, Hg2.
    apply andb_true_iff in Hg1 as [_ E1%bool_decide_eq_true], Hg2 as [_ E2%bool_decide_eq_true].
    cbn in E1, E2. apply Hk. rewrite <-E1, E2. apply list_elem_of_In, in_map. by apply list_elem_of_In.
  - by apply IH.
Qed.

Lemma concat_singles l : concat (map fst (map single_block l)) = l.
Proof. induction l as [|k l IH]; cbn; [done|]. by rewrite IH. Qed.

Lemma len_concat_ge (bs : list block) :
  Forall (fun b => fst b <> []) bs -> len bs <= len (concat (map fst bs)).
Proof.
  induction 1 as [|b bs Hb _ IH]; cbn [map concat]; [done|]. rewrite len_cons, len_app.
  destruct (fst b) as [|x l]; [done|]. rewrite len_cons. pose proof (len_nonneg l). lia.
Qed.

Lemma elem_blocks (bs : list block) p :
  p ∈ concat (map fst bs) <-> exists i b, bs !! i = Some b /\ p ∈ fst b.
Proof.
  rewrite list_elem_of_In, in_concat. split.
  - intros (ms & (b & <- & Hb)%in_map_iff & Hp).
    apply list_elem_of_In in Hb as [i Hi]%list_elem_of_lookup_1. exists i, b.
    split; [done|by apply list_elem_of_In].
  - intros (i & b & Hi & Hp). exists (fst b). split; [|by apply list_elem_of_In].
    apply in_map, list_elem_of_In. by eapply list_elem_of_lookup_2.
Qed.

Lemma names_bound (m : State) (ms : list bytes) : NoDup ms -> ms ⊆ bt_keys m -> len ms <= len m.
Proof.
  intros Hn Hs. replace (len m) with (len (bt_keys m)) by (unfold len, bt_keys; by rewrite length_map).
  unfold len. by apply Nat2Z.inj_le, submseteq_length, NoDup_submseteq.
Qed.

Lemma members_NoDup kk (m : State) : bt_wf m -> NoDup (members_of kk m).
Proof. intros Hm. by apply sorted_keys_NoDup, filter_sorted. Qed.

Lemma empty_planning_wf : planning_wf 1 empty_planning.
Proof. split; try done; constructor. Qed.

(** After assigning [bs] to the empty plan, the unassigned keys are the others. *)
Lemma unassigned_spec (bs : list block) keys k :
  1 + len bs <= U32_MAX -> NoDup (concat (map fst bs)) -> Forall (fun b => len (fst b) < 2 ^ 32) bs ->
  k ∈ unassigned (assign_all bs empty_planning) keys <-> k ∈ keys /\ (k ∉ concat (map fst bs)).
Proof.
  intros Hl Hnd Hs.
  destruct (assign_all_spec bs _ 1 empty_planning_wf ltac:(lia) Hl Hnd Hs) as (_ & Hblocks & Hout & _).
  unfold unassigned, bt_contains. rewrite list_elem_of_In, List.filter_In, <-list_elem_of_In.
  split; intros [Hk Hk']; (split; [done|]).
  - intros (i & b & Hi & Hin)%elem_blocks. destruct (Hblocks i b Hi) as [Hid _].
    by rewrite (Hid k Hin) in Hk'.
  - by rewrite (Hout k Hk').
Qed.

Lemma unassigned_NoDup p keys : NoDup keys -> NoDup (unassigned p keys).
Proof. intros H. by apply NoDup_ListNoDup, List.NoDup_filter, NoDup_ListNoDup. Qed.

(** Everything the plan's blocks are. *)
Record plan_blocks (m : State) (bs : list block) : Prop := {
  pb_concat : concat (map fst bs) ≡ₚ bt_keys m;
  pb_best : Forall (fun b => best_of m (fst b) (snd b)) bs;
  pb_linked : forall b p md, b ∈ bs -> p ∈ fst b -> bt_get p m = Some md ->
    forall q mdq, bt_get q m = Some mdq -> q ∈ fst b <-> q = p \/ linked md mdq;
}.

Lemma best_nonempty m ms c : best_of m ms c -> ms <> [].
Proof. intros (? & Hin & _) ->. by apply not_elem_of_nil in Hin. Qed.

Lemma single_best (m : State) k md : bt_get k m = Some md -> best_of m [k] k.
Proof.
  intros Hk. exists md. split_and!; [by left|done|]. intros q mdq ->%list_elem_of_singleton Hq.
  rewrite Hk in Hq. injection Hq as <-. lia.
Qed.

(** The groups' blocks. *)
Lemma group_blocks_spec (m : State) :
  bt_wf m ->
  exists bs, for_each (plan_group m) (fold_left add_to_group m []) empty_planning
             = Ok (assign_all bs empty_planning)
    /\ NoDup (concat (map fst bs))
    /\ Forall (fun b => best_of m (fst b) (snd b)) bs
    /\ (forall b, b ∈ bs -> exists kk, fst b = members_of kk m)
    /\ (forall p md, bt_get p m = Some md -> p ∈ concat (map fst bs) <-> grouped md = true).
Proof.
  intros Hm. destruct (groups_spec m) as [Hgw Hgg]. set (gs := fold_left add_to_group m []) in *.
  assert (Forall (fun g => snd g = members_of (fst g) m /\ snd g <> []) gs) as Hgs.
  { apply Forall_forall. intros [kk ms] Hin. apply (bt_get_elem kk ms gs Hgw) in Hin. rewrite Hgg in Hin.
    cbn. destruct (members_of kk m) eqn:E; [done|]. cbn in Hin. by injection Hin as <-. }
  destruct (plan_groups_ok m gs empty_planning) as (bs & Hbs & Hf2).
  { eapply Forall_impl; [exact Hgs|]. intros [kk ms] [E Hne]. cbn in *. subst ms. split_and!; [done|..].
    - by apply sort_members_sorted, filter_sorted.
    - apply Forall_forall. intros q (md & Hq & _)%elem_members; [|done]. eauto. }
  assert (map fst bs = map snd gs) as Emap.
  { clear -Hf2. induction Hf2 as [|g b gs bs [E _] _ IH]; cbn; [done|]. by f_equal. }
  exists bs. split_and!; [done|..].
  - rewrite Emap. apply (group_members_NoDup m); [done|by apply bt_keys_NoDup|].
    eapply Forall_impl; [exact Hgs|]. by intros g [? _].
  - clear -Hf2. induction Hf2 as [|g b gs bs [E Hb] _ IH]; constructor; [by rewrite E|done].
  - intros b Hb. assert (fst b ∈ map snd gs) as Hin.
    { rewrite <-Emap. apply list_elem_of_In, in_map. by apply list_elem_of_In. }
    apply list_elem_of_In, in_map_iff in Hin as (g & E & Hg). apply list_elem_of_In in Hg.
    rewrite Forall_forall in Hgs. destruct (Hgs g Hg) as [E' _]. exists (fst g). by rewrite <-E.
  - intros p md Hp. rewrite Emap, list_elem_of_In, in_concat. split.
    + intros (ms & (g & <- & Hg)%in_map_iff & Hin). apply list_elem_of_In in Hg, Hin.
      rewrite Forall_forall in Hgs. destruct (Hgs g Hg) as [E _]. rewrite E in Hin.
      apply elem_members in Hin as (md' & Hp' & Hin); [|done]. rewrite Hp in Hp'. injection Hp' as <-.
      by apply andb_true_iff in Hin as [? _].
    + intros Hgr. assert (p ∈ members_of (link_key md) m) as Hin.
      { apply elem_members; [done|]. exists md. split; [done|]. unfold in_group. cbn.
        by rewrite Hgr, bool_decide_true. }
      exists (members_of (link_key md) m). split; [|by apply list_elem_of_In].
      apply in_map_iff. exists (link_key md, members_of (link_key md) m). split; [done|].
      apply list_elem_of_In, (bt_get_elem _ _ gs Hgw). rewrite Hgg.
      destruct (members_of (link_key md) m); [by apply not_elem_of_nil in Hin|done].
Qed.

Lemma group_block_linked (m : State) kk p md q mdq :
  bt_wf m -> p ∈ members_of kk m -> bt_get p m = Some md -> bt_get q m = Some mdq ->
  q ∈ members_of kk m <-> q = p \/ linked md mdq.
Proof.
  intros Hm Hp Hpm Hqm. rewrite elem_members in Hp |- * by done.
  destruct Hp as (md' & Hp' & Hg). rewrite Hpm in Hp'. injection Hp' as <-.
  unfold in_group in *. cbn [snd] in *. apply andb_true_iff in Hg as [Hg1 Hg2%bool_decide_eq_true]. split.
  - intros (md' & Hq' & [Hg3 Hg4%bool_decide_eq_true]%andb_true_iff). right.
    rewrite Hqm in Hq'. injection Hq' as <-. apply linked_grouped. split_and!; [done|done|congruence].
  - intros [->|(_ & Hg3 & Hg4)%linked_grouped].
    + exists md. by rewrite Hg1, bool_decide_true.
    + exists mdq. split; [done|]. by rewrite Hg3, bool_decide_true by congruence.
Qed.

(** The groups' blocks and the remaining keys make up the entries. *)
Lemma blocks_permutation (m : State) (names singles : list bytes) :
  bt_wf m -> NoDup names -> names ⊆ bt_keys m -> NoDup singles ->
  (forall k, k ∈ singles <-> k ∈ bt_keys m /\ (k ∉ names)) -> names ++ singles ≡ₚ bt_keys m.
Proof.
  intros Hm Hn Hsub Hs Hk. apply NoDup_Permutation; [|by apply bt_keys_NoDup|].
  - apply NoDup_app. split_and!; [done| |done]. intros k ? [_ ?]%Hk. done.
  - intros k. rewrite elem_of_app, Hk. split; [intros [?|[? _]]; [by apply Hsub|done]|].
    intros ?. destruct (decide (k ∈ names)); [by left|by right].
Qed.

(** The whole plan is one assignment of blocks that partition the entries. *)
Lemma plan_hardlinks_blocks (m : State) :
  bt_wf m -> len m < U32_MAX ->
  exists bs, plan_hardlinks m = Ok (pl_plan (assign_all bs empty_planning))
    /\ plan_blocks m bs /\ 1 + len bs <= U32_MAX.
Proof.
  intros Hm Hlen. destruct (group_blocks_spec m Hm) as (bs1 & Hplan & Hnd & Hbest & Hmem & Hgr).
  assert (concat (map fst bs1) ⊆ bt_keys m) as Hsub.
  { intros p (i & b & Hb%list_elem_of_lookup_2 & Hp)%elem_blocks. destruct (Hmem b Hb) as [kk E]. rewrite E in Hp.
    apply elem_members in Hp as (md & Hp & _); [|done]. apply bt_keys_get. eauto. }
  pose proof (names_bound m _ Hnd Hsub) as Hc.
  pose proof (len_concat_ge bs1 ltac:(eapply Forall_impl; [exact Hbest|]; intros b; apply best_nonempty)) as Hl1.
  assert (Forall (fun b => len (fst b) < 2 ^ 32) bs1) as Hsmall.
  { apply Forall_forall. intros b Hb. apply Z.le_lt_trans with (len m); [|unfold U32_MAX in Hlen; lia].
    destruct (Hmem b Hb) as [kk E]. rewrite E. apply names_bound; [by apply members_NoDup|].
    intros p (md & Hp & _)%elem_members; [|done]. apply bt_keys_get. eauto. }
  pose proof (fun k => unassigned_spec bs1 (bt_keys m) k ltac:(lia) Hnd Hsmall) as Hsingles.
  set (p1 := assign_all bs1 empty_planning) in *. set (singles := unassigned p1 (bt_keys m)) in *.
  assert (concat (map fst bs1) ++ singles ≡ₚ bt_keys m) as Hperm.
  { apply blocks_permutation; try done. by apply unassigned_NoDup, bt_keys_NoDup. }
  assert (len (concat (map fst bs1)) + len singles = len m) as Etotal.
  { rewrite <-len_app. unfold len. rewrite Hperm. unfold bt_keys. by rewrite length_map. }
  exists (bs1 ++ map single_block singles). split_and!.
  - unfold plan_hardlinks. rewrite Hplan. cbn [mbind res_bind]. fold p1.
    destruct (assign_all_spec bs1 _ 1 empty_planning_wf ltac:(lia) ltac:(lia) Hnd Hsmall) as (Hp1 & _).
    rewrite (plan_singles_eq (bt_keys m) p1 (1 + len bs1));
      [unfold assign_all; by rewrite fold_left_app|done| | |by apply bt_keys_NoDup].
    + pose proof (len_nonneg bs1). lia.
    + fold singles. lia.
  - split; [by rewrite map_app, concat_app, concat_singles|..].
    + apply Forall_app. split; [done|]. apply Forall_map. apply Forall_forall. intros k [Hk _]%Hsingles.
      apply bt_keys_get in Hk as [md Hmd]. by apply (single_best m k md).
    + intros b p md Hb Hp Hpm q mdq Hqm. apply elem_of_app in Hb as [Hb|Hb].
      * destruct (Hmem b Hb) as [kk E]. rewrite E in *. by apply group_block_linked.
      * apply list_elem_of_In, in_map_iff in Hb as (k & <- & Hk%list_elem_of_In).
        cbn [fst single_block] in *. apply list_elem_of_singleton in Hp as ->.
        rewrite list_elem_of_singleton. split; [by left|]. intros [->|(Hg & _)%linked_grouped]; [done|].
        apply Hsingles in Hk as [_ Hk]. exfalso. by apply Hk, (Hgr k md).
  - rewrite len_app. unfold len in *. rewrite length_map. lia.
Qed.

Lemma block_lookup (m : State) bs p :
  plan_blocks m bs -> is_Some (bt_get p m) -> exists i b, bs !! i = Some b /\ p ∈ fst b.
Proof. intros [Hperm _ _] Hp%bt_keys_get. by rewrite <-Hperm, elem_blocks in Hp. Qed.

(** Each block's names are distinct entries. *)
Lemma block_names (m : State) bs i b :
  bt_wf m -> plan_blocks m bs -> bs !! i = Some b -> NoDup (fst b) /\ fst b ⊆ bt_keys m.
Proof.
  intros Hm [Hperm _ _] Hi. split.
  - pose proof (bt_keys_NoDup m Hm) as Hnd. rewrite <-Hperm in Hnd. apply list_elem_of_lookup_2 in Hi.
    apply list_elem_of_split in Hi as (l1 & l2 & ->). rewrite map_app, concat_app in Hnd. cbn in Hnd.
    apply NoDup_app in Hnd as (_ & _ & Hnd). by apply NoDup_app in Hnd as (? & _ & _).
  - intros p Hp. rewrite <-Hperm. apply elem_blocks. eauto.
Qed.


(** ** A worked state: two names of one file, and a file of another layer *)

Definition regular (layer nlink size : Z) : Metadata :=
  {| md_mode := 33188; md_uid := 0; md_gid := 0; md_mtime := 0; md_dev_major := 3; md_ino := 9;
     md_rdev_major := 0; md_rdev_minor := 0; md_nlink_source := nlink; md_source_layer := layer;
     md_body := EntryBody_Spool (Some {| sr_offset := 0; sr_size := size |}) |}.
Definition linked_state : State :=
  [(str "a", regular 0 2 0); (str "b", regular 0 2 5); (str "c", regular 1 2 7)].


Example linked_plan :
  (fun p => hp_identity p) <$> plan_hardlinks linked_state
  = Ok [(str "a", (1, 1)); (str "b", (1, 1)); (str "c", (2, 2))].
Proof. vm_compute. reflexivity. Qed.
