(* ===== verification/TarCpio.v ===== *)
(** * Converting a TAR layer

    [convert] of [libs/image-core/src/ops/cpio.rs]: a layer's TAR archive
    becomes a [newc] archive in two passes over one file handle.  The first
    collects headers and plans inodes and hard links, the second streams bodies
    and emits every hard link right after its target.

    The [tar] crate is a parameter: a pass is the list of entries it yields,
    [None] being an unreadable one.  An entry's body is the bytes its reader
    yields before the end or a read error.  Writes to the temporary file
    succeed. *)

From Stdlib Require Import ZArith Lia Ascii.
From stdpp Require Import base tactics option list numbers strings gmap sets.
From S2P Require Import Prelude Bytes Text Cpio.

Inductive EntryType :=
  | Tar_Regular | Tar_Link | Tar_Symlink | Tar_Char | Tar_Block | Tar_Directory | Tar_Fifo | Tar_Continuous
  | Tar_XGlobalHeader | Tar_XHeader | Tar_Other (typeflag : Z).
#[global] Instance EntryType_eq_dec : EqDecision EntryType.
Proof. solve_decision. Defined.

(** What the crate's accessors return; [None] is a field that does not parse. *)
Record TarEntry := {
  te_path : bytes;
  te_link : option bytes;
  te_type : EntryType;
  te_mode : option Z;
  te_uid : option Z;
  te_gid : option Z;
  te_mtime : option Z;
  te_size : Z;
  te_dev_major : option (option Z);
  te_dev_minor : option (option Z);
  te_body : bytes;
  te_broken : bool;
}.

Record LinkId := { li_dev : Z; li_ino : Z }.

Record TarHeaderSnapshot := {
  sn_path : bytes;
  sn_link_name : option bytes;
  sn_symlink_target : option bytes;
  sn_type : EntryType;
  sn_mode : Z;
  sn_uid : Z;
  sn_gid : Z;
  sn_mtime : Z;
  sn_size : Z;
  sn_dev_major : option Z;
  sn_dev_minor : option Z;
}.

Definition is_hard_link (t : EntryType) : bool := bool_decide (t = Tar_Link).
Definition is_device (t : EntryType) : bool := bool_decide (t = Tar_Char) || bool_decide (t = Tar_Block).
Definition needs_reader (t : EntryType) : bool := bool_decide (t = Tar_Regular) || bool_decide (t = Tar_Continuous).

(** ** Snapshots *)

Definition from_utf8 (b : bytes) : res OperationError bytes := _ ← fail_if (negb (utf8_valid b)) Op_InvalidTar; Ok b.
(** [u32::try_from] on a header field. *)
Definition newc_field (value : option Z) : res OperationError Z :=
  value ← ok_or value Op_InvalidTar;
  _ ← fail_if (U32_MAX <? value) Op_InvalidCpio;
  Ok value.

Definition snapshot_links (e : TarEntry) : res OperationError (option bytes * option bytes) :=
  if is_hard_link (te_type e) then
    link_name ← ok_or (te_link e) Op_InvalidTar;
    link_name ← from_utf8 link_name;
    link_name ← normalize_path link_name;
    Ok (Some link_name, None)
  else if bool_decide (te_type e = Tar_Symlink) then Ok (None, te_link e)
  else Ok (None, None).

Definition device_field (e : TarEntry) (field : option (option Z)) : res OperationError (option Z) :=
  if is_device (te_type e) then ok_or field Op_InvalidTar else Ok None.

Definition snapshot_entry (e : TarEntry) : res OperationError TarHeaderSnapshot :=
  raw_path ← from_utf8 (te_path e);
  path ← normalize_path raw_path;
  '(link_name, symlink_target) ← snapshot_links e;
  mode ← ok_or (te_mode e) Op_InvalidTar;
  uid ← newc_field (te_uid e);
  gid ← newc_field (te_gid e);
  mtime ← newc_field (te_mtime e);
  dev_major ← device_field e (te_dev_major e);
  dev_minor ← device_field e (te_dev_minor e);
  Ok {| sn_path := path; sn_link_name := link_name; sn_symlink_target := symlink_target; sn_type := te_type e;
        sn_mode := mode; sn_uid := uid; sn_gid := gid; sn_mtime := mtime; sn_size := te_size e;
        sn_dev_major := dev_major; sn_dev_minor := dev_minor |}.

(** ** The plan *)

Record LinkPlan := {
  lp_identity : gmap bytes LinkId;
  lp_nlink : gmap bytes Z;
  lp_pending : gmap bytes (list bytes);
  lp_missing : list bytes;
}.
Definition identity_for (plan : LinkPlan) (path : bytes) : option LinkId := lp_identity plan !! path.
Definition nlink_for (plan : LinkPlan) (path : bytes) : Z := default 1 (lp_nlink plan !! path).

Definition link_of (h : TarHeaderSnapshot) : bool := is_hard_link (sn_type h).
Definition add_group (groups : gmap bytes (list bytes)) (h : TarHeaderSnapshot) : gmap bytes (list bytes) :=
  if link_of h then
    let target := default [] (sn_link_name h) in
    <[target := default [] (groups !! target) ++ [sn_path h]]> groups
  else groups.

(** Plan under construction, with [next_dev] and [next_ino]. *)
Record planning := {
  pl_plan : LinkPlan;
  pl_next_dev : Z;
  pl_next_ino : Z;
}.
Definition fresh (s : planning) : LinkId * planning :=
  ({| li_dev := pl_next_dev s; li_ino := pl_next_ino s |},
   {| pl_plan := pl_plan s; pl_next_dev := saturating_add 32 (pl_next_dev s) 1;
      pl_next_ino := saturating_add 32 (pl_next_ino s) 1 |}).
Definition with_plan (s : planning) (f : LinkPlan -> LinkPlan) : planning :=
  {| pl_plan := f (pl_plan s); pl_next_dev := pl_next_dev s; pl_next_ino := pl_next_ino s |}.

(** One identity and one count for a target and its links. *)
Definition add_members (id : LinkId) (count : Z) (target : bytes) (members : list bytes) (plan : LinkPlan) : LinkPlan :=
  foldl (fun p member =>
      {| lp_identity := <[member := id]> (lp_identity p); lp_nlink := <[member := count]> (lp_nlink p);
         lp_pending := lp_pending p; lp_missing := lp_missing p |})
    {| lp_identity := <[target := id]> (lp_identity plan); lp_nlink := <[target := count]> (lp_nlink plan);
       lp_pending := lp_pending plan; lp_missing := lp_missing plan |} members.
Definition add_pending (target : bytes) (members : list bytes) (plan : LinkPlan) : LinkPlan :=
  {| lp_identity := lp_identity plan; lp_nlink := lp_nlink plan;
     lp_pending := <[target := members]> (lp_pending plan); lp_missing := lp_missing plan |}.
Definition add_missing (target : bytes) (plan : LinkPlan) : LinkPlan :=
  {| lp_identity := lp_identity plan; lp_nlink := lp_nlink plan;
     lp_pending := lp_pending plan; lp_missing := lp_missing plan ++ [target] |}.
Definition group_nlink (members : list bytes) : Z := (1 + len members mod 2 ^ 32) mod 2 ^ 32.

Definition plan_group (target : bytes) (members : list bytes) (s : planning) : planning :=
  let '(id, s) := fresh s in
  with_plan s (add_pending target members ∘ add_members id (group_nlink members) target members).
Definition plan_known (state : gmap bytes (list bytes) * planning) (target : bytes) : gmap bytes (list bytes) * planning :=
  let '(groups, s) := state in
  match groups !! target with
  | Some members => (delete target groups, plan_group target members s)
  | None => state
  end.
(** A group whose target is no entry. *)
Definition plan_missing (s : planning) (group : bytes * list bytes) : planning :=
  let '(target, members) := group in
  let '(id, s) := fresh s in
  with_plan s (add_pending target members ∘ add_missing target ∘ add_members id (group_nlink members) target members).
Definition plan_single (s : planning) (h : TarHeaderSnapshot) : planning :=
  match lp_identity (pl_plan s) !! sn_path h with
  | Some _ => s
  | None =>
      let '(id, s) := fresh s in
      with_plan s (fun p => {| lp_identity := <[sn_path h := id]> (lp_identity p); lp_nlink := lp_nlink p;
                               lp_pending := lp_pending p; lp_missing := lp_missing p |})
  end.

Section Convert.
(** The order in which a [HashMap] is drained. *)
Context (drain : gmap bytes (list bytes) -> list (bytes * list bytes)).
Hypothesis drain_all : forall m, drain m ≡ₚ map_to_list m.

Definition empty_plan : planning :=
  {| pl_plan := {| lp_identity := ∅; lp_nlink := ∅; lp_pending := ∅; lp_missing := [] |}; pl_next_dev := 1; pl_next_ino := 1 |}.
Definition known_targets (headers : list TarHeaderSnapshot) : list bytes := sn_path <$> filter (fun h => link_of h = false) headers.
Definition plan_links (headers : list TarHeaderSnapshot) : LinkPlan :=
  let groups := foldl add_group ∅ headers in
  let '(groups, s) := foldl plan_known (groups, empty_plan) (known_targets headers) in
  let s := foldl plan_missing s (drain groups) in
  pl_plan (foldl plan_single s headers).

(** ** Records *)

Definition device_rdev (h : TarHeaderSnapshot) : Z * Z := (default 0 (sn_dev_major h), default 0 (sn_dev_minor h)).

Definition typed_mode (h : TarHeaderSnapshot) (bits : Z) : Z := Z.lor (Z.land (sn_mode h) 4095) bits.
Definition mode_and_body (h : TarHeaderSnapshot) : res OperationError (Z * Body) :=
  match sn_type h with
  | Tar_Regular | Tar_Continuous =>
      _ ← fail_if (U32_MAX <? sn_size h) Op_InvalidCpio;
      Ok (typed_mode h 32768, Body_Empty)
  | Tar_Directory => Ok (typed_mode h 16384, Body_Empty)
  | Tar_Symlink =>
      target ← ok_or (sn_symlink_target h) Op_InvalidTar;
      Ok (typed_mode h 40960, Body_Owned target)
  | Tar_Link => Ok (typed_mode h 32768, Body_Empty)
  | Tar_Char => Ok (typed_mode h 8192, Body_Empty)
  | Tar_Block => Ok (typed_mode h 24576, Body_Empty)
  | Tar_Fifo => Ok (typed_mode h 4096, Body_Empty)
  | Tar_XGlobalHeader | Tar_XHeader | Tar_Other _ => Err Op_UnsupportedArtifact
  end.

Definition build_record (h : TarHeaderSnapshot) (identity : option LinkId) (nlink : Z) : res OperationError Record_ :=
  id ← ok_or identity Op_InvalidTar;
  _ ← fail_if (bool_decide (sn_type h = Tar_XGlobalHeader) || bool_decide (sn_type h = Tar_XHeader)) Op_UnsupportedArtifact;
  let rdev := if is_device (sn_type h) then device_rdev h else (0, 0) in
  '(mode, body) ← mode_and_body h;
  Ok {| rec_name := sn_path h; rec_mode := mode; rec_uid := sn_uid h; rec_gid := sn_gid h; rec_mtime := sn_mtime h;
        rec_nlink := nlink; rec_dev_major := li_dev id; rec_dev_minor := 0; rec_ino := li_ino id;
        rec_rdev_major := fst rdev; rec_rdev_minor := snd rdev; rec_body := body |}.

(** ** The second pass *)

(** [copy_exactly] from an entry whose reader may break. *)
Definition write_body (record : Record_) (size : Z) (e : TarEntry) : res OperationError bytes :=
  _ ← fail_if ((len (te_body e) <? size) && te_broken e) Op_ReadSource;
  write_streaming_entry record size (te_body e).

Definition emit_entry (plan : LinkPlan) (live : TarHeaderSnapshot) (e : TarEntry) : res OperationError bytes :=
  record ← build_record live (identity_for plan (sn_path live)) (nlink_for plan (sn_path live));
  if needs_reader (sn_type live) then
    _ ← fail_if (U32_MAX <? sn_size live) Op_InvalidCpio;
    write_body record (sn_size live) e
  else write_entry record.

(** A deferred link: its first snapshot, under the identity of its group. *)
Definition emit_link (headers : list TarHeaderSnapshot) (plan : LinkPlan) (link_path : bytes) : res OperationError bytes :=
  identity ← expect (identity_for plan link_path);
  snapshot ← expect (snd <$> list_find (fun h => sn_path h = link_path) headers);
  record ← build_record snapshot (Some identity) (nlink_for plan link_path);
  write_entry record.
Fixpoint emit_links (headers : list TarHeaderSnapshot) (plan : LinkPlan) (links : list bytes) : res OperationError bytes :=
  match links with
  | [] => Ok []
  | link :: links =>
      out ← emit_link headers plan link;
      rest ← emit_links headers plan links;
      Ok (out ++ rest)
  end.

Definition take_pending (path : bytes) (plan : LinkPlan) : LinkPlan :=
  {| lp_identity := lp_identity plan; lp_nlink := lp_nlink plan;
     lp_pending := delete path (lp_pending plan); lp_missing := filter (fun m => m <> path) (lp_missing plan) |}.
Definition emit_deferred (headers : list TarHeaderSnapshot) (plan : LinkPlan) (path : bytes) : res OperationError (bytes * LinkPlan) :=
  match lp_pending plan !! path with
  | Some deferred =>
      let plan := take_pending path plan in
      out ← emit_links headers plan deferred;
      Ok (out, plan)
  | None => Ok ([], plan)
  end.

(** The entry loop: the headers still expected, the plan, the bytes so far. *)
Fixpoint emit_all (headers remaining : list TarHeaderSnapshot) (entries : list (option TarEntry)) (plan : LinkPlan) (out : bytes)
    : res OperationError (bytes * LinkPlan) :=
  match entries with
  | [] => _ ← fail_if (negb (is_empty remaining)) Op_InvalidTar; Ok (out, plan)
  | entry :: entries =>
      e ← ok_or entry Op_InvalidTar;
      live ← snapshot_entry e;
      planned ← ok_or (head remaining) Op_InvalidTar;
      _ ← fail_if (bool_decide (sn_path planned <> sn_path live) || bool_decide (sn_type planned <> sn_type live)) Op_InvalidTar;
      if link_of live then
        _ ← fail_if (te_broken e) Op_ReadSource;
        emit_all headers (tail remaining) entries plan out
      else
        b ← emit_entry plan live e;
        '(links, plan) ← emit_deferred headers plan (sn_path live);
        emit_all headers (tail remaining) entries plan (out ++ b ++ links)
  end.

Fixpoint snapshot_all (entries : list (option TarEntry)) : res OperationError (list TarHeaderSnapshot) :=
  match entries with
  | [] => Ok []
  | entry :: entries =>
      e ← ok_or entry Op_InvalidTar;
      h ← snapshot_entry e;
      hs ← snapshot_all entries;
      Ok (h :: hs)
  end.

(** The content [convert] publishes; [digest_ok]: the file still has the
    recorded digest. *)
Definition convert (digest_ok : bool) (first second : list (option TarEntry)) : res OperationError bytes :=
  _ ← fail_if (negb digest_ok) Op_DigestMismatch;
  headers ← snapshot_all first;
  '(out, plan) ← emit_all headers headers second (plan_links headers) [];
  _ ← fail_if (bool_decide (lp_pending plan <> ∅) || negb (is_empty (lp_missing plan))) Op_InvalidTar;
  trailer ← write_trailer;
  Ok (out ++ trailer).
End Convert.

(** ** The reference: files with their links *)

(** The hard links to [t], in archive order. *)
Definition links_to (hs : list TarHeaderSnapshot) (t : bytes) : list TarHeaderSnapshot :=
  filter (fun h => link_of h = true /\ default [] (sn_link_name h) = t) hs.
Definition file_links (hs : list TarHeaderSnapshot) (t : bytes) : list bytes := sn_path <$> links_to hs t.
Definition group (hs : list TarHeaderSnapshot) (t : bytes) : list bytes := t :: file_links hs t.
(** Files in the order their inodes are handed out: those with links first. *)
Definition leaders (hs : list TarHeaderSnapshot) : list bytes :=
  filter (fun t => file_links hs t <> []) (known_targets hs) ++ filter (fun t => file_links hs t = []) (known_targets hs).
Definition inode (hs : list TarHeaderSnapshot) (t : bytes) : Z :=
  match list_find (fun x => x = t) (leaders hs) with Some (i, _) => 1 + Z.of_nat i | None => 0 end.
Definition inode_id (hs : list TarHeaderSnapshot) (t : bytes) : LinkId := {| li_dev := inode hs t; li_ino := inode hs t |}.
Definition link_count (hs : list TarHeaderSnapshot) (t : bytes) : Z := 1 + len (file_links hs t).

Fixpoint link_records (hs : list TarHeaderSnapshot) (t : bytes) (links : list TarHeaderSnapshot) : res OperationError bytes :=
  match links with
  | [] => Ok []
  | l :: links =>
      record ← build_record l (Some (inode_id hs t)) (link_count hs t);
      out ← write_entry record;
      rest ← link_records hs t links;
      Ok (out ++ rest)
  end.
(** A file: its record and body, then one record per hard link. *)
Definition file_records (hs : list TarHeaderSnapshot) (h : TarHeaderSnapshot) (e : TarEntry) : res OperationError bytes :=
  record ← build_record h (Some (inode_id hs (sn_path h))) (link_count hs (sn_path h));
  out ← (if needs_reader (sn_type h) then write_body record (sn_size h) e else write_entry record);
  links ← link_records hs (sn_path h) (links_to hs (sn_path h));
  Ok (out ++ links).
Fixpoint archive_records (hs : list TarHeaderSnapshot) (entries : list (TarHeaderSnapshot * TarEntry)) : res OperationError bytes :=
  match entries with
  | [] => Ok []
  | (h, e) :: entries =>
      if link_of h then
        _ ← fail_if (te_broken e) Op_ReadSource;
        archive_records hs entries
      else
        out ← file_records hs h e;
        rest ← archive_records hs entries;
        Ok (out ++ rest)
  end.

(** Every hard link names a file of the archive that is not itself a link. *)
Definition resolved (hs : list TarHeaderSnapshot) : Prop :=
  Forall (fun h => link_of h = true -> default [] (sn_link_name h) ∈ known_targets hs) hs.
Definition distinct_paths (hs : list TarHeaderSnapshot) : Prop := NoDup (sn_path <$> hs).

(** ** The plan computes the reference *)

Lemma links_to_app hs hs' t : links_to (hs ++ hs') t = links_to hs t ++ links_to hs' t.
Proof. apply filter_app. Qed.

Lemma groups_links hs t :
  foldl add_group ∅ hs !! t = match file_links hs t with [] => None | ls => Some ls end.
Proof.
  induction hs as [|h hs IH] using rev_ind; [done|].
  rewrite foldl_app. cbn [foldl]. unfold add_group at 1, file_links. rewrite links_to_app, fmap_app.
  change (sn_path <$> links_to hs t) with (file_links hs t). unfold links_to. rewrite filter_cons, filter_nil.
  destruct (link_of h) eqn:El; [|by rewrite decide_False by naive_solver; rewrite app_nil_r, IH].
  destruct (decide (default [] (sn_link_name h) = t)) as [<-|Hne].
  - rewrite decide_True by done. rewrite lookup_insert_eq, IH. by destruct (file_links hs _).
  - rewrite decide_False by naive_solver. rewrite lookup_insert_ne, app_nil_r by done. done.
Qed.

Lemma elem_of_file_links hs t p :
  p ∈ file_links hs t <-> exists h, h ∈ hs /\ link_of h = true /\ default [] (sn_link_name h) = t /\ p = sn_path h.
Proof. unfold file_links, links_to. rewrite list_elem_of_fmap. setoid_rewrite list_elem_of_filter. naive_solver. Qed.
Lemma elem_of_known_targets hs t : t ∈ known_targets hs <-> exists h, h ∈ hs /\ link_of h = false /\ t = sn_path h.
Proof. unfold known_targets. rewrite list_elem_of_fmap. setoid_rewrite list_elem_of_filter. naive_solver. Qed.

Lemma add_members_maps id count t members plan :
  (forall p, lp_identity (add_members id count t members plan) !! p = if decide (p ∈ t :: members) then Some id else lp_identity plan !! p)
  /\ (forall p, lp_nlink (add_members id count t members plan) !! p = if decide (p ∈ t :: members) then Some count else lp_nlink plan !! p)
  /\ lp_pending (add_members id count t members plan) = lp_pending plan
  /\ lp_missing (add_members id count t members plan) = lp_missing plan.
Proof.
  unfold add_members. induction members as [|m members IH] using rev_ind; cbn [foldl].
  - split_and!; [..|done|done]; intros p; cbn; (destruct (decide (p = t)) as [->|Hne];
      [rewrite lookup_insert_eq, decide_True by set_solver|rewrite lookup_insert_ne, decide_False by set_solver]; done).
  - rewrite foldl_app. cbn. destruct IH as (I1 & I2 & I3 & I4). split_and!; [..|done|done]; intros p;
      (destruct (decide (p = m)) as [->|Hne]; [rewrite lookup_insert_eq, decide_True by set_solver; done|]);
      rewrite lookup_insert_ne by done; [rewrite I1|rewrite I2]; apply decide_ext; set_solver.
Qed.

Section Plan.
Context (hs : list TarHeaderSnapshot) (Hdistinct : distinct_paths hs) (Hmany : len hs < 2 ^ 32 - 1).

Lemma same_path h h' : h ∈ hs -> h' ∈ hs -> sn_path h = sn_path h' -> h = h'.
Proof.
  intros [i Hi]%list_elem_of_lookup [j Hj]%list_elem_of_lookup E.
  assert (i = j) as <- by (eapply (NoDup_lookup (sn_path <$> hs)); rewrite ?list_lookup_fmap, ?Hi, ?Hj; cbn; [done|done|by rewrite E]).
  congruence.
Qed.

Lemma file_links_short t : len (file_links hs t) <= len hs.
Proof. unfold file_links, links_to, len. rewrite length_fmap. pose proof (length_filter (fun h => link_of h = true /\ default [] (sn_link_name h) = t) hs). lia. Qed.

Lemma known_not_link t p : t ∈ known_targets hs -> p ∈ file_links hs t -> p ∉ known_targets hs.
Proof.
  intros _ (l & Hl & Hlink & _ & ->)%elem_of_file_links (h & Hh & Hfile & E)%elem_of_known_targets.
  apply (same_path _ _ Hl Hh) in E. congruence.
Qed.

Lemma group_disjoint t t' p :
  t ∈ known_targets hs -> t' ∈ known_targets hs -> p ∈ group hs t -> p ∈ group hs t' -> t = t'.
Proof.
  unfold group. rewrite !elem_of_cons. intros Ht Ht' [->|Hp] [->|Hp']; [done|..].
  - by destruct (known_not_link t' t Ht' Hp').
  - by destruct (known_not_link t t' Ht Hp).
  - apply elem_of_file_links in Hp as (l & Hl & _ & <- & ->), Hp' as (l' & Hl' & _ & <- & E).
    by apply (same_path _ _ Hl Hl') in E as ->.
Qed.

Lemma NoDup_known : NoDup (known_targets hs).
Proof.
  unfold known_targets. clear Hmany. unfold distinct_paths in Hdistinct.
  induction hs as [|h l IH]; [constructor|]. rewrite filter_cons. apply NoDup_cons in Hdistinct as [Hn Hd].
  case_decide; [|by apply IH]. rewrite fmap_cons. apply NoDup_cons. split; [|by apply IH].
  intros (x & E & Hx)%list_elem_of_fmap. apply list_elem_of_filter in Hx as [_ Hx]. apply Hn, list_elem_of_fmap. eauto.
Qed.

Lemma known_short : len (known_targets hs) <= len hs.
Proof. unfold known_targets, len. rewrite length_fmap. pose proof (length_filter (fun h => link_of h = false) hs). lia. Qed.

(** After inodes were handed to [alloc]. *)
Record planned (alloc : list bytes) (s : planning) : Prop := {
  pd_next : pl_next_dev s = 1 + len alloc /\ pl_next_ino s = 1 + len alloc;
  pd_files : alloc ⊆ known_targets hs;
  pd_nodup : NoDup alloc;
  pd_identity p id : lp_identity (pl_plan s) !! p = Some id <->
    exists i t, alloc !! i = Some t /\ p ∈ group hs t /\ id = {| li_dev := 1 + Z.of_nat i; li_ino := 1 + Z.of_nat i |};
  pd_nlink p n : lp_nlink (pl_plan s) !! p = Some n <->
    exists t, t ∈ alloc /\ file_links hs t <> [] /\ p ∈ group hs t /\ n = link_count hs t;
  pd_pending t ls : lp_pending (pl_plan s) !! t = Some ls <-> t ∈ alloc /\ file_links hs t <> [] /\ ls = file_links hs t;
  pd_missing : lp_missing (pl_plan s) = [];
}.

Lemma alloc_room alloc s t : planned alloc s -> t ∈ known_targets hs -> t ∉ alloc -> len alloc + 1 <= len hs.
Proof.
  intros H Ht Hnew. pose proof known_short. enough (len alloc + 1 <= len (known_targets hs)) by lia.
  assert (length (t :: alloc) <= length (known_targets hs))%nat as Hl; [|unfold len; cbn in Hl; lia].
  apply submseteq_length, NoDup_submseteq; [by apply NoDup_cons; split; [|apply H]|].
  intros x [->|Hx]%elem_of_cons; [done|by apply (pd_files _ _ H)].
Qed.

(** One more file, its group planned with it. *)
Lemma planned_next alloc s t s' :
  planned alloc s -> t ∈ known_targets hs -> t ∉ alloc ->
  (pl_next_dev s' = pl_next_dev s + 1 /\ pl_next_ino s' = pl_next_ino s + 1) ->
  (forall p, lp_identity (pl_plan s') !! p = if decide (p ∈ group hs t)
     then Some {| li_dev := pl_next_dev s; li_ino := pl_next_ino s |} else lp_identity (pl_plan s) !! p) ->
  (forall p, lp_nlink (pl_plan s') !! p = if decide (p ∈ group hs t /\ file_links hs t <> [])
     then Some (link_count hs t) else lp_nlink (pl_plan s) !! p) ->
  (forall p, lp_pending (pl_plan s') !! p = if decide (p = t /\ file_links hs t <> [])
     then Some (file_links hs t) else lp_pending (pl_plan s) !! p) ->
  lp_missing (pl_plan s') = lp_missing (pl_plan s) ->
  planned (alloc ++ [t]) s'.
Proof.
  intros [[Hd Hi] Hf Hn Hid Hnl Hpe Hm] Ht Hnew [Hd' Hi'] Eid Enl Epe Em.
  assert (forall t', t' ∈ alloc -> t' ∈ known_targets hs) as Hknown by (intros; set_solver).
  split.
  - rewrite len_app. unfold len at 2 4. cbn. lia.
  - set_solver.
  - apply NoDup_app. split_and!; [done|set_solver|apply NoDup_singleton].
  - intros p id. rewrite Eid. case_decide as Hp.
    + rewrite Hd, Hi. split.
      * intros [= <-]. exists (length alloc), t. rewrite lookup_app_r, Nat.sub_diag by lia. done.
      * intros (i & t' & Hl & Hp' & ->). f_equal. apply lookup_snoc_Some in Hl as [[_ Hl]|[-> ->]]; [|done].
        apply list_elem_of_lookup_2 in Hl. by destruct Hnew; rewrite (group_disjoint t t' p) by auto.
    + rewrite Hid. split.
      * intros (i & t' & Hl & Hp' & ->). exists i, t'. split; [by apply lookup_app_l_Some|done].
      * intros (i & t' & Hl & Hp' & ->). apply lookup_snoc_Some in Hl as [[_ Hl]|[-> ->]]; [eauto|done].
  - intros p n. rewrite Enl. case_decide as Hp.
    + destruct Hp as [Hp Hne]. split; [intros [= <-]; exists t; set_solver|].
      intros (t' & Ht' & _ & Hp' & ->). by rewrite (group_disjoint t t' p) by set_solver.
    + rewrite Hnl. split; [intros (t' & ? & ? & ? & ->); exists t'; set_solver|].
      intros (t' & [Ht'| ->%list_elem_of_singleton]%elem_of_app & ? & ? & ->); [eauto|naive_solver].
  - intros p ls. rewrite Epe. case_decide as Hp; [destruct Hp as [-> Hne]; set_solver|].
    rewrite Hpe. split; [intros (? & ? & ->); set_solver|].
    intros ([Ht'| ->%list_elem_of_singleton]%elem_of_app & ? & ->); [done|naive_solver].
  - congruence.
Qed.

Lemma fresh_next alloc s t : planned alloc s -> t ∈ known_targets hs -> t ∉ alloc ->
  pl_next_dev (snd (fresh s)) = pl_next_dev s + 1 /\ pl_next_ino (snd (fresh s)) = pl_next_ino s + 1.
Proof. intros H Ht Hnew. pose proof (alloc_room alloc s t H Ht Hnew). destruct (pd_next _ _ H) as [Ed Ei]. cbn [fresh snd pl_next_dev pl_next_ino]. unfold saturating_add. lia. Qed.

Lemma plan_group_planned alloc s t :
  planned alloc s -> t ∈ known_targets hs -> t ∉ alloc -> file_links hs t <> [] ->
  planned (alloc ++ [t]) (plan_group t (file_links hs t) s).
Proof.
  intros H Ht Hnew Hne. pose proof (file_links_short t).
  destruct (add_members_maps {| li_dev := pl_next_dev s; li_ino := pl_next_ino s |} (group_nlink (file_links hs t)) t (file_links hs t) (pl_plan s))
    as (I1 & I2 & I3 & I4).
  apply (planned_next alloc s t); [done..|by apply (fresh_next alloc s t)| | | |].
  - apply I1.
  - intros p. cbn. rewrite I2. assert (group_nlink (file_links hs t) = link_count hs t) as ->.
    { unfold group_nlink, link_count. pose proof (len_nonneg (file_links hs t)).
      rewrite (Z.mod_small (len _)) by lia. rewrite Z.mod_small by lia. done. }
    apply decide_ext. unfold group. naive_solver.
  - intros p. cbn. rewrite I3. destruct (decide (p = t)) as [->|Hp].
    + rewrite lookup_insert_eq, decide_True by done. done.
    + rewrite lookup_insert_ne, decide_False by naive_solver. done.
  - cbn. done.
Qed.

Lemma plan_single_planned alloc s h :
  planned alloc s -> h ∈ hs -> link_of h = false -> sn_path h ∉ alloc -> file_links hs (sn_path h) = [] ->
  planned (alloc ++ [sn_path h]) (plan_single s h).
Proof.
  intros H Hh Hlink Hnew Hnone. assert (sn_path h ∈ known_targets hs) as Hk by (apply elem_of_known_targets; eauto).
  assert (lp_identity (pl_plan s) !! sn_path h = None) as E.
  { apply eq_None_not_Some. intros [id (i & t & Hl & Hp & _)%(pd_identity _ _ H)]. apply list_elem_of_lookup_2 in Hl.
    destruct Hnew. rewrite (group_disjoint (sn_path h) t (sn_path h)); [done|done|by apply (pd_files _ _ H)|by left|done]. }
  unfold plan_single. rewrite E.
  apply (planned_next alloc s (sn_path h)); [done..|by apply (fresh_next alloc s (sn_path h))| | | |done].
  - intros p. cbn. unfold group. rewrite Hnone. destruct (decide (p = sn_path h)) as [->|Hp];
      [rewrite lookup_insert_eq, decide_True by set_solver|rewrite lookup_insert_ne, decide_False by set_solver]; done.
  - intros p. cbn. rewrite decide_False by naive_solver. done.
  - intros p. cbn. rewrite decide_False by naive_solver. done.
Qed.

(** ** The three loops *)

Lemma known_loop ts alloc s groups :
  planned alloc s -> ts ⊆ known_targets hs -> NoDup ts -> (forall t, t ∈ ts -> t ∉ alloc) ->
  (forall t, t ∈ ts -> groups !! t = match file_links hs t with [] => None | ls => Some ls end) ->
  exists s', foldl plan_known (groups, s) ts = (foldl (fun g t => delete t g) groups (filter (fun t => file_links hs t <> []) ts), s')
    /\ planned (alloc ++ filter (fun t => file_links hs t <> []) ts) s'.
Proof.
  revert alloc s groups. induction ts as [|t ts IH]; intros alloc s groups H Hk Hn Hd Hg.
  { exists s. rewrite app_nil_r. done. }
  apply NoDup_cons in Hn as [Ht Hn]. cbn [foldl plan_known]. rewrite Hg by set_solver. rewrite filter_cons.
  destruct (file_links hs t) as [|l ls] eqn:E.
  - rewrite decide_False by naive_solver. apply IH; [done|set_solver..].
  - rewrite decide_True by done. rewrite <-E.
    destruct (IH (alloc ++ [t]) (plan_group t (file_links hs t) s) (delete t groups)) as (s' & Es & Hs').
    + apply plan_group_planned; [done|set_solver|set_solver|congruence].
    + set_solver.
    + done.
    + set_solver.
    + intros t' Ht'. rewrite lookup_delete_ne by set_solver. apply Hg. set_solver.
    + exists s'. rewrite Es. split; [done|]. by rewrite <-app_assoc in Hs'.
Qed.

Lemma single_loop suf alloc s :
  planned alloc s -> suf ⊆ hs -> NoDup (sn_path <$> suf) ->
  (forall h, h ∈ suf -> link_of h = true \/ file_links hs (sn_path h) <> [] -> exists t, t ∈ alloc /\ sn_path h ∈ group hs t) ->
  (forall h, h ∈ suf -> link_of h = false -> file_links hs (sn_path h) = [] -> sn_path h ∉ alloc) ->
  planned (alloc ++ filter (fun t => file_links hs t = []) (known_targets suf)) (foldl plan_single s suf).
Proof.
  revert alloc s. induction suf as [|h suf IH]; intros alloc s H Hsub Hn Hin Hout; [by rewrite app_nil_r|].
  rewrite fmap_cons in Hn. apply NoDup_cons in Hn as [Hh Hn]. cbn [foldl]. unfold known_targets. rewrite filter_cons.
  assert (h ∈ hs) as Hmem by set_solver.
  destruct (decide (link_of h = false /\ file_links hs (sn_path h) = [])) as [[Hl Hf]|Hno].
  - rewrite decide_True by done. rewrite fmap_cons, filter_cons, decide_True by done. rewrite cons_middle, app_assoc.
    apply IH; [apply plan_single_planned; try done; apply Hout; set_solver|set_solver|done| |].
    + intros h' Hh' Hc. destruct (Hin h') as (t & Ht & Hp); [set_solver|done|]. exists t. set_solver.
    + intros h' Hh' Hl' Hf' [Ha|Ha%list_elem_of_singleton]%elem_of_app; [by destruct (Hout h'); [set_solver..|]|].
      apply Hh. rewrite <-Ha. apply list_elem_of_fmap. eauto.
  - destruct (Hin h) as (t & Ht & Hp); [set_solver|destruct (link_of h); naive_solver|].
    apply list_elem_of_lookup in Ht as [i Hi].
    assert (plan_single s h = s) as ->.
    { unfold plan_single. rewrite (proj2 (pd_identity _ _ H (sn_path h) {| li_dev := 1 + Z.of_nat i; li_ino := 1 + Z.of_nat i |})); [done|]. eauto. }
    assert (filter (fun t0 => file_links hs t0 = []) (sn_path <$> (if decide (link_of h = false) then h :: filter (fun h0 => link_of h0 = false) suf else filter (fun h0 => link_of h0 = false) suf))
            = filter (fun t0 => file_links hs t0 = []) (known_targets suf)) as ->.
    { case_decide; [|done]. rewrite fmap_cons, filter_cons, decide_False by naive_solver. done. }
    apply IH; [done|set_solver|done|set_solver|set_solver].
Qed.

Lemma planned_empty : planned [] empty_plan.
Proof. split; cbn; [done|set_solver|constructor|..|done]; intros p id; rewrite lookup_empty; (split; [done|]); set_solver. Qed.

Context (drain : gmap bytes (list bytes) -> list (bytes * list bytes)) (drain_all : forall m, drain m ≡ₚ map_to_list m).
Context (Hresolved : resolved hs).

Lemma deletes_lookup (ts : list bytes) (groups : gmap bytes (list bytes)) t :
  foldl (fun g t => delete t g) groups ts !! (t : bytes) = if decide (t ∈ ts) then None else groups !! t.
Proof.
  revert groups. induction ts as [|x ts IH]; intros groups; cbn [foldl]; [done|]. rewrite IH.
  destruct (decide (t = x)) as [->|Hne].
  - rewrite lookup_delete_eq. rewrite (decide_True (P:=x ∈ x :: ts)) by set_solver. by case_decide.
  - rewrite lookup_delete_ne by done. apply decide_ext. set_solver.
Qed.

(** Nothing is left for the loop over missing targets. *)
Lemma no_group_left :
  foldl (fun g t => delete t g) (foldl add_group ∅ hs) (filter (fun t => file_links hs t <> []) (known_targets hs)) = ∅.
Proof.
  apply map_empty. intros t. rewrite deletes_lookup. case_decide as Hin; [done|]. rewrite groups_links.
  destruct (file_links hs t) as [|p ls] eqn:E; [done|]. destruct Hin. apply list_elem_of_filter.
  split; [by rewrite E|]. assert (p ∈ file_links hs t) as (h & Hh & Hl & Ht & _)%elem_of_file_links by (rewrite E; by left).
  unfold resolved in Hresolved. rewrite Forall_forall in Hresolved. rewrite <-Ht. by apply Hresolved.
Qed.

Lemma drain_empty : drain ∅ = [].
Proof. apply Permutation_nil_r. rewrite drain_all, map_to_list_empty. done. Qed.

Lemma plan_links_planned : exists s, plan_links drain hs = pl_plan s /\ planned (leaders hs) s.
Proof.
  destruct (known_loop (known_targets hs) [] empty_plan (foldl add_group ∅ hs)) as (s & Es & Hs);
    [apply planned_empty|done|apply NoDup_known|set_solver|by intros; apply groups_links|].
  exists (foldl plan_single s hs). unfold plan_links. rewrite Es, no_group_left, drain_empty. split; [done|].
  apply single_loop; [exact Hs|done|done| |].
  - intros h Hh Hc. cbn. destruct (link_of h) eqn:El.
    + exists (default [] (sn_link_name h)). assert (sn_path h ∈ file_links hs (default [] (sn_link_name h))) as Hp by (apply elem_of_file_links; eauto).
      split; [|by right]. apply list_elem_of_filter. split; [by intros E; rewrite E in Hp; set_solver|].
      unfold resolved in Hresolved. rewrite Forall_forall in Hresolved. by apply Hresolved.
    + destruct Hc as [|Hc]; [done|]. exists (sn_path h). split; [|by left].
      apply list_elem_of_filter. split; [done|]. apply elem_of_known_targets. eauto.
  - intros h _ _ Hf. cbn. rewrite list_elem_of_filter. naive_solver.
Qed.

Lemma leaders_all t : t ∈ known_targets hs -> t ∈ leaders hs.
Proof. intros Ht. unfold leaders. rewrite elem_of_app, !list_elem_of_filter. destruct (decide (file_links hs t = [])); tauto. Qed.

Lemma inode_lookup i t : NoDup (leaders hs) -> leaders hs !! i = Some t -> inode hs t = 1 + Z.of_nat i.
Proof.
  intros Hn Hi. unfold inode. destruct (list_find (fun x => x = t) (leaders hs)) as [[j x]|] eqn:E.
  - apply list_find_Some in E as (Hj & -> & _). by rewrite (NoDup_lookup _ _ _ _ Hn Hi Hj).
  - apply list_find_None in E. rewrite Forall_forall in E. by destruct (E t); [eapply list_elem_of_lookup_2|].
Qed.

(** What the plan says about a file and its links. *)
Lemma plan_of_file t p :
  t ∈ known_targets hs -> p ∈ group hs t ->
  identity_for (plan_links drain hs) p = Some (inode_id hs t) /\ nlink_for (plan_links drain hs) p = link_count hs t.
Proof.
  intros Ht Hp. destruct plan_links_planned as (s & -> & Hs). split.
  - destruct (proj1 (list_elem_of_lookup _ _) (leaders_all t Ht)) as [i Hi]. unfold identity_for, inode_id.
    rewrite (inode_lookup i t (pd_nodup _ _ Hs) Hi). apply (pd_identity _ _ Hs). eauto.
  - unfold nlink_for. destruct (decide (file_links hs t = [])) as [E|E].
    + assert (lp_nlink (pl_plan s) !! p = None) as ->; [|by unfold link_count; rewrite E].
      apply eq_None_not_Some. intros [n (t' & Ht' & Hne & Hp' & _)%(pd_nlink _ _ Hs)]. destruct Hne.
      by rewrite (group_disjoint t' t p); [|by apply (pd_files _ _ Hs)|..].
    + rewrite (proj2 (pd_nlink _ _ Hs p (link_count hs t))); [done|]. exists t. split; [by apply leaders_all|done].
Qed.

Lemma plan_pending t :
  lp_pending (plan_links drain hs) !! t = if decide (t ∈ known_targets hs /\ file_links hs t <> []) then Some (file_links hs t) else None.
Proof.
  destruct plan_links_planned as (s & -> & Hs). case_decide as Hc.
  - apply (pd_pending _ _ Hs). destruct Hc as [Hk Hne]. split_and!; [by apply leaders_all|done|done].
  - apply eq_None_not_Some. intros [ls (Ht & Hne & _)%(pd_pending _ _ Hs)]. apply Hc. split; [by apply (pd_files _ _ Hs)|done].
Qed.
Lemma plan_missing_nil : lp_missing (plan_links drain hs) = [].
Proof. destruct plan_links_planned as (s & -> & Hs). apply Hs. Qed.
End Plan.

(** ** The second pass emits the reference *)

Section Emit.
Context (drain : gmap bytes (list bytes) -> list (bytes * list bytes)) (drain_all : forall m, drain m ≡ₚ map_to_list m).
Context (hs : list TarHeaderSnapshot) (Hdistinct : distinct_paths hs) (Hmany : len hs < 2 ^ 32 - 1) (Hresolved : resolved hs).

(** The plan once the files [done] have been emitted. *)
Record plan_after (done : list TarHeaderSnapshot) (plan : LinkPlan) : Prop := {
  pa_identity : lp_identity plan = lp_identity (plan_links drain hs);
  pa_nlink : lp_nlink plan = lp_nlink (plan_links drain hs);
  pa_pending t : lp_pending plan !! t = if decide (t ∈ known_targets done) then None else lp_pending (plan_links drain hs) !! t;
  pa_missing : lp_missing plan = [];
}.

Lemma emit_link_reference plan t l :
  lp_identity plan = lp_identity (plan_links drain hs) -> lp_nlink plan = lp_nlink (plan_links drain hs) ->
  t ∈ known_targets hs -> l ∈ links_to hs t ->
  emit_link hs plan (sn_path l) = (record ← build_record l (Some (inode_id hs t)) (link_count hs t); write_entry record).
Proof.
  intros Ei En Ht Hl. assert (sn_path l ∈ group hs t) as Hp by (right; by apply list_elem_of_fmap_2).
  destruct (plan_of_file hs Hdistinct Hmany drain drain_all Hresolved t (sn_path l) Ht Hp) as [Hid Hnl].
  apply list_elem_of_filter in Hl as [_ Hl].
  unfold emit_link, identity_for, nlink_for in *. rewrite Ei, En, Hid. cbn [expect mbind res_bind].
  assert (exists i, list_find (fun h => sn_path h = sn_path l) hs = Some (i, l)) as [i ->].
  { destruct (list_find_elem_of (fun h => sn_path h = sn_path l) hs l Hl eq_refl) as [[i h] E]. rewrite E.
    apply list_find_Some in E as (Hi & Hpath & _). exists i. do 2 f_equal.
    apply (same_path hs Hdistinct); [by eapply list_elem_of_lookup_2|done|done]. }
  cbn. by rewrite Hnl.
Qed.

Lemma emit_links_reference plan t ls :
  lp_identity plan = lp_identity (plan_links drain hs) -> lp_nlink plan = lp_nlink (plan_links drain hs) ->
  t ∈ known_targets hs -> ls ⊆ links_to hs t -> emit_links hs plan (sn_path <$> ls) = link_records hs t ls.
Proof.
  intros Ei En Ht. induction ls as [|l ls IH]; intros Hsub; [done|].
  cbn [fmap list_fmap emit_links link_records]. rewrite (emit_link_reference plan t l) by (done || set_solver).
  rewrite IH by set_solver. by destruct (build_record _ _ _).
Qed.

Lemma build_record_size h id n r : build_record h id n = Ok r -> needs_reader (sn_type h) = true -> U32_MAX <? sn_size h = false.
Proof.
  unfold build_record, mode_and_body. destruct id; [|done]. cbn [ok_or mbind res_bind].
  destruct (sn_type h); try done; cbn; destruct (U32_MAX <? sn_size h); done.
Qed.

Lemma known_targets_app l l' : known_targets (l ++ l') = known_targets l ++ known_targets l'.
Proof. unfold known_targets. by rewrite filter_app, fmap_app. Qed.

Lemma emit_file_reference done plan h e :
  plan_after done plan -> h ∈ hs -> link_of h = false -> h ∉ done -> done ⊆ hs ->
  exists plan', plan_after (done ++ [h]) plan' /\
    (b ← emit_entry plan h e; '(links, plan') ← emit_deferred hs plan (sn_path h); Ok (b ++ links, plan'))
    = (out ← file_records hs h e; Ok (out, plan')).
Proof.
  intros [Ei En Ep Em] Hh Hl Hnew Hsub. assert (sn_path h ∈ known_targets hs) as Hk by (apply elem_of_known_targets; eauto).
  destruct (plan_of_file hs Hdistinct Hmany drain drain_all Hresolved (sn_path h) (sn_path h) Hk) as [Hid Hnl]; [by left|].
  assert (emit_entry plan h e = (record ← build_record h (Some (inode_id hs (sn_path h))) (link_count hs (sn_path h));
            if needs_reader (sn_type h) then write_body record (sn_size h) e else write_entry record)) as Hemit.
  { unfold emit_entry, identity_for, nlink_for in *. rewrite Ei, En, Hid, Hnl.
    destruct (build_record h _ _) as [r|x|] eqn:E; [|done..]. cbn.
    destruct (needs_reader (sn_type h)) eqn:Er; [|done]. by rewrite (build_record_size _ _ _ _ E Er). }
  assert (sn_path h ∉ known_targets done) as Hnot.
  { intros (h' & Hh' & _ & E)%elem_of_known_targets. apply (same_path hs Hdistinct) in E; [by subst|done|set_solver]. }
  assert (known_targets [h] = [sn_path h]) as Hone by (unfold known_targets; by rewrite filter_cons, Hl).
  assert (forall t, t <> sn_path h -> (t ∈ known_targets (done ++ [h]) <-> t ∈ known_targets done)) as Hother
    by (intros t Ht; rewrite known_targets_app, Hone; set_solver).
  unfold emit_deferred. rewrite Ep, decide_False by done. rewrite (plan_pending hs Hdistinct Hmany drain drain_all Hresolved).
  destruct (file_links hs (sn_path h)) as [|l ls] eqn:El.
  - rewrite decide_False by naive_solver. exists plan. split.
    + split; [done..| |done]. intros t. rewrite Ep. destruct (decide (t = sn_path h)) as [->|Hne].
      * rewrite decide_False, decide_True by (done || rewrite known_targets_app, Hone; set_solver).
        rewrite (plan_pending hs Hdistinct Hmany drain drain_all Hresolved), decide_False by naive_solver. done.
      * apply decide_ext. by rewrite Hother.
    + unfold file_records. rewrite Hemit. unfold file_links in El. apply fmap_nil_inv in El. rewrite El. cbn [link_records].
      destruct (build_record h _ _) as [r| |]; [|done..]. cbn. by destruct (if needs_reader (sn_type h) then _ else _).
  - rewrite decide_True by done. rewrite <-El. exists (take_pending (sn_path h) plan). split.
    + split; [done|done| |cbn; by rewrite Em]. intros t. cbn. destruct (decide (t = sn_path h)) as [->|Hne].
      * rewrite lookup_delete_eq, decide_True by (rewrite known_targets_app, Hone; set_solver). done.
      * rewrite lookup_delete_ne, Ep by done. apply decide_ext. by rewrite Hother.
    + cbv zeta. unfold file_links. rewrite (emit_links_reference (take_pending (sn_path h) plan) (sn_path h)) by done.
      unfold file_records. rewrite Hemit. destruct (build_record h _ _) as [r| |]; [|done..]. cbn.
      destruct (if needs_reader (sn_type h) then _ else _); [|done..]. cbn. by destruct (link_records _ _ _).
Qed.

Lemma emit_all_reference suf es done plan out :
  plan_after done plan -> hs = done ++ suf -> snapshot_all (Some <$> es) = Ok suf ->
  match archive_records hs (zip suf es) with
  | Ok b => exists plan', plan_after hs plan' /\ emit_all hs suf (Some <$> es) plan out = Ok (out ++ b, plan')
  | Err x => emit_all hs suf (Some <$> es) plan out = Err x
  | Panic => emit_all hs suf (Some <$> es) plan out = Panic
  end.
Proof.
  revert suf done plan out. induction es as [|e es IH]; intros suf done plan out Hplan Ehs Hsnap.
  { cbn in Hsnap. injection Hsnap as <-. rewrite app_nil_r in Ehs. subst. exists plan. cbn. by rewrite app_nil_r. }
  cbn [fmap list_fmap snapshot_all] in Hsnap. cbn [ok_or mbind res_bind] in Hsnap.
  destruct (snapshot_entry e) as [h| |] eqn:Eh; [|done..]. cbn [mbind res_bind] in Hsnap.
  destruct (snapshot_all (Some <$> es)) as [suf'| |] eqn:Es; [|done..]. injection Hsnap as <-.
  rewrite cons_middle, app_assoc in Ehs.
  assert (h ∈ hs) as Hh by (rewrite Ehs; set_solver).
  assert (h ∉ done) as Hnew.
  { unfold distinct_paths in Hdistinct. rewrite Ehs, <-app_assoc, fmap_app in Hdistinct. apply NoDup_app in Hdistinct as (_ & Hd & _).
    intros Hin. apply (Hd (sn_path h)); [by apply list_elem_of_fmap_2|by left]. }
  cbn [fmap list_fmap emit_all ok_or mbind res_bind head tail]. rewrite Eh. cbn [mbind res_bind zip zip_with archive_records].
  rewrite !bool_decide_eq_false_2 by (intros []; done). cbn [orb fail_if mbind res_bind].
  destruct (link_of h) eqn:El.
  - destruct (te_broken e); [done|]. cbn [fail_if mbind res_bind].
    apply (IH suf' (done ++ [h]) plan out); [|done|done]. destruct Hplan as [Ei En Ep Em]. split; [done..| |done].
    intros t. rewrite Ep. apply decide_ext. rewrite known_targets_app. unfold known_targets at 3. rewrite filter_cons, El. set_solver.
  - destruct (emit_file_reference done plan h e Hplan Hh El Hnew) as (plan1 & Hplan1 & E1); [rewrite Ehs; set_solver|].
    destruct (emit_entry plan h e) as [b| |]; cbn [mbind res_bind] in E1 |- *; [|destruct (file_records hs h e); done..].
    destruct (emit_deferred hs plan (sn_path h)) as [[links plan2]| |]; cbn [mbind res_bind] in E1 |- *; [|destruct (file_records hs h e); done..].
    destruct (file_records hs h e) as [o| |]; [|done..]. cbn in E1. injection E1 as -> <-. cbn [mbind res_bind].
    specialize (IH suf' (done ++ [h]) plan2 (out ++ o) Hplan1 Ehs eq_refl).
    destruct (archive_records hs (zip suf' es)) as [rest| |]; cbn [mbind res_bind]; [|done..].
    destruct IH as (plan' & Hp & ->). exists plan'. by rewrite <-app_assoc.
Qed.
End Emit.

(** ** Links without a file *)

Lemma plan_known_groups ts groups s t :
  t ∉ ts -> fst (foldl plan_known (groups, s) ts) !! t = groups !! t.
Proof.
  revert groups s. induction ts as [|x ts IH]; intros groups s Hn; [done|]. cbn [foldl plan_known].
  destruct (groups !! x) eqn:E; rewrite IH by set_solver; [|done]. apply lookup_delete_ne. set_solver.
Qed.

Lemma add_members_pending id n t ms plan : lp_pending (add_members id n t ms plan) = lp_pending plan.
Proof. by destruct (add_members_maps id n t ms plan) as (_ & _ & -> & _). Qed.

Lemma plan_missing_pending gs s t :
  is_Some (lp_pending (pl_plan s) !! t) \/ t ∈ gs.*1 -> is_Some (lp_pending (pl_plan (foldl plan_missing s gs)) !! t).
Proof.
  revert s. induction gs as [|[t' ms] gs IH]; intros s H; cbn [foldl]; [by destruct H as [H|H]; [|set_solver]|].
  apply IH. destruct (decide (t = t')) as [->|Hne].
  - left. unfold plan_missing. cbn. rewrite lookup_insert_eq. eauto.
  - destruct H as [H|H]; [left|right; set_solver]. unfold plan_missing. cbn. rewrite lookup_insert_ne by done.
    by rewrite add_members_pending.
Qed.

Lemma plan_single_pending hs s : lp_pending (pl_plan (foldl plan_single s hs)) = lp_pending (pl_plan s).
Proof. revert s. induction hs as [|h hs IH]; intros s; cbn [foldl]; [done|]. rewrite IH. unfold plan_single. by destruct (_ !! _). Qed.

Lemma unresolved_pending drain (drain_all : forall m, drain m ≡ₚ map_to_list m) hs t :
  file_links hs t <> [] -> t ∉ known_targets hs -> is_Some (lp_pending (plan_links drain hs) !! t).
Proof.
  intros Hl Hk. unfold plan_links. destruct (foldl plan_known _ _) as [groups s] eqn:E. rewrite plan_single_pending.
  apply plan_missing_pending. right. pose proof (plan_known_groups (known_targets hs) (foldl add_group ∅ hs) empty_plan t Hk) as Hg.
  rewrite E, groups_links in Hg. cbn in Hg. destruct (file_links hs t) as [|p ls] eqn:El; [done|].
  apply list_elem_of_fmap. exists (t, p :: ls). split; [done|]. rewrite drain_all. by apply elem_of_map_to_list.
Qed.

Lemma emit_all_pending hs rem es plan out out' plan' t :
  emit_all hs rem es plan out = Ok (out', plan') -> rem ⊆ hs -> t ∉ known_targets hs ->
  is_Some (lp_pending plan !! t) -> is_Some (lp_pending plan' !! t).
Proof.
  revert rem plan out. induction es as [|e es IH]; intros rem plan out H Hsub Ht Hp.
  { cbn in H. destruct rem; [|done]. by injection H as <- <-. }
  cbn [emit_all] in H. apply bind_ok_iff in H as (x & _ & (live & _ & (planned & Hpl & ([] & Heq & H)%bind_ok_iff)%bind_ok_iff)%bind_ok_iff).
  destruct rem as [|h rem]; [done|]. cbn in Hpl. injection Hpl as <-.
  apply fail_if_ok, orb_false_iff in Heq as [Hpath%bool_decide_eq_false Htype%bool_decide_eq_false].
  apply dec_stable in Hpath, Htype. cbn [tail] in H.
  destruct (link_of live) eqn:El; [apply bind_ok_iff in H as ([] & _ & H); eapply IH; [exact H|set_solver|done|done]|].
  apply bind_ok_iff in H as (b & _ & ([links plan1] & Hd & H)%bind_ok_iff). eapply IH; [exact H|set_solver|done|].
  assert (t <> sn_path live) as Hne.
  { intros ->. apply Ht, elem_of_known_targets. exists h. unfold link_of in *. rewrite Htype. split_and!; [set_solver|done|by rewrite Hpath]. }
  unfold emit_deferred in Hd. destruct (lp_pending plan !! sn_path live).
  - apply bind_ok_iff in Hd as (o & _ & [= _ <-]). cbn. by rewrite lookup_delete_ne.
  - by injection Hd as _ <-.
Qed.

(** C24: Conversion of a TAR layer preserves its files and their hard links.
    For an archive with distinct names, whatever order files and links come in:
    if every hard link names a file, the result is, file by file in archive
    order, the file's record with its body followed by one record per hard
    link, all of a group under one inode and counting all its names, and no two
    files share an inode; if some link names no file, there is no result. *)
Theorem tar_conversion_exact (drain : gmap bytes (list bytes) -> list (bytes * list bytes)) (entries : list TarEntry) hs :
  (forall m, drain m ≡ₚ map_to_list m) ->
  snapshot_all (Some <$> entries) = Ok hs -> distinct_paths hs -> len hs < 2 ^ 32 - 1 ->
  (resolved hs ->
     convert drain true (Some <$> entries) (Some <$> entries)
     = (files ← archive_records hs (zip hs entries); trailer ← write_trailer; Ok (files ++ trailer)))
  /\ (~ resolved hs -> forall second out, convert drain true (Some <$> entries) second <> Ok out)
  /\ (resolved hs -> forall t t', t ∈ known_targets hs -> t' ∈ known_targets hs -> inode hs t = inode hs t' -> t = t').
Proof.
  intros Hdrain Hsnap Hd Hmany. split_and!.
  - intros Hr. unfold convert. cbn [negb fail_if mbind res_bind]. rewrite Hsnap. cbn [mbind res_bind].
    assert (plan_after drain hs [] (plan_links drain hs)) as Hplan by (split; [done..| |by apply plan_missing_nil]; done).
    pose proof (emit_all_reference drain Hdrain hs Hd Hmany Hr hs entries [] _ [] Hplan eq_refl Hsnap) as H.
    destruct (archive_records hs (zip hs entries)) as [b| |]; [|by rewrite H..].
    destruct H as (plan' & [_ _ Hp Hm] & ->). cbn [mbind res_bind app]. rewrite Hm.
    assert (lp_pending plan' = ∅) as ->; [|by rewrite bool_decide_eq_false_2 by naive_solver].
    apply map_empty. intros t. rewrite Hp. case_decide as Ht; [done|].
    rewrite (plan_pending hs Hd Hmany drain Hdrain Hr), decide_False by naive_solver. done.
  - intros Hr second out H. unfold convert in H. cbn [negb fail_if mbind res_bind] in H. rewrite Hsnap in H. cbn [mbind res_bind] in H.
    apply bind_ok_iff in H as ([o plan] & He & ([] & Hf & _)%bind_ok_iff). apply fail_if_ok, orb_false_iff in Hf as [Hf%bool_decide_eq_false _].
    unfold resolved in Hr. apply not_Forall_Exists, Exists_exists in Hr as (h & Hh & Hbad); [|intros x; apply _].
    assert (link_of h = true /\ default [] (sn_link_name h) ∉ known_targets hs) as [Hl Hk].
    { cbn in Hbad. destruct (link_of h); [|by exfalso; apply Hbad]. split; [done|]. intros Hk. by apply Hbad. }
    destruct (emit_all_pending hs hs second _ _ _ _ (default [] (sn_link_name h)) He) as [ls Hls]; [done|done| |].
    + apply unresolved_pending; [done| |done]. intros E.
      assert (sn_path h ∈ file_links hs (default [] (sn_link_name h))) as Hin by (apply elem_of_file_links; eauto). rewrite E in Hin. set_solver.
    + apply Hf. intros E. by rewrite E in Hls.
  - intros Hr t t' Ht Ht' E. destruct (plan_links_planned hs Hd Hmany drain Hdrain Hr) as (s & _ & Hs).
    apply leaders_all, list_elem_of_lookup in Ht as [i Hi], Ht' as [j Hj].
    rewrite (inode_lookup hs i t), (inode_lookup hs j t') in E by (done || apply Hs). assert (i = j) as -> by lia. congruence.
Qed.

(** ** Concrete archives *)

Module TarExample.
Definition entry (path : bytes) (t : EntryType) (link : option bytes) (body : bytes) : TarEntry := {|
  te_path := path; te_link := link; te_type := t; te_mode := Some 420; te_uid := Some 0; te_gid := Some 0;
  te_mtime := Some 0; te_size := len body; te_dev_major := None; te_dev_minor := None; te_body := body; te_broken := false |}.

(** A link ahead of its file, and one behind it. *)
Definition linked : list TarEntry := [
  entry (str "b") Tar_Link (Some (str "a")) [];
  entry (str "x") Tar_Regular None (str "X");
  entry (str "./a") Tar_Regular None (str "AAAA");
  entry (str "c") Tar_Link (Some (str "./a")) []].
Definition headers_of (l : list TarEntry) : list TarHeaderSnapshot :=
  match snapshot_all (Some <$> l) with Ok hs => hs | _ => [] end.
Definition record_of (name : bytes) (size ino nlink : Z) (body : bytes) : bytes :=
  encode_header {| rec_name := name; rec_mode := 33188; rec_uid := 0; rec_gid := 0; rec_mtime := 0; rec_nlink := nlink;
      rec_dev_major := ino; rec_dev_minor := 0; rec_ino := ino; rec_rdev_major := 0; rec_rdev_minor := 0; rec_body := Body_Empty |}
    size (len name + 1) ++ body ++ pad_bytes size.

Lemma tar_conversion_exact_witness :
  exists trailer, write_trailer = Ok trailer
  /\ convert map_to_list true (Some <$> linked) (Some <$> linked)
     = Ok ((record_of (str "x") 1 2 1 (str "X") ++ record_of (str "a") 4 1 3 (str "AAAA")
            ++ record_of (str "b") 0 1 3 [] ++ record_of (str "c") 0 1 3 []) ++ trailer).
Proof.
  destruct (tar_conversion_exact map_to_list linked (headers_of linked)) as (H & _ & _).
  - done.
  - vm_compute. reflexivity.
  - apply (bool_decide_unpack _). vm_compute. done.
  - vm_compute. done.
  - eexists. split; [reflexivity|]. rewrite H; [vm_compute; reflexivity|]. apply (bool_decide_unpack _). vm_compute. done.
Defined.

(** A hard link to a hard link is refused although its target is present. *)
Definition chained : list TarEntry := [
  entry (str "a") Tar_Regular None []; entry (str "b") Tar_Link (Some (str "a")) []; entry (str "c") Tar_Link (Some (str "b")) []].
Example chained_link_refused : convert map_to_list true (Some <$> chained) (Some <$> chained) = Err Op_InvalidTar.
Proof. vm_compute. reflexivity. Qed.

(** A hard link to a symbolic link becomes an empty regular file. *)
Definition to_symlink : list TarEntry := [
  entry (str "s") Tar_Symlink (Some (str "x")) []; entry (str "l") Tar_Link (Some (str "s")) []].
Example link_to_symlink_is_regular :
  exists files, convert map_to_list true (Some <$> to_symlink) (Some <$> to_symlink) = Ok files
    /\ exists before after, files = before ++ record_of (str "l") 0 1 2 [] ++ after.
Proof.
  eexists. split; [vm_compute; reflexivity|].
  exists (match convert map_to_list true (Some <$> to_symlink) (Some <$> to_symlink) with Ok f => take 116 f | _ => [] end),
    (match write_trailer with Ok t => t | _ => [] end). vm_compute. reflexivity.
Qed.

(** A link whose name an earlier file has is written out as that file once more. *)
Definition repeated : list TarEntry := [
  entry (str "a") Tar_Regular None []; entry (str "l") Tar_Directory None []; entry (str "l") Tar_Link (Some (str "a")) []].
Example repeated_name_takes_first_header :
  convert map_to_list true (Some <$> repeated) (Some <$> repeated)
  <> (files ← archive_records (headers_of repeated) (zip (headers_of repeated) repeated); trailer ← write_trailer; Ok (files ++ trailer)).
Proof. vm_compute. discriminate. Qed.
End TarExample.
