(* ===== verification/IndexCodec.v ===== *)
(** * The persisted values of the storage index

    [libs/image-core/src/storage/index/serde.rs]: the byte layouts of the
    keys and values kept in the index database, with the domain types of
    [storage/], [artifact/] and [digest.rs].  Decoders are infallible in the
    source's types and assert instead: a malformed value is a [Panic].

    A [Uuid], a BLAKE3 [Hash] and a digest array are their bytes; [typed]
    predicates state the array lengths and integer ranges that the Rust types
    carry.  Platform-dependent path bytes are the class [Platform], with one
    instance per [cfg] branch. *)

From Stdlib Require Import ZArith Lia.
From stdpp Require Import base tactics option list numbers strings countable.
From S2P Require Import Prelude Bytes Wire.

(** ** Domain types *)

Inductive IndexError : Type :=
  | Open | SchemaMismatch | Transaction | IdentityMismatch | NamespaceMismatch
  | EntryNotFound (uuid : bytes) | ArtifactMissing (path : bytes)
  | BlueprintTargetMismatch | BlueprintConflict | MissingPrevious | FileRefIdentityConflict.

Inductive Namespace : Type := NS_Kernel | NS_Rootfs | NS_Layers | NS_Modules.
Definition Namespace_to_bytes (n : Namespace) : Z :=
  match n with NS_Kernel => 1 | NS_Rootfs => 2 | NS_Layers => 3 | NS_Modules => 4 end.
Definition Namespace_from_bytes (value : Z) : option Namespace :=
  match value with
  | 1 => Some NS_Kernel | 2 => Some NS_Rootfs | 3 => Some NS_Layers | 4 => Some NS_Modules
  | _ => None
  end.

Inductive ArtifactType : Type := Compressed | ContainerTar | ContainerCpio | FileBzImage.
Definition ArtifactType_to_bytes (t : ArtifactType) : Z :=
  match t with Compressed => 1 | ContainerTar => 2 | ContainerCpio => 3 | FileBzImage => 4 end.
Definition ArtifactType_from_bytes (value : Z) : option ArtifactType :=
  match value with
  | 1 => Some Compressed | 2 => Some ContainerTar | 3 => Some ContainerCpio
  | 4 => Some FileBzImage | _ => None
  end.

Inductive ArtifactCompression : Type := AC_None | Gzip | Zstd.
Definition ArtifactCompression_to_bytes (c : ArtifactCompression) : Z :=
  match c with AC_None => 1 | Gzip => 2 | Zstd => 3 end.
Definition ArtifactCompression_from_bytes (value : Z) : option ArtifactCompression :=
  match value with 1 => Some AC_None | 2 => Some Gzip | 3 => Some Zstd | _ => None end.

Record ArtifactId : Type := { ai_namespace : Namespace; ai_uuid : bytes }.
Record LinkDigest : Type := { link_hash : bytes; ld_file_size : Z }.
Record FileDigest : Type := { file_hash : bytes; fd_file_size : Z }.
Record NamespacedLinkDigest : Type := { nl_namespace : Namespace; nl_link_digest : LinkDigest }.
Record NamespacedFileDigest : Type := { nf_namespace : Namespace; nf_file_digest : FileDigest }.
Record FileRef : Type := {
  fr_uuid : bytes; fr_namespace : Namespace; fr_file_digest : FileDigest;
  artifact_type : ArtifactType; artifact_compression : ArtifactCompression }.
Record LinkRef : Type := {
  lr_uuid : bytes; lr_namespace : Namespace; lr_link_digest : LinkDigest }.

Inductive ExpectedDigest : Type := ED_Blake3 (b : bytes) | ED_Sha256 (b : bytes) | ED_Sha512 (b : bytes).
Definition discriminant (d : ExpectedDigest) : Z :=
  match d with ED_Blake3 _ => 1 | ED_Sha256 _ => 2 | ED_Sha512 _ => 3 end.
Definition digest_bytes (d : ExpectedDigest) : bytes :=
  match d with ED_Blake3 b | ED_Sha256 b | ED_Sha512 b => b end.
Definition from_parts (discriminant : Z) (b : bytes) : option ExpectedDigest :=
  if (discriminant =? 1) && (len b =? 32) then Some (ED_Blake3 b)
  else if (discriminant =? 2) && (len b =? 32) then Some (ED_Sha256 b)
  else if (discriminant =? 3) && (len b =? 64) then Some (ED_Sha512 b)
  else None.

(** The two [cfg] branches of [encode_path] and [decode_path]. *)
Class Platform := {
  PathBuf : Type;
  path_eq_dec :: EqDecision PathBuf;
  path_typed : PathBuf -> Prop;
  encode_path : PathBuf -> bytes;
  decode_path : bytes -> res IndexError PathBuf;
}.
Class PlatformLaws `{!Platform} : Prop :=
  path_exact b p : decode_path b = Ok p <-> path_typed p /\ encode_path p = b.

(** [OsStr::as_bytes] and [OsString::from_vec]. *)
Definition unix : Platform := {|
  PathBuf := bytes; path_typed := fun _ => True;
  encode_path := fun p => p; decode_path := fun b => Ok b |}.

(** [chunks_exact(2)] mapped through [u16::from_le_bytes]. *)
Fixpoint wide_units (b : bytes) : list Z :=
  match b with
  | lo :: hi :: b => le_val [lo; hi] :: wide_units b
  | _ => []
  end.
(** [OsStr::encode_wide] and [OsString::from_wide]: a path is its 16-bit units. *)
Definition not_unix : Platform := {|
  PathBuf := list Z; path_typed := Forall is_u16;
  encode_path := fun p => concat (map (le_bytes 2) p);
  decode_path := fun b => _ ← assert_that (len b mod 2 =? 0); Ok (wide_units b) |}.

(** ** Array helpers: [dst[lo..hi].copy_from_slice(src)], [dst[i] = x],
    [b[lo..hi]], [b[i]] *)

Definition copy_from_slice (dst : bytes) (lo hi : Z) (src : bytes) : res IndexError bytes :=
  _ ← assert_that ((lo <=? hi) && (hi <=? len dst) && (len src =? hi - lo));
  Ok (take (Z.to_nat lo) dst ++ src ++ drop (Z.to_nat hi) dst).
Definition set_byte (dst : bytes) (i : Z) (x : Z) : res IndexError bytes :=
  copy_from_slice dst i (i + 1) [z2b x].
Definition slice (b : bytes) (lo hi : Z) : res IndexError bytes := expect (get_range b lo hi).
Definition byte_at (b : bytes) (i : Z) : res IndexError Z := b2z <$> expect (b !! Z.to_nat i).
Definition zeroed (n : nat) : bytes := replicate n Byte.x00.

(** ** Fixed-width values *)

Definition FileRef_encode (v : FileRef) : res IndexError bytes :=
  b ← copy_from_slice (zeroed 67) 0 16 (fr_uuid v);
  b ← set_byte b 16 (Namespace_to_bytes (fr_namespace v));
  b ← copy_from_slice b 17 49 (file_hash (fr_file_digest v));
  b ← copy_from_slice b 49 65 (be_bytes 16 (fd_file_size (fr_file_digest v)));
  b ← set_byte b 65 (ArtifactType_to_bytes (artifact_type v));
  set_byte b 66 (ArtifactCompression_to_bytes (artifact_compression v)).

Definition FileRef_decode (b : bytes) : res IndexError FileRef :=
  _ ← assert_that (len b =? 67);
  uuid ← slice b 0 16;
  n ← byte_at b 16;
  namespace ← expect (Namespace_from_bytes n);
  hash ← slice b 17 49;
  size ← slice b 49 65;
  t ← byte_at b 65;
  ty ← expect (ArtifactType_from_bytes t);
  c ← byte_at b 66;
  compression ← expect (ArtifactCompression_from_bytes c);
  Ok {| fr_uuid := uuid; fr_namespace := namespace;
        fr_file_digest := {| file_hash := hash; fd_file_size := be_val size |};
        artifact_type := ty; artifact_compression := compression |}.

Definition LinkRef_encode (v : LinkRef) : res IndexError bytes :=
  b ← copy_from_slice (zeroed 65) 0 16 (lr_uuid v);
  b ← set_byte b 16 (Namespace_to_bytes (lr_namespace v));
  b ← copy_from_slice b 17 49 (link_hash (lr_link_digest v));
  copy_from_slice b 49 65 (be_bytes 16 (ld_file_size (lr_link_digest v))).

Definition LinkRef_decode (b : bytes) : res IndexError LinkRef :=
  _ ← assert_that (len b =? 65);
  uuid ← slice b 0 16;
  n ← byte_at b 16;
  namespace ← expect (Namespace_from_bytes n);
  hash ← slice b 17 49;
  size ← slice b 49 65;
  Ok {| lr_uuid := uuid; lr_namespace := namespace;
        lr_link_digest := {| link_hash := hash; ld_file_size := be_val size |} |}.

Definition LinkDigest_encode (v : LinkDigest) : res IndexError bytes :=
  b ← copy_from_slice (zeroed 48) 0 32 (link_hash v);
  copy_from_slice b 32 48 (be_bytes 16 (ld_file_size v)).

Definition LinkDigest_decode (b : bytes) : res IndexError LinkDigest :=
  _ ← assert_that (len b =? 48);
  hash ← slice b 0 32;
  size ← slice b 32 48;
  Ok {| link_hash := hash; ld_file_size := be_val size |}.

Definition NamespacedLinkDigest_encode (v : NamespacedLinkDigest) : res IndexError bytes :=
  b ← set_byte (zeroed 49) 0 (Namespace_to_bytes (nl_namespace v));
  b ← copy_from_slice b 1 33 (link_hash (nl_link_digest v));
  copy_from_slice b 33 49 (be_bytes 16 (ld_file_size (nl_link_digest v))).

Definition NamespacedLinkDigest_decode (b : bytes) : res IndexError NamespacedLinkDigest :=
  _ ← assert_that (len b =? 49);
  n ← byte_at b 0;
  namespace ← expect (Namespace_from_bytes n);
  hash ← slice b 1 33;
  size ← slice b 33 49;
  Ok {| nl_namespace := namespace;
        nl_link_digest := {| link_hash := hash; ld_file_size := be_val size |} |}.

Definition ArtifactId_encode (v : ArtifactId) : res IndexError bytes :=
  b ← set_byte (zeroed 17) 0 (Namespace_to_bytes (ai_namespace v));
  copy_from_slice b 1 17 (ai_uuid v).

Definition ArtifactId_decode (b : bytes) : res IndexError ArtifactId :=
  _ ← assert_that (len b =? 17);
  n ← byte_at b 0;
  namespace ← expect (Namespace_from_bytes n);
  uuid ← slice b 1 17;
  Ok {| ai_namespace := namespace; ai_uuid := uuid |}.

Definition NamespacedFileDigest_encode (v : NamespacedFileDigest) : res IndexError bytes :=
  b ← set_byte (zeroed 49) 0 (Namespace_to_bytes (nf_namespace v));
  b ← copy_from_slice b 1 33 (file_hash (nf_file_digest v));
  copy_from_slice b 33 49 (be_bytes 16 (fd_file_size (nf_file_digest v))).

Definition NamespacedFileDigest_decode (b : bytes) : res IndexError NamespacedFileDigest :=
  _ ← assert_that (len b =? 49);
  n ← byte_at b 0;
  namespace ← expect (Namespace_from_bytes n);
  hash ← slice b 1 33;
  size ← slice b 33 49;
  Ok {| nf_namespace := namespace;
        nf_file_digest := {| file_hash := hash; fd_file_size := be_val size |} |}.

(** ** The decoding cursor *)

Record Cursor : Type := { cur_bytes : bytes; cur_pos : Z }.
Definition Cursor_new (b : bytes) : Cursor := {| cur_bytes := b; cur_pos := 0 |}.
Definition cur (A : Type) : Type := Cursor -> res IndexError (A * Cursor).
#[global] Instance cur_ret : MRet cur := fun A a c => Ok (a, c).
#[global] Instance cur_bind : MBind cur := fun A B k m c =>
  match m c with
  | Ok (a, c) => k a c
  | Err e => Err e
  | Panic => Panic
  end.
Definition pure {A} (m : res IndexError A) : cur A := fun c => (fun a => (a, c)) <$> m.

Definition take_byte : cur Z := fun c =>
  b ← expect (cur_bytes c !! Z.to_nat (cur_pos c));
  Ok (b2z b, {| cur_bytes := cur_bytes c; cur_pos := cur_pos c + 1 |}).
Definition take_bytes (n : Z) : cur bytes := fun c =>
  end_ ← expect (checked_add 64 (cur_pos c) n);
  s ← expect (get_range (cur_bytes c) (cur_pos c) end_);
  Ok (s, {| cur_bytes := cur_bytes c; cur_pos := end_ |}).
(** [take_array_4], [take_array_8], [take_array_16]. *)
Definition take_array (n : Z) : cur bytes :=
  s ← take_bytes n; pure (copy_from_slice (zeroed (Z.to_nat n)) 0 n s).
Definition assert_consumed : cur unit := fun c =>
  _ ← assert_that (cur_pos c =? len (cur_bytes c)); Ok (tt, c).
Fixpoint repeat_cur {A} (n : nat) (p : cur A) : cur (list A) :=
  match n with
  | O => mret []
  | S n => x ← p; xs ← repeat_cur n p; mret (x :: xs)
  end.

Definition BLUEPRINT_FORMAT_MARKER : Z := 2.
Definition LINK_LOCAL : Z := 1.
Definition LINK_BYTES : Z := 2.
Definition LINK_HTTP : Z := 3.
Definition MAX_LAYER_COUNT : Z := 100000.
Definition MAX_PAYLOAD_LEN : Z := U32_MAX.

Definition encode_expected_digest (buf : bytes) (d : ExpectedDigest) : res IndexError bytes :=
  l ← expect (try_from_u 32 (len (digest_bytes d)));
  Ok (buf ++ [z2b (discriminant d)] ++ be_bytes 4 l ++ digest_bytes d).

Definition decode_expected_digest : cur ExpectedDigest :=
  discriminant ← take_byte;
  l ← take_array 4;
  _ ← pure (assert_that ((be_val l =? 32) || (be_val l =? 64)));
  payload ← take_bytes (be_val l);
  pure (expect (from_parts discriminant payload)).

(** ** Blueprints *)

Section Blueprints.
Context `{P : Platform}.

Inductive ArtifactLink : Type :=
  | AL_Local (path : PathBuf) (size : Z)
  | AL_Bytes (payload : bytes) (size : Z)
  | AL_Http (url : bytes) (size : Z).

Record Layer : Type := {
  layer_uuid : bytes; layer_link : ArtifactLink;
  layer_expected_digest : ExpectedDigest; layer_link_digest : LinkDigest }.

Record Blueprint : Type := {
  target_entry_uuid : bytes; target_entry_namespace : Namespace;
  layers : list Layer; extract : option PathBuf }.

Definition link_variant (l : ArtifactLink) : Z :=
  match l with AL_Local _ _ => LINK_LOCAL | AL_Bytes _ _ => LINK_BYTES | AL_Http _ _ => LINK_HTTP end.
Definition link_payload (l : ArtifactLink) : bytes :=
  match l with AL_Local p _ => encode_path p | AL_Bytes b _ => b | AL_Http u _ => u end.
Definition link_size (l : ArtifactLink) : Z :=
  match l with AL_Local _ s | AL_Bytes _ s | AL_Http _ s => s end.

Definition encode_layer (buf : bytes) (l : Layer) : res IndexError bytes :=
  let buf := buf ++ layer_uuid l in
  let payload := link_payload (layer_link l) in
  let buf := buf ++ [z2b (link_variant (layer_link l))] in
  payload_len ← expect (try_from_u 64 (len payload));
  _ ← assert_that (len payload <=? MAX_PAYLOAD_LEN);
  let buf := buf ++ be_bytes 8 payload_len ++ payload in
  let buf := buf ++ be_bytes 16 (link_size (layer_link l)) in
  buf ← encode_expected_digest buf (layer_expected_digest l);
  digest ← LinkDigest_encode (layer_link_digest l);
  Ok (buf ++ digest).

Definition decode_link (variant : Z) (payload : bytes) (size : Z) : res IndexError ArtifactLink :=
  if variant =? LINK_LOCAL then path ← decode_path payload; Ok (AL_Local path size)
  else if variant =? LINK_BYTES then Ok (AL_Bytes payload size)
  else if variant =? LINK_HTTP then url ← expect (from_utf8 payload); Ok (AL_Http url size)
  else Panic.

Definition decode_layer : cur Layer :=
  uuid ← take_array 16;
  variant ← take_byte;
  payload_len ← take_array 8;
  _ ← pure (assert_that (be_val payload_len <=? MAX_PAYLOAD_LEN));
  payload ← take_bytes (be_val payload_len);
  size ← take_array 16;
  link ← pure (decode_link variant payload (be_val size));
  expected ← decode_expected_digest;
  digest ← take_bytes 48;
  link_digest ← pure (LinkDigest_decode digest);
  mret {| layer_uuid := uuid; layer_link := link;
          layer_expected_digest := expected; layer_link_digest := link_digest |}.

Definition encode_extract (buf : bytes) (e : option PathBuf) : res IndexError bytes :=
  match e with
  | None => Ok (buf ++ [z2b 0])
  | Some path =>
      let path_bytes := encode_path path in
      l ← expect (try_from_u 64 (len path_bytes));
      Ok (buf ++ [z2b 1] ++ be_bytes 8 l ++ path_bytes)
  end.

Definition decode_extract : cur (option PathBuf) :=
  tag ← take_byte;
  if tag =? 0 then mret None
  else if tag =? 1 then
    l ← take_array 8;
    _ ← pure (assert_that (be_val l <=? MAX_PAYLOAD_LEN));
    path_bytes ← take_bytes (be_val l);
    path ← pure (decode_path path_bytes);
    mret (Some path)
  else pure Panic.

Definition Blueprint_encode (v : Blueprint) : res IndexError bytes :=
  layer_count ← expect (try_from_u 32 (len (layers v)));
  _ ← assert_that (layer_count <=? MAX_LAYER_COUNT);
  let buf := [z2b BLUEPRINT_FORMAT_MARKER] ++ target_entry_uuid v
             ++ [z2b (Namespace_to_bytes (target_entry_namespace v))] ++ be_bytes 4 layer_count in
  buf ← for_each encode_layer (layers v) buf;
  encode_extract buf (extract v).

Definition decode_blueprint : cur Blueprint :=
  marker ← take_byte;
  _ ← pure (assert_that (marker =? BLUEPRINT_FORMAT_MARKER));
  uuid ← take_array 16;
  n ← take_byte;
  namespace ← pure (expect (Namespace_from_bytes n));
  count ← take_array 4;
  _ ← pure (assert_that (be_val count <=? MAX_LAYER_COUNT));
  ls ← repeat_cur (Z.to_nat (be_val count)) decode_layer;
  ex ← decode_extract;
  _ ← assert_consumed;
  mret {| target_entry_uuid := uuid; target_entry_namespace := namespace;
          layers := ls; extract := ex |}.
Definition Blueprint_decode (b : bytes) : res IndexError Blueprint :=
  fst <$> decode_blueprint (Cursor_new b).
End Blueprints.

(** ** What the Rust types guarantee *)

Definition typed_uuid (u : bytes) : Prop := len u = 16.
Definition typed_hash (h : bytes) : Prop := len h = 32.
Definition typed_link_digest (d : LinkDigest) : Prop :=
  typed_hash (link_hash d) /\ is_u128 (ld_file_size d).
Definition typed_file_digest (d : FileDigest) : Prop :=
  typed_hash (file_hash d) /\ is_u128 (fd_file_size d).
Definition typed_expected (d : ExpectedDigest) : Prop :=
  match d with
  | ED_Blake3 b | ED_Sha256 b => len b = 32
  | ED_Sha512 b => len b = 64
  end.

(** ** A value kept in the database: [redb::Value] *)

Class RedbValue (V : Type) := {
  typed_value : V -> Prop;
  as_bytes : V -> res IndexError bytes;
  from_bytes : bytes -> res IndexError V;
}.
(** The decoder accepts exactly what the encoder produces. *)
Class RedbValueLaws (V : Type) `{!RedbValue V} : Prop :=
  value_exact b v : len b < 2 ^ 64 -> from_bytes b = Ok v <-> typed_value v /\ as_bytes v = Ok b.

#[global] Instance FileRef_value : RedbValue FileRef := {|
  typed_value := fun v => typed_uuid (fr_uuid v) /\ typed_file_digest (fr_file_digest v);
  as_bytes := FileRef_encode; from_bytes := FileRef_decode |}.
#[global] Instance LinkRef_value : RedbValue LinkRef := {|
  typed_value := fun v => typed_uuid (lr_uuid v) /\ typed_link_digest (lr_link_digest v);
  as_bytes := LinkRef_encode; from_bytes := LinkRef_decode |}.
#[global] Instance ArtifactId_value : RedbValue ArtifactId := {|
  typed_value := fun v => typed_uuid (ai_uuid v);
  as_bytes := ArtifactId_encode; from_bytes := ArtifactId_decode |}.
#[global] Instance NamespacedLinkDigest_value : RedbValue NamespacedLinkDigest := {|
  typed_value := fun v => typed_link_digest (nl_link_digest v);
  as_bytes := NamespacedLinkDigest_encode; from_bytes := NamespacedLinkDigest_decode |}.
#[global] Instance NamespacedFileDigest_value : RedbValue NamespacedFileDigest := {|
  typed_value := fun v => typed_file_digest (nf_file_digest v);
  as_bytes := NamespacedFileDigest_encode; from_bytes := NamespacedFileDigest_decode |}.

(** ** Lemmas on arrays *)

Lemma byte_index_snoc (l : bytes) (b : byte) r : (l ++ b :: r) !! length l = Some b.
Proof. by rewrite lookup_app_r, Nat.sub_diag by lia. Qed.

Lemma copy_next done k src lo hi :
  lo = len done -> hi = lo + len src -> (length src <= k)%nat ->
  copy_from_slice (done ++ zeroed k) lo hi src = Ok ((done ++ src) ++ zeroed (k - length src)).
Proof.
  intros -> -> Hk. unfold copy_from_slice, zeroed, len. rewrite length_app, length_replicate.
  rewrite (proj2 (Z.leb_le _ _)), (proj2 (Z.leb_le _ _)) by lia.
  rewrite (proj2 (Z.eqb_eq _ _)) by lia. cbn. f_equal.
  rewrite Nat2Z.id, take_app_length, <-app_assoc. f_equal. f_equal.
  rewrite <-Nat2Z.inj_add, Nat2Z.id, drop_app_add. apply drop_replicate.
Qed.

Lemma set_next done k i x :
  i = len done -> (1 <= k)%nat ->
  set_byte (done ++ zeroed k) i x = Ok ((done ++ [z2b x]) ++ zeroed (k - 1)).
Proof. intros Hi Hk. unfold set_byte. by rewrite copy_next. Qed.

Lemma slice_here x y hi : hi = len x -> slice (x ++ y) 0 hi = Ok x.
Proof.
  intros ->. unfold slice, get_range. pose proof (len_nonneg x). pose proof (len_nonneg y).
  rewrite len_app, (proj2 (Z.leb_le _ _)), (proj2 (Z.leb_le _ _)) by lia. cbn.
  rewrite Z.sub_0_r, drop_0. unfold len. by rewrite Nat2Z.id, take_app_length.
Qed.

Lemma slice_skip x y n lo hi :
  len x = n -> n <= lo <= hi -> slice (x ++ y) lo hi = slice y (lo - n) (hi - n).
Proof.
  intros <- H. unfold slice, get_range. pose proof (len_nonneg x). rewrite len_app.
  rewrite (proj2 (Z.leb_le lo hi)), (proj2 (Z.leb_le (lo - _) _)) by lia. cbn.
  replace (hi - len x <=? len y) with (hi <=? len x + len y) by lia.
  destruct (hi <=? _); [|done]. cbn. replace (hi - len x - (lo - len x)) with (hi - lo) by lia.
  do 2 f_equal. unfold len in *. rewrite drop_app_ge by lia. f_equal. lia.
Qed.

Lemma byte_here b y : byte_at ([b] ++ y) 0 = Ok (b2z b).
Proof. reflexivity. Qed.

Lemma byte_skip x y n i : len x = n -> n <= i -> byte_at (x ++ y) i = byte_at y (i - n).
Proof.
  intros <- H. unfold byte_at. unfold len in *. rewrite lookup_app_r by lia.
  do 3 f_equal. lia.
Qed.

Lemma split_len (b : bytes) n m :
  0 <= n -> 0 <= m -> len b = n + m -> exists x y, b = x ++ y /\ len x = n /\ len y = m.
Proof.
  intros Hn Hm H. exists (take (Z.to_nat n) b), (drop (Z.to_nat n) b).
  rewrite take_drop. unfold len in *. rewrite length_take, length_drop. split_and!; [done|lia..].
Qed.

Lemma len_one (b : bytes) : len b = 1 -> exists x, b = [x].
Proof. destruct b as [|x [|y b]]; unfold len; cbn [length]; intros; [lia|eauto|lia]. Qed.

Lemma slice_all x hi : hi = len x -> slice x 0 hi = Ok x.
Proof. intros H. rewrite <-(app_nil_r x) at 1. by apply slice_here. Qed.

Lemma byte_all b : byte_at [b] 0 = Ok (b2z b).
Proof. reflexivity. Qed.

(** [array_eval] evaluates slices and indices of a concatenation whose
    parts have known lengths. *)
Ltac fold_sub :=
  repeat match goal with
    |- context [?a - ?b] =>
      lazymatch isZcst a with true => lazymatch isZcst b with true =>
        let c := eval vm_compute in (a - b) in change (a - b) with c end end end.
Ltac array_step :=
  match goal with
  | |- context [byte_at ([_] ++ _) 0] => rewrite byte_here
  | |- context [byte_at [_] 0] => rewrite byte_all
  | |- context [byte_at ([?x] ++ _) ?i] => rewrite (byte_skip [x] _ 1 i eq_refl) by lia
  | |- context [slice ([?x] ++ _) ?lo ?hi] => rewrite (slice_skip [x] _ 1 lo hi eq_refl) by lia
  | H : len ?x = ?n |- context [slice (?x ++ _) 0 ?n] => rewrite (slice_here x _ n (eq_sym H))
  | H : len ?x = ?n |- context [slice ?x 0 ?n] => rewrite (slice_all x n (eq_sym H))
  | H : len ?x = ?n |- context [slice (?x ++ _) ?lo ?hi] => rewrite (slice_skip x _ n lo hi H) by lia
  | H : len ?x = ?n |- context [byte_at (?x ++ _) ?i] => rewrite (byte_skip x _ n i H) by lia
  end; fold_sub.
Ltac array_eval := repeat (array_step; rewrite ?res_bind_ok).

Lemma assert_len_true {A} (b : bytes) n (k : unit -> res IndexError A) :
  len b = n -> (assert_that (len b =? n) ≫= k) = k tt.
Proof. intros ->. by rewrite Z.eqb_refl. Qed.

Lemma assert_ok_iff {A} c (k : unit -> res IndexError A) v :
  (assert_that c ≫= k) = Ok v <-> c = true /\ k tt = Ok v.
Proof. destruct c; cbn; naive_solver. Qed.

Lemma expect_ok_iff {A B} (o : option A) (k : A -> res IndexError B) v :
  (expect o ≫= k) = Ok v <-> exists a, o = Some a /\ k a = Ok v.
Proof. destruct o; cbn; naive_solver. Qed.

(** Discriminants. *)
Ltac discriminant_exact z H :=
  repeat (destruct z as [z|z|]; try discriminate H; try (injection H as <-; reflexivity)).

Lemma Namespace_exact z n : Namespace_from_bytes z = Some n <-> z = Namespace_to_bytes n.
Proof.
  split; [|intros ->; by destruct n]. intros H. destruct z as [|z|z]; try discriminate H.
  discriminant_exact z H.
Qed.
Lemma ArtifactType_exact z t : ArtifactType_from_bytes z = Some t <-> z = ArtifactType_to_bytes t.
Proof.
  split; [|intros ->; by destruct t]. intros H. destruct z as [|z|z]; try discriminate H.
  discriminant_exact z H.
Qed.
Lemma ArtifactCompression_exact z c :
  ArtifactCompression_from_bytes z = Some c <-> z = ArtifactCompression_to_bytes c.
Proof.
  split; [|intros ->; by destruct c]. intros H. destruct z as [|z|z]; try discriminate H.
  discriminant_exact z H.
Qed.

Lemma b2z_eq_z2b b z : b2z b = z -> b = z2b z.
Proof. intros <-. by rewrite z2b_b2z. Qed.
Lemma b2z_z2b_Namespace n : b2z (z2b (Namespace_to_bytes n)) = Namespace_to_bytes n.
Proof. by destruct n. Qed.
Lemma b2z_z2b_ArtifactType t : b2z (z2b (ArtifactType_to_bytes t)) = ArtifactType_to_bytes t.
Proof. by destruct t. Qed.
Lemma b2z_z2b_ArtifactCompression c :
  b2z (z2b (ArtifactCompression_to_bytes c)) = ArtifactCompression_to_bytes c.
Proof. by destruct c. Qed.
Lemma Namespace_byte n : Namespace_from_bytes (b2z (z2b (Namespace_to_bytes n))) = Some n.
Proof. by destruct n. Qed.
Lemma ArtifactType_byte t : ArtifactType_from_bytes (b2z (z2b (ArtifactType_to_bytes t))) = Some t.
Proof. by destruct t. Qed.
Lemma ArtifactCompression_byte c :
  ArtifactCompression_from_bytes (b2z (z2b (ArtifactCompression_to_bytes c))) = Some c.
Proof. by destruct c. Qed.

Lemma be16_len z : len (be_bytes 16 z) = 16.
Proof. apply len_be_bytes. Qed.
Lemma be16_typed s : len s = 16 -> is_u128 (be_val s).
Proof. intros H. apply (be_val_u 16). unfold len in H. lia. Qed.
Lemma be16_exact s : len s = 16 -> be_bytes 16 (be_val s) = s.
Proof. intros H. apply be_bytes_be_val_n. unfold len in H. lia. Qed.
Lemma be16_val z : is_u128 z -> be_val (be_bytes 16 z) = z.
Proof. apply (be_val_be_bytes_u 16). Qed.

(** ** Layouts of the fixed-width values *)

Definition digest_wire (hash : bytes) (size : Z) : bytes := hash ++ be_bytes 16 size.
Definition keyed_digest_wire (n : Namespace) (hash : bytes) (size : Z) : bytes :=
  [z2b (Namespace_to_bytes n)] ++ digest_wire hash size.
Definition NamespacedLinkDigest_wire (v : NamespacedLinkDigest) : bytes :=
  keyed_digest_wire (nl_namespace v) (link_hash (nl_link_digest v)) (ld_file_size (nl_link_digest v)).
Definition NamespacedFileDigest_wire (v : NamespacedFileDigest) : bytes :=
  keyed_digest_wire (nf_namespace v) (file_hash (nf_file_digest v)) (fd_file_size (nf_file_digest v)).
Definition FileRef_wire (v : FileRef) : bytes :=
  fr_uuid v ++ [z2b (Namespace_to_bytes (fr_namespace v))] ++ file_hash (fr_file_digest v)
  ++ be_bytes 16 (fd_file_size (fr_file_digest v))
  ++ [z2b (ArtifactType_to_bytes (artifact_type v))]
  ++ [z2b (ArtifactCompression_to_bytes (artifact_compression v))].
Definition LinkRef_wire (v : LinkRef) : bytes :=
  lr_uuid v ++ [z2b (Namespace_to_bytes (lr_namespace v))]
  ++ digest_wire (link_hash (lr_link_digest v)) (ld_file_size (lr_link_digest v)).
Definition ArtifactId_wire (v : ArtifactId) : bytes :=
  [z2b (Namespace_to_bytes (ai_namespace v))] ++ ai_uuid v.

(** [array_fill] evaluates writes into a zeroed array from left to right. *)
Ltac nat_len := unfold len in *; rewrite ?length_app, ?length_be_bytes; cbn [length]; lia.
Ltac array_fill_start n :=
  change (zeroed n) with ([] ++ zeroed n).
Ltac array_fill :=
  repeat (first [rewrite copy_next by nat_len | rewrite set_next by nat_len];
          rewrite ?res_bind_ok; cbn beta).
Ltac array_done :=
  match goal with |- context [zeroed ?k] =>
    replace (zeroed k) with (@nil byte)
      by (symmetry; apply nil_length_inv; unfold zeroed; rewrite length_replicate; nat_len)
  end; rewrite ?app_nil_l, ?app_nil_r, <-?app_assoc; reflexivity.

Lemma FileRef_encode_wire v : typed_value v -> as_bytes v = Ok (FileRef_wire v).
Proof.
  intros (Hu & Hh & _). unfold typed_uuid, typed_hash in *. cbn [as_bytes FileRef_value].
  unfold FileRef_encode. array_fill_start 67%nat. array_fill. array_done.
Qed.
Lemma LinkRef_encode_wire v : typed_value v -> as_bytes v = Ok (LinkRef_wire v).
Proof.
  intros (Hu & Hh & _). unfold typed_uuid, typed_hash in *. cbn [as_bytes LinkRef_value].
  unfold LinkRef_encode. array_fill_start 65%nat. array_fill. array_done.
Qed.
Lemma LinkDigest_encode_wire v :
  typed_link_digest v -> LinkDigest_encode v = Ok (digest_wire (link_hash v) (ld_file_size v)).
Proof.
  intros (Hh & _). unfold typed_hash in *.
  unfold LinkDigest_encode. array_fill_start 48%nat. array_fill. array_done.
Qed.
Lemma NamespacedLinkDigest_encode_wire v :
  typed_value v -> as_bytes v = Ok (NamespacedLinkDigest_wire v).
Proof.
  intros (Hh & _). unfold typed_hash in *. cbn [as_bytes NamespacedLinkDigest_value].
  unfold NamespacedLinkDigest_encode. array_fill_start 49%nat. array_fill. array_done.
Qed.
Lemma NamespacedFileDigest_encode_wire v :
  typed_value v -> as_bytes v = Ok (NamespacedFileDigest_wire v).
Proof.
  intros (Hh & _). unfold typed_hash in *. cbn [as_bytes NamespacedFileDigest_value].
  unfold NamespacedFileDigest_encode. array_fill_start 49%nat. array_fill. array_done.
Qed.
Lemma ArtifactId_encode_wire v : typed_value v -> as_bytes v = Ok (ArtifactId_wire v).
Proof.
  intros Hu. cbn in Hu. unfold typed_uuid in Hu. cbn [as_bytes ArtifactId_value].
  unfold ArtifactId_encode. array_fill_start 17%nat. array_fill. array_done.
Qed.

(** Reading the layouts back. *)
Ltac expect_case f :=
  destruct f; [|done]; cbn beta iota delta [expect]; rewrite !res_bind_ok.

Lemma FileRef_decode_parts u n h s t c :
  len u = 16 -> len h = 32 -> len s = 16 ->
  FileRef_decode (u ++ [n] ++ h ++ s ++ [t] ++ [c]) =
    namespace ← expect (Namespace_from_bytes (b2z n));
    ty ← expect (ArtifactType_from_bytes (b2z t));
    compression ← expect (ArtifactCompression_from_bytes (b2z c));
    Ok {| fr_uuid := u; fr_namespace := namespace;
          fr_file_digest := {| file_hash := h; fd_file_size := be_val s |};
          artifact_type := ty; artifact_compression := compression |}.
Proof.
  intros Hu Hh Hs. unfold FileRef_decode.
  rewrite assert_len_true by (rewrite !len_app, Hu, Hh, Hs; reflexivity).
  array_eval. expect_case (Namespace_from_bytes (b2z n)).
  array_eval. expect_case (ArtifactType_from_bytes (b2z t)).
  array_eval. done.
Qed.
Lemma LinkRef_decode_parts u n h s :
  len u = 16 -> len h = 32 -> len s = 16 ->
  LinkRef_decode (u ++ [n] ++ h ++ s) =
    namespace ← expect (Namespace_from_bytes (b2z n));
    Ok {| lr_uuid := u; lr_namespace := namespace;
          lr_link_digest := {| link_hash := h; ld_file_size := be_val s |} |}.
Proof.
  intros Hu Hh Hs. unfold LinkRef_decode.
  rewrite assert_len_true by (rewrite !len_app, Hu, Hh, Hs; reflexivity).
  array_eval. expect_case (Namespace_from_bytes (b2z n)). array_eval. done.
Qed.
Lemma LinkDigest_decode_parts h s :
  len h = 32 -> len s = 16 ->
  LinkDigest_decode (h ++ s) = Ok {| link_hash := h; ld_file_size := be_val s |}.
Proof.
  intros Hh Hs. unfold LinkDigest_decode.
  rewrite assert_len_true by (rewrite !len_app, Hh, Hs; reflexivity). array_eval. done.
Qed.
Lemma NamespacedLinkDigest_decode_parts n h s :
  len h = 32 -> len s = 16 ->
  NamespacedLinkDigest_decode ([n] ++ h ++ s) =
    namespace ← expect (Namespace_from_bytes (b2z n));
    Ok {| nl_namespace := namespace;
          nl_link_digest := {| link_hash := h; ld_file_size := be_val s |} |}.
Proof.
  intros Hh Hs. unfold NamespacedLinkDigest_decode.
  rewrite assert_len_true by (rewrite !len_app, Hh, Hs; reflexivity).
  array_eval. expect_case (Namespace_from_bytes (b2z n)). array_eval. done.
Qed.
Lemma NamespacedFileDigest_decode_parts n h s :
  len h = 32 -> len s = 16 ->
  NamespacedFileDigest_decode ([n] ++ h ++ s) =
    namespace ← expect (Namespace_from_bytes (b2z n));
    Ok {| nf_namespace := namespace;
          nf_file_digest := {| file_hash := h; fd_file_size := be_val s |} |}.
Proof.
  intros Hh Hs. unfold NamespacedFileDigest_decode.
  rewrite assert_len_true by (rewrite !len_app, Hh, Hs; reflexivity).
  array_eval. expect_case (Namespace_from_bytes (b2z n)). array_eval. done.
Qed.
Lemma ArtifactId_decode_parts n u :
  len u = 16 ->
  ArtifactId_decode ([n] ++ u) =
    namespace ← expect (Namespace_from_bytes (b2z n));
    Ok {| ai_namespace := namespace; ai_uuid := u |}.
Proof.
  intros Hu. unfold ArtifactId_decode.
  rewrite assert_len_true by (rewrite !len_app, Hu; reflexivity).
  array_eval. expect_case (Namespace_from_bytes (b2z n)). array_eval. done.
Qed.

(** ** Exactness of the fixed-width values *)

Lemma split_byte (b : bytes) m :
  0 <= m -> len b = 1 + m -> exists x y, b = [x] ++ y /\ len y = m.
Proof.
  intros Hm H. apply split_len in H as (x & y & -> & Hx & Hy); [|lia..].
  apply len_one in Hx as [c ->]. eauto.
Qed.

(** A codec is exact when decoding inverts a layout on exactly the typed
    values. *)
Lemma exact_by_wire `{RedbValue V} (wire : V -> bytes) b v :
  (forall v, typed_value v -> as_bytes v = Ok (wire v)) ->
  (typed_value v -> from_bytes (wire v) = Ok v) ->
  (from_bytes b = Ok v -> typed_value v /\ wire v = b) ->
  from_bytes b = Ok v <-> typed_value v /\ as_bytes v = Ok b.
Proof.
  intros He Hd Hs. split.
  - intros [Ht <-]%Hs. auto.
  - intros [Ht Hb]. rewrite (He v Ht) in Hb. injection Hb as <-. auto.
Qed.

Ltac typed_parts := unfold typed_file_digest, typed_link_digest, typed_uuid, typed_hash in *.

#[global] Instance FileRef_laws : RedbValueLaws FileRef.
Proof.
  intros b v _. apply (exact_by_wire FileRef_wire); [apply FileRef_encode_wire|..];
    cbn [typed_value from_bytes FileRef_value]; typed_parts.
  - intros (Hu & Hh & Hs). unfold FileRef_wire.
    rewrite FileRef_decode_parts by (try apply be16_len; done).
    rewrite Namespace_byte, ArtifactType_byte, ArtifactCompression_byte, be16_val by done.
    by destruct v as [? ? [] ? ?].
  - intros H. pose proof H as [Hl%Z.eqb_eq _]%assert_ok_iff.
    apply (split_len _ 16 51) in Hl as (u & b1 & -> & Hu & Hl); [|lia..].
    apply (split_byte _ 50) in Hl as (n & b2 & -> & Hl); [|lia..].
    apply (split_len _ 32 18) in Hl as (h & b3 & -> & Hh & Hl); [|lia..].
    apply (split_len _ 16 2) in Hl as (s & b4 & -> & Hs & Hl); [|lia..].
    apply (split_byte _ 1) in Hl as (t & b5 & -> & [c ->]%len_one); [|lia..].
    rewrite FileRef_decode_parts in H by done.
    apply expect_ok_iff in H as (ns & Hn%Namespace_exact%b2z_eq_z2b & H).
    apply expect_ok_iff in H as (ty & Ht%ArtifactType_exact%b2z_eq_z2b & H).
    apply expect_ok_iff in H as (co & Hc%ArtifactCompression_exact%b2z_eq_z2b & H).
    injection H as <-. subst. split; [cbn; eauto using be16_typed|].
    unfold FileRef_wire. cbn -[be_bytes be_val]. by rewrite be16_exact.
Qed.

#[global] Instance LinkRef_laws : RedbValueLaws LinkRef.
Proof.
  intros b v _. apply (exact_by_wire LinkRef_wire); [apply LinkRef_encode_wire|..];
    cbn [typed_value from_bytes LinkRef_value]; typed_parts.
  - intros (Hu & Hh & Hs). unfold LinkRef_wire, digest_wire.
    rewrite LinkRef_decode_parts by (try apply be16_len; done).
    rewrite Namespace_byte, be16_val by done. by destruct v as [? ? []].
  - intros H. pose proof H as [Hl%Z.eqb_eq _]%assert_ok_iff.
    apply (split_len _ 16 49) in Hl as (u & b1 & -> & Hu & Hl); [|lia..].
    apply (split_byte _ 48) in Hl as (n & b2 & -> & Hl); [|lia..].
    apply (split_len _ 32 16) in Hl as (h & s & -> & Hh & Hs); [|lia..].
    rewrite LinkRef_decode_parts in H by done.
    apply expect_ok_iff in H as (ns & Hn%Namespace_exact%b2z_eq_z2b & H).
    injection H as <-. subst. split; [cbn; eauto using be16_typed|].
    unfold LinkRef_wire, digest_wire. cbn -[be_bytes be_val]. by rewrite be16_exact.
Qed.

Lemma LinkDigest_exact b v :
  LinkDigest_decode b = Ok v
  <-> typed_link_digest v /\ b = digest_wire (link_hash v) (ld_file_size v).
Proof.
  unfold digest_wire. typed_parts. split.
  - intros H. pose proof H as [Hl%Z.eqb_eq _]%assert_ok_iff.
    apply (split_len _ 32 16) in Hl as (h & s & -> & Hh & Hs); [|lia..].
    rewrite LinkDigest_decode_parts in H by done. injection H as <-. cbn -[be_bytes be_val].
    split; [eauto using be16_typed|]. by rewrite be16_exact.
  - intros [[Hh Hs] ->]. rewrite LinkDigest_decode_parts by (try apply be16_len; done).
    rewrite be16_val by done. by destruct v.
Qed.

#[global] Instance ArtifactId_laws : RedbValueLaws ArtifactId.
Proof.
  intros b v _. apply (exact_by_wire ArtifactId_wire); [apply ArtifactId_encode_wire|..];
    cbn [typed_value from_bytes ArtifactId_value]; typed_parts.
  - intros Hu. unfold ArtifactId_wire. rewrite ArtifactId_decode_parts by done.
    rewrite Namespace_byte. by destruct v.
  - intros H. pose proof H as [Hl%Z.eqb_eq _]%assert_ok_iff.
    apply (split_byte _ 16) in Hl as (n & u & -> & Hu); [|lia..].
    rewrite ArtifactId_decode_parts in H by done.
    apply expect_ok_iff in H as (ns & Hn%Namespace_exact%b2z_eq_z2b & H).
    injection H as <-. by subst.
Qed.

#[global] Instance NamespacedLinkDigest_laws : RedbValueLaws NamespacedLinkDigest.
Proof.
  intros b v _. apply (exact_by_wire NamespacedLinkDigest_wire); [apply NamespacedLinkDigest_encode_wire|..];
    cbn [typed_value from_bytes NamespacedLinkDigest_value]; typed_parts.
  - intros (Hh & Hs). unfold NamespacedLinkDigest_wire, keyed_digest_wire, digest_wire.
    rewrite NamespacedLinkDigest_decode_parts by (try apply be16_len; done).
    rewrite Namespace_byte, be16_val by done. by destruct v as [? []].
  - intros H. pose proof H as [Hl%Z.eqb_eq _]%assert_ok_iff.
    apply (split_byte _ 48) in Hl as (n & b2 & -> & Hl); [|lia..].
    apply (split_len _ 32 16) in Hl as (h & s & -> & Hh & Hs); [|lia..].
    rewrite NamespacedLinkDigest_decode_parts in H by done.
    apply expect_ok_iff in H as (ns & Hn%Namespace_exact%b2z_eq_z2b & H).
    injection H as <-. subst. split; [cbn; eauto using be16_typed|].
    unfold NamespacedLinkDigest_wire, keyed_digest_wire, digest_wire. cbn -[be_bytes be_val]. by rewrite be16_exact.
Qed.

#[global] Instance NamespacedFileDigest_laws : RedbValueLaws NamespacedFileDigest.
Proof.
  intros b v _. apply (exact_by_wire NamespacedFileDigest_wire); [apply NamespacedFileDigest_encode_wire|..];
    cbn [typed_value from_bytes NamespacedFileDigest_value]; typed_parts.
  - intros (Hh & Hs). unfold NamespacedFileDigest_wire, keyed_digest_wire, digest_wire.
    rewrite NamespacedFileDigest_decode_parts by (try apply be16_len; done).
    rewrite Namespace_byte, be16_val by done. by destruct v as [? []].
  - intros H. pose proof H as [Hl%Z.eqb_eq _]%assert_ok_iff.
    apply (split_byte _ 48) in Hl as (n & b2 & -> & Hl); [|lia..].
    apply (split_len _ 32 16) in Hl as (h & s & -> & Hh & Hs); [|lia..].
    rewrite NamespacedFileDigest_decode_parts in H by done.
    apply expect_ok_iff in H as (ns & Hn%Namespace_exact%b2z_eq_z2b & H).
    injection H as <-. subst. split; [cbn; eauto using be16_typed|].
    unfold NamespacedFileDigest_wire, keyed_digest_wire, digest_wire. cbn -[be_bytes be_val]. by rewrite be16_exact.
Qed.

(** ** What a cursor program consumes

    [reads p R]: from a cursor with [rest] left, [p] returns [v] exactly when
    [R rest v rest'] for the bytes [rest'] left afterwards. *)

Definition cursor_at (c : Cursor) (rest : bytes) : Prop :=
  0 <= cur_pos c <= len (cur_bytes c) /\ len (cur_bytes c) < 2 ^ 64
  /\ drop (Z.to_nat (cur_pos c)) (cur_bytes c) = rest.

Definition suffix_rel {A} (R : bytes -> A -> bytes -> Prop) : Prop :=
  forall rest v rest', R rest v rest' -> exists pre, rest = pre ++ rest'.
Definition reads {A} (p : cur A) (R : bytes -> A -> bytes -> Prop) : Prop :=
  suffix_rel R
  /\ forall c rest, cursor_at c rest -> forall v c',
     p c = Ok (v, c')
     <-> exists rest', R rest v rest' /\ cursor_at c' rest' /\ cur_bytes c' = cur_bytes c.

Lemma cursor_at_new b : len b < 2 ^ 64 -> cursor_at (Cursor_new b) b.
Proof. intros H. split_and!; cbn; try done. apply len_nonneg. Qed.

Lemma cursor_at_len c rest : cursor_at c rest -> len rest = len (cur_bytes c) - cur_pos c.
Proof. intros (Ho & _ & <-). unfold len in *. rewrite length_drop. lia. Qed.

Lemma cursor_at_inj c c' rest :
  cursor_at c rest -> cursor_at c' rest -> cur_bytes c' = cur_bytes c -> c' = c.
Proof.
  intros Hc Hc' Hb. pose proof (cursor_at_len _ _ Hc). pose proof (cursor_at_len _ _ Hc').
  rewrite Hb in *. destruct c as [b p], c' as [b' p']; cbn in *. subst. f_equal. lia.
Qed.

Lemma cursor_at_suffix c pre rest :
  cursor_at c (pre ++ rest) ->
  cursor_at {| cur_bytes := cur_bytes c; cur_pos := cur_pos c + len pre |} rest.
Proof.
  intros Hc. pose proof (cursor_at_len _ _ Hc) as Hl. rewrite len_app in Hl.
  pose proof (len_nonneg pre). pose proof (len_nonneg rest).
  destruct Hc as (Ho & Hw & Hd). split_and!; cbn; [lia..|].
  rewrite Z2Nat.inj_add, <-drop_drop, Hd by lia. unfold len. by rewrite Nat2Z.id, drop_app_length.
Qed.

Section Reads.
Context {A B : Type}.

Lemma reads_ret (v : A) : reads (mret v) (fun rest v' rest' => v' = v /\ rest' = rest).
Proof.
  split; [intros rest ? ? [_ ->]; by exists []|]. intros c rest Hc v' c'. cbn. split.
  - intros [= <- <-]. eauto.
  - intros (rest' & [-> ->] & Hc' & Hb). by rewrite (cursor_at_inj _ _ _ Hc Hc' Hb).
Qed.

Lemma reads_pure (m : res IndexError A) :
  reads (pure m) (fun rest v rest' => m = Ok v /\ rest' = rest).
Proof.
  split; [intros rest ? ? [_ ->]; by exists []|]. intros c rest Hc v' c'. unfold pure. split.
  - destruct m; cbn; [|done..]. intros [= <- <-]. eauto.
  - intros (rest' & [-> ->] & Hc' & Hb). cbn. by rewrite (cursor_at_inj _ _ _ Hc Hc' Hb).
Qed.

Lemma reads_bind (p : cur A) (k : A -> cur B) R S :
  reads p R -> (forall a, reads (k a) (S a)) ->
  reads (p ≫= k) (fun rest v rest' => exists a mid, R rest a mid /\ S a mid v rest').
Proof.
  intros [HR Hp] Hk. split.
  { intros rest v rest' (a & mid & H1 & H2). apply HR in H1 as [x ->].
    apply (Hk a) in H2 as [y ->]. exists (x ++ y). by rewrite app_assoc. }
  intros c rest Hc v c'. unfold mbind, cur_bind. split.
  - destruct (p c) as [[a c1]| |] eqn:Ha; [|done..]. intros H.
    apply Hp with (rest := rest) in Ha as (mid & H1 & Hm & Hb); [|exact Hc].
    apply (proj2 (Hk a) _ _ Hm) in H as (rest' & HS & Hr & Hb'). rewrite Hb in Hb'. eauto 10.
  - intros (rest' & (a & mid & H1 & HS) & Hr & Hb).
    destruct (HR _ _ _ H1) as [pre ->]. pose proof (cursor_at_suffix _ _ _ Hc) as Hm.
    rewrite (proj2 (Hp _ _ Hc a _)) by eauto.
    apply (proj2 (Hk a) _ _ Hm). eauto.
Qed.

Lemma reads_iff (p : cur A) R S :
  reads p R -> (forall rest v rest', R rest v rest' <-> S rest v rest') -> reads p S.
Proof.
  intros [HR Hp] H. split; [intros rest v rest' ?%H; eauto|].
  intros c rest Hc v c'. rewrite (Hp c rest Hc). by setoid_rewrite H.
Qed.
End Reads.

Lemma reads_byte : reads take_byte (fun rest v rest' => exists b, rest = b :: rest' /\ v = b2z b).
Proof.
  split; [intros rest v rest' (b & -> & _); by exists [b]|].
  intros c rest Hc v c'. unfold take_byte. pose proof (cursor_at_len _ _ Hc) as Hl.
  assert (cur_bytes c !! Z.to_nat (cur_pos c) = head rest) as ->.
  { destruct Hc as (_ & _ & <-). by rewrite head_lookup, lookup_drop, Nat.add_0_r. }
  destruct rest as [|b rest]; cbn.
  - split; [done|]. intros (rest' & (b & ? & _) & _). done.
  - pose proof (cursor_at_suffix c [b] rest Hc) as Hn. change (len [b]) with 1 in Hn. split.
    + intros [= <- <-]. eauto 10.
    + intros (rest' & (b' & [= <- <-] & ->) & Hr & Hb).
      by rewrite (cursor_at_inj _ _ _ Hn Hr Hb).
Qed.

Lemma reads_bytes n :
  0 <= n -> reads (take_bytes n) (fun rest v rest' => rest = v ++ rest' /\ len v = n).
Proof.
  intros Hn. split; [intros rest v rest' (-> & _); by exists v|].
  intros c rest Hc v c'. pose proof (cursor_at_len _ _ Hc) as Hl.
  unfold take_bytes. rewrite !expect_ok_iff. split.
  - intros (e & [-> He]%try_from_u_inv & H). apply expect_ok_iff in H as (s & Hs & [= <- <-]).
    unfold get_range in Hs. destruct (_ && _) eqn:Hg; [|done]. injection Hs as <-.
    apply andb_true_iff in Hg as [_ Hg%Z.leb_le]. pose proof Hc as (_ & _ & ->).
    replace (cur_pos c + n - cur_pos c) with n by lia.
    assert (len (take (Z.to_nat n) rest) = n) as Hv
      by (unfold len in *; rewrite length_take; lia).
    pose proof (cursor_at_suffix c (take (Z.to_nat n) rest) (drop (Z.to_nat n) rest)) as Hs.
    rewrite take_drop, Hv in Hs. exists (drop (Z.to_nat n) rest). rewrite take_drop. auto.
  - intros (rest' & [-> <-] & Hr & Hb). rewrite len_app in Hl.
    pose proof (len_nonneg rest'). pose proof Hc as (Ho & Hw & Hd).
    exists (cur_pos c + len v). split; [apply try_from_u_ok; unfold in_u; lia|].
    rewrite expect_ok_iff. exists v. split.
    + unfold get_range. rewrite (proj2 (Z.leb_le _ _)), (proj2 (Z.leb_le _ _)) by lia. cbn.
      replace (cur_pos c + len v - cur_pos c) with (len v) by lia. rewrite Hd.
      unfold len. by rewrite Nat2Z.id, take_app_length.
    + pose proof (cursor_at_suffix _ _ _ Hc) as Hn'.
      by rewrite (cursor_at_inj _ _ _ Hn' Hr Hb).
Qed.

Lemma fill_exact n a :
  len a = n -> copy_from_slice (zeroed (Z.to_nat n)) 0 n a = Ok a.
Proof.
  intros Ha. change (zeroed (Z.to_nat n)) with ([] ++ zeroed (Z.to_nat n)).
  rewrite copy_next by nat_len. array_done.
Qed.

Lemma reads_array n :
  0 <= n -> reads (take_array n) (fun rest v rest' => rest = v ++ rest' /\ len v = n).
Proof.
  intros Hn. unfold take_array. eapply reads_iff.
  { apply reads_bind; [by apply reads_bytes|]. intros a. apply reads_pure. }
  intros rest v rest'. cbn beta. split.
  - intros (a & mid & [-> Ha] & Hc & ->). rewrite fill_exact in Hc by done. by injection Hc as <-.
  - intros [-> Hv]. eauto 10 using fill_exact.
Qed.

Lemma reads_consumed : reads assert_consumed (fun rest _ rest' => rest = [] /\ rest' = []).
Proof.
  split; [intros rest v rest' [-> ->]; by exists []|].
  intros c rest Hc [] c'. unfold assert_consumed. pose proof (cursor_at_len _ _ Hc) as Hl.
  rewrite assert_ok_iff, Z.eqb_eq. split.
  - intros [Hp [= <-]]. assert (rest = []) as ->; [|eauto].
    apply nil_length_inv. unfold len in *. lia.
  - intros (rest' & [-> ->] & Hc' & Hb). rewrite len_nil in Hl. split; [lia|].
    by rewrite (cursor_at_inj _ _ _ Hc Hc' Hb).
Qed.

(** A self-delimiting item, and a counted sequence of them. *)
Definition item {A} (typed : A -> Prop) (wire : A -> bytes) (rest : bytes) (v : A) (rest' : bytes) : Prop :=
  typed v /\ rest = wire v ++ rest'.

Lemma reads_repeat {A} (p : cur A) typed wire n :
  reads p (item typed wire) ->
  reads (repeat_cur n p)
    (item (fun vs => length vs = n /\ Forall typed vs) (fun vs => concat (map wire vs))).
Proof.
  intros Hp. induction n as [|n IH]; cbn [repeat_cur].
  - eapply reads_iff; [apply reads_ret|]. intros rest v rest'. unfold item. split.
    + intros [-> ->]. auto.
    + intros [[H%nil_length_inv _] ->]. by subst.
  - eapply reads_iff.
    { apply reads_bind; [exact Hp|]. intros x. apply reads_bind; [exact IH|].
      intros xs. apply reads_ret. }
    intros rest v rest'. unfold item. cbn beta. split.
    + intros (x & m1 & [Hx ->] & xs & m2 & [[Hn Hxs] ->] & -> & ->). cbn.
      rewrite <-app_assoc. auto.
    + intros [[Hn Hv] ->]. destruct v as [|x v]; [done|]. apply Forall_cons_iff in Hv as [Hx Hv].
      injection Hn as Hn. cbn. rewrite <-app_assoc. eauto 15.
Qed.

(** ** The variable-width parts *)

Lemma be_exact n s : len s = Z.of_nat n -> be_bytes n (be_val s) = s.
Proof. intros H. apply be_bytes_be_val_n. unfold len in H. lia. Qed.
Lemma be_nonneg s : 0 <= be_val s.
Proof. apply (be_val_u (length s) s eq_refl). Qed.

Lemma reads_u8 : reads take_byte (fun rest v rest' => rest = [z2b v] ++ rest' /\ is_u8 v).
Proof.
  eapply reads_iff; [apply reads_byte|]. intros rest v rest'. cbn beta. split.
  - intros (b & -> & ->). rewrite z2b_b2z. split; [done|apply b2z_range].
  - intros [-> Hv]. exists (z2b v). rewrite b2z_z2b_small; [done|exact Hv].
Qed.

Definition expected_wire (d : ExpectedDigest) : bytes :=
  [z2b (discriminant d)] ++ be_bytes 4 (len (digest_bytes d)) ++ digest_bytes d.

Lemma from_parts_exact z b d :
  from_parts z b = Some d <-> typed_expected d /\ z = discriminant d /\ b = digest_bytes d.
Proof.
  unfold from_parts. split.
  - repeat case_match; intros [= <-];
      match goal with H : _ && _ = true |- _ => apply andb_true_iff in H as [?%Z.eqb_eq ?%Z.eqb_eq] end;
      by subst.
  - destruct d; cbn; intros (Hl & -> & ->); by rewrite Hl.
Qed.

Lemma typed_expected_len d :
  typed_expected d -> len (digest_bytes d) = 32 \/ len (digest_bytes d) = 64.
Proof. destruct d; cbn; auto. Qed.

Lemma encode_expected_wire buf d :
  typed_expected d -> encode_expected_digest buf d = Ok (buf ++ expected_wire d).
Proof.
  intros H%typed_expected_len. unfold encode_expected_digest.
  rewrite try_from_u_ok by (unfold in_u; lia). reflexivity.
Qed.

Lemma discriminant_u8 d : is_u8 (discriminant d).
Proof. by destruct d. Qed.

Lemma reads_expected : reads decode_expected_digest (item typed_expected expected_wire).
Proof.
  eapply reads_iff.
  { apply reads_bind; [apply reads_u8|]. intros x.
    apply reads_bind; [apply reads_array; lia|]. intros l.
    apply reads_bind; [apply reads_pure|]. intros ?.
    apply reads_bind; [apply reads_bytes, be_nonneg|]. intros payload. apply reads_pure. }
  intros rest v rest'. unfold item, expected_wire. cbn beta. split.
  - intros (x & m1 & [-> _] & l & m2 & [-> Hl] & u & m3 & [_ ->] & p & m4 & [-> Hp] & H & ->).
    apply expect_ok, from_parts_exact in H as (Ht & -> & ->). split; [done|].
    rewrite Hp, be_exact by done. by rewrite <-!app_assoc.
  - intros [Ht ->]. pose proof (typed_expected_len _ Ht) as Hl.
    assert (in_u (8 * Z.of_nat 4) (len (digest_bytes v))) as Hu by (unfold in_u; cbn; lia).
    rewrite <-!app_assoc. eexists (discriminant v), _. split; [eauto using discriminant_u8|].
    eexists (be_bytes 4 (len (digest_bytes v))), _. split; [eauto using len_be_bytes|].
    rewrite be_val_be_bytes_u by done.
    eexists tt, _. split; [split; [|done]; by destruct Hl as [->| ->]|].
    eexists (digest_bytes v), rest'. split_and!; try done.
    by rewrite (proj2 (from_parts_exact _ _ v)).
Qed.

Section BlueprintCodec.
Context `{P : Platform, PL : !PlatformLaws}.

Definition typed_link (l : ArtifactLink) : Prop :=
  is_u128 (link_size l)
  /\ match l with
     | AL_Local p _ => path_typed p
     | AL_Bytes _ _ => True
     | AL_Http u _ => utf8_valid u = true
     end.
Definition typed_layer (l : Layer) : Prop :=
  typed_uuid (layer_uuid l) /\ typed_link (layer_link l)
  /\ typed_expected (layer_expected_digest l) /\ typed_link_digest (layer_link_digest l).
Definition layer_fits (l : Layer) : Prop := len (link_payload (layer_link l)) <= MAX_PAYLOAD_LEN.

Definition link_digest_wire (d : LinkDigest) : bytes := digest_wire (link_hash d) (ld_file_size d).
Definition layer_wire (l : Layer) : bytes :=
  layer_uuid l ++ [z2b (link_variant (layer_link l))]
  ++ be_bytes 8 (len (link_payload (layer_link l))) ++ link_payload (layer_link l)
  ++ be_bytes 16 (link_size (layer_link l))
  ++ expected_wire (layer_expected_digest l) ++ link_digest_wire (layer_link_digest l).

Lemma decode_link_exact variant payload size l :
  is_u128 size ->
  decode_link variant payload size = Ok l
  <-> typed_link l /\ variant = link_variant l /\ payload = link_payload l /\ size = link_size l.
Proof.
  intros Hs. unfold decode_link, typed_link. split.
  - intros H;
      repeat match type of H with (if ?c then _ else _) = _ => destruct c eqn:? end;
      repeat match goal with E : (_ =? _) = true |- _ => apply Z.eqb_eq in E; subst end.
    + apply res_bind_ok_inv in H as (p & [Hp <-]%path_exact & [= <-]). done.
    + by injection H as <-.
    + apply expect_ok_iff in H as (u & [-> Hu]%from_utf8_Some & [= <-]). done.
    + done.
  - destruct l; cbn; intros ([_ Ht] & -> & -> & ->); cbn.
    + by rewrite (proj2 (path_exact _ _) (conj Ht eq_refl)).
    + done.
    + by rewrite (proj2 (from_utf8_Some _ _) (conj eq_refl Ht)).
Qed.

Lemma payload_u64 (b : bytes) : len b <= MAX_PAYLOAD_LEN -> in_u (8 * Z.of_nat 8) (len b).
Proof. pose proof (len_nonneg b). unfold MAX_PAYLOAD_LEN, U32_MAX, in_u. cbn. lia. Qed.

Lemma encode_layer_exact buf l b :
  typed_layer l -> encode_layer buf l = Ok b <-> layer_fits l /\ b = buf ++ layer_wire l.
Proof.
  intros (Hu & Hl & He & Hd). unfold encode_layer, layer_fits. cbn zeta.
  rewrite expect_ok_iff. setoid_rewrite assert_ok_iff. setoid_rewrite Z.leb_le.
  setoid_rewrite encode_expected_wire; [|done]. rewrite LinkDigest_encode_wire by done. cbn beta.
  setoid_rewrite res_bind_ok. setoid_rewrite res_bind_ok.
  unfold layer_wire, link_digest_wire. split.
  - intros (n & [-> Hn]%try_from_u_inv & Hf & [= <-]). by rewrite <-!app_assoc.
  - intros [Hf ->]. eexists. split; [by apply try_from_u_ok, payload_u64|].
    by rewrite <-!app_assoc.
Qed.

Lemma link_variant_u8 l : is_u8 (link_variant l).
Proof. by destruct l. Qed.

Lemma len_link_digest_wire d : typed_link_digest d -> len (link_digest_wire d) = 48.
Proof. intros [Hh _]. unfold link_digest_wire, digest_wire. by rewrite len_app, Hh, be16_len. Qed.

Lemma reads_layer : reads decode_layer (item (fun l => typed_layer l /\ layer_fits l) layer_wire).
Proof.
  eapply reads_iff.
  { apply reads_bind; [apply reads_array; lia|]. intros uuid.
    apply reads_bind; [apply reads_u8|]. intros variant.
    apply reads_bind; [apply reads_array; lia|]. intros n.
    apply reads_bind; [apply reads_pure|]. intros ?.
    apply reads_bind; [apply reads_bytes, be_nonneg|]. intros payload.
    apply reads_bind; [apply reads_array; lia|]. intros size.
    apply reads_bind; [apply reads_pure|]. intros link.
    apply reads_bind; [apply reads_expected|]. intros expected.
    apply reads_bind; [apply reads_bytes; lia|]. intros digest.
    apply reads_bind; [apply reads_pure|]. intros ld. apply reads_ret. }
  intros rest v rest'. unfold item, layer_wire, typed_layer, layer_fits. cbn beta. split.
  - intros (uuid & m1 & [-> Hu] & variant & m2 & [-> _] & n & m3 & [-> Hn] & u & m4 & [Hm ->]
      & payload & m5 & [-> Hp] & size & m6 & [-> Hs] & link & m7 & [Hl ->]
      & expected & m8 & [He ->] & digest & m9 & [-> Hd] & ld & m10 & [Hld ->] & -> & ->).
    cbn [layer_uuid layer_link layer_expected_digest layer_link_digest].
    apply decode_link_exact in Hl as (Ht & -> & -> & Hsz); [|by apply be16_typed].
    apply LinkDigest_exact in Hld as [Hld ->].
    assert (be_val n <= MAX_PAYLOAD_LEN).
    { destruct (_ <=? _) eqn:E in Hm; [|done]. lia. }
    rewrite <-Hsz, Hp, be_exact, be16_exact by done. fold (link_digest_wire ld).
    split; [split_and!; done|]. by rewrite <-!app_assoc.
  - intros [[(Hu & Hl & He & Hd) Hf] ->]. rewrite <-!app_assoc. destruct v as [uuid link expected ld].
    cbn [layer_uuid layer_link layer_expected_digest layer_link_digest] in *.
    eexists uuid, _. split; [done|].
    eexists (link_variant link), _. split; [eauto using link_variant_u8|].
    eexists (be_bytes 8 _), _. split; [eauto using len_be_bytes|].
    rewrite be_val_be_bytes_u by (by apply payload_u64).
    eexists tt, _. split; [by rewrite (proj2 (Z.leb_le _ _))|].
    eexists (link_payload link), _. split; [done|].
    eexists (be_bytes 16 _), _. split; [eauto using be16_len|]. rewrite be16_val by apply Hl.
    eexists link, _. split; [split; [|done]; apply decode_link_exact; [apply Hl|done]|].
    eexists expected, _. split; [done|].
    eexists (link_digest_wire ld), rest'. split; [auto using len_link_digest_wire|].
    eexists ld, _. split; [split; [|done]; by apply LinkDigest_exact|]. done.
Qed.

Lemma encode_layers_exact ls buf b :
  Forall typed_layer ls ->
  for_each encode_layer ls buf = Ok b
  <-> Forall layer_fits ls /\ b = buf ++ concat (map layer_wire ls).
Proof.
  intros Ht. revert buf. induction Ht as [|l ls Hl _ IH]; intros buf; cbn.
  - rewrite app_nil_r. split; [intros [= <-]; auto|by intros [_ ->]].
  - rewrite bind_ok_iff, Forall_cons_iff, app_assoc. split.
    + intros (b1 & [Hf ->]%encode_layer_exact & [Hfs ->]%IH); done.
    + intros [[Hf Hfs] ->]. exists (buf ++ layer_wire l).
      rewrite IH, encode_layer_exact by done. done.
Qed.

(** The optional path to extract. *)
Definition typed_extract (e : option PathBuf) : Prop := from_option path_typed True e.
Definition extract_fits (e : option PathBuf) : Prop :=
  from_option (fun p => len (encode_path p) <= MAX_PAYLOAD_LEN) True e.
Definition extract_wire (e : option PathBuf) : bytes :=
  match e with
  | None => [z2b 0]
  | Some p => [z2b 1] ++ be_bytes 8 (len (encode_path p)) ++ encode_path p
  end.

Lemma encode_extract_exact buf e b :
  encode_extract buf e = Ok b
  <-> from_option (fun p => is_u64 (len (encode_path p))) True e /\ b = buf ++ extract_wire e.
Proof.
  destruct e as [p|]; cbn -[z2b be_bytes]; [|naive_solver].
  rewrite expect_ok_iff. split.
  - intros (l & [-> Hl]%try_from_u_inv & [= <-]). done.
  - intros [Hl ->]. eauto using try_from_u_ok.
Qed.

Lemma reads_if {A} (c : bool) (p q : cur A) R S :
  reads p R -> reads q S ->
  reads (if c then p else q) (fun rest v rest' => if c then R rest v rest' else S rest v rest').
Proof. by destruct c. Qed.

Lemma reads_extract :
  reads decode_extract (item (fun e => typed_extract e /\ extract_fits e) extract_wire).
Proof.
  eapply reads_iff.
  { apply reads_bind; [apply reads_u8|]. intros tag.
    apply reads_if; [apply reads_ret|]. apply reads_if; [|apply reads_pure].
    apply reads_bind; [apply reads_array; lia|]. intros l.
    apply reads_bind; [apply reads_pure|]. intros ?.
    apply reads_bind; [apply reads_bytes, be_nonneg|]. intros b.
    apply reads_bind; [apply reads_pure|]. intros p. apply reads_ret. }
  intros rest v rest'. unfold item. cbn beta. split.
  - intros (tag & m & [-> _] & H). destruct (tag =? 0) eqn:E0.
    { apply Z.eqb_eq in E0. destruct H as [-> ->]. by subst. }
    destruct (tag =? 1) eqn:E1; [|by destruct H]. apply Z.eqb_eq in E1. subst tag.
    destruct H as (l & m1 & [-> Hl] & u & m2 & [Hm ->] & b & m3 & [-> Hb] & p & m4 & [Hp ->] & -> & ->).
    apply path_exact in Hp as [Hp <-]. unfold typed_extract, extract_fits, extract_wire. cbn [from_option].
    destruct (_ <=? _) eqn:E in Hm; [|done]. rewrite Hb, be_exact by done.
    split; [split; [done|lia]|]. by rewrite <-!app_assoc.
  - intros [[Ht Hf] ->]. destruct v as [p|]; unfold extract_wire.
    + eexists 1, _. rewrite <-!app_assoc. split; [done|]. cbn [Z.eqb Pos.eqb].
      eexists (be_bytes 8 _), _. split; [eauto using len_be_bytes|].
      rewrite be_val_be_bytes_u by (by apply payload_u64).
      eexists tt, _. split; [by rewrite (proj2 (Z.leb_le _ _))|].
      eexists (encode_path p), rest'. split; [done|].
      eexists p, _. split; [split; [|done]; by apply path_exact|]. done.
    + by eexists 0, _.
Qed.

(** ** The blueprint *)

Definition typed_blueprint (v : Blueprint) : Prop :=
  typed_uuid (target_entry_uuid v) /\ Forall typed_layer (layers v) /\ typed_extract (extract v).
Definition blueprint_wire (v : Blueprint) : bytes :=
  [z2b BLUEPRINT_FORMAT_MARKER] ++ target_entry_uuid v
  ++ [z2b (Namespace_to_bytes (target_entry_namespace v))] ++ be_bytes 4 (len (layers v))
  ++ concat (map layer_wire (layers v)) ++ extract_wire (extract v).
Definition layers_fit (v : Blueprint) : Prop :=
  len (layers v) <= MAX_LAYER_COUNT /\ Forall layer_fits (layers v).

Lemma layer_count_u32 (ls : list Layer) :
  len ls <= MAX_LAYER_COUNT -> in_u (8 * Z.of_nat 4) (len ls).
Proof. pose proof (len_nonneg ls). unfold MAX_LAYER_COUNT, in_u. cbn. lia. Qed.

Lemma Blueprint_encode_exact v b :
  typed_blueprint v ->
  Blueprint_encode v = Ok b
  <-> layers_fit v /\ from_option (fun p => is_u64 (len (encode_path p))) True (extract v)
      /\ b = blueprint_wire v.
Proof.
  intros (_ & Hl & _). unfold Blueprint_encode, layers_fit, blueprint_wire. rewrite expect_ok_iff.
  setoid_rewrite assert_ok_iff. setoid_rewrite Z.leb_le. setoid_rewrite bind_ok_iff.
  setoid_rewrite encode_layers_exact; [|done]. setoid_rewrite encode_extract_exact. split.
  - intros (n & [-> Hn]%try_from_u_inv & Hc & b1 & [Hf ->] & He & ->).
    split_and!; try done. by rewrite <-!app_assoc.
  - intros ([Hc Hf] & He & ->). eexists. split; [by apply try_from_u_ok, layer_count_u32|].
    split; [done|]. eexists. split; [done|]. split; [done|]. by rewrite <-!app_assoc.
Qed.

Lemma reads_blueprint :
  reads decode_blueprint
    (fun rest v rest' =>
       (typed_blueprint v /\ layers_fit v /\ extract_fits (extract v))
       /\ rest = blueprint_wire v /\ rest' = []).
Proof.
  eapply reads_iff.
  { apply reads_bind; [apply reads_u8|]. intros marker.
    apply reads_bind; [apply reads_pure|]. intros ?.
    apply reads_bind; [apply reads_array; lia|]. intros uuid.
    apply reads_bind; [apply reads_u8|]. intros n.
    apply reads_bind; [apply reads_pure|]. intros ns.
    apply reads_bind; [apply reads_array; lia|]. intros count.
    apply reads_bind; [apply reads_pure|]. intros ?.
    apply reads_bind; [apply reads_repeat, reads_layer|]. intros ls.
    apply reads_bind; [apply reads_extract|]. intros ex.
    apply reads_bind; [apply reads_consumed|]. intros ?. apply reads_ret. }
  intros rest v rest'. unfold item. cbn beta. split.
  - intros (marker & m1 & [-> _] & u & m2 & [Hm ->] & uuid & m3 & [-> Hu] & n & m4 & [-> _] & ns & m5
      & [Hn ->] & count & m6 & [-> Hc] & u' & m7 & [Hm' ->] & ls & m8 & [[Hls Hl] ->] & ex & m9
      & [[He Hf] ->] & u'' & m10 & [-> ->] & -> & ->).
    destruct (marker =? _) eqn:E in Hm; [|done]. apply Z.eqb_eq in E. subst marker.
    destruct (be_val count <=? _) eqn:E in Hm'; [|done]. apply Z.leb_le in E.
    apply expect_ok, Namespace_exact in Hn. subst n. 
    apply Forall_and_inv in Hl as [Hl Hlf].
    assert (len ls = be_val count) as Hlen by (pose proof (be_nonneg count); unfold len; lia).
    unfold typed_blueprint, layers_fit, blueprint_wire.
    cbn [target_entry_uuid target_entry_namespace layers extract].
    rewrite Hlen, be_exact, app_nil_r by done. split_and!; done.
  - intros [((Hu & Hl & He) & [Hc Hlf] & Hf) [-> ->]]. destruct v as [uuid ns ls ex].
    unfold blueprint_wire. cbn [target_entry_uuid target_entry_namespace layers extract] in *.
    eexists BLUEPRINT_FORMAT_MARKER, _. split; [done|].
    eexists tt, _. split; [done|].
    eexists uuid, _. split; [done|].
    eexists (Namespace_to_bytes ns), _. split; [split; [done|by destruct ns]|].
    eexists ns, _. split; [by rewrite (proj2 (Namespace_exact _ ns))|].
    eexists (be_bytes 4 (len ls)), _. split; [eauto using len_be_bytes|].
    rewrite be_val_be_bytes_u by (by apply layer_count_u32).
    eexists tt, _. split; [by rewrite (proj2 (Z.leb_le _ _))|].
    eexists ls, _. split.
    { split; [|done]. split; [|by apply Forall_and]. unfold len. by rewrite Nat2Z.id. }
    eexists ex, []. rewrite app_nil_r. split; [done|]. eexists tt, []. done.
Qed.

Lemma Blueprint_exact b v :
  len b < 2 ^ 64 ->
  Blueprint_decode b = Ok v
  <-> typed_blueprint v /\ extract_fits (extract v) /\ Blueprint_encode v = Ok b.
Proof.
  intros Hb. transitivity ((typed_blueprint v /\ layers_fit v /\ extract_fits (extract v)) /\ b = blueprint_wire v).
  - unfold Blueprint_decode. pose proof (cursor_at_new b Hb) as Hc. split.
    + destruct (decode_blueprint _) as [[v' c]| |] eqn:E; cbn; [|done..]. intros [= <-].
      apply (proj2 reads_blueprint _ _ Hc) in E. naive_solver.
    + intros [H ->]. erewrite (proj2 (proj2 reads_blueprint _ _ Hc v {| cur_bytes := blueprint_wire v; cur_pos := len (blueprint_wire v) |})); [done|].
      exists []. split; [done|]. split; [|done].
      pose proof (cursor_at_suffix (Cursor_new (blueprint_wire v)) (blueprint_wire v) []) as Hs.
      rewrite app_nil_r in Hs. apply Hs, Hc.
  - split.
    + intros [(Ht & Hl & He) ->]. split_and!; try done. apply (Blueprint_encode_exact _ _ Ht).
      split_and!; try done. destruct (extract v) as [p|]; cbn in *; [|done]. by apply payload_u64 in He.
    + intros (Ht & He & Hv). by apply (Blueprint_encode_exact _ _ Ht) in Hv as (Hl & _ & ->).
Qed.
End BlueprintCodec.

(** The blueprints the encoder accepts and the decoder reads back. *)
#[global] Instance Blueprint_value `{P : Platform} : RedbValue Blueprint := {|
  typed_value := fun v => typed_blueprint v /\ layers_fit v /\ extract_fits (extract v);
  as_bytes := Blueprint_encode; from_bytes := Blueprint_decode |}.

(** ** The two platforms *)

#[global] Instance unix_laws : PlatformLaws (H := unix).
Proof. intros b p. cbn. naive_solver. Qed.

Lemma wide_units_encode p :
  Forall is_u16 p -> wide_units (concat (map (le_bytes 2) p)) = p.
Proof.
  induction 1 as [|u p Hu _ IH]; [done|]. cbn [map concat].
  change (le_bytes 2 u) with [z2b u; z2b (u / 256)]. cbn [app wide_units]. rewrite IH.
  f_equal. change [z2b u; z2b (u / 256)] with (le_bytes 2 u).
  by apply (le_val_le_bytes_u 2).
Qed.

Lemma encode_wide_units n b :
  length b = (2 * n)%nat ->
  concat (map (le_bytes 2) (wide_units b)) = b /\ Forall is_u16 (wide_units b).
Proof.
  revert b. induction n as [|n IH]; intros b Hb.
  - destruct b; [|cbn in Hb; lia]. cbn. auto.
  - destruct b as [|lo [|hi b]]; cbn [length] in Hb; [lia..|].
    destruct (IH b) as [H1 H2]; [lia|]. cbn [wide_units map concat].
    rewrite H1, (le_bytes_le_val_n 2 [lo; hi] eq_refl). split; [done|].
    constructor; [|done]. by apply (le_val_u 2).
Qed.

Lemma len_wide p : len (concat (map (le_bytes 2) p)) = 2 * len p.
Proof.
  induction p as [|u p IH]; [done|]. cbn [map concat]. rewrite len_app, len_le_bytes, len_cons, IH. lia.
Qed.

#[global] Instance not_unix_laws : PlatformLaws (H := not_unix).
Proof.
  intros b p. cbn [decode_path path_typed encode_path not_unix]. rewrite assert_ok_iff, Z.eqb_eq. split.
  - intros [Hb [= <-]]. destruct (encode_wide_units (Z.to_nat (len b / 2)) b) as [-> ?]; [|done].
    pose proof (len_nonneg b). apply Z_div_exact_full_2 in Hb; [|lia]. unfold len in *. lia.
  - intros [Hp <-]. rewrite wide_units_encode, len_wide by done. split; [|done].
    rewrite Z.mul_comm. apply Z_mod_mult.
Qed.

(** C39: every value stored in the index is read back as itself, and nothing
    else is accepted: on both path encodings, each decoder returns a value
    exactly on the bytes the encoder writes for that value, and asserts
    otherwise.  A blueprint needs one more condition, because only the decoder
    bounds the length of the extract path. *)
Theorem index_codecs_exact `{P : Platform, PL : !PlatformLaws} b :
  len b < 2 ^ 64 ->
  (forall v, FileRef_decode b = Ok v <-> typed_value v /\ FileRef_encode v = Ok b)
  /\ (forall v, LinkRef_decode b = Ok v <-> typed_value v /\ LinkRef_encode v = Ok b)
  /\ (forall v, ArtifactId_decode b = Ok v <-> typed_value v /\ ArtifactId_encode v = Ok b)
  /\ (forall v, NamespacedLinkDigest_decode b = Ok v
                <-> typed_value v /\ NamespacedLinkDigest_encode v = Ok b)
  /\ (forall v, NamespacedFileDigest_decode b = Ok v
                <-> typed_value v /\ NamespacedFileDigest_encode v = Ok b)
  /\ (forall v, Blueprint_decode b = Ok v
                <-> typed_blueprint v /\ extract_fits (extract v) /\ Blueprint_encode v = Ok b).
Proof.
  intros Hb. split_and!; intros v.
  - exact (FileRef_laws b v Hb).
  - exact (LinkRef_laws b v Hb).
  - exact (ArtifactId_laws b v Hb).
  - exact (NamespacedLinkDigest_laws b v Hb).
  - exact (NamespacedFileDigest_laws b v Hb).
  - exact (Blueprint_exact b v Hb).
Qed.

(** A blueprint of one HTTP layer and an extract path, on Windows paths. *)
Definition toy_layer : Layer (P := not_unix) := {|
  layer_uuid := zeroed 16; layer_link := AL_Http (str "http://h/l") 7;
  layer_expected_digest := ED_Sha256 (zeroed 32);
  layer_link_digest := {| link_hash := zeroed 32; ld_file_size := 7 |} |}.
Definition toy_blueprint : Blueprint (P := not_unix) := {|
  target_entry_uuid := zeroed 16; target_entry_namespace := NS_Rootfs;
  layers := [toy_layer]; extract := Some [98; 8364] |}.

Lemma index_codecs_exact_witness :
  exists b, Blueprint_encode toy_blueprint = Ok b /\ Blueprint_decode b = Ok toy_blueprint.
Proof.
  eexists. split; [vm_compute; reflexivity|].
  apply (index_codecs_exact (P := not_unix)); [vm_compute; reflexivity|].
  split; [|split]; [|vm_compute; discriminate|vm_compute; reflexivity].
  split; [reflexivity|]. split; [|repeat constructor; unfold in_u; lia].
  repeat constructor; vm_compute; congruence.
Defined.
