(* ===== verification/IndexStore.v ===== *)
(** * The storage index

    [libs/image-core/src/storage/index/]: the operations of [link_ref.rs],
    [file_ref.rs], [blueprint.rs] and [store.rs] on the five tables of the
    index database.  [redb] is third party: a table is a finite map from
    encoded keys to encoded values, a write transaction works on a copy that
    [commit] publishes and every other exit discards, and each call may fail.
    The failures are an argument: [faults] says, call by call, which one
    fails (the list exhausted, none does).

    [Index] is the abstract index, with typed maps and total operations; the
    byte-level operations refine it. *)

From Stdlib Require Import ZArith Lia.
From stdpp Require Import base tactics option list numbers strings countable gmap fin_maps.
From S2P Require Import Prelude Bytes Wire IndexCodec.

(** ** Tables and transactions *)

Abbreviation table := (gmap bytes bytes).
Record Tables : Type := {
  LINK_DIGESTS : table; FILE_DIGESTS : table; FILE_REFS : table; LINK_REFS : table;
  BLUEPRINTS : table; SCHEMA : option Z }.

(** A table definition: how to read it out of the database and replace it. *)
Record TableDefinition : Type := {
  td_get : Tables -> table; td_set : table -> Tables -> Tables }.
Definition link_digests : TableDefinition := {|
  td_get := LINK_DIGESTS;
  td_set := fun m t => {| LINK_DIGESTS := m; FILE_DIGESTS := FILE_DIGESTS t; FILE_REFS := FILE_REFS t;
                          LINK_REFS := LINK_REFS t; BLUEPRINTS := BLUEPRINTS t; SCHEMA := SCHEMA t |} |}.
Definition file_digests : TableDefinition := {|
  td_get := FILE_DIGESTS;
  td_set := fun m t => {| LINK_DIGESTS := LINK_DIGESTS t; FILE_DIGESTS := m; FILE_REFS := FILE_REFS t;
                          LINK_REFS := LINK_REFS t; BLUEPRINTS := BLUEPRINTS t; SCHEMA := SCHEMA t |} |}.
Definition file_refs : TableDefinition := {|
  td_get := FILE_REFS;
  td_set := fun m t => {| LINK_DIGESTS := LINK_DIGESTS t; FILE_DIGESTS := FILE_DIGESTS t; FILE_REFS := m;
                          LINK_REFS := LINK_REFS t; BLUEPRINTS := BLUEPRINTS t; SCHEMA := SCHEMA t |} |}.
Definition link_refs : TableDefinition := {|
  td_get := LINK_REFS;
  td_set := fun m t => {| LINK_DIGESTS := LINK_DIGESTS t; FILE_DIGESTS := FILE_DIGESTS t; FILE_REFS := FILE_REFS t;
                          LINK_REFS := m; BLUEPRINTS := BLUEPRINTS t; SCHEMA := SCHEMA t |} |}.
Definition blueprints : TableDefinition := {|
  td_get := BLUEPRINTS;
  td_set := fun m t => {| LINK_DIGESTS := LINK_DIGESTS t; FILE_DIGESTS := FILE_DIGESTS t; FILE_REFS := FILE_REFS t;
                          LINK_REFS := LINK_REFS t; BLUEPRINTS := m; SCHEMA := SCHEMA t |} |}.

(** A computation inside a transaction. *)
Definition tx (A : Type) : Type := Tables -> list bool -> res IndexError A * Tables * list bool.
#[global] Instance tx_ret : MRet tx := fun A a t fs => (Ok a, t, fs).
#[global] Instance tx_bind : MBind tx := fun A B k m t fs =>
  match m t fs with
  | (Ok a, t, fs) => k a t fs
  | (Err e, t, fs) => (Err e, t, fs)
  | (Panic, t, fs) => (Panic, t, fs)
  end.
Definition of_res {A} (m : res IndexError A) : tx A := fun t fs => (m, t, fs).
(** One call into the database, reported as [e] when it fails. *)
Definition redb_call (e : IndexError) : tx unit := fun t fs =>
  match fs with
  | [] => (Ok tt, t, [])
  | failed :: fs => (if failed : bool then Err e else Ok tt, t, fs)
  end.
Definition open_table : tx unit := redb_call Transaction.

Section TableOps.
Context {K V : Type} `{!RedbValue K, !RedbValue V} (T : TableDefinition).

Definition table_view : tx table := fun t fs => (Ok (td_get T t), t, fs).
Definition table_put (m : table) : tx unit := fun t fs => (Ok tt, td_set T m t, fs).

Definition get (k : K) : tx (option V) :=
  _ ← redb_call Transaction;
  kb ← of_res (as_bytes k);
  m ← table_view;
  match m !! kb with
  | None => mret None
  | Some b => v ← of_res (from_bytes b); mret (Some v)
  end.
Definition insert (k : K) (v : V) : tx unit :=
  _ ← redb_call Transaction;
  kb ← of_res (as_bytes k);
  vb ← of_res (as_bytes v);
  m ← table_view;
  table_put (<[kb := vb]> m).
Definition remove (k : K) : tx unit :=
  _ ← redb_call Transaction;
  kb ← of_res (as_bytes k);
  m ← table_view;
  table_put (delete kb m).
End TableOps.

(** [begin_write], the body, [commit]: only a commit changes the database. *)
Definition begin_write {A} (body : tx A) : tx A :=
  _ ← redb_call Transaction; _ ← redb_call Transaction;
  a ← body; _ ← redb_call Transaction; mret a.
Definition write_transaction {A} (body : tx A) : tx A := fun t fs =>
  match begin_write body t fs with
  | (Ok a, t', fs) => (Ok a, t', fs)
  | (r, _, fs) => (r, t, fs)
  end.
Definition begin_read {A} (body : tx A) : tx A := _ ← redb_call Transaction; body.
Definition read_transaction {A} (body : tx A) : tx A := fun t fs =>
  match begin_read body t fs with (r, _, fs) => (r, t, fs) end.

(** ** Identities and keys of the records *)

Definition id_of_link (r : LinkRef) : ArtifactId :=
  {| ai_namespace := lr_namespace r; ai_uuid := lr_uuid r |}.
Definition id_of_file (f : FileRef) : ArtifactId :=
  {| ai_namespace := fr_namespace f; ai_uuid := fr_uuid f |}.
Definition key_of_link (r : LinkRef) : NamespacedLinkDigest :=
  {| nl_namespace := lr_namespace r; nl_link_digest := lr_link_digest r |}.
Definition key_of_file (f : FileRef) : NamespacedFileDigest :=
  {| nf_namespace := fr_namespace f; nf_file_digest := fr_file_digest f |}.
Definition id_of_blueprint `{P : Platform} (b : Blueprint) : ArtifactId :=
  {| ai_namespace := target_entry_namespace b; ai_uuid := target_entry_uuid b |}.

#[global] Instance Namespace_eq_dec : EqDecision Namespace.
Proof. solve_decision. Defined.
#[global] Instance ArtifactId_eq_dec : EqDecision ArtifactId.
Proof. solve_decision. Defined.
#[global] Instance LinkDigest_eq_dec : EqDecision LinkDigest.
Proof. solve_decision. Defined.
#[global] Instance FileDigest_eq_dec : EqDecision FileDigest.
Proof. solve_decision. Defined.
#[global] Instance NamespacedLinkDigest_eq_dec : EqDecision NamespacedLinkDigest.
Proof. solve_decision. Defined.
#[global] Instance NamespacedFileDigest_eq_dec : EqDecision NamespacedFileDigest.
Proof. solve_decision. Defined.
#[global] Instance LinkRef_eq_dec : EqDecision LinkRef.
Proof. solve_decision. Defined.
#[global] Instance FileRef_eq_dec : EqDecision FileRef.
Proof.
  assert (EqDecision ArtifactType) by solve_decision.
  assert (EqDecision ArtifactCompression) by solve_decision. solve_decision.
Defined.

(** ** [link_ref.rs] *)

Definition link_ref_get_or_create (now_v7 : bytes) (link_digest : NamespacedLinkDigest) : tx LinkRef :=
  write_transaction (
    _ ← open_table; _ ← open_table;
    resolved_artifact ← get (V := ArtifactId) link_digests link_digest;
    artifact_id ←
      match resolved_artifact with
      | Some artifact_id => mret artifact_id
      | None =>
          let artifact_id := {| ai_namespace := nl_namespace link_digest; ai_uuid := now_v7 |} in
          _ ← insert link_digests link_digest artifact_id; mret artifact_id
      end;
    resolved_link_ref ← get (V := LinkRef) link_refs artifact_id;
    match resolved_link_ref with
    | Some link_ref => mret link_ref
    | None =>
        let link_ref := {| lr_uuid := ai_uuid artifact_id; lr_namespace := nl_namespace link_digest;
                           lr_link_digest := nl_link_digest link_digest |} in
        _ ← insert link_refs artifact_id link_ref; mret link_ref
    end).

(** ** [file_ref.rs] *)

Definition upsert (link_ref : LinkRef) (file_ref : FileRef) : tx unit :=
  _ ← of_res (fail_if (bool_decide (ai_namespace (id_of_link link_ref) <> ai_namespace (id_of_file file_ref))
                       || bool_decide (ai_uuid (id_of_link link_ref) <> ai_uuid (id_of_file file_ref)))
                      IdentityMismatch);
  write_transaction (
    _ ← open_table; _ ← open_table; _ ← open_table; _ ← open_table;
    resolved_link_ref ← get (V := ArtifactId) link_digests (key_of_link link_ref);
    link_ref_id ←
      match resolved_link_ref with
      | Some link_ref_id => mret link_ref_id
      | None => _ ← insert link_digests (key_of_link link_ref) (id_of_link link_ref);
                mret (id_of_link link_ref)
      end;
    file_digest_present ← get (V := ArtifactId) file_digests (key_of_file file_ref);
    _ ← match file_digest_present with
        | None => insert file_digests (key_of_file file_ref) (id_of_file file_ref)
        | Some _ => mret tt
        end;
    link_ref_present ← get (V := LinkRef) link_refs link_ref_id;
    _ ← match link_ref_present with
        | None => insert link_refs link_ref_id link_ref
        | Some _ => mret tt
        end;
    insert file_refs (id_of_file file_ref) file_ref).

Definition update (file_ref : FileRef) : tx FileRef :=
  write_transaction (
    _ ← open_table; _ ← open_table;
    previous ← get (V := FileRef) file_refs (id_of_file file_ref);
    match previous with
    | None => _ ← redb_call Transaction; of_res (Err MissingPrevious)
    | Some previous =>
        if bool_decide (fr_uuid previous <> fr_uuid file_ref)
           || bool_decide (fr_namespace previous <> fr_namespace file_ref)
        then _ ← redb_call Transaction; of_res (Err FileRefIdentityConflict)
        else
          _ ← (if bool_decide (key_of_file previous <> key_of_file file_ref) then
                 existing_for_new ← get (V := ArtifactId) file_digests (key_of_file file_ref);
                 _ ← match existing_for_new with
                     | None => insert file_digests (key_of_file file_ref) (id_of_file file_ref)
                     | Some _ => mret tt
                     end;
                 owner_of_previous ← get (V := ArtifactId) file_digests (key_of_file previous);
                 if bool_decide (owner_of_previous = Some (id_of_file file_ref))
                 then remove file_digests (key_of_file previous) else mret tt
               else mret tt);
          _ ← insert file_refs (id_of_file file_ref) file_ref;
          mret file_ref
    end).

Definition invalidate (file_ref : FileRef) : tx unit :=
  write_transaction (
    _ ← open_table; _ ← open_table;
    _ ← remove file_refs (id_of_file file_ref);
    owner ← get (V := ArtifactId) file_digests (key_of_file file_ref);
    if bool_decide (owner = Some (id_of_file file_ref))
    then remove file_digests (key_of_file file_ref) else mret tt).

(** What the file system answers while a record's file is probed.  The
    handle's reads return [probe_reads] in turn and then end of file. *)
Inductive io (A : Type) : Type := IoOk (a : A) | IoNotFound | IoFailed.
Arguments IoOk {A} _.
Arguments IoNotFound {A}.
Arguments IoFailed {A}.
Record Probe : Type := {
  probe_metadata : io (bool * Z);  (* is_file, len *)
  probe_open : io unit;
  probe_reads : list (io bytes) }.

Inductive StoredFileValidity : Type := Valid | Miss | Indeterminate.

Section Validity.
Context (blake3 : bytes -> bytes).

(** The hasher holds the bytes fed to it. *)
Fixpoint hash_reads (expected : bytes) (fed : bytes) (reads : list (io bytes)) : StoredFileValidity :=
  let finalize := if bool_decide (blake3 fed = expected) then Valid else Miss in
  match reads with
  | [] => finalize
  | IoOk [] :: _ => finalize
  | IoOk read :: reads => hash_reads expected (fed ++ read) reads
  | IoNotFound :: _ => Miss
  | IoFailed :: _ => Indeterminate
  end.

Definition stored_file_validity (probe : Probe) (file_ref : FileRef) : StoredFileValidity :=
  match probe_metadata probe with
  | IoNotFound => Miss
  | IoFailed => Indeterminate
  | IoOk (is_file, length) =>
      if negb is_file || negb (length =? fd_file_size (fr_file_digest file_ref)) then Miss
      else
        match probe_open probe with
        | IoNotFound => Miss
        | IoFailed => Indeterminate
        | IoOk _ => hash_reads (file_hash (fr_file_digest file_ref)) [] (probe_reads probe)
        end
  end.

(** [probe] is what the file system says about the file of a record. *)
Definition get_by_link_ref (probe : FileRef -> Probe) (link_ref : LinkRef) : tx (option FileRef) :=
  file_ref ← read_transaction (_ ← open_table; get (V := FileRef) file_refs (id_of_link link_ref));
  match file_ref with
  | None => mret None
  | Some file_ref =>
      match stored_file_validity (probe file_ref) file_ref with
      | Valid => mret (Some file_ref)
      | Miss => _ ← invalidate file_ref; mret None
      | Indeterminate => mret None
      end
  end.
End Validity.

(** ** [blueprint.rs] *)

Section BlueprintOps.
Context `{P : Platform}.

Definition blueprint_get_by_link_digest (link_digest : NamespacedLinkDigest) : tx (option Blueprint) :=
  read_transaction (
    _ ← open_table; _ ← open_table;
    artifact_id ← get (V := ArtifactId) link_digests link_digest;
    match artifact_id with
    | None => mret None
    | Some artifact_id => get (V := Blueprint) blueprints artifact_id
    end).

Definition blueprint_upsert (blueprint : Blueprint) : tx Blueprint :=
  write_transaction (
    _ ← open_table;
    _ ← insert blueprints (id_of_blueprint blueprint) blueprint;
    mret blueprint).
End BlueprintOps.

(** ** [store.rs]: opening a database *)

Definition SCHEMA_VERSION : Z := 3.

Definition table_len (T : TableDefinition) : tx bool :=
  _ ← redb_call Open; _ ← redb_call Open;
  m ← table_view T; mret (negb (bool_decide (m = ∅))).
(** [a || b] on fallible operands. *)
Definition or_else (a b : tx bool) : tx bool := x ← a; if x : bool then mret true else b.

Definition put_schema : tx unit := fun t fs =>
  (Ok tt, {| LINK_DIGESTS := LINK_DIGESTS t; FILE_DIGESTS := FILE_DIGESTS t; FILE_REFS := FILE_REFS t;
             LINK_REFS := LINK_REFS t; BLUEPRINTS := BLUEPRINTS t; SCHEMA := Some SCHEMA_VERSION |}, fs).
Definition recorded_version : tx (option Z) := fun t fs => (Ok (SCHEMA t), t, fs).

Definition open_body : tx unit :=
  _ ← redb_call Open; _ ← redb_call Open; _ ← redb_call Open;
  _ ← redb_call Open; _ ← redb_call Open; _ ← redb_call Open;
  _ ← redb_call Open;
  recorded ← recorded_version;
  match recorded with
  | Some version => of_res (fail_if (negb (version =? SCHEMA_VERSION)) SchemaMismatch)
  | None =>
      has_records ← or_else (table_len link_digests) (or_else (table_len file_refs)
        (or_else (table_len file_digests) (or_else (table_len blueprints)
          (_ ← redb_call Open; m ← table_view link_refs; mret (negb (bool_decide (m = ∅)))))));
      _ ← of_res (fail_if has_records SchemaMismatch);
      _ ← redb_call Open;
      put_schema
  end.

(** [Database::create], [begin_write], the checks, [commit]. *)
Definition IndexStore_open : tx unit := fun t fs =>
  match (_ ← redb_call Open; _ ← redb_call Open; _ ← open_body; redb_call Open) t fs with
  | (Ok _, t', fs) => (Ok tt, t', fs)
  | (r, _, fs) => (r, t, fs)
  end.

(** ** The abstract index *)

#[global] Instance Namespace_countable : Countable Namespace :=
  inj_countable Namespace_to_bytes Namespace_from_bytes (fun n => proj2 (Namespace_exact _ n) eq_refl).
#[global] Instance ArtifactId_countable : Countable ArtifactId :=
  inj_countable' (fun i => (ai_namespace i, ai_uuid i))
    (fun p => {| ai_namespace := p.1; ai_uuid := p.2 |}) ltac:(by intros []).
#[global] Instance NamespacedLinkDigest_countable : Countable NamespacedLinkDigest :=
  inj_countable' (fun d => (nl_namespace d, link_hash (nl_link_digest d), ld_file_size (nl_link_digest d)))
    (fun p => {| nl_namespace := p.1.1; nl_link_digest := {| link_hash := p.1.2; ld_file_size := p.2 |} |})
    ltac:(by intros [? []]).
#[global] Instance NamespacedFileDigest_countable : Countable NamespacedFileDigest :=
  inj_countable' (fun d => (nf_namespace d, file_hash (nf_file_digest d), fd_file_size (nf_file_digest d)))
    (fun p => {| nf_namespace := p.1.1; nf_file_digest := {| file_hash := p.1.2; fd_file_size := p.2 |} |})
    ltac:(by intros [? []]).

Section Abstract.
Context `{P : Platform}.

Record Index : Type := {
  ix_links : gmap NamespacedLinkDigest ArtifactId;
  ix_digests : gmap NamespacedFileDigest ArtifactId;
  ix_files : gmap ArtifactId FileRef;
  ix_refs : gmap ArtifactId LinkRef;
  ix_blueprints : gmap ArtifactId Blueprint }.
Definition empty_index : Index := Build_Index ∅ ∅ ∅ ∅ ∅.

(** [m] extended with a binding, unless the key is bound already. *)
Definition insert_new {K A} `{Countable K} (k : K) (a : A) (m : gmap K A) : gmap K A :=
  <[k := default a (m !! k)]> m.
(** [m] without the binding of [k] to [a]. *)
Definition remove_owned {K A} `{Countable K, EqDecision A} (k : K) (a : A) (m : gmap K A) : gmap K A :=
  if bool_decide (m !! k = Some a) then delete k m else m.

(** The identity a link resolves to, assigning one when there is none. *)
Definition spec_get_or_create (u : bytes) (d : NamespacedLinkDigest) (ix : Index) : LinkRef * Index :=
  let new := {| ai_namespace := nl_namespace d; ai_uuid := u |} in
  let id := default new (ix_links ix !! d) in
  let new_ref := {| lr_uuid := ai_uuid id; lr_namespace := nl_namespace d;
                    lr_link_digest := nl_link_digest d |} in
  (default new_ref (ix_refs ix !! id),
   Build_Index (insert_new d new (ix_links ix)) (ix_digests ix) (ix_files ix)
     (insert_new id new_ref (ix_refs ix)) (ix_blueprints ix)).

Definition spec_upsert (r : LinkRef) (f : FileRef) (ix : Index) : res IndexError unit * Index :=
  if bool_decide (id_of_link r = id_of_file f) then
    let id := default (id_of_link r) (ix_links ix !! key_of_link r) in
    (Ok tt, Build_Index (insert_new (key_of_link r) (id_of_link r) (ix_links ix))
              (insert_new (key_of_file f) (id_of_file f) (ix_digests ix))
              (<[id_of_file f := f]> (ix_files ix))
              (insert_new id r (ix_refs ix)) (ix_blueprints ix))
  else (Err IdentityMismatch, ix).

Definition spec_update (f : FileRef) (ix : Index) : res IndexError FileRef * Index :=
  match ix_files ix !! id_of_file f with
  | None => (Err MissingPrevious, ix)
  | Some previous =>
      if bool_decide (id_of_file previous = id_of_file f) then
        let digests :=
          if bool_decide (key_of_file previous = key_of_file f) then ix_digests ix
          else remove_owned (key_of_file previous) (id_of_file f)
                 (insert_new (key_of_file f) (id_of_file f) (ix_digests ix)) in
        (Ok f, Build_Index (ix_links ix) digests (<[id_of_file f := f]> (ix_files ix))
                 (ix_refs ix) (ix_blueprints ix))
      else (Err FileRefIdentityConflict, ix)
  end.

Definition spec_invalidate (f : FileRef) (ix : Index) : Index :=
  Build_Index (ix_links ix) (remove_owned (key_of_file f) (id_of_file f) (ix_digests ix))
    (delete (id_of_file f) (ix_files ix)) (ix_refs ix) (ix_blueprints ix).

Definition spec_lookup (validity : FileRef -> StoredFileValidity) (r : LinkRef) (ix : Index)
    : option FileRef * Index :=
  match ix_files ix !! id_of_link r with
  | None => (None, ix)
  | Some f =>
      match validity f with
      | Valid => (Some f, ix)
      | Miss => (None, spec_invalidate f ix)
      | Indeterminate => (None, ix)
      end
  end.

Definition spec_blueprint_get (d : NamespacedLinkDigest) (ix : Index) : option Blueprint :=
  id ← ix_links ix !! d; ix_blueprints ix !! id.
Definition spec_blueprint_upsert (b : Blueprint) (ix : Index) : Index :=
  Build_Index (ix_links ix) (ix_digests ix) (ix_files ix) (ix_refs ix)
    (<[id_of_blueprint b := b]> (ix_blueprints ix)).

(** ** The operations as data *)

Inductive op : Type :=
  | GetOrCreate (now_v7 : bytes) (d : NamespacedLinkDigest)
  | Upsert (r : LinkRef) (f : FileRef)
  | Update (f : FileRef)
  | Lookup (probe : FileRef -> Probe) (r : LinkRef)
  | BlueprintGet (d : NamespacedLinkDigest)
  | BlueprintUpsert (b : Blueprint).
Inductive reply : Type :=
  | R_LinkRef (r : LinkRef) | R_Unit | R_FileRef (f : FileRef) | R_Found (f : option FileRef)
  | R_Blueprint (b : option Blueprint) | R_Stored (b : Blueprint).

Definition typed_op (o : op) : Prop :=
  match o with
  | GetOrCreate u d => typed_uuid u /\ typed_value d
  | Upsert r f => typed_value r /\ typed_value f
  | Update f => typed_value f
  | Lookup _ r => typed_value r
  | BlueprintGet d => typed_value d
  | BlueprintUpsert b => typed_value b
  end.

Context (blake3 : bytes -> bytes).

Definition run_op (o : op) : tx reply :=
  match o with
  | GetOrCreate u d => r ← link_ref_get_or_create u d; mret (R_LinkRef r)
  | Upsert r f => _ ← upsert r f; mret R_Unit
  | Update f => f ← update f; mret (R_FileRef f)
  | Lookup probe r => f ← get_by_link_ref blake3 probe r; mret (R_Found f)
  | BlueprintGet d => b ← blueprint_get_by_link_digest d; mret (R_Blueprint b)
  | BlueprintUpsert b => b ← blueprint_upsert b; mret (R_Stored b)
  end.

Definition on_reply {A} (f : A -> reply) (s : res IndexError A * Index) : res IndexError reply * Index :=
  (f <$> s.1, s.2).
Definition spec_op (o : op) (ix : Index) : res IndexError reply * Index :=
  match o with
  | GetOrCreate u d => let (r, ix') := spec_get_or_create u d ix in (Ok (R_LinkRef r), ix')
  | Upsert r f => on_reply (fun _ => R_Unit) (spec_upsert r f ix)
  | Update f => on_reply R_FileRef (spec_update f ix)
  | Lookup probe r =>
      let (f, ix') := spec_lookup (fun f => stored_file_validity blake3 (probe f) f) r ix in
      (Ok (R_Found f), ix')
  | BlueprintGet d => (Ok (R_Blueprint (spec_blueprint_get d ix)), ix)
  | BlueprintUpsert b => (Ok (R_Stored b), spec_blueprint_upsert b ix)
  end.
End Abstract.

(** ** Values that survive the database *)

Class Storable (V : Type) `{!RedbValue V} : Prop :=
  storable v : typed_value v -> exists b, as_bytes v = Ok b /\ from_bytes b = Ok v.

Lemma storable_by_laws {V} `{!RedbValue V, !RedbValueLaws V} (wire : V -> bytes) v n :
  typed_value v -> as_bytes v = Ok (wire v) -> len (wire v) = n -> n < 2 ^ 64 ->
  exists b, as_bytes v = Ok b /\ from_bytes b = Ok v.
Proof.
  intros Ht He <- Hn. exists (wire v). split; [done|]. by apply value_exact.
Qed.

#[global] Instance FileRef_storable : Storable FileRef.
Proof.
  intros v Ht. eapply (storable_by_laws FileRef_wire); [done|by apply FileRef_encode_wire|reflexivity|].
  destruct Ht as (Hu & Hh & _). unfold FileRef_wire. rewrite !len_app, be16_len, Hu, Hh. reflexivity.
Qed.
#[global] Instance LinkRef_storable : Storable LinkRef.
Proof.
  intros v Ht. eapply (storable_by_laws LinkRef_wire); [done|by apply LinkRef_encode_wire|reflexivity|].
  destruct Ht as (Hu & Hh & _). unfold LinkRef_wire, digest_wire.
  rewrite !len_app, be16_len, Hu, Hh. reflexivity.
Qed.
#[global] Instance ArtifactId_storable : Storable ArtifactId.
Proof.
  intros v Ht. eapply (storable_by_laws ArtifactId_wire); [done|by apply ArtifactId_encode_wire|reflexivity|].
  unfold ArtifactId_wire. cbn in Ht. rewrite len_app, Ht. reflexivity.
Qed.
#[global] Instance NamespacedLinkDigest_storable : Storable NamespacedLinkDigest.
Proof.
  intros v Ht. eapply (storable_by_laws NamespacedLinkDigest_wire); [done|by apply NamespacedLinkDigest_encode_wire|reflexivity|].
  destruct Ht as (Hh & _). unfold NamespacedLinkDigest_wire, keyed_digest_wire, digest_wire.
  rewrite !len_app, be16_len, Hh. reflexivity.
Qed.
#[global] Instance NamespacedFileDigest_storable : Storable NamespacedFileDigest.
Proof.
  intros v Ht. eapply (storable_by_laws NamespacedFileDigest_wire); [done|by apply NamespacedFileDigest_encode_wire|reflexivity|].
  destruct Ht as (Hh & _). unfold NamespacedFileDigest_wire, keyed_digest_wire, digest_wire.
  rewrite !len_app, be16_len, Hh. reflexivity.
Qed.

Section BlueprintStorable.
Context `{P : Platform, PL : !PlatformLaws}.

Lemma len_layer_wire l : typed_layer l -> layer_fits l -> len (layer_wire l) <= 2 ^ 33.
Proof.
  intros (Hu & _ & He & Hd) Hf. unfold layer_wire, expected_wire.
  rewrite !len_app, !len_be_bytes, len_link_digest_wire, Hu by done.
  apply typed_expected_len in He. unfold layer_fits, MAX_PAYLOAD_LEN, U32_MAX in Hf.
  rewrite !len_cons, !len_nil. lia.
Qed.

Lemma len_layers_wire ls :
  Forall typed_layer ls -> Forall layer_fits ls ->
  len (concat (map layer_wire ls)) <= 2 ^ 33 * len ls.
Proof.
  induction ls as [|l ls IH]; intros Ht Hf; [done|]. cbn [map concat].
  apply Forall_cons_iff in Ht as [Hl Ht], Hf as [Hlf Hf].
  rewrite len_app, len_cons. pose proof (len_layer_wire l Hl Hlf). pose proof (IH Ht Hf). lia.
Qed.

Lemma len_blueprint_wire b : typed_value b -> len (blueprint_wire b) < 2 ^ 64.
Proof.
  intros ((Hu & Ht & _) & [Hc Hl] & He). unfold blueprint_wire.
  pose proof (len_layers_wire _ Ht Hl). unfold MAX_LAYER_COUNT in Hc.
  rewrite !len_app, len_be_bytes, Hu, !len_cons, !len_nil.
  assert (len (extract_wire (extract b)) <= 2 ^ 33); [|lia].
  destruct (extract b) as [p|]; cbn in He; [|done]. unfold extract_wire.
  rewrite !len_app, len_be_bytes, !len_cons, !len_nil.
  unfold MAX_PAYLOAD_LEN, U32_MAX in He. lia.
Qed.

#[global] Instance Blueprint_storable : Storable Blueprint.
Proof.
  intros b Hb. pose proof (len_blueprint_wire b Hb) as Hl. exists (blueprint_wire b).
  destruct Hb as (Ht & Hf & He).
  assert (Blueprint_encode b = Ok (blueprint_wire b)) as Hw; [|by split; [|apply Blueprint_exact]].
  apply (Blueprint_encode_exact _ _ Ht). split_and!; try done.
  destruct (extract b) as [p|]; cbn in *; [|done]. by apply payload_u64 in He.
Qed.
End BlueprintStorable.

(** ** Byte tables represent typed maps *)

Definition table_repr {K V} `{!RedbValue K, !RedbValue V, Countable K}
    (r : table) (m : gmap K V) : Prop :=
  (forall k v, m !! k = Some v -> typed_value k /\ typed_value v)
  /\ (forall k kb, typed_value k -> as_bytes k = Ok kb ->
      forall bv, r !! kb = Some bv <-> exists v, m !! k = Some v /\ as_bytes v = Ok bv).

Section TableRepr.
Context {K V} `{!RedbValue K, !RedbValue V, Countable K, !Storable K, !Storable V}.

Lemma as_bytes_inj (k k' : K) b :
  typed_value k -> typed_value k' -> as_bytes k = Ok b -> as_bytes k' = Ok b -> k = k'.
Proof.
  intros Hk Hk' Hb Hb'. destruct (storable k Hk) as (? & E & D), (storable k' Hk') as (? & E' & D').
  rewrite Hb in E. rewrite Hb' in E'. simplify_eq. congruence.
Qed.

Lemma table_repr_empty : table_repr ∅ (∅ : gmap K V).
Proof. split; [done|]. intros k kb _ _ bv. rewrite !lookup_empty. split; [done|]. by intros (? & ? & _). Qed.

Lemma table_repr_insert r (m : gmap K V) k v kb vb :
  table_repr r m -> typed_value k -> typed_value v -> as_bytes k = Ok kb -> as_bytes v = Ok vb ->
  table_repr (<[kb := vb]> r) (<[k := v]> m).
Proof.
  intros [Ht Hr] Hk Hv Ekb Evb. split.
  { intros k' v'. rewrite lookup_insert_Some. naive_solver. }
  intros k' kb' Hk' Ekb' bv. destruct (decide (k' = k)) as [->|Hne].
  - rewrite Ekb in Ekb'. injection Ekb' as <-. rewrite !lookup_insert_eq. split.
    + intros [= <-]. eauto.
    + intros (v' & [= <-] & E). congruence.
  - assert (kb <> kb') by (intros ->; eauto using as_bytes_inj).
    rewrite !lookup_insert_ne by done. by apply Hr.
Qed.

Lemma table_repr_delete r (m : gmap K V) k kb :
  table_repr r m -> typed_value k -> as_bytes k = Ok kb ->
  table_repr (delete kb r) (delete k m).
Proof.
  intros [Ht Hr] Hk Ekb. split.
  { intros k' v'. rewrite lookup_delete_Some. naive_solver. }
  intros k' kb' Hk' Ekb' bv. destruct (decide (k' = k)) as [->|Hne].
  - rewrite Ekb in Ekb'. injection Ekb' as <-. rewrite !lookup_delete_eq. split; [done|]. by intros (? & ? & _).
  - assert (kb <> kb') by (intros ->; eauto using as_bytes_inj).
    rewrite !lookup_delete_ne by done. by apply Hr.
Qed.

Lemma table_repr_lookup r (m : gmap K V) k kb :
  table_repr r m -> typed_value k -> as_bytes k = Ok kb ->
  match r !! kb with
  | None => m !! k = None
  | Some b => exists v, m !! k = Some v /\ from_bytes b = Ok v
  end.
Proof.
  intros [Ht Hr] Hk Ekb. specialize (Hr k kb Hk Ekb). destruct (r !! kb) as [b|].
  - destruct (proj1 (Hr b) eq_refl) as (v & Hv & Eb). exists v. split; [done|].
    destruct (storable v) as (b' & E & D); [by apply (Ht k)|]. congruence.
  - destruct (m !! k) as [v|] eqn:Hv; [|done].
    destruct (storable v) as (b' & E & D); [by apply (Ht k)|].
    discriminate (proj2 (Hr b') (ex_intro _ v (conj eq_refl E))).
Qed.
End TableRepr.

(** ** Refinement

    [tx_ok p ix Q E]: on tables that represent [ix], [p] never panics; when it
    succeeds the tables represent an index that [Q] relates to the result;
    when it fails, either a database call failed or [E] allows the error. *)

Section Refinement.
Context `{P : Platform, PL : !PlatformLaws}.

Definition repr (t : Tables) (ix : Index) : Prop :=
  table_repr (LINK_DIGESTS t) (ix_links ix) /\ table_repr (FILE_DIGESTS t) (ix_digests ix)
  /\ table_repr (FILE_REFS t) (ix_files ix) /\ table_repr (LINK_REFS t) (ix_refs ix)
  /\ table_repr (BLUEPRINTS t) (ix_blueprints ix).

(** No database call fails from here on. *)
Definition quiet (fs : list bool) : Prop := true ∉ fs.

Definition tx_ok {A} (p : tx A) (ix : Index) (Q : A -> Index -> Prop) (E : IndexError -> Prop) : Prop :=
  forall t fs, repr t ix ->
    match p t fs with
    | (Ok a, t', fs') => exists ix', repr t' ix' /\ Q a ix' /\ (quiet fs -> quiet fs')
    | (Err e, _, _) => (e = Transaction /\ ~ quiet fs) \/ E e
    | (Panic, _, _) => False
    end.

(** [T] is the table that represents the component [sel], [upd] of the index. *)
Class TableFor {K V} `{!RedbValue K, !RedbValue V, Countable K} (T : TableDefinition)
    (sel : Index -> gmap K V) (upd : gmap K V -> Index -> Index) : Prop := {
  table_for_get t ix : repr t ix -> table_repr (td_get T t) (sel ix);
  table_for_set t ix r m : repr t ix -> table_repr r m -> repr (td_set T r t) (upd m ix);
  table_for_id ix : upd (sel ix) ix = ix }.

Definition set_links m (ix : Index) : Index :=
  Build_Index m (ix_digests ix) (ix_files ix) (ix_refs ix) (ix_blueprints ix).
Definition set_digests m (ix : Index) : Index :=
  Build_Index (ix_links ix) m (ix_files ix) (ix_refs ix) (ix_blueprints ix).
Definition set_files m (ix : Index) : Index :=
  Build_Index (ix_links ix) (ix_digests ix) m (ix_refs ix) (ix_blueprints ix).
Definition set_refs m (ix : Index) : Index :=
  Build_Index (ix_links ix) (ix_digests ix) (ix_files ix) m (ix_blueprints ix).
Definition set_blueprints m (ix : Index) : Index :=
  Build_Index (ix_links ix) (ix_digests ix) (ix_files ix) (ix_refs ix) m.

#[global] Instance for_links : TableFor link_digests ix_links set_links.
Proof. split; unfold repr; cbn; [intuition..|by intros []]. Qed.
#[global] Instance for_digests : TableFor file_digests ix_digests set_digests.
Proof. split; unfold repr; cbn; [intuition..|by intros []]. Qed.
#[global] Instance for_files : TableFor file_refs ix_files set_files.
Proof. split; unfold repr; cbn; [intuition..|by intros []]. Qed.
#[global] Instance for_refs : TableFor link_refs ix_refs set_refs.
Proof. split; unfold repr; cbn; [intuition..|by intros []]. Qed.
#[global] Instance for_blueprints : TableFor blueprints ix_blueprints set_blueprints.
Proof. split; unfold repr; cbn; [intuition..|by intros []]. Qed.

Lemma tx_ok_ret {A} (a : A) ix Q E : Q a ix -> tx_ok (mret a) ix Q E.
Proof. intros HQ t fs Ht. cbn. eauto. Qed.

Lemma tx_ok_err {A} e ix (Q : A -> Index -> Prop) (E : IndexError -> Prop) :
  E e -> tx_ok (of_res (Err e)) ix Q E.
Proof. intros HE t fs Ht. cbn. auto. Qed.

Lemma tx_ok_bind {A B} (p : tx A) (k : A -> tx B) ix Q Q' E :
  tx_ok p ix Q E -> (forall a ix', Q a ix' -> tx_ok (k a) ix' Q' E) -> tx_ok (p ≫= k) ix Q' E.
Proof.
  intros Hp Hk t fs Ht. specialize (Hp t fs Ht). unfold mbind, tx_bind.
  destruct (p t fs) as [[[a|e|] t'] fs'].
  - destruct Hp as (ix' & Ht' & HQ & Hq). specialize (Hk a ix' HQ t' fs' Ht').
    destruct (k a t' fs') as [[[b|e|] t''] fs'']; [|naive_solver|done].
    destruct Hk as (ix'' & ? & ? & ?). eauto 10.
  - done.
  - done.
Qed.

Lemma tx_ok_mono {A} (p : tx A) ix (Q Q' : A -> Index -> Prop) (E : IndexError -> Prop) :
  tx_ok p ix Q E -> (forall a ix', Q a ix' -> Q' a ix') -> tx_ok p ix Q' E.
Proof.
  intros Hp HQ t fs Ht. specialize (Hp t fs Ht).
  destruct (p t fs) as [[[a|e|] t'] fs']; [|done..]. destruct Hp as (ix' & ? & ? & ?). eauto 10.
Qed.

Lemma tx_ok_call ix (Q : unit -> Index -> Prop) E : Q tt ix -> tx_ok (redb_call Transaction) ix Q E.
Proof.
  intros HQ t fs Ht. unfold redb_call. destruct fs as [|[|] fs].
  - eauto.
  - left. split; [done|]. intros H. apply H. left.
  - exists ix. split_and!; try done. intros H1 H2. apply H1. by right.
Qed.

(** A call, then the rest. *)
Lemma tx_ok_call_bind {A} (k : unit -> tx A) ix Q E :
  tx_ok (k tt) ix Q E -> tx_ok (redb_call Transaction ≫= k) ix Q E.
Proof.
  intros H. eapply (tx_ok_bind _ _ _ (fun _ ix' => ix' = ix)); [by apply tx_ok_call|].
  by intros [] ? ->.
Qed.

Lemma tx_ok_encode {V A} `{!RedbValue V, !Storable V} (v : V) (k : bytes -> tx A) ix Q E :
  typed_value v -> (forall b, as_bytes v = Ok b -> tx_ok (k b) ix Q E) ->
  tx_ok (of_res (as_bytes v) ≫= k) ix Q E.
Proof.
  intros Hv Hk t fs Ht. destruct (storable v Hv) as (b & Eb & _).
  unfold mbind, tx_bind, of_res. rewrite Eb. by apply Hk.
Qed.

Section Table.
Context {K V} `{!RedbValue K, !RedbValue V, Countable K, !Storable K, !Storable V}.
Context (T : TableDefinition) {sel : Index -> gmap K V} {upd} `{!TableFor T sel upd}.

Lemma tx_ok_get k ix (Q : option V -> Index -> Prop) E :
  typed_value k -> Q (sel ix !! k) ix -> tx_ok (get T k) ix Q E.
Proof.
  intros Hk HQ. unfold get. apply tx_ok_call_bind, tx_ok_encode; [done|]. intros kb Ekb t fs Ht.
  pose proof (table_repr_lookup _ _ k kb (table_for_get t ix Ht) Hk Ekb) as Hl.
  unfold mbind, tx_bind, table_view. cbn. destruct (td_get T t !! kb) as [b|]; cbn.
  - destruct Hl as (v & Hv & ->). cbn. rewrite Hv in HQ. eauto.
  - rewrite Hl in HQ. eauto.
Qed.

Lemma tx_ok_get_typed k ix (Q : option V -> Index -> Prop) E :
  typed_value k ->
  (forall o, sel ix !! k = o -> (forall v, o = Some v -> typed_value v) -> Q o ix) ->
  tx_ok (get T k) ix Q E.
Proof.
  intros Hk HQ t fs Ht. refine (tx_ok_get k ix Q E Hk _ t fs Ht). apply HQ; [done|].
  intros v Hv. by apply (proj1 (table_for_get t ix Ht) k).
Qed.

Lemma tx_ok_insert k v ix (Q : unit -> Index -> Prop) E :
  typed_value k -> typed_value v -> Q tt (upd (<[k := v]> (sel ix)) ix) -> tx_ok (insert T k v) ix Q E.
Proof.
  intros Hk Hv HQ. unfold insert. apply tx_ok_call_bind, tx_ok_encode; [done|]. intros kb Ekb.
  apply tx_ok_encode; [done|]. intros vb Evb t fs Ht. cbn.
  eexists. split; [|split; [exact HQ|done]].
  apply table_for_set; [done|]. apply table_repr_insert; try done. by apply table_for_get.
Qed.

Lemma tx_ok_remove k ix (Q : unit -> Index -> Prop) E :
  typed_value k -> Q tt (upd (delete k (sel ix)) ix) -> tx_ok (remove T k) ix Q E.
Proof.
  intros Hk HQ. unfold remove. apply tx_ok_call_bind, tx_ok_encode; [done|]. intros kb Ekb t fs Ht. cbn.
  eexists. split; [|split; [exact HQ|done]].
  apply table_for_set; [done|]. apply table_repr_delete; try done. by apply table_for_get.
Qed.

Lemma tx_ok_get_bind {A} k (f : option V -> tx A) ix Q E :
  typed_value k ->
  (forall o, sel ix !! k = o -> (forall v, o = Some v -> typed_value v) -> tx_ok (f o) ix Q E) ->
  tx_ok (get T k ≫= f) ix Q E.
Proof.
  intros Hk Hf t fs Ht.
  eapply (tx_ok_bind _ _ _ (fun o ix' => ix' = ix /\ o = sel ix !! k)); [by apply tx_ok_get| |done].
  intros o ix' [-> ->]. apply Hf; [done|]. intros v Hv.
  by apply (proj1 (table_for_get t ix Ht) k).
Qed.

Lemma tx_ok_insert_bind {A} k v (f : unit -> tx A) ix Q E :
  typed_value k -> typed_value v -> tx_ok (f tt) (upd (<[k := v]> (sel ix)) ix) Q E ->
  tx_ok (insert T k v ≫= f) ix Q E.
Proof.
  intros Hk Hv Hf. eapply (tx_ok_bind _ _ _ (fun _ ix' => ix' = _)); [by apply tx_ok_insert|].
  by intros [] ? ->.
Qed.

(** [get], then the value bound or a new binding. *)
Lemma tx_ok_or_insert k v o ix E :
  typed_value k -> typed_value v -> sel ix !! k = o ->
  tx_ok (match o with Some v => mret v | None => _ ← insert T k v; mret v end) ix
    (fun v' ix' => v' = default v o /\ ix' = upd (insert_new k v (sel ix)) ix) E.
Proof.
  intros Hk Hv Ho. unfold insert_new. rewrite Ho. destruct o as [w|]; cbn.
  - apply tx_ok_ret. by rewrite insert_id, table_for_id.
  - by apply tx_ok_insert_bind, tx_ok_ret.
Qed.
Lemma tx_ok_insert_new k v o ix E :
  typed_value k -> typed_value v -> sel ix !! k = o ->
  tx_ok (match o with None => insert T k v | Some _ => mret tt end) ix
    (fun _ ix' => ix' = upd (insert_new k v (sel ix)) ix) E.
Proof.
  intros Hk Hv Ho. unfold insert_new. rewrite Ho. destruct o as [w|]; cbn.
  - apply tx_ok_ret. by rewrite insert_id, table_for_id.
  - by apply tx_ok_insert.
Qed.
(** [get], then removal when the binding is the given one. *)
Lemma tx_ok_remove_owned `{!EqDecision V} k v o ix E :
  typed_value k -> sel ix !! k = o ->
  tx_ok (if bool_decide (o = Some v) then remove T k else mret tt) ix
    (fun _ ix' => ix' = upd (remove_owned k v (sel ix)) ix) E.
Proof.
  intros Hk Ho. unfold remove_owned. rewrite Ho. case_bool_decide.
  - by apply tx_ok_remove.
  - apply tx_ok_ret. by rewrite table_for_id.
Qed.

Lemma tx_ok_remove_bind {A} k (f : unit -> tx A) ix Q E :
  typed_value k -> tx_ok (f tt) (upd (delete k (sel ix)) ix) Q E ->
  tx_ok (remove T k ≫= f) ix Q E.
Proof.
  intros Hk Hf. eapply (tx_ok_bind _ _ _ (fun _ ix' => ix' = _)); [by apply tx_ok_remove|].
  by intros [] ? ->.
Qed.
End Table.

(** A failure leaves the database as it was. *)
Definition atomic {A} (p : tx A) : Prop :=
  forall t fs e t' fs', p t fs = (Err e, t', fs') -> t' = t.

Lemma tx_ok_write {A} (body : tx A) ix Q E :
  tx_ok body ix Q E -> tx_ok (write_transaction body) ix Q E.
Proof.
  intros Hb t fs Ht. unfold write_transaction.
  assert (tx_ok (begin_write body) ix Q E) as H.
  { do 2 apply tx_ok_call_bind. eapply tx_ok_bind; [exact Hb|]. intros a ix' HQ.
    by apply tx_ok_call_bind, tx_ok_ret. }
  specialize (H t fs Ht). by destruct (begin_write body t fs) as [[[a|e|] t'] fs'].
Qed.

Lemma atomic_write {A} (body : tx A) : atomic (write_transaction body).
Proof.
  intros t fs e t' fs'. unfold write_transaction.
  destruct (begin_write body t fs) as [[[a|e'|] t1] fs1]; congruence.
Qed.

Lemma atomic_ret {A} (a : A) : atomic (mret a : tx A).
Proof. intros t fs e t' fs' H. done. Qed.

Lemma atomic_then {A B} (p : tx A) (f : A -> B) :
  atomic p -> atomic (a ← p; mret (f a)).
Proof.
  intros Hp t fs e t' fs'. unfold mbind, tx_bind.
  destruct (p t fs) as [[[a|e'|] t1] fs1] eqn:Ep; [done| |done]. intros [= -> -> ->]. eauto.
Qed.

(** Reading first, then an operation on the result. *)
Lemma tx_ok_read_bind {A B} (body : tx A) (k : A -> tx B) ix Q Q' E :
  tx_ok body ix (fun a _ => Q a) E -> (forall a, Q a -> tx_ok (k a) ix Q' E) ->
  tx_ok (read_transaction body ≫= k) ix Q' E.
Proof.
  intros Hb Hk t fs Ht. apply (tx_ok_call_bind (fun _ => body)) in Hb. specialize (Hb t fs Ht).
  unfold read_transaction, mbind at 1, tx_bind at 1.
  change (redb_call Transaction ≫= (fun _ => body)) with (begin_read body) in Hb.
  destruct (begin_read body t fs) as [[[a|e|] t1] fs1]; [|done..].
  destruct Hb as (_ & _ & HQ & Hq). specialize (Hk a HQ t fs1 Ht).
  destruct (k a t fs1) as [[[b|e|] t'] fs']; naive_solver.
Qed.

Lemma atomic_read_bind {A B} (body : tx A) (k : A -> tx B) :
  (forall a, atomic (k a)) -> atomic (read_transaction body ≫= k).
Proof.
  intros Hk t fs e t' fs'. unfold read_transaction, mbind at 1, tx_bind at 1.
  destruct (begin_read body t fs) as [[[a|e'|] t1] fs1]; [apply Hk|congruence|done].
Qed.

(** ** The operations refine the abstract index *)

Lemma refines_get_or_create u d ix :
  typed_uuid u -> typed_value d ->
  tx_ok (link_ref_get_or_create u d) ix
    (fun r ix' => (r, ix') = spec_get_or_create u d ix) (fun _ => False).
Proof.
  intros Hu Hd. apply tx_ok_write. do 2 apply tx_ok_call_bind.
  apply (tx_ok_get_bind link_digests); [done|]. intros o Ho Ht.
  eapply tx_ok_bind; [by apply (tx_ok_or_insert link_digests)|]. cbn beta. intros id ix' [-> ->].
  assert (typed_value (default {| ai_namespace := nl_namespace d; ai_uuid := u |} o)) as Hid
    by (destruct o; [by apply Ht|done]).
  apply (tx_ok_get_bind link_refs); [done|]. intros o' Ho' Ht'. cbn zeta.
  eapply tx_ok_mono; [by apply (tx_ok_or_insert link_refs)|].
  intros r ix' [-> ->]. cbn in Ho'. subst. done.
Qed.

Lemma id_mismatch (a b : ArtifactId) :
  bool_decide (ai_namespace a <> ai_namespace b) || bool_decide (ai_uuid a <> ai_uuid b)
  = negb (bool_decide (a = b)).
Proof.
  destruct a, b; cbn. repeat case_bool_decide; naive_solver.
Qed.

Lemma file_mismatch p f :
  bool_decide (fr_uuid p <> fr_uuid f) || bool_decide (fr_namespace p <> fr_namespace f)
  = negb (bool_decide (id_of_file p = id_of_file f)).
Proof. rewrite orb_comm. exact (id_mismatch (id_of_file p) (id_of_file f)). Qed.

Lemma typed_id_of_link r : typed_value r -> typed_value (id_of_link r).
Proof. by intros [? ?]. Qed.
Lemma typed_id_of_file f : typed_value f -> typed_value (id_of_file f).
Proof. by intros [? ?]. Qed.
Lemma typed_key_of_link r : typed_value r -> typed_value (key_of_link r).
Proof. by intros [? ?]. Qed.
Lemma typed_key_of_file f : typed_value f -> typed_value (key_of_file f).
Proof. by intros [? ?]. Qed.
#[local] Hint Resolve typed_id_of_link typed_id_of_file typed_key_of_link typed_key_of_file : jyth.

(** Result and index are those of the abstract operation [s]. *)
Definition agrees {A} (s : res IndexError A * Index) (a : A) (ix : Index) : Prop := s = (Ok a, ix).
(** The error is the abstract operation's, which changes nothing. *)
Definition refused {A} (s : res IndexError A * Index) (ix : Index) (e : IndexError) : Prop :=
  s = (Err e, ix).

Lemma refines_upsert r f ix :
  typed_value r -> typed_value f ->
  tx_ok (upsert r f) ix (agrees (spec_upsert r f ix)) (refused (spec_upsert r f ix) ix).
Proof.
  intros Hr Hf. unfold upsert, spec_upsert. rewrite id_mismatch.
  case_bool_decide as Hid; cbn [negb]; [|by apply tx_ok_err].
  apply tx_ok_write. do 4 apply tx_ok_call_bind.
  apply (tx_ok_get_bind link_digests); [auto with jyth|]. intros o Ho Ht.
  eapply tx_ok_bind; [apply (tx_ok_or_insert link_digests); auto with jyth|]. cbn beta.
  intros id ix' [-> ->].
  assert (typed_value (default (id_of_link r) o)) as Hi by (destruct o; [by apply Ht|by apply typed_id_of_link]).
  apply (tx_ok_get_bind file_digests); [auto with jyth|]. intros o1 Ho1 _.
  eapply tx_ok_bind; [apply (tx_ok_insert_new file_digests); auto with jyth|]. cbn beta.
  intros _ ix' ->. apply (tx_ok_get_bind link_refs); [done|]. intros o2 Ho2 _.
  eapply tx_ok_bind; [by apply (tx_ok_insert_new link_refs)|]. cbn beta.
  intros _ ix' ->. apply (tx_ok_insert file_refs); [auto with jyth..|].
  by rewrite Ho.
Qed.

Lemma refines_update f ix :
  typed_value f ->
  tx_ok (update f) ix (agrees (spec_update f ix)) (refused (spec_update f ix) ix).
Proof.
  intros Hf. apply tx_ok_write. unfold spec_update. do 2 apply tx_ok_call_bind.
  apply (tx_ok_get_bind file_refs); [auto with jyth|]. intros [p|] Hp Ht; rewrite Hp.
  2: { by apply tx_ok_call_bind, tx_ok_err. }
  rewrite file_mismatch.
  case_bool_decide as Hid; cbn [negb]; [|by apply tx_ok_call_bind, tx_ok_err].
  specialize (Ht p eq_refl).
  eapply (tx_ok_bind _ _ _ (fun _ ix' => ix' =
    set_digests (if bool_decide (key_of_file p = key_of_file f) then ix_digests ix
                 else remove_owned (key_of_file p) (id_of_file f)
                        (insert_new (key_of_file f) (id_of_file f) (ix_digests ix))) ix)).
  - rewrite bool_decide_not. case_bool_decide; cbn [negb]; [apply tx_ok_ret; by destruct ix|].
    apply (tx_ok_get_bind file_digests); [auto with jyth|]. intros o Ho _.
    eapply tx_ok_bind; [apply (tx_ok_insert_new file_digests); auto with jyth|]. cbn beta.
    intros _ ix' ->. apply (tx_ok_get_bind file_digests); [auto with jyth|]. intros o' Ho' _.
    eapply tx_ok_mono; [apply (tx_ok_remove_owned file_digests); auto with jyth|].
    by intros _ ix' ->.
  - intros _ ix' ->. apply (tx_ok_insert_bind file_refs); [auto with jyth..|]. by apply tx_ok_ret.
Qed.

Lemma refines_invalidate f ix :
  typed_value f -> tx_ok (invalidate f) ix (fun _ ix' => ix' = spec_invalidate f ix) (fun _ => False).
Proof.
  intros Hf. apply tx_ok_write. do 2 apply tx_ok_call_bind.
  apply (tx_ok_remove_bind file_refs); [auto with jyth|].
  apply (tx_ok_get_bind file_digests); [auto with jyth|]. intros o Ho _.
  eapply tx_ok_mono; [apply (tx_ok_remove_owned file_digests); auto with jyth|].
  by intros _ ix' ->.
Qed.

Lemma refines_lookup blake3 probe r ix :
  typed_value r ->
  tx_ok (get_by_link_ref blake3 probe r) ix
    (fun o ix' => (o, ix') = spec_lookup (fun f => stored_file_validity blake3 (probe f) f) r ix)
    (fun _ => False).
Proof.
  intros Hr. unfold get_by_link_ref.
  eapply (tx_ok_read_bind _ _ _ (fun o => ix_files ix !! id_of_link r = o /\ forall f, o = Some f -> typed_value f)).
  { by apply tx_ok_call_bind, (tx_ok_get_typed file_refs); [auto with jyth|]. }
  unfold spec_lookup. intros [f|] [-> Ht]; [|by apply tx_ok_ret].
  destruct (stored_file_validity _ _ _); [by apply tx_ok_ret| |by apply tx_ok_ret].
  eapply tx_ok_bind; [by apply refines_invalidate, Ht|]. cbn beta. intros _ ix' ->. by apply tx_ok_ret.
Qed.

Lemma refines_blueprint_get d ix :
  typed_value d ->
  tx_ok (blueprint_get_by_link_digest d) ix
    (fun o ix' => (o, ix') = (spec_blueprint_get d ix, ix)) (fun _ => False).
Proof.
  intros Hd t fs Ht.
  assert (tx_ok (read_transaction (_ ← open_table; _ ← open_table;
    artifact_id ← get (V := ArtifactId) link_digests d;
    match artifact_id with None => mret None | Some artifact_id => get (V := Blueprint) blueprints artifact_id end)
    ≫= mret) ix (fun o ix' => (o, ix') = (spec_blueprint_get d ix, ix)) (fun _ => False)) as H.
  { eapply (tx_ok_read_bind _ _ _ (fun o => o = spec_blueprint_get d ix)).
    - do 2 apply tx_ok_call_bind. apply (tx_ok_get_bind link_digests); [done|].
      unfold spec_blueprint_get. intros [id|] -> Hid; cbn; [|by apply tx_ok_ret].
      apply (tx_ok_get blueprints); [by apply Hid|done].
    - intros o ->. by apply tx_ok_ret. }
  specialize (H t fs Ht). unfold blueprint_get_by_link_digest.
  unfold mbind at 1, tx_bind at 1 in H.
  destruct (read_transaction _ t fs) as [[[o|e|] t'] fs']; done.
Qed.

Lemma refines_blueprint_upsert b ix :
  typed_value b ->
  tx_ok (blueprint_upsert b) ix
    (fun b' ix' => (b', ix') = (b, spec_blueprint_upsert b ix)) (fun _ => False).
Proof.
  intros Hb. apply tx_ok_write, tx_ok_call_bind.
  apply (tx_ok_insert_bind blueprints); [apply Hb|done|]. by apply tx_ok_ret.
Qed.

Lemma atomic_upsert r f : atomic (upsert r f).
Proof.
  intros t fs e t' fs'. unfold upsert, of_res. unfold mbind at 1, tx_bind at 1.
  destruct (fail_if _ _) as [[]| |]; [apply atomic_write|congruence|done].
Qed.

Lemma atomic_lookup blake3 probe r : atomic (get_by_link_ref blake3 probe r).
Proof.
  apply atomic_read_bind. intros [f|]; [|apply atomic_ret].
  destruct (stored_file_validity _ _ _); try apply atomic_ret.
  apply (atomic_then _ (fun _ => None)), atomic_write.
Qed.

Lemma atomic_blueprint_get d : atomic (blueprint_get_by_link_digest d).
Proof.
  intros t fs e t' fs'. unfold blueprint_get_by_link_digest, read_transaction.
  destruct (begin_read _ t fs) as [[r t1] fs1]. congruence.
Qed.

Lemma atomic_op blake3 o : atomic (run_op blake3 o).
Proof.
  destruct o; apply (atomic_then _ _);
    first [apply atomic_upsert|apply atomic_lookup|apply atomic_blueprint_get|apply atomic_write].
Qed.

Lemma tx_ok_then {A B} (p : tx A) (f : A -> B) ix Q Q' (E E' : IndexError -> Prop) :
  tx_ok p ix Q E -> (forall a ix', Q a ix' -> Q' (f a) ix') -> (forall e, E e -> E' e) ->
  tx_ok (a ← p; mret (f a)) ix Q' E'.
Proof.
  intros Hp HQ HE t fs Ht. specialize (Hp t fs Ht). unfold mbind, tx_bind.
  destruct (p t fs) as [[[a|e|] t'] fs']; [|naive_solver|done].
  destruct Hp as (ix' & ? & ? & ?). cbn. eauto 10.
Qed.

Lemma refines_op blake3 o ix :
  typed_op o ->
  tx_ok (run_op blake3 o) ix (agrees (spec_op blake3 o ix)) (refused (spec_op blake3 o ix) ix).
Proof.
  unfold agrees, refused. destruct o; cbn [typed_op run_op spec_op]; intros Ht.
  - eapply tx_ok_then; [apply refines_get_or_create; apply Ht|by intros a ix' <-|done].
  - eapply tx_ok_then; [apply refines_upsert; apply Ht|..]; unfold agrees, refused, on_reply.
    + by intros [] ix' ->.
    + by intros e ->.
  - eapply tx_ok_then; [by apply refines_update|..]; unfold agrees, refused, on_reply.
    + by intros a ix' ->.
    + by intros e ->.
  - eapply tx_ok_then; [by apply refines_lookup|by intros a ix' <-|done].
  - eapply tx_ok_then; [by apply refines_blueprint_get|by intros a ix' [= -> ->]|done].
  - eapply tx_ok_then; [by apply refines_blueprint_upsert|by intros a ix' [= -> ->]|done].
Qed.
End Refinement.


(** ** Invariants of the index *)

#[global] Arguments insert_new : simpl never.
#[global] Arguments remove_owned : simpl never.

Section MapUpdates.
Context {K A} `{Countable K, EqDecision A}.
Implicit Types (m : gmap K A) (k : K) (a b : A).

Lemma lookup_insert_new m k a k' :
  insert_new k a m !! k' = if decide (k' = k) then Some (default a (m !! k)) else m !! k'.
Proof.
  unfold insert_new. case_decide; [subst; by rewrite lookup_insert_eq|by rewrite lookup_insert_ne].
Qed.
Lemma insert_new_bound m k a b : m !! k = Some b -> insert_new k a m = m.
Proof. intros E. unfold insert_new. rewrite E. by apply insert_id. Qed.
Lemma insert_new_unbound m k a : m !! k = None -> insert_new k a m = <[k := a]> m.
Proof. intros E. unfold insert_new. by rewrite E. Qed.
Lemma lookup_remove_owned m k a k' b :
  remove_owned k a m !! k' = Some b <-> m !! k' = Some b /\ ~ (k' = k /\ b = a).
Proof.
  unfold remove_owned. case_bool_decide as E.
  - rewrite lookup_delete_Some. split; [naive_solver|].
    intros [Hb Hn]. split; [|done]. intros ->. apply Hn. split; [done|congruence].
  - split; [|naive_solver]. intros Hb. split; [done|]. intros [-> ->]. done.
Qed.
End MapUpdates.

Section Invariant.
Context `{P : Platform} (blake3 : bytes -> bytes).

(** One use of the index by a client: a new identity is fresh, and a file is
    published under a link reference the index handed out.  A [strict] client
    does not publish over a record with other contents. *)
Inductive step (strict : bool) (ix : Index) : op -> Prop :=
  | step_get_or_create u d :
      ix_refs ix !! {| ai_namespace := nl_namespace d; ai_uuid := u |} = None ->
      step strict ix (GetOrCreate u d)
  | step_upsert r f :
      ix_refs ix !! id_of_link r = Some r ->
      (strict = true -> forall p, ix_files ix !! id_of_file f = Some p -> key_of_file p = key_of_file f) ->
      step strict ix (Upsert r f)
  | step_update f : step strict ix (Update f)
  | step_lookup probe r : step strict ix (Lookup probe r)
  | step_blueprint_get d : step strict ix (BlueprintGet d)
  | step_blueprint_upsert b : step strict ix (BlueprintUpsert b).

Record index_inv (ix : Index) : Prop := {
  inv_links d id :
    ix_links ix !! d = Some id <-> exists r, ix_refs ix !! id = Some r /\ key_of_link r = d;
  inv_refs id r : ix_refs ix !! id = Some r -> id_of_link r = id;
  inv_files id f : ix_files ix !! id = Some f -> id_of_file f = id /\ is_Some (ix_refs ix !! id);
  inv_digests k id : ix_digests ix !! k = Some id -> nf_namespace k = ai_namespace id;
  inv_blueprints id b : ix_blueprints ix !! id = Some b -> id_of_blueprint b = id }.
(** Every content key leads to a record with those contents. *)
Definition digests_exact (ix : Index) : Prop :=
  forall k id, ix_digests ix !! k = Some id -> exists f, ix_files ix !! id = Some f /\ key_of_file f = k.

Lemma index_inv_empty : index_inv empty_index.
Proof.
  split; cbn; intros *; rewrite ?lookup_empty; try done.
  split; [done|]. by intros (? & ? & _).
Qed.

Lemma get_or_create_known u d ix id :
  index_inv ix -> ix_links ix !! d = Some id ->
  exists r, spec_get_or_create u d ix = (r, ix) /\ ix_refs ix !! id = Some r /\ key_of_link r = d.
Proof.
  intros Hi Hl. pose proof Hl as (r & Hr & Hk)%(inv_links _ Hi). exists r. split; [|done].
  unfold spec_get_or_create. rewrite Hl. cbn. rewrite Hr. cbn.
  rewrite (insert_new_bound _ _ _ _ Hl), (insert_new_bound _ _ _ _ Hr). by destruct ix.
Qed.

Lemma get_or_create_new u d ix :
  let id := {| ai_namespace := nl_namespace d; ai_uuid := u |} in
  let r := {| lr_uuid := u; lr_namespace := nl_namespace d; lr_link_digest := nl_link_digest d |} in
  ix_links ix !! d = None -> ix_refs ix !! id = None ->
  spec_get_or_create u d ix = (r, set_refs (<[id := r]> (ix_refs ix)) (set_links (<[d := id]> (ix_links ix)) ix)).
Proof.
  intros id r Hl Hr. unfold spec_get_or_create. rewrite Hl. cbn. fold id. rewrite Hr. cbn.
  by rewrite insert_new_unbound, insert_new_unbound.
Qed.

Lemma upsert_known r f ix :
  index_inv ix -> ix_refs ix !! id_of_link r = Some r -> id_of_link r = id_of_file f ->
  spec_upsert r f ix
  = (Ok tt, set_files (<[id_of_file f := f]> (ix_files ix))
              (set_digests (insert_new (key_of_file f) (id_of_file f) (ix_digests ix)) ix)).
Proof.
  intros Hi Hr Hid. unfold spec_upsert. rewrite bool_decide_true by done.
  assert (ix_links ix !! key_of_link r = Some (id_of_link r)) as Hl by (apply (inv_links _ Hi); eauto).
  rewrite Hl. cbn. by rewrite (insert_new_bound _ _ _ _ Hl), (insert_new_bound _ _ _ _ Hr).
Qed.

Lemma inv_get_or_create u d ix :
  index_inv ix -> ix_refs ix !! {| ai_namespace := nl_namespace d; ai_uuid := u |} = None ->
  index_inv (spec_get_or_create u d ix).2.
Proof.
  intros Hi Hf. destruct (ix_links ix !! d) as [id|] eqn:Hl.
  { by destruct (get_or_create_known u d ix id Hi Hl) as (r & -> & _). }
  rewrite get_or_create_new by done. destruct Hi as [H1 H2 H3 H4 H5]. split; cbn.
  - intros d' id'. rewrite lookup_insert_Some, H1. setoid_rewrite lookup_insert_Some. split.
    + intros [[<- <-]|(Hd & r & Hr & Hk)]; [eexists; split; [by left|by destruct d]|].
      exists r. split; [right; split; [|done]; congruence|done].
    + intros (r & [[<- <-]|[Hne Hr]] & Hk); [left; by destruct d|].
      right. split; [|eauto]. intros <-. subst d. assert (ix_links ix !! key_of_link r = Some id') by (apply H1; eauto).
      congruence.
  - intros id' r'. rewrite lookup_insert_Some. intros [[<- <-]|[_ Hr]]; [done|auto].
  - intros id' f Hff. destruct (H3 id' f Hff) as [? [r Hr]]. split; [done|].
    apply lookup_insert_is_Some'. eauto.
  - done.
  - done.
Qed.

(** Changing only records and content keys keeps the rest of the invariant. *)
Lemma inv_set_files ix files digests :
  index_inv ix ->
  (forall id f, files !! id = Some f -> id_of_file f = id /\ is_Some (ix_refs ix !! id)) ->
  (forall k id, digests !! k = Some id -> nf_namespace k = ai_namespace id) ->
  index_inv (set_files files (set_digests digests ix)).
Proof. intros [H1 H2 H3 H4 H5] Hf Hd. by split. Qed.

Lemma ns_insert_new f ix k id :
  index_inv ix -> insert_new (key_of_file f) (id_of_file f) (ix_digests ix) !! k = Some id ->
  nf_namespace k = ai_namespace id.
Proof.
  intros Hi. rewrite lookup_insert_new. case_decide; [subst|by apply inv_digests].
  intros [= <-]. destruct (ix_digests ix !! _) eqn:E; [|done]. by apply (inv_digests _ Hi) in E.
Qed.

Lemma inv_upsert r f ix :
  index_inv ix -> ix_refs ix !! id_of_link r = Some r -> index_inv (spec_upsert r f ix).2.
Proof.
  intros Hi Hr. destruct (decide (id_of_link r = id_of_file f)) as [E|E].
  2: { unfold spec_upsert. by rewrite bool_decide_false. }
  rewrite upsert_known by done. apply inv_set_files; [done|..].
  - intros id g. rewrite lookup_insert_Some. intros [[<- <-]|[_ Hg]].
    + rewrite <-E. eauto.
    + by apply (inv_files _ Hi).
  - intros k id. by apply ns_insert_new.
Qed.

Lemma inv_update f ix : index_inv ix -> index_inv (spec_update f ix).2.
Proof.
  intros Hi. unfold spec_update. destruct (ix_files ix !! id_of_file f) as [p|] eqn:Hp; [|done].
  case_bool_decide; [|done]. apply inv_set_files; [done|..].
  - intros id g. rewrite lookup_insert_Some. intros [[<- <-]|[_ Hg]].
    + split; [done|]. by apply (inv_files _ Hi _ _ Hp).
    + by apply (inv_files _ Hi).
  - intros k id. case_bool_decide; [by apply inv_digests|].
    rewrite lookup_remove_owned. intros [Hk _]. by apply (ns_insert_new f ix).
Qed.

Lemma inv_invalidate f ix : index_inv ix -> index_inv (spec_invalidate f ix).
Proof.
  intros Hi. apply inv_set_files; [done|..].
  - intros id g [_ Hg]%lookup_delete_Some. by apply (inv_files _ Hi).
  - intros k id [Hk _]%lookup_remove_owned. by apply (inv_digests _ Hi).
Qed.

Lemma inv_blueprint_upsert b ix : index_inv ix -> index_inv (spec_blueprint_upsert b ix).
Proof.
  intros [H1 H2 H3 H4 H5]. split; try done. cbn. intros id b'.
  rewrite lookup_insert_Some. intros [[<- <-]|[_ Hb]]; auto.
Qed.

Lemma inv_step strict ix o : step strict ix o -> index_inv ix -> index_inv (spec_op blake3 o ix).2.
Proof.
  intros Hs Hi. destruct Hs as [u d Hf|r f Hr _|f|probe r|d|b]; cbn [spec_op].
  - pose proof (inv_get_or_create u d ix Hi Hf). by destruct (spec_get_or_create u d ix).
  - by apply inv_upsert.
  - by apply inv_update.
  - unfold spec_lookup. destruct (ix_files ix !! _) as [f|]; [|done].
    destruct (stored_file_validity _ _ _); [done|by apply inv_invalidate|done].
  - done.
  - by apply inv_blueprint_upsert.
Qed.

(** ** Content keys *)

Lemma exact_upsert r f ix :
  index_inv ix -> digests_exact ix -> ix_refs ix !! id_of_link r = Some r ->
  (forall p, ix_files ix !! id_of_file f = Some p -> key_of_file p = key_of_file f) ->
  digests_exact (spec_upsert r f ix).2.
Proof.
  intros Hi He Hr Hs. destruct (decide (id_of_link r = id_of_file f)) as [E|E].
  2: { unfold spec_upsert. by rewrite bool_decide_false. }
  rewrite upsert_known by done. intros k id. cbn. intros Hk.
  assert (ix_digests ix !! k = Some id \/ (k = key_of_file f /\ id = id_of_file f)) as [Hd|[-> ->]].
  { rewrite lookup_insert_new in Hk. case_decide; [|auto]. subst k. injection Hk as <-.
    destruct (ix_digests ix !! key_of_file f); auto. }
  - destruct (He k id Hd) as (g & Hg & Hgk). destruct (decide (id = id_of_file f)) as [->|Hne].
    + exists f. rewrite lookup_insert_eq. split; [done|]. rewrite <-Hgk. symmetry. auto.
    + exists g. by rewrite lookup_insert_ne.
  - exists f. by rewrite lookup_insert_eq.
Qed.

Lemma exact_update f ix : digests_exact ix -> digests_exact (spec_update f ix).2.
Proof.
  intros He. unfold spec_update. destruct (ix_files ix !! id_of_file f) as [p|] eqn:Hp; [|done].
  case_bool_decide as Hid; [|done]. intros k id. cbn. intros Hk.
  assert ((ix_digests ix !! k = Some id /\ (id = id_of_file f -> key_of_file f = key_of_file p))
          \/ (k = key_of_file f /\ id = id_of_file f)) as [[Hd Hsame]|[-> ->]].
  { case_bool_decide as Hkey; [by left|]. apply lookup_remove_owned in Hk as [Hk Hn].
    rewrite lookup_insert_new in Hk. case_decide.
    - subst k. injection Hk as <-. destruct (ix_digests ix !! key_of_file f) as [o|] eqn:Eo; [|auto].
      cbn in *. destruct (decide (o = id_of_file f)); [auto|]. left. done.
    - left. split; [done|]. intros ->. destruct (He _ _ Hk) as (g & Hg & <-).
      rewrite Hp in Hg. injection Hg as <-. by destruct Hn. }
  - destruct (He k id Hd) as (g & Hg & <-). destruct (decide (id = id_of_file f)) as [->|Hne].
    + exists f. rewrite lookup_insert_eq, Hsame by done. split; [done|congruence].
    + exists g. by rewrite lookup_insert_ne.
  - exists f. by rewrite lookup_insert_eq.
Qed.

Lemma exact_invalidate f ix :
  digests_exact ix -> ix_files ix !! id_of_file f = Some f -> digests_exact (spec_invalidate f ix).
Proof.
  intros He Hf k id. cbn. intros [Hk Hn]%lookup_remove_owned.
  destruct (He k id Hk) as (g & Hg & <-). exists g. rewrite lookup_delete_ne; [done|].
  intros <-. rewrite Hf in Hg. injection Hg as <-. by apply Hn.
Qed.

Lemma exact_step ix o :
  step true ix o -> index_inv ix -> digests_exact ix -> digests_exact (spec_op blake3 o ix).2.
Proof.
  intros Hs Hi He. destruct Hs as [u d Hf|r f Hr Hs|f|probe r|d|b]; cbn.
  - exact He.
  - by apply exact_upsert; [..|apply Hs].
  - by apply exact_update.
  - unfold spec_lookup. destruct (ix_files ix !! _) as [f|] eqn:Hf; [|done].
    destruct (stored_file_validity _ _ _); [done| |done]. apply exact_invalidate; [done|].
    by rewrite (proj1 (inv_files _ Hi _ _ Hf)).
  - done.
  - exact He.
Qed.
End Invariant.

(** ** Databases reached by running operations *)

Definition fresh_database : Tables := Build_Tables ∅ ∅ ∅ ∅ ∅ None.
Definition empty_tables : Tables := Build_Tables ∅ ∅ ∅ ∅ ∅ (Some SCHEMA_VERSION).

(** Opening a new database records the schema version. *)
Example open_fresh : IndexStore_open fresh_database [] = (Ok tt, empty_tables, []).
Proof. reflexivity. Qed.

(** Opening accepts exactly the databases of this version and the empty ones,
    and changes nothing else. *)
Definition has_records (t : Tables) : bool :=
  negb (bool_decide (LINK_DIGESTS t = ∅)) || negb (bool_decide (FILE_REFS t = ∅))
  || negb (bool_decide (FILE_DIGESTS t = ∅)) || negb (bool_decide (BLUEPRINTS t = ∅))
  || negb (bool_decide (LINK_REFS t = ∅)).
Lemma open_exact t :
  IndexStore_open t [] =
    match SCHEMA t with
    | Some version => (if version =? SCHEMA_VERSION then Ok tt else Err SchemaMismatch, t, [])
    | None => if has_records t then (Err SchemaMismatch, t, []) else (Ok tt, (put_schema t []).1.2, [])
    end.
Proof.
  destruct t as [ld fd fr lr bp [version|]];
    unfold IndexStore_open, open_body, or_else, table_len, mbind, tx_bind, mret, tx_ret, of_res; cbn.
  - by destruct (version =? SCHEMA_VERSION).
  - unfold has_records. cbn. repeat (case_bool_decide; cbn); reflexivity.
Qed.

Section Runs.
Context `{P : Platform, PL : !PlatformLaws} (blake3 : bytes -> bytes).

Lemma repr_empty : repr empty_tables empty_index.
Proof. unfold repr. cbn. auto using table_repr_empty. Qed.

(** Operations one after the other, with any failures; [allowed] restricts
    the operations by what the tables hold. *)
Inductive db_run (allowed : Tables -> op -> Prop) : Tables -> Tables -> Prop :=
  | db_run_refl t : db_run allowed t t
  | db_run_step t t1 o fs r t2 fs' :
      db_run allowed t t1 -> typed_op o -> allowed t1 o ->
      run_op blake3 o t1 fs = (r, t2, fs') -> db_run allowed t t2.

(** The clients of the index: see [step]. *)
Definition client (strict : bool) (t : Tables) (o : op) : Prop :=
  forall ix, repr t ix -> step strict ix o.

Lemma run_op_cases o ix t fs r t' fs' :
  repr t ix -> typed_op o -> run_op blake3 o t fs = (r, t', fs') ->
  (t' = t /\ repr t' ix /\ r = Err Transaction)
  \/ (repr t' (spec_op blake3 o ix).2 /\ r = (spec_op blake3 o ix).1).
Proof.
  intros Ht Ho E. pose proof (refines_op blake3 o ix Ho t fs Ht) as H.
  pose proof (atomic_op blake3 o t fs) as Ha. rewrite E in H.
  destruct r as [a|e|]; [| |done].
  - destruct H as (ix' & Ht' & -> & _). auto.
  - apply Ha in E as ->. destruct H as [[-> _]| ->]; auto.
Qed.

Lemma db_run_invariant allowed (I : Index -> Prop) t t' :
  (forall t ix o, repr t ix -> allowed t o -> I ix -> I (spec_op blake3 o ix).2) ->
  db_run allowed t t' -> (exists ix, repr t ix /\ I ix) -> exists ix, repr t' ix /\ I ix.
Proof.
  intros Hstep Hrun Hix. induction Hrun as [t|t t1 o fs r t2 fs' _ IH Ho Ha E]; [done|].
  destruct (IH Hix) as (ix & Ht & HI).
  destruct (run_op_cases o ix t1 fs r t2 fs' Ht Ho E) as [(_ & ? & _)|[? _]]; eauto.
Qed.


(** ** Cache hits *)

(** Reads that deliver the bytes [content] and then end of file. *)
Inductive delivers : list (io bytes) -> bytes -> Prop :=
  | delivers_end : delivers [] []
  | delivers_eof reads : delivers (IoOk [] :: reads) []
  | delivers_more c reads content :
      c <> [] -> delivers reads content -> delivers (IoOk c :: reads) (c ++ content).

(** The file is a regular file of the recorded size and contents. *)
Definition intact (probe : Probe) (f : FileRef) : Prop :=
  probe_metadata probe = IoOk (true, fd_file_size (fr_file_digest f))
  /\ probe_open probe = IoOk tt
  /\ exists content, delivers (probe_reads probe) content
     /\ blake3 content = file_hash (fr_file_digest f).

Lemma hash_reads_exact expected fed reads :
  hash_reads blake3 expected fed reads = Valid
  <-> exists content, delivers reads content /\ blake3 (fed ++ content) = expected.
Proof.
  revert fed. induction reads as [|[[|b c]| |] reads IH]; intros fed; cbn.
  - split.
    + case_bool_decide as E; [|done]. exists []. rewrite app_nil_r. auto using delivers.
    + intros (content & H & E). inversion H; subst. rewrite app_nil_r. by rewrite bool_decide_true.
  - split.
    + case_bool_decide as E; [|done]. exists []. rewrite app_nil_r. auto using delivers.
    + intros (content & H & E). inversion H; subst; [|done]. rewrite app_nil_r. by rewrite bool_decide_true.
  - rewrite IH. split.
    + intros (content & H & E). exists ((b :: c) ++ content). rewrite app_assoc.
      split; [by constructor|done].
    + intros (content & H & E). inversion H; subst. rewrite app_assoc. eauto.
  - split; [done|]. intros (content & H & _). inversion H.
  - split; [done|]. intros (content & H & _). inversion H.
Qed.

Lemma validity_exact probe f : stored_file_validity blake3 probe f = Valid <-> intact probe f.
Proof.
  unfold stored_file_validity, intact. destruct (probe_metadata probe) as [[is_file n]| |].
  2,3: split; [done|by intros [? _]].
  destruct is_file; cbn; [|split; [done|by intros [? _]]].
  destruct (Z.eqb_spec n (fd_file_size (fr_file_digest f))) as [->|Hn]; cbn.
  2: { split; [done|]. intros [[= ->] _]. done. }
  destruct (probe_open probe) as [[]| |]; [|split; [done|by intros (_ & ? & _)]..].
  rewrite hash_reads_exact. cbn. naive_solver.
Qed.

(** Operations that do not replace or invalidate the record of [id]. *)
Definition untouched (id : ArtifactId) (t : Tables) (o : op) : Prop :=
  match o with
  | Upsert _ g | Update g => id_of_file g <> id
  | Lookup probe _ => forall g, id_of_file g = id -> stored_file_validity blake3 (probe g) g <> Miss
  | _ => True
  end.

Definition files_keyed (ix : Index) : Prop :=
  forall id g, ix_files ix !! id = Some g -> id_of_file g = id.

Lemma files_keyed_step o ix : files_keyed ix -> files_keyed (spec_op blake3 o ix).2.
Proof.
  intros Hk. destruct o as [u d|r f|f|probe r|d|b]; cbn [spec_op].
  - exact Hk.
  - unfold spec_upsert. case_bool_decide; [|done]. intros id g. cbn.
    rewrite lookup_insert_Some. intros [[<- <-]|[_ Hg]]; [done|by apply Hk].
  - unfold spec_update. destruct (ix_files ix !! _); [|done]. case_bool_decide; [|done].
    intros id g. cbn. rewrite lookup_insert_Some. intros [[<- <-]|[_ Hg]]; [done|by apply Hk].
  - unfold spec_lookup. destruct (ix_files ix !! _); [|done].
    destruct (stored_file_validity _ _ _); [done| |done].
    intros id g. cbn. intros [_ Hg]%lookup_delete_Some. by apply Hk.
  - done.
  - exact Hk.
Qed.

Lemma untouched_step id f o t ix :
  untouched id t o -> files_keyed ix -> ix_files ix !! id = Some f ->
  ix_files (spec_op blake3 o ix).2 !! id = Some f.
Proof.
  intros Hu Hk Hf. destruct o as [u d|r g|g|probe r|d|b]; cbn [spec_op untouched] in *; try done.
  - unfold spec_upsert. case_bool_decide; [|done]. cbn. by rewrite lookup_insert_ne.
  - unfold spec_update. destruct (ix_files ix !! id_of_file g); [|done]. case_bool_decide; [|done].
    cbn. by rewrite lookup_insert_ne.
  - unfold spec_lookup. destruct (ix_files ix !! id_of_link r) as [g|] eqn:Hg; [|done].
    destruct (stored_file_validity _ _ _) eqn:Ev; [done| |done]. cbn.
    rewrite lookup_delete_ne; [done|]. intros <-. by apply (Hu g).
Qed.

(** Looking a record up writes only when its file is authoritatively stale. *)
Lemma lookup_reads_only probe r ix f t fs a t' fs' :
  repr t ix -> typed_value r -> ix_files ix !! id_of_link r = Some f ->
  stored_file_validity blake3 (probe f) f <> Miss ->
  run_op blake3 (Lookup probe r) t fs = (Ok a, t', fs') -> t' = t.
Proof.
  intros Ht Hr Hf Hv. cbn [run_op].
  assert (tx_ok (begin_read (_ ← open_table; get (V := FileRef) file_refs (id_of_link r))) ix
            (fun o _ => o = Some f) (fun _ => False)) as H.
  { do 2 apply tx_ok_call_bind. apply (tx_ok_get file_refs); [by apply typed_id_of_link|done]. }
  specialize (H t fs Ht). unfold get_by_link_ref, read_transaction, mbind, tx_bind.
  destruct (begin_read _ t fs) as [[[o|e|] t1] fs1]; [|done..].
  destruct H as (_ & _ & -> & _).
  destruct (stored_file_validity _ _ _); [by intros [= _ <- _]|done|by intros [= _ <- _]].
Qed.

Lemma lookup_quiet probe r ix f t :
  repr t ix -> typed_value r -> ix_files ix !! id_of_link r = Some f ->
  exists o t3 fs3, run_op blake3 (Lookup probe r) t [] = (Ok (R_Found o), t3, fs3)
    /\ (o = Some f <-> intact (probe f) f) /\ (o = None \/ o = Some f)
    /\ (stored_file_validity blake3 (probe f) f <> Miss -> t3 = t).
Proof.
  intros Ht Hr Hf. pose proof (refines_op blake3 (Lookup probe r) ix Hr t [] Ht) as H.
  destruct (run_op blake3 (Lookup probe r) t []) as [[a t3] fs3] eqn:El.
  cbn [spec_op] in H. unfold spec_lookup, agrees, refused in H. rewrite Hf in H.
  setoid_rewrite <-validity_exact.
  assert (exists o, a = Ok (R_Found o)
    /\ o = match stored_file_validity blake3 (probe f) f with Valid => Some f | _ => None end) as (o & -> & Ho).
  { destruct a as [a|e|]; [|exfalso|done].
    - destruct H as (ix' & _ & H & _).
      destruct (stored_file_validity _ _ _); injection H as <- _; eauto.
    - destruct H as [[_ H]|H]; [apply H, not_elem_of_nil|].
      by destruct (stored_file_validity _ _ _). }
  exists o, t3, fs3. subst o. split; [done|]. split_and!.
  - by destruct (stored_file_validity _ _ _).
  - destruct (stored_file_validity _ _ _); auto.
  - intros Hv. by eapply lookup_reads_only.
Qed.

(** a file published under its link is found through that link, whatever
    other operations and database failures came before and between, as long as
    nothing replaced or invalidated it: a lookup returns it exactly when the
    file on disk is a regular file of the recorded size and BLAKE3 hash, and a
    probe that fails for another reason than a stale file removes nothing. *)
Theorem published_file_found r f t fs t1 fs1 t2 probe :
  db_run (fun _ _ => True) empty_tables t -> typed_value r -> typed_value f ->
  run_op blake3 (Upsert r f) t fs = (Ok R_Unit, t1, fs1) ->
  db_run (untouched (id_of_file f)) t1 t2 ->
  exists o t3 fs3, run_op blake3 (Lookup probe r) t2 [] = (Ok (R_Found o), t3, fs3)
    /\ (o = Some f <-> intact (probe f) f) /\ (o = None \/ o = Some f)
    /\ (stored_file_validity blake3 (probe f) f <> Miss -> t3 = t2).
Proof.
  intros Hrun Hr Hf E Hrest.
  destruct (db_run_invariant _ files_keyed _ t (fun _ ix o _ _ => files_keyed_step o ix) Hrun) as (ix & Ht & Hk).
  { exists empty_index. split; [apply repr_empty|]. intros id g. cbn. by rewrite lookup_empty. }
  destruct (run_op_cases (Upsert r f) ix t fs _ t1 fs1 Ht (conj Hr Hf) E) as [(_ & _ & ?)|[Ht1 Hok]]; [done|].
  assert (id_of_link r = id_of_file f) as Hid.
  { cbn in Hok. unfold spec_upsert in Hok. by case_bool_decide. }
  destruct (db_run_invariant (untouched (id_of_file f)) (fun ix => files_keyed ix /\ ix_files ix !! id_of_file f = Some f)
    t1 t2) as (ix2 & Ht2 & Hk2 & Hf2); [|exact Hrest|..].
  { intros t' ix' o _ Hu [Hk' Hf']. split; [by apply files_keyed_step|by eapply untouched_step]. }
  { eexists. split; [exact Ht1|]. split; [by apply files_keyed_step|].
    cbn. unfold spec_upsert. rewrite bool_decide_true by done. cbn. apply lookup_insert_eq. }
  rewrite <-Hid in Hf2. by apply (lookup_quiet probe r ix2).
Qed.
End Runs.

(** ** Concrete runs, on Unix paths and with a constant hash *)

Definition toy_hash (_ : bytes) : bytes := zeroed 32.
Definition toy_key : NamespacedLinkDigest := {|
  nl_namespace := NS_Layers; nl_link_digest := {| link_hash := zeroed 32; ld_file_size := 7 |} |}.
Definition toy_ref : LinkRef := {|
  lr_uuid := zeroed 16; lr_namespace := NS_Layers;
  lr_link_digest := {| link_hash := zeroed 32; ld_file_size := 7 |} |}.
Definition toy_file (size : Z) : FileRef := {|
  fr_uuid := zeroed 16; fr_namespace := NS_Layers;
  fr_file_digest := {| file_hash := zeroed 32; fd_file_size := size |};
  artifact_type := ContainerCpio; artifact_compression := AC_None |}.
Definition toy_run (o : op (P := unix)) (t : Tables) : res IndexError reply * Tables * list bool :=
  run_op (P := unix) toy_hash o t [].
Definition toy_reserved : Tables := (toy_run (GetOrCreate (zeroed 16) toy_key) empty_tables).1.2.
Definition toy_published : Tables := (toy_run (Upsert toy_ref (toy_file 3)) toy_reserved).1.2.

(** Publishing other contents under the same identity leaves the old content
    key pointing at the new record. *)
Example stale_content_key :
  let t := (toy_run (Upsert toy_ref (toy_file 4)) toy_published).1.2 in
  (get (K := NamespacedFileDigest) (V := ArtifactId) file_digests (key_of_file (toy_file 3)) t []).1.1
    = Ok (Some (id_of_link toy_ref))
  /\ (get (K := ArtifactId) (V := FileRef) file_refs (id_of_link toy_ref) t []).1.1 = Ok (Some (toy_file 4)).
Proof. vm_compute. auto. Qed.


Lemma toy_unreserved ix :
  repr (P := unix) empty_tables ix -> ix_refs ix !! id_of_link toy_ref = None.
Proof.
  intros (_ & _ & _ & Hr & _).
  exact (table_repr_lookup _ _ (id_of_link toy_ref) (ArtifactId_wire (id_of_link toy_ref)) Hr eq_refl eq_refl).
Qed.

Lemma toy_reserved_ref ix :
  repr (P := unix) toy_reserved ix -> ix_refs ix !! id_of_link toy_ref = Some toy_ref.
Proof.
  intros (_ & _ & _ & Hr & _).
  pose proof (table_repr_lookup _ _ (id_of_link toy_ref) (ArtifactId_wire (id_of_link toy_ref))
    Hr eq_refl eq_refl) as H.
  assert (LINK_REFS toy_reserved !! ArtifactId_wire (id_of_link toy_ref) = Some (LinkRef_wire toy_ref)) as E
    by (vm_compute; reflexivity).
  rewrite E in H. destruct H as (v & -> & Hv). f_equal.
  assert (from_bytes (LinkRef_wire toy_ref) = Ok toy_ref) as D by (vm_compute; reflexivity).
  congruence.
Qed.

Lemma toy_no_file ix :
  repr (P := unix) toy_reserved ix -> ix_files ix !! id_of_link toy_ref = None.
Proof.
  intros (_ & _ & Hf & _).
  pose proof (table_repr_lookup _ _ (id_of_link toy_ref) (ArtifactId_wire (id_of_link toy_ref))
    Hf eq_refl eq_refl) as H.
  assert (FILE_REFS toy_reserved !! ArtifactId_wire (id_of_link toy_ref) = None) as E
    by (vm_compute; reflexivity).
  by rewrite E in H.
Qed.

Lemma toy_typed n : is_u128 n -> typed_op (P := unix) (Upsert toy_ref (toy_file n)).
Proof. intros Hn. split; (split; [reflexivity|]); (split; [reflexivity|]); [by vm_compute|done]. Qed.

Lemma toy_reserve_step allowed :
  allowed empty_tables (GetOrCreate (zeroed 16) toy_key) ->
  db_run (P := unix) toy_hash allowed empty_tables toy_reserved.
Proof.
  intros Ha.
  eapply (db_run_step _ _ _ _ (GetOrCreate (zeroed 16) toy_key) [] (Ok (R_LinkRef toy_ref)) _ []).
  - apply db_run_refl.
  - split; [reflexivity|]. split; [reflexivity|by vm_compute].
  - exact Ha.
  - vm_compute. reflexivity.
Qed.


(** The file is there, in two reads. *)
Definition toy_probe (_ : FileRef) : Probe := {|
  probe_metadata := IoOk (true, 3); probe_open := IoOk tt;
  probe_reads := [IoOk (str "a"); IoOk (str "bc")] |}.

Lemma published_file_found_witness :
  exists o t3 fs3, toy_run (Lookup toy_probe toy_ref) toy_published = (Ok (R_Found o), t3, fs3)
    /\ o = Some (toy_file 3).
Proof.
  destruct (published_file_found (P := unix) toy_hash toy_ref (toy_file 3) toy_reserved [] toy_published []
    toy_published toy_probe) as (o & t3 & fs3 & E & Hi & _).
  - by apply toy_reserve_step.
  - apply (toy_typed 3). by vm_compute.
  - apply (toy_typed 3). by vm_compute.
  - vm_compute. reflexivity.
  - apply db_run_refl.
  - exists o, t3, fs3. split; [exact E|]. apply Hi. split; [reflexivity|]. split; [reflexivity|].
    exists (str "abc"). split; [|reflexivity].
    apply (delivers_more (str "a") _ (str "bc")); [done|].
    apply (delivers_more (str "bc") _ []); [done|]. apply delivers_end.
Defined.
