(* ===== verification/Guid.v ===== *)
(** * Windows GUIDs and their text

    The identifiers of networks and endpoints in
    [libs/hypervisor-hcs/src/hns.rs]: [Guid], [format_endpoint_id_string],
    [parse_guid_string], [classify_journal_id].  The [uuid] crate is third
    party; of it the code relies on [as_fields] and on the hyphenated lower
    case form that [to_string] prints, which the class [UuidText] states. *)

From Stdlib Require Import ZArith Lia.
From stdpp Require Import base tactics option list numbers strings countable.
From S2P Require Import Prelude Bytes Text.

Record Guid : Type := { data1 : Z; data2 : Z; data3 : Z; data4 : list Z }.
#[global] Instance Guid_eq_dec : EqDecision Guid.
Proof. solve_decision. Defined.
#[global] Instance Guid_countable : Countable Guid.
Proof.
  refine (inj_countable' (fun g => (data1 g, data2 g, data3 g, data4 g))
            (fun '(a, b, c, d) => Build_Guid a b c d) _). by intros [].
Defined.

Definition typed_guid (g : Guid) : Prop :=
  is_u32 (data1 g) /\ is_u16 (data2 g) /\ is_u16 (data3 g)
  /\ length (data4 g) = 8%nat /\ Forall is_u8 (data4 g).

(** [{:0nx}]: [n] lower case hexadecimal digits, most significant first. *)
Definition hex_char (d : Z) : byte := z2b (if d <? 10 then 48 + d else 87 + d).
Fixpoint hex_lower (n : nat) (v : Z) : bytes :=
  match n with
  | O => []
  | S n => hex_char (Z.land (Z.shiftr v (4 * Z.of_nat n)) 15) :: hex_lower n v
  end.

Definition format_endpoint_id_string (g : Guid) : bytes :=
  let byte_at i := hex_lower 2 (default 0 (data4 g !! i)) in
  hex_lower 8 (data1 g) ++ str "-" ++ hex_lower 4 (data2 g) ++ str "-" ++ hex_lower 4 (data3 g)
  ++ str "-" ++ byte_at 0%nat ++ byte_at 1%nat
  ++ str "-" ++ byte_at 2%nat ++ byte_at 3%nat ++ byte_at 4%nat ++ byte_at 5%nat ++ byte_at 6%nat
  ++ byte_at 7%nat.

(** [char::to_digit(16)]. *)
Definition to_digit16 (b : byte) : option Z :=
  let v := b2z b in
  if (48 <=? v) && (v <=? 57) then Some (v - 48)
  else if (97 <=? v) && (v <=? 102) then Some (v - 87)
  else if (65 <=? v) && (v <=? 70) then Some (v - 55)
  else None.

(** [parse_hex_u32], [parse_hex_u16] and [parse_hex_u8]: [v << 4 | d] on a
    [w]-bit integer, the bits shifted out dropped. *)
Fixpoint parse_hex (w : Z) (v : Z) (b : bytes) : option Z :=
  match b with
  | [] => Some v
  | c :: b => d ← to_digit16 c; parse_hex w (Z.lor (Z.shiftl v 4 mod 2 ^ w) d) b
  end.

Definition sub_bytes (b : bytes) (lo hi : nat) : bytes := take (hi - lo) (drop lo b).

Definition parse_guid_string (s : bytes) : option Guid :=
  if negb (len s =? 36) then None else
  let dash i := bool_decide (s !! i = Some Byte.x2d) in
  if negb (dash 8%nat && dash 13%nat && dash 18%nat && dash 23%nat) then None else
  d1 ← parse_hex 32 0 (sub_bytes s 0 8);
  d2 ← parse_hex 16 0 (sub_bytes s 9 13);
  d3 ← parse_hex 16 0 (sub_bytes s 14 18);
  b0 ← parse_hex 8 0 (sub_bytes s 19 21);
  b1 ← parse_hex 8 0 (sub_bytes s 21 23);
  let last := sub_bytes s 24 36 in
  rest ← mapM (fun i => parse_hex 8 0 (sub_bytes last (i * 2) (i * 2 + 2))) (seq 0 6);
  Some {| data1 := d1; data2 := d2; data3 := d3; data4 := b0 :: b1 :: rest |}.

(** Strip a surrounding pair of braces, if both are there. *)
Definition unbraced (id : bytes) : bytes :=
  default id (strip_prefix (str "{") id ≫= strip_suffix (str "}")).

Inductive JournalId : Type := Exact (g : Guid) | Malformed.
Definition classify_journal_id (id : option bytes) : option JournalId :=
  (fun id => match parse_guid_string (unbraced id) with
             | Some g => Exact g
             | None => Malformed
             end) <$> id.

(** ** The [uuid] crate *)

Class UuidText := {
  Uuid : Type;
  as_fields : Uuid -> Guid;
  uuid_to_string : Uuid -> bytes }.
Class UuidLaws `{!UuidText} : Prop := {
  as_fields_typed u : typed_guid (as_fields u);
  as_fields_inj u v : as_fields u = as_fields v -> u = v;
  (** [to_string] is the hyphenated form in lower case. *)
  uuid_to_string_hyphenated u : uuid_to_string u = format_endpoint_id_string (as_fields u) }.

(** [Guid::from_uuid]. *)
Definition Guid_from_uuid `{UuidText} (u : Uuid) : Guid := as_fields u.

(** ** Parsing what was printed *)

Definition is_nibble (d : Z) : Prop := 0 <= d < 16.

Lemma to_digit16_hex_char d : is_nibble d -> to_digit16 (hex_char d) = Some d.
Proof.
  unfold is_nibble. intros Hd.
  assert (d = 0 \/ d = 1 \/ d = 2 \/ d = 3 \/ d = 4 \/ d = 5 \/ d = 6 \/ d = 7 \/ d = 8 \/ d = 9 \/ d = 10
          \/ d = 11 \/ d = 12 \/ d = 13 \/ d = 14 \/ d = 15) as Hin by lia.
  by decompose [or] Hin; subst.
Qed.

Lemma nibble_of v i : is_nibble (Z.land (Z.shiftr v i) 15).
Proof.
  unfold is_nibble. change 15 with (Z.ones 4). rewrite Z.land_ones by lia.
  apply Z.mod_pos_bound. lia.
Qed.

Lemma length_hex_lower n v : length (hex_lower n v) = n.
Proof. induction n as [|n IH]; cbn; [done|by rewrite IH]. Qed.

(** The digits of [v] above position [4 n], then its [n] low digits. *)
Lemma parse_hex_lower n v w k :
  0 <= v -> v < 2 ^ w -> Z.of_nat (n + k) * 4 <= w ->
  parse_hex w (Z.shiftr v (4 * Z.of_nat n) mod 2 ^ (4 * Z.of_nat k)) (hex_lower n v)
  = Some (v mod 2 ^ (4 * Z.of_nat (n + k))).
Proof.
  intros Hv Hw. revert k. induction n as [|n IH]; intros k Hk.
  - cbn [hex_lower parse_hex Nat.add]. by rewrite Z.mul_0_r, Z.shiftr_0_r.
  - cbn [hex_lower parse_hex]. rewrite to_digit16_hex_char by apply nibble_of. cbn [mbind option_bind].
    replace (Z.lor _ _) with (Z.shiftr v (4 * Z.of_nat n) mod 2 ^ (4 * Z.of_nat (S k))).
    { rewrite (IH (S k)) by lia. do 3 f_equal. lia. }
    apply Z.bits_inj'. intros i Hi.
    rewrite Z.lor_spec, Z.land_spec, Z.shiftr_spec by lia.
    change 15 with (Z.ones 4). rewrite Z.testbit_ones_nonneg by lia.
    destruct (decide (i < 4)).
    + rewrite Z.mod_pow2_bits_low by lia. rewrite Z.shiftr_spec by lia.
      rewrite (Z.mod_pow2_bits_low _ w) by lia. rewrite Z.shiftl_spec_low by lia.
      rewrite (proj2 (Z.ltb_lt i 4)) by lia. by rewrite orb_false_l, andb_true_r.
    + rewrite (proj2 (Z.ltb_ge i 4)) by lia. rewrite andb_false_r, orb_false_r.
      destruct (decide (i < 4 * Z.of_nat (S k))).
      * rewrite !Z.mod_pow2_bits_low by lia. rewrite Z.shiftl_spec, Z.shiftr_spec by lia.
        rewrite Z.mod_pow2_bits_low by lia. rewrite Z.shiftr_spec by lia. f_equal. lia.
      * rewrite Z.mod_pow2_bits_high by lia.
        destruct (decide (i < w)).
        -- rewrite Z.mod_pow2_bits_low by lia. rewrite Z.shiftl_spec by lia.
           rewrite Z.mod_pow2_bits_high; [done|lia].
        -- rewrite Z.mod_pow2_bits_high; [done|lia].
Qed.

Lemma parse_hex_printed n v w :
  in_u w v -> w = Z.of_nat n * 4 -> parse_hex w 0 (hex_lower n v) = Some v.
Proof.
  intros [Hv Hw] ->. pose proof (parse_hex_lower n v (Z.of_nat n * 4) 0 Hv Hw) as H.
  rewrite Z.mul_0_r, Z.pow_0_r, Z.mod_1_r in H. rewrite H by lia.
  rewrite Z.mod_small; [done|]. split; [done|]. replace (4 * Z.of_nat (n + 0)) with (Z.of_nat n * 4) by lia. done.
Qed.

#[local] Opaque hex_lower parse_hex.

Lemma parse_format_guid g : typed_guid g -> parse_guid_string (format_endpoint_id_string g) = Some g.
Proof.
  intros (H1 & H2 & H3 & Hl & H4). destruct g as [a b c d]. cbn in *.
  destruct d as [|d0 [|d1 [|d2 [|d3 [|d4 [|d5 [|d6 [|d7 [|? ?]]]]]]]]]; try discriminate Hl.
  rewrite !Forall_cons_iff in H4. destruct H4 as (? & ? & ? & ? & ? & ? & ? & ? & _).
  unfold parse_guid_string, format_endpoint_id_string. cbn [data1 data2 data3 data4 lookup list_lookup default].
  rewrite !len_app, !(len_length _ _ (length_hex_lower _ _)).
  assert (Hh : forall n v, exists l, hex_lower n v = l /\ length l = n /\ forall w, in_u w v -> w = Z.of_nat n * 4 -> parse_hex w 0 l = Some v).
  { intros n v. eexists. split; [done|]. split; [apply length_hex_lower|]. intros. by apply parse_hex_printed. }
  repeat match goal with
  | |- context [hex_lower ?n ?v] =>
      let l := fresh "l" in let E := fresh in let L := fresh "L" in let P := fresh "P" in
      destruct (Hh n v) as (l & E & L & P); rewrite E; clear E
  end.
  repeat match goal with
  | H : length ?l = S _ |- _ => is_var l; destruct l; [discriminate H|]; cbn in H; injection H as H
  | H : length ?l = O |- _ => apply nil_length_inv in H; subst l
  end.
  cbn -[in_u parse_hex Z.of_nat].
  rewrite (P 32) by done. cbn -[in_u parse_hex Z.of_nat].
  rewrite (P0 16) by done. cbn -[in_u parse_hex Z.of_nat].
  rewrite (P1 16) by done. cbn -[in_u parse_hex Z.of_nat].
  rewrite (P2 8) by done. cbn -[in_u parse_hex Z.of_nat].
  rewrite (P3 8) by done. cbn -[in_u parse_hex Z.of_nat].
  rewrite (P4 8), (P5 8), (P6 8), (P7 8), (P8 8), (P9 8) by done. done.
Qed.

(** ** Printing what was parsed *)

#[local] Transparent hex_lower parse_hex.

Lemma byte_cases (P : byte -> bool) :
  forallb (fun n => P (z2b (Z.of_nat n))) (seq 0 256) = true -> forall b, P b = true.
Proof.
  intros H b. rewrite forallb_forall in H. specialize (H (Z.to_nat (b2z b))).
  pose proof (b2z_range b). rewrite Z2Nat.id, z2b_b2z in H by lia. apply H, in_seq. lia.
Qed.

Lemma to_digit16_inv c d :
  to_digit16 c = Some d -> is_nibble d /\ to_ascii_lowercase c = hex_char d.
Proof.
  pose proof (byte_cases (fun c => match to_digit16 c with
    | Some d => (0 <=? d) && (d <? 16) && bool_decide (to_ascii_lowercase c = hex_char d)
    | None => true end) eq_refl c) as H. cbn beta in H.
  intros E. rewrite E in H. rewrite !andb_true_iff, bool_decide_eq_true in H.
  destruct H as [[??] ?]. unfold is_nibble. split; [lia|done].
Qed.

Lemma to_digit16_lower c : to_digit16 (to_ascii_lowercase c) = to_digit16 c.
Proof.
  pose proof (byte_cases (fun c => bool_decide (to_digit16 (to_ascii_lowercase c) = to_digit16 c)) eq_refl c) as H.
  by apply bool_decide_eq_true in H.
Qed.

Lemma lower_dash c : to_ascii_lowercase c = Byte.x2d <-> c = Byte.x2d.
Proof.
  pose proof (byte_cases (fun c => bool_decide (to_ascii_lowercase c = Byte.x2d <-> c = Byte.x2d)) eq_refl c) as H.
  by apply bool_decide_eq_true in H.
Qed.

Lemma parse_hex_case w v b : parse_hex w v (map to_ascii_lowercase b) = parse_hex w v b.
Proof.
  revert v. induction b as [|c b IH]; intros v; cbn; [done|]. rewrite to_digit16_lower.
  destruct (to_digit16 c); cbn; [apply IH|done].
Qed.

Lemma lor_nibble v d : is_nibble d -> Z.lor (v * 16) d = v * 16 + d.
Proof.
  intros Hd. assert (E : Z.land (v * 16) d = 0).
  { replace d with (Z.land (Z.ones 4) d) by (rewrite Z.land_comm, Z.land_ones, Z.mod_small; unfold is_nibble in Hd; lia).
    rewrite Z.land_assoc, Z.land_ones by lia. change (2 ^ 4) with 16. by rewrite Z.mod_mul by lia. }
  by rewrite <-Z.lxor_lor, Z.add_nocarry_lxor.
Qed.

Lemma parse_hex_inv w k b v v' :
  parse_hex w v b = Some v' -> 0 <= v < 2 ^ (4 * Z.of_nat k) ->
  Z.of_nat (k + length b) * 4 <= w ->
  0 <= v' < 2 ^ (4 * Z.of_nat (k + length b)) /\ Z.shiftr v' (4 * Z.of_nat (length b)) = v
  /\ hex_lower (length b) v' = map to_ascii_lowercase b.
Proof.
  revert k v. induction b as [|c b IH]; intros k v; cbn [parse_hex length map hex_lower].
  { intros [= ->] Hv Hw. rewrite Nat.add_0_r, Z.mul_0_r, Z.shiftr_0_r. auto. }
  intros H Hv Hw. destruct (to_digit16 c) as [d|] eqn:Ed; [|done]. cbn in H.
  apply to_digit16_inv in Ed as [Hd Hc].
  assert (E : Z.lor (Z.shiftl v 4 mod 2 ^ w) d = v * 16 + d).
  { rewrite Z.shiftl_mul_pow2 by lia. change (2 ^ 4) with 16. rewrite Z.mod_small.
    - by apply lor_nibble.
    - split; [lia|]. apply (Z.lt_le_trans _ (2 ^ (4 * Z.of_nat k + 4))).
      + rewrite Z.pow_add_r by lia. lia.
      + apply Z.pow_le_mono_r; lia. }
  rewrite E in H. destruct (IH (S k) _ H) as (Hr & Hs & Hx).
  { unfold is_nibble in Hd. replace (4 * Z.of_nat (S k)) with (4 * Z.of_nat k + 4) by lia.
    rewrite Z.pow_add_r by lia. lia. }
  { lia. }
  replace (k + S (length b))%nat with (S k + length b)%nat by lia. split; [done|].
  assert (Hdiv : Z.shiftr (v * 16 + d) 4 = v /\ Z.land (v * 16 + d) 15 = d).
  { change 15 with (Z.ones 4). rewrite Z.shiftr_div_pow2, Z.land_ones by lia.
    unfold is_nibble in Hd. change (2 ^ 4) with 16. split.
    - rewrite Z.div_add_l by lia. rewrite Z.div_small; lia.
    - rewrite Z.add_comm, Z.mod_add by lia. apply Z.mod_small. lia. }
  split.
  - replace (4 * Z.of_nat (S (length b))) with (4 * Z.of_nat (length b) + 4) by lia.
    rewrite <-Z.shiftr_shiftr by lia. rewrite Hs. apply Hdiv.
  - rewrite Hs, (proj2 Hdiv), Hx, Hc. done.
Qed.

Lemma parse_hex_exact n w b v :
  parse_hex w 0 b = Some v -> length b = n -> w = Z.of_nat n * 4 ->
  in_u w v /\ hex_lower n v = map to_ascii_lowercase b.
Proof.
  intros H <- ->. destruct (parse_hex_inv _ 0 _ _ _ H) as (Hr & _ & Hx); [cbn; lia|lia|].
  split; [|done]. unfold in_u. replace (Z.of_nat (length b) * 4) with (4 * Z.of_nat (0 + length b)) by lia. done.
Qed.

#[local] Opaque hex_lower parse_hex.

Lemma parse_guid_case s : parse_guid_string (map to_ascii_lowercase s) = parse_guid_string s.
Proof.
  unfold parse_guid_string. replace (len (map _ s)) with (len s) by (unfold len; by rewrite length_map).
  assert (Hd : forall i, bool_decide (map to_ascii_lowercase s !! i = Some Byte.x2d) = bool_decide (s !! i = Some Byte.x2d)).
  { intros i. apply bool_decide_ext. rewrite list_lookup_fmap. destruct (s !! i) as [c|]; cbn; [|done].
    split; intros [= E]; f_equal; by apply lower_dash. }
  assert (Hs : forall t lo hi, sub_bytes (map to_ascii_lowercase t) lo hi = map to_ascii_lowercase (sub_bytes t lo hi)).
  { intros t lo hi. unfold sub_bytes. by rewrite skipn_map, firstn_map. }
  rewrite !Hd. cbn [mapM seq]. rewrite !Hs, !parse_hex_case. done.
Qed.

Lemma parse_guid_inv s g :
  parse_guid_string s = Some g -> typed_guid g /\ format_endpoint_id_string g = map to_ascii_lowercase s.
Proof.
  unfold parse_guid_string. destruct (len s =? 36) eqn:E; cbn [negb]; [|done].
  apply Z.eqb_eq in E. unfold len in E. assert (length s = 36%nat) as L by lia. clear E.
  do 36 (destruct s as [|? s]; [discriminate L|]; cbn in L; injection L as L).
  apply nil_length_inv in L as ->. cbn -[parse_hex bool_decide].
  repeat case_bool_decide; cbn -[parse_hex]; try discriminate; simplify_eq.
  repeat match goal with
  | |- context [parse_hex ?w 0 ?b] =>
      let v := fresh "v" in let E := fresh "E" in
      destruct (parse_hex w 0 b) as [v|] eqn:E; cbn -[parse_hex]; [|discriminate];
      apply (parse_hex_exact (length b)) in E as [? E]; [|done..]; cbn [length map] in E
  end.
  intros [= <-]. split.
  - unfold typed_guid. cbn [data1 data2 data3 data4 length]. repeat (split; [done|]). by repeat (constructor; [done|]).
  - unfold format_endpoint_id_string. cbn -[hex_lower to_ascii_lowercase str app].
    by rewrite E, E0, E1, E2, E3, E4, E5, E6, E7, E8, E9.
Qed.

#[local] Transparent hex_lower.
Lemma unbraced_printed g : unbraced (format_endpoint_id_string g) = format_endpoint_id_string g.
Proof.
  unfold unbraced. destruct (strip_prefix _ _) as [t|] eqn:E; [|done].
  apply strip_prefix_Some in E. unfold format_endpoint_id_string in E at 1. cbn [hex_lower app] in E.
  injection E as E _. exfalso.
  pose proof (to_digit16_hex_char _ (nibble_of (data1 g) (4 * Z.of_nat 7))) as H. by rewrite E in H.
Qed.

Lemma unbraced_braced s : unbraced (str "{" ++ s ++ str "}") = s.
Proof.
  unfold unbraced. rewrite (proj2 (strip_prefix_Some _ _ (s ++ str "}"))) by done. cbn [mbind option_bind].
  unfold strip_suffix. rewrite reverse_app, (proj2 (strip_prefix_Some _ _ (reverse s))) by done.
  cbn. by rewrite reverse_involutive.
Qed.

Lemma classify_printed g :
  typed_guid g -> classify_journal_id (Some (format_endpoint_id_string g)) = Some (Exact g).
Proof.
  intros Hg. unfold classify_journal_id. cbn [fmap option_fmap option_map].
  by rewrite unbraced_printed, parse_format_guid.
Qed.

(** GUID text is exact.  A string parses to a GUID iff, up to letter case,
    it is the hyphenated text printed for that GUID (36 characters, all fields
    in range): parsing and printing are inverse, and an identifier written to
    the journal is classified as exactly that GUID, with or without braces. *)
Theorem guid_text_exact s g :
  (parse_guid_string s = Some g <->
     typed_guid g /\ map to_ascii_lowercase s = format_endpoint_id_string g)
  /\ (typed_guid g ->
      classify_journal_id (Some (format_endpoint_id_string g)) = Some (Exact g)
      /\ classify_journal_id (Some (str "{" ++ format_endpoint_id_string g ++ str "}")) = Some (Exact g)).
Proof.
  split.
  - split.
    + intros H. apply parse_guid_inv in H as [? ?]. auto.
    + intros [Hg E]. rewrite <-parse_guid_case, E. by apply parse_format_guid.
  - intros Hg. split; [by apply classify_printed|]. unfold classify_journal_id. cbn [fmap option_fmap option_map].
    by rewrite unbraced_braced, parse_format_guid.
Qed.

(** ** Consequences for identifiers *)

Lemma format_guid_inj g h :
  typed_guid g -> typed_guid h -> format_endpoint_id_string g = format_endpoint_id_string h -> g = h.
Proof.
  intros Hg Hh E. apply parse_format_guid in Hg, Hh. rewrite E in Hg. congruence.
Qed.

Lemma hex_lower_no_x n v : Byte.x78 ∉ hex_lower n v.
Proof.
  induction n as [|n IH]; cbn [hex_lower]; [apply not_elem_of_nil|].
  rewrite elem_of_cons. intros [E|]; [|done].
  pose proof (to_digit16_hex_char _ (nibble_of v (4 * Z.of_nat n))) as H. by rewrite <-E in H.
Qed.

Lemma format_guid_no_x g : Byte.x78 ∉ format_endpoint_id_string g.
Proof.
  assert (H : Byte.x78 ∉ str "-") by (change (str "-") with [Byte.x2d]; by intros ?%list_elem_of_singleton).
  unfold format_endpoint_id_string. cbv zeta. rewrite !not_elem_of_app.
  repeat split; auto using hex_lower_no_x.
Qed.

Section UuidLemmas.
Context `{UuidLaws}.

Lemma uuid_to_string_inj u v : uuid_to_string u = uuid_to_string v -> u = v.
Proof.
  rewrite !uuid_to_string_hyphenated. intros E. apply as_fields_inj.
  apply format_guid_inj; auto using as_fields_typed.
Qed.

Lemma uuid_to_string_no_x u : Byte.x78 ∉ uuid_to_string u.
Proof. rewrite uuid_to_string_hyphenated. apply format_guid_no_x. Qed.

Lemma classify_uuid u : classify_journal_id (Some (uuid_to_string u)) = Some (Exact (as_fields u)).
Proof.
  rewrite uuid_to_string_hyphenated. apply classify_printed, as_fields_typed.
Qed.
End UuidLemmas.
