(* ===== verification/Newc.v ===== *)
(** * The [newc] reader

    The [cpio] crate reads and writes archives for [libs/boot-image].  What the
    sources use of it is the class [NewcCrate]: the next entry of a stream and
    the bytes of one entry; its laws are that the reader consumes exactly one
    entry and that what was written is read back.  The instance [newc_format]
    is the documented format, with the record layout of [Cpio]. *)

From Stdlib Require Import ZArith Lia Ascii.
From stdpp Require Import base tactics option list numbers strings.
From S2P Require Import Prelude Bytes Text Cpio Guid.

Record NewcView := {
  nv_name : bytes; nv_mode : Z; nv_uid : Z; nv_gid : Z; nv_mtime : Z; nv_nlink : Z; nv_dev_major : Z; nv_dev_minor : Z;
  nv_ino : Z; nv_rdev_major : Z; nv_rdev_minor : Z; nv_body : bytes }.
Definition is_trailer (v : NewcView) : bool := bool_decide (nv_name v = TRAILER_NAME).

Class NewcCrate := {
  newc_next : bytes -> option (NewcView * bytes);
  newc_write : NewcView -> bytes;
}.

(** A reader that consumes a prefix and depends on nothing else. *)
Definition streaming {A} (p : bytes -> option (A * bytes)) : Prop :=
  forall b v tail, p b = Some (v, tail) -> exists r, b = r ++ tail /\ forall t, p (r ++ t) = Some (v, t).

Definition field32 (z : Z) : Prop := 0 <= z < 2 ^ 32.
Definition typed_view (v : NewcView) : Prop :=
  Forall field32 [nv_mode v; nv_uid v; nv_gid v; nv_mtime v; nv_nlink v; nv_dev_major v; nv_dev_minor v; nv_ino v;
                  nv_rdev_major v; nv_rdev_minor v; len (nv_name v) + 1; len (nv_body v)]
  /\ Byte.x00 ∉ nv_name v /\ utf8_valid (nv_name v) = true.

Class NewcLaws `{N : NewcCrate} : Prop := {
  next_streaming : streaming newc_next;
  next_consumes b v tail : newc_next b = Some (v, tail) -> (length tail < length b)%nat;
  next_written v rest : typed_view v -> newc_next (newc_write v ++ rest) = Some (v, rest);
}.

(** ** The format *)

Definition parser (A : Type) : Type := bytes -> option (A * bytes).
Definition p_bind {A B} (p : parser A) (k : A -> parser B) : parser B :=
  fun b => match p b with Some (a, b) => k a b | None => None end.
Definition p_ret {A} (a : A) : parser A := fun b => Some (a, b).
Definition p_take (n : Z) : parser bytes :=
  fun b => if len b <? n then None else Some (take (Z.to_nat n) b, drop (Z.to_nat n) b).
Definition p_check (c : bool) : parser unit := fun b => if c then Some (tt, b) else None.
Definition p_hex : parser Z :=
  p_bind (p_take 8) (fun digits b => match parse_hex 32 0 digits with Some v => Some (v, b) | None => None end).
Definition pad_len (n : Z) : Z := len (pad_bytes n).

(** Trailing NULs are dropped; there must be one. *)
Fixpoint trim_nuls (s : bytes) : bytes :=
  match s with
  | [] => []
  | b :: s => let t := trim_nuls s in if is_empty t && bool_decide (b = Byte.x00) then [] else b :: t
  end.
Definition ends_in_nul (s : bytes) : bool := match last s with Some b => bool_decide (b = Byte.x00) | None => false end.

Definition parse_entry : parser NewcView :=
  p_bind (p_take 6) (fun magic =>
  p_bind (p_check (bool_decide (magic = MAGIC_NEWC))) (fun _ =>
  p_bind p_hex (fun ino => p_bind p_hex (fun mode => p_bind p_hex (fun uid => p_bind p_hex (fun gid =>
  p_bind p_hex (fun nlink => p_bind p_hex (fun mtime => p_bind p_hex (fun size => p_bind p_hex (fun dev_major =>
  p_bind p_hex (fun dev_minor => p_bind p_hex (fun rdev_major => p_bind p_hex (fun rdev_minor =>
  p_bind p_hex (fun name_len => p_bind p_hex (fun _ =>
  p_bind (p_take name_len) (fun name =>
  p_bind (p_check (ends_in_nul name)) (fun _ =>
  p_bind (p_check (utf8_valid (trim_nuls name))) (fun _ =>
  p_bind (p_take (pad_len (HEADER_LEN + name_len))) (fun _ =>
  p_bind (p_take size) (fun body =>
  p_bind (p_take (pad_len size)) (fun _ =>
  p_ret {| nv_name := trim_nuls name; nv_mode := mode; nv_uid := uid; nv_gid := gid; nv_mtime := mtime; nv_nlink := nlink;
           nv_dev_major := dev_major; nv_dev_minor := dev_minor; nv_ino := ino; nv_rdev_major := rdev_major;
           nv_rdev_minor := rdev_minor; nv_body := body |}))))))))))))))))))))).

Definition record_of_view (v : NewcView) : Record_ := {|
  rec_name := nv_name v; rec_mode := nv_mode v; rec_uid := nv_uid v; rec_gid := nv_gid v; rec_mtime := nv_mtime v;
  rec_nlink := nv_nlink v; rec_dev_major := nv_dev_major v; rec_dev_minor := nv_dev_minor v; rec_ino := nv_ino v;
  rec_rdev_major := nv_rdev_major v; rec_rdev_minor := nv_rdev_minor v; rec_body := Body_Empty |}.
Definition view_bytes (v : NewcView) : bytes :=
  encode_header (record_of_view v) (len (nv_body v)) (len (nv_name v) + 1) ++ nv_body v ++ pad_bytes (len (nv_body v)).

#[global] Instance newc_format : NewcCrate := {| newc_next := parse_entry; newc_write := view_bytes |}.

(** ** Its laws *)

Lemma streaming_ret {A} (a : A) : streaming (p_ret a).
Proof. intros b v tail [= -> ->]. by exists []. Qed.
Lemma streaming_check c : streaming (p_check c).
Proof. intros b v tail H. unfold p_check in *. destruct c; [|done]. injection H as <- <-. by exists []. Qed.
Lemma streaming_take n : streaming (p_take n).
Proof.
  intros b v tail H. unfold p_take in *. destruct (Z.ltb_spec (len b) n) as [|Hn]; [done|]. injection H as <- <-.
  exists (take (Z.to_nat n) b). rewrite take_drop. split; [done|]. intros t.
  assert (length (take (Z.to_nat n) b) = Z.to_nat n) as Hl by (rewrite length_take; unfold len in Hn; lia).
  destruct (Z.ltb_spec (len (take (Z.to_nat n) b ++ t)) n) as [Hbad|_].
  { unfold len in Hbad. rewrite length_app in Hbad. lia. }
  rewrite take_app_length', drop_app_length' by done. done.
Qed.
Lemma streaming_bind {A B} (p : parser A) (k : A -> parser B) : streaming p -> (forall a, streaming (k a)) -> streaming (p_bind p k).
Proof.
  intros Hp Hk b v tail H. unfold p_bind in *. destruct (p b) as [[a b']|] eqn:E; [|done].
  apply Hp in E as (r1 & -> & H1). apply Hk in H as (r2 & -> & H2). exists (r1 ++ r2). split; [by rewrite app_assoc|].
  intros t. rewrite <-app_assoc, H1. apply H2.
Qed.
Lemma streaming_hex : streaming p_hex.
Proof.
  apply streaming_bind; [apply streaming_take|]. intros digits b v tail H. destruct (parse_hex 32 0 digits); [|done].
  injection H as -> ->. by exists [].
Qed.

Ltac stream := repeat first [apply streaming_ret|apply streaming_bind; [first [apply streaming_hex|apply streaming_check|apply streaming_take]|intros ?]].
Lemma parse_entry_streaming : streaming parse_entry.
Proof. unfold parse_entry. stream. Qed.

Lemma p_take_app x y n : len x = n -> p_take n (x ++ y) = Some (x, y).
Proof.
  intros <-. unfold p_take. rewrite len_app. pose proof (len_nonneg y). rewrite (proj2 (Z.ltb_ge _ _)) by lia.
  unfold len. rewrite Nat2Z.id, take_app_length, drop_app_length. done.
Qed.
Lemma p_hex_app v rest : field32 v -> p_hex (hex8 v ++ rest) = Some (v, rest).
Proof.
  intros Hv. unfold p_hex, p_bind. rewrite p_take_app by done. change (hex8 v) with (hex_lower 8 v).
  by rewrite parse_hex_printed.
Qed.

Lemma trim_nuls_name name : Byte.x00 ∉ name -> trim_nuls (name ++ [z2b 0]) = name.
Proof.
  induction name as [|b name IH]; intros Hn; cbn [app trim_nuls]; [done|]. apply not_elem_of_cons in Hn as [Hb Hn].
  rewrite IH by done. rewrite (bool_decide_eq_false_2 (b = Byte.x00)) by done. by rewrite andb_false_r.
Qed.

Lemma parse_entry_written v rest : typed_view v -> parse_entry (view_bytes v ++ rest) = Some (v, rest).
Proof.
  intros (Hf & Hn & Hu). rewrite !Forall_cons in Hf. destruct Hf as (F1 & F2 & F3 & F4 & F5 & F6 & F7 & F8 & F9 & F10 & F11 & F12 & _).
  unfold view_bytes, encode_header. rewrite (Z.mod_small (len (nv_name v) + 1)) by done. rewrite <-!app_assoc.
  unfold parse_entry. unfold p_bind at 1. rewrite p_take_app by done. unfold p_bind at 1, p_check at 1.
  rewrite bool_decide_eq_true_2 by done.
  repeat (unfold p_bind at 1; rewrite p_hex_app by (done || unfold field32; lia); cbn [record_of_view rec_ino rec_mode rec_uid rec_gid rec_nlink rec_mtime rec_dev_major rec_dev_minor rec_rdev_major rec_rdev_minor rec_name]).
  rewrite (app_assoc (nv_name v) [z2b 0]). unfold p_bind at 1. rewrite p_take_app by (rewrite len_app; done).
  unfold p_bind at 1, p_check at 1. unfold ends_in_nul. rewrite last_snoc, bool_decide_eq_true_2 by done.
  unfold p_bind at 1, p_check at 1. rewrite trim_nuls_name, Hu by done.
  unfold p_bind at 1. rewrite p_take_app by done. unfold p_bind at 1. rewrite p_take_app by done.
  unfold p_bind at 1. rewrite p_take_app by done. unfold p_ret. by destruct v.
Qed.

Lemma streaming_shorter {A} (k : bytes -> parser A) n b v tail :
  0 < n -> (forall x, streaming (k x)) -> p_bind (p_take n) k b = Some (v, tail) -> (length tail < length b)%nat.
Proof.
  intros Hn Hk H. unfold p_bind, p_take in H. destruct (Z.ltb_spec (len b) n) as [|Hb]; [done|].
  apply Hk in H as (r & E & _). apply (f_equal length) in E. rewrite length_drop, length_app in E. unfold len in Hb. lia.
Qed.

#[global] Instance newc_format_laws : NewcLaws (N:=newc_format).
Proof.
  split; [apply parse_entry_streaming| |apply parse_entry_written].
  intros b v tail H. eapply (streaming_shorter _ 6); [lia| |exact H].
  intros magic. stream.
Qed.
