(* ===== verification/IpAddr.v ===== *)
(** * Internet addresses in text

    The parser of [std::net] that [vm-model/src/network.rs] and its callers
    use: [Ipv4Addr::from_str] and [IpAddr::from_str], with the printer of
    [Ipv4Addr].  A parser takes the remaining input and returns a value with
    what it left; a parser that fails consumes nothing
    ([Parser::read_atomically]). *)

From Stdlib Require Import ZArith Lia.
From stdpp Require Import base tactics option list numbers strings.
From S2P Require Import Prelude Bytes Text Guid.

Definition c_zero : byte := Byte.x30.
Definition c_dot : byte := Byte.x2e.
Definition c_colon : byte := Byte.x3a.

Definition parser (A : Type) : Type := bytes -> option (A * bytes).

(** [char::to_digit]. *)
Definition to_digit (radix : Z) (b : byte) : option Z :=
  d ← to_digit16 b; if d <? radix then Some d else None.

(** The digit loop of [Parser::read_number]: value, number of digits, rest. *)
Fixpoint read_digits (radix max_digits result digit_count : Z) (s : bytes) : option (Z * Z * bytes) :=
  match s with
  | c :: t =>
    match to_digit radix c with
    | Some digit =>
      if max_digits <? digit_count + 1 then None
      else read_digits radix max_digits (result * radix + digit) (digit_count + 1) t
    | None => Some (result, digit_count, s)
    end
  | [] => Some (result, digit_count, [])
  end.

(** [Parser::read_number] for an unsigned integer of [w] bits. *)
Definition read_number (w radix max_digits : Z) (allow_zero_prefix : bool) : parser Z := fun s =>
  let has_leading_zero := bool_decide (head s = Some c_zero) in
  '(result, digit_count, rest) ← read_digits radix max_digits 0 0 s;
  if digit_count =? 0 then None
  else if negb allow_zero_prefix && has_leading_zero && (1 <? digit_count) then None
  else if result <? 2 ^ w then Some (result, rest) else None.

(** [Parser::read_separator]: the separator precedes all but the first. *)
Definition read_separator {A} (sep : byte) (first : bool) (inner : parser A) : parser A := fun s =>
  if first then inner s
  else match s with
       | c :: t => if bool_decide (c = sep) then inner t else None
       | [] => None
       end.

(** An [Ipv4Addr] is its four octets. *)
Definition read_ipv4_addr : parser bytes := fun s =>
  let octet first := read_separator c_dot first (read_number 8 10 3 false) in
  '(a, s) ← octet true s;
  '(b, s) ← octet false s;
  '(c, s) ← octet false s;
  '(d, s) ← octet false s;
  Some (map z2b [a; b; c; d], s).

(** [read_groups]: at most [limit] groups of a textual IPv6 address, the last
    two possibly as an IPv4 address, which the flag reports. *)
Fixpoint read_groups (limit : nat) (first : bool) (s : bytes) : list Z * bool * bytes :=
  match limit with
  | O => ([], false, s)
  | S limit =>
    match (match limit with
           | O => None
           | S _ => read_separator c_colon first read_ipv4_addr s
           end) with
    | Some (v4, s) => ([be_val (take 2 v4); be_val (drop 2 v4)], true, s)
    | None =>
      match read_separator c_colon first (read_number 16 16 4 true) s with
      | Some (g, s) => let '(gs, ipv4, s) := read_groups limit false s in (g :: gs, ipv4, s)
      | None => ([], false, s)
      end
    end
  end.

Definition read_given_char (c : byte) : parser unit := fun s =>
  match s with b :: t => if bool_decide (b = c) then Some (tt, t) else None | [] => None end.

(** An [Ipv6Addr] is its eight segments. *)
Definition read_ipv6_addr : parser (list Z) := fun s =>
  let '(head, head_ipv4, s) := read_groups 8 true s in
  if (length head =? 8)%nat then Some (head, s)
  else if head_ipv4 then None
  else
    '(_, s) ← read_given_char c_colon s;
    '(_, s) ← read_given_char c_colon s;
    let '(tail, _, s) := read_groups (8 - (length head + 1)) true s in
    Some (head ++ replicate (8 - length head - length tail) 0 ++ tail, s).

Inductive IpAddr : Type := V4 (octets : bytes) | V6 (segments : list Z).

Definition read_ip_addr : parser IpAddr := fun s =>
  match read_ipv4_addr s with
  | Some (a, s) => Some (V4 a, s)
  | None => '(a, s) ← read_ipv6_addr s; Some (V6 a, s)
  end.

(** [Parser::parse_with]: all of the input is consumed. *)
Definition parse_with {A} (inner : parser A) (s : bytes) : option A :=
  match inner s with Some (a, []) => Some a | _ => None end.

(** [Ipv4Addr::from_str] does not try texts of more than 15 bytes. *)
Definition Ipv4Addr_from_str (s : bytes) : option bytes :=
  if 15 <? len s then None else parse_with read_ipv4_addr s.
Definition IpAddr_from_str (s : bytes) : option IpAddr := parse_with read_ip_addr s.

(** [Display] of an octet and of an [Ipv4Addr]. *)
Definition digit_char (d : Z) : byte := z2b (48 + d).
Definition print_u8 (v : Z) : bytes :=
  if v <? 10 then [digit_char v]
  else if v <? 100 then [digit_char (v / 10); digit_char (v mod 10)]
  else [digit_char (v / 100); digit_char (v / 10 mod 10); digit_char (v mod 10)].
Definition Ipv4Addr_display (a : bytes) : bytes := join_with (str ".") (map (fun b => print_u8 (b2z b)) a).

Example addresses_parse :
  Ipv4Addr_from_str (str "10.77.0.1") = Some (map z2b [10; 77; 0; 1])
  /\ Ipv4Addr_from_str (str "10.77.00.1") = None
  /\ Ipv4Addr_from_str (str "10.77.0.256") = None
  /\ Ipv4Addr_from_str (str "10.77.0") = None
  /\ IpAddr_from_str (str "8.8.8.8") = Some (V4 (map z2b [8; 8; 8; 8]))
  /\ IpAddr_from_str (str "2001:4860:4860::8888") = Some (V6 [0x2001; 0x4860; 0x4860; 0; 0; 0; 0; 0x8888])
  /\ IpAddr_from_str (str "::") = Some (V6 [0; 0; 0; 0; 0; 0; 0; 0])
  /\ IpAddr_from_str (str "::ffff:1.2.3.4") = Some (V6 [0; 0; 0; 0; 0; 0xffff; 0x102; 0x304])
  /\ IpAddr_from_str (str "1:2:3:4:5:6:7:8") = Some (V6 [1; 2; 3; 4; 5; 6; 7; 8])
  /\ IpAddr_from_str (str "1:2:3:4:5:6:7:8:9") = None
  /\ IpAddr_from_str (str "1.2.3.4::") = None
  /\ IpAddr_from_str (str "not-an-ip") = None.
Proof. by vm_compute. Qed.

(** ** [Ipv4Addr::from_str] inverts [Display] *)

Lemma to_digit10_iff c d : to_digit 10 c = Some d <-> 0 <= d < 10 /\ c = digit_char d.
Proof.
  split.
  - pose proof (byte_cases (fun c => match to_digit 10 c with
      | Some d => (0 <=? d) && (d <? 10) && bool_decide (c = digit_char d)
      | None => true end) ltac:(by vm_compute) c) as H.
    intros E. cbv beta in H. rewrite E in H. apply andb_prop in H as [H ->%bool_decide_eq_true]. split; [lia|done].
  - intros [Hd ->]. assert (d = 0 \/ d = 1 \/ d = 2 \/ d = 3 \/ d = 4 \/ d = 5 \/ d = 6 \/ d = 7 \/ d = 8 \/ d = 9)
      as Hin by lia.
    by decompose [or] Hin; subst.
Qed.

Lemma digit_char_inj d e : 0 <= d < 10 -> 0 <= e < 10 -> digit_char d = digit_char e -> d = e.
Proof.
  intros Hd He E. unfold digit_char in E. apply (f_equal b2z) in E. rewrite !b2z_z2b_small in E by lia. lia.
Qed.

(** What follows a number: the end, or a byte that is not a digit. *)
Definition stops (s : bytes) : Prop := match s with [] => True | c :: _ => to_digit 10 c = None end.

Lemma read_digits_one d r n s :
  0 <= d < 10 -> n < 3 -> read_digits 10 3 r n (digit_char d :: s) = read_digits 10 3 (r * 10 + d) (n + 1) s.
Proof.
  intros Hd Hn. cbn [read_digits]. rewrite (proj2 (to_digit10_iff _ d)) by done.
  by rewrite (proj2 (Z.ltb_ge _ _)) by lia.
Qed.
Lemma read_digits_stop r n s : stops s -> read_digits 10 3 r n s = Some (r, n, s).
Proof. destruct s as [|c s]; cbn; [done|]. by intros ->. Qed.

Lemma zero_first d s : 0 <= d < 10 -> bool_decide (head (digit_char d :: s) = Some c_zero) = (d =? 0).
Proof.
  intros Hd. cbn [head]. destruct (Z.eqb_spec d 0) as [->|Hn]; [by apply bool_decide_eq_true|].
  apply bool_decide_eq_false. intros [= E]. apply Hn. by apply (digit_char_inj d 0).
Qed.

Lemma read_u8_printed v s :
  0 <= v < 256 -> stops s -> read_number 8 10 3 false (print_u8 v ++ s) = Some (v, s).
Proof.
  intros Hv Hs.
  assert (0 <= v / 100 < 3 /\ 0 <= v / 10 mod 10 < 10 /\ 0 <= v mod 10 < 10
          /\ (v < 100 -> 0 <= v / 10 < 10) /\ v = v / 10 * 10 + v mod 10
          /\ v = (v / 100 * 10 + v / 10 mod 10) * 10 + v mod 10
          /\ (10 <= v -> 1 <= v / 10) /\ (100 <= v -> 1 <= v / 100)) as (? & ? & ? & ? & ? & ? & ? & ?)
    by (Z.to_euclidean_division_equations; lia).
  unfold read_number, print_u8.
  destruct (Z.ltb_spec v 10); [|destruct (Z.ltb_spec v 100)]; cbn [app].
  all: rewrite zero_first by lia; rewrite !read_digits_one by lia; rewrite read_digits_stop by done.
  all: cbn [mbind option_bind negb andb Z.eqb Z.ltb Z.compare Z.add Pos.add Pos.succ Pos.compare Pos.compare_cont].
  - rewrite andb_false_r. rewrite (proj2 (Z.ltb_lt _ _)) by lia. done.
  - destruct (Z.eqb_spec (v / 10) 0); [lia|]. cbn [andb]. rewrite (proj2 (Z.ltb_lt _ _)) by lia.
    apply (f_equal (fun x => Some (x, s))). lia.
  - destruct (Z.eqb_spec (v / 100) 0); [lia|]. cbn [andb]. rewrite (proj2 (Z.ltb_lt _ _)) by lia.
    apply (f_equal (fun x => Some (x, s))). lia.
Qed.

(** A number that is read was printed that way. *)
Lemma read_digits_inv r n s v k t :
  read_digits 10 3 r n s = Some (v, k, t) ->
  stops t /\ exists ds, Forall (fun d => 0 <= d < 10) ds /\ s = map digit_char ds ++ t
    /\ k = n + len ds /\ (k <= 3 \/ ds = []) /\ v = foldl (fun a d => a * 10 + d) r ds.
Proof.
  revert r n. induction s as [|c s IH]; intros r n H; cbn [read_digits] in H.
  - injection H as <- <- <-. split; [done|]. exists []. split_and!; [done|done|unfold len; cbn; lia|by right|done].
  - destruct (to_digit 10 c) as [d|] eqn:E; [|].
    + destruct (Z.ltb_spec 3 (n + 1)) as [|Hn]; [done|]. apply IH in H as (Hs & ds & Hds & -> & -> & Hk & ->).
      apply to_digit10_iff in E as [Hd ->]. split; [done|]. exists (d :: ds).
      rewrite len_cons. split_and!; [by constructor|done|lia| |done].
      left. destruct Hk as [?| ->]; [lia|unfold len; cbn; lia].
    + injection H as <- <- <-. split; [done|]. exists []. split_and!; [done|done|unfold len; cbn; lia|by right|done].
Qed.

Lemma read_u8_inv s v t :
  read_number 8 10 3 false s = Some (v, t) -> 0 <= v < 256 /\ stops t /\ s = print_u8 v ++ t.
Proof.
  unfold read_number. destruct (read_digits 10 3 0 0 s) as [[[v' k] t']|] eqn:E; [|done].
  cbn [mbind option_bind]. apply read_digits_inv in E as (Ht & ds & Hds & -> & -> & Hk & ->).
  destruct (Z.eqb_spec (0 + len ds) 0) as [|Hn]; [done|]. cbn [negb andb].
  destruct Hk as [Hk| ->]; [|by cbn in Hn].
  destruct ds as [|a ds]; [by cbn in Hn|]. apply Forall_cons_iff in Hds as [Ha Hds].
  cbn [map app]. rewrite zero_first by done.
  unfold print_u8.
  destruct ds as [|b ds]; [|apply Forall_cons_iff in Hds as [Hb Hds]; destruct ds as [|c ds];
    [|apply Forall_cons_iff in Hds as [Hc Hds]; destruct ds; [|rewrite !len_cons in Hk; pose proof (len_nonneg ds); lia]]].
  all: cbn [foldl map app]; unfold len; cbn [length].
  all: destruct (Z.eqb_spec a 0) as [->|]; cbn [andb negb]; try done.
  all: match goal with |- context [?x <? 2 ^ 8] => destruct (Z.ltb_spec x (2 ^ 8)) as [H8|]; [|done]; intros [= <- <-] end.
  all: split; [lia|]; split; [done|].
  all: repeat match goal with |- context [?x <? ?y] => destruct (Z.ltb_spec x y); try lia end.
  all: cbn [app]; repeat f_equal; Z.to_euclidean_division_equations; lia.
Qed.

Lemma stops_dot s : stops (c_dot :: s).
Proof. done. Qed.

Lemma read_separator_Some {A} sep (inner : parser A) s r :
  read_separator sep false inner s = Some r <-> exists t, s = sep :: t /\ inner t = Some r.
Proof.
  split.
  - destruct s as [|c s]; [done|]. cbn. case_bool_decide; [|done]. subst. eauto.
  - intros (t & -> & H). cbn. by rewrite bool_decide_true.
Qed.

Lemma read_ipv4_inv s a t :
  read_ipv4_addr s = Some (a, t) -> len a = 4 /\ stops t /\ s = Ipv4Addr_display a ++ t.
Proof.
  unfold read_ipv4_addr. intros H.
  apply bind_Some in H as ([v1 s1] & H1 & H). apply bind_Some in H as ([v2 s2] & H2 & H).
  apply bind_Some in H as ([v3 s3] & H3 & H). apply bind_Some in H as ([v4 s4] & H4 & [= <- <-]).
  cbn [read_separator] in H1. apply read_u8_inv in H1 as (? & _ & ->).
  apply read_separator_Some in H2 as (? & -> & (? & _ & ->)%read_u8_inv).
  apply read_separator_Some in H3 as (? & -> & (? & _ & ->)%read_u8_inv).
  apply read_separator_Some in H4 as (? & -> & (? & ? & ->)%read_u8_inv).
  split; [done|]. split; [done|]. unfold Ipv4Addr_display. cbn [map join_with].
  rewrite !b2z_z2b_small by lia. change (str ".") with [c_dot]. by rewrite <-!app_assoc.
Qed.

Lemma read_ipv4_printed a t : len a = 4 -> stops t -> read_ipv4_addr (Ipv4Addr_display a ++ t) = Some (a, t).
Proof.
  intros Ha Ht. destruct a as [|a [|b [|c [|d [|]]]]]; try (unfold len in Ha; cbn in Ha; lia).
  unfold Ipv4Addr_display. cbn [map join_with]. change (str ".") with [c_dot]. rewrite <-!app_assoc. cbn [app].
  unfold read_ipv4_addr, read_separator.
  repeat (rewrite read_u8_printed by (apply b2z_range || done); cbn [mbind option_bind]; try rewrite bool_decide_true by done).
  cbn [map]. by rewrite !z2b_b2z.
Qed.

Lemma len_print_u8 v : len (print_u8 v) <= 3.
Proof. unfold print_u8. repeat case_match; unfold len; cbn; lia. Qed.

(** A text parses to an address iff it is the text printed for it. *)
Lemma Ipv4Addr_from_str_iff s a : Ipv4Addr_from_str s = Some a <-> len a = 4 /\ s = Ipv4Addr_display a.
Proof.
  unfold Ipv4Addr_from_str, parse_with. split.
  - destruct (15 <? len s); [done|]. destruct (read_ipv4_addr s) as [[a' [|]]|] eqn:E; [|done..]. intros [= ->].
    apply read_ipv4_inv in E as (? & _ & ->). by rewrite app_nil_r.
  - intros [Ha ->]. rewrite (proj2 (Z.ltb_ge _ _)).
    + pose proof (read_ipv4_printed a [] Ha I) as H. rewrite app_nil_r in H. by rewrite H.
    + destruct a as [|a [|b [|c [|d [|]]]]]; try (unfold len in Ha; cbn in Ha; lia).
      unfold Ipv4Addr_display. cbn [map join_with]. rewrite !len_app.
      pose proof (len_print_u8 (b2z a)). pose proof (len_print_u8 (b2z b)).
      pose proof (len_print_u8 (b2z c)). pose proof (len_print_u8 (b2z d)). change (len (str ".")) with 1. lia.
Qed.
