(* ===== verification/HcsJournal.v ===== *)
(** * The HCS resource journal

    [libs/hypervisor-hcs/src/journal.rs] and [error.rs]: the durable records
    of every host resource a launch owns, kept in one [redb] database per
    session, and the operations on them.  A database is its four tables; the
    values are JSON documents, so [serde_json] is the class [Serde] with the
    law that a document reads back as what was written.  Which database calls
    fail is decided where programs are run ([HcsHost]): an operation here is
    what one committed transaction does.

    The text attached to the reports of this file is diagnostic only and left
    out; the text of reports that [resource_is_absent] inspects is kept. *)

From Stdlib Require Import ZArith Lia.
From stdpp Require Import base tactics option list numbers strings countable.
From S2P Require Import Prelude Bytes Text BTree Guid.

(** ** Errors and reports ([error.rs], [error_stack]) *)

Inductive HcsError : Type :=
  | HyperVAdmin | ComPortSetup | ComputeSystemCreate | ComputeSystemOpen | ComputeSystemStart
  | ComputeSystemTerminate | OperationCreate | OperationSyncFailed | OperationFailed
  | OperationCallbackMissing | OperationResult | Enumeration | NamedPipe | ConnectionCancelled
  | Serialize | Deserialize | Network | DiskInvalidPath | DiskParentMissing
  | DiskReparsePointRejected | DiskPathExists | DiskCreateFailed | DiskNotValidWritableVhdx
  | DiskPathAlreadyClaimed | DiskIdentityChanged | DiskInitializationFailed | DiskMountFailed
  | SecurityDescriptor | Journal | JournalSchemaMismatch | Cleanup.
#[global] Instance HcsError_eq_dec : EqDecision HcsError.
Proof. solve_decision. Defined.

(** A report: its context and its printable attachments, latest first (the
    order in which [frames] visits them). *)
Record Report : Type := { context : HcsError; attachments : list bytes }.
Definition Report_new (c : HcsError) : Report := {| context := c; attachments := [] |}.
Definition attach (r : Report) (text : bytes) : Report :=
  {| context := context r; attachments := text :: attachments r |}.

Definition HcsError_display (e : HcsError) : bytes :=
  match e with
  | HyperVAdmin => str "caller is not a member of the Hyper-V Administrators group"
  | ComPortSetup => str "failed to set up a COM port named pipe"
  | ComputeSystemCreate => str "failed to create the HCS compute system"
  | ComputeSystemOpen => str "failed to open the HCS compute system"
  | ComputeSystemStart => str "failed to start the HCS compute system"
  | ComputeSystemTerminate => str "failed to terminate the HCS compute system"
  | OperationCreate => str "HcsCreateOperation returned a null handle"
  | OperationSyncFailed => str "HcsWaitForOperationResult failed"
  | OperationFailed => str "HCS operation failed synchronously"
  | OperationCallbackMissing => str "HCS operation callback was never invoked"
  | OperationResult => str "HcsGetOperationResult returned a non-zero HRESULT"
  | Enumeration => str "HcsEnumerateComputeSystems failed"
  | NamedPipe => str "named pipe server setup failed"
  | ConnectionCancelled => str "connection cancelled"
  | Serialize => str "failed to serialize an HCS document"
  | Deserialize => str "failed to deserialize an HCS document"
  | Network => str "an HNS network/endpoint operation failed"
  | DiskInvalidPath => str "invalid disk path, mount, or size"
  | DiskParentMissing => str "disk parent directory is missing"
  | DiskReparsePointRejected => str "disk path traverses a reparse point"
  | DiskPathExists => str "disk path already exists and the policy rejects reuse"
  | DiskCreateFailed => str "failed to create the disk backing file"
  | DiskNotValidWritableVhdx => str "existing path is not a valid writable VHDX"
  | DiskPathAlreadyClaimed => str "disk path is already claimed by another operation"
  | DiskIdentityChanged => str "disk file identity changed since it was recorded"
  | DiskInitializationFailed => str "created disk was not initialized by the guest"
  | DiskMountFailed => str "disk could not be mounted by the guest"
  | SecurityDescriptor => str "a Windows security descriptor was invalid"
  | Journal => str "the durable HCS runtime journal failed"
  | JournalSchemaMismatch => str "the HCS runtime journal schema is unsupported"
  | Cleanup => str "journaled HCS resource cleanup failed"
  end.

(** [Report]'s [Display]: the current context, without attachments. *)
Definition Report_to_string (r : Report) : bytes := HcsError_display (context r).

(** ** Paths

    A Windows path is its sequence of 16-bit units. *)
Abbreviation OsString := (list Z).

Definition utf8_encode (c : Z) : bytes :=
  if c <? 128 then [z2b c]
  else if c <? 2048 then [z2b (192 + c / 64); z2b (128 + c mod 64)]
  else if c <? 65536 then [z2b (224 + c / 4096); z2b (128 + c / 64 mod 64); z2b (128 + c mod 64)]
  else [z2b (240 + c / 262144); z2b (128 + c / 4096 mod 64); z2b (128 + c / 64 mod 64); z2b (128 + c mod 64)].
Definition is_high (u : Z) : bool := (55296 <=? u) && (u <? 56320).
Definition is_low (u : Z) : bool := (56320 <=? u) && (u <? 57344).

(** [OsStr::to_string_lossy] (and [Path::display]): an unpaired surrogate
    becomes U+FFFD. *)
Fixpoint to_string_lossy (p : OsString) : bytes :=
  match p with
  | [] => []
  | u :: p1 =>
    if is_high u then
      match p1 with
      | v :: p2 =>
        if is_low v
        then utf8_encode (65536 + (u - 55296) * 1024 + (v - 56320)) ++ to_string_lossy p2
        else utf8_encode 65533 ++ to_string_lossy p1
      | [] => utf8_encode 65533
      end
    else utf8_encode (if is_low u then 65533 else u) ++ to_string_lossy p1
  end.

(** The JSON values [wide_path_serde] distinguishes. *)
Inductive json_number : Type := JUnsigned (n : Z) | JOther.
Inductive json_value : Type :=
  | JArray (items : list (option json_number))  (** [None]: an element that is no number *)
  | JString (text : OsString)                   (** the units of the text *)
  | JElse.
Definition wide_path_serialize (path : OsString) : json_value :=
  JArray (map (fun u => Some (JUnsigned u)) path).
Definition wide_path_deserialize (v : json_value) : option OsString :=
  match v with
  | JArray units =>
    mapM (fun u => match u with Some (JUnsigned n) => Some (n mod 2 ^ 16) | _ => None end) units
  | JString text => Some text
  | JElse => None
  end.

(** ** The records *)

Inductive ResourceState : Type := Planned | Created | Removed | RemovalFailed | Abandoned.
Inductive VmResourcePhase : Type :=
  | PhasePlanned | PhaseStarting | PhasePublished | PhaseCleanupPending | PhaseComplete.
#[global] Instance ResourceState_eq_dec : EqDecision ResourceState.
Proof. solve_decision. Defined.
#[global] Instance VmResourcePhase_eq_dec : EqDecision VmResourcePhase.
Proof. solve_decision. Defined.

(** [vm_model::disk]. *)
Inductive DiskRetention : Type := Ephemeral | Persistent.
Inductive ExistingDiskPolicy : Type := ReuseAndKeep | PolicyError.
Inductive DiskOrigin : Type := CreatedByLaunch | PreExisting.
#[global] Instance DiskRetention_eq_dec : EqDecision DiskRetention.
Proof. solve_decision. Defined.
#[global] Instance DiskOrigin_eq_dec : EqDecision DiskOrigin.
Proof. solve_decision. Defined.

Record FileIdentity : Type := { volume_serial : Z; file_id : Z }.
#[global] Instance FileIdentity_eq_dec : EqDecision FileIdentity.
Proof. solve_decision. Defined.

Record ComputeResource : Type := { cr_id : bytes; cr_state : ResourceState }.
Record NetworkResource : Type := {
  network_name : bytes; network_id : option bytes;
  endpoint_name : bytes; endpoint_id : option bytes; nr_state : ResourceState }.
Record DiskResource : Type := {
  dr_path : OsString; controller : Z; lun : Z; dr_state : ResourceState; origin : DiskOrigin;
  requested_retention : DiskRetention; effective_retention : DiskRetention;
  file_identity : option FileIdentity; initialization_requested : bool;
  initialization_acknowledged : bool; vm_ace_added : bool; dr_published : bool }.

Section Records.
Context `{UuidText}.

Record SessionRecord : Type := {
  sr_schema_version : Z; session_id : Uuid; owner : bytes; owner_sid : bytes;
  process_id : Z; created_at_unix_ms : Z }.

Record VmResourceRecord : Type := {
  vr_schema_version : Z; vr_vm_id : Uuid; phase : VmResourcePhase; vr_published : bool;
  compute_system : ComputeResource; network : option NetworkResource; disks : list DiskResource;
  cleanup_attempts : Z; last_error : option bytes }.

Definition terminal (s : ResourceState) : bool :=
  bool_decide (s = Removed) || bool_decide (s = Abandoned).
Definition is_complete (r : VmResourceRecord) : bool :=
  bool_decide (phase r = PhaseComplete)
  || (terminal (cr_state (compute_system r))
      && match network r with Some n => terminal (nr_state n) | None => true end
      && forallb (fun d => terminal (dr_state d)) (disks r)).

Record AbandonedResourceEntry : Type := {
  kind : bytes; identity : bytes; entry_last_error : bytes; first_abandoned_at_unix_ms : Z }.
Record AbandonedRecord : Type := {
  ar_schema_version : Z; ar_vm_id : Uuid; entries : list AbandonedResourceEntry }.

(** Field updates. *)
Definition set_phase (p : VmResourcePhase) (r : VmResourceRecord) : VmResourceRecord :=
  {| vr_schema_version := vr_schema_version r; vr_vm_id := vr_vm_id r; phase := p;
     vr_published := vr_published r; compute_system := compute_system r; network := network r;
     disks := disks r; cleanup_attempts := cleanup_attempts r; last_error := last_error r |}.
Definition set_published (b : bool) (r : VmResourceRecord) : VmResourceRecord :=
  {| vr_schema_version := vr_schema_version r; vr_vm_id := vr_vm_id r; phase := phase r;
     vr_published := b; compute_system := compute_system r; network := network r;
     disks := disks r; cleanup_attempts := cleanup_attempts r; last_error := last_error r |}.
Definition set_compute (c : ComputeResource) (r : VmResourceRecord) : VmResourceRecord :=
  {| vr_schema_version := vr_schema_version r; vr_vm_id := vr_vm_id r; phase := phase r;
     vr_published := vr_published r; compute_system := c; network := network r;
     disks := disks r; cleanup_attempts := cleanup_attempts r; last_error := last_error r |}.
Definition set_network (n : option NetworkResource) (r : VmResourceRecord) : VmResourceRecord :=
  {| vr_schema_version := vr_schema_version r; vr_vm_id := vr_vm_id r; phase := phase r;
     vr_published := vr_published r; compute_system := compute_system r; network := n;
     disks := disks r; cleanup_attempts := cleanup_attempts r; last_error := last_error r |}.
Definition set_disks (d : list DiskResource) (r : VmResourceRecord) : VmResourceRecord :=
  {| vr_schema_version := vr_schema_version r; vr_vm_id := vr_vm_id r; phase := phase r;
     vr_published := vr_published r; compute_system := compute_system r; network := network r;
     disks := d; cleanup_attempts := cleanup_attempts r; last_error := last_error r |}.
Definition set_attempts (n : Z) (r : VmResourceRecord) : VmResourceRecord :=
  {| vr_schema_version := vr_schema_version r; vr_vm_id := vr_vm_id r; phase := phase r;
     vr_published := vr_published r; compute_system := compute_system r; network := network r;
     disks := disks r; cleanup_attempts := n; last_error := last_error r |}.
Definition set_last_error (e : option bytes) (r : VmResourceRecord) : VmResourceRecord :=
  {| vr_schema_version := vr_schema_version r; vr_vm_id := vr_vm_id r; phase := phase r;
     vr_published := vr_published r; compute_system := compute_system r; network := network r;
     disks := disks r; cleanup_attempts := cleanup_attempts r; last_error := e |}.
End Records.

Definition set_cr_state (s : ResourceState) (c : ComputeResource) : ComputeResource :=
  {| cr_id := cr_id c; cr_state := s |}.
Definition set_nr_state (s : ResourceState) (n : NetworkResource) : NetworkResource :=
  {| network_name := network_name n; network_id := network_id n; endpoint_name := endpoint_name n;
     endpoint_id := endpoint_id n; nr_state := s |}.
Definition set_dr_state (s : ResourceState) (d : DiskResource) : DiskResource :=
  {| dr_path := dr_path d; controller := controller d; lun := lun d; dr_state := s;
     origin := origin d; requested_retention := requested_retention d;
     effective_retention := effective_retention d; file_identity := file_identity d;
     initialization_requested := initialization_requested d;
     initialization_acknowledged := initialization_acknowledged d;
     vm_ace_added := vm_ace_added d; dr_published := dr_published d |}.

(** ** [serde_json] on the stored types *)

Class Serde (A : Type) := {
  to_vec : A -> option bytes;
  from_slice : bytes -> option A }.
Class SerdeLaws (A : Type) `{!Serde A} : Prop := {
  serde_round_trip a : exists b, to_vec a = Some b /\ from_slice b = Some a }.

(** ** Databases and their operations *)

Abbreviation table := (list (bytes * bytes)).
Record Database : Type := {
  SCHEMA : option Z;            (** the ["version"] entry of [journal_schema] *)
  SESSION : option bytes;       (** the ["current"] entry of [session] *)
  VM_RECORDS : option table;    (** [None]: the table does not exist *)
  ABANDONED : option table }.

Definition SCHEMA_VERSION : Z := 1.
Definition MAX_CLEANUP_ATTEMPTS : Z := 3.

Definition set_vm_records (t : table) (db : Database) : Database :=
  {| SCHEMA := SCHEMA db; SESSION := SESSION db; VM_RECORDS := Some t; ABANDONED := ABANDONED db |}.
Definition set_abandoned (t : table) (db : Database) : Database :=
  {| SCHEMA := SCHEMA db; SESSION := SESSION db; VM_RECORDS := VM_RECORDS db; ABANDONED := Some t |}.
Definition set_session (b : bytes) (db : Database) : Database :=
  {| SCHEMA := SCHEMA db; SESSION := Some b; VM_RECORDS := VM_RECORDS db; ABANDONED := ABANDONED db |}.

(** [open_table] creates a missing table in a write transaction. *)
Definition vm_records (db : Database) : table := default [] (VM_RECORDS db).
Definition abandoned_rows (db : Database) : table := default [] (ABANDONED db).

Definition journal_report : Report := Report_new Journal.
Definition validate_schema_version (version : Z) : res Report unit :=
  if version =? SCHEMA_VERSION then Ok tt else Err (Report_new JournalSchemaMismatch).

(** What a read does with the database, and what a committed write does. *)
Definition read_op (A : Type) : Type := Database -> res Report A.
Definition write_op (A : Type) : Type := Database -> res Report (A * Database).

Section Operations.
Context `{UuidText} `{!Serde SessionRecord, !Serde VmResourceRecord, !Serde AbandonedRecord}.

Definition encode {A} `{Serde A} (a : A) : res Report bytes := ok_or (to_vec a) journal_report.
Definition decode {A} `{Serde A} (b : bytes) : res Report A := ok_or (from_slice b) journal_report.

(** [put_vm] checks and encodes before the transaction begins; [put_vm_row]
    is the transaction. *)
Definition put_vm_row (record : VmResourceRecord) (b : bytes) : write_op unit := fun db =>
  Ok (tt, set_vm_records (bt_insert (uuid_to_string (vr_vm_id record)) b (vm_records db)) db).

Definition decode_vm (b : bytes) : res Report VmResourceRecord :=
  record ← decode b;
  _ ← validate_schema_version (vr_schema_version record);
  Ok record.

Definition update_vm_row (vm_id : Uuid) (update : VmResourceRecord -> VmResourceRecord) : write_op unit :=
  fun db =>
  current ← ok_or (bt_get (uuid_to_string vm_id) (vm_records db)) journal_report;
  record ← decode_vm current;
  b ← encode (update record);
  Ok (tt, set_vm_records (bt_insert (uuid_to_string vm_id) b (vm_records db)) db).

Definition vm_row (vm_id : Uuid) : read_op (option VmResourceRecord) := fun db =>
  t ← ok_or (VM_RECORDS db) journal_report;
  match bt_get (uuid_to_string vm_id) t with
  | None => Ok None
  | Some b => record ← decode_vm b; Ok (Some record)
  end.

Definition all_vm_rows : read_op (list VmResourceRecord) := fun db =>
  t ← ok_or (VM_RECORDS db) journal_report;
  for_each (fun records '(_, b) => record ← decode_vm b; Ok (records ++ [record])) t [].

Definition remove_vm_row (vm_id : Uuid) : write_op unit := fun db =>
  Ok (tt, set_vm_records (bt_remove (uuid_to_string vm_id) (vm_records db)) db).

(** Entries already recorded for the same kind and identity keep their
    timestamp: the first such entry takes the new error text. *)
Fixpoint merge_entry (new : AbandonedResourceEntry) (es : list AbandonedResourceEntry)
  : list AbandonedResourceEntry :=
  match es with
  | [] => [new]
  | e :: es =>
    if bool_decide (kind e = kind new) && bool_decide (identity e = identity new)
    then {| kind := kind e; identity := identity e; entry_last_error := entry_last_error new;
            first_abandoned_at_unix_ms := first_abandoned_at_unix_ms e |} :: es
    else e :: merge_entry new es
  end.
Definition merge_entries (old new : list AbandonedResourceEntry) : list AbandonedResourceEntry :=
  foldl (fun es e => merge_entry e es) old new.

Definition put_abandoned_row (vm_id : Uuid) (b : bytes) : write_op unit := fun db =>
  Ok (tt, set_abandoned (bt_insert (uuid_to_string vm_id) b (abandoned_rows db)) db).

Definition abandoned_row (vm_id : Uuid) : read_op (option AbandonedRecord) := fun db =>
  match ABANDONED db with
  | None => Ok None
  | Some t =>
    match bt_get (uuid_to_string vm_id) t with
    | None => Ok None
    | Some b =>
      record ← decode (A := AbandonedRecord) b;
      _ ← validate_schema_version (ar_schema_version record);
      Ok (Some record)
    end
  end.

Definition remove_abandoned_row (vm_id : Uuid) : write_op unit := fun db =>
  Ok (tt, set_abandoned (bt_remove (uuid_to_string vm_id) (abandoned_rows db)) db).

Definition has_abandoned_rows : read_op bool := fun db =>
  Ok (match ABANDONED db with None => false | Some t => negb (is_empty t) end).

Definition owner_for (session_id : Uuid) : bytes := str "jyth/v1/" ++ uuid_to_string session_id.

(** [initialize_database]: one transaction. *)
Definition initialize_database : write_op unit := fun db =>
  let created v := {| SCHEMA := v; SESSION := SESSION db; VM_RECORDS := Some (vm_records db);
                      ABANDONED := Some (abandoned_rows db) |} in
  match SCHEMA db with
  | Some version =>
    if negb (version =? SCHEMA_VERSION) then Err (Report_new JournalSchemaMismatch)
    else Ok (tt, created (Some version))
  | None => Ok (tt, created (Some SCHEMA_VERSION))
  end.

Definition put_session_row (b : bytes) : write_op unit := fun db => Ok (tt, set_session b db).

Definition set_owner (o : bytes) (s : SessionRecord) : SessionRecord :=
  {| sr_schema_version := sr_schema_version s; session_id := session_id s; owner := o;
     owner_sid := owner_sid s; process_id := process_id s; created_at_unix_ms := created_at_unix_ms s |}.

Definition read_existing_session : read_op SessionRecord := fun db =>
  schema_version ← ok_or (SCHEMA db) (Report_new JournalSchemaMismatch);
  _ ← validate_schema_version schema_version;
  _ ← ok_or (VM_RECORDS db) journal_report;
  session_bytes ← ok_or (SESSION db) journal_report;
  session ← decode (A := SessionRecord) session_bytes;
  _ ← validate_schema_version (sr_schema_version session);
  let expected_owner := owner_for (session_id session) in
  if is_empty (owner session) then Ok (set_owner expected_owner session)
  else if negb (bool_decide (owner session = expected_owner)) then Err journal_report
  else Ok session.
End Operations.
