(* ===== verification/HcsHost.v ===== *)
(** * Programs against a Windows host

    The launch, cleanup and recovery code of [libs/hypervisor-hcs] interleaves
    transactions on session databases with calls to HCS, HNS and the file
    system.  Such code is a finite resumption ([host]): it stops at every
    transaction and every call and continues with the answer.  The host is a
    relation: which answers a call may give and what it does to the [World]
    (session databases, compute systems, networks, endpoints, files).  A
    transaction commits, or fails with a journal report, in which case its
    effect may or may not have become durable.  The process may die at any
    point ([exec] with no result).

    [safe] is the program logic: an invariant that holds at every point of
    every execution, and a postcondition. *)

From Stdlib Require Import ZArith Lia.
From stdpp Require Import base tactics option list numbers strings countable gmap fin_maps fin_sets.
From S2P Require Import Prelude Bytes Text BTree Guid HcsJournal.

(** ** HRESULTs and reports in text *)

Definition S_OK : Z := 0.
Definition HCS_E_OPERATION_PENDING : Z := 0x80370120 - 2 ^ 32.

(** [{:08X}] of a 32-bit value. *)
Definition to_ascii_uppercase (b : byte) : byte :=
  if is_ascii_lowercase b then z2b (b2z b - 32) else b.
Definition hresult (hr : Z) : bytes := str "HRESULT 0x" ++ map to_ascii_uppercase (hex_lower 8 hr).

(** [str::contains]. *)
Fixpoint contains (needle hay : bytes) : bool :=
  starts_with needle hay || match hay with [] => false | _ :: hay => contains needle hay end.

(** [report_text]: the context, then each attachment after ["; "]. *)
Definition report_text (r : Report) : bytes :=
  foldl (fun text a => text ++ str "; " ++ a) (Report_to_string r) (attachments r).

Definition resource_is_absent (r : Report) : bool :=
  let text := map to_ascii_lowercase (report_text r) in
  contains (str "0x80070490") text || contains (str "0x80070002") text.

(** [hres as u32], compared with the two codes of absence. *)
Definition hns_absent (hr : Z) : bool :=
  let code := hr mod 2 ^ 32 in (code =? 0x80070490) || (code =? 0x80070002).

(** ** Calls and answers *)

(** An HNS call returns an HRESULT and, on failure, a diagnostic document. *)
Record hcn : Type := { hres : Z; diag : bytes }.

(** What became of an HCS operation: whether [HcsCreateOperation] gave a
    handle, the HRESULT of the steering call, whether the completion callback
    came, the final HRESULT, and the result document ([None]: unreadable). *)
Record op_outcome : Type := {
  op_created : bool; op_immediate : Z; op_completed : bool; op_hr : Z; op_doc : option (option bytes) }.

(** JSON returned by HNS, as [serde_json] reads it. *)
Inductive EnumerationEntry : Type := EntryString (raw : bytes) | EntryObject (id : option bytes).
Inductive EnumerationDocument : Type :=
  | DocList (values : list EnumerationEntry)
  | DocCollections (networks endpoints : option (list EnumerationEntry)).
Inductive json (A : Type) : Type := Blank | NotJson (error : bytes) | Parsed (a : A).
Arguments Blank {A}.
Arguments NotJson {A}.
Arguments Parsed {A}.
Record ResourceProperties : Type := { prop_id : option bytes; prop_name : option bytes }.

Inductive removal : Type := FileRemoved | FileNotFound | FileKept (error : bytes).
Inductive opened : Type := Opened | DatabaseAlreadyOpen | OpenFailed.
Inductive parent_dir : Type := NoParent | ParentMissing | ParentDir.

(** Steps of a launch that touch none of the tracked resources. *)
Inductive preparation : Type :=
  | HypervAdmin | ComPort | NetworkSettings | NetworkAdapterConf | VmSid | ScsiConf
  | PipeDescriptor | PipeCreate | ConfJson | CurrentUser | StateRoot | StateRootAcl.

Section Host.
Context `{UuidText}.

Inductive call : Type :=
  | HcsOpenComputeSystem (id : bytes)
  | HcsTerminateComputeSystem (id : bytes)
  | HcsCreateComputeSystem (id : bytes)
  | HcsStartComputeSystem (id : bytes)
  | HcnCreateNetwork (id : Guid) (name : bytes)
  | HcnCreateEndpoint (net : Guid) (name : bytes)
  | HcnQueryEndpointProperties (ep : Guid)
  | HcnQueryNetworkProperties (net : Guid)
  | HcnCloseEndpoint (ep : Guid)
  | HcnCloseNetwork (net : Guid)
  | HcnDeleteEndpoint (id : Guid)
  | HcnDeleteNetwork (id : Guid)
  | HcnEnumerateNetworks (name : bytes)
  | HcnEnumerateEndpoints (name : bytes)
  | HcnOpenNetwork (id : Guid)
  | HcnOpenEndpoint (id : Guid)
  | PathExists (p : OsString)
  | GetFileIdentity (p : OsString)
  | RemoveFile (p : OsString)
  | NewVhd (p : OsString) (size_bytes : Z)
  | GetVhd (p : OsString)
  | CreateParent (p : OsString)
  | GrantAccess (p : OsString) (vm_id : Uuid)
  | RevokeAccess (p : OsString) (vm_id : Uuid)
  | ValidateSid (vm_id : Uuid)
  | LockPath (p : OsString)
  | ReparsePoints (p : OsString)
  | Parent (p : OsString)
  | NormalizeAbsolutePath (p : OsString)
  | UnixTimeMs
  | SessionPaths
  | OpenDatabase (session : OsString)
  | CreateDatabase (session : OsString)
  | RemoveDatabase (session : OsString)
  | Prepare (p : preparation).

(** A handle is the identity of the object it designates. *)
Definition answer (c : call) : Type :=
  match c with
  | HcsOpenComputeSystem _ => Z * bool
  | HcsTerminateComputeSystem _ => op_outcome
  | HcsCreateComputeSystem _ => op_outcome * bool
  | HcsStartComputeSystem _ => option Report
  | HcnCreateNetwork _ _ => hcn * bool
  | HcnCreateEndpoint _ _ => hcn * option Guid * Guid
  | HcnQueryEndpointProperties _ | HcnQueryNetworkProperties _ => hcn * json ResourceProperties
  | HcnCloseEndpoint _ | HcnCloseNetwork _ => Z
  | HcnDeleteEndpoint _ | HcnDeleteNetwork _ => hcn
  | HcnEnumerateNetworks _ | HcnEnumerateEndpoints _ => hcn * json EnumerationDocument
  | HcnOpenNetwork _ | HcnOpenEndpoint _ => hcn * bool
  | PathExists _ => bool
  | GetFileIdentity _ => bytes + FileIdentity
  | RemoveFile _ => removal
  | NewVhd _ _ | GetVhd _ | CreateParent _ => option bytes
  | GrantAccess _ _ | RevokeAccess _ _ | ValidateSid _ | LockPath _ | ReparsePoints _ => option Report
  | Parent _ => parent_dir
  | NormalizeAbsolutePath _ => res Report OsString
  | UnixTimeMs => Z
  | SessionPaths => res Report (list OsString)
  | OpenDatabase _ => opened
  | CreateDatabase _ | RemoveDatabase _ | Prepare _ => option Report
  end.

(** ** Programs *)

Inductive host (A : Type) : Type :=
  | HDone (r : res Report A)
  | HRead (s : OsString) (B : Type) (op : read_op B) (k : res Report B -> host A)
  | HWrite (s : OsString) (B : Type) (op : write_op B) (k : res Report B -> host A)
  | HCall (c : call) (k : answer c -> host A).
Arguments HDone {A}.
Arguments HRead {A}.
Arguments HWrite {A}.
Arguments HCall {A}.

Fixpoint hbind {A B} (f : A -> host B) (p : host A) : host B :=
  match p with
  | HDone (Ok a) => f a
  | HDone (Err e) => HDone (Err e)
  | HDone Panic => HDone Panic
  | HRead s C op k => HRead s C op (fun r => hbind f (k r))
  | HWrite s C op k => HWrite s C op (fun r => hbind f (k r))
  | HCall c k => HCall c (fun a => hbind f (k a))
  end.
#[global] Instance host_ret : MRet host := fun A a => HDone (Ok a).
#[global] Instance host_bind : MBind host := fun A B f p => hbind f p.

(** Observe the result of a program ([match], [if let Err]); a panic unwinds. *)
Fixpoint attempt {A} (p : host A) : host (res Report A) :=
  match p with
  | HDone Panic => HDone Panic
  | HDone r => HDone (Ok r)
  | HRead s C op k => HRead s C op (fun r => attempt (k r))
  | HWrite s C op k => HWrite s C op (fun r => attempt (k r))
  | HCall c k => HCall c (fun a => attempt (k a))
  end.

Definition ret_res {A} (r : res Report A) : host A := HDone r.
Definition throw {A} (e : Report) : host A := HDone (Err e).
Definition ask (c : call) : host (answer c) := HCall c (fun a => HDone (Ok a)).
Definition read {B} (s : OsString) (op : read_op B) : host B := HRead s B op HDone.
Definition write {B} (s : OsString) (op : write_op B) : host B := HWrite s B op HDone.
(** [call()?] for a call that only succeeds or reports. *)
Definition check (c : call) (h : answer c -> option Report) : host unit :=
  a ← ask c; match h a with None => mret tt | Some e => throw e end.

(** [for x in xs { s = f(s, x)?; }] *)
Fixpoint hfold {S A} (f : S -> A -> host S) (xs : list A) (s : S) : host S :=
  match xs with
  | [] => mret s
  | x :: xs => s ← f s x; hfold f xs s
  end.
End Host.
Arguments HDone {_ A}.
Arguments HRead {_ A}.
Arguments HWrite {_ A}.
Arguments HCall {_ A}.

(** ** The world *)

Record World : Type := {
  w_sessions : gmap OsString Database;
  w_compute : gset bytes;                       (** compute systems of this program, by id *)
  w_networks : gmap Guid bytes;                 (** all networks and their names *)
  w_endpoints : gmap Guid bytes;                (** all endpoints and their names *)
  w_files : gmap OsString FileIdentity;
  w_created : gset (OsString * (Z * Z)) }.      (** every file [New-VHD] made, ever *)

Definition file_key (p : OsString) (i : FileIdentity) : OsString * (Z * Z) :=
  (p, (volume_serial i, file_id i)).

Definition set_sessions (m : gmap OsString Database) (w : World) : World :=
  {| w_sessions := m; w_compute := w_compute w; w_networks := w_networks w;
     w_endpoints := w_endpoints w; w_files := w_files w; w_created := w_created w |}.
Definition set_computes (m : gset bytes) (w : World) : World :=
  {| w_sessions := w_sessions w; w_compute := m; w_networks := w_networks w;
     w_endpoints := w_endpoints w; w_files := w_files w; w_created := w_created w |}.
Definition set_networks (m : gmap Guid bytes) (w : World) : World :=
  {| w_sessions := w_sessions w; w_compute := w_compute w; w_networks := m;
     w_endpoints := w_endpoints w; w_files := w_files w; w_created := w_created w |}.
Definition set_endpoints (m : gmap Guid bytes) (w : World) : World :=
  {| w_sessions := w_sessions w; w_compute := w_compute w; w_networks := w_networks w;
     w_endpoints := m; w_files := w_files w; w_created := w_created w |}.
Definition set_files (m : gmap OsString FileIdentity) (w : World) : World :=
  {| w_sessions := w_sessions w; w_compute := w_compute w; w_networks := w_networks w;
     w_endpoints := w_endpoints w; w_files := m; w_created := w_created w |}.
Definition set_created (m : gset (OsString * (Z * Z))) (w : World) : World :=
  {| w_sessions := w_sessions w; w_compute := w_compute w; w_networks := w_networks w;
     w_endpoints := w_endpoints w; w_files := w_files w; w_created := m |}.
Definition put_db (s : OsString) (db : Database) (w : World) : World :=
  set_sessions (<[s := db]> (w_sessions w)) w.

(** ** Executions *)

Section Exec.
Context `{UuidText}.

(** How calls may be answered, and whether database calls may fail. *)
Record Env : Type := {
  env_call : forall c, World -> answer c -> World -> Prop;
  env_faults : Prop }.
Context (E : Env).

Definition read_step {B} (s : OsString) (op : read_op B) (w : World) (r : res Report B) : Prop :=
  match w_sessions w !! s with
  | Some db => r = op db \/ (env_faults E /\ r = Err journal_report)
  | None => r = Err journal_report
  end.
Definition write_step {B} (s : OsString) (op : write_op B) (w : World) (r : res Report B) (w' : World) : Prop :=
  match w_sessions w !! s with
  | Some db =>
    match op db with
    | Ok (b, db') =>
      (r = Ok b /\ w' = put_db s db' w)
      \/ (env_faults E /\ r = Err journal_report /\ (w' = w \/ w' = put_db s db' w))
    | Err e => w' = w /\ (r = Err e \/ (env_faults E /\ r = Err journal_report))
    | Panic => w' = w /\ r = Panic
    end
  | None => r = Err journal_report /\ w' = w
  end.

(** [None]: the process died. *)
Inductive exec {A} : host A -> World -> option (res Report A) -> World -> Prop :=
  | exec_done r w : exec (HDone r) w (Some r) w
  | exec_crash p w : exec p w None w
  | exec_read s B op k w r o w' :
      read_step (B := B) s op w r -> exec (k r) w o w' -> exec (HRead s B op k) w o w'
  | exec_write s B op k w r w1 o w' :
      write_step (B := B) s op w r w1 -> exec (k r) w1 o w' -> exec (HWrite s B op k) w o w'
  | exec_call c k w a w1 o w' :
      env_call E c w a w1 -> exec (k a) w1 o w' -> exec (HCall c k) w o w'.

Fixpoint safe {A} (I : World -> Prop) (p : host A) (Q : res Report A -> World -> Prop) (w : World) : Prop :=
  match p with
  | HDone r => I w /\ Q r w
  | HRead s B op k => I w /\ forall r, read_step s op w r -> safe I (k r) Q w
  | HWrite s B op k => I w /\ forall r w', write_step s op w r w' -> safe I (k r) Q w'
  | HCall c k => I w /\ forall a w', env_call E c w a w' -> safe I (k a) Q w'
  end.

Lemma safe_inv {A} I (p : host A) Q w : safe I p Q w -> I w.
Proof. destruct p; cbn; tauto. Qed.

Lemma safe_exec {A} I (p : host A) Q w o w' :
  safe I p Q w -> exec p w o w' -> I w' /\ forall r, o = Some r -> Q r w'.
Proof.
  intros S X. induction X as [r w|p w|s B op k w r o w' Hs _ IH|s B op k w r w1 o w' Hs _ IH|c k w a w1 o w' Hs _ IH].
  - destruct S as [? ?]. split; [done|]. by intros ? [= <-].
  - split; [by apply safe_inv in S|discriminate].
  - apply IH. by apply S.
  - by eapply IH, S.
  - by eapply IH, S.
Qed.

Lemma safe_mono {A} (I J : World -> Prop) (p : host A) (Q R : res Report A -> World -> Prop) w :
  safe I p Q w -> (forall w, I w -> J w) -> (forall r w, I w -> Q r w -> R r w) -> safe J p R w.
Proof.
  intros S HI HQ. revert w S. induction p as [r|s B op k IH|s B op k IH|c k IH]; cbn; intros w [? S];
    (split; [by apply HI|]); eauto.
Qed.

Lemma safe_bind {A B} I (p : host A) (f : A -> host B) Q w :
  safe I p (fun r w =>
    match r with Ok a => safe I (f a) Q w | Err e => Q (Err e) w | Panic => Q Panic w end) w ->
  safe I (p ≫= f) Q w.
Proof.
  revert w. induction p as [r|s C op k IH|s C op k IH|c k IH]; cbn; intros w [? S]; eauto.
  destruct r; cbn; auto.
Qed.

Lemma safe_attempt {A} I (p : host A) Q w :
  safe I p (fun r w => match r with Panic => Q Panic w | _ => Q (Ok r) w end) w ->
  safe I (attempt p) Q w.
Proof.
  revert w. induction p as [r|s C op k IH|s C op k IH|c k IH]; cbn; intros w [? S]; eauto.
  destruct r; cbn; auto.
Qed.

Lemma safe_ret {A} I (a : A) Q w : I w -> Q (Ok a) w -> safe I (mret a) Q w.
Proof. by split. Qed.
Lemma safe_throw {A} I e (Q : res Report A -> World -> Prop) w : I w -> Q (Err e) w -> safe I (throw e) Q w.
Proof. by split. Qed.

Lemma safe_res {A B} I (a : A) (f : A -> host B) r Q w :
  r = Ok a -> safe I (f a) Q w -> safe I (ret_res r ≫= f) Q w.
Proof. by intros ->. Qed.

Lemma safe_ask I c Q w :
  I w -> (forall a w', env_call E c w a w' -> I w' /\ Q (Ok a) w') -> safe I (ask c) Q w.
Proof. intros ? Hs. split; [done|]. intros a w' ?. cbn. by apply Hs. Qed.
Lemma safe_read {B} I s (op : read_op B) Q w :
  I w -> (forall r, read_step s op w r -> Q r w) -> safe I (read s op) Q w.
Proof. intros ? Hs. split; [done|]. intros r ?. cbn. auto. Qed.
Lemma safe_write {B} I s (op : write_op B) Q w :
  I w -> (forall r w', write_step s op w r w' -> I w' /\ Q r w') -> safe I (write s op) Q w.
Proof. intros ? Hs. split; [done|]. intros r w' ?. cbn. by apply Hs. Qed.

(** Loop rule: [P] relates the items still to come and the accumulator. *)
Lemma safe_hfold {S A} I (f : S -> A -> host S) (P : list A -> S -> World -> Prop) Q xs s w :
  I w -> P xs s w ->
  (forall x xs s w, I w -> P (x :: xs) s w ->
     safe I (f s x) (fun r w => match r with Ok s => P xs s w | Err e => Q (Err e) w | Panic => Q Panic w end) w) ->
  (forall s w, I w -> P [] s w -> Q (Ok s) w) ->
  safe I (hfold f xs s) Q w.
Proof.
  intros HI HP Hstep Hend. revert s w HI HP. induction xs as [|x xs IH]; intros s w HI HP; cbn [hfold].
  - apply safe_ret; auto.
  - apply safe_bind. eapply safe_mono; [by eapply Hstep|done|]. intros [s'|e|] w' HI' HQ; auto.
Qed.

Lemma safe_and {A} I J (p : host A) Q R w :
  safe I p Q w -> safe J p R w -> safe (fun w => I w /\ J w) p (fun r w => Q r w /\ R r w) w.
Proof.
  revert w. induction p as [r|s C op k IH|s C op k IH|c k IH]; cbn; intros w [? S1] [? S2]; (split; [done|]); eauto.
Qed.

(** A program that keeps [I] and moves the world along [R]; if [N], it does
    not panic. *)
Section Along.
Context (N : Prop) (I : World -> Prop) (R : World -> World -> Prop) `{!PreOrder R}.

Definition along {A} (p : host A) : Prop :=
  forall w, I w -> safe I p (fun r w' => (N -> r <> Panic) /\ R w w') w.

Lemma along_res {A} (r : res Report A) : (N -> r <> Panic) -> along (ret_res r).
Proof. intros Hr w Iw. by split. Qed.
Lemma along_ret {A} (a : A) : along (mret a).
Proof. by apply (along_res (Ok a)). Qed.
Lemma along_throw {A} e : along (throw (A := A) e).
Proof. by apply (along_res (Err e)). Qed.
Lemma along_bind {A B} (p : host A) (f : A -> host B) : along p -> (forall a, along (f a)) -> along (p ≫= f).
Proof.
  intros Hp Hf w Iw. apply safe_bind. eapply safe_mono; [by apply Hp|done|].
  intros [a|e|] w1 I1 [Hr S1]; [|done|].
  - eapply safe_mono; [by apply Hf|done|]. intros r w2 _ [? S2]. split; [done|by etransitivity].
  - split; [|done]. intros ?%Hr. done.
Qed.
Lemma along_attempt {A} (p : host A) : along p -> along (attempt p).
Proof.
  intros Hp w Iw. apply safe_attempt. eapply safe_mono; [by apply Hp|done|].
  intros [a|e|] w1 _ [Hr S1]; [done|done|]. split; [|done]. intros ?%Hr. done.
Qed.
Lemma along_hfold {S A} (f : S -> A -> host S) xs s : (forall s x, along (f s x)) -> along (hfold f xs s).
Proof.
  intros Hf. revert s. induction xs as [|x xs IH]; intros s; cbn [hfold]; [apply along_ret|].
  apply along_bind; auto.
Qed.
Lemma along_check c h : along (ask c) -> along (check c h).
Proof. intros Hc. apply along_bind; [done|]. intros a. destruct (h a); [apply along_throw|apply along_ret]. Qed.

Lemma safe_along {A} (p : host A) Q w :
  along p -> I w -> (forall r w', I w' -> R w w' -> (N -> r <> Panic) -> Q r w') -> safe I p Q w.
Proof. intros Hp Iw HQ. eapply safe_mono; [by apply Hp|done|]. intros r w' ? [? ?]. auto. Qed.
End Along.

(** Every call of the program is one of [P]; unless [W], it writes nothing to
    a database; if [N], no result of it is a panic. *)
Section Only.
Context (N W : Prop) (P : call -> Prop).
Fixpoint only {A} (p : host A) : Prop :=
  match p with
  | HDone r => N -> r <> Panic
  | HRead s B op k => forall r, only (k r)
  | HWrite s B op k => W /\ forall r, only (k r)
  | HCall c k => P c /\ forall a, only (k a)
  end.
Lemma only_bind {A B} (p : host A) (f : A -> host B) : only p -> (forall a, only (f a)) -> only (p ≫= f).
Proof.
  intros Hp Hf. unfold mbind, host_bind in *.
  induction p as [r|s C op k IH|s C op k IH|c k IH]; cbn in *; [|by auto|destruct Hp; auto..].
  destruct r; cbn; [auto|done|]. intros ?%Hp. done.
Qed.
Lemma only_attempt {A} (p : host A) : only p -> only (attempt p).
Proof.
  intros Hp. induction p as [r|s C op k IH|s C op k IH|c k IH]; cbn in *; [|by auto|destruct Hp; auto..].
  destruct r; cbn; [done|done|]. intros ?%Hp. done.
Qed.
Lemma only_attempt_bind {A B} (p : host A) (f : res Report A -> host B) :
  only p -> (forall r, r <> Panic -> only (f r)) -> only (attempt p ≫= f).
Proof.
  intros Hp Hf. unfold mbind, host_bind in *.
  induction p as [r|s C op k IH|s C op k IH|c k IH]; cbn in *; [|by auto|destruct Hp; auto..].
  destruct r; cbn; [by apply Hf|by apply Hf|]. intros ?%Hp. done.
Qed.
Lemma only_hfold {S A} (f : S -> A -> host S) xs s : (forall s x, only (f s x)) -> only (hfold f xs s).
Proof. intros Hf. revert s. induction xs as [|x xs IH]; intros s; cbn [hfold]; [done|]. apply only_bind; auto. Qed.

(** What each call keeps, and the sessions do not matter to, the program keeps. *)
Lemma only_safe {A} (I : World -> Prop) (p : host A) w :
  (forall c w a w', P c -> I w -> env_call E c w a w' -> I w') ->
  (forall s db w, I w -> I (put_db s db w)) ->
  only p -> I w -> safe I p (fun _ _ => True) w.
Proof.
  intros HP HD. revert w. induction p as [r|s B op k IH|s B op k IH|c k IH]; cbn; intros w Hp Iw; (split; [done|]); auto.
  - intros r w' Hw. apply IH; [apply Hp|]. unfold write_step in Hw. destruct (w_sessions w !! s) as [db|]; [|by destruct Hw as [_ ->]].
    destruct (op db) as [[b db']|e|]; [|by destruct Hw as [-> _]..].
    destruct Hw as [[_ ->]|(_ & _ & [-> | ->])]; auto.
  - destruct Hp as [Hc Hk]. intros a w' Hw. eapply IH; [done|]. by eapply HP.
Qed.

(** A program that writes nothing goes where its calls go. *)
Lemma only_along {A} (I : World -> Prop) R `{!PreOrder R} (p : host A) :
  (W -> False) -> (forall c w a w', P c -> I w -> env_call E c w a w' -> I w' /\ R w w') ->
  only p -> along N I R p.
Proof.
  intros HW HP. induction p as [r|s B op k IH|s B op k IH|c k IH]; cbn; intros Hp w Iw; (split; [done|]).
  - split; [done|reflexivity].
  - intros r Hr. by apply IH.
  - destruct Hp as [Hw _]. by destruct (HW Hw).
  - destruct Hp as [Hc Hk]. intros a w' Hw. destruct (HP c w a w' Hc Iw Hw) as [I' R'].
    eapply safe_mono; [by apply IH|done|]. intros r w'' _ [? ?]. split; [done|]. by etransitivity.
Qed.
End Only.
Lemma only_mono {A} (N N' W W' : Prop) (P P' : call -> Prop) (p : host A) :
  (N' -> N) -> (W -> W') -> (forall c, P c -> P' c) -> only N W P p -> only N' W' P' p.
Proof. intros HN HW HP. induction p as [r|s C op k IH|s C op k IH|c k IH]; cbn; [by auto|by auto|intros [? ?]; auto..]. Qed.

(** Every program has an execution to its end, if every call has an answer. *)
Lemma host_exec_total {A} (p : host A) w :
  (forall c w, exists a w', env_call E c w a w') -> exists r w', exec p w (Some r) w'.
Proof.
  intros HE. revert w. induction p as [r|s B op k IH|s B op k IH|c k IH]; intros w.
  - do 2 eexists. constructor.
  - assert (exists r, read_step s op w r) as [r Hr].
    { unfold read_step. destruct (w_sessions w !! s); eauto. }
    destruct (IH r w) as (r' & w' & ?). do 2 eexists. by econstructor.
  - assert (exists r w', write_step s op w r w') as (r & w1 & Hr).
    { unfold write_step. destruct (w_sessions w !! s) as [db|]; [|by eauto].
      destruct (op db) as [[b db']|e|]; eauto. }
    destruct (IH r w1) as (r' & w' & ?). do 2 eexists. by econstructor.
  - destruct (HE c w) as (a & w1 & ?). destruct (IH a w1) as (r' & w' & ?).
    do 2 eexists. by econstructor.
Qed.
End Exec.

(** Prove [along E N I R p] by the shape of [p]; calls and named programs come
    from the database [along]. *)
Create HintDb along discriminated.
Ltac along1 :=
  lazymatch goal with
  | |- forall _, _ => intro
  | |- along _ _ _ _ (mret _) => apply along_ret; exact _
  | |- along _ _ _ _ (throw _) => apply along_throw; exact _
  | |- along _ False _ _ (ret_res _) => apply along_res; [exact _|intros []]
  | |- along _ False _ _ (HDone _) => apply along_res; [exact _|intros []]
  | |- along _ _ _ _ (check _ _) => apply along_check; [exact _|]
  | |- along _ _ _ _ (mbind _ _) => apply along_bind; [exact _| |]
  | |- along _ _ _ _ (attempt _) => apply along_attempt
  | |- along _ _ _ _ (hfold _ _ _) => apply along_hfold; [exact _|]
  | |- along _ _ _ _ (match ?x with _ => _ end) => destruct x
  | |- along _ _ _ _ _ => solve [auto with along nocore]
  end.
Ltac along := repeat along1.

(** ** What Windows does

    [windows_call] is what the code relies on: an HRESULT of "not found" means
    that the object is gone, a successful deletion deletes, an enumeration
    returns every object of the queried name, properties describe their
    object.  Everything else is free: any call may fail, and a failing
    creation or deletion may or may not have taken effect. *)

Definition mentions_code (text : bytes) : bool :=
  contains (str "0x80070490") (map to_ascii_lowercase text)
  || contains (str "0x80070002") (map to_ascii_lowercase text).

(** The outcome says that the object is gone. *)
Definition gone (o : op_outcome) : bool :=
  op_created o &&
  (if negb (op_immediate o =? S_OK) && negb (op_immediate o =? HCS_E_OPERATION_PENDING)
   then hns_absent (op_immediate o)
   else (op_hr o =? S_OK) || hns_absent (op_hr o)).

Definition entry_guid (e : EnumerationEntry) : option Guid :=
  raw ← match e with EntryString raw => Some raw | EntryObject id => id end;
  parse_guid_string (unbraced raw).
Definition entry_texts (e : EnumerationEntry) : list bytes :=
  match e with EntryString raw => [raw] | EntryObject (Some raw) => [raw] | EntryObject None => [] end.
Definition doc_networks (d : EnumerationDocument) : list EnumerationEntry :=
  match d with DocList es => es | DocCollections n _ => default [] n end.
Definition doc_endpoints (d : EnumerationDocument) : list EnumerationEntry :=
  match d with DocList es => es | DocCollections _ e => default [] e end.

Definition enumerates (objects : gmap Guid bytes) (name : bytes)
    (entries : EnumerationDocument -> list EnumerationEntry) (a : hcn * json EnumerationDocument) : Prop :=
  let named g := objects !! g = Some name in
  (hns_absent (hres a.1) = true -> forall g, ~ named g)
  /\ (hres a.1 = S_OK ->
      match a.2 with
      | Blank => forall g, ~ named g
      | NotJson _ => True
      | Parsed d => forall g, named g -> exists e, e ∈ entries d /\ entry_guid e = Some g
      end).
Definition describes (objects : gmap Guid bytes) (g : Guid) (a : hcn * json ResourceProperties) : Prop :=
  forall p name, hres a.1 = S_OK -> a.2 = Parsed p -> objects !! g = Some name ->
  prop_name p = Some name
  /\ forall raw, prop_id p = Some raw -> parse_guid_string (unbraced raw) = Some g.

Definition empty_database : Database :=
  {| SCHEMA := None; SESSION := None; VM_RECORDS := None; ABANDONED := None |}.

Section Windows.
Context `{UuidText}.

Definition windows_call (c : call) (w : World) : answer c -> World -> Prop :=
  match c return answer c -> World -> Prop with
  | HcsOpenComputeSystem id => fun a w' =>
      w' = w /\ (hns_absent a.1 = true -> id ∉ w_compute w)
  | HcsTerminateComputeSystem id => fun o w' =>
      (w' = w \/ w' = set_computes (w_compute w ∖ {[id]}) w) /\ (gone o = true -> id ∉ w_compute w')
  | HcsCreateComputeSystem id => fun a w' =>
      w' = w \/ w' = set_computes (w_compute w ∪ {[id]}) w
  | HcnCreateNetwork g name => fun a w' =>
      w' = w \/ w' = set_networks (<[g := name]> (w_networks w)) w
  | HcnCreateEndpoint net name => fun a w' =>
      (w' = w /\ a.1.2 = None)
      \/ exists g, typed_guid g /\ w_endpoints w !! g = None
                   /\ w' = set_endpoints (<[g := name]> (w_endpoints w)) w
                   /\ (a.1.2 = None \/ a.1.2 = Some g)
  | HcnQueryEndpointProperties ep => fun a w' => w' = w /\ describes (w_endpoints w) ep a
  | HcnQueryNetworkProperties net => fun a w' => w' = w /\ describes (w_networks w) net a
  | HcnDeleteEndpoint g => fun a w' =>
      (w' = w \/ w' = set_endpoints (delete g (w_endpoints w)) w)
      /\ (hres a = S_OK \/ hns_absent (hres a) = true -> w_endpoints w' !! g = None)
  | HcnDeleteNetwork g => fun a w' =>
      (w' = w \/ w' = set_networks (delete g (w_networks w)) w)
      /\ (hres a = S_OK \/ hns_absent (hres a) = true -> w_networks w' !! g = None)
  | HcnEnumerateNetworks name => fun a w' => w' = w /\ enumerates (w_networks w) name doc_networks a
  | HcnEnumerateEndpoints name => fun a w' => w' = w /\ enumerates (w_endpoints w) name doc_endpoints a
  | HcnOpenNetwork g => fun a w' =>
      w' = w /\ (hns_absent (hres a.1) = true -> w_networks w !! g = None)
      /\ (hres a.1 = S_OK -> a.2 = true -> is_Some (w_networks w !! g))
  | HcnOpenEndpoint g => fun a w' =>
      w' = w /\ (hns_absent (hres a.1) = true -> w_endpoints w !! g = None)
      /\ (hres a.1 = S_OK -> a.2 = true -> is_Some (w_endpoints w !! g))
  | PathExists p => fun a w' => w' = w /\ (a = true <-> is_Some (w_files w !! p))
  | GetFileIdentity p => fun a w' =>
      w' = w /\ match a with inr i => w_files w !! p = Some i | inl _ => True end
  | RemoveFile p => fun a w' =>
      match a with
      | FileRemoved => w' = set_files (delete p (w_files w)) w
      | FileNotFound => w' = w /\ w_files w !! p = None
      | FileKept _ => w' = w
      end
  | NewVhd p _ => fun a w' =>
      w' = w
      \/ exists i, w_files w !! p = None /\ (file_key p i ∉ w_created w)
                   /\ w' = match a with
                           | Some _ => set_files (<[p := i]> (w_files w)) w
                           | None => set_files (<[p := i]> (w_files w))
                                       (set_created (w_created w ∪ {[file_key p i]}) w)
                           end
  | SessionPaths => fun a w' =>
      w' = w /\ a <> Panic /\ forall ps, a = Ok ps -> forall s, s ∈ ps <-> is_Some (w_sessions w !! s)
  | NormalizeAbsolutePath _ => fun a w' => w' = w /\ a <> Panic
  | OpenDatabase s => fun a w' => w' = w /\ (a = Opened -> is_Some (w_sessions w !! s))
  | CreateDatabase s => fun a w' =>
      let created := match w_sessions w !! s with Some _ => w | None => put_db s empty_database w end in
      w' = created \/ (w' = w /\ is_Some a)
  | RemoveDatabase s => fun a w' =>
      match a with
      | None => w' = set_sessions (delete s (w_sessions w)) w
      | Some _ => w' = w
      end
  | _ => fun _ w' => w' = w
  end.

(** The codes of absence appear only where they mean it: not as the result
    of closing a handle or querying an open object, and not inside diagnostic
    texts.  [resource_is_absent] needs this, see [HcsCleanup]. *)
Definition honest (c : call) : answer c -> Prop :=
  match c return answer c -> Prop with
  | HcsTerminateComputeSystem _ => fun o =>
      forall doc, op_doc o = Some (Some doc) -> mentions_code doc = false
  | HcnQueryEndpointProperties _ | HcnQueryNetworkProperties _ => fun a =>
      hns_absent (hres a.1) = false /\ mentions_code (diag a.1) = false
      /\ match a.2 with NotJson e => mentions_code e = false | _ => True end
  | HcnCloseEndpoint _ | HcnCloseNetwork _ => fun hr => hns_absent hr = false
  | HcnEnumerateNetworks _ => fun a =>
      mentions_code (diag a.1) = false
      /\ match a.2 with
         | NotJson e => mentions_code e = false
         | Parsed d => forall e t, e ∈ doc_networks d -> t ∈ entry_texts e -> mentions_code t = false
         | Blank => True
         end
  | HcnEnumerateEndpoints _ => fun a =>
      mentions_code (diag a.1) = false
      /\ match a.2 with
         | NotJson e => mentions_code e = false
         | Parsed d => forall e t, e ∈ doc_endpoints d -> t ∈ entry_texts e -> mentions_code t = false
         | Blank => True
         end
  | HcnOpenNetwork _ | HcnOpenEndpoint _ => fun a => mentions_code (diag a.1) = false
  | _ => fun _ => True
  end.

(** Windows with every kind of failure, reports honest or not. *)
Definition windows : Env := {| env_call := windows_call; env_faults := True |}.
Definition honest_windows : Env := {|
  env_call := fun c w a w' => windows_call c w a w' /\ honest c a; env_faults := True |}.
End Windows.
