(* ===== verification/HcsText.v ===== *)
(** * What a report says

    [resource_is_absent] searches the printed report for two codes.  These
    lemmas say when a text built with [format!] mentions one: the codes contain
    no separator, so a text mentions a code iff one of its words does. *)

From Stdlib Require Import ZArith Lia.
From stdpp Require Import base tactics option list numbers strings countable.
From S2P Require Import Prelude Bytes Text BTree Guid HcsJournal HcsHost.

Lemma contains_true n h : contains n h = true <-> exists a b, h = a ++ n ++ b.
Proof.
  induction h as [|c h IH]; cbn [contains]; rewrite orb_true_iff, starts_with_true.
  - split; [intros [[b ->]|?]; [by exists [], b|done]|]. intros (a & b & E).
    left. exists b. symmetry in E. apply app_eq_nil in E as [_ E]. by rewrite E.
  - rewrite IH. split.
    + intros [[b ->]|(a & b & ->)]; [by exists [], b|by exists (c :: a), b].
    + intros ([|c' a] & b & E); [left; by exists b|]. cbn in E. injection E as -> ->. right. by exists a, b.
Qed.

(** A text around a byte that does not occur in the needle. *)
Lemma contains_around n a c b :
  c ∉ n -> contains n (a ++ c :: b) = contains n a || contains n b.
Proof.
  intros Hc. apply eq_bool_prop_intro. rewrite orb_True, !Is_true_true, !contains_true. split.
  - intros (x & y & E). apply app_eq_app in E as (t & [[-> Et]|[-> Et]]).
    + destruct t as [|c' t].
      * cbn in Et. destruct n as [|c0 n]; [left; by exists x, []|].
        cbn in Et. injection Et as -> _. exfalso. apply Hc. by left.
      * left. assert (length n <= length (c' :: t))%nat as Hl.
        { destruct (decide (length n <= length (c' :: t))%nat) as [|Hn]; [done|]. exfalso. apply Hc.
          apply (list_elem_of_lookup_2 _ (length (c' :: t))).
          assert (E' := f_equal (fun l => l !! length (c' :: t)) Et).
          cbn beta in E'. rewrite lookup_app_l in E' by lia. rewrite E'.
          rewrite lookup_app_r by lia. by rewrite Nat.sub_diag. }
        assert (Hp : n `prefix_of` (c' :: t)).
        { exists (drop (length n) (c' :: t)). rewrite <-(take_drop (length n) (c' :: t)) at 1. f_equal.
          apply (f_equal (take (length n))) in Et. rewrite take_app_length in Et.
          rewrite take_app_le in Et by done. done. }
        destruct Hp as [u ->]. exists x, u. by rewrite app_assoc.
    + right. destruct t as [|c' t].
      * cbn in Et. destruct n as [|c0 n]; [by exists [], b|]. cbn in Et. injection Et as <- _. exfalso. apply Hc. by left.
      * cbn in Et. injection Et as <- ->. by exists t, y.
  - intros [(x & y & ->)|(x & y & ->)].
    + exists x, (y ++ c :: b). by rewrite <-!app_assoc.
    + exists (a ++ c :: x), y. by rewrite <-!app_assoc.
Qed.

Lemma contains_same_length n h : length n = length h -> contains n h = true <-> h = n.
Proof.
  intros Hl. rewrite contains_true. split.
  - intros (a & b & ->). rewrite !length_app in Hl.
    destruct a; cbn in *; [|lia]. destruct b; cbn in *; [|lia]. apply app_nil_r.
  - intros ->. exists [], []. by rewrite app_nil_r.
Qed.

(** ** Mentioning a code *)

Definition separator (c : byte) : bool :=
  negb (contains_byte (to_ascii_lowercase c) (str "0x80070490"))
  && negb (contains_byte (to_ascii_lowercase c) (str "0x80070002")).

Lemma mentions_around a c b :
  separator c = true -> mentions_code (a ++ c :: b) = mentions_code a || mentions_code b.
Proof.
  unfold separator. rewrite andb_true_iff, !negb_true_iff. intros [H1 H2].
  assert (Hn : forall n x, contains_byte x n = false -> x ∉ n).
  { intros n x Hx Hin. unfold contains_byte in Hx. apply not_true_iff_false in Hx. apply Hx.
    apply existsb_exists. exists x. split; [by apply list_elem_of_In|]. unfold is_byte. by apply bool_decide_eq_true. }
  unfold mentions_code. rewrite map_app. cbn [map]. rewrite !contains_around by auto.
  by repeat destruct (contains _ _).
Qed.

Lemma mentions_inside a b c : mentions_code b = true -> mentions_code (a ++ b ++ c) = true.
Proof.
  unfold mentions_code. rewrite !orb_true_iff, !contains_true, !map_app.
  intros [(x & y & ->)|(x & y & ->)]; [left|right]; exists (map to_ascii_lowercase a ++ x), (y ++ map to_ascii_lowercase c);
    by rewrite <-!app_assoc.
Qed.
Lemma mentions_semicolon a b : mentions_code (a ++ str "; " ++ b) = mentions_code a || mentions_code b.
Proof.
  change (str "; ") with [Byte.x3b; Byte.x20]. cbn [app].
  rewrite mentions_around by reflexivity. reflexivity.
Qed.

(** An HRESULT is mentioned iff it is one of the two codes. *)
Lemma map_lower_upper_hex n v : map to_ascii_lowercase (map to_ascii_uppercase (hex_lower n v)) = hex_lower n v.
Proof.
  induction n as [|n IH]; cbn [hex_lower map]; [done|]. rewrite IH. f_equal.
  pose proof (nibble_of v (4 * Z.of_nat n)) as Hn. revert Hn. generalize (Z.land (Z.shiftr v (4 * Z.of_nat n)) 15).
  intros d Hd. unfold is_nibble in Hd.
  assert (d = 0 \/ d = 1 \/ d = 2 \/ d = 3 \/ d = 4 \/ d = 5 \/ d = 6 \/ d = 7 \/ d = 8 \/ d = 9 \/ d = 10
          \/ d = 11 \/ d = 12 \/ d = 13 \/ d = 14 \/ d = 15) as Hin by lia.
  by decompose [or] Hin; subst.
Qed.

Lemma hex_lower_mod n v k : 4 * Z.of_nat n <= k -> hex_lower n (v mod 2 ^ k) = hex_lower n v.
Proof.
  intros Hk. induction n as [|n IH]; cbn [hex_lower]; [done|]. rewrite IH by lia. do 2 f_equal.
  apply Z.bits_inj'. intros i Hi. rewrite !Z.land_spec. change 15 with (Z.ones 4).
  destruct (decide (i < 4)).
  - rewrite !Z.shiftr_spec by lia. by rewrite Z.mod_pow2_bits_low by lia.
  - rewrite Z.testbit_ones_nonneg by lia. rewrite (proj2 (Z.ltb_ge _ _)) by lia. by rewrite !andb_false_r.
Qed.

Lemma hex8_inj v code :
  0 <= code < 2 ^ 32 -> hex_lower 8 v = hex_lower 8 code <-> v mod 2 ^ 32 = code.
Proof.
  intros Hc. split.
  - intros E. rewrite <-(hex_lower_mod 8 v 32) in E by lia.
    apply (f_equal (parse_hex 32 0)) in E.
    rewrite !parse_hex_printed in E; try done; [congruence|]. unfold in_u. apply Z.mod_pos_bound. lia.
  - intros <-. by rewrite hex_lower_mod.
Qed.

Lemma mentions_hresult hr : mentions_code (hresult hr) = hns_absent hr.
Proof.
  unfold hresult. change (str "HRESULT 0x") with (str "HRESULT" ++ Byte.x20 :: str "0x").
  rewrite <-app_assoc. cbn [app]. rewrite mentions_around by reflexivity.
  change (mentions_code (str "HRESULT")) with false. rewrite orb_false_l.
  unfold mentions_code, hns_absent. rewrite map_app, map_lower_upper_hex.
  change (map to_ascii_lowercase (str "0x")) with (str "0x").
  assert (Hcode : forall code, 0 <= code < 2 ^ 32 ->
            contains (str "0x" ++ hex_lower 8 code) (str "0x" ++ hex_lower 8 hr) = (hr mod 2 ^ 32 =? code)).
  { intros code Hc. apply eq_bool_prop_intro. rewrite !Is_true_true, Z.eqb_eq, <-hex8_inj by done.
    rewrite contains_same_length by (by rewrite !length_app, !length_hex_lower).
    split; [intros E; by apply app_inv_head in E|by intros ->]. }
  f_equal; [exact (Hcode 0x80070490 ltac:(lia))|exact (Hcode 0x80070002 ltac:(lia))].
Qed.

(** ** Reports *)

Definition quiet (text : bytes) : Prop := mentions_code text = false.

Lemma quiet_around a c b : separator c = true -> quiet a -> quiet b -> quiet (a ++ c :: b).
Proof. unfold quiet. intros Hc Ha Hb. by rewrite mentions_around, Ha, Hb. Qed.
Lemma quiet_semicolon a b : quiet a -> quiet b -> quiet (a ++ str "; " ++ b).
Proof. unfold quiet. intros Ha Hb. by rewrite mentions_semicolon, Ha, Hb. Qed.
Lemma quiet_hresult hr : hns_absent hr = false -> quiet (hresult hr).
Proof. unfold quiet. by rewrite mentions_hresult. Qed.

(** A literal that ends in a separator can be put in front. *)
Definition is_lead (l : bytes) : bool :=
  negb (mentions_code (removelast l)) && separator (List.last l Byte.x00) && negb (is_empty l).
Lemma quiet_lead l b : is_lead l = true -> quiet b -> quiet (l ++ b).
Proof.
  unfold is_lead. rewrite !andb_true_iff, !negb_true_iff. intros [[Hm Hs] He] Hb. apply is_empty_false in He.
  rewrite (app_removelast_last Byte.x00 He), <-app_assoc. by apply quiet_around.
Qed.

(** No ['x'], no code. *)
Lemma quiet_no_x t : Byte.x78 ∉ map to_ascii_lowercase t -> quiet t.
Proof.
  intros Hx. unfold quiet, mentions_code. apply orb_false_iff.
  split; apply not_true_iff_false; rewrite contains_true; intros (a & b & E); apply Hx; rewrite E;
    rewrite !elem_of_app; right; left; apply list_elem_of_In; cbn; auto.
Qed.

Lemma quiet_display e : quiet (HcsError_display e).
Proof. by destruct e. Qed.

Lemma report_quiet r : resource_is_absent r = mentions_code (report_text r).
Proof. reflexivity. Qed.

Lemma report_text_mentions c ts :
  mentions_code (report_text {| context := c; attachments := ts |}) = existsb mentions_code ts.
Proof.
  unfold report_text. cbn [attachments Report_to_string context].
  enough (H : forall t, mentions_code (foldl (fun text a => text ++ str "; " ++ a) t ts)
                        = mentions_code t || existsb mentions_code ts).
  { rewrite H. unfold Report_to_string. cbn [context]. by rewrite (quiet_display c). }
  induction ts as [|a ts IH]; intros t; cbn [foldl existsb]; [by rewrite orb_false_r|].
  by rewrite IH, mentions_semicolon, orb_assoc.
Qed.

Lemma absent_one c t : resource_is_absent (attach (Report_new c) t) = mentions_code t.
Proof. rewrite report_quiet. unfold attach, Report_new. rewrite report_text_mentions. cbn. apply orb_false_r. Qed.
Lemma absent_two c t u :
  resource_is_absent (attach (attach (Report_new c) t) u) = mentions_code u || mentions_code t.
Proof.
  rewrite report_quiet. unfold attach, Report_new. rewrite report_text_mentions. cbn. by rewrite orb_false_r.
Qed.
Lemma absent_none c : resource_is_absent (Report_new c) = false.
Proof. rewrite report_quiet. unfold Report_new. by rewrite report_text_mentions. Qed.

(** Prove [quiet] of a text made of literals, HRESULTs and quiet parts. *)
Ltac quiet_text :=
  repeat lazymatch goal with
  | |- quiet (str _ ++ _) => apply quiet_lead; [reflexivity|]
  | |- quiet (hresult _ ++ str _ ++ _) => apply quiet_semicolon
  | |- quiet (hresult _) => apply quiet_hresult; assumption
  | |- quiet (str _) => reflexivity
  | |- _ => assumption
  end.
