(* ===== verification/Hns.v ===== *)
(** * Networks and endpoints

    [libs/hypervisor-hcs/src/hns.rs]: creation of a NAT network and its
    endpoint with a journal callback after each, roll-back, deletion by exact
    identity with the exact-name fallback, and the queries it uses.  The query
    and settings documents are serialised constants; their serialisation
    cannot fail and is left out. *)

From Stdlib Require Import ZArith Lia.
From stdpp Require Import base tactics option list numbers strings countable.
From S2P Require Import Prelude Bytes Text Guid HcsJournal HcsHost.

Section Hns.
Context `{UuidText}.

Definition network_error (text : bytes) : Report := attach (Report_new Network) text.

Definition delete_endpoint (g : Guid) : host unit :=
  a ← ask (HcnDeleteEndpoint g);
  if (hres a =? S_OK) || hns_absent (hres a) then mret tt
  else throw (network_error (str "HcnDeleteEndpoint failed: " ++ hresult (hres a) ++ str "; " ++ diag a)).
Definition delete_network (g : Guid) : host unit :=
  a ← ask (HcnDeleteNetwork g);
  if (hres a =? S_OK) || hns_absent (hres a) then mret tt
  else throw (network_error (str "HcnDeleteNetwork failed: " ++ hresult (hres a) ++ str "; " ++ diag a)).

(** Best effort: every failure is only logged. *)
Definition rollback_network_creation (network_id : Guid) (endpoint_id endpoint_handle : option Guid)
    (network_handle : bool) : host unit :=
  _ ← match endpoint_handle with
      | Some ep => _ ← ask (HcnCloseEndpoint ep); mret tt
      | None => mret tt
      end;
  _ ← (if network_handle then _ ← ask (HcnCloseNetwork network_id); mret tt else mret tt);
  _ ← match endpoint_id with
      | Some g => _ ← attempt (delete_endpoint g); mret tt
      | None => mret tt
      end;
  _ ← attempt (delete_network network_id);
  mret tt.

(** ** Queries *)

Definition parse_entry (collection : bytes) (e : EnumerationEntry) : res Report Guid :=
  raw ← match e with
        | EntryString raw => Ok raw
        | EntryObject id =>
          ok_or id (network_error (str "HNS " ++ collection ++ str " enumeration entry has no GUID"))
        end;
  ok_or (parse_guid_string (unbraced raw))
    (network_error (str "HNS " ++ collection ++ str " enumeration contains malformed GUID `" ++ raw ++ str "`")).

Definition parse_enumerated_ids (document : json EnumerationDocument) (collection : bytes)
    (entries : EnumerationDocument -> list EnumerationEntry) : res Report (list Guid) :=
  match document with
  | Blank => Ok []
  | NotJson error => Err (network_error (str "parse HNS " ++ collection ++ str " enumeration: " ++ error))
  | Parsed d => for_each (fun ids e => g ← parse_entry collection e; Ok (ids ++ [g])) (entries d) []
  end.

(** A blank document is no JSON object either. *)
Definition property_name (document : json ResourceProperties) (resource : bytes) : res Report (option bytes) :=
  match document with
  | Parsed p => Ok (prop_name p)
  | Blank => Err (network_error (str "parse HNS " ++ resource ++ str " properties: "))
  | NotJson error => Err (network_error (str "parse HNS " ++ resource ++ str " properties: " ++ error))
  end.

Definition network_name_for_id (id : Guid) : host (option bytes) :=
  '(o, handle) ← ask (HcnOpenNetwork id);
  if negb (hres o =? S_OK) || negb handle then
    if hns_absent (hres o) then mret None
    else throw (network_error (str "HcnOpenNetwork failed: " ++ hresult (hres o) ++ str "; " ++ diag o))
  else
  '(q, properties) ← ask (HcnQueryNetworkProperties id);
  close_result ← ask (HcnCloseNetwork id);
  if negb (hres q =? S_OK) then
    throw (network_error (str "HcnQueryNetworkProperties failed: " ++ hresult (hres q) ++ str "; " ++ diag q))
  else if negb (close_result =? S_OK) then
    throw (network_error (str "HcnCloseNetwork failed while checking a recovery candidate: " ++ hresult close_result))
  else ret_res (property_name properties (str "network")).

Definition endpoint_name_for_id (id : Guid) : host (option bytes) :=
  '(o, handle) ← ask (HcnOpenEndpoint id);
  if negb (hres o =? S_OK) || negb handle then
    if hns_absent (hres o) then mret None
    else throw (network_error (str "HcnOpenEndpoint failed: " ++ hresult (hres o) ++ str "; " ++ diag o))
  else
  '(q, properties) ← ask (HcnQueryEndpointProperties id);
  close_result ← ask (HcnCloseEndpoint id);
  if negb (hres q =? S_OK) then
    throw (network_error (str "HcnQueryEndpointProperties failed: " ++ hresult (hres q) ++ str "; " ++ diag q))
  else if negb (close_result =? S_OK) then
    throw (network_error (str "HcnCloseEndpoint failed while checking a recovery candidate: " ++ hresult close_result))
  else ret_res (property_name properties (str "endpoint")).

(** The candidates in order; the first whose own name is the one sought. *)
Fixpoint first_named (name_of : Guid -> host (option bytes)) (name : bytes) (candidates : list Guid)
  : host (option Guid) :=
  match candidates with
  | [] => mret None
  | g :: candidates =>
    n ← name_of g;
    if bool_decide (n = Some name) then mret (Some g) else first_named name_of name candidates
  end.

Definition find_network_id_by_name (name : bytes) : host (option Guid) :=
  '(o, document) ← ask (HcnEnumerateNetworks name);
  if negb (hres o =? S_OK) then
    if hns_absent (hres o) then mret None
    else throw (network_error (str "HcnEnumerateNetworks(name=" ++ name ++ str ") failed: "
                               ++ hresult (hres o) ++ str "; " ++ diag o))
  else
  candidates ← ret_res (parse_enumerated_ids document (str "Networks") doc_networks);
  first_named network_name_for_id name candidates.

Definition find_endpoint_id_by_name (name : bytes) : host (option Guid) :=
  '(o, document) ← ask (HcnEnumerateEndpoints name);
  if negb (hres o =? S_OK) then
    if hns_absent (hres o) then mret None
    else throw (network_error (str "HcnEnumerateEndpoints(name=" ++ name ++ str ") failed: "
                               ++ hresult (hres o) ++ str "; " ++ diag o))
  else
  candidates ← ret_res (parse_enumerated_ids document (str "Endpoints") doc_endpoints);
  first_named endpoint_name_for_id name candidates.

(** ** Deletion *)

Record NetworkState : Type := {
  ns_network_id : Guid; ns_endpoint_id : Guid; ns_endpoint_id_string : bytes;
  ns_endpoint_handle : Guid; ns_network_handle : Guid }.

(** [failures.push(error.to_string())]: only the context is printed. *)
Definition collect (failures : list bytes) (p : host unit) : host (list bytes) :=
  r ← attempt p;
  match r with
  | Err error => mret (failures ++ [Report_to_string error])
  | _ => mret failures
  end.
Definition collect_hr (failures : list bytes) (what : bytes) (hr : Z) : list bytes :=
  if negb (hr =? S_OK) then failures ++ [what ++ str " failed: " ++ hresult hr] else failures.
Definition joined (failures : list bytes) : host unit :=
  match failures with
  | [] => mret tt
  | _ => throw (network_error (join_with (str "; ") failures))
  end.

Definition close_and_delete_result (state : NetworkState) : host unit :=
  hr ← ask (HcnCloseEndpoint (ns_endpoint_handle state));
  let failures := collect_hr [] (str "HcnCloseEndpoint") hr in
  failures ← collect failures (delete_endpoint (ns_endpoint_id state));
  hr ← ask (HcnCloseNetwork (ns_network_handle state));
  let failures := collect_hr failures (str "HcnCloseNetwork") hr in
  failures ← collect failures (delete_network (ns_network_id state));
  joined failures.

(** The exact recorded identity, or the object of the exact recorded name. *)
Definition resolve (id : option bytes) (by_name : host (option Guid)) : host (option Guid) :=
  match classify_journal_id id with
  | Some (Exact g) => mret (Some g)
  | Some Malformed | None => by_name
  end.
Definition delete_found (failures : list bytes) (guid : option Guid) (del : Guid -> host unit)
  : host (list bytes) :=
  match guid with Some g => collect failures (del g) | None => mret failures end.

Definition delete_exact (network_id : option bytes) (network_name : bytes)
    (endpoint_id : option bytes) (endpoint_name : bytes) : host unit :=
  endpoint_guid ← resolve endpoint_id (find_endpoint_id_by_name endpoint_name);
  failures ← delete_found [] endpoint_guid delete_endpoint;
  network_guid ← resolve network_id (find_network_id_by_name network_name);
  failures ← delete_found failures network_guid delete_network;
  joined failures.

(** ** Creation *)

Definition parse_endpoint_id_from_props (properties : json ResourceProperties) : bytes + Guid :=
  match properties with
  | Parsed p =>
    match prop_id p with
    | None => inl (str "endpoint properties JSON has no `ID`/`Id` field")
    | Some raw =>
      match parse_guid_string (unbraced raw) with
      | Some g => inr g
      | None => inl (str "malformed endpoint GUID string `" ++ raw ++ str "`")
      end
    end
  | Blank => inl (str "endpoint properties JSON is invalid: ")
  | NotJson error => inl (str "endpoint properties JSON is invalid: " ++ error)
  end.

Definition hns_document (d : bytes) : bytes :=
  if is_empty d then [] else str ": HNS error document: " ++ d.

Definition nat_name (vm_id : Uuid) : bytes := str "jyth-nat-" ++ uuid_to_string vm_id.
Definition ep_name (vm_id : Uuid) : bytes := str "jyth-ep-" ++ uuid_to_string vm_id.

(** Undo the creation, then fail. *)
Definition roll_back_and {A} (p : host unit) (e : Report) : host A := _ ← p; throw e.

(** The second half, with the network in place. *)
Definition create_endpoint (vm_id : Uuid) (network_id : Guid) (on_endpoint_created : bytes -> host unit)
  : host NetworkState :=
  let network_name := nat_name vm_id in
  let endpoint_name := ep_name vm_id in
  '(o, endpoint_handle, endpoint_id_out) ← ask (HcnCreateEndpoint network_id endpoint_name);
  match (if hres o =? S_OK then endpoint_handle else None) with
  | None =>
    roll_back_and
      (rollback_network_creation network_id (_ ← endpoint_handle; Some endpoint_id_out) endpoint_handle true)
      (network_error (str "HcnCreateEndpoint(" ++ endpoint_name ++ str ") on " ++ network_name ++ str " failed: "
                      ++ hresult (hres o) ++ hns_document (diag o)))
  | Some ep =>
  let roll_back := rollback_network_creation network_id (Some endpoint_id_out) (Some ep) true in
  '(q, properties) ← ask (HcnQueryEndpointProperties ep);
  if negb (hres q =? S_OK) then
    roll_back_and roll_back
      (network_error (str "HcnQueryEndpointProperties(" ++ endpoint_name ++ str ") failed: "
                      ++ hresult (hres q) ++ hns_document (diag q)))
  else
  match properties with
  | Blank =>
    roll_back_and roll_back
      (network_error (str "HcnQueryEndpointProperties returned an empty properties document"))
  | _ =>
  match parse_endpoint_id_from_props properties with
  | inl parse_err => roll_back_and roll_back (network_error parse_err)
  | inr endpoint_id =>
  let endpoint_id_string := format_endpoint_id_string endpoint_id in
  r ← attempt (on_endpoint_created endpoint_id_string);
  match r with
  | Err error => roll_back_and roll_back error
  | Panic => HDone Panic
  | Ok _ =>
    mret {| ns_network_id := network_id; ns_endpoint_id := endpoint_id;
            ns_endpoint_id_string := endpoint_id_string; ns_endpoint_handle := ep;
            ns_network_handle := network_id |}
  end end end end.

Definition create_network_and_endpoint_with_callbacks (vm_id network_id_uuid : Uuid)
    (on_network_created on_endpoint_created : bytes -> host unit) : host NetworkState :=
  let network_name := nat_name vm_id in
  let network_id := Guid_from_uuid network_id_uuid in
  _ ← check (Prepare NetworkSettings) id;
  '(o, handle) ← ask (HcnCreateNetwork network_id network_name);
  if negb (hres o =? S_OK) || negb handle then
    roll_back_and (rollback_network_creation network_id None None handle)
      (network_error (str "HcnCreateNetwork(name=" ++ network_name ++ str ") failed: "
                      ++ hresult (hres o) ++ hns_document (diag o)))
  else
  let network_id_string := format_endpoint_id_string network_id in
  r ← attempt (on_network_created network_id_string);
  match r with
  | Err error => roll_back_and (rollback_network_creation network_id None None true) error
  | Panic => HDone Panic
  | Ok _ => create_endpoint vm_id network_id on_endpoint_created
  end.
End Hns.
