(* ===== verification/HnsSafe.v ===== *)
(** * Deletion of networks is exact

    What [delete_exact], [close_and_delete_result] and the roll-back of [Hns]
    do on an honest host: success means that the machine's network and
    endpoint are gone, and no failure is mistaken for absence. *)

From Stdlib Require Import ZArith Lia.
From stdpp Require Import base tactics option list numbers strings countable gmap fin_maps fin_sets.
From S2P Require Import Prelude Bytes Text BTree Guid HcsJournal HcsHost HcsText Hns.

Abbreviation net_named w id g := (w_networks w !! g = Some (nat_name id)).
Abbreviation ep_named w id g := (w_endpoints w !! g = Some (ep_name id)).

Section HnsSafe.
Context `{UuidLaws}.

(** [w'] has no machine resource that [w] has not, and the same journals. *)
Record shrinks (w w' : World) : Prop := {
  shrinks_sessions : w_sessions w' = w_sessions w;
  shrinks_compute : w_compute w' ⊆ w_compute w;
  shrinks_networks g id : net_named w' id g -> net_named w id g;
  shrinks_endpoints g id : ep_named w' id g -> ep_named w id g }.

#[global] Instance shrinks_preorder : PreOrder shrinks.
Proof.
  split.
  - by intros w; split.
  - intros a b c [] []. split; [congruence|set_solver|eauto..].
Qed.

Definition closed (I : World -> Prop) : Prop := forall w w', I w -> shrinks w w' -> I w'.

Lemma nat_name_inj u v : nat_name u = nat_name v -> u = v.
Proof. intros E. apply app_inv_head in E. by apply uuid_to_string_inj. Qed.
Lemma ep_name_inj u v : ep_name u = ep_name v -> u = v.
Proof. intros E. apply app_inv_head in E. by apply uuid_to_string_inj. Qed.

(** Calls that only shrink the world. *)
Definition shrinking (c : call) : bool :=
  match c with
  | HcsCreateComputeSystem _ | HcnCreateNetwork _ _ | HcnCreateEndpoint _ _
  | CreateDatabase _ | RemoveDatabase _ => false
  | _ => true
  end.

Lemma shrinking_call c w a w' : shrinking c = true -> windows_call c w a w' -> shrinks w w'.
Proof.
  intros Hc Hw. destruct c; cbn in Hc; try discriminate Hc; cbn in Hw;
    repeat match goal with
    | H : _ /\ _ |- _ => destruct H
    | H : _ \/ _ |- _ => destruct H
    | H : exists _, _ |- _ => destruct H
    | H : match ?x with _ => _ end |- _ => destruct x
    end; subst; try reflexivity; try (split; cbn; [done|set_solver|..]; intros ? ?; try done;
      rewrite lookup_delete_Some; tauto); try (split; cbn; by auto).
  destruct a; split; cbn; by auto.
Qed.

Lemma safe_shrink I c Q w :
  closed I -> shrinking c = true -> I w ->
  (forall a w', I w' -> shrinks w w' -> windows_call c w a w' -> honest c a -> Q (Ok a) w') ->
  safe honest_windows I (ask c) Q w.
Proof.
  intros HI Hc Iw HQ. apply safe_ask; [done|]. intros a w' [Hw Hh].
  pose proof (shrinking_call _ _ _ _ Hc Hw). split; [by eapply HI|]. by apply HQ; [eapply HI|..].
Qed.

(** Reports of this file that mention no code. *)
Lemma network_error_quiet t : quiet t -> resource_is_absent (network_error t) = false.
Proof. intros. unfold network_error. by rewrite absent_one. Qed.

Lemma quiet_name_uuid p u : Byte.x78 ∉ map to_ascii_lowercase p -> quiet (p ++ uuid_to_string u).
Proof.
  intros Hp. apply quiet_no_x. rewrite map_app, not_elem_of_app. split; [done|].
  rewrite uuid_to_string_hyphenated.
  rewrite <-(proj2 (parse_guid_inv _ _ (parse_format_guid _ (as_fields_typed u)))).
  apply format_guid_no_x.
Qed.
Lemma quiet_nat_name u : quiet (nat_name u).
Proof. apply quiet_name_uuid, (bool_decide_unpack _). by vm_compute. Qed.
Lemma quiet_ep_name u : quiet (ep_name u).
Proof. apply quiet_name_uuid, (bool_decide_unpack _). by vm_compute. Qed.
Lemma quiet_failed a b : quiet a -> quiet b -> quiet (a ++ str ") failed: " ++ b).
Proof.
  intros Ha Hb. change (str ") failed: ") with ([Byte.x29] ++ str " failed: "). rewrite <-app_assoc.
  apply quiet_around; [reflexivity|done|]. by apply quiet_lead.
Qed.

Section Programs.
Context (I : World -> Prop) (HI : closed I).

Lemma delete_endpoint_safe g Q w :
  I w ->
  (forall r w', I w' -> shrinks w w' -> r <> Panic -> (r = Ok tt -> w_endpoints w' !! g = None) -> Q r w') ->
  safe honest_windows I (delete_endpoint g) Q w.
Proof.
  intros Iw HQ. apply safe_bind, safe_shrink; [done..|]. intros a w' Iw' Hs [_ Hg] _.
  destruct (_ || _) eqn:E.
  - apply safe_ret; [done|]. apply HQ; [done..|]. intros _. apply Hg.
    apply orb_true_iff in E as [?%Z.eqb_eq|?]; auto.
  - apply safe_throw; [done|]. by apply HQ.
Qed.
Lemma delete_network_safe g Q w :
  I w ->
  (forall r w', I w' -> shrinks w w' -> r <> Panic -> (r = Ok tt -> w_networks w' !! g = None) -> Q r w') ->
  safe honest_windows I (delete_network g) Q w.
Proof.
  intros Iw HQ. apply safe_bind, safe_shrink; [done..|]. intros a w' Iw' Hs [_ Hg] _.
  destruct (_ || _) eqn:E.
  - apply safe_ret; [done|]. apply HQ; [done..|]. intros _. apply Hg.
    apply orb_true_iff in E as [?%Z.eqb_eq|?]; auto.
  - apply safe_throw; [done|]. by apply HQ.
Qed.

Lemma stays_ask c : shrinking c = true -> along honest_windows True I shrinks (ask c).
Proof. intros Hc w Iw. by apply safe_shrink. Qed.
End Programs.
End HnsSafe.

(** Programs that only shrink the world. *)
Abbreviation stays I p := (along honest_windows True I shrinks p).
#[export] Hint Extern 1 (along _ _ _ shrinks (ask _)) => apply stays_ask; [assumption|reflexivity] : along.

Lemma safe_stays `{UuidText} (I : World -> Prop) {A} (p : host A) Q w :
  stays I p -> I w -> (forall r w', I w' -> shrinks w w' -> r <> Panic -> Q r w') -> safe honest_windows I p Q w.
Proof. intros Hp Iw HQ. apply (safe_along honest_windows True I shrinks); auto. Qed.

Section HnsExact.
Context `{UuidLaws} (I : World -> Prop) (HI : closed I).

Lemma delete_endpoint_stays g : stays I (delete_endpoint g).
Proof. unfold delete_endpoint. along. Qed.
Lemma delete_network_stays g : stays I (delete_network g).
Proof. unfold delete_network. along. Qed.
#[local] Hint Resolve delete_endpoint_stays delete_network_stays : along.

Lemma rollback_stays net ep eph neth : stays I (rollback_network_creation net ep eph neth).
Proof. unfold rollback_network_creation. along. Qed.

(** ** Names of objects *)

(** A query of [objects] at [g]: the world is untouched, the answer exact, and
    no failure is mistaken for absence. *)
Definition names_exactly (objects : World -> gmap Guid bytes) (name_of : Guid -> host (option bytes)) : Prop :=
  forall g w, I w ->
  safe honest_windows I (name_of g) (fun r w' => w' = w /\
    match r with Ok o => objects w !! g = o | Err e => resource_is_absent e = false | Panic => False end) w.

Ltac quiet := apply network_error_quiet; quiet_text.

Lemma network_names_exactly : names_exactly w_networks network_name_for_id.
Proof.
  intros g w Iw. apply safe_bind, safe_shrink; [done..|].
  intros [o handle] w' _ _ (-> & Ha & Hs) Ho. cbn in Ha, Hs, Ho.
  destruct (hres o =? S_OK) eqn:E; cbn [negb orb].
  - apply Z.eqb_eq in E. destruct handle; cbn [negb].
    + destruct (Hs E eq_refl) as [n Hn]. apply safe_bind, safe_shrink; [done..|].
      intros [q props] w' _ _ [-> Hd] (Hq & Hqd & Hqp). cbn in Hd, Hq, Hqd, Hqp.
      apply safe_bind, safe_shrink; [done..|]. intros cr w' _ _ Hw Hc. cbn in Hw, Hc. subst w'.
      destruct (hres q =? S_OK) eqn:Eq; cbn [negb].
      * apply Z.eqb_eq in Eq. destruct (cr =? S_OK) eqn:Ec; cbn [negb].
        -- split; [done|]. split; [done|]. destruct props as [|e|p]; cbn.
           ++ by quiet.
           ++ by quiet.
           ++ by destruct (Hd p n Eq eq_refl Hn) as [-> _].
        -- apply safe_throw; [done|]. split; [done|]. by quiet.
      * apply safe_throw; [done|]. split; [done|]. by quiet.
    + destruct (hns_absent (hres o)) eqn:E'; [by rewrite E in E'|]. apply safe_throw; [done|]. split; [done|]. by quiet.
  - destruct (hns_absent (hres o)) eqn:E'.
    + apply safe_ret; [done|]. split; [done|]. by apply Ha.
    + apply safe_throw; [done|]. split; [done|]. by quiet.
Qed.
Lemma endpoint_names_exactly : names_exactly w_endpoints endpoint_name_for_id.
Proof.
  intros g w Iw. apply safe_bind, safe_shrink; [done..|].
  intros [o handle] w' _ _ (-> & Ha & Hs) Ho. cbn in Ha, Hs, Ho.
  destruct (hres o =? S_OK) eqn:E; cbn [negb orb].
  - apply Z.eqb_eq in E. destruct handle; cbn [negb].
    + destruct (Hs E eq_refl) as [n Hn]. apply safe_bind, safe_shrink; [done..|].
      intros [q props] w' _ _ [-> Hd] (Hq & Hqd & Hqp). cbn in Hd, Hq, Hqd, Hqp.
      apply safe_bind, safe_shrink; [done..|]. intros cr w' _ _ Hw Hc. cbn in Hw, Hc. subst w'.
      destruct (hres q =? S_OK) eqn:Eq; cbn [negb].
      * apply Z.eqb_eq in Eq. destruct (cr =? S_OK) eqn:Ec; cbn [negb].
        -- split; [done|]. split; [done|]. destruct props as [|e|p]; cbn.
           ++ by quiet.
           ++ by quiet.
           ++ by destruct (Hd p n Eq eq_refl Hn) as [-> _].
        -- apply safe_throw; [done|]. split; [done|]. by quiet.
      * apply safe_throw; [done|]. split; [done|]. by quiet.
    + destruct (hns_absent (hres o)) eqn:E'; [by rewrite E in E'|]. apply safe_throw; [done|]. split; [done|]. by quiet.
  - destruct (hns_absent (hres o)) eqn:E'.
    + apply safe_ret; [done|]. split; [done|]. by apply Ha.
    + apply safe_throw; [done|]. split; [done|]. by quiet.
Qed.

Lemma first_named_exact objects name_of name cs w :
  names_exactly objects name_of -> I w ->
  safe honest_windows I (first_named name_of name cs) (fun r w' => w' = w /\
    match r with
    | Ok (Some g) => objects w !! g = Some name
    | Ok None => forall g, g ∈ cs -> objects w !! g <> Some name
    | Err e => resource_is_absent e = false
    | Panic => False
    end) w.
Proof.
  intros Hn Iw. induction cs as [|g cs IH]; cbn [first_named].
  { apply safe_ret; [done|]. split; [done|]. intros g Hg. by apply not_elem_of_nil in Hg. }
  apply safe_bind. eapply safe_mono; [by apply Hn|done|]. intros [o|e|] w' _ [-> Hr]; [|done..].
  case_bool_decide as Ho.
  - apply safe_ret; [done|]. split; [done|]. congruence.
  - eapply safe_mono; [by apply IH|done|]. intros [[g'|]|e|] w' _ [-> Hr']; [done| |done..].
    split; [done|]. intros g' [->|?]%elem_of_cons; [congruence|by apply Hr'].
Qed.

Lemma parse_entry_spec coll e :
  is_lead coll = true -> (forall t, t ∈ entry_texts e -> quiet t) ->
  match parse_entry coll e with
  | Ok g => entry_guid e = Some g
  | Err r => resource_is_absent r = false
  | Panic => False
  end.
Proof.
  intros Hl Ht. unfold parse_entry, entry_guid.
  assert (Hraw : forall raw, quiet raw -> quiet (str "HNS " ++ coll ++ str " enumeration contains malformed GUID `" ++ raw ++ str "`")).
  { intros raw Hr. apply quiet_lead; [reflexivity|]. apply quiet_lead; [done|]. apply quiet_lead; [reflexivity|].
    by apply (quiet_around raw Byte.x60 []). }
  destruct e as [raw|[raw|]]; cbn [mbind option_bind res_bind ok_or entry_texts] in *.
  - destruct (parse_guid_string (unbraced raw)) eqn:E; cbn [ok_or]; [done|]. apply network_error_quiet, Hraw, Ht. by left.
  - destruct (parse_guid_string (unbraced raw)) eqn:E; cbn [ok_or]; [done|]. apply network_error_quiet, Hraw, Ht. by left.
  - apply network_error_quiet. apply quiet_lead; [reflexivity|]. by apply quiet_lead.
Qed.

Lemma parse_ids_spec document coll entries' :
  is_lead coll = true ->
  match document with
  | NotJson e => quiet e
  | Parsed d => forall e t, e ∈ entries' d -> t ∈ entry_texts e -> quiet t
  | Blank => True
  end ->
  match parse_enumerated_ids document coll entries' with
  | Ok ids =>
    match document with
    | Parsed d => forall e, e ∈ entries' d -> exists g, g ∈ ids /\ entry_guid e = Some g
    | Blank => True
    | NotJson _ => False
    end
  | Err r => resource_is_absent r = false
  | Panic => False
  end.
Proof.
  intros Hl Hq. destruct document as [|e|d]; cbn [parse_enumerated_ids].
  - done.
  - apply network_error_quiet. apply quiet_lead; [reflexivity|]. apply quiet_lead; [done|]. by apply quiet_lead.
  - generalize dependent (entries' d). intros es Hq.
    enough (forall acc, match for_each (fun ids e => g ← parse_entry coll e; Ok (ids ++ [g])) es acc with
      | Ok ids => (forall g, g ∈ acc -> g ∈ ids) /\ forall e, e ∈ es -> exists g, g ∈ ids /\ entry_guid e = Some g
      | Err r => resource_is_absent r = false | Panic => False end) as Hgen.
    { specialize (Hgen []). destruct (for_each _ es []); [|done..]. apply Hgen. }
    induction es as [|e es IH]; intros acc; cbn [for_each].
    { split; [done|]. intros e He. by apply not_elem_of_nil in He. }
    pose proof (parse_entry_spec coll e Hl ltac:(intros t; apply (Hq e); by left)) as He.
    destruct (parse_entry coll e) as [g|r|]; cbn; [|done..].
    specialize (IH ltac:(intros e' t ??; eapply Hq; [by right|done]) (acc ++ [g])).
    destruct (for_each _ es (acc ++ [g])) as [ids|r|]; [|done..]. destruct IH as [Hin IH].
    split; [intros g' ?; apply Hin, elem_of_app; by left|].
    intros e' [->|?]%elem_of_cons; [|by apply IH]. exists g. split.
    + apply Hin, elem_of_app. right. by left.
    + done.
Qed.

(** Finding an object by its exact name. *)
Definition finds_exactly (objects : World -> gmap Guid bytes) (name : bytes) (find : host (option Guid)) : Prop :=
  forall w, I w ->
  safe honest_windows I find (fun r w' => w' = w /\
    match r with
    | Ok (Some g) => objects w !! g = Some name
    | Ok None => forall g, objects w !! g <> Some name
    | Err e => resource_is_absent e = false
    | Panic => False
    end) w.

Lemma found_among objects (name_of : Guid -> host (option bytes)) name document coll entries' a w :
  names_exactly objects name_of -> I w -> is_lead coll = true ->
  match document with
  | NotJson e => quiet e
  | Parsed d => forall e t, e ∈ entries' d -> t ∈ entry_texts e -> quiet t
  | Blank => True
  end ->
  enumerates (objects w) name entries' (a, document) -> hres a = S_OK ->
  safe honest_windows I
    (candidates ← ret_res (parse_enumerated_ids document coll entries'); first_named name_of name candidates)
    (fun r w' => w' = w /\
    match r with
    | Ok (Some g) => objects w !! g = Some name
    | Ok None => forall g, objects w !! g <> Some name
    | Err e => resource_is_absent e = false
    | Panic => False
    end) w.
Proof.
  intros Hn Iw Hl Hq [_ He] Ha. specialize (He Ha). cbn in He.
  pose proof (parse_ids_spec document coll entries' Hl Hq) as Hp.
  apply safe_bind. split; [done|]. destruct (parse_enumerated_ids _ _ _) as [ids|e|]; [|done..].
  eapply safe_mono; [by apply first_named_exact|done|].
  intros [[g|]|e|] w' _ [-> Hr]; [done| |done..]. split; [done|]. intros g Hg.
  destruct document as [|e|d]; [by eapply He|done|].
  destruct (He g Hg) as (e & Hin & Eg). destruct (Hp e Hin) as (g' & Hin' & Eg').
  rewrite Eg in Eg'. injection Eg' as <-. by eapply Hr.
Qed.

Lemma find_network_exactly id : finds_exactly w_networks (nat_name id) (find_network_id_by_name (nat_name id)).
Proof.
  intros w Iw. apply safe_bind, safe_shrink; [done..|].
  intros [o document] w' _ _ [-> He] [Hd Hq]. cbn in He, Hd, Hq.
  destruct (hres o =? S_OK) eqn:E; cbn [negb].
  - apply Z.eqb_eq in E. by eapply found_among; [apply network_names_exactly|..].
  - destruct (hns_absent (hres o)) eqn:E'.
    + apply safe_ret; [done|]. split; [done|]. by apply He.
    + apply safe_throw; [done|]. split; [done|]. apply network_error_quiet.
      apply quiet_lead; [reflexivity|]. by apply quiet_failed; [apply quiet_nat_name|quiet_text].
Qed.
Lemma find_endpoint_exactly id : finds_exactly w_endpoints (ep_name id) (find_endpoint_id_by_name (ep_name id)).
Proof.
  intros w Iw. apply safe_bind, safe_shrink; [done..|].
  intros [o document] w' _ _ [-> He] [Hd Hq]. cbn in He, Hd, Hq.
  destruct (hres o =? S_OK) eqn:E; cbn [negb].
  - apply Z.eqb_eq in E. by eapply found_among; [apply endpoint_names_exactly|..].
  - destruct (hns_absent (hres o)) eqn:E'.
    + apply safe_ret; [done|]. split; [done|]. by apply He.
    + apply safe_throw; [done|]. split; [done|]. apply network_error_quiet.
      apply quiet_lead; [reflexivity|]. by apply quiet_failed; [apply quiet_ep_name|quiet_text].
Qed.

(** ** Deletion *)

(** [g] is the only object of that name, if any. *)
Definition covers (objects : gmap Guid bytes) (name : bytes) (g : Guid) : Prop :=
  forall g', objects !! g' = Some name -> g' = g.
Definition unnamed (objects : gmap Guid bytes) (name : bytes) : Prop :=
  forall g, objects !! g <> Some name.
Definition sole (objects : gmap Guid bytes) (name : bytes) : Prop :=
  forall g g', objects !! g = Some name -> objects !! g' = Some name -> g = g'.
(** What a journaled identity promises. *)
Definition id_covers (objects : gmap Guid bytes) (name : bytes) (id : option bytes) : Prop :=
  forall g, classify_journal_id id = Some (Exact g) -> covers objects name g.

Lemma resolve_exact objects name id find w :
  finds_exactly objects name find -> I w -> id_covers (objects w) name id -> sole (objects w) name ->
  safe honest_windows I (resolve id find) (fun r w' => w' = w /\
    match r with
    | Ok (Some g) => covers (objects w) name g
    | Ok None => unnamed (objects w) name
    | Err e => resource_is_absent e = false
    | Panic => False
    end) w.
Proof.
  intros Hf Iw Hid Hs. unfold resolve. destruct (classify_journal_id id) as [[g|]|] eqn:E.
  - apply safe_ret; [done|]. split; [done|]. by apply Hid.
  - eapply safe_mono; [by apply Hf|done|]. intros [[g|]|e|] w' _ [-> Hr]; try done.
    split; [done|]. intros g' Hg'. by apply Hs.
  - eapply safe_mono; [by apply Hf|done|]. intros [[g|]|e|] w' _ [-> Hr]; try done.
    split; [done|]. intros g' Hg'. by apply Hs.
Qed.

(** One deletion: what is left, or one more failure. *)
Definition deletes (objects : World -> gmap Guid bytes) (del : Guid -> host unit) : Prop :=
  forall g Q w, I w ->
  (forall r w', I w' -> shrinks w w' -> r <> Panic -> (r = Ok tt -> objects w' !! g = None) -> Q r w') ->
  safe honest_windows I (del g) Q w.

Lemma collect_deletes objects del g failures w (name : bytes) :
  deletes objects del -> I w ->
  (forall w', shrinks w w' -> forall g', objects w' !! g' = Some name -> objects w !! g' = Some name) ->
  covers (objects w) name g -> Forall quiet failures ->
  safe honest_windows I (collect failures (del g)) (fun r w' => shrinks w w' /\
    match r with
    | Ok fs => Forall quiet fs /\ (fs = [] -> failures = [] /\ unnamed (objects w') name)
    | _ => False
    end) w.
Proof.
  intros Hd Iw Hsh Hc Hq. apply safe_bind, safe_attempt, Hd; [done|].
  intros [[]|e|] w' Iw' Hs Hn Hg; [| |done].
  - apply safe_ret; [done|]. split; [done|]. split; [done|]. intros ->. split; [done|].
    intros g' Hg'. rewrite (Hc g') in Hg' by eauto. by rewrite Hg in Hg'.
  - apply safe_ret; [done|]. split; [done|]. split.
    + apply Forall_app. split; [done|]. constructor; [apply quiet_display|done].
    + by intros [_ ?]%app_eq_nil.
Qed.

Lemma delete_found_deletes objects del o failures w (name : bytes) :
  deletes objects del -> I w ->
  (forall w', shrinks w w' -> forall g', objects w' !! g' = Some name -> objects w !! g' = Some name) ->
  match o with Some g => covers (objects w) name g | None => unnamed (objects w) name end ->
  Forall quiet failures ->
  safe honest_windows I (delete_found failures o del) (fun r w' => shrinks w w' /\
    match r with
    | Ok fs => Forall quiet fs /\ (fs = [] -> failures = [] /\ unnamed (objects w') name)
    | _ => False
    end) w.
Proof.
  intros Hd Iw Hsh Ho Hq. destruct o as [g|]; cbn [delete_found].
  - by apply collect_deletes.
  - apply safe_ret; [done|]. split; [done|]. split; [done|]. by intros ->.
Qed.

Lemma quiet_join fs : Forall quiet fs -> quiet (join_with (str "; ") fs).
Proof.
  intros H1. induction H1 as [|f fs Hf Hfs IH]; [done|]. destruct fs as [|g fs]; [done|].
  cbn [join_with]. by apply quiet_semicolon.
Qed.

Lemma joined_spec fs Q w :
  I w -> Forall quiet fs -> (fs = [] -> Q (Ok tt) w) ->
  (forall e, resource_is_absent e = false -> Q (Err e) w) ->
  safe honest_windows I (joined fs) Q w.
Proof.
  intros Iw Hq H1 H2. destruct fs as [|f fs]; cbn [joined]; [apply safe_ret; auto|].
  apply safe_throw; [done|]. apply H2, network_error_quiet. by apply quiet_join.
Qed.

Lemma deletes_endpoint : deletes w_endpoints delete_endpoint.
Proof. intros g Q w. by apply delete_endpoint_safe. Qed.
Lemma deletes_network : deletes w_networks delete_network.
Proof. intros g Q w. by apply delete_network_safe. Qed.

(** The network and the endpoint of a machine are gone. *)
Definition net_gone (w : World) (id : Uuid) : Prop :=
  unnamed (w_networks w) (nat_name id) /\ unnamed (w_endpoints w) (ep_name id).

Lemma unnamed_shrinks_net w w' id :
  shrinks w w' -> unnamed (w_networks w) (nat_name id) -> unnamed (w_networks w') (nat_name id).
Proof. intros Hs Hu g Hg. by eapply Hu, shrinks_networks. Qed.
Lemma unnamed_shrinks_ep w w' id :
  shrinks w w' -> unnamed (w_endpoints w) (ep_name id) -> unnamed (w_endpoints w') (ep_name id).
Proof. intros Hs Hu g Hg. by eapply Hu, shrinks_endpoints. Qed.
Lemma net_gone_shrinks w w' id : shrinks w w' -> net_gone w id -> net_gone w' id.
Proof. intros Hs [? ?]. split; eauto using unnamed_shrinks_net, unnamed_shrinks_ep. Qed.

(** The outcome of a deletion: success means gone, no failure reads as
    absence. *)
Definition deletion_post (w : World) (id : Uuid) (r : res Report unit) (w' : World) : Prop :=
  shrinks w w' /\
  match r with
  | Ok _ => net_gone w' id
  | Err e => resource_is_absent e = false
  | Panic => False
  end.

Record net_known (w : World) (id : Uuid) (nid eid : option bytes) : Prop := {
  known_network : id_covers (w_networks w) (nat_name id) nid;
  known_endpoint : id_covers (w_endpoints w) (ep_name id) eid;
  sole_network : sole (w_networks w) (nat_name id);
  sole_endpoint : sole (w_endpoints w) (ep_name id) }.

Lemma net_known_shrinks w w' id nid eid : shrinks w w' -> net_known w id nid eid -> net_known w' id nid eid.
Proof.
  intros [Hss Hc Hn He] [Kn Ke Sn Se]. split.
  - intros g Hg g' Hg'. eapply Kn; eauto.
  - intros g Hg g' Hg'. eapply Ke; eauto.
  - intros g g' ??. eapply Sn; eauto.
  - intros g g' ??. eapply Se; eauto.
Qed.

Lemma delete_exact_spec id nid eid w :
  I w -> net_known w id nid eid ->
  safe honest_windows I (delete_exact nid (nat_name id) eid (ep_name id)) (deletion_post w id) w.
Proof.
  intros Iw K. apply safe_bind.
  eapply safe_mono; [apply resolve_exact; [apply find_endpoint_exactly|done|by destruct K..]|done|].
  intros [og|e|] w0 _ [-> Hog]; [|done..]. apply safe_bind.
  eapply safe_mono; [apply (delete_found_deletes w_endpoints _ _ _ _ (ep_name id)); [apply deletes_endpoint|done| |done|done]|done|].
  { intros w' Hs g'. apply Hs. }
  intros [fs|e|] w1 I1 [S1 H1]; [|done..]. destruct H1 as [Q1 H1].
  pose proof (net_known_shrinks _ _ _ _ _ S1 K) as K1. apply safe_bind.
  eapply safe_mono; [apply resolve_exact; [apply find_network_exactly|done|by destruct K1..]|done|].
  intros [on|e|] w0 _ [-> Hon]; [|done..]. apply safe_bind.
  eapply safe_mono; [apply (delete_found_deletes w_networks _ _ _ _ (nat_name id)); [apply deletes_network|done| |done|done]|done|].
  { intros w' Hs g'. apply Hs. }
  intros [fs2|e|] w2 I2 [S2 H2]; [|done..]. destruct H2 as [Q2 H2].
  assert (shrinks w w2) by (by etransitivity).
  apply joined_spec; [done..| |].
  - intros E. destruct (H2 E) as [E1 Hn]. destruct (H1 E1) as [_ He]. split; [done|]. split; [done|].
    by apply (unnamed_shrinks_ep _ _ _ S2).
  - by intros e He.
Qed.

(** The handles of a running machine designate its network and endpoint. *)
Definition state_covers (w : World) (id : Uuid) (st : NetworkState) : Prop :=
  covers (w_networks w) (nat_name id) (ns_network_id st) /\ covers (w_endpoints w) (ep_name id) (ns_endpoint_id st).

Lemma state_covers_shrinks w w' id st : shrinks w w' -> state_covers w id st -> state_covers w' id st.
Proof. intros [_ _ Hn He] [Cn Ce]. split; intros g Hg; eauto. Qed.

Lemma collect_hr_quiet fs what hr :
  Forall quiet fs -> (forall b, quiet b -> quiet (what ++ str " failed: " ++ b)) -> hns_absent hr = false ->
  Forall quiet (collect_hr fs what hr) /\ (collect_hr fs what hr = [] -> fs = []).
Proof.
  intros Hf Hw Hh. unfold collect_hr. destruct (negb _); [|done]. split.
  - apply Forall_app. split; [done|]. constructor; [|done]. by apply Hw, quiet_hresult.
  - by intros [_ ?]%app_eq_nil.
Qed.

Lemma close_and_delete_spec id st w :
  I w -> state_covers w id st ->
  safe honest_windows I (close_and_delete_result st) (deletion_post w id) w.
Proof.
  intros Iw K. apply safe_bind, safe_shrink; [done..|]. intros hr w1 I1 S1 _ Hh1. cbn in Hh1.
  pose proof (state_covers_shrinks _ _ _ _ S1 K) as K1.
  destruct (collect_hr_quiet [] (str "HcnCloseEndpoint") hr) as [Q1 E1]; [done| |done|].
  { intros b Hb. by apply (quiet_lead (str "HcnCloseEndpoint failed: ")). }
  apply safe_bind. eapply safe_mono; [apply (collect_deletes w_endpoints _ _ _ _ (ep_name id)); [apply deletes_endpoint|done| |apply K1|done]|done|].
  { intros w' Hs g'. apply Hs. }
  intros [fs|e|] w2 I2 [S2 H2]; [|done..]. destruct H2 as [Q2 H2].
  apply safe_bind, safe_shrink; [done..|]. intros hr3 w3 I3 S3 _ Hh3. cbn in Hh3.
  destruct (collect_hr_quiet fs (str "HcnCloseNetwork") hr3) as [Q3 E3]; [done| |done|].
  { intros b Hb. by apply (quiet_lead (str "HcnCloseNetwork failed: ")). }
  assert (S13 : shrinks w1 w3) by (by etransitivity). pose proof (state_covers_shrinks _ _ _ _ S13 K1) as K3.
  apply safe_bind. eapply safe_mono; [apply (collect_deletes w_networks _ _ _ _ (nat_name id)); [apply deletes_network|done| |apply K3|done]|done|].
  { intros w' Hs g'. apply Hs. }
  intros [fs4|e|] w4 I4 [S4 H4]; [|done..]. destruct H4 as [Q4 H4].
  assert (shrinks w w4) by (etransitivity; [done|]; by etransitivity).
  apply joined_spec; [done..| |].
  - intros E. destruct (H4 E) as [Ef Hn]. destruct (H2 (E3 Ef)) as [_ He]. split; [done|]. split; [done|].
    eapply unnamed_shrinks_ep; [|done]. by etransitivity.
  - by intros e He.
Qed.
End HnsExact.
