(* ===== verification/HcsCleanup.v ===== *)
(** * Cleanup and recovery

    [libs/hypervisor-hcs/src/vm.rs] and [journal.rs]: the journal operations
    as programs, one cleanup pass over a record ([cleanup_record_async_with]
    and [cleanup_record_sync_with], which differ only in how a compute system
    is terminated), abandonment after the third failed pass, and the recovery
    of stale sessions.  [CleanupSummary] only feeds a log line and is left
    out, as are the log events. *)

From Stdlib Require Import ZArith Lia.
From stdpp Require Import base tactics option list numbers strings countable.
From S2P Require Import Prelude Bytes Text BTree Guid HcsJournal HcsHost Hns.

Section Cleanup.
Context `{UuidText} `{!Serde SessionRecord, !Serde VmResourceRecord, !Serde AbandonedRecord}.

(** ** [SessionJournal]: a journal is the path of its open database *)

Definition put_vm (journal : OsString) (record : VmResourceRecord) : host unit :=
  _ ← ret_res (validate_schema_version (vr_schema_version record));
  b ← ret_res (encode record);
  write journal (put_vm_row record b).
Definition update_vm (journal : OsString) (vm_id : Uuid) (update : VmResourceRecord -> VmResourceRecord)
  : host unit := write journal (update_vm_row vm_id update).
Definition vm (journal : OsString) (vm_id : Uuid) : host (option VmResourceRecord) :=
  read journal (vm_row vm_id).
Definition all_vms (journal : OsString) : host (list VmResourceRecord) := read journal all_vm_rows.
Definition remove_vm (journal : OsString) (vm_id : Uuid) : host unit := write journal (remove_vm_row vm_id).
Definition abandoned (journal : OsString) (vm_id : Uuid) : host (option AbandonedRecord) :=
  read journal (abandoned_row vm_id).
Definition put_abandoned (journal : OsString) (record : AbandonedRecord) : host unit :=
  _ ← ret_res (validate_schema_version (ar_schema_version record));
  previous ← abandoned journal (ar_vm_id record);
  let old := match previous with Some p => entries p | None => [] end in
  b ← ret_res (encode {| ar_schema_version := ar_schema_version record; ar_vm_id := ar_vm_id record;
                         entries := merge_entries old (entries record) |});
  write journal (put_abandoned_row (ar_vm_id record) b).
Definition remove_abandoned (journal : OsString) (vm_id : Uuid) : host unit :=
  write journal (remove_abandoned_row vm_id).
Definition has_abandoned (journal : OsString) : host bool := read journal has_abandoned_rows.

Definition try_open_existing (path : OsString) : host (option OsString) :=
  o ← ask (OpenDatabase path);
  match o with
  | DatabaseAlreadyOpen => mret None
  | OpenFailed => throw journal_report
  | Opened => _ ← read path read_existing_session; mret (Some path)
  end.

(** ** Terminating a compute system ([operation.rs], [cs/]) *)

Inductive mode : Type := Async | Sync.

Definition hcs_operation (m : mode) (o : op_outcome) : res Report (option bytes) :=
  let unreadable := str "HCS result document: " ++ HcsError_display OperationResult in
  if negb (op_created o) then Err (Report_new OperationCreate)
  else if negb (op_immediate o =? S_OK) && negb (op_immediate o =? HCS_E_OPERATION_PENDING) then
    Err (attach (Report_new OperationFailed) (hresult (op_immediate o)))
  else
  match m with
  | Async =>
    if negb (op_completed o) then
      Err (attach (Report_new OperationCallbackMissing)
             (str "future was cancelled before HCS reported completion"))
    else
    match op_doc o with
    | None =>
      let report := attach (Report_new OperationResult) unreadable in
      Err (if negb (op_hr o =? S_OK) then attach report (hresult (op_hr o)) else report)
    | Some doc =>
      if negb (op_hr o =? S_OK)
      then Err (attach (attach (Report_new OperationResult) (hresult (op_hr o))) (default [] doc))
      else Ok doc
    end
  | Sync =>
    match op_doc o with
    | None => Err (attach (Report_new OperationSyncFailed) unreadable)
    | Some doc =>
      if negb (op_hr o =? S_OK) then
        if op_hr o =? HCS_E_OPERATION_PENDING
        then Err (attach (Report_new OperationSyncFailed) (str "HCS operation did not complete within 30000 ms"))
        else Err (attach (Report_new OperationSyncFailed)
                    (hresult (op_hr o) ++ str " (detail: " ++ default (str "Unknown Error") doc ++ str ")"))
      else Ok doc
    end
  end.

Definition ComputeSystem_from_id (id : bytes) : host bytes :=
  '(hr, handle) ← ask (HcsOpenComputeSystem id);
  if negb (hr =? S_OK) then throw (attach (Report_new ComputeSystemOpen) (hresult hr))
  else if negb handle then
    throw (attach (Report_new ComputeSystemOpen) (str "HcsOpenComputeSystem returned null"))
  else mret id.

Definition remove_compute_system (m : mode) (system : bytes) : host unit :=
  o ← ask (HcsTerminateComputeSystem system);
  doc ← ret_res (hcs_operation m o);
  match doc with
  | Some _ => mret tt
  | None => throw (attach (Report_new ComputeSystemTerminate) (str "HcsTerminateComputeSystem returned null"))
  end.

Definition remove_compute_system_by_id (m : mode) (id : bytes) : host unit :=
  r ← attempt (ComputeSystem_from_id id);
  match r with
  | Ok system => remove_compute_system m system
  | Err error => if resource_is_absent error then mret tt else throw error
  | Panic => HDone Panic
  end.

(** ** Disks *)

Definition cleanup_report (text : bytes) : Report := attach (Report_new Cleanup) text.

(** [journal::file_identity]: the failure text names the path. *)
Definition get_file_identity (path : OsString) : host FileIdentity :=
  a ← ask (GetFileIdentity path);
  match a with
  | inr i => mret i
  | inl error =>
    throw (cleanup_report (str "open " ++ to_string_lossy path ++ str " for identity: " ++ error))
  end.

Definition remove_disk (vm_id : Uuid) (disk : DiskResource) : host unit :=
  if bool_decide (dr_state disk = Planned) then mret tt else
  let path := dr_path disk in
  _ ← (if vm_ace_added disk then
         _ ← check (ValidateSid vm_id) id;
         exists_ ← ask (PathExists path);
         if exists_ : bool then check (RevokeAccess path vm_id) id else mret tt
       else mret tt);
  if bool_decide (origin disk = PreExisting) then mret tt else
  let deletable := bool_decide (effective_retention disk = Ephemeral) || negb (dr_published disk) in
  if negb deletable then mret tt else
  exists_ ← ask (PathExists path);
  if negb exists_ then mret tt else
  match file_identity disk with
  | None =>
    throw (cleanup_report (str "refusing to delete " ++ to_string_lossy path
                           ++ str " without a recorded file identity"))
  | Some expected =>
    current ← get_file_identity path;
    if negb (bool_decide (current = expected)) then
      throw (attach (Report_new DiskIdentityChanged)
               (str "file identity changed before deleting " ++ to_string_lossy path))
    else
    r ← ask (RemoveFile path);
    match r with
    | FileRemoved | FileNotFound => mret tt
    | FileKept error =>
      throw (cleanup_report (str "remove journaled disk " ++ to_string_lossy path ++ str ": " ++ error))
    end
  end.

(** ** One cleanup pass *)

Record CleanupFailure : Type := {
  cf_kind : bytes; cf_operation : bytes; cf_identity : bytes; cf_cause : bytes }.
Record CleanupResources : Type := {
  cl_system : option bytes; cl_network : option NetworkState }.
Definition CleanupResources_empty : CleanupResources := {| cl_system := None; cl_network := None |}.

(** The removal operations of a pass. *)
Record Hooks : Type := {
  hook_compute : bytes -> host unit;
  hook_network : option bytes -> bytes -> option bytes -> bytes -> host unit;
  hook_disk : Uuid -> DiskResource -> host unit }.
Definition production (m : mode) : Hooks := {|
  hook_compute := remove_compute_system_by_id m; hook_network := delete_exact; hook_disk := remove_disk |}.

Definition failure_message (f : CleanupFailure) : bytes :=
  str "resource_kind=" ++ cf_kind f ++ str " operation=" ++ cf_operation f
  ++ str " resource_id=" ++ cf_identity f ++ str " cause=" ++ cf_cause f.

(** A pending disk update, a network update, a compute update. *)
Definition compute_to (s : ResourceState) (r : VmResourceRecord) : VmResourceRecord :=
  set_compute (set_cr_state s (compute_system r)) r.
Definition network_to (s : ResourceState) (r : VmResourceRecord) : VmResourceRecord :=
  set_network (set_nr_state s <$> network r) r.
Definition clear_ace (d : DiskResource) : DiskResource :=
  {| dr_path := dr_path d; controller := controller d; lun := lun d; dr_state := dr_state d;
     origin := origin d; requested_retention := requested_retention d;
     effective_retention := effective_retention d; file_identity := file_identity d;
     initialization_requested := initialization_requested d;
     initialization_acknowledged := initialization_acknowledged d;
     vm_ace_added := false; dr_published := dr_published d |}.
Definition disk_to (index : nat) (s : ResourceState) (r : VmResourceRecord) : VmResourceRecord :=
  set_disks (alter (fun d => set_dr_state s (if bool_decide (s = Removed) then clear_ace d else d)) index (disks r)) r.

Definition apply_resource_outcome (journal : OsString) (vm_id : Uuid) (result : res Report unit)
    (kind operation identity : bytes) (transition : ResourceState -> VmResourceRecord -> VmResourceRecord)
    (failures : list CleanupFailure) : host (list CleanupFailure) :=
  match result with
  | Ok _ => _ ← update_vm journal vm_id (transition Removed); mret failures
  | Err error =>
    if resource_is_absent error then
      _ ← update_vm journal vm_id (transition Removed); mret failures
    else
      let failure := {| cf_kind := kind; cf_operation := operation; cf_identity := identity;
                        cf_cause := report_text error |} in
      _ ← update_vm journal vm_id (fun r =>
            set_last_error (Some (failure_message failure)) (transition RemovalFailed r));
      mret (failures ++ [failure])
  | Panic => HDone Panic
  end.

Definition network_identity (n : NetworkResource) : bytes := network_name n ++ str "/" ++ endpoint_name n.

(** The entry an unremoved resource gets, with the failure of this pass. *)
Definition exhausted_error (failures : list CleanupFailure) (k i : bytes) : bytes :=
  match list_find (fun f => cf_kind f = k /\ cf_identity f = i) failures with
  | Some (_, f) => failure_message f
  | None => str "resource_kind=" ++ k ++ str " resource_id=" ++ i ++ str " cause=cleanup attempts exhausted"
  end.
Definition consider (now : Z) (failures : list CleanupFailure)
    (acc : list AbandonedResourceEntry * list AbandonedResourceEntry) (x : bytes * bytes * ResourceState)
  : list AbandonedResourceEntry * list AbandonedResourceEntry :=
  let '(k, i, s) := x in
  if bool_decide (s = Removed) then acc else
  let new := {| kind := k; identity := i; entry_last_error := exhausted_error failures k i;
                first_abandoned_at_unix_ms := now |} in
  (merge_entry new acc.1, acc.2 ++ [new]).

Definition resources_of (r : VmResourceRecord) : list (bytes * bytes * ResourceState) :=
  (str "compute_system", cr_id (compute_system r), cr_state (compute_system r))
  :: match network r with
     | Some n => [(str "network", network_identity n, nr_state n)]
     | None => []
     end
  ++ map (fun d => (str "disk", to_string_lossy (dr_path d), dr_state d)) (disks r).

Definition abandon (s : ResourceState) : ResourceState :=
  if bool_decide (s = Removed) then Removed else Abandoned.
Definition abandon_record (abandoned_now : list AbandonedResourceEntry) (r : VmResourceRecord)
  : VmResourceRecord :=
  set_last_error (Some (str "abandoned after 3 cleanup attempts: "
    ++ join_with (str "; ") (map (fun e => str "resource_kind=" ++ kind e ++ str " resource_id=" ++ identity e)
                               abandoned_now)))
  (set_disks (map (fun d => set_dr_state (abandon (dr_state d)) d) (disks r))
  (set_network ((fun n => set_nr_state (abandon (nr_state n)) n) <$> network r)
  (set_compute (set_cr_state (abandon (cr_state (compute_system r))) (compute_system r)) r))).

Definition abandon_remaining (journal : OsString) (vm_id : Uuid) (record : VmResourceRecord)
    (failures : list CleanupFailure) : host unit :=
  now ← ask UnixTimeMs;
  existing ← abandoned journal vm_id;
  let old := match existing with Some a => entries a | None => [] end in
  let '(es, abandoned_now) := foldl (consider now failures) (old, []) (resources_of record) in
  _ ← put_abandoned journal
        {| ar_schema_version := SCHEMA_VERSION; ar_vm_id := vm_id; entries := es |};
  update_vm journal vm_id (abandon_record abandoned_now).

Definition begin_cleanup (r : VmResourceRecord) : VmResourceRecord :=
  set_last_error None
    (set_attempts (saturating_add 32 (cleanup_attempts r) 1) (set_phase PhaseCleanupPending r)).

Definition missing_record (o : option VmResourceRecord) : host VmResourceRecord :=
  ret_res (ok_or o journal_report).

Definition clean_compute (h : Hooks) (m : mode) (journal : OsString) (vm_id : Uuid)
    (record : VmResourceRecord) (resources : CleanupResources) (failures : list CleanupFailure)
  : host (list CleanupFailure) :=
  if bool_decide (cr_state (compute_system record) = Removed) then mret failures else
  result ← attempt (match cl_system resources with
                    | Some system => remove_compute_system m system
                    | None => hook_compute h (cr_id (compute_system record))
                    end);
  apply_resource_outcome journal vm_id result (str "compute_system") (str "remove")
    (cr_id (compute_system record)) compute_to failures.

Definition clean_network (h : Hooks) (journal : OsString) (vm_id : Uuid)
    (record : VmResourceRecord) (resources : CleanupResources) (failures : list CleanupFailure)
  : host (list CleanupFailure) :=
  match network record with
  | Some n =>
    if bool_decide (nr_state n = Removed) then mret failures else
    result ← attempt (match cl_network resources with
                      | Some state => close_and_delete_result state
                      | None => hook_network h (network_id n) (network_name n) (endpoint_id n) (endpoint_name n)
                      end);
    apply_resource_outcome journal vm_id result (str "network") (str "delete")
      (network_identity n) network_to failures
  | None => mret failures
  end.

Definition clean_disk (h : Hooks) (journal : OsString) (vm_id : Uuid)
    (failures : list CleanupFailure) (x : nat * DiskResource) : host (list CleanupFailure) :=
  let '(index, disk) := x in
  if bool_decide (dr_state disk = Removed) then mret failures else
  result ← attempt (hook_disk h vm_id disk);
  apply_resource_outcome journal vm_id result (str "disk") (str "remove")
    (to_string_lossy (dr_path disk)) (disk_to index) failures.

Definition enumerate {A} (l : list A) : list (nat * A) := imap (fun i x => (i, x)) l.

Definition complete (r : VmResourceRecord) : VmResourceRecord :=
  set_last_error None (set_phase PhaseComplete r).

Definition finish_cleanup (journal : OsString) (vm_id : Uuid) (failures : list CleanupFailure) : host unit :=
  match failures with
  | [] =>
    _ ← update_vm journal vm_id complete;
    _ ← remove_vm journal vm_id;
    remove_abandoned journal vm_id
  | _ =>
    o ← vm journal vm_id;
    record ← missing_record o;
    if MAX_CLEANUP_ATTEMPTS <=? cleanup_attempts record
    then abandon_remaining journal vm_id record failures
    else throw (attach (Report_new Cleanup) (join_with (str "; ") (map cf_cause failures)))
  end.

Definition cleanup_record_with (h : Hooks) (m : mode) (journal : OsString) (vm_id : Uuid)
    (resources : CleanupResources) : host unit :=
  _ ← update_vm journal vm_id begin_cleanup;
  o ← vm journal vm_id;
  record ← missing_record o;
  failures ← clean_compute h m journal vm_id record resources [];
  failures ← clean_network h journal vm_id record resources failures;
  failures ← hfold (clean_disk h journal vm_id) (enumerate (disks record)) failures;
  finish_cleanup journal vm_id failures.

Definition cleanup_record (m : mode) (journal : OsString) (vm_id : Uuid) (resources : CleanupResources)
  : host unit := cleanup_record_with (production m) m journal vm_id resources.

(** ** Recovery *)

Definition recover_record (stale : OsString) (record : VmResourceRecord) : host unit :=
  if is_complete record then remove_vm stale (vr_vm_id record)
  else _ ← attempt (cleanup_record Async stale (vr_vm_id record) CleanupResources_empty); mret tt.

Definition recover_session (current_path path : OsString) : host unit :=
  if bool_decide (path = current_path) then mret tt else
  o ← try_open_existing path;
  match o with
  | None => mret tt
  | Some stale =>
    records ← all_vms stale;
    _ ← hfold (fun _ record => recover_record stale record) records tt;
    remaining ← all_vms stale;
    let incomplete := existsb (fun r => negb (is_complete r)) remaining in
    retains_inventory ← has_abandoned stale;
    if negb incomplete && negb retains_inventory
    then check (RemoveDatabase path) id
    else mret tt
  end.

Definition reconcile_stale_sessions (current_path : OsString) : host unit :=
  a ← ask SessionPaths;
  paths ← ret_res a;
  hfold (fun _ path => recover_session current_path path) paths tt.
End Cleanup.
