(* ===== verification/HcsLaunch.v ===== *)
(** * Launching and running a machine

    [libs/hypervisor-hcs/src/vm.rs]: [Vm::from_conf] with the journaled intent,
    the network, the disks and the compute system, the [ProvisioningGuard]
    whose [Drop] undoes a failed launch, and [start], [mark_published],
    [close], [drop] and [Session::open].  What a launch does besides (pipes,
    configuration document, console task) is a [Prepare] step that may fail. *)

From Stdlib Require Import ZArith Lia.
From stdpp Require Import base tactics option list numbers strings countable.
From S2P Require Import Prelude Bytes Text BTree Guid HcsJournal HcsHost Hns HcsCleanup.

Record DiskSpec : Type := {
  host_path : OsString; create_size_mb : Z; guest_mount : bytes;
  retention : DiskRetention; on_existing : ExistingDiskPolicy }.
Record AttachedDisk : Type := {
  ad_host_path : OsString; ad_guest_mount : bytes; ad_origin : DiskOrigin;
  ad_requested_retention : DiskRetention; ad_effective_retention : DiskRetention }.

Definition SCSI_LUNS_PER_CONTROLLER : Z := 64.
Definition scsi_slot (index : nat) : res Report (Z * Z) :=
  controller ← ok_or (try_from_u 32 (Z.of_nat index / SCSI_LUNS_PER_CONTROLLER)) (Report_new DiskInvalidPath);
  lun ← ok_or (try_from_u 32 (Z.of_nat index mod SCSI_LUNS_PER_CONTROLLER)) (Report_new DiskInvalidPath);
  Ok (controller, lun).

Inductive DiskMaterialization : Type := Create | Reuse | ReuseAndReclassify | RejectExisting.
Definition classify_disk (exists_ : bool) (r : DiskRetention) (policy : ExistingDiskPolicy) : DiskMaterialization :=
  if negb exists_ then Create else
  match r, policy with
  | _, PolicyError => RejectExisting
  | Ephemeral, ReuseAndKeep => ReuseAndReclassify
  | Persistent, ReuseAndKeep => Reuse
  end.

Section Launch.
Context `{UuidText} `{!Serde SessionRecord, !Serde VmResourceRecord, !Serde AbandonedRecord}.

Definition normalize_absolute_path (p : OsString) : host OsString :=
  r ← ask (NormalizeAbsolutePath p); ret_res r.

(** ** Planning *)

Definition planned_disk (path : OsString) (controller lun : Z) (spec : DiskSpec) : DiskResource :=
  {| dr_path := path; controller := controller; lun := lun; dr_state := Planned;
     origin := CreatedByLaunch; requested_retention := retention spec;
     effective_retention := retention spec; file_identity := None;
     initialization_requested := false; initialization_acknowledged := false;
     vm_ace_added := false; dr_published := false |}.
Definition plan_disk_resources (specs : list DiskSpec) : host (list DiskResource) :=
  hfold (fun planned '(index, spec) =>
    '(controller, lun) ← ret_res (scsi_slot index);
    path ← normalize_absolute_path (host_path spec);
    mret (planned ++ [planned_disk path controller lun spec])) (enumerate specs) [].

Definition provisioning_planned_disk (journal : OsString) (vm_id : Uuid) (index : nat) : host DiskResource :=
  o ← vm journal vm_id;
  ret_res (ok_or (record ← o; disks record !! index) journal_report).

(** ** The provisioning guard *)

Record ProvisioningGuard : Type := {
  pg_network : option NetworkState;
  unjournaled_disks : list (OsString * FileIdentity) }.

Definition drop_unjournaled (x : OsString * FileIdentity) : host unit :=
  let '(path, expected) := x in
  exists_ ← ask (PathExists path);
  if negb exists_ then mret tt else
  r ← attempt (get_file_identity path);
  match r with
  | Ok actual =>
    if bool_decide (actual = expected) then _ ← ask (RemoveFile path); mret tt else mret tt
  | _ => mret tt
  end.

(** [Drop] of the armed guard. *)
Definition drop_guard (journal : OsString) (vm_id : Uuid) (g : ProvisioningGuard) : host unit :=
  _ ← attempt (cleanup_record Sync journal vm_id {| cl_system := None; cl_network := pg_network g |});
  hfold (fun _ x => drop_unjournaled x) (unjournaled_disks g) tt.

(** [p?] while the guard is armed. *)
Definition guarded {A B} (journal : OsString) (vm_id : Uuid) (g : ProvisioningGuard)
    (p : host A) (k : A -> host B) : host B :=
  r ← attempt p;
  match r with
  | Ok a => k a
  | Err e => _ ← drop_guard journal vm_id g; throw e
  | Panic => HDone Panic
  end.

(** ** Disks *)

Definition create_sparse_vhdx (path : OsString) (size_mb : Z) : host (option bytes) :=
  match try_from_u 64 (size_mb * (1024 * 1024)) with
  | None => mret (Some (str "disk size overflows u64 bytes"))
  | Some size_bytes =>
    e ← ask (CreateParent path);
    match e with
    | Some e => mret (Some e)
    | None =>
      e ← ask (NewVhd path size_bytes);
      match e with
      | Some e => mret (Some e)
      | None =>
        exists_ ← ask (PathExists path);
        if negb exists_ then mret (Some (str "New-VHD reported success")) else mret None
      end
    end
  end.

Definition validate_existing_vhdx (path : OsString) : host unit :=
  check (GetVhd path) (fun e => attach (Report_new DiskNotValidWritableVhdx) <$> e).

Definition record_created (index : nat) (o : DiskOrigin) (effective : DiskRetention) (initialize : bool)
    (i : FileIdentity) (r : VmResourceRecord) : VmResourceRecord :=
  set_disks (alter (fun d =>
    {| dr_path := dr_path d; controller := controller d; lun := lun d; dr_state := Created;
       origin := o; requested_retention := requested_retention d; effective_retention := effective;
       file_identity := Some i; initialization_requested := initialize;
       initialization_acknowledged := initialization_acknowledged d;
       vm_ace_added := vm_ace_added d; dr_published := dr_published d |}) index (disks r)) r.
Definition record_ace (index : nat) (r : VmResourceRecord) : VmResourceRecord :=
  set_disks (alter (fun d =>
    {| dr_path := dr_path d; controller := controller d; lun := lun d; dr_state := dr_state d;
       origin := origin d; requested_retention := requested_retention d;
       effective_retention := effective_retention d; file_identity := file_identity d;
       initialization_requested := initialization_requested d;
       initialization_acknowledged := initialization_acknowledged d;
       vm_ace_added := true; dr_published := dr_published d |}) index (disks r)) r.

(** Up to the capture of the identity: path, origin, effective retention,
    whether the guest must initialise, whether the file is new. *)
Definition open_disk (spec : DiskSpec) (planned : DiskResource)
  : host (OsString * DiskOrigin * DiskRetention * bool * FileIdentity) :=
  normalized ← normalize_absolute_path (host_path spec);
  if negb (bool_decide (normalized = dr_path planned)) then throw (Report_new DiskInvalidPath) else
  _ ← check (LockPath normalized) id;
  _ ← check (ReparsePoints normalized) id;
  parent ← ask (Parent normalized);
  match parent with
  | NoParent | ParentMissing => throw (Report_new DiskParentMissing)
  | ParentDir =>
    exists_ ← ask (PathExists normalized);
    let classification := classify_disk exists_ (retention spec) (on_existing spec) in
    classification ←
      match classification with
      | Create =>
        e ← create_sparse_vhdx normalized (create_size_mb spec);
        match e with
        | None => mret Create
        | Some error =>
          exists_ ← ask (PathExists normalized);
          if exists_ : bool then mret (classify_disk true (retention spec) (on_existing spec))
          else throw (attach (Report_new DiskCreateFailed) error)
        end
      | c => mret c
      end;
    '(o, effective, initialize) ←
      match classification with
      | Create => mret (CreatedByLaunch, retention spec, true)
      | Reuse | ReuseAndReclassify =>
        _ ← validate_existing_vhdx normalized; mret (PreExisting, Persistent, false)
      | RejectExisting => throw (Report_new DiskPathExists)
      end;
    i ← get_file_identity normalized;
    mret (normalized, o, effective, initialize, i)
  end.

Definition materialize_disk {B} (journal : OsString) (g : ProvisioningGuard) (vm_id : Uuid) (index : nat)
    (spec : DiskSpec) (planned : DiskResource) (k : ProvisioningGuard -> AttachedDisk -> host B) : host B :=
  guarded journal vm_id g (open_disk spec planned) (fun '(normalized, o, effective, initialize, i) =>
  let g := if initialize : bool
           then {| pg_network := pg_network g; unjournaled_disks := unjournaled_disks g ++ [(normalized, i)] |}
           else g in
  guarded journal vm_id g (update_vm journal vm_id (record_created index o effective initialize i)) (fun _ =>
  guarded journal vm_id g (check (GrantAccess normalized vm_id) id) (fun _ =>
  guarded journal vm_id g (update_vm journal vm_id (record_ace index)) (fun _ =>
  k g {| ad_host_path := normalized; ad_guest_mount := guest_mount spec; ad_origin := o;
         ad_requested_retention := retention spec; ad_effective_retention := effective |})))).

Fixpoint materialize_disks {B} (journal : OsString) (g : ProvisioningGuard) (vm_id : Uuid) (index : nat)
    (specs : list DiskSpec) (attached : list AttachedDisk)
    (k : ProvisioningGuard -> list AttachedDisk -> host B) : host B :=
  match specs with
  | [] => k g attached
  | spec :: specs =>
    guarded journal vm_id g (provisioning_planned_disk journal vm_id index) (fun planned =>
    materialize_disk journal g vm_id index spec planned (fun g a =>
    guarded journal vm_id g (ret_res (scsi_slot index)) (fun _ =>
    guarded journal vm_id g (check (Prepare ScsiConf) id) (fun _ =>
    materialize_disks journal g vm_id (S index) specs (attached ++ [a]) k))))
  end.

(** ** [Vm::from_conf] *)

Definition planned_record (id : Uuid) (network_id : option Uuid) (ds : list DiskResource) : VmResourceRecord :=
  {| vr_schema_version := 1; vr_vm_id := id; phase := PhasePlanned; vr_published := false;
     compute_system := {| cr_id := uuid_to_string id; cr_state := Planned |};
     network := (fun n => {| network_name := nat_name id; network_id := Some (uuid_to_string n);
                             endpoint_name := ep_name id; endpoint_id := None; nr_state := Planned |}) <$> network_id;
     disks := ds; cleanup_attempts := 0; last_error := None |}.

Definition record_network_id (s : bytes) (r : VmResourceRecord) : VmResourceRecord :=
  set_network ((fun n => {| network_name := network_name n; network_id := Some s;
    endpoint_name := endpoint_name n; endpoint_id := endpoint_id n; nr_state := nr_state n |}) <$> network r) r.
Definition record_endpoint_id (s : bytes) (r : VmResourceRecord) : VmResourceRecord :=
  set_network ((fun n => {| network_name := network_name n; network_id := network_id n;
    endpoint_name := endpoint_name n; endpoint_id := Some s; nr_state := Created |}) <$> network r) r.
Definition record_compute (r : VmResourceRecord) : VmResourceRecord :=
  set_phase PhaseStarting (compute_to Created r).

Definition create_compute_system (id : Uuid) : host bytes :=
  '(o, handle) ← ask (HcsCreateComputeSystem (uuid_to_string id));
  _ ← ret_res (hcs_operation Sync o);
  if negb handle then throw (Report_new ComputeSystemCreate) else mret (uuid_to_string id).

Record Vm : Type := {
  vm_uuid : Uuid; vm_system : option bytes; vm_network : option NetworkState;
  attached_disks : list AttachedDisk }.

(** The last part of a launch, with the network and the disks in place. *)
Definition create_machine (journal : OsString) (id : Uuid) : host bytes :=
  _ ← check (Prepare ComPort) Datatypes.id;
  _ ← check (Prepare ConfJson) Datatypes.id;
  _ ← check (Prepare PipeDescriptor) Datatypes.id;
  _ ← check (Prepare PipeCreate) Datatypes.id;
  sys ← create_compute_system id;
  _ ← update_vm journal id record_compute;
  mret sys.

(** The network of the machine, if it has one, then the rest of the launch. *)
Definition launch_network (journal : OsString) (id : Uuid) (planned_network_id : option Uuid)
    (k : ProvisioningGuard -> host Vm) : host Vm :=
  let guard := {| pg_network := None; unjournaled_disks := [] |} in
  match planned_network_id with
  | None => k guard
  | Some network_id =>
    guarded journal id guard
      (create_network_and_endpoint_with_callbacks id network_id
         (fun s => update_vm journal id (record_network_id s))
         (fun s => update_vm journal id (record_endpoint_id s))) (fun state =>
    let guard := {| pg_network := Some state; unjournaled_disks := [] |} in
    guarded journal id guard (check (Prepare NetworkAdapterConf) Datatypes.id) (fun _ => k guard))
  end.

Definition from_conf (journal : OsString) (id : Uuid) (planned_network_id : option Uuid) (specs : list DiskSpec)
  : host Vm :=
  _ ← check (Prepare HypervAdmin) Datatypes.id;
  _ ← check (Prepare ComPort) Datatypes.id;
  planned_disks ← plan_disk_resources specs;
  _ ← put_vm journal (planned_record id planned_network_id planned_disks);
  launch_network journal id planned_network_id (fun guard =>
  guarded journal id guard
    (match specs with [] => mret tt | _ => check (Prepare VmSid) Datatypes.id end) (fun _ =>
  materialize_disks journal guard id 0 specs [] (fun guard attached =>
  guarded journal id guard (create_machine journal id) (fun sys =>
  mret {| vm_uuid := id; vm_system := Some sys; vm_network := pg_network guard; attached_disks := attached |})))).

(** ** The machine's life *)

Definition to_starting (r : VmResourceRecord) : VmResourceRecord :=
  if bool_decide (phase r = PhasePlanned) then set_phase PhaseStarting r else r.
Definition start (journal : OsString) (v : Vm) : host unit :=
  match vm_system v with
  | None => throw (Report_new ComputeSystemStart)
  | Some sys =>
    _ ← check (HcsStartComputeSystem sys) id;
    update_vm journal (vm_uuid v) to_starting
  end.

Definition publish_disk (d : DiskResource) : DiskResource :=
  {| dr_path := dr_path d; controller := controller d; lun := lun d; dr_state := dr_state d;
     origin := origin d; requested_retention := requested_retention d;
     effective_retention := effective_retention d; file_identity := file_identity d;
     initialization_requested := initialization_requested d;
     initialization_acknowledged := initialization_acknowledged d || initialization_requested d;
     vm_ace_added := vm_ace_added d; dr_published := true |}.
Definition publish (r : VmResourceRecord) : VmResourceRecord :=
  set_disks (map publish_disk (disks r))
    (set_last_error None (set_published true (set_phase PhasePublished r))).
Definition mark_published (journal : OsString) (v : Vm) : host unit :=
  update_vm journal (vm_uuid v) publish.

Definition take_cleanup_resources (v : Vm) : CleanupResources :=
  {| cl_system := vm_system v; cl_network := vm_network v |}.
(** [Drop] of a machine whose cleanup has not completed. *)
Definition drop_vm (journal : OsString) (v : Vm) : host unit :=
  _ ← attempt (cleanup_record Sync journal (vm_uuid v) (take_cleanup_resources v)); mret tt.
(** [close] consumes the machine: after a failed pass its [Drop] runs, without
    the handles that the pass took. *)
Definition close (journal : OsString) (v : Vm) : host unit :=
  r ← attempt (cleanup_record Async journal (vm_uuid v) (take_cleanup_resources v));
  match r with
  | Ok _ => mret tt
  | Err e =>
    _ ← attempt (cleanup_record Sync journal (vm_uuid v) CleanupResources_empty); throw e
  | Panic => HDone Panic
  end.

(** ** Opening a session *)

Definition create_current (path : OsString) (sid : Uuid) (owner_sid : bytes) (pid created_at : Z) : host OsString :=
  _ ← check (Prepare StateRoot) id;
  _ ← check (Prepare CurrentUser) id;
  _ ← check (Prepare StateRootAcl) id;
  _ ← check (CreateDatabase path) id;
  _ ← write path initialize_database;
  b ← ret_res (encode {| sr_schema_version := SCHEMA_VERSION; session_id := sid; owner := owner_for sid;
                         owner_sid := owner_sid; process_id := pid; created_at_unix_ms := created_at |});
  _ ← write path (put_session_row b);
  mret path.

(** [Session::open]: [path] is [session_path(root, sid)]. *)
Definition Session_open (path : OsString) (sid : Uuid) (owner_sid : bytes) (pid created_at : Z) : host OsString :=
  _ ← check (Prepare StateRoot) id;
  _ ← reconcile_stale_sessions path;
  create_current path sid owner_sid pid created_at.
End Launch.
