(* ===== verification/HcsInv.v ===== *)
(** * The journal invariant

    Every compute system, network and endpoint this program has created is
    accounted for: a session database has a record of its machine, or the
    abandoned inventory lists it.  [Inv] is that claim with what makes it
    inductive: states recorded as [Removed] are true, abandoned resources are
    listed, completed records own nothing.  This file has the invariant, its
    stability, and the effect of each journal transaction on it. *)

From Stdlib Require Import ZArith Lia.
From stdpp Require Import base tactics option list numbers strings countable gmap fin_maps fin_sets.
From S2P Require Import Prelude Bytes Text BTree Guid HcsJournal HcsHost HcsText Hns HnsSafe HcsCleanup.

Section Inv.
Context `{UuidLaws} `{!Serde SessionRecord, !Serde VmResourceRecord, !Serde AbandonedRecord}.
Context `{!SerdeLaws SessionRecord, !SerdeLaws VmResourceRecord, !SerdeLaws AbandonedRecord}.

Implicit Types (w : World) (id : Uuid).

(** ** Views of the databases *)

Definition rec_of (w : World) (s : OsString) (id : Uuid) : option VmResourceRecord :=
  db ← w_sessions w !! s; b ← bt_get (uuid_to_string id) (vm_records db); from_slice b.
Definition row_of (w : World) (s : OsString) (id : Uuid) : option AbandonedRecord :=
  db ← w_sessions w !! s; b ← bt_get (uuid_to_string id) (abandoned_rows db); from_slice b.

Definition KIND_COMPUTE : bytes := str "compute_system".
Definition KIND_NETWORK : bytes := str "network".
Definition net_identity (id : Uuid) : bytes := nat_name id ++ str "/" ++ ep_name id.

(** The inventory of session [s] has an entry for this resource of [id]. *)
Definition listed (w : World) (s : OsString) (id : Uuid) (k i : bytes) : Prop :=
  exists a e, row_of w s id = Some a /\ e ∈ entries a /\ kind e = k /\ identity e = i.

Record good_record (w : World) (s : OsString) (id : Uuid) (r : VmResourceRecord) : Prop := {
  good_schema : vr_schema_version r = SCHEMA_VERSION;
  good_id : vr_vm_id r = id;
  good_compute_id : cr_id (compute_system r) = uuid_to_string id;
  good_compute_removed : cr_state (compute_system r) = Removed -> uuid_to_string id ∉ w_compute w;
  good_compute_listed : cr_state (compute_system r) = Abandoned -> listed w s id KIND_COMPUTE (uuid_to_string id);
  good_network n : network r = Some n ->
    network_name n = nat_name id /\ endpoint_name n = ep_name id
    /\ net_known w id (network_id n) (endpoint_id n)
    /\ (nr_state n = Removed -> net_gone w id)
    /\ (nr_state n = Abandoned -> listed w s id KIND_NETWORK (net_identity id));
  good_no_network : network r = None -> net_gone w id;
  good_complete : phase r = PhaseComplete ->
    cr_state (compute_system r) = Removed
    /\ forall n, network r = Some n -> nr_state n = Removed }.

Definition good_row (id : Uuid) (a : AbandonedRecord) : Prop :=
  ar_schema_version a = SCHEMA_VERSION
  /\ forall e, e ∈ entries a ->
     (kind e = KIND_COMPUTE -> identity e = uuid_to_string id)
     /\ (kind e = KIND_NETWORK -> identity e = net_identity id).

(** A resource of [id] is accounted for. *)
Definition tracked (w : World) (id : Uuid) (k i : bytes) : Prop :=
  exists s, is_Some (rec_of w s id) \/ listed w s id k i.

Definition tables_ok (w : World) : Prop :=
  forall s db, w_sessions w !! s = Some db ->
  bt_wf (vm_records db) /\ bt_wf (abandoned_rows db)
  /\ forall k b r, bt_get k (vm_records db) = Some b -> from_slice b = Some r -> k = uuid_to_string (vr_vm_id r).

Record Inv (w : World) : Prop := {
  inv_tables : tables_ok w;
  inv_records s id r : rec_of w s id = Some r -> good_record w s id r;
  inv_rows s id a : row_of w s id = Some a -> good_row id a;
  inv_unique s s' id : is_Some (rec_of w s id) -> is_Some (rec_of w s' id) -> s = s';
  inv_compute x : x ∈ w_compute w -> exists id, x = uuid_to_string id /\ tracked w id KIND_COMPUTE x;
  inv_networks id g : net_named w id g -> tracked w id KIND_NETWORK (net_identity id);
  inv_endpoints id g : ep_named w id g -> tracked w id KIND_NETWORK (net_identity id) }.

(** ** Stability *)

Lemma rec_of_sessions w w' s id : w_sessions w' = w_sessions w -> rec_of w' s id = rec_of w s id.
Proof. unfold rec_of. by intros ->. Qed.
Lemma row_of_sessions w w' s id : w_sessions w' = w_sessions w -> row_of w' s id = row_of w s id.
Proof. unfold row_of. by intros ->. Qed.
Lemma listed_rows w w' s id k i : row_of w' s id = row_of w s id -> listed w s id k i -> listed w' s id k i.
Proof. intros E (a & e & ? & ? & ? & ?). exists a, e. by rewrite E. Qed.

Lemma good_record_shrinks w w' s id r : shrinks w w' -> good_record w s id r -> good_record w' s id r.
Proof.
  intros Hs []. pose proof (row_of_sessions w w' s id (shrinks_sessions _ _ Hs)) as Er.
  split; try done.
  - intros Hr Hx. by eapply good_compute_removed0, shrinks_compute.
  - intros Hr. eapply listed_rows; [done|auto].
  - intros n Hn. destruct (good_network0 n Hn) as (? & ? & ? & ? & ?).
    split_and!; eauto using net_known_shrinks, net_gone_shrinks.
    intros Ha. eapply listed_rows; [done|auto].
  - eauto using net_gone_shrinks.
Qed.

Lemma tracked_sessions w w' id k i : w_sessions w' = w_sessions w -> tracked w id k i -> tracked w' id k i.
Proof.
  intros E [s [Hr|Hl]]; exists s.
  - left. by rewrite (rec_of_sessions w w').
  - right. eapply listed_rows; [by apply row_of_sessions|done].
Qed.

Lemma Inv_shrinks : closed Inv.
Proof.
  intros w w' [] Hs. pose proof (shrinks_sessions _ _ Hs) as E. split.
  - intros s db. rewrite E. apply inv_tables0.
  - intros s id r. rewrite (rec_of_sessions w w') by done. intros. eapply good_record_shrinks; eauto.
  - intros s id a. rewrite (row_of_sessions w w') by done. apply inv_rows0.
  - intros s s' id. rewrite !(rec_of_sessions w w') by done. apply inv_unique0.
  - intros x Hx. apply (shrinks_compute _ _ Hs) in Hx. destruct (inv_compute0 x Hx) as (id & ? & ?).
    exists id. eauto using tracked_sessions.
  - intros id g Hg. eapply tracked_sessions; [done|]. eapply inv_networks0. by eapply shrinks_networks.
  - intros id g Hg. eapply tracked_sessions; [done|]. eapply inv_endpoints0. by eapply shrinks_endpoints.
Qed.

(** ** One row changed *)

#[local] Instance Uuid_eq_dec : EqDecision Uuid.
Proof.
  intros u v. destruct (decide (uuid_to_string u = uuid_to_string v)) as [E|E].
  - left. by apply uuid_to_string_inj.
  - right. by intros ->.
Defined.

(** Nothing but the sessions differs. *)
Record same_host (w w' : World) : Prop := {
  same_compute : w_compute w' = w_compute w;
  same_networks : w_networks w' = w_networks w;
  same_endpoints : w_endpoints w' = w_endpoints w;
  same_files : w_files w' = w_files w;
  same_created : w_created w' = w_created w }.

Record rec_changed (w : World) (s : OsString) (id : Uuid) (o : option VmResourceRecord) (w' : World) : Prop := {
  rc_host : same_host w w';
  rc_at : rec_of w' s id = o;
  rc_else s' id' : ~ (s' = s /\ id' = id) -> rec_of w' s' id' = rec_of w s' id';
  rc_row s' id' : row_of w' s' id' = row_of w s' id';
  rc_tables : tables_ok w -> (forall r, o = Some r -> vr_vm_id r = id) -> tables_ok w' }.

Record row_changed (w : World) (s : OsString) (id : Uuid) (o : option AbandonedRecord) (w' : World) : Prop := {
  ac_host : same_host w w';
  ac_at : row_of w' s id = o;
  ac_else s' id' : ~ (s' = s /\ id' = id) -> row_of w' s' id' = row_of w s' id';
  ac_rec s' id' : rec_of w' s' id' = rec_of w s' id';
  ac_tables : tables_ok w -> tables_ok w' }.

Lemma put_db_host s db w : same_host w (put_db s db w).
Proof. by split. Qed.

Lemma sessions_put_db s s' db w :
  w_sessions (put_db s db w) !! s' = if decide (s' = s) then Some db else w_sessions w !! s'.
Proof. cbn. destruct (decide (s' = s)) as [->|]; [by rewrite lookup_insert_eq|by rewrite lookup_insert_ne]. Qed.

Lemma put_rec_changed w s db id r b :
  w_sessions w !! s = Some db -> tables_ok w -> from_slice b = Some r ->
  rec_changed w s id (Some r) (put_db s (set_vm_records (bt_insert (uuid_to_string id) b (vm_records db)) db) w).
Proof.
  intros Hdb T Hb. destruct (T s db Hdb) as (Hwf & Hwf' & Hk). split.
  - apply put_db_host.
  - unfold rec_of. rewrite sessions_put_db, decide_True by done. cbn. unfold vm_records at 1. cbn.
    by rewrite bt_get_insert, decide_True.
  - intros s' id' Hne. unfold rec_of. rewrite sessions_put_db. case_decide as Hs; [|done]. subst s'.
    rewrite Hdb. cbn. unfold vm_records at 1. cbn. rewrite bt_get_insert, decide_False; [done| |done].
    intros E. apply Hne. split; [done|]. by apply uuid_to_string_inj.
  - intros s' id'. unfold row_of. rewrite sessions_put_db. case_decide as Hs; [|done]. subst s'. by rewrite Hdb.
  - intros _ Hr s' db'. rewrite sessions_put_db. case_decide as Hs; [|apply T]. subst s'. intros [= <-].
    unfold vm_records, abandoned_rows. cbn. split; [by apply bt_wf_insert|]. split; [done|].
    intros k b' r'. rewrite bt_get_insert by done. case_decide as Ek; [|apply Hk].
    intros [= <-] Hb'. rewrite Hb in Hb'. injection Hb' as <-. by rewrite (Hr r).
Qed.

Lemma remove_rec_changed w s db id :
  w_sessions w !! s = Some db -> tables_ok w ->
  rec_changed w s id None (put_db s (set_vm_records (bt_remove (uuid_to_string id) (vm_records db)) db) w).
Proof.
  intros Hdb T. destruct (T s db Hdb) as (Hwf & Hwf' & Hk). split.
  - apply put_db_host.
  - unfold rec_of. rewrite sessions_put_db, decide_True by done. cbn. unfold vm_records at 1. cbn.
    by rewrite bt_get_remove, decide_True.
  - intros s' id' Hne. unfold rec_of. rewrite sessions_put_db. case_decide as Hs; [|done]. subst s'.
    rewrite Hdb. cbn. unfold vm_records at 1. cbn. rewrite bt_get_remove, decide_False; [done| |done].
    intros E. apply Hne. split; [done|]. by apply uuid_to_string_inj.
  - intros s' id'. unfold row_of. rewrite sessions_put_db. case_decide as Hs; [|done]. subst s'. by rewrite Hdb.
  - intros _ _ s' db'. rewrite sessions_put_db. case_decide as Hs; [|apply T]. subst s'. intros [= <-].
    unfold vm_records, abandoned_rows. cbn. split; [by apply bt_wf_remove|]. split; [done|].
    intros k b' r'. rewrite bt_get_remove by done. case_decide as Ek; [done|apply Hk].
Qed.

Lemma put_row_changed w s db id a b :
  w_sessions w !! s = Some db -> tables_ok w -> from_slice b = Some a ->
  row_changed w s id (Some a) (put_db s (set_abandoned (bt_insert (uuid_to_string id) b (abandoned_rows db)) db) w).
Proof.
  intros Hdb T Hb. destruct (T s db Hdb) as (Hwf & Hwf' & Hk). split.
  - apply put_db_host.
  - unfold row_of. rewrite sessions_put_db, decide_True by done. cbn. unfold abandoned_rows at 1. cbn.
    by rewrite bt_get_insert, decide_True.
  - intros s' id' Hne. unfold row_of. rewrite sessions_put_db. case_decide as Hs; [|done]. subst s'.
    rewrite Hdb. cbn. unfold abandoned_rows at 1. cbn. rewrite bt_get_insert, decide_False; [done| |done].
    intros E. apply Hne. split; [done|]. by apply uuid_to_string_inj.
  - intros s' id'. unfold rec_of. rewrite sessions_put_db. case_decide as Hs; [|done]. subst s'. by rewrite Hdb.
  - intros _ s' db'. rewrite sessions_put_db. case_decide as Hs; [|apply T]. subst s'. intros [= <-].
    unfold vm_records, abandoned_rows. cbn. split; [done|]. split; [by apply bt_wf_insert|done].
Qed.

Lemma remove_row_changed w s db id :
  w_sessions w !! s = Some db -> tables_ok w ->
  row_changed w s id None (put_db s (set_abandoned (bt_remove (uuid_to_string id) (abandoned_rows db)) db) w).
Proof.
  intros Hdb T. destruct (T s db Hdb) as (Hwf & Hwf' & Hk). split.
  - apply put_db_host.
  - unfold row_of. rewrite sessions_put_db, decide_True by done. cbn. unfold abandoned_rows at 1. cbn.
    by rewrite bt_get_remove, decide_True.
  - intros s' id' Hne. unfold row_of. rewrite sessions_put_db. case_decide as Hs; [|done]. subst s'.
    rewrite Hdb. cbn. unfold abandoned_rows at 1. cbn. rewrite bt_get_remove, decide_False; [done| |done].
    intros E. apply Hne. split; [done|]. by apply uuid_to_string_inj.
  - intros s' id'. unfold rec_of. rewrite sessions_put_db. case_decide as Hs; [|done]. subst s'. by rewrite Hdb.
  - intros _ s' db'. rewrite sessions_put_db. case_decide as Hs; [|apply T]. subst s'. intros [= <-].
    unfold vm_records, abandoned_rows. cbn. split; [done|]. split; [by apply bt_wf_remove|done].
Qed.

(** ** Transactions *)

(** A transaction that failed reports it; its effect may be durable. *)
Definition committed (r : res Report unit) : Prop := r = Ok tt \/ exists e, r = Err e.

Lemma update_vm_step s id f w r w' :
  tables_ok w -> write_step honest_windows s (update_vm_row id f) w r w' ->
  (w' = w /\ exists e, r = Err e)
  \/ exists r0, rec_of w s id = Some r0 /\ rec_changed w s id (Some (f r0)) w' /\ committed r.
Proof.
  intros T Hw. unfold write_step in Hw. destruct (w_sessions w !! s) as [db|] eqn:Hdb; [|naive_solver].
  unfold update_vm_row in Hw. destruct (bt_get (uuid_to_string id) (vm_records db)) as [b|] eqn:Hb; cbn in Hw; [|naive_solver].
  unfold decode_vm, decode in Hw. destruct (from_slice b) as [r0|] eqn:Hr; cbn in Hw; [|naive_solver].
  unfold validate_schema_version in Hw. destruct (_ =? _); cbn in Hw; [|naive_solver].
  unfold encode in Hw. destruct (serde_round_trip (f r0)) as (b' & E1 & E2). rewrite E1 in Hw. cbn in Hw.
  assert (Hr0 : rec_of w s id = Some r0) by (unfold rec_of; rewrite Hdb; cbn; by rewrite Hb).
  pose proof (put_rec_changed w s db id (f r0) b' Hdb T E2) as Hc. unfold committed.
  destruct Hw as [[-> ->]|(_ & -> & [-> | ->])]; [right|left|right]; eauto 10.
Qed.

Lemma remove_vm_step s id w r w' :
  tables_ok w -> write_step honest_windows s (remove_vm_row id) w r w' ->
  (w' = w /\ exists e, r = Err e) \/ (rec_changed w s id None w' /\ committed r).
Proof.
  intros T Hw. unfold write_step in Hw. destruct (w_sessions w !! s) as [db|] eqn:Hdb; [|naive_solver].
  cbn in Hw. pose proof (remove_rec_changed w s db id Hdb T) as Hc. unfold committed.
  destruct Hw as [[-> ->]|(_ & -> & [-> | ->])]; eauto 10.
Qed.

Lemma put_vm_step s rec b w r w' :
  tables_ok w -> from_slice b = Some rec -> write_step honest_windows s (put_vm_row rec b) w r w' ->
  (w' = w /\ exists e, r = Err e) \/ (rec_changed w s (vr_vm_id rec) (Some rec) w' /\ committed r).
Proof.
  intros T Hb Hw. unfold write_step in Hw. destruct (w_sessions w !! s) as [db|] eqn:Hdb; [|naive_solver].
  cbn in Hw. pose proof (put_rec_changed w s db (vr_vm_id rec) rec b Hdb T Hb) as Hc. unfold committed.
  destruct Hw as [[-> ->]|(_ & -> & [-> | ->])]; eauto 10.
Qed.

Lemma put_abandoned_step s id a b w r w' :
  tables_ok w -> from_slice b = Some a -> write_step honest_windows s (put_abandoned_row id b) w r w' ->
  (w' = w /\ exists e, r = Err e) \/ (row_changed w s id (Some a) w' /\ committed r).
Proof.
  intros T Hb Hw. unfold write_step in Hw. destruct (w_sessions w !! s) as [db|] eqn:Hdb; [|naive_solver].
  cbn in Hw. pose proof (put_row_changed w s db id a b Hdb T Hb) as Hc. unfold committed.
  destruct Hw as [[-> ->]|(_ & -> & [-> | ->])]; eauto 10.
Qed.

Lemma remove_abandoned_step s id w r w' :
  tables_ok w -> write_step honest_windows s (remove_abandoned_row id) w r w' ->
  (w' = w /\ exists e, r = Err e) \/ (row_changed w s id None w' /\ committed r).
Proof.
  intros T Hw. unfold write_step in Hw. destruct (w_sessions w !! s) as [db|] eqn:Hdb; [|naive_solver].
  cbn in Hw. pose proof (remove_row_changed w s db id Hdb T) as Hc. unfold committed.
  destruct Hw as [[-> ->]|(_ & -> & [-> | ->])]; eauto 10.
Qed.

Lemma vm_step s id w r :
  read_step honest_windows s (vm_row id) w r ->
  (exists e, r = Err e) \/ exists o, r = Ok o /\ o = rec_of w s id.
Proof.
  unfold read_step. destruct (w_sessions w !! s) as [db|] eqn:Hdb; [|naive_solver].
  intros [->|[_ ->]]; [|eauto]. unfold vm_row. destruct (VM_RECORDS db) as [t|] eqn:Ht; cbn; [|eauto].
  unfold rec_of. rewrite Hdb. cbn. unfold vm_records. rewrite Ht. cbn.
  destruct (bt_get (uuid_to_string id) t) as [b|]; cbn; [|eauto].
  unfold decode_vm, decode. destruct (from_slice b); cbn; [|eauto].
  unfold validate_schema_version. destruct (_ =? _); cbn; eauto.
Qed.

Lemma abandoned_step s id w r :
  read_step honest_windows s (abandoned_row id) w r ->
  (exists e, r = Err e) \/ exists o, r = Ok o /\ o = row_of w s id.
Proof.
  unfold read_step. destruct (w_sessions w !! s) as [db|] eqn:Hdb; [|naive_solver].
  intros [->|[_ ->]]; [|eauto]. unfold abandoned_row, row_of. rewrite Hdb. cbn. unfold abandoned_rows.
  destruct (ABANDONED db) as [t|] eqn:Ht; cbn; [|eauto].
  destruct (bt_get (uuid_to_string id) t) as [b|]; cbn; [|eauto].
  unfold decode. destruct (from_slice b); cbn; [|eauto].
  unfold validate_schema_version. destruct (_ =? _); cbn; eauto.
Qed.

(** ** The invariant through a changed row *)

Lemma good_record_mono w w' s id r :
  same_host w w' -> (forall k i, listed w s id k i -> listed w' s id k i) -> good_record w s id r -> good_record w' s id r.
Proof.
  intros [Ec En Ee _ _] Hl []. split; try done.
  - by rewrite Ec.
  - auto.
  - intros n Hn. destruct (good_network0 n Hn) as (? & ? & K & G & L).
    split_and!; [done..| | |].
    + destruct K. split; by rewrite ?En, ?Ee.
    + unfold net_gone. by rewrite En, Ee.
    + auto.
  - unfold net_gone. by rewrite En, Ee.
Qed.

Lemma good_record_same w w' s id r :
  same_host w w' -> (forall s' id', row_of w' s' id' = row_of w s' id') -> good_record w s id r -> good_record w' s id r.
Proof. intros Hh Hr. apply good_record_mono; [done|]. intros k i. by apply listed_rows. Qed.

Lemma tracked_else w w' s id id' k i o :
  rec_changed w s id o w' -> id' <> id -> tracked w id' k i -> tracked w' id' k i.
Proof.
  intros [] Hne [s' [Hr|Hl]]; exists s'.
  - left. rewrite rc_else0; [done|naive_solver].
  - right. by apply (listed_rows w).
Qed.

Lemma Inv_set_rec w s id r w' :
  Inv w -> rec_changed w s id (Some r) w' ->
  (is_Some (rec_of w s id) \/ forall s', rec_of w s' id = None) ->
  good_record w s id r -> Inv w'.
Proof.
  intros [] C Hex Hg. pose proof C as [Hh Hat Helse Hrow Ht].
  assert (Htr : forall id' k i, tracked w id' k i -> tracked w' id' k i).
  { intros id' k i Htr. destruct (decide (id' = id)) as [->|Hne]; [|by eapply tracked_else].
    exists s. left. rewrite Hat. eauto. }
  split.
  - apply Ht; [done|]. intros r' [= <-]. apply Hg.
  - intros s' id' r' Hr'. eapply good_record_same; [done..|].
    destruct (decide (s' = s /\ id' = id)) as [[-> ->]|Hne].
    + rewrite Hat in Hr'. by injection Hr' as <-.
    + rewrite Helse in Hr' by done. by apply inv_records0.
  - intros s' id' a. rewrite Hrow. apply inv_rows0.
  - intros s1 s2 id' H1 H2.
    assert (Hsome : forall s', is_Some (rec_of w' s' id') -> is_Some (rec_of w s' id') \/ (s' = s /\ id' = id)).
    { intros s' Hs'. destruct (decide (s' = s /\ id' = id)) as [?|Hne]; [auto|]. rewrite Helse in Hs' by done. auto. }
    apply Hsome in H1, H2. destruct H1 as [H1|[-> ->]], H2 as [H2|[-> E]].
    + by eapply inv_unique0.
    + subst id'. destruct Hex as [Hex|Hex]; [by eapply inv_unique0|]. rewrite Hex in H1. by destruct H1.
    + destruct Hex as [Hex|Hex]; [by eapply inv_unique0|]. rewrite Hex in H2. by destruct H2.
    + done.
  - intros x. rewrite (same_compute _ _ Hh). intros Hx. destruct (inv_compute0 x Hx) as (id' & ? & ?). eauto.
  - intros id' g. rewrite (same_networks _ _ Hh). eauto.
  - intros id' g. rewrite (same_endpoints _ _ Hh). eauto.
Qed.

(** Without the record, what is left of [id] is in an inventory. *)
Definition dispensable (w : World) (id : Uuid) : Prop :=
  (uuid_to_string id ∈ w_compute w -> exists s, listed w s id KIND_COMPUTE (uuid_to_string id))
  /\ (net_gone w id \/ exists s, listed w s id KIND_NETWORK (net_identity id)).

Lemma Inv_remove_rec w s id w' :
  Inv w -> rec_changed w s id None w' -> dispensable w id -> Inv w'.
Proof.
  intros [] C [Dc Dn]. pose proof C as [Hh Hat Helse Hrow Ht].
  assert (Hlist : forall id' k i, (exists s', listed w s' id' k i) -> tracked w' id' k i).
  { intros id' k i [s' Hl]. exists s'. right. by apply (listed_rows w). }
  split.
  - by apply Ht.
  - intros s' id' r' Hr'. eapply good_record_same; [done..|].
    destruct (decide (s' = s /\ id' = id)) as [[-> ->]|Hne]; [by rewrite Hat in Hr'|].
    rewrite Helse in Hr' by done. by apply inv_records0.
  - intros s' id' a. rewrite Hrow. apply inv_rows0.
  - intros s1 s2 id' H1 H2.
    assert (Hsome : forall s', is_Some (rec_of w' s' id') -> is_Some (rec_of w s' id')).
    { intros s' Hs'. destruct (decide (s' = s /\ id' = id)) as [[-> ->]|Hne]; [rewrite Hat in Hs'; by destruct Hs'|].
      by rewrite Helse in Hs'. }
    eapply inv_unique0; eauto.
  - intros x. rewrite (same_compute _ _ Hh). intros Hx. destruct (inv_compute0 x Hx) as (id' & -> & Htr).
    exists id'. split; [done|]. destruct (decide (id' = id)) as [->|Hne]; [by auto|by eapply tracked_else].
  - intros id' g. rewrite (same_networks _ _ Hh). intros Hg.
    destruct (decide (id' = id)) as [->|Hne]; [|eapply tracked_else; eauto].
    destruct Dn as [[Hn _]|?]; [by apply Hn in Hg|auto].
  - intros id' g. rewrite (same_endpoints _ _ Hh). intros Hg.
    destruct (decide (id' = id)) as [->|Hne]; [|eapply tracked_else; eauto].
    destruct Dn as [[_ Hn]|?]; [by apply Hn in Hg|auto].
Qed.

Lemma listed_else w w' s id o s' id' k i :
  row_changed w s id o w' -> ~ (s' = s /\ id' = id) -> listed w s' id' k i -> listed w' s' id' k i.
Proof. intros [] Hne. apply listed_rows. auto. Qed.

(** The new row lists what the old one did. *)
Lemma Inv_set_row w s id a w' :
  Inv w -> row_changed w s id (Some a) w' -> good_row id a ->
  (forall k i, listed w s id k i -> exists e, e ∈ entries a /\ kind e = k /\ identity e = i) -> Inv w'.
Proof.
  intros [] C Hg Hold. pose proof C as [Hh Hat Helse Hrec Ht].
  assert (Hl : forall s' id' k i, listed w s' id' k i -> listed w' s' id' k i).
  { intros s' id' k i Hl. destruct (decide (s' = s /\ id' = id)) as [[-> ->]|Hne]; [|by eapply listed_else].
    destruct (Hold k i Hl) as (e & ? & ? & ?). by exists a, e. }
  assert (Htr : forall id' k i, tracked w id' k i -> tracked w' id' k i).
  { intros id' k i [s' [?|?]]; exists s'; [left; by rewrite Hrec|auto]. }
  split.
  - auto.
  - intros s' id' r. rewrite Hrec. intros Hr. eapply good_record_mono; [done|auto|]. by apply inv_records0.
  - intros s' id' a'. destruct (decide (s' = s /\ id' = id)) as [[-> ->]|Hne].
    + rewrite Hat. by intros [= <-].
    + rewrite Helse by done. apply inv_rows0.
  - intros s1 s2 id'. rewrite !Hrec. apply inv_unique0.
  - intros x. rewrite (same_compute _ _ Hh). intros Hx. destruct (inv_compute0 x Hx) as (id' & ? & ?). eauto.
  - intros id' g. rewrite (same_networks _ _ Hh). eauto.
  - intros id' g. rewrite (same_endpoints _ _ Hh). eauto.
Qed.

(** Nothing of [id] is left on the host. *)
Definition absent (w : World) (id : Uuid) : Prop := (uuid_to_string id ∉ w_compute w) /\ net_gone w id.

Lemma absent_shrinks w w' id : shrinks w w' -> absent w id -> absent w' id.
Proof.
  intros Hs [Hc Hn]. split; [|by eapply net_gone_shrinks]. intros Hx. by apply Hc, (shrinks_compute _ _ Hs).
Qed.

Lemma Inv_remove_row w s id w' :
  Inv w -> row_changed w s id None w' -> rec_of w s id = None -> absent w id -> Inv w'.
Proof.
  intros [] C Hnone [Ac [An Ae]]. pose proof C as [Hh Hat Helse Hrec Ht].
  assert (Htr : forall id' k i, id' <> id -> tracked w id' k i -> tracked w' id' k i).
  { intros id' k i Hne [s' [?|?]]; exists s'; [left; by rewrite Hrec|right]. eapply listed_else; naive_solver. }
  split.
  - auto.
  - intros s' id' r. rewrite Hrec. intros Hr. eapply good_record_mono; [done| |by apply inv_records0].
    intros k i. apply (listed_else _ _ _ _ _ _ _ _ _ C). intros [-> ->]. by rewrite Hnone in Hr.
  - intros s' id' a'. destruct (decide (s' = s /\ id' = id)) as [[-> ->]|Hne]; [by rewrite Hat|].
    rewrite Helse by done. apply inv_rows0.
  - intros s1 s2 id'. rewrite !Hrec. apply inv_unique0.
  - intros x. rewrite (same_compute _ _ Hh). intros Hx. destruct (inv_compute0 x Hx) as (id' & -> & ?).
    exists id'. split; [done|]. apply Htr; [|done]. by intros ->.
  - intros id' g. rewrite (same_networks _ _ Hh). intros Hg. apply Htr; [|eauto]. intros ->. by apply An in Hg.
  - intros id' g. rewrite (same_endpoints _ _ Hh). intros Hg. apply Htr; [|eauto]. intros ->. by apply Ae in Hg.
Qed.

Lemma absent_dispensable w id : absent w id -> dispensable w id.
Proof. intros [? ?]. split; [done|auto]. Qed.
End Inv.
