(* ===== verification/HcsSafe.v ===== *)
(** * Cleanup and recovery keep track of everything

    The cleanup pass, abandonment and the recovery of stale sessions preserve
    [Inv] at every point, on an honest host that may fail any call, with
    transactions that may fail, and with the process dying anywhere. *)

From Stdlib Require Import ZArith Lia.
From stdpp Require Import base tactics option list numbers strings countable gmap fin_maps fin_sets.
From S2P Require Import Prelude Bytes Text BTree Guid HcsJournal HcsHost HcsText Hns HnsSafe HcsCleanup HcsInv.

Section Safe.
Context `{UuidLaws} `{!Serde SessionRecord, !Serde VmResourceRecord, !Serde AbandonedRecord}.
Context `{!SerdeLaws SessionRecord, !SerdeLaws VmResourceRecord, !SerdeLaws AbandonedRecord}.

(** ** Compute systems *)

Lemma hcs_operation_gone m o :
  (forall doc, op_doc o = Some (Some doc) -> quiet doc) ->
  match hcs_operation m o with
  | Ok _ => gone o = true
  | Err e => resource_is_absent e = true -> gone o = true
  | Panic => False
  end.
Proof.
  intros Hd. unfold hcs_operation, gone. destruct (op_created o); cbn [negb andb]; [|by rewrite absent_none].
  destruct (negb _ && negb _); [by rewrite absent_one, mentions_hresult|].
  assert (Hq : forall d, op_doc o = Some d -> quiet (default [] d) /\ quiet (default (str "Unknown Error") d)).
  { intros [d|] E; cbn; [split; by apply Hd|done]. }
  destruct m.
  - destruct (op_completed o); cbn [negb]; [|by rewrite absent_one].
    destruct (op_doc o) as [d|]; destruct (op_hr o =? S_OK) eqn:E; cbn [negb orb]; try done.
    + rewrite absent_two, mentions_hresult. destruct (Hq d eq_refl) as [Hq1 _]. rewrite Hq1. done.
    + rewrite absent_two, mentions_hresult. by rewrite orb_false_r.
  - destruct (op_doc o) as [d|].
    + destruct (op_hr o =? S_OK) eqn:E; cbn [negb orb]; [done|]. destruct (op_hr o =? HCS_E_OPERATION_PENDING); rewrite absent_one; [done|]. destruct (hns_absent (op_hr o)) eqn:Ea; [done|].
      enough (Hall : quiet (hresult (op_hr o) ++ str " (detail: " ++ default (str "Unknown Error") d ++ str ")"))
        by (intros Hm; by rewrite Hall in Hm).
      apply (quiet_around (hresult (op_hr o)) Byte.x20); [done|by apply quiet_hresult|].
      apply (quiet_lead (str "(detail: ")); [reflexivity|].
      apply (quiet_around _ Byte.x29 []); [done| |done]. by apply Hq.
    + rewrite absent_one. done.
Qed.

(** Removal of one machine's compute system. *)
Definition removal_post (w : World) (x : bytes) (r : res Report unit) (w' : World) : Prop :=
  shrinks w w' /\
  match r with
  | Ok _ => x ∉ w_compute w'
  | Err e => resource_is_absent e = true -> x ∉ w_compute w'
  | Panic => False
  end.

Section Compute.
Context (I : World -> Prop) (HI : closed I).

Lemma remove_compute_system_spec m x w :
  I w -> safe honest_windows I (remove_compute_system m x) (removal_post w x) w.
Proof.
  intros Iw. apply safe_bind, safe_shrink; [done..|]. intros o w1 I1 S1 [_ Hg] Hh. cbn in Hh.
  pose proof (hcs_operation_gone m o Hh) as Ho. apply safe_bind. split; [done|].
  destruct (hcs_operation m o) as [doc|e|]; cbn; [|split; auto|done].
  destruct doc as [d|]; [split; [done|]; split; auto|]. split; [done|]. split; [done|]. by rewrite absent_one.
Qed.

Lemma remove_by_id_spec m x w :
  I w -> safe honest_windows I (remove_compute_system_by_id m x) (removal_post w x) w.
Proof.
  intros Iw. apply safe_bind, safe_attempt, safe_bind, safe_shrink; [done..|].
  intros [hr handle] w1 I1 S1 [-> Hg] _. cbn in Hg.
  destruct (hr =? S_OK) eqn:E; cbn [negb].
  - destruct handle; cbn [negb].
    + apply safe_ret; [done|]. by apply remove_compute_system_spec.
    + apply safe_throw; [done|]. rewrite absent_one. change (mentions_code _) with false.
      apply safe_throw; [done|]. split; [done|]. by rewrite absent_one.
  - apply safe_throw; [done|]. rewrite absent_one, mentions_hresult.
    destruct (hns_absent hr) eqn:Ea.
    + apply safe_ret; [done|]. split; auto.
    + apply safe_throw; [done|]. split; [done|]. by rewrite absent_one, mentions_hresult, Ea.
Qed.
End Compute.

(** ** Facts that depend on the host alone *)

Lemma same_host_refl w : same_host w w.
Proof. by split. Qed.
Lemma absent_same w w' id : same_host w w' -> absent w id -> absent w' id.
Proof. intros [Ec En Ee _ _]. unfold absent, net_gone. by rewrite Ec, En, Ee. Qed.
Lemma state_covers_same w w' id st : same_host w w' -> state_covers w id st -> state_covers w' id st.
Proof. intros [Ec En Ee _ _]. unfold state_covers. by rewrite En, Ee. Qed.

(** ** Changing a good record *)

Definition neutral (f : VmResourceRecord -> VmResourceRecord) : Prop :=
  forall r, vr_schema_version (f r) = vr_schema_version r /\ vr_vm_id (f r) = vr_vm_id r
            /\ compute_system (f r) = compute_system r /\ network (f r) = network r.

(** An update of other fields, not completing the record. *)
Lemma good_neutral f w s id r :
  neutral f -> (phase (f r) = PhaseComplete -> phase r = PhaseComplete) ->
  good_record w s id r -> good_record w s id (f r).
Proof.
  intros Hf Hp []. destruct (Hf r) as (E1 & E2 & E3 & E4).
  split; rewrite ?E1, ?E2, ?E3, ?E4; auto.
Qed.

Lemma good_compute_to st w s id r :
  good_record w s id r -> phase r <> PhaseComplete ->
  (st = Removed -> uuid_to_string id ∉ w_compute w) ->
  (st = Abandoned -> listed w s id KIND_COMPUTE (uuid_to_string id)) ->
  good_record w s id (compute_to st r).
Proof. intros [] Hp Hr Hl. by split. Qed.

Lemma good_network_to st w s id r :
  good_record w s id r -> phase r <> PhaseComplete ->
  (st = Removed -> network r <> None -> net_gone w id) ->
  (st = Abandoned -> network r <> None -> listed w s id KIND_NETWORK (net_identity id)) ->
  good_record w s id (network_to st r).
Proof.
  intros [G1 G2 G3 G4 G5 G6 G7 G8] Hp Hr Hl. split; try done.
  - intros n Hn. cbn in Hn. destruct (network r) as [n0|] eqn:E; [|done]. cbn in Hn. injection Hn as <-.
    destruct (G6 n0 eq_refl) as (? & ? & ? & ? & ?). cbn. split_and!; auto.
  - cbn. by destruct (network r).
Qed.

Lemma neutral_disk_to i st : neutral (disk_to i st).
Proof. done. Qed.
Lemma neutral_last_error e : neutral (set_last_error e).
Proof. done. Qed.

(** ** Inventories *)

Definition has (es : list AbandonedResourceEntry) (k i : bytes) : Prop :=
  exists e, e ∈ es /\ kind e = k /\ identity e = i.

Lemma has_cons e es k i : has (e :: es) k i <-> (kind e = k /\ identity e = i) \/ has es k i.
Proof.
  unfold has. split.
  - intros (x & [->|?]%elem_of_cons & ? & ?); eauto 10.
  - intros [[? ?]|(x & ? & ? & ?)]; [exists e|exists x]; (split; [apply elem_of_cons; auto|done]).
Qed.
Lemma has_nil k i : ~ has [] k i.
Proof. intros (e & He & _). by apply not_elem_of_nil in He. Qed.

Lemma has_merge_entry new es k i :
  has (merge_entry new es) k i <-> has es k i \/ (kind new = k /\ identity new = i).
Proof.
  induction es as [|e es IH]; cbn [merge_entry].
  - rewrite has_cons. pose proof (has_nil k i). tauto.
  - destruct (_ && _) eqn:E.
    + apply andb_true_iff in E as [E1%bool_decide_eq_true E2%bool_decide_eq_true].
      rewrite !has_cons. cbn. rewrite E1, E2. tauto.
    + rewrite !has_cons, IH. tauto.
Qed.

Lemma has_merge_entries old new k i : has (merge_entries old new) k i <-> has old k i \/ has new k i.
Proof.
  revert old. induction new as [|e new IH]; intros old; cbn.
  - pose proof (has_nil k i). tauto.
  - unfold merge_entries in IH. rewrite IH, has_merge_entry, has_cons. tauto.
Qed.

Lemma has_consider now fs xs old acc k i :
  has (foldl (consider now fs) (old, acc) xs).1 k i
  <-> has old k i \/ exists st, (k, i, st) ∈ xs /\ st <> Removed.
Proof.
  revert old acc. induction xs as [|[[k' i'] st'] xs IH]; intros old acc; cbn [foldl].
  - split; [auto|]. intros [?|(st & Hst & _)]; [done|]. by apply not_elem_of_nil in Hst.
  - unfold consider at 2. case_bool_decide as Hst.
    + rewrite IH. split; (intros [?|(st & ? & ?)]; [by left|right; exists st; split; [|done]]).
      * apply elem_of_cons. auto.
      * apply elem_of_cons in H1 as [[= -> -> ->]|?]; done.
    + rewrite IH. cbn [fst]. rewrite has_merge_entry. cbn. split.
      * intros [[?|[-> ->]]|(st & ? & ?)]; [auto|right; exists st'; split; [left|done]|right; exists st; split; [by right|done]].
      * intros [?|(st & [[= -> -> ->]|?]%elem_of_cons & ?)]; eauto.
Qed.

Lemma listed_has w s id k i : listed w s id k i <-> exists a, row_of w s id = Some a /\ has (entries a) k i.
Proof. unfold listed, has. naive_solver. Qed.

(** The kinds and identities an inventory of [id] may have. *)
Definition fits (id : Uuid) (k i : bytes) : Prop :=
  (k = KIND_COMPUTE -> i = uuid_to_string id) /\ (k = KIND_NETWORK -> i = net_identity id).
Lemma good_row_fits id a :
  good_row id a <-> ar_schema_version a = SCHEMA_VERSION /\ forall k i, has (entries a) k i -> fits id k i.
Proof.
  unfold good_row, fits, has. split.
  - intros [? Hg]. split; [done|]. intros k i (e & He & <- & <-). by apply Hg.
  - intros [? Hg]. split; [done|]. intros e He. apply Hg. eauto.
Qed.

Lemma resources_fit w s id r k i st : good_record w s id r -> (k, i, st) ∈ resources_of r -> fits id k i.
Proof.
  intros [G1 G2 G3 G4 G5 G6 G7 G8]. unfold resources_of. rewrite elem_of_cons, elem_of_app.
  intros [[= -> -> ->]|[Hn|Hd]].
  - split; [done|discriminate].
  - destruct (network r) as [n|]; [|by apply not_elem_of_nil in Hn].
    apply list_elem_of_singleton in Hn as [= -> -> ->]. destruct (G6 n eq_refl) as (E1 & E2 & _).
    split; [discriminate|]. intros _. unfold network_identity. by rewrite E1, E2.
  - apply list_elem_of_fmap in Hd as (d & [= -> -> ->] & _). by split.
Qed.

(** ** One cleanup pass *)

Definition compute_settled (r : VmResourceRecord) : Prop := cr_state (compute_system r) = Removed.
Definition network_settled (r : VmResourceRecord) : Prop :=
  forall n, network r = Some n -> nr_state n = Removed.
Definition settled (r : VmResourceRecord) : Prop := compute_settled r /\ network_settled r.

Lemma settled_absent w s id r : good_record w s id r -> settled r -> absent w id.
Proof.
  intros [G1 G2 G3 G4 G5 G6 G7 G8] [Sc Sn]. split; [auto|].
  destruct (network r) as [n|] eqn:E; [|auto]. destruct (G6 n eq_refl) as (_ & _ & _ & Hr & _). auto.
Qed.

(** The handles a pass may be given are those of its machine. *)
Definition own_resources (w : World) (id : Uuid) (c : CleanupResources) : Prop :=
  (forall x, cl_system c = Some x -> x = uuid_to_string id)
  /\ (forall st, cl_network c = Some st -> state_covers w id st).

Lemma own_resources_shrinks w w' id c : shrinks w w' -> own_resources w id c -> own_resources w' id c.
Proof. intros Hs [? ?]. split; [done|]. intros. eapply state_covers_shrinks; eauto. Qed.
Lemma own_resources_same w w' id c : same_host w w' -> own_resources w id c -> own_resources w' id c.
Proof. intros Hs [? ?]. split; [done|]. intros. eapply state_covers_same; eauto. Qed.

(** ** Transactions under the invariant, with a frame

    [F] is anything that survives the transactions of one machine. *)

Section Frame.
Context (s : OsString) (id : Uuid) (F : World -> Prop) (HFclosed : closed F)
  (HFrec : forall w w' o, F w -> rec_changed w s id o w' -> F w')
  (HFrow : forall w w' o, F w -> row_changed w s id o w' -> F w').
Definition IF (w : World) : Prop := Inv w /\ F w.

Lemma IF_closed : closed IF.
Proof. intros w w' [? ?] Hs. split; [by eapply Inv_shrinks|by eapply HFclosed]. Qed.

Lemma update_safe f Q w :
  IF w -> (forall r, rec_of w s id = Some r -> good_record w s id (f r)) ->
  (forall e w', IF w' -> same_host w w' -> Q (Err e) w') ->
  (forall r w', rec_of w s id = Some r -> IF w' -> rec_changed w s id (Some (f r)) w' -> Q (Ok tt) w') ->
  safe honest_windows IF (update_vm s id f) Q w.
Proof.
  intros Iw Hg HE HO. apply safe_write; [done|]. intros r w' Hs.
  destruct (update_vm_step _ _ _ _ _ _ (inv_tables _ (proj1 Iw)) Hs) as [[-> [e ->]]|(r0 & Hr & C & Hc)].
  { split; [done|]. apply HE; [done|apply same_host_refl]. }
  assert (IF w') by (split; [eapply Inv_set_rec; eauto; apply Iw|eapply HFrec; [apply Iw|done]]). split; [done|].
  destruct Hc as [-> | [e ->]]; [eauto|]. apply HE; [done|apply C].
Qed.

Lemma vm_safe Q w :
  IF w -> (forall e, Q (Err e) w) -> Q (Ok (rec_of w s id)) w -> safe honest_windows IF (vm s id) Q w.
Proof.
  intros Iw HE HO. apply safe_read; [done|]. intros r Hs.
  destruct (vm_step _ _ _ _ Hs) as [[e ->]|(o & -> & ->)]; auto.
Qed.

Lemma abandoned_safe Q w :
  IF w -> (forall e, Q (Err e) w) -> Q (Ok (row_of w s id)) w -> safe honest_windows IF (abandoned s id) Q w.
Proof.
  intros Iw HE HO. apply safe_read; [done|]. intros r Hs.
  destruct (abandoned_step _ _ _ _ Hs) as [[e ->]|(o & -> & ->)]; auto.
Qed.

Lemma remove_vm_safe Q w :
  IF w -> dispensable w id ->
  (forall e w', IF w' -> Q (Err e) w') ->
  (forall w', IF w' -> rec_changed w s id None w' -> Q (Ok tt) w') ->
  safe honest_windows IF (remove_vm s id) Q w.
Proof.
  intros Iw Hd HE HO. apply safe_write; [done|]. intros r w' Hs.
  destruct (remove_vm_step _ _ _ _ _ (inv_tables _ (proj1 Iw)) Hs) as [[-> [e ->]]|[C Hc]]; [auto|].
  assert (IF w') by (split; [eapply Inv_remove_rec; eauto; apply Iw|eapply HFrec; [apply Iw|done]]). split; [done|]. destruct Hc as [-> | [e ->]]; auto.
Qed.

Lemma remove_abandoned_safe Q w :
  IF w -> rec_of w s id = None -> absent w id ->
  (forall e w', IF w' -> Q (Err e) w') -> (forall w', IF w' -> Q (Ok tt) w') ->
  safe honest_windows IF (remove_abandoned s id) Q w.
Proof.
  intros Iw Hn Ha HE HO. apply safe_write; [done|]. intros r w' Hs.
  destruct (remove_abandoned_step _ _ _ _ _ (inv_tables _ (proj1 Iw)) Hs) as [[-> [e ->]]|[C Hc]]; [auto|].
  assert (IF w') by (split; [eapply Inv_remove_row; eauto; apply Iw|eapply HFrow; [apply Iw|done]]). split; [done|]. destruct Hc as [-> | [e ->]]; auto.
Qed.

(** ** The outcome of one removal *)

Definition pending (w : World) (r : VmResourceRecord) : Prop :=
  rec_of w s id = Some r /\ phase r = PhaseCleanupPending.

Lemma apply_outcome_safe result k op i T failures w r Q :
  IF w -> rec_of w s id = Some r -> result <> Panic ->
  (result = Ok tt \/ (exists e, result = Err e /\ resource_is_absent e = true) -> good_record w s id (T Removed r)) ->
  good_record w s id (T RemovalFailed r) ->
  (forall e w', IF w' -> Q (Err e) w') ->
  (forall w', IF w' -> same_host w w' -> rec_of w' s id = Some (T Removed r) -> Q (Ok failures) w') ->
  (forall f e w', IF w' -> same_host w w' ->
     rec_of w' s id = Some (set_last_error e (T RemovalFailed r)) -> Q (Ok (failures ++ [f])) w') ->
  safe honest_windows IF (apply_resource_outcome s id result k op i T failures) Q w.
Proof.
  intros Iw Hr Hp HR HRF HE HO HX.
  assert (Hrem : good_record w s id (T Removed r) ->
     safe honest_windows IF (_ ← update_vm s id (T Removed); mret failures) Q w).
  { intros Hg. apply safe_bind, update_safe; [done| |auto|].
    - intros r' Hr'. rewrite Hr in Hr'. by injection Hr' as <-.
    - intros r' w' Hr' Iw' C. rewrite Hr in Hr'. injection Hr' as <-. apply safe_ret; [done|].
      apply HO; [done|apply C|apply C]. }
  destruct result as [[]|e|]; cbn [apply_resource_outcome]; [by auto| |done].
  destruct (resource_is_absent e) eqn:Ea; [eauto 10|]. cbv zeta.
  apply safe_bind, update_safe; [done| |auto|].
  - intros r' Hr'. rewrite Hr in Hr'. injection Hr' as <-. by apply (good_neutral (set_last_error _)).
  - intros r' w' Hr' Iw' C. rewrite Hr in Hr'. injection Hr' as <-. apply safe_ret; [done|].
    eapply HX; [done|apply C|apply C].
Qed.

Section Pass.
Context (m : mode) (c : CleanupResources).

Lemma clean_compute_safe failures w r Q :
  IF w -> pending w r -> own_resources w id c ->
  (forall e w', IF w' -> Q (Err e) w') ->
  (forall fs r' w', IF w' -> pending w' r' -> own_resources w' id c -> network r' = network r ->
     (fs = [] -> failures = [] /\ compute_settled r') -> Q (Ok fs) w') ->
  safe honest_windows IF (clean_compute (production m) m s id r c failures) Q w.
Proof.
  intros Iw [Hr Hp] Ho HE HO. unfold clean_compute. case_bool_decide as Hst.
  { apply safe_ret; [done|]. by eapply HO. }
  pose proof (inv_records _ (proj1 Iw) _ _ _ Hr) as G.
  apply safe_bind, safe_attempt.
  eapply (safe_mono _ IF IF _ (removal_post w (uuid_to_string id))); [|done|].
  { destruct (cl_system c) as [x|] eqn:Ex.
    - rewrite (proj1 Ho x Ex). apply remove_compute_system_spec; [apply IF_closed|done].
    - cbn. rewrite (good_compute_id _ _ _ _ G). apply remove_by_id_spec; [apply IF_closed|done]. }
  intros result w1 I1 [S1 P1].
  assert (Hr1 : rec_of w1 s id = Some r) by (rewrite (rec_of_sessions w w1); [done|apply S1]).
  pose proof (inv_records _ (proj1 I1) _ _ _ Hr1) as G1. pose proof (own_resources_shrinks _ _ _ _ S1 Ho) as O1.
  assert (Hnc : phase r <> PhaseComplete) by congruence.
  assert (Hn : result <> Panic) by (by intros ->).
  assert (Hsafe : safe honest_windows IF
    (apply_resource_outcome s id result (str "compute_system") (str "remove")
       (cr_id (compute_system r)) compute_to failures) Q w1).
  { apply (apply_outcome_safe _ _ _ _ _ _ _ r); [done..| | |auto| |].
    - intros Hres. apply good_compute_to; [done..| |done]. intros _. destruct Hres as [-> |(e & -> & ?)]; auto.
    - by apply good_compute_to.
    - intros w2 I2 H2 Hr2. eapply (HO failures _ w2); [done|by split|by eapply own_resources_same|done|]. by intros ->.
    - intros f e w2 I2 H2 Hr2. eapply HO; [done|by split|by eapply own_resources_same|done|].
      by intros [_ ?]%app_eq_nil. }
  destruct result; [done|done|by destruct Hn].
Qed.

Lemma clean_network_safe failures w r Q :
  IF w -> pending w r -> own_resources w id c -> (failures = [] -> compute_settled r) ->
  (forall e w', IF w' -> Q (Err e) w') ->
  (forall fs r' w', IF w' -> pending w' r' -> (fs = [] -> settled r') -> Q (Ok fs) w') ->
  forall r0, network r0 = network r ->
  safe honest_windows IF (clean_network (production m) s id r0 c failures) Q w.
Proof.
  intros Iw [Hr Hp] Ho Hcs HE HO r0 En. unfold clean_network. rewrite En.
  destruct (network r) as [n|] eqn:Er.
  2:{ apply safe_ret; [done|]. apply (HO failures r); [done|by split|]. intros Hf. split; [auto|]. intros ?. congruence. }
  case_bool_decide as Hst.
  { apply safe_ret; [done|]. apply (HO failures r); [done|by split|]. intros Hf. split; [auto|].
    intros n'. rewrite Er. by intros [= <-]. }
  pose proof (inv_records _ (proj1 Iw) _ _ _ Hr) as G. destruct (good_network _ _ _ _ G n Er) as (E1 & E2 & K & _).
  apply safe_bind, safe_attempt.
  eapply (safe_mono _ IF IF _ (deletion_post w id)); [|done|].
  { destruct (cl_network c) as [st|] eqn:Ex.
    - apply close_and_delete_spec; [apply IF_closed|done|]. by apply Ho.
    - cbn. rewrite E1, E2. apply delete_exact_spec; [apply IF_closed|done..]. }
  intros result w1 I1 [S1 P1].
  assert (Hr1 : rec_of w1 s id = Some r) by (rewrite (rec_of_sessions w w1); [done|apply S1]).
  pose proof (inv_records _ (proj1 I1) _ _ _ Hr1) as G1.
  assert (Hnc : phase r <> PhaseComplete) by congruence.
  assert (Hn : result <> Panic) by (by intros ->).
  assert (Hsafe : safe honest_windows IF
    (apply_resource_outcome s id result (str "network") (str "delete") (network_identity n) network_to failures) Q w1).
  { apply (apply_outcome_safe _ _ _ _ _ _ _ r); [done..| | |auto| |].
    - intros Hres. apply good_network_to; [done..| |done]. intros _ _.
      destruct Hres as [-> |(e & -> & Ha)]; [done|]. cbn in P1. congruence.
    - by apply good_network_to.
    - intros w2 I2 H2 Hr2. eapply (HO failures _ w2); [done|by split|]. intros Hf. split; [by apply Hcs|].
      intros n'. cbn. rewrite Er. cbn. by intros [= <-].
    - intros f e w2 I2 H2 Hr2. eapply HO; [done|by split|]. by intros [_ ?]%app_eq_nil. }
  destruct result; [done|done|by destruct Hn].
Qed.

Lemma remove_disk_stays vm_id d : stays IF (remove_disk vm_id d).
Proof. pose proof IF_closed. unfold remove_disk, get_file_identity. along. Qed.

Lemma clean_disk_safe failures w r x Q :
  IF w -> pending w r ->
  (forall e w', IF w' -> Q (Err e) w') ->
  (forall fs r' w', IF w' -> pending w' r' -> (settled r -> settled r') ->
     (fs = [] -> failures = []) -> Q (Ok fs) w') ->
  safe honest_windows IF (clean_disk (production m) s id failures x) Q w.
Proof.
  intros Iw [Hr Hp] HE HO. destruct x as [index d]. unfold clean_disk. case_bool_decide as Hst.
  { apply safe_ret; [done|]. by eapply HO; [|split|..]. }
  apply safe_bind, safe_attempt, (safe_stays _); [apply remove_disk_stays|done|].
  intros result w1 I1 S1 Hn.
  assert (Hr1 : rec_of w1 s id = Some r) by (rewrite (rec_of_sessions w w1); [done|apply S1]).
  pose proof (inv_records _ (proj1 I1) _ _ _ Hr1) as G1.
  assert (Hsafe : safe honest_windows IF
    (apply_resource_outcome s id result (str "disk") (str "remove") (to_string_lossy (dr_path d)) (disk_to index) failures) Q w1).
  { apply (apply_outcome_safe _ _ _ _ _ _ _ r); [done..| | |auto| |].
    - intros _. by apply (good_neutral (disk_to _ _)).
    - by apply (good_neutral (disk_to _ _)).
    - intros w2 I2 H2 Hr2. eapply (HO failures _ w2); [done|by split|done..].
    - intros f e w2 I2 H2 Hr2. eapply HO; [done|by split|done|]. by intros [_ ?]%app_eq_nil. }
  destruct result; [done|done|by destruct Hn].
Qed.

Lemma good_abandon es w r :
  good_record w s id r -> phase r <> PhaseComplete ->
  (forall k i st, (k, i, st) ∈ resources_of r -> st <> Removed -> listed w s id k i) ->
  good_record w s id (abandon_record es r).
Proof.
  intros [G1 G2 G3 G4 G5 G6 G7 G8] Hp Hl.
  assert (Ha : forall st, abandon st = Removed -> st = Removed) by (intros []; done).
  assert (Hb : forall st, abandon st = Abandoned -> st <> Removed) by (intros []; done).
  split; try done; cbn -[net_identity KIND_NETWORK KIND_COMPUTE].
  - auto.
  - intros Hc. rewrite <-G3. eapply Hl; [by left|auto].
  - intros n Hn. destruct (network r) as [n0|] eqn:E; [|done]. cbn in Hn. injection Hn as <-. cbn -[net_identity KIND_NETWORK].
    destruct (G6 n0 eq_refl) as (E1 & E2 & ? & Hr & _). split_and!; [done..| |]; [auto|].
    intros Hc. replace (net_identity id) with (network_identity n0) by (unfold network_identity; by rewrite E1, E2).
    eapply Hl; [|by apply Hb]. unfold resources_of. rewrite E.
    apply elem_of_cons. right. apply elem_of_app. left. by apply list_elem_of_singleton.
  - by destruct (network r).
Qed.

Lemma put_abandoned_safe es w Q :
  IF w -> (forall k i, has es k i -> fits id k i) ->
  (forall e w', IF w' -> Q (Err e) w') ->
  (forall w', IF w' -> (forall s' id', rec_of w' s' id' = rec_of w s' id') ->
     (forall k i, has es k i -> listed w' s id k i) -> Q (Ok tt) w') ->
  safe honest_windows IF
    (put_abandoned s {| ar_schema_version := SCHEMA_VERSION; ar_vm_id := id; entries := es |}) Q w.
Proof.
  intros Iw Hf HE HO. unfold put_abandoned. cbn [ar_schema_version ar_vm_id entries].
  apply (safe_res _ _ tt); [done|]. apply safe_bind, abandoned_safe; [done|auto|].
  set (old := match row_of w s id with Some p => entries p | None => [] end).
  set (a := {| ar_schema_version := 1; ar_vm_id := id; entries := merge_entries old es |}).
  destruct (serde_round_trip a) as (b & E1 & E2). cbv zeta. unfold encode.
  change SCHEMA_VERSION with 1. fold a. apply (safe_res _ _ b); [by rewrite E1|].
  apply safe_write; [done|]. intros r w' Hs.
  destruct (put_abandoned_step _ _ _ _ _ _ _ (inv_tables _ (proj1 Iw)) E2 Hs) as [[-> [e ->]]|[C Hc]]; [auto|].
  assert (Hold : forall k i, has old k i <-> listed w s id k i).
  { intros k i. rewrite listed_has. unfold old. destruct (row_of w s id) as [p|]; [naive_solver|].
    pose proof (has_nil k i). naive_solver. }
  assert (Iw' : IF w').
  { split; [|eapply HFrow; [apply Iw|done]]. eapply Inv_set_row; [apply Iw|done| |].
    - apply good_row_fits. split; [done|]. cbn. intros k i [Ho|?]%has_merge_entries; [|auto].
      apply Hold, listed_has in Ho as (p & Hp & Hh). apply (inv_rows _ (proj1 Iw)) in Hp.
      apply good_row_fits in Hp as [_ Hp]. by apply Hp.
    - intros k i Hl. apply Hold in Hl. cbn. apply has_merge_entries. auto. }
  split; [done|]. destruct Hc as [-> | [e ->]]; [|auto]. apply HO; [done|apply C|].
  intros k i Hh. apply listed_has. exists a. split; [apply C|]. cbn. apply has_merge_entries. auto.
Qed.

Lemma abandon_remaining_safe fs w r Q :
  IF w -> pending w r -> (forall res w', IF w' -> res <> Panic -> Q res w') ->
  safe honest_windows IF (abandon_remaining s id r fs) Q w.
Proof.
  intros Iw [Hr Hp] HQ. unfold abandon_remaining.
  apply safe_bind, safe_shrink; [apply IF_closed|done|done|]. intros now w1 I1 S1 _ _.
  assert (Hr1 : rec_of w1 s id = Some r) by (rewrite (rec_of_sessions w w1); [done|apply S1]).
  pose proof (inv_records _ (proj1 I1) _ _ _ Hr1) as G1.
  apply safe_bind, abandoned_safe; [done|auto|]. cbv zeta.
  set (old := match row_of w1 s id with Some p => entries p | None => [] end).
  pose proof (has_consider now fs (resources_of r) old []) as Hes.
  destruct (foldl (consider now fs) (old, []) (resources_of r)) as [es abandoned_now]. cbn [fst] in Hes.
  apply safe_bind, put_abandoned_safe; [done| |by auto|].
  - intros k i [Ho|(st & Hst & _)]%Hes; [|by eapply resources_fit].
    unfold old in Ho. destruct (row_of w1 s id) as [p|] eqn:Ep; [|by apply has_nil in Ho].
    apply (inv_rows _ (proj1 I1)), good_row_fits in Ep as [_ Ep]. by apply Ep.
  - intros w2 I2 Erec Hl. apply update_safe; [done| |by auto|by auto].
    intros r2 Hr2. rewrite Erec, Hr1 in Hr2. injection Hr2 as <-.
    apply good_abandon; [|congruence|].
    + apply (inv_records _ (proj1 I2)). by rewrite Erec.
    + intros k i st Hst Hn. apply Hl, Hes. eauto.
Qed.

Lemma finish_cleanup_safe fs w r Q :
  IF w -> pending w r -> (fs = [] -> settled r) ->
  (forall res w', IF w' -> res <> Panic -> Q res w') ->
  safe honest_windows IF (finish_cleanup s id fs) Q w.
Proof.
  intros Iw [Hr Hp] Hset HQ. destruct fs as [|f fs]; cbn [finish_cleanup].
  - specialize (Hset eq_refl). apply safe_bind, update_safe; [done| |by auto|].
    { intros r' Hr'. rewrite Hr in Hr'. injection Hr' as <-.
      pose proof (inv_records _ (proj1 Iw) _ _ _ Hr) as [G1 G2 G3 G4 G5 G6 G7 G8]. split; auto. }
    intros r' w1 Hr' I1 C. rewrite Hr in Hr'. injection Hr' as <-.
    assert (A1 : absent w1 id).
    { eapply (settled_absent w1 s id (complete r)); [apply (inv_records _ (proj1 I1)), C|exact Hset]. }
    apply safe_bind, remove_vm_safe; [done|by apply absent_dispensable|by auto|].
    intros w2 I2 C2. apply remove_abandoned_safe; [done|apply C2| |by auto|by auto].
    eapply absent_same; [apply C2|done].
  - apply safe_bind, vm_safe; [done|by auto|]. rewrite Hr. apply (safe_res _ _ r); [done|].
    destruct (_ <=? _).
    + by apply abandon_remaining_safe.
    + apply safe_throw; auto.
Qed.

Lemma cleanup_record_safe w Q :
  IF w -> own_resources w id c ->
  (forall res w', IF w' -> res <> Panic -> Q res w') ->
  safe honest_windows IF (cleanup_record m s id c) Q w.
Proof.
  intros Iw Ho HQ. unfold cleanup_record, cleanup_record_with.
  apply safe_bind, update_safe; [done| |by auto|].
  { intros r Hr. pose proof (inv_records _ (proj1 Iw) _ _ _ Hr) as [G1 G2 G3 G4 G5 G6 G7 G8]. by split. }
  intros r0 w1 _ I1 C1. apply safe_bind, vm_safe; [done|by auto|]. rewrite (rc_at _ _ _ _ _ C1).
  apply (safe_res _ _ (begin_cleanup r0)); [done|].
  assert (P1 : pending w1 (begin_cleanup r0)) by (split; [apply C1|done]).
  pose proof (own_resources_same _ _ _ _ (rc_host _ _ _ _ _ C1) Ho) as O1.
  apply safe_bind, clean_compute_safe; [done..|by auto|]. intros fs2 r2 w2 I2 P2 O2 En2 F2.
  apply safe_bind. eapply (clean_network_safe fs2 w2 r2); [done..|naive_solver|by auto| |done].
  intros fs3 r3 w3 I3 P3 F3.
  apply safe_bind, (safe_hfold _ _ _ (fun _ fs w => exists r, pending w r /\ (fs = [] -> settled r))); [done|eauto| |].
  - intros x xs fs w4 I4 (r4 & P4 & F4). apply (clean_disk_safe _ _ r4); [done..|by auto|].
    intros fs5 r5 w5 I5 P5 Hset Hfs. exists r5. split; [done|]. auto.
  - intros fs w4 I4 (r4 & P4 & F4). by eapply finish_cleanup_safe.
Qed.
End Pass.
End Frame.
End Safe.
