(* ===== verification/HcsRecover.v ===== *)
(** * Recovery of stale sessions

    [reconcile_stale_sessions] keeps [Inv]: it removes a record or a whole
    session database only when nothing it accounted for is left or the
    inventory lists what is. *)

From Stdlib Require Import ZArith Lia.
From stdpp Require Import base tactics option list numbers strings countable gmap fin_maps fin_sets.
From S2P Require Import Prelude Bytes Text BTree Guid HcsJournal HcsHost HcsText Hns HnsSafe HcsCleanup HcsInv HcsSafe.

Section Recover.
Context `{UuidLaws} `{!Serde SessionRecord, !Serde VmResourceRecord, !Serde AbandonedRecord}.
Context `{!SerdeLaws SessionRecord, !SerdeLaws VmResourceRecord, !SerdeLaws AbandonedRecord}.

(** ** Reading all records *)

Lemma for_each_decode t acc :
  match for_each (fun records '(_, b) => record ← decode_vm b; Ok (records ++ [record])) t acc with
  | Ok l => exists ds, l = acc ++ ds /\ Forall2 (fun (kb : bytes * bytes) r => from_slice kb.2 = Some r) t ds
  | Err _ => True
  | Panic => False
  end.
Proof.
  revert acc. induction t as [|[k b] t IH]; intros acc; cbn [for_each].
  { exists []. by rewrite app_nil_r. }
  unfold decode_vm, decode. destruct (from_slice b) as [r|] eqn:Eb; cbn; [|done].
  unfold validate_schema_version. destruct (_ =? _); cbn; [|done].
  specialize (IH (acc ++ [r])). destruct (for_each _ t (acc ++ [r])) as [l|e|]; [|done..].
  destruct IH as (ds & -> & Hds). exists (r :: ds). rewrite <-app_assoc. split; [done|]. by constructor.
Qed.

Definition reads_all (w : World) (s : OsString) (records : list VmResourceRecord) : Prop :=
  (forall id r, rec_of w s id = Some r -> r ∈ records)
  /\ (forall r, r ∈ records -> rec_of w s (vr_vm_id r) = Some r)
  /\ NoDup (map vr_vm_id records).

Lemma all_vms_step s w r :
  tables_ok w -> read_step honest_windows s all_vm_rows w r ->
  (exists e, r = Err e) \/ exists records, r = Ok records /\ reads_all w s records.
Proof.
  intros T. unfold read_step. destruct (w_sessions w !! s) as [db|] eqn:Hdb; [|naive_solver].
  intros [->|[_ ->]]; [|eauto]. unfold all_vm_rows. destruct (VM_RECORDS db) as [t|] eqn:Ht; cbn; [|eauto].
  pose proof (for_each_decode t []) as Hd. destruct (for_each _ t []) as [l|e|]; [|eauto|done].
  right. exists l. split; [done|]. destruct Hd as (ds & -> & Hds). cbn.
  destruct (T s db Hdb) as (Hwf & _ & Hk). unfold vm_records in Hwf, Hk. rewrite Ht in Hwf, Hk. cbn in Hwf, Hk.
  assert (Hrec : forall id, rec_of w s id = b ← bt_get (uuid_to_string id) t; from_slice b).
  { intros id. unfold rec_of. rewrite Hdb. cbn. unfold vm_records. by rewrite Ht. }
  assert (Hmem : forall r, r ∈ ds -> exists b, (uuid_to_string (vr_vm_id r), b) ∈ t /\ from_slice b = Some r).
  { intros r Hr. apply list_elem_of_lookup_1 in Hr as [i Hi].
    destruct (Forall2_lookup_r _ _ _ _ _ Hds Hi) as ([k b] & Hkb & Hb). cbn in Hb.
    apply list_elem_of_lookup_2 in Hkb. pose proof Hkb as Hg. apply bt_get_elem in Hg; [|done].
    rewrite <-(Hk _ _ _ Hg Hb). eauto. }
  split; [|split].
  - intros id r. rewrite Hrec. destruct (bt_get (uuid_to_string id) t) as [b|] eqn:Eb; [|done]. cbn. intros Hr.
    apply bt_get_elem in Eb; [|done]. apply list_elem_of_lookup_1 in Eb as [i Hi].
    destruct (Forall2_lookup_l _ _ _ _ _ Hds Hi) as (r' & Hr' & Hb'). cbn in Hb'. rewrite Hr in Hb'. injection Hb' as <-.
    by eapply list_elem_of_lookup_2.
  - intros r Hr. destruct (Hmem r Hr) as (b & Hb & Er). rewrite Hrec. apply bt_get_elem in Hb; [|done].
    by rewrite Hb.
  - apply (NoDup_fmap_1 uuid_to_string). replace (uuid_to_string <$> map vr_vm_id ds) with (bt_keys t).
    + by apply bt_keys_NoDup.
    + apply list_eq. intros i. unfold bt_keys. rewrite !list_lookup_fmap. destruct (t !! i) as [[k b]|] eqn:Ei; cbn.
      * destruct (Forall2_lookup_l _ _ _ _ _ Hds Ei) as (r & Hr & Hb). rewrite Hr. cbn in Hb |- *. f_equal.
        apply list_elem_of_lookup_2, bt_get_elem in Ei; [|done]. by eapply Hk.
      * apply lookup_ge_None in Ei. rewrite (Forall2_length _ _ _ Hds) in Ei.
        apply lookup_ge_None in Ei. by rewrite Ei.
Qed.

Lemma all_vms_safe I s Q w :
  I w -> tables_ok w -> (forall e, Q (Err e) w) -> (forall records, reads_all w s records -> Q (Ok records) w) ->
  safe honest_windows I (all_vms s) Q w.
Proof.
  intros Iw T HE HO. apply safe_read; [done|]. intros r Hs.
  destruct (all_vms_step _ _ _ T Hs) as [[e ->]|(records & -> & Hr)]; auto.
Qed.

(** ** One record *)

Lemma complete_dispensable w s id r :
  good_record w s id r -> is_complete r = true ->
  (uuid_to_string id ∈ w_compute w -> listed w s id KIND_COMPUTE (uuid_to_string id))
  /\ (net_gone w id \/ listed w s id KIND_NETWORK (net_identity id)).
Proof.
  intros G. unfold is_complete. rewrite orb_true_iff, !andb_true_iff, bool_decide_eq_true.
  intros [Hc|[[Hc Hn] _]].
  - destruct (settled_absent _ _ _ _ G (good_complete _ _ _ _ G Hc)) as [? ?]. split; [done|auto].
  - destruct G as [G1 G2 G3 G4 G5 G6 G7 G8].
    assert (Ht : forall st, terminal st = true -> st = Removed \/ st = Abandoned) by (intros []; cbn; auto; discriminate).
    split.
    + apply Ht in Hc as [Hc|Hc]; [|auto]. by intros ?%G4.
    + destruct (network r) as [n|]; [|auto]. destruct (G6 n eq_refl) as (_ & _ & _ & Hr & Ha).
      apply Ht in Hn as [Hn|Hn]; auto.
Qed.

(** All rows but those of machine [id] in session [s] are as in [w0]. *)
Definition others_kept (w0 : World) (s : OsString) (id : Uuid) (w : World) : Prop :=
  forall s' id', ~ (s' = s /\ id' = id) -> rec_of w s' id' = rec_of w0 s' id'.

Lemma others_kept_closed w0 s id : closed (others_kept w0 s id).
Proof. intros w w' F Hs s' id' Hne. rewrite (rec_of_sessions w w'); [auto|apply Hs]. Qed.
Lemma others_kept_rec w0 s id w w' o : others_kept w0 s id w -> rec_changed w s id o w' -> others_kept w0 s id w'.
Proof. intros F C s' id' Hne. rewrite (rc_else _ _ _ _ _ C) by done. auto. Qed.
Lemma others_kept_row w0 s id w w' o : others_kept w0 s id w -> row_changed w s id o w' -> others_kept w0 s id w'.
Proof. intros F C s' id' Hne. rewrite (ac_rec _ _ _ _ _ C). auto. Qed.

Lemma cleanup_record_others m s id c w Q :
  Inv w -> own_resources w id c ->
  (forall res w', Inv w' -> others_kept w s id w' -> res <> Panic -> Q res w') ->
  safe honest_windows Inv (cleanup_record m s id c) Q w.
Proof.
  intros Iw Ho HQ.
  eapply safe_mono; [apply (cleanup_record_safe s id (others_kept w s id))|by intros w' [? ?]|].
  - apply others_kept_closed.
  - intros. by eapply others_kept_rec.
  - intros. by eapply others_kept_row.
  - split; [done|]. by intros s' id' _.
  - done.
  - intros res w' IF' Hn. exact (conj IF' Hn).
  - intros res w' _ [[? ?] ?]. auto.
Qed.

Lemma recover_record_safe s r w Q :
  Inv w -> rec_of w s (vr_vm_id r) = Some r ->
  (forall e w', Inv w' -> Q (Err e) w') ->
  (forall w', Inv w' -> others_kept w s (vr_vm_id r) w' -> Q (Ok tt) w') ->
  safe honest_windows Inv (recover_record s r) Q w.
Proof.
  intros Iw Hr HE HO. unfold recover_record. destruct (is_complete r) eqn:Ec.
  - eapply (safe_mono _ (IF (others_kept w s (vr_vm_id r))) Inv _
      (fun res w' => (exists e, res = Err e) \/ (res = Ok tt /\ others_kept w s (vr_vm_id r) w'))).
    + apply remove_vm_safe.
      * intros. by eapply others_kept_rec.
      * split; [done|]. by intros s' id' _.
      * destruct (complete_dispensable w s _ r (inv_records _ Iw _ _ _ Hr) Ec) as [Dc [Dn|Dn]]; split; eauto.
      * eauto.
      * intros w' [_ F'] _. auto.
    + by intros w' [? ?].
    + intros res w' [I' _] [[e ->]|[-> F']]; auto.
  - apply safe_bind, safe_attempt, cleanup_record_others; [done|by split|].
    intros [[]|e|] w' I' F' Hn; [apply safe_ret; auto..|done].
Qed.

(** ** One session *)

Definition remaining (s : OsString) (xs : list VmResourceRecord) (w : World) : Prop :=
  NoDup (map vr_vm_id xs) /\ forall r, r ∈ xs -> rec_of w s (vr_vm_id r) = Some r.

Lemma delete_session w s w' :
  Inv w -> w' = set_sessions (delete s (w_sessions w)) w ->
  (forall id r, rec_of w s id = Some r -> is_complete r = true) ->
  (forall id, row_of w s id = None) -> Inv w'.
Proof.
  intros Iw -> Hc Hn.
  set (w' := set_sessions _ w).
  assert (Hrec : forall s' id, rec_of w' s' id = if decide (s' = s) then None else rec_of w s' id).
  { intros s' id. unfold rec_of. cbn. case_decide as E; [subst; by rewrite lookup_delete_eq|by rewrite lookup_delete_ne]. }
  assert (Hrow : forall s' id, row_of w' s' id = if decide (s' = s) then None else row_of w s' id).
  { intros s' id. unfold row_of. cbn. case_decide as E; [subst; by rewrite lookup_delete_eq|by rewrite lookup_delete_ne]. }
  assert (Hlist : forall s' id k i, listed w s' id k i -> s' <> s /\ listed w' s' id k i).
  { intros s' id k i Hl. assert (Hne : s' <> s).
    { intros ->. destruct Hl as (a & e & Ha & _). by rewrite Hn in Ha. }
    split; [done|]. apply (listed_rows w); [|done]. by rewrite Hrow, decide_False. }
  assert (Htr : forall id k i, (forall r, rec_of w s id = Some r -> listed w s id k i) ->
            tracked w id k i -> tracked w' id k i).
  { intros id k i Hl [s' [[r Hr]|?]].
    - destruct (decide (s' = s)) as [->|Hne].
      + destruct (Hlist _ _ _ _ (Hl _ Hr)) as [? _]. done.
      + exists s'. left. rewrite Hrec, decide_False by done. eauto.
    - exists s'. right. by apply Hlist. }
  assert (Hdisp := fun id r Hr => complete_dispensable w s id r (inv_records _ Iw _ _ _ Hr) (Hc _ _ Hr)).
  assert (Hnet : forall id r, rec_of w s id = Some r -> net_gone w id).
  { intros id r Hr. destruct (Hdisp id r Hr) as [_ [?|Hl]]; [done|]. by apply Hlist in Hl as [? _]. }
  destruct Iw as [T R A U C N E]. split.
  - intros s' db. cbn. rewrite lookup_delete_Some. intros [_ ?]. by eapply T.
  - intros s' id r. rewrite Hrec. case_decide; [done|]. intros Hr.
    apply (good_record_mono w); [by split| |by apply R]. intros k i Hl. by apply Hlist.
  - intros s' id a. rewrite Hrow. case_decide; [done|]. apply A.
  - intros s1 s2 id. rewrite !Hrec. do 2 (case_decide; [by intros ? ?%is_Some_None || intros ?%is_Some_None|]). apply U.
  - intros x Hx. destruct (C x Hx) as (id & -> & Ht). exists id. split; [done|]. apply Htr; [|done].
    intros r Hr. by apply (Hdisp id r Hr).
  - intros id g Hg. eapply Htr; [|by eapply N]. intros r Hr. exfalso. by eapply (proj1 (Hnet _ _ Hr)).
  - intros id g Hg. eapply Htr; [|by eapply E]. intros r Hr. exfalso. by eapply (proj2 (Hnet _ _ Hr)).
Qed.

Lemma has_abandoned_step s w r :
  read_step honest_windows s has_abandoned_rows w r ->
  (exists e, r = Err e) \/ exists b, r = Ok b /\ (b = false -> forall id, row_of w s id = None).
Proof.
  unfold read_step. destruct (w_sessions w !! s) as [db|] eqn:Hdb; [|naive_solver].
  intros [->|[_ ->]]; [|eauto]. right. eexists. split; [done|]. intros Hb id. unfold row_of. rewrite Hdb. cbn.
  unfold abandoned_rows. destruct (ABANDONED db) as [[|x t]|]; done.
Qed.

Lemma read_session_step s w r : read_step honest_windows s read_existing_session w r -> r <> Panic.
Proof.
  unfold read_step. destruct (w_sessions w !! s) as [db|]; [|by intros ->].
  intros [->|[_ ->]]; [|done]. unfold read_existing_session, validate_schema_version, decode.
  destruct (SCHEMA db); cbn; [|done]. destruct (_ =? _); cbn; [|done].
  destruct (VM_RECORDS db); cbn; [|done]. destruct (SESSION db); cbn; [|done].
  destruct (from_slice _); cbn; [|done]. destruct (_ =? _); cbn; [|done].
  destruct (is_empty _); [done|]. by destruct (negb _).
Qed.

(** Postcondition of the programs below: they may fail, not panic. *)
Definition no_panic {A} (r : res Report A) (w : World) : Prop := r <> Panic.

Lemma recover_session_safe current path w :
  Inv w -> safe honest_windows Inv (recover_session current path) no_panic w.
Proof.
  intros Iw. unfold recover_session. case_bool_decide; [by apply safe_ret|].
  apply safe_bind, safe_bind, safe_shrink; [apply Inv_shrinks|done|done|].
  intros o w1 I1 _ _ _. destruct o; [|by apply safe_ret|by apply safe_throw].
  apply safe_bind, safe_read; [done|]. intros r Hread. apply read_session_step in Hread.
  destruct r as [sr|e|]; [|done|done].
  apply safe_ret; [done|]. apply safe_bind, all_vms_safe; [done|apply I1|done|]. intros records (_ & Hrec & Hnd).
  apply safe_bind, (safe_hfold _ _ _ (fun xs _ w => remaining path xs w)); [done|by split| |].
  - intros r xs [] w2 I2 [Hnd2 Hr2]. apply recover_record_safe; [done|apply Hr2; by left|done|].
    intros w3 I3 F3. inversion Hnd2 as [|? ? Hni Hnd3]; subst. split; [done|].
    intros r' Hr'. rewrite F3; [apply Hr2; by right|]. intros [_ E]. apply Hni.
    rewrite <-E. apply list_elem_of_fmap. eauto.
  - intros [] w2 I2 _. apply safe_bind, all_vms_safe; [done|apply I2|done|]. intros rest (Hall & _).
    apply safe_bind, safe_read; [done|]. intros r Hs.
    destruct (has_abandoned_step _ _ _ Hs) as [[e ->]|(b & -> & Hb)]; [done|].
    destruct (_ && _) eqn:Ec; [|by apply safe_ret].
    apply andb_true_iff in Ec as [Einc Eb]. apply negb_true_iff in Einc, Eb.
    apply safe_bind, safe_ask; [done|]. intros a w3 [Hw _]. cbn in Hw.
    destruct a as [e|]; subst w3; [split; [done|]; by apply safe_throw|].
    assert (Inv (set_sessions (delete path (w_sessions w2)) w2)); [|split; [done|]; by apply safe_ret].
    eapply delete_session; [done..| |by apply Hb].
    intros id r Hr. apply Hall in Hr. destruct (is_complete r) eqn:E; [done|].
    apply not_true_iff_false in Einc. exfalso. apply Einc, existsb_exists. exists r.
    split; [by apply list_elem_of_In|by rewrite E].
Qed.

Lemma reconcile_safe current w :
  Inv w -> safe honest_windows Inv (reconcile_stale_sessions current) no_panic w.
Proof.
  intros Iw. apply safe_bind, safe_shrink; [apply Inv_shrinks|done|done|]. intros a w1 I1 _ (-> & Hn & _) _.
  destruct a as [ps|e|]; [|apply safe_bind; by split|done]. apply (safe_res _ _ ps); [done|].
  apply (safe_hfold _ _ _ (fun _ _ _ => True)); [done..| |].
  - intros path xs [] w2 I2 _. eapply safe_mono; [by apply recover_session_safe|done|].
    by intros [[]|e|] w3 I3 Hr.
  - done.
Qed.
End Recover.
