(* ===== verification/HcsTrack.v ===== *)
(** * No resource is ever lost track of

    Launching a machine keeps [Inv] too; so does every history of sessions,
    launches, publications, closings, recoveries, crashes and interference. *)

From Stdlib Require Import ZArith Lia.
From stdpp Require Import base tactics option list numbers strings countable gmap fin_maps fin_sets.
From S2P Require Import Prelude Bytes Text BTree Guid HcsJournal HcsHost HcsText Hns HnsSafe HcsCleanup HcsLaunch HcsInv HcsSafe HcsRecover.

Section Track.
Context `{UuidLaws} `{!Serde SessionRecord, !Serde VmResourceRecord, !Serde AbandonedRecord}.
Context `{!SerdeLaws SessionRecord, !SerdeLaws VmResourceRecord, !SerdeLaws AbandonedRecord}.

#[local] Instance track_uuid_eq_dec : EqDecision Uuid.
Proof.
  intros u v. destruct (decide (uuid_to_string u = uuid_to_string v)) as [E|E].
  - left. by apply uuid_to_string_inj.
  - right. by intros ->.
Defined.

(** ** Growing the world *)

Lemma good_record_else w w' s id r :
  (forall s' id', row_of w' s' id' = row_of w s' id') ->
  (uuid_to_string id ∈ w_compute w' -> uuid_to_string id ∈ w_compute w) ->
  (forall g, net_named w' id g -> net_named w id g) -> (forall g, ep_named w' id g -> ep_named w id g) ->
  good_record w s id r -> good_record w' s id r.
Proof.
  intros Er Hc Hn He [G1 G2 G3 G4 G5 G6 G7 G8].
  assert (Hl : forall k i, listed w s id k i -> listed w' s id k i) by (intros k i; by apply listed_rows).
  assert (Hg : net_gone w id -> net_gone w' id) by (intros [An Ae]; split; intros g ?; [by eapply An, Hn|by eapply Ae, He]).
  split; try done.
  - intros Hr ?%Hc. by apply G4.
  - auto.
  - intros n E. destruct (G6 n E) as (? & ? & [Kn Ke Sn Se] & ? & ?). split_and!; auto.
    split.
    + intros g Hg' g' ?%Hn. by eapply Kn.
    + intros g Hg' g' ?%He. by eapply Ke.
    + intros g g' ?%Hn ?%Hn. by apply Sn.
    + intros g g' ?%He ?%He. by apply Se.
  - auto.
Qed.

(** A creation for machine [id], whose record says so. *)
Lemma Inv_grow w w' s id r :
  Inv w -> rec_of w s id = Some r -> w_sessions w' = w_sessions w ->
  good_record w' s id r ->
  (forall x, x ∈ w_compute w' -> x ∈ w_compute w \/ x = uuid_to_string id) ->
  (forall id' g, id' <> id -> net_named w' id' g -> net_named w id' g) ->
  (forall id' g, id' <> id -> ep_named w' id' g -> ep_named w id' g) -> Inv w'.
Proof.
  intros [T R A U C N E] Hr Es G Hc Hn He.
  assert (Hrec : forall s' id', rec_of w' s' id' = rec_of w s' id') by (intros; by apply rec_of_sessions).
  assert (Hrow : forall s' id', row_of w' s' id' = row_of w s' id') by (intros; by apply row_of_sessions).
  assert (Hmine : forall k i, tracked w' id k i) by (intros; exists s; left; rewrite Hrec; eauto).
  split.
  - intros s' db. rewrite Es. apply T.
  - intros s' id' r' Hr'. rewrite Hrec in Hr'. destruct (decide (id' = id)) as [->|Hne].
    + assert (s' = s) as -> by (eapply U; eauto). rewrite Hr in Hr'. by injection Hr' as <-.
    + apply (good_record_else w); auto. intros [?|E']%Hc; [done|]. apply uuid_to_string_inj in E'. done.
  - intros s' id' a. rewrite Hrow. apply A.
  - intros s1 s2 id'. rewrite !Hrec. apply U.
  - intros x [Hx| ->]%Hc; [|eauto]. destruct (C x Hx) as (id' & ? & ?). exists id'. eauto using tracked_sessions.
  - intros id' g Hg. destruct (decide (id' = id)) as [->|Hne]; [done|]. eauto using tracked_sessions.
  - intros id' g Hg. destruct (decide (id' = id)) as [->|Hne]; [done|]. eauto using tracked_sessions.
Qed.

(** ** What the other machines see *)

Definition others (w0 : World) (id : Uuid) (w : World) : Prop :=
  forall id' g, id' <> id ->
  (net_named w id' g -> net_named w0 id' g) /\ (ep_named w id' g -> ep_named w0 id' g).

Lemma others_refl w id : others w id w.
Proof. by intros id' g _. Qed.
Lemma others_closed w0 id : closed (others w0 id).
Proof.
  intros w w' F Hs id' g Hne. destruct (F id' g Hne). split; [|]; intros Hg.
  - apply (shrinks_networks _ _ Hs) in Hg. auto.
  - apply (shrinks_endpoints _ _ Hs) in Hg. auto.
Qed.
Lemma others_same w0 id w w' : others w0 id w -> same_host w w' -> others w0 id w'.
Proof. intros F [_ En Ee _ _] id' g Hne. rewrite En, Ee. auto. Qed.

Lemma state_covers_others w0 id w id' st : others w0 id w -> id' <> id -> state_covers w0 id' st -> state_covers w id' st.
Proof. intros F Hne [Cn Ce]. split; intros g Hg; [apply Cn|apply Ce]; by apply (F id' g Hne). Qed.

(** ** Launching machine [id] in session [s] *)

Section LaunchSafe.
Context (s : OsString) (id : Uuid) (w0 : World).
Abbreviation IL := (IF (others w0 id)).

Lemma IL_closed : closed IL.
Proof. apply IF_closed, others_closed. Qed.
Lemma others_rec w w' o : others w0 id w -> rec_changed w s id o w' -> others w0 id w'.
Proof. intros F C. eapply others_same; [done|apply C]. Qed.
Lemma others_row w w' o : others w0 id w -> row_changed w s id o w' -> others w0 id w'.
Proof. intros F C. eapply others_same; [done|apply C]. Qed.

(** The record of a launch under way, and the handles of its guard. *)
Definition launching (w : World) : Prop :=
  exists r, rec_of w s id = Some r /\ cr_state (compute_system r) = Planned /\ phase r <> PhaseComplete.
Definition guard_resources (g : ProvisioningGuard) : CleanupResources :=
  {| cl_system := None; cl_network := pg_network g |}.
Definition stage (g : ProvisioningGuard) (w : World) : Prop :=
  launching w /\ own_resources w id (guard_resources g).

Lemma launching_sessions w w' : w_sessions w' = w_sessions w -> launching w -> launching w'.
Proof. intros E (r & Hr & ?). exists r. by rewrite (rec_of_sessions w w'). Qed.
Lemma stage_shrinks g w w' : shrinks w w' -> stage g w -> stage g w'.
Proof.
  intros Hs [L O]. split; [|by eapply own_resources_shrinks]. eapply launching_sessions; [apply Hs|done].
Qed.

Lemma drop_unjournaled_stays x : stays IL (drop_unjournaled x).
Proof. pose proof IL_closed. unfold drop_unjournaled, get_file_identity. destruct x. along. Qed.
#[local] Hint Resolve drop_unjournaled_stays : along.

Lemma drop_guard_safe g w Q :
  IL w -> own_resources w id (guard_resources g) ->
  (forall r w', IL w' -> r <> Panic -> Q r w') -> safe honest_windows IL (drop_guard s id g) Q w.
Proof.
  intros Iw O HQ. apply safe_bind, safe_attempt.
  apply (cleanup_record_safe s id); [apply others_closed|apply others_rec|apply others_row|done|done|].
  intros r w' Iw' Hr.
  assert (safe honest_windows IL (hfold (fun _ x => drop_unjournaled x) (unjournaled_disks g) tt) Q w').
  { apply (safe_stays IL); [along|done|]. auto. }
  by destruct r.
Qed.

(** [?] under the guard. *)
Lemma guarded_safe {A B} g (p : host A) (k : A -> host B) Q w :
  (forall e w', IL w' -> Q (Err e) w') ->
  safe honest_windows IL p (fun r w' =>
    match r with
    | Ok a => safe honest_windows IL (k a) Q w'
    | Err _ => own_resources w' id (guard_resources g)
    | Panic => False
    end) w ->
  safe honest_windows IL (guarded s id g p k) Q w.
Proof.
  intros HE Hp. apply safe_bind, safe_attempt. eapply safe_mono; [exact Hp|done|].
  intros [a|e|] w' Iw' Hr; [done| |done]. apply safe_bind, drop_guard_safe; [done..|].
  intros [u|e'|] w'' Iw'' Hn; [|auto|done]. by apply safe_throw; auto.
Qed.

Lemma guarded_stays {A B} g (p : host A) (k : A -> host B) Q w :
  IL w -> stage g w -> stays IL p ->
  (forall e w', IL w' -> Q (Err e) w') ->
  (forall a w', IL w' -> stage g w' -> safe honest_windows IL (k a) Q w') ->
  safe honest_windows IL (guarded s id g p k) Q w.
Proof.
  intros Iw S Hp HE HO. apply guarded_safe; [done|]. apply (safe_stays _); [done..|].
  intros [a|e|] w' Iw' Hs Hn; [|by apply (stage_shrinks _ _ _ Hs S)|done]. apply HO; [done|]. by eapply stage_shrinks.
Qed.

(** Updates that keep the record of a launch. *)
Definition keeps_launch (f : VmResourceRecord -> VmResourceRecord) : Prop :=
  neutral f /\ forall r, phase (f r) = phase r.

Lemma guarded_update {B} g f (k : unit -> host B) Q w :
  IL w -> stage g w -> keeps_launch f ->
  (forall e w', IL w' -> Q (Err e) w') ->
  (forall w', IL w' -> stage g w' -> safe honest_windows IL (k tt) Q w') ->
  safe honest_windows IL (guarded s id g (update_vm s id f) k) Q w.
Proof.
  intros Iw [L O] [Hf Hp] HE HO. apply guarded_safe; [done|].
  apply (update_safe s id); [apply others_rec|done| | |].
  - intros r Hr. apply (good_neutral f); [done|by rewrite Hp|]. by apply (inv_records _ (proj1 Iw)).
  - intros e w' Iw' Hh. by eapply own_resources_same.
  - intros r w' Hr Iw' C. apply HO; [done|]. split; [|eapply own_resources_same; [apply C|done]].
    destruct L as (r' & Hr' & Hc & Hph). rewrite Hr in Hr'. injection Hr' as <-.
    exists (f r). destruct (Hf r) as (_ & _ & Ec & _). by rewrite (rc_at _ _ _ _ _ C), Ec, Hp.
Qed.

(** ** Disks *)

Lemma normalize_stays p : stays IL (normalize_absolute_path p).
Proof.
  intros w Iw. apply safe_bind, safe_shrink; [apply IL_closed|done|done|].
  intros a w' Iw' Hs [_ Hn] _. by split.
Qed.
#[local] Hint Resolve normalize_stays : along.

Lemma open_disk_stays spec d : stays IL (open_disk spec d).
Proof.
  pose proof IL_closed. unfold open_disk, create_sparse_vhdx, validate_existing_vhdx, get_file_identity. along.
Qed.

Lemma scsi_slot_no_panic index : scsi_slot index <> Panic.
Proof. unfold scsi_slot. destruct (try_from_u 32 (_ / _)); [|by compute]. destruct (try_from_u 32 (_ mod _)); by compute. Qed.

Lemma planned_disk_stays index : stays IL (provisioning_planned_disk s id index).
Proof.
  intros w Iw. apply safe_bind, (vm_safe s id); [done|done|].
  split; [done|]. split; [|done]. by destruct (record ← _; _).
Qed.

Lemma materialize_disk_safe {B} g index spec d (k : ProvisioningGuard -> AttachedDisk -> host B) Q w :
  IL w -> stage g w ->
  (forall e w', IL w' -> Q (Err e) w') ->
  (forall g' a w', IL w' -> stage g' w' -> safe honest_windows IL (k g' a) Q w') ->
  safe honest_windows IL (materialize_disk s g id index spec d k) Q w.
Proof.
  intros Iw S HE HO. apply guarded_stays; [done|done|apply open_disk_stays|done|].
  intros [[[[path o] effective] initialize] i] w1 I1 S1. cbv zeta.
  set (g1 := if initialize then _ else g).
  assert (S1' : stage g1 w1) by (by unfold g1; destruct initialize). clearbody g1.
  apply guarded_update; [done|done|done|done|]. intros w2 I2 S2.
  apply guarded_stays; [done|done| |done|].
  { pose proof IL_closed. along. }
  intros [] w3 I3 S3. apply guarded_update; [done|done|done|done|]. auto.
Qed.

Lemma materialize_disks_safe {B} specs g index attached (k : ProvisioningGuard -> list AttachedDisk -> host B) Q w :
  IL w -> stage g w ->
  (forall e w', IL w' -> Q (Err e) w') ->
  (forall g' a w', IL w' -> stage g' w' -> safe honest_windows IL (k g' a) Q w') ->
  safe honest_windows IL (materialize_disks s g id index specs attached k) Q w.
Proof.
  intros Iw S HE HO. revert g index attached w Iw S.
  induction specs as [|spec specs IH]; intros g index attached w Iw S; cbn [materialize_disks]; [auto|].
  apply guarded_stays; [done|done|apply planned_disk_stays|done|]. intros d w1 I1 S1.
  apply materialize_disk_safe; [done..|]. intros g2 a w2 I2 S2.
  apply guarded_stays; [done|done|apply along_res; [exact _|intros _; apply scsi_slot_no_panic]|done|]. intros _ w3 I3 S3.
  apply guarded_stays; [done|done| |done|]; [pose proof IL_closed; along|]. intros _ w4 I4 S4. auto.
Qed.

(** ** The compute system *)

Lemma create_compute_safe w Q :
  IL w -> launching w ->
  (forall r w', IL w' -> r <> Panic -> (forall x, r = Ok x -> x = uuid_to_string id) ->
     w_sessions w' = w_sessions w -> w_networks w' = w_networks w -> w_endpoints w' = w_endpoints w -> Q r w') ->
  safe honest_windows IL (create_compute_system id) Q w.
Proof.
  intros Iw (r & Hr & Hc & Hp) HQ. apply safe_bind, safe_ask; [done|]. intros [o handle] w' [Hw _]. cbn in Hw.
  assert (Iw' : IL w').
  { destruct Hw as [-> | ->]; [done|]. split; [|by apply Iw].
    eapply (Inv_grow w _ s id r); [apply Iw|done..| | |done|done].
    - pose proof (inv_records _ (proj1 Iw) _ _ _ Hr) as [G1 G2 G3 G4 G5 G6 G7 G8].
      split; try done; [by rewrite Hc|]. intros n Hn. destruct (G6 n Hn) as (? & ? & [] & ? & ?). by split_and!.
    - cbn. intros x. set_solver. }
  split; [done|].
  assert (E : w_sessions w' = w_sessions w /\ w_networks w' = w_networks w /\ w_endpoints w' = w_endpoints w)
    by (by destruct Hw as [-> | ->]).
  destruct E as (E1 & E2 & E3). apply safe_bind. split; [done|].
  assert (Hn : hcs_operation Sync o <> Panic).
  { unfold hcs_operation. repeat case_match; done. }
  destruct (hcs_operation Sync o) as [doc|e|]; [|by apply HQ|done].
  destruct handle; cbn [negb]; [apply safe_ret|apply safe_throw]; try done; apply HQ; try done; by intros x [= <-].
Qed.

Lemma create_machine_safe g w Q :
  IL w -> stage g w ->
  (forall e w', IL w' -> own_resources w' id (guard_resources g) -> Q (Err e) w') ->
  (forall w', IL w' -> own_resources w' id (guard_resources g) -> Q (Ok (uuid_to_string id)) w') ->
  safe honest_windows IL (create_machine s id) Q w.
Proof.
  intros Iw S HE HO. pose proof IL_closed as HI.
  assert (Hprep : forall p (f : unit -> host bytes) w, IL w -> stage g w ->
    (forall w', IL w' -> stage g w' -> safe honest_windows IL (f tt) Q w') ->
    safe honest_windows IL (check (Prepare p) Datatypes.id ≫= f) Q w).
  { intros p f w1 I1 S1 Hf. apply safe_bind, (safe_stays IL); [along|done|].
    intros [[]|e|] w2 I2 Hs Hn; [|apply HE; [done|]|done].
    - apply Hf; [done|]. by eapply stage_shrinks.
    - by apply (stage_shrinks _ _ _ Hs S1). }
  apply Hprep; [done..|]. intros w0' I0 S0. apply Hprep; [done..|]. intros w1 I1 S1. apply Hprep; [done..|]. intros w2 I2 S2.
  apply Hprep; [done..|]. intros w3 I3 [L3 O3].
  apply safe_bind, create_compute_safe; [done..|]. intros r w4 I4 Hn Hx E1 E2 E3.
  assert (O4 : own_resources w4 id (guard_resources g)).
  { destruct O3 as [? O3]. split; [done|]. intros st Hst. unfold state_covers. rewrite E2, E3. by apply O3. }
  destruct r as [x|e|]; [|by apply HE|done]. rewrite (Hx x eq_refl).
  apply safe_bind, (update_safe s id); [apply others_rec|done| | |].
  - intros r Hr. pose proof (inv_records _ (proj1 I4) _ _ _ Hr) as [G1 G2 G3 G4 G5 G6 G7 G8]. by split.
  - intros e w5 I5 Hh. apply HE; [done|]. by eapply own_resources_same.
  - intros r w5 _ I5 C. apply safe_ret; [done|]. apply HO; [done|]. eapply own_resources_same; [apply C|done].
Qed.

(** ** The network *)

Lemma good_record_net w w' r n :
  good_record w s id r -> w_sessions w' = w_sessions w -> w_compute w' = w_compute w ->
  network r = Some n -> nr_state n <> Removed -> net_known w' id (network_id n) (endpoint_id n) ->
  good_record w' s id r.
Proof.
  intros [G1 G2 G3 G4 G5 G6 G7 G8] Es Ec En Hs K.
  assert (Hl : forall k i, listed w s id k i -> listed w' s id k i) by (intros k i; by apply listed_rows, row_of_sessions).
  split; try done.
  - by rewrite Ec.
  - auto.
  - intros n'. rewrite En. intros [= <-]. destruct (G6 n En) as (? & ? & _ & _ & ?). split_and!; auto. done.
  - by rewrite En.
Qed.

Lemma good_set_network w r n n' :
  good_record w s id r -> phase r <> PhaseComplete -> network r = Some n ->
  network_name n' = network_name n -> endpoint_name n' = endpoint_name n ->
  net_known w id (network_id n') (endpoint_id n') -> nr_state n' <> Removed -> nr_state n' <> Abandoned ->
  good_record w s id (set_network (Some n') r).
Proof.
  intros [G1 G2 G3 G4 G5 G6 G7 G8] Hp En E1 E2 K Hr Ha. split; try done. cbn [network set_network]. intros ? [= <-].
  destruct (G6 n En) as (? & ? & _). split_and!; first [done|congruence|by intros ?%Hr|by intros ?%Ha].
Qed.

(** The record while the network [g] is being created. *)
Record net_stage (g : Guid) (w : World) (r : VmResourceRecord) (n : NetworkResource) : Prop := {
  ns_rec : rec_of w s id = Some r;
  ns_compute : cr_state (compute_system r) = Planned;
  ns_phase : phase r <> PhaseComplete;
  ns_net : network r = Some n;
  ns_state : nr_state n = Planned;
  ns_id : classify_journal_id (network_id n) = Some (Exact g);
  ns_ep : endpoint_id n = None }.

Lemma net_stage_sessions g w w' r n : w_sessions w' = w_sessions w -> net_stage g w r n -> net_stage g w' r n.
Proof. intros E []. split; try done. by rewrite (rec_of_sessions w w'). Qed.

(** [HcnCreateNetwork]. *)
Lemma network_created g w w' r n :
  IL w -> net_stage g w r n -> net_gone w id ->
  w' = w \/ w' = set_networks (<[g := nat_name id]> (w_networks w)) w ->
  IL w' /\ net_stage g w' r n /\ covers (w_networks w') (nat_name id) g /\ unnamed (w_endpoints w') (ep_name id).
Proof.
  intros [Iw F] N [Gn Ge] [-> | ->].
  { split; [done|]. split; [done|]. split; [|done]. intros g' Hg'. by apply Gn in Hg'. }
  set (w' := set_networks _ w).
  assert (Hn : forall id' g', net_named w' id' g' -> net_named w id' g' \/ (id' = id /\ g' = g)).
  { intros id' g'. cbn. intros [[-> E]|[_ ?]]%lookup_insert_Some; [|auto].
    right. split; [by apply nat_name_inj in E as ->|done]. }
  assert (Hcov : covers (w_networks w') (nat_name id) g).
  { intros g' [Hg'|[_ ?]]%Hn; [by apply Gn in Hg'|done]. }
  destruct N as [N1 N2 N3 N4 N5 N6 N7]. split; [|done]. split.
  - eapply (Inv_grow w w' s id r); [done..| | | |done].
    + eapply (good_record_net w); [by apply inv_records|done..|by rewrite N5|]. rewrite N7. split.
      * intros g' Hg'. rewrite N6 in Hg'. by injection Hg' as <-.
      * done.
      * intros g1 g2 ->%Hcov ->%Hcov. done.
      * intros g1 g2 H1. by apply Ge in H1.
    + auto.
    + intros id' g' Hne [?|[? _]]%Hn; done.
  - intros id' g' Hne. split; [|by apply F]. intros [?|[? _]]%Hn; [by apply F|done].
Qed.

(** [HcnCreateEndpoint]. *)
Lemma endpoint_created g ep w w' r n :
  IL w -> net_stage g w r n -> covers (w_networks w) (nat_name id) g -> unnamed (w_endpoints w) (ep_name id) ->
  w_endpoints w !! ep = None -> w' = set_endpoints (<[ep := ep_name id]> (w_endpoints w)) w ->
  IL w' /\ net_stage g w' r n /\ state_covers w' id
    {| ns_network_id := g; ns_endpoint_id := ep; ns_endpoint_id_string := format_endpoint_id_string ep;
       ns_endpoint_handle := ep; ns_network_handle := g |}.
Proof.
  intros [Iw F] N Cn Ge Hep ->. set (w' := set_endpoints _ w).
  assert (Hn : forall id' g', ep_named w' id' g' -> ep_named w id' g' \/ (id' = id /\ g' = ep)).
  { intros id' g'. cbn. intros [[-> E]|[_ ?]]%lookup_insert_Some; [|auto].
    right. split; [by apply ep_name_inj in E as ->|done]. }
  assert (Hcov : covers (w_endpoints w') (ep_name id) ep).
  { intros g' [Hg'|[_ ?]]%Hn; [by apply Ge in Hg'|done]. }
  destruct N as [N1 N2 N3 N4 N5 N6 N7]. split; [|done]. split.
  - eapply (Inv_grow w w' s id r); [done..| | |done|].
    + eapply (good_record_net w); [by apply inv_records|done..|by rewrite N5|]. rewrite N7.
      destruct (good_network _ _ _ _ (inv_records _ Iw _ _ _ N1) n N4) as (_ & _ & [Kn Ke Sn Se] & _). split.
      * done.
      * done.
      * done.
      * intros g1 g2 ->%Hcov ->%Hcov. done.
    + auto.
    + intros id' g' Hne [?|[? _]]%Hn; done.
  - intros id' g' Hne. split; [by apply F|]. intros [?|[? _]]%Hn; [by apply F|done].
Qed.

Lemma roll_back_safe {A} net ep eph neth e Q w :
  IL w -> (forall e w', IL w' -> Q (Err e) w') ->
  safe honest_windows IL (roll_back_and (A := A) (rollback_network_creation net ep eph neth) e) Q w.
Proof.
  intros Iw HE. apply safe_bind, (safe_stays IL); [apply rollback_stays, IL_closed|done|].
  intros [u|e'|] w' Iw' _ Hn; [apply safe_throw; auto|auto|done].
Qed.

(** One of the two journal callbacks: the record's network becomes [h n]. *)
Lemma callback_safe g h w r n Q :
  IL w -> net_stage g w r n ->
  network_name (h n) = network_name n -> endpoint_name (h n) = endpoint_name n ->
  net_known w id (network_id (h n)) (endpoint_id (h n)) ->
  nr_state (h n) <> Removed -> nr_state (h n) <> Abandoned ->
  (forall e w', IL w' -> Q (Err e) w') ->
  (forall w', IL w' -> same_host w w' -> rec_of w' s id = Some (set_network (Some (h n)) r) -> Q (Ok tt) w') ->
  safe honest_windows IL (update_vm s id (fun r => set_network (h <$> network r) r)) Q w.
Proof.
  intros Iw [N1 N2 N3 N4 N5 N6 N7] E1 E2 K Hr Ha HE HO. apply (update_safe s id); [apply others_rec|done| |auto|].
  - intros r' Hr'. rewrite N1 in Hr'. injection Hr' as <-. rewrite N4. cbn [fmap option_fmap option_map].
    eapply good_set_network; [by apply (inv_records _ (proj1 Iw))|done..].
  - intros r' w' Hr' Iw' C. rewrite N1 in Hr'. injection Hr' as <-. apply HO; [done|apply C|].
    rewrite (rc_at _ _ _ _ _ C), N4. done.
Qed.

Lemma endpoint_safe g w r n Q :
  typed_guid g -> IL w -> net_stage g w r n ->
  covers (w_networks w) (nat_name id) g -> unnamed (w_endpoints w) (ep_name id) ->
  (forall e w', IL w' -> Q (Err e) w') ->
  (forall st w', IL w' -> stage {| pg_network := Some st; unjournaled_disks := [] |} w' -> Q (Ok st) w') ->
  safe honest_windows IL (create_endpoint id g (fun x => update_vm s id (record_endpoint_id x))) Q w.
Proof.
  intros Tg Iw N Cn Ge HE HO. apply safe_bind, safe_ask; [done|]. intros [[o handle] out] w1 [Hw _]. cbn in Hw.
  assert (Hgone : handle = None /\ IL w1 \/ exists ep, typed_guid ep /\ IL w1 /\ net_stage g w1 r n
    /\ (handle = None \/ handle = Some ep) /\ w_endpoints w1 !! ep = Some (ep_name id) /\ state_covers w1 id
    {| ns_network_id := g; ns_endpoint_id := ep; ns_endpoint_id_string := format_endpoint_id_string ep;
       ns_endpoint_handle := ep; ns_network_handle := g |}).
  { destruct Hw as [[-> ->]|(ep & Te & Hep & -> & Hh)]; [by left|right]. exists ep.
    destruct (endpoint_created g ep w _ r n Iw N Cn Ge Hep eq_refl) as (? & ? & ?).
    split_and!; try done. cbn. by rewrite lookup_insert_eq. }
  assert (I1 : IL w1) by (destruct Hgone as [[_ ?]|(? & _ & ? & _)]; done). split; [done|].
  destruct (if hres o =? S_OK then handle else None) as [ep'|] eqn:Eh; [|by apply roll_back_safe].
  destruct Hgone as [[-> _]|(ep & Te & _ & N1 & Hh & Hep & Cov)]; [by destruct (hres o =? S_OK)|].
  assert (handle = Some ep' /\ ep' = ep) as [-> ->].
  { destruct (hres o =? S_OK); [|done]. destruct Hh as [-> | ->]; [done|]. by injection Eh as <-. }
  clear Hh Eh. apply safe_bind, safe_shrink; [apply IL_closed|done|done|].
  intros [q properties] w2 I2 S2 [-> Hd] _. cbn in Hd.
  destruct (hres q =? S_OK) eqn:Eq; cbn [negb]; [|by apply roll_back_safe]. apply Z.eqb_eq in Eq.
  destruct properties as [|error|p]; cbn [parse_endpoint_id_from_props]; [by apply roll_back_safe..|].
  destruct (prop_id p) as [raw|] eqn:Ep; [|by apply roll_back_safe].
  rewrite (proj2 (Hd p _ Eq eq_refl Hep) raw Ep). cbv zeta.
  destruct Cov as [Cn1 Ce1]. cbn in Cn1, Ce1.
  apply safe_bind, safe_attempt, (callback_safe g _ w1 r n); [done..| | | | |]; cbn [network_name endpoint_name network_id endpoint_id nr_state].
  - destruct (good_network _ _ _ _ (inv_records _ (proj1 I1) _ _ _ (ns_rec _ _ _ _ N1)) n (ns_net _ _ _ _ N1)) as (_ & _ & [Kn Ke Sn Se] & _).
    split; [done| |done..]. intros g'. rewrite classify_printed by done. by intros [= <-].
  - done.
  - done.
  - intros e w' Iw'. by apply roll_back_safe.
  - intros w' Iw' Hh Hr'. apply safe_ret; [done|]. apply HO; [done|]. split.
    + eexists. split; [done|]. by destruct N1.
    + split; [done|]. intros st [= <-]. by apply (state_covers_same w1).
Qed.

Lemma create_network_safe nid w r n Q :
  IL w -> net_stage (as_fields nid) w r n -> net_gone w id ->
  (forall e w', IL w' -> Q (Err e) w') ->
  (forall st w', IL w' -> stage {| pg_network := Some st; unjournaled_disks := [] |} w' -> Q (Ok st) w') ->
  safe honest_windows IL
    (create_network_and_endpoint_with_callbacks id nid
       (fun x => update_vm s id (record_network_id x)) (fun x => update_vm s id (record_endpoint_id x))) Q w.
Proof.
  intros Iw N Hg HE HO. pose proof (as_fields_typed nid) as Tg.
  unfold create_network_and_endpoint_with_callbacks, Guid_from_uuid. set (g := as_fields nid) in *. cbv zeta.
  apply safe_bind, (safe_stays IL); [pose proof IL_closed; along|done|].
  intros [[]|e|] w0' I0 S0 Hn; [|auto|done].
  assert (N0 : net_stage g w0' r n) by (eapply net_stage_sessions; [apply S0|done]).
  pose proof (net_gone_shrinks _ _ _ S0 Hg) as G0.
  apply safe_bind, safe_ask; [done|]. intros [o handle] w1 [Hw _]. cbn in Hw.
  destruct (network_created g w0' w1 r n I0 N0 G0 Hw) as (I1 & N1 & Cn & Ge). split; [done|].
  destruct (_ || _); [by apply roll_back_safe|].
  destruct (good_network _ _ _ _ (inv_records _ (proj1 I1) _ _ _ (ns_rec _ _ _ _ N1)) n (ns_net _ _ _ _ N1)) as (_ & _ & [Kn Ke Sn Se] & _).
  apply safe_bind, safe_attempt, (callback_safe g _ w1 r n); [done..| | | | |]; cbn [network_name endpoint_name network_id endpoint_id nr_state].
  - split; [|done..]. intros g'. rewrite classify_printed by done. by intros [= <-].
  - by rewrite (ns_state _ _ _ _ N1).
  - by rewrite (ns_state _ _ _ _ N1).
  - intros e w' Iw'. by apply roll_back_safe.
  - intros w2 I2 Hh Hr2. destruct N1. eapply (endpoint_safe g w2 _ _ Q Tg I2); [|by rewrite (same_networks _ _ Hh)|by rewrite (same_endpoints _ _ Hh)|done..].
    split; first [exact Hr2|done|by apply classify_printed].
Qed.

(** ** [from_conf] *)

(** A machine id just drawn: nothing is known of it. *)
Definition fresh (w : World) : Prop := (forall s', rec_of w s' id = None) /\ absent w id.
Lemma fresh_shrinks w w' : shrinks w w' -> fresh w -> fresh w'.
Proof.
  intros Hs [F A]. split; [|by eapply absent_shrinks]. intros s'. rewrite (rec_of_sessions w w'); [done|apply Hs].
Qed.

Lemma put_vm_safe nid ds w Q :
  IL w -> fresh w -> (forall e w', IL w' -> Q (Err e) w') ->
  (forall w', IL w' -> absent w' id -> rec_of w' s id = Some (planned_record id nid ds) -> Q (Ok tt) w') ->
  safe honest_windows IL (put_vm s (planned_record id nid ds)) Q w.
Proof.
  intros Iw [Hf [Ac [An Ae]]] HE HO. set (r := planned_record id nid ds).
  destruct (serde_round_trip r) as (b & E1 & E2). apply (safe_res _ _ tt); [done|].
  apply (safe_res _ _ b); [unfold encode; by rewrite E1|]. apply safe_write; [done|]. intros res w' Hs.
  destruct (put_vm_step _ _ _ _ _ _ (inv_tables _ (proj1 Iw)) E2 Hs) as [[-> [e ->]]|[C Hc]]; [auto|].
  assert (G : good_record w s id r).
  { split; try done. destruct nid as [nid|]; cbn -[net_identity nat_name ep_name KIND_NETWORK]; [|done]. intros n [= <-].
    split_and!; try done. split; cbn -[nat_name ep_name classify_journal_id].
    - intros g _ g' Hg'. by apply An in Hg'.
    - done.
    - intros g g' Hg. by apply An in Hg.
    - intros g g' Hg. by apply Ae in Hg. }
  assert (Iw' : IL w') by (split; [eapply Inv_set_rec; eauto; apply Iw|eapply others_rec; [apply Iw|done]]).
  split; [done|]. destruct Hc as [-> | [e ->]]; [|auto]. apply HO; [done| |apply C].
  eapply absent_same; [apply C|done].
Qed.

Lemma plan_disks_stays specs : stays IL (plan_disk_resources specs).
Proof.
  unfold plan_disk_resources. apply along_hfold; [exact _|]. intros planned [index spec].
  apply along_bind; [exact _|apply along_res; [exact _|intros _; apply scsi_slot_no_panic]|]. intros [c l]. along.
Qed.

Lemma launch_network_safe nid w Q :
  IL w -> absent w id -> forall ds, rec_of w s id = Some (planned_record id nid ds) ->
  (forall e w', IL w' -> Q (Err e) w') ->
  forall k : ProvisioningGuard -> host Vm, (forall g w', IL w' -> stage g w' -> safe honest_windows IL (k g) Q w') ->
  safe honest_windows IL (launch_network s id nid k) Q w.
Proof.
  intros Iw Ha ds Hr HE k Hk. unfold launch_network. cbv zeta. destruct nid as [nid|].
  - apply guarded_safe; [done|]. eapply create_network_safe; [done| |apply Ha|done|].
    + split; [exact Hr|done..| |done]. apply classify_uuid.
    + intros st w1 I1 S1. cbv zeta. apply guarded_stays; [done|done| |done|]; [pose proof IL_closed; along|]. auto.
  - apply Hk; [done|]. split; [|done]. eexists. by split.
Qed.
End LaunchSafe.

Lemma from_conf_safe s id nid specs w :
  Inv w -> fresh id w ->
  safe honest_windows (IF (others w id)) (from_conf s id nid specs) (fun r w' =>
    match r with
    | Ok v => vm_uuid v = id /\ own_resources w' id (take_cleanup_resources v)
    | Err _ => True
    | Panic => False
    end) w.
Proof.
  intros Iw Hf. assert (I0 : IF (others w id) w) by (split; [done|apply others_refl]).
  pose proof (IL_closed id w) as HI. unfold from_conf.
  do 2 (apply safe_bind, (safe_stays (IF (others w id))); [along|done|];
        intros [[]|e|] ?w ?I ?S ?Hn; [|done|done]).
  apply safe_bind, (safe_stays (IF (others w id))); [apply plan_disks_stays|done|].
  intros [ds|e|] w3 I3 S3 Hn3; [|done|done].
  assert (fresh id w3) by eauto using fresh_shrinks.
  apply safe_bind, put_vm_safe; [done..|]. intros w4 I4 A4 Hr4. cbv zeta.
  apply (launch_network_safe s id w nid w4 _ I4 A4 ds Hr4); [done..|].
  intros g w5 I5 S5. apply guarded_stays; [done|done| |done|]; [destruct specs; along|]. intros _ w6 I6 S6.
  apply materialize_disks_safe; [done..|]. intros g7 at7 w7 I7 S7.
  apply guarded_safe; [done|]. apply (create_machine_safe s id w g7); [done|done|done|].
  intros w8 I8 O8. apply safe_ret; [done|]. split; [done|]. split; [by intros x [= <-]|]. apply O8.
Qed.
End Track.
