(* ===== verification/HcsSystem.v ===== *)
(** * The whole system: sessions, machines, crashes

    Every history of sessions opened, machines launched, started, published,
    closed and dropped, in any order, with the process dying at any point of
    any of them, and with resources vanishing on their own in between. *)

From Stdlib Require Import ZArith Lia.
From stdpp Require Import base tactics option list numbers strings countable gmap fin_maps fin_sets relations.
From S2P Require Import Prelude Bytes Text BTree Guid HcsJournal HcsHost HcsText Hns HnsSafe HcsCleanup HcsLaunch HcsInv HcsSafe HcsRecover HcsTrack.

(** Prove [only N W P p] by the shape of [p]. *)
Create HintDb only discriminated.
Create HintDb nopanic discriminated.
Ltac only1 :=
  lazymatch goal with
  | |- forall _, _ => intro
  | |- only _ _ _ (mret _) => intros _; discriminate
  | |- only _ _ _ (throw _) => intros _; discriminate
  | |- only False _ _ (ret_res _) => intros []
  | |- only False _ _ (HDone _) => intros []
  | |- only True _ _ (HDone Panic) => congruence
  | |- only True _ _ (ret_res _) => intros _; solve [auto with nopanic nocore]
  | |- only _ _ _ (ask _) => split; [exact eq_refl|intros ? _; discriminate]
  | |- only False _ _ (read _ _) => intros ? []
  | |- only False True _ (write _ _) => split; [exact I|intros ? []]
  | |- only _ _ _ (check _ _) => apply only_bind
  | |- only _ _ _ (mbind _ (attempt _)) => apply only_attempt_bind
  | |- only _ _ _ (mbind _ _) => apply only_bind
  | |- only _ _ _ (attempt _) => apply only_attempt
  | |- only _ _ _ (hfold _ _ _) => apply only_hfold
  | |- only _ _ _ (match ?x with _ => _ end) => destruct x
  | |- only _ _ _ _ => solve [auto with only nocore]
  end.
Ltac only_calls := repeat only1.

(** ** Programs that create nothing *)

Definition plain `{UuidText} (c : call) : bool :=
  match c with
  | HcnCreateNetwork _ _ | HcnCreateEndpoint _ _ | HcsCreateComputeSystem _ | NewVhd _ _ => false
  | _ => true
  end.
(** ... and touch no file and no database. *)
Definition gentle `{UuidText} (c : call) : bool :=
  match c with RemoveFile _ | CreateDatabase _ | RemoveDatabase _ => false | _ => plain c end.
(** ... or touch files alone. *)
Definition removing `{UuidText} (c : call) : bool := match c with RemoveFile _ => true | _ => gentle c end.
Abbreviation creates_nothing p := (only False True (fun c => plain c = true) p).
Abbreviation touches_no_file p := (only False True (fun c => gentle c = true) p).
(** A program that only asks the host, about resources other than files. *)
Abbreviation asks_gently p := (only True False (fun c => gentle c = true) p).

Section System.
Context `{UuidLaws} `{!Serde SessionRecord, !Serde VmResourceRecord, !Serde AbandonedRecord}.

Lemma gentle_plain {N W : Prop} {A} (p : host A) : only N W (fun c => gentle c = true) p -> creates_nothing p.
Proof. apply only_mono; [done|done|]. intros c. unfold gentle. by destruct c. Qed.
Lemma asks_touches {A} (p : host A) : asks_gently p -> touches_no_file p.
Proof. by apply only_mono. Qed.

Lemma for_each_no_panic {S A} (f : S -> A -> res Report S) xs s : (forall s x, f s x <> Panic) -> for_each f xs s <> Panic.
Proof.
  intros Hf. revert s. induction xs as [|x xs IH]; intros s; cbn; [done|]. specialize (Hf s x).
  destruct (f s x); [apply IH|done|done].
Qed.
Lemma parse_ids_no_panic document coll entries' : parse_enumerated_ids document coll entries' <> Panic.
Proof.
  destruct document as [|e|d]; [done..|]. apply for_each_no_panic. intros ids e. unfold parse_entry.
  destruct e as [raw|[raw|]]; cbn; [| |done]; by destruct (parse_guid_string _).
Qed.
Lemma property_name_no_panic document res : property_name document res <> Panic.
Proof. by destruct document. Qed.
Lemma hcs_operation_no_panic m o : hcs_operation m o <> Panic.
Proof. unfold hcs_operation. repeat case_match; done. Qed.
#[local] Hint Resolve parse_ids_no_panic property_name_no_panic hcs_operation_no_panic : nopanic.

Lemma network_name_only g : asks_gently (network_name_for_id g).
Proof. unfold network_name_for_id. only_calls. Qed.
Lemma endpoint_name_only g : asks_gently (endpoint_name_for_id g).
Proof. unfold endpoint_name_for_id. only_calls. Qed.
Lemma first_named_only name_of name cs :
  (forall g, asks_gently (name_of g)) -> asks_gently (first_named name_of name cs).
Proof. intros Hn. induction cs as [|g cs IH]; cbn [first_named]; [done|]. apply only_bind; [done|]. intros o. case_match; [by intros _|done]. Qed.
#[local] Hint Resolve network_name_only endpoint_name_only first_named_only : only.

Lemma find_network_only name : asks_gently (find_network_id_by_name name).
Proof. unfold find_network_id_by_name. only_calls. Qed.
Lemma find_endpoint_only name : asks_gently (find_endpoint_id_by_name name).
Proof. unfold find_endpoint_id_by_name. only_calls. Qed.
#[local] Hint Resolve find_network_only find_endpoint_only : only.

Lemma delete_exact_only a b c d : asks_gently (delete_exact a b c d).
Proof. unfold delete_exact, resolve, delete_found, collect, joined, delete_endpoint, delete_network. only_calls. Qed.
Lemma close_and_delete_only st : asks_gently (close_and_delete_result st).
Proof. unfold close_and_delete_result, collect, joined, delete_endpoint, delete_network. only_calls. Qed.
Lemma remove_system_only m x : asks_gently (remove_compute_system m x).
Proof. unfold remove_compute_system. only_calls. Qed.
#[local] Hint Resolve delete_exact_only close_and_delete_only remove_system_only : only.
Lemma remove_by_id_only m x : asks_gently (remove_compute_system_by_id m x).
Proof. unfold remove_compute_system_by_id, ComputeSystem_from_id. only_calls. Qed.
#[local] Hint Resolve remove_by_id_only : only.
#[local] Hint Extern 2 (touches_no_file _) => apply asks_touches; solve [auto with only nocore] : only.

Lemma outcome_only s id r k o i T fs : touches_no_file (apply_resource_outcome s id r k o i T fs).
Proof. unfold apply_resource_outcome, update_vm. only_calls. Qed.
#[local] Hint Resolve outcome_only : only.
Lemma clean_compute_only m s id r c fs : touches_no_file (clean_compute (production m) m s id r c fs).
Proof. unfold clean_compute. cbn [production hook_compute]. only_calls. Qed.
Lemma clean_network_only m s id r c fs : touches_no_file (clean_network (production m) s id r c fs).
Proof. unfold clean_network. cbn [production hook_network]. only_calls. Qed.
Lemma finish_cleanup_only s id fs : touches_no_file (finish_cleanup s id fs).
Proof.
  unfold finish_cleanup, abandon_remaining, put_abandoned, abandoned, update_vm, vm, remove_vm,
    remove_abandoned, missing_record. only_calls.
Qed.
Lemma remove_disk_only id d : only True False (fun c => removing c = true) (remove_disk id d).
Proof. unfold remove_disk, get_file_identity. only_calls. Qed.
#[local] Hint Extern 2 (creates_nothing _) =>
  eapply gentle_plain; first [apply outcome_only|apply clean_compute_only|apply clean_network_only|apply finish_cleanup_only] : only.
Lemma remove_disk_plain id d : creates_nothing (remove_disk id d).
Proof. eapply only_mono; [..|apply remove_disk_only]; [done|done|]. by intros []. Qed.
#[local] Hint Resolve remove_disk_plain : only.

Lemma cleanup_record_only m s id c : creates_nothing (cleanup_record m s id c).
Proof.
  unfold cleanup_record, cleanup_record_with, clean_disk, update_vm, vm, missing_record.
  cbn [production hook_disk]. only_calls.
Qed.
#[local] Hint Resolve cleanup_record_only : only.

Lemma session_open_only path sid o pid t : creates_nothing (Session_open path sid o pid t).
Proof.
  unfold Session_open, reconcile_stale_sessions, recover_session, try_open_existing, recover_record, create_current,
    all_vms, has_abandoned, remove_vm. only_calls.
Qed.
Lemma start_only s v : creates_nothing (start s v).
Proof. unfold start, update_vm. only_calls. Qed.
Lemma mark_published_only s v : creates_nothing (mark_published s v).
Proof. unfold mark_published, update_vm. only_calls. Qed.
Lemma close_only s v : creates_nothing (close s v).
Proof. unfold close. only_calls. Qed.
Lemma drop_vm_only s v : creates_nothing (drop_vm s v).
Proof. unfold drop_vm. only_calls. Qed.

(** ** Opening a session keeps the invariant *)

Context `{!SerdeLaws SessionRecord, !SerdeLaws VmResourceRecord, !SerdeLaws AbandonedRecord}.

Definition rows_of (w : World) (s : OsString) : table * table :=
  match w_sessions w !! s with Some db => (vm_records db, abandoned_rows db) | None => ([], []) end.

Lemma rec_of_rows w s id : rec_of w s id = b ← bt_get (uuid_to_string id) (rows_of w s).1; from_slice b.
Proof. unfold rec_of, rows_of. by destruct (w_sessions w !! s). Qed.
Lemma row_of_rows w s id : row_of w s id = b ← bt_get (uuid_to_string id) (rows_of w s).2; from_slice b.
Proof. unfold row_of, rows_of. by destruct (w_sessions w !! s). Qed.

Lemma Inv_same_rows w w' : Inv w -> same_host w w' -> (forall s, rows_of w' s = rows_of w s) -> Inv w'.
Proof.
  intros [T R A U C N Ep] Hh Hr.
  assert (Erec : forall s id, rec_of w' s id = rec_of w s id) by (intros; by rewrite !rec_of_rows, Hr).
  assert (Erow : forall s id, row_of w' s id = row_of w s id) by (intros; by rewrite !row_of_rows, Hr).
  assert (Htr : forall id k i, tracked w id k i -> tracked w' id k i).
  { intros id k i [s [?|?]]; exists s; [left; by rewrite Erec|right; by apply (listed_rows w)]. }
  split.
  - intros s db Hs. specialize (Hr s). unfold rows_of in Hr. rewrite Hs in Hr.
    destruct (w_sessions w !! s) as [db0|] eqn:E0; injection Hr as -> ->; [by eapply T|].
    split; [by apply bt_wf_nil|]. split; [by apply bt_wf_nil|]. done.
  - intros s id r. rewrite Erec. intros ?. apply (good_record_same w); auto.
  - intros s id a. rewrite Erow. apply A.
  - intros s s' id. rewrite !Erec. apply U.
  - intros x. rewrite (same_compute _ _ Hh). intros Hx. destruct (C x Hx) as (id & ? & ?). eauto.
  - intros id g. rewrite (same_networks _ _ Hh). eauto.
  - intros id g. rewrite (same_endpoints _ _ Hh). eauto.
Qed.

Lemma Inv_put_db w s db' :
  Inv w -> (vm_records db', abandoned_rows db') = rows_of w s -> Inv (put_db s db' w).
Proof.
  intros Iw E. eapply Inv_same_rows; [done|apply put_db_host|]. intros s'. unfold rows_of. rewrite sessions_put_db.
  case_decide as Hs; [by subst s'|done].
Qed.

(** A transaction that leaves the two tables alone. *)
Lemma write_rows_safe {B} s (op : write_op B) w Q :
  Inv w -> (forall db, match op db with
    | Ok (_, db') => vm_records db' = vm_records db /\ abandoned_rows db' = abandoned_rows db
    | Err _ => True | Panic => False end) ->
  (forall r w', Inv w' -> r <> Panic -> Q r w') -> safe honest_windows Inv (write s op) Q w.
Proof.
  intros Iw Hop HQ. apply safe_write; [done|]. intros r w' Hw. unfold write_step in Hw.
  destruct (w_sessions w !! s) as [db|] eqn:Hdb; [|by destruct Hw as [-> ->]; auto]. specialize (Hop db).
  destruct (op db) as [[b db']|e|]; [| |done].
  - assert (Inv (put_db s db' w)). { apply Inv_put_db; [done|]. unfold rows_of. rewrite Hdb. by destruct Hop as [-> ->]. }
    destruct Hw as [[-> ->]|(_ & -> & [-> | ->])]; auto.
  - destruct Hw as [-> [-> |[_ ->]]]; auto.
Qed.

Lemma create_current_safe path sid o pid t w :
  Inv w -> safe honest_windows Inv (create_current path sid o pid t) no_panic w.
Proof.
  intros Iw. pose proof Inv_shrinks as HI. unfold create_current.
  apply safe_bind, (safe_stays Inv); [along|done|]. intros [[]|e|] w0 I0 _ ?; [|done|done].
  apply safe_bind, (safe_stays Inv); [along|done|]. intros [[]|e|] w1 I1 _ ?; [|done|done].
  apply safe_bind, (safe_stays Inv); [along|done|]. intros [[]|e|] w2 I2 _ ?; [|done|done].
  apply safe_bind, safe_bind, safe_ask; [done|]. intros a w' [Hw _]. cbn in Hw.
  assert (Iw' : Inv w').
  { destruct Hw as [-> |[-> _]]; [|done]. destruct (w_sessions w2 !! path) eqn:E; [done|].
    apply Inv_put_db; [done|]. unfold rows_of. by rewrite E. }
  split; [done|]. destruct a as [e|]; [by apply safe_throw|apply safe_ret; [done|]].
  apply safe_bind, write_rows_safe; [done| |].
  { intros db. unfold initialize_database. destruct (SCHEMA db); [destruct (negb _)|]; done. }
  intros [[]|e|] w3 I3 Hn; [|done|done].
  destruct (serde_round_trip {| sr_schema_version := SCHEMA_VERSION; session_id := sid; owner := owner_for sid;
    owner_sid := o; process_id := pid; created_at_unix_ms := t |}) as (b & E1 & _).
  apply (safe_res _ _ b); [unfold encode; by rewrite E1|].
  apply safe_bind, write_rows_safe; [done|done|]. intros [[]|e|] w4 I4 Hn4; [by apply safe_ret|done|done].
Qed.

Lemma session_open_safe path sid o pid t w :
  Inv w -> safe honest_windows Inv (Session_open path sid o pid t) no_panic w.
Proof.
  intros Iw. pose proof Inv_shrinks as HI.
  apply safe_bind, (safe_stays Inv); [along|done|]. intros [[]|e|] w1 I1 _ ?; [|done|done].
  apply safe_bind. eapply safe_mono; [by apply reconcile_safe|done|].
  intros [[]|e|] w2 I2 Hn; [by apply create_current_safe|done|done].
Qed.

(** ** The life of one machine keeps the invariant *)

Abbreviation own v w := (own_resources w (vm_uuid v) (take_cleanup_resources v)).

Lemma cleanup_safe m s id c w Q :
  Inv w -> own_resources w id c -> (forall r w', Inv w' -> r <> Panic -> Q r w') ->
  safe honest_windows Inv (cleanup_record m s id c) Q w.
Proof. intros Iw Ho HQ. apply cleanup_record_others; auto. Qed.

Lemma update_inv s id f w Q :
  Inv w -> neutral f -> (forall r, phase (f r) = PhaseComplete -> phase r = PhaseComplete) ->
  (forall r w', Inv w' -> r <> Panic -> Q r w') -> safe honest_windows Inv (update_vm s id f) Q w.
Proof.
  intros Iw Hf Hp HQ. apply (safe_mono _ (IF (fun _ => True)) Inv _ (fun r w' => r <> Panic));
    [|by intros w' [? _]|by intros r w' [? _]; auto].
  apply (update_safe s id (fun _ => True)); [done|done| |done|done].
  intros r Hr. apply (good_neutral f); auto. by apply (inv_records _ Iw).
Qed.

Lemma start_safe s v w : Inv w -> safe honest_windows Inv (start s v) no_panic w.
Proof.
  intros Iw. pose proof Inv_shrinks as HI. unfold start. destruct (vm_system v); [|by apply safe_throw].
  apply safe_bind, (safe_stays Inv); [along|done|]. intros [[]|e|] w1 I1 _ ?; [|done|done].
  apply update_inv; [done| | |done].
  - intros r. unfold to_starting. by case_bool_decide.
  - intros r. unfold to_starting. by case_bool_decide.
Qed.
Lemma mark_published_safe s v w : Inv w -> safe honest_windows Inv (mark_published s v) no_panic w.
Proof. intros Iw. by apply update_inv. Qed.

Lemma own_empty w id : own_resources w id CleanupResources_empty.
Proof. by split. Qed.
Lemma drop_vm_safe s v w : Inv w -> own v w -> safe honest_windows Inv (drop_vm s v) no_panic w.
Proof.
  intros Iw Ho. apply safe_bind, safe_attempt, cleanup_safe; [done..|].
  intros [[]|e|] w' I' Hn; [by apply safe_ret..|done].
Qed.
Lemma close_safe s v w : Inv w -> own v w -> safe honest_windows Inv (close s v) no_panic w.
Proof.
  intros Iw Ho. apply safe_bind, safe_attempt, cleanup_safe; [done..|].
  intros [[]|e|] w' I' Hn; [by apply safe_ret| |done].
  apply safe_bind, safe_attempt, cleanup_safe; [done|apply own_empty|].
  intros [[]|e'|] w'' I'' Hn'; [by apply safe_throw..|done].
Qed.

(** ** Histories *)

Record System : Type := { world : World; live : list (OsString * Vm) }.

Inductive action : Type :=
  | OpenSession (path : OsString) (sid : Uuid) (owner_sid : bytes) (pid created_at : Z)
  | Launch (journal : OsString) (id : Uuid) (planned_network_id : option Uuid) (specs : list DiskSpec)
  | Start (i : nat)
  | Publish (i : nat)
  | Close (i : nat)
  | Drop (i : nat).

(** [Uuid::new_v4] draws an id that is not in use. *)
Definition unused (id : Uuid) (st : System) : Prop :=
  fresh id (world st) /\ forall s v, (s, v) ∈ live st -> vm_uuid v <> id.

Definition enabled (a : action) (st : System) : Prop :=
  match a with
  | OpenSession _ _ _ _ _ => True
  | Launch _ id _ _ => unused id st
  | Start i | Publish i | Close i | Drop i => is_Some (live st !! i)
  end.

(** The program of an action, with the machine it brings to life. *)
Definition program (a : action) (st : System) : host (option (OsString * Vm)) :=
  let of_live i (f : OsString -> Vm -> host unit) :=
    match live st !! i with Some (s, v) => _ ← f s v; mret None | None => mret None end in
  match a with
  | OpenSession path sid owner_sid pid created_at => _ ← Session_open path sid owner_sid pid created_at; mret None
  | Launch s id nid specs => v ← from_conf s id nid specs; mret (Some (s, v))
  | Start i => of_live i start
  | Publish i => of_live i mark_published
  | Close i => of_live i close
  | Drop i => of_live i drop_vm
  end.

(** The machines alive after the action. *)
Definition live_after (a : action) (r : res Report (option (OsString * Vm))) (st : System) : list (OsString * Vm) :=
  match a, r with
  | Launch _ _ _ _, Ok (Some x) => x :: live st
  | (Close i | Drop i), _ => delete i (live st)
  | _, _ => live st
  end.

(** Other software: it may remove what it finds, and do what it likes with
    files; it does not make objects with the names of this program. *)
Definition interferes (w w' : World) : Prop := shrinks w w' /\ w_created w' = w_created w.

Inductive step (E : Env) : System -> System -> Prop :=
  | step_act a st r w' :
      enabled a st -> exec E (program a st) (world st) (Some r) w' ->
      step E st {| world := w'; live := live_after a r st |}
  | step_crash a st w' :
      enabled a st -> exec E (program a st) (world st) None w' ->
      step E st {| world := w'; live := [] |}
  | step_other st w' :
      interferes (world st) w' -> step E st {| world := w'; live := live st |}.

(** A host this program has never run on. *)
Definition pristine (w : World) : Prop :=
  w_sessions w = ∅ /\ w_compute w = ∅ /\ (forall id, net_gone w id).
Definition reachable (E : Env) (st : System) : Prop :=
  exists w, pristine w /\ rtc (step E) {| world := w; live := [] |} st.

Definition SInv (st : System) : Prop :=
  Inv (world st) /\ forall s v, (s, v) ∈ live st -> own v (world st).

Lemma pristine_inv w : pristine w -> Inv w.
Proof.
  intros (Es & Ec & Hn).
  assert (Hrec : forall s id, rec_of w s id = None) by (intros; unfold rec_of; by rewrite Es, lookup_empty).
  assert (Hrow : forall s id, row_of w s id = None) by (intros; unfold row_of; by rewrite Es, lookup_empty).
  split.
  - intros s db. by rewrite Es, lookup_empty.
  - intros s id r. by rewrite Hrec.
  - intros s id a. by rewrite Hrow.
  - intros s s' id. rewrite Hrec. by intros ?%is_Some_None.
  - intros x. rewrite Ec. set_solver.
  - intros id g Hg. by apply (proj1 (Hn id)) in Hg.
  - intros id g Hg. by apply (proj2 (Hn id)) in Hg.
Qed.

(** *** Handles along exact when no network appears *)

Definition no_new_network (w0 w : World) : Prop :=
  forall id g, (net_named w id g -> net_named w0 id g) /\ (ep_named w id g -> ep_named w0 id g).

Lemma plain_call w0 c w a w' :
  plain c = true -> no_new_network w0 w -> env_call honest_windows c w a w' -> no_new_network w0 w'.
Proof.
  intros Hc F [Hw _]. destruct (shrinking c) eqn:Es.
  - apply (shrinking_call _ _ _ _ Es) in Hw. intros id g. destruct (F id g).
    split; intros Hg; [apply (shrinks_networks _ _ Hw) in Hg|apply (shrinks_endpoints _ _ Hw) in Hg]; auto.
  - destruct c; try discriminate; cbn in Hw.
    + destruct (w_sessions w !! session), Hw as [-> |[-> _]]; done.
    + destruct a; subst; done.
Qed.

Lemma own_no_new w0 w v : no_new_network w0 w -> own v w0 -> own v w.
Proof.
  intros F [? O]. split; [done|]. intros st Hst. destruct (O st Hst) as [Cn Ce].
  split; intros g Hg; [apply Cn|apply Ce]; by apply (F (vm_uuid v) g).
Qed.

Lemma plain_safe {A} (p : host A) w Q :
  creates_nothing p -> safe honest_windows Inv p Q w ->
  safe honest_windows (fun w' => Inv w' /\ no_new_network w w') p (fun r w' => Q r w') w.
Proof.
  intros Ho Hs. eapply safe_mono; [apply (safe_and _ Inv (no_new_network w) p Q (fun _ _ => True))|done|by intros ? ? _ [? _]].
  - done.
  - eapply (only_safe _ False True (fun c => plain c = true)); [|done|done|by intros id g].
    intros. by eapply plain_call.
Qed.

(** ** Every action keeps the invariant *)

Definition action_post (a : action) (st : System) (r : res Report (option (OsString * Vm))) (w' : World) : Prop :=
  r <> Panic /\ forall s v, (s, v) ∈ live_after a r st -> own v w'.

Lemma live_after_sub a r st x :
  x ∈ live_after a r st -> x ∈ live st \/ exists s id nid specs, a = Launch s id nid specs /\ r = Ok (Some x).
Proof.
  assert (Hd : forall i, x ∈ delete i (live st) -> x ∈ live st).
  { intros i Hx. eapply elem_of_sublist; [done|apply sublist_delete]. }
  destruct a; cbn; eauto. destruct r as [[y|]|e|]; eauto. intros [-> |?]%elem_of_cons; eauto 10.
Qed.

Lemma keeps_live {A} a st (p : host A) :
  SInv st -> (forall s id nid specs, a <> Launch s id nid specs) ->
  creates_nothing p -> safe honest_windows Inv p no_panic (world st) ->
  safe honest_windows Inv (_ ← p; mret None) (action_post a st) (world st).
Proof.
  intros [Iw Ho] Ha Hc Hs. apply safe_bind. eapply safe_mono; [by apply (plain_safe p _ _ Hc Hs)|by intros w' [? _]|].
  assert (Hlive : forall r w', no_new_network (world st) w' -> forall s v, (s, v) ∈ live_after a r st -> own v w').
  { intros r w' F s v [Hv|(s' & id & nid & specs & -> & _)]%live_after_sub; [|by destruct (Ha s' id nid specs)].
    eapply own_no_new; [done|]. by eapply Ho. }
  intros [u|e|] w' [I' F] Hr; [|by split; eauto|done].
  apply safe_ret; [done|]. split; [done|]. by apply Hlive.
Qed.

Lemma launch_safe s id nid specs st :
  SInv st -> unused id st ->
  safe honest_windows Inv (program (Launch s id nid specs) st) (action_post (Launch s id nid specs) st) (world st).
Proof.
  intros [Iw Ho] [Hf Hne]. apply safe_bind.
  eapply safe_mono; [by apply from_conf_safe|by intros w' [? _]|].
  assert (Hlive : forall w', others (world st) id w' -> forall s v, (s, v) ∈ live st -> own v w').
  { intros w' F s' v Hv. destruct (Ho s' v Hv) as [? O]. split; [done|]. intros ns Hns.
    eapply state_covers_others; [done|by eapply Hne|auto]. }
  intros [v|e|] w' [I' F] Hr; [|split; [done|]; by apply Hlive|done].
  destruct Hr as [Ev Ov]. apply safe_ret; [done|]. split; [done|]. cbn.
  intros s' v' [[= -> ->]|Hv]%elem_of_cons; [by rewrite Ev|by eapply Hlive].
Qed.

Lemma program_safe a st :
  SInv st -> enabled a st -> safe honest_windows Inv (program a st) (action_post a st) (world st).
Proof.
  intros S Ha. pose proof S as [Iw Ho]. destruct a as [path sid o pid t|s id nid specs|i|i|i|i]; cbn [program].
  - apply keeps_live; [done|done|apply session_open_only|by apply session_open_safe].
  - by apply launch_safe.
  - destruct Ha as [[s v] Hi]. rewrite Hi.
    apply keeps_live; [done|done|apply start_only|by apply start_safe].
  - destruct Ha as [[s v] Hi]. rewrite Hi.
    apply keeps_live; [done|done|apply mark_published_only|by apply mark_published_safe].
  - destruct Ha as [[s v] Hi]. rewrite Hi. apply list_elem_of_lookup_2 in Hi.
    apply keeps_live; [done|done|apply close_only|]. apply close_safe; eauto.
  - destruct Ha as [[s v] Hi]. rewrite Hi. apply list_elem_of_lookup_2 in Hi.
    apply keeps_live; [done|done|apply drop_vm_only|]. apply drop_vm_safe; eauto.
Qed.

Lemma step_inv st st' : SInv st -> step honest_windows st st' -> SInv st'.
Proof.
  intros S Hst. destruct Hst as [a st r w' Ha X|a st w' Ha X|st w' [Hs _]].
  - destruct (safe_exec _ _ _ _ _ _ _ (program_safe a st S Ha) X) as [? HQ]. split; [done|]. by apply HQ.
  - destruct (safe_exec _ _ _ _ _ _ _ (program_safe a st S Ha) X) as [? _]. split; [done|].
    intros s v Hv. by apply not_elem_of_nil in Hv.
  - destruct S as [Iw Ho]. split; [by eapply Inv_shrinks|]. intros s v Hv.
    eapply own_resources_shrinks; [done|]. by eapply Ho.
Qed.

Lemma reachable_inv st : reachable honest_windows st -> SInv st.
Proof.
  intros (w & Hw & Hst). remember {| world := w; live := [] |} as st0 eqn:E0.
  assert (S0 : SInv st0).
  { subst. split; [by apply pristine_inv|]. intros s v Hv. by apply not_elem_of_nil in Hv. }
  clear E0. induction Hst as [st|st st1 st2 H1 H2 IH]; [done|]. apply IH. by eapply step_inv.
Qed.



(** Journal rows are well formed.  In every state of every history, a row
    of a session's machine table that decodes is stored under the id of its
    own machine, once, has the current schema version, and names the machine's
    own compute system, network and endpoint. *)
Theorem journal_rows_well_formed st s db k b r :
  reachable honest_windows st -> w_sessions (world st) !! s = Some db ->
  (k, b) ∈ vm_records db -> from_slice b = Some r ->
  NoDup (map fst (vm_records db))
  /\ k = uuid_to_string (vr_vm_id r) /\ vr_schema_version r = SCHEMA_VERSION
  /\ cr_id (compute_system r) = k
  /\ forall n, network r = Some n ->
     network_name n = nat_name (vr_vm_id r) /\ endpoint_name n = ep_name (vr_vm_id r).
Proof.
  intros [Iw _]%reachable_inv Hs Hk Hb. destruct (inv_tables _ Iw s db Hs) as (Hwf & _ & Hkey).
  apply bt_get_elem in Hk; [|done]. pose proof (Hkey k b r Hk Hb) as ->.
  assert (Hr : rec_of (world st) s (vr_vm_id r) = Some r) by (unfold rec_of; rewrite Hs; cbn; by rewrite Hk).
  destruct (inv_records _ Iw _ _ _ Hr) as [G1 G2 G3 _ _ G6 _ _].
  split_and!; [by apply bt_keys_NoDup|done..|]. intros n Hn. by destruct (G6 n Hn) as (? & ? & _).
Qed.
End System.
