(* ===== verification/HcsFiles.v ===== *)
(** * Disk files: what is deleted, and what never is

    On any Windows host (failing, and with misleading reports): a cleanup pass
    deletes only the disk files its record entitles it to, and no history of
    this program ever deletes a file that [New-VHD] did not make for it. *)

From Stdlib Require Import ZArith Lia.
From stdpp Require Import base tactics option list numbers strings countable gmap fin_maps fin_sets relations.
From S2P Require Import Prelude Bytes Text BTree Guid HcsJournal HcsHost HcsText Hns HnsSafe HcsCleanup HcsLaunch HcsInv HcsSafe HcsTrack HcsSystem.

Section Files.
Context `{UuidLaws} `{!Serde SessionRecord, !Serde VmResourceRecord, !Serde AbandonedRecord}.
Context `{!SerdeLaws SessionRecord, !SerdeLaws VmResourceRecord, !SerdeLaws AbandonedRecord}.

Definition forget_file (p : OsString) (w : World) : World := set_files (delete p (w_files w)) w.

(** ** Calls that leave the world as it is *)

Definition idle (c : call) : bool :=
  match c with
  | ValidateSid _ | PathExists _ | RevokeAccess _ _ | GrantAccess _ _ | GetFileIdentity _ | GetVhd _
  | LockPath _ | ReparsePoints _ | Parent _ | CreateParent _ | NormalizeAbsolutePath _ | Prepare _ => true
  | _ => false
  end.
Lemma idle_call c w a w' : idle c = true -> windows_call c w a w' -> w' = w.
Proof. destruct c; cbn; try discriminate; intros _; try done; by intros [-> _]. Qed.

Lemma ask_idle I c : idle c = true -> along windows False I eq (ask c).
Proof. intros Hc w Iw. apply safe_ask; [done|]. intros a w' Hw. by rewrite (idle_call _ _ _ _ Hc Hw). Qed.
#[local] Hint Extern 1 (along _ _ _ eq (ask _)) => apply ask_idle; reflexivity : along.

(** ** One disk *)

(** The record entitles a cleanup to delete the file [i] of disk [d]. *)
Definition deletable (d : DiskResource) (i : FileIdentity) : Prop :=
  dr_state d <> Planned /\ origin d = CreatedByLaunch /\ file_identity d = Some i
  /\ (effective_retention d = Ephemeral \/ dr_published d = false).

Lemma identity_safe I p Q w :
  I w -> (forall e, Q (Err e) w) -> (forall i, w_files w !! p = Some i -> Q (Ok i) w) ->
  safe windows I (get_file_identity p) Q w.
Proof.
  intros Iw HE HO. apply safe_bind, safe_ask; [done|]. intros a w' [-> Ha]. split; [done|].
  destruct a; [apply safe_throw|apply safe_ret]; auto.
Qed.

Lemma remove_file_safe I p Q w i :
  I w -> w_files w !! p = Some i -> I (forget_file p w) ->
  (forall w' a, w' = w \/ w' = forget_file p w -> Q (Ok a) w') ->
  safe windows I (ask (RemoveFile p)) Q w.
Proof.
  intros Iw Hi If HQ. apply safe_ask; [done|]. intros a w' Hw. cbn in Hw.
  destruct a; [subst w'; auto|destruct Hw as [-> _]; auto|subst w'; auto].
Qed.

Lemma remove_disk_files I id d w Q :
  I w -> (forall i, deletable d i -> w_files w !! dr_path d = Some i -> I (forget_file (dr_path d) w)) ->
  (forall r, Q r w) ->
  (forall r i, deletable d i -> w_files w !! dr_path d = Some i -> Q r (forget_file (dr_path d) w)) ->
  safe windows I (remove_disk id d) Q w.
Proof.
  intros Iw HI H1 H2. unfold remove_disk. case_bool_decide as Hp; [by apply safe_ret; auto|].
  apply safe_bind, (safe_along windows False I eq); [along|done|]. intros [u|e|] w' _ <- _; [|by auto..].
  case_bool_decide as Ho; [by apply safe_ret; auto|]. cbv zeta.
  destruct (_ || _) eqn:Ed; cbn [negb]; [|by apply safe_ret; auto].
  rewrite orb_true_iff, bool_decide_eq_true, negb_true_iff in Ed.
  apply safe_bind, (safe_along windows False I eq); [along|done|]. intros [ex|e|] w' _ <- _; [|by auto..].
  destruct ex; cbn [negb]; [|by apply safe_ret; auto].
  destruct (file_identity d) as [i|] eqn:Ei; [|by apply safe_throw; auto].
  apply safe_bind, identity_safe; [done|by auto|]. intros i' Hi'.
  case_bool_decide as Hi; cbn [negb]; [subst i'|by apply safe_throw; auto].
  assert (D : deletable d i).
  { split_and!; [done|by destruct (origin d)|done|done]. }
  apply safe_bind, (remove_file_safe I _ _ w i); [done|done|by eapply HI|].
  intros w' a [-> | ->].
  - by destruct a; [apply safe_ret|apply safe_ret|apply safe_throw]; auto.
  - destruct a; [apply safe_ret|apply safe_ret|apply safe_throw]; eauto.
Qed.

(** ** One cleanup pass *)

Definition file_call (c : call) : bool := match c with RemoveFile _ | NewVhd _ _ => true | _ => false end.
Lemma other_files c w a w' :
  file_call c = false -> windows_call c w a w' -> w_files w' = w_files w /\ w_created w' = w_created w.
Proof.
  intros Hc Hw. destruct c; try discriminate Hc; cbn in Hw;
    repeat match goal with
    | H : _ /\ _ |- _ => destruct H
    | H : _ \/ _ |- _ => destruct H
    | H : exists _, _ |- _ => destruct H
    | H : context [match ?x with _ => _ end] |- _ => destruct x
    end; subst; done.
Qed.
Lemma gentle_files c w a w' : gentle c = true -> windows_call c w a w' -> w_files w' = w_files w.
Proof. intros Hc Hw. eapply other_files; [|done]. by destruct c. Qed.

(** A file invariant through a program that touches no file. *)
Lemma gentle_safe {A} (I : World -> Prop) (p : host A) w Q :
  (forall w w', I w -> w_files w' = w_files w -> I w') -> touches_no_file p -> I w ->
  (forall r w', I w' -> Q r w') -> safe windows I p Q w.
Proof.
  intros HI Hp Iw HQ. eapply (safe_mono _ I I p (fun _ _ => True)); [|done|by auto].
  apply (only_safe _ False True (fun c => gentle c = true)); [| |done|done].
  - intros c w1 a w2 Hc I1 Hw. eapply HI; [done|]. by eapply gentle_files.
  - intros s db w1 I1. by eapply HI.
Qed.

Section Pass.
Context (m : mode) (s : OsString) (id : Uuid) (c : CleanupResources) (w0 : World).

(** The record allows the pass to delete file [i] at [p]. *)
Definition entitled (p : OsString) (i : FileIdentity) : Prop :=
  exists r d, rec_of w0 s id = Some r /\ d ∈ disks r /\ dr_path d = p /\ deletable d i /\ dr_state d <> Removed.
Definition only_entitled (w : World) : Prop :=
  forall p i, w_files w0 !! p = Some i -> w_files w !! p = Some i \/ (w_files w !! p = None /\ entitled p i).

Lemma only_entitled_files w w' : only_entitled w -> w_files w' = w_files w -> only_entitled w'.
Proof. intros Iw E p i. rewrite E. apply Iw. Qed.

Lemma clean_disk_files r fs index d w Q :
  rec_of w0 s id = Some r -> d ∈ disks r -> only_entitled w ->
  (forall r w', only_entitled w' -> Q r w') ->
  safe windows only_entitled (clean_disk (production m) s id fs (index, d)) Q w.
Proof.
  intros Hr Hd Iw HQ. unfold clean_disk. case_bool_decide as Hrm; [apply safe_ret; auto|].
  assert (Hall : forall result w', only_entitled w' -> safe windows only_entitled
    (apply_resource_outcome s id result (str "disk") (str "remove") (to_string_lossy (dr_path d)) (disk_to index) fs) Q w').
  { intros result w' I'. apply gentle_safe; [apply only_entitled_files|apply outcome_only|done|done]. }
  assert (Hf : forall i, deletable d i -> w_files w !! dr_path d = Some i -> only_entitled (forget_file (dr_path d) w)).
  { intros i Di Hi p i' Hp. cbn. destruct (decide (p = dr_path d)) as [->|Hne].
    - rewrite lookup_delete_eq. right. split; [done|]. destruct (Iw _ _ Hp) as [E|[E _]]; [|congruence].
      rewrite E in Hi. injection Hi as ->. exists r, d. done.
    - rewrite lookup_delete_ne by done. by apply Iw. }
  apply safe_bind, safe_attempt. cbn [production hook_disk].
  apply remove_disk_files; [done|done| |].
  - intros [u|e|]; [by apply Hall..|by apply HQ].
  - intros [u|e|] i Di Hi; [by apply Hall, (Hf i)..|by eapply HQ, Hf].
Qed.

Lemma cleanup_record_files Q :
  tables_ok w0 -> (forall r w', only_entitled w' -> Q r w') ->
  safe windows only_entitled (cleanup_record m s id c) Q w0.
Proof.
  intros T HQ. assert (I0 : only_entitled w0) by (intros p i; auto).
  unfold cleanup_record, cleanup_record_with. apply safe_bind, safe_write; [done|]. intros r w1 Hs.
  destruct (update_vm_step _ _ _ _ _ _ T Hs) as [[-> [e ->]]|(r0 & Hr0 & C & Hc)]; [auto|].
  assert (I1 : only_entitled w1) by (apply (only_entitled_files w0); [done|apply C]). split; [done|].
  destruct Hc as [-> | [e ->]]; [|auto]. apply safe_bind, safe_read; [done|]. intros r Hs1.
  destruct (vm_step _ _ _ _ Hs1) as [[e ->]|(o & -> & ->)]; [auto|]. rewrite (rc_at _ _ _ _ _ C).
  apply (safe_res _ _ (begin_cleanup r0)); [done|].
  apply safe_bind, gentle_safe; [apply only_entitled_files|apply clean_compute_only|done|].
  intros [fs|e|] w2 I2; [|auto..].
  apply safe_bind, gentle_safe; [apply only_entitled_files|apply clean_network_only|done|].
  intros [fs3|e|] w3 I3; [|auto..].
  apply safe_bind, (safe_hfold _ _ _ (fun xs _ _ => forall x, x ∈ xs -> x.2 ∈ disks r0)); [done| | |].
  - intros [index d] Hx. unfold enumerate in Hx. apply elem_of_lookup_imap in Hx as (j & d' & [= -> ->] & Hj).
    by eapply list_elem_of_lookup_2.
  - intros [index d] xs fs4 w4 I4 Hxs. eapply (clean_disk_files r0); [done|apply (Hxs (index, d)); by left|done|].
    intros [fs5|e|] w5 I5; [|by auto..]. intros x Hx. apply Hxs. by right.
  - intros fs4 w4 I4 _. apply gentle_safe; [apply only_entitled_files|apply finish_cleanup_only|done|done].
Qed.
End Pass.

(** C4: A cleanup pass deletes only what the record entitles it to.  Whatever
    the host answers, whatever fails and wherever the process dies, a file that
    disappears during a pass is the file, by volume and file identity, that a
    disk of the record was created with by its own launch; the disk was not
    merely planned, not already removed, and is ephemeral or was never
    published.  Pre-existing files and published persistent disks stay. *)
Theorem cleanup_deletes_only_entitled m s id c w o w' p i :
  tables_ok w -> exec windows (cleanup_record m s id c) w o w' -> w_files w !! p = Some i ->
  w_files w' !! p = Some i
  \/ (w_files w' !! p = None
      /\ exists r d, rec_of w s id = Some r /\ d ∈ disks r /\ dr_path d = p
         /\ dr_state d <> Planned /\ dr_state d <> Removed
         /\ origin d = CreatedByLaunch /\ file_identity d = Some i
         /\ (effective_retention d = Ephemeral \/ dr_published d = false)).
Proof.
  intros T X Hp. destruct (safe_exec _ _ _ _ _ _ _ (cleanup_record_files m s id c w (fun _ _ => True) T (fun _ _ _ => I)) X) as [J _].
  destruct (J p i Hp) as [?|[? (r & d & ? & ? & ? & (? & ? & ? & ?) & ?)]]; [by left|right]. eauto 15.
Qed.

(** ** Files that are not this program's *)

Definition disk_known (w : World) (d : DiskResource) : Prop :=
  origin d = CreatedByLaunch -> forall i, file_identity d = Some i -> file_key (dr_path d) i ∈ w_created w.
Definition disks_known (w : World) (r : VmResourceRecord) : Prop := Forall (disk_known w) (disks r).
Definition journal_known (w : World) : Prop :=
  forall s db k b r, w_sessions w !! s = Some db -> (k, b) ∈ vm_records db -> from_slice b = Some r -> disks_known w r.

(** Files of [w0] that were not made by [New-VHD] for this program. *)
Definition kept (w0 w : World) : Prop :=
  forall p i, w_files w0 !! p = Some i -> file_key p i ∉ w_created w0 ->
  w_files w !! p = Some i /\ file_key p i ∉ w_created w.
Definition grown (w w' : World) : Prop := w_created w ⊆ w_created w'.
#[local] Instance grown_preorder : PreOrder grown.
Proof. split; unfold grown; intros ?; intros; set_solver. Qed.

Lemma grown_trans w1 w2 w3 : grown w1 w2 -> grown w2 w3 -> grown w1 w3.
Proof. apply transitivity. Qed.
Lemma grown_same w w' : w_created w' = w_created w -> grown w w'.
Proof. unfold grown. by intros ->. Qed.
Lemma disk_known_grown w w' d : grown w w' -> disk_known w d -> disk_known w' d.
Proof. intros G K Ho i Hi. by apply G, K. Qed.
Lemma disks_known_grown w w' r : grown w w' -> disks_known w r -> disks_known w' r.
Proof. intros G K. eapply Forall_impl; [done|]. intros d. by apply disk_known_grown. Qed.
Lemma journal_known_same w w' : w_sessions w' = w_sessions w -> grown w w' -> journal_known w -> journal_known w'.
Proof. intros Es G K s db k b r. rewrite Es. intros. eapply disks_known_grown; [done|]. by eapply K. Qed.

Section Foreign.
Context (w0 : World).
Definition FI (w : World) : Prop := journal_known w /\ kept w0 w.
Abbreviation keeps p := (along windows False FI grown p).

Lemma call_sessions c w a w' :
  windows_call c w a w' ->
  w_sessions w' = w_sessions w \/ exists s, w_sessions w' = <[s := empty_database]> (w_sessions w)
  \/ w_sessions w' = delete s (w_sessions w).
Proof.
  intros Hw. destruct c; cbn in Hw;
    repeat match goal with
    | H : _ /\ _ |- _ => destruct H
    | H : _ \/ _ |- _ => destruct H
    | H : exists _, _ |- _ => destruct H
    | H : context [match ?x with _ => _ end] |- _ => destruct x
    end; subst; cbn; eauto.
Qed.

Lemma journal_known_call c w a w' : windows_call c w a w' -> grown w w' -> journal_known w -> journal_known w'.
Proof.
  intros Hw G J s db k b r Hs Hk Hb. eapply disks_known_grown; [done|].
  destruct (call_sessions _ _ _ _ Hw) as [E|(s' & [E|E])]; rewrite E in Hs.
  - by eapply J.
  - apply lookup_insert_Some in Hs as [[_ <-]|[_ Hs]]; [by apply not_elem_of_nil in Hk|by eapply J].
  - apply lookup_delete_Some in Hs as [_ Hs]. by eapply J.
Qed.

Lemma call_keeps c w a w' :
  (forall p, c <> RemoveFile p) -> FI w -> windows_call c w a w' -> FI w' /\ grown w w'.
Proof.
  intros Hc [J K] Hw. assert (Hrefl : grown w w) by reflexivity.
  assert (HG : grown w w' /\ kept w0 w').
  { destruct (file_call c) eqn:Eg.
    - destruct c; try discriminate Eg; cbn in Hw.
      + by destruct (Hc p).
      + destruct Hw as [-> |(i & Hp & Hi & ->)]; [done|].
        assert (Hk : forall p' i', w_files w0 !! p' = Some i' -> file_key p' i' ∉ w_created w0 ->
          (<[p := i]> (w_files w)) !! p' = Some i' /\ file_key p' i' ∉ w_created w /\ p' <> p).
        { intros p' i' Hp' Hi'. destruct (K p' i' Hp' Hi') as [E ?].
          assert (p' <> p) by congruence. by rewrite lookup_insert_ne. }
        destruct a as [e|]; (split; [unfold grown; cbn; set_solver|]); intros p' i' Hp' Hi';
          destruct (Hk p' i' Hp' Hi') as (? & ? & Hne); (split; [done|]); cbn; [done|].
        unfold file_key in *. set_solver.
    - destruct (other_files _ _ _ _ Eg Hw) as [Ef Ec]. unfold grown, kept. by rewrite Ef, Ec. }
  destruct HG. split; [|done]. split; [|done]. by eapply journal_known_call.
Qed.

Lemma keeps_ask c : (forall p, c <> RemoveFile p) -> keeps (ask c).
Proof.
  intros Hc w Iw. apply safe_ask; [done|]. intros a w' Hw. by destruct (call_keeps _ _ _ _ Hc Iw Hw).
Qed.
#[local] Hint Extern 1 (along _ _ _ grown (ask _)) => apply keeps_ask; discriminate : along.

(** *** Transactions *)

Definition rows_known (w : World) (t : table) : Prop :=
  forall k b r, (k, b) ∈ t -> from_slice b = Some r -> disks_known w r.

Lemma write_keeps {B} s (op : write_op B) w Q :
  FI w ->
  (forall db, w_sessions w !! s = Some db -> rows_known w (vm_records db) ->
     match op db with Ok (_, db') => rows_known w (vm_records db') | _ => True end) ->
  (forall r w', FI w' -> grown w w' -> Q r w') -> safe windows FI (write s op) Q w.
Proof.
  intros [J K] Hop HQ. apply safe_write; [done|]. intros r w' Hw. unfold write_step in Hw.
  assert (Hrefl : grown w w) by reflexivity. assert (FI w) by done.
  destruct (w_sessions w !! s) as [db|] eqn:Hdb; [|destruct Hw as [-> ->]; auto].
  specialize (Hop db eq_refl ltac:(intros k b r' ??; by eapply J)).
  destruct (op db) as [[b db']|e|]; [|destruct Hw as [-> [-> |[_ ->]]]; auto|destruct Hw as [-> ->]; auto].
  assert (FI (put_db s db' w)).
  { split; [|done]. intros s1 db1 k1 b1 r1. rewrite sessions_put_db. case_decide; [intros [= <-]; apply Hop|apply J]. }
  destruct Hw as [[-> ->]|(_ & -> & [-> | ->])]; auto.
Qed.

(** An update whose result is known if its argument is. *)
Lemma update_keeps s id f w Q :
  FI w -> (forall r, rec_of w s id = Some r -> disks_known w r -> disks_known w (f r)) ->
  (forall r w', FI w' -> grown w w' -> Q r w') -> safe windows FI (update_vm s id f) Q w.
Proof.
  intros Iw Hf HQ. apply write_keeps; [done| |done]. intros db Hdb Hk. unfold update_vm_row.
  destruct (bt_get (uuid_to_string id) (vm_records db)) as [b|] eqn:Hb; cbn; [|done].
  unfold decode_vm, decode. destruct (from_slice b) as [r0|] eqn:Hr; cbn; [|done].
  unfold validate_schema_version. destruct (_ =? _); cbn; [|done].
  unfold encode. destruct (serde_round_trip (f r0)) as (b' & E1 & E2). rewrite E1. cbn.
  unfold vm_records at 1. cbn. intros k1 b1 r1 [[= -> ->]|Hin]%bt_insert_subset Hr1; [|by eapply Hk].
  rewrite E2 in Hr1. injection Hr1 as <-. apply Hf.
  - unfold rec_of. rewrite Hdb. cbn. by rewrite Hb.
  - eapply Hk; [by apply bt_get_in|done].
Qed.
Lemma update_along s id f : (forall w r, disks_known w r -> disks_known w (f r)) -> keeps (update_vm s id f).
Proof. intros Hf w Iw. by apply update_keeps; auto. Qed.

Lemma remove_vm_along s id : keeps (remove_vm s id).
Proof.
  intros w Iw. apply write_keeps; [done| |done]. intros db _ Hk. cbn. unfold vm_records at 1. cbn.
  intros k b r Hin Hb. pose proof (bt_remove_subset (uuid_to_string id) (vm_records db)) as Hs.
  rewrite Forall_forall in Hs. eapply Hk; [by apply Hs|done].
Qed.
Lemma write_rows_along {B} s (op : write_op B) :
  (forall db, match op db with Ok (_, db') => vm_records db' = vm_records db | _ => True end) ->
  keeps (write s op).
Proof.
  intros Hop w Iw. apply write_keeps; [done| |done]. intros db _ Hk. specialize (Hop db).
  destruct (op db) as [[b db']|e|]; [by rewrite Hop|done..].
Qed.
Lemma read_along {B} s (op : read_op B) : keeps (read s op).
Proof.
  intros w Iw. apply safe_read; [done|]. intros r Hr. split; [done|reflexivity].
Qed.

Lemma vm_keeps s id w Q :
  FI w -> (forall e, Q (Err e) w) -> Q (Ok None) w -> (forall r, rec_of w s id = Some r -> disks_known w r -> Q (Ok (Some r)) w) ->
  safe windows FI (vm s id) Q w.
Proof.
  intros Iw HE HN HS. apply safe_read; [done|]. intros r Hr. unfold read_step in Hr.
  destruct (w_sessions w !! s) as [db|] eqn:Hdb; [|by subst]. destruct Hr as [-> |[_ ->]]; [|done]. unfold vm_row.
  destruct (VM_RECORDS db) as [t|] eqn:Ht; cbn; [|done].
  destruct (bt_get (uuid_to_string id) t) as [b|] eqn:Hb; cbn; [|done].
  unfold decode_vm, decode. destruct (from_slice b) as [r0|] eqn:Hr; cbn; [|done].
  unfold validate_schema_version. destruct (_ =? _); cbn; [|done]. apply HS.
  { unfold rec_of. rewrite Hdb. cbn. unfold vm_records. rewrite Ht. cbn. by rewrite Hb. }
  eapply (proj1 Iw); [done| |done]. unfold vm_records. rewrite Ht. by apply bt_get_in.
Qed.

(** *** Updates that invent no file identity *)

Definition preserves (f : VmResourceRecord -> VmResourceRecord) : Prop :=
  forall w r, disks_known w r -> disks_known w (f r).
(** A change of one disk that keeps its path, origin and identity. *)
Definition same_file (h : DiskResource -> DiskResource) : Prop :=
  forall d, dr_path (h d) = dr_path d /\ origin (h d) = origin d /\ file_identity (h d) = file_identity d.

Lemma disk_known_same_file h w d : same_file h -> disk_known w d -> disk_known w (h d).
Proof. intros Hh K. unfold disk_known. by destruct (Hh d) as (-> & -> & ->). Qed.
Lemma preserves_map f h : (forall r, disks (f r) = map h (disks r)) -> same_file h -> preserves f.
Proof.
  intros E Hh w r K. unfold disks_known. rewrite E. apply Forall_fmap. eapply Forall_impl; [done|].
  intros d. by apply disk_known_same_file.
Qed.
Lemma preserves_same f : (forall r, disks (f r) = disks r) -> preserves f.
Proof. intros E w r K. unfold disks_known. by rewrite E. Qed.
Lemma known_alter w h index ds :
  (forall d, disk_known w d -> disk_known w (h d)) -> Forall (disk_known w) ds -> Forall (disk_known w) (alter h index ds).
Proof. intros Hh K. apply Forall_alter; [done|]. auto. Qed.
Lemma preserves_alter f h index : (forall r, disks (f r) = alter h index (disks r)) -> same_file h -> preserves f.
Proof.
  intros E Hh w r K. unfold disks_known. rewrite E. apply known_alter; [|done]. intros d. by apply disk_known_same_file.
Qed.
Lemma preserves_disk_to index st : preserves (disk_to index st).
Proof. eapply preserves_alter; [done|]. intros d. by case_bool_decide. Qed.

Lemma update_preserves s id f : preserves f -> keeps (update_vm s id f).
Proof. intros Hf. apply update_along, Hf. Qed.
#[local] Hint Extern 1 (along _ _ _ grown (update_vm _ _ _)) =>
  apply update_preserves, preserves_same; reflexivity : along.
#[local] Hint Resolve remove_vm_along read_along : along.

Lemma gentle_keeps {A} (p : host A) : asks_gently p -> keeps p.
Proof.
  intros Hp. apply (only_mono _ False _ False _ (fun c => gentle c = true)) in Hp; [|done..]. revert Hp.
  apply only_along; [exact _|done|]. intros c w a w' Hc Iw Hw. apply (call_keeps c w a w'); [|done..].
  by intros p' ->.
Qed.
#[local] Hint Extern 2 (along _ _ _ grown _) =>
  apply gentle_keeps; first [apply delete_exact_only|apply close_and_delete_only|apply remove_system_only|apply remove_by_id_only] : along.

(** *** Cleanup *)

Lemma outcome_keeps s id r k o i T fs :
  (forall st, preserves (T st)) -> keeps (apply_resource_outcome s id r k o i T fs).
Proof.
  intros HT. assert (Hu : forall st, keeps (update_vm s id (T st))) by (intros st; by apply update_preserves).
  assert (Hu' : forall e st, keeps (update_vm s id (fun r => set_last_error e (T st r)))).
  { intros e st. apply update_preserves. intros w r' K. by apply (HT st w r'). }
  unfold apply_resource_outcome. along.
Qed.
Lemma clean_compute_keeps m s id r c fs : keeps (clean_compute (production m) m s id r c fs).
Proof.
  pose proof (fun res k o i fs => outcome_keeps s id res k o i compute_to fs (fun st => preserves_same _ (fun r => eq_refl))).
  unfold clean_compute. cbn [production hook_compute]. along.
Qed.
Lemma clean_network_keeps m s id r c fs : keeps (clean_network (production m) s id r c fs).
Proof.
  pose proof (fun res k o i fs => outcome_keeps s id res k o i network_to fs (fun st => preserves_same _ (fun r => eq_refl))).
  unfold clean_network. cbn [production hook_network]. along.
Qed.
Lemma put_abandoned_keeps s r : keeps (put_abandoned s r).
Proof.
  assert (forall b, keeps (write s (put_abandoned_row (ar_vm_id r) b))) by (intros b; by apply write_rows_along).
  unfold put_abandoned, abandoned. along.
Qed.
#[local] Hint Resolve put_abandoned_keeps clean_compute_keeps clean_network_keeps : along.
Lemma finish_cleanup_keeps s id fs : keeps (finish_cleanup s id fs).
Proof.
  assert (keeps (remove_abandoned s id)) by (by apply write_rows_along).
  assert (forall es, keeps (update_vm s id (abandon_record es))).
  { intros es. apply update_preserves. eapply preserves_map; [done|]. done. }
  unfold finish_cleanup, abandon_remaining, abandoned, vm, missing_record. along.
Qed.

Lemma FI_forget p i w : FI w -> w_files w !! p = Some i -> file_key p i ∈ w_created w -> FI (forget_file p w).
Proof.
  intros [J K] Hp Hi. split; [by apply (journal_known_same w); [|apply grown_same|]|]. intros p' i' Hp' Hi'.
  destruct (K p' i' Hp' Hi') as [E ?]. cbn. split; [|done]. rewrite lookup_delete_ne; [done|].
  intros <-. rewrite Hp in E. by injection E as <-.
Qed.

Lemma clean_disk_keeps m s id fs index d w Q :
  FI w -> disk_known w d -> (forall r w', FI w' -> grown w w' -> Q r w') ->
  safe windows FI (clean_disk (production m) s id fs (index, d)) Q w.
Proof.
  intros Iw Hd HQ. unfold clean_disk. case_bool_decide; [apply safe_ret; [done|]; by apply HQ|].
  assert (Hall : forall result w', FI w' -> grown w w' -> safe windows FI
    (apply_resource_outcome s id result (str "disk") (str "remove") (to_string_lossy (dr_path d)) (disk_to index) fs) Q w').
  { intros result w' I' G'. apply (safe_along windows False FI grown); [apply outcome_keeps, preserves_disk_to|done|].
    intros r w'' I'' G'' _. apply HQ; [done|]. by etransitivity. }
  assert (Hf : forall i, deletable d i -> w_files w !! dr_path d = Some i -> FI (forget_file (dr_path d) w)).
  { intros i (_ & Ho & Hi & _) Hp. eapply FI_forget; [done..|]. by apply Hd. }
  apply safe_bind, safe_attempt. cbn [production hook_disk]. apply remove_disk_files; [done|done| |].
  - intros [u|e|]; [by apply Hall..|by apply HQ].
  - intros [u|e|] i Di Hi; [apply Hall; [by eapply Hf|by apply grown_same]..|apply HQ; [by eapply Hf|by apply grown_same]].
Qed.

Lemma cleanup_record_keeps m s id c w Q :
  FI w -> (forall r w', FI w' -> grown w w' -> Q r w') -> safe windows FI (cleanup_record m s id c) Q w.
Proof.
  intros Iw HQ. unfold cleanup_record, cleanup_record_with.
  apply safe_bind, update_keeps; [done|by intros r _|]. intros [[]|e|] w1 I1 G1; [|by auto..].
  apply safe_bind, vm_keeps; [done|by auto|by split; auto|]. intros r _ K. apply (safe_res _ _ r); [done|].
  apply safe_bind, (safe_along windows False FI grown); [apply clean_compute_keeps|done|].
  intros [fs|e|] w2 I2 G2 _; [|apply HQ; [done|by etransitivity]..].
  apply safe_bind, (safe_along windows False FI grown); [apply clean_network_keeps|done|].
  assert (G02 : grown w w2) by (by etransitivity).
  intros [fs3|e|] w3 I3 G3 _; [|apply HQ; [done|by etransitivity]..].
  assert (G03 : grown w w3) by (by etransitivity). assert (G13 : grown w1 w3) by (by etransitivity).
  apply safe_bind, (safe_hfold _ _ _ (fun xs _ w' => grown w w' /\ forall x, x ∈ xs -> disk_known w' x.2)); [done| | |].
  - split; [done|]. intros [index d] Hx. unfold enumerate in Hx.
    apply elem_of_lookup_imap in Hx as (j & d' & [= -> ->] & Hj). eapply disk_known_grown; [exact G13|].
    unfold disks_known in K. rewrite Forall_forall in K. apply K. by eapply list_elem_of_lookup_2.
  - intros [index d] xs fs4 w4 I4 [G4 Hxs]. apply clean_disk_keeps; [done|apply (Hxs (index, d)); by left|].
    intros [fs5|e|] w5 I5 G5; [|apply HQ; [done|by etransitivity]..]. split; [by etransitivity|].
    intros x Hx. eapply disk_known_grown; [done|]. apply Hxs. by right.
  - intros fs4 w4 I4 [G4 _]. apply (safe_along windows False FI grown); [apply finish_cleanup_keeps|done|].
    intros r' w5 I5 G5 _. apply HQ; [done|]. by etransitivity.
Qed.
Lemma cleanup_record_along m s id c : keeps (cleanup_record m s id c).
Proof. intros w Iw. by apply cleanup_record_keeps; auto. Qed.
#[local] Hint Resolve cleanup_record_along : along.

(** *** Launch *)

Definition files_known (w : World) (xs : list (OsString * FileIdentity)) : Prop :=
  Forall (fun x => file_key x.1 x.2 ∈ w_created w) xs.
Definition guard_known (w : World) (g : ProvisioningGuard) : Prop := files_known w (unjournaled_disks g).
Lemma files_known_grown w w' xs : grown w w' -> files_known w xs -> files_known w' xs.
Proof. intros G K. eapply Forall_impl; [done|]. intros x Hx. by apply G. Qed.

Lemma drop_unjournaled_keeps x w Q :
  FI w -> file_key x.1 x.2 ∈ w_created w -> (forall r w', FI w' -> grown w w' -> Q r w') ->
  safe windows FI (drop_unjournaled x) Q w.
Proof.
  intros Iw Hx HQ. destruct x as [p i]. cbn in Hx. unfold drop_unjournaled.
  apply safe_bind, (safe_along windows False FI grown); [along|done|].
  intros [ex|e|] w1 I1 G1 _; [|by auto..]. destruct ex; cbn [negb]; [|apply safe_ret; auto].
  apply safe_bind, safe_attempt, identity_safe; [done| |].
  - intros e. apply safe_ret; auto.
  - intros i' Hi'. case_bool_decide as E; [subst i'|apply safe_ret; auto].
    assert (If : FI (forget_file p w1)) by (eapply FI_forget; [done..|by apply G1]).
    apply safe_bind, (remove_file_safe FI _ _ w1 i); [done..|].
    intros w' a [-> | ->]; apply safe_ret; try done; apply HQ; try done.
Qed.
Lemma drop_guard_keeps s id g w Q :
  FI w -> guard_known w g -> (forall r w', FI w' -> grown w w' -> Q r w') -> safe windows FI (drop_guard s id g) Q w.
Proof.
  intros Iw Hg HQ. unfold drop_guard. apply safe_bind, safe_attempt, cleanup_record_keeps; [done|].
  assert (Hloop : forall w', FI w' -> grown w w' ->
    safe windows FI (hfold (fun _ x => drop_unjournaled x) (unjournaled_disks g) tt) Q w').
  { intros w' I' G'. apply (safe_hfold _ _ _ (fun xs _ w'' => grown w w'' /\ files_known w'' xs)); [done| | |].
    - split; [done|]. by eapply files_known_grown.
    - intros x xs [] w2 I2 [G2 K2]. inversion K2 as [|? ? Kx Kxs]; subst. apply drop_unjournaled_keeps; [done..|].
      intros [[]|e|] w3 I3 G3; [|apply HQ; [done|by etransitivity]..].
      split; [by etransitivity|by eapply files_known_grown].
    - intros [] w2 I2 [G2 _]. auto. }
  intros [[]|e|] w' I' G'; [by apply Hloop..|by apply HQ].
Qed.

(** [?] under the guard. *)
Lemma guarded_keeps {A B} s id g (p : host A) (k : A -> host B) w Q :
  (forall r w', FI w' -> grown w w' -> Q r w') ->
  safe windows FI p (fun r w' =>
    grown w w' /\ match r with Ok a => safe windows FI (k a) Q w' | _ => guard_known w' g end) w ->
  safe windows FI (guarded s id g p k) Q w.
Proof.
  intros HQ Hp. apply safe_bind, safe_attempt. eapply safe_mono; [exact Hp|done|].
  intros [a|e|] w' I' [G' Hr]; [done| |by apply HQ].
  apply safe_bind, drop_guard_keeps; [done..|]. intros [u|e'|] w'' I'' G''; [apply safe_throw; [done|]|..];
    (apply HQ; [done|by etransitivity]).
Qed.
Lemma guarded_along {A B} s id g (p : host A) (k : A -> host B) w Q :
  FI w -> guard_known w g -> keeps p -> (forall r w', FI w' -> grown w w' -> Q r w') ->
  (forall a w', FI w' -> grown w w' -> guard_known w' g -> safe windows FI (k a) Q w') ->
  safe windows FI (guarded s id g p k) Q w.
Proof.
  intros Iw Hg Hp HQ Hk. apply guarded_keeps; [done|]. apply (safe_along windows False FI grown); [done..|].
  intros r w' I' G' _. split; [done|]. assert (guard_known w' g) by (by eapply files_known_grown).
  destruct r; auto.
Qed.

(** *** Calls alone *)

Definition asked (w w' : World) : Prop := grown w w' /\ w_sessions w' = w_sessions w.
#[local] Instance asked_preorder : PreOrder asked.
Proof.
  split.
  - intros w. by split.
  - intros w1 w2 w3 [? E1] [? E2]. split; [by etransitivity|congruence].
Qed.
Lemma asked_trans w1 w2 w3 : asked w1 w2 -> asked w2 w3 -> asked w1 w3.
Proof. apply transitivity. Qed.

Definition harmless (c : call) : bool :=
  match c with RemoveFile _ | CreateDatabase _ | RemoveDatabase _ => false | _ => true end.
Lemma ask_asked c w a w' : harmless c = true -> FI w -> windows_call c w a w' -> FI w' /\ asked w w'.
Proof.
  intros Hc Iw Hw. destruct (call_keeps c w a w') as [? ?]; [by intros p -> |done..|]. split; [done|]. split; [done|].
  destruct (shrinking c) eqn:E; [by apply (shrinking_call _ _ _ _ E Hw)|].
  destruct c; try discriminate; cbn in Hw.
  - destruct Hw as [-> | ->]; done.
  - destruct Hw as [-> | ->]; done.
  - destruct Hw as [[-> _]|(g & _ & _ & -> & _)]; done.
Qed.
Lemma asked_along c : harmless c = true -> along windows False FI asked (ask c).
Proof. intros Hc w Iw. apply safe_ask; [done|]. intros a w' Hw. by destruct (ask_asked _ _ _ _ Hc Iw Hw). Qed.
#[local] Hint Extern 1 (along _ _ _ asked (ask _)) => apply asked_along; reflexivity : along.

(** The file at [p] was made by [New-VHD]. *)
Definition made (p : OsString) (w : World) : Prop :=
  exists i, w_files w !! p = Some i /\ file_key p i ∈ w_created w.

Lemma create_vhdx_keeps p size w Q :
  FI w -> w_files w !! p = None ->
  (forall r w', FI w' -> asked w w' -> r <> Ok None -> Q r w') ->
  (forall w', FI w' -> asked w w' -> made p w' -> Q (Ok None) w') ->
  safe windows FI (create_sparse_vhdx p size) Q w.
Proof.
  intros Iw Hp HE HO. assert (Hrefl : asked w w) by reflexivity. unfold create_sparse_vhdx.
  destruct (try_from_u _ _) as [bytes|]; [|apply safe_ret; [done|]; by apply HE].
  apply safe_bind, safe_ask; [done|]. intros e w1 Hw1. cbn in Hw1. subst w1. split; [done|].
  destruct e as [e|]; [apply safe_ret; [done|]; by apply HE|].
  apply safe_bind, safe_ask; [done|]. intros e w1 Hw1.
  destruct (ask_asked (NewVhd p bytes) w e w1 eq_refl Iw Hw1) as [I1 G1]. split; [done|].
  destruct e as [e|]; [apply safe_ret; [done|]; by apply HE|].
  apply safe_bind, safe_ask; [done|]. intros ex w2 [-> Hex]. split; [done|].
  destruct ex; cbn [negb]; (apply safe_ret; [done|]); [|by apply HE].
  apply HO; [done..|]. destruct Hw1 as [-> |(i & _ & _ & ->)].
  - destruct (proj1 Hex eq_refl) as [i Hi]. congruence.
  - exists i. cbn. rewrite lookup_insert_eq. set_solver.
Qed.

(** What [open_disk] learned of the file. *)
Definition disk_opened (planned : DiskResource)
    (r : res Report (OsString * DiskOrigin * DiskRetention * bool * FileIdentity)) (w : World) : Prop :=
  forall p o effective initialize i, r = Ok (p, o, effective, initialize, i) ->
  p = dr_path planned /\ (o = CreatedByLaunch \/ initialize = true -> file_key p i ∈ w_created w).

Lemma identify_keeps planned p o effective initialize w Q :
  FI w -> p = dr_path planned -> (o = CreatedByLaunch \/ initialize = true -> made p w) ->
  (forall r, disk_opened planned r w -> Q r w) ->
  safe windows FI (i ← get_file_identity p; mret (p, o, effective, initialize, i)) Q w.
Proof.
  intros Iw Ep Hm HQ. apply safe_bind, identity_safe; [done|by intros e; apply HQ|].
  intros i Hi. apply safe_ret; [done|]. apply HQ. intros p' o' f' n' i' [= -> -> -> -> ->]. split; [done|].
  intros Ho. destruct (Hm Ho) as (i & Hi' & ?). congruence.
Qed.

(** The part of [open_disk] after the classification. *)
Lemma classified_keeps planned spec p c w Q :
  FI w -> p = dr_path planned -> (c = Create -> made p w) ->
  (forall r w', FI w' -> asked w w' -> disk_opened planned r w' -> Q r w') ->
  safe windows FI
    ('(o, effective, initialize) ←
       match c with
       | Create => mret (CreatedByLaunch, retention spec, true)
       | Reuse | ReuseAndReclassify => _ ← validate_existing_vhdx p; mret (PreExisting, Persistent, false)
       | RejectExisting => throw (Report_new DiskPathExists)
       end;
     i ← get_file_identity p; mret (p, o, effective, initialize, i)) Q w.
Proof.
  intros Iw Ep Hm HQ. assert (Hrefl : asked w w) by reflexivity.
  assert (Hreuse : safe windows FI
    ('(o, effective, initialize) ← (_ ← validate_existing_vhdx p; mret (PreExisting, Persistent, false));
     i ← get_file_identity p; mret (p, o, effective, initialize, i)) Q w).
  { apply safe_bind, safe_bind, (safe_along windows False FI asked); [unfold validate_existing_vhdx; along|done|].
    intros [u|e|] w1 I1 G1 _; [|by apply HQ..]. apply safe_ret; [done|].
    apply identify_keeps with (planned := planned); [done|done|by intros [?|?]|]. intros r Hr. by apply HQ. }
  destruct c; [|done|done|].
  - apply (safe_res _ _ (CreatedByLaunch, retention spec, true)); [done|].
    apply identify_keeps with (planned := planned); [done|done|by auto|]. intros r Hr. by apply HQ.
  - apply safe_bind, safe_throw; [done|]. by apply HQ.
Qed.

Lemma classify_existing r policy : classify_disk true r policy <> Create.
Proof. by destruct r, policy. Qed.

Lemma normalize_asked p : along windows False FI asked (normalize_absolute_path p).
Proof. unfold normalize_absolute_path. along. Qed.
#[local] Hint Resolve normalize_asked : along.

Lemma open_disk_keeps spec planned w Q :
  FI w -> (forall r w', FI w' -> asked w w' -> disk_opened planned r w' -> Q r w') ->
  safe windows FI (open_disk spec planned) Q w.
Proof.
  intros Iw HQ. unfold open_disk.
  assert (HE : forall e w', FI w' -> asked w w' -> Q (Err e) w') by (intros e w' I' G'; by apply HQ).
  assert (HP : forall w', FI w' -> asked w w' -> Q Panic w') by (intros w' I' G'; by apply HQ).
  apply safe_bind, (safe_along windows False FI asked); [along|done|]. intros [p|e|] w1 I1 G1 _; [|by auto..].
  case_bool_decide as Ep; cbn [negb]; [|apply safe_throw; by auto].
  apply safe_bind, (safe_along windows False FI asked); [along|done|]. intros [u|e|] w2 I2 G2 _; [|by eauto using asked_trans..].
  assert (G02 : asked w w2) by (by etransitivity).
  apply safe_bind, (safe_along windows False FI asked); [along|done|]. intros [u'|e|] w3 I3 G3 _; [|by eauto using asked_trans..].
  assert (G03 : asked w w3) by (by etransitivity).
  apply safe_bind, safe_ask; [done|]. intros parent w' Hw'. cbn in Hw'. subst w'. split; [done|].
  destruct parent; [apply safe_throw; auto..|].
  apply safe_bind, safe_ask; [done|]. intros ex w' [-> Hex]. split; [done|]. cbv zeta.
  assert (Hrest : forall c w', FI w' -> asked w3 w' -> (c = Create -> made p w') -> safe windows FI
    ('(o, effective, initialize) ←
       match c with
       | Create => mret (CreatedByLaunch, retention spec, true)
       | Reuse | ReuseAndReclassify => _ ← validate_existing_vhdx p; mret (PreExisting, Persistent, false)
       | RejectExisting => throw (Report_new DiskPathExists)
       end;
     i ← get_file_identity p; mret (p, o, effective, initialize, i)) Q w').
  { intros c w' I' G' Hm. apply (classified_keeps planned); [done..|]. intros r w'' I'' G''. apply HQ; [done|].
    etransitivity; [done|]. by etransitivity. }
  apply safe_bind. destruct ex.
  - pose proof (classify_existing (retention spec) (on_existing spec)).
    destruct (classify_disk true _ _); [done|..]; (apply safe_ret; [done|]);
      [by apply (Hrest Reuse)|by apply (Hrest ReuseAndReclassify)|by apply (Hrest RejectExisting)].
  - cbn [classify_disk negb]. assert (Hno : w_files w3 !! p = None).
    { destruct (w_files w3 !! p) eqn:E; [|done]. assert (false = true) by (apply Hex; eauto). done. }
    apply safe_bind, create_vhdx_keeps; [done|done| |].
    + intros [[e|]|e|] w4 I4 G4 Hr; [|done| |]; [|by eauto using asked_trans..].
      apply safe_bind, safe_ask; [done|]. intros ex w' [-> _]. split; [done|].
      destruct ex; [|apply safe_throw; by eauto using asked_trans].
      apply safe_ret; [done|]. apply Hrest; [done..|]. by intros ?%classify_existing.
    + intros w4 I4 G4 Hm. apply safe_ret; [done|]. by apply (Hrest Create).
Qed.

(** *** The rest of a launch *)

Definition disk_at (w : World) (s : OsString) (id : Uuid) (index : nat) (d : DiskResource) : Prop :=
  exists r, rec_of w s id = Some r /\ disks r !! index = Some d.

Lemma record_created_known w s id index d o effective initialize i r :
  disk_at w s id index d -> rec_of w s id = Some r ->
  (o = CreatedByLaunch -> file_key (dr_path d) i ∈ w_created w) -> disks_known w r ->
  disks_known w (record_created index o effective initialize i r).
Proof.
  intros (r' & Hr' & Hd) Hr Ho K. rewrite Hr in Hr'. injection Hr' as <-.
  unfold disks_known, record_created. cbn. apply Forall_alter; [done|]. intros d' Hd'. rewrite Hd in Hd'. injection Hd' as <-.
  intros _ Eo i' [= <-]. cbn in Eo. by apply Ho.
Qed.

Lemma materialize_disk_keeps {B} s g id index spec d (k : ProvisioningGuard -> AttachedDisk -> host B) w Q :
  FI w -> guard_known w g -> disk_at w s id index d ->
  (forall r w', FI w' -> grown w w' -> Q r w') ->
  (forall g' a w', FI w' -> grown w w' -> guard_known w' g' -> safe windows FI (k g' a) Q w') ->
  safe windows FI (materialize_disk s g id index spec d k) Q w.
Proof.
  intros Iw Hg Hd HQ Hk. unfold materialize_disk. apply guarded_keeps; [done|]. apply open_disk_keeps; [done|].
  intros r w1 I1 [G1 Es] Ho. split; [done|]. assert (K1 : guard_known w1 g) by (by eapply files_known_grown).
  destruct r as [[[[[p o] effective] initialize] i]|e|]; [|done..]. cbv zeta.
  destruct (Ho p o effective initialize i eq_refl) as [-> Hmade].
  set (g1 := if initialize then _ else g).
  assert (Kg : guard_known w1 g1).
  { unfold g1. destruct initialize; [|done]. apply Forall_app. split; [done|]. constructor; [|done]. cbn. auto. }
  clearbody g1. assert (D1 : disk_at w1 s id index d).
  { destruct Hd as (r & Hr & Hi). exists r. by rewrite (rec_of_sessions w w1). }
  assert (HQ1 : forall r w', FI w' -> grown w1 w' -> Q r w') by (intros r w' ? ?; apply HQ; eauto using grown_trans).
  apply guarded_keeps; [done|]. apply update_keeps; [done| |].
  { intros r Hr. eapply record_created_known; [done..|]. auto. }
  intros r w2 I2 G2. split; [done|]. assert (K2 : guard_known w2 g1) by (by eapply files_known_grown).
  destruct r as [[]|e|]; [|done..].
  apply guarded_along; [done|done|by along|by eauto using grown_trans|]. intros [] w3 I3 G3 K3.
  apply guarded_along; [done|done| |by eauto 10 using grown_trans|].
  { apply update_preserves. eapply (preserves_alter _ _ index); [done|]. done. }
  intros [] w4 I4 G4 K4. apply Hk; [done| |done]. eauto 10 using grown_trans.
Qed.

Lemma planned_disk_keeps s id index w Q :
  FI w -> (forall e, Q (Err e) w) -> (forall d, disk_at w s id index d -> Q (Ok d) w) ->
  safe windows FI (provisioning_planned_disk s id index) Q w.
Proof.
  intros Iw HE HO. apply safe_bind, vm_keeps; [done|done|by split; [|apply HE]|]. intros r Hr _. cbn.
  split; [done|]. destruct (disks r !! index) as [d|] eqn:E; cbn; [|done]. apply HO. by exists r.
Qed.

Lemma materialize_disks_keeps {B} s id specs g index attached (k : ProvisioningGuard -> list AttachedDisk -> host B) w Q :
  FI w -> guard_known w g -> (forall r w', FI w' -> grown w w' -> Q r w') ->
  (forall g' a w', FI w' -> grown w w' -> guard_known w' g' -> safe windows FI (k g' a) Q w') ->
  safe windows FI (materialize_disks s g id index specs attached k) Q w.
Proof.
  intros Iw Hg HQ Hk. revert g index attached w Iw Hg HQ Hk.
  induction specs as [|spec specs IH]; intros g index attached w Iw Hg HQ Hk; cbn [materialize_disks].
  { apply Hk; [done|reflexivity|done]. }
  apply guarded_keeps; [done|]. apply planned_disk_keeps; [done|intros e; split; [reflexivity|done]|]. intros d Hd. split; [reflexivity|].
  apply materialize_disk_keeps; [done..|]. intros g1 a w1 I1 G1 K1.
  assert (HQ1 : forall r w', FI w' -> grown w1 w' -> Q r w') by (intros r w' ? ?; apply HQ; eauto using grown_trans).
  apply guarded_along; [done|done|along|done|]. intros _ w2 I2 G2 K2.
  apply guarded_along; [done|done|along|by eauto using grown_trans|]. intros _ w3 I3 G3 K3.
  apply IH; [done|done|by eauto 10 using grown_trans|]. eauto 10 using grown_trans.
Qed.

Definition unidentified (ds : list DiskResource) : Prop := Forall (fun d => file_identity d = None) ds.
Lemma plan_disks_keeps specs w Q :
  FI w -> (forall r w', FI w' -> grown w w' -> (forall ds, r = Ok ds -> unidentified ds) -> Q r w') ->
  safe windows FI (plan_disk_resources specs) Q w.
Proof.
  intros Iw HQ.
  assert (HE : forall r w', (forall ds, r <> Ok ds) -> FI w' -> grown w w' -> Q r w').
  { intros r w' Hr I' G'. apply HQ; [done..|]. intros ds E. by destruct (Hr ds). }
  apply (safe_hfold _ _ _ (fun _ ds w' => grown w w' /\ unidentified ds)); [done|split; [reflexivity|by constructor]| |].
  - intros [index spec] xs ds w1 I1 [G1 U1]. apply safe_bind. split; [done|].
    destruct (scsi_slot index) as [[c l]|e|]; [|by apply HE..].
    apply safe_bind, (safe_along windows False FI asked); [along|done|].
    intros [p|e|] w2 I2 [G2 _] _; [|by apply HE; [|done|by etransitivity]..]. apply safe_ret; [done|].
    split; [by etransitivity|]. apply Forall_app. split; [done|]. by constructor.
  - intros ds w1 I1 [G1 U1]. apply HQ; [done..|]. by intros ds' [= <-].
Qed.

Lemma put_vm_keeps s id nid ds w Q :
  FI w -> unidentified ds -> (forall r w', FI w' -> grown w w' -> Q r w') ->
  safe windows FI (put_vm s (planned_record id nid ds)) Q w.
Proof.
  intros Iw U HQ. destruct (serde_round_trip (planned_record id nid ds)) as (b & E1 & E2).
  apply (safe_res _ _ tt); [done|]. apply (safe_res _ _ b); [unfold encode; by rewrite E1|].
  apply write_keeps; [done| |done]. intros db _ Hk. cbn. unfold vm_records at 1. cbn.
  intros k1 b1 r1 [[= -> ->]|Hin]%bt_insert_subset Hr1; [|by eapply Hk].
  rewrite E2 in Hr1. injection Hr1 as <-. eapply Forall_impl; [exact U|]. intros d Hd _ i. by rewrite Hd.
Qed.

Lemma rollback_keeps a b c d : keeps (rollback_network_creation a b c d).
Proof. unfold rollback_network_creation, delete_endpoint, delete_network. along. Qed.
#[local] Hint Resolve rollback_keeps : along.
Lemma create_network_keeps s id nid :
  keeps (create_network_and_endpoint_with_callbacks id nid
    (fun x => update_vm s id (record_network_id x)) (fun x => update_vm s id (record_endpoint_id x))).
Proof.
  unfold create_network_and_endpoint_with_callbacks, create_endpoint, roll_back_and, parse_endpoint_id_from_props. along.
Qed.
Lemma create_machine_keeps s id : keeps (create_machine s id).
Proof. unfold create_machine, create_compute_system. along. Qed.

Lemma launch_network_keeps s id nid k w Q :
  FI w -> (forall r w', FI w' -> grown w w' -> Q r w') ->
  (forall g w', FI w' -> grown w w' -> guard_known w' g -> safe windows FI (k g) Q w') ->
  safe windows FI (launch_network s id nid k) Q w.
Proof.
  intros Iw HQ Hk. unfold launch_network. cbv zeta. 
  assert (K0 : forall w n, guard_known w {| pg_network := n; unjournaled_disks := [] |}) by (intros; constructor).
  destruct nid as [nid|]; [|by apply Hk; [|reflexivity|]].
  apply guarded_along; [done|done|apply create_network_keeps|done|]. intros st w1 I1 G1 _. cbv zeta.
  apply guarded_along; [done|done|along|by eauto using grown_trans|]. intros _ w2 I2 G2 K2.
  apply Hk; [done| |done]. by etransitivity.
Qed.

Lemma from_conf_keeps s id nid specs : keeps (from_conf s id nid specs).
Proof.
  intros w Iw. unfold from_conf.
  apply safe_bind, (safe_along windows False FI grown); [along|done|]. intros [[]|e|] w1 I1 G1 _; [|done..].
  apply safe_bind, (safe_along windows False FI grown); [along|done|]. intros [[]|e|] w2 I2 G2 _; [|by split; [|etransitivity]..].
  apply safe_bind, plan_disks_keeps; [done|]. intros r w3 I3 G3 U3.
  assert (G03 : grown w w3) by eauto using grown_trans. destruct r as [ds|e|]; [|done..].
  apply safe_bind, put_vm_keeps; [done|by apply U3|]. intros r w4 I4 G4.
  assert (G04 : grown w w4) by eauto using grown_trans. destruct r as [[]|e|]; [|done..].
  set (Q := fun (r : res Report Vm) w' => (False -> r <> Panic) /\ grown w w').
  assert (HQ : forall r w', FI w' -> grown w4 w' -> Q r w') by (intros r w' I' G'; split; eauto using grown_trans).
  apply launch_network_keeps; [done|done|]. intros g w5 I5 G5 K5.
  apply guarded_along; [done|done|destruct specs; along|by eauto using grown_trans|]. intros _ w6 I6 G6 K6.
  apply materialize_disks_keeps; [done|done|by eauto 10 using grown_trans|]. intros g7 at7 w7 I7 G7 K7.
  apply guarded_along; [done|done|apply create_machine_keeps|by eauto 10 using grown_trans|]. intros sys w8 I8 G8 K8.
  apply safe_ret; [done|]. apply HQ; eauto 10 using grown_trans.
Qed.
#[local] Hint Resolve from_conf_keeps : along.

(** *** Everything else *)

Lemma publish_keeps s id : keeps (update_vm s id publish).
Proof. apply update_preserves. eapply preserves_map; [done|]. done. Qed.
Lemma starting_keeps s id : keeps (update_vm s id to_starting).
Proof. apply update_preserves, preserves_same. intros r. unfold to_starting. by case_bool_decide. Qed.
Lemma initialize_keeps s : keeps (write s initialize_database).
Proof. apply write_rows_along. intros db. unfold initialize_database. destruct (SCHEMA db); [destruct (negb _)|]; done. Qed.
Lemma put_session_keeps s b : keeps (write s (put_session_row b)).
Proof. by apply write_rows_along. Qed.
#[local] Hint Resolve publish_keeps starting_keeps initialize_keeps put_session_keeps : along.

Lemma program_keeps a st : keeps (program a st).
Proof.
  unfold program, start, mark_published, close, drop_vm, Session_open, reconcile_stale_sessions, recover_session,
    try_open_existing, recover_record, create_current, all_vms, has_abandoned. along.
Qed.
End Foreign.

(** ** Every history *)

Lemma kept_refl w : kept w w.
Proof. by intros p i. Qed.

Lemma action_files a st o w' :
  journal_known (world st) -> exec windows (program a st) (world st) o w' -> FI (world st) w'.
Proof.
  intros J X. assert (I0 : FI (world st) (world st)) by (split; [done|apply kept_refl]).
  by destruct (safe_exec _ _ _ _ _ _ _ (program_keeps (world st) a st (world st) I0) X).
Qed.

Lemma step_known st st' : journal_known (world st) -> step windows st st' -> journal_known (world st').
Proof.
  intros J Hst. destruct Hst as [a st r w' _ X|a st w' _ X|st w' [Hs Ec]].
  - by apply action_files in X as [? _].
  - by apply action_files in X as [? _].
  - eapply journal_known_same; [apply Hs|by apply grown_same|done].
Qed.
Lemma reachable_known st : reachable windows st -> journal_known (world st).
Proof.
  intros (w & (Es & _) & Hst). remember {| world := w; live := [] |} as st0 eqn:E0.
  assert (J0 : journal_known (world st0)).
  { subst. intros s db k b r Hs. cbn in Hs. by rewrite Es, lookup_empty in Hs. }
  clear E0. induction Hst as [st|st st1 st2 H1 H2 IH]; [done|]. apply IH. by eapply step_known.
Qed.

(** C10: Files that are not this program's survive everything it does.  In any
    history, on any host (failing calls, misleading reports, failed
    transactions), no action - opening a session and recovering stale ones,
    launching, starting, publishing, closing, dropping - deletes a file, by
    path and identity, that [New-VHD] did not create for this program, whether
    the action completes or dies half-way. *)
Theorem foreign_files_survive st a o w' p i :
  reachable windows st -> exec windows (program a st) (world st) o w' ->
  w_files (world st) !! p = Some i -> file_key p i ∉ w_created (world st) ->
  w_files w' !! p = Some i.
Proof.
  intros J%reachable_known X Hp Hi. apply action_files in X as [_ K]; [|done]. by apply K.
Qed.
End Files.
