(* ===== verification/HcsBounded.v ===== *)
(** * Cleanup is bounded

    With a journal that works (no failed transactions) and any host: what one
    cleanup pass does to the record and the inventory, and that recovery gives
    up on a record after three failing passes, with everything that is left in
    the inventory. *)

From Stdlib Require Import ZArith Lia.
From stdpp Require Import base tactics option list numbers strings countable gmap fin_maps fin_sets.
From S2P Require Import Prelude Bytes Text BTree Guid HcsJournal HcsHost HcsText Hns HnsSafe HcsCleanup HcsInv HcsSafe HcsSystem.

Section Bounded.
Context `{UuidLaws} `{!Serde SessionRecord, !Serde VmResourceRecord, !Serde AbandonedRecord}.
Context `{!SerdeLaws SessionRecord, !SerdeLaws VmResourceRecord, !SerdeLaws AbandonedRecord}.

(** The journal works; the host may do anything Windows may do. *)
Definition reliable : Env := {| env_call := windows_call; env_faults := False |}.

Section Record.
Context (s : OsString) (id : Uuid).
Let key := uuid_to_string id.

(** The database has record [o] of the machine and inventory [inv]. *)
Record stores (o : option VmResourceRecord) (inv : option AbandonedRecord) (db : Database) : Prop := {
  st_tables : is_Some (VM_RECORDS db);
  st_wf : bt_wf (vm_records db);
  st_wf_inv : bt_wf (abandoned_rows db);
  st_record : match bt_get key (vm_records db) with
              | Some b => from_slice b = o /\ exists r, o = Some r /\ vr_schema_version r = SCHEMA_VERSION
              | None => o = None
              end;
  st_inventory : match bt_get key (abandoned_rows db) with
                 | Some b => from_slice b = inv /\ exists a, inv = Some a /\ ar_schema_version a = SCHEMA_VERSION
                 | None => inv = None
                 end }.
Definition journal_is (o : option VmResourceRecord) (inv : option AbandonedRecord) (w : World) : Prop :=
  exists db, w_sessions w !! s = Some db /\ stores o inv db.

Abbreviation runs p Q w := (safe reliable (fun _ => True) p Q w).

Lemma runs_write {B} (op : write_op B) b db db' w Q :
  w_sessions w !! s = Some db -> op db = Ok (b, db') -> Q (Ok b) (put_db s db' w) -> runs (write s op) Q w.
Proof.
  intros Hdb E HQ. apply safe_write; [done|]. intros r w' Hw. unfold write_step in Hw. rewrite Hdb, E in Hw.
  destruct Hw as [[-> ->]|[[] _]]. done.
Qed.
Lemma runs_read {B} (op : read_op B) b db w Q :
  w_sessions w !! s = Some db -> op db = Ok b -> Q (Ok b) w -> runs (read s op) Q w.
Proof.
  intros Hdb E HQ. apply safe_read; [done|]. intros r Hr. unfold read_step in Hr. rewrite Hdb, E in Hr.
  destruct Hr as [-> |[[] _]]. done.
Qed.
Lemma put_db_is o inv db w : stores o inv db -> journal_is o inv (put_db s db w).
Proof. intros Hs. exists db. split; [|done]. cbn. by rewrite lookup_insert_eq. Qed.

Lemma stores_record o inv db r b :
  stores o inv db -> from_slice b = Some r -> vr_schema_version r = SCHEMA_VERSION ->
  stores (Some r) inv (set_vm_records (bt_insert key b (vm_records db)) db).
Proof.
  intros [T W1 W2 Hr Hi] Hb Hs. split; [done|by apply bt_wf_insert|done| |done].
  unfold vm_records at 1. cbn. rewrite bt_get_insert, decide_True by done. eauto.
Qed.

Lemma journal_schema r inv w : journal_is (Some r) inv w -> vr_schema_version r = SCHEMA_VERSION.
Proof.
  intros (db & _ & [_ _ _ Hr _]). destruct (bt_get key (vm_records db)); [|done]. by destruct Hr as (_ & r' & [= <-] & ?).
Qed.

Lemma runs_update f r inv w Q :
  journal_is (Some r) inv w -> vr_schema_version (f r) = SCHEMA_VERSION ->
  (forall w', journal_is (Some (f r)) inv w' -> Q (Ok tt) w') -> runs (update_vm s id f) Q w.
Proof.
  intros (db & Hdb & S) Hf HQ. pose proof S as [T W1 W2 Hr Hi].
  destruct (serde_round_trip (f r)) as (b' & E1 & E2).
  eapply runs_write; [done| |apply HQ, put_db_is, (stores_record _ _ _ _ b' S E2 Hf)].
  unfold update_vm_row. fold key. destruct (bt_get key (vm_records db)) as [b|]; [|done]. destruct Hr as [Hb (r' & [= <-] & Hs)].
  cbn. unfold decode_vm, decode. rewrite Hb. cbn. rewrite Hs. cbn. unfold encode. by rewrite E1.
Qed.
Lemma runs_vm o inv w Q : journal_is o inv w -> Q (Ok o) w -> runs (vm s id) Q w.
Proof.
  intros (db & Hdb & [[t T] W1 W2 Hr Hi]) HQ. eapply runs_read; [done| |done].
  unfold vm_row. rewrite T. cbn. unfold vm_records in Hr. rewrite T in Hr. cbn in Hr. fold key.
  destruct (bt_get key t) as [b|]; [|by subst]. destruct Hr as [Hb (r & -> & Hs)].
  unfold decode_vm, decode. rewrite Hb. cbn. by rewrite Hs.
Qed.
Lemma runs_abandoned o inv w Q : journal_is o inv w -> Q (Ok inv) w -> runs (abandoned s id) Q w.
Proof.
  intros (db & Hdb & [T W1 W2 Hr Hi]) HQ. eapply runs_read; [done| |done].
  unfold abandoned_row. fold key. unfold abandoned_rows in Hi. destruct (ABANDONED db) as [t|]; [|by cbn in Hi; subst].
  cbn in Hi. destruct (bt_get key t) as [b|]; [|by subst]. destruct Hi as [Hb (a & -> & Hs)].
  unfold decode. rewrite Hb. cbn. by rewrite Hs.
Qed.
Lemma runs_remove_vm o inv w Q :
  journal_is o inv w -> (forall w', journal_is None inv w' -> Q (Ok tt) w') -> runs (remove_vm s id) Q w.
Proof.
  intros (db & Hdb & [T W1 W2 Hr Hi]) HQ. eapply runs_write; [done|done|]. apply HQ, put_db_is.
  split; [done|by apply bt_wf_remove|done| |done]. unfold vm_records at 1. cbn. fold key.
  by rewrite bt_get_remove, decide_True.
Qed.
Lemma runs_remove_abandoned o inv w Q :
  journal_is o inv w -> (forall w', journal_is o None w' -> Q (Ok tt) w') -> runs (remove_abandoned s id) Q w.
Proof.
  intros (db & Hdb & [T W1 W2 Hr Hi]) HQ. eapply runs_write; [done|done|]. apply HQ, put_db_is.
  split; [done|done|by apply bt_wf_remove|done|]. unfold abandoned_rows at 1. cbn. fold key.
  by rewrite bt_get_remove, decide_True.
Qed.
Lemma runs_put_abandoned o inv es w Q :
  journal_is o inv w ->
  (forall w', journal_is o (Some {| ar_schema_version := SCHEMA_VERSION; ar_vm_id := id;
      entries := merge_entries (match inv with Some p => entries p | None => [] end) es |}) w' -> Q (Ok tt) w') ->
  runs (put_abandoned s {| ar_schema_version := SCHEMA_VERSION; ar_vm_id := id; entries := es |}) Q w.
Proof.
  intros J HQ. unfold put_abandoned. cbn [ar_schema_version ar_vm_id entries].
  apply (safe_res _ _ tt); [done|]. apply safe_bind, (runs_abandoned _ _ _ _ J). cbv zeta.
  set (a := {| ar_schema_version := SCHEMA_VERSION; ar_vm_id := id; entries := _ |}) in *.
  destruct (serde_round_trip a) as (b & E1 & E2). apply (safe_res _ _ b); [unfold encode; by rewrite E1|].
  destruct J as (db & Hdb & [T W1 W2 Hr Hi]). eapply runs_write; [done|done|]. apply HQ, put_db_is.
  split; [done|done|by apply bt_wf_insert|done|]. unfold abandoned_rows at 1. cbn -[a].
  fold key. rewrite bt_get_insert, decide_True by done. eauto.
Qed.

(** Asking the host leaves the journal alone. *)
Definition same_sessions (w w' : World) : Prop := w_sessions w' = w_sessions w.
#[local] Instance same_sessions_preorder : PreOrder same_sessions.
Proof. split; unfold same_sessions; [by intros w|congruence]. Qed.
Lemma journal_is_same o inv w w' : same_sessions w w' -> journal_is o inv w -> journal_is o inv w'.
Proof. intros E (db & ? & ?). exists db. unfold same_sessions in E. by rewrite E. Qed.
Lemma runs_asks {A} (p : host A) o inv w Q :
  only True False (fun c => removing c = true) p ->
  journal_is o inv w -> (forall r w', r <> Panic -> journal_is o inv w' -> Q r w') -> runs p Q w.
Proof.
  intros Hp J HQ. apply (safe_along reliable True (fun _ => True) same_sessions); [|done|].
  - eapply only_along; [exact _|done| |exact Hp]. intros c w1 a w2 Hc _ Hw. split; [done|].
    destruct (shrinking c) eqn:E; [by apply (shrinking_call _ _ _ _ E Hw)|]. by destruct c.
  - intros r w' _ E Hn. apply HQ; [by apply Hn|]. by eapply journal_is_same.
Qed.
Lemma runs_asks_gently {A} (p : host A) o inv w Q :
  asks_gently p -> journal_is o inv w -> (forall r w', r <> Panic -> journal_is o inv w' -> Q r w') -> runs p Q w.
Proof. intros Hp. apply runs_asks. eapply only_mono; [done|done| |exact Hp]. by intros []. Qed.

(** ** One pass *)

Section Pass.
Context (m : mode) (c : CleanupResources) (r0 : VmResourceRecord) (inv : option AbandonedRecord).
Definition attempts : Z := saturating_add 32 (cleanup_attempts r0) 1.

(** The record during the pass, with the failures so far. *)
Record passing (fs : list CleanupFailure) (r : VmResourceRecord) : Prop := {
  pass_schema : vr_schema_version r = SCHEMA_VERSION;
  pass_id : vr_vm_id r = vr_vm_id r0;
  pass_phase : phase r = PhaseCleanupPending;
  pass_attempts : cleanup_attempts r = attempts;
  pass_error : fs <> [] -> is_Some (last_error r) }.
(** The transitions of a pass touch resource states only. *)
Definition transition (T : ResourceState -> VmResourceRecord -> VmResourceRecord) : Prop :=
  forall st r, vr_schema_version (T st r) = vr_schema_version r /\ vr_vm_id (T st r) = vr_vm_id r /\ phase (T st r) = phase r
    /\ cleanup_attempts (T st r) = cleanup_attempts r /\ last_error (T st r) = last_error r.

Lemma runs_outcome result k op i T fs r w Q :
  transition T -> result <> Panic -> passing fs r -> journal_is (Some r) inv w ->
  (forall fs' r' w', passing fs' r' -> journal_is (Some r') inv w' -> Q (Ok fs') w') ->
  runs (apply_resource_outcome s id result k op i T fs) Q w.
Proof.
  intros HT Hn [P1 P2 P3 P4 P5] J HQ.
  assert (Hrem : runs (_ ← update_vm s id (T Removed); mret fs) Q w).
  { destruct (HT Removed r) as (E1 & E2 & E3 & E4 & E5). apply safe_bind, (runs_update _ r inv); [done|by rewrite E1|].
    intros w' J'. apply safe_ret; [done|]. eapply HQ; [|done]. split; congruence || by rewrite E5. }
  destruct result as [[]|e|]; cbn [apply_resource_outcome]; [done| |done].
  destruct (resource_is_absent e); [done|]. cbv zeta. destruct (HT RemovalFailed r) as (E1 & E2 & E3 & E4 & E5).
  apply safe_bind, (runs_update _ r inv); [done|by cbn; rewrite E1|].
  intros w' J'. apply safe_ret; [done|]. eapply HQ; [|done]. split; cbn; try congruence. eauto.
Qed.

Lemma runs_clean_compute r fs w Q :
  passing fs r -> journal_is (Some r) inv w ->
  (forall fs' r' w', passing fs' r' -> journal_is (Some r') inv w' -> Q (Ok fs') w') ->
  forall rec, runs (clean_compute (production m) m s id rec c fs) Q w.
Proof.
  intros P J HQ rec. unfold clean_compute. case_bool_decide; [apply safe_ret; eauto|].
  apply safe_bind, safe_attempt, (runs_asks_gently _ (Some r) inv); [|done|].
  { destruct (cl_system c); [apply remove_system_only|apply remove_by_id_only]. }
  intros result w' Hn J'. assert (Hrun := runs_outcome result (str "compute_system") (str "remove")
    (cr_id (compute_system rec)) compute_to fs r w' Q ltac:(done) Hn P J' HQ). by destruct result.
Qed.
Lemma runs_clean_network r fs w Q :
  passing fs r -> journal_is (Some r) inv w ->
  (forall fs' r' w', passing fs' r' -> journal_is (Some r') inv w' -> Q (Ok fs') w') ->
  forall rec, runs (clean_network (production m) s id rec c fs) Q w.
Proof.
  intros P J HQ rec. unfold clean_network. destruct (network rec) as [n|]; [|apply safe_ret; eauto].
  case_bool_decide; [apply safe_ret; eauto|].
  apply safe_bind, safe_attempt, (runs_asks_gently _ (Some r) inv); [|done|].
  { destruct (cl_network c); [apply close_and_delete_only|apply delete_exact_only]. }
  intros result w' Hn J'. assert (Hrun := runs_outcome result (str "network") (str "delete")
    (network_identity n) network_to fs r w' Q ltac:(done) Hn P J' HQ). by destruct result.
Qed.
Lemma runs_clean_disk r fs w Q x :
  passing fs r -> journal_is (Some r) inv w ->
  (forall fs' r' w', passing fs' r' -> journal_is (Some r') inv w' -> Q (Ok fs') w') ->
  runs (clean_disk (production m) s id fs x) Q w.
Proof.
  intros P J HQ. destruct x as [index d]. unfold clean_disk. case_bool_decide; [apply safe_ret; eauto|].
  apply safe_bind, safe_attempt, (runs_asks _ (Some r) inv); [apply remove_disk_only|done|].
  intros result w' Hn J'. assert (Hrun := runs_outcome result (str "disk") (str "remove")
    (to_string_lossy (dr_path d)) (disk_to index) fs r w' Q ltac:(done) Hn P J' HQ). by destruct result.
Qed.

(** ** Giving up *)

Lemma resources_abandoned es r k i st :
  (k, i, st) ∈ resources_of (abandon_record es r) -> exists st0, (k, i, st0) ∈ resources_of r /\ st = abandon st0.
Proof.
  unfold resources_of. cbn. rewrite !elem_of_cons, !elem_of_app. intros [[= -> -> ->]|[Hn|Hd]].
  - eexists. split; [by left|done].
  - destruct (network r) as [n|]; [|by apply not_elem_of_nil in Hn]. cbn in Hn.
    apply list_elem_of_singleton in Hn as [= -> -> ->]. eexists. split; [|done]. right. by left.
  - apply list_elem_of_fmap in Hd as (d & [= -> -> ->] & Hd). apply list_elem_of_fmap in Hd as (d0 & -> & Hd).
    eexists. split; [|done]. rewrite elem_of_cons, elem_of_app. right. right. apply list_elem_of_fmap. by exists d0.
Qed.
Lemma abandon_terminal st : terminal (abandon st) = true.
Proof. by destruct st. Qed.
Lemma abandoned_complete es r : is_complete (abandon_record es r) = true.
Proof.
  unfold is_complete. cbn. rewrite orb_true_iff, !andb_true_iff. right. split; [split|].
  - apply abandon_terminal.
  - destruct (network r); cbn; [apply abandon_terminal|done].
  - apply forallb_forall. intros d Hd. apply in_map_iff in Hd as (d0 & <- & _). apply abandon_terminal.
Qed.

Definition old_entries : list AbandonedResourceEntry := match inv with Some a => entries a | None => [] end.

(** Every resource of the record is removed or in the inventory. *)
Definition given_up (r : VmResourceRecord) (a : AbandonedRecord) : Prop :=
  is_complete r = true
  /\ (forall k i st, (k, i, st) ∈ resources_of r -> st = Removed \/ (st = Abandoned /\ has (entries a) k i))
  /\ (forall k i, has old_entries k i -> has (entries a) k i).

Lemma runs_abandon_remaining fs r w Q :
  passing fs r -> journal_is (Some r) inv w ->
  (forall r' a w', given_up r' a -> cleanup_attempts r' = attempts -> vr_vm_id r' = vr_vm_id r0 ->
     journal_is (Some r') (Some a) w' -> Q (Ok tt) w') ->
  runs (abandon_remaining s id r fs) Q w.
Proof.
  intros P J HQ. unfold abandon_remaining.
  apply safe_bind, safe_ask; [done|]. intros now w' Hw. cbn in Hw. subst w'. split; [done|].
  apply safe_bind, (runs_abandoned _ _ _ _ J). cbv zeta. fold old_entries.
  pose proof (has_consider now fs (resources_of r) old_entries []) as Hes.
  destruct (foldl (consider now fs) (old_entries, []) (resources_of r)) as [es abandoned_now]. cbn [fst] in Hes.
  apply safe_bind, (runs_put_abandoned _ _ _ _ _ J). fold old_entries. intros w1 J1.
  apply (runs_update _ _ _ _ _ J1); [by apply P|]. intros w2 J2. eapply HQ; [| | |exact J2]; [|by apply P..].
  cbn -[abandon_record is_complete resources_of]. unfold given_up. cbn [entries].
  split; [apply abandoned_complete|]. split.
  - intros k i st (st0 & Hin & ->)%resources_abandoned. unfold abandon. case_bool_decide as Hst; [by left|right].
    split; [done|]. apply has_merge_entries. right. apply Hes. eauto.
  - intros k i Hk. apply has_merge_entries. by left.
Qed.

(** ** The whole pass *)

(** The three ways a pass ends. *)
Definition pass_result (res : res Report unit) (w : World) : Prop :=
  (res = Ok tt /\ journal_is None None w)
  \/ (res = Ok tt /\ MAX_CLEANUP_ATTEMPTS <= attempts
      /\ exists r a, journal_is (Some r) (Some a) w /\ vr_vm_id r = vr_vm_id r0 /\ cleanup_attempts r = attempts /\ given_up r a)
  \/ (exists e r, res = Err e /\ attempts < MAX_CLEANUP_ATTEMPTS /\ journal_is (Some r) inv w /\ vr_vm_id r = vr_vm_id r0
      /\ cleanup_attempts r = attempts /\ phase r = PhaseCleanupPending /\ is_Some (last_error r)).

Lemma runs_finish_cleanup fs r w Q :
  passing fs r -> journal_is (Some r) inv w -> (forall res w', pass_result res w' -> Q res w') ->
  runs (finish_cleanup s id fs) Q w.
Proof.
  intros P J HQ. destruct fs as [|f fs]; cbn [finish_cleanup].
  - apply safe_bind, (runs_update _ _ _ _ _ J); [by apply P|]. intros w1 J1.
    apply safe_bind, (runs_remove_vm _ _ _ _ J1). intros w2 J2.
    apply (runs_remove_abandoned _ _ _ _ J2). intros w3 J3. apply HQ. by left.
  - apply safe_bind, (runs_vm _ _ _ _ J), (safe_res _ _ r); [done|].
    destruct (MAX_CLEANUP_ATTEMPTS <=? cleanup_attempts r) eqn:E; rewrite (pass_attempts _ _ P) in E.
    + eapply runs_abandon_remaining; [done..|]. intros r' a w' G Ha Hi J'. apply HQ. right. left.
      split; [done|]. split; [lia|]. eauto 10.
    + apply safe_throw; [done|]. apply HQ. right. right. eexists _, r. split; [done|]. split; [lia|].
      destruct P as [P1 P2 P3 P4 P5]. by eauto 10.
Qed.

Lemma runs_cleanup w Q :
  journal_is (Some r0) inv w ->
  (forall res w', pass_result res w' -> Q res w') -> runs (cleanup_record m s id c) Q w.
Proof.
  intros J HQ. pose proof (journal_schema _ _ _ J) as Hs. unfold cleanup_record, cleanup_record_with.
  apply safe_bind, (runs_update _ _ _ _ _ J); [done|]. intros w1 J1.
  assert (P1 : passing [] (begin_cleanup r0)) by (by split).
  apply safe_bind, (runs_vm _ _ _ _ J1), (safe_res _ _ (begin_cleanup r0)); [done|].
  apply safe_bind, (runs_clean_compute _ _ _ _ P1 J1). intros fs2 r2 w2 P2 J2.
  apply safe_bind, (runs_clean_network _ _ _ _ P2 J2). intros fs3 r3 w3 P3 J3.
  apply safe_bind, (safe_hfold _ _ _ (fun _ fs w => exists r, passing fs r /\ journal_is (Some r) inv w)); [done|eauto| |].
  - intros x xs fs w4 _ (r4 & P4 & J4). apply (runs_clean_disk _ _ _ _ _ P4 J4). eauto.
  - intros fs w4 _ (r4 & P4 & J4). by eapply runs_finish_cleanup.
Qed.
End Pass.

(** ** Recovery *)

(** What each opened session does for the record of a stale one. *)
Fixpoint recoveries (n : nat) : host unit :=
  match n with
  | O => mret tt
  | S n =>
    o ← vm s id;
    _ ← match o with Some r => recover_record s r | None => mret tt end;
    recoveries n
  end.

Lemma runs_recover_record r inv w Q :
  vr_vm_id r = id -> journal_is (Some r) inv w ->
  (forall w' inv', is_complete r = true -> journal_is None inv' w' -> Q (Ok tt) w') ->
  (forall res w', is_complete r = false -> pass_result r inv res w' -> Q (Ok tt) w') ->
  runs (recover_record s r) Q w.
Proof.
  intros Hid J HC HP. unfold recover_record. rewrite Hid. destruct (is_complete r).
  - apply (runs_remove_vm _ _ _ _ J). eauto.
  - apply safe_bind, safe_attempt. eapply runs_cleanup; [done|]. intros res w' Hr.
    assert (res <> Panic) by (destruct Hr as [[-> _]|[[-> _]|(e & ? & -> & _)]]; done).
    destruct res as [[]|e|]; [apply safe_ret; eauto..|done].
Qed.

(** Enough sessions to be done with the record. *)
Definition enough (n : nat) (o : option VmResourceRecord) : Prop :=
  match o with
  | None => True
  | Some r => vr_vm_id r = id /\ 0 <= cleanup_attempts r
      /\ if is_complete r then (1 <= n)%nat
         else 2 <= Z.of_nat n /\ MAX_CLEANUP_ATTEMPTS + 1 <= cleanup_attempts r + Z.of_nat n
  end.

Lemma runs_recoveries n o inv w Q :
  enough n o -> journal_is o inv w -> (forall w' inv', journal_is None inv' w' -> Q (Ok tt) w') ->
  runs (recoveries n) Q w.
Proof.
  revert o inv w. induction n as [|n IH]; intros o inv w Hn J HQ; cbn [recoveries].
  { apply safe_ret; [done|]. destruct o as [r|]; [|eauto]. destruct Hn as (_ & _ & Hn). destruct (is_complete r); lia. }
  apply safe_bind, (runs_vm _ _ _ _ J). destruct o as [r|]; [|apply (safe_res _ _ tt); [done|]; by eapply (IH None inv)].
  destruct Hn as (Hid & Ha & Hn). apply safe_bind, (runs_recover_record r inv); [done..| |].
  - intros w' inv' _ J'. by eapply (IH None).
  - intros res w' Hc Hr. rewrite Hc in Hn.
    assert (Hmax : MAX_CLEANUP_ATTEMPTS = 3) by done. rewrite Hmax in Hn.
    destruct Hr as [[_ J']|[(_ & Hge & r' & a & J' & Hid' & Ha' & G)|(e & r' & _ & Hlt & J' & Hid' & Ha' & _)]].
    + by eapply (IH None).
    + eapply (IH (Some r')); [|done..]. split; [congruence|]. destruct G as [-> _]. lia.
    + eapply (IH (Some r')); [|done..]. split; [congruence|]. unfold attempts, saturating_add in *.
      rewrite Hmax in *. destruct (is_complete r'); lia.
Qed.
End Record.

(** A host that refuses everything: an answer Windows may always give. *)
Definition no_guid : Guid := {| data1 := 0; data2 := 0; data3 := 0; data4 := [] |}.
Definition refused : hcn := {| hres := -1; diag := [] |}.
Definition op_refused : op_outcome :=
  {| op_created := false; op_immediate := 0; op_completed := false; op_hr := 0; op_doc := None |}.
Definition refuse (c : call) (w : World) : answer c :=
  match c return answer c with
  | HcsOpenComputeSystem _ => (-1, false)
  | HcsTerminateComputeSystem _ => op_refused
  | HcsCreateComputeSystem _ => (op_refused, false)
  | HcsStartComputeSystem _ => Some (Report_new ComputeSystemStart)
  | HcnCreateNetwork _ _ => (refused, false)
  | HcnCreateEndpoint _ _ => (refused, None, no_guid)
  | HcnQueryEndpointProperties _ | HcnQueryNetworkProperties _ => (refused, Blank)
  | HcnCloseEndpoint _ | HcnCloseNetwork _ => -1
  | HcnDeleteEndpoint _ | HcnDeleteNetwork _ => refused
  | HcnEnumerateNetworks _ | HcnEnumerateEndpoints _ => (refused, Blank)
  | HcnOpenNetwork _ | HcnOpenEndpoint _ => (refused, false)
  | PathExists p => bool_decide (is_Some (w_files w !! p))
  | GetFileIdentity _ => inl []
  | RemoveFile _ => FileKept []
  | NewVhd _ _ | GetVhd _ | CreateParent _ => Some []
  | GrantAccess _ _ | RevokeAccess _ _ | ValidateSid _ | LockPath _ | ReparsePoints _ => Some (Report_new Cleanup)
  | Parent _ => NoParent
  | NormalizeAbsolutePath _ => Err (Report_new DiskInvalidPath)
  | UnixTimeMs => 0
  | SessionPaths => Err journal_report
  | OpenDatabase _ => OpenFailed
  | CreateDatabase _ | RemoveDatabase _ => Some journal_report
  | Prepare _ => Some (Report_new Cleanup)
  end.
Lemma refuse_windows c w : windows_call c w (refuse c w) w.
Proof.
  destruct c; cbn; try done; try (by split; [|intros ?]); try (by left); try (by eauto).
  all: try (split; [by eauto|]); try (by intros [?|?]); try (by intros p name).
  all: try (split; [by intros ?|by intros ?]).
  by rewrite bool_decide_eq_true.
Qed.
Lemma reliable_total c w : exists a w', env_call reliable c w a w'.
Proof. eexists _, _. apply refuse_windows. Qed.


(** C12: Recovery of a record terminates and is bounded.  If the journal works,
    whatever the host does, four recoveries of a stale record (each opened
    session makes one) run to their end, and then the record is gone: after at
    most three failing cleanup passes what is left has been moved to the
    inventory. *)
Theorem recovery_bounded s id r inv w :
  journal_is s id (Some r) inv w -> vr_vm_id r = id -> 0 <= cleanup_attempts r ->
  (exists res w', exec reliable (recoveries s id 4) w (Some res) w')
  /\ forall res w', exec reliable (recoveries s id 4) w (Some res) w' ->
     res = Ok tt /\ exists inv', journal_is s id None inv' w'.
Proof.
  intros J Hid Ha. split; [apply host_exec_total, reliable_total|]. intros res w' X.
  assert (HS : safe reliable (fun _ => True) (recoveries s id 4)
    (fun res w' => res = Ok tt /\ exists inv', journal_is s id None inv' w') w).
  { eapply runs_recoveries; [|done|by eauto]. split; [done|]. split; [done|].
    unfold MAX_CLEANUP_ATTEMPTS. destruct (is_complete r); lia. }
  destruct (safe_exec _ _ _ _ _ _ _ HS X) as [_ HR]. by apply HR.
Qed.
End Bounded.
