(* ===== verification/HcsExample.v ===== *)
(** * A concrete host, and witnesses

    Concrete instances of the third-party interfaces (UUIDs as typed GUIDs, a
    [serde] that writes a prefix code), and an executable host that grants
    every request Windows may grant.  On them the launch, crash and recovery
    programs run, which shows that the hypotheses of the theorems about
    [HcsSystem], [HcsFiles] and [HcsBounded] can hold; and two runs on a host
    with misleading reports, which the honest-host theorems exclude. *)

From Stdlib Require Import ZArith Lia.
From stdpp Require Import base tactics option list numbers strings countable gmap fin_maps fin_sets relations.
From S2P Require Import Prelude Bytes Text BTree Guid HcsJournal HcsHost HcsText Hns HnsSafe HcsCleanup HcsLaunch HcsInv HcsSafe HcsSystem HcsFiles HcsBounded.

(** ** UUIDs *)

#[local] Instance typed_guid_dec g : Decision (typed_guid g).
Proof. unfold typed_guid, is_u32, is_u16, is_u8, in_u. apply _. Defined.

#[local] Instance guid_uuids : UuidText := {|
  Uuid := dsig typed_guid;
  as_fields := proj1_sig;
  uuid_to_string u := format_endpoint_id_string (proj1_sig u) |}.
#[local] Instance guid_uuid_laws : UuidLaws.
Proof.
  split.
  - intros u. apply (proj2_dsig u).
  - intros u v E. by apply dsig_eq.
  - done.
Qed.
#[local] Instance uuid_eq_dec : EqDecision Uuid.
Proof. cbn. apply _. Defined.
#[local] Instance uuid_countable : Countable Uuid.
Proof. cbn. apply _. Defined.

(** ** [serde_json] *)

Fixpoint prefix_code (p : positive) : bytes :=
  match p with xH => [] | xO p => Byte.x30 :: prefix_code p | xI p => Byte.x31 :: prefix_code p end.
Fixpoint prefix_decode (b : bytes) : positive :=
  match b with
  | [] => xH
  | c :: b => if bool_decide (c = Byte.x30) then xO (prefix_decode b) else xI (prefix_decode b)
  end.
Lemma prefix_decode_code p : prefix_decode (prefix_code p) = p.
Proof. induction p as [p IH|p IH|]; cbn; by rewrite ?IH. Qed.

#[local] Instance countable_serde {A} `{Countable A} : Serde A := {|
  to_vec a := Some (prefix_code (countable.encode a));
  from_slice b := countable.decode (prefix_decode b) |}.
#[local] Instance countable_serde_laws {A} `{Countable A} : SerdeLaws A.
Proof. split. intros a. eexists. split; [done|]. cbn. by rewrite prefix_decode_code, decode_encode. Qed.

#[local] Instance ResourceState_countable : Countable ResourceState.
Proof.
  refine (inj_countable' (fun s => match s with Planned => 0 | Created => 1 | Removed => 2 | RemovalFailed => 3 | Abandoned => 4 end)
    (fun n => match n with 0 => Planned | 1 => Created | 2 => Removed | 3 => RemovalFailed | _ => Abandoned end) _). by intros [].
Defined.
#[local] Instance VmResourcePhase_countable : Countable VmResourcePhase.
Proof.
  refine (inj_countable' (fun p => match p with PhasePlanned => 0 | PhaseStarting => 1 | PhasePublished => 2
    | PhaseCleanupPending => 3 | PhaseComplete => 4 end)
    (fun n => match n with 0 => PhasePlanned | 1 => PhaseStarting | 2 => PhasePublished
      | 3 => PhaseCleanupPending | _ => PhaseComplete end) _). by intros [].
Defined.
#[local] Instance DiskRetention_countable : Countable DiskRetention.
Proof.
  refine (inj_countable' (fun r => match r with Ephemeral => true | Persistent => false end)
    (fun b : bool => if b then Ephemeral else Persistent) _). by intros [].
Defined.
#[local] Instance DiskOrigin_countable : Countable DiskOrigin.
Proof.
  refine (inj_countable' (fun r => match r with CreatedByLaunch => true | PreExisting => false end)
    (fun b : bool => if b then CreatedByLaunch else PreExisting) _). by intros [].
Defined.
#[local] Instance FileIdentity_countable : Countable FileIdentity.
Proof.
  refine (inj_countable' (fun i => (volume_serial i, file_id i)) (fun '(a, b) => Build_FileIdentity a b) _). by intros [].
Defined.
#[local] Instance ComputeResource_eq_dec : EqDecision ComputeResource.
Proof. solve_decision. Defined.
#[local] Instance ComputeResource_countable : Countable ComputeResource.
Proof.
  refine (inj_countable (fun r => [countable.encode (cr_id r); countable.encode (cr_state r)])
    (fun l => match l with [a0; a1] => a0 ← countable.decode a0; a1 ← countable.decode a1; Some
      (Build_ComputeResource a0 a1) | _ => None end) _).
  intros []. by rewrite !decode_encode.
Defined.
#[local] Instance NetworkResource_eq_dec : EqDecision NetworkResource.
Proof. solve_decision. Defined.
#[local] Instance NetworkResource_countable : Countable NetworkResource.
Proof.
  refine (inj_countable (fun r => [countable.encode (network_name r); countable.encode (network_id r);
      countable.encode (endpoint_name r); countable.encode (endpoint_id r); countable.encode (nr_state r)])
    (fun l => match l with [a0; a1; a2; a3; a4] => a0 ← countable.decode a0; a1 ← countable.decode a1; a2 ←
      countable.decode a2; a3 ← countable.decode a3; a4 ← countable.decode a4; Some (Build_NetworkResource a0 a1 a2
      a3 a4) | _ => None end) _).
  intros []. by rewrite !decode_encode.
Defined.
#[local] Instance DiskResource_eq_dec : EqDecision DiskResource.
Proof. solve_decision. Defined.
#[local] Instance DiskResource_countable : Countable DiskResource.
Proof.
  refine (inj_countable (fun r => [countable.encode (dr_path r); countable.encode (controller r); countable.encode
      (lun r); countable.encode (dr_state r); countable.encode (origin r); countable.encode (requested_retention
      r); countable.encode (effective_retention r); countable.encode (file_identity r); countable.encode
      (initialization_requested r); countable.encode (initialization_acknowledged r); countable.encode
      (vm_ace_added r); countable.encode (dr_published r)])
    (fun l => match l with [a0; a1; a2; a3; a4; a5; a6; a7; a8; a9; a10; a11] => a0 ← countable.decode a0; a1 ←
      countable.decode a1; a2 ← countable.decode a2; a3 ← countable.decode a3; a4 ← countable.decode a4; a5 ←
      countable.decode a5; a6 ← countable.decode a6; a7 ← countable.decode a7; a8 ← countable.decode a8; a9 ←
      countable.decode a9; a10 ← countable.decode a10; a11 ← countable.decode a11; Some (Build_DiskResource a0 a1
      a2 a3 a4 a5 a6 a7 a8 a9 a10 a11) | _ => None end) _).
  intros []. by rewrite !decode_encode.
Defined.
#[local] Instance VmResourceRecord_eq_dec : EqDecision VmResourceRecord.
Proof. solve_decision. Defined.
#[local] Instance VmResourceRecord_countable : Countable VmResourceRecord.
Proof.
  refine (inj_countable (fun r => [countable.encode (vr_schema_version r); countable.encode (vr_vm_id r);
      countable.encode (phase r); countable.encode (vr_published r); countable.encode (compute_system r);
      countable.encode (network r); countable.encode (disks r); countable.encode (cleanup_attempts r);
      countable.encode (last_error r)])
    (fun l => match l with [a0; a1; a2; a3; a4; a5; a6; a7; a8] => a0 ← countable.decode a0; a1 ← countable.decode
      a1; a2 ← countable.decode a2; a3 ← countable.decode a3; a4 ← countable.decode a4; a5 ← countable.decode a5;
      a6 ← countable.decode a6; a7 ← countable.decode a7; a8 ← countable.decode a8; Some (Build_VmResourceRecord a0
      a1 a2 a3 a4 a5 a6 a7 a8) | _ => None end) _).
  intros []. by rewrite !decode_encode.
Defined.
#[local] Instance AbandonedResourceEntry_eq_dec : EqDecision AbandonedResourceEntry.
Proof. solve_decision. Defined.
#[local] Instance AbandonedResourceEntry_countable : Countable AbandonedResourceEntry.
Proof.
  refine (inj_countable (fun r => [countable.encode (kind r); countable.encode (identity r); countable.encode
      (entry_last_error r); countable.encode (first_abandoned_at_unix_ms r)])
    (fun l => match l with [a0; a1; a2; a3] => a0 ← countable.decode a0; a1 ← countable.decode a1; a2 ←
      countable.decode a2; a3 ← countable.decode a3; Some (Build_AbandonedResourceEntry a0 a1 a2 a3) | _ => None
      end) _).
  intros []. by rewrite !decode_encode.
Defined.
#[local] Instance AbandonedRecord_eq_dec : EqDecision AbandonedRecord.
Proof. solve_decision. Defined.
#[local] Instance AbandonedRecord_countable : Countable AbandonedRecord.
Proof.
  refine (inj_countable (fun r => [countable.encode (ar_schema_version r); countable.encode (ar_vm_id r);
      countable.encode (entries r)])
    (fun l => match l with [a0; a1; a2] => a0 ← countable.decode a0; a1 ← countable.decode a1; a2 ←
      countable.decode a2; Some (Build_AbandonedRecord a0 a1 a2) | _ => None end) _).
  intros []. by rewrite !decode_encode.
Defined.
#[local] Instance SessionRecord_eq_dec : EqDecision SessionRecord.
Proof. solve_decision. Defined.
#[local] Instance SessionRecord_countable : Countable SessionRecord.
Proof.
  refine (inj_countable (fun r => [countable.encode (sr_schema_version r); countable.encode (session_id r);
      countable.encode (owner r); countable.encode (owner_sid r); countable.encode (process_id r); countable.encode
      (created_at_unix_ms r)])
    (fun l => match l with [a0; a1; a2; a3; a4; a5] => a0 ← countable.decode a0; a1 ← countable.decode a1; a2 ←
      countable.decode a2; a3 ← countable.decode a3; a4 ← countable.decode a4; a5 ← countable.decode a5; Some
      (Build_SessionRecord a0 a1 a2 a3 a4 a5) | _ => None end) _).
  intros []. by rewrite !decode_encode.
Defined.

(** ** A host that grants every request *)

Definition granted : hcn := {| hres := S_OK; diag := [] |}.
Definition op_granted : op_outcome :=
  {| op_created := true; op_immediate := S_OK; op_completed := true; op_hr := S_OK; op_doc := Some (Some (str "{}")) |}.
(** A GUID and an identity not yet used, if there are not too many. *)
Definition next_guid (w : World) : Guid :=
  {| data1 := Z.of_nat (size (w_endpoints w)) mod 2 ^ 32; data2 := 0; data3 := 0; data4 := replicate 8 0 |}.
Definition next_identity (w : World) : FileIdentity :=
  {| volume_serial := 1; file_id := Z.of_nat (size (w_created w)) |}.

(** Properties of an object whose GUID has a text. *)
Definition properties (objects : gmap Guid bytes) (g : Guid) : hcn * json ResourceProperties :=
  match objects !! g with
  | Some name =>
    if bool_decide (parse_guid_string (unbraced (format_endpoint_id_string g)) = Some g)
    then (granted, Parsed {| prop_id := Some (format_endpoint_id_string g); prop_name := Some name |})
    else (refused, Blank)
  | None => (refused, Blank)
  end.
(** An enumeration that can only say that there is none. *)
Definition enumeration (objects : gmap Guid bytes) (name : bytes) : hcn * json EnumerationDocument :=
  if bool_decide (map_Forall (fun _ n => n <> name) objects) then (granted, Blank) else (refused, Blank).

Definition grant (c : call) (w : World) : answer c * World :=
  match c return answer c * World with
  | HcsOpenComputeSystem id => (if bool_decide (id ∈ w_compute w) then (S_OK, true) else (0x80070490, false), w)
  | HcsTerminateComputeSystem id => (op_granted, set_computes (w_compute w ∖ {[id]}) w)
  | HcsCreateComputeSystem id => ((op_granted, true), set_computes (w_compute w ∪ {[id]}) w)
  | HcsStartComputeSystem _ => (None, w)
  | HcnCreateNetwork g name => ((granted, true), set_networks (<[g := name]> (w_networks w)) w)
  | HcnCreateEndpoint _ name =>
    match w_endpoints w !! next_guid w with
    | None => ((granted, Some (next_guid w), no_guid), set_endpoints (<[next_guid w := name]> (w_endpoints w)) w)
    | Some _ => ((refused, None, no_guid), w)
    end
  | HcnQueryEndpointProperties g => (properties (w_endpoints w) g, w)
  | HcnQueryNetworkProperties g => (properties (w_networks w) g, w)
  | HcnCloseEndpoint _ | HcnCloseNetwork _ => (S_OK, w)
  | HcnDeleteEndpoint g => (granted, set_endpoints (delete g (w_endpoints w)) w)
  | HcnDeleteNetwork g => (granted, set_networks (delete g (w_networks w)) w)
  | HcnEnumerateNetworks name => (enumeration (w_networks w) name, w)
  | HcnEnumerateEndpoints name => (enumeration (w_endpoints w) name, w)
  | HcnOpenNetwork _ | HcnOpenEndpoint _ => ((refused, false), w)
  | PathExists p => (bool_decide (is_Some (w_files w !! p)), w)
  | GetFileIdentity p => (match w_files w !! p with Some i => inr i | None => inl [] end, w)
  | RemoveFile p => (FileRemoved, forget_file p w)
  | NewVhd p _ =>
    let i := next_identity w in
    if bool_decide (w_files w !! p = None) && bool_decide (file_key p i ∉ w_created w)
    then (None, set_files (<[p := i]> (w_files w)) (set_created (w_created w ∪ {[file_key p i]}) w))
    else (Some [], w)
  | GetVhd _ | CreateParent _ => (None, w)
  | GrantAccess _ _ | RevokeAccess _ _ | ValidateSid _ | LockPath _ | ReparsePoints _ => (None, w)
  | Parent _ => (ParentDir, w)
  | NormalizeAbsolutePath p => (Ok p, w)
  | UnixTimeMs => (0, w)
  | SessionPaths => (Ok (map fst (map_to_list (w_sessions w))), w)
  | OpenDatabase s => (if bool_decide (is_Some (w_sessions w !! s)) then Opened else OpenFailed, w)
  | CreateDatabase s => (None, match w_sessions w !! s with Some _ => w | None => put_db s empty_database w end)
  | RemoveDatabase s => (None, set_sessions (delete s (w_sessions w)) w)
  | Prepare _ => (None, w)
  end.

Lemma properties_describe objects g : describes objects g (properties objects g).
Proof.
  unfold describes, properties. intros p name Hg Hp Ho. rewrite Ho in *. case_bool_decide; [|done].
  cbn in Hp. injection Hp as <-. cbn. split; [done|]. by intros raw [= <-].
Qed.
Lemma enumeration_enumerates objects name entries' : enumerates objects name entries' (enumeration objects name).
Proof.
  unfold enumerates, enumeration. case_bool_decide as Hn; cbn; [|done]. split; [done|]. intros _ g Hg.
  by apply (Hn g name Hg).
Qed.
Lemma next_guid_typed w : typed_guid (next_guid w).
Proof.
  unfold typed_guid, is_u32, is_u16, is_u8, in_u. cbn -[Z.pow Z.modulo].
  split; [apply Z.mod_pos_bound; lia|]. split; [lia|]. split; [lia|]. split; [done|]. repeat constructor; lia.
Qed.

Lemma grant_windows c w : windows_call c w (grant c w).1 (grant c w).2.
Proof.
  destruct c; cbn -[next_guid next_identity granted properties enumeration]; try done; try (by right); try (by left).
  - split; [done|]. by case_bool_decide.
  - split; [by right|]. set_solver.
  - destruct (w_endpoints w !! next_guid w) eqn:E; cbn -[next_guid]; [by left|right].
    exists (next_guid w). split; [apply next_guid_typed|]. auto.
  - split; [done|]. apply properties_describe.
  - split; [done|]. apply properties_describe.
  - split; [by right|]. intros _. by rewrite lookup_delete_eq.
  - split; [by right|]. intros _. by rewrite lookup_delete_eq.
  - split; [done|]. apply enumeration_enumerates.
  - split; [done|]. apply enumeration_enumerates.
  - split; [done|]. by rewrite bool_decide_eq_true.
  - split; [done|]. by destruct (w_files w !! p).
  - destruct (_ && _) eqn:E; cbn -[next_identity]; [right|by left].
    apply andb_true_iff in E as [?%bool_decide_eq_true ?%bool_decide_eq_true]. eauto.
  - split; [done|]. split; [done|]. intros ps [= <-] s. rewrite list_elem_of_fmap. split.
    + intros ([s' db] & -> & Hin). apply elem_of_map_to_list in Hin. eauto.
    + intros [db Hdb]. exists (s, db). split; [done|]. by apply elem_of_map_to_list.
  - split; [done|]. by case_bool_decide.
Qed.
Lemma grant_honest c w : honest c (grant c w).1.
Proof.
  destruct c; cbn -[granted properties enumeration mentions_code]; try done.
  - by intros doc [= <-].
  - unfold properties. by repeat case_match.
  - unfold properties. by repeat case_match.
  - unfold enumeration. by case_bool_decide.
  - unfold enumeration. by case_bool_decide.
Qed.

(** ** Running programs on it *)

Definition run_read {B} (s : OsString) (op : read_op B) (w : World) : res Report B :=
  match w_sessions w !! s with Some db => op db | None => Err journal_report end.
Definition run_write {B} (s : OsString) (op : write_op B) (w : World) : res Report B * World :=
  match w_sessions w !! s with
  | Some db => match op db with Ok (b, db') => (Ok b, put_db s db' w) | Err e => (Err e, w) | Panic => (Panic, w) end
  | None => (Err journal_report, w)
  end.
(** [n] steps at most; [None] if the program is not at its end by then. *)
Fixpoint run {A} (n : nat) (p : host A) (w : World) : option (res Report A) * World :=
  match p with
  | HDone r => (Some r, w)
  | HRead s B op k => match n with O => (None, w) | S n => run n (k (run_read s op w)) w end
  | HWrite s B op k => match n with O => (None, w) | S n => run n (k (run_write s op w).1) (run_write s op w).2 end
  | HCall c k => match n with O => (None, w) | S n => run n (k (grant c w).1) (grant c w).2 end
  end.

Section Run.
Context (E : Env) (HE : forall c w, env_call E c w (grant c w).1 (grant c w).2).
Lemma run_exec {A} n (p : host A) w : exec E p w (run n p w).1 (run n p w).2.
Proof.
  revert n w. induction p as [r|s B op k IH|s B op k IH|c k IH]; intros n w; [destruct n; constructor|destruct n as [|n]; [constructor|]..]; cbn.
  - econstructor; [|apply IH]. unfold read_step, run_read. by destruct (w_sessions w !! s); [left|].
  - econstructor; [|apply IH]. unfold write_step, run_write. destruct (w_sessions w !! s) as [db|]; [|done].
    destruct (op db) as [[b db']|e|]; [by left|split; [done|by left]|done].
  - econstructor; [apply HE|apply IH].
Qed.
End Run.
Lemma honest_grants c w : env_call honest_windows c w (grant c w).1 (grant c w).2.
Proof. split; [apply grant_windows|apply grant_honest]. Qed.
Lemma windows_grants c w : env_call windows c w (grant c w).1 (grant c w).2.
Proof. apply grant_windows. Qed.
Lemma reliable_grants c w : env_call reliable c w (grant c w).1 (grant c w).2.
Proof. apply grant_windows. Qed.

(** ** A history *)

Definition typed_uuid (n : Z) : Guid := {| data1 := n; data2 := 2; data3 := 3; data4 := [4; 5; 6; 7; 8; 9; 10; 11] |}.
Definition machine_id : Uuid := dexist (P := typed_guid) (typed_uuid 1) ltac:(apply (bool_decide_unpack _); vm_compute; exact I).
Definition network_uuid : Uuid := dexist (P := typed_guid) (typed_uuid 2) ltac:(apply (bool_decide_unpack _); vm_compute; exact I).
Definition session_uuid : Uuid := dexist (P := typed_guid) (typed_uuid 3) ltac:(apply (bool_decide_unpack _); vm_compute; exact I).
Definition later_uuid : Uuid := dexist (P := typed_guid) (typed_uuid 4) ltac:(apply (bool_decide_unpack _); vm_compute; exact I).
Definition session_file : OsString := [115].
Definition later_file : OsString := [116].
Definition users_file : OsString := [117].
Definition disk_file : OsString := [100].
Definition users_identity : FileIdentity := {| volume_serial := 9; file_id := 9 |}.
(** A host with one file of the user, and nothing of this program. *)
Definition first_world : World :=
  {| w_sessions := ∅; w_compute := ∅; w_networks := ∅; w_endpoints := ∅;
     w_files := {[ users_file := users_identity ]}; w_created := ∅ |}.
Definition disk_spec : DiskSpec :=
  {| host_path := disk_file; create_size_mb := 64; guest_mount := str "/data"; retention := Ephemeral; on_existing := PolicyError |}.

Definition open_it : action := OpenSession session_file session_uuid [] 1 0.
Definition launch_it : action := Launch session_file machine_id (Some network_uuid) [disk_spec].
Definition reopen_it : action := OpenSession later_file later_uuid [] 2 0.
Definition at_rest (w : World) : System := {| world := w; live := [] |}.
Definition opened_world : World := (run 100 (program open_it (at_rest first_world)) first_world).2.
(** The process dies when the compute system is there and not yet journaled. *)
Definition crashed_world : World := (run 31 (program launch_it (at_rest opened_world)) opened_world).2.
Definition launched : option (res Report (option (OsString * Vm))) * World :=
  run 200 (program launch_it (at_rest opened_world)) opened_world.
Definition recovered : option (res Report (option (OsString * Vm))) * World :=
  run 200 (program reopen_it (at_rest crashed_world)) crashed_world.

(** The whole launch succeeds; after the crash, the next session removes the
    compute system, the network, the endpoint and the disk, and keeps the
    user's file. *)
Example launch_runs : match launched.1 with Some (Ok (Some _)) => true | _ => false end = true.
Proof. by vm_compute. Qed.
Example crash_leaves_resources :
  (size (w_compute crashed_world), size (w_networks crashed_world), size (w_endpoints crashed_world), size (w_files crashed_world))
  = (1, 1, 1, 2)%nat.
Proof. by vm_compute. Qed.
Example recovery_cleans_up :
  (size (w_compute recovered.2), size (w_networks recovered.2), size (w_endpoints recovered.2),
   map_to_list (w_files recovered.2), map fst (map_to_list (w_sessions recovered.2)))
  = (0%nat, 0%nat, 0%nat, [(users_file, users_identity)], [later_file]).
Proof. by vm_compute. Qed.

(** ** Witnesses *)

#[local] Opaque run grant.
Definition some {A} (o : option A) : bool := match o with Some _ => true | None => false end.
Lemma some_is {A} (o : option A) : some o = true -> is_Some o.
Proof. destruct o; [eauto|done]. Qed.

Definition unknown (id : Uuid) (w : World) : bool :=
  bool_decide (map_Forall (fun _ db => bt_get (uuid_to_string id) (vm_records db) = None) (w_sessions w))
  && bool_decide (uuid_to_string id ∉ w_compute w)
  && bool_decide (map_Forall (fun _ n => n <> nat_name id) (w_networks w))
  && bool_decide (map_Forall (fun _ n => n <> ep_name id) (w_endpoints w)).
Lemma unknown_fresh id w : unknown id w = true -> HcsTrack.fresh id w.
Proof.
  unfold unknown. rewrite !andb_true_iff, !bool_decide_eq_true. intros [[[Hs Hc] Hn] He]. split.
  - intros s. unfold rec_of. destruct (w_sessions w !! s) as [db|] eqn:E; [|done]. cbn [mbind option_bind]. by rewrite (Hs s db E).
  - split; [done|]. split; intros g Hg; [by apply (Hn g _ Hg)|by apply (He g _ Hg)].
Qed.

Lemma run_act E n a st r :
  (forall c w, env_call E c w (grant c w).1 (grant c w).2) -> enabled a st ->
  (run n (program a st) (world st)).1 = Some r ->
  step E st {| world := (run n (program a st) (world st)).2; live := live_after a r st |}.
Proof. intros HE Ha Hr. constructor; [done|]. rewrite <-Hr. by apply run_exec. Qed.
Lemma run_crash E n a st :
  (forall c w, env_call E c w (grant c w).1 (grant c w).2) -> enabled a st ->
  some (run n (program a st) (world st)).1 = false ->
  step E st (at_rest (run n (program a st) (world st)).2).
Proof.
  intros HE Ha Hr. apply (step_crash _ a); [done|].
  assert (E0 : (run n (program a st) (world st)).1 = None) by (by destruct (run n (program a st) (world st)).1).
  rewrite <-E0. by apply run_exec.
Qed.

Lemma first_pristine : pristine first_world.
Proof. split; [done|]. split; [done|]. intros id. split; intros g; cbn; by rewrite lookup_empty. Qed.
Section Reach.
Context (E : Env) (HE : forall c w, env_call E c w (grant c w).1 (grant c w).2).
Lemma opened_reachable : reachable E (at_rest opened_world).
Proof.
  exists first_world. split; [apply first_pristine|]. apply rtc_once.
  assert (Hr : is_Some (run 100 (program open_it (at_rest first_world)) first_world).1).
  { apply some_is. by vm_compute. }
  destruct Hr as [r Hr]. exact (run_act E 100 open_it (at_rest first_world) r HE I Hr).
Qed.
Lemma launch_enabled : enabled launch_it (at_rest opened_world).
Proof.
  split; [apply unknown_fresh; by vm_compute|]. intros s v Hv. by apply not_elem_of_nil in Hv.
Qed.
Lemma crashed_reachable : reachable E (at_rest crashed_world).
Proof.
  destruct opened_reachable as (w & Hw & Hst). exists w. split; [done|]. eapply rtc_r; [exact Hst|].
  apply (run_crash E 31 launch_it (at_rest opened_world) HE launch_enabled). by vm_compute.
Qed.
End Reach.


#[local] Opaque opened_world crashed_world machine_id.
Definition crashed_record : option VmResourceRecord := rec_of crashed_world session_file machine_id.
Lemma crashed_has_record : is_Some crashed_record.
Proof. apply some_is. by vm_compute. Qed.


Lemma journal_rows_well_formed_witness :
  exists db k b r, w_sessions crashed_world !! session_file = Some db /\ (k, b) ∈ vm_records db
  /\ from_slice b = Some r /\ cr_id (compute_system r) = uuid_to_string (vr_vm_id r).
Proof.
  destruct crashed_has_record as [r Hr]. unfold crashed_record, rec_of in Hr.
  destruct (w_sessions crashed_world !! session_file) as [db|] eqn:Hdb; [|discriminate Hr]. cbn [mbind option_bind] in Hr.
  destruct (bt_get (uuid_to_string machine_id) (vm_records db)) as [b|] eqn:Hb; [|discriminate Hr]. cbn [mbind option_bind] in Hr.
  exists db, (uuid_to_string machine_id), b, r. apply bt_get_in in Hb.
  destruct (journal_rows_well_formed (at_rest crashed_world) session_file db _ b r
    (crashed_reachable honest_windows honest_grants) Hdb Hb Hr) as (_ & Ek & _ & Ec & _).
  split; [reflexivity|]. split; [exact Hb|]. split; [exact Hr|]. rewrite <-Ek. exact Ec.
Defined.

Lemma crashed_tables : tables_ok crashed_world.
Proof. apply (reachable_inv (at_rest crashed_world) (crashed_reachable honest_windows honest_grants)). Qed.

Definition cleaned : option (res Report unit) * World :=
  run 200 (cleanup_record Sync session_file machine_id CleanupResources_empty) crashed_world.
(** The launch had made the disk, and its record was journaled: it goes. *)
Lemma cleanup_deletes_only_entitled_witness :
  exec windows (cleanup_record Sync session_file machine_id CleanupResources_empty) crashed_world cleaned.1 cleaned.2
  /\ exists r d, rec_of crashed_world session_file machine_id = Some r /\ d ∈ disks r /\ dr_path d = disk_file
     /\ origin d = CreatedByLaunch.
Proof.
  assert (X : exec windows (cleanup_record Sync session_file machine_id CleanupResources_empty) crashed_world cleaned.1 cleaned.2)
    by (apply run_exec, windows_grants).
  split; [exact X|].
  destruct (cleanup_deletes_only_entitled Sync session_file machine_id CleanupResources_empty crashed_world _ _
    disk_file {| volume_serial := 1; file_id := 0 |} crashed_tables X) as [Hk|(_ & r & d & ? & ? & ? & _ & _ & ? & _)].
  - by vm_compute.
  - exfalso. revert Hk. by vm_compute.
  - exists r, d. auto.
Defined.

Lemma foreign_files_survive_witness :
  reachable windows (at_rest opened_world) /\ w_files launched.2 !! users_file = Some users_identity.
Proof.
  pose proof (opened_reachable windows windows_grants) as R. split; [exact R|].
  apply (foreign_files_survive (at_rest opened_world) launch_it launched.1 launched.2 users_file users_identity R).
  - apply run_exec, windows_grants.
  - by vm_compute.
  - apply (bool_decide_unpack _). by vm_compute.
Defined.

(** The record of the crashed launch, as the bounded theorems see it. *)
Definition crashed_row : bool :=
  match w_sessions crashed_world !! session_file with
  | Some db => some (VM_RECORDS db) && negb (some (bt_get (uuid_to_string machine_id) (abandoned_rows db)))
  | None => false
  end.
Lemma crashed_journal :
  exists r, journal_is session_file machine_id (Some r) None crashed_world
  /\ vr_vm_id r = machine_id /\ cleanup_attempts r = 0.
Proof.
  destruct crashed_has_record as [r Hr]. exists r.
  pose proof (reachable_inv (at_rest crashed_world) (crashed_reachable honest_windows honest_grants)) as [Iw _].
  destruct (inv_records _ Iw session_file machine_id r Hr) as [G1 G2 _ _ _ _ _ _].
  assert (Ha : (cleanup_attempts <$> crashed_record) = Some 0) by (by vm_compute).
  unfold crashed_record in Hr, Ha. rewrite Hr in Ha. injection Ha as Ha. split; [|exact (conj G2 Ha)].
  assert (Hc : crashed_row = true) by (by vm_compute). unfold crashed_row in Hc.
  unfold rec_of in Hr. destruct (w_sessions crashed_world !! session_file) as [db|] eqn:Hdb; [|done].
  apply andb_true_iff in Hc as [Ht Hi%negb_true_iff]. cbn [mbind option_bind] in Hr.
  destruct (bt_get (uuid_to_string machine_id) (vm_records db)) as [b|] eqn:Hb; [|done]. cbn [mbind option_bind] in Hr.
  destruct (crashed_tables _ _ Hdb) as (W1 & W2 & _). exists db. split; [done|].
  split; [by apply some_is|done|done| |].
  - rewrite Hb. eauto.
  - by destruct (bt_get (uuid_to_string machine_id) (abandoned_rows db)).
Qed.


Lemma recovery_bounded_witness :
  exists r, journal_is session_file machine_id (Some r) None crashed_world
  /\ exists res w', exec reliable (recoveries session_file machine_id 4) crashed_world (Some res) w'.
Proof.
  destruct crashed_journal as (r & J & Hid & Ha). exists r. split; [exact J|].
  apply (recovery_bounded session_file machine_id r None crashed_world J Hid). rewrite Ha. reflexivity.
Defined.

(** ** Misleading reports *)

(** A refusal to delete a disk is taken for its absence when its path spells
    one of the two codes: the disk is then marked [Removed] and forgotten. *)
Theorem refusal_read_as_absence path :
  mentions_code (to_string_lossy path) = true ->
  resource_is_absent (cleanup_report (str "refusing to delete " ++ to_string_lossy path
                                      ++ str " without a recorded file identity")) = true
  /\ resource_is_absent (attach (Report_new DiskIdentityChanged)
                           (str "file identity changed before deleting " ++ to_string_lossy path)) = true.
Proof.
  intros Hp. unfold cleanup_report. rewrite !absent_one. split; [by apply mentions_inside|].
  rewrite <-(app_nil_r (to_string_lossy path)). by apply mentions_inside.
Qed.
Example such_a_path : mentions_code (to_string_lossy (map b2z (str "D:\disks\0x80070002.vhdx"))) = true.
Proof. by vm_compute. Qed.

(** Closing an endpoint handle that is already gone, while the deletions fail:
    the report is taken for the absence of the network, which is still there. *)
Definition doomed_network : World := set_networks {[ typed_uuid 2 := nat_name machine_id ]} first_world.
Definition doomed_state : NetworkState :=
  {| ns_network_id := typed_uuid 2; ns_endpoint_id := typed_uuid 5; ns_endpoint_id_string := [];
     ns_endpoint_handle := typed_uuid 5; ns_network_handle := typed_uuid 2 |}.
Example close_failure_hides_network :
  exists e, exec windows (close_and_delete_result doomed_state) doomed_network (Some (Err e)) doomed_network
  /\ resource_is_absent e = true
  /\ w_networks doomed_network !! ns_network_id doomed_state = Some (nat_name machine_id).
Proof.
  eexists. split; [|split].
  - apply (exec_call _ (HcnCloseEndpoint _) _ _ 0x80070490 doomed_network); [done|].
    apply (exec_call _ (HcnDeleteEndpoint _) _ _ refused doomed_network); [split; [by left|by intros [?|?]]|].
    apply (exec_call _ (HcnCloseNetwork _) _ _ S_OK doomed_network); [done|].
    apply (exec_call _ (HcnDeleteNetwork _) _ _ refused doomed_network); [split; [by left|by intros [?|?]]|].
    apply exec_done.
  - by vm_compute.
  - by vm_compute.
Qed.
