(* ===== verification/VmModel.v ===== *)
(** * The virtual machine model

    [libs/vm-model/src]: lexical path normalisation ([path.rs]), guest mount
    points and disk specifications ([disk.rs]), the NAT network
    ([network.rs]), boot artifacts ([boot.rs]) and the configuration aggregate
    ([config.rs]).  All of them are values whose constructor validates; the
    theorems say what exactly each constructor accepts.

    [std::path::Path] is used only through its component sequence, which also
    decides [==] and [Hash] of paths, so a path is that sequence here (on
    Windows, the platform of the disks).  The [ipnet] crate is the class
    [IpNet]. *)

From Stdlib Require Import ZArith Lia.
From stdpp Require Import base tactics option list numbers strings.
From S2P Require Import Prelude Bytes Text Guid IpAddr HcsJournal.

(** ** Paths *)

(** A drive such as [C:], by its upper-case letter, or a prefix with an
    implicit root (a UNC share and the like). *)
Inductive PathPrefix : Type := Drive (letter : Z) | Rooted (text : OsString).
Inductive Component : Type :=
  | Prefix (p : PathPrefix) | RootDir | CurDir | ParentDir | Normal (name : OsString).
#[global] Instance PathPrefix_eq_dec : EqDecision PathPrefix.
Proof. solve_decision. Defined.
#[global] Instance Component_eq_dec : EqDecision Component.
Proof. solve_decision. Defined.
Abbreviation Path := (list Component).

(** [Path::is_absolute]: a prefix and a root, which all prefixes but drives imply. *)
Definition is_absolute (p : Path) : bool :=
  match p with
  | Prefix (Rooted _) :: _ => true
  | Prefix (Drive _) :: RootDir :: _ => true
  | _ => false
  end.

(** A name that is itself a path with a drive, such as [D:] or [D:x]. *)
Definition to_upper (u : Z) : Z := if (97 <=? u) && (u <=? 122) then u - 32 else u.
Definition drive_of (name : OsString) : option (Z * OsString) :=
  match name with
  | letter :: 58 :: rest =>
    let l := to_upper letter in if (65 <=? l) && (l <=? 90) then Some (l, rest) else None
  | _ => None
  end.
Definition dot : OsString := [46].
Definition dot_dot : OsString := [46; 46].
Definition name_components (rest : OsString) : Path :=
  if bool_decide (rest = []) then []
  else if bool_decide (rest = dot) then [CurDir]
  else if bool_decide (rest = dot_dot) then [ParentDir]
  else [Normal rest].

(** [PathBuf::push] of one component's text: a prefix replaces the path, a root
    all of it but its prefix, and a name that reads as a drive is a prefix. *)
Definition prefix_of (p : Path) : Path := match p with Prefix x :: _ => [Prefix x] | _ => [] end.
Definition push (p : Path) (c : Component) : Path :=
  match c with
  | Prefix _ => [c]
  | RootDir => prefix_of p ++ [RootDir]
  | Normal name =>
    match drive_of name with
    | Some (l, rest) => Prefix (Drive l) :: name_components rest
    | None => p ++ [c]
    end
  | _ => p ++ [c]
  end.

Inductive PathError : Type := NotAbsolute | EscapesRoot.

Definition at_root (normalized : Path) : bool :=
  match last normalized with
  | None | Some RootDir | Some (Prefix _) => true
  | _ => false
  end.
Definition normalize_component (normalized : Path) (c : Component) : res PathError Path :=
  match c with
  | CurDir => Ok normalized
  | ParentDir => if at_root normalized then Err EscapesRoot else Ok (removelast normalized)
  | _ => Ok (push normalized c)
  end.
Definition normalize_lexically (absolute : Path) : res PathError Path :=
  _ ← fail_if (negb (is_absolute absolute)) NotAbsolute;
  for_each normalize_component absolute [].

(** ** Disks *)

Inductive DiskError : Type :=
  | HostPathRelative | HostPathNotVhdx | HostPathContainsNul | HostPathAboveRoot | SizeZero
  | MountPathEmpty | MountPathRelative | MountPathDotComponent
  | MountPathContainsInvalidCharacter | MountPathReserved.

(** [char::is_whitespace] and [char::is_control]. *)
Definition is_whitespace (c : Z) : bool :=
  ((9 <=? c) && (c <=? 13)) || (c =? 32) || (c =? 0x85) || (c =? 0xa0) || (c =? 0x1680)
  || ((0x2000 <=? c) && (c <=? 0x200a)) || (c =? 0x2028) || (c =? 0x2029) || (c =? 0x202f)
  || (c =? 0x205f) || (c =? 0x3000).
Definition is_control (c : Z) : bool := ((0 <=? c) && (c <=? 31)) || ((127 <=? c) && (c <=? 159)).

Definition RESERVED_GUEST_MOUNT_PATHS : list bytes :=
  [str "/"; str "/proc"; str "/sys"; str "/dev"; str "/run"; str "/jyth"].

Record GuestMount : Type := { gm_path : bytes }.

Definition mount_slash : byte := Byte.x2f.
Definition bad_segment (segment : bytes) : bool :=
  bool_decide (segment = []) || bool_decide (segment = str ".") || bool_decide (segment = str "..").
Definition bad_mount_char (ch : Z) : bool :=
  (ch =? 0) || is_whitespace ch || (ch =? 44) || (ch =? 58) || is_control ch.

(** One round of the loop over the segments; the leading root is empty. *)
Definition check_segment (index : Z) (segment : bytes) : res DiskError Z :=
  if (index =? 0) && bool_decide (segment = []) then Ok (index + 1)
  else _ ← fail_if (bad_segment segment) MountPathDotComponent; Ok (index + 1).

Definition GuestMount_new (path : bytes) : res DiskError GuestMount :=
  _ ← fail_if (is_empty path) MountPathEmpty;
  _ ← fail_if (negb (starts_with [mount_slash] path)) MountPathRelative;
  _ ← fail_if (bool_decide (path ∈ RESERVED_GUEST_MOUNT_PATHS) || starts_with (str "/jyth/") path)
        MountPathReserved;
  _ ← for_each check_segment (split_on mount_slash path) 0;
  _ ← fail_if (existsb bad_mount_char (utf8_chars path)) MountPathContainsInvalidCharacter;
  Ok {| gm_path := path |}.

Record DiskSpec : Type := {
  ds_host_path : Path; ds_create_size_mb : Z; ds_guest_mount : GuestMount;
  ds_retention : DiskRetention; ds_on_existing : ExistingDiskPolicy }.

(** [Path::extension]: what follows the last dot of the file name, unless the
    name starts with its only dot. *)
Fixpoint after_last_dot (name : OsString) : option OsString :=
  match name with
  | [] => None
  | u :: t =>
    match after_last_dot t with
    | Some e => Some e
    | None => if u =? 46 then Some t else None
    end
  end.
Definition extension (p : Path) : option OsString :=
  match last p with
  | Some (Normal (_ :: name)) => after_last_dot name
  | _ => None
  end.
(** [eq_ignore_ascii_case] with ["vhdx"]; an extension that [to_str] rejects
    has an unpaired surrogate and is different anyway. *)
Definition is_vhdx (e : OsString) : bool := bool_decide (map to_upper e = [86; 72; 68; 88]).
Definition component_contains_nul (c : Component) : bool :=
  match c with
  | Normal n => bool_decide (0 ∈ n)
  | Prefix (Rooted t) => bool_decide (0 ∈ t)
  | _ => false
  end.

Definition DiskSpec_new (host_path : Path) (create_size_mb : Z) (guest_mount : GuestMount)
    (retention : DiskRetention) (on_existing : ExistingDiskPolicy) : res DiskError DiskSpec :=
  _ ← fail_if (negb (is_absolute host_path)) HostPathRelative;
  _ ← fail_if (negb (is_vhdx (default [] (extension host_path)))) HostPathNotVhdx;
  _ ← fail_if (existsb component_contains_nul host_path) HostPathContainsNul;
  _ ← fail_if (negb (is_ok (normalize_lexically host_path))) HostPathAboveRoot;
  _ ← fail_if (create_size_mb =? 0) SizeZero;
  Ok {| ds_host_path := host_path; ds_create_size_mb := create_size_mb; ds_guest_mount := guest_mount;
        ds_retention := retention; ds_on_existing := on_existing |}.

Definition normalized_host_path (d : DiskSpec) : Path :=
  match normalize_lexically (ds_host_path d) with Ok p => p | _ => ds_host_path d end.

(** ** The NAT network *)

(** An [Ipv4Addr] is its octets; [u32::from] reads them big-endian. *)
Abbreviation Ipv4Addr := bytes.

(** What [network.rs] uses of [ipnet::Ipv4Net]. *)
Class IpNet := {
  Ipv4Net : Type;
  Ipv4Net_from_str : bytes -> option Ipv4Net;
  prefix_len : Ipv4Net -> Z;
  net_contains : Ipv4Net -> Ipv4Addr -> bool;
  net_network : Ipv4Net -> Ipv4Addr;
  net_broadcast : Ipv4Net -> Ipv4Addr }.
Class IpNetLaws `{!IpNet} : Prop := {
  prefix_len_range n : 0 <= prefix_len n <= 32;
  net_network_len n : len (net_network n) = 4;
  net_broadcast_len n : len (net_broadcast n) = 4;
  (** the network address has no host bits, the broadcast address all of them *)
  net_network_aligned n : be_val (net_network n) mod 2 ^ (32 - prefix_len n) = 0;
  net_broadcast_last n : be_val (net_broadcast n) = be_val (net_network n) + 2 ^ (32 - prefix_len n) - 1;
  net_contains_iff n a : len a = 4 ->
    net_contains n a = true <-> be_val (net_network n) <= be_val a <= be_val (net_broadcast n) }.

Definition MAX_DNS_SERVERS : Z := 8.
Inductive NatAddress : Type := Gateway | GuestIp.

Section Nat.
Context `{IpNet}.

(** The [reason] texts of the parsers' errors are left out. *)
Inductive NatError : Type :=
  | InvalidSubnet (value : bytes)
  | InvalidAddress (field : NatAddress) (value : bytes)
  | SubnetTooSmall (prefix : Z)
  | AddressOutsideSubnet (field : NatAddress) (address : Ipv4Addr) (subnet : Ipv4Net)
  | AddressIsNetwork (field : NatAddress) (address : Ipv4Addr)
  | AddressIsBroadcast (field : NatAddress) (address : Ipv4Addr)
  | AddressesEqual (address : Ipv4Addr)
  | InvalidDns (index : Z) (value : bytes)
  | TooManyDnsServers (actual maximum : Z).

Record Nat : Type := {
  nat_subnet : Ipv4Net; nat_gateway : Ipv4Addr; nat_guest_ip : Ipv4Addr; nat_dns : list IpAddr }.

Definition parse_endpoint (value : bytes) (field : NatAddress) : res NatError Ipv4Addr :=
  ok_or (Ipv4Addr_from_str value) (InvalidAddress field value).

Definition validate_endpoint (subnet : Ipv4Net) (field : NatAddress) (address : Ipv4Addr)
    : res NatError unit :=
  _ ← fail_if (30 <? prefix_len subnet) (SubnetTooSmall (prefix_len subnet));
  _ ← fail_if (negb (net_contains subnet address)) (AddressOutsideSubnet field address subnet);
  _ ← fail_if (bool_decide (address = net_network subnet)) (AddressIsNetwork field address);
  fail_if (bool_decide (address = net_broadcast subnet)) (AddressIsBroadcast field address).

(** One round of the DNS loop; the index is the number of servers parsed. *)
Definition parse_dns (parsed : list IpAddr) (value : bytes) : res NatError (list IpAddr) :=
  let index := len parsed in
  _ ← fail_if (MAX_DNS_SERVERS <=? index) (TooManyDnsServers (index + 1) MAX_DNS_SERVERS);
  address ← ok_or (IpAddr_from_str value) (InvalidDns index value);
  Ok (parsed ++ [address]).

Definition Nat_try_new (subnet gateway guest_ip : bytes) (dns : list bytes) : res NatError Nat :=
  net ← ok_or (Ipv4Net_from_str subnet) (InvalidSubnet subnet);
  gw ← parse_endpoint gateway Gateway;
  ip ← parse_endpoint guest_ip GuestIp;
  parsed_dns ← for_each parse_dns dns [];
  _ ← validate_endpoint net Gateway gw;
  _ ← validate_endpoint net GuestIp ip;
  _ ← fail_if (bool_decide (gw = ip)) (AddressesEqual gw);
  Ok {| nat_subnet := net; nat_gateway := gw; nat_guest_ip := ip; nat_dns := parsed_dns |}.

(** [Default]: the [expect] is a panic. *)
Definition Nat_default : res NatError Nat :=
  match Nat_try_new (str "10.77.0.0/24") (str "10.77.0.1") (str "10.77.0.10") [str "8.8.8.8"; str "1.1.1.1"] with
  | Ok n => Ok n
  | _ => Panic
  end.

(** ** Boot artifacts and the aggregate *)

Inductive BootArtifactsError : Type := BA_Empty | BA_NotAbsolute | BA_KernelEqualsInitrd.
Record BootArtifacts : Type := { ba_kernel : Path; ba_initrd : Path }.
Definition BootArtifacts_new (kernel initrd : Path) : res BootArtifactsError BootArtifacts :=
  _ ← fail_if (is_empty kernel || is_empty initrd) BA_Empty;
  _ ← fail_if (negb (is_absolute kernel) || negb (is_absolute initrd)) BA_NotAbsolute;
  _ ← fail_if (bool_decide (kernel = initrd)) BA_KernelEqualsInitrd;
  Ok {| ba_kernel := kernel; ba_initrd := initrd |}.

Inductive Cpu : Type := Units (units : Z).
Definition cpu_units (c : Cpu) : Z := match c with Units u => u end.
Inductive Memory : Type := MB (mb : Z).
Definition memory_mb (m : Memory) : Z := match m with MB mb => mb end.

Inductive VmConfigError : Type :=
  | CpuZero | MemoryZero | DuplicateDiskHostPath | DuplicateGuestMount
  | DuplicateBootArtifactPath | RelativeBootArtifactPath | EmptyBootArtifactPath.
Record VmConfig : Type := {
  vc_cpu : Cpu; vc_memory : Memory; vc_network : option Nat; vc_disks : list DiskSpec;
  vc_kernel : Path; vc_initrd : Path }.

(** One round of the disk loop: the hash sets are lists of what was inserted. *)
Definition check_disk (seen : list Path * list bytes) (disk : DiskSpec)
    : res VmConfigError (list Path * list bytes) :=
  let '(paths, mounts) := seen in
  let p := normalized_host_path disk in
  let t := gm_path (ds_guest_mount disk) in
  _ ← fail_if (bool_decide (p ∈ paths)) DuplicateDiskHostPath;
  _ ← fail_if (bool_decide (t ∈ mounts)) DuplicateGuestMount;
  Ok (paths ++ [p], mounts ++ [t]).

Definition VmConfig_new (cpu : Cpu) (memory : Memory) (network : option Nat) (disks : list DiskSpec)
    (kernel initrd : Path) : res VmConfigError VmConfig :=
  _ ← fail_if (cpu_units cpu =? 0) CpuZero;
  _ ← fail_if (memory_mb memory =? 0) MemoryZero;
  _ ← fail_if (is_empty kernel || is_empty initrd) EmptyBootArtifactPath;
  _ ← fail_if (negb (is_absolute kernel) || negb (is_absolute initrd)) RelativeBootArtifactPath;
  _ ← fail_if (bool_decide (kernel = initrd)) DuplicateBootArtifactPath;
  _ ← for_each check_disk disks ([], []);
  Ok {| vc_cpu := cpu; vc_memory := memory; vc_network := network; vc_disks := disks;
        vc_kernel := kernel; vc_initrd := initrd |}.
End Nat.

(** ** Normalisation is cancellation

    The reference: drop [.], cancel a name with the [..] that follows it, until
    only names are left. *)

Inductive resolves : Path -> list OsString -> Prop :=
  | resolves_names ns : resolves (map Normal ns) ns
  | resolves_cur a b ns : resolves (a ++ b) ns -> resolves (a ++ CurDir :: b) ns
  | resolves_up a n b ns : resolves (a ++ b) ns -> resolves (a ++ Normal n :: ParentDir :: b) ns.

Definition root_of (p : Path) : Path :=
  match p with Prefix x :: RootDir :: _ => [Prefix x; RootDir] | Prefix x :: _ => [Prefix x] | _ => [] end.
Definition body_of (p : Path) : Path :=
  match p with _ :: RootDir :: t => t | _ :: t => t | [] => [] end.

(** After the root come names, [.] and [..]; no name reads as a drive. *)
Definition plain_component (c : Component) : Prop :=
  match c with CurDir | ParentDir => True | Normal n => drive_of n = None | _ => False end.

Section Normalise.
Context (root : Path) (Hroot : at_root root = true).

Lemma at_root_names ns : at_root (root ++ map Normal ns) = bool_decide (ns = []).
Proof.
  destruct (decide (ns = [])) as [->|Hn]; [by rewrite bool_decide_true, app_nil_r|].
  rewrite bool_decide_false by done. destruct ns as [|n ns] using rev_ind; [done|].
  unfold at_root. rewrite map_app, app_assoc. cbn [map]. by rewrite last_snoc.
Qed.

(** The loop on the body, as a stack of names. *)
Fixpoint stack (ns : list OsString) (body : Path) : option (list OsString) :=
  match body with
  | [] => Some ns
  | CurDir :: t => stack ns t
  | ParentDir :: t => if bool_decide (ns = []) then None else stack (removelast ns) t
  | Normal n :: t => stack (ns ++ [n]) t
  | _ => None
  end.

Lemma loop_stack body ns :
  Forall plain_component body ->
  for_each normalize_component body (root ++ map Normal ns)
  = match stack ns body with Some ms => Ok (root ++ map Normal ms) | None => Err EscapesRoot end.
Proof.
  intros Hb. revert ns. induction Hb as [|c body Hc Hb IH]; intros ns; [done|].
  destruct c as [p| | | |n]; try done; cbn [for_each stack normalize_component mbind res_bind].
  - apply IH.
  - rewrite at_root_names. case_bool_decide as E; cbn [mbind res_bind]; [done|].
    destruct ns as [|n ns] using rev_ind; [done|]. rewrite removelast_last.
    rewrite map_app, app_assoc. cbn [map]. rewrite removelast_last. apply IH.
  - cbn in Hc. cbn [push]. rewrite Hc. rewrite <-IH, map_app, app_assoc. done.
Qed.

Lemma stack_app a b ns : stack ns (a ++ b) = ms ← stack ns a; stack ms b.
Proof.
  revert ns. induction a as [|[]]; intros ns; cbn; auto; try done. by case_bool_decide.
Qed.
Lemma stack_names ns ms : stack ns (map Normal ms) = Some (ns ++ ms).
Proof.
  revert ns. induction ms as [|m ms IH]; intros ns; cbn; [by rewrite app_nil_r|]. by rewrite IH, <-app_assoc.
Qed.

Lemma resolves_stack body ns : resolves body ns -> stack [] body = Some ns.
Proof.
  induction 1 as [ns|a b ns _ IH|a n b ns _ IH]; [apply stack_names| |];
    rewrite stack_app in IH |- *; destruct (stack [] a) as [ms|]; try done; cbn [mbind option_bind stack] in *; try done.
  rewrite bool_decide_false by (by intros ?%app_eq_nil; naive_solver). by rewrite removelast_last.
Qed.
Lemma stack_resolves body ns ms : stack ns body = Some ms -> resolves (map Normal ns ++ body) ms.
Proof.
  revert ns. induction body as [|[] body IH]; intros ns H; cbn in H; try done.
  - injection H as ->. rewrite app_nil_r. constructor.
  - constructor. by apply IH.
  - case_bool_decide as E; [done|]. destruct ns as [|n ns] using rev_ind; [done|]. rewrite removelast_last in H.
    rewrite map_app, <-app_assoc. cbn [map app]. constructor. by apply IH.
  - apply IH in H. by rewrite map_app, <-app_assoc in H.
Qed.
End Normalise.

(** Where the loop arrives after the root. *)
Lemma normalize_body p :
  is_absolute p = true -> Forall plain_component (body_of p) ->
  at_root (root_of p) = true /\ p = root_of p ++ body_of p
  /\ normalize_lexically p = match stack [] (body_of p) with
                             | Some ns => Ok (root_of p ++ map Normal ns)
                             | None => Err EscapesRoot
                             end.
Proof.
  intros Ha Hb. unfold normalize_lexically. rewrite Ha. cbn [negb fail_if mbind res_bind].
  destruct p as [|[[l|t]| | | |] [|c p]]; try done; [destruct c; try done|..].
  - split; [done|]. split; [done|]. cbn [body_of] in Hb. rewrite <-loop_stack by done. by rewrite app_nil_r.
  - destruct c; cbn [body_of] in Hb; try (by apply Forall_cons in Hb as [[] _]).
    all: split; [done|]; split; [done|].
    all: cbn [body_of root_of]; rewrite <-loop_stack by done; by rewrite app_nil_r.
Qed.

Lemma root_of_app p ns : is_absolute p = true -> root_of (root_of p ++ map Normal ns) = root_of p.
Proof. destruct p as [|[[l|t]| | | |] [|[] p]]; try done; by destruct ns. Qed.
Lemma body_of_app p ns : is_absolute p = true -> body_of (root_of p ++ map Normal ns) = map Normal ns.
Proof. destruct p as [|[[l|t]| | | |] [|[] p]]; try done; by destruct ns. Qed.

Lemma stack_plain body ms ns :
  Forall plain_component body -> Forall plain_component (map Normal ms) -> stack ms body = Some ns ->
  Forall plain_component (map Normal ns).
Proof.
  intros Hb. revert ms. induction Hb as [|c body Hc Hb IH]; intros ms Hm H; cbn in H; [by simplify_eq|].
  destruct c; try done.
  - by eapply IH.
  - case_bool_decide; [done|]. eapply IH; [|done]. destruct ms as [|m ms] using rev_ind; [done|].
    rewrite removelast_last. rewrite map_app in Hm. by apply Forall_app in Hm as [].
  - eapply IH; [|done]. rewrite map_app. apply Forall_app. split; [done|]. by repeat constructor.
Qed.

(** Path normalisation is cancellation.  For every path whose names do not
    read as drives: a path that is not absolute is refused; an absolute one is
    normalised to its root followed by what is left when [.] components are
    dropped and names cancelled with the [..] after them, and is refused as
    escaping the root exactly when no such remainder exists.  The result is
    absolute and its own normal form. *)
Theorem normalize_lexically_exact p :
  Forall plain_component (body_of p) ->
  (normalize_lexically p = Err NotAbsolute <-> is_absolute p = false)
  /\ (forall q, normalize_lexically p = Ok q <->
       is_absolute p = true /\ exists ns, resolves (body_of p) ns /\ q = root_of p ++ map Normal ns)
  /\ (normalize_lexically p = Err EscapesRoot <->
       is_absolute p = true /\ forall ns, ~ resolves (body_of p) ns)
  /\ normalize_lexically p <> Panic
  /\ (forall q, normalize_lexically p = Ok q -> is_absolute q = true /\ normalize_lexically q = Ok q).
Proof.
  intros Hb. destruct (is_absolute p) eqn:Ha.
  2: { unfold normalize_lexically. rewrite Ha. cbn. split_and!; try done; naive_solver. }
  destruct (normalize_body p Ha Hb) as (Hr & _ & ->).
  destruct (stack [] (body_of p)) as [ns|] eqn:E.
  - pose proof (stack_resolves _ _ _ E) as R. cbn [map app] in R. split_and!; try done.
    + intros q. split; [intros [= <-]; eauto|]. intros (_ & ms & Hms%resolves_stack & ->). by simplify_eq.
    + split; [done|]. intros [_ Hn]. by destruct (Hn ns).
    + intros q [= <-]. assert (Ha' : is_absolute (root_of p ++ map Normal ns) = true).
      { destruct p as [|[[l|t]| | | |] [|[] p]]; done. }
      split; [done|]. assert (Hp : Forall plain_component (map Normal ns)) by (eapply (stack_plain _ []); [exact Hb|constructor|exact E]).
      destruct (normalize_body (root_of p ++ map Normal ns)) as (_ & _ & ->); [done|by rewrite body_of_app|].
      by rewrite root_of_app, body_of_app, stack_names.
  - split_and!; try done.
    + intros q. split; [done|]. intros (_ & ms & Hms%resolves_stack & ->). congruence.
    + split; [|done]. intros _. split; [done|]. intros ms Hms%resolves_stack. congruence.
Qed.

(** The units of an ASCII text, and a path on drive [C:]. *)
Definition units (s : string) : OsString := map b2z (str s).
Definition on_c (names : list Component) : Path := Prefix (Drive 67) :: RootDir :: names.

Lemma normalize_lexically_exact_witness :
  normalize_lexically (on_c [Normal (units "disks"); CurDir; ParentDir; Normal (units "x.vhdx")])
  = Ok (on_c [Normal (units "x.vhdx")]).
Proof.
  apply (normalize_lexically_exact (on_c [Normal (units "disks"); CurDir; ParentDir; Normal (units "x.vhdx")])).
  - by repeat constructor.
  - split; [reflexivity|]. exists [units "x.vhdx"]. split; [|reflexivity].
    apply (resolves_cur [Normal (units "disks")]), (resolves_up []), (resolves_names [units "x.vhdx"]).
Defined.

(** The condition on names is needed: a component such as [D:] in the middle of
    a path is pushed as a path of its own and replaces the root.  The disk is
    accepted, and its normalised path is relative to the current directory of
    another drive. *)
Definition odd_path : Path := on_c [Normal (units "disks"); Normal (units "D:"); Normal (units "x.vhdx")].
Example drive_component_escapes m :
  normalize_lexically odd_path = Ok [Prefix (Drive 68); Normal (units "x.vhdx")]
  /\ is_absolute [Prefix (Drive 68); Normal (units "x.vhdx")] = false
  /\ is_ok (DiskSpec_new odd_path 1 m Ephemeral ReuseAndKeep) = true.
Proof. by vm_compute. Qed.

(** What an accepted disk is: its normal form is the resolved path, never the
    fallback to the path as given. *)
Lemma DiskSpec_new_iff p size m r e d :
  Forall plain_component (body_of p) ->
  DiskSpec_new p size m r e = Ok d <->
  d = {| ds_host_path := p; ds_create_size_mb := size; ds_guest_mount := m;
         ds_retention := r; ds_on_existing := e |}
  /\ is_absolute p = true /\ (exists x, extension p = Some x /\ is_vhdx x = true)
  /\ existsb component_contains_nul p = false
  /\ (exists ns, resolves (body_of p) ns /\ normalized_host_path d = root_of p ++ map Normal ns)
  /\ size <> 0.
Proof.
  intros Hb. unfold DiskSpec_new. rewrite !guard_ok_iff. split.
  - intros (Ha & Hx & Hn & Hok & Hs & [= <-]). apply negb_false_iff in Ha, Hx, Hok. apply Z.eqb_neq in Hs.
    destruct (normalize_body p Ha Hb) as (_ & _ & E). rewrite E in Hok.
    destruct (stack [] (body_of p)) as [ns|] eqn:Es; [|done].
    split_and!; [done|done| |done| |done].
    + destruct (extension p) as [x|]; [by eauto|done].
    + exists ns. split; [by apply (stack_resolves _ [])|]. unfold normalized_host_path. cbn. by rewrite E.
  - intros (-> & Ha & (x & Hx & Hv) & Hn & (ns & Hns & _) & Hs). rewrite Ha, Hx. cbn.
    rewrite Hv, Hn. destruct (normalize_body p Ha Hb) as (_ & _ & E). apply resolves_stack in Hns. rewrite E, Hns.
    by rewrite (proj2 (Z.eqb_neq _ _)).
Qed.

(** ** Guest mounts *)

Definition good_segment (s : bytes) : Prop := s <> [] /\ s <> str "." /\ s <> str "..".

(** The mount points that are accepted: an absolute path of ordinary segments,
    neither [/proc], [/sys], [/dev] or [/run] nor [/jyth] or below it, without
    white space, commas, colons and control characters. *)
Definition mount_ok (path : bytes) : Prop :=
  exists segs, segs <> [] /\ path = mount_slash :: join_with [mount_slash] segs
  /\ Forall (fun s => good_segment s /\ (mount_slash ∉ s)) segs
  /\ (forall t, segs <> str "jyth" :: t)
  /\ (segs ∉ [[str "proc"]; [str "sys"]; [str "dev"]; [str "run"]])
  /\ Forall (fun ch => bad_mount_char ch = false) (utf8_chars path).

Lemma bad_segment_false s : bad_segment s = false <-> good_segment s.
Proof.
  unfold bad_segment, good_segment. rewrite !orb_false_iff, !bool_decide_eq_false. tauto.
Qed.

Lemma check_segment_later i s :
  1 <= i -> check_segment i s = _ ← fail_if (bad_segment s) MountPathDotComponent; Ok (i + 1).
Proof. intros Hi. unfold check_segment. by rewrite (proj2 (Z.eqb_neq i 0)) by lia. Qed.

Lemma segment_loop segs i :
  1 <= i ->
  is_ok (for_each check_segment segs i) = true
  <-> Forall good_segment segs.
Proof.
  revert i. induction segs as [|s segs IH]; intros i Hi; cbn [for_each]; [by split; [constructor|]|].
  rewrite check_segment_later by done. rewrite Forall_cons_iff, <-bad_segment_false.
  destruct (bad_segment s); cbn [fail_if mbind res_bind]; [by split; [|intros [? _]]|].
  rewrite IH by lia. tauto.
Qed.

Lemma split_single rest s :
  mount_slash ∉ s -> split_on mount_slash rest = [s] <-> rest = s.
Proof.
  intros Hs. split; [|intros ->; by apply split_on_free_single].
  intros E. rewrite <-(join_split mount_slash rest), E. done.
Qed.

Lemma below_jyth rest :
  (rest = str "jyth" \/ exists t, rest = str "jyth" ++ mount_slash :: t)
  <-> exists t, split_on mount_slash rest = str "jyth" :: t.
Proof.
  assert (Hf : mount_slash ∉ str "jyth") by (by apply contains_byte_false). split.
  - intros [->|[t ->]]; [exists []; by apply split_on_free_single|].
    rewrite split_on_app_free, split_on_cons_sep by done. rewrite app_nil_r. eauto.
  - intros [t E]. pose proof (join_split mount_slash rest) as J. rewrite E in J.
    destruct t as [|s t]; cbn [join_with] in J; [by left|right; eauto].
Qed.

Definition reserved_mount (path : bytes) : bool :=
  bool_decide (path ∈ RESERVED_GUEST_MOUNT_PATHS) || starts_with (str "/jyth/") path.

Lemma reserved_mount_true rest :
  reserved_mount (mount_slash :: rest) = true <->
  rest = [] \/ (split_on mount_slash rest ∈ [[str "proc"]; [str "sys"]; [str "dev"]; [str "run"]])
  \/ exists t, split_on mount_slash rest = str "jyth" :: t.
Proof.
  unfold reserved_mount, RESERVED_GUEST_MOUNT_PATHS.
  rewrite orb_true_iff, bool_decide_eq_true, starts_with_true.
  rewrite !elem_of_cons, !elem_of_nil.
  rewrite !(split_single rest) by (by apply contains_byte_false).
  rewrite <-below_jyth. change (str "/jyth/") with (mount_slash :: str "jyth" ++ [mount_slash]).
  change (str "/") with ([mount_slash]). change (str "/proc") with (mount_slash :: str "proc").
  change (str "/sys") with (mount_slash :: str "sys"). change (str "/dev") with (mount_slash :: str "dev").
  change (str "/run") with (mount_slash :: str "run"). change (str "/jyth") with (mount_slash :: str "jyth").
  cbn [app]. setoid_rewrite <-app_assoc. naive_solver.
Qed.

Lemma reserved_mount_false rest :
  rest <> [] -> reserved_mount (mount_slash :: rest) = false <->
  (split_on mount_slash rest ∉ [[str "proc"]; [str "sys"]; [str "dev"]; [str "run"]])
  /\ forall t, split_on mount_slash rest <> str "jyth" :: t.
Proof. intros Hr. rewrite <-not_true_iff_false, reserved_mount_true. naive_solver. Qed.

Lemma GuestMount_new_iff path m : GuestMount_new path = Ok m <-> m = {| gm_path := path |} /\ mount_ok path.
Proof.
  unfold GuestMount_new. rewrite !guard_ok_iff, bind_ok_iff. fold (reserved_mount path). split.
  - intros (He & Ha & Hr & n & Hn & H). apply negb_false_iff, starts_with_true in Ha as [rest ->]. cbn [app] in *.
    rewrite split_on_cons_sep in Hn. cbn [for_each] in Hn.
    change (check_segment 0 []) with (Ok (E := DiskError) 1) in Hn. cbn [mbind res_bind] in Hn.
    assert (Hg : Forall good_segment (split_on mount_slash rest)).
    { apply (segment_loop _ 1); [done|]. by rewrite Hn. }
    apply guard_ok_iff in H as [Hc [= <-]]. split; [done|]. exists (split_on mount_slash rest).
    assert (Hre : rest <> []).
    { intros ->. apply Forall_cons_iff in Hg as [[[] _] _]. done. }
    apply reserved_mount_false in Hr as [? ?]; [|done].
    split_and!; [apply split_by_nonempty|by rewrite join_split| |done|done|].
    + apply Forall_and. split; [done|apply split_on_free].
    + apply Forall_forall. intros ch Hch. apply not_true_iff_false. intros Hb.
      rewrite <-not_true_iff_false in Hc. apply Hc, existsb_exists. exists ch. by rewrite <-list_elem_of_In.
  - intros (-> & segs & Hne & -> & Hs & Hj & Hk & Hc). apply Forall_and in Hs as [Hg Hf].
    assert (Esplit : split_on mount_slash (join_with [mount_slash] segs) = segs) by (by apply split_join).
    assert (Hre : join_with [mount_slash] segs <> []).
    { intros E. rewrite E in Esplit. subst segs. apply Forall_cons_iff in Hg as [[[] _] _]. done. }
    split_and!; [done|done|apply reserved_mount_false; [done|by rewrite Esplit]|].
    rewrite split_on_cons_sep, Esplit. cbn [for_each].
    change (check_segment 0 []) with (Ok (E := DiskError) 1). cbn [mbind res_bind].
    pose proof (proj2 (segment_loop segs 1 ltac:(lia)) Hg) as Hok.
    destruct (for_each _ segs 1) as [n| |] eqn:E; [|done..]. exists n. split; [done|].
    apply guard_ok_iff. split; [|done]. apply not_true_iff_false. intros (ch & Hch & Hb)%existsb_exists.
    apply list_elem_of_In in Hch. rewrite Forall_forall in Hc. by rewrite Hc in Hb.
Qed.

(** ** The NAT network *)

Section NatFacts.
Context `{IpNetLaws}.

(** A host address of the subnet: neither its first nor its last address. *)
Definition usable (net : Ipv4Net) (a : Ipv4Addr) : Prop :=
  be_val (net_network net) < be_val a < be_val (net_broadcast net).

Lemma be_val_inj a b : len a = 4 -> len b = 4 -> be_val a = be_val b -> a = b.
Proof.
  intros Ha Hb E. assert (length a = 4%nat /\ length b = 4%nat) as [La Lb] by (unfold len in *; lia).
  rewrite <-(be_bytes_be_val_n 4 a La), <-(be_bytes_be_val_n 4 b Lb). by rewrite E.
Qed.

Lemma validate_endpoint_iff net f a :
  len a = 4 -> validate_endpoint net f a = Ok tt <-> prefix_len net <= 30 /\ usable net a.
Proof.
  intros Ha. unfold validate_endpoint. rewrite !guard_ok_iff. unfold fail_if.
  rewrite negb_false_iff, net_contains_iff by done. rewrite bool_decide_eq_false.
  pose proof (net_network_len net). pose proof (net_broadcast_len net). unfold usable.
  assert (a = net_network net <-> be_val a = be_val (net_network net)) as -> by (split; [by intros ->|by apply be_val_inj]).
  case_bool_decide as E.
  - subst a. split; [naive_solver|]. intros (_ & _ & Hlt). lia.
  - assert (be_val a <> be_val (net_broadcast net)) by (by intros ?%be_val_inj).
    rewrite Z.ltb_ge. split; [intros (? & ? & ? & _); lia|]. intros (? & ? & ?). split_and!; lia || done.
Qed.

Lemma parse_dns_cons t dns ps :
  for_each parse_dns (t :: dns) ps =
  if 8 <=? len ps then Err (TooManyDnsServers (len ps + 1) 8)
  else match IpAddr_from_str t with
       | Some q => for_each parse_dns dns (ps ++ [q])
       | None => Err (InvalidDns (len ps) t)
       end.
Proof. cbn [for_each]. unfold parse_dns, MAX_DNS_SERVERS. destruct (8 <=? len ps); [done|]. by destruct (IpAddr_from_str t). Qed.

Lemma parse_dns_iff dns ps rs :
  len ps <= 8 -> for_each parse_dns dns ps = Ok rs <->
  exists qs, rs = ps ++ qs /\ Forall2 (fun t q => IpAddr_from_str t = Some q) dns qs /\ len ps + len dns <= 8.
Proof.
  revert ps. induction dns as [|t dns IH]; intros ps Hp.
  - cbn [for_each]. split.
    + intros [= <-]. exists []. rewrite app_nil_r. split_and!; [done|constructor|unfold len in *; cbn; lia].
    + intros (qs & -> & Hq%Forall2_nil_inv_l & _). subst. by rewrite app_nil_r.
  - rewrite len_cons, parse_dns_cons. destruct (Z.leb_spec 8 (len ps)) as [Hm|Hm].
    { split; [done|]. intros (_ & _ & _ & Hl). pose proof (len_nonneg dns). lia. }
    destruct (IpAddr_from_str t) as [q|] eqn:Et.
    2: { split; [done|]. intros (qs & _ & Hq & _). apply Forall2_cons_inv_l in Hq as (q & ? & ? & _). congruence. }
    rewrite IH by (rewrite len_app; unfold len in *; cbn; lia). rewrite len_app. change (len [q]) with 1. split.
    + intros (qs & -> & Hq & Hl). exists (q :: qs). rewrite <-app_assoc. split_and!; [done|by constructor|lia].
    + intros (qs & -> & Hq & Hl). apply Forall2_cons_inv_l in Hq as (q' & qs' & Hq' & Hqs & ->). simplify_eq.
      exists qs'. rewrite <-app_assoc. split_and!; [done|done|lia].
Qed.

Lemma Nat_try_new_iff subnet gateway guest_ip dns n :
  Nat_try_new subnet gateway guest_ip dns = Ok n <->
  Ipv4Net_from_str subnet = Some (nat_subnet n) /\ prefix_len (nat_subnet n) <= 30
  /\ len (nat_gateway n) = 4 /\ gateway = Ipv4Addr_display (nat_gateway n)
  /\ len (nat_guest_ip n) = 4 /\ guest_ip = Ipv4Addr_display (nat_guest_ip n)
  /\ usable (nat_subnet n) (nat_gateway n) /\ usable (nat_subnet n) (nat_guest_ip n)
  /\ nat_gateway n <> nat_guest_ip n
  /\ Forall2 (fun text a => IpAddr_from_str text = Some a) dns (nat_dns n) /\ len dns <= 8.
Proof.
  unfold Nat_try_new, parse_endpoint. rewrite !bind_ok_iff. split.
  - intros (net & Hn%ok_or_ok & H1). apply bind_ok_iff in H1 as (gw & Hg%ok_or_ok & H1).
    apply bind_ok_iff in H1 as (ip & Hi%ok_or_ok & H1). apply bind_ok_iff in H1 as (qs & Hd & H1).
    apply Ipv4Addr_from_str_iff in Hg as [? ?], Hi as [? ?].
    rewrite !bind_unit_ok_iff, !validate_endpoint_iff in H1 by done. destruct H1 as ([? ?] & [? ?] & Hne & [= <-]).
    cbn [nat_subnet nat_gateway nat_guest_ip nat_dns]. apply parse_dns_iff in Hd as (rs & -> & ? & ?); [|done].
    unfold fail_if in Hne. case_bool_decide; [done|]. split_and!; done || (change (len (A:=IpAddr) []) with 0 in *; lia).
  - intros (Hn & Hp & Hg & -> & Hi & -> & Ug & Ui & Hne & Hd & Hl). exists (nat_subnet n).
    rewrite Hn. split; [done|]. apply bind_ok_iff. exists (nat_gateway n).
    rewrite (proj2 (Ipv4Addr_from_str_iff _ _) (conj Hg eq_refl)). split; [done|]. apply bind_ok_iff. exists (nat_guest_ip n).
    rewrite (proj2 (Ipv4Addr_from_str_iff _ _) (conj Hi eq_refl)). split; [done|]. apply bind_ok_iff. exists (nat_dns n).
    split; [apply parse_dns_iff; [done|]; exists (nat_dns n); split_and!; [done|done|change (len (A:=IpAddr) []) with 0; lia]|].
    rewrite (proj2 (validate_endpoint_iff _ _ _ Hg) (conj Hp Ug)), (proj2 (validate_endpoint_iff _ _ _ Hi) (conj Hp Ui)).
    cbn [mbind res_bind]. rewrite bool_decide_false by done. by destruct n.
Qed.

(** C40: A NAT configuration is accepted exactly when it is usable.  The subnet
    text is a network of at most 30 prefix bits, gateway and guest are printed
    IPv4 addresses strictly between the network and the broadcast address and
    differ from each other, and there are at most eight DNS servers, all of
    them addresses; the value that is built is what the texts say. *)
Theorem nat_accepts_exactly subnet gateway guest_ip dns n :
  Nat_try_new subnet gateway guest_ip dns = Ok n <->
  Ipv4Net_from_str subnet = Some (nat_subnet n) /\ prefix_len (nat_subnet n) <= 30
  /\ len (nat_gateway n) = 4 /\ gateway = Ipv4Addr_display (nat_gateway n)
  /\ len (nat_guest_ip n) = 4 /\ guest_ip = Ipv4Addr_display (nat_guest_ip n)
  /\ usable (nat_subnet n) (nat_gateway n) /\ usable (nat_subnet n) (nat_guest_ip n)
  /\ nat_gateway n <> nat_guest_ip n
  /\ Forall2 (fun text a => IpAddr_from_str text = Some a) dns (nat_dns n) /\ len dns <= 8.
Proof. apply Nat_try_new_iff. Qed.

Lemma app_cons_snoc {A} (l k : list A) x : l ++ x :: k = (l ++ [x]) ++ k.
Proof. by rewrite <-app_assoc. Qed.
Lemma NoDup_snoc_iff {A} (l : list A) x : NoDup (l ++ [x]) <-> NoDup l /\ (x ∉ l).
Proof.
  rewrite NoDup_app. split; [intros (? & Hx & _); split; [done|]; intros Hin%Hx; apply Hin; by left|].
  intros [? ?]. split_and!; [done| |apply NoDup_singleton]. intros y Hy ->%list_elem_of_singleton. done.
Qed.

(** The configuration aggregate accepts exactly positive sizes, different
    absolute boot artifacts, and disks with different paths and mounts. *)
Lemma check_disks_iff disks ps ts r :
  NoDup ps -> NoDup ts ->
  for_each check_disk disks (ps, ts) = Ok r <->
  r = (ps ++ map normalized_host_path disks, ts ++ map (fun d => gm_path (ds_guest_mount d)) disks)
  /\ NoDup (ps ++ map normalized_host_path disks)
  /\ NoDup (ts ++ map (fun d => gm_path (ds_guest_mount d)) disks).
Proof.
  revert ps ts. induction disks as [|d disks IH]; intros ps ts Hp Ht; cbn [for_each map].
  - rewrite !app_nil_r. naive_solver.
  - rewrite bind_ok_iff. cbn [check_disk]. setoid_rewrite guard_ok_iff. setoid_rewrite guard_ok_iff.
    setoid_rewrite bool_decide_eq_false.
    rewrite (app_cons_snoc ps (map _ disks)), (app_cons_snoc ts (map _ disks)). split.
    + intros (b & (Hnp & Hnt & [= <-]) & Hr). by apply IH in Hr; [|apply NoDup_snoc_iff..].
    + intros (-> & Hps & Hts). pose proof Hps as Hps'. pose proof Hts as Hts'.
      apply NoDup_app in Hps' as (Hps' & _), Hts' as (Hts' & _).
      pose proof (proj1 (NoDup_snoc_iff _ _) Hps') as [_ ?]. pose proof (proj1 (NoDup_snoc_iff _ _) Hts') as [_ ?].
      eexists. split; [split_and!; [..|reflexivity]; done|]. by apply IH.
Qed.

Lemma VmConfig_new_iff cpu memory network disks kernel initrd c :
  VmConfig_new cpu memory network disks kernel initrd = Ok c <->
  c = {| vc_cpu := cpu; vc_memory := memory; vc_network := network; vc_disks := disks;
         vc_kernel := kernel; vc_initrd := initrd |}
  /\ cpu_units cpu <> 0 /\ memory_mb memory <> 0
  /\ is_absolute kernel = true /\ is_absolute initrd = true /\ kernel <> initrd
  /\ NoDup (map normalized_host_path disks) /\ NoDup (map (fun d => gm_path (ds_guest_mount d)) disks).
Proof.
  unfold VmConfig_new. rewrite !guard_ok_iff, bind_ok_iff.
  setoid_rewrite check_disks_iff; [|constructor..]. cbn [app].
  rewrite !Z.eqb_neq, !orb_false_iff, !negb_false_iff, bool_decide_eq_false. split; [naive_solver|].
  intros (-> & ? & ? & Hk & Hi & ? & ? & ?). split_and!; try done; [by destruct kernel|by destruct initrd|].
  eexists. by split_and!.
Qed.
End NatFacts.

(** ** An [ipnet] *)

(** Address and prefix, clamped so that every value is a network. *)
#[local] Instance simple_net : IpNet := {|
  Ipv4Net := Z * Z;
  Ipv4Net_from_str := fun s =>
    '(a, p) ← split_once mount_slash s;
    addr ← Ipv4Addr_from_str a;
    prefix ← parse_with (read_number 8 10 2 false) p;
    if prefix <=? 32 then Some (be_val addr, prefix) else None;
  prefix_len := fun n => Z.max 0 (Z.min 32 n.2);
  net_network := fun n =>
    let host := 2 ^ (32 - Z.max 0 (Z.min 32 n.2)) in be_bytes 4 (n.1 mod 2 ^ 32 / host * host);
  net_broadcast := fun n =>
    let host := 2 ^ (32 - Z.max 0 (Z.min 32 n.2)) in be_bytes 4 (n.1 mod 2 ^ 32 / host * host + host - 1);
  net_contains := fun n a =>
    let host := 2 ^ (32 - Z.max 0 (Z.min 32 n.2)) in be_val a / host =? n.1 mod 2 ^ 32 / host |}.

Lemma simple_net_host (n : Z * Z) :
  let host := 2 ^ (32 - Z.max 0 (Z.min 32 n.2)) in
  0 < host /\ (host | 2 ^ 32) /\ 0 <= n.1 mod 2 ^ 32 / host * host
  /\ n.1 mod 2 ^ 32 / host * host + host <= 2 ^ 32.
Proof.
  intros host. assert (0 < host) by (apply Z.pow_pos_nonneg; lia).
  assert (Hd : (host | 2 ^ 32)).
  { exists (2 ^ Z.max 0 (Z.min 32 n.2)). unfold host. rewrite <-Z.pow_add_r by lia. f_equal. lia. }
  split; [done|]. split; [done|]. pose proof (Z.mod_pos_bound n.1 (2 ^ 32) ltac:(lia)) as Hm.
  split; [apply Z.mul_nonneg_nonneg; [apply Z.div_pos; lia|lia]|].
  destruct Hd as [k Hk]. assert (n.1 mod 2 ^ 32 / host < k) by (apply Z.div_lt_upper_bound; lia). nia.
Qed.

#[local] Instance simple_net_laws : IpNetLaws.
Proof.
  constructor.
  - intros [a p]. cbn. lia.
  - intros n. apply len_be_bytes.
  - intros n. apply len_be_bytes.
  - intros n. pose proof (simple_net_host n) as (? & ? & ? & ?). cbn -[Z.pow be_bytes be_val Z.modulo Z.div Z.mul Z.add Z.sub].
    rewrite be_val_be_bytes_u by (unfold in_u; lia). apply Z.mod_mul. lia.
  - intros n. pose proof (simple_net_host n) as (? & ? & ? & ?). cbn -[Z.pow be_bytes be_val Z.modulo Z.div Z.mul Z.add Z.sub].
    rewrite !be_val_be_bytes_u by (unfold in_u; lia). done.
  - intros n a _. pose proof (simple_net_host n) as (Hh & ? & ? & ?). cbn -[Z.pow be_bytes be_val Z.modulo Z.div Z.mul Z.add Z.sub].
    rewrite !be_val_be_bytes_u by (unfold in_u; lia). rewrite Z.eqb_eq.
    set (host := 2 ^ _) in *. set (q := n.1 mod 2 ^ 32 / host) in *. split.
    + intros <-. pose proof (Z.div_mod (be_val a) host). pose proof (Z.mod_pos_bound (be_val a) host). lia.
    + intros [? ?]. symmetry. apply (Z.div_unique_pos _ _ _ (be_val a - q * host)); lia.
Qed.

Lemma nat_accepts_exactly_witness :
  exists n, Nat_try_new (str "10.77.0.0/24") (str "10.77.0.1") (str "10.77.0.10") [str "8.8.8.8"; str "::1"] = Ok n
            /\ nat_gateway n <> nat_guest_ip n.
Proof.
  destruct (Nat_try_new (str "10.77.0.0/24") (str "10.77.0.1") (str "10.77.0.10") [str "8.8.8.8"; str "::1"])
    as [n|e|] eqn:E.
  - exists n. split; [reflexivity|]. apply nat_accepts_exactly in E. apply E.
  - exfalso. apply (f_equal is_ok) in E. vm_compute in E. discriminate E.
  - exfalso. apply (f_equal is_ok) in E. vm_compute in E. discriminate E.
Defined.

(** The built-in defaults are valid. *)
Example nat_default_valid : is_ok Nat_default = true.
Proof. by vm_compute. Qed.
