(* ===== verification/LaunchConfig.v ===== *)
(** * From the machine model to the boot configuration

    The pure part of [libs/jyth-runtime/src/launch.rs]: memory sizing, the
    guest's network and disk configuration, and the assembly of the
    [BootConfigV1] that is sent over the serial port.  It joins two
    validators, the host's ([VmModel]) and the protocol's ([BootConfig]); the
    theorem says exactly which accepted machines have a boot configuration. *)

From Stdlib Require Import ZArith Lia.
From stdpp Require Import base tactics option list numbers strings.
From S2P Require Import Prelude Bytes Text Wire BootConfig Messages Guid IpAddr HcsJournal VmModel.

(** [RuntimeError]; a report is its current context, attachments are
    diagnostics. *)
Inductive RuntimeError : Type :=
  | RE_Build | RE_Transport | RE_NetworkRequired | RE_RequestTimedOut | RE_Protocol | RE_Authentication
  | RE_Hypervisor | RE_Guest (code : GuestErrorCode) | RE_UnexpectedReply | RE_ReadyTimeout | RE_VmCreate | RE_Shutdown
  | RE_ProcessClose | RE_Bind | RE_InvalidState.

(** [hypervisor_api::AttachedResource]. *)
Record AttachedResource : Type := { ar_host_path : Path; created_by_launch : bool }.

(** [u64] arithmetic; the final increment overflows for an explicit size of
    [u64::MAX]. *)
Definition size_memory (uncompressed_size_bytes : Z) (override_mb : option Z) : res RuntimeError Z :=
  let uncompressed_size_mb := (uncompressed_size_bytes + 1048575) / 1048576 in
  let memory_mb := default (256 + (uncompressed_size_mb + 128) * 2) override_mb in
  if memory_mb mod 2 =? 0 then Ok memory_mb else expect (checked_add 64 memory_mb 1).

Section Config.
Context `{IpNet}.

Definition guest_dns (dns : IpAddr) : res RuntimeError bytes :=
  match dns with V4 octets => Ok octets | V6 _ => Err RE_Protocol end.
Definition map_res {A B} (f : A -> res RuntimeError B) (xs : list A) : res RuntimeError (list B) :=
  for_each (fun ys x => y ← f x; Ok (ys ++ [y])) xs [].

Definition guest_network_config (nat : Nat) : res RuntimeError GuestNetworkConfigV1 :=
  dns ← map_res guest_dns (nat_dns nat);
  map_err (fun _ => RE_Protocol)
    (GuestNetworkConfigV1_new (nat_guest_ip nat) (nat_gateway nat) (prefix_len (nat_subnet nat)) dns).

Definition boot_disk (x : nat * (AttachedResource * DiskSpec)) : res RuntimeError GuestDiskConfigV1 :=
  let '(index, (resource, spec)) := x in
  device_index ← ok_or (try_from_u 16 (Z.of_nat index)) RE_Protocol;
  map_err (fun _ => RE_Protocol)
    (GuestDiskConfigV1_new device_index (gm_path (ds_guest_mount spec)) (created_by_launch resource)).

Definition enumerated {A} (xs : list A) : list (nat * A) := imap (fun i x => (i, x)) xs.

(** [host_nonce] is what the system's random generator yields, if it does. *)
Definition build_boot_config (identity : bytes) (resources : list AttachedResource)
    (capability : SessionCapability) (host_nonce : option bytes) (network : option Nat)
    (disks : list DiskSpec) (bootstrap : option BootstrapConfigV1) : res RuntimeError BootConfigV1 :=
  boot_network ← match network with Some nat => Some <$> guest_network_config nat | None => Ok None end;
  boot_disks ← map_res boot_disk (enumerated (zip resources disks));
  nonce ← ok_or host_nonce RE_Authentication;
  boot_config ← map_err (fun _ => RE_Protocol) (BootConfigV1_new identity capability nonce boot_network boot_disks);
  match bootstrap with
  | Some bootstrap => map_err (fun _ => RE_Protocol) (with_bootstrap boot_config bootstrap)
  | None => Ok boot_config
  end.

(** ** What callers are told about the disks *)

Record AttachedDisk : Type := {
  at_host_path : Path; at_guest_mount : bytes; at_origin : DiskOrigin;
  at_requested_retention : DiskRetention; at_effective_retention : DiskRetention }.
Inductive VmWarning : Type :=
  | DiskReusedAsPersistent (host_path : Path) (requested effective : DiskRetention).

Definition classify_attached (spec : DiskSpec) (resource : AttachedResource) : AttachedDisk :=
  {| at_host_path := ar_host_path resource;
     at_guest_mount := gm_path (ds_guest_mount spec);
     at_origin := if created_by_launch resource then CreatedByLaunch else PreExisting;
     at_requested_retention := ds_retention spec;
     at_effective_retention :=
       if negb (created_by_launch resource) && bool_decide (ds_retention spec = Ephemeral)
       then Persistent else ds_retention spec |}.
Definition classify_disks (specs : list DiskSpec) (resources : list AttachedResource) : list AttachedDisk :=
  zip_with classify_attached specs resources.
Definition classify_warnings (specs : list DiskSpec) (resources : list AttachedResource) : list VmWarning :=
  omap (fun '(spec, resource) =>
    if bool_decide (ds_retention spec = Ephemeral) && negb (created_by_launch resource)
    then Some (DiskReusedAsPersistent (ar_host_path resource) Ephemeral Persistent) else None)
    (zip specs resources).
End Config.

(** ** Which machines have a boot configuration *)

Lemma utf8_nul l : utf8_valid l = true -> nul ∈ l -> 0 ∈ utf8_chars l.
Proof.
  induction l as [l IH] using (induction_ltof1 _ (@length byte)); unfold ltof in IH.
  destruct l as [|b0 l0]; [by intros _ ?%not_elem_of_nil|]. cbn [utf8_valid utf8_chars].
  destruct (in_range 0 127 b0) eqn:R0.
  { intros Hv [<-|Hn]%elem_of_cons; [by left|]. right. apply IH; [cbn; lia|done|done]. }
  assert (N0 : b0 <> nul) by (by intros ->).
  assert (Nc : forall lo hi b, in_range lo hi b = true -> 128 <= lo -> b <> nul).
  { intros lo hi b Hr Hl ->. unfold in_range in Hr. change (b2z nul) with 0 in Hr. lia. }
  assert (Skip : forall b l, b <> nul -> nul ∈ b :: l -> nul ∈ l) by (intros b l Hb [?|?]%elem_of_cons; congruence).
  intros Hv Hn. apply Skip in Hn; [|done].
  destruct l0 as [|b1 l1]; [done|].
  destruct (in_range 194 223 b0) eqn:R1.
  { apply andb_prop in Hv as [H1 Hv]. apply Skip in Hn; [|by eapply Nc]. right. apply IH; [cbn; lia|done|done]. }
  destruct l1 as [|b2 l2]; [done|].
  destruct (in_range 224 239 b0) eqn:R2.
  { assert (H12 : b1 <> nul /\ b2 <> nul /\ utf8_valid l2 = true).
    { repeat match goal with H : (if ?c then _ else _) = true |- _ => destruct c eqn:? end.
      all: try (rewrite !andb_true_iff in Hv; destruct Hv as [[? ?] ?]; split_and!; [by eapply Nc..|done]).
      exfalso. unfold in_range in *. lia. }
    destruct H12 as (? & ? & ?). apply Skip in Hn; [|done]. apply Skip in Hn; [|done]. right. apply IH; [cbn; lia|done|done]. }
  assert (in_range 224 224 b0 = false /\ in_range 237 237 b0 = false /\ in_range 225 239 b0 = false) as (E1 & E2 & E3)
    by (unfold in_range in *; lia).
  rewrite E1, E2, E3 in Hv. destruct l2 as [|b3 l3]; [done|].
  assert (H123 : b1 <> nul /\ b2 <> nul /\ b3 <> nul /\ utf8_valid l3 = true).
  { repeat match goal with H : (if ?c then _ else _) = true |- _ => destruct c eqn:? end; try done.
    all: rewrite !andb_true_iff in Hv; destruct Hv as [[[? ?] ?] ?]; split_and!; [by eapply Nc..|done]. }
  destruct H123 as (? & ? & ? & ?). do 3 (apply Skip in Hn; [|done]). right. apply IH; [cbn; lia|done|done].
Qed.

(** A mount point the host accepts is one the protocol accepts, up to length. *)
Lemma mount_ok_absolute t m :
  mount_ok t -> utf8_valid t = true -> absolute_path m t <-> len t <= m.
Proof.
  intros (segs & _ & E & _ & _ & _ & Hc) Hu. unfold absolute_path. split; [tauto|]. intros Hl.
  split_and!; [by eexists|intros Hn%utf8_nul; [|done]|done].
  rewrite Forall_forall in Hc. apply Hc in Hn. discriminate Hn.
Qed.

Lemma map_res_from {A B} (f : A -> res RuntimeError B) xs zs ws :
  for_each (fun ys x => y ← f x; Ok (ys ++ [y])) xs zs = Ok ws <->
  exists ys, ws = zs ++ ys /\ Forall2 (fun x y => f x = Ok y) xs ys.
Proof.
  revert zs. induction xs as [|x xs IH]; intros zs; cbn [for_each].
  - split; [intros [= <-]; exists []; by rewrite app_nil_r|].
    intros (ys & -> & ->%Forall2_nil_inv_l). by rewrite app_nil_r.
  - destruct (f x) as [y|e|] eqn:E; cbn [mbind res_bind].
    2, 3: split; [done|]; intros (ys & _ & (y & ? & ? & _)%Forall2_cons_inv_l); congruence.
    rewrite IH. split.
    + intros (ys & -> & Hys). exists (y :: ys). rewrite <-app_assoc. split; [done|by constructor].
    + intros (ys & -> & (y' & ys' & Hy & Hys & ->)%Forall2_cons_inv_l). assert (y' = y) as -> by congruence.
      exists ys'. split; [by rewrite <-app_assoc|done].
Qed.
Lemma map_res_iff {A B} (f : A -> res RuntimeError B) xs ys :
  map_res f xs = Ok ys <-> Forall2 (fun x y => f x = Ok y) xs ys.
Proof. unfold map_res. rewrite map_res_from. naive_solver. Qed.

Section Accepted.
Context `{IpNetLaws}.

Definition is_v4 (a : IpAddr) : Prop := exists octets, a = V4 octets.
Definition octets_of (a : IpAddr) : bytes := match a with V4 o => o | V6 _ => [] end.

(** Values that the constructors of [VmModel] can have built. *)
Definition accepted_nat (n : Nat) : Prop :=
  exists subnet gateway guest_ip dns, Nat_try_new subnet gateway guest_ip dns = Ok n.
Definition accepted_mount (d : DiskSpec) : Prop :=
  exists t, utf8_valid t = true /\ GuestMount_new t = Ok (ds_guest_mount d).

Definition guest_network (n : Nat) : GuestNetworkConfigV1 :=
  {| gn_guest_ip := nat_guest_ip n; gn_gateway := nat_gateway n;
     gn_prefix_len := prefix_len (nat_subnet n); gn_dns := map octets_of (nat_dns n) |}.

Lemma guest_dns_iff xs ys :
  Forall2 (fun x y => guest_dns x = Ok y) xs ys <-> Forall is_v4 xs /\ ys = map octets_of xs.
Proof.
  split.
  - induction 1 as [|x y xs ys Hx _ IH]; [done|]. destruct x as [o|o]; [|done]. injection Hx as ->.
    destruct IH as [? ->]. split; [constructor; [by eexists|done]|done].
  - intros [Hf ->]. induction Hf as [|x xs [o ->] _ IH]; by constructor.
Qed.

(** The usable addresses of a subnet agree on the prefix. *)
Lemma usable_prefix net a :
  usable net a -> be_val a / 2 ^ (32 - prefix_len net) = be_val (net_network net) / 2 ^ (32 - prefix_len net).
Proof.
  intros [Hl Hr]. rewrite net_broadcast_last in Hr. pose proof (net_network_aligned net) as Hz.
  pose proof (prefix_len_range net). set (h := 2 ^ (32 - prefix_len net)) in *.
  assert (0 < h) by (apply Z.pow_pos_nonneg; lia).
  pose proof (Z.div_mod (be_val (net_network net)) h ltac:(lia)) as Hd. rewrite Hz, Z.add_0_r in Hd.
  symmetry. apply (Z.div_unique_pos _ _ _ (be_val a - be_val (net_network net))); lia.
Qed.

Lemma ipv4_octets t a : IpAddr_from_str t = Some a -> is_v4 a -> len (octets_of a) = 4.
Proof.
  intros E [o ->]. unfold IpAddr_from_str, parse_with, read_ip_addr in E.
  destruct (read_ipv4_addr t) as [[b s]|] eqn:Eb.
  - apply read_ipv4_inv in Eb as [Hb _]. destruct s; [|done]. by simplify_eq.
  - destruct (read_ipv6_addr t) as [[? []]|]; done.
Qed.

Definition fits_guest (n : Nat) : Prop := 1 <= prefix_len (nat_subnet n) /\ Forall is_v4 (nat_dns n).

Lemma guest_network_fits n :
  accepted_nat n -> fits_guest n -> network_typed (guest_network n) /\ network_valid (guest_network n).
Proof.
  intros (ts & tg & ti & td & Hn) [H1 Hv].
  apply Nat_try_new_iff in Hn as (_ & Hp & Lg & _ & Li & _ & Ug & Ui & Hne & Hd & Hl).
  unfold network_typed, network_valid, ipv4_u32, guest_network. cbn [gn_prefix_len gn_guest_ip gn_gateway gn_dns].
  assert (is_u8 (prefix_len (nat_subnet n))) by (unfold is_u8, in_u; lia).
  split; [split_and!; [done..|]|split; [lia|]; split_and!; [congruence| |]].
  - apply Forall_map. clear -Hd Hv. induction Hd as [|t a td dns Ha _ IH]; [done|].
    apply Forall_cons_iff in Hv as [? ?]. constructor; [by eapply ipv4_octets|by apply IH].
  - by rewrite (usable_prefix _ _ Ui), (usable_prefix _ _ Ug).
  - unfold len. rewrite length_map. apply Forall2_length in Hd. unfold len in Hl. lia.
Qed.

Lemma guest_network_config_iff n g :
  accepted_nat n -> guest_network_config n = Ok g <-> fits_guest n /\ g = guest_network n.
Proof.
  intros Ha. unfold guest_network_config. rewrite bind_ok_iff. setoid_rewrite map_res_iff. setoid_rewrite guest_dns_iff.
  setoid_rewrite map_err_ok. unfold GuestNetworkConfigV1_new. setoid_rewrite bind_unit_ok_iff. split.
  - intros (b & [Hb ->] & Hval & [= <-]). split; [|done]. split; [|done].
    unfold GuestNetworkConfigV1_validate in Hval. apply guard_ok_iff in Hval as [Hp _]. cbn [gn_prefix_len] in Hp. lia.
  - intros [Hf ->]. destruct (guest_network_fits n Ha Hf). eexists. split; [split; [apply Hf|done]|].
    split; [by apply network_validate_iff|done].
Qed.

Definition mount_of (d : DiskSpec) : bytes := gm_path (ds_guest_mount d).
Definition guest_disk (i : nat) (x : AttachedResource * DiskSpec) : GuestDiskConfigV1 :=
  {| gd_device_index := Z.of_nat i; gd_mount_path := mount_of x.2; gd_initialize := created_by_launch x.1 |}.

Lemma accepted_mount_path m d : accepted_mount d -> absolute_path m (mount_of d) <-> len (mount_of d) <= m.
Proof.
  intros (t & Hu & Ht). apply GuestMount_new_iff in Ht as [E Ht]. unfold mount_of. rewrite E.
  by apply mount_ok_absolute.
Qed.

Lemma boot_disk_iff i x g :
  accepted_mount x.2 ->
  boot_disk (i, x) = Ok g <-> Z.of_nat i < 65536 /\ len (mount_of x.2) <= 4096 /\ g = guest_disk i x.
Proof.
  intros Ha. destruct x as [r d]. unfold boot_disk, GuestDiskConfigV1_new.
  destruct (decide (Z.of_nat i < 65536)) as [Hi|Hi].
  - rewrite try_from_u_ok by (unfold in_u; lia). cbn [ok_or mbind res_bind].
    rewrite map_err_ok, bind_unit_ok_iff, disk_validate_iff. cbn [gd_mount_path].
    change (gm_path (ds_guest_mount d)) with (mount_of d). rewrite accepted_mount_path by done. naive_solver.
  - unfold try_from_u. rewrite decide_False by (unfold in_u; lia). cbn. naive_solver.
Qed.

Lemma boot_disks_from xs k gs :
  Forall (fun x => accepted_mount x.2) xs ->
  Forall2 (fun x y => boot_disk x = Ok y) (imap (fun i x => ((k + i)%nat, x)) xs) gs <->
  (xs = [] \/ Z.of_nat (k + length xs) <= 65536) /\ Forall (fun x => len (mount_of x.2) <= 4096) xs
  /\ gs = imap (fun i x => guest_disk (k + i) x) xs.
Proof.
  intros Ha. revert k gs. induction Ha as [|x xs Hx Ha IH]; intros k gs.
  - cbn. split; [intros ->%Forall2_nil_inv_l; by split_and!; [left| |]|]. intros (_ & _ & ->). constructor.
  - rewrite !imap_cons, Nat.add_0_r.
    rewrite (imap_ext _ (fun i x => ((S k + i)%nat, x)) xs) by (intros; cbn; f_equal; lia).
    rewrite (imap_ext (_ ∘ S) (fun i x => guest_disk (S k + i) x) xs) by (intros; cbn; f_equal; lia).
    rewrite Forall_cons_iff. split.
    + intros (g & gs' & Hg & Hgs & ->)%Forall2_cons_inv_l. apply boot_disk_iff in Hg as (? & ? & ->); [|done].
      apply IH in Hgs as (Hk & ? & ->). split_and!; [right|done|done|done]. destruct Hk as [->|?]; cbn in *; lia.
    + intros ([?|Hk] & [Hm ?] & ->); [done|]. cbn in Hk. constructor.
      * apply boot_disk_iff; [done|]. split_and!; [lia|done|done].
      * apply IH. split_and!; [right; lia|done|done].
Qed.

Definition guest_disks (resources : list AttachedResource) (disks : list DiskSpec) : list GuestDiskConfigV1 :=
  imap guest_disk (zip resources disks).

Lemma boot_disks_iff resources disks gs :
  Forall accepted_mount disks -> length resources = length disks ->
  map_res boot_disk (enumerated (zip resources disks)) = Ok gs <->
  Z.of_nat (length disks) <= 65536 /\ Forall (fun d => len (mount_of d) <= 4096) disks
  /\ gs = guest_disks resources disks.
Proof.
  intros Ha Hl. rewrite map_res_iff. unfold enumerated.
  assert (Hz : forall P : DiskSpec -> Prop, Forall (fun x => P x.2) (zip resources disks) <-> Forall P disks).
  { intros P. rewrite <-(snd_zip resources disks) at 2 by lia. by rewrite Forall_fmap. }
  rewrite (boot_disks_from _ 0) by (by apply Hz).
  rewrite (Hz (fun d => len (mount_of d) <= 4096)), length_zip, Hl, Nat.min_id. unfold guest_disks.
  assert (Hn : zip resources disks = [] -> disks = []).
  { intros E. apply (f_equal (fmap snd)) in E. by rewrite snd_zip in E by lia. }
  split; [intros ([?|?] & ? & ?)|intros (? & ? & ?)]; split_and!; auto.
  by rewrite Hn.
Qed.

(** The configuration a machine is given. *)
Definition boot_config (identity : bytes) (capability : SessionCapability) (nonce : bytes)
    (network : option Nat) (resources : list AttachedResource) (disks : list DiskSpec)
    (bootstrap : option BootstrapConfigV1) : BootConfigV1 :=
  {| bc_version := 1; bc_vm_id := identity; bc_capability := capability; bc_host_nonce := nonce;
     bc_network := guest_network <$> network; bc_disks := guest_disks resources disks;
     bc_bootstrap := bootstrap |}.

Lemma guest_disks_fields resources disks :
  length resources = length disks ->
  gd_mount_path <$> guest_disks resources disks = mount_of <$> disks
  /\ NoDup (gd_device_index <$> guest_disks resources disks)
  /\ len (guest_disks resources disks) = len disks.
Proof.
  intros Hl. unfold guest_disks. split_and!.
  - rewrite <-(snd_zip resources disks) at 2 by lia. rewrite fmap_imap.
    rewrite (imap_ext _ (const (mount_of ∘ snd))) by done. by rewrite imap_const, list_fmap_compose.
  - rewrite fmap_imap. apply NoDup_alt. intros i j x Hi Hj. rewrite list_lookup_imap_Some in Hi, Hj.
    destruct Hi as (? & _ & ->), Hj as (? & _ & Hj). cbn in Hj. lia.
  - unfold len. rewrite length_imap, length_zip. lia.
Qed.

Lemma absolute_mounts resources disks :
  Forall accepted_mount disks -> length resources = length disks ->
  Forall (fun d => absolute_path 4096 (gd_mount_path d)) (guest_disks resources disks)
  <-> Forall (fun d => len (mount_of d) <= 4096) disks.
Proof.
  intros Ha Hl. transitivity (Forall (absolute_path 4096) (gd_mount_path <$> guest_disks resources disks)); [by rewrite Forall_fmap|].
  rewrite (proj1 (guest_disks_fields _ _ Hl)), Forall_fmap. rewrite !Forall_forall in *.
  split; intros Hd d Hi; specialize (Hd d Hi); [by apply (proj1 (accepted_mount_path 4096 d (Ha d Hi)))|by apply (proj2 (accepted_mount_path 4096 d (Ha d Hi)))].
Qed.

Lemma option_network_iff network g :
  opt_all accepted_nat network ->
  match network with Some nat => Some <$> guest_network_config nat | None => Ok None end = Ok g <->
  opt_all fits_guest network /\ g = guest_network <$> network.
Proof.
  destruct network as [n|]; cbn [opt_all]; [|naive_solver]. intros Hn.
  pose proof (fun g => guest_network_config_iff n g Hn) as Hiff.
  destruct (guest_network_config n) as [c|e|] eqn:E; cbn [fmap res_fmap option_fmap option_map].
  1: destruct (proj1 (Hiff c) eq_refl) as (? & ->); naive_solver.
  all: split; [done|]; intros [Hf _]; discriminate (proj2 (Hiff (guest_network n)) (conj Hf eq_refl)).
Qed.

Lemma option_network_fits network :
  opt_all accepted_nat network -> opt_all fits_guest network ->
  opt_all network_typed (guest_network <$> network) /\ opt_all network_valid (guest_network <$> network).
Proof. destruct network; cbn; [apply guest_network_fits|done]. Qed.

Lemma boot_config_valid_iff identity capability nonce network resources disks bootstrap :
  Forall accepted_mount disks -> length resources = length disks ->
  opt_all network_valid (guest_network <$> network) ->
  BootConfigV1_valid (boot_config identity capability nonce network resources disks bootstrap) <->
  len disks <= 64 /\ Forall (fun d => len (mount_of d) <= 4096) disks /\ NoDup (mount_of <$> disks)
  /\ opt_all bootstrap_valid bootstrap.
Proof.
  intros Hm Hl Hn. destruct (guest_disks_fields _ _ Hl) as (E1 & E2 & E3).
  unfold BootConfigV1_valid, boot_config.
  cbn [bc_version bc_network bc_disks bc_bootstrap]. rewrite absolute_mounts, E1, E3 by done. tauto.
Qed.

(** A machine the host accepts has a boot configuration unless one of four
    limits is exceeded, and it says what was asked for.  For a network built by
    [Nat::try_new] and mounts built by [GuestMount::new], the configuration is
    built exactly when the network's prefix is not empty and its DNS servers are
    IPv4, there are at most 64 disks, no mount path is longer than 4096 bytes
    or used twice, and the bootstrap command, if any, is valid; then it carries
    the machine's identity, the addresses of the network, and each disk in
    order, marked for initialisation iff this launch created its file. *)
Theorem boot_config_built_exactly identity resources capability nonce network disks bootstrap c :
  opt_all accepted_nat network -> Forall accepted_mount disks -> length resources = length disks ->
  build_boot_config identity resources capability (Some nonce) network disks bootstrap = Ok c <->
  opt_all fits_guest network
  /\ len disks <= 64 /\ Forall (fun d => len (mount_of d) <= 4096) disks /\ NoDup (mount_of <$> disks)
  /\ opt_all bootstrap_valid bootstrap
  /\ c = boot_config identity capability nonce network resources disks bootstrap.
Proof.
  intros Hn Hm Hl. pose proof (boot_config_valid_iff identity capability nonce network resources disks) as Hiff.
  unfold build_boot_config. rewrite bind_ok_iff. split.
  - intros (g & Hg & H1). apply option_network_iff in Hg as (Hc & ->); [|done].
    destruct (option_network_fits _ Hn Hc) as [Ht Hv].
    apply bind_ok_iff in H1 as (ds & Hd & H1). apply boot_disks_iff in Hd as (_ & _ & ->); [|done..].
    cbn [ok_or mbind res_bind] in H1. apply bind_ok_iff in H1 as (c0 & Hc0%map_err_ok & H1).
    unfold BootConfigV1_new in Hc0. apply bind_unit_ok_iff in Hc0 as [Hc0 [= <-]].
    apply BootConfigV1_validate_net_iff in Hc0; [|done]. destruct bootstrap as [b|].
    + apply map_err_ok in H1. unfold with_bootstrap in H1. apply bind_unit_ok_iff in H1 as [H1 [= <-]].
      apply BootConfigV1_validate_net_iff in H1; [|done]. by apply (Hiff (Some b)) in H1 as (? & ? & ? & ?).
    + injection H1 as <-. by apply (Hiff None) in Hc0 as (? & ? & ? & _).
  - intros (Hc & H64 & H4096 & Hnd & Hb & ->). destruct (option_network_fits _ Hn Hc) as [Ht Hv].
    eexists. split; [by apply option_network_iff|]. apply bind_ok_iff. eexists.
    split; [apply boot_disks_iff; [done..|split_and!; [unfold len in *; lia|done|done]]|].
    cbn [ok_or mbind res_bind]. unfold BootConfigV1_new.
    set (c0 := {| bc_bootstrap := None |}).
    assert (BootConfigV1_validate c0 = Ok tt) as ->.
    { apply BootConfigV1_validate_net_iff; [done|]. by apply (Hiff None). }
    cbn [mbind res_bind map_err]. destruct bootstrap as [b|]; [|done].
    unfold with_bootstrap. assert (BootConfigV1_validate (set_bootstrap c0 (Some b)) = Ok tt) as ->; [|done].
    apply BootConfigV1_validate_net_iff; [done|]. by apply (Hiff (Some b)).
Qed.
End Accepted.

(** A machine at one of the limits: a network that [Nat::try_new] accepts and
    the protocol does not. *)
#[local] Existing Instance simple_net.
#[local] Existing Instance simple_net_laws.

Definition outcome {E A} (r : res E A) (d : A) : A := match r with Ok a => a | _ => d end.
Definition no_nat : Nat := {| nat_subnet := (0, 0); nat_gateway := []; nat_guest_ip := []; nat_dns := [] |}.
Definition sample_nat : Nat :=
  outcome (Nat_try_new (str "10.77.0.0/24") (str "10.77.0.1") (str "10.77.0.10") [str "8.8.8.8"]) no_nat.
Definition sample_mount : GuestMount := outcome (GuestMount_new (str "/build")) {| gm_path := [] |}.
Definition sample_disk : DiskSpec :=
  {| ds_host_path := on_c [Normal (units "x.vhdx")]; ds_create_size_mb := 1; ds_guest_mount := sample_mount;
     ds_retention := Ephemeral; ds_on_existing := ReuseAndKeep |}.
Definition sample_resource : AttachedResource :=
  {| ar_host_path := on_c [Normal (units "x.vhdx")]; created_by_launch := true |}.
Definition sample_capability : SessionCapability := {| cap_bytes := repeat (z2b 7) 32 |}.

Lemma accepted_outcome {E A} (r : res E A) d : is_ok r = true -> r = Ok (outcome r d).
Proof. by destruct r. Qed.

Lemma boot_config_built_exactly_witness :
  exists c, build_boot_config (repeat (z2b 1) 16) [sample_resource] sample_capability (Some (repeat (z2b 2) 32))
              (Some sample_nat) [sample_disk] None = Ok c.
Proof.
  eexists. apply (boot_config_built_exactly (repeat (z2b 1) 16) [sample_resource] sample_capability
    (repeat (z2b 2) 32) (Some sample_nat) [sample_disk] None).
  - eexists _, _, _, _. apply (accepted_outcome _ no_nat). vm_compute. reflexivity.
  - constructor; [|constructor]. eexists (str "/build"). split; [reflexivity|].
    apply (accepted_outcome _ {| gm_path := [] |}). vm_compute. reflexivity.
  - reflexivity.
  - split; [split; [vm_compute; discriminate|]|split; [vm_compute; discriminate|split; [|split; [|split; [exact I|reflexivity]]]]].
    + constructor; [|constructor]. eexists. vm_compute. reflexivity.
    + constructor; [vm_compute; discriminate|constructor].
    + apply NoDup_singleton.
Defined.

(** The network of all addresses is accepted by the model and refused when the
    boot configuration is built, that is after the machine was started; so is
    an IPv6 DNS server. *)
Definition wide_nat : res NatError Nat := Nat_try_new (str "0.0.0.0/0") (str "10.0.0.1") (str "10.0.0.2") [].
Definition v6_nat : res NatError Nat := Nat_try_new (str "10.0.0.0/8") (str "10.0.0.1") (str "10.0.0.2") [str "::1"].
Example refused_late :
  is_ok wide_nat = true /\ guest_network_config (outcome wide_nat no_nat) = Err RE_Protocol
  /\ is_ok v6_nat = true /\ guest_network_config (outcome v6_nat no_nat) = Err RE_Protocol
  /\ size_memory 0 (Some (2 ^ 64 - 1)) = Panic.
Proof. by vm_compute. Qed.
