(* ===== verification/Runtime.v ===== *)
(** * The launch and shutdown flows of a machine

    [libs/jyth-runtime/src]: the launcher ([launch.rs]), the live machine
    ([live_vm.rs]), its observer ([observer.rs]), the packaged actions
    ([actions.rs]) and the error translation ([error.rs]).

    An [async fn] is a [flow]: it calls the ports injected by the facade,
    waits for their answers, and may be dropped at any [await].  What the drop
    of the future drops with it is part of the [await]: the combinator
    [scoped] adds a local variable's destructor to every [await] of its scope
    and to every return but the one that moves the variable out.  The traces
    of a flow are its histories, with any answers and with cancellation at
    any [await]. *)

From Stdlib Require Import ZArith Lia.
From stdpp Require Import base tactics option list numbers strings pretty gmultiset.
From S2P Require Import Prelude Bytes Text Wire BootConfig Messages Guid IpAddr HcsJournal VmModel LaunchConfig.

(** ** The lifecycle observer *)

Inductive VmFinish : Type := Finish_Shutdown | Finish_Dropped.
Inductive VmPhase : Type := Phase_Launch | Phase_Shutdown.
Record VmFailure : Type := { vf_phase : VmPhase; vf_message : bytes }.
Inductive VmState : Type := Pending | Launching | VmRunning | Finished (finish : VmFinish) | Failed (failure : VmFailure).

#[global] Instance VmFinish_eq_dec : EqDecision VmFinish.
Proof. solve_decision. Defined.
#[global] Instance VmPhase_eq_dec : EqDecision VmPhase.
Proof. solve_decision. Defined.
#[global] Instance VmFailure_eq_dec : EqDecision VmFailure.
Proof. solve_decision. Defined.
#[global] Instance VmState_eq_dec : EqDecision VmState.
Proof. solve_decision. Defined.

Definition is_terminal (s : VmState) : bool := match s with Finished _ | Failed _ => true | _ => false end.

(** [VmLifecycle::set] on the value the watch channel retains. *)
Definition set (current next : VmState) : VmState := if is_terminal current then current else next.

Definition closed_failure : VmFailure :=
  {| vf_phase := Phase_Launch; vf_message := str "VM lifecycle sender closed before launch completed" |}.
Definition started_from_closed (s : VmState) : res VmFailure unit :=
  match s with VmRunning | Finished _ => Ok tt | Failed failure => Err failure | Pending | Launching => Err closed_failure end.
Definition finished_from_closed (s : VmState) : res VmFailure VmFinish :=
  match s with Finished finish => Ok finish | Failed failure => Err failure | Pending | Launching | VmRunning => Err closed_failure end.

(** One turn of the loops of [VmObserver]: the retained state and whether
    every sender is gone; [None] waits for the next change. *)
Definition observer_started (s : VmState) (closed : bool) : option (res VmFailure unit) :=
  match s with
  | VmRunning | Finished _ => Some (Ok tt)
  | Failed failure => Some (Err failure)
  | Pending | Launching => if closed then Some (started_from_closed s) else None
  end.
Definition observer_finished (s : VmState) (closed : bool) : option (res VmFailure VmFinish) :=
  match s with
  | Finished finish => Some (Ok finish)
  | Failed failure => Some (Err failure)
  | Pending | Launching | VmRunning => if closed then Some (finished_from_closed s) else None
  end.

(** ** The ports *)

Inductive RetryDisposition : Type := Retryable | Permanent.
Inductive BackendErrorCategory : Type :=
  | Unavailable | Capability | CreateFailed | StartFailed | Publication | CloseFailed | Transient.
Record BackendError : Type := { be_category : BackendErrorCategory; be_retry : RetryDisposition; be_message : bytes }.
#[global] Instance RetryDisposition_eq_dec : EqDecision RetryDisposition.
Proof. solve_decision. Defined.

Record BackendCapabilities : Type := { available : bool; networking : bool; cap_disks : bool }.
Definition BackendCapabilities_unavailable : BackendCapabilities :=
  {| available := false; networking := false; cap_disks := false |}.

Inductive BootChannelErrorKind : Type := Channel_Timeout | Channel_Protocol | Channel_Authentication.
Inductive ClientError : Type := Client_Unavailable | Client_Create.
Inductive GuestClientError : Type :=
  | GC_Transport | GC_RequestTimedOut | GC_Guest (code : GuestErrorCode) (message : bytes) | GC_UnexpectedReply
  | GC_Shutdown | GC_InvalidState | GC_ProcessClose | GC_Bind.

(** [Display] of the error types. *)
Definition GuestErrorCode_display (code : GuestErrorCode) : bytes :=
  match code with
  | Guest_ProcessStart => str "guest process start failed"
  | Guest_ProcessStop => str "guest process stop failed"
  | Guest_ProcessWait => str "guest process wait failed"
  | Guest_ProcessClose => str "guest process close failed"
  | Guest_FileRead => str "guest file read failed"
  | Guest_FileWrite => str "guest file write failed"
  | Guest_FileRemove => str "guest file remove failed"
  | Guest_DirRead => str "guest dir read failed"
  | Guest_DirCreate => str "guest dir create failed"
  | Guest_DirRemove => str "guest dir remove failed"
  | Guest_Unknown code => str "guest error (unknown code " ++ str (pretty code) ++ str ")"
  end.
Definition RuntimeError_display (e : RuntimeError) : bytes :=
  match e with
  | RE_Build => str "image build / overlay pipeline error"
  | RE_Transport => str "TCP command transport error"
  | RE_NetworkRequired => str "network configuration required for a normal launch"
  | RE_RequestTimedOut => str "guest request timed out"
  | RE_Protocol => str "protocol (de)serialization error"
  | RE_Authentication => str "command transport authentication failed"
  | RE_Hypervisor => str "hypervisor error"
  | RE_Guest code => str "guest reported: " ++ GuestErrorCode_display code
  | RE_UnexpectedReply => str "guest reply did not match the command sent"
  | RE_ReadyTimeout => str "timed out waiting for guest READY handshake"
  | RE_VmCreate => str "failed to create or start the VM"
  | RE_Shutdown => str "shutdown failed or channel closed"
  | RE_ProcessClose => str "process close failed or process already gone"
  | RE_Bind => str "process bind failed to establish the stdio pipe"
  | RE_InvalidState => str "object in an invalid lifecycle state for this call"
  end.
Definition GuestClientError_display (e : GuestClientError) : bytes :=
  match e with
  | GC_Transport => str "TCP command transport error"
  | GC_RequestTimedOut => str "guest request timed out"
  | GC_Guest code message => str "guest reported error " ++ GuestErrorCode_display code ++ str ": " ++ message
  | GC_UnexpectedReply => str "guest reply did not match the command sent"
  | GC_Shutdown => str "guest command channel is shut down or closed"
  | GC_InvalidState => str "process handle is closed"
  | GC_ProcessClose => str "process close failed"
  | GC_Bind => str "process stdio bind failed"
  end.

Record PreparedBootArtifacts : Type := { pa_kernel : Path; pa_initrd : Path; uncompressed_rootfs_size : Z }.
Inductive BootOverlayEntryKind : Type :=
  | Overlay_File (content : bytes) (mode : Z) (origin : bytes)
  | Overlay_Directory (mode : Z).
Record BootOverlayEntry : Type := { oe_path : bytes; oe_kind : BootOverlayEntryKind }.

(** A boxed instance: which one, and what it reports about itself. *)
Record VmInstance : Type := { vi_handle : nat; identity : bytes; attached_resources : list AttachedResource }.
(** A guest client, behind its [Arc]. *)
Definition ClientId : Type := nat.

Definition COMMAND_PORT : Z := 1024.
Record CommandEndpoint : Type := { ce_ip : Ipv4Addr; ce_port : Z }.

(** Scheduler triggers and prepared guest processes are handed through. *)
Class Scheduled := { Trigger : Type; PreparedProcess : Type }.

Section Flows.
Context `{IpNet} `{Scheduled}.

Record VmLaunchSpec : Type := {
  ls_kernel : Path; ls_initrd : Path; ls_memory_mb : Z; ls_vcpu_count : Z; ls_cmdline : bytes;
  ls_network : option Nat; ls_disks : list DiskSpec }.

Record LaunchRequest : Type := {
  kernel_source : Path; rootfs_source : Path; overlay_entries : list BootOverlayEntry;
  req_memory_mb : option Z; req_vcpu_count : option Z; req_cmdline : bytes;
  req_network : option Nat; req_disks : list DiskSpec }.
Record ScheduledProcess : Type := { sp_trigger : Trigger; sp_process : PreparedProcess }.
Record Launch : Type := {
  request : LaunchRequest; scheduled_processes : list ScheduledProcess; shutdown_trigger : option Trigger }.
Record PreparedLaunch : Type := {
  pl_instance : VmInstance; pl_boot_config : BootConfigV1; pl_capability : SessionCapability }.
Record RetryPolicy : Type := { max_attempts : Z; retry_delay : Z }.
Definition RetryPolicy_default : RetryPolicy := {| max_attempts := 6; retry_delay := 10 |}.

Definition CommandEndpoint_from (nat : Nat) : CommandEndpoint :=
  {| ce_ip := nat_guest_ip nat; ce_port := COMMAND_PORT |}.

Inductive ScheduledAction : Type :=
  | ProcessAction (scheduled : ScheduledProcess) (client : ClientId)
  | ShutdownAction (trigger : Trigger) (client : ClientId) (observed : bool).

(** ** Calls, effects and flows *)

Inductive call : Type :=
  | PrepareArtifacts (kernel rootfs : Path) (overlay : list BootOverlayEntry)
  | Capabilities
  | Create (spec : VmLaunchSpec)
  | Start (i : VmInstance)
  | Sleep (delay : Z)
  | GenerateCapability
  | GenerateNonce
  | ExchangeReady (i : VmInstance) (cfg : BootConfigV1)
  | CreateClient (i : VmInstance) (capability : SessionCapability) (endpoint : CommandEndpoint)
  | MarkPublished (i : VmInstance)
  | JoinScheduler
  | CloseCleanupTasks (client : ClientId)
  | Request (client : ClientId) (cmd : Command)
  | StopDispatcher (client : ClientId)
  | Close (i : VmInstance).

(** The answers; [Panic] is a panic inside the port. *)
Definition answer (c : call) : Type :=
  match c with
  | PrepareArtifacts _ _ _ => res unit PreparedBootArtifacts
  | Capabilities => BackendCapabilities
  | Create _ => res BackendError VmInstance
  | Start _ | MarkPublished _ | Close _ => res BackendError unit
  | GenerateCapability => option SessionCapability
  | GenerateNonce => option bytes
  | ExchangeReady _ _ => res BootChannelErrorKind unit
  | CreateClient _ _ _ => res ClientError ClientId
  | Request _ _ => res GuestClientError Event
  | Sleep _ | JoinScheduler | CloseCleanupTasks _ | StopDispatcher _ => unit
  end.

Inductive effect : Type :=
  | DropInstance (i : VmInstance)
  | DropClient (client : ClientId)
  | AbortAll (client : ClientId)
  | StartScheduler (actions : list ScheduledAction)
  | CancelScheduler
  | Observe (s : VmState).

Inductive flow (A : Type) : Type :=
  | Ret (a : A)
  | Await (c : call) (cleanup : list effect) (k : answer c -> flow A)
  | Now (c : call) (k : answer c -> flow A)
  | Emit (e : effect) (k : flow A).
Arguments Ret {A} _.
Arguments Await {A} _ _ _.
Arguments Now {A} _ _.
Arguments Emit {A} _ _.

Fixpoint flow_bind {A B} (m : flow A) (f : A -> flow B) : flow B :=
  match m with
  | Ret a => f a
  | Await c cl k => Await c cl (fun r => flow_bind (k r) f)
  | Now c k => Now c (fun r => flow_bind (k r) f)
  | Emit e k => Emit e (flow_bind k f)
  end.

Definition await (c : call) : flow (answer c) := Await c [] Ret.
Definition now (c : call) : flow (answer c) := Now c Ret.
Definition emits (es : list effect) {A} (m : flow A) : flow A := fold_right Emit m es.

(** The [?] operator, and [map_err(..)?]. *)
Definition try_ {E A B} (m : flow (res E A)) (f : A -> flow (res E B)) : flow (res E B) :=
  flow_bind m (fun r => match r with Ok a => f a | Err e => Ret (Err e) | Panic => Ret Panic end).
Definition try_map {E F A B} (g : E -> F) (m : flow (res E A)) (f : A -> flow (res F B)) : flow (res F B) :=
  flow_bind m (fun r => match r with Ok a => f a | Err e => Ret (Err (g e)) | Panic => Ret Panic end).

(** Destructors that run if the flow is dropped at one of its awaits. *)
Fixpoint holding {A} (cl : list effect) (m : flow A) : flow A :=
  match m with
  | Ret a => Ret a
  | Await c cl' k => Await c (cl' ++ cl) (fun r => holding cl (k r))
  | Now c k => Now c (fun r => holding cl (k r))
  | Emit e k => Emit e (holding cl k)
  end.

(** A local variable that a successful return moves out. *)
Definition scoped {E A} (d : effect) (m : flow (res E A)) : flow (res E A) :=
  flow_bind (holding [d] m) (fun r =>
    match r with Ok a => Ret (Ok a) | Err e => Emit d (Ret (Err e)) | Panic => Emit d (Ret Panic) end).

(** ** Creation with retries *)

(** The [async] block of one attempt. *)
Definition create_once (spec : VmLaunchSpec) : flow (res BackendError VmInstance) :=
  try_ (await (Create spec)) (fun instance =>
  scoped (DropInstance instance)
    (try_ (await (Start instance)) (fun _ => Ret (Ok instance)))).

Fixpoint create_attempts (retry : RetryPolicy) (spec : VmLaunchSpec) (remaining : nat) (attempt : Z)
    (last_error : option RuntimeError) : flow (res RuntimeError VmInstance) :=
  match remaining with
  | O => Ret (Err (default RE_VmCreate last_error))
  | S remaining =>
      flow_bind (create_once spec) (fun outcome =>
      match outcome with
      | Ok instance => Ret (Ok instance)
      | Err error =>
          if bool_decide (be_retry error = Retryable) && (attempt <? max_attempts retry)
          then flow_bind (await (Sleep (retry_delay retry))) (fun _ =>
               create_attempts retry spec remaining (attempt + 1) (Some RE_VmCreate))
          else Ret (Err RE_VmCreate)
      | Panic => Ret Panic
      end)
  end.
Definition create_and_start (retry : RetryPolicy) (spec : VmLaunchSpec) : flow (res RuntimeError VmInstance) :=
  create_attempts retry spec (Z.to_nat (max_attempts retry)) 1 None.

(** ** The launch flow *)

(** [Launcher::prepare].  The nonce is drawn inside [build_boot_config]. *)
Definition prepare (retry : RetryPolicy) (req : LaunchRequest) (bootstrap : option BootstrapConfigV1)
    : flow (res RuntimeError PreparedLaunch) :=
  try_map (fun _ => RE_Build) (await (PrepareArtifacts (kernel_source req) (rootfs_source req) (overlay_entries req)))
    (fun artifacts =>
  flow_bind (now Capabilities) (fun capabilities =>
  if negb (available capabilities) then Ret (Err RE_VmCreate) else
  if bool_decide (is_Some (req_network req)) && negb (networking capabilities) then Ret (Err RE_VmCreate) else
  if negb (bool_decide (req_disks req = [])) && negb (cap_disks capabilities) then Ret (Err RE_VmCreate) else
  try_ (Ret (size_memory (uncompressed_rootfs_size artifacts) (req_memory_mb req))) (fun memory_mb =>
  let vcpu_count := default 1 (req_vcpu_count req) in
  let spec := {| ls_kernel := pa_kernel artifacts; ls_initrd := pa_initrd artifacts; ls_memory_mb := memory_mb;
                 ls_vcpu_count := vcpu_count; ls_cmdline := req_cmdline req;
                 ls_network := req_network req; ls_disks := req_disks req |} in
  try_ (create_and_start retry spec) (fun instance =>
  scoped (DropInstance instance) (
  flow_bind (now GenerateCapability) (fun generated =>
  try_ (Ret (ok_or generated RE_Authentication)) (fun capability =>
  flow_bind (now GenerateNonce) (fun nonce =>
  try_ (Ret (build_boot_config (identity instance) (attached_resources instance) capability nonce
               (req_network req) (req_disks req) bootstrap)) (fun boot_config =>
  Ret (Ok {| pl_instance := instance; pl_boot_config := boot_config; pl_capability := capability |})))))))))).

Record LiveVm : Type := {
  lv_instance : option VmInstance; lv_client : ClientId; lv_observer : bool; lv_scheduler : bool;
  lv_attached_disks : list AttachedDisk; lv_warnings : list VmWarning;
  lv_capability : SessionCapability; lv_command_endpoint : CommandEndpoint }.

(** [if let Some(observer) = &observer { observer.set(..) }]. *)
Definition observe (observed : bool) (s : VmState) : list effect := if observed then [Observe s] else [].

Definition package_actions (scheduled : list ScheduledProcess) (trigger : option Trigger) (client : ClientId)
    (observer : bool) : list ScheduledAction :=
  map (fun s => ProcessAction s client) scheduled ++
  match trigger with Some t => [ShutdownAction t client observer] | None => [] end.

(** [LiveVm::new]: the scheduler is started when there is an action. *)
Definition LiveVm_new {E} (instance : VmInstance) (client : ClientId) (actions : list ScheduledAction) (observer : bool)
    (attached_disks : list AttachedDisk) (warnings : list VmWarning) (capability : SessionCapability)
    (command_endpoint : CommandEndpoint) : flow (res E LiveVm) :=
  let scheduler := negb (bool_decide (length actions = 0%nat)) in
  emits (if scheduler then [StartScheduler actions] else [])
    (Ret (Ok {| lv_instance := Some instance; lv_client := client; lv_observer := observer; lv_scheduler := scheduler;
                lv_attached_disks := attached_disks; lv_warnings := warnings;
                lv_capability := capability; lv_command_endpoint := command_endpoint |})).

(** [LiveVm::uuid]: nil once the instance is gone. *)
Definition LiveVm_uuid (v : LiveVm) : bytes :=
  match lv_instance v with Some i => identity i | None => repeat nul 16 end.

Definition ready_context (kind : BootChannelErrorKind) : RuntimeError :=
  match kind with
  | Channel_Timeout => RE_ReadyTimeout
  | Channel_Protocol => RE_Protocol
  | Channel_Authentication => RE_Authentication
  end.

Definition launch_inner (retry : RetryPolicy) (l : Launch) (observer : bool) : flow (res RuntimeError LiveVm) :=
  match req_network (request l) with
  | None => Ret (Err RE_NetworkRequired)
  | Some network =>
      let command_endpoint := CommandEndpoint_from network in
      try_ (prepare retry (request l) None) (fun prepared =>
      let instance := pl_instance prepared in
      scoped (DropInstance instance) (
      try_map ready_context (await (ExchangeReady instance (pl_boot_config prepared))) (fun _ =>
      try_map (fun _ => RE_Transport) (await (CreateClient instance (pl_capability prepared) command_endpoint)) (fun client =>
      scoped (DropClient client) (
      try_map (fun _ => RE_Hypervisor) (await (MarkPublished instance)) (fun _ =>
      let attached_disks := classify_disks (req_disks (request l)) (attached_resources instance) in
      let warnings := classify_warnings (req_disks (request l)) (attached_resources instance) in
      let actions := package_actions (scheduled_processes l) (shutdown_trigger l) client observer in
      LiveVm_new instance client actions observer attached_disks warnings (pl_capability prepared) command_endpoint))))))
  end.

Definition Launcher_launch (retry : RetryPolicy) (l : Launch) (observer : bool) : flow (res RuntimeError LiveVm) :=
  emits (observe observer Launching) (
  flow_bind (launch_inner retry l observer) (fun r =>
  match r with
  | Ok live => emits (observe observer VmRunning) (Ret (Ok live))
  | Err error => emits (observe observer (Failed {| vf_phase := Phase_Launch; vf_message := RuntimeError_display error |}))
                   (Ret (Err error))
  | Panic => Ret Panic
  end)).

(** ** The live machine *)

(** [Drop for LiveVm], then the fields. *)
Definition drop_live (v : LiveVm) : list effect :=
  (if lv_scheduler v then [CancelScheduler] else []) ++ [AbortAll (lv_client v)] ++
  match lv_instance v with
  | Some i => DropInstance i :: observe (lv_observer v) (Finished Finish_Dropped)
  | None => []
  end ++ [DropClient (lv_client v)].

Definition map_client_error (error : GuestClientError) : RuntimeError :=
  match error with
  | GC_Transport => RE_Transport
  | GC_RequestTimedOut => RE_RequestTimedOut
  | GC_Guest code _ => RE_Guest code
  | GC_UnexpectedReply => RE_UnexpectedReply
  | GC_Shutdown => RE_Shutdown
  | GC_InvalidState => RE_InvalidState
  | GC_ProcessClose => RE_ProcessClose
  | GC_Bind => RE_Bind
  end.
Definition change_context (_ e : RuntimeError) : RuntimeError := e.

Definition take_scheduler (v : LiveVm) : LiveVm :=
  {| lv_instance := lv_instance v; lv_client := lv_client v; lv_observer := lv_observer v; lv_scheduler := false;
     lv_attached_disks := lv_attached_disks v; lv_warnings := lv_warnings v;
     lv_capability := lv_capability v; lv_command_endpoint := lv_command_endpoint v |}.
Definition take_instance (v : LiveVm) : LiveVm :=
  {| lv_instance := None; lv_client := lv_client v; lv_observer := lv_observer v; lv_scheduler := lv_scheduler v;
     lv_attached_disks := lv_attached_disks v; lv_warnings := lv_warnings v;
     lv_capability := lv_capability v; lv_command_endpoint := lv_command_endpoint v |}.

(** Joining the scheduler, closing the retained processes, asking the guest,
    stopping the dispatcher: the result of the guest's part. *)
Definition guest_shutdown (v : LiveVm) : flow (res RuntimeError (res RuntimeError unit)) :=
  flow_bind (if lv_scheduler v then await JoinScheduler else Ret tt) (fun _ =>
  flow_bind (await (CloseCleanupTasks (lv_client v))) (fun _ =>
  flow_bind (await (Request (lv_client v) Command_VMShutdown)) (fun reply =>
  match reply with
  | Panic => Ret Panic
  | _ =>
      let guest_result :=
        match reply with
        | Ok Event_Shutdowned => Ok tt
        | Ok _ => Err RE_UnexpectedReply
        | Err error => Err (change_context (map_client_error error) RE_Shutdown)
        | Panic => Panic
        end in
      flow_bind (await (StopDispatcher (lv_client v))) (fun _ => Ret (Ok guest_result))
  end))).

Definition host_close (v : LiveVm) : flow (res RuntimeError (res RuntimeError unit)) :=
  match lv_instance v with
  | Some instance =>
      flow_bind (await (Close instance)) (fun r =>
      match r with
      | Ok _ => Ret (Ok (Ok tt))
      | Err _ => Ret (Ok (Err RE_Hypervisor))
      | Panic => Ret Panic
      end)
  | None => Ret (Ok (Ok tt))
  end.

(** The last [match]: what the observer is told and what is returned. *)
Definition shutdown_failed (observer : bool) (message : bytes) (context : RuntimeError)
    : list effect * res RuntimeError unit :=
  (observe observer (Failed {| vf_phase := Phase_Shutdown; vf_message := message |}),
   Err (change_context context RE_Shutdown)).
Definition shutdown_outcome (observer : bool) (guest host : res RuntimeError unit) : list effect * res RuntimeError unit :=
  match guest, host with
  | Ok _, Ok _ => (observe observer (Finished Finish_Shutdown), Ok tt)
  | Err guest, Ok _ => shutdown_failed observer (RuntimeError_display guest) guest
  | Ok _, Err host => shutdown_failed observer (RuntimeError_display host) host
  | Err guest, Err host =>
      shutdown_failed observer
        (str "host cleanup failed: " ++ RuntimeError_display host ++ str "; guest shutdown failed: "
           ++ RuntimeError_display guest) host
  | Panic, _ | _, Panic => ([], Panic)
  end.

(** [LiveVm::shutdown] consumes the machine: whatever way it ends, what is
    left of it is dropped. *)
Definition LiveVm_shutdown (v : LiveVm) : flow (res RuntimeError unit) :=
  emits (if lv_scheduler v then [CancelScheduler] else []) (
  let v1 := take_scheduler v in
  flow_bind (holding (drop_live v1) (guest_shutdown v)) (fun guest =>
  match guest with
  | Ok guest_result =>
      let v2 := take_instance v1 in
      flow_bind (holding (drop_live v2) (host_close v1)) (fun host =>
      match host with
      | Ok host_result =>
          let '(observed, result) := shutdown_outcome (lv_observer v) guest_result host_result in
          emits observed (emits (drop_live v2) (Ret result))
      | _ => emits (drop_live v2) (Ret Panic)
      end)
  | _ => emits (drop_live v1) (Ret Panic)
  end)).

(** ** The packaged actions *)

(** [shutdown_action]'s body, run by the scheduler: [true] is
    [ActionResult::success]. *)
Definition shutdown_action (client : ClientId) (observer : bool) : flow (res bytes unit) :=
  flow_bind (await (Request client Command_VMShutdown)) (fun reply =>
  match reply with
  | Ok Event_Shutdowned => emits (observe observer (Finished Finish_Shutdown)) (Ret (Ok tt))
  | Ok other =>
      let message := str "unexpected " ++ Event_kind other ++ str " reply to VMShutdown" in
      emits (observe observer (Failed {| vf_phase := Phase_Shutdown; vf_message := message |})) (Ret (Err message))
  | Err error =>
      let message := GuestClientError_display error in
      emits (observe observer (Failed {| vf_phase := Phase_Shutdown; vf_message := message |})) (Ret (Err message))
  | Panic => Ret Panic
  end).

(** [process_action]: the trigger's continuation and the action share the
    holder of the prepared process.  The continuation answers the process it
    reports as cancelled, if any. *)
Definition process_trigger (resolved : bool) (holder : option PreparedProcess)
    : option PreparedProcess * option PreparedProcess :=
  if negb resolved then (holder, None) else (None, holder).
Definition process_start (holder : option PreparedProcess) : res bytes PreparedProcess * option PreparedProcess :=
  (expect holder, None).
End Flows.

Arguments Ret {_ _ A} _.
Arguments Await {_ _ A} _ _ _.
Arguments Now {_ _ A} _ _.
Arguments Emit {_ _ A} _ _.

(** ** Traces *)

Section Traces.
Context `{IpNet} `{Scheduled}.

(** An answered call, a call whose [await] was dropped, an effect. *)
Inductive event : Type :=
  | Answered (c : call) (r : answer c)
  | Cancelled (c : call)
  | Did (e : effect).
Inductive outcome (A : Type) : Type := Returned (a : A) | Dropped.
Arguments Returned {A} _.
Arguments Dropped {A}.

Fixpoint runs {A} (m : flow A) (t : list event) (o : outcome A) : Prop :=
  match m with
  | Ret a => t = [] /\ o = Returned a
  | Await c cl k =>
      (exists r t', t = Answered c r :: t' /\ runs (k r) t' o)
      \/ (t = Cancelled c :: (Did <$> cl) /\ o = Dropped)
  | Now c k => exists r t', t = Answered c r :: t' /\ runs (k r) t' o
  | Emit e k => exists t', t = Did e :: t' /\ runs k t' o
  end.

Lemma flow_runs_bind {A B} (m : flow A) (f : A -> flow B) t o :
  runs (flow_bind m f) t o <->
  (exists t1 a t2, t = t1 ++ t2 /\ runs m t1 (Returned a) /\ runs (f a) t2 o)
  \/ (runs m t Dropped /\ o = Dropped).
Proof.
  revert t. induction m as [a|c cl k IH|c k IH|e k IH]; intros t; cbn [flow_bind runs].
  - split; [intros Hf; left; by exists [], a, t|]. intros [(t1 & a' & t2 & -> & [-> [= ->]] & Hf)|[[_ ?] _]]; [done|done].
  - split.
    + intros [(r & t' & -> & [(t1 & a & t2 & -> & H1 & H2)|[H1 ->]]%IH)|[-> ->]].
      * left. exists (Answered c r :: t1), a, t2. split_and!; [done|left; eauto|done].
      * right. split; [left; eauto|done].
      * right. split; [by right|done].
    + intros [(t1 & a & t2 & -> & [(r & t' & -> & H1)|[_ ?]] & H2)|[[(r & t' & -> & H1)|[-> _]] ->]]; [|done| |by right].
      * left. exists r, (t' ++ t2). split; [done|]. apply IH. left. by exists t', a, t2.
      * left. exists r, t'. split; [done|]. apply IH. by right.
  - split.
    + intros (r & t' & -> & [(t1 & a & t2 & -> & H1 & H2)|[H1 ->]]%IH).
      * left. exists (Answered c r :: t1), a, t2. split_and!; [done|eauto|done].
      * right. eauto.
    + intros [(t1 & a & t2 & -> & (r & t' & -> & H1) & H2)|[(r & t' & -> & H1) ->]].
      * exists r, (t' ++ t2). split; [done|]. apply IH. left. by exists t', a, t2.
      * exists r, t'. split; [done|]. apply IH. by right.
  - split.
    + intros (t' & -> & [(t1 & a & t2 & -> & H1 & H2)|[H1 ->]]%IH).
      * left. exists (Did e :: t1), a, t2. split_and!; [done|eauto|done].
      * right. eauto.
    + intros [(t1 & a & t2 & -> & (t' & -> & H1) & H2)|[(t' & -> & H1) ->]].
      * exists (t' ++ t2). split; [done|]. apply IH. left. by exists t', a, t2.
      * exists t'. split; [done|]. apply IH. by right.
Qed.

Lemma runs_holding {A} cl (m : flow A) t o :
  runs (holding cl m) t o <->
  (exists a, o = Returned a /\ runs m t (Returned a))
  \/ (o = Dropped /\ exists t', t = t' ++ (Did <$> cl) /\ runs m t' Dropped).
Proof.
  revert t. induction m as [a|c cl' k IH|c k IH|e k IH]; intros t; cbn [holding runs].
  - split; [intros [-> ->]; left; eauto|]. intros [(a' & -> & -> & [= ->])|(-> & ? & _ & _ & ?)]; done.
  - split.
    + intros [(r & t' & -> & [(a & -> & Ha)|(-> & t'' & -> & Ha)]%IH)|[-> ->]].
      * left. exists a. split; [done|]. left. eauto.
      * right. split; [done|]. exists (Answered c r :: t''). split; [done|]. left. eauto.
      * right. split; [done|]. exists (Cancelled c :: (Did <$> cl')). split; [by rewrite fmap_app|by right].
    + intros [(a & -> & [(r & t' & -> & Ha)|[_ ?]])|(-> & t' & -> & [(r & t'' & -> & Ha)|[-> _]])]; [|done| |].
      * left. exists r, t'. split; [done|]. apply IH. left. eauto.
      * left. exists r, (t'' ++ (Did <$> cl)). split; [done|]. apply IH. right. eauto.
      * right. split; [by rewrite fmap_app|done].
  - split.
    + intros (r & t' & -> & [(a & -> & Ha)|(-> & t'' & -> & Ha)]%IH).
      * left. eauto 6.
      * right. split; [done|]. exists (Answered c r :: t''). eauto.
    + intros [(a & -> & (r & t' & -> & Ha))|(-> & t' & -> & (r & t'' & -> & Ha))].
      * exists r, t'. split; [done|]. apply IH. left. eauto.
      * exists r, (t'' ++ (Did <$> cl)). split; [done|]. apply IH. right. eauto.
  - split.
    + intros (t' & -> & [(a & -> & Ha)|(-> & t'' & -> & Ha)]%IH).
      * left. eauto 6.
      * right. split; [done|]. exists (Did e :: t''). eauto.
    + intros [(a & -> & (t' & -> & Ha))|(-> & t' & -> & (t'' & -> & Ha))].
      * exists t'. split; [done|]. apply IH. left. eauto.
      * exists (t'' ++ (Did <$> cl)). split; [done|]. apply IH. right. eauto.
Qed.

Lemma runs_emits {A} es (m : flow A) t o :
  runs (emits es m) t o <-> exists t', t = (Did <$> es) ++ t' /\ runs m t' o.
Proof.
  revert t. induction es as [|e es IH]; intros t; cbn; [naive_solver|]. setoid_rewrite IH. naive_solver.
Qed.

Lemma runs_await c t o :
  runs (await c) t o <->
  (exists r, t = [Answered c r] /\ o = Returned r) \/ (t = [Cancelled c] /\ o = Dropped).
Proof. cbn. naive_solver. Qed.

(** Runs that return. *)
Lemma flow_runs_bind_returned {A B} (m : flow A) (f : A -> flow B) t b :
  runs (flow_bind m f) t (Returned b) <->
  exists t1 a t2, t = t1 ++ t2 /\ runs m t1 (Returned a) /\ runs (f a) t2 (Returned b).
Proof. rewrite flow_runs_bind. split; [intros [?|[_ ?]]; done|by left]. Qed.

Lemma runs_holding_returned {A} cl (m : flow A) t a :
  runs (holding cl m) t (Returned a) <-> runs m t (Returned a).
Proof. rewrite runs_holding. naive_solver. Qed.
End Traces.
Arguments Returned {A} _.
Arguments Dropped {A}.
