(* ===== verification/RuntimeSafe.v ===== *)
(** * What the launch and shutdown flows guarantee

    Over the traces of [Runtime]: who owns the instances and clients that
    were created, in which order a machine is configured, contacted and
    published, how often creation is retried, and what a shutdown does. *)

From Stdlib Require Import ZArith Lia.
From stdpp Require Import base tactics option list numbers strings gmultiset.
From S2P Require Import Prelude Bytes Text Wire BootConfig Messages Guid IpAddr HcsJournal VmModel LaunchConfig Runtime.

(** ** Ownership

    A handle is an instance's ([inl]) or a client's ([inr]).  [replay]
    follows a trace with the bag of handles that are held: creation adds one,
    [close] and the destructors remove one, and every other use of a handle
    needs it to be held.  It fails on a second release or a later use. *)

Definition handle : Type := nat + nat.
Definition held : Type := gmultiset handle.

Section Ownership.
Context `{IpNet} `{Scheduled}.

Definition releases (h : handle) (L : held) : option held :=
  if decide (h ∈ L) then Some (L ∖ {[+ h +]}) else None.
Definition uses (h : handle) (L : held) : option held := if decide (h ∈ L) then Some L else None.

(** What a call does to its arguments, answered or not. *)
Definition consume (c : call) (L : held) : option held :=
  match c with
  | Start i | ExchangeReady i _ | CreateClient i _ _ | MarkPublished i => uses (inl (vi_handle i)) L
  | CloseCleanupTasks client | Request client _ | StopDispatcher client => uses (inr client) L
  | Close i => releases (inl (vi_handle i)) L
  | _ => Some L
  end.
Definition produce (c : call) : answer c -> held :=
  match c return answer c -> held with
  | Create _ => fun r => match r with Ok i => {[+ inl (vi_handle i) +]} | _ => ∅ end
  | CreateClient _ _ _ => fun r => match r with Ok client => {[+ inr client +]} | _ => ∅ end
  | _ => fun _ => ∅
  end.
Definition own_step (L : held) (e : event) : option held :=
  match e with
  | Answered c r => L' ← consume c L; Some (produce c r ⊎ L')
  | Cancelled c => consume c L
  | Did (DropInstance i) => releases (inl (vi_handle i)) L
  | Did (DropClient client) => releases (inr client) L
  | Did (AbortAll client) => uses (inr client) L
  | Did _ => Some L
  end.
Fixpoint replay (L : held) (t : list event) : option held :=
  match t with [] => Some L | e :: t => L' ← own_step L e; replay L' t end.

Lemma replay_app L t1 t2 : replay L (t1 ++ t2) = L' ← replay L t1; replay L' t2.
Proof. revert L. induction t1 as [|e t1 IH]; intros L; cbn; [done|]. destruct (own_step L e); cbn; auto. Qed.

Lemma releases_held h L : releases h ({[+ h +]} ⊎ L) = Some L.
Proof. unfold releases. rewrite decide_True by multiset_solver. f_equal. multiset_solver. Qed.
Lemma uses_held h L : uses h ({[+ h +]} ⊎ L) = Some ({[+ h +]} ⊎ L).
Proof. unfold uses. by rewrite decide_True by multiset_solver. Qed.

(** [owns L D m Q]: from [L], the flow ends with [Q a] if it returns [a] and
    with [D] if it is dropped. *)
Definition after {A} (D : held) (Q : A -> held) (o : outcome A) : held :=
  match o with Returned a => Q a | Dropped => D end.
Definition owns {A} (L D : held) (m : flow A) (Q : A -> held) : Prop :=
  forall t o, runs m t o -> replay L t = Some (after D Q o).

Lemma owns_ret {A} L D (a : A) (Q : A -> held) : Q a = L -> owns L D (Ret a) Q.
Proof. intros <- t o [-> ->]. done. Qed.

Lemma owns_bind {A B} L D (m : flow A) (f : A -> flow B) R Q :
  owns L D m R -> (forall a, owns (R a) D (f a) Q) -> owns L D (flow_bind m f) Q.
Proof.
  intros Hm Hf t o [(t1 & a & t2 & -> & H1 & H2)|[H1 ->]]%flow_runs_bind; [|by apply Hm in H1].
  rewrite replay_app, (Hm _ _ H1). cbn. by apply Hf.
Qed.

Lemma owns_await L D c (Q : answer c -> held) :
  consume c L = Some D -> (forall r, Q r = produce c r ⊎ D) -> owns L D (await c) Q.
Proof. intros Hc HQ t o [(r & -> & ->)|[-> ->]]%runs_await; cbn; rewrite Hc; cbn; [by rewrite HQ|done]. Qed.

Lemma owns_now L D c (Q : answer c -> held) :
  consume c L = Some L -> (forall r, Q r = produce c r ⊎ L) -> owns L D (now c) Q.
Proof. intros Hc HQ t o (r & t' & -> & -> & ->). cbn. rewrite Hc. cbn. by rewrite HQ. Qed.

Lemma owns_emits {A} L L' D es (m : flow A) Q :
  replay L (Did <$> es) = Some L' -> owns L' D m Q -> owns L D (emits es m) Q.
Proof. intros He Hm t o (t' & -> & H1)%runs_emits. rewrite replay_app, He. cbn. by apply Hm. Qed.

Lemma owns_holding {A} L D D' cl (m : flow A) Q :
  owns L D' m Q -> replay D' (Did <$> cl) = Some D -> owns L D (holding cl m) Q.
Proof.
  intros Hm Hc t o [(a & -> & H1)|(-> & t' & -> & H1)]%runs_holding; [by apply Hm in H1|].
  rewrite replay_app, (Hm _ _ H1). done.
Qed.

(** The type of the flow [await c] is the answer's, computed. *)
Ltac await_with lem :=
  lazymatch goal with |- @owns _ _ _ ?m _ => lazymatch m with await ?c => refine (lem _ _ c _ _ _) end end.

(** A result that owns [Q a] on success and [D] otherwise. *)
Definition ok_or_else {E A} (D : held) (Q : A -> held) (r : res E A) : held :=
  match r with Ok a => Q a | _ => D end.

Lemma replay_one D D' d : own_step D' (Did d) = Some D -> replay D' (Did <$> [d]) = Some D.
Proof. intros Hd. change (own_step D' (Did d) ≫= Some = Some D). by rewrite Hd. Qed.

Lemma owns_scoped {E A} L D D' d (m : flow (res E A)) Q :
  owns L D' m (ok_or_else D' Q) -> own_step D' (Did d) = Some D -> owns L D (scoped d m) (ok_or_else D Q).
Proof.
  intros Hm Hd. eapply owns_bind; [eapply owns_holding; [exact Hm|by apply replay_one]|].
  intros [a|e|]; [by apply owns_ret|..]; (apply (owns_emits _ D _ [d]); [by apply replay_one|by apply owns_ret]).
Qed.

Lemma owns_try {E F A B} L D (g : E -> F) (m : flow (res E A)) (f : A -> flow (res F B)) R Q :
  owns L D m (ok_or_else D R) -> (forall a, owns (R a) D (f a) (ok_or_else D Q)) ->
  owns L D (try_map g m f) (ok_or_else D Q).
Proof. intros Hm Hf. eapply owns_bind; [exact Hm|]. intros [a|e|]; [apply Hf|by apply owns_ret..]. Qed.
Lemma owns_try_ {E A B} L D (m : flow (res E A)) (f : A -> flow (res E B)) R Q :
  owns L D m (ok_or_else D R) -> (forall a, owns (R a) D (f a) (ok_or_else D Q)) ->
  owns L D (try_ m f) (ok_or_else D Q).
Proof. intros Hm Hf. eapply owns_bind; [exact Hm|]. intros [a|e|]; [apply Hf|by apply owns_ret..]. Qed.

Lemma owns_pure {E A B} D (r : res E A) (f : A -> flow (res E B)) Q :
  (forall a, owns D D (f a) (ok_or_else D Q)) -> owns D D (try_ (Ret r) f) (ok_or_else D Q).
Proof. intros Hf. apply (owns_try_ _ _ _ _ (fun _ => D)); [|done]. apply owns_ret. by destruct r. Qed.

(** ** The flows *)

Definition instance_held (i : VmInstance) (D : held) : held := {[+ inl (vi_handle i) +]} ⊎ D.

Lemma drop_instance_held i D : own_step (instance_held i D) (Did (DropInstance i)) = Some D.
Proof. apply releases_held. Qed.

Lemma use_held h D c (Q : answer c -> held) :
  consume c ({[+ h +]} ⊎ D) = uses h ({[+ h +]} ⊎ D) ->
  (forall r, Q r = produce c r ⊎ ({[+ h +]} ⊎ D)) -> owns ({[+ h +]} ⊎ D) ({[+ h +]} ⊎ D) (await c) Q.
Proof. intros Hc HQ. await_with owns_await; [rewrite Hc; apply uses_held|done]. Qed.

Lemma create_once_owns spec D :
  owns D D (create_once spec) (ok_or_else D (fun i => instance_held i D)).
Proof.
  apply (owns_try_ _ _ _ _ (fun i => instance_held i D)).
  { await_with owns_await; [done|]. intros []; cbn [produce ok_or_else]; unfold instance_held; multiset_solver. }
  intros i. eapply owns_scoped; [|apply drop_instance_held].
  apply (owns_try_ _ _ _ _ (fun _ => instance_held i D)).
  { await_with use_held; [done|]. intros []; cbn [produce ok_or_else]; multiset_solver. }
  intros []. by apply owns_ret.
Qed.

Lemma create_attempts_owns retry spec n attempt last D :
  owns D D (create_attempts retry spec n attempt last) (ok_or_else D (fun i => instance_held i D)).
Proof.
  revert attempt last. induction n as [|n IH]; intros attempt last; cbn [create_attempts]; [by apply owns_ret|].
  eapply owns_bind; [apply create_once_owns|]. intros [i|e|]; [by apply owns_ret| |by apply owns_ret].
  destruct (_ && _); [|by apply owns_ret]. eapply owns_bind; [await_with owns_await; [done|]|intros r; apply IH].
  intros r. cbn [produce]. multiset_solver.
Qed.

Lemma owns_ask {A} D c (k : answer c -> flow A) Q :
  consume c D = Some D -> (forall r, produce c r = ∅) -> (forall r, owns D D (k r) Q) ->
  owns D D (flow_bind (now c) k) Q.
Proof.
  intros Hc Hp Hk. eapply (owns_bind _ _ _ _ (fun _ => D)); [|done]. apply owns_now; [done|]. intros r.
  rewrite Hp. multiset_solver.
Qed.

Lemma prepare_owns retry req bootstrap D :
  owns D D (prepare retry req bootstrap) (ok_or_else D (fun p => instance_held (pl_instance p) D)).
Proof.
  eapply (owns_try _ _ _ _ _ (fun _ => D)).
  { await_with owns_await; [done|]. intros []; cbn [produce ok_or_else]; multiset_solver. }
  intros artifacts. apply owns_ask; [done..|]. intros caps. cbn beta.
  do 3 (case_match; [by apply owns_ret|]).
  apply owns_pure. intros memory. eapply owns_try_; [apply create_attempts_owns|]. intros i. cbn beta.
  eapply owns_scoped; [|apply drop_instance_held].
  apply owns_ask; [done..|]. intros generated. apply owns_pure. intros cap.
  apply owns_ask; [done..|]. intros nonce. apply owns_pure. intros cfg. by apply owns_ret.
Qed.

Definition live_held (v : LiveVm) : held :=
  {[+ inr (lv_client v) +]} ⊎ match lv_instance v with Some i => {[+ inl (vi_handle i) +]} | None => ∅ end.

Lemma launch_inner_owns retry l observer :
  owns ∅ ∅ (launch_inner retry l observer) (ok_or_else ∅ live_held).
Proof.
  unfold launch_inner. destruct (req_network _) as [network|]; [|by apply owns_ret].
  eapply owns_try_; [apply prepare_owns|]. intros p. cbn beta zeta.
  set (i := pl_instance p). eapply owns_scoped; [|apply drop_instance_held].
  eapply (owns_try _ _ _ _ _ (fun _ => instance_held i ∅)).
  { await_with use_held; [done|]. intros []; cbn [produce ok_or_else]; multiset_solver. }
  intros []. eapply (owns_try _ _ _ _ _ (fun client => {[+ inr client +]} ⊎ instance_held i ∅)).
  { await_with use_held; [done|]. intros []; cbn [produce ok_or_else]; multiset_solver. }
  intros client.
  assert (Hc : {[+ inr client +]} ⊎ instance_held i ∅ = instance_held i {[+ inr client +]}) by (unfold instance_held; multiset_solver).
  rewrite Hc. apply (owns_scoped _ _ (instance_held i {[+ inr client +]})); [|rewrite <-Hc; apply releases_held].
  eapply (owns_try _ _ _ _ _ (fun _ => instance_held i {[+ inr client +]})).
  { await_with use_held; [done|]. intros []; cbn [produce ok_or_else]; multiset_solver. }
  intros []. unfold LiveVm_new. eapply (owns_emits _ (instance_held i {[+ inr client +]})); [by case_match|].
  apply owns_ret. cbn. unfold live_held, instance_held. cbn. multiset_solver.
Qed.

Lemma observe_replay L observer s : replay L (Did <$> observe observer s) = Some L.
Proof. by destruct observer. Qed.

Lemma launch_owns retry l observer : owns ∅ ∅ (Launcher_launch retry l observer) (ok_or_else ∅ live_held).
Proof.
  eapply owns_emits; [apply observe_replay|]. eapply owns_bind; [apply launch_inner_owns|].
  intros [v|e|]; [eapply owns_emits; [apply observe_replay|]..|]; by apply owns_ret.
Qed.

Lemma drop_live_replay v : replay (live_held v) (Did <$> drop_live v) = Some ∅.
Proof.
  unfold drop_live. rewrite fmap_app, replay_app.
  replace (replay (live_held v) (Did <$> (if lv_scheduler v then _ else _))) with (Some (live_held v)) by (by destruct (lv_scheduler v)).
  cbn [mbind option_bind]. rewrite fmap_app, replay_app, (replay_one (live_held v)) by apply uses_held.
  cbn [mbind option_bind]. rewrite fmap_app, replay_app.
  assert (Hi : replay (live_held v) (Did <$> match lv_instance v with
    | Some i => DropInstance i :: observe (lv_observer v) (Finished Finish_Dropped) | None => [] end) = Some {[+ inr (lv_client v) +]}).
  { unfold live_held. destruct (lv_instance v) as [i|]; [|cbn [fmap list_fmap replay]; f_equal; multiset_solver].
    rewrite (comm (⊎)). change (releases (inl (vi_handle i)) ({[+ inl (vi_handle i) +]} ⊎ {[+ inr (lv_client v) +]})
      ≫= (fun L => replay L (Did <$> observe (lv_observer v) (Finished Finish_Dropped))) = Some {[+ inr (lv_client v) +]}).
    rewrite releases_held. apply observe_replay. }
  rewrite Hi. apply replay_one. cbn [own_step]. unfold releases. rewrite decide_True by multiset_solver. f_equal. multiset_solver.
Qed.
Lemma guest_shutdown_owns v : owns (live_held v) (live_held v) (guest_shutdown v) (fun _ => live_held v).
Proof.
  apply (owns_bind _ _ _ _ (fun _ => live_held v)).
  { destruct (lv_scheduler v); [await_with owns_await; [done|]|by apply owns_ret]. intros r. cbn [produce]. multiset_solver. }
  intros []. apply (owns_bind _ _ _ _ (fun _ => live_held v)).
  { await_with use_held; [done|]. intros r. cbn [produce]. multiset_solver. }
  intros []. apply (owns_bind _ _ _ _ (fun _ => live_held v)).
  { await_with use_held; [done|]. intros r. cbn [produce]. multiset_solver. }
  intros r. assert (Hstop : forall g : res RuntimeError unit,
    owns (live_held v) (live_held v)
      (flow_bind (await (StopDispatcher (lv_client v))) (fun _ => Ret (Ok g : res RuntimeError _))) (fun _ => live_held v)).
  { intros g. apply (owns_bind _ _ _ _ (fun _ => live_held v)); [|intros; by apply owns_ret].
    await_with use_held; [done|]. intros r'. cbn [produce]. multiset_solver. }
  destruct r as [ev|e|]; [apply Hstop..|by apply owns_ret].
Qed.

Lemma host_close_owns v : owns (live_held v) (live_held (take_instance v)) (host_close v) (fun _ => live_held (take_instance v)).
Proof.
  unfold host_close, live_held. destruct (lv_instance v) as [i|] eqn:Ei; cbn [take_instance lv_instance lv_client].
  - apply (owns_bind _ _ _ _ (fun _ => {[+ inr (lv_client v) +]} ⊎ ∅)).
    + await_with owns_await.
      * cbn [consume]. rewrite (comm (⊎)), releases_held. f_equal. multiset_solver.
      * intros r. cbn [produce]. multiset_solver.
    + intros [u|e|]; by apply owns_ret.
  - by apply owns_ret.
Qed.

Lemma shutdown_owns v : owns (live_held v) ∅ (LiveVm_shutdown v) (fun _ => ∅).
Proof.
  unfold LiveVm_shutdown. apply (owns_emits _ (live_held v)); [by destruct (lv_scheduler v)|]. cbn zeta.
  apply (owns_bind _ _ _ _ (fun _ => live_held v)).
  { eapply owns_holding; [apply guest_shutdown_owns|]. apply (drop_live_replay (take_scheduler v)). }
  assert (Hend : forall v' (r : res RuntimeError unit), owns (live_held v') ∅ (emits (drop_live v') (Ret r)) (fun _ => ∅)).
  { intros v' r. apply (owns_emits _ ∅); [apply drop_live_replay|by apply owns_ret]. }
  intros [g|e|]; [|apply (Hend (take_scheduler v))..].
  apply (owns_bind _ _ _ _ (fun _ => live_held (take_instance v))).
  { eapply owns_holding; [apply (host_close_owns (take_scheduler v))|]. apply drop_live_replay. }
  intros [h|e|]; [|apply (Hend (take_instance (take_scheduler v)))..].
  destruct (shutdown_outcome _ _ _) as [es r] eqn:Eo. apply (owns_emits _ (live_held (take_instance v))).
  - unfold shutdown_outcome, shutdown_failed in Eo. repeat case_match; simplify_eq; try apply observe_replay; done.
  - apply (Hend (take_instance (take_scheduler v))).
Qed.

End Ownership.

(** ** Publication *)

Section Publication.
Context `{IpNet} `{Scheduled}.

(** The events in which instance [i] is published. *)
Definition publishes (i : VmInstance) (e : event) : Prop :=
  e = Cancelled (MarkPublished i) \/ exists r, e = Answered (MarkPublished i) r.
Definition quiet (t : list event) : Prop := Forall (fun e => forall i, ~ publishes i e) t.

Lemma quiet_app t1 t2 : quiet (t1 ++ t2) <-> quiet t1 /\ quiet t2.
Proof. apply Forall_app. Qed.

Definition publishing (c : call) : bool := match c with MarkPublished _ => true | _ => false end.
Lemma quiet_answered c r : publishing c = false -> quiet [Answered c r].
Proof. intros Hc. repeat constructor. intros i [?|[r' E]]; [done|]. inversion E; subst. done. Qed.
Lemma quiet_cancelled c : publishing c = false -> quiet [Cancelled c].
Proof. intros Hc. repeat constructor. intros i [E|[? ?]]; [|done]. by inversion E; subst. Qed.
Lemma quiet_did es : quiet (Did <$> es).
Proof. apply Forall_fmap, Forall_true. intros e i [?|[? ?]]; done. Qed.

(** Flows that never publish. *)
Definition silent {A} (m : flow A) : Prop := forall t o, runs m t o -> quiet t.

Lemma silent_ret {A} (a : A) : silent (Ret a).
Proof. intros t o [-> _]. constructor. Qed.
Lemma silent_bind {A B} (m : flow A) (f : A -> flow B) : silent m -> (forall a, silent (f a)) -> silent (flow_bind m f).
Proof.
  intros Hm Hf t o [(t1 & a & t2 & -> & H1 & H2)|[H1 _]]%flow_runs_bind; [|eauto].
  apply quiet_app. split; [by eapply Hm|by eapply Hf].
Qed.
Lemma silent_await c : publishing c = false -> silent (await c).
Proof. intros Hc t o [(r & -> & _)|[-> _]]%runs_await; [by apply quiet_answered|by apply quiet_cancelled]. Qed.
Lemma silent_now c : publishing c = false -> silent (now c).
Proof. intros Hc t o (r & t' & -> & -> & _). by apply quiet_answered. Qed.
Lemma silent_scoped {E A} d (m : flow (res E A)) : silent m -> silent (scoped d m).
Proof.
  intros Hm. apply silent_bind.
  - intros t o [(a & -> & H1)|(-> & t' & -> & H1)]%runs_holding; [by eapply Hm|].
    apply quiet_app. split; [by eapply Hm|apply quiet_did].
  - intros [a|e|]; [apply silent_ret|..]; intros t o (t' & -> & -> & _); apply (quiet_did [d]).
Qed.
Lemma silent_try {E F A B} (g : E -> F) (m : flow (res E A)) (f : A -> flow (res F B)) :
  silent m -> (forall a, silent (f a)) -> silent (try_map g m f).
Proof. intros Hm Hf. apply silent_bind; [done|]. intros []; [apply Hf|apply silent_ret..]. Qed.
Lemma silent_try_ {E A B} (m : flow (res E A)) (f : A -> flow (res E B)) :
  silent m -> (forall a, silent (f a)) -> silent (try_ m f).
Proof. intros Hm Hf. apply silent_bind; [done|]. intros []; [apply Hf|apply silent_ret..]. Qed.

Lemma create_attempts_silent retry spec n attempt last : silent (create_attempts retry spec n attempt last).
Proof.
  revert attempt last. induction n as [|n IH]; intros attempt last; cbn [create_attempts]; [apply silent_ret|].
  apply silent_bind.
  - apply silent_try_; [by apply (silent_await (Create spec))|]. intros i. apply silent_scoped.
    apply silent_try_; [by apply (silent_await (Start i))|]. intros. apply silent_ret.
  - intros [i|e|]; [apply silent_ret| |apply silent_ret]. case_match; [|apply silent_ret].
    apply silent_bind; [by apply (silent_await (Sleep _))|]. intros. apply IH.
Qed.

Lemma prepare_silent retry req bootstrap : silent (prepare retry req bootstrap).
Proof.
  apply silent_try; [by apply (silent_await (PrepareArtifacts _ _ _))|]. intros artifacts.
  apply silent_bind; [by apply (silent_now Capabilities)|]. intros caps.
  do 3 (case_match; [apply silent_ret|]).
  apply silent_try_; [apply silent_ret|]. intros memory. apply silent_try_; [apply create_attempts_silent|].
  intros i. apply silent_scoped. apply silent_bind; [by apply (silent_now GenerateCapability)|]. intros generated.
  apply silent_try_; [apply silent_ret|]. intros cap. apply silent_bind; [by apply (silent_now GenerateNonce)|].
  intros nonce. apply silent_try_; [apply silent_ret|]. intros. apply silent_ret.
Qed.

(** *** Successful preparation *)

Lemma try_returned {E F A B} (g : E -> F) (m : flow (res E A)) (f : A -> flow (res F B)) t b :
  runs (try_map g m f) t (Returned (Ok b)) ->
  exists t1 a t2, t = t1 ++ t2 /\ runs m t1 (Returned (Ok a)) /\ runs (f a) t2 (Returned (Ok b)).
Proof.
  intros (t1 & r & t2 & -> & H1 & H2)%flow_runs_bind_returned. destruct r as [a|e|]; [eauto 7|..]; by destruct H2.
Qed.
Lemma try__returned {E A B} (m : flow (res E A)) (f : A -> flow (res E B)) t b :
  runs (try_ m f) t (Returned (Ok b)) ->
  exists t1 a t2, t = t1 ++ t2 /\ runs m t1 (Returned (Ok a)) /\ runs (f a) t2 (Returned (Ok b)).
Proof.
  intros (t1 & r & t2 & -> & H1 & H2)%flow_runs_bind_returned. destruct r as [a|e|]; [eauto 7|..]; by destruct H2.
Qed.
Lemma scoped_returned {E A} d (m : flow (res E A)) t a :
  runs (scoped d m) t (Returned (Ok a)) -> runs m t (Returned (Ok a)).
Proof.
  intros (t1 & r & t2 & -> & H1 & H2)%flow_runs_bind_returned. apply runs_holding_returned in H1.
  destruct r as [a'|e|]; cbn in H2; [|naive_solver..]. destruct H2 as [-> [= ->]]. by rewrite app_nil_r.
Qed.
Lemma await_returned c t (r : answer c) : runs (await c) t (Returned r) -> t = [Answered c r].
Proof. intros [(r' & -> & [= ->])|[_ ?]]%runs_await; done. Qed.
Lemma now_returned c t (r : answer c) : runs (now c) t (Returned r) -> t = [Answered c r].
Proof. intros (r' & t' & -> & -> & [= ->]). done. Qed.

(** The last two events of a successful creation. *)
Lemma create_attempts_returned retry spec n attempt last t i :
  runs (create_attempts retry spec n attempt last) t (Returned (Ok i)) ->
  exists t0, t = t0 ++ [Answered (Create spec) (Ok i); Answered (Start i) (Ok tt)].
Proof.
  revert attempt last t. induction n as [|n IH]; intros attempt last t; cbn [create_attempts]; [by intros [_ ?]|].
  intros (t1 & r & t2 & -> & H1 & H2)%flow_runs_bind_returned. destruct r as [i'|e|]; [| |by destruct H2].
  - destruct H2 as [-> [= ->]].
    apply try__returned in H1 as (t2 & i'' & t3 & -> & H1%(await_returned (Create spec)) & H2%scoped_returned).
    apply try__returned in H2 as (t4 & [] & t5 & -> & H2%(await_returned (Start i'')) & [-> [= ->]]).
    exists []. by subst.
  - destruct (_ && _); [|by destruct H2]. apply flow_runs_bind_returned in H2 as (t3 & u & t4 & -> & _ & H2).
    apply IH in H2 as (t0 & ->). exists (t1 ++ t3 ++ t0). by rewrite <-!app_assoc.
Qed.

(** What precedes the exchange: the machine is created and started, and its
    configuration is built from fresh secrets and its own evidence. *)
Definition configured (req : LaunchRequest) (p : PreparedLaunch) (t : list event) : Prop :=
  exists t0 spec nonce,
    let i := pl_instance p in
    t = t0 ++ [Answered (Create spec) (Ok i); Answered (Start i) (Ok tt);
               Answered GenerateCapability (Some (pl_capability p)); Answered GenerateNonce (Some nonce)]
    /\ quiet t0
    /\ ls_network spec = req_network req /\ ls_disks spec = req_disks req
    /\ build_boot_config (identity i) (attached_resources i) (pl_capability p) (Some nonce)
         (req_network req) (req_disks req) None = Ok (pl_boot_config p).

Lemma prepare_returned retry req t p :
  runs (prepare retry req None) t (Returned (Ok p)) -> configured req p t.
Proof.
  intros Hr. assert (Hq : quiet t) by (by eapply prepare_silent).
  apply try_returned in Hr as (t1 & artifacts & t2 & -> & _ & Hr).
  apply flow_runs_bind_returned in Hr as (t3 & caps & t4 & -> & _ & Hr).
  do 3 (case_match; [by destruct Hr|]).
  apply try__returned in Hr as (t5 & memory & t6 & -> & [-> _] & Hr).
  apply try__returned in Hr as (t7 & i & t8 & -> & (t0 & ->)%create_attempts_returned & Hr%scoped_returned).
  apply flow_runs_bind_returned in Hr as (t9 & gen & t10 & -> & ->%(now_returned GenerateCapability) & Hr).
  apply try__returned in Hr as (t11 & cap & t12 & -> & [-> [= Hc]] & Hr). symmetry in Hc. apply ok_or_ok in Hc as ->.
  apply flow_runs_bind_returned in Hr as (t13 & nonce & t14 & -> & ->%(now_returned GenerateNonce) & Hr).
  apply try__returned in Hr as (t15 & cfg & t16 & -> & [-> [= Hb]] & [-> [= ->]]). cbn [pl_instance pl_capability pl_boot_config].
  destruct nonce as [nonce|].
  2: { exfalso. symmetry in Hb. unfold build_boot_config in Hb. repeat (apply res_bind_ok_inv in Hb as (? & ? & Hb)). done. }
  eexists (t1 ++ t3 ++ t0), _, nonce. split_and!; [by rewrite <-!app_assoc| |done|done|done].
  rewrite !quiet_app in Hq. rewrite !quiet_app. naive_solver.
Qed.

(** The guest proved it is ready and answered over the authenticated channel,
    with the same capability, at the address of the launch's network. *)
Definition contacted (l : Launch) (p : PreparedLaunch) (client : ClientId) (t : list event) : Prop :=
  exists network t0,
    req_network (request l) = Some network
    /\ configured (request l) p t0
    /\ t = t0 ++ [Answered (ExchangeReady (pl_instance p) (pl_boot_config p)) (Ok tt);
                  Answered (CreateClient (pl_instance p) (pl_capability p) (CommandEndpoint_from network)) (Ok client)].

(** The machine a launch hands out. *)
Definition launched (l : Launch) (p : PreparedLaunch) (client : ClientId) (observer : bool) (v : LiveVm) : Prop :=
  lv_instance v = Some (pl_instance p) /\ lv_client v = client /\ lv_observer v = observer
  /\ lv_capability v = pl_capability p
  /\ (forall network, req_network (request l) = Some network -> lv_command_endpoint v = CommandEndpoint_from network)
  /\ lv_attached_disks v = classify_disks (req_disks (request l)) (attached_resources (pl_instance p))
  /\ lv_warnings v = classify_warnings (req_disks (request l)) (attached_resources (pl_instance p)).

Definition publication (l : Launch) (observer : bool) (t : list event) (o : outcome (res RuntimeError LiveVm)) : Prop :=
  (quiet t /\ forall v, o <> Returned (Ok v))
  \/ exists p client t1 e t2,
      t = t1 ++ e :: t2 /\ contacted l p client t1 /\ publishes (pl_instance p) e /\ quiet t2
      /\ forall v, o = Returned (Ok v) ->
           e = Answered (MarkPublished (pl_instance p)) (Ok tt) /\ launched l p client observer v.

Lemma quiet_no_publication l observer t o :
  quiet t -> (forall v, o <> Returned (Ok v)) -> publication l observer t o.
Proof. by left. Qed.

(** Steps of the flow that fail before publication. *)
Lemma publication_tail l observer t t' o o' :
  publication l observer t o -> quiet t' -> (forall v, o' = Returned (Ok v) -> o = Returned (Ok v)) ->
  publication l observer (t ++ t') o'.
Proof.
  intros [[Hq Ho]|(p & client & t1 & e & t2 & -> & Hc & He & Hq & Hv)] Hq' Hoo.
  - left. split; [by apply quiet_app|]. intros v ->. by eapply Ho, Hoo.
  - right. exists p, client, t1, e, (t2 ++ t'). split_and!; [by rewrite <-app_assoc|done|done|by apply quiet_app|].
    intros v Hv'. by apply Hv, Hoo.
Qed.

(** A scope whose destructor publishes nothing. *)
Lemma publication_scoped l observer d t0 m t o :
  (forall t o, runs m t o -> publication l observer (t0 ++ t) o) ->
  runs (scoped d m) t o -> publication l observer (t0 ++ t) o.
Proof.
  intros Hm [(t1 & r & t2 & -> & H1%runs_holding_returned & H2)|[H1 ->]]%flow_runs_bind.
  - rewrite app_assoc. apply Hm in H1. eapply publication_tail; [exact H1|..].
    + destruct r; cbn in H2; [destruct H2 as [-> _]; constructor|..];
        destruct H2 as (t' & -> & -> & _); apply (quiet_did [d]).
    + intros v ->. destruct r; cbn in H2; naive_solver.
  - apply runs_holding in H1 as [(a & ? & _)|(_ & t' & -> & H1)]; [done|]. rewrite app_assoc. apply Hm in H1.
    eapply publication_tail; [exact H1|apply quiet_did|done].
Qed.

(** One fallible call before publication. *)
Lemma publication_call {E A} l observer (g : E -> RuntimeError) (m : flow (res E A)) f t0 t o :
  quiet t0 -> silent m ->
  (forall t1 a t2 o, runs m t1 (Returned (Ok a)) -> runs (f a) t2 o -> publication l observer (t0 ++ t1 ++ t2) o) ->
  runs (try_map g m f) t o -> publication l observer (t0 ++ t) o.
Proof.
  intros Hq0 Hs Hf [(t1 & r & t2 & -> & H1 & H2)|[H1 ->]]%flow_runs_bind.
  - destruct r as [a|e|]; [by eapply Hf|..]; destruct H2 as [-> ->]; rewrite app_nil_r;
      (apply quiet_no_publication; [apply quiet_app; split; [done|by eapply Hs]|done]).
  - apply quiet_no_publication; [apply quiet_app; split; [done|by eapply Hs]|done].
Qed.

Lemma launch_inner_publication retry l observer t o :
  runs (launch_inner retry l observer) t o -> publication l observer t o.
Proof.
  unfold launch_inner. destruct (req_network _) as [network|] eqn:En.
  2: { intros [-> ->]. apply quiet_no_publication; [constructor|done]. }
  apply (publication_call _ _ id _ _ []); [constructor|apply prepare_silent|]. clear t o.
  intros tp p t o Hp Hr. assert (Hqp : quiet tp) by (by eapply prepare_silent). apply prepare_returned in Hp.
  cbn beta zeta in Hr. cbn [app]. eapply publication_scoped; [|exact Hr]. clear t o Hr. intros t o Hr.
  eapply publication_call; [| | |exact Hr]; [done|by apply (silent_await (ExchangeReady _ _))|]. clear t o Hr. intros t1 [] t o ->%(await_returned (ExchangeReady _ _)) Hr. rewrite app_assoc.
  eapply publication_call; [| | |exact Hr]; [by apply quiet_app; split; [|by apply quiet_answered]|by apply (silent_await (CreateClient _ _ _))|].
  clear t o Hr. intros t1 client t o ->%(await_returned (CreateClient _ _ _)) Hr. rewrite app_assoc.
  set (t0 := (tp ++ _) ++ _). assert (Hc : contacted l p client t0).
  { exists network, tp. split_and!; [done|done|]. unfold t0. by rewrite <-app_assoc. }
  eapply publication_scoped; [|exact Hr]. clear t o Hr. intros t o Hr.
  apply flow_runs_bind in Hr as [(t1 & r & t2 & -> & H1 & H2)|[H1 ->]].
  - apply (await_returned (MarkPublished _)) in H1 as ->. right.
    exists p, client, t0, (Answered (MarkPublished (pl_instance p)) r), t2.
    split_and!; [done|done|right; by eexists| |].
    + destruct r as [[]|e|]; [|destruct H2 as [-> _]; constructor..].
      apply runs_emits in H2 as (t' & -> & -> & _). rewrite app_nil_r. apply quiet_did.
    + intros v ->. destruct r as [[]|e|]; [|by destruct H2..]. split; [done|].
      apply runs_emits in H2 as (t' & -> & -> & [= ->]). unfold launched. cbn. split_and!; [done..| |done|done].
      intros n' Hn. congruence.
  - apply runs_await in H1 as [(r & _ & ?)|[-> _]]; [done|]. right.
    exists p, client, t0, (Cancelled (MarkPublished (pl_instance p))), []. split_and!; [done|done|by left|constructor|done].
Qed.
End Publication.

Section Published.
Context `{IpNet} `{Scheduled}.

Lemma contacted_quiet l p client t : contacted l p client t -> quiet t.
Proof.
  intros (network & t0 & _ & (t1 & spec & nonce & -> & Hq & _) & ->). rewrite !quiet_app. split_and!; [done|..].
  all: unfold quiet; rewrite !Forall_cons_iff; split_and!; [intros i [?|[? E]]; [done|by inversion E]..|by constructor].
Qed.

Lemma quiet_split t1 e t2 t1' e' t2' i i' :
  t1 ++ e :: t2 = t1' ++ e' :: t2' -> quiet t1 -> quiet t2 -> publishes i e -> publishes i' e' -> t1 = t1' /\ e = e' /\ t2 = t2'.
Proof.
  revert t1'. induction t1 as [|x t1 IH]; intros [|x' t1'] E Hq1 Hq2 He He'; simplify_eq/=.
  - done.
  - exfalso. rewrite quiet_app in Hq2. destruct Hq2 as [_ Hq2]. apply Forall_cons_1 in Hq2 as [Hn _]. by eapply Hn.
  - exfalso. apply Forall_cons_1 in Hq1 as [Hn _]. by eapply Hn.
  - apply Forall_cons_1 in Hq1 as [_ Hq1]. destruct (IH t1') as (-> & -> & ->); done.
Qed.

Lemma launch_publication retry l observer t o :
  runs (Launcher_launch retry l observer) t o ->
  exists t', t = (Did <$> observe observer Launching) ++ t' /\ publication l observer t' o.
Proof.
  intros (t' & -> & Hr)%runs_emits. exists t'. split; [done|].
  apply flow_runs_bind in Hr as [(t1 & r & t2 & -> & H1 & H2)|[H1 ->]]; [|by eapply launch_inner_publication].
  apply launch_inner_publication in H1. eapply publication_tail; [exact H1|..].
  - destruct r; [apply runs_emits in H2 as (? & -> & -> & _)..|destruct H2 as [-> _]; constructor];
      rewrite app_nil_r; apply quiet_did.
  - intros v ->. destruct r; [apply runs_emits in H2 as (? & -> & -> & ?)..|by destruct H2]; congruence.
Qed.

(** A launch publishes an instance at most once, and only after it created
    and started it, built its configuration from fresh secrets and its own
    disks, received the guest's READY proof for that configuration and
    completed an authenticated exchange over TCP with the same capability at
    the address of the launch's network; and a launch that returns a machine
    published exactly that instance, successfully.  This holds for every
    answer of the ports and every cancellation. *)
Theorem published_only_when_ready retry l observer t o :
  runs (Launcher_launch retry l observer) t o ->
  (forall i e t1 t2, t = t1 ++ e :: t2 -> publishes i e ->
     exists p client t0, i = pl_instance p /\ t1 = (Did <$> observe observer Launching) ++ t0
       /\ contacted l p client t0 /\ quiet t2)
  /\ (forall v, o = Returned (Ok v) ->
     exists p client t0 t2, t = (Did <$> observe observer Launching) ++ t0 ++ Answered (MarkPublished (pl_instance p)) (Ok tt) :: t2
       /\ contacted l p client t0 /\ launched l p client observer v).
Proof.
  intros (t' & -> & Hp)%launch_publication.
  destruct Hp as [[Hq Ho]|(p & client & t1 & e & t2 & -> & Hc & He & Hq & Hv)].
  - split; [|intros v Ho'; by apply Ho in Ho'].
    intros i e t1 t2 E He. exfalso. assert (Hq' : quiet (t1 ++ e :: t2)) by (rewrite <-E; apply quiet_app; split; [apply quiet_did|done]).
    apply quiet_app in Hq' as [_ Hq']. apply Forall_cons_1 in Hq' as [Hn _]. by eapply Hn.
  - split.
    + intros i e' t1' t2' E He'. rewrite app_assoc in E.
      eapply quiet_split in E as (<- & <- & <-); [|apply quiet_app; split; [apply quiet_did|by eapply contacted_quiet]|done..].
      exists p, client, t1. split_and!; [|done|done|done].
      destruct He as [->|[r ->]], He' as [He'|[r' He']]; by inversion He'.
    + intros v Ho. destruct (Hv v Ho) as [-> Hl]. by exists p, client, t1, t2.
Qed.
End Published.

(** ** Retries *)

Section Retries.
Context `{IpNet} `{Scheduled}.
Context (retry : RetryPolicy) (spec : VmLaunchSpec).

(** A failed attempt: creation fails, or the start of the created instance
    fails and the instance is dropped. *)
Inductive failed_attempt : BackendError -> list event -> Prop :=
  | create_fails error : failed_attempt error [Answered (Create spec) (Err error)]
  | start_fails i error :
      failed_attempt error [Answered (Create spec) (Ok i); Answered (Start i) (Err error); Did (DropInstance i)].

(** Attempts whose failure is worth another one, each followed by the delay. *)
Inductive retried : nat -> list event -> Prop :=
  | retried_none : retried 0 []
  | retried_more n error f t :
      failed_attempt error f -> be_retry error = Retryable -> retried n t ->
      retried (S n) (f ++ Answered (Sleep (retry_delay retry)) tt :: t).

Lemma create_once_ok t i :
  runs (create_once spec) t (Returned (Ok i)) <-> t = [Answered (Create spec) (Ok i); Answered (Start i) (Ok tt)].
Proof.
  split.
  - intros (t1 & i' & t2 & -> & ->%(await_returned (Create spec)) & H2%scoped_returned)%try__returned.
    by apply try__returned in H2 as (t4 & [] & t5 & -> & ->%(await_returned (Start i')) & [-> [= ->]]).
  - intros ->. cbn. left. eexists (Ok i), _. split; [done|]. left. by eexists (Ok tt), [].
Qed.

Lemma create_once_err t e : runs (create_once spec) t (Returned (Err e)) <-> failed_attempt e t.
Proof.
  split.
  - intros Hr. cbn in Hr. destruct Hr as [(r & t1 & -> & Hr)|[_ ?]]; [|done].
    destruct r as [i|e'|]; cbn in Hr; [|destruct Hr as [-> [= ->]]; constructor|by destruct Hr].
    destruct Hr as [(r & t2 & -> & Hr)|[_ ?]]; [|done].
    destruct r as [[]|e'|]; cbn in Hr; [by destruct Hr|destruct Hr as (? & -> & -> & [= ->]); constructor|by destruct Hr as (? & _ & _ & ?)].
  - intros []; cbn; left.
    + by eexists (Err _), [].
    + eexists (Ok _), _. split; [done|]. left. eexists (Err _), _. split; [done|]. by eexists.
Qed.

Lemma retry_continues error attempt :
  bool_decide (be_retry error = Retryable) && (attempt <? max_attempts retry) = true
  <-> be_retry error = Retryable /\ attempt < max_attempts retry.
Proof. by rewrite andb_true_iff, bool_decide_eq_true, Z.ltb_lt. Qed.

(** The results of the loop with [n] attempts left. *)
Definition succeeds (n : nat) (t : list event) (i : VmInstance) : Prop :=
  exists k t0, (k < n)%nat /\ retried k t0 /\ t = t0 ++ [Answered (Create spec) (Ok i); Answered (Start i) (Ok tt)].
Definition gives_up (n : nat) (t : list event) : Prop :=
  exists k t0 error f, (k < n)%nat /\ retried k t0 /\ failed_attempt error f
    /\ (be_retry error = Permanent \/ S k = n) /\ t = t0 ++ f.

Lemma retry_cases r : r = Retryable \/ r = Permanent.
Proof. destruct r; auto. Qed.

Lemma attempts_ok n attempt last t i :
  Z.of_nat n + attempt = max_attempts retry + 1 ->
  runs (create_attempts retry spec n attempt last) t (Returned (Ok i)) <-> succeeds n t i.
Proof.
  revert attempt last t. induction n as [|n IH]; intros attempt last t Hn; cbn [create_attempts].
  { split; [by intros [_ ?]|intros (k & ? & ? & _); lia]. }
  rewrite flow_runs_bind_returned. split.
  - intros (t1 & r & t2 & -> & H1 & H2). destruct r as [i'|e|]; [| |by destruct H2].
    + destruct H2 as [-> [= ->]]. apply create_once_ok in H1 as ->. exists 0%nat, []. split_and!; [lia|constructor|done].
    + apply create_once_err in H1. destruct (_ && _) eqn:Hb; [|by destruct H2]. apply retry_continues in Hb as [Hb ?].
      apply flow_runs_bind_returned in H2 as (t3 & [] & t4 & -> & ->%(await_returned (Sleep _)) & H2).
      apply IH in H2 as (k & t0 & Hk & Ht & ->); [|lia]. exists (S k), (t1 ++ Answered (Sleep (retry_delay retry)) tt :: t0).
      split_and!; [lia|by econstructor|by rewrite <-app_assoc].
  - intros (k & t0 & Hk & Ht & ->). destruct Ht as [|k e f t0 Hf He Ht].
    + eexists _, (Ok i), []. split_and!; [|by apply create_once_ok|done]. by rewrite app_nil_r.
    + eexists f, (Err e), _. split_and!; [by rewrite <-app_assoc|by apply create_once_err|].
      rewrite (proj2 (retry_continues _ _)) by (split; [done|lia]). apply flow_runs_bind_returned.
      eexists [_], tt, _. split_and!; [done|apply (runs_await (Sleep _)); left; by eexists|].
      apply IH; [lia|]. exists k, t0. split_and!; [lia|done|done].
Qed.

Lemma attempts_err n attempt last t e :
  Z.of_nat n + attempt = max_attempts retry + 1 -> (n = 0%nat -> last = None) ->
  runs (create_attempts retry spec n attempt last) t (Returned (Err e)) <->
  e = RE_VmCreate /\ (n = 0%nat /\ t = [] \/ gives_up n t).
Proof.
  revert attempt last t. induction n as [|n IH]; intros attempt last t Hn Hl; cbn [create_attempts].
  { rewrite Hl by done. cbn. split; [intros [-> [= ->]]; auto|]. intros (-> & [[_ ->]|(k & ? & ? & ? & ? & _)]); [done|lia]. }
  rewrite flow_runs_bind_returned. split.
  - intros (t1 & r & t2 & -> & H1 & H2). destruct r as [i'|er|]; [by destruct H2| |by destruct H2].
    apply create_once_err in H1. destruct (_ && _) eqn:Hb.
    + apply retry_continues in Hb as [Hb ?].
      apply flow_runs_bind_returned in H2 as (t3 & [] & t4 & -> & ->%(await_returned (Sleep _)) & H2).
      apply IH in H2 as (-> & [[-> _]|(k & t0 & er' & f & Hk & Ht & Hf & Hlast & ->)]); [lia| |lia|lia].
      split; [done|right]. exists (S k), (t1 ++ Answered (Sleep (retry_delay retry)) tt :: t0), er', f.
      split_and!; [lia|by econstructor|done|destruct Hlast; [by left|right; lia]|by rewrite <-app_assoc].
    + destruct H2 as [-> [= ->]]. split; [done|right]. exists 0%nat, [], er, t1.
      split_and!; [lia|constructor|done| |by rewrite app_nil_r].
      destruct (retry_cases (be_retry er)) as [Hr|Hr]; [right|by left].
      destruct (decide (attempt < max_attempts retry)) as [Ha|Ha]; [|lia].
      rewrite (proj2 (retry_continues er attempt)) in Hb; [done|by split].
  - intros (-> & [[? _]|(k & t0 & er & f & Hk & Ht & Hf & Hlast & ->)]); [done|].
    destruct Ht as [|k er' f' t0 Hf' He Ht].
    + eexists f, (Err er), []. split_and!; [by rewrite app_nil_r|by apply create_once_err|].
      destruct (_ && _) eqn:Hb; [|done]. apply retry_continues in Hb as [Hb ?]. destruct Hlast; [congruence|lia].
    + eexists f', (Err er'), _. split_and!; [by rewrite <-app_assoc|by apply create_once_err|].
      rewrite (proj2 (retry_continues _ _)) by (split; [done|lia]). apply flow_runs_bind_returned.
      eexists [_], tt, _. split_and!; [done|apply (runs_await (Sleep _)); left; by eexists|].
      apply IH; [lia|lia|]. split; [done|right]. exists k, t0, er, f. split_and!; [lia|done|done|destruct Hlast; [by left|right; lia]|done].
Qed.

(** Creation is tried at most [max_attempts] times and exactly as the
    policy says: it returns an instance iff fewer attempts than that failed,
    each retryably, each after dropping what it had created and each followed
    by the delay, and the last one created and started the instance; it gives
    up, always with the same error, iff an attempt failed permanently or was
    the last one allowed (or none is allowed). *)
Theorem retry_policy_exact t r :
  0 <= max_attempts retry -> r <> Panic ->
  runs (create_and_start retry spec) t (Returned r) <->
  match r with
  | Ok i => succeeds (Z.to_nat (max_attempts retry)) t i
  | Err e => e = RE_VmCreate /\ (max_attempts retry = 0 /\ t = [] \/ gives_up (Z.to_nat (max_attempts retry)) t)
  | Panic => False
  end.
Proof.
  intros Hm Hr. unfold create_and_start. destruct r as [i|e|]; [|..|done].
  - apply attempts_ok. lia.
  - rewrite attempts_err by (lia || done). assert (Z.to_nat (max_attempts retry) = 0%nat <-> max_attempts retry = 0) by lia. tauto.
Qed.
End Retries.

(** ** Shutdown *)

Section Shutdown.
Context `{IpNet} `{Scheduled}.

(** What the observer retains after a trace. *)
Fixpoint observed (s : VmState) (t : list event) : VmState :=
  match t with
  | [] => s
  | Did (Observe next) :: t => observed (set s next) t
  | _ :: t => observed s t
  end.

Lemma observed_app s t1 t2 : observed s (t1 ++ t2) = observed (observed s t1) t2.
Proof. revert s. induction t1 as [|e t1 IH]; intros s; [done|]. destruct e as [| |[]]; cbn; auto. Qed.

(** A terminal state is final, so every later waiter gets the same answer. *)
Lemma terminal_final s t : is_terminal s = true -> observed s t = s.
Proof.
  intros Hs. induction t as [|e t IH]; [done|]. destruct e as [| |[]]; cbn; try done. unfold set. by rewrite Hs.
Qed.
Lemma finished_stable s closed a t closed' :
  is_terminal s = true -> observer_finished s closed = Some a -> observer_finished (observed s t) closed' = Some a.
Proof. intros Hs. rewrite terminal_final by done. by destruct s. Qed.

(** The errors of the two halves of a shutdown, and what is reported. *)
Definition guest_failure (reply : res GuestClientError Event) : option RuntimeError :=
  match reply with
  | Ok Event_Shutdowned => None
  | Ok _ => Some RE_UnexpectedReply
  | _ => Some RE_Shutdown
  end.
Definition host_failure (closed : res BackendError unit) : option RuntimeError :=
  match closed with Ok _ => None | _ => Some RE_Hypervisor end.
Definition shutdown_state (guest host : option RuntimeError) : VmState :=
  let failed m := Failed {| vf_phase := Phase_Shutdown; vf_message := m |} in
  match guest, host with
  | None, None => Finished Finish_Shutdown
  | Some e, None | None, Some e => failed (RuntimeError_display e)
  | Some g, Some h => failed (str "host cleanup failed: " ++ RuntimeError_display h
                                ++ str "; guest shutdown failed: " ++ RuntimeError_display g)
  end.
Definition shutdown_result (guest host : option RuntimeError) : res RuntimeError unit :=
  match guest, host with None, None => Ok tt | _, _ => Err RE_Shutdown end.

(** The guest's half, up to the dispatcher's end. *)
Definition guest_trace (v : LiveVm) (reply : res GuestClientError Event) : list event :=
  (if lv_scheduler v then [Answered JoinScheduler tt] else []) ++
  [Answered (CloseCleanupTasks (lv_client v)) tt; Answered (Request (lv_client v) Command_VMShutdown) reply;
   Answered (StopDispatcher (lv_client v)) tt].

Lemma flow_bind_await {A} c (k : answer c -> flow A) t a :
  runs (flow_bind (await c) k) t (Returned a) <-> exists r t', t = Answered c r :: t' /\ runs (k r) t' (Returned a).
Proof. cbn. naive_solver. Qed.

Lemma guest_shutdown_ok v t g :
  runs (guest_shutdown v) t (Returned (Ok g)) <->
  exists reply, reply <> Panic /\ t = guest_trace v reply /\ g = match guest_failure reply with None => Ok tt | Some e => Err e end.
Proof.
  unfold guest_shutdown, guest_trace. rewrite flow_runs_bind_returned. setoid_rewrite (flow_bind_await (CloseCleanupTasks _)).
  setoid_rewrite (flow_bind_await (Request _ _)). split.
  - intros (t1 & [] & t2 & -> & H1 & [] & t3 & -> & reply & t4 & -> & H2). exists reply.
    assert (E1 : t1 = if lv_scheduler v then [Answered JoinScheduler tt] else []).
    { destruct (lv_scheduler v); [by apply (await_returned JoinScheduler)|by destruct H1]. }
    subst t1. destruct reply as [ev|e|]; [| |by destruct H2].
    all: apply (flow_bind_await (StopDispatcher _)) in H2 as ([] & t5 & -> & -> & [= ->]).
    all: split_and!; [done|done|]. 2: done. by destruct ev.
  - intros (reply & Hp & -> & ->). eexists _, tt, _. split; [done|]. split.
    { destruct (lv_scheduler v); [apply (runs_await JoinScheduler); left; by eexists|done]. }
    eexists tt, _. split; [done|]. eexists reply, _. split; [done|].
    destruct reply as [ev|e|]; [..|done]; apply (flow_bind_await (StopDispatcher _)); eexists tt, []; (split; [done|]).
    + split; [done|]. by destruct ev.
    + done.
Qed.

Lemma host_close_ok v i t h :
  lv_instance v = Some i ->
  runs (host_close v) t (Returned (Ok h)) <->
  exists closed, closed <> Panic /\ t = [Answered (Close i) closed]
    /\ h = match host_failure closed with None => Ok tt | Some e => Err e end.
Proof.
  intros Hi. unfold host_close. rewrite Hi, (flow_bind_await (Close i)). split.
  - intros (r & t' & -> & H1). exists r. destruct r as [[]|e|]; destruct H1 as [-> [=]]; by subst.
  - intros (closed & Hp & -> & ->). eexists closed, []. split; [done|]. by destruct closed as [[]|e|].
Qed.

Lemma shutdown_outcome_eq observer g h :
  shutdown_outcome observer (match g with None => Ok tt | Some e => Err e end) (match h with None => Ok tt | Some e => Err e end)
  = (observe observer (shutdown_state g h), shutdown_result g h).
Proof. by destruct g, h. Qed.

Lemma runs_end {A} es (a : A) t b :
  runs (emits es (Ret a)) t (Returned b) <-> t = (Did <$> es) /\ b = a.
Proof.
  rewrite runs_emits. cbn. split; [intros (? & -> & -> & [= ->]); by rewrite app_nil_r|]. intros [-> ->]. exists [].
  by rewrite app_nil_r.
Qed.

(** A shutdown that is not cut short runs in one order: the scheduler is
    cancelled and joined, the retained processes are closed, the guest is
    asked, the dispatcher stops, and then the host closes the instance,
    whatever the guest answered.  It succeeds iff the guest confirmed and the
    host closed; the observer is told the outcome of both halves, and the
    rest of the machine is dropped. *)
Theorem shutdown_exact v i t r :
  lv_instance v = Some i -> r <> Panic ->
  runs (LiveVm_shutdown v) t (Returned r) <->
  exists reply closed,
    let s := shutdown_state (guest_failure reply) (host_failure closed) in
    reply <> Panic /\ closed <> Panic
    /\ t = (if lv_scheduler v then [Did CancelScheduler] else []) ++ guest_trace v reply
             ++ [Answered (Close i) closed] ++ (if lv_observer v then [Did (Observe s)] else [])
             ++ [Did (AbortAll (lv_client v)); Did (DropClient (lv_client v))]
    /\ r = shutdown_result (guest_failure reply) (host_failure closed).
Proof.
  intros Hi Hr. unfold LiveVm_shutdown. rewrite runs_emits. cbn zeta.
  assert (Hcancel : Did <$> (if lv_scheduler v then [CancelScheduler] else []) = (if lv_scheduler v then [Did CancelScheduler] else []))
    by (by destruct (lv_scheduler v)). rewrite Hcancel.
  assert (Hobs : forall s, Did <$> observe (lv_observer v) s = if lv_observer v then [Did (Observe s)] else [])
    by (intros s; by destruct (lv_observer v)).
  split.
  - intros (t' & -> & Hs). apply flow_runs_bind_returned in Hs as (t1 & g & t2 & -> & H1%runs_holding_returned & H2).
    destruct g as [g|e|]; [|by apply runs_end in H2 as [_ ->]..].
    apply guest_shutdown_ok in H1 as (reply & Hp & -> & ->).
    apply flow_runs_bind_returned in H2 as (t3 & h & t4 & -> & H1%runs_holding_returned & H2).
    destruct h as [h|e|]; [|by apply runs_end in H2 as [_ ->]..].
    apply (host_close_ok _ i) in H1 as (closed & Hc & -> & ->); [|done]. rewrite shutdown_outcome_eq in H2.
    apply runs_emits in H2 as (t5 & -> & [-> ->]%runs_end). exists reply, closed. rewrite Hobs. done.
  - intros (reply & closed & Hp & Hc & -> & ->). eexists. split; [done|]. apply flow_runs_bind_returned.
    eexists _, (Ok _), _. split; [done|]. split; [apply runs_holding_returned, guest_shutdown_ok; eauto|].
    apply flow_runs_bind_returned. eexists _, (Ok _), _. split; [done|]. split.
    { apply runs_holding_returned, (host_close_ok _ i); [done|]. eauto. }
    rewrite shutdown_outcome_eq. apply runs_emits. eexists. rewrite Hobs. split; [done|]. by apply runs_end.
Qed.
End Shutdown.

(** ** Concrete runs *)

Section Play.
Context `{IpNet} `{Scheduled}.

(** The run on given answers, dropped at the [stop]-th call if that is an
    await: every flow ends. *)
Fixpoint play {A} (oracle : nat -> forall c, answer c) (stop : option nat) (n : nat) (m : flow A)
    : list event * outcome A :=
  match m with
  | Ret a => ([], Returned a)
  | Await c cl k =>
      if decide (stop = Some n) then (Cancelled c :: (Did <$> cl), Dropped)
      else let '(t, o) := play oracle stop (S n) (k (oracle n c)) in (Answered c (oracle n c) :: t, o)
  | Now c k => let '(t, o) := play oracle stop (S n) (k (oracle n c)) in (Answered c (oracle n c) :: t, o)
  | Emit e k => let '(t, o) := play oracle stop n k in (Did e :: t, o)
  end.

Lemma play_runs {A} oracle stop n (m : flow A) : runs m (play oracle stop n m).1 (play oracle stop n m).2.
Proof.
  revert n. induction m as [a|c cl k IH|c k IH|e k IH]; intros n; cbn [play runs].
  - done.
  - case_decide; [by right|]. left. exists (oracle n c). specialize (IH (oracle n c) (S n)). destruct (play _ _ _). eauto.
  - exists (oracle n c). specialize (IH (oracle n c) (S n)). destruct (play _ _ _). eauto.
  - specialize (IH n). destruct (play _ _ _). eauto.
Qed.
End Play.

Module RuntimeExample.
#[local] Existing Instance simple_net.
#[local] Instance no_schedule : Scheduled := {| Trigger := unit; PreparedProcess := unit |}.

Definition sample_request : LaunchRequest :=
  {| kernel_source := []; rootfs_source := []; overlay_entries := []; req_memory_mb := None; req_vcpu_count := None;
     req_cmdline := []; req_network := Some sample_nat; req_disks := [sample_disk] |}.
Definition sample_launch : Launch :=
  {| request := sample_request; scheduled_processes := []; shutdown_trigger := Some tt |}.
Definition sample_instance (h : nat) : VmInstance :=
  {| vi_handle := h; identity := repeat (z2b 1) 16; attached_resources := [sample_resource] |}.
Definition busy : BackendError := {| be_category := StartFailed; be_retry := Retryable; be_message := [] |}.

(** The first start fails for lack of resources, everything else works. *)
Definition sample_oracle (n : nat) (c : call) : answer c :=
  match c return answer c with
  | PrepareArtifacts _ _ _ => Ok {| pa_kernel := []; pa_initrd := []; uncompressed_rootfs_size := 1 |}
  | Capabilities => {| available := true; networking := true; cap_disks := true |}
  | Create _ => Ok (sample_instance n)
  | Start i => if decide (vi_handle i = 2)%nat then Err busy else Ok tt
  | MarkPublished _ | Close _ => Ok tt
  | GenerateCapability => Some sample_capability
  | GenerateNonce => Some (repeat (z2b 2) 32)
  | ExchangeReady _ _ => Ok tt
  | CreateClient _ _ _ => Ok n
  | Request _ _ => Ok Event_Shutdowned
  | Sleep _ | JoinScheduler | CloseCleanupTasks _ | StopDispatcher _ => tt
  end.
Definition sample_run := play sample_oracle None 0 (Launcher_launch RetryPolicy_default sample_launch true).
Definition sample_live : option LiveVm := match sample_run.2 with Returned (Ok v) => Some v | _ => None end.

Lemma published_only_when_ready_witness :
  exists t v, runs (Launcher_launch RetryPolicy_default sample_launch true) t (Returned (Ok v))
    /\ exists p client t0 t2,
         t = (Did <$> observe true Launching) ++ t0 ++ Answered (MarkPublished (pl_instance p)) (Ok tt) :: t2
         /\ contacted sample_launch p client t0 /\ launched sample_launch p client true v.
Proof.
  destruct sample_live as [v|] eqn:E; [|vm_compute in E; discriminate E].
  assert (R : runs (Launcher_launch RetryPolicy_default sample_launch true) sample_run.1 (Returned (Ok v))).
  { pose proof (play_runs sample_oracle None 0 (Launcher_launch RetryPolicy_default sample_launch true)) as R.
    fold sample_run in R. unfold sample_live in E. destruct (sample_run.2) as [[v'|e|]|]; [|discriminate E..].
    injection E as ->. exact R. }
  exists sample_run.1, v. split; [exact R|].
  apply (published_only_when_ready RetryPolicy_default sample_launch true _ _ R). reflexivity.
Defined.

Definition sample_spec : VmLaunchSpec :=
  {| ls_kernel := []; ls_initrd := []; ls_memory_mb := 512; ls_vcpu_count := 1; ls_cmdline := [];
     ls_network := None; ls_disks := [] |}.
Definition sample_creation := play sample_oracle None 2 (create_and_start RetryPolicy_default sample_spec).

Lemma retry_policy_exact_witness :
  succeeds RetryPolicy_default sample_spec 6 sample_creation.1 (sample_instance 5).
Proof.
  apply (retry_policy_exact RetryPolicy_default sample_spec sample_creation.1 (Ok (sample_instance 5))).
  - discriminate.
  - discriminate.
  - exact (play_runs sample_oracle None 2 (create_and_start RetryPolicy_default sample_spec)).
Defined.

Definition sample_vm : LiveVm :=
  {| lv_instance := Some (sample_instance 5); lv_client := 9%nat; lv_observer := true; lv_scheduler := true;
     lv_attached_disks := []; lv_warnings := []; lv_capability := sample_capability;
     lv_command_endpoint := {| ce_ip := []; ce_port := 1024 |} |}.

Lemma shutdown_exact_witness :
  exists t, runs (LiveVm_shutdown sample_vm) t (Returned (Err RE_Shutdown))
            /\ Answered (Close (sample_instance 5)) (Ok tt) ∈ t.
Proof.
  eexists. split.
  - apply (shutdown_exact sample_vm (sample_instance 5)); [reflexivity|discriminate|].
    exists (Err GC_RequestTimedOut), (Ok tt). split; [discriminate|]. split; [discriminate|]. split; reflexivity.
  - apply (list_elem_of_lookup_2 _ 5). reflexivity.
Defined.

(** A launch dropped during its second start: both instances are gone. *)
Definition dropped_run := play sample_oracle (Some 6%nat) 0 (Launcher_launch RetryPolicy_default sample_launch true).
Definition dropped_instances (t : list event) : list nat :=
  omap (fun e => match e with Did (DropInstance i) => Some (vi_handle i) | _ => None end) t.
Example cancelled_retry :
  dropped_run.2 = Dropped /\ dropped_instances dropped_run.1 = [2; 5]%nat.
Proof. by vm_compute. Qed.
End RuntimeExample.
