(* ===== verification/Boot.v ===== *)
(** * The boot exchange over COM1

    The host's side ([libs/jyth/src/adapters/runtime.rs]: the boot-control
    channel, the COM1 frame helpers and the bootstrap transfer) and the
    guest's ([libs/init/src/main.rs], [ops/fetch_params.rs],
    [ops/driver_policy.rs], [ops/bootstrap.rs], [bus/mod.rs]), as programs
    over the serial byte stream.  The system calls of the guest and the file
    and pipe operations of the host are external calls with arbitrary answers.

    A normal boot ends with the guest's READY proof and its dispatcher; a
    bootstrap boot runs one command and streams its artifact back. *)

From Stdlib Require Import ZArith Lia.
From stdpp Require Import base tactics option list numbers strings.
From S2P Require Import Prelude Bytes Text Wire BootConfig BootCodec AuthMessages AuthProof.
From S2P Require Import Messages VmModel Runtime Net Framing.

Definition COM1_READY_MAGIC : bytes := str "JYTH/COM1/READY".

(** ** The guest *)

Inductive BootBackend : Type := Hcs | HcsBootstrap | Kvm.
Definition BootBackend_from_str (name : bytes) : res InitError BootBackend :=
  if bool_decide (name = str "hcs") then Ok Hcs
  else if bool_decide (name = str "hcs-bootstrap") then Ok HcsBootstrap
  else if bool_decide (name = str "kvm") then Ok Kvm
  else Err Init_UnsupportedHost.

(** [str::split_whitespace] on a command line: pieces between the white space
    characters, empty ones left out.  The kernel's command line is ASCII. *)
Definition split_whitespace (s : bytes) : list bytes :=
  let step '(done, word) b :=
    if is_whitespace (b2z b) then (done ++ (if bool_decide (word = []) then [] else [word]), [])
    else (done, word ++ [b]) in
  let '(done, word) := fold_left step s ([], []) in
  done ++ (if bool_decide (word = []) then [] else [word]).

(** [Params::parse]: the last [jyth.backend=] argument counts. *)
Definition Params_parse (cmdline : bytes) : res InitError BootBackend :=
  let backend := fold_left (fun b arg =>
    match strip_prefix (str "jyth.backend=") arg with Some val => Some val | None => b end)
    (split_whitespace cmdline) None in
  backend ← ok_or backend Init_NotFoundCmdlineBackend;
  BootBackend_from_str backend.

Record exit_status : Type := { es_success : bool; es_code : option Z }.
Record file_metadata : Type := { fm_is_file : bool; fm_len : Z }.

(** The guest's system calls.  [OpenFile] answers the results of the
    successive reads of the opened file up to its end. *)
Inductive boot_call : Type :=
  | CreateDirAll (path : bytes)
  | Mount (source target fstype : bytes)
  | ReadCmdline
  | ModuleLoaderNew
  | LoadModule (name : bytes)
  | StartLoopback
  | OpenCom1
  | BringUpNet (network : option GuestNetworkConfigV1)
  | MountDisks (disks : list GuestDiskConfigV1)
  | BindListener (ip : bytes) (port : Z)
  | SpawnDispatcher (vm_id : bytes) (capability : SessionCapability)
  | JoinDispatcher
  | RunCommand (program : bytes) (args : list bytes)
  | Metadata (path : bytes)
  | OpenFile (path : bytes).
Definition boot_answer (x : boot_call) : Type :=
  match x with
  | CreateDirAll _ | SpawnDispatcher _ _ => unit
  | Mount _ _ _ | ModuleLoaderNew | StartLoopback | BringUpNet _ | MountDisks _ | BindListener _ _ | JoinDispatcher =>
      res InitError unit
  | ReadCmdline => option bytes
  | LoadModule _ => res InitError (option unit)
  | OpenCom1 => bool
  | RunCommand _ _ => option exit_status
  | Metadata _ => option file_metadata
  | OpenFile _ => option (list (bytes + ErrorKind))
  end.
Definition guest_boot : effects := {| ext := boot_call; ext_ans := boot_answer |}.

(** A call whose answer is the value of the expression. *)
Definition ask (x : boot_call) {E} : prog guest_boot E (boot_answer x) :=
  Ext (F:=guest_boot) x (fun a => Done (Ok a)).
(** A call followed by [?]. *)
Definition ask_ok (x : boot_call) (as_res : boot_answer x -> res InitError unit) : prog guest_boot InitError unit :=
  Ext (F:=guest_boot) x (fun a => Done (as_res a)).

(** [BootBackend::load_drivers] over the module loader. *)
Definition load_driver (name : bytes) : prog guest_boot InitError (option unit) :=
  Ext (F:=guest_boot) (LoadModule name) (fun a => Done a).
Definition require_driver (name : bytes) : prog guest_boot InitError unit :=
  loaded ← load_driver name;
  of_res (ok_or loaded Init_RequiredModuleNotLoaded).
Definition load_drivers (backend : BootBackend) : prog guest_boot InitError unit :=
  match backend with
  | Hcs =>
      _ ← load_driver (str "hv_vmbus"); _ ← load_driver (str "hv_utils");
      _ ← require_driver (str "hv_netvsc"); _ ← load_driver (str "hv_storvsc"); of_res (Ok tt)
  | HcsBootstrap =>
      _ ← load_driver (str "hv_vmbus"); _ ← load_driver (str "hv_utils");
      _ ← load_driver (str "hv_netvsc"); _ ← load_driver (str "hv_storvsc"); of_res (Ok tt)
  | Kvm => _ ← load_driver (str "virtio_pci"); _ ← load_driver (str "virtio_net"); of_res (Ok tt)
  end.

Section Crypto.
Context (sha256 blake3 : bytes -> bytes).

(** The READY proof of a boot frame, serialised. *)
Definition ready_payload (capability : SessionCapability) (boot_frame : bytes) : res InitError bytes :=
  ready ← map_err (fun _ => Init_BootProtocol) (ReadyV1_for_boot sha256 capability boot_frame);
  map_err (fun _ => Init_BootProtocol) (ReadyV1_to_bytes ready).

(** *** [run_bootstrap] *)

Definition com1_send (frame : bytes) (maximum : Z) : prog guest_boot InitError unit :=
  pmap_err (fun _ => Init_Io) (send_frame frame maximum).
Definition send_result (result : BootstrapResultV1) : prog guest_boot InitError unit :=
  frame ← of_res (map_err (fun _ => Init_BootProtocol) (BootstrapResultV1_to_bytes result));
  com1_send frame MAX_AUTH_FRAME.

(** [digest_file]: hash what is read until the end of the file. *)
Fixpoint hash_chunks (reads : list (bytes + ErrorKind)) (seen : bytes) : res InitError bytes :=
  match reads with
  | [] | inl [] :: _ => Ok (blake3 seen)
  | inl chunk :: reads => hash_chunks reads (seen ++ chunk)
  | inr _ :: _ => Err Init_Io
  end.
Definition digest_file (path : bytes) : prog guest_boot InitError bytes :=
  reads ← ask (OpenFile path);
  of_res (match reads with Some reads => hash_chunks reads [] | None => Err Init_Io end).

Fixpoint stream_chunks (reads : list (bytes + ErrorKind)) : prog guest_boot InitError unit :=
  match reads with
  | [] | inl [] :: _ => of_res (Ok tt)
  | inl chunk :: reads => _ ← com1_send chunk MAX_BOOTSTRAP_CHUNK; stream_chunks reads
  | inr _ :: _ => of_res (Err Init_Io)
  end.

(** Report a failure to the host, then fail. *)
Definition fail_with (result : BootstrapResultV1) (e : InitError) : prog guest_boot InitError unit :=
  _ ← send_result result; of_res (Err e).

Definition run_bootstrap (boot_config : BootConfigV1) (boot_frame : bytes) : prog guest_boot InitError unit :=
  bootstrap ← of_res (ok_or (bc_bootstrap boot_config) Init_Bootstrap);
  ready_frame ← of_res (ready_payload (bc_capability boot_config) boot_frame);
  _ ← com1_send ready_frame MAX_AUTH_FRAME;
  status ← ask (RunCommand (bs_program bootstrap) (bs_args bootstrap));
  match status with
  | None => fail_with (command_failed None) Init_ProcessSpawn
  | Some status =>
    if negb (es_success status)
    then fail_with (command_failed (code ← es_code status; try_from_u 32 code)) Init_Bootstrap
    else
    metadata ← ask (Metadata (bs_artifact bootstrap));
    match metadata with
    | None => fail_with artifact_unavailable Init_Bootstrap
    | Some metadata =>
      if negb (fm_is_file metadata && (0 <? fm_len metadata))
      then fail_with artifact_unavailable Init_Bootstrap
      else if MAX_BOOTSTRAP_ARTIFACT_BYTES <? fm_len metadata
      then fail_with artifact_unavailable Init_Bootstrap
      else
      ptry (fun digest =>
        match digest with
        | Panic => of_res Panic
        | Err e => fail_with artifact_unavailable e
        | Ok digest =>
          artifact ← ask (OpenFile (bs_artifact bootstrap));
          match artifact with
          | None => fail_with artifact_unavailable Init_Io
          | Some reads =>
            result ← of_res (map_err (fun _ => Init_BootProtocol) (BootstrapResultV1_success (fm_len metadata) digest));
            _ ← send_result result;
            stream_chunks reads
          end
        end) (digest_file (bs_artifact bootstrap))
    end
  end.

(** *** The command bus and [run_init] *)

Definition run_bus (boot_config : BootConfigV1) (boot_frame : bytes) : prog guest_boot InitError unit :=
  _ ← ask (SpawnDispatcher (bc_vm_id boot_config) (bc_capability boot_config));
  ready_frame ← of_res (ready_payload (bc_capability boot_config) boot_frame);
  _ ← com1_send ready_frame MAX_AUTH_FRAME;
  ask_ok JoinDispatcher id.

Definition open_com1 : prog guest_boot InitError unit :=
  opened ← ask OpenCom1; of_res (fail_if (negb opened) Init_Io).
Definition fetch_params : prog guest_boot InitError BootBackend :=
  cmdline ← ask ReadCmdline;
  cmdline ← of_res (ok_or cmdline Init_Io);
  of_res (Params_parse cmdline).

(** Everything up to the opened port. *)
Definition init_setup : prog guest_boot InitError unit :=
  _ ← ask (CreateDirAll (str "/proc")); _ ← ask (CreateDirAll (str "/sys")); _ ← ask (CreateDirAll (str "/dev"));
  _ ← ask_ok (Mount (str "proc") (str "/proc") (str "proc")) id;
  _ ← ask_ok (Mount (str "sysfs") (str "/sys") (str "sysfs")) id;
  _ ← ask_ok (Mount (str "devtmpfs") (str "/dev") (str "devtmpfs")) id;
  backend ← fetch_params;
  _ ← ask_ok ModuleLoaderNew id;
  _ ← load_drivers backend;
  _ ← ask_ok StartLoopback id;
  open_com1.

(** From the boot frame on. *)
Definition run_boot : prog guest_boot InitError unit :=
  boot_frame ← pmap_err (fun _ => Init_BootProtocol) recv_boot_frame;
  boot_config ← of_res (map_err (fun _ => Init_BootProtocol) (BootConfigV1_try_from boot_frame));
  _ ← ask_ok (BringUpNet (bc_network boot_config)) id;
  _ ← ask_ok (MountDisks (bc_disks boot_config)) id;
  match bc_bootstrap boot_config with
  | Some _ => run_bootstrap boot_config boot_frame
  | None =>
      network ← of_res (ok_or (bc_network boot_config) Init_NetworkConfig);
      _ ← ask_ok (BindListener (gn_guest_ip network) COMMAND_PORT) id;
      run_bus boot_config boot_frame
  end.

Definition run_init : prog guest_boot InitError unit :=
  _ ← init_setup;
  _ ← com1_send COM1_READY_MAGIC MAX_BOOT_CONFIG_FRAME;
  run_boot.

(** ** The host *)

Inductive HostPlatform : Type := WindowsHcs | LinuxKvm | OtherPlatform (os : bytes).
Inductive PlatformSupport : Type := Supported | Experimental | Unsupported.
Definition HostPlatform_support (p : HostPlatform) : PlatformSupport :=
  match p with WindowsHcs => Supported | LinuxKvm => Experimental | OtherPlatform _ => Unsupported end.

Inductive ApiError : Type :=
  | Api_UnsupportedPlatform (platform : HostPlatform)
  | Api_Transport | Api_NetworkRequired | Api_RequestTimedOut | Api_Protocol | Api_Authentication | Api_Hypervisor
  | Api_Guest (code : GuestErrorCode) | Api_UnexpectedReply | Api_ReadyTimeout | Api_VmCreate | Api_Io | Api_Bootstrap
  | Api_Disk | Api_Build | Api_Shutdown | Api_ProcessClose | Api_Bind | Api_InvalidState.

Definition ensure_supported_platform (host : HostPlatform) : res ApiError unit :=
  match HostPlatform_support host with Supported => Ok tt | _ => Err (Api_UnsupportedPlatform host) end.

(** The pipe's life and the file the artifact is written to.  [true] is
    success; a connect that fails and one that times out give one error. *)
Inductive host_call : Type :=
  | TakePipe
  | ConnectPipe
  | CreateParent
  | CreateStaging
  | WriteStaging (chunk : bytes)
  | FlushStaging
  | SyncStaging
  | ReplaceOutput (content : bytes)
  | RemoveStaging.
Definition host_boot : effects := {| ext := host_call; ext_ans := fun _ => bool |}.

Definition host_try (x : host_call) (e : ApiError) : prog host_boot ApiError unit :=
  Ext (F:=host_boot) x (fun ok => Done (if ok then Ok tt else Err e)).

(** [match tokio::time::timeout(..)]: an error and a timeout give one context. *)
Definition timed {A} (e : ApiError) (p : prog host_boot ErrorKind A) : prog host_boot ApiError A :=
  with_deadline e (pmap_err (fun _ => e) p).

(** From the boot frame's last byte on. *)
Definition receive_ready (boot_frame : bytes) (capability : SessionCapability) : prog host_boot ApiError unit :=
  length_bytes ← timed Api_ReadyTimeout (read_exact 4);
  let ready_len := le_val length_bytes in
  _ ← of_res (fail_if (MAX_AUTH_FRAME <? ready_len) Api_Protocol);
  _ ← try_reserve_exact ready_len Api_Protocol;
  ready_frame ← timed Api_ReadyTimeout (read_exact ready_len);
  ready ← of_res (map_err (fun _ => Api_Protocol) (ReadyV1_try_from ready_frame));
  of_res (map_err (fun _ => Api_Authentication) (ReadyV1_verify sha256 ready capability boot_frame)).

Definition wait_for_ready (boot_frame : bytes) (capability : SessionCapability) : prog host_boot ApiError unit :=
  _ ← host_try TakePipe Api_ReadyTimeout;
  _ ← host_try ConnectPipe Api_ReadyTimeout;
  com1_ready ← timed Api_ReadyTimeout (read_exact (4 + len COM1_READY_MAGIC));
  let marker_len := le_val (take 4 com1_ready) in
  _ ← of_res (fail_if (negb (marker_len =? len COM1_READY_MAGIC) || bool_decide (drop 4 com1_ready <> COM1_READY_MAGIC))
                Api_Protocol);
  boot_len ← of_res (ok_or (try_from_u 32 (len boot_frame)) Api_Protocol);
  _ ← timed Api_ReadyTimeout (write_all (le_bytes 4 boot_len ++ boot_frame));
  receive_ready boot_frame capability.

(** [HcsBootControlChannel::exchange_ready] on an HCS instance. *)
Definition channel_error (e : ApiError) : BootChannelErrorKind :=
  match e with
  | Api_ReadyTimeout => Channel_Timeout
  | Api_Authentication => Channel_Authentication
  | _ => Channel_Protocol
  end.
Definition exchange_ready (boot_config : BootConfigV1) : prog host_boot BootChannelErrorKind unit :=
  boot_frame ← of_res (match BootConfigV1_to_bytes boot_config with
                       | Ok frame => if len frame <=? MAX_BOOT_CONFIG_FRAME then Ok frame else Err Channel_Protocol
                       | Err _ => Err Channel_Protocol
                       | Panic => Panic
                       end);
  pmap_err channel_error (wait_for_ready boot_frame (bc_capability boot_config)).

(** *** The bootstrap variant *)

Definition read_com1_frame (maximum : Z) (error_context : ApiError) : prog host_boot ApiError bytes :=
  length_bytes ← timed error_context (read_exact 4);
  let length := le_val length_bytes in
  _ ← of_res (fail_if (maximum <? length) Api_Protocol);
  _ ← try_reserve_exact length Api_Protocol;
  timed error_context (read_exact length).

Definition write_com1_frame (frame : bytes) (error_context : ApiError) : prog host_boot ApiError unit :=
  length ← of_res (ok_or (try_from_u 32 (len frame)) Api_Protocol);
  timed error_context (_ ← write_all (le_bytes 4 length ++ frame); flush).

Definition connect_com1 : prog host_boot ApiError unit :=
  _ ← host_try TakePipe Api_ReadyTimeout;
  host_try ConnectPipe Api_ReadyTimeout.

Definition check_ready (capability : SessionCapability) (boot_frame : bytes) : prog host_boot ApiError unit :=
  ready_frame ← read_com1_frame MAX_AUTH_FRAME Api_ReadyTimeout;
  ready ← of_res (map_err (fun _ => Api_Protocol) (ReadyV1_try_from ready_frame));
  of_res (map_err (fun _ => Api_Authentication) (ReadyV1_verify sha256 ready capability boot_frame)).

Definition exchange_boot_and_ready (boot_config : BootConfigV1) (boot_frame : bytes) : prog host_boot ApiError unit :=
  marker ← read_com1_frame MAX_AUTH_FRAME Api_ReadyTimeout;
  _ ← of_res (fail_if (bool_decide (marker <> COM1_READY_MAGIC)) Api_Protocol);
  _ ← write_com1_frame boot_frame Api_ReadyTimeout;
  check_ready (bc_capability boot_config) boot_frame.

(** The [while] loop; [content] is what the staging file holds.  Every turn
    adds at least one byte, so [artifact_len] turns are enough. *)
Fixpoint receive_artifact (fuel : nat) (artifact_len : Z) (content : bytes) : prog host_boot ApiError bytes :=
  if len content <? artifact_len then
    match fuel with
    | O => of_res Panic
    | S fuel =>
        frame ← read_com1_frame MAX_BOOTSTRAP_CHUNK Api_Bootstrap;
        _ ← of_res (fail_if (bool_decide (frame = [])) Api_Protocol);
        let remaining_bytes := artifact_len - len content in
        _ ← of_res (fail_if (remaining_bytes <? len frame) Api_Protocol);
        _ ← host_try (WriteStaging frame) Api_Io;
        receive_artifact fuel artifact_len (content ++ frame)
    end
  else of_res (Ok content).

(** The [transfer_future]. *)
Definition transfer_artifact (result : BootstrapResultV1) : prog host_boot ApiError bytes :=
  _ ← host_try CreateStaging Api_Io;
  content ← receive_artifact (Z.to_nat (br_artifact_len result)) (br_artifact_len result) [];
  _ ← host_try FlushStaging Api_Io;
  _ ← host_try SyncStaging Api_Io;
  _ ← of_res (fail_if (bool_decide (blake3 content <> br_artifact_digest result)) Api_Protocol);
  _ ← host_try (ReplaceOutput content) Api_Io;
  of_res (Ok content).

(** After READY: the result envelope and the transfer; the value is the
    published content.  [has_file_name]: the output path ends in a name. *)
Definition receive_bootstrap (has_file_name : bool) : prog host_boot ApiError bytes :=
  result_frame ← read_com1_frame MAX_AUTH_FRAME Api_Bootstrap;
  result ← of_res (map_err (fun _ => Api_Protocol) (BootstrapResultV1_try_from result_frame));
  _ ← of_res (fail_if (negb (br_status result =? SUCCESS)) Api_Bootstrap);
  _ ← of_res (fail_if ((br_artifact_len result =? 0) || (MAX_BOOTSTRAP_ARTIFACT_BYTES <? br_artifact_len result)) Api_Protocol);
  _ ← of_res (fail_if (negb has_file_name) Api_Bootstrap);
  _ ← host_try CreateParent Api_Io;
  ptry (fun transfer =>
    match transfer with
    | Ok content => of_res (Ok content)
    | Err e => Ext (F:=host_boot) RemoveStaging (fun _ => Done (Err e))
    | Panic => of_res Panic
    end) (transfer_artifact result).

Definition run_com1_bootstrap (boot_config : BootConfigV1) (has_file_name : bool) : prog host_boot ApiError bytes :=
  boot_frame ← of_res (map_err (fun _ => Api_Protocol) (BootConfigV1_to_bytes boot_config));
  _ ← of_res (fail_if (MAX_BOOT_CONFIG_FRAME <? len boot_frame) Api_Protocol);
  _ ← connect_com1;
  _ ← exchange_boot_and_ready boot_config boot_frame;
  receive_bootstrap has_file_name.
End Crypto.
