(* ===== verification/BootSafe.v ===== *)
(** * The boot exchange is correct

    Over the programs of [Boot]: every schedule of a host and a healthy guest
    ends with the guest configured as asked and the host satisfied; the host is
    satisfied by nothing but the guest's proof; and an artifact is published
    only if it is what the guest declared. *)

From Stdlib Require Import ZArith Lia.
From stdpp Require Import base tactics option list numbers strings.
From S2P Require Import Prelude Bytes Text Wire BootConfig BootCodec AuthMessages AuthProof.
From S2P Require Import Messages VmModel Runtime Net Framing AuthSession Boot.

(** ** Complete runs of the host's helpers *)

Section HostDrive.
Context (h : forall x, ext_ans host_boot x).

Lemma timed_drive {A} e (p : prog host_boot ErrorKind A) i a rest out :
  drive h p i = Some (Ok a, rest, out) -> drive h (timed e p) i = Some (Ok a, rest, out).
Proof. intros Hp. unfold timed. rewrite drive_deadline. by apply map_err_drive. Qed.

Lemma host_try_drive x e i : h x = true -> drive h (host_try x e) i = Some (Ok tt, i, []).
Proof. intros Hx. cbn. by rewrite Hx. Qed.

Lemma read_com1_frame_drive d m e rest :
  len d <= m -> m <= MAX_COMMAND_FRAME ->
  drive h (read_com1_frame m e) (frame_wire d ++ rest) = Some (Ok d, rest, []).
Proof.
  intros Hd Hm. unfold read_com1_frame, frame_wire. rewrite <-app_assoc.
  erewrite (drive_bind h _ (timed _ _)); [|apply timed_drive, read_exact_prefix].
  rewrite le_val_le_bytes_u by (by eapply (frame_len_u32 d m)).
  rewrite (fail_if_false _ _ (proj2 (Z.ltb_ge _ _) Hd)), of_res_bind.
  rewrite (drive_bind h _ (try_reserve_exact _ _) _ tt (d ++ rest) []) by done.
  by rewrite (timed_drive e _ _ _ _ _ (read_exact_wire h d rest)).
Qed.

Lemma write_com1_frame_drive d e i :
  is_u32 (len d) -> drive h (write_com1_frame d e) i = Some (Ok tt, i, frame_wire d).
Proof.
  intros Hd. unfold write_com1_frame. rewrite try_from_u_ok by done. cbn [ok_or]. rewrite of_res_bind.
  apply timed_drive. erewrite (drive_bind h _ (write_all _)); [|apply write_all_drive]. cbn.
  by rewrite app_nil_r.
Qed.
End HostDrive.

(** ** The READY message of a boot frame *)

Section Ready.
Context (sha256 : bytes -> bytes) (sha256_len : forall b, len (sha256 b) = 32).

Definition ready_of (c : BootConfigV1) (frame : bytes) : ReadyV1 :=
  {| rv_version := PROTOCOL_VERSION; rv_vm_id := bc_vm_id c; rv_host_nonce := bc_host_nonce c;
     rv_mac := compute_ready_mac sha256 (bc_capability c) frame |}.

(** A configuration that can be sent, with the frame that carries it. *)
Definition sendable (c : BootConfigV1) (frame : bytes) : Prop :=
  BootConfigV1_typed c /\ BootConfigV1_to_bytes c = Ok frame.

Lemma sendable_decodes c frame : sendable c frame -> BootConfigV1_try_from frame = Ok c.
Proof. exact (proj2 (wm_exact (M:=BootConfigV1) frame c)). Qed.
Lemma sendable_fits c frame : sendable c frame -> len frame <= MAX_BOOT_CONFIG_FRAME.
Proof. intros [Ht Hb]. apply BootConfigV1_to_bytes_inv in Hb; tauto. Qed.
Lemma sendable_u32 c frame : sendable c frame -> is_u32 (len frame).
Proof. intros Hs%sendable_fits. eapply frame_len_u32; [exact Hs|]. done. Qed.

Lemma ready_of_typed c frame : sendable c frame -> ReadyV1_typed (ready_of c frame).
Proof. intros [(_ & Hi & _ & Hn & _) _]. split_and!; [done|done|done|apply sha256_len]. Qed.

Lemma ready_for_boot c frame :
  sendable c frame -> ReadyV1_for_boot sha256 (bc_capability c) frame = Ok (ready_of c frame).
Proof. intros Hs. unfold ReadyV1_for_boot. by rewrite (sendable_decodes c frame Hs). Qed.

Lemma ready_encodes c frame :
  sendable c frame ->
  ReadyV1_to_bytes (ready_of c frame) = Ok (ReadyV1_wire (ready_of c frame))
  /\ len (ReadyV1_wire (ready_of c frame)) <= MAX_AUTH_FRAME.
Proof.
  intros Hs. pose proof (ready_of_typed c frame Hs) as (_ & Hi & Hn & Hm).
  assert (Hl : len (ReadyV1_wire (ready_of c frame)) <= MAX_AUTH_FRAME).
  { unfold ReadyV1_wire. unfold len in *. cbn [length]. rewrite !length_app, length_le_bytes.
    unfold MAX_AUTH_FRAME. lia. }
  split; [|done]. refine (proj2 (versioned_encode_iff _ _ _ _ (ReadyV1_wire (ready_of c frame)) _) _); [|done].
  unfold ReadyV1_wire. bytes_norm.
Qed.

Lemma ready_decodes c frame :
  sendable c frame -> ReadyV1_try_from (ReadyV1_wire (ready_of c frame)) = Ok (ready_of c frame).
Proof.
  intros Hs. refine (proj2 (wm_exact (M:=ReadyV1) _ _) (conj _ _)); [by apply ready_of_typed|by apply ready_encodes].
Qed.

Lemma ready_payload_ok c frame :
  sendable c frame -> ready_payload sha256 (bc_capability c) frame = Ok (ReadyV1_wire (ready_of c frame)).
Proof.
  intros Hs. unfold ready_payload. rewrite (ready_for_boot c frame Hs). cbn [map_err mbind res_bind].
  by rewrite (proj1 (ready_encodes c frame Hs)).
Qed.

Lemma ready_verifies c frame :
  sendable c frame -> ReadyV1_verify sha256 (ready_of c frame) (bc_capability c) frame = Ok tt.
Proof. intros Hs. apply ready_verify_exact. by apply ready_for_boot. Qed.

(** ** The host's stages *)

Section HostStages.
Context (h : forall x, ext_ans host_boot x).
Hypothesis take_ok : h TakePipe = true.
Hypothesis connect_ok : h ConnectPipe = true.

Definition marker_wire : bytes := frame_wire COM1_READY_MAGIC.

Lemma wait_for_ready_configures c frame rest :
  sendable c frame ->
  pumps h (wait_for_ready sha256 frame (bc_capability c)) (marker_wire ++ rest)
    (receive_ready sha256 frame (bc_capability c)) rest (frame_wire frame).
Proof.
  intros Hs. unfold wait_for_ready.
  eapply (pumps_trans _ _ _ _ _ _ _ []); [by apply drive_pumps_bind, host_try_drive|].
  eapply (pumps_trans _ _ _ _ _ _ _ []); [by apply drive_pumps_bind, host_try_drive|].
  eapply (pumps_trans _ _ _ _ _ _ _ []).
  { apply drive_pumps_bind, timed_drive.
    assert (Hr : drive h (read_exact (4 + len COM1_READY_MAGIC)) (marker_wire ++ rest) = Some (Ok marker_wire, rest, [])); [|exact Hr].
    rewrite read_exact_drive. replace (4 + len COM1_READY_MAGIC) with (len marker_wire) by reflexivity.
    rewrite (proj2 (Z.leb_le _ _)) by (rewrite len_app; pose proof (len_nonneg rest); lia).
    by rewrite take_len_app, drop_len_app. }
  change (le_val (take 4 marker_wire)) with (len COM1_READY_MAGIC).
  change (drop 4 marker_wire) with COM1_READY_MAGIC.
  rewrite Z.eqb_refl, bool_decide_eq_false_2 by tauto. cbn [negb orb]. rewrite fail_if_false, of_res_bind by done.
  rewrite try_from_u_ok by (by eapply sendable_u32). cbn [ok_or]. rewrite of_res_bind.
  apply (drive_pumps_bind h (fun _ => receive_ready sha256 frame (bc_capability c)) _ _ tt).
  apply timed_drive, write_all_drive.
Qed.

Lemma receive_ready_drive c frame rest :
  sendable c frame ->
  drive h (receive_ready sha256 frame (bc_capability c)) (frame_wire (ReadyV1_wire (ready_of c frame)) ++ rest)
  = Some (Ok tt, rest, []).
Proof.
  intros Hs. destruct (ready_encodes c frame Hs) as [_ Hl]. unfold receive_ready, frame_wire. rewrite <-app_assoc.
  erewrite (drive_bind h _ (timed _ _)); [|apply timed_drive, read_exact_prefix].
  rewrite le_val_le_bytes_u by (eapply (frame_len_u32 _ _ Hl); done).
  rewrite (fail_if_false _ _ (proj2 (Z.ltb_ge _ _) Hl)), of_res_bind.
  rewrite (drive_bind h _ (try_reserve_exact _ _) _ tt (ReadyV1_wire (ready_of c frame) ++ rest) []) by done.
  erewrite (drive_bind h _ (timed _ _)); [|apply timed_drive, read_exact_wire].
  rewrite (ready_decodes c frame Hs). cbn [map_err]. rewrite of_res_bind.
  by rewrite (ready_verifies c frame Hs).
Qed.

Lemma check_ready_drive c frame rest :
  sendable c frame ->
  drive h (check_ready sha256 (bc_capability c) frame) (frame_wire (ReadyV1_wire (ready_of c frame)) ++ rest)
  = Some (Ok tt, rest, []).
Proof.
  intros Hs. destruct (ready_encodes c frame Hs) as [_ Hl]. unfold check_ready.
  erewrite (drive_bind h _ (read_com1_frame _ _)); [|by apply read_com1_frame_drive].
  rewrite (ready_decodes c frame Hs). cbn [map_err]. rewrite of_res_bind.
  by rewrite (ready_verifies c frame Hs).
Qed.

Lemma exchange_configures c frame rest :
  sendable c frame ->
  pumps h (exchange_boot_and_ready sha256 c frame) (marker_wire ++ rest)
    (check_ready sha256 (bc_capability c) frame) rest (frame_wire frame).
Proof.
  intros Hs. unfold exchange_boot_and_ready.
  eapply (pumps_trans _ _ _ _ _ _ _ []); [by apply drive_pumps_bind, read_com1_frame_drive|].
  rewrite bool_decide_eq_false_2 by tauto. rewrite fail_if_false, of_res_bind by done.
  apply (drive_pumps_bind h (fun _ => check_ready sha256 (bc_capability c) frame) _ _ tt).
  apply write_com1_frame_drive. by eapply sendable_u32.
Qed.
End HostStages.
End Ready.

(** ** The guest's stages *)

(** A guest whose system calls work, for the configuration it is given and no
    other. *)
Record healthy (g : forall x, ext_ans guest_boot x) (c : BootConfigV1) : Prop := {
  mounts_ok s t f : g (Mount s t f) = Ok tt;
  cmdline_ok : exists cmdline backend, g ReadCmdline = Some cmdline /\ Params_parse cmdline = Ok backend;
  loader_ok : g ModuleLoaderNew = Ok tt;
  modules_ok name : g (LoadModule name) = Ok (Some tt);
  loopback_ok : g StartLoopback = Ok tt;
  com1_ok : g OpenCom1 = true;
  network_ok : g (BringUpNet (bc_network c)) = Ok tt;
  disks_ok : g (MountDisks (bc_disks c)) = Ok tt;
}.

Section GuestStages.
Context (sha256 blake3 : bytes -> bytes) (sha256_len : forall b, len (sha256 b) = 32).
Context (g : forall x, ext_ans guest_boot x).

Lemma com1_send_drive d m i :
  len d <= m -> m <= MAX_COMMAND_FRAME -> drive g (com1_send d m) i = Some (Ok tt, i, frame_wire d).
Proof. intros Hd Hm. by apply map_err_drive, send_frame_drive. Qed.

Lemma load_drivers_drive b i :
  (forall name, g (LoadModule name) = Ok (Some tt)) -> drive g (load_drivers b) i = Some (Ok tt, i, []).
Proof.
  intros Hm. assert (Hl : forall name, drive g (load_driver name) i = Some (Ok (Some tt), i, [])) by (intros; cbn; by rewrite Hm).
  assert (Hr : forall name, drive g (require_driver name) i = Some (Ok tt, i, [])).
  { intros name. unfold require_driver. by erewrite (drive_bind g); [|apply Hl]. }
  destruct b; cbn [load_drivers];
    repeat first [erewrite (drive_bind g); [|apply Hl]|erewrite (drive_bind g); [|apply Hr]|reflexivity].
Qed.

Lemma init_setup_drive c : healthy g c -> drive g init_setup [] = Some (Ok tt, [], []).
Proof.
  intros []. destruct cmdline_ok0 as (cmdline & backend & Hc & Hb). unfold init_setup.
  do 3 (erewrite (drive_bind g); [|reflexivity]).
  do 3 (erewrite (drive_bind g _ (ask_ok _ _)); [|cbn; by rewrite mounts_ok0]).
  assert (Hf : drive g fetch_params [] = Some (Ok backend, [], [])).
  { unfold fetch_params. erewrite (drive_bind g); [|cbn; by rewrite Hc]. cbn [ok_or]. by rewrite of_res_bind, Hb. }
  rewrite (drive_bind g _ _ _ _ _ _ Hf).
  erewrite (drive_bind g _ (ask_ok _ _)); [|cbn; by rewrite loader_ok0].
  rewrite (drive_bind g _ _ _ _ _ _ (load_drivers_drive backend [] modules_ok0)).
  erewrite (drive_bind g _ (ask_ok _ _)); [|cbn; by rewrite loopback_ok0].
  unfold open_com1. erewrite (drive_bind g); [|reflexivity]. by rewrite com1_ok0.
Qed.

Lemma run_init_announces c :
  healthy g c -> pumps g (run_init sha256 blake3) [] (run_boot sha256 blake3) [] marker_wire.
Proof.
  intros Hg. unfold run_init. eapply (pumps_trans _ _ _ _ _ _ _ []).
  { by apply drive_pumps_bind, (init_setup_drive c). }
  apply (drive_pumps_bind g (fun _ => run_boot sha256 blake3) _ _ tt). by apply com1_send_drive.
Qed.

(** The configuration is received and applied. *)
Lemma run_boot_applies c frame rest :
  sendable c frame -> healthy g c ->
  pumps g (run_boot sha256 blake3) (frame_wire frame ++ rest)
    (match bc_bootstrap c with
     | Some _ => run_bootstrap sha256 blake3 c frame
     | None =>
         network ← of_res (ok_or (bc_network c) Init_NetworkConfig);
         _ ← ask_ok (BindListener (gn_guest_ip network) COMMAND_PORT) id;
         run_bus sha256 c frame
     end) rest [].
Proof.
  intros Hs Hg. unfold run_boot. eapply (pumps_trans _ _ _ _ _ _ _ []).
  { apply drive_pumps_bind, map_err_drive, recv_frame_drive; [by eapply sendable_fits|done]. }
  rewrite (sendable_decodes c frame Hs). cbn [map_err]. rewrite of_res_bind.
  eapply (pumps_trans _ _ _ _ _ _ _ []); [apply drive_pumps_bind; cbn; by rewrite (network_ok g c Hg)|].
  apply (drive_pumps_bind g (fun _ => match bc_bootstrap c with Some _ => _ | None => _ end) _ _ tt).
  cbn. by rewrite (disks_ok g c Hg).
Qed.

Lemma run_bus_drive c frame rest :
  sendable c frame -> g JoinDispatcher = Ok tt ->
  drive g (run_bus sha256 c frame) rest = Some (Ok tt, rest, frame_wire (ReadyV1_wire (ready_of sha256 c frame))).
Proof.
  intros Hs Hj. unfold run_bus. erewrite (drive_bind g); [|reflexivity].
  rewrite (ready_payload_ok sha256 sha256_len c frame Hs), of_res_bind.
  erewrite (drive_bind g); [|apply com1_send_drive; [by apply ready_encodes|done]].
  cbn. rewrite Hj. cbn. by rewrite app_nil_r.
Qed.
End GuestStages.

(** ** Theorems *)

Section BootTheorems.
Context (sha256 blake3 : bytes -> bytes) (sha256_len : forall b, len (sha256 b) = 32).

Lemma pumps_map_err {F E E' A} (h : forall x, ext_ans F x) (f : E -> E') (p p' : prog F E A) i rest out :
  pumps h p i p' rest out -> pumps h (pmap_err f p) i (pmap_err f p') rest out.
Proof. apply pumps_try. Qed.


End BootTheorems.

(** ** What the host accepts *)

Section HostAccepts.
Context (sha256 : bytes -> bytes) (sha256_len : forall b, len (sha256 b) = 32).

Section Accepts.
Context (h : forall x, ext_ans host_boot x).

Lemma serve_bind_ok {E A B} (f : A -> prog host_boot E B) (p : prog host_boot E A) i b rest out :
  serve h (p ≫= f) i = (Ok b, rest, out) <->
  exists a rest1 out1 out2, serve h p i = (Ok a, rest1, out1) /\ serve h (f a) rest1 = (Ok b, rest, out2) /\ out = out1 ++ out2.
Proof.
  rewrite serve_bind. destruct (serve h p i) as [[[a|e|] rest1] out1] eqn:Ep.
  - destruct (serve h (f a) rest1) as [[r rest'] out'] eqn:Ef. split.
    + intros [= -> -> <-]. by exists a, rest1, out1, out'.
    + intros (a' & r1 & o1 & o2 & [= <- <- <-] & Hf & ->). rewrite Ef in Hf. by injection Hf as -> -> ->.
  - split; [done|]. by intros (? & ? & ? & ? & [=] & _).
  - split; [done|]. by intros (? & ? & ? & ? & [=] & _).
Qed.
Lemma serve_of_res_ok {E A} (r : res E A) i a rest out :
  serve h (of_res r) i = (Ok a, rest, out) <-> r = Ok a /\ rest = i /\ out = [].
Proof. cbn. split; [by intros [= -> -> ->]|by intros (-> & -> & ->)]. Qed.
Lemma serve_guard_ok {E} b (e : E) i u rest out :
  serve h (of_res (fail_if b e)) i = (Ok u, rest, out) <-> b = false /\ rest = i /\ out = [].
Proof. rewrite serve_of_res_ok. destruct u, b; cbn; naive_solver. Qed.
Lemma serve_reserve_ok {E} n (e : E) i u rest out :
  serve h (try_reserve_exact n e) i = (Ok u, rest, out) <-> rest = i /\ out = [].
Proof. destruct u. cbn. naive_solver. Qed.
Lemma serve_try_ok x e i u rest out :
  serve h (host_try x e) i = (Ok u, rest, out) <-> h x = true /\ rest = i /\ out = [].
Proof. destruct u. cbn. destruct (h x); naive_solver. Qed.
Lemma serve_timed {A} e (p : prog host_boot ErrorKind A) i :
  serve h (timed e p) i = let '(r, rest, out) := serve h p i in (map_err (fun _ => e) r, rest, out).
Proof.
  unfold timed. rewrite serve_deadline. unfold pmap_err. rewrite serve_try.
  destruct (serve h p i) as [[r rest] out]. cbn. by rewrite app_nil_r.
Qed.
Lemma serve_timed_ok {A} e (p : prog host_boot ErrorKind A) i a rest out :
  serve h (timed e p) i = (Ok a, rest, out) <-> serve h p i = (Ok a, rest, out).
Proof.
  rewrite serve_timed. destruct (serve h p i) as [[[x|x|] rest'] out']; cbn; split; congruence.
Qed.
Lemma serve_read_ok n i b rest out :
  0 <= n -> serve h (read_exact n) i = (Ok b, rest, out) <-> i = b ++ rest /\ len b = n /\ out = [].
Proof.
  intros Hn. cbn. destruct (Z.leb_spec n (len i)) as [Hl|Hl].
  - split.
    + intros [= <- <- <-]. split_and!; [by rewrite take_drop| |done]. unfold len in *. rewrite length_take. lia.
    + intros (-> & <- & ->). by rewrite take_len_app, drop_len_app.
  - split; [done|]. intros (-> & <- & _). rewrite len_app in Hl. pose proof (len_nonneg rest). lia.
Qed.
Lemma serve_write_ok b i u rest out :
  serve h (write_all b) i = (Ok u, rest, out) <-> rest = i /\ out = b.
Proof. destruct u. cbn. rewrite app_nil_r. naive_solver. Qed.

(** A length prefix and that many bytes. *)
Lemma frame_split lb d rest m :
  len lb = 4 -> len d = le_val lb -> le_val lb <= m -> lb ++ d ++ rest = frame_wire d ++ rest /\ len d <= m.
Proof.
  intros Hl Hd Hm. split; [|lia]. unfold frame_wire. rewrite Hd, le_bytes_le_val_n; [by rewrite <-app_assoc|].
  unfold len in Hl. lia.
Qed.

Lemma le_val_nonneg b : 0 <= le_val b.
Proof. apply le_val_range. Qed.

Lemma serve_read_frame_ok m e i d rest out :
  m <= MAX_COMMAND_FRAME ->
  serve h (read_com1_frame m e) i = (Ok d, rest, out) <-> i = frame_wire d ++ rest /\ len d <= m /\ out = [].
Proof.
  intros Hm. split.
  - intros (lb & r1 & o1 & o2 & H1 & H2 & ->)%serve_bind_ok.
    apply serve_timed_ok, serve_read_ok in H1 as (-> & Hl & ->); [|lia].
    apply serve_bind_ok in H2 as ([] & ? & ? & ? & (Hg & -> & ->)%serve_guard_ok & H2 & ->).
    apply serve_bind_ok in H2 as ([] & ? & ? & ? & (-> & ->)%serve_reserve_ok & H2 & ->).
    apply serve_timed_ok, serve_read_ok in H2 as (-> & Hd & ->); [|apply le_val_nonneg].
    apply Z.ltb_ge in Hg. destruct (frame_split lb d rest m) as [-> ?]; done.
  - intros (-> & Hd & ->). pose proof (read_com1_frame_drive h d m e rest Hd Hm) as Hr. by apply drive_serve in Hr.
Qed.

(** The READY frame, as both receivers check it. *)
Definition proves_ready (c : BootConfigV1) (frame : bytes) (i rest : bytes) : Prop :=
  i = frame_wire (ReadyV1_wire (ready_of sha256 c frame)) ++ rest.

Lemma ready_check_iff c frame d :
  sendable c frame ->
  (ready ← map_err (fun _ => Api_Protocol) (ReadyV1_try_from d);
   map_err (fun _ => Api_Authentication) (ReadyV1_verify sha256 ready (bc_capability c) frame)) = Ok tt
  <-> d = ReadyV1_wire (ready_of sha256 c frame).
Proof.
  intros Hs. split.
  - destruct (ReadyV1_try_from d) as [r|e|] eqn:Er; cbn; [|done..]. intros Hv.
    destruct (ReadyV1_verify _ _ _ _) as [[]|e|] eqn:Ev; cbn in Hv; [|done..].
    apply ready_verify_exact in Ev. rewrite (ready_for_boot sha256 c frame Hs) in Ev. injection Ev as <-.
    pose proof (proj1 (wm_exact (M:=ReadyV1) d _) Er) as [_ He].
    destruct (ready_encodes sha256 sha256_len c frame Hs) as [He' _].
    change (ReadyV1_to_bytes (ready_of sha256 c frame) = Ok d) in He. congruence.
  - intros ->. rewrite (ready_decodes sha256 sha256_len c frame Hs). cbn [map_err mbind res_bind].
    by rewrite (ready_verifies sha256 c frame Hs).
Qed.

Lemma serve_check_ok c frame i u rest out :
  sendable c frame ->
  serve h (check_ready sha256 (bc_capability c) frame) i = (Ok u, rest, out) <-> proves_ready c frame i rest /\ out = [].
Proof.
  intros Hs. destruct u. split.
  - intros (d & r1 & o1 & o2 & (-> & Hd & ->)%serve_read_frame_ok & H2 & ->)%serve_bind_ok; [|done].
    apply serve_bind_ok in H2 as (r & ? & ? & ? & (Hr & -> & ->)%serve_of_res_ok & (Hv & -> & ->)%serve_of_res_ok & ->).
    split; [|done]. unfold proves_ready. do 2 f_equal. apply (ready_check_iff c frame); [done|]. by rewrite Hr.
  - intros [-> ->]. by apply drive_serve, check_ready_drive.
Qed.

(** The other receiver checks the same frame. *)
Lemma receive_ready_eq c frame i :
  serve h (receive_ready sha256 frame (bc_capability c)) i = serve h (check_ready sha256 (bc_capability c) frame) i.
Proof.
  unfold receive_ready, check_ready, read_com1_frame.
  rewrite !serve_bind. destruct (serve h (timed _ _) i) as [[[lb|e|] r] o]; [|done..].
  rewrite !serve_bind. destruct (serve h (of_res (fail_if _ _)) r) as [[[[]|e|] r2] o2]; [|done..].
  rewrite !serve_bind. destruct (serve h (try_reserve_exact _ _) r2) as [[[[]|e|] r3] o3]; [|done..].
  rewrite !serve_bind. destruct (serve h (timed _ _) r3) as [[[d|e|] r4] o4]; [|done..].
  destruct (serve h _ r4) as [[? ?] ?]. by rewrite !app_assoc.
Qed.

(** The host is satisfied by nothing but the guest's proof.  On every
    byte stream, the boot-control channel and the bootstrap path, two
    implementations of the same exchange, accept exactly the same streams: the
    readiness marker and the one READY frame that the holder of the capability
    computes over this boot frame; and what they wrote by then is exactly the
    boot frame. *)
Theorem ready_accepted_exactly (c : BootConfigV1) (frame i rest out : bytes) :
  sendable c frame -> h TakePipe = true -> h ConnectPipe = true ->
  (serve h (wait_for_ready sha256 frame (bc_capability c)) i = (Ok tt, rest, out)
   <-> i = frame_wire COM1_READY_MAGIC ++ frame_wire (ReadyV1_wire (ready_of sha256 c frame)) ++ rest
       /\ out = frame_wire frame)
  /\ (serve h (exchange_boot_and_ready sha256 c frame) i = (Ok tt, rest, out)
      <-> i = frame_wire COM1_READY_MAGIC ++ frame_wire (ReadyV1_wire (ready_of sha256 c frame)) ++ rest
          /\ out = frame_wire frame).
Proof.
  intros Hs Ht Hc. split; split.
  - intros ([] & ? & ? & ? & (_ & -> & ->)%serve_try_ok & H1 & ->)%serve_bind_ok.
    apply serve_bind_ok in H1 as ([] & ? & ? & ? & (_ & -> & ->)%serve_try_ok & H1 & ->).
    apply serve_bind_ok in H1 as (b & r1 & ? & ? & Hb & H1 & ->).
    apply serve_timed_ok, serve_read_ok in Hb as (-> & Hb & ->); [|done].
    apply serve_bind_ok in H1 as ([] & ? & ? & ? & (Hg & -> & ->)%serve_guard_ok & H1 & ->).
    apply orb_false_iff in Hg as [Hl%negb_false_iff%Z.eqb_eq Hm%bool_decide_eq_false%dec_stable].
    apply serve_bind_ok in H1 as (n & ? & ? & ? & (Hn & -> & ->)%serve_of_res_ok & H1 & ->).
    rewrite try_from_u_ok in Hn by (by eapply sendable_u32). injection Hn as <-.
    apply serve_bind_ok in H1 as ([] & ? & ? & ? & Hw & H1 & ->).
    apply serve_timed_ok, serve_write_ok in Hw as [-> ->].
    rewrite receive_ready_eq in H1. apply serve_check_ok in H1 as [-> ->]; [|done].
    rewrite app_nil_r. split; [|done]. f_equal.
    assert (H4 : length (take 4 b) = 4%nat) by (rewrite length_take; unfold len in Hb; cbn in Hb; lia).
    rewrite <-(take_drop 4 b), Hm. unfold frame_wire. f_equal. by rewrite <-Hl, le_bytes_le_val_n.
  - intros [-> ->]. rewrite <-(app_nil_r (frame_wire frame)).
    eapply pumps_serve; [by apply wait_for_ready_configures|].
    by apply drive_serve, receive_ready_drive.
  - intros (m & ? & ? & ? & (-> & _ & ->)%serve_read_frame_ok & H1 & ->)%serve_bind_ok; [|done].
    apply serve_bind_ok in H1 as ([] & ? & ? & ? & (Hg%bool_decide_eq_false%dec_stable & -> & ->)%serve_guard_ok & H1 & ->).
    apply serve_bind_ok in H1 as ([] & ? & ? & ? & Hw & H1 & ->).
    rewrite (drive_serve h _ _ _ (write_com1_frame_drive h frame Api_ReadyTimeout _ (sendable_u32 c frame Hs))) in Hw.
    injection Hw as <- <-. apply serve_check_ok in H1 as [-> ->]; [|done].
    by rewrite Hg, app_nil_r.
  - intros [-> ->]. rewrite <-(app_nil_r (frame_wire frame)).
    eapply pumps_serve; [by apply exchange_configures|].
    by apply drive_serve, check_ready_drive.
Qed.
End Accepts.
End HostAccepts.

(** ** The bootstrap transfer *)

Section Bootstrap.
Context (sha256 blake3 : bytes -> bytes).
Context (sha256_len : forall b, len (sha256 b) = 32) (blake3_len : forall b, len (blake3 b) = 32).

(** A guest whose command succeeds and whose artifact reads as [chunks]. *)
Record produces (g : forall x, ext_ans guest_boot x) (b : BootstrapConfigV1) (chunks : list bytes) : Prop := {
  command_ok : exists code, g (RunCommand (bs_program b) (bs_args b)) = Some {| es_success := true; es_code := code |};
  metadata_ok : g (Metadata (bs_artifact b)) = Some {| fm_is_file := true; fm_len := len (concat chunks) |};
  reads_ok : g (OpenFile (bs_artifact b)) = Some (inl <$> chunks);
  chunks_ok : Forall (fun x => x <> [] /\ len x <= MAX_BOOTSTRAP_CHUNK) chunks;
  size_ok : 0 < len (concat chunks) <= MAX_BOOTSTRAP_ARTIFACT_BYTES;
}.

Definition success_of (data : bytes) : BootstrapResultV1 :=
  {| br_version := PROTOCOL_VERSION; br_status := SUCCESS; br_exit_code := Some 0;
     br_artifact_len := len data; br_artifact_digest := blake3 data |}.
Definition chunk_frames (chunks : list bytes) : bytes := concat (frame_wire <$> chunks).

Lemma success_valid data :
  0 < len data <= MAX_BOOTSTRAP_ARTIFACT_BYTES -> BootstrapResultV1_validate (success_of data) = Ok tt.
Proof.
  intros Hd. unfold BootstrapResultV1_validate. cbn [success_of br_version br_status br_artifact_len br_exit_code].
  rewrite Z.eqb_refl. cbn [negb fail_if mbind res_bind]. change (SUCCESS =? SUCCESS) with true. cbn [orb negb].
  rewrite (proj2 (Z.eqb_neq _ _)) by lia. rewrite (proj2 (Z.ltb_ge _ _)) by lia. reflexivity.
Qed.
Lemma success_typed data :
  0 < len data <= MAX_BOOTSTRAP_ARTIFACT_BYTES -> BootstrapResultV1_typed (success_of data).
Proof.
  intros Hd. unfold BootstrapResultV1_typed, success_of, in_u. cbn. unfold MAX_BOOTSTRAP_ARTIFACT_BYTES in Hd.
  split_and!; try done; try lia.
Qed.
Lemma success_encodes data :
  0 < len data <= MAX_BOOTSTRAP_ARTIFACT_BYTES ->
  BootstrapResultV1_to_bytes (success_of data) = Ok (BootstrapResultV1_wire (success_of data))
  /\ len (BootstrapResultV1_wire (success_of data)) <= MAX_AUTH_FRAME.
Proof.
  intros Hd. assert (Hl : len (BootstrapResultV1_wire (success_of data)) <= MAX_AUTH_FRAME).
  { unfold BootstrapResultV1_wire, success_of, MAX_AUTH_FRAME.
    cbn [br_version br_status br_exit_code br_artifact_len br_artifact_digest default].
    pose proof (blake3_len data). unfold len in *. cbn [length]. rewrite !length_app, length_le_bytes. cbn [length].
    rewrite !length_app, !length_le_bytes. lia. }
  split; [|done]. unfold BootstrapResultV1_to_bytes. rewrite success_valid by done. cbn [mbind res_bind].
  apply finish_ok_iff. split; [|done]. unfold BootstrapResultV1_wire. bytes_norm.
Qed.
Lemma success_decodes data :
  0 < len data <= MAX_BOOTSTRAP_ARTIFACT_BYTES ->
  BootstrapResultV1_try_from (BootstrapResultV1_wire (success_of data)) = Ok (success_of data).
Proof.
  intros Hd. refine (proj2 (wm_exact (M:=BootstrapResultV1) _ _) (conj _ _)); [by apply success_typed|].
  by apply success_encodes.
Qed.

(** *** The guest *)

Lemma hash_chunks_all chunks seen :
  Forall (fun x => x <> [] /\ len x <= MAX_BOOTSTRAP_CHUNK) chunks ->
  hash_chunks blake3 (inl <$> chunks) seen = Ok (blake3 (seen ++ concat chunks)).
Proof.
  intros Hc. revert seen. induction Hc as [|x chunks [Hx _] Hc IH]; intros seen; [by rewrite app_nil_r|].
  rewrite fmap_cons. cbn [hash_chunks concat]. destruct x as [|b x]; [done|]. rewrite IH. by rewrite <-app_assoc.
Qed.

Lemma stream_chunks_drive g chunks i :
  Forall (fun x => x <> [] /\ len x <= MAX_BOOTSTRAP_CHUNK) chunks ->
  drive g (stream_chunks (inl <$> chunks)) i = Some (Ok tt, i, chunk_frames chunks).
Proof.
  induction 1 as [|x chunks [Hx Hl] Hc IH]; [done|]. rewrite fmap_cons. cbn [stream_chunks].
  destruct x as [|b x]; [done|]. erewrite (drive_bind g); [|by apply com1_send_drive]. by rewrite IH.
Qed.

Lemma send_result_drive g data i :
  0 < len data <= MAX_BOOTSTRAP_ARTIFACT_BYTES ->
  drive g (send_result (success_of data)) i = Some (Ok tt, i, frame_wire (BootstrapResultV1_wire (success_of data))).
Proof.
  intros Hd. destruct (success_encodes data Hd) as [He Hl]. unfold send_result. rewrite He. cbn [map_err].
  rewrite of_res_bind. by apply com1_send_drive.
Qed.

Lemma run_bootstrap_drive g c frame b chunks i :
  sendable c frame -> bc_bootstrap c = Some b -> produces g b chunks ->
  drive g (run_bootstrap sha256 blake3 c frame) i =
  Some (Ok tt, i, frame_wire (ReadyV1_wire (ready_of sha256 c frame))
                    ++ frame_wire (BootstrapResultV1_wire (success_of (concat chunks))) ++ chunk_frames chunks).
Proof.
  intros Hs Hb [[code Hcmd] Hmeta Hreads Hchunks Hsize]. unfold run_bootstrap. rewrite Hb. cbn [ok_or]. rewrite of_res_bind.
  rewrite (ready_payload_ok sha256 sha256_len c frame Hs), of_res_bind.
  erewrite (drive_bind g); [|apply com1_send_drive; [by apply ready_encodes|done]].
  erewrite (drive_bind g _ (ask (RunCommand _ _))); [|cbn; by rewrite Hcmd]. cbn [es_success negb].
  erewrite (drive_bind g _ (ask (Metadata _))); [|cbn; by rewrite Hmeta]. cbn [fm_is_file fm_len andb].
  rewrite (proj2 (Z.ltb_lt 0 _)) by lia. cbn [negb]. rewrite (proj2 (Z.ltb_ge _ _)) by lia.
  assert (Hd : drive g (digest_file blake3 (bs_artifact b)) i = Some (Ok (blake3 (concat chunks)), i, [])).
  { unfold digest_file. rewrite (drive_bind g _ (ask (OpenFile _)) _ (Some (inl <$> chunks)) i []) by (cbn; by rewrite Hreads).
    by rewrite hash_chunks_all. }
  rewrite (drive_try g _ _ _ _ _ _ Hd).
  rewrite (drive_bind g _ (ask (OpenFile _)) _ (Some (inl <$> chunks)) i []) by (cbn; by rewrite Hreads). cbn [app].
  assert (Hr : BootstrapResultV1_success (len (concat chunks)) (blake3 (concat chunks)) = Ok (success_of (concat chunks))).
  { unfold BootstrapResultV1_success. fold (success_of (concat chunks)). by rewrite success_valid. }
  rewrite Hr. cbn [map_err]. rewrite of_res_bind.
  erewrite (drive_bind g); [|by apply send_result_drive]. by rewrite stream_chunks_drive.
Qed.

(** *** The host *)

Section HostTransfer.
Context (h : forall x, ext_ans host_boot x) (h_ok : forall x, h x = true).

Lemma receive_artifact_drive chunks fuel content alen rest :
  Forall (fun x => x <> [] /\ len x <= MAX_BOOTSTRAP_CHUNK) chunks ->
  alen = len content + len (concat chunks) -> (length chunks <= fuel)%nat ->
  drive h (receive_artifact fuel alen content) (chunk_frames chunks ++ rest)
  = Some (Ok (content ++ concat chunks), rest, []).
Proof.
  intros Hc. revert fuel content. induction Hc as [|x chunks [Hx Hl] Hc IH]; intros fuel content Ha Hf.
  - change (len (concat [])) with 0 in Ha. destruct fuel; cbn [receive_artifact]; rewrite (proj2 (Z.ltb_ge _ _)) by lia; by rewrite app_nil_r.
  - destruct fuel as [|fuel]; [cbn in Hf; lia|]. cbn [receive_artifact]. cbn [concat] in Ha. rewrite len_app in Ha.
    assert (0 < len x) by (destruct x; [done|unfold len; cbn; lia]). pose proof (len_nonneg (concat chunks)).
    rewrite (proj2 (Z.ltb_lt _ _)) by lia. unfold chunk_frames. rewrite fmap_cons. cbn [concat]. rewrite <-app_assoc.
    erewrite (drive_bind h); [|by apply read_com1_frame_drive].
    rewrite (bool_decide_eq_false_2 (x = [])) by done. cbn [fail_if]. rewrite of_res_bind.
    rewrite (fail_if_false (_ <? len x)) by (apply Z.ltb_ge; lia). rewrite of_res_bind.
    erewrite (drive_bind h); [|by apply host_try_drive]. fold (chunk_frames chunks).
    rewrite IH; [by rewrite <-app_assoc|rewrite len_app; lia|cbn in Hf; lia].
Qed.

Lemma chunks_bounded (chunks : list bytes) :
  Forall (fun x => x <> [] /\ len x <= MAX_BOOTSTRAP_CHUNK) chunks -> (length chunks <= Z.to_nat (len (concat chunks)))%nat.
Proof.
  induction 1 as [|x chunks [Hx _] _ IH]; [done|]. cbn [concat length]. rewrite len_app.
  pose proof (len_nonneg (concat chunks)). assert (0 < len x) by (destruct x; [done|unfold len; cbn; lia]). lia.
Qed.

Lemma transfer_artifact_drive chunks rest :
  Forall (fun x => x <> [] /\ len x <= MAX_BOOTSTRAP_CHUNK) chunks ->
  drive h (transfer_artifact blake3 (success_of (concat chunks))) (chunk_frames chunks ++ rest)
  = Some (Ok (concat chunks), rest, []).
Proof.
  intros Hc. unfold transfer_artifact. erewrite (drive_bind h); [|by apply host_try_drive].
  erewrite (drive_bind h); [|apply receive_artifact_drive; [done|done|by apply chunks_bounded]]. cbn [app].
  erewrite (drive_bind h); [|by apply host_try_drive]. erewrite (drive_bind h); [|by apply host_try_drive].
  rewrite bool_decide_eq_false_2 by tauto. rewrite fail_if_false, of_res_bind by done.
  by erewrite (drive_bind h); [|by apply host_try_drive].
Qed.

Lemma receive_bootstrap_drive chunks rest :
  Forall (fun x => x <> [] /\ len x <= MAX_BOOTSTRAP_CHUNK) chunks ->
  0 < len (concat chunks) <= MAX_BOOTSTRAP_ARTIFACT_BYTES ->
  drive h (receive_bootstrap blake3 true)
    (frame_wire (BootstrapResultV1_wire (success_of (concat chunks))) ++ chunk_frames chunks ++ rest)
  = Some (Ok (concat chunks), rest, []).
Proof.
  intros Hc Hs. destruct (success_encodes _ Hs) as [_ Hl]. unfold receive_bootstrap.
  erewrite (drive_bind h); [|by apply read_com1_frame_drive].
  rewrite success_decodes by done. cbn [map_err]. rewrite of_res_bind. cbn [success_of br_status br_artifact_len].
  change (SUCCESS =? SUCCESS) with true. cbn [negb fail_if]. rewrite of_res_bind.
  rewrite (proj2 (Z.eqb_neq _ _)) by lia. rewrite (proj2 (Z.ltb_ge _ _)) by lia. cbn [orb fail_if]. rewrite !of_res_bind.
  erewrite (drive_bind h); [|by apply host_try_drive].
  by rewrite (drive_try h _ _ _ _ _ _ (transfer_artifact_drive chunks rest Hc)).
Qed.
End HostTransfer.

End Bootstrap.

(** ** What can be published, against any guest and any host failure *)

Section Publish.
Context (sha256 blake3 : bytes -> bytes).

Definition trace : Type := list (Net.event host_boot).

(** The external calls of a trace, and the bytes written to the staging file. *)
Definition call_of (ev : Net.event host_boot) : option (host_call * bool) :=
  match ev with EvExt x ok => Some (x, ok) | _ => None end.
Definition calls (tr : trace) : list (host_call * bool) := omap call_of tr.
Definition written_chunks (l : list (host_call * bool)) : list bytes :=
  omap (fun '(x, _) => match x with WriteStaging chunk => Some chunk | _ => None end) l.
Definition staged (tr : trace) : bytes := concat (written_chunks (calls tr)).

Lemma calls_app t1 t2 : calls (t1 ++ t2) = calls t1 ++ calls t2.
Proof. apply omap_app. Qed.
Lemma staged_app t1 t2 : staged (t1 ++ t2) = staged t1 ++ staged t2.
Proof. unfold staged. rewrite calls_app. unfold written_chunks. by rewrite omap_app, concat_app. Qed.

(** Programs that make no external call and do not panic. *)
Fixpoint inert {E A} (p : prog host_boot E A) : Prop :=
  match p with
  | Done r => r <> Panic
  | ReadExact _ k => forall a, inert (k a)
  | Act _ k => forall a, inert (k a)
  | Reserve _ k | Elapsed k => forall b, inert (k b)
  | Ext _ _ => False
  end.

Lemma inert_exec {E A} (p : prog host_boot E A) tr r : inert p -> exec p tr r -> calls tr = [] /\ r <> Panic.
Proof.
  revert tr. induction p as [r0|n k IH|ac k IH|n k IH|k IH|x k IH]; intros tr Hp He; cbn in Hp, He; [| | | | |done].
  { destruct He as [-> ->]. done. }
  { destruct He as (a & t & -> & _ & He). exact (IH a t (Hp a) He). }
  all: destruct He as (a & t & -> & He); exact (IH a t (Hp a) He).
Qed.
Lemma inert_bind {E A B} (f : A -> prog host_boot E B) (p : prog host_boot E A) :
  inert p -> (forall a, inert (f a)) -> inert (p ≫= f).
Proof.
  unfold mbind, prog_bind. intros Hp Hf. induction p as [r0|n k IH|ac k IH|n k IH|k IH|x k IH]; cbn in *; eauto.
  by destruct r0.
Qed.
Lemma inert_map_err {E E' A} (f : E -> E') (p : prog host_boot E A) : inert p -> inert (pmap_err f p).
Proof.
  unfold pmap_err. intros Hp. induction p as [r0|n k IH|ac k IH|n k IH|k IH|x k IH]; cbn in *; eauto.
  by destruct r0.
Qed.
Lemma inert_deadline {E A} (e : E) (p : prog host_boot E A) : inert p -> inert (with_deadline e p).
Proof.
  intros Hp. induction p as [r0|n k IH|ac k IH|n k IH|k IH|x k IH]; intros []; cbn in *; eauto.
Qed.
Lemma inert_timed {A} e (p : prog host_boot ErrorKind A) : inert p -> inert (timed e p).
Proof. intros Hp. by apply inert_deadline, inert_map_err. Qed.
Lemma inert_read n : inert (read_exact n).
Proof. by intros []. Qed.
Lemma inert_act a : inert (act a).
Proof. by intros []. Qed.
Lemma inert_guard {E} b (e : E) : inert (of_res (fail_if b e)).
Proof. by destruct b. Qed.
Lemma inert_map_res {E E' A} (f : E -> E') (r : res E A) : r <> Panic -> inert (of_res (map_err f r)).
Proof. by destruct r. Qed.
Lemma inert_reserve {E} n (e : E) : inert (try_reserve_exact n e).
Proof. by intros []. Qed.
Lemma inert_u32 n (e : ApiError) : inert (of_res (ok_or (try_from_u 32 n) e)).
Proof. by destruct (try_from_u 32 n). Qed.

Lemma inert_read_frame m e : inert (read_com1_frame m e).
Proof.
  apply inert_bind; [apply inert_timed, inert_read|]. intros lb. apply inert_bind; [apply inert_guard|]. intros _.
  apply inert_bind; [apply inert_reserve|]. intros _. apply inert_timed, inert_read.
Qed.
Lemma ready_verify_not_panic r cap frame : ReadyV1_verify sha256 r cap frame <> Panic.
Proof.
  unfold ReadyV1_verify. apply guard_not_panic. intros _.
  pose proof (boot_config_decode_total frame). destruct (BootConfigV1_try_from frame); [|done|done].
  cbn [mbind res_bind]. apply guard_not_panic. intros _. by apply guard_not_panic.
Qed.
Lemma inert_exchange c frame : inert (exchange_boot_and_ready sha256 c frame).
Proof.
  apply inert_bind; [apply inert_read_frame|]. intros m. apply inert_bind; [apply inert_guard|]. intros _.
  apply inert_bind.
  { apply inert_bind; [apply inert_u32|]. intros n. apply inert_timed, inert_bind; [apply inert_act|]. intros _. apply inert_act. }
  intros _. apply inert_bind; [apply inert_read_frame|]. intros rf.
  apply inert_bind; [apply inert_map_res; exact (wm_total (M:=ReadyV1) rf)|].
  intros r. apply inert_map_res, ready_verify_not_panic.
Qed.

(** A frame that was received is in the trace. *)
Definition received (d : bytes) (tr : trace) : Prop := EvRead (len d) (inl d) ∈ tr.

Lemma exec_deadline_ok {E A} (e : E) (p : prog host_boot E A) tr a :
  exec (with_deadline e p) tr (Ok a) -> exists tr', exec p tr' (Ok a) /\ forall n b, EvRead n b ∈ tr' -> EvRead n b ∈ tr.
Proof.
  revert tr. induction p as [r0|n k IH|ac k IH|n k IH|k IH|x k IH]; intros tr (late & t & -> & He).
  all: destruct late; [by destruct He|].
  - destruct He as [-> <-]. exists []. split; [done|]. by intros ? ? ?%not_elem_of_nil.
  - destruct He as (a' & t' & -> & Ha & (tr' & H1 & H2)%IH). exists (EvRead n a' :: tr').
    split; [cbn; eauto|]. intros n' b [E1|?]%elem_of_cons; [rewrite E1; right; left|do 2 right; auto].
  - destruct He as (a' & t' & -> & (tr' & H1 & H2)%IH). exists (EvAct ac a' :: tr').
    split; [cbn; eauto|]. intros n' b [?|?]%elem_of_cons; [done|]. do 2 right. auto.
  - destruct He as (a' & t' & -> & (tr' & H1 & H2)%IH). exists (EvReserve n a' :: tr').
    split; [cbn; eauto|]. intros n' b [?|?]%elem_of_cons; [done|]. do 2 right. auto.
  - destruct He as (a' & t' & -> & (tr' & H1 & H2)%IH). exists (EvElapsed a' :: tr').
    split; [cbn; eauto|]. intros n' b [?|?]%elem_of_cons; [done|]. do 2 right. auto.
  - destruct He as (a' & t' & -> & (tr' & H1 & H2)%IH). exists (EvExt x a' :: tr').
    split; [cbn; eauto|]. intros n' b [?|?]%elem_of_cons; [done|]. do 2 right. auto.
Qed.
Lemma read_frame_received m e tr d : exec (read_com1_frame m e) tr (Ok d) -> received d tr.
Proof.
  intros H. unfold read_com1_frame in H. exec_ok H. exec_ok H. exec_ok H.
  apply exec_deadline_ok in H as (tr' & H & Hin). apply exec_map_err_ok, exec_read_exact_ok in H as [-> Hl].
  unfold received. rewrite !elem_of_app. right; right; right. apply Hin. rewrite Hl. by left.
Qed.

(** *** Outcomes *)

(** A sequence: the first part fails, or the rest runs. *)
Lemma exec_bind_cases {E A B} (f : A -> prog host_boot E B) (p : prog host_boot E A) tr r :
  exec (p ≫= f) tr r ->
  (exists t1 t2 a, tr = t1 ++ t2 /\ exec p t1 (Ok a) /\ exec (f a) t2 r)
  \/ (exists e, exec p tr (Err e) /\ r = Err e) \/ (exec p tr Panic /\ r = Panic).
Proof.
  intros (t1 & t2 & r1 & -> & H1 & H2)%exec_bind_inv. destruct r1 as [a|e|]; [left; eauto 7|right; left|right; right];
    destruct H2 as [-> ->]; rewrite app_nil_r; eauto.
Qed.

(** [P] holds of what is published, which is what [before] and this trace
    staged, and publication is success. *)
Record outcome_ok (before : bytes) (P : bytes -> Prop) (tr : trace) (r : res ApiError bytes) : Prop := {
  ok_total : r <> Panic;
  ok_published content : r = Ok content <-> (ReplaceOutput content, true) ∈ calls tr;
  ok_content content ok : (ReplaceOutput content, ok) ∈ calls tr -> content = before ++ staged tr /\ P content;
}.
Definition unpublished (tr : trace) : Prop := forall content ok, (ReplaceOutput content, ok) ∉ calls tr.

Lemma outcome_prefix before (P : bytes -> Prop) t1 t2 r :
  unpublished t1 -> outcome_ok (before ++ staged t1) P t2 r -> outcome_ok before P (t1 ++ t2) r.
Proof.
  intros Hn [H1 H2 H3]. assert (Hc : forall content ok, (ReplaceOutput content, ok) ∈ calls (t1 ++ t2) <-> (ReplaceOutput content, ok) ∈ calls t2).
  { intros content ok. rewrite calls_app, elem_of_app. split; [intros [?%Hn|]; done|auto]. }
  split; [done|intros; by rewrite Hc|]. intros content ok. rewrite Hc, staged_app, app_assoc. apply H3.
Qed.
Lemma outcome_failed before (P : bytes -> Prop) tr e : unpublished tr -> outcome_ok before P tr (Err e).
Proof. intros Hn. split; [done| |]; intros content; [split; [done|]|intros ok]; intros ?%Hn; done. Qed.
Lemma outcome_mono before (P Q : bytes -> Prop) tr r :
  (forall content, P content -> Q content) -> outcome_ok before P tr r -> outcome_ok before Q tr r.
Proof. intros HPQ [H1 H2 H3]. split; [done|done|]. intros content ok [-> ?]%H3. auto. Qed.

Lemma unpublished_inert tr : calls tr = [] -> unpublished tr /\ staged tr = [].
Proof. intros E1. unfold unpublished, staged. rewrite E1. split; [|done]. intros ? ?. apply not_elem_of_nil. Qed.

Definition plain_call (x : host_call) : bool := match x with WriteStaging _ | ReplaceOutput _ => false | _ => true end.
Lemma exec_host_try x e tr r :
  exec (host_try x e) tr r -> exists ok, calls tr = [(x, ok)] /\ r = if ok then Ok tt else Err e.
Proof. intros (ok & t & -> & -> & ->). by exists ok. Qed.
Lemma unpublished_call tr x ok : calls tr = [(x, ok)] -> plain_call x = true -> unpublished tr /\ staged tr = [].
Proof.
  intros E Hx. unfold unpublished, staged. rewrite E. split; [|by destruct x].
  intros content ok'. rewrite list_elem_of_singleton. by intros [= <- _].
Qed.

(** A first part that is inert, or one call that neither stages nor publishes. *)
Lemma outcome_inert_bind {A} before (P : bytes -> Prop) (p : prog host_boot ApiError A) f tr r :
  inert p -> (forall a t1 t, exec p t1 (Ok a) -> exec (f a) t r -> outcome_ok before P t r) ->
  exec (p ≫= f) tr r -> outcome_ok before P tr r.
Proof.
  intros Hp Hf [(t1 & t2 & a & -> & H1 & H2)|[(e & H1 & ->)|[H1 ->]]]%exec_bind_cases;
    destruct (inert_exec _ _ _ Hp H1) as [E1 N1].
  - destruct (unpublished_inert _ E1) as [Hu Hs]. apply outcome_prefix; [done|]. rewrite Hs, app_nil_r. by eapply Hf.
  - apply outcome_failed. by apply unpublished_inert.
  - done.
Qed.
Lemma outcome_call_bind before (P : bytes -> Prop) x e f tr r :
  plain_call x = true -> (forall t, exec (f tt) t r -> outcome_ok before P t r) ->
  exec (host_try x e ≫= f) tr r -> outcome_ok before P tr r.
Proof.
  intros Hx Hf [(t1 & t2 & [] & -> & H1 & H2)|[(e' & H1 & ->)|[H1 ->]]]%exec_bind_cases;
    apply exec_host_try in H1 as (ok & E1 & E2).
  - destruct (unpublished_call _ _ _ E1 Hx) as [Hu Hs]. apply outcome_prefix; [done|]. rewrite Hs, app_nil_r. by apply Hf.
  - apply outcome_failed. by eapply unpublished_call.
  - by destruct ok.
Qed.

Lemma receive_artifact_exec fuel alen content tr r :
  exec (receive_artifact fuel alen content) tr r -> (Z.to_nat (alen - len content) <= fuel)%nat -> len content <= alen ->
  r <> Panic /\ unpublished tr /\ forall c, r = Ok c -> c = content ++ staged tr /\ len c = alen.
Proof.
  revert content tr. induction fuel as [|fuel IH]; intros content tr He Hf Hl; cbn [receive_artifact] in He;
    destruct (Z.ltb_spec (len content) alen); try lia.
  1, 3: destruct He as [-> ->]; split_and!; [done|by apply unpublished_inert|]; intros c [= <-];
    split; [by rewrite app_nil_r|lia].
  apply exec_bind_cases in He as [(t1 & t2 & d & -> & H1 & H2)|[(e & H1 & ->)|[H1 ->]]];
    destruct (inert_exec _ _ _ (inert_read_frame _ _) H1) as [E1 N1]; [| |done].
  2: { split_and!; [done|by apply unpublished_inert|done]. }
  destruct (unpublished_inert _ E1) as [Hu1 Hs1].
  apply exec_bind_inv in H2 as (? & t3 & g1 & -> & [-> ->] & H2).
  destruct (bool_decide_reflect (d = [])) as [->|Hd]; cbn [fail_if] in H2.
  { destruct H2 as [-> ->]. rewrite app_nil_r. split_and!; done. }
  cbn [app] in H2. apply exec_bind_inv in H2 as (? & t4 & g2 & -> & [-> ->] & H2).
  destruct (Z.ltb_spec (alen - len content) (len d)) as [Hb|Hb]; cbn [fail_if] in H2.
  { destruct H2 as [-> ->]. rewrite app_nil_r. split_and!; done. }
  assert (0 < len d) by (destruct d; [done|unfold len; cbn; lia]).
  apply exec_bind_cases in H2 as [(t5 & t6 & [] & -> & H3 & H4)|[(e & H3 & ->)|[H3 ->]]];
    apply exec_host_try in H3 as (ok & E3 & E4); [| |by destruct ok].
  - apply IH in H4 as (N4 & Hu4 & Hc4); [|rewrite len_app; lia..].
    split; [done|]. split.
    + intros c o. cbn [app]. rewrite !calls_app, E1, E3. cbn [app]. rewrite elem_of_cons. intros [?|?%Hu4]; done.
    + intros c Hc. destruct (Hc4 c Hc) as [-> ?]. split; [|done]. cbn [app]. rewrite !staged_app, Hs1. cbn [app].
      unfold staged at 2. rewrite E3. cbn. by rewrite app_nil_r, <-!app_assoc.
  - split_and!; [done| |done]. intros c o. cbn [app]. rewrite !calls_app, E1, E3. cbn [app]. by intros ?%list_elem_of_singleton.
Qed.

Lemma transfer_artifact_exec result tr r :
  0 <= br_artifact_len result -> exec (transfer_artifact blake3 result) tr r ->
  outcome_ok [] (fun c => blake3 c = br_artifact_digest result /\ len c = br_artifact_len result) tr r.
Proof.
  intros Hl. apply outcome_call_bind; [done|]. intros t He.
  apply exec_bind_cases in He as [(t1 & t2 & content & -> & H1 & H2)|[(e & H1 & ->)|[H1 ->]]];
    (apply receive_artifact_exec in H1 as (N1 & Hu & Hc); [|change (len []) with 0; lia..]).
  - destruct (Hc content eq_refl) as [E1 E2]. cbn [app] in E1.
    apply outcome_prefix; [done|]. cbn [app]. rewrite <-E1. revert H2.
    apply outcome_call_bind; [done|]. intros t3. apply outcome_call_bind; [done|]. intros t4.
    apply outcome_inert_bind; [apply inert_guard|]. intros [] t5 t6 [_ Hg] He.
    symmetry in Hg. apply fail_if_ok, bool_decide_eq_false, dec_stable in Hg.
    apply exec_bind_cases in He as [(t7 & t8 & [] & -> & H3 & [-> ->])|[(e & H3 & ->)|[H3 ->]]];
      apply exec_host_try in H3 as (ok & E3 & E4); (destruct ok; [|]); try done.
    + rewrite app_nil_r. split; [done| |]; intros c; unfold staged; rewrite E3; cbn.
      * rewrite list_elem_of_singleton. split; congruence.
      * intros ok'. rewrite list_elem_of_singleton. intros [= -> ->]. by rewrite app_nil_r.
    + split; [done| |]; intros c; unfold staged; rewrite E3; cbn.
      * rewrite list_elem_of_singleton. split; congruence.
      * intros ok'. rewrite list_elem_of_singleton. intros [= -> ->]. by rewrite app_nil_r.
  - by apply outcome_failed.
  - done.
Qed.

(** *** The whole transfer *)

(** The result envelope the guest sent declares this content. *)
Definition declared (tr : trace) (content : bytes) : Prop :=
  exists rf result, received rf tr /\ BootstrapResultV1_try_from rf = Ok result
    /\ blake3 content = br_artifact_digest result /\ len content = br_artifact_len result
    /\ 0 < len content <= MAX_BOOTSTRAP_ARTIFACT_BYTES.

(** A failure after the staging file was created ends with its removal. *)
Definition cleaned (tr : trace) (r : res ApiError bytes) : Prop :=
  forall e ok, r = Err e -> (CreateStaging, ok) ∈ calls tr -> exists ok', last (calls tr) = Some (RemoveStaging, ok').

(** Parts of the run before the staging file exists. *)
Definition idle_call (x : host_call) : bool := match x with TakePipe | ConnectPipe | CreateParent => true | _ => false end.
Definition idle (tr : trace) : Prop := Forall (fun x => idle_call x.1 = true) (calls tr).

Lemma idle_unpublished tr : idle tr -> unpublished tr /\ staged tr = [] /\ forall ok, (CreateStaging, ok) ∉ calls tr.
Proof.
  unfold idle, unpublished, staged. induction (calls tr) as [|[x ok] l IH]; intros Hi.
  - split_and!; [|done|]; intros; apply not_elem_of_nil.
  - apply Forall_cons_1 in Hi as [Hx Hi]. destruct (IH Hi) as (H1 & H2 & H3). split_and!.
    + intros c o [[= <- _]|?%H1]%elem_of_cons; done.
    + destruct x; done.
    + intros o [[= <- _]|?%H3]%elem_of_cons; done.
Qed.

Definition finished (P : bytes -> Prop) (tr : trace) (r : res ApiError bytes) : Prop :=
  outcome_ok [] P tr r /\ cleaned tr r.

Lemma finished_prefix (P : bytes -> Prop) t1 t2 r : idle t1 -> finished P t2 r -> finished P (t1 ++ t2) r.
Proof.
  intros (Hu & Hs & Hn)%idle_unpublished [H1 H2]. split; [apply outcome_prefix; [done|]; by rewrite Hs|].
  intros e ok -> Hin. rewrite calls_app, elem_of_app in Hin. destruct Hin as [?%Hn|Hin]; [done|].
  destruct (H2 e ok eq_refl Hin) as [ok' Hl]. exists ok'. rewrite calls_app, last_app. by rewrite Hl.
Qed.
Lemma finished_failed (P : bytes -> Prop) tr e : idle tr -> finished P tr (Err e).
Proof. intros (Hu & _ & Hn)%idle_unpublished. split; [by apply outcome_failed|]. intros e' ok _ ?%Hn. done. Qed.
Lemma idle_nil : idle [].
Proof. constructor. Qed.
Lemma idle_inert {E A} (p : prog host_boot E A) tr r : inert p -> exec p tr r -> idle tr.
Proof. intros Hp He. unfold idle. by rewrite (proj1 (inert_exec p tr r Hp He)). Qed.
Lemma finished_inert_bind {A} (P : bytes -> Prop) (p : prog host_boot ApiError A) f tr r :
  inert p -> (forall a t, exec (f a) t r -> finished P t r) -> exec (p ≫= f) tr r -> finished P tr r.
Proof.
  intros Hp Hf [(t1 & t2 & a & -> & H1 & H2)|[(e & H1 & ->)|[H1 ->]]]%exec_bind_cases.
  - apply finished_prefix; [by eapply idle_inert|]. by eapply Hf.
  - apply finished_failed. by eapply idle_inert.
  - by destruct (inert_exec _ _ _ Hp H1).
Qed.
Lemma finished_call_bind (P : bytes -> Prop) x e f tr r :
  idle_call x = true -> (forall t, exec (f tt) t r -> finished P t r) -> exec (host_try x e ≫= f) tr r -> finished P tr r.
Proof.
  intros Hx Hf [(t1 & t2 & [] & -> & H1 & H2)|[(e' & H1 & ->)|[H1 ->]]]%exec_bind_cases;
    apply exec_host_try in H1 as (ok & E1 & E2).
  - apply finished_prefix; [unfold idle; rewrite E1; by repeat constructor|]. by apply Hf.
  - apply finished_failed. unfold idle. rewrite E1. by repeat constructor.
  - by destruct ok.
Qed.

Lemma transfer_exec result tr r :
  0 <= br_artifact_len result ->
  exec (ptry (fun transfer =>
    match transfer with
    | Ok content => of_res (Ok content)
    | Err e => Ext (F:=host_boot) RemoveStaging (fun _ => Done (Err e))
    | Panic => of_res Panic
    end) (transfer_artifact blake3 result)) tr r ->
  finished (fun c => blake3 c = br_artifact_digest result /\ len c = br_artifact_len result) tr r.
Proof.
  intros Hl (t1 & t2 & r1 & -> & H1 & H2)%exec_try_inv. apply transfer_artifact_exec in H1; [|done].
  destruct r1 as [c|e|]; [| |by destruct (ok_total _ _ _ _ H1)].
  - destruct H2 as [-> ->]. rewrite app_nil_r. by split.
  - destruct H2 as (ok & t3 & -> & -> & ->). split.
    + destruct H1 as [_ H2 H3].
      assert (Hc : forall x, x ∈ calls (t1 ++ [EvExt (F:=host_boot) RemoveStaging ok]) <-> x ∈ calls t1 \/ x = (RemoveStaging, ok)).
      { intros x. rewrite calls_app, elem_of_app. cbn. by rewrite list_elem_of_singleton. }
      split; [done| |].
      * intros content. rewrite Hc. split; [done|]. intros [?%H2|?]; done.
      * intros content o. rewrite Hc, staged_app. intros [Hin|?]; [|done]. cbn. rewrite app_nil_r. by eapply H3.
    + intros e' o _ _. exists ok. rewrite calls_app. apply last_snoc.
Qed.

Lemma receive_bootstrap_exec hf tr r :
  exec (receive_bootstrap blake3 hf) tr r -> finished (declared tr) tr r.
Proof.
  intros [(t1 & t2 & rf & -> & H1 & H2)|[(e & H1 & ->)|[H1 ->]]]%exec_bind_cases.
  2: { apply finished_failed. eapply idle_inert; [|exact H1]. apply inert_read_frame. }
  2: { by destruct (inert_exec _ _ _ (inert_read_frame _ _) H1). }
  apply finished_prefix; [eapply idle_inert; [|exact H1]; apply inert_read_frame|].
  apply read_frame_received in H1.
  destruct (BootstrapResultV1_try_from rf) as [result|e|] eqn:Er; cbn [map_err] in H2.
  2: { destruct H2 as [-> ->]. apply finished_failed, idle_nil. }
  2: { exfalso. by apply (wm_total (M:=BootstrapResultV1) rf). }
  rewrite of_res_bind in H2.
  destruct (negb (br_status result =? SUCCESS)); cbn [fail_if] in H2; [destruct H2 as [-> ->]; apply finished_failed, idle_nil|].
  rewrite of_res_bind in H2.
  destruct (_ || _) eqn:Hb; cbn [fail_if] in H2; [destruct H2 as [-> ->]; apply finished_failed, idle_nil|].
  apply orb_false_iff in Hb as [Hb1%Z.eqb_neq Hb2%Z.ltb_ge]. rewrite of_res_bind in H2.
  destruct hf; cbn [negb fail_if] in H2; [|destruct H2 as [-> ->]; apply finished_failed, idle_nil]. rewrite of_res_bind in H2.
  revert H2. apply finished_call_bind; [done|]. intros t Ht.
  pose proof (proj1 (wm_exact (M:=BootstrapResultV1) rf result) Er) as [(_ & _ & _ & [Hl _] & _) _].
  destruct (transfer_exec result t r Hl Ht) as [Ho Hc]. split; [|done].
  eapply outcome_mono; [|exact Ho]. intros c [Hd Hlen]. exists rf, result.
  split_and!; [unfold received in *; apply elem_of_app; by left|done|done|done|lia|lia].
Qed.

Lemma connect_idle tr r : exec connect_com1 tr r -> idle tr /\ r <> Panic.
Proof.
  intros [(t1 & t2 & [] & -> & H1 & H2)|[(e & H1 & ->)|[H1 ->]]]%exec_bind_cases;
    apply exec_host_try in H1 as (ok & E1 & E2); [|split; [unfold idle; rewrite E1; by repeat constructor|done]|by destruct ok].
  apply exec_host_try in H2 as (ok2 & E3 & E4). split; [|by destruct ok2; subst].
  unfold idle. rewrite calls_app, E1, E3. by repeat constructor.
Qed.

End Publish.

(** ** Concrete boots *)

Module BootExample.
Definition toy_blake3 (b : bytes) : bytes := le_bytes 32 (len b).
Lemma toy_blake3_len b : len (toy_blake3 b) = 32.
Proof. apply len_le_bytes. Qed.

Definition sample_network : GuestNetworkConfigV1 :=
  {| gn_guest_ip := map z2b [10; 77; 0; 10]; gn_gateway := map z2b [10; 77; 0; 1]; gn_prefix_len := 24; gn_dns := [] |}.
Definition sample_command : BootstrapConfigV1 :=
  {| bs_program := str "/bin/sh"; bs_args := [str "build.sh"]; bs_artifact := str "/out/kernel" |}.
Definition sample_config (network : option GuestNetworkConfigV1) (bootstrap : option BootstrapConfigV1) : BootConfigV1 :=
  {| bc_version := 1; bc_vm_id := le_bytes 16 3; bc_capability := toy_cap; bc_host_nonce := le_bytes 32 4;
     bc_network := network; bc_disks := []; bc_bootstrap := bootstrap |}.

Definition normal : BootConfigV1 := sample_config (Some sample_network) None.
Definition builder : BootConfigV1 := sample_config None (Some sample_command).

Lemma normal_sendable : sendable normal (BootConfigV1_wire normal).
Proof.
  split; [|vm_compute; reflexivity]. split_and!; try reflexivity.
  - by apply u16_small.
  - cbn. split_and!; try reflexivity; [by apply u8_small|by repeat constructor].
  - by repeat constructor.
Qed.
Lemma builder_sendable : sendable builder (BootConfigV1_wire builder).
Proof.
  split; [|vm_compute; reflexivity]. split_and!; try reflexivity.
  - by apply u16_small.
  - by repeat constructor.
  - by repeat constructor.
Qed.

Definition all_well : forall x, ext_ans host_boot x := fun _ => true.
Definition sample_guest : forall x, ext_ans guest_boot x := fun x : boot_call =>
  match x return boot_answer x with
  | CreateDirAll _ | SpawnDispatcher _ _ => tt
  | Mount _ _ _ | ModuleLoaderNew | StartLoopback | BringUpNet _ | MountDisks _ | BindListener _ _ | JoinDispatcher => Ok tt
  | ReadCmdline => Some (str "console=ttyS0 jyth.backend=hcs quiet")
  | LoadModule _ => Ok (Some tt)
  | OpenCom1 => true
  | RunCommand _ _ => Some {| es_success := true; es_code := Some 0 |}
  | Metadata _ => Some {| fm_is_file := true; fm_len := 6 |}
  | OpenFile _ => Some (inl <$> [str "bz"; str "Imag"])
  end.
Lemma sample_guest_healthy c : healthy sample_guest c.
Proof. split; try reflexivity. exists (str "console=ttyS0 jyth.backend=hcs quiet"), Hcs. split; vm_compute; reflexivity. Qed.


Lemma ready_accepted_exactly_witness :
  serve all_well (wait_for_ready toy_sha256 (BootConfigV1_wire normal) toy_cap)
    (frame_wire COM1_READY_MAGIC ++ frame_wire (ReadyV1_wire (ready_of toy_sha256 normal (BootConfigV1_wire normal))) ++ [])
  = (Ok tt, [], frame_wire (BootConfigV1_wire normal)).
Proof.
  apply (ready_accepted_exactly toy_sha256 toy_sha256_len all_well normal (BootConfigV1_wire normal)).
  - exact normal_sendable.
  - reflexivity.
  - reflexivity.
  - split; reflexivity.
Defined.


(** A guest that declares an artifact and sends another one of that length. *)
Definition forged : BootstrapResultV1 := success_of toy_blake3 (str "kernel").
Definition forged_bytes : bytes :=
  marker_wire ++ frame_wire (ReadyV1_wire (ready_of toy_sha256 builder (BootConfigV1_wire builder)))
    ++ frame_wire (BootstrapResultV1_wire forged) ++ frame_wire (str "ker") ++ frame_wire (str "ne!").
Definition forged_blake3 (b : bytes) : bytes := if bool_decide (b = str "kernel") then toy_blake3 b else le_bytes 32 0.
Definition forged_run := Net.replay all_well (run_com1_bootstrap toy_sha256 forged_blake3 builder true) forged_bytes.

End BootExample.
