(* ===== verification/HcsAdapter.v ===== *)
(** * The default ports of the launcher

    [libs/jyth/src/adapters/runtime.rs]: the translation of HCS reports into
    backend errors with their retry disposition, and the guest-client factory
    with its authenticated readiness probe. *)

From Stdlib Require Import ZArith Lia.
From stdpp Require Import base tactics option list numbers strings.
From S2P Require Import Prelude Bytes Text Wire BootConfig BootCodec AuthMessages AuthProof.
From S2P Require Import HcsJournal HcsHost Net Framing AuthSession Messages GuestDispatch Rpc.
From S2P Require Import VmModel LaunchConfig Runtime RuntimeSafe.

(** ** Backend errors *)

Definition is_transient_backend_text (message : bytes) : bool :=
  contains (str "Insufficient system resources exist to complete the requested service") message
  || contains (str "Insufficient system resources") message.

(** [report.to_string()] prints the context of the report. *)
Definition backend_error (category : BackendErrorCategory) (report : Report) : BackendError :=
  let message := Report_to_string report in
  {| be_category := category;
     be_retry := if is_transient_backend_text message then Retryable else Permanent;
     be_message := message |}.

Definition HcsVmFactory_capabilities : BackendCapabilities :=
  {| available := true; networking := true; cap_disks := true |}.

(** No context of the HCS crate has the text that marks a transient failure;
    the system's message is an attachment, which is not printed. *)
Lemma hcs_errors_permanent category report : be_retry (backend_error category report) = Permanent.
Proof. destruct report as [[] texts]; vm_compute; reflexivity. Qed.

(** ** The readiness probe *)

Section Client.
Context {F : effects} `{!Rkyv Command, !Rkyv Event} (sha256 : bytes -> bytes).

(** [TcpGuestClientFactory::create] up to the creation of the dispatcher. *)
Definition expect_ready (reply : res TransportError Event) : prog F ClientError unit :=
  match reply with
  | Ok Event_VMReady => Done (Ok tt)
  | Ok _ | Err _ => Done (Err Client_Create)
  | Panic => Done Panic
  end.
Definition TcpGuestClientFactory_create (ep : TcpEndpoint) : prog F ClientError unit :=
  ptry expect_ready (command_async sha256 ep Command_Ping).
End Client.

(** ** Retries over HCS *)

Section HcsRetries.
Context `{IpNet} `{Scheduled}.

(** Traces in which every backend failure is a translated HCS report. *)
Definition failure_of (e : Runtime.event) : option BackendError :=
  match e with
  | Answered c r =>
      match c return answer c -> option BackendError with
      | Create _ => fun r => match r with Err b => Some b | _ => None end
      | Start _ | MarkPublished _ | Close _ => fun r => match r with Err b => Some b | _ => None end
      | _ => fun _ => None
      end r
  | _ => None
  end.
Definition over_hcs (t : list Runtime.event) : Prop :=
  forall e b, e ∈ t -> failure_of e = Some b -> exists category report, b = backend_error category report.
Definition is_create (e : Runtime.event) : bool :=
  match e with Answered (Create _) _ | Cancelled (Create _) => true | _ => false end.
Definition is_sleep (e : Runtime.event) : bool :=
  match e with Answered (Sleep _) _ | Cancelled (Sleep _) => true | _ => false end.

Lemma create_once_counts spec t o :
  runs (create_once spec) t o -> length (filter is_create t) = 1%nat /\ length (filter is_sleep t) = 0%nat.
Proof.
  cbn. intros [(r & t1 & -> & Hr)|[-> _]]; [|done]. destruct r as [i|e|]; cbn in Hr; [|by destruct Hr as [-> _]..].
  destruct Hr as [(r & t2 & -> & Hr)|[-> _]]; [|done].
  destruct r as [[]|e|]; cbn in Hr; [by destruct Hr as [-> _]|by destruct Hr as (? & -> & -> & _)..].
Qed.

Lemma create_once_failure spec t e :
  runs (create_once spec) t (Returned (Err e)) -> exists ev, ev ∈ t /\ failure_of ev = Some e.
Proof.
  intros Hr%create_once_err. destruct Hr as [|i].
  - eexists. split; [by left|done].
  - eexists. split; [right; by left|done].
Qed.

(** Over HCS a launch is never retried: whatever policy is set, one
    creation is tried and no delay is waited for, in every run whose backend
    failures are HCS reports. *)
Theorem hcs_never_retries retry spec t o :
  1 <= max_attempts retry -> over_hcs t -> runs (create_and_start retry spec) t o ->
  length (filter is_create t) = 1%nat /\ length (filter is_sleep t) = 0%nat.
Proof.
  intros Hm Ho. unfold create_and_start. destruct (Z.to_nat (max_attempts retry)) as [|n] eqn:En; [lia|].
  cbn [create_attempts]. intros [(t1 & r & t2 & -> & H1 & H2)|[H1 _]]%flow_runs_bind; [|by eapply create_once_counts].
  assert (H2' : t2 = []).
  { destruct r as [i|e|]; [by destruct H2| |by destruct H2].
    destruct (create_once_failure _ _ _ H1) as (ev & Hin & Hf).
    destruct (Ho ev e) as (category & report & ->); [apply elem_of_app; by left|done|].
    rewrite hcs_errors_permanent in H2. by destruct H2. }
  subst t2. rewrite app_nil_r. by eapply create_once_counts.
Qed.
End HcsRetries.

(** ** The probe against the guest's dispatcher *)

Section Try.
Context {F : effects} (h : forall x, ext_ans F x) {E E' A B E2 A2 : Type}.
Context (f : res E A -> prog F E' B).

Lemma close_try_done p x : close h p = Done x -> close h (ptry f p) = close h (f x).
Proof. induction p as [r|n k IH|a k IH|n k IH|k IH|y k IH]; cbn; intros Hp; try done; [by injection Hp as ->|by apply IH]. Qed.

Lemma advance_try c p i o l' i' o' :
  advance c (close h p) i o = Some (l', i', o') ->
  exists p', l' = close h p' /\ advance c (close h (ptry f p)) i o = Some (close h (ptry f p'), i', o').
Proof.
  induction p as [r|n k IH|a k IH|n k IH|k IH|y k IH]; cbn; intros Ha; [done| | | | |by apply IH].
  - destruct (n <=? len i); [|destruct c; [|done]]; injection Ha as <- <- <-; eauto.
  - injection Ha as <- <- <-. eauto.
  - injection Ha as <- <- <-. eauto.
  - injection Ha as <- <- <-. eauto.
Qed.

(** A side that still succeeds has not closed. *)
Lemma steps_left_open n (l : prog no_effects E A) (r : prog no_effects E2 A2) tr tl a r' tr' tl' :
  steps n (mk_link l r tr tl) (mk_link (Done (Ok a)) r' tr' tl') -> closed l = false.
Proof.
  intros Hs. remember (mk_link l r tr tl) as s eqn:Es. remember (mk_link (Done (Ok a)) r' tr' tl') as s' eqn:Es'.
  revert l r tr tl Es. induction Hs as [s|n s s1 s2 H1 Hs IH]; intros l r tr tl ->.
  - by injection Es' as -> -> -> ->.
  - inversion H1; subst; [by eapply advance_not_closed|]. by eapply IH.
Qed.

Lemma open_advance c c' (r r' : prog no_effects E2 A2) i o i' o' :
  advance c r i o = Some (r', i', o') -> c = false -> advance c' r i o = Some (r', i', o').
Proof. intros Ha Hc. apply (advance_input c c' _ _ _ _ _ _ []) in Ha; [|done]. by rewrite !app_nil_r in Ha. Qed.

(** A wrapped program runs as the program does. *)
Lemma reaches_try p (r : prog no_effects E2 A2) tr tl a r' tr' tl' :
  closed (close h (f (Ok a))) = false ->
  reaches (mk_link (close h p) r tr tl) (mk_link (Done (Ok a)) r' tr' tl') ->
  reaches (mk_link (close h (ptry f p)) r tr tl) (mk_link (close h (f (Ok a))) r' tr' tl').
Proof.
  intros Hf [n Hs]. remember (mk_link (close h p) r tr tl) as s eqn:Es.
  remember (mk_link (Done (Ok a)) r' tr' tl') as s' eqn:Es'. revert p r tr tl Es.
  induction Hs as [s|n s s1 s2 H1 Hs IH]; intros p r tr tl ->.
  - injection Es' as Hp -> -> ->. rewrite (close_try_done _ _ Hp). apply reaches_refl.
  - inversion H1 as [? ? ? ? l1 tl1 tr1 Ha|? ? ? ? r1 tr1 tl1 Ha]; subst.
    + apply advance_try in Ha as (p' & -> & Ha). eapply reaches_step; [by apply step_left|]. by apply IH.
    + eapply reaches_step; [|by apply IH]. apply step_right. eapply open_advance; [exact Ha|].
      eapply (steps_left_open (S n)). econstructor; [|exact Hs]. exact H1.
Qed.
End Try.

Section Probe.
Context `{!Rkyv Command, !Rkyv Event, !RkyvLaws Command, !RkyvLaws Event}.
Context (sha256 : bytes -> bytes) (sha256_len : forall b, len (sha256 b) = 32).

(** The readiness probe of a machine that was configured by this launch
    succeeds.  With the endpoint the launcher derives from the instance and
    the capability of its boot configuration, and the authentication state the
    guest's dispatcher starts with from the same configuration, the guest
    client is created under every schedule of the socket operations. *)
Theorem probe_completes (g : forall c, guest_answer c) (ep : TcpEndpoint) (c : BootConfigV1) (cb eb : bytes) :
  ep_vm_id ep = bc_vm_id c -> ep_capability ep = bc_capability c ->
  Command_try_into Command_Ping = Ok cb -> len cb <= MAX_COMMAND_FRAME ->
  Event_try_into Event_VMReady = Ok eb -> len eb <= MAX_COMMAND_FRAME ->
  let a := GuestAuthentication_new (bc_vm_id c) (bc_capability c) in
  inevitable (mk_link (close no_handler (TcpGuestClientFactory_create sha256 ep))
                      (close (F:=guest_effects) g (fst (handle_connection sha256 a))) [] [])
             (mk_link (Done (Ok tt)) (Done (Ok tt)) [] []).
Proof.
  intros Hv Hc Hcb Hcl Heb Hel a. apply reaches_inevitable; [|apply done_stuck].
  apply (reaches_try no_handler expect_ready _ _ [] [] Event_VMReady (Done (handler_result g Command_Ping)) [] []); [done|].
  eapply reaches_trans; [eapply (connect_async_reaches sha256 sha256_len g ep a _ _ Hc Hv); reflexivity|].
  eapply request_reaches; try done; [apply _|by apply read_deadline_drive|].
  unfold decode_reply. by rewrite (event_roundtrip Event_VMReady eb).
Qed.
End Probe.

(** ** Concrete instances *)

Module AdapterExample.
#[local] Existing Instance simple_net.
#[local] Instance plain_schedule : Scheduled := {| Trigger := unit; PreparedProcess := unit |}.

(** HCS is out of memory: the report says so in an attachment. *)
Definition out_of_memory : Report :=
  attach (Report_new ComputeSystemStart)
    (str "Insufficient system resources exist to complete the requested service. (0x800705AA)").
Definition plain_spec : VmLaunchSpec :=
  {| ls_kernel := []; ls_initrd := []; ls_memory_mb := 512; ls_vcpu_count := 1; ls_cmdline := [];
     ls_network := None; ls_disks := [] |}.
Definition plain_instance : VmInstance := {| vi_handle := 1; identity := []; attached_resources := [] |}.
Definition starved : list Runtime.event :=
  [Answered (Create plain_spec) (Ok plain_instance);
   Answered (Start plain_instance) (Err (backend_error StartFailed out_of_memory));
   Did (DropInstance plain_instance)].

Lemma starved_runs : runs (create_and_start RetryPolicy_default plain_spec) starved (Returned (Err RE_VmCreate)).
Proof.
  left. exists (Ok plain_instance), (tl starved). split; [reflexivity|].
  left. exists (Err (backend_error StartFailed out_of_memory)), [Did (DropInstance plain_instance)]. split; [reflexivity|].
  exists []. split; [reflexivity|]. split; reflexivity.
Qed.

Lemma hcs_never_retries_witness :
  length (filter is_create starved) = 1%nat /\ length (filter is_sleep starved) = 0%nat.
Proof.
  apply (hcs_never_retries RetryPolicy_default plain_spec starved (Returned (Err RE_VmCreate))).
  - discriminate.
  - intros e b Hin. unfold starved in Hin. rewrite !elem_of_cons in Hin.
    destruct Hin as [->|[->|[->|Hin]]]; cbn; intros E; try discriminate E.
    + injection E as <-. exists StartFailed, out_of_memory. reflexivity.
    + by apply not_elem_of_nil in Hin.
  - exact starved_runs.
Defined.

Definition probed_config : BootConfigV1 :=
  {| bc_version := 1; bc_vm_id := le_bytes 16 7; bc_capability := toy_cap; bc_host_nonce := le_bytes 32 4;
     bc_network := None; bc_disks := []; bc_bootstrap := None |}.

Lemma probe_completes_witness :
  inevitable
    (mk_link (close no_handler (TcpGuestClientFactory_create (Rkyv0 := toy_command) (Rkyv1 := toy_event) toy_sha256
                                  toy_endpoint)) toy_peer [] [])
    (mk_link (Done (Ok tt)) (Done (Ok tt)) [] []).
Proof.
  refine (probe_completes (Rkyv0 := toy_command) (Rkyv1 := toy_event)
    (RkyvLaws0 := toy_command_laws) (RkyvLaws1 := toy_event_laws) toy_sha256 toy_sha256_len
    toy_answers toy_endpoint probed_config [z2b 1] [z2b 1] eq_refl eq_refl _ _ _ _);
    vm_compute; first [reflexivity|discriminate].
Defined.
End AdapterExample.
