(* ===== verification/KernelSpec.v ===== *)
(** * Kernel specifications

    [libs/kernel/src/spec]: validated kernel versions, archive entry paths and
    build configurations; [libs/kernel/src/lib.rs] and [source_catalog.rs]: the
    source pins, the embedded catalog, the constructors of [Kernel] and their
    lowering to a plan; [libs/image-core/src/digest.rs] and [http_url.rs]: the
    values they are made of.

    URL syntax is the url crate: [UrlCrate] is what the code reads of a parsed
    URL.  The catalog file is TOML: its parsed form is an argument. *)

From Stdlib Require Import ZArith Lia Ascii.
From stdpp Require Import base tactics option list numbers strings.
From S2P Require Import Prelude Bytes Text Cpio Oci IndexCodec.

(** ** Decimal numbers *)

(** [u32::to_string]: at most ten digits. *)
Definition display_u32 (z : Z) : bytes := dec_digits 10 z [].

(** [str::parse::<u32>] on a string of digits: every step is checked. *)
Fixpoint parse_digits (w acc : Z) (s : bytes) : option Z :=
  match s with
  | [] => Some acc
  | b :: s =>
      m ← try_from_u w (acc * 10);
      a ← try_from_u w (m + (b2z b - 48));
      parse_digits w a s
  end.

(** ** Versions *)

Inductive KernelVersionError : Type :=
  | KV_Empty | KV_ReservedLatest | KV_TooFewComponents | KV_TooManyComponents
  | KV_LeadingOrTrailingPeriod | KV_EmptyComponent | KV_LeadingZero | KV_NonNumericComponent
  | KV_ComponentOutOfRange | KV_FirstComponentZero.

(** [kv_components] is the array of four. *)
Record KernelVersion : Type := { kv_canonical : bytes; kv_components : list Z; kv_len : Z }.

#[global] Instance KernelVersion_eq_dec : EqDecision KernelVersion.
Proof. solve_decision. Defined.

Definition period : byte := chr ".".

(** One round of the loop over [value.split('.')]. *)
Definition version_component (state : list Z * Z) (component : bytes) : res KernelVersionError (list Z * Z) :=
  let '(components, n) := state in
  _ ← fail_if (is_empty component) KV_EmptyComponent;
  _ ← fail_if (4 <=? n) KV_TooManyComponents;
  _ ← fail_if (negb (forallb is_ascii_digit component)) KV_NonNumericComponent;
  _ ← fail_if ((1 <? len component) && starts_with (str "0") component) KV_LeadingZero;
  parsed ← ok_or (parse_digits 32 0 component) KV_ComponentOutOfRange;
  Ok (<[Z.to_nat n := parsed]> components, n + 1).

Definition KernelVersion_parse (value : bytes) : res KernelVersionError KernelVersion :=
  _ ← fail_if (is_empty value) KV_Empty;
  _ ← fail_if (bool_decide (value = str "latest")) KV_ReservedLatest;
  _ ← fail_if (starts_with (str ".") value || ends_with (str ".") value) KV_LeadingOrTrailingPeriod;
  '(components, n) ← for_each version_component (split_on period value) (replicate 4 0, 0);
  _ ← fail_if (n <? 2) KV_TooFewComponents;
  _ ← fail_if (bool_decide (components !! 0%nat = Some 0)) KV_FirstComponentZero;
  Ok {| kv_canonical := join_with (str ".") (map display_u32 (take (Z.to_nat n) components));
        kv_components := components; kv_len := n |}.

(** [Ord]: the components with zeros for the missing ones. *)
Definition component_at (v : KernelVersion) (index : nat) : Z :=
  if Z.of_nat index <? kv_len v then default 0 (kv_components v !! index) else 0.
Fixpoint cmp_from (a b : KernelVersion) (indexes : list nat) : comparison :=
  match indexes with
  | [] => Eq
  | index :: indexes =>
      match component_at a index ?= component_at b index with
      | Eq => cmp_from a b indexes
      | ordering => ordering
      end
  end.
Definition KernelVersion_cmp (a b : KernelVersion) : comparison :=
  cmp_from a b (seq 0 (Z.to_nat (Z.max (kv_len a) (kv_len b)))).

(** ** Entry paths *)

Inductive KernelPathError : Type :=
  | KP_Empty | KP_Absolute | KP_WindowsDrivePrefix | KP_UncPrefix | KP_NulByte
  | KP_ParentComponent | KP_EmptyComponent | KP_NonUtf8.

Record KernelPath : Type := { kp_canonical : bytes }.

Definition path_component (components : list bytes) (component : bytes) : res KernelPathError (list bytes) :=
  if is_empty component then Err KP_EmptyComponent
  else if bool_decide (component = str ".") then Ok components
  else if bool_decide (component = str "..") then Err KP_ParentComponent
  else Ok (components ++ [component]).

Definition KernelPath_parse (value : bytes) : res KernelPathError KernelPath :=
  _ ← fail_if (is_empty value) KP_Empty;
  _ ← fail_if (contains_byte Byte.x00 value) KP_NulByte;
  _ ← fail_if (has_drive_prefix value) KP_WindowsDrivePrefix;
  _ ← fail_if (starts_with [p_backslash] value) KP_UncPrefix;
  _ ← fail_if (starts_with [p_slash] value) KP_Absolute;
  components ← for_each path_component (split_by is_separator value) [];
  _ ← fail_if (is_empty components) KP_Empty;
  Ok {| kp_canonical := join_with (str "/") components |}.

(** [TryFrom<&Path>]: [text] is [Path::to_str]. *)
Definition KernelPath_try_from (text : option bytes) : res KernelPathError KernelPath :=
  text ← ok_or text KP_NonUtf8;
  KernelPath_parse text.

(** ** Configurations *)

Inductive KernelConfigMode : Type := Fragment | Complete.
Inductive KernelConfigError : Type := KC_Empty | KC_NulByte | KC_NonUtf8 | KC_TooLarge | KC_Read.
Record KernelConfig : Type := { kc_mode : KernelConfigMode; kc_bytes : bytes }.

Definition MAX_CONFIG_BYTES : Z := 4 * 1024 * 1024.
Definition CR : byte := Byte.x0d.
Definition LF : byte := Byte.x0a.

(** [text.replace("\r\n", "\n")]. *)
Fixpoint replace_crlf (s : bytes) : bytes :=
  match s with
  | a :: (b :: rest) as t =>
      if is_byte CR a && is_byte LF b then LF :: replace_crlf rest else a :: replace_crlf t
  | _ => s
  end.

(** [trim_end_matches('\n')]. *)
Fixpoint trim_end_lf (s : bytes) : bytes :=
  match s with
  | [] => []
  | a :: s => match trim_end_lf s with
              | [] => if is_byte LF a then [] else [a]
              | t => a :: t
              end
  end.

Definition KernelConfig_normalize (b : bytes) : res KernelConfigError bytes :=
  _ ← fail_if (is_empty b) KC_Empty;
  _ ← fail_if (MAX_CONFIG_BYTES <? len b) KC_TooLarge;
  _ ← fail_if (contains_byte Byte.x00 b) KC_NulByte;
  text ← ok_or (from_utf8 b) KC_NonUtf8;
  let lf := replace_crlf text in
  let trimmed := trim_end_lf lf in
  Ok (trimmed ++ [LF]).

Definition KernelConfig_fragment (b : bytes) : res KernelConfigError KernelConfig :=
  c ← KernelConfig_normalize b; Ok {| kc_mode := Fragment; kc_bytes := c |}.
Definition KernelConfig_complete (b : bytes) : res KernelConfigError KernelConfig :=
  c ← KernelConfig_normalize b; Ok {| kc_mode := Complete; kc_bytes := c |}.
(** [read] is what reading the file yields. *)
Definition KernelConfig_read_complete (read : option bytes) : res KernelConfigError KernelConfig :=
  b ← ok_or read KC_Read;
  KernelConfig_complete b.

(** ** Expected digests *)

Inductive ExpectedDigestError : Type :=
  | ED_MissingSeparator | ED_UnsupportedAlgorithm (algorithm : bytes)
  | ED_InvalidLength (length : Z) | ED_InvalidHex.
Inductive HexError : Type := Hex_InvalidLength | Hex_InvalidChar.

Definition hex_nibble (b : byte) : res HexError Z :=
  if in_range 48 57 b then Ok (b2z b - 48)
  else if in_range 97 102 b then Ok (b2z b - 97 + 10)
  else if in_range 65 70 b then Ok (b2z b - 65 + 10)
  else Err Hex_InvalidChar.

Fixpoint decode_nibbles (hex : bytes) : res HexError bytes :=
  match hex with
  | h :: l :: hex =>
      high ← hex_nibble h; low ← hex_nibble l;
      out ← decode_nibbles hex;
      Ok (z2b (Z.lor (Z.shiftl high 4) low) :: out)
  | _ => Ok []
  end.
Definition decode_hex (hex : bytes) (expected_bytes : Z) : res HexError bytes :=
  _ ← fail_if (negb (len hex =? expected_bytes * 2)) Hex_InvalidLength;
  decode_nibbles hex.

Definition hex_error (hex : bytes) (e : HexError) : ExpectedDigestError :=
  match e with Hex_InvalidLength => ED_InvalidLength (len hex) | Hex_InvalidChar => ED_InvalidHex end.
Definition ExpectedDigest_parse (value : bytes) : res ExpectedDigestError ExpectedDigest :=
  '(algorithm, hex) ← ok_or (split_once (chr ":") value) ED_MissingSeparator;
  if bool_decide (algorithm = str "blake3") then ED_Blake3 <$> map_err (hex_error hex) (decode_hex hex 32)
  else if bool_decide (algorithm = str "sha256") then ED_Sha256 <$> map_err (hex_error hex) (decode_hex hex 32)
  else if bool_decide (algorithm = str "sha512") then ED_Sha512 <$> map_err (hex_error hex) (decode_hex hex 64)
  else Err (ED_UnsupportedAlgorithm algorithm).

(** ** Source URLs *)

(** What the code reads of a [url::Url]. *)
Class UrlCrate := {
  ParsedUrl : Type;
  url_parse : bytes -> option ParsedUrl;
  scheme_of : ParsedUrl -> bytes;
  host_of : ParsedUrl -> option bytes;
  fragment_of : ParsedUrl -> option bytes;
  username_of : ParsedUrl -> bytes;
  password_of : ParsedUrl -> option bytes;
  as_str_of : ParsedUrl -> bytes;
}.

Inductive HttpUrlError : Type :=
  | Http_UnsupportedScheme | Http_MissingHost | Http_HasFragment | Http_HasCredentials | Http_InvalidSyntax.

Section Spec.
Context `{U : UrlCrate}.

Record HttpUrl : Type := { hu_url : ParsedUrl }.

Definition HttpUrl_parse (value : bytes) : res HttpUrlError HttpUrl :=
  url ← ok_or (url_parse value) Http_InvalidSyntax;
  _ ← fail_if (negb (bool_decide (scheme_of url = str "http") || bool_decide (scheme_of url = str "https")))
        Http_UnsupportedScheme;
  _ ← fail_if (bool_decide (host_of url = None)) Http_MissingHost;
  _ ← fail_if (negb (bool_decide (fragment_of url = None))) Http_HasFragment;
  _ ← fail_if (negb (is_empty (username_of url)) || negb (bool_decide (password_of url = None))) Http_HasCredentials;
  Ok {| hu_url := url |}.
Definition HttpUrl_as_str (u : HttpUrl) : bytes := as_str_of (hu_url u).
Definition HttpUrl_scheme (u : HttpUrl) : bytes := scheme_of (hu_url u).

(** ** Pins and the catalog *)

Inductive KernelSpecError : Type :=
  | KS_InvalidVersion (e : KernelVersionError)
  | KS_InvalidHttpUrl (e : HttpUrlError)
  | KS_InvalidOciReference (e : OciReferenceError)
  | KS_InvalidKernelPath (e : KernelPathError)
  | KS_UnpinnedVersion (version : bytes)
  | KS_InvalidSourceDigest
  | KS_InvalidSourceUrl
  | KS_SourceVersionMismatch
  | KS_InvalidSourceCatalog.

Record KernelSourcePin : Type := { pin_version : KernelVersion; pin_url : HttpUrl; pin_digest : ExpectedDigest }.

Definition KernelSourcePin_new (version : KernelVersion) (url : HttpUrl) (digest : ExpectedDigest)
    : res KernelSpecError KernelSourcePin :=
  match digest with
  | ED_Sha256 _ => Ok {| pin_version := version; pin_url := url; pin_digest := digest |}
  | _ => Err KS_InvalidSourceDigest
  end.

(** The deserialised catalog file. *)
Record Release : Type := { rel_version : bytes; rel_url : bytes; rel_sha256 : bytes }.
Record CatalogFile : Type := { schema_version : Z; releases : list Release }.

(** [rsplit('/').next()], then [split('?').next()]. *)
Definition url_file_name (url : bytes) : bytes :=
  let last_segment := default [] (last (split_on (chr "/") url)) in
  default [] (head (split_on (chr "?") last_segment)).
Definition expected_file (version : KernelVersion) : bytes :=
  str "linux-" ++ kv_canonical version ++ str ".tar.xz".

(** One release of the loop: [seen] is the hash set of versions. *)
Definition catalog_release (state : list KernelVersion * list KernelSourcePin) (release : Release)
    : res KernelSpecError (list KernelVersion * list KernelSourcePin) :=
  let '(seen, pins) := state in
  version ← map_err KS_InvalidVersion (KernelVersion_parse (rel_version release));
  _ ← fail_if (bool_decide (version ∈ seen)) KS_SourceVersionMismatch;
  url ← map_err KS_InvalidHttpUrl (HttpUrl_parse (rel_url release));
  _ ← fail_if (negb (bool_decide (HttpUrl_scheme url = str "https"))) KS_InvalidSourceUrl;
  _ ← fail_if (negb (bool_decide (url_file_name (HttpUrl_as_str url) = expected_file version)))
        KS_SourceVersionMismatch;
  digest ← map_err (fun _ => KS_InvalidSourceDigest) (ExpectedDigest_parse (str "sha256:" ++ rel_sha256 release));
  pin ← map_err (fun _ => KS_InvalidSourceDigest) (KernelSourcePin_new version url digest);
  Ok (version :: seen, pins ++ [pin]).

(** [file] is what [toml::from_str] yields. *)
Definition parse_catalog (file : option CatalogFile) : res KernelSpecError (list KernelSourcePin) :=
  file ← ok_or file KS_InvalidSourceCatalog;
  _ ← fail_if (negb (schema_version file =? 1)) KS_InvalidSourceCatalog;
  '(_, pins) ← for_each catalog_release (releases file) ([], []);
  Ok pins.

(** [catalog()] panics on a defective asset. *)
Definition catalog (file : option CatalogFile) : res KernelSpecError (list KernelSourcePin) :=
  match parse_catalog file with Ok pins => Ok pins | _ => Panic end.

(** [max_by_key]: the last of the maximal elements. *)
Definition later_max (best : option KernelSourcePin) (pin : KernelSourcePin) : option KernelSourcePin :=
  match best with
  | None => Some pin
  | Some b => match KernelVersion_cmp (pin_version b) (pin_version pin) with Gt => Some b | _ => Some pin end
  end.
Definition catalog_latest (pins : list KernelSourcePin) : option KernelSourcePin := foldl later_max None pins.
Definition catalog_get (pins : list KernelSourcePin) (version : KernelVersion) : option KernelSourcePin :=
  List.find (fun pin => bool_decide (pin_version pin = version)) pins.

(** ** Kernels *)

Record CustomKernelSpec : Type := { cs_source : KernelSourcePin; cs_config : KernelConfig }.

Definition CustomKernelSpec_with_config (pins : list KernelSourcePin) (version : bytes) (config : KernelConfig)
    : res KernelSpecError CustomKernelSpec :=
  version ← map_err KS_InvalidVersion (KernelVersion_parse version);
  source ← ok_or (catalog_get pins version) (KS_UnpinnedVersion (kv_canonical version));
  Ok {| cs_source := source; cs_config := config |}.

Context {Path : Type}.

Inductive KernelSource : Type :=
  | Source_Local (path : Path) | Source_Http (url : HttpUrl) | Source_Image (reference : OciReference)
  | Source_Bytes (content : bytes).
Inductive ExternalKernelSpec : Type :=
  | Raw (source : KernelSource) | Archive (source : KernelSource) (kernel_path : KernelPath).
Inductive Kernel : Type := Kernel_Default | Kernel_Custom (spec : CustomKernelSpec) | Kernel_External (spec : ExternalKernelSpec).

Definition Kernel_custom (pins : list KernelSourcePin) (default_config : KernelConfig) (version : bytes)
    : res KernelSpecError Kernel :=
  spec ← CustomKernelSpec_with_config pins version default_config; Ok (Kernel_Custom spec).
Definition Kernel_custom_pinned_with_config (version source_url expected_sha256 : bytes) (config : KernelConfig)
    : res KernelSpecError Kernel :=
  version ← map_err KS_InvalidVersion (KernelVersion_parse version);
  url ← map_err KS_InvalidHttpUrl (HttpUrl_parse source_url);
  _ ← fail_if (negb (bool_decide (HttpUrl_scheme url = str "https"))) KS_InvalidSourceUrl;
  digest ← map_err (fun _ => KS_InvalidSourceDigest) (ExpectedDigest_parse (str "sha256:" ++ expected_sha256));
  pin ← KernelSourcePin_new version url digest;
  Ok (Kernel_Custom {| cs_source := pin; cs_config := config |}).
Definition Kernel_local (path : Path) : Kernel := Kernel_External (Raw (Source_Local path)).
Definition Kernel_bytes (content : bytes) : Kernel := Kernel_External (Raw (Source_Bytes content)).
Definition Kernel_http (url : bytes) : res KernelSpecError Kernel :=
  url ← map_err KS_InvalidHttpUrl (HttpUrl_parse url);
  Ok (Kernel_External (Raw (Source_Http url))).
Definition archive (source : KernelSource) (kernel_path : bytes) : res KernelSpecError Kernel :=
  kernel_path ← map_err KS_InvalidKernelPath (KernelPath_parse kernel_path);
  Ok (Kernel_External (Archive source kernel_path)).
Definition Kernel_local_archive (path : Path) (kernel_path : bytes) : res KernelSpecError Kernel :=
  archive (Source_Local path) kernel_path.
Definition Kernel_bytes_archive (content kernel_path : bytes) : res KernelSpecError Kernel :=
  archive (Source_Bytes content) kernel_path.
Definition Kernel_http_archive (url kernel_path : bytes) : res KernelSpecError Kernel :=
  url ← map_err KS_InvalidHttpUrl (HttpUrl_parse url);
  archive (Source_Http url) kernel_path.
Definition Kernel_image (reference kernel_path : bytes) : res KernelSpecError Kernel :=
  reference ← map_err KS_InvalidOciReference (OciReference_parse reference);
  archive (Source_Image reference) kernel_path.

(** ** Lowering *)

Inductive KernelError : Type :=
  | KE_Materialization | KE_InvalidBuiltInSpecification | KE_CompilerUnavailable | KE_Compilation.
Inductive Link : Type :=
  | Link_local (path : Path) | Link_http (url : bytes) | Link_image (reference : bytes) | Link_bytes (content : bytes).
Record ExternalKernelPlan : Type := { plan_link : Link; plan_kernel_path : option KernelPath }.

Definition DEFAULT_KERNEL_OCI_REFERENCE : bytes :=
  str "registry-1.docker.io/linuxkit/kernel@sha256:cde6f94fa4b0db36db2d191e27fc65825d0c6b0006aca6956d5af5b8ad68fec0".
Definition DEFAULT_KERNEL_ENTRY_PATH : bytes := str "kernel".

Definition lower_source (source : KernelSource) : Link :=
  match source with
  | Source_Local path => Link_local path
  | Source_Http url => Link_http (HttpUrl_as_str url)
  | Source_Image reference => Link_image (oci_canonical reference)
  | Source_Bytes content => Link_bytes content
  end.
Definition lower (kind : Kernel) : res KernelError ExternalKernelPlan :=
  match kind with
  | Kernel_Custom _ => Err KE_CompilerUnavailable
  | Kernel_Default =>
      reference ← map_err (fun _ => KE_InvalidBuiltInSpecification) (OciReference_parse DEFAULT_KERNEL_OCI_REFERENCE);
      path ← map_err (fun _ => KE_InvalidBuiltInSpecification) (KernelPath_parse DEFAULT_KERNEL_ENTRY_PATH);
      Ok {| plan_link := Link_image (oci_canonical reference); plan_kernel_path := Some path |}
  | Kernel_External (Raw source) => Ok {| plan_link := lower_source source; plan_kernel_path := None |}
  | Kernel_External (Archive source kernel_path) =>
      Ok {| plan_link := lower_source source; plan_kernel_path := Some kernel_path |}
  end.
End Spec.

(** ** Decimal numerals *)

Definition digit (b : byte) : Z := b2z b - 48.
Definition numeral_value (acc : Z) (s : bytes) : Z := foldl (fun a b => a * 10 + digit b) acc s.
Definition digits (s : bytes) : Prop := Forall (fun b => is_ascii_digit b = true) s.
(** Digits without superfluous leading zeros. *)
Definition numeral (s : bytes) : Prop :=
  digits s /\ s <> [] /\ ((1 < length s)%nat -> head s <> Some (chr "0")).

Lemma is_ascii_digit_range b : is_ascii_digit b = true <-> 0 <= digit b < 10.
Proof. unfold is_ascii_digit, in_range, digit. rewrite andb_true_iff, !Z.leb_le. lia. Qed.

Lemma digit_inj a b : digit a = digit b -> a = b.
Proof. unfold digit. intros H. apply b2z_inj. lia. Qed.

Lemma numeral_value_snoc acc s b : numeral_value acc (s ++ [b]) = numeral_value acc s * 10 + digit b.
Proof. unfold numeral_value. by rewrite foldl_app. Qed.

Lemma numeral_value_ge acc s : digits s -> 0 <= acc -> acc <= numeral_value acc s.
Proof.
  revert acc. induction s as [|b s IH]; intros acc Hs Ha; [done|]. apply Forall_cons in Hs as [Hb Hs].
  apply is_ascii_digit_range in Hb. change (acc <= numeral_value (acc * 10 + digit b) s).
  specialize (IH (acc * 10 + digit b) Hs ltac:(lia)). lia.
Qed.

Lemma numeral_value_nonneg s : digits s -> 0 <= numeral_value 0 s.
Proof. intros Hs. by apply numeral_value_ge. Qed.

Lemma parse_digits_exact w acc s :
  digits s -> in_u w acc -> parse_digits w acc s = try_from_u w (numeral_value acc s).
Proof.
  revert acc. induction s as [|b s IH]; intros acc Hs Ha.
  { cbn. by rewrite try_from_u_ok. }
  apply Forall_cons in Hs as [Hb Hs]. cbn [parse_digits]. apply is_ascii_digit_range in Hb.
  change (numeral_value acc (b :: s)) with (numeral_value (acc * 10 + digit b) s). unfold in_u in Ha.
  pose proof (numeral_value_ge (acc * 10 + digit b) s Hs ltac:(lia)) as Hge. fold (digit b).
  destruct (decide (acc * 10 + digit b < 2 ^ w)).
  - rewrite try_from_u_ok by (unfold in_u; lia). cbn. rewrite try_from_u_ok by (unfold in_u; lia). cbn.
    apply IH; [done|]. unfold in_u. lia.
  - transitivity (@None Z).
    + unfold try_from_u. case_decide as H1; [|done]. cbn. unfold in_u in *. rewrite decide_False by lia. done.
    + unfold try_from_u. unfold in_u. rewrite decide_False by lia. done.
Qed.

Lemma head_snoc_long (s : bytes) b : s <> [] -> head (s ++ [b]) = head s.
Proof. by destruct s. Qed.

Lemma numeral_prefix s b : s <> [] -> numeral (s ++ [b]) -> numeral s /\ 0 < numeral_value 0 s.
Proof.
  intros Hne [Hd [_ Hl]]. apply Forall_app in Hd as [Hs Hb].
  assert (head s <> Some (chr "0")) as Hh.
  { rewrite <-(head_snoc_long s b Hne). apply Hl. rewrite length_app. destruct s; [done|cbn; lia]. }
  split; [done|]. destruct s as [|a s]; [done|]. apply Forall_cons in Hs as [Ha Hs].
  apply is_ascii_digit_range in Ha.
  assert (0 < digit a).
  { destruct (decide (digit a = 0)) as [E|]; [|lia]. destruct Hh. cbn. f_equal. by apply digit_inj. }
  change (0 < numeral_value (0 * 10 + digit a) s).
  pose proof (numeral_value_ge (0 * 10 + digit a) s Hs ltac:(lia)). lia.
Qed.

Lemma numeral_inj s t : numeral s -> numeral t -> numeral_value 0 s = numeral_value 0 t -> s = t.
Proof.
  revert t. induction s as [|b s IH] using rev_ind; intros t Hs Ht E; [by destruct Hs as (_ & ? & _)|].
  destruct t as [|c t _] using rev_ind; [by destruct Ht as (_ & ? & _)|].
  rewrite !numeral_value_snoc in E.
  assert (0 <= digit b < 10 /\ 0 <= digit c < 10) as [Hb Hc].
  { destruct Hs as [[_ [Hb _]%Forall_cons]%Forall_app _], Ht as [[_ [Hc _]%Forall_cons]%Forall_app _].
    by split; apply is_ascii_digit_range. }
  assert (numeral_value 0 s = numeral_value 0 t /\ digit b = digit c) as [Ev Ed] by lia.
  rewrite (digit_inj _ _ Ed). f_equal.
  destruct (decide (s = [])) as [->|Hs'], (decide (t = [])) as [->|Ht']; [done|..].
  - apply (numeral_prefix _ _ Ht') in Ht as [_ ?]. cbn in Ev. lia.
  - apply (numeral_prefix _ _ Hs') in Hs as [_ ?]. cbn in Ev. lia.
  - apply IH; [by eapply numeral_prefix..|done].
Qed.

Lemma dec_digits_app fuel z acc : dec_digits fuel z acc = dec_digits fuel z [] ++ acc.
Proof.
  revert z acc. induction fuel as [|fuel IH]; intros z acc; [done|]. cbn [dec_digits]. case_match; [done|].
  rewrite IH, (IH _ [_]), <-app_assoc. done.
Qed.

Lemma digit_printed d : 0 <= d < 10 -> digit (z2b (48 + d)) = d.
Proof. intros ?. unfold digit. rewrite b2z_z2b_small; lia. Qed.

Lemma dec_digits_numeral fuel z :
  (0 < fuel)%nat -> 0 <= z < 10 ^ Z.of_nat fuel ->
  numeral (dec_digits fuel z []) /\ numeral_value 0 (dec_digits fuel z []) = z.
Proof.
  revert z. induction fuel as [|fuel IH]; intros z Hf Hz; [lia|]. cbn [dec_digits].
  assert (0 <= z mod 10 < 10) as Hm by (apply Z.mod_pos_bound; lia).
  assert (is_ascii_digit (z2b (48 + z mod 10)) = true) as Hd by (apply is_ascii_digit_range; by rewrite digit_printed).
  destruct (Z.ltb_spec z 10) as [Hlt|Hge].
  - rewrite Z.mod_small in * by lia. split; [split_and!; [by repeat constructor|done|cbn; lia]|]. cbn. rewrite digit_printed; lia.
  - rewrite dec_digits_app, numeral_value_snoc, digit_printed by lia.
    assert (0 <= z / 10 < 10 ^ Z.of_nat fuel) as Hq.
    { split; [apply Z.div_pos; lia|]. apply Z.div_lt_upper_bound; [lia|].
      rewrite Nat2Z.inj_succ, Z.pow_succ_r in Hz by lia. lia. }
    assert (0 < fuel)%nat as Hf' by (destruct fuel; [cbn in Hq; assert (1 <= z / 10) by (apply Z.div_le_lower_bound; lia); lia|lia]).
    destruct (IH (z / 10) Hf' Hq) as [[Hds [Hne Hl]] Hv]. rewrite Hv. split; [|rewrite (Z.div_mod z 10) at 3 by lia; lia].
    split_and!; [apply Forall_app; split; [done|by repeat constructor]|by destruct (dec_digits fuel (z / 10) [])|].
    intros _. rewrite head_snoc_long by done. intros Hh.
    destruct (dec_digits fuel (z / 10) []) as [|a [|a' s]] eqn:E; [done| |].
    + cbn in Hh. injection Hh as ->. assert (1 <= z / 10) by (apply Z.div_le_lower_bound; lia).
      change (0 = z / 10) in Hv. lia.
    + apply Hl; [cbn; lia|done].
Qed.

Lemma numeral_u32_iff s v :
  digits s /\ s <> [] /\ (1 <? len s) && starts_with (str "0") s = false /\ parse_digits 32 0 s = Some v
  <-> in_u 32 v /\ s = display_u32 v.
Proof.
  assert (forall s, (1 <? len s) && starts_with (str "0") s = false <-> ((1 < length s)%nat -> head s <> Some (chr "0"))) as Hz.
  { intros u. rewrite andb_false_iff, Z.ltb_ge, <-not_true_iff_false, starts_with_true. unfold len.
    destruct u as [|a u]; [cbn; split; [lia|left; lia]|]. split.
    - intros [?|Hn] Hl; [cbn in *; lia|]. intros E. injection E as ->. apply Hn. by exists u.
    - intros Hh. destruct (decide (1 < length (a :: u))%nat) as [Hl|]; [right|left; lia].
      intros [t E]. injection E as -> ->. by apply Hh. }
  assert (in_u 32 0) as H0 by (unfold in_u; lia).
  split.
  - intros (Hd & Hne & Hl & Hp). rewrite parse_digits_exact in Hp by done. apply try_from_u_inv in Hp as [-> Hv].
    split; [done|]. unfold in_u in Hv. destruct (dec_digits_numeral 10 (numeral_value 0 s)) as [Hn E]; [lia|lia|].
    apply numeral_inj; [|done|done]. split_and!; [done|done|by apply Hz].
  - intros [Hv ->]. unfold in_u in Hv. destruct (dec_digits_numeral 10 v) as [(Hd & Hne & Hl) E]; [lia|lia|].
    fold (display_u32 v) in *. split_and!; [done|done|by apply Hz|]. rewrite parse_digits_exact, E by done.
    by rewrite try_from_u_ok.
Qed.

(** ** Versions *)

Definition pad_version (cs : list Z) : list Z := cs ++ replicate (4 - length cs) 0.

Lemma version_component_iff cs seg st :
  version_component (pad_version cs, len cs) seg = Ok st
  <-> (length cs < 4)%nat
      /\ exists v, in_u 32 v /\ seg = display_u32 v /\ st = (pad_version (cs ++ [v]), len (cs ++ [v])).
Proof.
  assert (forall v, (length cs < 4)%nat ->
    (<[Z.to_nat (len cs):=v]> (pad_version cs), len cs + 1) = (pad_version (cs ++ [v]), len (cs ++ [v]))) as Hst.
  { intros v Hl. rewrite len_app. f_equal. unfold pad_version, len. rewrite Nat2Z.id, length_app.
    rewrite insert_app_r_alt by lia. rewrite Nat.sub_diag, <-app_assoc. f_equal. cbn.
    destruct (4 - length cs)%nat eqn:E; [lia|]. cbn. f_equal. f_equal. lia. }
  unfold version_component. rewrite !guard_ok_iff, bind_ok_iff, is_empty_false, negb_false_iff, Z.leb_gt.
  rewrite forallb_forall. split.
  - intros (Hne & Hl & Hd & Hz & v & Hv%ok_or_ok & [= <-]).
    assert (length cs < 4)%nat as Hl' by (unfold len in Hl; lia). split; [done|]. exists v.
    apply and_assoc. split; [|by apply Hst]. apply numeral_u32_iff. split_and!; try done.
    apply List.Forall_forall, Hd.
  - intros (Hl & v & Hu & -> & ->). destruct (proj2 (numeral_u32_iff (display_u32 v) v) (conj Hu eq_refl)) as (Hd & Hne & Hz & Hp).
    split_and!; try done; [unfold len; lia|by apply List.Forall_forall|]. exists v. rewrite Hp. split; [done|]. f_equal. by apply Hst.
Qed.

Lemma version_loop segs cs st :
  (length cs <= 4)%nat ->
  for_each version_component segs (pad_version cs, len cs) = Ok st
  <-> exists ds, segs = map display_u32 ds /\ Forall (in_u 32) ds /\ (length (cs ++ ds) <= 4)%nat
                 /\ st = (pad_version (cs ++ ds), len (cs ++ ds)).
Proof.
  revert cs. induction segs as [|seg segs IH]; intros cs Hl; cbn [for_each].
  - split.
    + intros [= <-]. exists []. by rewrite app_nil_r.
    + intros ([|? ?] & E & _ & _ & ->); [|done]. by rewrite app_nil_r.
  - rewrite bind_ok_iff. split.
    + intros (s & (Hl' & v & Hv & -> & ->)%version_component_iff & (ds & -> & Hds & Hl2 & ->)%IH); [|rewrite length_app; cbn; lia].
      exists (v :: ds). rewrite <-app_assoc in *. by repeat (split; [first [done|by constructor]|]).
    + intros ([|v ds] & E & Hds & Hl2 & ->); [done|]. injection E as -> ->. apply Forall_cons in Hds as [Hv Hds].
      rewrite length_app in Hl2. cbn in Hl2. eexists. split; [apply version_component_iff; split; [lia|by exists v]|].
      apply IH; [rewrite length_app; cbn; lia|]. exists ds. rewrite <-app_assoc, length_app. cbn. split_and!; try done; lia.
Qed.

Lemma display_u32_free v : in_u 32 v -> free_of period (display_u32 v) /\ display_u32 v <> [].
Proof.
  intros Hv. destruct (proj2 (numeral_u32_iff _ v) (conj Hv eq_refl)) as (Hd & Hne & _). split; [|done].
  intros Hin. unfold digits in Hd. rewrite Forall_forall in Hd. by specialize (Hd _ Hin).
Qed.

(** The periods that the early checks reject would give an empty component. *)
Lemma starts_ends_period value :
  Forall (fun s => s <> []) (split_on period value) ->
  starts_with (str ".") value || ends_with (str ".") value = false.
Proof.
  intros H. apply orb_false_iff. split; apply not_true_iff_false.
  - intros [t ->]%starts_with_true. change (str "." ++ t) with (period :: t) in H. rewrite split_on_cons_sep in H.
    by apply Forall_cons in H as [? _].
  - unfold ends_with, strip_suffix. destruct (strip_prefix _ (reverse value)) as [t|] eqn:E; [|done]. intros _.
    apply strip_prefix_Some in E. apply (f_equal reverse) in E. rewrite reverse_involutive, reverse_app in E.
    change (reverse (reverse (str "."))) with [period] in E. rewrite E in H. clear E value.
    rewrite split_on_app_sep, Forall_app in H. destruct H as [_ H]. by apply Forall_cons in H as [? _].
Qed.

(** A kernel version is accepted exactly when it is the canonical text of
    two to four [u32] components, the first of them not zero: no suffix, sign,
    leading zero, stray period or mutable word is accepted, the stored text is
    the input itself and the parsed array is its components padded with zeros. *)
Theorem kernel_version_exact value v :
  KernelVersion_parse value = Ok v
  <-> exists cs, 2 <= len cs <= 4 /\ Forall (in_u 32) cs /\ head cs <> Some 0
                 /\ value = join_with (str ".") (map display_u32 cs)
                 /\ v = {| kv_canonical := value; kv_components := pad_version cs; kv_len := len cs |}.
Proof.
  unfold KernelVersion_parse. rewrite !guard_ok_iff, bind_ok_iff.
  assert (forall cs, Forall (in_u 32) cs -> Forall (free_of period) (map display_u32 cs)) as Hfree.
  { intros cs Hcs. apply Forall_map. eapply Forall_impl; [exact Hcs|]. intros z Hz. by apply display_u32_free. }
  assert (forall cs, (2 <= length cs)%nat -> pad_version cs !! 0%nat = head cs) as Hhead.
  { intros [|c cs] ?; [cbn in *; lia|done]. }
  split.
  - intros (_ & _ & _ & [comps n] & Hloop & Hrest). change (replicate 4 0, 0) with (pad_version [], len (A:=Z) []) in Hloop.
    apply version_loop in Hloop as (cs & Hs & Hcs & Hl & [= -> ->]); [|cbn; lia]. cbn [app] in *.
    rewrite !guard_ok_iff, Z.ltb_ge, bool_decide_eq_false in Hrest. destruct Hrest as (Hn & Hz & [= <-]).
    exists cs. unfold len in *. rewrite Hhead in Hz by lia.
    assert (value = join_with (str ".") (map display_u32 cs)) as Hval by (rewrite <-Hs; symmetry; apply (join_split period)).
    split_and!; try done; try lia. f_equal; try done. unfold pad_version. rewrite Nat2Z.id, take_app_length. done.
  - intros (cs & Hl & Hcs & Hh & Hval & ->). unfold len in Hl.
    assert (split_on period value = map display_u32 cs) as Hs.
    { rewrite Hval. apply (split_join period); [|by apply Hfree]. by destruct cs; [cbn in Hl; lia|]. }
    assert (Forall (fun s => s <> []) (split_on period value)) as Hne.
    { rewrite Hs. apply Forall_map. eapply Forall_impl; [exact Hcs|]. intros z Hz. by apply display_u32_free. }
    split_and!.
    + apply is_empty_false. intros ->. by apply Forall_cons in Hne as [? _].
    + apply bool_decide_eq_false. intros ->. change (split_on period (str "latest")) with [str "latest"] in Hs.
      destruct cs as [|? [|? ?]]; cbn in *; try lia; done.
    + by apply starts_ends_period.
    + exists (pad_version cs, len cs). split.
      { change (replicate 4 0, 0) with (pad_version [], len (A:=Z) []). apply version_loop; [cbn; lia|].
        exists cs. split_and!; try done. cbn. lia. }
      rewrite !guard_ok_iff, Z.ltb_ge, bool_decide_eq_false, Hhead by lia. split_and!; [unfold len; lia|done|].
      unfold len. rewrite Nat2Z.id. unfold pad_version at 1. rewrite take_app_length. by rewrite <-Hval.
Qed.

Lemma cmp_from_spec a b s n :
  match cmp_from a b (seq s n) with
  | Eq => forall i, (s <= i < s + n)%nat -> component_at a i = component_at b i
  | Lt => exists i, (s <= i < s + n)%nat /\ (forall j, (s <= j < i)%nat -> component_at a j = component_at b j)
                    /\ component_at a i < component_at b i
  | Gt => exists i, (s <= i < s + n)%nat /\ (forall j, (s <= j < i)%nat -> component_at a j = component_at b j)
                    /\ component_at b i < component_at a i
  end.
Proof.
  revert s. induction n as [|n IH]; intros s; cbn [seq cmp_from]; [lia|].
  destruct (Z.compare_spec (component_at a s) (component_at b s)) as [E|?|?].
  - specialize (IH (S s)). destruct (cmp_from a b (seq (S s) n)).
    + intros i Hi. destruct (decide (i = s)) as [->|]; [done|]. apply IH. lia.
    + destruct IH as (i & Hi & Hj & Hlt). exists i. split_and!; [lia|lia| |done].
      intros j Hjs. destruct (decide (j = s)) as [->|]; [done|]. apply Hj. lia.
    + destruct IH as (i & Hi & Hj & Hlt). exists i. split_and!; [lia|lia| |done].
      intros j Hjs. destruct (decide (j = s)) as [->|]; [done|]. apply Hj. lia.
  - exists s. split_and!; [lia|lia| |done]. lia.
  - exists s. split_and!; [lia|lia| |done]. lia.
Qed.

(** [a] precedes [b] at the first component in which they differ. *)
Definition version_lt (a b : KernelVersion) : Prop :=
  exists i, (forall j, (j < i)%nat -> component_at a j = component_at b j) /\ component_at a i < component_at b i.

Lemma component_beyond v i : kv_len v <= Z.of_nat i -> component_at v i = 0.
Proof. intros H. unfold component_at. by rewrite (proj2 (Z.ltb_ge _ _)). Qed.

Lemma KernelVersion_cmp_spec a b :
  match KernelVersion_cmp a b with
  | Eq => forall i, component_at a i = component_at b i
  | Lt => version_lt a b
  | Gt => version_lt b a
  end.
Proof.
  unfold KernelVersion_cmp. set (n := Z.to_nat _). pose proof (cmp_from_spec a b 0 n) as H.
  destruct (cmp_from a b (seq 0 n)).
  - intros i. destruct (decide (i < n)%nat) as [Hi|Hi]; [apply H; lia|].
    rewrite !component_beyond; [done|subst n; lia..].
  - destruct H as (i & _ & Hj & Hlt). exists i. split; [|done]. intros j ?. apply Hj. lia.
  - destruct H as (i & _ & Hj & Hlt). exists i. split; [|done]. intros j ?. symmetry. apply Hj. lia.
Qed.

Lemma version_lt_irrefl a b : (forall i, component_at a i = component_at b i) -> ~ version_lt a b.
Proof. intros H (i & _ & Hlt). rewrite H in Hlt. lia. Qed.

Lemma version_lt_trans a b c : version_lt a b -> version_lt b c -> version_lt a c.
Proof.
  intros (i & Hi & Hab) (k & Hk & Hbc). exists (min i k). split.
  - intros j Hj. rewrite Hi, Hk by lia. done.
  - destruct (lt_eq_lt_dec i k) as [[Hl| ->]|Hl].
    + rewrite Nat.min_l by lia. by rewrite <-(Hk i Hl).
    + rewrite Nat.min_id. lia.
    + rewrite Nat.min_r by lia. by rewrite (Hi k Hl).
Qed.

Lemma version_lt_proper a a' b b' :
  (forall i, component_at a i = component_at a' i) -> (forall i, component_at b i = component_at b' i) ->
  version_lt a b -> version_lt a' b'.
Proof. intros Ha Hb (i & Hi & Hlt). exists i. rewrite <-Ha, <-Hb. split; [|done]. intros j ?. rewrite <-Ha, <-Hb. by apply Hi. Qed.

(** Not above: the order [max_by_key] uses. *)
Definition version_le (a b : KernelVersion) : Prop := KernelVersion_cmp a b <> Gt.

Lemma version_le_iff a b : version_le a b <-> ~ version_lt b a.
Proof.
  unfold version_le. pose proof (KernelVersion_cmp_spec a b) as H. destruct (KernelVersion_cmp a b).
  - split; [|done]. intros _. apply version_lt_irrefl. intros i. by rewrite H.
  - split; [|done]. intros _ Hba. eapply version_lt_irrefl; [|eapply version_lt_trans; [exact H|exact Hba]]. done.
  - split; [done|]. intros Hn. by destruct Hn.
Qed.

#[global] Instance version_le_preorder : PreOrder version_le.
Proof.
  split.
  - intros a. apply version_le_iff, version_lt_irrefl. done.
  - intros a b c Hab Hbc. apply version_le_iff. intros Hca. apply version_le_iff in Hab, Hbc.
    pose proof (KernelVersion_cmp_spec b c) as H. destruct (KernelVersion_cmp b c).
    + apply Hab. eapply version_lt_proper; [|done|exact Hca]. intros i. by rewrite H.
    + apply Hab. by eapply version_lt_trans.
    + by apply Hbc.
Qed.

Lemma version_le_total a b : version_le a b \/ version_le b a.
Proof.
  rewrite !version_le_iff. pose proof (KernelVersion_cmp_spec a b) as H. destruct (KernelVersion_cmp a b).
  - left. apply version_lt_irrefl. intros i. by rewrite H.
  - left. intros Hba. eapply version_lt_irrefl; [|eapply version_lt_trans; [exact H|exact Hba]]. done.
  - right. intros Hab. eapply version_lt_irrefl; [|eapply version_lt_trans; [exact H|exact Hab]]. done.
Qed.

(** [Ord] and [Eq] disagree: 6.6 and 6.6.0 compare equal and are different. *)
Example version_order_coarser :
  match KernelVersion_parse (str "6.6"), KernelVersion_parse (str "6.6.0"), KernelVersion_parse (str "6.10") with
  | Ok a, Ok b, Ok c => KernelVersion_cmp a b = Eq /\ a <> b /\ KernelVersion_cmp b c = Lt
  | _, _, _ => False
  end.
Proof. vm_compute. split_and!; [reflexivity|discriminate|reflexivity]. Qed.

(** ** Entry paths *)

Definition kept_components (segs : list bytes) : list bytes := filter (fun s => s <> str ".") segs.

Lemma path_component_iff acc seg out :
  path_component acc seg = Ok out <-> (seg <> [] /\ seg <> str "..") /\ out = acc ++ kept_components [seg].
Proof.
  unfold path_component, kept_components. rewrite filter_cons, filter_nil.
  destruct seg as [|b seg]; [split; [done|by intros [[? _] _]]|]. change (is_empty (b :: seg)) with false. cbv iota.
  destruct (decide (b :: seg = str ".")) as [E|Hd].
  - rewrite (bool_decide_eq_true_2 _ E), decide_False, app_nil_r by (intros Hn; by apply Hn).
    rewrite E. split; [intros [= <-]; by split|by intros [_ ->]].
  - rewrite (bool_decide_eq_false_2 _ Hd), decide_True by done. case_bool_decide as Hdd.
    + split; [done|]. by intros [[_ ?] _].
    + split; [intros [= <-]; by split|by intros [_ ->]].
Qed.

Lemma path_loop segs acc out :
  for_each path_component segs acc = Ok out
  <-> Forall (fun s => s <> [] /\ s <> str "..") segs /\ out = acc ++ kept_components segs.
Proof.
  revert acc. induction segs as [|seg segs IH]; intros acc; cbn [for_each].
  { unfold kept_components. rewrite filter_nil, app_nil_r. split; [intros [= <-]; by split|by intros [_ ->]]. }
  assert (kept_components (seg :: segs) = kept_components [seg] ++ kept_components segs) as ->
    by (unfold kept_components; by rewrite <-filter_app).
  rewrite bind_ok_iff, Forall_cons, app_assoc. split.
  - intros (s & [Hs ->]%path_component_iff & [Hr ->]%IH). done.
  - intros [[Hs Hr] ->]. eexists. split; [by apply path_component_iff|]. by apply IH.
Qed.

Lemma not_separator b : is_separator b = false <-> b <> p_slash /\ b <> p_backslash.
Proof. unfold is_separator. rewrite orb_false_iff, <-!not_true_iff_false, !is_byte_true. done. Qed.

Lemma kept_normal value :
  Forall (fun s => s <> [] /\ s <> str "..") (split_by is_separator value) ->
  Forall normal_segment (kept_components (split_by is_separator value)).
Proof.
  intros H. pose proof (split_by_segments is_separator value) as Hs.
  apply Forall_forall. intros seg [Hd Hin]%list_elem_of_filter. rewrite Forall_forall in H, Hs.
  destruct (H _ Hin) as [? ?]. specialize (Hs _ Hin). cbn in Hs. rewrite Forall_forall in Hs.
  split_and!; try done; intros Hb; by apply Hs, not_separator in Hb as [? ?].
Qed.

Lemma split_sep_slash s : p_backslash ∉ s -> split_by is_separator s = split_on p_slash s.
Proof.
  unfold split_on. induction s as [|b s IH]; intros Hb; [done|]. rewrite not_elem_of_cons in Hb. destruct Hb as [Hb Hs].
  cbn. rewrite IH by done. assert (is_separator b = is_byte p_slash b) as ->; [|done].
  unfold is_separator. replace (is_byte p_backslash b) with false; [by rewrite orb_false_r|].
  symmetry. apply not_true_iff_false. rewrite is_byte_true. done.
Qed.

Lemma leading_separator value :
  Forall (fun s => s <> [] /\ s <> str "..") (split_by is_separator value) ->
  starts_with [p_backslash] value = false /\ starts_with [p_slash] value = false.
Proof.
  intros H. split; apply not_true_iff_false; intros [t ->]%starts_with_true; cbn in H;
    apply Forall_cons in H as [[? _] _]; done.
Qed.

Definition path_text (value : bytes) : Prop :=
  value <> [] /\ (Byte.x00 ∉ value) /\ has_drive_prefix value = false
  /\ Forall (fun s => s <> [] /\ s <> str "..") (split_by is_separator value)
  /\ kept_components (split_by is_separator value) <> [].

Lemma KernelPath_parse_iff value p :
  KernelPath_parse value = Ok p
  <-> path_text value /\ kp_canonical p = join_with [p_slash] (kept_components (split_by is_separator value)).
Proof.
  unfold KernelPath_parse, path_text. rewrite !guard_ok_iff, bind_ok_iff, is_empty_false, contains_byte_false. split.
  - intros (Hne & Hn & Hd & _ & _ & cs & [Hf ->]%path_loop & [Hk%is_empty_false [= <-]]%guard_ok_iff). done.
  - intros [(Hne & Hn & Hd & Hf & Hk) Hp]. destruct (leading_separator value Hf) as [H1 H2]. split_and!; try done.
    eexists. split; [by apply path_loop|]. cbn [app]. rewrite guard_ok_iff, is_empty_false. split; [done|].
    destruct p. cbn in *. by rewrite Hp.
Qed.

Lemma join_bytes (P : byte -> Prop) sep segs : P sep -> Forall (Forall P) segs -> Forall P (join_with [sep] segs).
Proof.
  intros Hs. induction 1 as [|s segs H Hr IH]; [done|]. destruct segs as [|s' segs]; [done|].
  change (Forall P (s ++ [sep] ++ join_with [sep] (s' :: segs))). rewrite !Forall_app. by repeat constructor.
Qed.

Lemma split_by_bytes (P : byte -> Prop) p s : Forall P s -> Forall (Forall P) (split_by p s).
Proof.
  induction 1 as [|b s Hb Hs IH]; cbn; [by repeat constructor|]. destruct (p b); [by constructor|].
  destruct (split_by p s); [by repeat constructor|]. inversion IH; subst. by repeat constructor.
Qed.

(** A kernel entry path is accepted exactly when, split at separators of
    either kind, it has no empty and no [..] component, something besides [.]
    remains, and it has neither NUL nor a drive prefix; the canonical path is
    what remains, joined with slashes.  That path is confined to the archive and,
    unless it begins with a drive prefix itself, is its own canonical form and
    the name the archive reader looks up. *)
Theorem kernel_path_exact value p :
  (KernelPath_parse value = Ok p
   <-> path_text value /\ kp_canonical p = join_with [p_slash] (kept_components (split_by is_separator value)))
  /\ (KernelPath_parse value = Ok p ->
      normal_path (kp_canonical p) /\ (Byte.x00 ∉ kp_canonical p)
      /\ (has_drive_prefix (kp_canonical p) = false ->
          KernelPath_parse (kp_canonical p) = Ok p /\ normalize_path (kp_canonical p) = Ok (kp_canonical p))).
Proof.
  split; [apply KernelPath_parse_iff|]. intros [(Hne & Hn & Hd & Hf & Hk) Hp]%KernelPath_parse_iff.
  pose proof (kept_normal value Hf) as Hnorm.
  assert (normal_path (kp_canonical p)) as Hnp by (by exists (kept_components (split_by is_separator value))).
  assert (Byte.x00 ∉ kp_canonical p) as Hnul.
  { assert (Forall (fun b => b <> Byte.x00) (kp_canonical p)) as Hall; [|intros Hin; rewrite Forall_forall in Hall; by apply (Hall _ Hin)].
    rewrite Hp. apply join_bytes; [done|]. apply Forall_forall. intros seg [_ Hin]%list_elem_of_filter.
    assert (Forall (Forall (fun b => b <> Byte.x00)) (split_by is_separator value)) as Hall
      by (apply split_by_bytes, Forall_forall; by intros b Hb ->).
    rewrite Forall_forall in Hall. by apply Hall. }
  split_and!; [done|done|]. intros Hdp. split; [|by apply normalize_path_normal].
  apply KernelPath_parse_iff. destruct (normal_path_facts _ Hnp) as (Hcne & _ & Hbs & _).
  assert (split_by is_separator (kp_canonical p) = kept_components (split_by is_separator value)) as Hs.
  { rewrite split_sep_slash, Hp by done. apply split_join; [done|]. eapply Forall_impl; [exact Hnorm|].
    by intros ? (_ & _ & _ & ? & _). }
  assert (kept_components (kept_components (split_by is_separator value)) = kept_components (split_by is_separator value)) as Hkk.
  { unfold kept_components. rewrite list_filter_filter. apply list_filter_iff. tauto. }
  split; [|by rewrite Hs, Hkk]. split_and!; try done; [|by rewrite Hs, Hkk].
  rewrite Hs. eapply Forall_impl; [exact Hnorm|]. by intros ? (? & _ & ? & _).
Qed.

(** The drive prefix check runs before [.] components are dropped. *)
Example drive_prefix_behind_dot :
  KernelPath_parse (str "./C:/boot/vmlinuz") = Ok {| kp_canonical := str "C:/boot/vmlinuz" |}
  /\ KernelPath_parse (str "C:/boot/vmlinuz") = Err KP_WindowsDrivePrefix.
Proof. split; vm_compute; reflexivity. Qed.

(** ** Configurations *)

Definition strip_cr (line : bytes) : bytes :=
  match last line with Some b => if is_byte CR b then removelast line else line | None => line end.
(** Every line but the last is ended by a newline. *)
Fixpoint strip_ended (lines : list bytes) : list bytes :=
  match lines with
  | [] => []
  | [line] => [line]
  | line :: lines => strip_cr line :: strip_ended lines
  end.

Lemma strip_cr_cons a x : x <> [] \/ a <> CR -> strip_cr (a :: x) = a :: strip_cr x.
Proof.
  intros H. unfold strip_cr. destruct x as [|b x].
  - destruct H as [H|H]; [done|]. cbn. destruct (is_byte CR a) eqn:E; [|done]. apply is_byte_true in E. done.
  - rewrite last_cons_cons. destruct (last (b :: x)) as [c|] eqn:E; [|by apply last_None in E]. by destruct (is_byte CR c).
Qed.

Lemma strip_ended_nonempty lines : lines <> [] -> strip_ended lines <> [].
Proof. by destruct lines as [|? [|? ?]]. Qed.

Lemma join_cons_ne sep x xs : xs <> [] -> join_with sep (x :: xs) = x ++ sep ++ join_with sep xs.
Proof. by destruct xs. Qed.

Lemma strip_ended_cons x xs : xs <> [] -> strip_ended (x :: xs) = strip_cr x :: strip_ended xs.
Proof. by destruct xs. Qed.

Lemma split_on_cons_other c b s : b <> c ->
  exists x xs, split_on c s = x :: xs /\ split_on c (b :: s) = (b :: x) :: xs /\ (s = [] \/ head s = Some c -> x = []).
Proof.
  intros Hb. unfold split_on. cbn. assert (is_byte c b = false) as -> by (apply not_true_iff_false; rewrite is_byte_true; done).
  pose proof (split_by_nonempty (is_byte c) s). destruct (split_by (is_byte c) s) as [|x xs] eqn:E; [done|].
  exists x, xs. split_and!; [done..|]. intros [->|Hh]; [by injection E|]. destruct s as [|a s]; [done|]. injection Hh as ->.
  cbn in E. rewrite is_byte_refl in E. by injection E.
Qed.

Lemma replace_crlf_step a b rest :
  replace_crlf (a :: b :: rest)
  = if is_byte CR a && is_byte LF b then LF :: replace_crlf rest else a :: replace_crlf (b :: rest).
Proof. reflexivity. Qed.

(** Replacing CRLF by LF removes one CR from the end of every ended line. *)
Lemma replace_crlf_lines s : replace_crlf s = join_with [LF] (strip_ended (split_on LF s)).
Proof.
  induction s as [[|a [|b rest]] IH] using (induction_ltof1 _ length); unfold ltof in IH.
  - done.
  - change (replace_crlf [a]) with [a]. destruct (decide (a = LF)) as [->|Ha]; [done|]. by destruct (split_on_cons_other LF a [] Ha) as (x & xs & [= <- <-] & -> & _).
  - rewrite replace_crlf_step. destruct (is_byte CR a && is_byte LF b) eqn:E.
    + apply andb_true_iff in E as [->%is_byte_true ->%is_byte_true].
      change (split_on LF (CR :: LF :: rest)) with ([CR] :: split_on LF rest).
      rewrite strip_ended_cons, join_cons_ne by (try apply strip_ended_nonempty; apply split_by_nonempty).
      rewrite <-IH by (cbn; lia). done.
    + rewrite IH by (cbn; lia). destruct (decide (a = LF)) as [->|Ha].
      { rewrite (split_on_cons_sep LF (b :: rest)).
        rewrite (strip_ended_cons []), join_cons_ne by (try apply strip_ended_nonempty; apply split_by_nonempty). done. }
      destruct (split_on_cons_other LF a (b :: rest) Ha) as (x & xs & Hs & -> & _). rewrite Hs.
      destruct xs as [|y ys]; [done|]. rewrite (strip_ended_cons x), (strip_ended_cons (a :: x)), !join_cons_ne by (try apply strip_ended_nonempty; done).
      rewrite strip_cr_cons; [done|]. destruct (decide (x = [])) as [->|]; [right|by left]. intros ->.
      destruct (decide (b = LF)) as [->|Hb]; [done|].
      destruct (split_on_cons_other LF b rest Hb) as (x' & xs' & _ & E' & _). congruence.
Qed.

Lemma trim_end_lf_spec s :
  exists n, s = trim_end_lf s ++ replicate n LF /\ last (trim_end_lf s) <> Some LF.
Proof.
  induction s as [|a s (n & Hs & Hl)]; [by exists 0%nat|]. cbn [trim_end_lf].
  destruct (trim_end_lf s) as [|b t] eqn:E.
  - destruct (is_byte LF a) eqn:Ea.
    + apply is_byte_true in Ea as ->. exists (S n). split; [|done]. cbn. by rewrite Hs at 1.
    + exists n. split; [by rewrite Hs at 1|]. cbn. intros [= ->]. by rewrite is_byte_refl in Ea.
  - exists n. split; [by rewrite Hs at 1|]. by rewrite last_cons_cons.
Qed.

(** Every accepted configuration is its lines without the carriage returns
    that ended them and without trailing empty lines, ended by one newline. *)
Lemma KernelConfig_normalize_lines b c :
  KernelConfig_normalize b = Ok c ->
  exists text n, c = text ++ [LF] /\ last text <> Some LF
                 /\ text ++ replicate n LF = join_with [LF] (strip_ended (split_on LF b)) /\ len c <= len b + 1.
Proof.
  unfold KernelConfig_normalize. intros [_ [_ [_ (text & Ht%ok_or_ok & [= <-])%bind_ok_iff]%guard_ok_iff]%guard_ok_iff]%guard_ok_iff.
  unfold from_utf8 in Ht. destruct (utf8_valid b); [|done]. injection Ht as <-.
  destruct (trim_end_lf_spec (replace_crlf b)) as (n & Hs & Hl). eexists _, n. split_and!; [done|done| |].
  - by rewrite <-Hs, replace_crlf_lines.
  - assert (len (replace_crlf b) <= len b) as Hle.
    { clear. induction b as [[|a [|b rest]] IH] using (induction_ltof1 _ length); unfold ltof in IH; [done|done|].
      rewrite replace_crlf_step. destruct (is_byte CR a && is_byte LF b); rewrite !len_cons.
      - specialize (IH rest ltac:(cbn; lia)). lia.
      - specialize (IH (b :: rest) ltac:(cbn; lia)). rewrite len_cons in IH. lia. }
    rewrite Hs in Hle. rewrite !len_app in *. pose proof (len_nonneg (replicate n LF)). change (len [LF]) with 1. lia.
Qed.

(** One pass is not always enough: a carriage return before the pair joins the
    newline that is left. *)
Example normalize_not_idempotent :
  KernelConfig_normalize (str "CONFIG_A=y" ++ [CR; CR; LF] ++ str "CONFIG_B=y") = Ok (str "CONFIG_A=y" ++ [CR; LF] ++ str "CONFIG_B=y" ++ [LF])
  /\ KernelConfig_normalize (str "CONFIG_A=y" ++ [CR; LF] ++ str "CONFIG_B=y" ++ [LF]) = Ok (str "CONFIG_A=y" ++ [LF] ++ str "CONFIG_B=y" ++ [LF]).
Proof. split; vm_compute; reflexivity. Qed.

(** ** The catalog *)

Lemma sha256_digest_iff hex d :
  ExpectedDigest_parse (str "sha256:" ++ hex) = Ok d <-> exists b, decode_hex hex 32 = Ok b /\ d = ED_Sha256 b.
Proof.
  unfold ExpectedDigest_parse.
  assert (split_once (chr ":") (str "sha256:" ++ hex) = Some (str "sha256", hex)) as ->.
  { apply split_once_Some. split; [done|]. apply contains_byte_false. reflexivity. }
  cbn [ok_or mbind res_bind].
  rewrite bool_decide_eq_false_2, bool_decide_eq_true_2 by done.
  destruct (decode_hex hex 32) as [b|e|]; cbn; split; try done; [intros [= <-]; by exists b|by intros (? & [= <-] & ->)|..];
    by intros (? & ? & _).
Qed.

Section Catalog.
Context `{U : UrlCrate}.

(** A pin is exactly its reviewed release. *)
Record pins_release (release : Release) (pin : KernelSourcePin) : Prop := {
  pr_version : KernelVersion_parse (rel_version release) = Ok (pin_version pin);
  pr_url : HttpUrl_parse (rel_url release) = Ok (pin_url pin);
  pr_https : HttpUrl_scheme (pin_url pin) = str "https";
  pr_file : url_file_name (HttpUrl_as_str (pin_url pin)) = expected_file (pin_version pin);
  pr_digest : exists b, decode_hex (rel_sha256 release) 32 = Ok b /\ pin_digest pin = ED_Sha256 b;
}.

Lemma catalog_release_iff seen pins release st :
  catalog_release (seen, pins) release = Ok st
  <-> exists pin, pins_release release pin /\ (pin_version pin ∉ seen) /\ st = (pin_version pin :: seen, pins ++ [pin]).
Proof.
  unfold catalog_release. rewrite bind_ok_iff. split.
  - intros (v & Hv%map_err_ok & H). rewrite guard_ok_iff, bool_decide_eq_false, bind_ok_iff in H.
    destruct H as (Hin & u & Hu%map_err_ok & H). rewrite !guard_ok_iff, !negb_false_iff, !bool_decide_eq_true, bind_ok_iff in H.
    destruct H as (Hs & Hf & d & Hd%map_err_ok & H). apply sha256_digest_iff in Hd as (b & Hb & ->).
    cbn in H. injection H as <-. exists {| pin_version := v; pin_url := u; pin_digest := ED_Sha256 b |}. split; [|by split]. by split; [..|exists b].
  - intros ([v u d] & [Hv Hu Hs Hf (b & Hb & Hd)] & Hin & ->). cbn in *. subst d. exists v. rewrite Hv. split; [done|].
    rewrite guard_ok_iff, bool_decide_eq_false, bind_ok_iff. split; [done|]. exists u. rewrite Hu. split; [done|].
    rewrite !guard_ok_iff, !negb_false_iff, !bool_decide_eq_true, bind_ok_iff. split_and!; [done|done|].
    exists (ED_Sha256 b). split; [|done]. apply map_err_ok, sha256_digest_iff. by exists b.
Qed.

Lemma catalog_loop rs seen pins st :
  for_each catalog_release rs (seen, pins) = Ok st
  <-> exists new, Forall2 pins_release rs new /\ NoDup (map pin_version new)
                  /\ (forall v, v ∈ map pin_version new -> v ∉ seen)
                  /\ st = (rev (map pin_version new) ++ seen, pins ++ new).
Proof.
  revert seen pins. induction rs as [|r rs IH]; intros seen pins; cbn [for_each].
  { split.
    - intros [= <-]. exists []. rewrite app_nil_r. split_and!; [done|constructor|by intros ? ?%elem_of_nil|done].
    - intros (new & H & _ & _ & ->). inversion H; subst. by rewrite app_nil_r. }
  rewrite bind_ok_iff. split.
  - intros (s & (pin & Hp & Hin & ->)%catalog_release_iff & (new & Hn & Hnd & Hseen & ->)%IH).
    exists (pin :: new). cbn. split_and!; [by constructor| | |by rewrite <-!app_assoc].
    + constructor; [|done]. intros Hv. apply (Hseen _ Hv). by left.
    + intros v [->|Hv]%elem_of_cons; [done|]. intros Hs. apply (Hseen _ Hv). by right.
  - intros (new & Hn & Hnd & Hseen & ->). inversion Hn as [|? pin ? new' Hp Hn']; subst. cbn in Hnd. apply NoDup_cons in Hnd as [Hni Hnd].
    eexists. split; [apply catalog_release_iff; exists pin; split; [done|]; split; [apply Hseen; by left|done]|].
    apply IH. exists new'. cbn. rewrite <-!app_assoc. split_and!; [done|done| |done].
    intros v Hv [->|Hs]%elem_of_cons; [done|]. apply (Hseen v); [by right|done].
Qed.

Lemma parse_catalog_iff file pins :
  parse_catalog (Some file) = Ok pins
  <-> schema_version file = 1 /\ Forall2 pins_release (releases file) pins /\ NoDup (map pin_version pins).
Proof.
  unfold parse_catalog. cbn [ok_or mbind res_bind]. rewrite guard_ok_iff, bind_ok_iff, negb_false_iff, Z.eqb_eq. split.
  - intros (Hs & [seen out] & (new & Hn & Hnd & _ & [= -> ->])%catalog_loop & [= <-]). done.
  - intros (Hs & Hf & Hnd). split; [done|]. eexists (_, pins). split; [|done]. apply catalog_loop.
    exists pins. split_and!; [done|done|by intros ? _ ?%elem_of_nil|done].
Qed.

Lemma catalog_get_iff pins v pin :
  NoDup (map pin_version pins) -> catalog_get pins v = Some pin <-> pin ∈ pins /\ pin_version pin = v.
Proof.
  unfold catalog_get. induction pins as [|p pins IH]; cbn; intros Hnd.
  { split; [done|]. by intros [?%elem_of_nil _]. }
  apply NoDup_cons in Hnd as [Hni Hnd]. rewrite elem_of_cons. case_bool_decide as E.
  - split; [intros [= <-]; by split; [left|]|]. intros [[->|Hin] Hv]; [done|]. destruct Hni. rewrite E, <-Hv. by apply list_elem_of_fmap_2.
  - rewrite IH by done. naive_solver.
Qed.

Lemma later_max_fold pins best :
  exists r, foldl later_max (Some best) pins = Some r /\ (r = best \/ r ∈ pins)
            /\ version_le (pin_version best) (pin_version r)
            /\ Forall (fun p => version_le (pin_version p) (pin_version r)) pins.
Proof.
  revert best. induction pins as [|p pins IH]; intros best; cbn [foldl].
  { exists best. split_and!; [done|by left|reflexivity|done]. }
  cbn [later_max]. pose proof (KernelVersion_cmp_spec (pin_version best) (pin_version p)) as Hc.
  assert (exists b', (match KernelVersion_cmp (pin_version best) (pin_version p) with Gt => Some best | _ => Some p end) = Some b'
            /\ (b' = best \/ b' = p) /\ version_le (pin_version best) (pin_version b') /\ version_le (pin_version p) (pin_version b')) as (b' & -> & Hb & H1 & H2).
  { destruct (KernelVersion_cmp (pin_version best) (pin_version p)) eqn:E.
    - exists p. split_and!; [done|by right|unfold version_le; by rewrite E|reflexivity].
    - exists p. split_and!; [done|by right|unfold version_le; by rewrite E|reflexivity].
    - exists best. split_and!; [done|by left|reflexivity|]. apply version_le_iff. intros Hn.
      eapply version_lt_irrefl; [|eapply version_lt_trans; [exact Hc|exact Hn]]. done. }
  destruct (IH b') as (r & -> & Hr & Hle & Hall). exists r. split_and!; [done| |by etrans|].
  - rewrite elem_of_cons. naive_solver.
  - constructor; [by etrans|done].
Qed.

(** The embedded catalog is exactly its reviewed releases.  It is accepted
    iff its schema is 1, no version occurs twice, and every release has a
    canonical version, an https URL whose file name is that version's archive
    and 64 hexadecimal digits; a lookup then finds a pin iff it is in the
    catalog under that version, and the latest version is one of the catalog
    that no other exceeds. *)
Theorem catalog_exact (file : CatalogFile) (pins : list KernelSourcePin) :
  (parse_catalog (Some file) = Ok pins
   <-> schema_version file = 1 /\ Forall2 pins_release (releases file) pins /\ NoDup (map pin_version pins))
  /\ (parse_catalog (Some file) = Ok pins ->
      (forall v pin, catalog_get pins v = Some pin <-> pin ∈ pins /\ pin_version pin = v)
      /\ (catalog_latest pins = None <-> pins = [])
      /\ (forall latest, catalog_latest pins = Some latest ->
            latest ∈ pins /\ Forall (fun pin => version_le (pin_version pin) (pin_version latest)) pins)).
Proof.
  split; [apply parse_catalog_iff|]. intros (_ & _ & Hnd)%parse_catalog_iff.
  split; [intros v pin; by apply catalog_get_iff|]. unfold catalog_latest. destruct pins as [|p pins]; [done|].
  cbn [foldl later_max]. destruct (later_max_fold pins p) as (r & -> & Hr & Hle & Hall). split; [done|].
  intros latest [= <-]. rewrite elem_of_cons. split; [naive_solver|]. by constructor.
Qed.
End Catalog.

(** ** Lowering *)

Section Lower.
Context `{U : UrlCrate} {Path : Type}.

(** The compiled-in reference and entry path are accepted. *)
Lemma default_kernel_lowers :
  lower (Path:=Path) Kernel_Default
  = Ok {| plan_link := Link_image DEFAULT_KERNEL_OCI_REFERENCE;
          plan_kernel_path := Some {| kp_canonical := DEFAULT_KERNEL_ENTRY_PATH |} |}.
Proof. vm_compute. reflexivity. Qed.

(** Only a custom kernel needs a compiler. *)
Lemma lower_exact (kind : Kernel (Path:=Path)) :
  match kind with
  | Kernel_Custom _ => lower kind = Err KE_CompilerUnavailable
  | _ => exists plan, lower kind = Ok plan
  end.
Proof. destruct kind as [|spec|[source|source path]]; [by rewrite default_kernel_lowers; eexists|done|by eexists..]. Qed.

(** Archive constructors accept exactly the paths that parse. *)
Lemma archive_iff source kernel_path (k : Kernel (Path:=Path)) :
  archive source kernel_path = Ok k
  <-> exists p, KernelPath_parse kernel_path = Ok p /\ k = Kernel_External (Archive source p).
Proof.
  unfold archive. rewrite bind_ok_iff. split.
  - intros (p & Hp%map_err_ok & [= <-]). by exists p.
  - intros (p & Hp & ->). exists p. by rewrite Hp.
Qed.
End Lower.

(** ** A concrete catalog *)

Module KernelExample.
(** Enough of a URL parser for the examples. *)
Definition toy_parse (s : bytes) : option (bytes * bytes) :=
  '(scheme, rest) ← split_once_str (str "://") s; Some (scheme, rest).
#[local] Instance toy_url : UrlCrate := {|
  ParsedUrl := bytes * bytes; url_parse := toy_parse; scheme_of := fst; host_of := fun _ => Some (str "cdn.kernel.org");
  fragment_of := fun _ => None; username_of := fun _ => []; password_of := fun _ => None;
  as_str_of := fun u => fst u ++ str "://" ++ snd u |}.

Definition release (version : bytes) : Release := {|
  rel_version := version; rel_url := str "https://cdn.kernel.org/linux-" ++ version ++ str ".tar.xz";
  rel_sha256 := str "ca8f2a6884a4d62043e9ab93ac1ab15efc2b6630fe8f768b2ef2ffdf4b5e26df" |}.
Definition shipped : CatalogFile := {| schema_version := 1; releases := map release [str "6.6.13"; str "7.1.7"; str "6.12"] |}.
Definition shipped_pins : list KernelSourcePin := match parse_catalog (Some shipped) with Ok pins => pins | _ => [] end.

Example shipped_catalog_accepted :
  parse_catalog (Some shipped) = Ok shipped_pins
  /\ (kv_canonical ∘ pin_version) <$> catalog_latest shipped_pins = Some (str "7.1.7")
  /\ is_ok (Kernel_custom (Path:=unit) shipped_pins {| kc_mode := Fragment; kc_bytes := [LF] |} (str "6.6.13")) = true
  /\ Kernel_custom (Path:=unit) shipped_pins {| kc_mode := Fragment; kc_bytes := [LF] |} (str "6.6.14")
     = Err (KS_UnpinnedVersion (str "6.6.14")).
Proof. vm_compute. split_and!; reflexivity. Qed.

(** A slash in the query hides the file name from the check. *)
Example file_name_in_query :
  url_file_name (str "https://example.org/other.tar.xz?x=/linux-6.6.tar.xz") = str "linux-6.6.tar.xz".
Proof. vm_compute. reflexivity. Qed.
End KernelExample.
