(* ===== verification/KernelRequest.v ===== *)
(** * Request identities

    [libs/image-core/src/digest.rs]: the domain-separated digest builder;
    [libs/kernel/src/compiler.rs]: the compiler identity and its encoding;
    [libs/kernel/src/service.rs], [libs/image-core/src/resolver.rs] and
    [libs/rootfs/src/service.rs]: the identities under which kernels, images and
    merged root file systems are cached.

    BLAKE3 is a parameter: a hasher is the bytes it was fed.  Two requests with
    one identity are the same request or exhibit a collision. *)

From Stdlib Require Import ZArith Lia Ascii.
From stdpp Require Import base tactics option list numbers strings.
From S2P Require Import Prelude Bytes Text Oci IndexCodec KernelSpec.

(** ** The builder *)

(** [(value.len() as u64).to_be_bytes()], then the bytes. *)
Definition prefixed (value : bytes) : bytes := be_bytes 8 (len value) ++ value.

Definition LinkDigestBuilder_new (domain : bytes) : bytes := prefixed domain.
Definition builder_bytes (tag value hasher : bytes) : bytes := hasher ++ prefixed tag ++ prefixed value.
Definition builder_str (tag value hasher : bytes) : bytes := builder_bytes tag value hasher.
Definition builder_u128 (tag : bytes) (value : Z) (hasher : bytes) : bytes := hasher ++ prefixed tag ++ be_bytes 16 value.
Definition builder_u64 (tag : bytes) (value : Z) (hasher : bytes) : bytes := hasher ++ prefixed tag ++ be_bytes 8 value.

(** ** Compiler identities *)

Inductive KernelCompilerError : Type :=
  | KCE_InvalidIdentity | KCE_Planning | KCE_BootstrapLaunch | KCE_GuestBuild (exit_status : Z) (stderr : bytes)
  | KCE_ArtifactTransfer | KCE_Validation | KCE_BuildDisk | KCE_Cleanup | KCE_CachePublication.

Record KernelCompilerIdentity : Type := {
  ki_recipe_version : Z;
  ki_script_digest : bytes;
  ki_bootstrap_kernel_digest : bytes;
  ki_toolchain_rootfs_digest : bytes;
  ki_target_arch : bytes;
  ki_kbuild_metadata : bytes;
}.

Definition IDENTITY_FORMAT_VERSION : Z := 2.
Definition put_u32 (out : bytes) (value : Z) : bytes := out ++ be_bytes 4 value.
Definition put_str (out value : bytes) : bytes := out ++ be_bytes 8 (len value) ++ value.

Definition KernelCompilerIdentity_encode (i : KernelCompilerIdentity) : bytes :=
  let out := [z2b IDENTITY_FORMAT_VERSION] in
  let out := put_u32 out (ki_recipe_version i) in
  let out := put_str out (ki_script_digest i) in
  let out := put_str out (ki_bootstrap_kernel_digest i) in
  let out := put_str out (ki_toolchain_rootfs_digest i) in
  let out := put_str out (ki_target_arch i) in
  put_str out (ki_kbuild_metadata i).

(** One round of the loop of [validate]. *)
Definition validate_digest_field (_ : unit) (digest : bytes) : res KernelCompilerError unit :=
  '(algorithm, hex) ← ok_or (split_once (chr ":") digest) KCE_InvalidIdentity;
  expected_len ← (if bool_decide (algorithm = str "sha256") then Ok 64
                  else if bool_decide (algorithm = str "sha512") then Ok 128
                  else Err KCE_InvalidIdentity);
  fail_if (negb (len hex =? expected_len) || negb (forallb is_ascii_hexdigit hex)) KCE_InvalidIdentity.
Definition KernelCompilerIdentity_validate (i : KernelCompilerIdentity) : res KernelCompilerError unit :=
  _ ← for_each validate_digest_field
        [ki_script_digest i; ki_bootstrap_kernel_digest i; ki_toolchain_rootfs_digest i] tt;
  fail_if (is_empty (ki_target_arch i)) KCE_InvalidIdentity.
Definition KernelCompilerIdentity_new (recipe_version : Z)
    (script_digest bootstrap_kernel_digest toolchain_rootfs_digest target_arch kbuild_metadata : bytes)
    : res KernelCompilerError KernelCompilerIdentity :=
  let identity := {|
    ki_recipe_version := recipe_version; ki_script_digest := script_digest;
    ki_bootstrap_kernel_digest := bootstrap_kernel_digest; ki_toolchain_rootfs_digest := toolchain_rootfs_digest;
    ki_target_arch := target_arch; ki_kbuild_metadata := kbuild_metadata |} in
  _ ← KernelCompilerIdentity_validate identity;
  Ok identity.

(** ** Identities *)

Section Identity.
Context `{U : UrlCrate} (blake3 : bytes -> bytes).

Definition finish (file_size : Z) (hasher : bytes) : LinkDigest :=
  {| link_hash := blake3 hasher; ld_file_size := file_size |}.

Definition mode_text (m : KernelConfigMode) : bytes :=
  match m with Fragment => str "fragment" | Complete => str "complete" end.
Definition digest_parts (d : ExpectedDigest) : bytes * bytes :=
  match d with
  | ED_Sha256 b => (str "sha256", b)
  | ED_Sha512 b => (str "sha512", b)
  | ED_Blake3 b => (str "blake3", b)
  end.

Definition custom_request (spec : CustomKernelSpec) (identity : KernelCompilerIdentity) : bytes :=
  let source := cs_source spec in
  let '(algorithm, digest_bytes) := digest_parts (pin_digest source) in
  builder_bytes (str "identity") (KernelCompilerIdentity_encode identity)
    (builder_bytes (str "config") (kc_bytes (cs_config spec))
    (builder_bytes (str "config-mode") (mode_text (kc_mode (cs_config spec)))
    (builder_bytes (str "source-digest") digest_bytes
    (builder_bytes (str "source-algorithm") algorithm
    (builder_str (str "source-url") (HttpUrl_as_str (pin_url source))
    (builder_str (str "version") (kv_canonical (pin_version source))
    (LinkDigestBuilder_new (str "jyth.kernel.custom.v2")))))))).
Definition custom_request_digest (spec : CustomKernelSpec) (identity : KernelCompilerIdentity) : LinkDigest :=
  finish 0 (custom_request spec identity).

Definition kernel_request (source : LinkDigest) (kernel_path : option KernelPath) : bytes :=
  let builder := builder_u128 (str "source-size") (ld_file_size source)
    (builder_bytes (str "source-hash") (link_hash source) (LinkDigestBuilder_new (str "jyth.kernel.external.v1"))) in
  match kernel_path with
  | None => builder_str (str "shape") (str "raw") builder
  | Some path => builder_str (str "path") (kp_canonical path) (builder_str (str "shape") (str "archive") builder)
  end.
Definition kernel_request_digest (source : LinkDigest) (kernel_path : option KernelPath) : LinkDigest :=
  finish (ld_file_size source) (kernel_request source kernel_path).

Definition oci_source (reference : OciReference) (manifest_digest : bytes) : bytes :=
  builder_str (str "manifest") manifest_digest
    (builder_str (str "repository") (oci_repository reference)
    (builder_str (str "registry") (oci_host reference) (LinkDigestBuilder_new (str "jyth.source.oci.v1")))).
Definition oci_source_digest (reference : OciReference) (manifest_digest : bytes) : LinkDigest :=
  finish 0 (oci_source reference manifest_digest).

(** [merge_modules] feeds its hasher by hand. *)
Definition merge_request (base modules : FileDigest) : bytes :=
  str "image:rootfs-with-modules:v2" ++ file_hash base ++ be_bytes 16 (fd_file_size base)
  ++ file_hash modules ++ be_bytes 16 (fd_file_size modules).
Definition merge_digest (base modules : FileDigest) : LinkDigest :=
  {| link_hash := blake3 (merge_request base modules);
     ld_file_size := saturating_add 128 (fd_file_size base) (fd_file_size modules) |}.
End Identity.

(** ** Unambiguous encodings *)

(** Every length the code can hold. *)
Definition fits64 (b : bytes) : Prop := in_u 64 (len b).

Lemma prefixed_inj v w r s :
  fits64 v -> fits64 w -> prefixed v ++ r = prefixed w ++ s -> v = w /\ r = s.
Proof.
  unfold prefixed. intros Hv Hw H. rewrite <-!app_assoc in H.
  apply app_inj_1 in H as [Hl H]; [|by rewrite !length_be_bytes].
  apply be_bytes_inj in Hl; [|done..]. apply app_inj_1 in H; [done|]. unfold len in Hl. lia.
Qed.

Lemma be_inj n x y r s :
  in_u (8 * Z.of_nat n) x -> in_u (8 * Z.of_nat n) y -> be_bytes n x ++ r = be_bytes n y ++ s -> x = y /\ r = s.
Proof.
  intros Hx Hy H. apply app_inj_1 in H as [Hl H]; [|by rewrite !length_be_bytes]. split; [|done].
  by apply be_bytes_inj in Hl.
Qed.

(** Tagged fields of one schema, read back from the front. *)
Inductive field : Type := Field_bytes (tag value : bytes) | Field_u128 (tag : bytes) (value : Z).
Definition field_wire (f : field) : bytes :=
  match f with
  | Field_bytes tag value => prefixed tag ++ prefixed value
  | Field_u128 tag value => prefixed tag ++ be_bytes 16 value
  end.
Definition field_fits (f : field) : Prop :=
  match f with
  | Field_bytes tag value => fits64 tag /\ fits64 value
  | Field_u128 tag value => fits64 tag /\ in_u 128 value
  end.
Definition field_tag (f : field) : bytes * bool :=
  match f with Field_bytes tag _ => (tag, false) | Field_u128 tag _ => (tag, true) end.
(** A tag has one kind throughout the schemas. *)
Definition message_wire (domain : bytes) (fs : list field) : bytes := prefixed domain ++ concat (map field_wire fs).

Lemma field_wire_inj f g r s :
  field_fits f -> field_fits g -> (fst (field_tag f) = fst (field_tag g) -> field_tag f = field_tag g) ->
  field_wire f ++ r = field_wire g ++ s -> f = g /\ r = s.
Proof.
  assert (forall f, field_fits f -> fits64 (fst (field_tag f))) as Hft by (by intros [? ?|? ?] [? ?]).
  assert (forall f r, exists v, field_wire f ++ r = prefixed (fst (field_tag f)) ++ v) as Hw
    by (intros [? ?|? ?] ?; cbn [field_wire field_tag fst]; rewrite <-app_assoc; by eexists).
  intros Hf Hg Hk H. assert (fst (field_tag f) = fst (field_tag g)) as Ht.
  { destruct (Hw f r) as [v Ev], (Hw g s) as [v' Ev']. rewrite Ev, Ev' in H. apply prefixed_inj in H as [? _]; auto. }
  specialize (Hk Ht). clear Ht Hw Hft. destruct f as [t v|t v], g as [t' v'|t' v']; try discriminate Hk; injection Hk as <-;
    destruct Hf as [? Hv], Hg as [? Hv']; cbn [field_wire] in H; rewrite <-!app_assoc in H; apply prefixed_inj in H as [_ H]; try done.
  - by apply prefixed_inj in H as [-> ->].
  - by apply be_inj in H as [-> ->].
Qed.

(** The kinds of the tags the code uses. *)
Definition tag_kind (t : bytes) : bool := bool_decide (t = str "source-size").
Definition schema_field (f : field) : Prop := field_fits f /\ snd (field_tag f) = tag_kind (fst (field_tag f)).

Lemma field_nonempty f : field_wire f <> [].
Proof.
  assert (forall b, be_bytes 8 b <> []) as Hb by (intros b E; by apply (f_equal length) in E; rewrite length_be_bytes in E).
  destruct f as [t v|t v]; cbn [field_wire]; unfold prefixed; rewrite <-app_assoc; intros [E _]%app_nil; by apply Hb in E.
Qed.

(** A message determines its domain and its fields. *)
Lemma message_wire_inj d e fs gs :
  fits64 d -> fits64 e -> Forall schema_field fs -> Forall schema_field gs ->
  message_wire d fs = message_wire e gs -> d = e /\ fs = gs.
Proof.
  intros Hd He Hf Hg H. apply prefixed_inj in H as [-> H]; [|done..]. split; [done|].
  revert gs Hg H. induction Hf as [|f fs [Hff Hfk] Hf IH]; intros [|g gs] Hg H; [done|..].
  - cbn [map concat] in H. symmetry in H. by apply app_nil in H as [?%field_nonempty _].
  - cbn [map concat] in H. by apply app_nil in H as [?%field_nonempty _].
  - apply Forall_cons in Hg as [[Hgf Hgk] Hg]. cbn [map concat] in H. apply field_wire_inj in H as [-> H]; [|done..|].
    + f_equal. by apply IH.
    + intros E. destruct (field_tag f), (field_tag g). cbn in *. congruence.
Qed.

(** Closed texts fit. *)
Lemma fits64_closed b : (len b <? 2 ^ 64) = true -> fits64 b.
Proof. unfold fits64, in_u. rewrite Z.ltb_lt. pose proof (len_nonneg b). lia. Qed.

Lemma schema_bytes t v : (len t <? 2 ^ 64) = true -> tag_kind t = false -> fits64 v -> schema_field (Field_bytes t v).
Proof. intros Ht Hk Hv. split; [split; [by apply fits64_closed|done]|done]. Qed.

(** *** The compiler identity *)

Definition typed_identity (i : KernelCompilerIdentity) : Prop :=
  in_u 32 (ki_recipe_version i) /\ fits64 (ki_script_digest i) /\ fits64 (ki_bootstrap_kernel_digest i)
  /\ fits64 (ki_toolchain_rootfs_digest i) /\ fits64 (ki_target_arch i) /\ fits64 (ki_kbuild_metadata i)
  /\ fits64 (KernelCompilerIdentity_encode i).

Lemma identity_encode_inj i j :
  typed_identity i -> typed_identity j -> KernelCompilerIdentity_encode i = KernelCompilerIdentity_encode j -> i = j.
Proof.
  intros (Hr & H1 & H2 & H3 & H4 & H5 & _) (Hr' & H1' & H2' & H3' & H4' & H5' & _) H.
  assert (forall k, KernelCompilerIdentity_encode k
    = [z2b IDENTITY_FORMAT_VERSION] ++ be_bytes 4 (ki_recipe_version k) ++ prefixed (ki_script_digest k)
      ++ prefixed (ki_bootstrap_kernel_digest k) ++ prefixed (ki_toolchain_rootfs_digest k)
      ++ prefixed (ki_target_arch k) ++ prefixed (ki_kbuild_metadata k) ++ []) as Hw.
  { intros k. unfold KernelCompilerIdentity_encode, put_str, put_u32, prefixed. by rewrite app_nil_r, <-!app_assoc. }
  rewrite !Hw in H. apply app_inv_head in H. apply be_inj in H as [E0 H]; [|done..].
  do 5 (apply prefixed_inj in H as [? H]; [|done..]). destruct i, j; cbn in *. congruence.
Qed.

(** *** The requests as messages *)

Section Requests.
Context `{U : UrlCrate} (blake3 : bytes -> bytes).

Definition custom_fields (spec : CustomKernelSpec) (identity : KernelCompilerIdentity) : list field :=
  let source := cs_source spec in
  [Field_bytes (str "version") (kv_canonical (pin_version source));
   Field_bytes (str "source-url") (HttpUrl_as_str (pin_url source));
   Field_bytes (str "source-algorithm") (fst (digest_parts (pin_digest source)));
   Field_bytes (str "source-digest") (snd (digest_parts (pin_digest source)));
   Field_bytes (str "config-mode") (mode_text (kc_mode (cs_config spec)));
   Field_bytes (str "config") (kc_bytes (cs_config spec));
   Field_bytes (str "identity") (KernelCompilerIdentity_encode identity)].
Definition kernel_fields (source : LinkDigest) (kernel_path : option KernelPath) : list field :=
  [Field_bytes (str "source-hash") (link_hash source); Field_u128 (str "source-size") (ld_file_size source)]
  ++ match kernel_path with
     | None => [Field_bytes (str "shape") (str "raw")]
     | Some path => [Field_bytes (str "shape") (str "archive"); Field_bytes (str "path") (kp_canonical path)]
     end.
Definition oci_fields (reference : OciReference) (manifest_digest : bytes) : list field :=
  [Field_bytes (str "registry") (oci_host reference); Field_bytes (str "repository") (oci_repository reference);
   Field_bytes (str "manifest") manifest_digest].

Ltac as_message := unfold message_wire, builder_str, builder_bytes, builder_u128, LinkDigestBuilder_new; cbn [concat map app field_wire];
  rewrite ?app_nil_r, <-?app_assoc; reflexivity.

Lemma custom_request_message spec identity :
  custom_request spec identity = message_wire (str "jyth.kernel.custom.v2") (custom_fields spec identity).
Proof. unfold custom_request, custom_fields. destruct (digest_parts _) as [a d]. cbn [fst snd]. as_message. Qed.
Lemma kernel_request_message source path :
  kernel_request source path = message_wire (str "jyth.kernel.external.v1") (kernel_fields source path).
Proof. unfold kernel_request, kernel_fields. destruct path; as_message. Qed.
Lemma oci_source_message reference manifest :
  oci_source reference manifest = message_wire (str "jyth.source.oci.v1") (oci_fields reference manifest).
Proof. unfold oci_source, oci_fields. as_message. Qed.
End Requests.

(** ** Requests are identified *)

Section Identified.
Context `{U : UrlCrate} (blake3 : bytes -> bytes).

Definition blake3_collision : Prop := exists x y, x <> y /\ blake3 x = blake3 y.

(** What is cached under a derived identity. *)
Inductive request : Type :=
  | Request_custom (spec : CustomKernelSpec) (identity : KernelCompilerIdentity)
  | Request_external (source : LinkDigest) (kernel_path : option KernelPath)
  | Request_oci (reference : OciReference) (manifest_digest : bytes).

Definition request_digest (r : request) : LinkDigest :=
  match r with
  | Request_custom spec identity => custom_request_digest blake3 spec identity
  | Request_external source path => kernel_request_digest blake3 source path
  | Request_oci reference manifest => oci_source_digest blake3 reference manifest
  end.

(** The ranges of the Rust types, and a version that was parsed. *)
Definition typed_spec (spec : CustomKernelSpec) : Prop :=
  let source := cs_source spec in
  KernelVersion_parse (kv_canonical (pin_version source)) = Ok (pin_version source)
  /\ fits64 (kv_canonical (pin_version source)) /\ fits64 (HttpUrl_as_str (pin_url source))
  /\ typed_expected (pin_digest source) /\ fits64 (kc_bytes (cs_config spec)).
Definition typed_request (r : request) : Prop :=
  match r with
  | Request_custom spec identity => typed_spec spec /\ typed_identity identity
  | Request_external source path =>
      typed_link_digest source /\ match path with Some p => fits64 (kp_canonical p) | None => True end
  | Request_oci reference manifest =>
      fits64 (oci_host reference) /\ fits64 (oci_repository reference) /\ fits64 manifest
  end.

(** Everything that can affect the result. *)
Definition same_request (r s : request) : Prop :=
  match r, s with
  | Request_custom spec identity, Request_custom spec' identity' =>
      pin_version (cs_source spec) = pin_version (cs_source spec')
      /\ HttpUrl_as_str (pin_url (cs_source spec)) = HttpUrl_as_str (pin_url (cs_source spec'))
      /\ pin_digest (cs_source spec) = pin_digest (cs_source spec')
      /\ cs_config spec = cs_config spec' /\ identity = identity'
  | Request_external source path, Request_external source' path' => source = source' /\ path = path'
  | Request_oci reference manifest, Request_oci reference' manifest' =>
      oci_host reference = oci_host reference' /\ oci_repository reference = oci_repository reference'
      /\ manifest = manifest'
  | _, _ => False
  end.

Definition request_domain (r : request) : bytes :=
  match r with
  | Request_custom _ _ => str "jyth.kernel.custom.v2"
  | Request_external _ _ => str "jyth.kernel.external.v1"
  | Request_oci _ _ => str "jyth.source.oci.v1"
  end.
Definition request_fields (r : request) : list field :=
  match r with
  | Request_custom spec identity => custom_fields spec identity
  | Request_external source path => kernel_fields source path
  | Request_oci reference manifest => oci_fields reference manifest
  end.

Lemma request_digest_message r : link_hash (request_digest r) = blake3 (message_wire (request_domain r) (request_fields r)).
Proof.
  destruct r as [spec identity|source path|reference manifest]; cbn [request_digest];
    [unfold custom_request_digest|unfold kernel_request_digest|unfold oci_source_digest]; unfold finish; cbn [link_hash];
    f_equal; [apply custom_request_message|apply kernel_request_message|apply oci_source_message].
Qed.

Lemma digest_parts_fit d : typed_expected d -> fits64 (fst (digest_parts d)) /\ fits64 (snd (digest_parts d)).
Proof.
  destruct d as [b|b|b]; cbn [digest_parts fst snd typed_expected]; intros H;
    (split; [by apply fits64_closed|apply fits64_closed; apply Z.ltb_lt; unfold typed_hash in *; lia]).
Qed.

Lemma request_fields_schema r : typed_request r -> Forall schema_field (request_fields r).
Proof.
  destruct r as [spec identity|source path|reference manifest]; cbn [typed_request request_fields].
  - intros [(_ & Hv & Hu & Hd & Hc) (_ & _ & _ & _ & _ & _ & Hi)]. destruct (digest_parts_fit _ Hd) as [Ha Hb].
    repeat (apply Forall_cons; split; [apply schema_bytes; [done|done|]|]); try done.
    by destruct (kc_mode (cs_config spec)); apply fits64_closed.
  - intros [[Hh Hs] Hp]. assert (fits64 (link_hash source)) as Hf.
    { apply fits64_closed, Z.ltb_lt. unfold typed_hash in Hh. lia. }
    apply Forall_app. split.
    + apply Forall_cons. split; [by apply schema_bytes|]. apply Forall_singleton.
      split; [split; [by apply fits64_closed|done]|done].
    + destruct path; repeat (apply Forall_cons; split; [apply schema_bytes; [done|done|first [assumption|by apply fits64_closed]]|]); done.
  - intros (H1 & H2 & H3). repeat (apply Forall_cons; split; [by apply schema_bytes|]). done.
Qed.

Lemma digest_parts_inj d e : digest_parts d = digest_parts e -> d = e.
Proof. destruct d, e; cbn; congruence. Qed.

Lemma request_fields_inj r s :
  typed_request r -> typed_request s -> request_domain r = request_domain s -> request_fields r = request_fields s ->
  same_request r s.
Proof.
  destruct r as [[[v u d] [m c]] identity|source path|reference manifest],
           s as [[[v' u' d'] [m' c']] identity'|source' path'|reference' manifest']; try discriminate; intros Hr Hs _ H.
  - destruct Hr as [(Hv & _) Hi], Hs as [(Hv' & _) Hi']. cbn in Hv, Hv'. cbn [request_fields custom_fields cs_source cs_config pin_version pin_url pin_digest kc_mode kc_bytes] in H.
    assert (KernelCompilerIdentity_encode identity = KernelCompilerIdentity_encode identity') as E7.
    { apply (f_equal (fun l => match last l with Some (Field_bytes _ v) => v | _ => [] end)) in H. exact H. }
    injection H as E1 E2 E3 E4 E5 E6 _. split_and!; cbn.
    + congruence.
    + done.
    + apply digest_parts_inj. by destruct (digest_parts d), (digest_parts d'); cbn in *; subst.
    + f_equal; [|done]. destruct m, m'; [done|discriminate E5..|done].
    + by apply identity_encode_inj.
  - destruct source as [h n], source' as [h' n'], path as [[p]|], path' as [[p']|]; cbn in H |- *; try discriminate; injection H; intros; subst; by split.
  - cbn in H. injection H as E1 E2 E3. done.
Qed.


(** The identity of a merged root file system is in no other domain. *)
Lemma merge_identified base modules base' modules' :
  typed_file_digest base -> typed_file_digest modules -> typed_file_digest base' -> typed_file_digest modules' ->
  merge_digest blake3 base modules = merge_digest blake3 base' modules' ->
  (base = base' /\ modules = modules') \/ blake3_collision.
Proof.
  intros [H1 S1] [H2 S2] [H3 S3] [H4 S4] H. apply (f_equal link_hash) in H. unfold merge_digest in H. cbn [link_hash] in H.
  destruct (decide (merge_request base modules = merge_request base' modules')) as [E|E]; [left|right; by eexists _, _].
  unfold merge_request in E. apply app_inv_head in E. unfold typed_hash, len in *.
  apply app_inj_1 in E as [E1 E]; [|lia]. apply be_inj in E as [E2 E]; [|done..].
  apply app_inj_1 in E as [E3 E]; [|lia]. rewrite <-(app_nil_r (be_bytes 16 (fd_file_size modules))), <-(app_nil_r (be_bytes 16 (fd_file_size modules'))) in E.
  apply be_inj in E as [E4 _]; [|done..]. destruct base, modules, base', modules'; cbn in *; subst; done.
Qed.
End Identified.

(** ** Concrete requests *)

Module RequestExample.
#[local] Existing Instance KernelExample.toy_url.

Definition sha_text (c : Ascii.ascii) : bytes := str "sha256:" ++ replicate 64 (chr c).
Definition recipe : res KernelCompilerError KernelCompilerIdentity :=
  KernelCompilerIdentity_new 3 (sha_text "a") (sha_text "b") (sha_text "c") (str "x86_64") (str "KBUILD_BUILD_USER=jyth").
Definition recipe_identity : KernelCompilerIdentity :=
  match recipe with Ok i => i | _ => Build_KernelCompilerIdentity 0 [] [] [] [] [] end.
Example recipe_accepted : recipe = Ok recipe_identity /\ is_ok (KernelCompilerIdentity_new 3 (sha_text "g") (sha_text "b") (sha_text "c") (str "x") []) = false.
Proof. vm_compute. split; reflexivity. Qed.

Definition spec_of (config : bytes) : option CustomKernelSpec :=
  match catalog_get KernelExample.shipped_pins {| kv_canonical := str "6.12"; kv_components := [6; 12; 0; 0]; kv_len := 2 |} with
  | Some pin => Some {| cs_source := pin; cs_config := {| kc_mode := Fragment; kc_bytes := config |} |}
  | None => None
  end.
Definition plain_request : option request := (fun spec => Request_custom spec recipe_identity) <$> spec_of [LF].
Definition the_request : request := default (Request_oci (Build_OciReference [] [] None None [] []) []) plain_request.

End RequestExample.
