(* ===== verification/Materialize.v ===== *)
(** * Materialisation services

    [libs/image-core/src/materialize.rs], [libs/kernel/src/service.rs] and
    [libs/rootfs/src/service.rs]: the pipelines that turn a source into a cached
    kernel, module archive or root file system, as programs over the store port
    and the artifact operations.

    The store's operations are those of the storage index; the artifact
    operations (loading, decompression, conversion, flattening, extraction,
    validation, compilation) are calls with the results their signatures have.
    Timers and log lines are left out.  [FileRef::path] is a function of the
    identity, so a path is the [ArtifactId]. *)

From Stdlib Require Import ZArith Lia Ascii.
From stdpp Require Import base tactics option list numbers strings sets.
From S2P Require Import Prelude Bytes Text Cpio Oci IndexCodec IndexStore KernelSpec KernelRequest Net.

#[global] Instance ArtifactType_eq_dec : EqDecision ArtifactType.
Proof. solve_decision. Defined.
#[global] Instance ArtifactCompression_eq_dec : EqDecision ArtifactCompression.
Proof. solve_decision. Defined.

Section Service.
Context {P : Platform} `{U : UrlCrate} (blake3 : bytes -> bytes).

Record ResolvedSource : Type := { rs_link : ArtifactLink; rs_is_image : bool; rs_source_digest : LinkDigest }.

(** ** Calls *)

Inductive mat_call : Type :=
  | ResolveSource (source : Link (Path:=PathBuf))
  | ReserveLinkRef (link_digest : NamespacedLinkDigest)
  | ReadFileRef (link_ref : LinkRef)
  | PublishFileRef (link_ref : LinkRef) (file_ref : FileRef)
  | ReplaceFileRef (file_ref : FileRef)
  | ReadBlueprint (link_digest : NamespacedLinkDigest)
  | PublishBlueprint (value : Blueprint)
  | DigestLink (link : ArtifactLink)
  | BuildBlueprint (target : LinkRef) (link : ArtifactLink) (extract : option PathBuf) (expected : LinkDigest)
  | Load (link : ArtifactLink) (target : LinkRef) (digest : option ExpectedDigest) (expected : LinkDigest)
  | Decompress (artifact : FileRef)
  | PublishStaged (staged : FileRef)
  | IntoCpio (artifact : FileRef)
  | FlattenLayers (layers : list FileRef) (destination : LinkRef)
  | ExtractKernel (path : bytes) (source : FileRef) (destination : LinkRef)
  | ExtractModules (source : FileRef) (destination : LinkRef)
  | ValidateCpio (entry : FileRef)
  | AcquireBuildLock (digest : LinkDigest)
  | ReleaseBuildLock (digest : LinkDigest)
  | Compile (spec : CustomKernelSpec)
  | StagedSize (path : PathBuf)
  | RemoveStaged (path : PathBuf).

Definition mat_answer (c : mat_call) : Type :=
  match c with
  | ResolveSource _ => option ResolvedSource
  | ReserveLinkRef _ => res IndexError LinkRef
  | ReadFileRef _ => res IndexError (option FileRef)
  | PublishFileRef _ _ => res IndexError unit
  | ReplaceFileRef _ => res IndexError FileRef
  | ReadBlueprint _ => res IndexError (option Blueprint)
  | PublishBlueprint _ => res IndexError Blueprint
  | DigestLink _ => option LinkDigest
  | BuildBlueprint _ _ _ _ => res OperationError Blueprint
  | Load _ _ _ _ | Decompress _ | PublishStaged _ | IntoCpio _ | FlattenLayers _ _ | ExtractKernel _ _ _ =>
      res OperationError FileRef
  | ExtractModules _ _ => res OperationError (option FileRef)
  | ValidateCpio _ => res OperationError unit
  | AcquireBuildLock _ => bool
  | ReleaseBuildLock _ | RemoveStaged _ => unit
  | Compile _ => option PathBuf
  | StagedSize _ => option Z
  end.
Definition mat : effects := {| ext := mat_call; ext_ans := mat_answer |}.

(** A call that returns a result, under the category [e] of the caller. *)
Definition asked {E A X} (c : mat_call) (as_res : mat_answer c -> res X A) (e : E) : prog mat E A :=
  Ext (F:=mat) c (fun a => Done (map_err (fun _ => e) (as_res a))).
Definition optional {A} (a : option A) : res unit A := ok_or a tt.

Definition reserve {E} (k : NamespacedLinkDigest) (e : E) : prog mat E LinkRef := asked (ReserveLinkRef k) id e.
Definition read_file_ref {E} (r : LinkRef) (e : E) : prog mat E (option FileRef) := asked (ReadFileRef r) id e.
Definition publish_file_ref {E} (r : LinkRef) (f : FileRef) (e : E) : prog mat E unit := asked (PublishFileRef r f) id e.
Definition replace_file_ref {E} (f : FileRef) (e : E) : prog mat E FileRef := asked (ReplaceFileRef f) id e.
Definition link_digest_of {E} (l : ArtifactLink) (e : E) : prog mat E LinkDigest := asked (DigestLink l) optional e.
Definition load {E} (l : ArtifactLink) (r : LinkRef) (d : option ExpectedDigest) (expected : LinkDigest) (e : E)
    : prog mat E FileRef := asked (Load l r d expected) id e.

(** [Option::filter] on the artifact type. *)
Definition of_type (t : ArtifactType) (entry : option FileRef) : option FileRef :=
  match entry with Some f => if bool_decide (artifact_type f = t) then Some f else None | None => None end.

(** ** Shared pipeline steps *)

Inductive LayerError : Type := Layer_Materialization.

Definition get_or_build_blueprint (target : LinkRef) (link : ArtifactLink) (extract : option PathBuf)
    (expected : LinkDigest) : prog mat LayerError Blueprint :=
  cached ← asked (ReadBlueprint (key_of_link target)) id Layer_Materialization;
  match cached with
  | Some value => mret value
  | None =>
      built ← asked (BuildBlueprint target link extract expected) id Layer_Materialization;
      asked (PublishBlueprint built) id Layer_Materialization
  end.

(** The index commits before the staged bytes replace the compressed file. *)
Definition normalize_artifact (artifact : FileRef) : prog mat LayerError FileRef :=
  artifact ← (if bool_decide (artifact_compression artifact = AC_None) then mret artifact
              else
                staged ← asked (Decompress artifact) id Layer_Materialization;
                _ ← replace_file_ref staged Layer_Materialization;
                asked (PublishStaged staged) id Layer_Materialization);
  if bool_decide (artifact_type artifact = ContainerTar) then
    converted ← asked (IntoCpio artifact) id Layer_Materialization;
    replace_file_ref converted Layer_Materialization
  else mret artifact.

Definition materialize_layer (layer : Layer) : prog mat LayerError FileRef :=
  layer_ref ← reserve {| nl_namespace := NS_Layers; nl_link_digest := layer_link_digest layer |} Layer_Materialization;
  stored ← read_file_ref layer_ref Layer_Materialization;
  artifact ← match stored with
             | Some entry => mret entry
             | None =>
                 entry ← load (layer_link layer) layer_ref (Some (layer_expected_digest layer))
                           (layer_link_digest layer) Layer_Materialization;
                 _ ← publish_file_ref layer_ref entry Layer_Materialization;
                 mret entry
             end;
  artifact ← normalize_artifact artifact;
  if bool_decide (artifact_type artifact = ContainerCpio) then mret artifact
  else of_res (Err Layer_Materialization).

Fixpoint materialize_each (layers : list Layer) (materialized : list FileRef) : prog mat LayerError (list FileRef) :=
  match layers with
  | [] => mret materialized
  | layer :: layers =>
      artifact ← materialize_layer layer;
      materialize_each layers (materialized ++ [artifact])
  end.
Definition materialize_layers (layers : list Layer) (destination : LinkRef) : prog mat LayerError FileRef :=
  materialized ← materialize_each layers [];
  asked (FlattenLayers materialized destination) id Layer_Materialization.

(** ** The kernel service *)

Record MaterializedKernel : Type := { mk_kernel : ArtifactId; mk_modules : option FileRef }.
Definition change_kernel {E A} (p : prog mat E A) : prog mat KernelError A := pmap_err (fun _ => KE_Materialization) p.

Definition cached_modules (modules_ref : LinkRef) : prog mat KernelError (option FileRef) :=
  stored ← read_file_ref modules_ref KE_Materialization;
  mret (match of_type ContainerCpio stored with
        | Some entry => if bool_decide (artifact_compression entry = AC_None) then Some entry else None
        | None => None
        end).

Definition extract_modules_if_needed (source : FileRef) (modules_ref : LinkRef) : prog mat KernelError (option FileRef) :=
  extracted ← asked (ExtractModules source modules_ref) id KE_Materialization;
  match extracted with
  | None => mret None
  | Some modules => _ ← publish_file_ref modules_ref modules KE_Materialization; mret (Some modules)
  end.

Definition publish_transformed (target : LinkRef) (transformed : FileRef) : prog mat KernelError FileRef :=
  stored ← read_file_ref target KE_Materialization;
  match stored with
  | Some _ => replace_file_ref transformed KE_Materialization
  | None => _ ← publish_file_ref target transformed KE_Materialization; mret transformed
  end.

Definition extract_kernel_result (source : FileRef) (kernel_path : option KernelPath) (kernel_ref modules_ref : LinkRef)
    : prog mat KernelError MaterializedKernel :=
  _ ← of_res (fail_if (negb (bool_decide (artifact_type source = ContainerCpio))) KE_Materialization);
  cached ← cached_modules modules_ref;
  modules ← match cached with
            | Some value => mret (Some value)
            | None => extract_modules_if_needed source modules_ref
            end;
  stored ← read_file_ref kernel_ref KE_Materialization;
  kernel ← match of_type FileBzImage stored with
           | Some value => mret value
           | None =>
               requested ← of_res (ok_or kernel_path KE_Materialization);
               extracted ← asked (ExtractKernel (kp_canonical requested) source kernel_ref) id KE_Materialization;
               publish_transformed kernel_ref extracted
           end;
  mret {| mk_kernel := id_of_file kernel; mk_modules := modules |}.

Definition kernel_key (n : Namespace) (d : LinkDigest) : NamespacedLinkDigest :=
  {| nl_namespace := n; nl_link_digest := d |}.
Context (path_from : bytes -> PathBuf).

(** The root file system of an image, built from its layers. *)
Definition image_rootfs (link : ArtifactLink) (kernel_path : option KernelPath) (kernel_ref rootfs_ref : LinkRef)
    : prog mat KernelError FileRef :=
  expected ← link_digest_of link KE_Materialization;
  blueprint ← change_kernel (get_or_build_blueprint kernel_ref link ((path_from ∘ kp_canonical) <$> kernel_path) expected);
  rootfs ← change_kernel (materialize_layers (layers blueprint) rootfs_ref);
  _ ← publish_file_ref rootfs_ref rootfs KE_Materialization;
  mret rootfs.

(** The image branch of [build_external_inner]. *)
Definition build_image (link : ArtifactLink) (source_digest : LinkDigest) (kernel_path : option KernelPath)
    (kernel_ref modules_ref : LinkRef) : prog mat KernelError MaterializedKernel :=
  rootfs_ref ← reserve (kernel_key NS_Rootfs source_digest) KE_Materialization;
  stored_kernel ← read_file_ref kernel_ref KE_Materialization;
  stored_rootfs ← read_file_ref rootfs_ref KE_Materialization;
  let cached_rootfs := of_type ContainerCpio stored_rootfs in
  match of_type FileBzImage stored_kernel with
  | Some kernel =>
      modules ← cached_modules modules_ref;
      match modules, cached_rootfs with
      | None, Some rootfs =>
          modules ← extract_modules_if_needed rootfs modules_ref;
          mret {| mk_kernel := id_of_file kernel; mk_modules := modules |}
      | _, _ => mret {| mk_kernel := id_of_file kernel; mk_modules := modules |}
      end
  | None =>
      rootfs ← match cached_rootfs with
               | Some rootfs => mret rootfs
               | None => image_rootfs link kernel_path kernel_ref rootfs_ref
               end;
      extract_kernel_result rootfs kernel_path kernel_ref modules_ref
  end.

(** The branch of local files, bytes and HTTP. *)
Definition build_raw (link : ArtifactLink) (kernel_path : option KernelPath) (kernel_ref modules_ref : LinkRef)
    : prog mat KernelError MaterializedKernel :=
  stored ← read_file_ref kernel_ref KE_Materialization;
  artifact ← match stored with
             | Some entry => mret entry
             | None =>
                 expected ← link_digest_of link KE_Materialization;
                 entry ← load link kernel_ref None expected KE_Materialization;
                 _ ← publish_file_ref kernel_ref entry KE_Materialization;
                 mret entry
             end;
  artifact ← change_kernel (normalize_artifact artifact);
  if bool_decide (artifact_type artifact = FileBzImage) then
    modules ← cached_modules modules_ref;
    mret {| mk_kernel := id_of_file artifact; mk_modules := modules |}
  else
    _ ← of_res (fail_if (bool_decide (kernel_path = None)) KE_Materialization);
    extract_kernel_result artifact kernel_path kernel_ref modules_ref.

Definition build_external (plan : ExternalKernelPlan (Path:=PathBuf)) : prog mat KernelError MaterializedKernel :=
  resolved ← asked (ResolveSource (plan_link plan)) optional KE_Materialization;
  let request_digest := kernel_request_digest blake3 (rs_source_digest resolved) (plan_kernel_path plan) in
  kernel_ref ← reserve (kernel_key NS_Kernel request_digest) KE_Materialization;
  modules_ref ← reserve (kernel_key NS_Modules (rs_source_digest resolved)) KE_Materialization;
  if rs_is_image resolved
  then build_image (rs_link resolved) (rs_source_digest resolved) (plan_kernel_path plan) kernel_ref modules_ref
  else build_raw (rs_link resolved) (plan_kernel_path plan) kernel_ref modules_ref.

Definition materialize (kernel : Kernel (Path:=PathBuf)) : prog mat KernelError MaterializedKernel :=
  plan ← of_res (lower kernel);
  build_external plan.

(** ** Custom kernels *)

Definition from_cache (cached : FileRef) : MaterializedKernel * bool :=
  ({| mk_kernel := id_of_file cached; mk_modules := None |}, true).
(** Drop glue: [d] runs whatever the result. *)
Definition dropping {E A} (d : mat_call) (p : prog mat E A) : prog mat E A :=
  ptry (fun r => Ext (F:=mat) d (fun _ => Done r)) p.

Definition stage_and_publish (kernel_ref : LinkRef) (staged : PathBuf) : prog mat KernelError (MaterializedKernel * bool) :=
  size ← asked (StagedSize staged) optional KE_Compilation;
  let link := AL_Local staged size in
  expected ← link_digest_of link KE_Compilation;
  artifact ← load link kernel_ref None expected KE_Materialization;
  _ ← of_res (fail_if (negb (bool_decide (artifact_type artifact = FileBzImage))) KE_Compilation);
  _ ← publish_file_ref kernel_ref artifact KE_Materialization;
  mret ({| mk_kernel := id_of_file artifact; mk_modules := None |}, false).

Definition compile_and_stage (spec : CustomKernelSpec) (kernel_ref : LinkRef) : prog mat KernelError (MaterializedKernel * bool) :=
  staged ← asked (Compile spec) optional KE_Compilation;
  dropping (RemoveStaged staged) (stage_and_publish kernel_ref staged).

Definition locked_build (spec : CustomKernelSpec) (kernel_ref : LinkRef) : prog mat KernelError (MaterializedKernel * bool) :=
  stored ← read_file_ref kernel_ref KE_Materialization;
  match of_type FileBzImage stored with
  | Some cached => mret (from_cache cached)
  | None => compile_and_stage spec kernel_ref
  end.

Definition build_custom_with_outcome (spec : CustomKernelSpec) (identity : KernelCompilerIdentity)
    : prog mat KernelError (MaterializedKernel * bool) :=
  let request_digest := custom_request_digest blake3 spec identity in
  kernel_ref ← reserve (kernel_key NS_Kernel request_digest) KE_Materialization;
  stored ← read_file_ref kernel_ref KE_Materialization;
  match of_type FileBzImage stored with
  | Some cached => mret (from_cache cached)
  | None =>
      _ ← asked (AcquireBuildLock request_digest) (fun ok => if ok : bool then Ok tt else Err tt) KE_Materialization;
      dropping (ReleaseBuildLock request_digest) (locked_build spec kernel_ref)
  end.

Definition materialize_with_outcome (kernel : Kernel (Path:=PathBuf)) (identity : KernelCompilerIdentity)
    : prog mat KernelError (MaterializedKernel * bool) :=
  match kernel with
  | Kernel_Custom spec => build_custom_with_outcome spec identity
  | _ =>
      plan ← of_res (lower kernel);
      materialized ← build_external plan;
      mret (materialized, false)
  end.

(** ** The root file system service *)

Inductive RootfsError : Type := Rootfs_Materialization.
Definition change_rootfs {E A} (p : prog mat E A) : prog mat RootfsError A := pmap_err (fun _ => Rootfs_Materialization) p.
Definition validate_cpio (entry : FileRef) : prog mat RootfsError unit := asked (ValidateCpio entry) id Rootfs_Materialization.

Definition rootfs_from_image (link : ArtifactLink) (rootfs_ref : LinkRef) : prog mat RootfsError FileRef :=
  expected ← link_digest_of link Rootfs_Materialization;
  blueprint ← change_rootfs (get_or_build_blueprint rootfs_ref link None expected);
  change_rootfs (materialize_layers (layers blueprint) rootfs_ref).
Definition rootfs_from_file (link : ArtifactLink) (rootfs_ref : LinkRef) : prog mat RootfsError FileRef :=
  expected ← link_digest_of link Rootfs_Materialization;
  artifact ← load link rootfs_ref None expected Rootfs_Materialization;
  _ ← publish_file_ref rootfs_ref artifact Rootfs_Materialization;
  artifact ← change_rootfs (normalize_artifact artifact);
  _ ← of_res (fail_if (negb (bool_decide (artifact_type artifact = ContainerCpio))) Rootfs_Materialization);
  _ ← validate_cpio artifact;
  mret artifact.

Definition build_rootfs (source : Link (Path:=PathBuf)) : prog mat RootfsError FileRef :=
  resolved ← asked (ResolveSource source) optional Rootfs_Materialization;
  rootfs_ref ← reserve (kernel_key NS_Rootfs (rs_source_digest resolved)) Rootfs_Materialization;
  stored ← read_file_ref rootfs_ref Rootfs_Materialization;
  match of_type ContainerCpio stored with
  | Some entry => _ ← validate_cpio entry; mret entry
  | None =>
      rootfs ← (if rs_is_image resolved then rootfs_from_image (rs_link resolved) rootfs_ref
                else rootfs_from_file (rs_link resolved) rootfs_ref);
      _ ← publish_file_ref rootfs_ref rootfs Rootfs_Materialization;
      mret rootfs
  end.

Definition merge_modules (base modules : FileRef) : prog mat RootfsError ArtifactId :=
  let derived_link := merge_digest blake3 (fr_file_digest base) (fr_file_digest modules) in
  derived_ref ← reserve (kernel_key NS_Rootfs derived_link) Rootfs_Materialization;
  stored ← read_file_ref derived_ref Rootfs_Materialization;
  match of_type ContainerCpio stored with
  | Some cached => mret (id_of_file cached)
  | None =>
      merged ← asked (FlattenLayers [base; modules] derived_ref) id Rootfs_Materialization;
      _ ← publish_file_ref derived_ref merged Rootfs_Materialization;
      mret (id_of_file merged)
  end.
End Service.

(** ** Evidence in traces *)

Section Evidence.
Context {P : Platform} `{U : UrlCrate}.

(** [a] is the result of a run of [p] whose calls are all in [T]. *)
Definition yields {E A} (T : list (Net.event mat)) (p : prog mat E A) (a : A) : Prop :=
  exists tr, exec p tr (Ok a) /\ tr ⊆ T.

Lemma yields_self {E A} (p : prog mat E A) tr a : exec p tr (Ok a) -> yields tr p a.
Proof. intros H. by exists tr. Qed.

Lemma yields_bind {E A B} T (p : prog mat E A) (f : A -> prog mat E B) b :
  yields T (p ≫= f) b -> exists a, yields T p a /\ yields T (f a) b.
Proof.
  intros (tr & (t1 & t2 & r & -> & H1 & H2)%exec_bind_inv & Hs). destruct r as [a|e|]; [|by destruct H2..].
  exists a. split; eexists; (split; [done|]); set_solver.
Qed.

Lemma yields_ret {E A} T (a b : A) : yields (E:=E) T (mret a) b -> b = a.
Proof. by intros (tr & [_ [= ->]] & _). Qed.
Lemma yields_res {E A} T (r : res E A) b : yields T (of_res r) b -> r = Ok b.
Proof. by intros (tr & [_ ->] & _). Qed.
Lemma yields_asked {E A X} T c (f : mat_answer c -> res X A) (e : E) a :
  yields T (asked c f e) a -> exists ans, EvExt (F:=mat) c ans ∈ T /\ f ans = Ok a.
Proof.
  intros (tr & (ans & tr' & -> & [-> H]) & Hs). exists ans. split; [apply Hs; by left|]. symmetry in H. by apply map_err_ok in H.
Qed.
Lemma yields_try {E E' A B} T (p : prog mat E A) (f : res E A -> prog mat E' B) b :
  yields T (ptry f p) b -> exists r tr, exec p tr r /\ tr ⊆ T /\ yields T (f r) b.
Proof.
  intros (tr & (t1 & t2 & r & -> & H1 & H2)%exec_try_inv & Hs). exists r, t1. split; [done|]. split; [set_solver|].
  exists t2. split; [done|set_solver].
Qed.
Lemma yields_map_err {E E' A} T (g : E -> E') (p : prog mat E A) a : yields T (pmap_err g p) a -> yields T p a.
Proof.
  intros (r & tr & H & Hs & (t & [_ E1] & _))%yields_try. symmetry in E1. apply map_err_ok in E1. subst r. by exists tr.
Qed.
Lemma yields_dropping {E A} T d (p : prog mat E A) a : yields T (dropping d p) a -> yields T p a.
Proof.
  intros (r & tr & H & Hs & (t & (x & t' & -> & [_ <-]) & _))%yields_try. by exists tr.
Qed.
Lemma yields_guard {E A} T c (e : E) (k : unit -> prog mat E A) a :
  yields T (of_res (fail_if c e) ≫= k) a -> c = false /\ yields T (k tt) a.
Proof. intros ([] & Hg%yields_res%fail_if_ok & H)%yields_bind. done. Qed.

(** What the operations promise of their results: the type they create, and
    that an update or a publication of a staged file returns that file. *)
Definition ops_typed (T : list (Net.event mat)) : Prop :=
  (forall p s d f, EvExt (F:=mat) (ExtractKernel p s d) (Ok f) ∈ T -> artifact_type f = FileBzImage)
  /\ (forall s d f, EvExt (F:=mat) (ExtractModules s d) (Ok (Some f)) ∈ T ->
        artifact_type f = ContainerCpio /\ artifact_compression f = AC_None)
  /\ (forall a f, EvExt (F:=mat) (Decompress a) (Ok f) ∈ T -> artifact_compression f = AC_None)
  /\ (forall a f, EvExt (F:=mat) (IntoCpio a) (Ok f) ∈ T -> artifact_type f = ContainerCpio /\ artifact_compression f = AC_None)
  /\ (forall l d f, EvExt (F:=mat) (FlattenLayers l d) (Ok f) ∈ T -> artifact_type f = ContainerCpio /\ artifact_compression f = AC_None)
  /\ (forall f g, EvExt (F:=mat) (ReplaceFileRef f) (Ok g) ∈ T -> g = f)
  /\ (forall f g, EvExt (F:=mat) (PublishStaged f) (Ok g) ∈ T -> g = f).

(** The store answered that it holds [f]. *)
Definition in_store (T : list (Net.event mat)) (f : FileRef) : Prop :=
  (exists r, EvExt (F:=mat) (ReadFileRef r) (Ok (Some f)) ∈ T)
  \/ (exists r, EvExt (F:=mat) (PublishFileRef r f) (Ok tt) ∈ T)
  \/ (exists g, EvExt (F:=mat) (ReplaceFileRef f) (Ok g) ∈ T).

Lemma of_type_Some t entry f : of_type t entry = Some f -> entry = Some f /\ artifact_type f = t.
Proof. destruct entry as [g|]; [|done]. cbn. case_bool_decide; [intros [= ->]; done|done]. Qed.

Context (T : list (Net.event mat)) (Hops : ops_typed T).

Lemma read_yields {E} r (e : E) f : yields T (read_file_ref r e) (Some f) -> in_store T f.
Proof. intros (ans & Hin & H)%yields_asked. cbn in H. subst ans. left. by exists r. Qed.
Lemma publish_yields {E} r f (e : E) u : yields T (publish_file_ref r f e) u -> in_store T f.
Proof. intros (ans & Hin & H)%yields_asked. right; left. exists r. cbn in H. subst ans. by destruct u. Qed.
Lemma replace_yields {E} f g (e : E) : yields T (replace_file_ref f e) g -> g = f /\ in_store T f.
Proof.
  intros (ans & Hin & H)%yields_asked. cbn in H. subst ans. destruct Hops as (_ & _ & _ & _ & _ & Hr & _).
  split; [by apply Hr|]. right; right. by exists g.
Qed.

(** A normalised artifact is uncompressed, is not a TAR and is in the store. *)
Lemma normalize_yields a b :
  in_store T a -> yields T (normalize_artifact a) b ->
  in_store T b /\ artifact_type b <> ContainerTar /\ artifact_compression b = AC_None.
Proof.
  intros Ha (a' & H1 & H2)%yields_bind.
  assert (in_store T a' /\ artifact_compression a' = AC_None) as [Hin Hc].
  { destruct (bool_decide_reflect (artifact_compression a = AC_None)) as [Hc|Hc]; [apply yields_ret in H1 as ->; by split|].
    apply yields_bind in H1 as (staged & (x & Hd & E)%yields_asked & (u & Hr & Hp)%yields_bind). cbn in E. subst x.
    apply replace_yields in Hr as [-> Hs]. apply yields_asked in Hp as (y & Hp & E). cbn in E. subst y.
    destruct Hops as (_ & _ & Hdec & _ & _ & _ & Hpub). apply Hpub in Hp as ->. split; [done|]. by eapply Hdec. }
  destruct (bool_decide_reflect (artifact_type a' = ContainerTar)) as [Ht|Ht].
  - apply yields_bind in H2 as (c & (x & Hi & E)%yields_asked & Hr). cbn in E. subst x. apply replace_yields in Hr as [-> Hs].
    destruct Hops as (_ & _ & _ & Hcpio & _). destruct (Hcpio _ _ Hi) as [-> ->]. done.
  - by apply yields_ret in H2 as ->.
Qed.

(** Loading and publishing unless it is stored. *)
Lemma stored_or_loaded {E} stored (p : prog mat E FileRef) a :
  (forall f, stored = Some f -> in_store T f) -> (yields T p a -> in_store T a) ->
  yields T (match stored with Some entry => mret entry | None => p end) a -> in_store T a.
Proof. intros Hs Hp. destruct stored as [f|]; [|done]. intros ->%yields_ret. by apply Hs. Qed.

Definition a_kernel (mk : MaterializedKernel) : Prop :=
  (exists f, mk_kernel mk = id_of_file f /\ artifact_type f = FileBzImage /\ in_store T f)
  /\ forall m, mk_modules mk = Some m -> artifact_type m = ContainerCpio /\ artifact_compression m = AC_None /\ in_store T m.

Lemma cached_modules_yields r m :
  yields T (cached_modules r) m ->
  forall f, m = Some f -> artifact_type f = ContainerCpio /\ artifact_compression f = AC_None /\ in_store T f.
Proof.
  intros (stored & Hr & ->%yields_ret)%yields_bind f.
  destruct (of_type ContainerCpio stored) as [g|] eqn:E; [|done]. apply of_type_Some in E as [-> Ht].
  case_bool_decide; [|done]. intros [= ->]. split_and!; [done|done|by eapply read_yields].
Qed.

Lemma extract_modules_yields s r m :
  yields T (extract_modules_if_needed s r) m ->
  forall f, m = Some f -> artifact_type f = ContainerCpio /\ artifact_compression f = AC_None /\ in_store T f.
Proof.
  intros (x & (y & Hx & E)%yields_asked & H)%yields_bind f Hm. cbn in E. subst y m. destruct x as [g|]; [|by apply yields_ret in H].
  apply yields_bind in H as (u & Hp & [= ->]%yields_ret). destruct Hops as (_ & Hmod & _).
  destruct (Hmod _ _ _ Hx) as [-> ->]. split_and!; [done|done|by eapply publish_yields].
Qed.

Lemma extract_kernel_yields s kp kr mr mk : yields T (extract_kernel_result s kp kr mr) mk -> a_kernel mk.
Proof.
  intros [_ (cached & Hc & (modules & Hm & (stored & Hs & (kernel & Hk & ->%yields_ret)%yields_bind)%yields_bind)%yields_bind)%yields_bind]%yields_guard.
  split; cbn.
  - exists kernel. split; [done|]. destruct (of_type FileBzImage stored) as [f|] eqn:E.
    + apply yields_ret in Hk as ->. apply of_type_Some in E as [-> Ht]. split; [done|by eapply read_yields].
    + apply yields_bind in Hk as (req & _ & (x & (y & Hx & Ey)%yields_asked & (st & _ & Hp)%yields_bind)%yields_bind). cbn in Ey. subst y.
      destruct Hops as (Hker & _). destruct st as [old|].
      * apply replace_yields in Hp as [-> ?]. split; [by eapply Hker|done].
      * apply yields_bind in Hp as (u & Hp & ->%yields_ret). split; [by eapply Hker|by eapply publish_yields].
  - destruct cached as [v|]; [apply yields_ret in Hm as ->|by eapply extract_modules_yields].
    intros m [= <-]. by eapply (cached_modules_yields mr (Some v)).
Qed.
End Evidence.

Section Valid.
Context {P : Platform} `{U : UrlCrate} (blake3 : bytes -> bytes) (path_from : bytes -> PathBuf).
Context (T : list (Net.event mat)) (Hops : ops_typed T).

Lemma image_yields l sd kp kr mr mk : yields T (build_image path_from l sd kp kr mr) mk -> a_kernel T mk.
Proof.
  intros (rr & _ & (sk & Hk & (sr & Hr & H)%yields_bind)%yields_bind)%yields_bind.
  destruct (of_type FileBzImage sk) as [k|] eqn:Ek.
  - apply of_type_Some in Ek as [-> Ht]. apply yields_bind in H as (m & Hm & H).
    assert (in_store T k) as Hin by (by eapply read_yields).
    assert (forall m', (forall f, m' = Some f -> artifact_type f = ContainerCpio /\ artifact_compression f = AC_None /\ in_store T f) ->
            a_kernel T {| mk_kernel := id_of_file k; mk_modules := m' |}) as Hok.
    { intros m' Hm'. split; [|done]. by exists k. }
    destruct m as [m|], (of_type ContainerCpio sr) as [rootfs|]; cbv beta iota zeta in H;
      [apply yields_ret in H as ->; apply Hok; by eapply cached_modules_yields..| |apply yields_ret in H as ->; by apply Hok].
    apply yields_bind in H as (m & Hx & ->%yields_ret). apply Hok. by eapply extract_modules_yields.
  - apply yields_bind in H as (rootfs & _ & H). by eapply extract_kernel_yields.
Qed.

Lemma raw_yields l kp kr mr mk : yields T (build_raw l kp kr mr) mk -> a_kernel T mk.
Proof.
  intros (stored & Hs & (a & Ha & (b & Hb%yields_map_err & H)%yields_bind)%yields_bind)%yields_bind.
  assert (in_store T a) as Hin.
  { eapply stored_or_loaded; [| |exact Ha]; [by intros f ->; eapply read_yields|].
    intros (d & _ & (x & _ & (u & Hp & ->%yields_ret)%yields_bind)%yields_bind)%yields_bind. by eapply publish_yields. }
  destruct (normalize_yields T Hops a b Hin Hb) as (Hbin & _ & _).
  destruct (bool_decide_reflect (artifact_type b = FileBzImage)) as [Ht|Ht].
  - apply yields_bind in H as (m & Hm & ->%yields_ret). split; [by exists b|]. cbn. by eapply cached_modules_yields.
  - apply yields_guard in H as [_ H]. by eapply extract_kernel_yields.
Qed.

Lemma external_yields plan mk : yields T (build_external blake3 path_from plan) mk -> a_kernel T mk.
Proof.
  intros (rs & _ & (kr & _ & (mr & _ & H)%yields_bind)%yields_bind)%yields_bind.
  destruct (rs_is_image rs); [by eapply image_yields|by eapply raw_yields].
Qed.

Lemma cached_custom r stored f :
  yields T (read_file_ref (E:=KernelError) r KE_Materialization) stored -> of_type FileBzImage stored = Some f ->
  a_kernel T (fst (from_cache f)).
Proof. intros Hr [-> Ht]%of_type_Some. split; [|done]. exists f. split_and!; [done|done|by eapply read_yields]. Qed.

Lemma custom_yields spec identity out : yields T (build_custom_with_outcome blake3 spec identity) out -> a_kernel T (fst out).
Proof.
  intros (r & _ & (stored & Hr & H)%yields_bind)%yields_bind.
  destruct (of_type FileBzImage stored) as [f|] eqn:E; [apply yields_ret in H as ->; by eapply cached_custom|].
  apply yields_bind in H as (u & _ & H%yields_dropping). apply yields_bind in H as (st & Hr2 & H).
  destruct (of_type FileBzImage st) as [f|] eqn:E2; [apply yields_ret in H as ->; by eapply cached_custom|].
  apply yields_bind in H as (staged & _ & H%yields_dropping).
  apply yields_bind in H as (size & _ & (d & _ & (a & _ & [Ht (v & Hp & ->%yields_ret)%yields_bind]%yields_guard)%yields_bind)%yields_bind).
  apply negb_false_iff, bool_decide_eq_true in Ht. split; [|done]. exists a. split_and!; [done|done|by eapply publish_yields].
Qed.
End Valid.


(** A materialised root file system is an uncompressed CPIO in the store, if the
    stored archives are. *)
Lemma rootfs_valid {P : Platform} `{U : UrlCrate} (source : Link (Path:=PathBuf)) tr f :
  exec (build_rootfs source) tr (Ok f) -> ops_typed tr ->
  artifact_type f = ContainerCpio /\ in_store tr f.
Proof.
  intros H%yields_self Hops. apply yields_bind in H as (rs & _ & (r & _ & (stored & Hs & H)%yields_bind)%yields_bind).
  destruct (of_type ContainerCpio stored) as [g|] eqn:E.
  - apply of_type_Some in E as [-> Ht]. apply yields_bind in H as (u & _ & ->%yields_ret). split; [done|by eapply read_yields].
  - apply yields_bind in H as (x & Hx & (u & Hp & ->%yields_ret)%yields_bind). split; [|by eapply publish_yields].
    destruct (rs_is_image rs).
    + apply yields_bind in Hx as (d & _ & (b & _ & Hm%yields_map_err)%yields_bind).
      apply yields_bind in Hm as (ls & _ & (y & Hf & Ey)%yields_asked). cbn in Ey. subst y.
      destruct Hops as (_ & _ & _ & _ & Hflat & _). by apply Hflat in Hf as [-> _].
    + apply yields_bind in Hx as (d & _ & (a & _ & (v & _ & (b & _ & [Ht (w & _ & ->%yields_ret)%yields_bind]%yields_guard)%yields_bind)%yields_bind)%yields_bind).
      by apply negb_false_iff, bool_decide_eq_true in Ht.
Qed.

(** ** A concrete run *)

(** A kernel and its modules out of a TAR archive on disk, on an empty store. *)
Module MaterializeExample.
#[local] Existing Instance KernelExample.toy_url.
#[local] Existing Instance unix.

Definition boot_path : option KernelPath := match KernelPath_parse (str "boot/vmlinuz") with Ok p => Some p | _ => None end.
Definition the_archive : Kernel (Path:=PathBuf) :=
  match Kernel_local_archive (str "/k.tar") (str "boot/vmlinuz") with Ok k => k | _ => Kernel_Default end.
Definition digest_of (size : Z) : LinkDigest := {| link_hash := replicate 32 (chr "d"); ld_file_size := size |}.
Definition path_of (b : bytes) : PathBuf := b.
Definition the_link : ArtifactLink := AL_Local (str "/k.tar" : PathBuf) 9.
Definition key (n : Namespace) (d : LinkDigest) : LinkRef := {| lr_uuid := []; lr_namespace := n; lr_link_digest := d |}.
Definition kernel_at : LinkRef := key NS_Kernel (kernel_request_digest (fun b => b) (digest_of 9) boot_path).
Definition modules_at : LinkRef := key NS_Modules (digest_of 9).
Definition file (n : Namespace) (t : ArtifactType) : FileRef := {|
  fr_uuid := []; fr_namespace := n; fr_file_digest := {| file_hash := []; fd_file_size := 9 |};
  artifact_type := t; artifact_compression := AC_None |}.
Definition run : list (Net.event mat) := [
  EvExt (F:=mat) (ResolveSource (Link_local (str "/k.tar" : PathBuf)))
    (Some {| rs_link := the_link; rs_is_image := false; rs_source_digest := digest_of 9 |});
  EvExt (F:=mat) (ReserveLinkRef (kernel_key NS_Kernel (lr_link_digest kernel_at))) (Ok kernel_at);
  EvExt (F:=mat) (ReserveLinkRef (kernel_key NS_Modules (digest_of 9))) (Ok modules_at);
  EvExt (F:=mat) (ReadFileRef kernel_at) (Ok None);
  EvExt (F:=mat) (DigestLink the_link) (Some (digest_of 9));
  EvExt (F:=mat) (Load the_link kernel_at None (digest_of 9)) (Ok (file NS_Kernel ContainerTar));
  EvExt (F:=mat) (PublishFileRef kernel_at (file NS_Kernel ContainerTar)) (Ok tt);
  EvExt (F:=mat) (IntoCpio (file NS_Kernel ContainerTar)) (Ok (file NS_Kernel ContainerCpio));
  EvExt (F:=mat) (ReplaceFileRef (file NS_Kernel ContainerCpio)) (Ok (file NS_Kernel ContainerCpio));
  EvExt (F:=mat) (ReadFileRef modules_at) (Ok None);
  EvExt (F:=mat) (ExtractModules (file NS_Kernel ContainerCpio) modules_at) (Ok (Some (file NS_Modules ContainerCpio)));
  EvExt (F:=mat) (PublishFileRef modules_at (file NS_Modules ContainerCpio)) (Ok tt);
  EvExt (F:=mat) (ReadFileRef kernel_at) (Ok (Some (file NS_Kernel ContainerCpio)));
  EvExt (F:=mat) (ExtractKernel (str "boot/vmlinuz") (file NS_Kernel ContainerCpio) kernel_at) (Ok (file NS_Kernel FileBzImage));
  EvExt (F:=mat) (ReadFileRef kernel_at) (Ok (Some (file NS_Kernel ContainerCpio)));
  EvExt (F:=mat) (ReplaceFileRef (file NS_Kernel FileBzImage)) (Ok (file NS_Kernel FileBzImage)) ].
Definition produced : MaterializedKernel := {|
  mk_kernel := id_of_file (file NS_Kernel FileBzImage); mk_modules := Some (file NS_Modules ContainerCpio) |}.

(** The files an event relates, whatever operation it is of. *)
Definition produced_by (e : Net.event mat) : option (FileRef * option FileRef) :=
  match e with
  | EvExt (ExtractKernel _ _ _) (Ok f) | EvExt (FlattenLayers _ _) (Ok f) | EvExt (Decompress _) (Ok f)
  | EvExt (IntoCpio _) (Ok f) | EvExt (ExtractModules _ _) (Ok (Some f)) => Some (f, None)
  | EvExt (ReplaceFileRef f) (Ok g) | EvExt (PublishStaged f) (Ok g) => Some (f, Some g)
  | _ => None
  end.
Ltac each_event H :=
  repeat (apply elem_of_cons in H as [H|H];
    [first [discriminate H|apply (f_equal produced_by) in H; injection H; intros; subst; auto]|]); by apply not_elem_of_nil in H.

Lemma run_typed : ops_typed run.
Proof. unfold ops_typed. split_and!; intros * H; each_event H. Qed.

End MaterializeExample.
