(* ===== verification/KernelBuild.v ===== *)
(** * Identical custom builds are serialised

    [libs/kernel/src/cache_lock.rs] with [build_custom_with_outcome]: any number
    of processes and tasks that ask for the same custom kernel, sharing the store
    and the per-digest build lock.  Every process runs the program of
    [Materialize] and is preempted at every call; it may also die at any point,
    which closes its handles and so releases the lock.

    Acquiring the in-process lock and then the file lock is one step that is
    enabled while nobody holds the lock; waiting is not being scheduled.  The
    store answers as the index does for one key, with failures at any call;
    stored files stay intact. *)

From Stdlib Require Import ZArith Lia Ascii.
From stdpp Require Import base tactics option list numbers strings sets.
From S2P Require Import Prelude Bytes IndexCodec IndexStore KernelSpec KernelRequest Net Materialize.

Section Build.
Context {P : Platform} `{U : UrlCrate} (blake3 : bytes -> bytes).
Context (spec : CustomKernelSpec) (identity : KernelCompilerIdentity) (the_ref : LinkRef).

Definition outcome : Type := MaterializedKernel * bool.
Definition builder : Type := prog mat KernelError outcome.
Definition digest : LinkDigest := custom_request_digest blake3 spec identity.
Definition build : builder := build_custom_with_outcome blake3 spec identity.

(** [w_procs]: a process that died is [None]. *)
Record world : Type := {
  w_lock : option nat;
  w_stored : option FileRef;
  w_procs : list (option builder);
  w_log : list (nat * Net.event mat);
}.

Definition failed {E A} (a : res E A) : Prop := forall x, a <> Ok x.

(** What process [i] may be answered, with the lock and the record afterwards. *)
Definition answers (i : nat) (lock : option nat) (stored : option FileRef) (c : mat_call)
    : mat_answer c -> option nat -> option FileRef -> Prop :=
  match c return mat_answer c -> option nat -> option FileRef -> Prop with
  | ReserveLinkRef _ => fun a lock' stored' => (a = Ok the_ref \/ failed a) /\ lock' = lock /\ stored' = stored
  | ReadFileRef _ => fun a lock' stored' => (a = Ok stored \/ failed a) /\ lock' = lock /\ stored' = stored
  | PublishFileRef _ f => fun a lock' stored' =>
      lock' = lock /\ (a = Ok tt /\ stored' = Some f \/ failed a /\ stored' = stored)
  | AcquireBuildLock _ => fun a lock' stored' =>
      stored' = stored /\ (a = true /\ lock = None /\ lock' = Some i \/ a = false /\ lock' = lock)
  | ReleaseBuildLock _ => fun _ lock' stored' => lock' = None /\ stored' = stored
  | _ => fun _ lock' stored' => lock' = lock /\ stored' = stored
  end.

(** One call of a builder, with the event it leaves. *)
Definition call_step (i : nat) (lock : option nat) (stored : option FileRef) (p : builder)
    (e : Net.event mat) (p' : builder) (lock' : option nat) (stored' : option FileRef) : Prop :=
  match p with
  | Ext c k => exists a, answers i lock stored c a lock' stored' /\ e = EvExt (F:=mat) c a /\ p' = k a
  | _ => False
  end.

Inductive step (w : world) : world -> Prop :=
  | step_call i p e p' lock' stored' :
      w_procs w !! i = Some (Some p) ->
      call_step i (w_lock w) (w_stored w) p e p' lock' stored' ->
      step w {| w_lock := lock'; w_stored := stored'; w_procs := <[i := Some p']> (w_procs w); w_log := w_log w ++ [(i, e)] |}
  | step_die i p :
      w_procs w !! i = Some (Some p) ->
      step w {| w_lock := if decide (w_lock w = Some i) then None else w_lock w; w_stored := w_stored w;
                w_procs := <[i := None]> (w_procs w); w_log := w_log w |}
  | step_start :
      step w {| w_lock := w_lock w; w_stored := w_stored w; w_procs := w_procs w ++ [Some build]; w_log := w_log w |}.

Definition bzimage (stored : option FileRef) : Prop := exists f, stored = Some f /\ artifact_type f = FileBzImage.

(** Nothing runs; whatever is stored is not a kernel. *)
Definition initial (w : world) : Prop :=
  w_lock w = None /\ ~ bzimage (w_stored w) /\ w_procs w = [] /\ w_log w = [].

Inductive reachable : world -> Prop :=
  | reach_initial w : initial w -> reachable w
  | reach_step w w' : reachable w -> step w w' -> reachable w'.

(** ** The program points *)

Definition publish_then (a : FileRef) : builder :=
  _ ← publish_file_ref the_ref a KE_Materialization;
  mret ({| mk_kernel := id_of_file a; mk_modules := None |}, false).
Definition checked (a : FileRef) : builder :=
  _ ← of_res (fail_if (negb (bool_decide (artifact_type a = FileBzImage))) KE_Compilation); publish_then a.
Definition loading (link : ArtifactLink) (expected : LinkDigest) : builder :=
  a ← load link the_ref None expected KE_Materialization; checked a.
Definition digesting (link : ArtifactLink) : builder :=
  expected ← link_digest_of link KE_Compilation; loading link expected.

(** Inside [stage_and_publish]. *)
Inductive staging : builder -> Prop :=
  | at_size staged : staging (stage_and_publish the_ref staged)
  | at_digest link : staging (digesting link)
  | at_load link expected : staging (loading link expected)
  | at_publish a : artifact_type a = FileBzImage -> staging (publish_then a).

Definition locked (p : builder) : builder := dropping (ReleaseBuildLock digest) p.
Definition after_reserve : builder :=
  stored ← read_file_ref the_ref KE_Materialization;
  match of_type FileBzImage stored with
  | Some cached => mret (from_cache cached)
  | None =>
      _ ← asked (AcquireBuildLock digest) (fun ok => if ok : bool then Ok tt else Err tt) KE_Materialization;
      locked (locked_build spec the_ref)
  end.
Definition acquiring : builder :=
  _ ← asked (AcquireBuildLock digest) (fun ok => if ok : bool then Ok tt else Err tt) KE_Materialization;
  locked (locked_build spec the_ref).

(** What a finished builder may return: the stored kernel, and [false] only if
    it recorded it itself. *)
Definition result_ok (i : nat) (stored : option FileRef) (log : list (nat * Net.event mat)) (r : res KernelError outcome) : Prop :=
  match r with
  | Ok (mk, cached) =>
      exists f, stored = Some f /\ artifact_type f = FileBzImage
                /\ mk = {| mk_kernel := id_of_file f; mk_modules := None |}
                /\ (cached = false -> (i, EvExt (F:=mat) (PublishFileRef the_ref f) (Ok tt)) ∈ log)
  | _ => True
  end.

Inductive phase (i : nat) (lock : option nat) (stored : option FileRef) (log : list (nat * Net.event mat)) : builder -> Prop :=
  | ph_start : lock <> Some i -> phase i lock stored log build
  | ph_read : lock <> Some i -> phase i lock stored log after_reserve
  | ph_acquire : lock <> Some i -> phase i lock stored log acquiring
  | ph_recheck : lock = Some i -> phase i lock stored log (locked (locked_build spec the_ref))
  | ph_compile : lock = Some i -> ~ bzimage stored -> phase i lock stored log (locked (compile_and_stage spec the_ref))
  | ph_stage staged q : lock = Some i -> ~ bzimage stored -> staging q ->
      phase i lock stored log (locked (dropping (RemoveStaged staged) q))
  | ph_remove staged r : lock = Some i -> result_ok i stored log r ->
      phase i lock stored log (locked (dropping (RemoveStaged staged) (Done r)))
  | ph_release r : lock = Some i -> result_ok i stored log r -> phase i lock stored log (locked (Done r))
  | ph_done r : lock <> Some i -> result_ok i stored log r -> phase i lock stored log (Done r).

Definition is_publish (e : nat * Net.event mat) : bool :=
  match snd e with EvExt (PublishFileRef _ _) (Ok _) => true | _ => false end.
Definition is_compile (e : nat * Net.event mat) : bool :=
  match snd e with EvExt (Compile _) _ => true | _ => false end.

(** ** One process *)

(** What a call of process [i] may change. *)
Definition effect (i : nat) (lock : option nat) (stored : option FileRef) (e : Net.event mat)
    (lock' : option nat) (stored' : option FileRef) : Prop :=
  (lock' = lock \/ lock = None /\ lock' = Some i \/ lock = Some i /\ lock' = None)
  /\ (is_compile (i, e) = true -> ~ bzimage stored)
  /\ (if is_publish (i, e) then lock = Some i /\ ~ bzimage stored /\ bzimage stored' else stored' = stored).

(** A call that is neither the lock nor a publication leaves both alone. *)
Lemma effect_quiet i lock stored e :
  is_publish (i, e) = false -> (is_compile (i, e) = true -> ~ bzimage stored) -> effect i lock stored e lock stored.
Proof. intros Hp Hc. unfold effect. rewrite Hp. auto. Qed.

Lemma of_type_None stored : of_type FileBzImage stored = None -> ~ bzimage stored.
Proof. intros E (f & -> & Ht). unfold of_type in E. by rewrite bool_decide_eq_true_2 in E. Qed.

Lemma result_cached i stored log f : of_type FileBzImage stored = Some f -> result_ok i stored log (Ok (from_cache f)).
Proof. intros [-> Ht]%of_type_Some. by exists f. Qed.

Lemma result_ok_later i stored log e r : result_ok i stored log r -> result_ok i stored (log ++ [e]) r.
Proof.
  destruct r as [[mk cached]|x|]; [|done..]. intros (f & -> & Ht & -> & Hin). exists f.
  split_and!; [done..|]. intros Hc. apply elem_of_app. left. auto.
Qed.

Lemma staging_call i lock stored log staged q e q' lock' stored' :
  lock = Some i -> ~ bzimage stored -> staging q ->
  call_step i lock stored q e q' lock' stored' ->
  phase i lock' stored' (log ++ [(i, e)]) (locked (dropping (RemoveStaged staged) q')) /\ effect i lock stored e lock' stored'.
Proof.
  intros Hl Hb Hq Hs. destruct Hq as [st|link|link expected|a Hty]; cbn in Hs.
  - destruct Hs as (a & (-> & ->) & -> & ->). split; [|by apply effect_quiet].
    destruct a as [size|]; [refine (ph_stage _ _ _ _ staged (digesting (AL_Local st size)) _ _ _); [done..|constructor]|by apply ph_remove].
  - destruct Hs as (a & (-> & ->) & -> & ->). split; [|by apply effect_quiet].
    destruct a as [d|]; [by apply (ph_stage _ _ _ _ staged (loading link d)); [..|constructor]|by apply ph_remove].
  - destruct Hs as (a & (-> & ->) & -> & ->). split; [|by apply effect_quiet].
    destruct a as [f|x|]; [|by apply (ph_remove _ _ _ _ staged (Err _))|by apply (ph_remove _ _ _ _ staged Panic)].
    cbn. destruct (bool_decide_reflect (artifact_type f = FileBzImage)) as [Ht|Ht];
      [by apply (ph_stage _ _ _ _ staged (publish_then f)); [..|constructor]|by apply (ph_remove _ _ _ _ staged (Err _))].
  - destruct Hs as (r & (-> & [[-> ->]|[Hf ->]]) & -> & ->).
    + split; [|split_and!; [auto|done|split_and!; [done|done|by exists a]]].
      apply (ph_remove _ _ _ _ staged (Ok _)); [done|]. exists a. split_and!; [done..|].
      intros _. apply elem_of_app. right. by apply list_elem_of_singleton.
    + destruct r as [[]|x|]; [by destruct (Hf tt)|..]; (split; [|by apply effect_quiet]);
        [by apply (ph_remove _ _ _ _ staged (Err _))|by apply (ph_remove _ _ _ _ staged Panic)].
Qed.

Lemma dropping_call i lock stored d p e p' lock' stored' :
  (forall r, p <> Done r) -> call_step i lock stored (dropping d p) e p' lock' stored' ->
  exists q, call_step i lock stored p e q lock' stored' /\ p' = dropping d q.
Proof. intros Hn Hs. destruct p as [r|n k|a k|n k|k|c k]; [by destruct (Hn r)|done..|]. destruct Hs as (a & Ha & -> & ->). cbn. eauto 6. Qed.

Lemma phase_call i lock stored log p e p' lock' stored' :
  phase i lock stored log p -> call_step i lock stored p e p' lock' stored' ->
  phase i lock' stored' (log ++ [(i, e)]) p' /\ effect i lock stored e lock' stored'.
Proof.
  intros Hp Hs. destruct Hp as [Hl|Hl|Hl|Hl|Hl Hb|staged q Hl Hb Hq|staged r Hl Hr|r Hl Hr|r Hl Hr]; [..|done].
  - cbn in Hs. destruct Hs as (a & (Ha & -> & ->) & -> & ->). split; [|by apply effect_quiet].
    destruct a as [r|x|]; [|by apply ph_done..]. destruct Ha as [[= ->]|Hf]; [by apply ph_read|by destruct (Hf r)].
  - cbn in Hs. destruct Hs as (a & (Ha & -> & ->) & -> & ->). split; [|by apply effect_quiet].
    destruct a as [r|x|]; [|by apply ph_done..]. destruct Ha as [[= ->]|Hf]; [|by destruct (Hf r)].
    cbn. destruct (of_type FileBzImage stored) eqn:E; [by apply ph_done, result_cached|by apply ph_acquire].
  - cbn in Hs. destruct Hs as (a & (-> & [(-> & -> & ->)|[-> ->]]) & -> & ->).
    + split; [by apply ph_recheck|]. split_and!; [auto|done..].
    + split; [by apply ph_done|by apply effect_quiet].
  - cbn in Hs. destruct Hs as (a & (Ha & -> & ->) & -> & ->). split; [|by apply effect_quiet].
    destruct a as [r|x|]; [|by apply (ph_release _ _ _ _ (Err _))|by apply (ph_release _ _ _ _ Panic)].
    destruct Ha as [[= ->]|Hf]; [|by destruct (Hf r)]. cbn.
    destruct (of_type FileBzImage stored) eqn:E; [by apply (ph_release _ _ _ _ (Ok _)), result_cached|].
    by apply ph_compile, of_type_None.
  - cbn in Hs. destruct Hs as (a & (-> & ->) & -> & ->). split; [|by apply effect_quiet].
    destruct a as [staged|]; [apply (ph_stage _ _ _ _ staged (stage_and_publish the_ref staged)); [done..|constructor]|by apply (ph_release _ _ _ _ (Err _))].
  - apply dropping_call in Hs as (q1 & Hs & ->); [|by destruct Hq].
    apply dropping_call in Hs as (q2 & Hs & ->); [|by destruct Hq]. by eapply staging_call.
  - cbn in Hs. destruct Hs as (a & (-> & ->) & -> & ->). split; [by apply ph_release, result_ok_later|by apply effect_quiet].
  - cbn in Hs. destruct Hs as (a & (-> & ->) & -> & ->). split; [by apply ph_done, result_ok_later|split_and!; [auto|done..]].
Qed.

(** The other processes do not notice. *)
Lemma phase_stable i j lock stored log e lock' stored' p :
  i <> j -> effect i lock stored e lock' stored' -> phase j lock stored log p -> phase j lock' stored' (log ++ [(i, e)]) p.
Proof.
  intros Hij (Hl & _ & Hs) Hp.
  assert (lock = Some j <-> lock' = Some j) as Hiff by (destruct Hl as [->|[[-> ->]|[-> ->]]]; split; congruence).
  assert (lock = Some j -> stored' = stored) as Hmine by (destruct (is_publish (i, e)); [destruct Hs as [-> _]; congruence|done]).
  assert (forall r, result_ok j stored log r -> result_ok j stored' (log ++ [(i, e)]) r) as Hres.
  { intros r Hr. apply result_ok_later. destruct (is_publish (i, e)); [|by subst].
    destruct Hs as (_ & Hb & _), r as [[mk cached]|x|]; [|done..]. destruct Hr as (f & -> & Ht & _). destruct Hb. by exists f. }
  destruct Hp; constructor; try (by apply Hiff); try (by intros Hx%Hiff); auto; by rewrite Hmine.
Qed.

Lemma phase_released i j lock stored log p :
  i <> j -> phase j lock stored log p -> phase j (if decide (lock = Some i) then None else lock) stored log p.
Proof. intros Hij Hp. case_decide as E; [|done]. subst. destruct Hp; constructor; congruence || done. Qed.

(** ** The whole system *)

(** Once a kernel is recorded nothing is compiled or recorded again. *)
Definition final_publish (log : list (nat * Net.event mat)) : Prop :=
  forall l1 e l2, log = l1 ++ e :: l2 -> is_publish e = true ->
    Forall (fun e' => is_publish e' = false /\ is_compile e' = false) l2.

Record invariant (w : world) : Prop := {
  inv_procs i p : w_procs w !! i = Some (Some p) -> phase i (w_lock w) (w_stored w) (w_log w) p;
  inv_holder i : w_lock w = Some i -> exists p, w_procs w !! i = Some (Some p);
  inv_stored : bzimage (w_stored w) <-> exists e, e ∈ w_log w /\ is_publish e = true;
  inv_log : final_publish (w_log w);
}.

Lemma final_publish_snoc log e :
  final_publish log -> ((exists e', e' ∈ log /\ is_publish e' = true) -> is_publish e = false /\ is_compile e = false) ->
  final_publish (log ++ [e]).
Proof.
  intros Hf Hq l1 x l2 Heq Hx. destruct l2 as [|y l2 _] using rev_ind; [done|].
  rewrite app_comm_cons, app_assoc in Heq. apply app_inj_tail in Heq as [-> ->].
  apply Forall_app. split; [by eapply Hf|]. apply Forall_singleton, Hq. exists x. split; [set_solver|done].
Qed.

Lemma invariant_step w w' : invariant w -> step w w' -> invariant w'.
Proof.
  intros [Hp Hh Hst Hlog] Hs. destruct Hs as [i p e p' lock' stored' Hi Hc|i p Hi|].
  - destruct (phase_call _ _ _ _ _ _ _ _ _ (Hp _ _ Hi) Hc) as [Hph Heff]. split; cbn.
    + intros j q. destruct (decide (i = j)) as [<-|Hij].
      * rewrite list_lookup_insert_eq by (by eapply lookup_lt_Some). by intros [= <-].
      * rewrite list_lookup_insert_ne by done. intros Hq. eapply phase_stable; eauto.
    + intros j Hj. destruct (decide (i = j)) as [<-|Hij].
      * rewrite list_lookup_insert_eq by (by eapply lookup_lt_Some). eauto.
      * rewrite list_lookup_insert_ne by done. apply Hh. destruct Heff as [Hl _]. destruct Hl as [->|[[-> ->]|[-> ->]]]; congruence.
    + destruct Heff as (_ & _ & He). destruct (is_publish (i, e)) eqn:Ep.
      * destruct He as (_ & _ & Hb). split; [|done]. intros _. exists (i, e). split; [set_solver|done].
      * subst stored'. rewrite Hst. split; intros (x & Hx & Hpx); exists x; (split; [|done]); [set_solver|].
        apply elem_of_app in Hx as [|Hx%list_elem_of_singleton]; [done|congruence].
    + apply final_publish_snoc; [done|]. intros Hb%Hst. destruct Heff as (_ & Hcomp & He).
      destruct (is_publish (i, e)); [by destruct He as (_ & [] & _)|]. split; [done|].
      destruct (is_compile (i, e)); [by destruct Hcomp|done].
  - split; cbn; [| |done|done].
    + intros j q. destruct (decide (i = j)) as [<-|Hij];
        [by rewrite list_lookup_insert_eq by (by eapply lookup_lt_Some)|].
      rewrite list_lookup_insert_ne by done. intros Hq. apply phase_released; auto.
    + intros j. case_decide; [done|]. intros Hj. rewrite list_lookup_insert_ne by congruence. auto.
  - split; cbn; [| |done|done].
    + intros j q [[_ Hq]|[-> Hq]]%lookup_snoc_Some; [by apply Hp|]. injection Hq as <-. apply ph_start.
      intros (r & Hr)%Hh. apply lookup_lt_Some in Hr. lia.
    + intros j (q & Hq)%Hh. exists q. by apply lookup_app_l_Some.
Qed.

Lemma invariant_reachable w : reachable w -> invariant w.
Proof.
  induction 1 as [w (Hl & Hb & Hp & Hg)|w w' _ IH Hs]; [|by eapply invariant_step].
  split; rewrite ?Hl, ?Hp, ?Hg; [by intros i p|done| |].
  - split; [done|]. intros (e & He & _). by apply not_elem_of_nil in He.
  - intros l1 e l2 E. by destruct l1.
Qed.

Lemma final_publish_unique log e1 e2 :
  final_publish log -> e1 ∈ log -> e2 ∈ log -> is_publish e1 = true -> is_publish e2 = true -> e1 = e2.
Proof.
  intros Hf (l1 & l2 & ->)%list_elem_of_split H2 Hp1 Hp2.
  apply elem_of_app in H2 as [(k1 & k2 & ->)%list_elem_of_split|[->|H2]%elem_of_cons]; [|done|].
  - assert (Forall (fun e => is_publish e = false /\ is_compile e = false) (k2 ++ e1 :: l2)) as Hq.
    { apply (Hf k1 e2); [|done]. by rewrite <-app_assoc. }
    apply Forall_app in Hq as [_ [[Hq _] _]%Forall_cons]. congruence.
  - specialize (Hf l1 e1 l2 eq_refl Hp1). rewrite Forall_forall in Hf. destruct (Hf _ H2). congruence.
Qed.

(** About to compile or to record a kernel. *)
Definition building (p : builder) : bool :=
  match p with Ext (Compile _) _ | Ext (PublishFileRef _ _) _ => true | _ => false end.
Definition finished (p : builder) : bool := match p with Done _ => true | _ => false end.

Lemma phase_building i lock stored log p : phase i lock stored log p -> building p = true -> lock = Some i.
Proof. by destruct 1. Qed.
Lemma phase_holder i lock stored log p : phase i lock stored log p -> lock = Some i -> finished p = false.
Proof. destruct 1 as [| | | | |staged q Hl Hb [] | | |]; done. Qed.
Lemma phase_done i lock stored log p :
  phase i lock stored log p -> match p with Done r => result_ok i stored log r | _ => True end.
Proof. destruct 1 as [| | | | |staged q Hl Hb [] | | |]; done. Qed.
End Build.


(** ** A concrete run *)

(** A scheduler in which every call of process [i] succeeds. *)
Section Scheduled.
Context {P : Platform} `{U : UrlCrate} (blake3 : bytes -> bytes).
Context (spec : CustomKernelSpec) (identity : KernelCompilerIdentity) (the_ref : LinkRef).
Context (staged : PathBuf) (image : FileRef).

Definition good (i : nat) (lock : option nat) (stored : option FileRef) (c : mat_call)
    : option (mat_answer c * option nat * option FileRef) :=
  match c return option (mat_answer c * option nat * option FileRef) with
  | ReserveLinkRef _ => Some (Ok the_ref, lock, stored)
  | ReadFileRef _ => Some (Ok stored, lock, stored)
  | PublishFileRef _ f => Some (Ok tt, lock, Some f)
  | AcquireBuildLock _ => match lock with Some _ => None | None => Some (true, Some i, stored) end
  | ReleaseBuildLock _ => Some (tt, None, stored)
  | Compile _ => Some (Some staged, lock, stored)
  | StagedSize _ => Some (Some 9, lock, stored)
  | RemoveStaged _ => Some (tt, lock, stored)
  | DigestLink _ => Some (Some (Build_LinkDigest [] 9), lock, stored)
  | Load _ _ _ _ => Some (Ok image, lock, stored)
  | _ => None
  end.

Definition scheduled (w : world) (i : nat) : option world :=
  match w_procs w !! i with
  | Some (Some (Ext c k)) =>
      '(a, lock', stored') ← good i (w_lock w) (w_stored w) c;
      Some {| w_lock := lock'; w_stored := stored'; w_procs := <[i := Some (k a)]> (w_procs w);
              w_log := w_log w ++ [(i, EvExt (F:=mat) c a)] |}
  | _ => None
  end.

Lemma good_answers i lock stored c a lock' stored' :
  good i lock stored c = Some (a, lock', stored') -> answers the_ref i lock stored c a lock' stored'.
Proof. destruct c; cbn; intros H; try done; try destruct lock; simplify_eq; auto. Qed.

Lemma scheduled_step w i w' : scheduled w i = Some w' -> step blake3 spec identity the_ref w w'.
Proof.
  unfold scheduled. intros H. destruct (w_procs w !! i) as [[p|]|] eqn:E; [|done..]. destruct p as [| | | | |c k]; [done..|].
  destruct (good i (w_lock w) (w_stored w) c) as [[[a lock'] stored']|] eqn:G; [|done]. injection H as <-.
  eapply step_call; [exact E|]. exists a. split_and!; [by apply good_answers|done|done].
Qed.

Lemma scheduled_reachable sched w w' :
  reachable blake3 spec identity the_ref w -> foldl (fun o i => o ≫= fun w => scheduled w i) (Some w) sched = Some w' ->
  reachable blake3 spec identity the_ref w'.
Proof.
  revert w. induction sched as [|i sched IH]; intros w Hw; cbn; [by intros [= <-]|].
  destruct (scheduled w i) as [w1|] eqn:E.
  - apply IH. eapply reach_step; [done|by eapply scheduled_step].
  - intros H. exfalso. clear -H. induction sched; cbn in H; [done|auto].
Qed.
End Scheduled.

Module BuildExample.
#[local] Existing Instance KernelExample.toy_url.
#[local] Existing Instance unix.

Definition spec : CustomKernelSpec :=
  default {| cs_source := {| pin_version := {| kv_canonical := []; kv_components := []; kv_len := 0 |};
                             pin_url := {| hu_url := ([], []) : ParsedUrl |}; pin_digest := ED_Sha256 [] |};
             cs_config := {| kc_mode := Fragment; kc_bytes := [] |} |} (RequestExample.spec_of [LF]).
Definition the_ref : LinkRef := {|
  lr_uuid := []; lr_namespace := NS_Kernel;
  lr_link_digest := custom_request_digest (fun b => b) spec RequestExample.recipe_identity |}.
Definition image : FileRef := MaterializeExample.file NS_Kernel FileBzImage.
Definition one_build : builder := build (fun b => b) spec RequestExample.recipe_identity.
Definition start : world := {| w_lock := None; w_stored := None; w_procs := []; w_log := [] |}.
Definition with_two : world := {| w_lock := None; w_stored := None; w_procs := [Some one_build; Some one_build]; w_log := [] |}.
(** The second builder asks for the lock only after the first has let it go. *)
Definition schedule : list nat := [0; 1; 0; 1; 0; 0; 0; 0; 0; 0; 0; 0; 0; 1; 1; 1]%nat.
Definition finished_world : option world :=
  foldl (fun o i => o ≫= fun w => scheduled the_ref (str "/tmp/bzImage" : PathBuf) image w i) (Some with_two) schedule.
Definition results (w : world) : list (option (res KernelError outcome)) :=
  (fun p => match p with Some (Done r) => Some r | _ => None end) <$> w_procs w.

End BuildExample.
