(* ===== verification/Extract.v ===== *)
(** * Reading kernels and modules out of an archive

    [libs/kernel/src/ops/extract_kernel.rs], [extract_modules.rs] and
    [libs/rootfs/src/ops/validate_cpio.rs]: three walks over a flattened
    [newc] archive.  The reader is the [cpio] crate, as in [Flatten]; the
    nested [kernel.tar] is read by the [tar] crate, as in [TarCpio].  Writes to
    the spool and to the destination succeed. *)

From Stdlib Require Import ZArith Lia Ascii Sorted.
From stdpp Require Import base tactics option list numbers strings gmap sets.
From S2P Require Import Prelude Bytes Text BTree Cpio Flatten TarCpio IndexCodec IndexStore Materialize.

(** A source file: the digest of the opened handle ([None]: it cannot be read)
    and what the reader yields after rewinding it. *)
Record source_file := { sf_digest : option FileDigest; sf_steps : list newc_step }.

Definition is_cpio (src : FileRef) : res OperationError unit :=
  _ ← fail_if (bool_decide (artifact_type src <> ContainerCpio)) Op_UnsupportedArtifact;
  fail_if (bool_decide (artifact_compression src <> AC_None)) Op_UnsupportedCompression.
Definition verified (src : FileRef) (file : source_file) : res OperationError unit :=
  actual ← ok_or (sf_digest file) Op_ReadSource;
  fail_if (bool_decide (actual <> fr_file_digest src)) Op_DigestMismatch.

(** ** Validation *)

(** The rest of a body is read to its end before its length is compared. *)
Definition drain_body (entry : NewcEntry) : res OperationError unit :=
  fail_if (len (ne_body entry) <? ne_file_size entry) Op_InvalidCpio.
Definition read_trailer (drained : bool) (extra : option bool) : res OperationError unit :=
  _ ← finish_reader drained;
  match extra with Some false => Ok tt | Some true | None => Err Op_InvalidCpio end.

(** [Panic]: a reader that stops without a result, which it never does. *)
Fixpoint validate_steps (steps : list newc_step) : res OperationError unit :=
  match steps with
  | [] => Panic
  | step :: steps =>
      _ ← fail_if (st_cancelled step) Op_Cancelled;
      match st_read step with
      | Newc_error => Err Op_InvalidCpio
      | Newc_trailer drained extra => read_trailer drained extra
      | Newc_entry entry =>
          _ ← drain_body entry;
          _ ← finish_reader (ne_finish entry);
          validate_steps steps
      end
  end.
Definition validate_cpio_file (entry : FileRef) (file : source_file) (cancelled : bool) : res OperationError unit :=
  _ ← is_cpio entry;
  _ ← fail_if cancelled Op_Cancelled;
  _ ← verified entry file;
  validate_steps (sf_steps file).

(** ** The boot image signature *)

Definition BOOT_FLAG_OFFSET : Z := 510.
Definition BOOT_FLAG : bytes := [z2b 85; z2b 170].
Definition HDRS_OFFSET : Z := 514.
Definition HDRS_MAGIC : bytes := str "HdrS".
Definition MIN_BZIMAGE_LEN : Z := 518.

Definition slice (s : bytes) (offset size : Z) : bytes := take (Z.to_nat size) (drop (Z.to_nat offset) s).
Definition validate_bzimage_signature (b : bytes) : res OperationError unit :=
  _ ← fail_if (len b <? MIN_BZIMAGE_LEN) Op_InvalidKernel;
  _ ← fail_if (bool_decide (slice b BOOT_FLAG_OFFSET 2 <> BOOT_FLAG)) Op_InvalidKernel;
  fail_if (bool_decide (slice b HDRS_OFFSET 4 <> HDRS_MAGIC)) Op_InvalidKernel.

(** ** Kernel extraction *)

Record walk := {
  wk_spool : bytes;
  wk_bodies : gmap (Z * Z) SpoolRange;
  wk_identity : option (Z * Z);
  wk_body : option SpoolRange;
  wk_seen : bool;
  wk_invalid_type : bool;
}.
Definition walk_start : walk :=
  {| wk_spool := []; wk_bodies := ∅; wk_identity := None; wk_body := None; wk_seen := false; wk_invalid_type := false |}.

(** The reader stops at the declared size. *)
Definition declared_body (entry : NewcEntry) : bytes := take (Z.to_nat (ne_file_size entry)) (ne_body entry).
Definition file_type (entry : NewcEntry) : Z := Z.land (ne_mode entry) S_IFMT.
Definition entry_identity (entry : NewcEntry) : Z * Z := (ne_dev_major entry, ne_ino entry).
(** [body.or_else(...)]. *)
Definition or_else {A} (a b : option A) : option A := match a with Some _ => a | None => b end.

Definition spool_body (spool : bytes) (entry : NewcEntry) : res OperationError (option SpoolRange * bytes) :=
  if (file_type entry =? S_IFREG) && (0 <? ne_file_size entry) then
    '(range, spool) ← append_body spool (ne_body entry) (ne_file_size entry);
    Ok (Some range, spool)
  else Ok (None, spool).

Definition note_body (w : walk) (identity : Z * Z) (body : option SpoolRange) : walk :=
  match body with
  | None => w
  | Some range =>
      {| wk_spool := wk_spool w;
         wk_bodies := match wk_bodies w !! identity with Some _ => wk_bodies w | None => <[identity := range]> (wk_bodies w) end;
         wk_identity := wk_identity w;
         wk_body := if bool_decide (wk_identity w = Some identity) && bool_decide (wk_body w = None) then Some range else wk_body w;
         wk_seen := wk_seen w; wk_invalid_type := wk_invalid_type w |}
  end.
Definition note_requested (w : walk) (entry : NewcEntry) (body : option SpoolRange) : walk :=
  let identity := entry_identity entry in
  let regular := file_type entry =? S_IFREG in
  {| wk_spool := wk_spool w; wk_bodies := wk_bodies w; wk_identity := Some identity;
     wk_body := if regular then or_else body (wk_bodies w !! identity) else wk_body w;
     wk_seen := true; wk_invalid_type := if regular then wk_invalid_type w else true |}.
Definition walk_entry (requested : bytes) (w : walk) (entry : NewcEntry) : res OperationError walk :=
  normalized ← normalize_path (ne_name entry);
  '(body, spool) ← spool_body (wk_spool w) entry;
  _ ← finish_reader (ne_finish entry);
  let w := {| wk_spool := spool; wk_bodies := wk_bodies w; wk_identity := wk_identity w; wk_body := wk_body w;
              wk_seen := wk_seen w; wk_invalid_type := wk_invalid_type w |} in
  let w := note_body w (entry_identity entry) body in
  Ok (if bool_decide (normalized = requested) then note_requested w entry body else w).

Definition copy_spooled_body (spool : bytes) (range : SpoolRange) : res OperationError bytes :=
  _ ← fail_if (sr_size range =? 0) Op_InvalidKernel;
  _ ← fail_if (len spool <? sr_offset range + sr_size range) Op_ReadSource;
  let content := slice spool (sr_offset range) (sr_size range) in
  _ ← validate_bzimage_signature (take (Z.to_nat MIN_BZIMAGE_LEN) content);
  Ok content.
(** At the trailer; [None] is [WalkOutcome::NotFound]. *)
Definition walk_end (w : walk) : res OperationError (option bytes) :=
  _ ← fail_if (wk_invalid_type w) Op_InvalidKernel;
  match wk_body w with
  | Some body => Some <$> copy_spooled_body (wk_spool w) body
  | None => _ ← fail_if (wk_seen w) Op_InvalidKernel; Ok None
  end.
Fixpoint walk_cpio (requested : bytes) (steps : list newc_step) (w : walk) : res OperationError (option bytes) :=
  match steps with
  | [] => Panic
  | step :: steps =>
      _ ← fail_if (st_cancelled step) Op_Cancelled;
      match st_read step with
      | Newc_error => Err Op_InvalidCpio
      | Newc_trailer drained extra => _ ← read_trailer drained extra; walk_end w
      | Newc_entry entry => w ← walk_entry requested w entry; walk_cpio requested steps w
      end
  end.

Section Operations.
Context (blake3 : bytes -> bytes) (is_absolute : bytes -> bool) (untar : bytes -> list (option TarEntry)).

Definition digest_of_content (content : bytes) : FileDigest := {| file_hash := blake3 content; fd_file_size := len content |}.
Definition validate_request_path (path : bytes) : res OperationError bytes :=
  _ ← fail_if (is_empty path) Op_UnsafePath;
  _ ← fail_if (is_absolute path) Op_UnsafePath;
  _ ← fail_if (has_drive_prefix path) Op_UnsafePath;
  normalize_path path.

Definition extract_kernel (path : bytes) (src : FileRef) (dst : LinkRef) (file : source_file) (cancelled : bool)
    : res OperationError (FileRef * bytes) :=
  _ ← is_cpio src;
  _ ← fail_if (bool_decide (lr_namespace dst <> NS_Kernel)) Op_UnsupportedArtifact;
  requested ← validate_request_path path;
  _ ← fail_if cancelled Op_Cancelled;
  _ ← verified src file;
  outcome ← walk_cpio requested (sf_steps file) walk_start;
  content ← ok_or outcome Op_KernelNotFound;
  Ok ({| fr_uuid := lr_uuid dst; fr_namespace := lr_namespace dst; fr_file_digest := digest_of_content content;
         artifact_type := FileBzImage; artifact_compression := AC_None |}, content).

(** ** Module extraction *)

Record ModuleEntry := {
  me_mode : Z; me_uid : Z; me_gid : Z; me_mtime : Z; me_nlink : Z; me_dev_major : Z; me_dev_minor : Z; me_ino : Z;
  me_rdev_major : Z; me_rdev_minor : Z; me_body : Body }.
Definition has_payload (e : ModuleEntry) : bool :=
  negb (Z.land (me_mode e) S_IFMT =? S_IFDIR) && match me_body e with Body_Empty => false | Body_Owned _ => true end.

Definition modules_root : bytes := str "lib/modules".
Definition is_module_path (path : bytes) : bool :=
  bool_decide (path = modules_root) || starts_with (modules_root ++ [p_slash]) path.
Definition is_kernel_tar (path : bytes) : bool :=
  match last (split_on p_slash path) with Some name => eq_ignore_ascii_case name (str "kernel.tar") | None => false end.

Definition body_to_cpio_body (mode : Z) (body : bytes) : Body :=
  if Z.land mode S_IFMT =? S_IFDIR then Body_Empty
  else if (Z.land mode S_IFMT =? S_IFLNK) || (Z.land mode S_IFMT =? S_IFREG) then Body_Owned body
  else Body_Empty.
Definition read_cpio_body (entry : NewcEntry) : res OperationError bytes :=
  _ ← fail_if (MAX_IN_MEMORY_ENTRY_BYTES <? ne_file_size entry) Op_InvalidCpio;
  _ ← fail_if (negb (len (declared_body entry) =? ne_file_size entry)) Op_InvalidCpio;
  Ok (declared_body entry).

Definition nested_type_bits (t : EntryType) : res OperationError Z :=
  match t with
  | Tar_Directory => Ok S_IFDIR
  | Tar_Symlink => Ok S_IFLNK
  | Tar_Regular | Tar_Continuous | Tar_Link => Ok S_IFREG
  | Tar_Char => Ok 8192
  | Tar_Block => Ok 24576
  | Tar_Fifo => Ok 4096
  | Tar_XGlobalHeader | Tar_XHeader | Tar_Other _ => Err Op_UnsupportedArtifact
  end.
Definition nested_body (e : TarEntry) : res OperationError Body :=
  match te_type e with
  | Tar_Symlink => target ← ok_or (te_link e) Op_InvalidTar; Ok (Body_Owned target)
  | Tar_Directory | Tar_Char | Tar_Block | Tar_Fifo => Ok Body_Empty
  | _ => Ok (Body_Owned (te_body e))
  end.
Definition nested_entry (entries : btree bytes ModuleEntry) (entry : option TarEntry) : res OperationError (btree bytes ModuleEntry) :=
  e ← ok_or entry Op_InvalidTar;
  raw_path ← from_utf8 (te_path e);
  path ← normalize_path raw_path;
  mode ← ok_or (te_mode e) Op_InvalidTar;
  uid ← newc_field (te_uid e);
  gid ← newc_field (te_gid e);
  mtime ← newc_field (te_mtime e);
  dev_major ← device_field e (te_dev_major e);
  dev_minor ← device_field e (te_dev_minor e);
  _ ← fail_if (MAX_IN_MEMORY_ENTRY_BYTES <? te_size e) Op_InvalidCpio;
  _ ← fail_if (te_broken e) Op_InvalidTar;
  if negb (is_module_path path) then Ok entries else
  bits ← nested_type_bits (te_type e);
  body ← nested_body e;
  Ok (bt_insert path
        {| me_mode := Z.lor (Z.land mode 4095) bits; me_uid := uid; me_gid := gid; me_mtime := mtime; me_nlink := 1;
           me_dev_major := default 0 dev_major; me_dev_minor := default 0 dev_minor; me_ino := 0;
           me_rdev_major := default 0 dev_major; me_rdev_minor := default 0 dev_minor; me_body := body |} entries).
Definition extract_nested_tar (tar : bytes) (entries : btree bytes ModuleEntry) : res OperationError (btree bytes ModuleEntry) :=
  for_each nested_entry (untar tar) entries.

Definition module_entry (entries : btree bytes ModuleEntry) (entry : NewcEntry) : res OperationError (btree bytes ModuleEntry) :=
  normalized ← normalize_path (ne_name entry);
  if is_kernel_tar normalized then extract_nested_tar (declared_body entry) entries
  else if is_module_path normalized then
    body ← read_cpio_body entry;
    Ok (bt_insert normalized
          {| me_mode := ne_mode entry; me_uid := ne_uid entry; me_gid := ne_gid entry; me_mtime := ne_mtime entry;
             me_nlink := ne_nlink entry; me_dev_major := ne_dev_major entry; me_dev_minor := ne_dev_minor entry;
             me_ino := ne_ino entry; me_rdev_major := ne_rdev_major entry; me_rdev_minor := ne_rdev_minor entry;
             me_body := body_to_cpio_body (ne_mode entry) body |} entries)
  else _ ← drain_body entry; Ok entries.
Fixpoint read_source_cpio (steps : list newc_step) (entries : btree bytes ModuleEntry) : res OperationError (btree bytes ModuleEntry) :=
  match steps with
  | [] => Panic
  | step :: steps =>
      _ ← fail_if (st_cancelled step) Op_Cancelled;
      match st_read step with
      | Newc_error => Err Op_InvalidCpio
      | Newc_trailer drained extra => _ ← read_trailer drained extra; Ok entries
      | Newc_entry entry =>
          entries ← module_entry entries entry;
          _ ← finish_reader (ne_finish entry);
          read_source_cpio steps entries
      end
  end.

Definition module_record (name : bytes) (e : ModuleEntry) : Record_ := {|
  rec_name := name; rec_mode := me_mode e; rec_uid := me_uid e; rec_gid := me_gid e; rec_mtime := me_mtime e;
  rec_nlink := Z.max (me_nlink e) 1; rec_dev_major := me_dev_major e; rec_dev_minor := me_dev_minor e; rec_ino := me_ino e;
  rec_rdev_major := me_rdev_major e; rec_rdev_minor := me_rdev_minor e; rec_body := me_body e |}.
Fixpoint write_modules (entries : btree bytes ModuleEntry) (cancelled : list bool) : res OperationError bytes :=
  match entries with
  | [] => Ok []
  | (name, e) :: entries =>
      _ ← fail_if (default false (head cancelled)) Op_Cancelled;
      out ← write_entry (module_record name e);
      rest ← write_modules entries (tail cancelled);
      Ok (out ++ rest)
  end.

(** [late]: the cancellation checks of the writing loop. *)
Definition extract_modules (src : FileRef) (dst : LinkRef) (file : source_file) (cancelled : bool) (late : list bool)
    : res OperationError (option (FileRef * bytes)) :=
  _ ← is_cpio src;
  _ ← fail_if (bool_decide (lr_namespace dst <> NS_Modules)) Op_UnsupportedArtifact;
  _ ← fail_if cancelled Op_Cancelled;
  _ ← verified src file;
  entries ← read_source_cpio (sf_steps file) [];
  if negb (existsb (has_payload ∘ snd) entries) then Ok None else
  body ← write_modules entries late;
  trailer ← write_trailer;
  let content := body ++ trailer in
  Ok (Some ({| fr_uuid := lr_uuid dst; fr_namespace := NS_Modules; fr_file_digest := digest_of_content content;
               artifact_type := ContainerCpio; artifact_compression := AC_None |}, content)).
End Operations.

(** ** The kernel an archive holds under a name *)

Definition regular (e : NewcEntry) : bool := file_type e =? S_IFREG.
Definition has_body (e : NewcEntry) : bool := regular e && (0 <? ne_file_size e).
Definition has_name (requested : bytes) (e : NewcEntry) : bool :=
  match normalize_path (ne_name e) with Ok n => bool_decide (n = requested) | _ => false end.
Definition named (requested : bytes) (es : list NewcEntry) : list NewcEntry := filter (fun e => has_name requested e = true) es.
(** The first body of a hard-link group. *)
Definition shared_body (es : list NewcEntry) (identity : Z * Z) : option bytes :=
  declared_body <$> (snd <$> list_find (fun e => has_body e = true /\ entry_identity e = identity) es).
(** The body of the last entry of [ns], or of its group in [es]. *)
Definition last_body (ns es : list NewcEntry) : option bytes :=
  e ← last ns;
  if has_body e then Some (declared_body e) else shared_body es (entry_identity e).
Definition body_named (requested : bytes) (es : list NewcEntry) : option bytes := last_body (named requested es) es.
Definition kernel_of (requested : bytes) (es : list NewcEntry) : res OperationError (option bytes) :=
  if existsb (negb ∘ regular) (named requested es) then Err Op_InvalidKernel
  else match body_named requested es with
       | Some b => _ ← validate_bzimage_signature b; Ok (Some b)
       | None => if is_empty (named requested es) then Ok None else Err Op_InvalidKernel
       end.

(** What the walk needs of an entry: a safe name, a whole body, padding. *)
Definition complete (e : NewcEntry) : Prop :=
  is_ok (normalize_path (ne_name e)) = true /\ 0 <= ne_file_size e /\ (has_body e = true -> ne_file_size e <= len (ne_body e)) /\ ne_finish e = true.
Definition whole_archive (es : list NewcEntry) : list newc_step :=
  ((fun e => {| st_cancelled := false; st_read := Newc_entry e |}) <$> es)
  ++ [{| st_cancelled := false; st_read := Newc_trailer true (Some false) |}].

Definition at_range (spool : bytes) (r : SpoolRange) : bytes := slice spool (sr_offset r) (sr_size r).
Definition in_spool (spool : bytes) (r : SpoolRange) : Prop := 0 <= sr_offset r /\ 0 < sr_size r /\ sr_offset r + sr_size r <= len spool.

Lemma at_range_app spool more r : in_spool spool r -> at_range (spool ++ more) r = at_range spool r.
Proof.
  intros (H0 & H1 & H2). unfold at_range, slice. unfold len in H2. rewrite drop_app_le by lia.
  rewrite take_app_le; [done|]. rewrite length_drop. lia.
Qed.
Lemma in_spool_app spool more r : in_spool spool r -> in_spool (spool ++ more) r.
Proof. unfold in_spool. rewrite len_app. pose proof (len_nonneg more). lia. Qed.

(** The walk after the entries [es], of which [ns] have the requested name. *)
Record walked (ns es : list NewcEntry) (w : walk) : Prop := {
  wd_bodies id : (at_range (wk_spool w) <$> wk_bodies w !! id) = shared_body es id;
  wd_ranges id r : wk_bodies w !! id = Some r -> in_spool (wk_spool w) r;
  wd_range r : wk_body w = Some r -> in_spool (wk_spool w) r;
  wd_seen : wk_seen w = negb (is_empty ns);
  wd_invalid : wk_invalid_type w = existsb (negb ∘ regular) ns;
  wd_identity : wk_identity w = entry_identity <$> last ns;
  wd_body : wk_invalid_type w = false -> (at_range (wk_spool w) <$> wk_body w) = last_body ns es;
}.

Lemma shared_body_snoc pre e ident :
  shared_body (pre ++ [e]) ident =
  match shared_body pre ident with
  | Some b => Some b
  | None => if has_body e && bool_decide (entry_identity e = ident) then Some (declared_body e) else None
  end.
Proof.
  unfold shared_body. induction pre as [|x pre IH]; cbn [app list_find].
  - destruct (has_body e), (bool_decide_reflect (entry_identity e = ident)) as [E|E]; cbn;
      [rewrite decide_True by done|rewrite decide_False by naive_solver..]; done.
  - destruct (decide (has_body x = true /\ entry_identity x = ident)); [done|].
    assert (forall o : option (nat * NewcEntry), snd <$> (prod_map S id <$> o) = snd <$> o) as E by (by intros [[i a]|]).
    by rewrite !E.
Qed.
Lemma named_snoc requested pre e : named requested (pre ++ [e]) = named requested pre ++ (if has_name requested e then [e] else []).
Proof. unfold named. rewrite filter_app, filter_cons, filter_nil. by destruct (has_name requested e). Qed.

(** Spooling appends the declared body, for entries that have one. *)
Lemma spool_body_ok spool e : complete e ->
  spool_body spool e = Ok (if has_body e then (Some {| sr_offset := len spool; sr_size := ne_file_size e |}, spool ++ declared_body e)
                           else (None, spool)).
Proof.
  intros (_ & Hs & Hb & _). unfold spool_body, has_body, regular in *.
  destruct ((file_type e =? S_IFREG) && (0 <? ne_file_size e)) eqn:E; [|done].
  unfold append_body. rewrite (proj2 (Z.ltb_ge _ _)) by auto. done.
Qed.
Lemma spooled_range spool e : complete e -> has_body e = true ->
  let r := {| sr_offset := len spool; sr_size := ne_file_size e |} in
  in_spool (spool ++ declared_body e) r /\ at_range (spool ++ declared_body e) r = declared_body e.
Proof.
  intros (_ & Hs & Hb & _) He. specialize (Hb He). unfold has_body in He. apply andb_true_iff in He as [_ He%Z.ltb_lt].
  assert (len (declared_body e) = ne_file_size e) as Hl by (unfold declared_body, len in *; rewrite length_take; lia).
  split.
  - unfold in_spool. cbn. rewrite len_app, Hl. pose proof (len_nonneg spool). lia.
  - unfold at_range, slice. cbn. unfold len. rewrite Nat2Z.id, drop_app_length. apply take_ge. unfold len in Hl. lia.
Qed.

(** The range and the spool after [e]. *)
Definition body_range (spool : bytes) (e : NewcEntry) : option SpoolRange :=
  if has_body e then Some {| sr_offset := len spool; sr_size := ne_file_size e |} else None.
Definition spool_after (spool : bytes) (e : NewcEntry) : bytes := if has_body e then spool ++ declared_body e else spool.
Definition set_spool (w : walk) (spool : bytes) : walk :=
  {| wk_spool := spool; wk_bodies := wk_bodies w; wk_identity := wk_identity w; wk_body := wk_body w;
     wk_seen := wk_seen w; wk_invalid_type := wk_invalid_type w |}.

Lemma spool_grows spool e r : in_spool spool r ->
  in_spool (spool_after spool e) r /\ at_range (spool_after spool e) r = at_range spool r.
Proof. unfold spool_after. destruct (has_body e); [|done]. split; [by apply in_spool_app|by apply at_range_app]. Qed.

Lemma note_body_walked ns es w e : walked ns es w -> complete e ->
  walked ns (es ++ [e]) (note_body (set_spool w (spool_after (wk_spool w) e)) (entry_identity e) (body_range (wk_spool w) e)).
Proof.
  intros [Hb Hr Hr2 Hs Hi Hid Hbody] He.
  assert (forall id, at_range (spool_after (wk_spool w) e) <$> wk_bodies w !! id = shared_body es id) as Hb'.
  { intros id. rewrite <-Hb. destruct (wk_bodies w !! id) as [r|] eqn:E; [|done]. cbn. f_equal. by apply spool_grows, (Hr id). }
  assert (at_range (spool_after (wk_spool w) e) <$> wk_body w = at_range (wk_spool w) <$> wk_body w) as Hbody'.
  { destruct (wk_body w) as [r|] eqn:E; [|done]. cbn. f_equal. by apply spool_grows, Hr2. }
  unfold body_range. destruct (has_body e) eqn:Eh; cbn [note_body].
  - destruct (spooled_range (wk_spool w) e He Eh) as [Hin Hat].
    assert (spool_after (wk_spool w) e = wk_spool w ++ declared_body e) as Ea by (unfold spool_after; by rewrite Eh).
    split; cbn [set_spool wk_spool wk_bodies wk_identity wk_body wk_seen wk_invalid_type]; [..|done|done|done|].
    + intros id. rewrite shared_body_snoc, <-Hb', Eh. cbn [andb].
      destruct (decide (entry_identity e = id)) as [->|Hne].
      * rewrite bool_decide_eq_true_2 by done. destruct (wk_bodies w !! id) as [r|] eqn:E; [by rewrite E|].
        rewrite lookup_insert_eq. cbn. by rewrite Ea, Hat.
      * rewrite bool_decide_eq_false_2 by done.
        assert (match wk_bodies w !! entry_identity e with Some _ => wk_bodies w | None => <[entry_identity e:=_]> (wk_bodies w) end !! id = wk_bodies w !! id) as ->
          by (destruct (wk_bodies w !! entry_identity e); [done|by rewrite lookup_insert_ne]).
        by destruct (wk_bodies w !! id).
    + intros id r. destruct (wk_bodies w !! entry_identity e) eqn:E; [intros Hx; by apply spool_grows, (Hr id)|].
      rewrite lookup_insert_Some. intros [[<- <-]|[_ Hx]]; [by rewrite Ea|by apply spool_grows, (Hr id)].
    + intros r. destruct (bool_decide _ && bool_decide _); [intros [= <-]; by rewrite Ea|intros Hx; by apply spool_grows, Hr2].
    + intros Hv. specialize (Hbody Hv). unfold last_body in *. rewrite Hid. destruct (last ns) as [l|] eqn:El; cbn in *.
      * rewrite shared_body_snoc, Eh. cbn [andb].
        destruct (wk_body w) as [r|]; [rewrite (bool_decide_eq_false_2 (Some r = None)), andb_false_r by done; cbn in *; rewrite Hbody';
          destruct (has_body l); [done|by rewrite <-Hbody]|].
        rewrite (bool_decide_eq_true_2 (None = None)), andb_true_r by done. destruct (has_body l); [done|]. rewrite <-Hbody.
        destruct (decide (entry_identity e = entry_identity l)) as [->|Hne].
        -- rewrite !bool_decide_eq_true_2 by done. cbn. by rewrite Ea, Hat.
        -- rewrite !bool_decide_eq_false_2 by congruence. done.
      * rewrite bool_decide_eq_false_2 by done. cbn. by rewrite Hbody'.
  - split; cbn [set_spool wk_spool wk_bodies wk_identity wk_body wk_seen wk_invalid_type]; [..|done|done|done|].
    + intros id. rewrite shared_body_snoc, Eh, Hb'. by destruct (shared_body es id).
    + intros id r Hx. by apply spool_grows, (Hr id).
    + intros r Hx. by apply spool_grows, Hr2.
    + intros Hv. rewrite Hbody', (Hbody Hv). unfold last_body. destruct (last ns) as [l|]; [|done]. cbn.
      rewrite shared_body_snoc, Eh. destruct (has_body l); [done|]. by destruct (shared_body es _).
Qed.

Lemma note_requested_walked ns es w e spool :
  walked ns es w -> complete e -> wk_spool w = spool_after spool e ->
  walked (ns ++ [e]) es (note_requested w e (body_range spool e)).
Proof.
  intros [Hb Hr Hr2 Hs Hi Hid Hbody] He Hsp. unfold note_requested. change (file_type e =? S_IFREG) with (regular e).
  split; cbn [wk_spool wk_bodies wk_identity wk_body wk_seen wk_invalid_type].
  - done.
  - done.
  - intros r. destruct (regular e); [|apply Hr2]. unfold or_else, body_range. destruct (has_body e) eqn:Eh; [|by apply Hr].
    intros [= <-]. rewrite Hsp. unfold spool_after. rewrite Eh. by apply spooled_range.
  - by destruct ns.
  - rewrite existsb_app, Hi. cbn. destruct (regular e); cbn; [by rewrite orb_false_r|by rewrite orb_true_r].
  - by rewrite last_snoc.
  - unfold last_body. rewrite last_snoc. cbn. destruct (regular e) eqn:Ere; [|done]. intros _.
    unfold or_else, body_range. destruct (has_body e) eqn:Eh; [|by rewrite Hb].
    cbn. f_equal. rewrite Hsp. unfold spool_after. rewrite Eh. by apply spooled_range.
Qed.

Lemma walk_entry_walked requested es w e :
  walked (named requested es) es w -> complete e ->
  exists w', walk_entry requested w e = Ok w' /\ walked (named requested (es ++ [e])) (es ++ [e]) w'.
Proof.
  intros Hw He. unfold walk_entry. pose proof He as (Hn & _ & _ & Hf).
  destruct (normalize_path (ne_name e)) as [n| |] eqn:En; [|done..]. cbn [mbind res_bind].
  rewrite spool_body_ok, Hf by done.
  assert (has_name requested e = bool_decide (n = requested)) as Hname by (unfold has_name; by rewrite En).
  pose proof (note_body_walked _ _ _ _ Hw He) as H1. eexists. split.
  - instantiate (1 := if bool_decide (n = requested)
      then note_requested (note_body (set_spool w (spool_after (wk_spool w) e)) (entry_identity e) (body_range (wk_spool w) e)) e (body_range (wk_spool w) e)
      else note_body (set_spool w (spool_after (wk_spool w) e)) (entry_identity e) (body_range (wk_spool w) e)).
    unfold body_range, spool_after. by destruct (has_body e).
  - rewrite named_snoc, Hname. destruct (bool_decide (n = requested)); [|by rewrite app_nil_r].
    eapply note_requested_walked; [done|done|]. unfold body_range. by destruct (has_body e).
Qed.

Lemma slice_take (b : bytes) (n offset size : Z) : 0 <= offset -> 0 <= size -> offset + size <= n ->
  slice (take (Z.to_nat n) b) offset size = slice b offset size.
Proof. intros H0 H1 H2. unfold slice. rewrite !take_drop_commute, take_take. do 2 f_equal. lia. Qed.

(** The buffered prefix decides the signature. *)
Lemma signature_prefix b : validate_bzimage_signature (take (Z.to_nat MIN_BZIMAGE_LEN) b) = validate_bzimage_signature b.
Proof.
  unfold validate_bzimage_signature. rewrite !slice_take by (unfold MIN_BZIMAGE_LEN, BOOT_FLAG_OFFSET, HDRS_OFFSET; lia).
  assert ((len (take (Z.to_nat MIN_BZIMAGE_LEN) b) <? MIN_BZIMAGE_LEN) = (len b <? MIN_BZIMAGE_LEN)) as ->; [|done].
  unfold len. rewrite length_take. unfold MIN_BZIMAGE_LEN. destruct (Z.ltb_spec (Z.of_nat (length b)) 518); [apply Z.ltb_lt|apply Z.ltb_ge]; lia.
Qed.

Lemma copy_spooled_exact spool r : in_spool spool r ->
  copy_spooled_body spool r = (_ ← validate_bzimage_signature (at_range spool r); Ok (at_range spool r)).
Proof.
  intros (H0 & H1 & H2). unfold copy_spooled_body. rewrite (proj2 (Z.eqb_neq _ _)), (proj2 (Z.ltb_ge _ _)) by lia.
  cbn [fail_if mbind res_bind]. by rewrite signature_prefix.
Qed.

Lemma walk_end_exact requested es w : walked (named requested es) es w -> walk_end w = kernel_of requested es.
Proof.
  intros [_ _ Hr2 Hs Hi _ Hbody]. unfold walk_end, kernel_of. rewrite <-Hi. destruct (wk_invalid_type w); [done|].
  cbn [fail_if mbind res_bind]. unfold body_named. rewrite <-Hbody by done. rewrite Hs.
  destruct (wk_body w) as [r|]; cbn; [|by destruct (is_empty _)].
  rewrite copy_spooled_exact by (by apply Hr2). by destruct (validate_bzimage_signature _).
Qed.

Lemma walk_exact requested suf es w :
  walked (named requested es) es w -> Forall complete suf ->
  walk_cpio requested (whole_archive suf) w = kernel_of requested (es ++ suf).
Proof.
  revert es w. induction suf as [|e suf IH]; intros es w Hw Hc.
  { rewrite app_nil_r. cbn. by apply walk_end_exact. }
  apply Forall_cons in Hc as [He Hc]. destruct (walk_entry_walked requested es w e Hw He) as (w' & Ew & Hw').
  cbn [whole_archive fmap list_fmap app walk_cpio st_cancelled st_read fail_if mbind res_bind]. rewrite Ew. cbn [mbind res_bind].
  replace (es ++ e :: suf) with ((es ++ [e]) ++ suf) by (by rewrite <-app_assoc). by apply IH.
Qed.

Lemma walked_start requested : walked (named requested []) [] walk_start.
Proof. by split. Qed.

(** C27: Kernel extraction is exact.  From a verified, structurally complete
    archive the operation returns the bytes stored under the requested name
    (those of its last entry, or, when that is an empty member of a hard-link
    group, the group's first body, wherever it is in the archive) if they carry
    the boot flag and the header magic; it reports a missing name, a name that
    is not a regular file, and a body that is absent or no boot image. *)
Theorem kernel_extraction_exact (blake3 : bytes -> bytes) (is_absolute : bytes -> bool) (path requested : bytes)
    (src : FileRef) (dst : LinkRef) (es : list NewcEntry) :
  artifact_type src = ContainerCpio -> artifact_compression src = AC_None -> lr_namespace dst = NS_Kernel ->
  validate_request_path is_absolute path = Ok requested -> Forall complete es ->
  extract_kernel blake3 is_absolute path src dst {| sf_digest := Some (fr_file_digest src); sf_steps := whole_archive es |} false
  = (found ← kernel_of requested es;
     content ← ok_or found Op_KernelNotFound;
     Ok ({| fr_uuid := lr_uuid dst; fr_namespace := NS_Kernel; fr_file_digest := digest_of_content blake3 content;
            artifact_type := FileBzImage; artifact_compression := AC_None |}, content)).
Proof.
  intros Ht Hc Hn Hp He. unfold extract_kernel, is_cpio, verified. rewrite Ht, Hc, Hn, Hp.
  rewrite !bool_decide_eq_false_2 by naive_solver. cbn [fail_if mbind res_bind ok_or sf_digest sf_steps].
  rewrite bool_decide_eq_false_2 by naive_solver. cbn [fail_if mbind res_bind].
  by rewrite (walk_exact requested es [] walk_start (walked_start requested) He).
Qed.

(** ** The module archive *)

Definition module_names (m : btree bytes ModuleEntry) : Prop :=
  bt_wf m /\ Forall (fun k => is_module_path k = true /\ normal_path k) (bt_keys m).

Lemma module_path_normal raw n : normalize_path raw = Ok n -> is_module_path n = true -> normal_path n.
Proof. intros [->|H]%normalize_path_inv; [done|done]. Qed.

Lemma module_insert m raw n e :
  module_names m -> normalize_path raw = Ok n -> is_module_path n = true -> module_names (bt_insert n e m).
Proof.
  intros [Hwf Hk] Hn Hm. split; [by apply bt_wf_insert|]. apply Forall_forall. intros k [v Hv]%bt_keys_get.
  rewrite bt_get_insert in Hv by done. case_decide as E; [subst k; split; [done|by eapply module_path_normal]|].
  rewrite Forall_forall in Hk. apply Hk, bt_keys_get. eauto.
Qed.

Section Modules.
Context (blake3 : bytes -> bytes) (untar : bytes -> list (option TarEntry)).

Lemma nested_entry_names m e m' : module_names m -> nested_entry m e = Ok m' -> module_names m'.
Proof.
  intros Hm H. unfold nested_entry in H. apply bind_ok_iff in H as (x & _ & (raw & _ & (n & Hn & H)%bind_ok_iff)%bind_ok_iff).
  do 8 (apply bind_ok_iff in H as (? & _ & H)). destruct (is_module_path n) eqn:Em; [|by injection H as <-].
  apply bind_ok_iff in H as (bits & _ & (b & _ & [= <-])%bind_ok_iff). by eapply module_insert.
Qed.
Lemma nested_names es m m' : module_names m -> for_each nested_entry es m = Ok m' -> module_names m'.
Proof.
  revert m. induction es as [|e es IH]; intros m Hm H; cbn in H; [by injection H as <-|].
  apply bind_ok_iff in H as (m1 & H1 & H). eapply IH; [|exact H]. by eapply nested_entry_names.
Qed.
Lemma module_entry_names m e m' : module_names m -> module_entry untar m e = Ok m' -> module_names m'.
Proof.
  intros Hm (n & Hn & H)%bind_ok_iff. destruct (is_kernel_tar n); [by eapply nested_names|].
  destruct (is_module_path n) eqn:Em.
  - apply bind_ok_iff in H as (b & _ & [= <-]). by eapply module_insert.
  - by apply bind_ok_iff in H as (u & _ & [= <-]).
Qed.
Lemma read_source_names steps m m' : module_names m -> read_source_cpio untar steps m = Ok m' -> module_names m'.
Proof.
  revert m. induction steps as [|step steps IH]; intros m Hm H; [done|]. cbn [read_source_cpio] in H.
  apply bind_ok_iff in H as (u & _ & H). destruct (st_read step) as [|drained extra|e]; [done|..].
  - by apply bind_ok_iff in H as (v & _ & [= <-]).
  - apply bind_ok_iff in H as (m1 & H1 & (v & _ & H)%bind_ok_iff). eapply IH; [|exact H]. by eapply module_entry_names.
Qed.

Lemma write_modules_records m late out : write_modules m late = Ok out ->
  exists recs, out = concat recs /\ Forall2 (fun e r => write_entry (module_record (fst e) (snd e)) = Ok r) m recs.
Proof.
  revert late out. induction m as [|[n e] m IH]; intros late out H; cbn in H; [injection H as <-; exists []; by split|].
  apply bind_ok_iff in H as (u & _ & (o & Ho & (rest & Hr & [= <-])%bind_ok_iff)%bind_ok_iff).
  apply IH in Hr as (recs & -> & Hf). exists (o :: recs). by split; [|constructor].
Qed.

(** The module archive holds only names below [lib/modules], sorted and each
    once, as one padded record each before the trailer, and at least one
    payload; otherwise nothing is written. *)
Lemma module_archive_confined src dst file late f content :
  extract_modules blake3 untar src dst file false late = Ok (Some (f, content)) ->
  exists m recs trailer,
    read_source_cpio untar (sf_steps file) [] = Ok m
    /\ Forall2 (fun e r => write_entry (module_record (fst e) (snd e)) = Ok r) m recs
    /\ write_trailer = Ok trailer /\ content = concat recs ++ trailer
    /\ StronglySorted (fun a b => key_ltb a b = true) (bt_keys m)
    /\ Forall (fun k => is_module_path k = true /\ normal_path k) (bt_keys m)
    /\ existsb (has_payload ∘ snd) m = true
    /\ artifact_type f = ContainerCpio /\ artifact_compression f = AC_None.
Proof.
  intros H. unfold extract_modules in H. do 4 (apply bind_ok_iff in H as (? & _ & H)).
  apply bind_ok_iff in H as (m & Hm & H). destruct (existsb (has_payload ∘ snd) m) eqn:Ep; [|done].
  apply bind_ok_iff in H as (body & Hb & (trailer & Ht & [= <- <-])%bind_ok_iff).
  apply write_modules_records in Hb as (recs & -> & Hf).
  destruct (read_source_names _ [] m (conj bt_wf_nil (Forall_nil_2 _)) Hm) as [Hwf Hk].
  exists m, recs, trailer. split_and!; try done. by apply bt_keys_sorted.
Qed.
End Modules.

(** A validated archive is a sequence of complete entries and one trailer. *)
Lemma validated_archive entry file :
  validate_cpio_file entry file false = Ok tt ->
  sf_digest file = Some (fr_file_digest entry)
  /\ exists es rest, Forall (fun e => ne_file_size e <= len (ne_body e) /\ ne_finish e = true) es
     /\ sf_steps file = ((fun e => {| st_cancelled := false; st_read := Newc_entry e |}) <$> es)
                        ++ {| st_cancelled := false; st_read := Newc_trailer true (Some false) |} :: rest.
Proof.
  intros ([] & _ & ([] & _ & ([] & (actual & Ha & Hd)%bind_ok_iff & H)%bind_ok_iff)%bind_ok_iff)%bind_ok_iff.
  apply fail_if_ok, bool_decide_eq_false, dec_stable in Hd. subst actual.
  destruct (sf_digest file); [|done]. injection Ha as ->. split; [done|].
  induction (sf_steps file) as [|[c r] steps IH]; [done|]. cbn [validate_steps] in H.
  apply bind_ok_iff in H as ([] & Hc%fail_if_ok & H). cbn in Hc, H. subst c. destruct r as [|drained extra|e]; [done|..].
  - apply bind_ok_iff in H as ([] & Hf%fail_if_ok & H). destruct drained; [|done]. destruct extra as [[]|]; [done| |done].
    exists [], steps. by split.
  - apply bind_ok_iff in H as ([] & Hb%fail_if_ok & ([] & Hf%fail_if_ok & H)%bind_ok_iff).
    destruct (IH H) as (es & rest & He & ->). exists (e :: es), rest. split; [|done].
    constructor; [|done]. split; [lia|by destruct (ne_finish e)].
Qed.

(** ** Concrete archives *)

Module ExtractExample.
Definition entry (name : bytes) (mode dev ino : Z) (body : bytes) : NewcEntry := {|
  ne_name := name; ne_mode := mode; ne_uid := 0; ne_gid := 0; ne_mtime := 0; ne_nlink := 1; ne_dev_major := dev; ne_dev_minor := 0;
  ne_ino := ino; ne_rdev_major := 0; ne_rdev_minor := 0; ne_file_size := len body; ne_body := body; ne_finish := true |}.
Definition image : bytes := replicate 510 (z2b 0) ++ BOOT_FLAG ++ [z2b 0; z2b 0] ++ HDRS_MAGIC.
Definition source : FileRef := {|
  fr_uuid := []; fr_namespace := NS_Kernel; fr_file_digest := {| file_hash := []; fd_file_size := 9 |};
  artifact_type := ContainerCpio; artifact_compression := AC_None |}.
Definition target : LinkRef := {| lr_uuid := []; lr_namespace := NS_Kernel; lr_link_digest := {| link_hash := []; ld_file_size := 9 |} |}.
Definition rooted (path : bytes) : bool := starts_with [p_slash] path.

(** The requested name is an empty link; the body comes later under another. *)
Definition linked_kernel : list NewcEntry := [
  entry (str "boot") 16877 1 1 []; entry (str "boot/vmlinuz") 33188 1 7 []; entry (str "boot/vmlinuz-6.12") 33188 1 7 image].

Lemma kernel_extraction_exact_witness :
  extract_kernel (fun b => b) rooted (str "./boot/vmlinuz") source target
    {| sf_digest := Some (fr_file_digest source); sf_steps := whole_archive linked_kernel |} false
  = Ok ({| fr_uuid := []; fr_namespace := NS_Kernel; fr_file_digest := digest_of_content (fun b => b) image;
           artifact_type := FileBzImage; artifact_compression := AC_None |}, image).
Proof.
  rewrite (kernel_extraction_exact (fun b => b) rooted (str "./boot/vmlinuz") (str "boot/vmlinuz") source target linked_kernel).
  - vm_compute. reflexivity.
  - reflexivity.
  - reflexivity.
  - reflexivity.
  - vm_compute. reflexivity.
  - repeat constructor; vm_compute; discriminate.
Defined.

(** Without links, an empty file takes the body of any file that has the same
    device and inode fields, here both zero. *)
Example unlinked_file_shares_body :
  kernel_of (str "kernel") [entry (str "other") 33188 0 0 image; entry (str "kernel") 33188 0 0 []] = Ok (Some image).
Proof. vm_compute. reflexivity. Qed.

(** A hard-linked module of a nested archive is written out as an empty file. *)
Definition nested : list (option TarEntry) := [
  Some (TarExample.entry (str "lib/modules/6.12/a.ko") Tar_Regular None (str "ELF"));
  Some (TarExample.entry (str "lib/modules/6.12/b.ko") Tar_Link (Some (str "lib/modules/6.12/a.ko")) [])].
Example nested_link_emptied :
  exists m, extract_nested_tar (fun _ => nested) [] [] = Ok m
    /\ (me_body <$> bt_get (str "lib/modules/6.12/b.ko") m) = Some (Body_Owned [])
    /\ (me_nlink <$> bt_get (str "lib/modules/6.12/b.ko") m) = Some 1
    /\ existsb (has_payload ∘ snd) (bt_remove (str "lib/modules/6.12/a.ko") m) = true.
Proof. eexists. split; [vm_compute; reflexivity|]. vm_compute. done. Qed.
End ExtractExample.
