(* ===== verification/Overlay.v ===== *)
(** * Boot image assembly

    [libs/boot-image/src/overlay.rs] and [assembly.rs]: guest paths and overlay
    entries, the overlay archive, its merge with the base root file system, and
    the derived cache that remembers merged images.

    Files of the cache are a map from key to content and completion records a
    map from key to record; [serde_json] is the class [Serde], the [cpio] crate
    [NewcCrate].  Paths are UTF-8 already ([GuestOverlayEntry] holds strings). *)

From Stdlib Require Import ZArith Lia Ascii Sorted.
From stdpp Require Import base tactics option list numbers strings gmap sets.
From S2P Require Import Prelude Bytes Text BTree AuthProof Cpio Guid Newc HcsJournal KernelSpec KernelRequest HcsExample.

Inductive GuestPathReason :=
  | NonRepresentable | GP_NulByte | WindowsPrefix | ParentTraversal | EmptyComponent | EmptyTerminalName | TooLong.
Inductive BootImageError :=
  | InvalidGuestPath (path : bytes) (reason : GuestPathReason)
  | InvalidHostPath (path : bytes)
  | DuplicateOverlayPath (path : bytes)
  | OverlayPathConflict (path conflict : bytes)
  | ReservedOverlayPath (path : bytes)
  | MissingOverlayPath (kind : bytes)
  | BI_Overlay
  | BI_Cache
  | BI_InitBuild
  | BI_Initrd.

(** ** Guest paths *)

Fixpoint trim_start_slashes (s : bytes) : bytes :=
  match s with b :: t => if is_byte p_slash b then trim_start_slashes t else s | [] => [] end.
Definition names_something (component : bytes) : bool := negb (is_empty component) && negb (bool_decide (component = dot)).
Definition is_ascii_alphabetic (b : byte) : bool := is_ascii_lowercase b || is_ascii_uppercase b.
Definition drive_like (component : bytes) : bool :=
  match component with a :: c :: _ => is_byte (chr ":") c && is_ascii_alphabetic a | _ => false end.

Fixpoint guest_components (shown : bytes) (raw_components components : list bytes) : res BootImageError (list bytes) :=
  match raw_components with
  | [] => Ok components
  | component :: rest =>
      _ ← fail_if (is_empty component) (InvalidGuestPath shown (if is_empty rest then EmptyTerminalName else EmptyComponent));
      _ ← fail_if (bool_decide (component = dotdot)) (InvalidGuestPath shown ParentTraversal);
      guest_components shown rest (if bool_decide (component = dot) then components else components ++ [component])
  end.

Definition GuestPath_parse (raw : bytes) : res BootImageError bytes :=
  _ ← fail_if (contains_byte Byte.x00 raw) (InvalidGuestPath raw GP_NulByte);
  let normalized := replace_byte p_backslash p_slash raw in
  _ ← fail_if (starts_with [p_slash; p_slash] normalized) (InvalidGuestPath raw WindowsPrefix);
  let without_leading_separators := trim_start_slashes normalized in
  _ ← fail_if (is_empty without_leading_separators) (InvalidGuestPath raw EmptyTerminalName);
  let raw_components := split_on p_slash without_leading_separators in
  let first_component := default [] (List.find names_something raw_components) in
  _ ← fail_if (drive_like first_component) (InvalidGuestPath raw WindowsPrefix);
  components ← guest_components raw raw_components [];
  _ ← fail_if (is_empty components) (InvalidGuestPath raw EmptyTerminalName);
  let canonical := join_with [p_slash] components in
  _ ← fail_if (U32_MAX <=? len canonical) (InvalidGuestPath raw TooLong);
  Ok canonical.

Definition display_path (path : bytes) : bytes := p_slash :: path.
Definition init_name : bytes := str "init".
Definition is_reserved (path : bytes) : bool :=
  bool_decide (path = init_name) || starts_with (init_name ++ [p_slash]) path || bool_decide (path = TRAILER_NAME).

(** ** Overlay entries *)

Inductive OverlayEntryKind :=
  | Overlay_File (content : bytes) (mode : Z) (origin : bytes)
  | Overlay_Directory (mode : Z).
Record GuestOverlayEntry := { goe_path : bytes; goe_kind : OverlayEntryKind }.
Inductive EntryKind := Kind_File | Kind_Directory.
#[global] Instance EntryKind_eq_dec : EqDecision EntryKind.
Proof. solve_decision. Defined.
Definition kind_label (k : EntryKind) : bytes := match k with Kind_File => str "file" | Kind_Directory => str "directory" end.
Record ResolvedFile := { rf_path : bytes; rf_mode : Z; rf_data : bytes; rf_origin : bytes }.
Record ValidatedDir := { vd_path : bytes; vd_mode : Z }.

Definition register_overlay_path (entries : btree bytes EntryKind) (path : bytes) (kind : EntryKind)
    : res BootImageError (btree bytes EntryKind) :=
  _ ← fail_if (is_reserved path) (ReservedOverlayPath (display_path path));
  match bt_get path entries with
  | None => Ok (bt_insert path kind entries)
  | Some previous =>
      if bool_decide (previous = kind) then Err (DuplicateOverlayPath (display_path path))
      else Err (OverlayPathConflict (display_path path) (str "already registered as a " ++ kind_label previous))
  end.

Definition registration : Type := btree bytes EntryKind * list ResolvedFile * list ValidatedDir.
Definition register_entry (state : registration) (entry : GuestOverlayEntry) : res BootImageError registration :=
  let '(registry, files, dirs) := state in
  path ← GuestPath_parse (goe_path entry);
  match goe_kind entry with
  | Overlay_File content mode origin =>
      registry ← register_overlay_path registry path Kind_File;
      Ok (registry, files ++ [{| rf_path := path; rf_mode := mode; rf_data := content; rf_origin := origin |}], dirs)
  | Overlay_Directory mode =>
      registry ← register_overlay_path registry path Kind_Directory;
      Ok (registry, files, dirs ++ [{| vd_path := path; vd_mode := mode |}])
  end.

(** [while let Some(separator) = parent.rfind('/')]; the path gets shorter. *)
Fixpoint ancestors (fuel : nat) (path : bytes) : list bytes :=
  match fuel with
  | O => []
  | S fuel => match rsplit_once p_slash path with Some (parent, _) => parent :: ancestors fuel parent | None => [] end
  end.
Definition is_file (registry : btree bytes EntryKind) (path : bytes) : bool := bool_decide (bt_get path registry = Some Kind_File).
Definition check_ancestors (registry : btree bytes EntryKind) (path : bytes) : res BootImageError unit :=
  match List.find (is_file registry) (ancestors (length path) path) with
  | Some parent => Err (OverlayPathConflict (display_path path) (str "file ancestor /" ++ parent))
  | None => Ok tt
  end.

(** [sort_by] on paths. *)
Section Sort.
Context {A : Type} (key : A -> bytes).
Fixpoint insert_by_key (x : A) (l : list A) : list A :=
  match l with
  | [] => [x]
  | y :: l' => if key_ltb (key x) (key y) then x :: l else y :: insert_by_key x l'
  end.
Definition sort_by_key (l : list A) : list A := foldl (fun l x => insert_by_key x l) [] l.
End Sort.

Record ValidatedOverlay := { vo_files : list ResolvedFile; vo_dirs : list ValidatedDir }.
Definition validate_entries (entries : list GuestOverlayEntry) : res BootImageError ValidatedOverlay :=
  '(registry, files, dirs) ← for_each register_entry entries ([], [], []);
  _ ← for_each (fun _ path => check_ancestors registry path) (bt_keys registry) tt;
  Ok {| vo_files := sort_by_key rf_path files; vo_dirs := sort_by_key vd_path dirs |}.

(** ** Archives *)

Inductive OverlayError := FileTooLarge | InvalidCpioArchive.
Definition ROOTFS_INODE_BASE : Z := 2147483648.

Section Archive.
Context `{N : NewcCrate}.

Definition built_entry (name : bytes) (mode ino nlink : Z) (body : bytes) : NewcView := {|
  nv_name := name; nv_mode := mode; nv_uid := 0; nv_gid := 0; nv_mtime := 0; nv_nlink := nlink; nv_dev_major := 0;
  nv_dev_minor := 0; nv_ino := ino; nv_rdev_major := 0; nv_rdev_minor := 0; nv_body := body |}.
Definition trailer_view : NewcView := built_entry TRAILER_NAME 0 0 1 [].
Definition append_trailer (out : bytes) : bytes := out ++ newc_write trailer_view.

Definition dir_view (ino : Z) (d : ValidatedDir) : NewcView :=
  built_entry (vd_path d) (Z.lor 16384 (Z.land (vd_mode d) 511)) ino 2 [].
Definition file_view (ino : Z) (f : ResolvedFile) : NewcView :=
  built_entry (rf_path f) (Z.lor 32768 (Z.land (rf_mode f) 511)) ino 1 (rf_data f).
(** Archive so far and the next inode, a [u32] (release arithmetic). *)
Definition emit_dir (state : bytes * Z) (d : ValidatedDir) : bytes * Z :=
  let '(out, ino) := state in (out ++ newc_write (dir_view ino d), (ino + 1) mod 2 ^ 32).
Definition emit_file (state : bytes * Z) (f : ResolvedFile) : res OverlayError (bytes * Z) :=
  let '(out, ino) := state in
  _ ← fail_if (U32_MAX <? len (rf_data f)) FileTooLarge;
  Ok (out ++ newc_write (file_view ino f), (ino + 1) mod 2 ^ 32).
Definition overlay_to_cpio (resolved : list ResolvedFile) (dirs : list ValidatedDir) : res OverlayError bytes :=
  '(out, _) ← for_each emit_file resolved (foldl emit_dir ([], ROOTFS_INODE_BASE) dirs);
  Ok (append_trailer out).

(** The entry loop; every entry consumes at least a byte. *)
Fixpoint body_length (fuel : nat) (remaining : bytes) (body_len : Z) : res OverlayError Z :=
  match fuel with
  | O => Err InvalidCpioArchive
  | S fuel =>
      '(v, tail) ← ok_or (newc_next remaining) InvalidCpioArchive;
      if is_trailer v then
        _ ← fail_if (negb (is_empty (nv_body v))) InvalidCpioArchive;
        _ ← fail_if (existsb (fun b => negb (bool_decide (b = Byte.x00))) tail) InvalidCpioArchive;
        Ok body_len
      else
        let consumed := len remaining - len tail in
        _ ← fail_if (consumed =? 0) InvalidCpioArchive;
        body_length fuel tail (body_len + consumed)
  end.
Definition strip_trailer (b : bytes) : res OverlayError bytes :=
  n ← body_length (S (length b)) b 0;
  Ok (take (Z.to_nat n) b).
Definition merge_rootfs (base overlay : bytes) : res OverlayError bytes :=
  merged ← strip_trailer base;
  body ← strip_trailer overlay;
  Ok (append_trailer (merged ++ body)).

(** [cached_rootfs_is_valid] on the file found under the name, if any. *)
Definition cached_rootfs_is_valid (content : option bytes) (expected_size : Z) : bool :=
  match content with
  | Some b => (len b =? expected_size) && is_ok (body_length (S (length b)) b 0)
  | None => false
  end.
End Archive.

(** ** The derived cache *)

Definition hex_text (b : bytes) : bytes := concat (map (fun x => hex_lower 2 (b2z x)) b).
Definition CACHE_SCHEMA_VERSION : Z := 2.
Record FileManifest := { fm_origin : bytes; fm_path : bytes; fm_mode : Z; fm_digest : bytes; fm_size : Z }.
Record DirManifest := { dm_path : bytes; dm_mode : Z }.
Record RootfsManifest := { rm_schema_version : Z; rm_base : bytes; rm_base_size : Z; rm_files : list FileManifest; rm_dirs : list DirManifest }.
Record ArtifactMetadata := { am_digest : bytes; am_size : Z }.
#[global] Instance ArtifactMetadata_eq_dec : EqDecision ArtifactMetadata.
Proof. solve_decision. Defined.
Record RootfsMetadata := { rmd_schema_version : Z; rmd_key : bytes; rmd_artifact : ArtifactMetadata }.

Definition init_overlay_file (b : bytes) : ResolvedFile :=
  {| rf_path := init_name; rf_mode := 493; rf_data := b; rf_origin := str "crate:init" |}.

Section Cache.
Context `{N : NewcCrate} (blake3 : bytes -> bytes) `{SM : Serde RootfsManifest}.

Definition digest_text (b : bytes) : bytes := str "blake3_" ++ hex_text (blake3 b).
Definition artifact_metadata (content : bytes) : ArtifactMetadata := {| am_digest := digest_text content; am_size := len content |}.
Definition file_manifest (f : ResolvedFile) : FileManifest :=
  {| fm_origin := rf_origin f; fm_path := rf_path f; fm_mode := rf_mode f; fm_digest := digest_text (rf_data f); fm_size := len (rf_data f) |}.
Definition dir_manifest (d : ValidatedDir) : DirManifest := {| dm_path := vd_path d; dm_mode := vd_mode d |}.
Definition rootfs_manifest (base : bytes) (resolved : list ResolvedFile) (dirs : list ValidatedDir) : RootfsManifest :=
  {| rm_schema_version := CACHE_SCHEMA_VERSION; rm_base := digest_text base; rm_base_size := len base;
     rm_files := map file_manifest resolved; rm_dirs := map dir_manifest dirs |}.
Definition rootfs_manifest_key (base : bytes) (resolved : list ResolvedFile) (dirs : list ValidatedDir) : res BootImageError bytes :=
  manifest_json ← ok_or (to_vec (rootfs_manifest base resolved dirs)) BI_Overlay;
  Ok (digest_text manifest_json).

(** Contents of [<key>.cpio] and parsed records of [<key>.json]. *)
Record derived_cache := { dc_files : gmap bytes bytes; dc_records : gmap bytes RootfsMetadata }.

Definition artifact_matches (content : option bytes) (expected : ArtifactMetadata) : bool :=
  match content with
  | Some c => (len c =? am_size expected) && bool_decide (artifact_metadata c = expected)
  | None => false
  end.

(** How far the two publications get: the file, then the record. *)
Inductive publication := Pub_none | Pub_file | Pub_all.
(** What the file system permits in one run: reaching the cache directory,
    reading the record, hashing the file, walking it, and publishing. *)
Record cache_io := { io_directory : bool; io_record : bool; io_artifact : bool; io_validate : bool; io_published : publication }.

Definition cache_hit (io : cache_io) (cache : derived_cache) (key : bytes) : res BootImageError bool :=
  match dc_records cache !! key with
  | Some m =>
      if io_record io && (rmd_schema_version m =? CACHE_SCHEMA_VERSION) && bool_decide (rmd_key m = key)
         && (io_artifact io && artifact_matches (dc_files cache !! key) (rmd_artifact m)) then
        _ ← fail_if (negb (io_validate io)) BI_Cache;
        Ok (cached_rootfs_is_valid (dc_files cache !! key) (am_size (rmd_artifact m)))
      else Ok false
  | None => Ok false
  end.

Definition merged_image (base : bytes) (resolved : list ResolvedFile) (dirs : list ValidatedDir) : res BootImageError bytes :=
  map_err (fun _ => BI_Overlay) (overlay ← overlay_to_cpio resolved dirs; merge_rootfs base overlay).
Definition publish_merged (published : publication) (key merged : bytes) (cache : derived_cache)
    : res BootImageError bytes * derived_cache :=
  let written := {| dc_files := <[key := merged]> (dc_files cache); dc_records := dc_records cache |} in
  let record := {| rmd_schema_version := CACHE_SCHEMA_VERSION; rmd_key := key; rmd_artifact := artifact_metadata merged |} in
  match published with
  | Pub_none => (Err BI_Cache, cache)
  | Pub_file => (Err BI_Cache, written)
  | Pub_all => (Ok key, {| dc_files := dc_files written; dc_records := <[key := record]> (dc_records cache) |})
  end.
Definition try_in {A B} (cache : derived_cache) (r : res BootImageError A) (k : A -> res BootImageError B * derived_cache)
    : res BootImageError B * derived_cache :=
  match r with Ok a => k a | Err e => (Err e, cache) | Panic => (Panic, cache) end.
(** The result is the key of the returned file; [base] is the path of the base
    archive with its content when it can be read. *)
Definition prepare_inner (base : bytes * option bytes) (resolved : list ResolvedFile) (dirs : list ValidatedDir)
    (io : cache_io) (cache : derived_cache) : res BootImageError bytes * derived_cache :=
  try_in cache (ok_or base.2 (InvalidHostPath base.1)) (fun base_bytes =>
  try_in cache (rootfs_manifest_key base_bytes resolved dirs) (fun key =>
  try_in cache (fail_if (negb (io_directory io)) BI_Cache) (fun _ =>
  try_in cache (cache_hit io cache key) (fun hit =>
  if hit : bool then (Ok key, cache) else
  try_in cache (merged_image base_bytes resolved dirs) (fun merged =>
  publish_merged (io_published io) key merged cache))))).
Definition prepare_boot_artifacts (base : bytes * option bytes) (entries : list GuestOverlayEntry) (init : option bytes)
    (io : cache_io) (cache : derived_cache) : res BootImageError bytes * derived_cache :=
  try_in cache (validate_entries entries) (fun v =>
  try_in cache (ok_or init BI_InitBuild) (fun b =>
  prepare_inner base (sort_by_key rf_path (vo_files v ++ [init_overlay_file b])) (vo_dirs v) io cache)).
End Cache.

(** ** UTF-8 and ASCII separators *)

Lemma utf8_app_ascii s c t : in_range 0 127 c = true -> utf8_valid (s ++ c :: t) = utf8_valid s && utf8_valid t.
Proof.
  intros Hc. assert (forall lo hi, 128 <= lo -> in_range lo hi c = false) as Hno by (intros lo hi Hl; unfold in_range in *; lia).
  assert (is_cont c = false) as Hcont by (apply Hno; lia).
  induction s as [s IH] using (induction_ltof1 _ (@length byte)); unfold ltof in IH.
  destruct s as [|b0 s]; [cbn; by rewrite Hc|]. cbn [app utf8_valid]. destruct (in_range 0 127 b0) eqn:R0; [apply IH; cbn; lia|].
  destruct s as [|b1 s]; cbn [app].
  { rewrite Hcont, !Hno by lia. cbn [andb]. destruct t as [|t0 [|t1 t]]; repeat case_match; done. }
  destruct (in_range 194 223 b0); [rewrite IH by (cbn; lia); by rewrite andb_assoc|].
  destruct s as [|b2 s]; cbn [app].
  { rewrite Hcont. rewrite !andb_false_r. cbn [andb]. destruct t as [|t0 t]; repeat case_match; done. }
  repeat (destruct (in_range _ _ b0); [rewrite IH by (cbn; lia); by rewrite !andb_assoc|]).
  destruct s as [|b3 s]; cbn [app].
  { rewrite Hcont, !andb_false_r. cbn [andb]. repeat case_match; done. }
  repeat (destruct (in_range _ _ b0); [rewrite IH by (cbn; lia); by rewrite !andb_assoc|]). done.
Qed.

Lemma utf8_join c segs : in_range 0 127 c = true -> utf8_valid (join_with [c] segs) = forallb utf8_valid segs.
Proof.
  intros Hc. induction segs as [|x segs IH]; [done|]. destruct segs as [|y segs]; [cbn; by rewrite andb_true_r|].
  change (join_with [c] (x :: y :: segs)) with (x ++ c :: join_with [c] (y :: segs)). rewrite utf8_app_ascii, IH by done. done.
Qed.
Lemma utf8_split c s : in_range 0 127 c = true -> forallb utf8_valid (split_on c s) = utf8_valid s.
Proof. intros Hc. by rewrite <-(utf8_join c), join_split. Qed.

Lemma replace_byte_join a b s : replace_byte a b s = join_with [b] (split_on a s).
Proof.
  unfold replace_byte. induction s as [|x s IH]; [done|]. cbn [map]. destruct (decide (x = a)) as [->|Hne].
  - rewrite split_on_cons_sep. rewrite IH. pose proof (split_by_nonempty (is_byte a) s). unfold split_on in *.
    by destruct (split_by (is_byte a) s).
  - rewrite IH. unfold split_on in *. cbn [split_by]. assert (is_byte a x = false) as -> by (apply not_true_iff_false; by rewrite is_byte_true).
    pose proof (split_by_nonempty (is_byte a) s). destruct (split_by (is_byte a) s) as [|y [|z l]]; done.
Qed.
Lemma utf8_replace a b s : in_range 0 127 a = true -> in_range 0 127 b = true -> utf8_valid (replace_byte a b s) = utf8_valid s.
Proof. intros Ha Hb. by rewrite replace_byte_join, utf8_join, utf8_split. Qed.

(** ** Guest paths are canonical *)

Lemma guest_components_ok shown raw acc cs :
  guest_components shown raw acc = Ok cs <->
  Forall (fun c => c <> [] /\ c <> dotdot) raw /\ cs = acc ++ filter (fun c => c <> dot) raw.
Proof.
  revert acc. induction raw as [|c raw IH]; intros acc; cbn [guest_components].
  { rewrite filter_nil, app_nil_r. split; [intros [= <-]; by split|by intros [_ ->]]. }
  rewrite Forall_cons, filter_cons, !guard_ok_iff, is_empty_false, bool_decide_eq_false, IH.
  destruct (decide (c = dot)) as [E|E].
  - rewrite bool_decide_eq_true_2, decide_False by naive_solver. naive_solver.
  - rewrite bool_decide_eq_false_2, decide_True by done. rewrite <-app_assoc. cbn [app]. naive_solver.
Qed.

Lemma find_named raw : Forall (fun c => c <> []) raw ->
  List.find names_something raw = head (filter (fun c => c <> dot) raw).
Proof.
  induction 1 as [|c raw Hc _ IH]; [done|]. cbn [List.find]. rewrite filter_cons. unfold names_something at 1.
  rewrite (proj2 (is_empty_false c) Hc). cbn [negb andb]. destruct (decide (c = dot)) as [E|E].
  - rewrite bool_decide_eq_true_2, decide_False by naive_solver. cbn. done.
  - rewrite bool_decide_eq_false_2, decide_True by done. done.
Qed.

(** The text after one leading separator. *)
Definition relative_text (raw : bytes) : bytes :=
  match replace_byte p_backslash p_slash raw with b :: t => if is_byte p_slash b then t else b :: t | [] => [] end.
Lemma trim_once raw : starts_with [p_slash; p_slash] (replace_byte p_backslash p_slash raw) = false ->
  trim_start_slashes (replace_byte p_backslash p_slash raw) = relative_text raw.
Proof.
  unfold relative_text. destruct (replace_byte p_backslash p_slash raw) as [|b [|c t]]; [done|..]; cbn [trim_start_slashes].
  - by destruct (is_byte p_slash b).
  - destruct (is_byte p_slash b) eqn:Eb; [|done]. apply is_byte_true in Eb as ->.
    destruct (is_byte p_slash c) eqn:Ec; [|done]. apply is_byte_true in Ec as ->. by intros H.
Qed.

(** A guest path is accepted exactly when, after one optional leading separator,
    it consists of components that are neither empty nor [..], at least one of
    which is not [.], and the first of those does not look like a drive. *)
Lemma GuestPath_parse_iff raw p :
  GuestPath_parse raw = Ok p <->
  let components := filter (fun c => c <> dot) (split_on p_slash (relative_text raw)) in
  Byte.x00 ∉ raw
  /\ starts_with [p_slash; p_slash] (replace_byte p_backslash p_slash raw) = false
  /\ Forall (fun c => c <> [] /\ c <> dotdot) (split_on p_slash (relative_text raw))
  /\ components <> [] /\ drive_like (default [] (head components)) = false
  /\ p = join_with [p_slash] components /\ len p < U32_MAX.
Proof.
  cbv zeta. unfold GuestPath_parse. rewrite !guard_ok_iff, contains_byte_false.
  split.
  - intros (Hn & Hs & Hr & Hd & H). rewrite trim_once in * by done. apply bind_ok_iff in H as (cs & Hc & H).
    apply guest_components_ok in Hc as [Hf ->]. cbn [app] in H. rewrite !guard_ok_iff in H. destruct H as (He & Hl & [= <-]).
    rewrite find_named in Hd by (eapply Forall_impl; [exact Hf|naive_solver]).
    split_and!; try done; [by apply is_empty_false|by apply Z.leb_gt].
  - intros (Hn & Hs & Hf & Hc & Hd & -> & Hl). rewrite trim_once by done.
    assert (relative_text raw <> []) as Hne.
    { intros E. rewrite E in Hf. inversion Hf as [|? ? [? _]]; done. }
    split_and!; [done|done|by apply is_empty_false| |].
    + rewrite find_named by (eapply Forall_impl; [exact Hf|naive_solver]). done.
    + apply bind_ok_iff. eexists. split; [by apply guest_components_ok|]. cbn [app]. rewrite !guard_ok_iff.
      split_and!; [by apply is_empty_false|lia|done].
Qed.

(** ** Sorting *)

Section SortLemmas.
Context {A : Type} (key : A -> bytes).
Lemma insert_by_key_perm x l : insert_by_key key x l ≡ₚ x :: l.
Proof. induction l as [|y l IH]; cbn [insert_by_key]; [reflexivity|]. destruct (key_ltb (key x) (key y)); [reflexivity|]. rewrite IH. apply perm_swap. Qed.
Lemma sort_by_key_perm_from l acc : foldl (fun l x => insert_by_key key x l) acc l ≡ₚ acc ++ l.
Proof.
  revert acc. induction l as [|x l IH]; intros acc; cbn [foldl]; [by rewrite app_nil_r|].
  rewrite IH, insert_by_key_perm. apply Permutation_middle.
Qed.
Lemma sort_by_key_perm l : sort_by_key key l ≡ₚ l.
Proof. apply sort_by_key_perm_from. Qed.

Definition key_sorted (l : list A) : Prop := StronglySorted (fun a b => key_ltb (key b) (key a) = false) l.
Lemma insert_by_key_sorted x l : key_sorted l -> key_sorted (insert_by_key key x l).
Proof.
  unfold key_sorted. induction 1 as [|y l Hs IH Hf]; cbn [insert_by_key]; [by repeat constructor|]. destruct (key_ltb (key x) (key y)) eqn:E.
  - assert (forall z, key_ltb (key z) (key y) = false -> key_ltb (key z) (key x) = false) as Hz.
    { intros z Hz. apply not_true_iff_false. intros Hb. by rewrite (key_trans _ _ _ Hb E) in Hz. }
    constructor; [by constructor|]. constructor; [apply Hz, key_irrefl|]. eapply Forall_impl; [exact Hf|]. intros z. apply Hz.
  - constructor; [done|]. rewrite Forall_forall in *. intros z Hz. rewrite insert_by_key_perm in Hz.
    apply elem_of_cons in Hz as [->|Hz]; [done|by apply Hf].
Qed.
Lemma sort_by_key_sorted l : key_sorted (sort_by_key key l).
Proof.
  unfold sort_by_key. assert (key_sorted []) as H by constructor. revert H. generalize (@nil A) as acc.
  induction l as [|x l IH]; intros acc H; cbn [foldl]; [done|]. by apply IH, insert_by_key_sorted.
Qed.
End SortLemmas.

(** ** Which overlays are accepted *)

Definition below_path (q p : bytes) : Prop := exists rest, p = q ++ p_slash :: rest.
Lemma elem_of_ancestors fuel p q : (length p <= fuel)%nat -> q ∈ ancestors fuel p <-> below_path q p.
Proof.
  revert p. induction fuel as [|fuel IH]; intros p Hl.
  { destruct p; [|cbn in Hl; lia]. split; [set_solver|]. intros [rest E]. by destruct q. }
  cbn [ancestors]. destruct (rsplit_once p_slash p) as [[parent name]|] eqn:E.
  - apply rsplit_once_Some in E as [-> Hname]. rewrite length_app in Hl. cbn in Hl. rewrite elem_of_cons, IH by lia. split.
    + intros [->|[rest ->]]; [by eexists|]. exists (rest ++ p_slash :: name). by rewrite <-app_assoc.
    + intros [rest Er].
      destruct (decide (p_slash ∈ rest)) as [Hin|Hin].
      * right. apply list_elem_of_split_r in Hin as (r1 & r2 & -> & Hr2). exists r1.
        rewrite app_comm_cons, app_assoc in Er. by apply not_elem_of_app_cons_inv_r in Er as [-> _].
      * left. by apply not_elem_of_app_cons_inv_r in Er as [-> _].
  - apply rsplit_once_None in E. split; [set_solver|]. intros [rest ->]. set_solver.
Qed.

(** *** The registration loop *)

Definition kind_of (e : GuestOverlayEntry) : EntryKind :=
  match goe_kind e with Overlay_File _ _ _ => Kind_File | Overlay_Directory _ => Kind_Directory end.
(** An entry with its parsed path. *)
Definition placed : Type := bytes * GuestOverlayEntry.
Definition placed_file (x : placed) : option ResolvedFile :=
  match goe_kind x.2 with
  | Overlay_File content mode origin => Some {| rf_path := x.1; rf_mode := mode; rf_data := content; rf_origin := origin |}
  | Overlay_Directory _ => None
  end.
Definition placed_dir (x : placed) : option ValidatedDir :=
  match goe_kind x.2 with
  | Overlay_File _ _ _ => None
  | Overlay_Directory mode => Some {| vd_path := x.1; vd_mode := mode |}
  end.
Definition registered (registry : btree bytes EntryKind) (xs : list placed) : btree bytes EntryKind :=
  foldl (fun r x => bt_insert x.1 (kind_of x.2) r) registry xs.
Definition parses (x : placed) : Prop := GuestPath_parse (goe_path x.2) = Ok x.1.

Lemma register_entry_ok registry files dirs e state :
  register_entry (registry, files, dirs) e = Ok state <->
  exists p, GuestPath_parse (goe_path e) = Ok p /\ is_reserved p = false /\ bt_get p registry = None
    /\ state = (registered registry [(p, e)], files ++ omap placed_file [(p, e)], dirs ++ omap placed_dir [(p, e)]).
Proof.
  unfold register_entry. rewrite bind_ok_iff. apply exist_proper. intros p.
  assert (forall kind (k : btree bytes EntryKind -> registration) st,
    (r ← register_overlay_path registry p kind; Ok (k r)) = Ok st <->
    is_reserved p = false /\ bt_get p registry = None /\ st = k (bt_insert p kind registry)) as Hr.
  { intros kind k st. unfold register_overlay_path. rewrite bind_ok_iff. split.
    - intros (r & H & [= <-]). apply guard_ok_iff in H as [? H]. destruct (bt_get p registry); [by case_bool_decide|].
      by injection H as <-.
    - intros (H1 & H2 & ->). eexists. rewrite guard_ok_iff, H2. done. }
  unfold registered, placed_file, placed_dir, kind_of. cbn. destruct (goe_kind e) as [content mode origin|mode]; cbn.
  - rewrite (Hr Kind_File (fun r => (r, _, dirs))). by rewrite app_nil_r.
  - rewrite (Hr Kind_Directory (fun r => (r, files, _))). by rewrite app_nil_r.
Qed.

Lemma registered_get registry xs p k : bt_wf registry -> NoDup xs.*1 -> (forall x, x ∈ xs -> bt_get x.1 registry = None) ->
  bt_get p (registered registry xs) = Some k <-> bt_get p registry = Some k \/ exists e, (p, e) ∈ xs /\ kind_of e = k.
Proof.
  revert registry. induction xs as [|[q e] xs IH]; intros registry Hw Hd Hn; cbn in *; [set_solver|].
  apply NoDup_cons in Hd as [Hq Hd]. rewrite IH; [|by apply bt_wf_insert|done|].
  - rewrite bt_get_insert by done. assert (bt_get q registry = None) as Hqn by (apply (Hn (q, e)); left).
    setoid_rewrite elem_of_cons. case_decide as E; [subst p|]; naive_solver.
  - intros x Hx. rewrite bt_get_insert by done. rewrite decide_False; [apply Hn; by right|]. intros E. apply Hq. rewrite <-E.
    apply list_elem_of_fmap. eauto.
Qed.

Lemma register_all_ok entries registry files dirs state : bt_wf registry ->
  for_each register_entry entries (registry, files, dirs) = Ok state <->
  exists xs, entries = xs.*2 /\ Forall parses xs /\ NoDup xs.*1 /\ Forall (fun x => is_reserved x.1 = false) xs
    /\ Forall (fun x => bt_get x.1 registry = None) xs
    /\ state = (registered registry xs, files ++ omap placed_file xs, dirs ++ omap placed_dir xs).
Proof.
  revert registry files dirs. induction entries as [|e entries IH]; intros registry files dirs Hw; cbn [for_each].
  { split; [intros [= <-]; exists []; rewrite !app_nil_r; split_and!; try constructor|].
    intros (xs & E & _ & _ & _ & _ & ->). destruct xs; [|done]. cbn. by rewrite !app_nil_r. }
  rewrite bind_ok_iff. split.
  - intros (st & He & H). apply register_entry_ok in He as (p & Hp & Hres & Hn & ->). apply IH in H as (xs & -> & Hf & Hd & Hr & Hg & ->); [|by apply bt_wf_insert].
    assert (Forall (fun x => x.1 <> p /\ bt_get x.1 registry = None) xs) as Hg'.
    { eapply Forall_impl; [exact Hg|]. intros x. cbn. rewrite bt_get_insert by done. by case_decide; subst. }
    exists ((p, e) :: xs). rewrite !Forall_cons. cbn [fmap list_fmap fst snd]. rewrite NoDup_cons. split_and!; try done.
    + intros Hin. apply list_elem_of_fmap in Hin as (x & -> & Hx). by apply (proj1 (Forall_forall _ _) Hg' x Hx).
    + eapply Forall_impl; [exact Hg'|]. by intros x [_ ?].
    + rewrite <-!app_assoc. by rewrite <-!omap_app.
  - intros (xs & E & Hf & Hd & Hr & Hg & ->). destruct xs as [|[p e'] xs]; [done|]. cbn in E. injection E as -> ->.
    rewrite !Forall_cons in *. cbn in Hd. apply NoDup_cons in Hd as [Hp Hd].
    eexists. rewrite register_entry_ok. split; [exists p; naive_solver|]. apply IH; [by apply bt_wf_insert|]. exists xs. split_and!; try naive_solver.
    + destruct Hg as [_ Hg]. rewrite Forall_forall in *. intros x Hx. cbn. rewrite bt_get_insert, decide_False; [by apply Hg| |done].
      intros E. apply Hp. rewrite <-E. apply list_elem_of_fmap. eauto.
    + change ((p, e') :: xs) with ([(p, e')] ++ xs). by rewrite !omap_app, !app_assoc.
Qed.

Lemma check_ancestors_ok registry p : check_ancestors registry p = Ok tt <-> forall q, below_path q p -> bt_get q registry <> Some Kind_File.
Proof.
  unfold check_ancestors. destruct (List.find _ _) as [q|] eqn:E.
  - apply List.find_some in E as [Hin Hf]. apply bool_decide_eq_true in Hf.
    apply list_elem_of_In, elem_of_ancestors in Hin; [|done]. split; [done|]. intros H. by destruct (H q).
  - split; [|done]. intros _ q Hq Hk. apply (elem_of_ancestors (length p)), list_elem_of_In in Hq; [|done].
    eapply List.find_none in E; [|exact Hq]. unfold is_file in E. by rewrite bool_decide_eq_true_2 in E.
Qed.

(** An overlay is accepted exactly when its paths parse, are distinct, name
    neither [/init] nor anything below it, and no file is above another entry;
    files and directories come out sorted by path. *)
Lemma validate_entries_ok entries v :
  validate_entries entries = Ok v <->
  exists xs, entries = xs.*2 /\ Forall parses xs /\ NoDup xs.*1 /\ Forall (fun x => is_reserved x.1 = false) xs
    /\ (forall x y, x ∈ xs -> y ∈ xs -> kind_of x.2 = Kind_File -> ~ below_path x.1 y.1)
    /\ v = {| vo_files := sort_by_key rf_path (omap placed_file xs); vo_dirs := sort_by_key vd_path (omap placed_dir xs) |}.
Proof.
  unfold validate_entries. rewrite bind_ok_iff.
  assert (forall xs : list placed, NoDup xs.*1 ->
    (for_each (fun _ path => check_ancestors (registered [] xs) path) (bt_keys (registered [] xs)) tt = Ok tt <->
     forall x y, x ∈ xs -> y ∈ xs -> kind_of x.2 = Kind_File -> ~ below_path x.1 y.1)) as Hcheck.
  { intros xs Hd. rewrite for_each_unit_ok, Forall_forall.
    assert (forall p k, bt_get p (registered [] xs) = Some k <-> exists e, (p, e) ∈ xs /\ kind_of e = k) as Hget.
    { intros p k. rewrite registered_get; [|constructor|done|done]. cbn. naive_solver. }
    setoid_rewrite check_ancestors_ok. setoid_rewrite bt_keys_get. split.
    - intros H [q f] [p e] Hx Hy Hk Hb. apply (H p) in Hb; [apply Hb, Hget; eauto|]. eexists. apply Hget. eauto.
    - intros H p [k Hp] q Hb Hq. apply Hget in Hp as (e & He & _). apply Hget in Hq as (f & Hf & Hk). by apply (H (q, f) (p, e)). }
  split.
  - intros ([[registry files] dirs] & Hl & H). apply register_all_ok in Hl as (xs & -> & Hf & Hd & Hr & _ & E); [|constructor].
    injection E as -> -> ->. apply bind_unit_ok_iff in H as [Hc [= <-]]. exists xs. by rewrite <-Hcheck.
  - intros (xs & -> & Hf & Hd & Hr & Hb & ->). apply Hcheck in Hb; [|done].
    exists (registered [] xs, omap placed_file xs, omap placed_dir xs). split.
    + apply register_all_ok; [constructor|]. exists xs. by split_and!; try done; apply Forall_forall.
    + by rewrite bind_unit_ok_iff.
Qed.

(** ** Merging archives *)

Section Merge.
Context `{N : NewcCrate, L : !NewcLaws}.

(** The archive [b] holds the entries [vs], an empty trailer, and padding. *)
Inductive reads : bytes -> list NewcView -> Prop :=
  | reads_end b v tail : newc_next b = Some (v, tail) -> is_trailer v = true -> nv_body v = [] ->
      Forall (fun x => x = Byte.x00) tail -> reads b []
  | reads_next b v tail vs : newc_next b = Some (v, tail) -> is_trailer v = false -> reads tail vs -> reads b (v :: vs).

Lemma reads_det b vs ws : reads b vs -> reads b ws -> vs = ws.
Proof.
  intros H. revert ws. induction H as [b v tail Hn Ht|b v tail vs Hn Ht H IH]; intros ws Hw; inversion Hw; simplify_eq; try congruence.
  f_equal. auto.
Qed.

Lemma zero_tail tail : existsb (fun b => negb (bool_decide (b = Byte.x00))) tail = false <-> Forall (fun x => x = Byte.x00) tail.
Proof.
  rewrite <-not_true_iff_false, existsb_exists, Forall_forall. split.
  - intros H x Hx. destruct (decide (x = Byte.x00)) as [|Hne]; [done|]. exfalso. apply H. exists x.
    rewrite <-list_elem_of_In, bool_decide_eq_false_2 by done. done.
  - intros H (x & Hx & Hb). apply list_elem_of_In, H in Hx as ->. done.
Qed.

Lemma body_length_reads fuel b n m : body_length fuel b n = Ok m ->
  exists pre rest vs, b = pre ++ rest /\ m = n + len pre /\ reads rest [] /\ forall t ws, reads t ws -> reads (pre ++ t) (vs ++ ws).
Proof.
  revert b n. induction fuel as [|fuel IH]; intros b n; [done|]. cbn [body_length]. rewrite bind_ok_iff.
  intros ([v tail] & Hv & H). apply ok_or_ok in Hv. destruct (is_trailer v) eqn:Ht.
  - rewrite !guard_ok_iff, negb_false_iff, zero_tail in H. destruct H as (Hb & Hz & [= <-]).
    destruct (nv_body v) eqn:Eb; [|done]. exists [], b, []. split_and!; [done|rewrite len_nil; lia|by eapply reads_end|done].
  - rewrite guard_ok_iff in H. destruct H as [_ H]. apply IH in H as (pre & rest & vs & -> & -> & Hr & Hp).
    destruct (next_streaming _ _ _ Hv) as (r & -> & Hs). exists (r ++ pre), rest, (v :: vs). split_and!; [by rewrite <-app_assoc| |done|].
    + rewrite !len_app. lia.
    + intros t ws Hw. rewrite <-app_assoc. eapply reads_next; [apply Hs|done|by apply Hp].
Qed.

Lemma reads_body_length b vs : reads b vs -> forall fuel n, (length b < fuel)%nat -> exists m, body_length fuel b n = Ok m.
Proof.
  induction 1 as [b v tail Hn Ht Hb Hz|b v tail vs Hn Ht H IH]; intros [|fuel] n Hl; try lia; cbn [body_length]; rewrite Hn; cbn; rewrite Ht.
  - rewrite Hb. cbn. rewrite (proj2 (zero_tail tail)) by done. cbn. eauto.
  - pose proof (next_consumes _ _ _ Hn) as Hc. rewrite (proj2 (Z.eqb_neq _ 0)) by (unfold len; lia). cbn. apply IH. lia.
Qed.

Lemma strip_trailer_reads b body : strip_trailer b = Ok body ->
  exists vs, reads b vs /\ forall t ws, reads t ws -> reads (body ++ t) (vs ++ ws).
Proof.
  unfold strip_trailer. rewrite bind_ok_iff. intros (n & Hn & [= <-]). apply body_length_reads in Hn as (pre & rest & vs & -> & -> & Hr & Hp).
  exists vs. split; [rewrite <-(app_nil_r vs); by apply Hp|]. rewrite Z.add_0_l. unfold len. by rewrite Nat2Z.id, take_app_length.
Qed.
Lemma strip_trailer_ok b vs : reads b vs ->
  exists body, strip_trailer b = Ok body /\ forall t ws, reads t ws -> reads (body ++ t) (vs ++ ws).
Proof.
  intros H. destruct (reads_body_length b vs H (S (length b)) 0) as [m Hm]; [lia|].
  assert (strip_trailer b = Ok (take (Z.to_nat m) b)) as E by (unfold strip_trailer; by rewrite Hm).
  exists (take (Z.to_nat m) b). split; [done|]. apply strip_trailer_reads in E as (ws & Hw & Hp). by rewrite (reads_det _ _ _ H Hw).
Qed.

Lemma reads_trailer : reads (newc_write trailer_view) [].
Proof.
  eapply (reads_end _ trailer_view []); [|done..]. rewrite <-(app_nil_r (newc_write _)). apply next_written.
  split_and!; [|by apply (bool_decide_eq_true_1 (Byte.x00 ∉ TRAILER_NAME)); vm_compute|done]. repeat constructor; by vm_compute.
Qed.

Lemma merge_rootfs_reads base overlay vs ws : reads base vs -> reads overlay ws ->
  exists merged, merge_rootfs base overlay = Ok merged /\ reads merged (vs ++ ws).
Proof.
  intros Hb Ho. apply strip_trailer_ok in Hb as (b & Eb & Hb). apply strip_trailer_ok in Ho as (o & Eo & Ho).
  unfold merge_rootfs. rewrite Eb, Eo. cbn. eexists. split; [done|]. unfold append_trailer. rewrite <-app_assoc.
  apply Hb. rewrite <-(app_nil_r ws). apply Ho, reads_trailer.
Qed.
Lemma merge_rootfs_base base overlay merged : merge_rootfs base overlay = Ok merged -> exists vs, reads base vs.
Proof.
  unfold merge_rootfs. rewrite bind_ok_iff. intros (b & Hb & _). apply strip_trailer_reads in Hb as (vs & Hv & _). eauto.
Qed.

(** *** The overlay archive *)

Fixpoint numbered {A} (view : Z -> A -> NewcView) (ino : Z) (l : list A) : list NewcView :=
  match l with [] => [] | x :: l => view ino x :: numbered view ((ino + 1) mod 2 ^ 32) l end.
Definition inode_after {A} (ino : Z) (l : list A) : Z := foldl (fun i _ => (i + 1) mod 2 ^ 32) ino l.
Definition overlay_views (resolved : list ResolvedFile) (dirs : list ValidatedDir) : list NewcView :=
  numbered dir_view ROOTFS_INODE_BASE dirs ++ numbered file_view (inode_after ROOTFS_INODE_BASE dirs) resolved.

(** What [GuestPath_parse] guarantees of a path. *)
Definition guest_path_ok (p : bytes) : Prop := len p < U32_MAX /\ Byte.x00 ∉ p /\ utf8_valid p = true /\ p <> TRAILER_NAME.
Definition small_file (f : ResolvedFile) : Prop := len (rf_data f) <= U32_MAX.

Lemma mode_field_range kind m : 0 <= kind < 2 ^ 32 -> field32 (Z.lor kind (Z.land m 511)).
Proof.
  intros Hk. unfold field32. assert (0 <= Z.land m 511 < 2 ^ 32) as Hm.
  { change 511 with (Z.ones 9). rewrite Z.land_ones by lia. pose proof (Z.mod_pos_bound m (2 ^ 9)). lia. }
  split; [apply Z.lor_nonneg; lia|]. destruct (Z.eq_dec (Z.lor kind (Z.land m 511)) 0) as [->|Hne]; [lia|].
  apply Z.log2_lt_pow2; [pose proof (proj2 (Z.lor_nonneg kind (Z.land m 511))); lia|].
  rewrite Z.log2_lor by lia. apply Z.max_lub_lt; (destruct (Z.eq_dec kind 0), (Z.eq_dec (Z.land m 511) 0)); subst;
    try (rewrite ?e, ?e0; cbn; lia); apply Z.log2_lt_pow2; lia.
Qed.
Lemma built_entry_typed name mode ino nlink body : guest_path_ok name -> field32 mode -> field32 ino -> field32 nlink ->
  len body <= U32_MAX -> typed_view (built_entry name mode ino nlink body).
Proof.
  intros (Hl & Hn & Hu & _) Hm Hi Hk Hb. split; [|done]. cbn. unfold U32_MAX in *. pose proof (len_nonneg name). pose proof (len_nonneg body).
  repeat constructor; unfold field32 in *; lia.
Qed.

Lemma reads_written {A} (view : Z -> A -> NewcView) l ino t ws :
  (forall i x, x ∈ l -> field32 i -> typed_view (view i x) /\ is_trailer (view i x) = false) -> field32 ino -> reads t ws ->
  reads (concat (map newc_write (numbered view ino l)) ++ t) (numbered view ino l ++ ws).
Proof.
  intros Hv Hi Ht. revert ino Hi. induction l as [|x l IH]; intros ino Hi; cbn; [done|].
  destruct (Hv ino x) as [H1 H2]; [left|done|]. rewrite <-app_assoc. eapply reads_next; [by apply next_written|done|].
  apply IH; [intros i y Hy; apply Hv; by right|]. unfold field32. apply Z.mod_pos_bound. lia.
Qed.

Lemma emit_dirs_exact dirs out ino :
  foldl emit_dir (out, ino) dirs = (out ++ concat (map newc_write (numbered dir_view ino dirs)), inode_after ino dirs).
Proof.
  revert out ino. induction dirs as [|d dirs IH]; intros out ino; cbn [foldl]; [cbn; by rewrite app_nil_r|].
  unfold emit_dir at 2. rewrite IH. cbn. by rewrite <-app_assoc.
Qed.
Lemma emit_files_exact files out ino st :
  for_each emit_file files (out, ino) = Ok st <->
  Forall small_file files /\ st = (out ++ concat (map newc_write (numbered file_view ino files)), inode_after ino files).
Proof.
  revert out ino. induction files as [|f files IH]; intros out ino; cbn [for_each].
  { cbn. rewrite app_nil_r. split; [intros [= <-]; split; [constructor|done]|by intros [_ ->]]. }
  rewrite bind_ok_iff, Forall_cons. unfold emit_file at 1. setoid_rewrite guard_ok_iff. setoid_rewrite Z.ltb_ge. split.
  - intros (b & (Hs & Eb) & Hl). injection Eb as <-. apply IH in Hl as [Hf ->]. cbn. by rewrite <-app_assoc.
  - intros ([Hs Hf] & ->). eexists. split; [by split|]. apply IH. split; [done|]. cbn. by rewrite <-app_assoc.
Qed.
Lemma field32_inode ino l : field32 ino -> field32 (inode_after (A:=ValidatedDir) ino l).
Proof. revert ino. induction l as [|x l IH]; intros ino H; [done|]. apply IH. unfold field32. apply Z.mod_pos_bound. lia. Qed.

Lemma overlay_to_cpio_reads files dirs :
  Forall (fun f => guest_path_ok (rf_path f)) files -> Forall (fun d => guest_path_ok (vd_path d)) dirs -> Forall small_file files ->
  exists out, overlay_to_cpio files dirs = Ok out /\ reads out (overlay_views files dirs).
Proof.
  intros Hf Hd Hs. unfold overlay_to_cpio. rewrite emit_dirs_exact.
  rewrite (proj2 (emit_files_exact files _ _ _)) by (split; [done|reflexivity]). cbn [mbind res_bind]. eexists. split; [done|].
  unfold append_trailer, overlay_views. rewrite <-!app_assoc. cbn [app]. apply reads_written; [|done|].
  - rewrite Forall_forall in Hd. intros i d Hin Hi. specialize (Hd d Hin). split; [|by apply bool_decide_eq_false_2, Hd].
    apply built_entry_typed; [done|by apply mode_field_range|done|done|done].
  - assert (forall (l : list NewcView), l = l ++ []) as Hn by (intros; by rewrite app_nil_r). rewrite (Hn (numbered file_view _ files)) at 2.
    apply reads_written; [|by apply field32_inode|apply reads_trailer].
    rewrite Forall_forall in Hf, Hs. intros i f Hin Hi. specialize (Hf f Hin). split; [|by apply bool_decide_eq_false_2, Hf].
    apply built_entry_typed; [done|by apply mode_field_range|done|done|by apply Hs].
Qed.
End Merge.

(** *** What the guest unpacks: the last entry of a name *)

Definition last_named (p : bytes) (vs : list NewcView) : option NewcView :=
  List.find (fun v => bool_decide (nv_name v = p)) (reverse vs).

Lemma find_view_app (l k : list NewcView) f : List.find f (l ++ k) = match List.find f l with Some v => Some v | None => List.find f k end.
Proof. induction l as [|x l IH]; cbn; [done|]. by destruct (f x). Qed.
Lemma last_named_overlaid vs ovs v : NoDup (nv_name <$> ovs) -> v ∈ ovs -> last_named (nv_name v) (vs ++ ovs) = Some v.
Proof.
  intros Hd Hv. unfold last_named. rewrite reverse_app, find_view_app. destruct (List.find _ (reverse ovs)) as [w|] eqn:E.
  - apply List.find_some in E as [Hw Hn]. apply bool_decide_eq_true in Hn. rewrite <-list_elem_of_In, elem_of_reverse in Hw.
    f_equal. apply list_elem_of_lookup in Hv as [i Hi], Hw as [j Hj].
    assert (i = j) as -> by (eapply NoDup_lookup; [exact Hd|rewrite list_lookup_fmap, Hi; done|rewrite list_lookup_fmap, Hj; cbn; by rewrite Hn]).
    congruence.
  - rewrite <-elem_of_reverse, list_elem_of_In in Hv. apply (List.find_none _ _ E v) in Hv. by rewrite bool_decide_eq_true_2 in Hv.
Qed.
Lemma last_named_under vs ovs p : p ∉ nv_name <$> ovs -> last_named p (vs ++ ovs) = last_named p vs.
Proof.
  intros Hp. unfold last_named. rewrite reverse_app, find_view_app. destruct (List.find _ (reverse ovs)) as [w|] eqn:E; [|done].
  apply List.find_some in E as [Hw Hn]. apply bool_decide_eq_true in Hn. exfalso. apply Hp. rewrite <-Hn. apply list_elem_of_fmap.
  exists w. by rewrite <-list_elem_of_In, elem_of_reverse in Hw.
Qed.

Lemma numbered_names {A} (view : Z -> A -> NewcView) (key : A -> bytes) l ino :
  (forall i x, nv_name (view i x) = key x) -> nv_name <$> numbered view ino l = key <$> l.
Proof. intros Hk. revert ino. induction l as [|x l IH]; intros ino; cbn; [done|]. by rewrite Hk, IH. Qed.
Lemma elem_of_numbered {A} (view : Z -> A -> NewcView) l ino x : x ∈ l -> exists i, view i x ∈ numbered view ino l.
Proof.
  revert ino. induction l as [|y l IH]; intros ino Hx; [by apply elem_of_nil in Hx|]. cbn. apply elem_of_cons in Hx as [->|Hx].
  - exists ino. left.
  - destruct (IH ((ino + 1) mod 2 ^ 32) Hx) as [i Hi]. exists i. by right.
Qed.
Lemma overlay_names files dirs : nv_name <$> overlay_views files dirs = (vd_path <$> dirs) ++ (rf_path <$> files).
Proof. unfold overlay_views. by rewrite fmap_app, (numbered_names dir_view vd_path), (numbered_names file_view rf_path). Qed.

Lemma placed_paths xs : (vd_path <$> omap placed_dir xs) ++ (rf_path <$> omap placed_file xs) ≡ₚ xs.*1.
Proof.
  induction xs as [|[p e] xs IH]; [reflexivity|]. unfold placed_dir, placed_file in *. cbn. destruct (goe_kind e); cbn.
  - rewrite <-IH. symmetry. apply Permutation_middle.
  - by rewrite IH.
Qed.

(** *** What an accepted overlay puts into the image *)

Lemma relative_text_utf8 raw : utf8_valid raw = true -> utf8_valid (relative_text raw) = true.
Proof.
  intros H. rewrite <-(utf8_replace p_backslash p_slash) in H by done. unfold relative_text.
  destruct (replace_byte p_backslash p_slash raw) as [|b t]; [done|]. destruct (is_byte p_slash b) eqn:E; [|done].
  apply is_byte_true in E as ->. change (p_slash :: t) with ([] ++ p_slash :: t) in H. by rewrite utf8_app_ascii in H.
Qed.
Lemma relative_text_bytes (P : byte -> Prop) raw : P p_slash -> Forall P raw -> Forall P (relative_text raw).
Proof.
  intros Hs H. assert (Forall P (replace_byte p_backslash p_slash raw)) as Hr.
  { unfold replace_byte. apply Forall_fmap. eapply Forall_impl; [exact H|]. intros x Hx. cbn. by case_decide. }
  unfold relative_text. destruct Hr as [|b t Hb Ht]; [constructor|]. by destruct (is_byte p_slash b); [|constructor].
Qed.
Lemma parsed_path_ok raw p : GuestPath_parse raw = Ok p -> utf8_valid raw = true -> is_reserved p = false -> guest_path_ok p.
Proof.
  intros H Hu Hr. apply GuestPath_parse_iff in H as (Hn & _ & _ & _ & _ & -> & Hl).
  assert (forall c (P : bytes -> Prop), Forall P (split_on p_slash (relative_text raw)) ->
    c ∈ filter (fun c => c <> dot) (split_on p_slash (relative_text raw)) -> P c) as Hall.
  { intros c P HP Hc. apply list_elem_of_filter in Hc as [_ Hc]. rewrite Forall_forall in HP. by apply HP. }
  split_and!; [done| | |].
  - assert (Forall (fun x => x <> Byte.x00) raw) as Hraw by (apply Forall_forall; intros x Hx ->; done).
    apply (relative_text_bytes (fun x => x <> Byte.x00)) in Hraw; [|done]. apply (split_by_bytes _ (is_byte p_slash)) in Hraw.
    assert (Forall (fun x => x <> Byte.x00) (join_with [p_slash] (filter (fun c => c <> dot) (split_on p_slash (relative_text raw))))) as Hj.
    { apply join_bytes; [done|]. apply Forall_forall. intros c. by apply Hall. }
    rewrite Forall_forall in Hj. intros Hin. by apply (Hj _ Hin).
  - rewrite utf8_join by done. apply forallb_forall. intros c Hc. apply (Hall c (fun c => utf8_valid c = true)); [|by apply list_elem_of_In].
    apply List.Forall_forall, forallb_forall. rewrite utf8_split by done. by apply relative_text_utf8.
  - intros E. rewrite E in Hr. done.
Qed.

(** What the guest finds: the init binary at [/init], executable; each entry at
    its path; any other path as in the base. *)
Definition shows (init : bytes) (entries : list GuestOverlayEntry) (base_views image_views : list NewcView) : Prop :=
  (exists w, last_named init_name image_views = Some w /\ nv_mode w = 33261 /\ nv_body w = init)
  /\ (forall e, e ∈ entries -> exists p w, GuestPath_parse (goe_path e) = Ok p /\ last_named p image_views = Some w /\
       match goe_kind e with
       | Overlay_File content mode _ => nv_mode w = Z.lor 32768 (Z.land mode 511) /\ nv_body w = content
       | Overlay_Directory mode => nv_mode w = Z.lor 16384 (Z.land mode 511) /\ nv_body w = []
       end)
  /\ (forall p, p <> init_name -> (forall e, e ∈ entries -> GuestPath_parse (goe_path e) <> Ok p) ->
       last_named p image_views = last_named p base_views).

Definition boot_files (v : ValidatedOverlay) (init : bytes) : list ResolvedFile := sort_by_key rf_path (vo_files v ++ [init_overlay_file init]).

Lemma overlay_shows entries v init vs : validate_entries entries = Ok v ->
  shows init entries vs (vs ++ overlay_views (boot_files v init) (vo_dirs v)).
Proof.
  intros H. apply validate_entries_ok in H as (xs & -> & Hp & Hd & Hr & _ & ->). cbn [vo_files vo_dirs].
  set (files := boot_files _ _). set (dirs := sort_by_key vd_path _).
  assert (files ≡ₚ omap placed_file xs ++ [init_overlay_file init]) as Hf 
    by (unfold files, boot_files; cbn [vo_files]; rewrite (sort_by_key_perm rf_path (_ ++ _)); apply Permutation_app_tail, sort_by_key_perm).
  assert (dirs ≡ₚ omap placed_dir xs) as Hds by apply sort_by_key_perm.
  assert ((vd_path <$> dirs) ++ (rf_path <$> files) ≡ₚ xs.*1 ++ [init_name]) as Hnames.
  { rewrite Hf, Hds, fmap_app, app_assoc, placed_paths. done. }
  assert (init_name ∉ xs.*1) as Hi.
  { intros Hin. apply list_elem_of_fmap in Hin as (x & E & Hx). rewrite Forall_forall in Hr. specialize (Hr x Hx). by rewrite <-E in Hr. }
  assert (NoDup (nv_name <$> overlay_views files dirs)) as Hnd.
  { rewrite overlay_names, Hnames, NoDup_app. split_and!; [done| |apply NoDup_singleton]. set_solver. }
  assert (forall f, f ∈ files -> exists i, last_named (rf_path f) (vs ++ overlay_views files dirs) = Some (file_view i f)) as Hfile.
  { intros f Hin. destruct (elem_of_numbered file_view files (inode_after ROOTFS_INODE_BASE dirs) f Hin) as [i Hv]. exists i.
    apply (last_named_overlaid vs _ (file_view i f)); [done|]. unfold overlay_views. set_solver. }
  assert (forall d, d ∈ dirs -> exists i, last_named (vd_path d) (vs ++ overlay_views files dirs) = Some (dir_view i d)) as Hdir.
  { intros d Hin. destruct (elem_of_numbered dir_view dirs ROOTFS_INODE_BASE d Hin) as [i Hv]. exists i.
    apply (last_named_overlaid vs _ (dir_view i d)); [done|]. unfold overlay_views. set_solver. }
  split_and!.
  - destruct (Hfile (init_overlay_file init)) as [i E]; [rewrite Hf; set_solver|]. eexists. split; [exact E|done].
  - intros e He. apply list_elem_of_fmap in He as ([p e'] & -> & Hx). cbn. rewrite Forall_forall in Hp. specialize (Hp _ Hx).
    exists p. destruct (goe_kind e') as [content mode origin|mode] eqn:Ek.
    + destruct (Hfile {| rf_path := p; rf_mode := mode; rf_data := content; rf_origin := origin |}) as [i E]; [|eexists; split; [done|]; split; [exact E|done]].
      rewrite Hf. apply elem_of_app. left. apply list_elem_of_omap. exists (p, e'). split; [done|]. unfold placed_file. cbn. by rewrite Ek.
    + destruct (Hdir {| vd_path := p; vd_mode := mode |}) as [i E]; [|eexists; split; [done|]; split; [exact E|done]].
      rewrite Hds. apply list_elem_of_omap. exists (p, e'). split; [done|]. unfold placed_dir. cbn. by rewrite Ek.
  - intros p Hne Hnone. apply last_named_under. rewrite overlay_names, Hnames. intros Hin. apply elem_of_app in Hin as [Hin|Hin]; [|set_solver].
    apply list_elem_of_fmap in Hin as (x & -> & Hx). rewrite Forall_forall in Hp. apply (Hnone x.2); [apply list_elem_of_fmap; eauto|by apply Hp].
Qed.

Definition text_entry (e : GuestOverlayEntry) : Prop := utf8_valid (goe_path e) = true.

(** ** The cache returns the image of its inputs *)

Section Prepared.
Context `{N : NewcCrate, L : !NewcLaws} (blake3 : bytes -> bytes) `{SM : Serde RootfsManifest, SL : !SerdeLaws RootfsManifest}.

Lemma merged_image_reads base files dirs vs : reads base vs ->
  Forall (fun f => guest_path_ok (rf_path f)) files -> Forall (fun d => guest_path_ok (vd_path d)) dirs -> Forall small_file files ->
  exists image, merged_image base files dirs = Ok image /\ reads image (vs ++ overlay_views files dirs).
Proof.
  intros Hb Hf Hd Hs. destruct (overlay_to_cpio_reads files dirs Hf Hd Hs) as (o & Eo & Ho).
  destruct (merge_rootfs_reads base o _ _ Hb Ho) as (m & Em & Hm). exists m. unfold merged_image. by rewrite Eo, res_bind_ok, Em.
Qed.
Lemma merged_image_small base files dirs image : merged_image base files dirs = Ok image ->
  Forall small_file files /\ exists vs, reads base vs.
Proof.
  unfold merged_image. rewrite map_err_ok, bind_ok_iff. intros (o & Ho & Hm). apply merge_rootfs_base in Hm.
  split; [|done]. unfold overlay_to_cpio in Ho. rewrite emit_dirs_exact, bind_ok_iff in Ho. destruct Ho as (st & Ho & _).
  by apply emit_files_exact in Ho as [? _].
Qed.

Lemma accepted_paths entries v init : validate_entries entries = Ok v -> Forall text_entry entries ->
  Forall (fun f => guest_path_ok (rf_path f)) (boot_files v init) /\ Forall (fun d => guest_path_ok (vd_path d)) (vo_dirs v).
Proof.
  intros H Ht. apply validate_entries_ok in H as (xs & -> & Hp & _ & Hr & _ & ->).
  assert (forall x, x ∈ xs -> guest_path_ok x.1) as Hok.
  { intros x Hx. rewrite Forall_forall in Hp, Hr. rewrite Forall_forall in Ht. eapply parsed_path_ok; [by apply Hp|apply Ht, list_elem_of_fmap; eauto|by apply Hr]. }
  assert (forall A (f : placed -> option A) (key : A -> bytes), (forall x y, f x = Some y -> key y = x.1) ->
    Forall (fun y => guest_path_ok (key y)) (omap f xs)) as Hom.
  { intros A f key Hk. apply Forall_forall. intros y Hy. apply list_elem_of_omap in Hy as (x & Hx & E).
    rewrite (Hk _ _ E). by apply Hok. }
  unfold boot_files. cbn [vo_files vo_dirs]. rewrite !sort_by_key_perm, Forall_app, Forall_singleton. split_and!.
  - apply Hom. intros [p e] f. unfold placed_file. cbn. by destruct (goe_kind e) as [content mode origin|]; intros [= <-].
  - split_and!; [done|by apply (bool_decide_eq_true_1 (Byte.x00 ∉ init_name)); vm_compute|done|done].
  - apply Hom. intros [p e] f. unfold placed_dir. cbn. by destruct (goe_kind e); intros [= <-].
Qed.

(** *** Keys identify inputs *)

Lemma hex_text_inj a b : hex_text a = hex_text b -> a = b.
Proof.
  revert b. induction a as [|x a IH]; intros [|y b]; [done|done|done|]. unfold hex_text in *. cbn [map concat]. intros E.
  apply app_inj_1 in E as [Ex Ea]; [|done]. f_equal; [|by apply IH]. apply (f_equal (parse_hex 8 0)) in Ex.
  rewrite !parse_hex_printed in Ex by (done || apply b2z_range). injection Ex as Ex. by apply b2z_inj.
Qed.
Lemma digest_text_inj a b : digest_text blake3 a = digest_text blake3 b -> a = b \/ collision blake3.
Proof. unfold digest_text. intros E. apply app_inv_head, hex_text_inj in E. by apply sha256_inj. Qed.

Lemma file_manifests_inj fs fs' : map (file_manifest blake3) fs = map (file_manifest blake3) fs' -> fs = fs' \/ collision blake3.
Proof.
  revert fs'. induction fs as [|f fs IH]; intros [|f' fs']; cbn; [by left|done|done|]. intros E. injection E as Ho Hp Hm Hd _ E.
  destruct (IH _ E) as [->|?]; [|by right]. apply hex_text_inj, sha256_inj in Hd; destruct Hd as [?|?]; [left|by right].
  destruct f, f'. cbn in *. congruence.
Qed.
Lemma dir_manifests_inj ds ds' : map dir_manifest ds = map dir_manifest ds' -> ds = ds'.
Proof. revert ds'. induction ds as [|[p m] ds IH]; intros [|[p' m'] ds']; cbn; [done|done|done|]. intros [= -> -> E]. f_equal. by apply IH. Qed.

Lemma manifest_key_inj base files dirs base' files' dirs' key :
  rootfs_manifest_key blake3 base files dirs = Ok key -> rootfs_manifest_key blake3 base' files' dirs' = Ok key ->
  (base = base' /\ files = files' /\ dirs = dirs') \/ collision blake3.
Proof.
  unfold rootfs_manifest_key. destruct (serde_round_trip (rootfs_manifest blake3 base files dirs)) as (j & Ej & Dj).
  destruct (serde_round_trip (rootfs_manifest blake3 base' files' dirs')) as (j' & Ej' & Dj'). rewrite Ej, Ej'. cbn.
  intros [= <-] [= E]. apply hex_text_inj, sha256_inj in E; destruct E as [->|?]; [|by right]. rewrite Dj in Dj'.
  injection Dj' as Eb _ Ef Ed. apply dir_manifests_inj in Ed as ->. destruct (file_manifests_inj _ _ Ef) as [->|?]; [|by right].
  apply hex_text_inj, sha256_inj in Eb; destruct Eb as [->|?]; [|by right]. by left.
Qed.

(** *** Completion records *)

(** A record for its own key describes the image of some inputs with that key. *)
Definition honest_record (key : bytes) (m : RootfsMetadata) : Prop :=
  rmd_schema_version m = CACHE_SCHEMA_VERSION -> rmd_key m = key ->
  exists base files dirs image, rootfs_manifest_key blake3 base files dirs = Ok key
    /\ merged_image base files dirs = Ok image /\ rmd_artifact m = artifact_metadata blake3 image.
Definition honest (cache : derived_cache) : Prop := map_Forall honest_record (dc_records cache).

Lemma cache_hit_exact io cache base files dirs key : honest cache -> rootfs_manifest_key blake3 base files dirs = Ok key ->
  cache_hit blake3 io cache key = Ok true ->
  collision blake3 \/ exists image, dc_files cache !! key = Some image /\ merged_image base files dirs = Ok image.
Proof.
  intros Hh Hk Hc. unfold cache_hit in Hc. destruct (dc_records cache !! key) as [m|] eqn:Em; [|done].
  destruct (_ && _) eqn:Hb in Hc; [|done]. rewrite !andb_true_iff, Z.eqb_eq, bool_decide_eq_true in Hb. destruct Hb as [[[_ Hv] Hkey] [_ Ha]].
  destruct (Hh _ _ Em Hv Hkey) as (base' & files' & dirs' & image & Hk' & Hi & Ea).
  unfold artifact_matches in Ha. destruct (dc_files cache !! key) as [c|]; [|done].
  apply andb_true_iff in Ha as [_ Ha]. apply bool_decide_eq_true in Ha. rewrite Ea in Ha. injection Ha as Ha _.
  apply hex_text_inj, sha256_inj in Ha as [->|?]; [|by left].
  destruct (manifest_key_inj _ _ _ _ _ _ _ Hk Hk') as [(-> & -> & ->)|?]; [right; eauto|by left].
Qed.

(** [prepare_inner] keeps the records honest and returns the merged image. *)
Definition prepared (base : bytes) (files : list ResolvedFile) (dirs : list ValidatedDir) (run : res BootImageError bytes * derived_cache) : Prop :=
  honest run.2 /\ forall key, run.1 = Ok key ->
    collision blake3 \/ exists image, dc_files run.2 !! key = Some image /\ merged_image base files dirs = Ok image.
Lemma prepared_try {A} base files dirs cache (r : res BootImageError A) k : honest cache ->
  (forall a, r = Ok a -> prepared base files dirs (k a)) -> prepared base files dirs (try_in cache r k).
Proof. intros Hh Hk. destruct r; cbn; [by apply Hk|done..]. Qed.
Lemma prepare_inner_exact path base files dirs io cache : honest cache ->
  prepared base files dirs (prepare_inner blake3 (path, Some base) files dirs io cache).
Proof.
  intros Hh. unfold prepare_inner. apply prepared_try; [done|]. intros b [= <-]. apply prepared_try; [done|]. intros key Hk.
  apply prepared_try; [done|]. intros _ _. apply prepared_try; [done|]. intros hit Hc. destruct hit.
  { split; [done|]. intros k [= <-]. by eapply cache_hit_exact. }
  apply prepared_try; [done|]. intros image Hi. destruct (io_published io); [done..|]. split.
  - unfold honest. cbn. apply map_Forall_insert_2; [|done]. intros _ _. exists base, files, dirs, image. done.
  - intros k [= <-]. right. exists image. cbn. by rewrite lookup_insert_eq.
Qed.

(** Whatever the derived cache's files hold, a prepared boot image is the
    base archive with the overlay applied: the guest finds the init binary at
    [/init] with mode 755, every overlay entry at its canonical path with its
    content and mode, and every other path as in the base, or else BLAKE3 has a
    collision; and the cache stays one whose completion records describe images
    that were merged for their keys. *)
Theorem boot_image_exact path base entries init io cache key cache' :
  honest cache -> Forall text_entry entries ->
  prepare_boot_artifacts blake3 (path, Some base) entries (Some init) io cache = (Ok key, cache') ->
  honest cache' /\
  (collision blake3 \/
   exists image vs ivs, dc_files cache' !! key = Some image /\ reads base vs /\ reads image ivs /\ shows init entries vs ivs).
Proof.
  intros Hh Ht. unfold prepare_boot_artifacts. destruct (validate_entries entries) as [v|e|] eqn:Hv; [|done..]. cbn [try_in ok_or]. intros E.
  destruct (prepare_inner_exact path base (boot_files v init) (vo_dirs v) io cache Hh) as [Hh' H]. unfold boot_files in H, Hh'.
  rewrite E in H, Hh'. split; [done|].
  destruct (H key eq_refl) as [?|(image & Hf & Hi)]; [by left|right]. destruct (merged_image_small _ _ _ _ Hi) as [Hs [vs Hb]].
  destruct (accepted_paths _ _ init Hv Ht) as [Hfs Hds].
  destruct (merged_image_reads _ _ _ _ Hb Hfs Hds Hs) as (image' & Hi' & Hr). unfold boot_files in Hi'. rewrite Hi in Hi'. injection Hi' as <-.
  exists image, vs, (vs ++ overlay_views (boot_files v init) (vo_dirs v)). split_and!; [done..|]. by apply overlay_shows.
Qed.

(** Every accepted overlay whose files fit an archive is merged when the file
    system cooperates. *)
Lemma prepare_succeeds path base entries v init vs io cache : Forall text_entry entries -> validate_entries entries = Ok v ->
  Forall small_file (boot_files v init) -> reads base vs -> io_directory io = true -> io_validate io = true -> io_published io = Pub_all ->
  exists key cache', prepare_boot_artifacts blake3 (path, Some base) entries (Some init) io cache = (Ok key, cache').
Proof.
  intros Ht Hv Hs Hb Hd Hval Hp. destruct (accepted_paths _ _ init Hv Ht) as [Hfs Hds].
  destruct (merged_image_reads _ _ _ _ Hb Hfs Hds Hs) as (image & Hi & _). unfold boot_files in Hi.
  unfold prepare_boot_artifacts. rewrite Hv. cbn [try_in ok_or]. unfold prepare_inner, rootfs_manifest_key.
  cbn [snd try_in ok_or].
  destruct (serde_round_trip (rootfs_manifest blake3 base (sort_by_key rf_path (vo_files v ++ [init_overlay_file init])) (vo_dirs v))) as (j & -> & _).
  cbn [ok_or mbind res_bind try_in]. rewrite Hd, Hi, Hp. cbn [negb fail_if try_in].
  assert (exists hit, cache_hit blake3 io cache (digest_text blake3 j) = Ok hit) as [[] ->]; [|cbn; eauto..].
  unfold cache_hit. rewrite Hval. destruct (dc_records cache !! _); [|eauto]. cbn [negb fail_if]. case_match; cbn; eauto.
Qed.
End Prepared.

(** ** A boot image *)

Module OverlayExample.
#[local] Instance FileManifest_eq_dec : EqDecision FileManifest.
Proof. solve_decision. Defined.
#[local] Instance DirManifest_eq_dec : EqDecision DirManifest.
Proof. solve_decision. Defined.
#[local] Instance RootfsManifest_eq_dec : EqDecision RootfsManifest.
Proof. solve_decision. Defined.
#[local] Instance FileManifest_countable : Countable FileManifest.
Proof.
  refine (inj_countable' (fun f => (fm_origin f, fm_path f, fm_mode f, fm_digest f, fm_size f))
    (fun '(o, p, m, d, s) => {| fm_origin := o; fm_path := p; fm_mode := m; fm_digest := d; fm_size := s |}) _). by intros [].
Defined.
#[local] Instance DirManifest_countable : Countable DirManifest.
Proof.
  refine (inj_countable' (fun d => (dm_path d, dm_mode d)) (fun '(p, m) => {| dm_path := p; dm_mode := m |}) _). by intros [].
Defined.
#[local] Instance RootfsManifest_countable : Countable RootfsManifest.
Proof.
  refine (inj_countable' (fun r => (rm_schema_version r, rm_base r, rm_base_size r, rm_files r, rm_dirs r))
    (fun '(v, b, s, f, d) => {| rm_schema_version := v; rm_base := b; rm_base_size := s; rm_files := f; rm_dirs := d |}) _). by intros [].
Defined.
#[local] Existing Instances HcsExample.countable_serde HcsExample.countable_serde_laws.

(** A hash for the example. *)
Definition toy_hash (b : bytes) : bytes := [z2b (len b); z2b (foldl Z.add 0 (map b2z b))].
Definition base_file (name body : bytes) : NewcView := built_entry name 33188 7 1 body.
Definition base_views : list NewcView := [base_file (str "etc/hosts") (str "localhost"); base_file (str "init") (str "#!/bin/sh")].
Definition base_archive : bytes := concat (map newc_write base_views) ++ newc_write trailer_view.
Definition file (path content : bytes) : GuestOverlayEntry := {| goe_path := path; goe_kind := Overlay_File content 420 (str "bytes:x") |}.
Definition dir (path : bytes) : GuestOverlayEntry := {| goe_path := path; goe_kind := Overlay_Directory 493 |}.
Definition entries : list GuestOverlayEntry := [file (str "/etc/./hosts") (str "10.0.0.1 host"); dir (str "srv")].
Definition cold : derived_cache := {| dc_files := ∅; dc_records := ∅ |}.
Definition working : cache_io := {| io_directory := true; io_record := true; io_artifact := true; io_validate := true; io_published := Pub_all |}.
Definition first_run : res BootImageError bytes * derived_cache :=
  prepare_boot_artifacts toy_hash (str "base.cpio", Some base_archive) entries (Some (str "ELF")) working cold.
Definition boot_key : bytes := match first_run.1 with Ok key => key | _ => [] end.

Lemma boot_image_exact_witness :
  first_run.1 = Ok boot_key /\ honest toy_hash first_run.2 /\
  (collision toy_hash \/
   exists image vs ivs, dc_files first_run.2 !! boot_key = Some image /\ reads base_archive vs /\ reads image ivs
     /\ shows (str "ELF") entries vs ivs).
Proof.
  assert (first_run = (Ok boot_key, first_run.2)) as E by (vm_compute; reflexivity).
  split; [by rewrite E|].
  apply (boot_image_exact toy_hash (str "base.cpio") base_archive entries (str "ELF") working cold boot_key first_run.2).
  - apply map_Forall_empty.
  - repeat constructor.
  - exact E.
Defined.

(** The second run is a hit, and a damaged file is rebuilt. *)
Definition damaged (cache : derived_cache) : derived_cache :=
  {| dc_files := <[boot_key := str "garbage"]> (dc_files cache); dc_records := dc_records cache |}.
Example damaged_file_rebuilt :
  cache_hit toy_hash working first_run.2 boot_key = Ok true /\ cache_hit toy_hash working (damaged first_run.2) boot_key = Ok false
  /\ dc_files (prepare_boot_artifacts toy_hash (str "base.cpio", Some base_archive) entries (Some (str "ELF")) working (damaged first_run.2)).2 !! boot_key
     = dc_files first_run.2 !! boot_key.
Proof. split_and!; vm_compute; reflexivity. Qed.

(** Refused overlays. *)
Example refused_overlays :
  is_ok (validate_entries [file (str "init") []]) = false
  /\ is_ok (validate_entries [file (str "/init/x") []]) = false
  /\ is_ok (validate_entries [file (str "etc/../init") []]) = false
  /\ is_ok (validate_entries [file (str "a") []; file (str "./a") []]) = false
  /\ is_ok (validate_entries [file (str "a/b") []; file (str "a") []]) = false
  /\ is_ok (validate_entries [dir (str "a"); file (str "a/b") []]) = true.
Proof. vm_compute. done. Qed.
End OverlayExample.
