(* ===== verification/BootCache.v ===== *)
(** * The derived boot cache

    [libs/boot-image/src/cache.rs] with [HcsBootArtifactProvider] of
    [libs/jyth/src/adapters/runtime.rs]: how bytes are published under a
    content-derived name while other processes publish the same name, and the
    run directory ([kernel.bin], [initrd.img], [metadata.json]) of a machine. *)

From Stdlib Require Import ZArith Lia Ascii.
From stdpp Require Import base tactics option list numbers strings gmap.
From S2P Require Import Prelude Bytes Text AuthProof Guid Newc Net HcsJournal HcsExample Runtime Overlay.

(** ** Publication

    An error is contention ([AlreadyExists], [PermissionDenied]) or another one. *)

Inductive io_error := Contended | OtherError.
Definition contended (e : io_error) : bool := match e with Contended => true | OtherError => false end.

Inductive cache_call :=
  | CreateDirs
  | WriteTemp (b : bytes)
  | Rename
  | HasSize (expected : Z)
  | FileIdentity
  | RemoveTemp
  | RemoveDestination.
Definition cache_answer (c : cache_call) : Type :=
  match c with
  | CreateDirs | WriteTemp _ | Rename => res io_error unit
  | HasSize _ => bool
  | FileIdentity => res io_error (bytes * Z)
  | RemoveTemp | RemoveDestination => unit
  end.
Definition cache_fx : effects := {| ext := cache_call; ext_ans := cache_answer |}.
Definition publisher : Type := prog cache_fx io_error unit.
Definition call (c : cache_call) : prog cache_fx io_error (cache_answer c) := Ext (F:=cache_fx) c (fun a => Done (Ok a)).
Definition fallible {A} (c : cache_call) (as_res : cache_answer c -> res io_error A) : prog cache_fx io_error A :=
  Ext (F:=cache_fx) c (fun a => Done (as_res a)).

Definition PUBLISH_RETRY_ATTEMPTS : nat := 3.
(** [let _ = fs::remove_file(temp); return Err(error)] *)
Definition give_up_with {A} (e : io_error) : prog cache_fx io_error A := _ ← call RemoveTemp; Done (Err e).

Section Publish.
Context (blake3 : bytes -> bytes).

Definition file_matches (expected_hash : bytes) (expected_size : Z) : prog cache_fx io_error bool :=
  sized ← call (HasSize expected_size);
  if sized : bool then
    '(actual_hash, actual_size) ← fallible FileIdentity id;
    mret ((actual_size =? expected_size) && bool_decide (actual_hash = expected_hash))
  else mret false.

Inductive loop_end := Loop_renamed | Loop_accepted | Loop_exhausted.
(** The rename of one attempt; contention goes on. *)
Definition rename_or (next : prog cache_fx io_error loop_end) : prog cache_fx io_error loop_end :=
  Ext (F:=cache_fx) Rename (fun r =>
    match r with
    | Ok _ => mret Loop_renamed
    | Err e => if contended e then next else give_up_with e
    | Panic => Done Panic
    end).
Fixpoint publish_attempts (attempts : nat) (expected_hash : bytes) (expected_size : Z) : prog cache_fx io_error loop_end :=
  match attempts with
  | O => mret Loop_exhausted
  | S attempts =>
      let next := rename_or (publish_attempts attempts expected_hash expected_size) in
      ptry (fun m =>
        match m with
        | Ok true => mret Loop_accepted
        | Ok false => next
        | Err e => if contended e then next else give_up_with e
        | Panic => Done Panic
        end) (file_matches expected_hash expected_size)
  end.

(** After the loop: accepted, or the stale destination is replaced. *)
Definition finish_publication (e : loop_end) : publisher :=
  match e with
  | Loop_renamed => mret tt
  | Loop_accepted => _ ← call RemoveTemp; mret tt
  | Loop_exhausted =>
      _ ← call RemoveDestination;
      Ext (F:=cache_fx) Rename (fun r => match r with Ok _ => mret tt | Err e => give_up_with e | Panic => Done Panic end)
  end.

Definition publish_temp (expected_hash : bytes) (expected_size : Z) : publisher :=
  _ ← fallible CreateDirs id;
  Ext (F:=cache_fx) Rename (fun r =>
    match r with
    | Ok _ => mret tt
    | Err e =>
        if contended e then publish_attempts (S PUBLISH_RETRY_ATTEMPTS) expected_hash expected_size ≫= finish_publication
        else give_up_with e
    | Panic => Done Panic
    end).

(** [if result.is_err() { let _ = fs::remove_file(&temp); }] *)
Definition removing_temp (p : publisher) : publisher :=
  ptry (fun r => match r with Err e => give_up_with e | _ => Done r end) p.
Definition atomic_write (b : bytes) : publisher :=
  _ ← fallible CreateDirs id;
  removing_temp (_ ← fallible (WriteTemp b) id; publish_temp (blake3 b) (len b)).

(** ** Publishers of one name

    All publish the same content [c]; [w_dest] is the file under the shared
    name, each process has a temporary of its own.  A process that died is
    [None]. *)

Context (c : bytes).
Record process := { p_prog : publisher; p_temp : option bytes }.
Record world := { w_dest : option bytes; w_procs : list (option process) }.

Definition answers (temp dest : option bytes) (x : cache_call) : cache_answer x -> option bytes -> option bytes -> Prop :=
  match x return cache_answer x -> option bytes -> option bytes -> Prop with
  | CreateDirs => fun a temp' dest' => a <> Panic /\ temp' = temp /\ dest' = dest
  | WriteTemp b => fun a temp' dest' => a <> Panic /\ (a = Ok tt -> temp' = Some b) /\ dest' = dest
  | Rename => fun a temp' dest' =>
      (a = Ok tt /\ temp <> None /\ dest' = temp /\ temp' = None) \/ ((exists e, a = Err e) /\ temp' = temp /\ dest' = dest)
  | HasSize n => fun a temp' dest' => temp' = temp /\ dest' = dest
  | FileIdentity => fun a temp' dest' =>
      ((exists d, dest = Some d /\ a = Ok (blake3 d, len d)) \/ exists e, a = Err e) /\ temp' = temp /\ dest' = dest
  | RemoveTemp => fun _ temp' dest' => (temp' = None \/ temp' = temp) /\ dest' = dest
  | RemoveDestination => fun _ temp' dest' => temp' = temp /\ (dest' = None \/ dest' = dest)
  end.

Definition proc_step (p : process) (dest : option bytes) (p' : process) (dest' : option bytes) : Prop :=
  match p_prog p with
  | Ext x k => exists a, answers (p_temp p) dest x a (p_temp p') dest' /\ p_prog p' = k a
  | _ => False
  end.

Inductive step (w : world) : world -> Prop :=
  | step_call i p p' dest' :
      w_procs w !! i = Some (Some p) -> proc_step p (w_dest w) p' dest' ->
      step w {| w_dest := dest'; w_procs := <[i := Some p']> (w_procs w) |}
  | step_die i p : w_procs w !! i = Some (Some p) -> step w {| w_dest := w_dest w; w_procs := <[i := None]> (w_procs w) |}
  | step_start : step w {| w_dest := w_dest w; w_procs := w_procs w ++ [Some {| p_prog := atomic_write c; p_temp := None |}] |}.

Inductive reachable (old : option bytes) : world -> Prop :=
  | reach_initial : reachable old {| w_dest := old; w_procs := [] |}
  | reach_step w w' : reachable old w -> step w w' -> reachable old w'.

(** *** Program points *)

Fixpoint doomed (p : publisher) : Prop :=
  match p with
  | Done r => r <> Ok tt
  | Ext RemoveTemp k => forall a, doomed (k a)
  | Ext _ _ | ReadExact _ _ | Act _ _ | Reserve _ _ | Elapsed _ => False
  end.
Definition attempts_then (n : nat) : publisher :=
  removing_temp (publish_attempts n (blake3 c) (len c) ≫= finish_publication).
Definition identify_then (n : nat) : publisher :=
  removing_temp (ptry (fun m =>
        match m with
        | Ok true => mret Loop_accepted
        | Ok false => rename_or (publish_attempts n (blake3 c) (len c))
        | Err e => if contended e then rename_or (publish_attempts n (blake3 c) (len c)) else give_up_with e
        | Panic => Done Panic
        end) ('(actual_hash, actual_size) ← fallible FileIdentity id;
              mret ((actual_size =? len c) && bool_decide (actual_hash = blake3 c))) ≫= finish_publication).
Definition rename_then (n : nat) : publisher :=
  removing_temp (rename_or (publish_attempts n (blake3 c) (len c)) ≫= finish_publication).
Definition replacing : publisher :=
  removing_temp (Ext (F:=cache_fx) Rename (fun r => match r with Ok _ => mret tt | Err e => give_up_with e | Panic => Done Panic end)).
Definition accepted : publisher := removing_temp (finish_publication Loop_accepted).
Definition writing : publisher := removing_temp (_ ← fallible (WriteTemp c) id; publish_temp (blake3 c) (len c)).
Definition placing : publisher := removing_temp (publish_temp (blake3 c) (len c)).
Definition first_rename : publisher :=
  removing_temp (Ext (F:=cache_fx) Rename (fun r =>
    match r with
    | Ok _ => mret tt
    | Err e =>
        if contended e then publish_attempts (S PUBLISH_RETRY_ATTEMPTS) (blake3 c) (len c) ≫= finish_publication
        else give_up_with e
    | Panic => Done Panic
    end)).

Inductive phase (temp : option bytes) : publisher -> Prop :=
  | ph_start : phase temp (atomic_write c)
  | ph_write : phase temp writing
  | ph_place : temp = Some c -> phase temp placing
  | ph_first : temp = Some c -> phase temp first_rename
  | ph_attempt n : temp = Some c -> phase temp (attempts_then n)
  | ph_identify n : temp = Some c -> phase temp (identify_then n)
  | ph_rename n : temp = Some c -> phase temp (rename_then n)
  | ph_replace : temp = Some c -> phase temp replacing
  | ph_accepted : phase temp accepted
  | ph_done : phase temp (Done (Ok tt))
  | ph_doomed p : doomed p -> phase temp p.

Definition matched (dest : option bytes) : Prop := exists d, dest = Some d /\ blake3 d = blake3 c /\ len d = len c.
Definition settled (p : publisher) : Prop := p = accepted \/ p = Done (Ok tt).
Definition hazard (p : publisher) : Prop := p = replacing \/ doomed p.

Lemma doomed_step q temp dest temp' q' dest' : doomed q ->
  match q with Ext x k => exists a, answers temp dest x a temp' dest' /\ q' = k a | _ => False end -> doomed q' /\ dest' = dest.
Proof. destruct q as [r| | | | |x k]; try done. destruct x; try done. intros Hd (a & [_ ->] & ->). split; [apply Hd|done]. Qed.
Lemma gave_up_doomed_once e : doomed (give_up_with e).
Proof. by intros []. Qed.
Lemma gave_up_doomed e : doomed (removing_temp (give_up_with e)).
Proof. by intros [] []. Qed.

(** The state of the destination and of the process after one call. *)
Definition outcome (p : publisher) (dest : option bytes) (temp' : option bytes) (p' : publisher) (dest' : option bytes) : Prop :=
  phase temp' p'
  /\ (dest' = dest \/ dest' = Some c \/ dest' = None /\ hazard p')
  /\ (settled p' -> settled p \/ matched dest')
  /\ (hazard p -> hazard p' \/ matched dest').

Lemma outcome_quiet p dest temp' p' : phase temp' p' -> ~ settled p' -> ~ hazard p -> outcome p dest temp' p' dest.
Proof. unfold outcome. tauto. Qed.
Lemma outcome_doomed p dest temp' p' : doomed p' -> outcome p dest temp' p' dest.
Proof.
  intros Hd. split_and!; [by apply ph_doomed|by left| |by left; right]. intros [E|E]; rewrite E in Hd; [|by destruct Hd].
  exfalso. by apply (Hd tt).
Qed.
Lemma outcome_renamed p dest temp' : outcome p dest temp' (Done (Ok tt)) (Some c).
Proof. split_and!; [apply ph_done|by right; left| |]; intros _; right; by exists c. Qed.

(** The call that follows a contended rename. *)
Definition after_contention (p : publisher) : option cache_call :=
  match p with
  | Ext x k =>
      match x return (cache_answer x -> publisher) -> option cache_call with
      | Rename => fun k => match k (Err Contended) with Ext y _ => Some y | _ => None end
      | _ => fun _ => None
      end k
  | _ => None
  end.
Ltac not_here :=
  intros [E|E]; first [apply (f_equal after_contention) in E; discriminate E|cbn in E; first [discriminate E|by destruct E|by destruct (E tt)]].

(** What one call of a publisher can do. *)
Lemma phase_step p dest p' dest' : phase (p_temp p) (p_prog p) -> proc_step p dest p' dest' ->
  outcome (p_prog p) dest (p_temp p') (p_prog p') dest'.
Proof.
  intros Hp Hs.
  unfold proc_step in Hs. destruct Hp as [| |Ht|Ht|n Ht|n Ht|n Ht|Ht| | |q Hq].
  - cbn in Hs. destruct Hs as (a & (Ha & -> & ->) & ->). destruct a as [[]|e|]; [|by apply outcome_doomed|done].
    apply outcome_quiet; [apply ph_write|not_here|not_here].
  - cbn in Hs. destruct Hs as (a & (Ha & Ht & ->) & ->). destruct a as [[]|e|]; [|apply outcome_doomed, (gave_up_doomed_once e)|done].
    apply outcome_quiet; [by apply ph_place, Ht|not_here|not_here].
  - cbn in Hs. destruct Hs as (a & (Ha & -> & ->) & ->). destruct a as [[]|e|]; [|apply outcome_doomed, (gave_up_doomed_once e)|done].
    apply outcome_quiet; [by apply ph_first|not_here|not_here].
  - cbn in Hs. destruct Hs as (a & Ha & ->). destruct Ha as [(-> & _ & -> & _)|([e ->] & -> & ->)].
    + rewrite Ht. apply outcome_renamed.
    + destruct e; [|apply outcome_doomed, gave_up_doomed]. apply outcome_quiet; [by apply (ph_attempt _ 4)|not_here|not_here].
  - destruct n as [|n]; cbn in Hs.
    + destruct Hs as (a & (-> & Hd) & ->). split_and!; [by apply ph_replace| |not_here|not_here].
      destruct Hd as [-> | ->]; [right; right; split; [done|by left]|by left].
    + destruct Hs as (a & (-> & ->) & ->). destruct a; apply outcome_quiet;
        [by apply (ph_identify _ n)|not_here|not_here|by apply (ph_rename _ n)|not_here|not_here].
  - cbn in Hs. destruct Hs as (a & (Ha & -> & ->) & ->). destruct Ha as [(d & -> & ->)|[e ->]]; cbn.
    + destruct ((len d =? len c) && bool_decide (blake3 d = blake3 c)) eqn:Em; cbn.
      * apply andb_true_iff in Em as [E1 E2]. apply Z.eqb_eq in E1. apply bool_decide_eq_true in E2.
        split_and!; [apply ph_accepted|by left|intros _; right; by exists d|not_here].
      * apply outcome_quiet; [by apply (ph_rename _ n)|not_here|not_here].
    + destruct e; [|apply outcome_doomed, gave_up_doomed].
      apply outcome_quiet; [by apply (ph_rename _ n)|not_here|not_here].
  - cbn in Hs. destruct Hs as (a & Ha & ->). destruct Ha as [(-> & _ & -> & _)|([e ->] & -> & ->)].
    + rewrite Ht. apply outcome_renamed.
    + destruct e; [|apply outcome_doomed, gave_up_doomed]. apply outcome_quiet; [by apply (ph_attempt _ n)|destruct n; not_here|destruct n; not_here].
  - cbn in Hs. destruct Hs as (a & Ha & ->). destruct Ha as [(-> & _ & -> & _)|([e ->] & -> & ->)].
    + rewrite Ht. apply outcome_renamed.
    + apply outcome_doomed, gave_up_doomed.
  - cbn in Hs. destruct Hs as (a & (_ & ->) & ->). split_and!; [apply ph_done|by left|by left; left|not_here].
  - done.
  - apply doomed_step in Hs as [Hd ->]; [|done]. by apply outcome_doomed.
Qed.

(** *** All processes *)

Definition hazardous (x : option process) : Prop := match x with Some p => hazard (p_prog p) | None => True end.
Record invariant (old : option bytes) (w : world) : Prop := {
  inv_phase i p : w_procs w !! i = Some (Some p) -> phase (p_temp p) (p_prog p);
  inv_dest : w_dest w = None \/ w_dest w = old \/ w_dest w = Some c;
  inv_settled i p : w_procs w !! i = Some (Some p) -> settled (p_prog p) ->
    matched (w_dest w) \/ exists j x, w_procs w !! j = Some x /\ hazardous x;
}.

Lemma invariant_call old w i p p' dest' : invariant old w -> w_procs w !! i = Some (Some p) -> proc_step p (w_dest w) p' dest' ->
  invariant old {| w_dest := dest'; w_procs := <[i := Some p']> (w_procs w) |}.
Proof.
  intros [Hph Hd Hse] Hi Hs. destruct (phase_step _ _ _ _ (Hph _ _ Hi) Hs) as (Hp & Hdest & Hset & Hhaz).
  pose proof (lookup_lt_Some _ _ _ Hi) as Hlt. split; cbn.
  - intros j q. destruct (decide (i = j)) as [<-|Hij]; [rewrite list_lookup_insert_eq by done; by intros [= <-]|].
    rewrite list_lookup_insert_ne by done. apply Hph.
  - destruct Hdest as [-> |[-> |[-> _]]]; auto.
  - assert (settled (p_prog p') \/ (exists j q, w_procs w !! j = Some (Some q) /\ settled (p_prog q)) ->
      matched dest' \/ exists j x, <[i := Some p']> (w_procs w) !! j = Some x /\ hazardous x) as Hgoal.
    { intros Hany. assert (matched dest' \/ matched (w_dest w) \/ exists j x, w_procs w !! j = Some x /\ hazardous x) as Hm.
      { destruct Hany as [Hs'|(j & q & Hj & Hq)]; [|right; exact (Hse _ _ Hj Hq)].
        destruct (Hset Hs') as [Ho|?]; [right; exact (Hse _ _ Hi Ho)|by left]. }
      destruct Hm as [?|[Hm|(j & x & Hj & Hx)]]; [by left| |].
      - destruct Hdest as [-> |[-> |[-> Hh]]]; [by left|left; by exists c|right; exists i, (Some p'); by rewrite list_lookup_insert_eq].
      - destruct (decide (i = j)) as [<-|Hij].
        + rewrite Hi in Hj. injection Hj as <-. destruct (Hhaz Hx) as [?|?]; [|by left]. right. exists i, (Some p'). by rewrite list_lookup_insert_eq.
        + right. exists j, x. by rewrite list_lookup_insert_ne. }
    intros j q Hj Hq. apply Hgoal. destruct (decide (i = j)) as [Eij|Hij]; [subst j|].
    + rewrite list_lookup_insert_eq in Hj by done. injection Hj as <-. by left.
    + rewrite list_lookup_insert_ne in Hj by done. right. eauto.
Qed.

Lemma publishers_step old w w' : invariant old w -> step w w' -> invariant old w'.
Proof.
  intros Hinv Hs. destruct Hs as [i p p' dest' Hi Hc|i p Hi|]; [by eapply invariant_call|..]; destruct Hinv as [Hph Hd Hse].
  - pose proof (lookup_lt_Some _ _ _ Hi) as Hlt. split; cbn; [|done|].
    + intros j q. destruct (decide (i = j)) as [<-|Hij]; [by rewrite list_lookup_insert_eq|]. rewrite list_lookup_insert_ne by done. apply Hph.
    + intros _ _ _ _. right. exists i, None. by rewrite list_lookup_insert_eq.
  - split; cbn; [|done|].
    + intros j q [[_ Hq]|[-> Hq]]%lookup_snoc_Some; [by eapply Hph|]. injection Hq as <-. apply ph_start.
    + intros j q [[_ Hq]|[-> Hq]]%lookup_snoc_Some.
      * intros Hs. destruct (Hse _ _ Hq Hs) as [?|(k & x & Hk & Hx)]; [by left|]. right. exists k, x. split; [by apply lookup_app_l_Some|done].
      * injection Hq as <-. not_here.
Qed.
Lemma publishers_reachable old w : reachable old w -> invariant old w.
Proof.
  induction 1 as [|w w' _ IH Hs]; [|by eapply publishers_step]. split; cbn; [done|by right; left|done].
Qed.

Definition succeeded (x : option process) : Prop := exists p, x = Some p /\ p_prog p = Done (Ok tt).
End Publish.

(** C26: However many processes publish the same content under one name, in
    whatever order their calls interleave, contend, fail or die: the name holds
    nothing, what it held before, or the complete new content, never a part of
    it; and when all of them have returned successfully it holds the new
    content (or BLAKE3 has a collision). *)
Theorem publication_atomic (blake3 : bytes -> bytes) (content : bytes) (old : option bytes) (w : world) :
  reachable blake3 content old w ->
  (w_dest w = None \/ w_dest w = old \/ w_dest w = Some content)
  /\ (w_procs w <> [] -> Forall succeeded (w_procs w) -> w_dest w = Some content \/ collision blake3).
Proof.
  intros Hr. apply publishers_reachable in Hr as [Hph Hd Hse]. split; [done|]. intros Hne Hall.
  destruct (w_procs w) as [|x l] eqn:El; [done|]. destruct (proj1 (Forall_cons _ _ _) Hall) as [(p & -> & Hp) _].
  destruct (Hse 0%nat p) as [(d & Ed & Hb & _)|(j & x & Hj & Hx)]; [done|by right| |].
  - apply sha256_inj in Hb as [->|?]; [by left|by right].
  - rewrite Forall_forall in Hall. apply list_elem_of_lookup_2, Hall in Hj as (q & -> & Hq). cbn in Hx.
    rewrite Hq in Hx. by destruct Hx as [E|E].
Qed.

(** ** Runs of the publishers *)

Module PublishExample.
Definition toy_hash (b : bytes) : bytes := take 4 b.
Definition content : bytes := str "image".

(** How the file system treats a call. *)
Inductive treatment := Grant | Contend | Refuse.
Definition refusal (t : treatment) : io_error := match t with Contend => Contended | _ => OtherError end.
Definition treat (t : treatment) (temp dest : option bytes) (x : cache_call) : cache_answer x * option bytes * option bytes :=
  match x return cache_answer x * option bytes * option bytes with
  | CreateDirs => (match t with Grant => Ok tt | _ => Err (refusal t) end, temp, dest)
  | WriteTemp b => match t with Grant => (Ok tt, Some b, dest) | _ => (Err (refusal t), temp, dest) end
  | Rename =>
      match t, temp with
      | Grant, Some b => (Ok tt, None, Some b)
      | _, _ => (Err (refusal t), temp, dest)
      end
  | HasSize n => (match t, dest with Grant, Some d => len d =? n | _, _ => false end, temp, dest)
  | FileIdentity => (match t, dest with Grant, Some d => Ok (toy_hash d, len d) | _, _ => Err (refusal t) end, temp, dest)
  | RemoveTemp => (tt, match t with Grant => None | _ => temp end, dest)
  | RemoveDestination => (tt, temp, match t with Grant => None | _ => dest end)
  end.
Lemma treat_answers t temp dest x :
  answers toy_hash temp dest x (treat t temp dest x).1.1 (treat t temp dest x).1.2 (treat t temp dest x).2.
Proof. destruct x, t, temp, dest; cbn; naive_solver. Qed.

Definition advance (t : treatment) (i : nat) (w : world) : world :=
  match w_procs w !! i with
  | Some (Some p) =>
      match p_prog p with
      | Ext x k =>
          let '(a, temp, dest) := treat t (p_temp p) (w_dest w) x in
          {| w_dest := dest; w_procs := <[i := Some {| p_prog := k a; p_temp := temp |}]> (w_procs w) |}
      | _ => w
      end
  | _ => w
  end.
Definition launch (w : world) : world :=
  {| w_dest := w_dest w; w_procs := w_procs w ++ [Some {| p_prog := atomic_write toy_hash content; p_temp := None |}] |}.
Definition play (moves : list (nat * treatment)) (w : world) : world := foldl (fun w m => advance m.2 m.1 w) w moves.

Lemma advance_reachable old t i w : reachable toy_hash content old w -> reachable toy_hash content old (advance t i w).
Proof.
  intros Hr. unfold advance. destruct (w_procs w !! i) as [[[q temp]|]|] eqn:Hi; [|done..]. cbn [p_prog p_temp].
  destruct q as [r| | | | |x k]; [done..|]. pose proof (treat_answers t temp (w_dest w) x) as Ha.
  destruct (treat t temp (w_dest w) x) as [[a temp'] dest']. cbn in Ha. eapply reach_step; [exact Hr|]. eapply step_call; [exact Hi|].
  unfold proc_step. cbn. by exists a.
Qed.
Lemma play_reachable old moves w : reachable toy_hash content old w -> reachable toy_hash content old (play moves w).
Proof. revert w. induction moves as [|[i t] moves IH]; intros w Hr; [done|]. by apply IH, advance_reachable. Qed.
Lemma launch_reachable old w : reachable toy_hash content old w -> reachable toy_hash content old (launch w).
Proof. intros Hr. eapply reach_step; [exact Hr|]. apply step_start. Qed.

(** Two publishers over a stale file: the second finds the content there. *)
Definition stale : world := launch (launch {| w_dest := Some (str "stale"); w_procs := [] |}).
Definition both_publish : world :=
  play [(0%nat, Grant); (1%nat, Grant); (0%nat, Grant); (1%nat, Grant); (0%nat, Grant); (1%nat, Grant);
        (0%nat, Grant); (1%nat, Contend); (1%nat, Grant); (1%nat, Grant); (1%nat, Grant)] stale.
Lemma publication_atomic_witness :
  (w_dest both_publish = None \/ w_dest both_publish = Some (str "stale") \/ w_dest both_publish = Some content)
  /\ (w_dest both_publish = Some content \/ collision toy_hash).
Proof.
  destruct (publication_atomic toy_hash content (Some (str "stale")) both_publish) as [H1 H2].
  - apply play_reachable, launch_reachable, launch_reachable, reach_initial.
  - split; [exact H1|]. apply H2; [vm_compute; discriminate|]. repeat (apply Forall_cons; split; [eexists; split; reflexivity|]). constructor.
Defined.
Example both_published : w_dest both_publish = Some content.
Proof. vm_compute. reflexivity. Qed.

(** A publisher whose checks all contend removes what the other one published;
    when its own rename then fails, the name is empty although the other one
    reported success. *)
Definition contention : list (nat * treatment) := [(1%nat, Refuse); (1%nat, Contend)].
Definition lost : world :=
  play ([(0%nat, Grant); (0%nat, Grant); (0%nat, Grant); (0%nat, Grant); (1%nat, Grant); (1%nat, Grant); (1%nat, Grant); (1%nat, Contend)]
        ++ contention ++ contention ++ contention ++ contention ++ [(1%nat, Grant); (1%nat, Refuse)]) stale.
Example published_file_lost :
  reachable toy_hash content (Some (str "stale")) lost
  /\ (p_prog <$> mjoin (w_procs lost !! 0%nat)) = Some (Done (Ok tt)) /\ w_dest lost = None.
Proof.
  split_and!; [apply play_reachable, launch_reachable, launch_reachable, reach_initial|by vm_compute..].
Qed.
End PublishExample.

(** ** Run directories *)

Record CompressionMetadata := { cm_algorithm : bytes; cm_level : Z }.
#[global] Instance CompressionMetadata_eq_dec : EqDecision CompressionMetadata.
Proof. solve_decision. Defined.
Record RunMetadata := {
  run_schema_version : Z; run_kernel : ArtifactMetadata; run_rootfs : ArtifactMetadata; run_initrd : ArtifactMetadata;
  run_uncompressed_rootfs_size : Z; run_compression : CompressionMetadata }.

(** [kernel.bin], [initrd.img] and the parsed [metadata.json]. *)
Record run_dir := { rd_kernel : option bytes; rd_initrd : option bytes; rd_metadata : option RunMetadata }.
Definition empty_run : run_dir := {| rd_kernel := None; rd_initrd := None; rd_metadata := None |}.

Inductive ArtifactError := AE_Assembly (e : BootImageError) | AE_Cache | AE_Initrd.

(** How far a cold run gets: [kernel.bin], [initrd.img], the record. *)
Inductive run_publication := Run_none | Run_kernel | Run_initrd | Run_all.
Record run_io := { rio_identities : bool; rio_directory : bool; rio_reads : bool; rio_published : run_publication }.

Section Run.
Context (blake3 : bytes -> bytes) (gzip : Z -> bytes -> bytes) (default_level : Z).

Definition initrd_compression_metadata : CompressionMetadata := {| cm_algorithm := str "gzip"; cm_level := default_level |}.
Definition run_identity (kernel rootfs : ArtifactMetadata) (compression : CompressionMetadata) : bytes :=
  str "jyth-derived-run-v2" ++ [Byte.x00]
  ++ concat (map (fun a => am_digest a ++ le_bytes 8 (am_size a)) [kernel; rootfs])
  ++ cm_algorithm compression ++ le_bytes 4 (cm_level compression).
Definition run_cache_id (kernel rootfs : ArtifactMetadata) (compression : CompressionMetadata) : bytes :=
  str "run-" ++ hex_text (blake3 (run_identity kernel rootfs compression)).

(** A failed read is a miss. *)
Definition cached_run_uncompressed_size (reads : bool) (dir : run_dir) (prepared_rootfs : option bytes)
    (expected_kernel expected_rootfs : ArtifactMetadata) (expected_compression : CompressionMetadata) : option Z :=
  match rd_metadata dir with
  | Some m =>
      if reads && (run_schema_version m =? CACHE_SCHEMA_VERSION) && bool_decide (run_kernel m = expected_kernel)
         && bool_decide (run_rootfs m = expected_rootfs) && bool_decide (run_compression m = expected_compression)
         && (run_uncompressed_rootfs_size m =? am_size expected_rootfs)
         && artifact_matches blake3 prepared_rootfs (run_rootfs m) && artifact_matches blake3 (rd_kernel dir) (run_kernel m)
         && artifact_matches blake3 (rd_initrd dir) (run_initrd m)
      then Some (run_uncompressed_rootfs_size m) else None
  | None => None
  end.

Definition publish_run_metadata (dir : run_dir) (kernel rootfs : ArtifactMetadata) (initrd : bytes) (size : Z)
    (compression : CompressionMetadata) : run_dir :=
  {| rd_kernel := rd_kernel dir; rd_initrd := rd_initrd dir;
     rd_metadata := Some {| run_schema_version := CACHE_SCHEMA_VERSION; run_kernel := kernel; run_rootfs := rootfs;
                            run_initrd := artifact_metadata blake3 initrd; run_uncompressed_rootfs_size := size;
                            run_compression := compression |} |}.

(** The cold branch: [atomic_copy], [atomic_gzip], [publish_run_metadata]. *)
Definition fill_run (published : run_publication) (dir : run_dir) (kernel rootfs : bytes) : res ArtifactError Z * run_dir :=
  let copied := {| rd_kernel := Some kernel; rd_initrd := rd_initrd dir; rd_metadata := rd_metadata dir |} in
  let initrd := gzip (cm_level initrd_compression_metadata) rootfs in
  let compressed := {| rd_kernel := Some kernel; rd_initrd := Some initrd; rd_metadata := rd_metadata dir |} in
  match published with
  | Run_none => (Err AE_Cache, dir)
  | Run_kernel => (Err AE_Initrd, copied)
  | Run_initrd => (Err AE_Initrd, compressed)
  | Run_all =>
      (Ok (len rootfs), publish_run_metadata compressed (artifact_metadata blake3 kernel) (artifact_metadata blake3 rootfs) initrd
                          (len rootfs) initrd_compression_metadata)
  end.

(** From the prepared kernel and root file system to the run directory. *)
Definition prepare_run (kernel rootfs : option bytes) (io : run_io) (runs : gmap bytes run_dir)
    : res ArtifactError (bytes * Z) * gmap bytes run_dir :=
  match kernel, rootfs with
  | Some kernel, Some rootfs =>
      if rio_identities io && rio_directory io then
        let kernel_artifact := artifact_metadata blake3 kernel in
        let rootfs_artifact := artifact_metadata blake3 rootfs in
        let run_id := run_cache_id kernel_artifact rootfs_artifact initrd_compression_metadata in
        let dir := default empty_run (runs !! run_id) in
        match cached_run_uncompressed_size (rio_reads io) dir (Some rootfs) kernel_artifact rootfs_artifact initrd_compression_metadata with
        | Some cached_size => (Ok (run_id, cached_size), <[run_id := dir]> runs)
        | None =>
            let '(r, dir) := fill_run (rio_published io) dir kernel rootfs in
            ((size ← r; Ok (run_id, size)), <[run_id := dir]> runs)
        end
      else (Err AE_Cache, runs)
  | _, _ => (Err AE_Cache, runs)
  end.
End Run.

Definition to_guest_overlay_entry (entry : BootOverlayEntry) : GuestOverlayEntry := {|
  goe_path := oe_path entry;
  goe_kind := match oe_kind entry with
              | Runtime.Overlay_File content mode origin => Overlay_File content mode origin
              | Runtime.Overlay_Directory mode => Overlay_Directory mode
              end |}.

(** ** The provider *)

Section Provider.
Context `{N : NewcCrate} (blake3 : bytes -> bytes) `{SM : Serde RootfsManifest} (gzip : Z -> bytes -> bytes) (default_level : Z).

Record boot_stores := { bs_images : derived_cache; bs_runs : gmap bytes run_dir }.
(** [HcsBootArtifactProvider::prepare]: the run directory and the uncompressed
    size of the root file system. *)
Definition provide (kernel : option bytes) (base : bytes * option bytes) (overlay : list BootOverlayEntry) (init : option bytes)
    (io : cache_io) (rio : run_io) (s : boot_stores) : res ArtifactError (bytes * Z) * boot_stores :=
  let '(r, images) := prepare_boot_artifacts blake3 base (to_guest_overlay_entry <$> overlay) init io (bs_images s) in
  match r with
  | Ok key =>
      let '(r, runs) := prepare_run blake3 gzip default_level kernel (dc_files images !! key) rio (bs_runs s) in
      (r, {| bs_images := images; bs_runs := runs |})
  | Err e => (Err (AE_Assembly e), {| bs_images := images; bs_runs := bs_runs s |})
  | Panic => (Panic, {| bs_images := images; bs_runs := bs_runs s |})
  end.
End Provider.

(** ** A run directory holds what it was prepared from *)

Section RunLemmas.
Context (blake3 : bytes -> bytes) (gzip : Z -> bytes -> bytes) (default_level : Z).

(** A completion record describes a kernel and a root file system. *)
Definition honest_run (_ : bytes) (dir : run_dir) : Prop :=
  forall m, rd_metadata dir = Some m -> exists kernel rootfs,
    run_kernel m = artifact_metadata blake3 kernel /\ run_rootfs m = artifact_metadata blake3 rootfs
    /\ run_initrd m = artifact_metadata blake3 (gzip (cm_level (run_compression m)) rootfs).
Definition honest_runs (runs : gmap bytes run_dir) : Prop := map_Forall honest_run runs.

Definition run_holds (dir : run_dir) (kernel rootfs : bytes) : Prop :=
  rd_kernel dir = Some kernel /\ rd_initrd dir = Some (gzip default_level rootfs).

Lemma artifact_inj a b : artifact_metadata blake3 a = artifact_metadata blake3 b -> a = b \/ collision blake3.
Proof. intros E. injection E as E _. by apply hex_text_inj, sha256_inj in E. Qed.
Lemma artifact_matches_inj content a : artifact_matches blake3 content (artifact_metadata blake3 a) = true ->
  content = Some a \/ collision blake3.
Proof.
  destruct content as [b|]; [|done]. cbn. rewrite andb_true_iff, bool_decide_eq_true. intros [_ E].
  apply artifact_inj in E as [->|?]; auto.
Qed.

Lemma cached_run_exact io dir kernel rootfs size : honest_run [] dir ->
  cached_run_uncompressed_size blake3 io dir (Some rootfs) (artifact_metadata blake3 kernel) (artifact_metadata blake3 rootfs)
    (initrd_compression_metadata default_level) = Some size ->
  size = len rootfs /\ (run_holds dir kernel rootfs \/ collision blake3).
Proof.
  intros Hh H. unfold cached_run_uncompressed_size in H. destruct (rd_metadata dir) as [m|] eqn:Em; [|done].
  destruct (Hh m Em) as (k & r & Hk & Hr & Hi). destruct (_ && _) eqn:Hc in H; [|done]. injection H as <-.
  rewrite !andb_true_iff, !Z.eqb_eq, !bool_decide_eq_true in Hc. destruct Hc as [[[[[[[[_ _] Ek] Er] Ec] Es] _] Mk] Mi].
  split; [done|]. rewrite Ek in Mk. rewrite Hi in Mi. rewrite Hr in Er.
  apply artifact_matches_inj in Mk as [Mk|?]; [|by right]. apply artifact_matches_inj in Mi as [Mi|?]; [|by right].
  apply artifact_inj in Er as [->|?]; [|by right]. left. split; [done|]. by rewrite Mi, Ec.
Qed.

Lemma prepare_run_exact kernel rootfs io runs r runs' : honest_runs runs ->
  prepare_run blake3 gzip default_level kernel rootfs io runs = (r, runs') ->
  honest_runs runs' /\ forall run_id size, r = Ok (run_id, size) ->
    exists k f, kernel = Some k /\ rootfs = Some f /\ size = len f
      /\ (collision blake3 \/ exists dir, runs' !! run_id = Some dir /\ run_holds dir k f).
Proof.
  intros Hh. unfold prepare_run. destruct kernel as [k|], rootfs as [f|]; [|by intros [= <- <-]..].
  destruct (_ && _); [|by intros [= <- <-]]. set (run_id := run_cache_id _ _ _ _). set (dir := default empty_run (runs !! run_id)).
  assert (honest_run [] dir) as Hdir.
  { unfold dir. destruct (runs !! run_id) as [d|] eqn:E; [exact (Hh _ _ E)|done]. }
  destruct (cached_run_uncompressed_size _ _ _ _ _ _ _) as [size|] eqn:Ec.
  - intros [= <- <-]. split; [by apply map_Forall_insert_2|]. intros ? ? [= <- <-]. apply cached_run_exact in Ec as [-> Hx]; [|done].
    exists k, f. split_and!; [done..|]. destruct Hx as [Hx|?]; [right|by left]. exists dir. by rewrite lookup_insert_eq.
  - destruct (fill_run _ _ _ _ _ _ _) as [r' dir'] eqn:Ef. intros [= <- <-]. unfold fill_run in Ef. split.
    + apply map_Forall_insert_2; [|done]. destruct (rio_published io); injection Ef as <- <-; try done.
      intros m [= <-]. by exists k, f.
    + intros id size E. destruct (rio_published io); injection Ef as <- <-; try done. injection E as <- <-.
      exists k, f. split_and!; [done..|]. right. eexists. rewrite lookup_insert_eq. by split.
Qed.

(** Equal run identities come from equal inputs: digests are of one length. *)
Lemma run_cache_id_inj k r c k' r' c' :
  length (am_digest k) = length (am_digest k') -> length (am_digest r) = length (am_digest r') ->
  Forall is_u64 [am_size k; am_size k'; am_size r; am_size r'] -> Forall is_u32 [cm_level c; cm_level c'] ->
  run_cache_id blake3 k r c = run_cache_id blake3 k' r' c' -> (k = k' /\ r = r' /\ c = c') \/ collision blake3.
Proof.
  intros Hk Hr Hs Hl E. apply app_inv_head, hex_text_inj, sha256_inj in E as [E|?]; [left|by right].
  unfold run_identity in E. do 2 apply app_inv_head in E. cbn [map concat] in E. rewrite !app_nil_r, <-!app_assoc in E.
  apply app_inj_1 in E as [E1 E]; [|done]. apply app_inj_1 in E as [E2 E]; [|by rewrite !length_le_bytes].
  apply app_inj_1 in E as [E3 E]; [|done]. apply app_inj_1 in E as [E4 E]; [|by rewrite !length_le_bytes].
  apply app_inj_2 in E as [E5 E6]; [|by rewrite !length_le_bytes].
  rewrite !Forall_cons in Hs. rewrite !Forall_cons in Hl. destruct Hs as (S1 & S2 & S3 & S4 & _), Hl as (L1 & L2 & _).
  apply le_bytes_inj in E2; [|done..]. apply le_bytes_inj in E4; [|done..]. apply le_bytes_inj in E6; [|done..].
  destruct k, r, c, k', r', c'. cbn in *. by subst.
Qed.
End RunLemmas.


Module BootExample.
Import OverlayExample.
#[local] Existing Instances OverlayExample.RootfsManifest_eq_dec OverlayExample.RootfsManifest_countable HcsExample.countable_serde HcsExample.countable_serde_laws.
Definition toy_gzip (level : Z) (b : bytes) : bytes := z2b level :: b.
Definition overlay : list BootOverlayEntry := [{| oe_path := str "/etc/./hosts"; oe_kind := Runtime.Overlay_File (str "10.0.0.1 host") 420 (str "bytes:x") |}].
Definition working_run : run_io := {| rio_identities := true; rio_directory := true; rio_reads := true; rio_published := Run_all |}.
Definition empty_stores : boot_stores := {| bs_images := cold; bs_runs := ∅ |}.
Definition run_once (s : boot_stores) : res ArtifactError (bytes * Z) * boot_stores :=
  provide OverlayExample.toy_hash toy_gzip 6 (Some (str "bzImage")) (str "base.cpio", Some base_archive) overlay (Some (str "ELF")) working working_run s.
Definition result : bytes * Z := match (run_once empty_stores).1 with Ok r => r | _ => ([], 0) end.


(** A second run finds both caches warm and changes nothing. *)
Example second_run_warm : run_once (run_once empty_stores).2 = run_once empty_stores.
Proof. vm_compute. reflexivity. Qed.
End BootExample.
