(* ===== verification/Capture.v ===== *)
(** * Captured process output and process observers

    [libs/guest-client/src/process.rs]: the capture policy of one output
    stream, process errors, and the lifecycle cell behind a process observer.

    Lengths are compared as integers; [reserve n] says whether the allocator
    grants a buffer of [n] bytes, as [Vec::try_reserve] reports. *)

From Stdlib Require Import ZArith Lia Ascii.
From stdpp Require Import base tactics option list numbers strings.
From S2P Require Import Prelude Bytes Text Messages.

(** ** Policies *)

Definition DEFAULT_CAPTURE_LIMIT : Z := 8 * 1024 * 1024.
Definition MAX_CAPTURE_LIMIT : Z := 64 * 1024 * 1024.

Inductive CaptureEnd :=
  | EndOfStream
  | CaptureBytes (n : Z)
  | Delimiter (delimiter : bytes)
  | Line.
Inductive CaptureOverflowPolicy := Overflow_Stop | Overflow_Truncate.
#[global] Instance CaptureOverflowPolicy_eq_dec : EqDecision CaptureOverflowPolicy.
Proof. solve_decision. Defined.
Record CaptureOptions := { co_limit : Z; co_overflow : CaptureOverflowPolicy; co_end : CaptureEnd }.
Definition CaptureOptions_default : CaptureOptions :=
  {| co_limit := DEFAULT_CAPTURE_LIMIT; co_overflow := Overflow_Stop; co_end := EndOfStream |}.
Definition with_limit (limit : Z) (o : CaptureOptions) : CaptureOptions :=
  {| co_limit := limit; co_overflow := co_overflow o; co_end := co_end o |}.
Definition with_overflow (overflow : CaptureOverflowPolicy) (o : CaptureOptions) : CaptureOptions :=
  {| co_limit := co_limit o; co_overflow := overflow; co_end := co_end o |}.
Definition until (e : CaptureEnd) (o : CaptureOptions) : CaptureOptions :=
  {| co_limit := co_limit o; co_overflow := co_overflow o; co_end := e |}.

Inductive OutputStream := Stream_Stdout | Stream_Stderr.
Definition stream_name (s : OutputStream) : bytes := match s with Stream_Stdout => str "stdout" | Stream_Stderr => str "stderr" end.
Inductive Output :=
  | Discard
  | Capture_ (options : CaptureOptions)
  | HostFile (path : bytes)
  | GuestFile (path : bytes).

Record ProcessExit := { exit_code : option Z; exit_signal : option Z }.
Definition exit_success (e : ProcessExit) : bool := bool_decide (exit_code e = Some 0) && bool_decide (exit_signal e = None).

(** ** Errors *)

Inductive ProcessError :=
  | UnpreparedExecutable
  | PE_Spawn (message : bytes)
  | PE_Wait (message : bytes)
  | PE_Cleanup (message : bytes)
  | PE_Output (stream : OutputStream) (message : bytes) (cleanup_error : option bytes)
  | OutputLimitExceeded (stream : OutputStream) (limit : Z) (cleanup_error : option bytes)
  | OutputAllocationFailed (stream : OutputStream) (requested : Z) (cleanup_error : option bytes)
  | UnsuccessfulExit (exit : ProcessExit)
  | PE_TimedOut (after : Z) (cleanup_error : option bytes)
  | PE_Cancelled (cleanup_error : option bytes)
  | OutputUnavailable.

Definition merge_cleanup_errors (first second : option bytes) : option bytes :=
  match first, second with
  | None, None => None
  | Some error, None | None, Some error => Some error
  | Some first, Some second => Some (first ++ str "; " ++ second)
  end.
Definition with_cleanup (e : ProcessError) (cleanup_error : option bytes) : ProcessError :=
  match cleanup_error with
  | None => e
  | Some _ =>
      match e with
      | PE_Output stream message previous => PE_Output stream message (merge_cleanup_errors previous cleanup_error)
      | OutputLimitExceeded stream limit previous => OutputLimitExceeded stream limit (merge_cleanup_errors previous cleanup_error)
      | OutputAllocationFailed stream requested previous =>
          OutputAllocationFailed stream requested (merge_cleanup_errors previous cleanup_error)
      | other => other
      end
  end.

(** ** The observed state *)

Inductive ProcessState :=
  | Pending
  | Starting
  | Running
  | Finished (exit : ProcessExit)
  | Failed (error : ProcessError).
Definition state_terminal (s : ProcessState) : bool := match s with Finished _ | Failed _ => true | _ => false end.
(** The watch cell and the retained output. *)
Record CapturedOutput := { out_stdout : option bytes; out_stderr : option bytes }.
Record lifecycle := { lc_state : ProcessState; lc_output : CapturedOutput }.
Definition lifecycle_new : lifecycle := {| lc_state := Pending; lc_output := {| out_stdout := None; out_stderr := None |} |}.
Definition set (next : ProcessState) (l : lifecycle) : lifecycle :=
  if state_terminal (lc_state l) then l else {| lc_state := next; lc_output := lc_output l |}.
Definition capture_stdout (b : bytes) (l : lifecycle) : lifecycle :=
  {| lc_state := lc_state l; lc_output := {| out_stdout := Some b; out_stderr := out_stderr (lc_output l) |} |}.
Definition capture_stderr (b : bytes) (l : lifecycle) : lifecycle :=
  {| lc_state := lc_state l; lc_output := {| out_stdout := out_stdout (lc_output l); out_stderr := Some b |} |}.
Definition observed_stdout (l : lifecycle) : res ProcessError bytes := ok_or (out_stdout (lc_output l)) OutputUnavailable.
Definition observed_stderr (l : lifecycle) : res ProcessError bytes := ok_or (out_stderr (lc_output l)) OutputUnavailable.

Definition terminal_from_closed (s : ProcessState) : res ProcessError ProcessExit :=
  match s with
  | Finished exit => Ok exit
  | Failed error => Err error
  | Pending | Starting | Running => Err (PE_Cancelled None)
  end.
(** [ProcessObserver::finished] on the values the cell takes, the last of which
    stays when the sender is dropped. *)
Fixpoint observed_finish (current : ProcessState) (changes : list ProcessState) : res ProcessError ProcessExit :=
  match current with
  | Finished exit => Ok exit
  | Failed error => Err error
  | Pending | Starting | Running =>
      match changes with [] => terminal_from_closed current | next :: changes => observed_finish next changes end
  end.

(** ** Capture *)

Section Accumulator.
Context (reserve : Z -> bool).

Record CaptureAccumulator := { ca_options : CaptureOptions; ca_stream : OutputStream; ca_bytes : bytes; ca_end_reached : bool }.
Definition CaptureAccumulator_new (options : CaptureOptions) (stream : OutputStream) : CaptureAccumulator :=
  {| ca_options := options; ca_stream := stream; ca_bytes := []; ca_end_reached := false |}.
Definition end_reached (a : CaptureAccumulator) : CaptureAccumulator :=
  {| ca_options := ca_options a; ca_stream := ca_stream a; ca_bytes := ca_bytes a; ca_end_reached := true |}.

Definition byte_at (existing incoming : bytes) (index : nat) : option byte :=
  if (index <? length existing)%nat then existing !! index else incoming !! (index - length existing)%nat.
Definition delimiter_at (existing incoming delimiter : bytes) (start : nat) : bool :=
  forallb (fun '(offset, expected) => bool_decide (byte_at existing incoming (start + offset) = Some expected))
    (zip (seq 0 (length delimiter)) delimiter).
Definition find_delimiter_end (existing incoming delimiter : bytes) : option Z :=
  if is_empty delimiter then None else
  match checked_add 64 (len existing) (len incoming) with
  | None => None
  | Some total =>
      if total <? len delimiter then None else
      match List.find (delimiter_at existing incoming delimiter) (seq 0 (S (Z.to_nat (total - len delimiter)))) with
      | Some start => Some (Z.of_nat start + len delimiter)
      | None => None
      end
  end.

Definition append (a : CaptureAccumulator) (incoming : bytes) : res ProcessError CaptureAccumulator :=
  let limit := co_limit (ca_options a) in
  let exceeded := OutputLimitExceeded (ca_stream a) limit None in
  _ ← fail_if (limit <? len (ca_bytes a)) exceeded;
  let remaining := limit - len (ca_bytes a) in
  let overflowed := remaining <? len incoming in
  _ ← fail_if (overflowed && bool_decide (co_overflow (ca_options a) = Overflow_Stop)) exceeded;
  let count := Z.min remaining (len incoming) in
  needed ← ok_or (checked_add 64 (len (ca_bytes a)) count) (OutputAllocationFailed (ca_stream a) limit None);
  _ ← fail_if (negb (reserve needed)) (OutputAllocationFailed (ca_stream a) needed None);
  Ok {| ca_options := ca_options a; ca_stream := ca_stream a; ca_bytes := ca_bytes a ++ take (Z.to_nat count) incoming;
        ca_end_reached := ca_end_reached a || overflowed |}.

(** The two delimiter arms. *)
Definition push_until (a : CaptureAccumulator) (incoming delimiter : bytes) : res ProcessError CaptureAccumulator :=
  match find_delimiter_end (ca_bytes a) incoming delimiter with
  | Some stop =>
      if stop <? len (ca_bytes a) then Ok (end_reached a) else
      a' ← append a (take (Z.to_nat (stop - len (ca_bytes a))) incoming);
      Ok (end_reached a')
  | None => append a incoming
  end.
Definition push (a : CaptureAccumulator) (incoming : bytes) : res ProcessError CaptureAccumulator :=
  if ca_end_reached a || is_empty incoming then Ok a else
  match co_end (ca_options a) with
  | EndOfStream => append a incoming
  | CaptureBytes size =>
      if size <? len (ca_bytes a) then Ok (end_reached a) else
      let count := Z.min (size - len (ca_bytes a)) (len incoming) in
      a' ← append a (take (Z.to_nat count) incoming);
      Ok (if size <=? len (ca_bytes a') then end_reached a' else a')
  | Delimiter delimiter => push_until a incoming delimiter
  | Line => push_until a incoming [Byte.x0a]
  end.

(** The pieces of a stream, as [drain_host_output] reads them. *)
Definition capture (options : CaptureOptions) (stream : OutputStream) (pieces : list bytes) : res ProcessError bytes :=
  a ← for_each push pieces (CaptureAccumulator_new options stream);
  Ok (ca_bytes a).

(** ** The captured value of a whole stream *)

Fixpoint first_end (d s : bytes) : option nat :=
  if starts_with d s then Some (length d)
  else match s with [] => None | _ :: s => S <$> first_end d s end.
(** Where the value ends, once [s] has been received. *)
Definition boundary (e : CaptureEnd) (s : bytes) : option nat :=
  match e with
  | EndOfStream => None
  | CaptureBytes n => if n <=? len s then Some (Z.to_nat n) else None
  | Delimiter d => if is_empty d then None else first_end d s
  | Line => first_end [Byte.x0a] s
  end.
Definition capture_value (e : CaptureEnd) (s : bytes) : bytes := match boundary e s with Some n => take n s | None => s end.
Definition captured (o : CaptureOptions) (stream : OutputStream) (s : bytes) : res ProcessError bytes :=
  let v := capture_value (co_end o) s in
  if len v <=? co_limit o then Ok v
  else match co_overflow o with
       | Overflow_Stop => Err (OutputLimitExceeded stream (co_limit o) None)
       | Overflow_Truncate => Ok (take (Z.to_nat (co_limit o)) v)
       end.

(** *** The search *)

Lemma byte_at_app existing incoming i : byte_at existing incoming i = (existing ++ incoming) !! i.
Proof.
  unfold byte_at. destruct (Nat.ltb_spec i (length existing)); [by rewrite lookup_app_l|by rewrite lookup_app_r].
Qed.
Lemma delimiter_at_starts existing incoming d start :
  delimiter_at existing incoming d start = starts_with d (drop start (existing ++ incoming)).
Proof.
  unfold delimiter_at. set (s := existing ++ incoming).
  assert (forall k d, forallb (fun '(offset, expected) => bool_decide (byte_at existing incoming (start + offset) = Some expected))
     (zip (seq k (length d)) d) = starts_with d (drop (start + k) s)) as H; [|by rewrite H, Nat.add_0_r].
  intros k e. revert k. induction e as [|b e IH]; intros k; [done|]. cbn [length seq zip_with forallb zip]. rewrite byte_at_app, IH. fold s.
  destruct (s !! (start + k)%nat) as [b'|] eqn:E.
  - rewrite (drop_S _ _ _ E), <-Nat.add_succ_r. unfold starts_with. cbn [strip_prefix]. destruct (decide (b = b')) as [->|Hne].
    + by rewrite bool_decide_eq_true_2.
    + by rewrite bool_decide_eq_false_2 by congruence.
  - rewrite bool_decide_eq_false_2 by congruence. by rewrite (drop_ge s (start + k)) by (by apply lookup_ge_None).
Qed.

Lemma first_end_length d s n : first_end d s = Some n -> (length d <= n <= length s)%nat.
Proof.
  revert n. induction s as [|b s IH]; intros n; cbn [first_end].
  - destruct (starts_with d []) eqn:E; [|done]. intros [= <-]. apply starts_with_true in E as [t E]. apply (f_equal length) in E.
    rewrite length_app in E. cbn in *. lia.
  - destruct (starts_with d (b :: s)) eqn:E.
    + intros [= <-]. apply starts_with_true in E as [t E]. rewrite E, length_app. lia.
    + destruct (first_end d s); [|done]. intros [= <-]. specialize (IH _ eq_refl). cbn. lia.
Qed.
Lemma starts_with_short d s t : (length d <= length s)%nat -> starts_with d (s ++ t) = starts_with d s.
Proof.
  intros Hl. apply eq_bool_prop_intro. rewrite !Is_true_true, !starts_with_true. split.
  - intros [u E]. exists (drop (length d) s). apply (f_equal (take (length d))) in E. rewrite take_app_le, take_app_length in E by lia.
    rewrite <-E at 1. by rewrite take_drop.
  - intros [u ->]. exists (u ++ t). by rewrite app_assoc.
Qed.
Lemma first_end_short d s t n : (n <= length s)%nat -> first_end d (s ++ t) = Some n <-> first_end d s = Some n.
Proof.
  revert n. induction s as [|b s IH]; intros n Hn.
  { cbn in Hn. assert (n = 0)%nat as -> by lia. split; intros E.
    - apply first_end_length in E as Hl. assert (d = []) as -> by (destruct d; cbn in *; [done|lia]). by destruct t.
    - apply first_end_length in E as Hl. assert (d = []) as -> by (destruct d; cbn in *; [done|lia]). by destruct t. }
  destruct (decide (length d <= length (b :: s))%nat) as [Hd|Hd].
  - cbn [first_end app]. change (b :: s ++ t) with ((b :: s) ++ t). rewrite starts_with_short by done.
    destruct (starts_with d (b :: s)); [done|]. rewrite !fmap_Some. cbn in Hn.
    split; intros (m & Em & ->); exists m; (split; [|done]); apply IH; (done || lia).
  - split; intros E%first_end_length; lia.
Qed.
Lemma first_end_app d s t n : first_end d s = Some n -> first_end d (s ++ t) = Some n.
Proof. intros E. apply first_end_short; [|done]. apply first_end_length in E. lia. Qed.

Lemma find_ext {A} (f g : A -> bool) l : (forall x, f x = g x) -> List.find f l = List.find g l.
Proof. intros H. induction l as [|x l IH]; cbn; [done|]. by rewrite H, IH. Qed.
Lemma find_seq_S (f : nat -> bool) k n : List.find f (seq (S k) n) = S <$> List.find (f ∘ S) (seq k n).
Proof. revert k. induction n as [|n IH]; intros k; cbn; [done|]. destruct (f (S k)); [done|apply IH]. Qed.
Lemma find_first_end d s : (length d <= length s)%nat ->
  (fun n => n + length d)%nat <$> List.find (fun start => starts_with d (drop start s)) (seq 0 (S (length s - length d))) = first_end d s.
Proof.
  induction s as [|b s IH]; intros Hl.
  { destruct d; [done|cbn in Hl; lia]. }
  cbn [seq List.find first_end]. rewrite drop_0. destruct (starts_with d (b :: s)) eqn:E; [done|].
  rewrite find_seq_S. destruct (decide (length d <= length s)%nat) as [Hd|Hd].
  - rewrite <-(IH Hd). cbn [length]. rewrite Nat.sub_succ_l by done.
    change ((fun start => starts_with d (drop start (b :: s))) ∘ S) with (fun start => starts_with d (drop start s)).
    by destruct (List.find _ _).
  - replace (length (b :: s) - length d)%nat with 0%nat by (cbn; lia). cbn. destruct (first_end d s) eqn:Ef; [|done].
    apply first_end_length in Ef. lia.
Qed.

Lemma find_delimiter_end_exact existing incoming d : len existing + len incoming < 2 ^ 64 ->
  find_delimiter_end existing incoming d = if is_empty d then None else Z.of_nat <$> first_end d (existing ++ incoming).
Proof.
  intros Hb. unfold find_delimiter_end. destruct (is_empty d); [done|].
  unfold checked_add. rewrite try_from_u_ok by (split; [pose proof (len_nonneg existing); pose proof (len_nonneg incoming); lia|done]).
  rewrite <-len_app. destruct (Z.ltb_spec (len (existing ++ incoming)) (len d)) as [Hl|Hl].
  - destruct (first_end d (existing ++ incoming)) eqn:E; [|done]. apply first_end_length in E. unfold len in Hl. lia.
  - unfold len in Hl. rewrite <-find_first_end by lia. unfold len. rewrite <-Nat2Z.inj_sub, Nat2Z.id by lia.
    rewrite (find_ext _ _ _ (delimiter_at_starts existing incoming d)). destruct (List.find _ _); [|done]. cbn. f_equal. lia.
Qed.

(** *** The accumulator *)

Lemma boundary_length e s n : boundary e s = Some n -> (n <= length s)%nat.
Proof.
  destruct e as [|m|d|]; cbn; [done| | |].
  - destruct (Z.leb_spec m (len s)); [|done]. intros [= <-]. unfold len in *. lia.
  - destruct (is_empty d); [done|]. intros E%first_end_length. lia.
  - intros E%first_end_length. lia.
Qed.
Lemma boundary_short e s t n : (n <= length s)%nat -> boundary e (s ++ t) = Some n <-> boundary e s = Some n.
Proof.
  intros Hn. destruct e as [|m|d|]; cbn; [done| | |by apply first_end_short].
  - rewrite len_app. pose proof (len_nonneg t). unfold len in *.
    destruct (Z.leb_spec m (Z.of_nat (length s) + Z.of_nat (length t))), (Z.leb_spec m (Z.of_nat (length s))); try done; [|lia].
    split; [intros [= E]; lia|done].
  - destruct (is_empty d); [done|by apply first_end_short].
Qed.
Lemma boundary_app e s t n : boundary e s = Some n -> boundary e (s ++ t) = Some n.
Proof. intros E. apply boundary_short; [by eapply boundary_length|done]. Qed.
Lemma capture_value_app e s t n : boundary e s = Some n -> capture_value e (s ++ t) = capture_value e s.
Proof.
  intros H. unfold capture_value. rewrite (boundary_app _ _ _ _ H), H. rewrite take_app_le; [done|by eapply boundary_length].
Qed.
Lemma capture_value_prefix e s t : capture_value e s `prefix_of` capture_value e (s ++ t).
Proof.
  destruct (boundary e s) as [n|] eqn:E; [by rewrite (capture_value_app _ _ _ _ E)|]. unfold capture_value at 1. rewrite E.
  unfold capture_value. destruct (boundary e (s ++ t)) as [n|] eqn:Et; [|by apply prefix_app_r].
  destruct (decide (n <= length s)%nat) as [Hn|Hn].
  - apply boundary_short in Et; [congruence|done].
  - rewrite take_app_ge by lia. by apply prefix_app_r.
Qed.

(** What was received so far, [s], explains the accumulator. *)
Definition explains (o : CaptureOptions) (stream : OutputStream) (s : bytes) (a : CaptureAccumulator) : Prop :=
  ca_options a = o /\ ca_stream a = stream /\
  if ca_end_reached a then forall t, captured o stream (s ++ t) = Ok (ca_bytes a)
  else ca_bytes a = s /\ len s <= co_limit o /\ len s < 2 ^ 63 /\ (boundary (co_end o) s = None \/ s = []).

Context (Hreserve : forall n, reserve n = true -> n < 2 ^ 63).

(** An allocation that was refused, within the limit. *)
Definition refused_allocation (o : CaptureOptions) (stream : OutputStream) (r : res ProcessError CaptureAccumulator) : Prop :=
  exists n, r = Err (OutputAllocationFailed stream n None) /\ 0 <= n <= co_limit o /\ reserve n = false.

(** Appending the part of [incoming] that belongs to the value. *)
Lemma append_exact o stream s a k incoming :
  ca_options a = o -> ca_stream a = stream -> ca_bytes a = s -> ca_end_reached a = false -> 0 <= co_limit o < 2 ^ 64 -> len s <= co_limit o ->
  let v := s ++ take k incoming in
  let r := append a (take k incoming) in
  refused_allocation o stream r
  \/ if len v <=? co_limit o
     then r = Ok {| ca_options := o; ca_stream := stream; ca_bytes := v; ca_end_reached := false |} /\ len v < 2 ^ 63
     else match co_overflow o with
          | Overflow_Stop => r = Err (OutputLimitExceeded stream (co_limit o) None)
          | Overflow_Truncate =>
              r = Ok {| ca_options := o; ca_stream := stream; ca_bytes := take (Z.to_nat (co_limit o)) v; ca_end_reached := true |}
          end.
Proof.
  intros Ho Hst Hs He Hl Hsl v r. unfold r, append. rewrite Ho, Hst, Hs, He. rewrite (proj2 (Z.ltb_ge (co_limit o) (len s))) by lia. cbn [fail_if mbind res_bind].
  assert (len v = len s + len (take k incoming)) as Hv by apply len_app. pose proof (len_nonneg s) as Hs0.
  set (w := take k incoming) in *. pose proof (len_nonneg w) as Hw0.
  assert (Z.min (co_limit o - len s) (len w) = Z.min (co_limit o) (len v) - len s) as Hmin by lia.
  unfold checked_add. rewrite try_from_u_ok by (split; lia). cbn [ok_or]. rewrite Hmin. replace (len s + (Z.min (co_limit o) (len v) - len s)) with (Z.min (co_limit o) (len v)) by lia.
  destruct (Z.leb_spec (len v) (co_limit o)) as [Hle|Hgt].
  - rewrite (proj2 (Z.ltb_ge (co_limit o - len s) (len w))) by lia. cbn [andb fail_if mbind res_bind]. rewrite Z.min_r by lia.
    destruct (reserve (len v)) eqn:Hr; cbn; [|left; exists (len v); split_and!; [done|lia|lia|done]].
    right. split; [|by apply Hreserve]. replace (len v - len s) with (len w) by lia. unfold len. by rewrite Nat2Z.id, firstn_all.
  - rewrite (proj2 (Z.ltb_lt (co_limit o - len s) (len w))) by lia. rewrite Z.min_l by lia.
    destruct (co_overflow o); cbn [andb bool_decide]; [right; done|]. rewrite bool_decide_eq_false_2 by done. cbn [fail_if mbind res_bind].
    destruct (reserve (co_limit o)) eqn:Hr; cbn; [|left; exists (co_limit o); split_and!; [done|lia|lia|done]].
    right. unfold v. rewrite take_app_ge by (unfold len in Hsl; lia).
    by replace (Z.to_nat (co_limit o - len s)) with (Z.to_nat (co_limit o) - length s)%nat by (unfold len in *; lia).
Qed.

(** The part of a piece that belongs to the value. *)
Lemma piece_value e s incoming : boundary e s = None \/ s = [] ->
  capture_value e (s ++ incoming) = s ++ take (length (capture_value e (s ++ incoming)) - length s) incoming.
Proof.
  intros H. assert (s `prefix_of` capture_value e (s ++ incoming)) as [w Hw].
  { destruct H as [H| ->]; [|apply prefix_nil]. pose proof (capture_value_prefix e s incoming) as Hp. unfold capture_value at 1 in Hp. by rewrite H in Hp. }
  assert (capture_value e (s ++ incoming) `prefix_of` s ++ incoming) as [u Hu].
  { unfold capture_value. destruct (boundary e (s ++ incoming)); [apply prefix_take|done]. }
  rewrite Hw at 1. rewrite Hw, length_app, Nat.add_comm, Nat.add_sub. rewrite Hw, <-app_assoc in Hu. apply app_inv_head in Hu as ->.
  by rewrite take_app_length.
Qed.

Lemma captured_over o stream s t : len (capture_value (co_end o) s) > co_limit o -> co_overflow o = Overflow_Stop ->
  captured o stream (s ++ t) = Err (OutputLimitExceeded stream (co_limit o) None).
Proof.
  intros Hl Ho. unfold captured. destruct (capture_value_prefix (co_end o) s t) as [u ->]. rewrite len_app. pose proof (len_nonneg u).
  rewrite (proj2 (Z.leb_gt _ _)) by lia. by rewrite Ho.
Qed.
Lemma captured_cut o stream s t : 0 <= co_limit o -> len (capture_value (co_end o) s) > co_limit o -> co_overflow o = Overflow_Truncate ->
  captured o stream (s ++ t) = Ok (take (Z.to_nat (co_limit o)) (capture_value (co_end o) s)).
Proof.
  intros Hnn Hl Ho. unfold captured. destruct (capture_value_prefix (co_end o) s t) as [u ->]. rewrite len_app. pose proof (len_nonneg u).
  rewrite (proj2 (Z.leb_gt _ _)) by lia. rewrite Ho, take_app_le; [done|]. unfold len in Hl. lia.
Qed.

Definition typed_options (o : CaptureOptions) : Prop :=
  0 <= co_limit o < 2 ^ 64 /\ match co_end o with CaptureBytes n => 0 <= n | _ => True end.

Definition ended (o : CaptureOptions) (s : bytes) (a : CaptureAccumulator) : CaptureAccumulator :=
  match co_end o with
  | CaptureBytes n => if n <=? len (ca_bytes a) then end_reached a else a
  | _ => if bool_decide (boundary (co_end o) s = None) then a else end_reached a
  end.
Lemma bind_ok_id {E A} (m : res E A) : (x ← m; Ok x) = m.
Proof. by destruct m. Qed.

Lemma push_until_arm o stream s a incoming d : explains o stream s a -> ca_end_reached a = false -> len incoming < 2 ^ 63 ->
  (forall x, boundary (co_end o) x = if is_empty d then None else first_end d x) ->
  push_until a incoming d =
  (a' ← append a (take (length (capture_value (co_end o) (s ++ incoming)) - length s) incoming);
   Ok (if bool_decide (boundary (co_end o) (s ++ incoming) = None) then a' else end_reached a')).
Proof.
  intros (_ & _ & Hx) He Hi Hb. rewrite He in Hx. destruct Hx as (Hs & _ & Hs2 & Hend). unfold push_until. rewrite Hs.
  rewrite find_delimiter_end_exact by lia. unfold capture_value. rewrite Hb in Hend. rewrite Hb. destruct (is_empty d) eqn:Ed.
  { rewrite bool_decide_eq_true_2 by done. rewrite bind_ok_id, length_app, Nat.add_comm, Nat.add_sub. by rewrite firstn_all. }
  destruct (first_end d (s ++ incoming)) as [n|] eqn:E; cbn.
  - apply first_end_length in E as Hl.
    assert (length s <= n)%nat as Hn.
    { destruct Hend as [Hend| ->]; [|cbn; lia]. destruct (decide (length s <= n)%nat) as [|Hlt]; [done|].
      apply first_end_short in E; [congruence|lia]. }
    rewrite (proj2 (Z.ltb_ge _ _)) by (unfold len; lia). rewrite length_take_le by lia. unfold len.
    by replace (Z.to_nat (Z.of_nat n - Z.of_nat (length s))) with (n - length s)%nat by lia.
  - rewrite bind_ok_id, length_app, Nat.add_comm, Nat.add_sub. by rewrite firstn_all.
Qed.

(** Every arm of [push] appends exactly what belongs to the value and notices
    the end. *)
Lemma push_arm o stream s a incoming : typed_options o -> explains o stream s a -> ca_end_reached a = false -> incoming <> [] -> len incoming < 2 ^ 63 ->
  push a incoming = (a' ← append a (take (length (capture_value (co_end o) (s ++ incoming)) - length s) incoming);
                     Ok (ended o (s ++ incoming) a')).
Proof.
  intros [Hl Ht] Hx He Hne Hi. pose proof Hx as (Ho & _ & Hx'). rewrite He in Hx'. destruct Hx' as (Hs & _ & _ & Hend).
  unfold push, ended. rewrite He, (proj2 (is_empty_false _) Hne). cbn [orb]. rewrite Ho. destruct (co_end o) as [|n|d|] eqn:Ee.
  - unfold capture_value. cbn. rewrite bind_ok_id, length_app, Nat.add_comm, Nat.add_sub. by rewrite firstn_all.
  - rewrite Hs. cbn in Hend. pose proof (len_nonneg s). rewrite (proj2 (Z.ltb_ge _ _)).
    2:{ destruct Hend as [Hend| ->]; [|rewrite len_nil; cbn in Ht; lia]. destruct (Z.leb_spec n (len s)); [done|lia]. }
    do 2 f_equal. unfold capture_value. cbn. rewrite len_app. pose proof (len_nonneg incoming).
    destruct (Z.leb_spec n (len s + len incoming)) as [Hn|Hn].
    + rewrite Z.min_l by lia. rewrite length_take_le by (rewrite length_app; unfold len in *; lia). f_equal. unfold len. lia.
    + rewrite Z.min_r by lia. rewrite length_app. f_equal. unfold len. lia.
  - rewrite <-Ee. eapply push_until_arm; [done..|]. intros x. by rewrite Ee.
  - rewrite <-Ee. eapply push_until_arm; [done..|]. intros x. by rewrite Ee.
Qed.

Lemma ended_explains o stream s a : ca_end_reached a = true -> explains o stream s a -> explains o stream s (ended o s a).
Proof.
  intros He Hx. assert (end_reached a = a) as E by (destruct a; cbn in *; by subst). unfold ended. rewrite E. by repeat case_match.
Qed.
Lemma push_exact o stream s a incoming : typed_options o -> explains o stream s a -> len incoming < 2 ^ 63 ->
  refused_allocation o stream (push a incoming)
  \/ (exists a', push a incoming = Ok a' /\ explains o stream (s ++ incoming) a')
  \/ (exists e, push a incoming = Err e /\ forall t, captured o stream (s ++ incoming ++ t) = Err e).
Proof.
  intros Hto Hx Hi. destruct (ca_end_reached a) eqn:He.
  { right. left. exists a. split; [unfold push; by rewrite He|]. destruct Hx as (? & ? & Hx). rewrite He in Hx. split_and!; [done..|].
    rewrite He. intros t. rewrite <-app_assoc. apply Hx. }
  destruct (decide (incoming = [])) as [->|Hne].
  { right. left. exists a. split; [unfold push; by rewrite orb_true_r|]. by rewrite app_nil_r. }
  rewrite (push_arm o stream s) by done. destruct Hx as (Ho & Hst & Hx). rewrite He in Hx. destruct Hx as (Hs & Hsl & Hs2 & Hend).
  pose proof (piece_value (co_end o) s incoming Hend) as Hv. set (v := capture_value (co_end o) (s ++ incoming)) in *.
  destruct (append_exact o stream s a (length v - length s) incoming Ho Hst Hs He (proj1 Hto) Hsl) as [(n & -> & Hn)|Hr];
    [left; by exists n|right]. rewrite <-Hv in Hr. destruct (Z.leb_spec (len v) (co_limit o)) as [Hle|Hgt].
  - left. destruct Hr as [-> Hv2]. cbn. eexists. split; [done|]. unfold ended.
    assert (forall t, boundary (co_end o) (s ++ incoming) <> None -> captured o stream ((s ++ incoming) ++ t) = Ok v) as Hfin.
    { intros t Hb. destruct (boundary (co_end o) (s ++ incoming)) as [n|] eqn:Eb; [|done]. unfold captured.
      rewrite (capture_value_app _ _ _ _ Eb). fold v. by rewrite (proj2 (Z.leb_le _ _)) by done. }
    assert (boundary (co_end o) (s ++ incoming) = None -> v = s ++ incoming) as Hall by (intros Eb; unfold v, capture_value; by rewrite Eb).
    assert (boundary (co_end o) (s ++ incoming) = None -> explains o stream (s ++ incoming)
      {| ca_options := o; ca_stream := stream; ca_bytes := v; ca_end_reached := false |}) as Hopen.
    { intros Eb. split_and!; [done..|]. cbn. rewrite <-(Hall Eb). split_and!; try done. rewrite (Hall Eb). by left. }
    assert (boundary (co_end o) (s ++ incoming) <> None -> explains o stream (s ++ incoming)
      (end_reached {| ca_options := o; ca_stream := stream; ca_bytes := v; ca_end_reached := false |})) as Hclosed.
    { intros Eb. split_and!; [done..|]. cbn. intros t. by apply Hfin. }
    destruct (co_end o) as [|n|d|] eqn:Ee; cbn [ca_bytes]; try (case_bool_decide as Eb; [by apply Hopen|by apply Hclosed]).
    destruct (Z.leb_spec n (len v)) as [Hn|Hn].
    + apply Hclosed. cbn. assert (len v <= len (s ++ incoming)) as Hvl.
      { unfold v, capture_value. case_match; [|done]. unfold len. rewrite length_take. lia. }
      by rewrite (proj2 (Z.leb_le _ _)) by lia.
    + apply Hopen. cbn. destruct (Z.leb_spec n (len (s ++ incoming))) as [Hn2|]; [|done]. exfalso.
      unfold v, capture_value in Hn. cbn in Hn. rewrite (proj2 (Z.leb_le _ _)) in Hn by done. unfold len in *. rewrite length_take in Hn.
      destruct Hto as [_ Ht]. rewrite Ee in Ht. lia.
  - destruct (co_overflow o) eqn:Eo.
    + right. rewrite Hr. cbn. eexists. split; [done|]. intros t. rewrite app_assoc. apply captured_over; [fold v; lia|done].
    + left. rewrite Hr. cbn. eexists. split; [done|]. apply ended_explains; [done|]. split_and!; [done..|]. cbn. intros t.
      apply captured_cut; [apply Hto|fold v; lia|done].
Qed.

Lemma pieces_exact o stream pieces : typed_options o -> Forall (fun x => len x < 2 ^ 63) pieces -> forall s a, explains o stream s a ->
  (exists n, for_each push pieces a = Err (OutputAllocationFailed stream n None) /\ 0 <= n <= co_limit o /\ reserve n = false)
  \/ (a' ← for_each push pieces a; Ok (ca_bytes a')) = captured o stream (s ++ concat pieces).
Proof.
  intros Hto. induction 1 as [|x pieces Hx Hps IH]; intros s a Ha; cbn [for_each concat].
  { right. rewrite app_nil_r. cbn. destruct Ha as (Ho & Hst & Ha). destruct (ca_end_reached a).
    - rewrite <-(app_nil_r s). by rewrite Ha.
    - destruct Ha as (-> & Hl & _ & Hb). unfold captured. assert (capture_value (co_end o) s = s) as ->.
      { unfold capture_value. destruct Hb as [-> | ->]; [done|]. by destruct (boundary _ []); rewrite ?take_nil. }
      by rewrite (proj2 (Z.leb_le _ _)). }
  destruct (push_exact o stream s a x Hto Ha Hx) as [(n & -> & Hn)|[(a' & -> & Ha')|(e & -> & He)]]; cbn [mbind res_bind].
  - left. by exists n.
  - rewrite app_assoc. by apply IH.
  - right. by rewrite He.
Qed.
End Accumulator.

(** C33: Capture does not depend on how the output was cut into reads.  The
    retained value is the output up to its configured end (end of stream, byte
    count, first delimiter or first newline, wherever reads split it); a value
    above the limit is an error or is cut at the limit, as configured; and
    otherwise the capture fails only because a buffer within the limit was
    refused.  At most [limit] bytes are retained. *)
Theorem capture_exact (reserve : Z -> bool) (o : CaptureOptions) (stream : OutputStream) (pieces : list bytes) :
  (forall n, reserve n = true -> n < 2 ^ 63) -> typed_options o -> Forall (fun x => len x < 2 ^ 63) pieces ->
  (exists n, capture reserve o stream pieces = Err (OutputAllocationFailed stream n None) /\ 0 <= n <= co_limit o /\ reserve n = false)
  \/ capture reserve o stream pieces = captured o stream (concat pieces)
     /\ forall b, capture reserve o stream pieces = Ok b -> len b <= co_limit o.
Proof.
  intros Hr Hto Hp. unfold capture. destruct (pieces_exact reserve Hr o stream pieces Hto Hp [] (CaptureAccumulator_new o stream)) as [(n & -> & Hn)|E].
  - split_and!; [done..|]. cbn. split_and!; [done|apply Hto|done|by right].
  - left. by exists n.
  - right. cbn [app] in E. rewrite E. split; [done|]. intros b. unfold captured. destruct Hto as [Hl _].
    destruct (Z.leb_spec (len (capture_value (co_end o) (concat pieces))) (co_limit o)); [by intros [= <-]|].
    destruct (co_overflow o); [done|]. intros [= <-]. unfold len. rewrite length_take. lia.
Qed.

(** The first terminal state stays, and it is what every observer returns. *)
Lemma lifecycle_sticky updates l : state_terminal (lc_state l) = true -> lc_state (foldl (fun l s => set s l) l updates) = lc_state l.
Proof. revert l. induction updates as [|s updates IH]; intros l Hl; cbn; [done|]. rewrite IH; unfold set; by rewrite Hl. Qed.
Lemma observed_finish_last current changes : state_terminal current = false ->
  observed_finish current changes =
  terminal_from_closed (default (default current (last changes)) (List.find state_terminal changes)).
Proof.
  revert current. induction changes as [|s changes IH]; intros current Hc; [by destruct current|].
  assert (observed_finish current (s :: changes) = observed_finish s changes) as -> by (by destruct current).
  cbn [List.find]. destruct (state_terminal s) eqn:Es; [by destruct s, changes|]. rewrite IH by done.
  destruct (List.find state_terminal changes); [done|]. rewrite last_cons. by destruct (last changes).
Qed.

Module CaptureExample.
Definition roomy (n : Z) : bool := n <? 2 ^ 32.
Definition until_dashes : CaptureOptions := until (Delimiter (str "--")) (with_limit 16 CaptureOptions_default).
Definition reads : list bytes := [str "ab-"; []; str "-cd--ef"].
Lemma capture_exact_witness :
  (exists n, capture roomy until_dashes Stream_Stdout reads = Err (OutputAllocationFailed Stream_Stdout n None) /\ 0 <= n <= 16 /\ roomy n = false)
  \/ capture roomy until_dashes Stream_Stdout reads = Ok (str "ab--")
     /\ forall b, capture roomy until_dashes Stream_Stdout reads = Ok b -> len b <= 16.
Proof.
  apply (capture_exact roomy until_dashes Stream_Stdout reads).
  - intros n Hn. apply Z.ltb_lt in Hn. lia.
  - split; [cbn; lia|done].
  - repeat constructor.
Defined.
Example late_delimiter_truncated :
  capture roomy (with_overflow Overflow_Truncate (with_limit 5 (until (Delimiter (str "END")) CaptureOptions_default))) Stream_Stdout
    [str "01234"; str "END"] = Ok (str "01234").
Proof. vm_compute. reflexivity. Qed.
(** An empty delimiter never matches. *)
Example empty_delimiter : capture roomy (until (Delimiter []) CaptureOptions_default) Stream_Stderr [str "a"; str "b"] = Ok (str "ab").
Proof. vm_compute. reflexivity. Qed.
End CaptureExample.
