(* ===== verification/HostDispatch.v ===== *)
(** * The host's command dispatcher

    [libs/guest-client/src/transport.rs] and [client.rs]: queued host requests
    are started on two permit lanes, expire while they wait, and are answered
    once.

    The dispatcher's loop runs between its [select!] points; between them
    clients send requests, tasks finish and time passes.  Branches of the
    biased [select!] are taken in their order.  Nobody closes the dispatcher's
    own semaphores, so [TryAcquireError::Closed] does not occur. *)

From Stdlib Require Import ZArith Lia.
From stdpp Require Import base tactics option list numbers relations.
From S2P Require Import Prelude Bytes Messages Runtime.

Definition MAX_IN_FLIGHT_HOST_REQUESTS : Z := 32.
Definition MAX_IN_FLIGHT_PROCESS_WAITS : Z := 32.

(** A request with its reply channel's identity. *)
Record HostRequest := { rq_id : nat; rq_cmd : Command; rq_deadline : option Z }.
Definition is_process_wait (r : HostRequest) : bool := match rq_cmd r with Command_ProcessWait _ => true | _ => false end.
Definition is_shutdown (r : HostRequest) : bool := match rq_cmd r with Command_VMShutdown => true | _ => false end.

(** What the requester's channel sees: a result, or the dropped sender. *)
Inductive reply := Replied (r : res GuestClientError Event) | ReplyDropped.
Definition request_cancelled : GuestClientError := GC_Shutdown.

(** [timeout_at] polled at [now]: the future is polled first. *)
Definition timeout_at {A} (deadline now : Z) (polled : option A) : option (res unit A) :=
  match polled with
  | Some a => Some (Ok a)
  | None => if deadline <=? now then Some (Err tt) else None
  end.
(** [execute_request] polled at [now] with the transport's answer so far; a
    panicking transport drops the reply sender. *)
Definition execute_request (r : HostRequest) (now : Z) (transport : option (res GuestClientError Event)) : option reply :=
  match transport with
  | Some Panic => Some ReplyDropped
  | _ =>
      match rq_deadline r with
      | Some deadline =>
          match timeout_at deadline now transport with
          | Some (Ok result) => Some (Replied result)
          | Some _ => Some (Replied (Err GC_RequestTimedOut))
          | None => None
          end
      | None => Replied <$> transport
      end
  end.

(** A spawned request task: running with or without a permit, or finished and
    not yet joined. *)
Record task := { tk_request : HostRequest; tk_permit : bool; tk_finished : bool }.

Record Dispatcher := {
  dp_receiver : list HostRequest;      (** sent and not yet received *)
  dp_senders : bool;                   (** a sender is alive *)
  dp_cancelled : bool;
  dp_permits : Z;
  dp_process_wait_permits : Z;
  dp_pending : list HostRequest;
  dp_tasks : list task;
  dp_replies : list (nat * reply);
  dp_stopped : bool;
  dp_now : Z }.
Definition with_semaphores (permits process_wait_permits : Z) : Dispatcher := {|
  dp_receiver := []; dp_senders := true; dp_cancelled := false; dp_permits := permits;
  dp_process_wait_permits := process_wait_permits; dp_pending := []; dp_tasks := []; dp_replies := []; dp_stopped := false; dp_now := 0 |}.
Definition with_semaphore (permits : Z) : Dispatcher := with_semaphores permits MAX_IN_FLIGHT_PROCESS_WAITS.
Definition Dispatcher_new : Dispatcher := with_semaphore MAX_IN_FLIGHT_HOST_REQUESTS.

Definition set_pending (pending : list HostRequest) (replies : list (nat * reply)) (d : Dispatcher) : Dispatcher := {|
  dp_receiver := dp_receiver d; dp_senders := dp_senders d; dp_cancelled := dp_cancelled d; dp_permits := dp_permits d;
  dp_process_wait_permits := dp_process_wait_permits d; dp_pending := pending; dp_tasks := dp_tasks d; dp_replies := replies;
  dp_stopped := dp_stopped d; dp_now := dp_now d |}.

Definition expired (now : Z) (r : HostRequest) : bool := match rq_deadline r with Some deadline => deadline <=? now | None => false end.
Definition expire_pending (d : Dispatcher) : Dispatcher :=
  set_pending (List.filter (fun r => negb (expired (dp_now d) r)) (dp_pending d))
    (dp_replies d ++ map (fun r => (rq_id r, Replied (Err GC_RequestTimedOut))) (List.filter (expired (dp_now d)) (dp_pending d))) d.

Definition may_start (d : Dispatcher) (r : HostRequest) : bool :=
  if is_process_wait r then 0 <? dp_process_wait_permits d else (0 <? dp_permits d) || is_shutdown r.
(** [pending.iter().position(..)] and [pending.remove(index)]. *)
Fixpoint take_first (f : HostRequest -> bool) (pending : list HostRequest) : option (HostRequest * list HostRequest) :=
  match pending with
  | [] => None
  | r :: pending =>
      if f r then Some (r, pending)
      else match take_first f pending with Some (x, rest) => Some (x, r :: rest) | None => None end
  end.

(** [try_acquire_owned] of the request's lane; [None] when it has no permit. *)
Definition acquire (d : Dispatcher) (r : HostRequest) : option Dispatcher :=
  if is_process_wait r then
    if 0 <? dp_process_wait_permits d then
      Some {| dp_receiver := dp_receiver d; dp_senders := dp_senders d; dp_cancelled := dp_cancelled d; dp_permits := dp_permits d;
              dp_process_wait_permits := dp_process_wait_permits d - 1; dp_pending := dp_pending d; dp_tasks := dp_tasks d;
              dp_replies := dp_replies d; dp_stopped := dp_stopped d; dp_now := dp_now d |}
    else None
  else
    if 0 <? dp_permits d then
      Some {| dp_receiver := dp_receiver d; dp_senders := dp_senders d; dp_cancelled := dp_cancelled d; dp_permits := dp_permits d - 1;
              dp_process_wait_permits := dp_process_wait_permits d; dp_pending := dp_pending d; dp_tasks := dp_tasks d;
              dp_replies := dp_replies d; dp_stopped := dp_stopped d; dp_now := dp_now d |}
    else None.
Definition spawn_task (t : task) (pending : list HostRequest) (d : Dispatcher) : Dispatcher := {|
  dp_receiver := dp_receiver d; dp_senders := dp_senders d; dp_cancelled := dp_cancelled d; dp_permits := dp_permits d;
  dp_process_wait_permits := dp_process_wait_permits d; dp_pending := pending; dp_tasks := dp_tasks d ++ [t];
  dp_replies := dp_replies d; dp_stopped := dp_stopped d; dp_now := dp_now d |}.

(** The loop of [start_ready]; each round takes a pending request. *)
Fixpoint start_loop (fuel : nat) (d : Dispatcher) : Dispatcher :=
  match fuel with
  | O => d
  | S fuel =>
      match take_first (may_start d) (dp_pending d) with
      | None => d
      | Some (request, pending) =>
          match acquire d request with
          | Some d' => start_loop fuel (spawn_task {| tk_request := request; tk_permit := true; tk_finished := false |} pending d')
          | None =>
              if is_shutdown request && negb (is_process_wait request) then
                start_loop fuel (spawn_task {| tk_request := request; tk_permit := false; tk_finished := false |} pending d)
              else set_pending (request :: pending) (dp_replies d) d
          end
      end
  end.
Definition start_ready (d : Dispatcher) : Dispatcher :=
  let d := expire_pending d in start_loop (length (dp_pending d)) d.

Definition earlier (a b : option Z) : option Z :=
  match a, b with Some x, Some y => Some (Z.min x y) | Some x, None | None, Some x => Some x | None, None => None end.
Definition next_deadline (d : Dispatcher) : option Z := foldr (fun r => earlier (rq_deadline r)) None (dp_pending d).

(** The permits after a task has dropped its own. *)
Definition release (t : task) (permits : Z * Z) : Z * Z :=
  if tk_permit t && negb (tk_finished t) then
    if is_process_wait (tk_request t) then (permits.1, permits.2 + 1) else (permits.1 + 1, permits.2)
  else permits.
Definition lanes (d : Dispatcher) : Z * Z := (dp_permits d, dp_process_wait_permits d).

(** [stop] and the end of [run]: pending requests are answered, unfinished
    tasks aborted, and the requests still queued go with the receiver. *)
Definition aborted (t : task) : list (nat * reply) := if tk_finished t then [] else [(rq_id (tk_request t), ReplyDropped)].
Definition stop (d : Dispatcher) : Dispatcher := {|
  dp_receiver := []; dp_senders := dp_senders d; dp_cancelled := dp_cancelled d;
  dp_permits := (foldr release (lanes d) (dp_tasks d)).1; dp_process_wait_permits := (foldr release (lanes d) (dp_tasks d)).2;
  dp_pending := []; dp_tasks := [];
  dp_replies := dp_replies d ++ map (fun r => (rq_id r, Replied (Err request_cancelled))) (dp_pending d)
                ++ concat (map aborted (dp_tasks d)) ++ map (fun r => (rq_id r, ReplyDropped)) (dp_receiver d);
  dp_stopped := true; dp_now := dp_now d |}.

(** The end of a task: the reply is sent and the permit returned. *)
Definition finish_task (i : nat) (t : task) (a : reply) (d : Dispatcher) : Dispatcher := {|
  dp_receiver := dp_receiver d; dp_senders := dp_senders d; dp_cancelled := dp_cancelled d;
  dp_permits := (release t (lanes d)).1; dp_process_wait_permits := (release t (lanes d)).2; dp_pending := dp_pending d;
  dp_tasks := <[i := {| tk_request := tk_request t; tk_permit := tk_permit t; tk_finished := true |}]> (dp_tasks d);
  dp_replies := dp_replies d ++ [(rq_id (tk_request t), a)]; dp_stopped := dp_stopped d; dp_now := dp_now d |}.
Definition joined (i : nat) (d : Dispatcher) : Dispatcher := {|
  dp_receiver := dp_receiver d; dp_senders := dp_senders d; dp_cancelled := dp_cancelled d; dp_permits := dp_permits d;
  dp_process_wait_permits := dp_process_wait_permits d; dp_pending := dp_pending d; dp_tasks := delete i (dp_tasks d);
  dp_replies := dp_replies d; dp_stopped := dp_stopped d; dp_now := dp_now d |}.
Definition received (r : HostRequest) (rest : list HostRequest) (d : Dispatcher) : Dispatcher := {|
  dp_receiver := rest; dp_senders := dp_senders d; dp_cancelled := dp_cancelled d; dp_permits := dp_permits d;
  dp_process_wait_permits := dp_process_wait_permits d; dp_pending := dp_pending d ++ [r]; dp_tasks := dp_tasks d;
  dp_replies := dp_replies d; dp_stopped := dp_stopped d; dp_now := dp_now d |}.
(** What happens outside the loop. *)
Definition sent (r : HostRequest) (d : Dispatcher) : Dispatcher := {|
  dp_receiver := dp_receiver d ++ [r]; dp_senders := dp_senders d; dp_cancelled := dp_cancelled d; dp_permits := dp_permits d;
  dp_process_wait_permits := dp_process_wait_permits d; dp_pending := dp_pending d; dp_tasks := dp_tasks d;
  dp_replies := dp_replies d; dp_stopped := dp_stopped d; dp_now := dp_now d |}.
Definition outside (senders cancelled : bool) (now : Z) (d : Dispatcher) : Dispatcher := {|
  dp_receiver := dp_receiver d; dp_senders := senders; dp_cancelled := cancelled; dp_permits := dp_permits d;
  dp_process_wait_permits := dp_process_wait_permits d; dp_pending := dp_pending d; dp_tasks := dp_tasks d;
  dp_replies := dp_replies d; dp_stopped := dp_stopped d; dp_now := now |}.

(** ** The loop and its surroundings *)

(** What clients, tasks and the clock do; [n] counts the requests sent, whose
    identities are [0, 1, ..]. *)
Inductive outer_step : nat * Dispatcher -> nat * Dispatcher -> Prop :=
  | step_send n d r :
      dp_senders d = true -> dp_stopped d = false -> rq_id r = n -> outer_step (n, d) (S n, sent r d)
  | step_outside n d senders cancelled now :
      (dp_cancelled d = true -> cancelled = true) -> (dp_senders d = false -> senders = false) -> dp_now d <= now ->
      outer_step (n, d) (n, outside senders cancelled now d)
  | step_finish n d i t transport a :
      dp_tasks d !! i = Some t -> tk_finished t = false -> execute_request (tk_request t) (dp_now d) transport = Some a ->
      outer_step (n, d) (n, finish_task i t a d).

(** One round of [run]: the first ready branch of the [select!], then
    [start_ready] of the next round. *)
Inductive loop_step : Dispatcher -> Dispatcher -> Prop :=
  | step_cancel d :
      dp_stopped d = false -> dp_cancelled d = true -> loop_step d (stop d)
  | step_recv d r rest :
      dp_stopped d = false -> dp_cancelled d = false -> dp_receiver d = r :: rest ->
      loop_step d (start_ready (received r rest d))
  | step_closed d :
      dp_stopped d = false -> dp_cancelled d = false -> dp_receiver d = [] -> dp_senders d = false -> loop_step d (stop d)
  | step_join d i t :
      dp_stopped d = false -> dp_cancelled d = false -> dp_receiver d = [] -> dp_senders d = true ->
      dp_tasks d !! i = Some t -> tk_finished t = true ->
      loop_step d (start_ready (joined i d))
  | step_expire d deadline :
      dp_stopped d = false -> dp_cancelled d = false -> dp_receiver d = [] -> dp_senders d = true ->
      Forall (fun t => tk_finished t = false) (dp_tasks d) -> next_deadline d = Some deadline -> deadline <= dp_now d ->
      loop_step d (start_ready (expire_pending d)).
Inductive step : nat * Dispatcher -> nat * Dispatcher -> Prop :=
  | step_outer s s' : outer_step s s' -> step s s'
  | step_loop n d d' : loop_step d d' -> step (n, d) (n, d').

(** ** The client *)

Definition REQUEST_TIMEOUT : Z := 5_000_000_000.
(** [request_with_deadline] from the answers of its two waits: whether the
    request was queued, and the reply.  [None] while it still waits. *)
Definition request_with_deadline (deadline : option Z) (sending : Z * option bool) (receiving : Z * option reply)
    : option (res GuestClientError Event) :=
  let delivered (a : reply) := match a with Replied r => r | ReplyDropped => Err GC_Shutdown end in
  match deadline with
  | Some deadline =>
      match timeout_at deadline sending.1 sending.2 with
      | None => None
      | Some (Ok true) =>
          match timeout_at deadline receiving.1 receiving.2 with
          | None => None
          | Some (Ok a) => Some (delivered a)
          | Some _ => Some (Err GC_RequestTimedOut)
          end
      | Some (Ok false) => Some (Err GC_Shutdown)
      | Some _ => Some (Err GC_RequestTimedOut)
      end
  | None =>
      match sending.2 with
      | None => None
      | Some true => delivered <$> receiving.2
      | Some false => Some (Err GC_Shutdown)
      end
  end.
Definition request_with_sender (now : Z) := request_with_deadline (Some (now + REQUEST_TIMEOUT)).
Definition request_without_deadline := request_with_deadline None.
Definition expect_event (r : res GuestClientError Event) : res GuestClientError Event :=
  match r with
  | Ok (Event_Error code msg) => Err (GC_Guest (GuestErrorCode_from_u32 code) msg)
  | r => r
  end.
Definition request_expect (now : Z) (sending : Z * option bool) (receiving : Z * option reply) : option (res GuestClientError Event) :=
  expect_event <$> request_with_sender now sending receiving.

(** ** Files and directories *)

(** [GuestFiles] on the client's replies. *)
Section Files.
Context (reply : Command -> res GuestClientError Event).

Definition file_read (path : bytes) : res GuestClientError bytes :=
  e ← expect_event (reply (Command_FileRead path));
  match e with Event_FileRead _ data => Ok data | _ => Err GC_UnexpectedReply end.
Definition file_write (path data : bytes) : res GuestClientError unit :=
  e ← expect_event (reply (Command_FileWrite path data));
  match e with Event_FileWritten _ => Ok tt | _ => Err GC_UnexpectedReply end.
Definition file_remove (path : bytes) : res GuestClientError unit :=
  e ← expect_event (reply (Command_FileRemove path));
  match e with Event_FileRemoved _ => Ok tt | _ => Err GC_UnexpectedReply end.
Definition dir_create (path : bytes) : res GuestClientError unit :=
  e ← expect_event (reply (Command_DirCreate path));
  match e with Event_DirCreated _ => Ok tt | _ => Err GC_UnexpectedReply end.
Definition dir_remove (path : bytes) : res GuestClientError unit :=
  e ← expect_event (reply (Command_DirRemove path));
  match e with Event_DirRemoved _ => Ok tt | _ => Err GC_UnexpectedReply end.
Definition dir_read (path : bytes) : res GuestClientError (list bytes) :=
  e ← expect_event (reply (Command_DirRead path));
  match e with Event_DirRead _ entries => Ok entries | _ => Err GC_UnexpectedReply end.
End Files.
Definition listing_contains (entries : list bytes) (name : bytes) : bool := existsb (fun e => bool_decide (e = name)) entries.

(** ** Where requests and permits are *)

Definition task_id (t : task) : nat := rq_id (tk_request t).
Definition unfinished (t : task) : bool := negb (tk_finished t).
(** Each request's place: queued, pending, running, or answered. *)
Definition places (d : Dispatcher) : list nat :=
  map rq_id (dp_receiver d) ++ map rq_id (dp_pending d) ++ map task_id (List.filter unfinished (dp_tasks d)) ++ map fst (dp_replies d).
Definition held (wait : bool) (t : task) : Z :=
  if tk_permit t && unfinished t && Bool.eqb (is_process_wait (tk_request t)) wait then 1 else 0.
Definition count (wait : bool) (ts : list task) : Z := foldr (fun t total => held wait t + total) 0 ts.
Definition in_flight (wait : bool) (d : Dispatcher) : Z := count wait (dp_tasks d).
Definition is_finished (d : Dispatcher) : Prop := exists t, t ∈ dp_tasks d /\ tk_finished t = true.
Definition none_ready (d : Dispatcher) : Prop := Forall (fun r => may_start d r = false) (dp_pending d).

Record dispatcher_inv (P W : Z) (n : nat) (d : Dispatcher) : Prop := {
  inv_places : places d ≡ₚ seq 0 n;
  inv_normal : dp_permits d + in_flight false d = P;
  inv_wait : dp_process_wait_permits d + in_flight true d = W;
  inv_available : 0 <= dp_permits d /\ 0 <= dp_process_wait_permits d;
  inv_unpermitted : Forall (fun t => tk_permit t = true \/ is_shutdown (tk_request t) = true) (dp_tasks d);
  inv_stopped : dp_stopped d = true -> dp_receiver d = [] /\ dp_pending d = [] /\ dp_tasks d = [] }.

Lemma count_cons wait t ts : count wait (t :: ts) = held wait t + count wait ts.
Proof. done. Qed.
Lemma count_nil wait : count wait [] = 0.
Proof. done. Qed.
Lemma count_app wait xs ys : count wait (xs ++ ys) = count wait xs + count wait ys.
Proof. induction xs as [|x xs IH]; cbn; [done|]. unfold count in *. cbn. lia. Qed.
#[local] Instance count_Permutation wait : Proper ((≡ₚ) ==> (=)) (count wait).
Proof. intros xs ys H. induction H; cbn; unfold count in *; cbn in *; lia. Qed.
#[local] Instance filter_unfinished_Permutation : Proper ((≡ₚ) ==> (≡ₚ)) (List.filter unfinished).
Proof.
  intros xs ys H. induction H as [|x xs ys H IH|x y xs|]; cbn; [done| | |by etransitivity].
  - destruct (unfinished x); [by constructor|done].
  - destruct (unfinished x), (unfinished y); try done. constructor.
Qed.
Lemma held_nonneg wait t : 0 <= held wait t <= 1.
Proof. unfold held. destruct (_ && _); lia. Qed.
Lemma count_nonneg wait ts : 0 <= count wait ts.
Proof. unfold count. induction ts as [|t ts IH]; cbn; [lia|]. pose proof (held_nonneg wait t). lia. Qed.
Lemma release_held t x : release t x = (x.1 + held false t, x.2 + held true t).
Proof.
  destruct x as [p w]. unfold release, held, unfinished. cbn.
  destruct (tk_permit t), (tk_finished t), (is_process_wait (tk_request t)); cbn; f_equal; lia.
Qed.
Lemma foldr_release ts x : foldr release x ts = (x.1 + count false ts, x.2 + count true ts).
Proof.
  induction ts as [|t ts IH]; cbn; [destruct x; cbn; f_equal; lia|]. rewrite IH, release_held. unfold count. cbn. f_equal; lia.
Qed.
Lemma insert_Permutation {A} (l : list A) i x y : l !! i = Some x -> <[i := y]> l ≡ₚ y :: delete i l.
Proof.
  intros H. pose proof (lookup_lt_Some _ _ _ H). rewrite insert_take_drop by done. rewrite delete_take_drop.
  by rewrite Permutation_middle.
Qed.

#[global] Arguments count : simpl never.
#[global] Arguments held : simpl never.

(** ** Starting requests *)

Lemma take_first_some f rs r rest :
  take_first f rs = Some (r, rest) -> f r = true /\ rs ≡ₚ r :: rest /\ length rs = S (length rest).
Proof.
  revert r rest. induction rs as [|x rs IH]; cbn; intros r rest H; [done|].
  destruct (f x) eqn:F; [by simplify_eq|]. destruct (take_first f rs) as [[y ys]|]; simplify_eq.
  destruct (IH _ _ eq_refl) as (? & HP & HL). split; [done|]. split; [rewrite HP; constructor|cbn; lia].
Qed.
Lemma take_first_none f rs : take_first f rs = None -> Forall (fun r => f r = false) rs.
Proof.
  induction rs as [|x rs IH]; cbn; intros H; [constructor|]. destruct (f x) eqn:F; [done|].
  destruct (take_first f rs) as [[? ?]|]; [done|]. constructor; auto.
Qed.

(** The state [start_loop] moves to for a request that may start. *)
Definition started (d : Dispatcher) (r : HostRequest) (pending : list HostRequest) : Dispatcher :=
  match acquire d r with
  | Some d' => spawn_task {| tk_request := r; tk_permit := true; tk_finished := false |} pending d'
  | None => spawn_task {| tk_request := r; tk_permit := false; tk_finished := false |} pending d
  end.
Lemma start_loop_S fuel d :
  start_loop (S fuel) d = match take_first (may_start d) (dp_pending d) with
                          | None => d
                          | Some (r, pending) => start_loop fuel (started d r pending)
                          end.
Proof.
  cbn. destruct (take_first _ _) as [[r pending]|] eqn:E; [|done]. apply take_first_some in E as (E & _ & _).
  unfold started, may_start, acquire, is_shutdown, is_process_wait in *.
  destruct (rq_cmd r); cbn in *; repeat case_match; cbn in *; try done.
Qed.
Lemma start_loop_ind (Q : Dispatcher -> Prop) fuel d :
  (forall d r pending, Q d -> may_start d r = true -> dp_pending d ≡ₚ r :: pending -> Q (started d r pending)) ->
  Q d -> Q (start_loop fuel d).
Proof.
  intros HS. revert d. induction fuel as [|fuel IH]; intros d HQ; [done|]. rewrite start_loop_S.
  destruct (take_first _ _) as [[r pending]|] eqn:E; [|done]. apply take_first_some in E as (? & ? & _). eauto.
Qed.
Lemma started_pending d r pending : dp_pending (started d r pending) = pending.
Proof. unfold started. by destruct (acquire d r). Qed.
Lemma start_loop_none_ready fuel d : (length (dp_pending d) <= fuel)%nat -> none_ready (start_loop fuel d).
Proof.
  revert d. induction fuel as [|fuel IH]; intros d H.
  - unfold none_ready. cbn. destruct (dp_pending d); [constructor|cbn in H; lia].
  - rewrite start_loop_S. destruct (take_first _ _) as [[r pending]|] eqn:E.
    + apply take_first_some in E as (_ & _ & HL). apply IH. rewrite started_pending. lia.
    + by apply take_first_none.
Qed.
Lemma start_ready_none_ready d : none_ready (start_ready d).
Proof. by apply start_loop_none_ready. Qed.

(** ** Every step keeps requests and permits *)

(** The list facts behind the moves between places. *)
Lemma finished_not t : tk_finished t = true -> unfinished t = false.
Proof. unfold unfinished. by intros ->. Qed.
Lemma unfinished_is t : tk_finished t = false -> unfinished t = true.
Proof. unfold unfinished. by intros ->. Qed.
Lemma filter_app_one ts t : List.filter unfinished (ts ++ [t]) = List.filter unfinished ts ++ (if unfinished t then [t] else []).
Proof. rewrite List.filter_app. cbn. by destruct (unfinished t). Qed.
Lemma filter_partition {A B} (f : A -> bool) (g : A -> B) xs :
  map g (List.filter (fun x => negb (f x)) xs) ++ map g (List.filter f xs) ≡ₚ map g xs.
Proof.
  induction xs as [|x xs IH]; cbn; [done|]. destruct (f x); cbn; [|by rewrite IH].
  rewrite <- Permutation_middle. by rewrite IH.
Qed.
Lemma aborted_ids ts : map fst (concat (map aborted ts)) = map task_id (List.filter unfinished ts).
Proof.
  induction ts as [|t ts IH]; cbn; [done|]. rewrite map_app, IH. unfold aborted, unfinished. by destruct (tk_finished t).
Qed.

Lemma held_done wait t : tk_finished t = true -> held wait t = 0.
Proof. intros H. unfold held, unfinished. by rewrite H, andb_false_r. Qed.

Lemma task_out (ts : list task) i t : ts !! i = Some t ->
  exists rest, delete i ts = rest /\ ts ≡ₚ t :: rest /\ forall t', <[i := t']> ts ≡ₚ t' :: rest.
Proof. intros H. eexists. split; [done|]. split; [by apply delete_Permutation|]. intros t'. by eapply insert_Permutation. Qed.

Section Preservation.
Context (P W : Z).
Implicit Types (d : Dispatcher) (n : nat).

Lemma spawn_inv n d d' t pending :
  dispatcher_inv P W n d -> dp_pending d ≡ₚ tk_request t :: pending -> tk_finished t = false ->
  dp_receiver d' = dp_receiver d -> dp_replies d' = dp_replies d -> dp_tasks d' = dp_tasks d -> dp_stopped d' = dp_stopped d ->
  dp_permits d' = dp_permits d - held false t -> dp_process_wait_permits d' = dp_process_wait_permits d - held true t ->
  0 <= dp_permits d' -> 0 <= dp_process_wait_permits d' -> tk_permit t = true \/ is_shutdown (tk_request t) = true ->
  dispatcher_inv P W n (spawn_task t pending d').
Proof.
  intros [HP HN HW HA HU HS] HL HF E1 E2 E3 E4 E5 E6 H5 H6 HT.
  split; cbn [dp_permits dp_process_wait_permits dp_tasks dp_stopped spawn_task].
  - rewrite <- HP. unfold places. cbn. rewrite E1, E2, E3, filter_app_one, map_app, HL. rewrite (unfinished_is t) by done. cbn.
    solve_Permutation.
  - unfold in_flight in *. cbn. rewrite E3, count_app, count_cons, count_nil. lia.
  - unfold in_flight in *. cbn. rewrite E3, count_app, count_cons, count_nil. lia.
  - done.
  - rewrite E3. apply Forall_app. split; [done|]. by apply Forall_singleton.
  - rewrite E4. intros HD. destruct (HS HD) as (_ & E & _). rewrite E in HL. by apply Permutation_nil_cons in HL.
Qed.
Lemma started_inv n d r pending :
  dispatcher_inv P W n d -> may_start d r = true -> dp_pending d ≡ₚ r :: pending -> dispatcher_inv P W n (started d r pending).
Proof.
  intros HI HM HL. pose proof (inv_available _ _ _ _ HI). unfold may_start in HM. unfold started, acquire.
  destruct (is_process_wait r) eqn:EW; [rewrite HM|destruct (0 <? dp_permits d) eqn:E];
    apply (spawn_inv n d); unfold held; cbn; rewrite ?EW; cbn; try done; try lia; auto.
Qed.
Lemma expire_inv n d : dispatcher_inv P W n d -> dispatcher_inv P W n (expire_pending d).
Proof.
  intros [HP HN HW HA HU HS]. split; try done.
  - rewrite <- HP. unfold places, expire_pending. cbn. rewrite map_app, map_map. cbn.
    rewrite <- (filter_partition (expired (dp_now d)) rq_id (dp_pending d)). solve_Permutation.
  - cbn. intros HD. destruct (HS HD) as (-> & -> & ->). done.
Qed.
Lemma start_ready_inv n d : dispatcher_inv P W n d -> dispatcher_inv P W n (start_ready d).
Proof. intros HI. unfold start_ready. apply (start_loop_ind (dispatcher_inv P W n)); [intros; by apply started_inv|by apply expire_inv]. Qed.
Lemma received_inv n d r rest :
  dispatcher_inv P W n d -> dp_stopped d = false -> dp_receiver d = r :: rest -> dispatcher_inv P W n (received r rest d).
Proof.
  intros [HP HN HW HA HU HS] HD HR. split; try done; [|cbn; congruence].
  rewrite <- HP. unfold places. cbn. rewrite HR, map_app. cbn. solve_Permutation.
Qed.
Lemma joined_inv n d i t :
  dispatcher_inv P W n d -> dp_tasks d !! i = Some t -> tk_finished t = true -> dispatcher_inv P W n (joined i d).
Proof.
  intros [HP HN HW HA HU HS] HT HF. destruct (task_out _ _ _ HT) as (rest & ED & HD & _). split; cbn; try done.
  - rewrite <- HP. unfold places. cbn. rewrite ED, HD. cbn. by rewrite (finished_not t).
  - rewrite <- HN. unfold in_flight. cbn. rewrite ED, HD, count_cons, held_done by done. lia.
  - rewrite <- HW. unfold in_flight. cbn. rewrite ED, HD, count_cons, held_done by done. lia.
  - rewrite ED. rewrite HD in HU. by inv HU.
  - intros HX. destruct (HS HX) as (-> & -> & ->). done.
Qed.
Lemma finish_inv n d i t a :
  dispatcher_inv P W n d -> dp_tasks d !! i = Some t -> tk_finished t = false -> dispatcher_inv P W n (finish_task i t a d).
Proof.
  intros [HP HN HW HA HU HS] HT HF. destruct (task_out _ _ _ HT) as (rest & ED & HD & HI).
  pose proof (held_nonneg false t). pose proof (held_nonneg true t).
  split; cbn; rewrite ?release_held; cbn; try lia.
  - rewrite <- HP. unfold places. cbn. rewrite HI, HD, map_app. cbn. rewrite (unfinished_is t) by done. cbn. solve_Permutation.
  - rewrite <- HN. unfold in_flight. cbn. rewrite HI, HD, !count_cons, (held_done _ (Build_task _ _ true)) by done. lia.
  - rewrite <- HW. unfold in_flight. cbn. rewrite HI, HD, !count_cons, (held_done _ (Build_task _ _ true)) by done. lia.
  - rewrite HI. rewrite HD in HU. inv HU. by constructor.
  - intros HX. destruct (HS HX) as (_ & _ & E). rewrite E in HT. done.
Qed.
Lemma dispatcher_stop_inv n d : dispatcher_inv P W n d -> dispatcher_inv P W n (stop d).
Proof.
  intros [HP HN HW HA HU HS]. pose proof (count_nonneg false (dp_tasks d)). pose proof (count_nonneg true (dp_tasks d)).
  unfold in_flight in *. split; unfold stop, in_flight; rewrite ?foldr_release; cbn; rewrite ?count_nil; cbn; try done; try lia.
  rewrite <- HP. unfold places. cbn. rewrite !map_app, aborted_ids, !map_map. cbn. solve_Permutation.
Qed.
Lemma sent_inv n d r :
  dispatcher_inv P W n d -> dp_stopped d = false -> rq_id r = n -> dispatcher_inv P W (S n) (sent r d).
Proof.
  intros [HP HN HW HA HU HS] HD HR. split; try done; [|cbn; congruence].
  rewrite seq_S, <- HP. unfold places. cbn. rewrite map_app. cbn. rewrite HR. solve_Permutation.
Qed.
Lemma outside_inv n d senders cancelled now : dispatcher_inv P W n d -> dispatcher_inv P W n (outside senders cancelled now d).
Proof. by intros []. Qed.
Lemma loop_step_inv n d d' : dispatcher_inv P W n d -> loop_step d d' -> dispatcher_inv P W n d'.
Proof.
  intros HI HS. inv HS; try by apply dispatcher_stop_inv.
  - by apply start_ready_inv, received_inv.
  - apply start_ready_inv. by eapply joined_inv.
  - by apply start_ready_inv, expire_inv.
Qed.
Lemma dispatcher_step_inv s s' : step s s' -> dispatcher_inv P W s.1 s.2 -> dispatcher_inv P W s'.1 s'.2.
Proof.
  intros HS HI. destruct HS as [s s' HO|n d d' HL]; cbn in *; [|by eapply loop_step_inv].
  destruct HO; cbn in *; [by apply sent_inv|by apply outside_inv|by apply finish_inv].
Qed.
Lemma dispatcher_reachable_inv n d : 0 <= P -> 0 <= W -> rtc step (0%nat, with_semaphores P W) (n, d) -> dispatcher_inv P W n d.
Proof.
  intros HP HW HR. change (dispatcher_inv P W (n, d).1 (n, d).2).
  eapply (rtc_ind_r (fun s => dispatcher_inv P W s.1 s.2)); [|intros; by eapply dispatcher_step_inv|exact HR].
  split; cbn; try done; unfold in_flight; cbn; rewrite ?count_nil; lia.
Qed.
End Preservation.

(** ** No request waits without a reason *)

Definition work_conserving (d : Dispatcher) : Prop := dp_stopped d = false -> none_ready d \/ is_finished d.
Lemma loop_step_conserving d d' : loop_step d d' -> work_conserving d'.
Proof. intros H. inv H; intros HD; try done; left; apply start_ready_none_ready. Qed.
Lemma step_conserving s s' : step s s' -> work_conserving s.2 -> work_conserving s'.2.
Proof.
  intros HS HW. destruct HS as [s s' HO|n d d' HL]; cbn in *; [|by eapply loop_step_conserving].
  destruct HO as [n d r _ HD _|n d senders cancelled now _ _ _|n d i t transport a HT HF HE]; cbn in *; intros HX; auto.
  - right. eexists. split; [|shelve]. cbn. apply list_elem_of_lookup. exists i. apply list_lookup_insert_eq. by eapply lookup_lt_Some.
    Unshelve. done.
Qed.
Lemma reachable_conserving P W n d : rtc step (0%nat, with_semaphores P W) (n, d) -> work_conserving d.
Proof.
  intros HR. change (work_conserving (n, d).2).
  eapply (rtc_ind_r (fun s => work_conserving s.2)); [|intros; by eapply step_conserving|exact HR].
  intros _. left. constructor.
Qed.

(** ** The loop comes to rest *)

(** Rounds the loop can still take without its surroundings. *)
Definition rounds (d : Dispatcher) : nat :=
  if dp_stopped d then 0%nat else (1 + 3 * length (dp_receiver d) + 2 * length (dp_pending d) + length (dp_tasks d))%nat.
Lemma started_rounds d r pending : length (dp_pending d) = S (length pending) -> (rounds (started d r pending) <= rounds d)%nat.
Proof.
  intros H. unfold rounds, started, acquire. repeat case_match; cbn in *; simplify_eq; rewrite ?length_app; cbn; try congruence; lia.
Qed.
Lemma start_loop_rounds fuel d : (rounds (start_loop fuel d) <= rounds d)%nat.
Proof.
  apply (start_loop_ind (fun d' => rounds d' <= rounds d)%nat); [|done]. intros d' r pending H _ HP.
  apply Permutation_length in HP. pose proof (started_rounds d' r pending HP). lia.
Qed.
Lemma expire_rounds d : (rounds (expire_pending d) <= rounds d)%nat.
Proof.
  unfold rounds, expire_pending. cbn. pose proof (List.filter_length_le (fun r => negb (expired (dp_now d) r)) (dp_pending d)).
  destruct (dp_stopped d); lia.
Qed.
Lemma start_ready_rounds d : (rounds (start_ready d) <= rounds (expire_pending d))%nat.
Proof. apply start_loop_rounds. Qed.
Lemma next_deadline_in d deadline :
  next_deadline d = Some deadline -> exists r, r ∈ dp_pending d /\ rq_deadline r = Some deadline.
Proof.
  unfold next_deadline. revert deadline. induction (dp_pending d) as [|r rs IH]; cbn; intros deadline H; [done|].
  unfold earlier in H. destruct (rq_deadline r) as [x|] eqn:E, (foldr _ _ rs) as [y|] eqn:EF; simplify_eq.
  - destruct (Z.min_spec x y) as [[_ ->]|[_ ->]]; [exists r; split; [left|done]|].
    destruct (IH y eq_refl) as (r' & ? & ?). exists r'. split; [by right|done].
  - exists r. split; [left|done].
  - destruct (IH deadline eq_refl) as (r' & ? & ?). exists r'. split; [by right|done].
Qed.
Lemma next_deadline_le d r x : r ∈ dp_pending d -> rq_deadline r = Some x -> exists deadline, next_deadline d = Some deadline /\ deadline <= x.
Proof.
  unfold next_deadline. induction (dp_pending d) as [|r' rs IH]; intros HI HX; [by apply elem_of_nil in HI|].
  apply elem_of_cons in HI as [<-|HI]; cbn.
  - rewrite HX. unfold earlier. destruct (foldr _ _ rs) as [y|]; eexists; (split; [done|lia]).
  - destruct (IH HI HX) as (y & E & HY). rewrite E. unfold earlier. destruct (rq_deadline r'); eexists; (split; [done|lia]).
Qed.
Lemma filter_shorter {A} (f : A -> bool) xs x : x ∈ xs -> f x = false -> (length (List.filter f xs) < length xs)%nat.
Proof.
  intros HI HF. induction HI as [x xs|x y xs HI IH]; cbn.
  - rewrite HF. pose proof (List.filter_length_le f xs). lia.
  - specialize (IH HF). destruct (f y); cbn; [lia|]. pose proof (List.filter_length_le f xs). lia.
Qed.
Lemma expire_progress d deadline :
  dp_stopped d = false -> next_deadline d = Some deadline -> deadline <= dp_now d -> (rounds (expire_pending d) < rounds d)%nat.
Proof.
  intros HD HN HL. destruct (next_deadline_in _ _ HN) as (r & HI & HR). unfold rounds, expire_pending. cbn. rewrite HD.
  assert (HX : negb (expired (dp_now d) r) = false) by (unfold expired; rewrite HR; apply negb_false_iff; lia).
  pose proof (filter_shorter (fun r => negb (expired (dp_now d) r)) _ _ HI HX). lia.
Qed.
Lemma loop_step_rounds d d' : loop_step d d' -> (rounds d' < rounds d)%nat.
Proof.
  intros H. inv H.
  - unfold rounds. cbn. rewrite H0. lia.
  - eapply Nat.le_lt_trans; [apply start_ready_rounds|]. eapply Nat.le_lt_trans; [apply expire_rounds|].
    unfold rounds. cbn. rewrite H0, H2, length_app. cbn. lia.
  - unfold rounds. cbn. rewrite H0. lia.
  - eapply Nat.le_lt_trans; [apply start_ready_rounds|]. eapply Nat.le_lt_trans; [apply expire_rounds|].
    unfold rounds. cbn. rewrite H0. apply delete_Permutation, Permutation_length in H4. cbn in H4. lia.
  - eapply Nat.le_lt_trans; [apply start_ready_rounds|]. eapply Nat.le_lt_trans; [apply expire_rounds|]. by eapply expire_progress.
Qed.

(** The loop has nothing to do: it waits for its surroundings. *)
Definition at_rest (d : Dispatcher) : Prop :=
  dp_cancelled d = false /\ dp_senders d = true /\ dp_receiver d = [] /\
  Forall (fun t => tk_finished t = false) (dp_tasks d) /\ Forall (fun r => expired (dp_now d) r = false) (dp_pending d).
Lemma loop_moves_or_rests d : dp_stopped d = true \/ at_rest d \/ exists d', loop_step d d'.
Proof.
  destruct (dp_stopped d) eqn:HD; [by left|right].
  destruct (dp_cancelled d) eqn:HC; [right; eexists; by apply step_cancel|].
  destruct (dp_receiver d) as [|r rest] eqn:HR; [|right; eexists; by eapply step_recv].
  destruct (dp_senders d) eqn:HS; [|right; eexists; by apply step_closed].
  destruct (decide (Forall (fun t => tk_finished t = false) (dp_tasks d))) as [HF|HF].
  - destruct (decide (Forall (fun r => expired (dp_now d) r = false) (dp_pending d))) as [HE|HE]; [by left|right].
    apply not_Forall_Exists, Exists_exists in HE as (r & HI & HE); [|tc_solve]. cbn in HE. unfold expired in HE.
    destruct (rq_deadline r) as [x|] eqn:HX; [|done]. destruct (next_deadline_le _ _ _ HI HX) as (deadline & HN & HL).
    eexists. eapply (step_expire d deadline); try done. apply not_false_is_true, Z.leb_le in HE. lia.
  - right. apply not_Forall_Exists, Exists_exists in HF as (t & HI & HF); [|tc_solve]. cbn in HF.
    apply list_elem_of_lookup in HI as (i & HI). eexists. eapply (step_join d i t); try done. by apply not_false_is_true.
Qed.
Lemma loop_comes_to_rest d : exists d', rtc loop_step d d' /\ (dp_stopped d' = true \/ at_rest d').
Proof.
  induction d as [d IH] using (induction_ltof1 _ rounds). unfold ltof in IH.
  destruct (loop_moves_or_rests d) as [H|[H|(d' & H)]]; [exists d; by eauto using rtc_refl..|].
  destruct (IH d' (loop_step_rounds _ _ H)) as (d'' & HR & HD). exists d''. split; [by eapply rtc_l|done].
Qed.

Lemma stopped_all_answered P W n d : dispatcher_inv P W n d -> dp_stopped d = true -> map fst (dp_replies d) ≡ₚ seq 0 n.
Proof.
  intros [HP _ _ _ _ HS] HD. destruct (HS HD) as (E1 & E2 & E3). unfold places in HP. by rewrite E1, E2, E3 in HP.
Qed.
Lemma nsteps_rounds k d d' : nsteps loop_step k d d' -> (k + rounds d' <= rounds d)%nat.
Proof. intros H. induction H as [d|k d1 d2 d3 H _ IH]; [lia|]. apply loop_step_rounds in H. lia. Qed.
Lemma rtc_loop_step n d d' : rtc loop_step d d' -> rtc step (n, d) (n, d').
Proof. intros H. induction H as [d|d1 d2 d3 H _ IH]; [constructor|]. eapply rtc_l; [by constructor|done]. Qed.
Lemma may_start_lane d r :
  may_start d r = false -> is_shutdown r = false /\ (if is_process_wait r then dp_process_wait_permits d else dp_permits d) <= 0.
Proof.
  unfold may_start, is_shutdown, is_process_wait. intros H.
  destruct (rq_cmd r); cbn in *; rewrite ?orb_false_r, ?orb_true_r in H; try done; (split; [done|]); by apply Z.ltb_ge in H.
Qed.

(** C30: However clients send requests, tasks finish and panic, senders go away, the
    cancellation token fires and time passes, every request sent to the host's
    dispatcher is in exactly one place: queued, pending, running, or answered,
    and it is answered at most once.  At most thirty-two process waits and
    thirty-two other requests hold a permit, permits are never lost, and only
    a shutdown command runs without one.  A pending request whose lane has a
    permit waits only for a finished task to be joined; a shutdown command
    never waits for a permit.  Once the dispatcher has stopped, every request
    has been answered or its channel dropped. *)
Theorem host_requests_conserved n d :
  rtc step (0%nat, Dispatcher_new) (n, d) ->
  places d ≡ₚ seq 0 n /\
  dp_permits d + in_flight false d = 32 /\ dp_process_wait_permits d + in_flight true d = 32 /\
  0 <= in_flight false d <= 32 /\ 0 <= in_flight true d <= 32 /\
  (forall t, t ∈ dp_tasks d -> tk_permit t = false -> is_shutdown (tk_request t) = true) /\
  (forall r, dp_stopped d = false -> r ∈ dp_pending d -> ~ is_finished d ->
     is_shutdown r = false /\ (if is_process_wait r then dp_process_wait_permits d else dp_permits d) = 0) /\
  (dp_stopped d = true -> map fst (dp_replies d) ≡ₚ seq 0 n).
Proof.
  intros HR. pose proof (dispatcher_reachable_inv 32 32 n d ltac:(lia) ltac:(lia) HR) as HI. pose proof HI as [HP HN HW HA HU HS].
  pose proof (count_nonneg false (dp_tasks d)). pose proof (count_nonneg true (dp_tasks d)).
  fold (in_flight false d) in *. fold (in_flight true d) in *.
  split; [done|]. split; [done|]. split; [done|]. split; [lia|]. split; [lia|]. split; [|split].
  - intros t HT HF. rewrite Forall_forall in HU. destruct (HU t HT); [congruence|done].
  - intros r HD HE HF. destruct (reachable_conserving _ _ _ _ HR HD) as [HX|]; [|done].
    unfold none_ready in HX. rewrite Forall_forall in HX. destruct (may_start_lane d r (HX r HE)) as [? HL].
    split; [done|]. destruct (is_process_wait r); lia.
  - by eapply stopped_all_answered.
Qed.

(** Left to itself the dispatcher's loop stops moving after a bounded number of
    rounds, whichever ready branch it takes.  Then it has stopped with every
    request answered, or it only waits: nothing is queued, no finished task is
    unjoined, and a pending request has a deadline still ahead, if any, and a
    lane without a free permit. *)
Theorem dispatcher_comes_to_rest n d d' :
  rtc step (0%nat, Dispatcher_new) (n, d) -> rtc loop_step d d' ->
  (forall k d'', nsteps loop_step k d d'' -> (k <= rounds d)%nat) /\
  (dp_stopped d' = true /\ map fst (dp_replies d') ≡ₚ seq 0 n \/
   (exists d'', loop_step d' d'') \/
   at_rest d' /\
   Forall (fun r => expired (dp_now d') r = false /\ (if is_process_wait r then dp_process_wait_permits d' else dp_permits d') = 0) (dp_pending d')).
Proof.
  intros HR HL. split; [intros k d'' HN; pose proof (nsteps_rounds _ _ _ HN); lia|].
  assert (HR' : rtc step (0%nat, Dispatcher_new) (n, d')) by (etransitivity; [exact HR|by apply rtc_loop_step]).
  pose proof (dispatcher_reachable_inv 32 32 n d' ltac:(lia) ltac:(lia) HR') as HI.
  destruct (loop_moves_or_rests d') as [HD|[HA|HM]]; [left|right; right|by right; left].
  - split; [done|]. by eapply stopped_all_answered.
  - split; [done|]. destruct HA as (_ & _ & _ & HF & HE). destruct (dp_stopped d') eqn:HD.
    { destruct (inv_stopped _ _ _ _ HI HD) as (_ & -> & _). constructor. }
    destruct (reachable_conserving _ _ _ _ HR' HD) as [HX|(t & HT & HX)].
    2: { rewrite Forall_forall in HF. specialize (HF t HT). congruence. }
    apply Forall_forall. intros r Hr. unfold none_ready in HX. rewrite Forall_forall in HX, HE.
    destruct (may_start_lane d' r (HX r Hr)) as [_ HL']. split; [by apply HE|].
    destruct (inv_available _ _ _ _ HI). destruct (is_process_wait r); lia.
Qed.

(** A client's answer is the dispatcher's reply; without one it is a timeout
    once the deadline has passed, or a shutdown. *)
Lemma request_answer deadline sending receiving answer :
  request_with_deadline deadline sending receiving = Some answer ->
  (exists r, receiving.2 = Some (Replied r) /\ answer = r) \/
  answer = Err GC_Shutdown /\ (sending.2 = Some false \/ receiving.2 = Some ReplyDropped) \/
  answer = Err GC_RequestTimedOut /\ exists x, deadline = Some x /\ (sending.2 = None /\ x <= sending.1 \/ receiving.2 = None /\ x <= receiving.1).
Proof.
  unfold request_with_deadline, timeout_at. destruct sending as [t1 s], receiving as [t2 a]; cbn. intros H.
  destruct deadline as [x|], s as [[]|], a as [[r|]|]; cbn in *; simplify_eq; eauto 10;
    try (destruct (x <=? _) eqn:E; simplify_eq; apply Z.leb_le in E; eauto 10).
Qed.
(** By its deadline a client has an answer. *)
Lemma request_ends_by_deadline x sending receiving :
  x <= sending.1 -> x <= receiving.1 -> is_Some (request_with_deadline (Some x) sending receiving).
Proof.
  intros H1 H2. apply Z.leb_le in H1, H2. unfold request_with_deadline, timeout_at. rewrite H1, H2.
  destruct sending.2 as [[]|], receiving.2; cbn; eauto.
Qed.

Module HostDispatchExample.

(** Clients send [rs] one by one, each received before the next. *)
Fixpoint feed (rs : list HostRequest) (d : Dispatcher) : Dispatcher :=
  match rs with [] => d | r :: rs => feed rs (start_ready (received r [] (sent r d))) end.
Definition serving (d : Dispatcher) : Prop :=
  dp_stopped d = false /\ dp_cancelled d = false /\ dp_senders d = true /\ dp_receiver d = [].
Lemma start_ready_serving d : serving d -> serving (start_ready d).
Proof.
  intros H. unfold start_ready. apply (start_loop_ind serving); [|done]. intros d' r pending HD _ _.
  unfold started, acquire. repeat case_match; simplify_eq; done.
Qed.
Lemma feed_runs rs n d :
  serving d -> map rq_id rs = seq n (length rs) -> serving (feed rs d) /\ rtc step (n, d) ((n + length rs)%nat, feed rs d).
Proof.
  revert n d. induction rs as [|r rs IH]; intros n d HD HI; cbn in *.
  { rewrite Nat.add_0_r. split; [done|constructor]. }
  injection HI as HI HT. destruct HD as (H1 & H2 & H3 & H4).
  destruct (IH (S n) (start_ready (received r [] (sent r d)))) as [HS HR].
  { apply start_ready_serving. done. } { done. }
  split; [done|]. eapply rtc_l; [apply step_outer; by apply step_send|].
  eapply rtc_l; [apply step_loop; apply step_recv; [done..|cbn; by rewrite H4]|].
  by rewrite <- Nat.add_succ_comm.
Qed.

(** Thirty-three pings, a process wait and a shutdown: the last ping waits, the
    others run, the shutdown without a permit. *)
Definition cmds : list Command := replicate 33 Command_Ping ++ [Command_ProcessWait []; Command_VMShutdown].
Definition requests : list HostRequest :=
  imap (fun i c => {| rq_id := i; rq_cmd := c; rq_deadline := Some 7 |}) cmds.
Definition busy : Dispatcher := feed requests Dispatcher_new.
Lemma busy_reachable : rtc step (0%nat, Dispatcher_new) (35%nat, busy).
Proof. exact (proj2 (feed_runs requests 0 Dispatcher_new ltac:(done) eq_refl)). Qed.
Example busy_evaluated :
  map rq_id (dp_pending busy) = [32%nat] /\ dp_permits busy = 0 /\ dp_process_wait_permits busy = 31 /\ length (dp_tasks busy) = 34%nat.
Proof. vm_compute. done. Qed.
Lemma host_requests_conserved_witness :
  map rq_id (dp_pending busy) = [32%nat] /\ places busy ≡ₚ seq 0 35 /\ in_flight false busy <= 32.
Proof.
  split; [vm_compute; reflexivity|].
  destruct (host_requests_conserved 35 busy busy_reachable) as (H1 & _ & _ & H2 & _). split; [exact H1|apply H2].
Defined.

(** At the deadline the pending ping expires; then the loop waits. *)
Definition late : Dispatcher := outside true false 7 busy.
Lemma late_reachable : rtc step (0%nat, Dispatcher_new) (35%nat, late).
Proof.
  eapply rtc_r; [exact busy_reachable|]. apply step_outer, step_outside; [by vm_compute..|]. apply Z.leb_le. by vm_compute.
Qed.
Definition rested : Dispatcher := start_ready (expire_pending late).
Lemma late_rests : loop_step late rested.
Proof.
  apply (step_expire late 7); [by vm_compute..| | |by vm_compute].
  - apply Forall_forall. intros t HT.
    assert (HB : forallb (fun t => negb (tk_finished t)) (dp_tasks late) = true) by (vm_compute; reflexivity).
    apply list_elem_of_In in HT. apply (proj1 (forallb_forall _ _) HB), negb_true_iff in HT. exact HT.
  - by vm_compute.
Qed.
Lemma dispatcher_comes_to_rest_witness :
  last (dp_replies rested) = Some (32%nat, Replied (Err GC_RequestTimedOut)) /\
  (dp_stopped rested = true /\ map fst (dp_replies rested) ≡ₚ seq 0 35 \/ (exists d, loop_step rested d) \/ at_rest rested).
Proof.
  split; [vm_compute; reflexivity|].
  destruct (dispatcher_comes_to_rest 35 late rested late_reachable (rtc_once _ _ late_rests)) as [_ [H|[H|[H _]]]];
    [left; exact H|right; left; exact H|right; right; exact H].
Defined.
End HostDispatchExample.
