(* ===== verification/DirectProcess.v ===== *)
(** * Guest processes run from the host

    [libs/guest-client/src/process.rs] (process handles), [direct.rs] (a
    prepared process run to completion) and [cleanup.rs] (cleanup requests of
    dropped handles).

    A run issues each guest command once, so the guest's replies are a function
    of the command.  The unbiased [select!] takes its events in the order
    given, skipping those whose branch is disabled.  The bytes of a stream come
    in pieces and then end, with or without an error, or stay open for ever.
    Routing a stream into a host file is a parameter: its outcome. *)

From Stdlib Require Import ZArith Lia.
From stdpp Require Import base tactics option list numbers strings sets.
From S2P Require Import Prelude Bytes Text Messages Runtime Capture HostDispatch.

(** ** Texts *)

Section Display.
(** [{n}] of an integer and [{d:?}] of a [Duration]. *)
Context (number duration : Z -> bytes).
Definition ProcessExit_display (e : ProcessExit) : bytes :=
  match exit_code e, exit_signal e with
  | Some code, None => str "exit code " ++ number code
  | _, Some signal => str "signal " ++ number signal
  | None, None => str "unknown exit status"
  end.
Definition cleanup_suffix (cleanup_error : option bytes) : bytes :=
  match cleanup_error with Some error => str "; cleanup failed: " ++ error | None => [] end.
Definition ProcessError_display (e : ProcessError) : bytes :=
  match e with
  | UnpreparedExecutable => str "Rust/byte executable was not prepared into the VM initramfs"
  | PE_Spawn message => str "failed to spawn process: " ++ message
  | PE_Wait message => str "failed while waiting for process: " ++ message
  | PE_Cleanup message => str "failed to clean up process: " ++ message
  | PE_Output stream message cleanup_error =>
      str "failed to route " ++ stream_name stream ++ str ": " ++ message ++ cleanup_suffix cleanup_error
  | OutputLimitExceeded stream limit cleanup_error =>
      stream_name stream ++ str " output exceeded the capture limit of " ++ number limit ++ str " bytes" ++ cleanup_suffix cleanup_error
  | OutputAllocationFailed stream requested cleanup_error =>
      str "failed to reserve " ++ number requested ++ str " bytes for captured " ++ stream_name stream ++ str " output"
        ++ cleanup_suffix cleanup_error
  | UnsuccessfulExit exit => str "process exited unsuccessfully: " ++ ProcessExit_display exit
  | PE_TimedOut after cleanup_error => str "process timed out after " ++ duration after ++ cleanup_suffix cleanup_error
  | PE_Cancelled cleanup_error => str "process was cancelled" ++ cleanup_suffix cleanup_error
  | OutputUnavailable => str "captured process output is not available yet"
  end.
End Display.
Definition combine_cleanup_errors (first second : option bytes) : option bytes :=
  let message := join_with (str "; ") (omap id [first; second]) in
  if is_empty message then None else Some message.

(** ** Process handles *)

(** What the host does about a process. *)
Inductive call :=
  | Requested (c : Command)
  | Bound (c : Command)
  | CleanupEnqueued (c : Command).
Record RunningProcess := { rp_uuid : bytes; rp_closed : bool }.
Record PreparedProcessBuilder := {
  pb_path : bytes; pb_args : list bytes; pb_envs : list (bytes * bytes); pb_cwd : option bytes;
  pb_stdout : ProcessStdio; pb_stderr : ProcessStdio }.
Definition PreparedProcessBuilder_new (path : bytes) : PreparedProcessBuilder :=
  {| pb_path := path; pb_args := []; pb_envs := []; pb_cwd := None; pb_stdout := Stdio_Pipe; pb_stderr := Stdio_Pipe |}.
Definition arg (b : PreparedProcessBuilder) (a : bytes) : PreparedProcessBuilder :=
  {| pb_path := pb_path b; pb_args := pb_args b ++ [a]; pb_envs := pb_envs b; pb_cwd := pb_cwd b; pb_stdout := pb_stdout b; pb_stderr := pb_stderr b |}.
Definition env (b : PreparedProcessBuilder) (kv : bytes * bytes) : PreparedProcessBuilder :=
  {| pb_path := pb_path b; pb_args := pb_args b; pb_envs := pb_envs b ++ [kv]; pb_cwd := pb_cwd b; pb_stdout := pb_stdout b; pb_stderr := pb_stderr b |}.
Definition cwd (b : PreparedProcessBuilder) (c : bytes) : PreparedProcessBuilder :=
  {| pb_path := pb_path b; pb_args := pb_args b; pb_envs := pb_envs b; pb_cwd := Some c; pb_stdout := pb_stdout b; pb_stderr := pb_stderr b |}.
Definition stdout_mode (b : PreparedProcessBuilder) (m : ProcessStdio) : PreparedProcessBuilder :=
  {| pb_path := pb_path b; pb_args := pb_args b; pb_envs := pb_envs b; pb_cwd := pb_cwd b; pb_stdout := m; pb_stderr := pb_stderr b |}.
Definition stderr_mode (b : PreparedProcessBuilder) (m : ProcessStdio) : PreparedProcessBuilder :=
  {| pb_path := pb_path b; pb_args := pb_args b; pb_envs := pb_envs b; pb_cwd := pb_cwd b; pb_stdout := pb_stdout b; pb_stderr := m |}.

Section Handles.
(** What [Client::request] answers to a command, and the identity drawn. *)
Context (reply : Command -> res GuestClientError Event) (uuid : bytes).

Definition start_command (b : PreparedProcessBuilder) : Command :=
  Command_ProcessStart uuid (pb_path b) (pb_args b) (pb_envs b) (pb_cwd b) (pb_stdout b) (pb_stderr b).
Definition spawn (b : PreparedProcessBuilder) : res GuestClientError RunningProcess * list call :=
  (match expect_event (reply (start_command b)) with
   | Ok (Event_ProcessStarted reply_uuid) =>
       if bool_decide (reply_uuid = uuid) then Ok {| rp_uuid := uuid; rp_closed := false |} else Err GC_UnexpectedReply
   | Ok _ => Err GC_UnexpectedReply
   | Err e => Err e
   | Panic => Panic
   end, [Requested (start_command b)]).
Definition wait (p : RunningProcess) : res GuestClientError ProcessExit * list call :=
  if rp_closed p then (Err GC_InvalidState, []) else
  (match reply (Command_ProcessWait (rp_uuid p)) with
   | Ok (Event_Error code msg) => Err (GC_Guest (GuestErrorCode_from_u32 code) msg)
   | Ok (Event_ProcessExited u code signal) =>
       if bool_decide (u = rp_uuid p) then Ok {| exit_code := code; exit_signal := signal |} else Err GC_UnexpectedReply
   | Ok _ => Err GC_UnexpectedReply
   | Err e => Err e
   | Panic => Panic
   end, [Requested (Command_ProcessWait (rp_uuid p))]).
Definition close (p : RunningProcess) : res GuestClientError unit * RunningProcess * list call :=
  if rp_closed p then (Ok tt, p, []) else
  let stop := Command_ProcessStop (rp_uuid p) in
  let close := Command_ProcessClose (rp_uuid p) in
  let stopped : res GuestClientError unit :=
    match expect_event (reply stop) with
    | Ok (Event_ProcessExited u _ _) => if bool_decide (u = rp_uuid p) then Ok tt else Err GC_UnexpectedReply
    | Ok Event_Shutdowned => Ok tt
    | Ok _ => Err GC_UnexpectedReply
    | Err _ => Err GC_ProcessClose
    | Panic => Panic
    end in
  match stopped with
  | Ok _ =>
      match expect_event (reply close) with
      | Ok (Event_ProcessClosed u) =>
          if bool_decide (u = rp_uuid p) then (Ok tt, {| rp_uuid := rp_uuid p; rp_closed := true |}, [Requested stop; Requested close])
          else (Err GC_UnexpectedReply, p, [Requested stop; Requested close])
      | Ok _ => (Err GC_UnexpectedReply, p, [Requested stop; Requested close])
      | Err _ => (Err GC_ProcessClose, p, [Requested stop; Requested close])
      | Panic => (Panic, p, [Requested stop; Requested close])
      end
  | Err e => (Err e, p, [Requested stop])
  | Panic => (Panic, p, [Requested stop])
  end.
Definition drop_process (p : RunningProcess) : list call :=
  if rp_closed p then [] else [CleanupEnqueued (Command_ProcessClose (rp_uuid p))].
End Handles.

(** ** Output routing *)

Inductive HostOutputRoute := Route_Capture (options : CaptureOptions) | Route_File (path : bytes).
Record DirectOutput := { do_stdio : ProcessStdio; do_host_route : option HostOutputRoute }.
Definition direct_process_stdio (o : Output) : DirectOutput :=
  match o with
  | Discard => {| do_stdio := Stdio_Null; do_host_route := None |}
  | GuestFile path => {| do_stdio := Stdio_File path; do_host_route := None |}
  | Capture_ options => {| do_stdio := Stdio_Pipe; do_host_route := Some (Route_Capture options) |}
  | HostFile path => {| do_stdio := Stdio_Pipe; do_host_route := Some (Route_File path) |}
  end.
Definition capture_stream (s : ProcessOutputStream) : OutputStream :=
  match s with Output_Stdout => Stream_Stdout | Output_Stderr => Stream_Stderr end.
Definition output_stream_name (s : ProcessOutputStream) : bytes := match s with Output_Stdout => str "stdout" | Output_Stderr => str "stderr" end.
#[global] Instance OutputStream_eq_dec : EqDecision OutputStream.
Proof. solve_decision. Defined.
Definition output_error (s : OutputStream) (message : bytes) : ProcessError := PE_Output s message None.

Record PreparedProcess := {
  pp_path : bytes; pp_args : list bytes; pp_envs : list (bytes * bytes); pp_cwd : option bytes; pp_timeout : option Z;
  pp_stdout : Output; pp_stderr : Output; pp_lifecycle : option lifecycle }.
Record DrainedOutput := { dd_stream : OutputStream; dd_captured : option bytes }.
(** The bytes of a bound stream. *)
Record source := { src_pieces : list bytes; src_end : option (res GuestClientError unit) }.
Inductive selected := Sel_Wait | Sel_Drain (s : OutputStream) | Sel_Timer | Sel_Cancelled.
Inductive Outcome :=
  | Out_Wait (r : res GuestClientError ProcessExit)
  | Out_TimedOut (after : Z)
  | Out_Cancelled
  | Out_Output (e : ProcessError).
(** Streams still being drained, and those done. *)
Record OutputDrains := { od_tasks : list (OutputStream * HostOutputRoute); od_completed : list DrainedOutput }.

Section Run.
Context (number duration : Z -> bytes) (reserve : Z -> bool).
Context (reply : Command -> res GuestClientError Event) (uuid : bytes).
(** [bind_output_raw]'s answer, a stream's bytes, the outcome of its host file,
    and the message of a drain task that did not join. *)
Context (bind : ProcessOutputStream -> res GuestClientError unit) (stream : OutputStream -> source)
  (host_file : bytes -> OutputStream -> res ProcessError unit) (join_failure : OutputStream -> option bytes).

Fixpoint drain_capture (s : OutputStream) (a : CaptureAccumulator) (pieces : list bytes) (finish : option (res GuestClientError unit))
    : option (res ProcessError (option bytes)) :=
  match pieces with
  | [] =>
      match finish with
      | None => None
      | Some (Ok _) => Some (Ok (Some (ca_bytes a)))
      | Some (Err error) => Some (Err (output_error s (str "failed reading " ++ stream_name s ++ str ": " ++ GuestClientError_display error)))
      | Some Panic => Some Panic
      end
  | piece :: pieces =>
      if is_empty piece then Some (Ok (Some (ca_bytes a))) else
      match push reserve a piece with
      | Ok a => drain_capture s a pieces finish
      | Err e => Some (Err e)
      | Panic => Some Panic
      end
  end.
Definition drain_host_output (s : OutputStream) (route : HostOutputRoute) : option (res ProcessError (option bytes)) :=
  match route with
  | Route_Capture options => drain_capture s (CaptureAccumulator_new options s) (src_pieces (stream s)) (src_end (stream s))
  | Route_File path => Some (match host_file path s with Ok _ => Ok None | Err e => Err e | Panic => Panic end)
  end.
(** What [join_next] returns for a task, once it ends. *)
Definition joined_drain (t : OutputStream * HostOutputRoute) : option (res ProcessError DrainedOutput) :=
  match join_failure t.1 with
  | Some error => Some (Err (output_error Stream_Stdout (str "output drain task failed: " ++ error)))
  | None =>
      match drain_host_output t.1 t.2 with
      | None => None
      | Some (Ok captured) => Some (Ok {| dd_stream := t.1; dd_captured := captured |})
      | Some (Err e) => Some (Err e)
      | Some Panic => Some (Err (output_error Stream_Stdout (str "output drain task failed: panic")))
      end
  end.

Definition bind_one (s : ProcessOutputStream) (route : option HostOutputRoute) (u : bytes)
    : res ProcessError (list (OutputStream * HostOutputRoute)) * list call :=
  match route with
  | None => (Ok [], [])
  | Some route =>
      (match bind s with
       | Ok _ => Ok [(capture_stream s, route)]
       | Err error =>
           Err (output_error (capture_stream s) (str "failed to bind " ++ output_stream_name s ++ str ": " ++ GuestClientError_display error))
       | Panic => Panic
       end, [Bound (Command_ProcessOutputBind u s)])
  end.
Definition start_output_drains (p : RunningProcess) (stdout stderr : option HostOutputRoute) : res ProcessError OutputDrains * list call :=
  match bind_one Output_Stdout stdout (rp_uuid p) with
  | (Ok first, calls) =>
      match bind_one Output_Stderr stderr (rp_uuid p) with
      | (Ok second, calls') => (Ok {| od_tasks := first ++ second; od_completed := [] |}, calls ++ calls')
      | (Err e, calls') => (Err e, calls ++ calls')
      | (Panic, calls') => (Panic, calls ++ calls')
      end
  | (Err e, calls) => (Err e, calls)
  | (Panic, calls) => (Panic, calls)
  end.

Definition other_tasks (s : OutputStream) (ts : list (OutputStream * HostOutputRoute)) := List.filter (fun t => negb (bool_decide (t.1 = s))) ts.
(** The [select!] loop; [None] while no branch has ended it. *)
Fixpoint select_loop (timeout : option Z) (waited : res GuestClientError ProcessExit) (events : list selected) (d : OutputDrains)
    : option (Outcome * OutputDrains) :=
  match events with
  | [] => None
  | Sel_Wait :: _ => Some (Out_Wait waited, d)
  | Sel_Cancelled :: _ => Some (Out_Cancelled, d)
  | Sel_Timer :: events => match timeout with Some after => Some (Out_TimedOut after, d) | None => select_loop timeout waited events d end
  | Sel_Drain s :: events =>
      match List.find (fun t => bool_decide (t.1 = s)) (od_tasks d) with
      | None => select_loop timeout waited events d
      | Some t =>
          let rest := other_tasks s (od_tasks d) in
          match joined_drain t with
          | None => select_loop timeout waited events d
          | Some (Ok drained) => select_loop timeout waited events {| od_tasks := rest; od_completed := od_completed d ++ [drained] |}
          | Some (Err error) => Some (Out_Output error, {| od_tasks := rest; od_completed := od_completed d |})
          | Some Panic => None
          end
      end
  end.
(** After a first error the remaining tasks are aborted and what they return
    does not matter; without one, every task has to end. *)
Definition finish_output_drains (order : list (OutputStream * HostOutputRoute) -> list (OutputStream * HostOutputRoute)) (d : OutputDrains)
    : option (res ProcessError (list DrainedOutput)) :=
  let results := map joined_drain (order (od_tasks d)) in
  match List.find (fun r => match r with Some (Err _) => true | _ => false end) results with
  | Some (Some (Err error)) => Some (Err error)
  | _ =>
      if forallb (fun r => match r with Some _ => true | None => false end) results then
        Some (Ok (od_completed d ++ omap (fun r => match r with Some (Ok drained) => Some drained | _ => None end) results))
      else None
  end.
Definition retain_one (l : lifecycle) (drained : DrainedOutput) : lifecycle :=
  match dd_captured drained with
  | Some b => match dd_stream drained with Stream_Stdout => capture_stdout b l | Stream_Stderr => capture_stderr b l end
  | None => l
  end.
Definition retain_captured_output (l : lifecycle) (completed : list DrainedOutput) : lifecycle := foldl retain_one l completed.

Definition report : Type := res ProcessError ProcessExit * option lifecycle.
Definition fail_direct_process (l : option lifecycle) (error : ProcessError) : report := (Err error, set (Failed error) <$> l).
Definition error_text {A} (r : res GuestClientError A) : option bytes := match r with Err e => Some (GuestClientError_display e) | _ => None end.
Definition drain_text {A} (r : res ProcessError A) : option bytes := match r with Err e => Some (ProcessError_display number duration e) | _ => None end.

(** The arms after the loop, from the answers of [close] and of the drains. *)
Definition settle (l : option lifecycle) (outcome : Outcome) (cleanup : res GuestClientError unit) (output : res ProcessError (list DrainedOutput)) : report :=
  match outcome with
  | Out_Wait (Ok exit) =>
      match error_text cleanup, output with
      | Some error, Err output_error => fail_direct_process l (with_cleanup output_error (Some error))
      | Some error, _ => fail_direct_process l (PE_Cleanup error)
      | None, Err error => fail_direct_process l error
      | None, Ok completed =>
          if exit_success exit then (Ok exit, (fun l => set (Finished exit) (retain_captured_output l completed)) <$> l)
          else fail_direct_process l (UnsuccessfulExit exit)
      | None, Panic => (Panic, l)
      end
  | Out_Wait (Err error) =>
      let wait_error := GuestClientError_display error in
      match output with
      | Err output_error =>
          fail_direct_process l (with_cleanup output_error (combine_cleanup_errors (Some (str "wait failed: " ++ wait_error)) (error_text cleanup)))
      | _ =>
          match error_text cleanup with
          | Some cleanup => fail_direct_process l (PE_Cleanup (str "wait failed: " ++ wait_error ++ str "; cleanup failed: " ++ cleanup))
          | None => fail_direct_process l (PE_Wait wait_error)
          end
      end
  | Out_Wait Panic => (Panic, l)
  | Out_TimedOut after => fail_direct_process l (PE_TimedOut after (combine_cleanup_errors (error_text cleanup) (drain_text output)))
  | Out_Cancelled => fail_direct_process l (PE_Cancelled (combine_cleanup_errors (error_text cleanup) (drain_text output)))
  | Out_Output error => fail_direct_process l (with_cleanup error (combine_cleanup_errors (error_text cleanup) (drain_text output)))
  end.

Definition direct_builder (p : PreparedProcess) : PreparedProcessBuilder :=
  let b := foldl env (foldl arg (PreparedProcessBuilder_new (pp_path p)) (pp_args p)) (pp_envs p) in
  let b := match pp_cwd p with Some c => cwd b c | None => b end in
  stderr_mode (stdout_mode b (do_stdio (direct_process_stdio (pp_stdout p)))) (do_stdio (direct_process_stdio (pp_stderr p))).

(** The run: whether it was cancelled before it began, the events of the loop,
    whether the wait was polled before another branch won, and the order in
    which the remaining drains end.  [None] when it does not return. *)
Definition run_direct_process (cancelled : bool) (events : list selected) (wait_polled : bool)
    (order : list (OutputStream * HostOutputRoute) -> list (OutputStream * HostOutputRoute)) (p : PreparedProcess) : option (report * list call) :=
  let l := set Starting <$> pp_lifecycle p in
  if cancelled then Some (fail_direct_process l (PE_Cancelled None), []) else
  match spawn reply uuid (direct_builder p) with
  | (Err error, calls) => Some (fail_direct_process l (PE_Spawn (GuestClientError_display error)), calls)
  | (Panic, calls) => Some ((Panic, l), calls)
  | (Ok running, calls) =>
      let l := set Running <$> l in
      match start_output_drains running (do_host_route (direct_process_stdio (pp_stdout p))) (do_host_route (direct_process_stdio (pp_stderr p))) with
      | (Err error, binds) =>
          let '(cleanup, running, closes) := close reply running in
          let calls := calls ++ binds ++ closes ++ drop_process running in
          match cleanup with
          | Panic => Some ((Panic, l), calls)
          | cleanup => Some (fail_direct_process l (with_cleanup error (error_text cleanup)), calls)
          end
      | (Panic, binds) => Some ((Panic, l), calls ++ binds ++ drop_process running)
      | (Ok drains, binds) =>
          let '(waited, waits) := wait reply running in
          match select_loop (pp_timeout p) waited events drains with
          | None => None
          | Some (Out_Wait Panic, _) => Some ((Panic, l), calls ++ binds ++ waits ++ drop_process running)
          | Some (outcome, drains) =>
              let waits := match outcome with Out_Wait _ => waits | _ => if wait_polled then waits else [] end in
              let '(cleanup, running, closes) := close reply running in
              let calls := calls ++ binds ++ waits ++ closes ++ drop_process running in
              match cleanup, finish_output_drains order drains with
              | Panic, _ => Some ((Panic, l), calls)
              | _, None => None
              | cleanup, Some output => Some (settle l outcome cleanup output, calls)
              end
          end
      end
  end.

(** *** What the drains deliver *)

Implicit Types (ts ended : list (OutputStream * HostOutputRoute)) (d : OutputDrains).

(** [ended] are the tasks that have ended well, in the order they were joined. *)
Definition accounted ts d : Prop :=
  exists ended, ts ≡ₚ ended ++ od_tasks d /\ map joined_drain ended = map (Some ∘ Ok) (od_completed d).
Lemma find_other_tasks ts s t :
  NoDup ts.*1 -> List.find (fun t => bool_decide (t.1 = s)) ts = Some t -> ts ≡ₚ t :: other_tasks s ts.
Proof.
  induction ts as [|x ts IH]; cbn; intros HN HF; [done|]. apply NoDup_cons in HN as [Hx HN]. unfold other_tasks. cbn.
  case_bool_decide as E; cbn; simplify_eq.
  - constructor. fold (other_tasks t.1 ts). clear -Hx. induction ts as [|y ts IH]; cbn; [done|].
    apply not_elem_of_cons in Hx as [Hy Hx]. unfold other_tasks. cbn. rewrite bool_decide_eq_false_2 by done. cbn. constructor. by apply IH.
  - fold (other_tasks s ts). rewrite (IH HN HF) at 1. constructor.
Qed.
Lemma select_loop_accounted timeout waited events ts d d' outcome :
  NoDup ts.*1 -> accounted ts d -> select_loop timeout waited events d = Some (outcome, d') ->
  match outcome with
  | Out_Output _ => True
  | Out_Wait r => r = waited /\ accounted ts d'
  | Out_TimedOut after => timeout = Some after /\ accounted ts d'
  | Out_Cancelled => accounted ts d'
  end.
Proof.
  intros HN. revert d. induction events as [|[| s | |] events IH]; intros d HA HS; cbn in HS; simplify_eq; [done| | |done].
  - destruct (List.find _ (od_tasks d)) as [t|] eqn:EF; [|by eapply IH].
    destruct (joined_drain t) as [[drained|e|]|] eqn:EJ; simplify_eq; [|done|by eapply IH]. eapply IH; [|exact HS].
    destruct HA as (ended & HP & HD). exists (ended ++ [t]). split; [|cbn [od_completed]; rewrite !map_app, HD; cbn; by rewrite EJ].
    apply find_other_tasks in EF.
    + rewrite HP, <- app_assoc. cbn. by apply Permutation_app_head.
    + rewrite HP, fmap_app in HN. by apply NoDup_app in HN as (_ & _ & ?).
  - destruct timeout; simplify_eq; [done|by eapply IH].
Qed.

Lemma finish_accounted order ts d completed :
  (forall l, order l ≡ₚ l) -> accounted ts d -> finish_output_drains order d = Some (Ok completed) ->
  exists ended, ts ≡ₚ ended /\ map joined_drain ended = map (Some ∘ Ok) completed.
Proof.
  intros HO (ended & HP & HD) HF. unfold finish_output_drains in HF.
  assert (H : forall rs, List.find (fun r : option (res ProcessError DrainedOutput) => match r with Some (Err _) => true | _ => false end) rs = None \/
     exists e, List.find (fun r => match r with Some (Err _) => true | _ => false end) rs = Some (Some (Err e))).
  { induction rs as [|[[?|e|]|] rs IH]; cbn; eauto. }
  destruct (H (map joined_drain (order (od_tasks d)))) as [E|[e E]]; rewrite E in HF; [|done].
  destruct (forallb _ _) eqn:EB; simplify_eq. exists (ended ++ order (od_tasks d)). split; [by rewrite HO|].
  rewrite !map_app, HD. f_equal. clear -E EB.
  assert (HX : Forall (fun r => exists x, r = Some (Ok x)) (map joined_drain (order (od_tasks d)))).
  { revert E EB. induction (order (od_tasks d)) as [|t ts IH]; cbn; intros E EB; [constructor|].
    unfold joined_drain in *. destruct (join_failure t.1); [done|].
    destruct (drain_host_output t.1 t.2) as [[x|e|]|]; cbn in *; try done. constructor; [eauto|by apply IH]. }
  induction HX as [|r rs (x & ->) _ IH]; cbn; [done|]. by rewrite IH at 1.
Qed.

Lemma drain_capture_pieces s a pieces finish c :
  Forall (fun x => x <> []) pieces -> drain_capture s a pieces finish = Some (Ok c) ->
  exists a', for_each (push reserve) pieces a = Ok a' /\ c = Some (ca_bytes a').
Proof.
  intros HF. revert a. induction HF as [|x pieces Hx _ IH]; intros a HD; cbn in *.
  { destruct finish as [[[]|e|]|]; simplify_eq. by exists a. }
  rewrite (proj2 (is_empty_false _) Hx) in HD. destruct (push reserve a x) as [a'|e|]; simplify_eq. by apply IH.
Qed.

(** A drained capture is the captured value of the stream's bytes. *)
Lemma joined_capture s options drained :
  (forall n, reserve n = true -> n < 2 ^ 63) -> typed_options options -> Forall (fun x => x <> [] /\ len x < 2 ^ 63) (src_pieces (stream s)) ->
  joined_drain (s, Route_Capture options) = Some (Ok drained) ->
  exists b, drained = {| dd_stream := s; dd_captured := Some b |} /\ captured options s (concat (src_pieces (stream s))) = Ok b.
Proof.
  intros HR HT HP HJ. unfold joined_drain in HJ. cbn in HJ. destruct (join_failure s); [done|].
  destruct (drain_capture _ _ _ _) as [[c|e|]|] eqn:ED; simplify_eq.
  apply drain_capture_pieces in ED as (a' & EF & ->); [|by eapply Forall_impl; [exact HP|intros x [? _]]].
  exists (ca_bytes a'). split; [done|].
  destruct (pieces_exact reserve HR options s (src_pieces (stream s)) HT ltac:(by eapply Forall_impl; [exact HP|intros x [_ ?]]) []
              (CaptureAccumulator_new options s)) as [(n & E & _)|E]; [|congruence|].
  - split_and!; [done..|]. cbn. split_and!; [done|apply HT|done|by right].
  - rewrite EF in E. cbn in E. by rewrite E.
Qed.
Lemma joined_file s path drained : joined_drain (s, Route_File path) = Some (Ok drained) -> drained = {| dd_stream := s; dd_captured := None |}.
Proof.
  unfold joined_drain. cbn. destruct (join_failure s); [done|]. by destruct (host_file path s); intros; simplify_eq.
Qed.

(** *** The whole run *)

(** Well-typed sizes; nothing outside panics. *)
Record sane_surroundings (order : list (OutputStream * HostOutputRoute) -> list (OutputStream * HostOutputRoute)) (p : PreparedProcess) : Prop := {
  sane_reserve n : reserve n = true -> n < 2 ^ 63;
  sane_pieces s : Forall (fun x => x <> [] /\ len x < 2 ^ 63) (src_pieces (stream s));
  sane_stdout o : pp_stdout p = Capture_ o -> typed_options o;
  sane_stderr o : pp_stderr p = Capture_ o -> typed_options o;
  sane_reply c : reply c <> Panic;
  sane_bind s : bind s <> Panic;
  sane_order l : order l ≡ₚ l }.

(** What a stream routed by [o] leaves in the observer. *)
Definition retained (o : Output) (s : OutputStream) (before : option bytes) : option bytes :=
  match o with
  | Capture_ options => match captured options s (concat (src_pieces (stream s))) with Ok b => Some b | _ => None end
  | _ => before
  end.
Definition delivered (o : Output) (s : OutputStream) : DrainedOutput := {| dd_stream := s; dd_captured := retained o s None |}.
Definition routed (o : Output) (s : OutputStream) : list (OutputStream * HostOutputRoute) :=
  match do_host_route (direct_process_stdio o) with Some route => [(s, route)] | None => [] end.

Context (order : list (OutputStream * HostOutputRoute) -> list (OutputStream * HostOutputRoute)) (p : PreparedProcess).
Context (Hsane : sane_surroundings order p).

Definition well_delivered (o : Output) (s : OutputStream) (x : DrainedOutput) : Prop :=
  x = delivered o s /\ forall options, o = Capture_ options -> exists b, captured options s (concat (src_pieces (stream s))) = Ok b.
Lemma joined_delivered o s route x :
  (forall options, o = Capture_ options -> typed_options options) -> do_host_route (direct_process_stdio o) = Some route ->
  joined_drain (s, route) = Some (Ok x) -> well_delivered o s x.
Proof using order p Hsane.
  intros HT HR HJ. destruct o as [|options|path|path]; cbn in HR; simplify_eq.
  - destruct (joined_capture s options x (sane_reserve _ _ Hsane) (HT _ eq_refl) (sane_pieces _ _ Hsane s) HJ) as (b & -> & E).
    split; [cbv [delivered retained]; by rewrite E|]. intros ? [= <-]. by exists b.
  - split; [by apply joined_file in HJ as ->|done].
Qed.
Lemma retain_well_delivered o s x l :
  well_delivered o s x ->
  retain_one l x = match s with
                   | Stream_Stdout => {| lc_state := lc_state l; lc_output := {| out_stdout := retained o s (out_stdout (lc_output l)); out_stderr := out_stderr (lc_output l) |} |}
                   | Stream_Stderr => {| lc_state := lc_state l; lc_output := {| out_stdout := out_stdout (lc_output l); out_stderr := retained o s (out_stderr (lc_output l)) |} |}
                   end.
Proof.
  intros [-> HC]. destruct l as [st [so se]]. unfold retain_one, delivered, retained; cbn.
  destruct o as [|options|path|path]; cbn; try (by destruct s). destruct (HC _ eq_refl) as [b ->]. by destruct s.
Qed.
Lemma retained_unrouted o s before : do_host_route (direct_process_stdio o) = None -> retained o s before = before.
Proof. by destruct o. Qed.

(** Whatever order the drains ended in, the observer retains both outputs. *)
Lemma retained_exact l ended completed :
  routed (pp_stdout p) Stream_Stdout ++ routed (pp_stderr p) Stream_Stderr ≡ₚ ended ->
  map joined_drain ended = map (Some ∘ Ok) completed ->
  retain_captured_output l completed =
  {| lc_state := lc_state l;
     lc_output := {| out_stdout := retained (pp_stdout p) Stream_Stdout (out_stdout (lc_output l));
                     out_stderr := retained (pp_stderr p) Stream_Stderr (out_stderr (lc_output l)) |} |}.
Proof using Hsane.
  intros HP HJ.
  assert (HD1 := fun route x => joined_delivered (pp_stdout p) Stream_Stdout route x (sane_stdout _ _ Hsane)).
  assert (HD2 := fun route x => joined_delivered (pp_stderr p) Stream_Stderr route x (sane_stderr _ _ Hsane)).
  unfold routed in HP. unfold retain_captured_output.
  destruct (do_host_route (direct_process_stdio (pp_stdout p))) as [r1|] eqn:E1, (do_host_route (direct_process_stdio (pp_stderr p))) as [r2|] eqn:E2; cbn in HP.
  - apply Permutation_length_2_inv in HP as [->| ->]; destruct completed as [|x [|y [|]]]; cbn in HJ; try done; injection HJ as HX HY; cbn.
    + by rewrite (retain_well_delivered _ _ _ _ (HD2 _ _ eq_refl HY)), (retain_well_delivered _ _ _ _ (HD1 _ _ eq_refl HX)).
    + by rewrite (retain_well_delivered _ _ _ _ (HD1 _ _ eq_refl HY)), (retain_well_delivered _ _ _ _ (HD2 _ _ eq_refl HX)).
  - apply Permutation_length_1_inv in HP as ->. destruct completed as [|x [|]]; cbn in HJ; try done. injection HJ as HX. cbn.
    by rewrite (retain_well_delivered _ _ _ _ (HD1 _ _ eq_refl HX)), (retained_unrouted _ _ _ E2).
  - apply Permutation_length_1_inv in HP as ->. destruct completed as [|x [|]]; cbn in HJ; try done. injection HJ as HX. cbn.
    by rewrite (retain_well_delivered _ _ _ _ (HD2 _ _ eq_refl HX)), (retained_unrouted _ _ _ E1).
  - apply Permutation_nil_l in HP as <-. destruct completed; [|done]. cbn. rewrite !retained_unrouted by done. by destruct l as [? []].
Qed.

Lemma close_exact (q : RunningProcess) : rp_closed q = false ->
  let '(r, q', calls) := close reply q in
  (exists rest, calls = Requested (Command_ProcessStop (rp_uuid q)) :: rest) /\
  (r = Ok tt /\ rp_closed q' = true /\
     calls = [Requested (Command_ProcessStop (rp_uuid q)); Requested (Command_ProcessClose (rp_uuid q))] \/
   (exists e, r = Err e) /\ q' = q).
Proof using order p Hsane.
  intros HC. unfold close. rewrite HC. pose proof (sane_reply _ _ Hsane (Command_ProcessStop (rp_uuid q))) as HS.
  pose proof (sane_reply _ _ Hsane (Command_ProcessClose (rp_uuid q))) as HX. unfold expect_event.
  destruct (reply (Command_ProcessStop (rp_uuid q))) as [[]|e|]; try done; try case_bool_decide; cbn; eauto 7;
    (destruct (reply (Command_ProcessClose (rp_uuid q))) as [[]|e'|]; try done; try case_bool_decide; cbn; eauto 7).
Qed.

(** The outcome of a run and its observer agree. *)
Definition reported (l : option lifecycle) (r : report) : Prop :=
  r.1 <> Panic /\
  match l with
  | None => r.2 = None
  | Some before =>
      exists after, r.2 = Some after /\ lc_state after = match r.1 with Ok exit => Finished exit | Err e => Failed e | Panic => Running end /\
        (is_ok r.1 = false -> lc_output after = lc_output before)
  end.
Lemma fail_reported l e : (forall before, l = Some before -> state_terminal (lc_state before) = false) -> reported l (fail_direct_process l e).
Proof.
  intros HT. split; [done|]. destruct l as [before|]; [|done]. cbn. unfold set. rewrite (HT _ eq_refl). by eexists.
Qed.
Lemma settle_reported l outcome cleanup output :
  (forall before, l = Some before -> state_terminal (lc_state before) = false) ->
  outcome <> Out_Wait Panic -> output <> Panic -> reported l (settle l outcome cleanup output).
Proof.
  intros HT HO HP. unfold settle. destruct outcome as [[exit|e|]|after| |e]; try done; repeat case_match; try done; try by apply fail_reported.
  split; [done|]. destruct l as [before|]; [|done]. eexists. split; [reflexivity|]. cbn.
  assert (HS : forall xs before, lc_state (retain_captured_output before xs) = lc_state before).
  { unfold retain_captured_output. induction xs as [|x xs IH]; intros b; [done|]. cbn. rewrite IH. unfold retain_one. by repeat case_match. }
  unfold set. rewrite HS, (HT _ eq_refl). done.
Qed.
Lemma settle_ok l outcome cleanup output exit l' :
  settle l outcome cleanup output = (Ok exit, l') ->
  outcome = Out_Wait (Ok exit) /\ error_text cleanup = None /\ exit_success exit = true /\
  exists completed, output = Ok completed /\ l' = (fun l => set (Finished exit) (retain_captured_output l completed)) <$> l.
Proof.
  unfold settle, fail_direct_process. intros H. destruct outcome as [[x|e|]|after| |e]; repeat case_match; simplify_eq; eauto 7.
Qed.

(** The guest acknowledged the start. *)
Definition acknowledged : bool := match reply (start_command uuid (direct_builder p)) with Ok e => bool_decide (e = Event_ProcessStarted uuid) | _ => false end.
Lemma spawn_exact :
  if acknowledged then spawn reply uuid (direct_builder p) = (Ok {| rp_uuid := uuid; rp_closed := false |}, [Requested (start_command uuid (direct_builder p))])
  else exists e, spawn reply uuid (direct_builder p) = (Err e, [Requested (start_command uuid (direct_builder p))]).
Proof using order p Hsane.
  unfold acknowledged, spawn. pose proof (sane_reply _ _ Hsane (start_command uuid (direct_builder p))) as HS.
  set (c := start_command uuid (direct_builder p)) in *. clearbody c. unfold expect_event.
  destruct (reply c) as [ev|e|]; [|eauto|done]. case_bool_decide as E; [subst; by rewrite bool_decide_eq_true_2|].
  destruct ev; eauto. rewrite bool_decide_eq_false_2 by congruence. eauto.
Qed.
Lemma wait_exact (q : RunningProcess) exit calls : rp_closed q = false -> wait reply q = (Ok exit, calls) ->
  reply (Command_ProcessWait (rp_uuid q)) = Ok (Event_ProcessExited (rp_uuid q) (exit_code exit) (exit_signal exit)).
Proof.
  intros HC. unfold wait. rewrite HC. destruct (reply _) as [[]|e|]; try done. case_bool_decide; intros; by simplify_eq.
Qed.
Lemma wait_not_panic (q : RunningProcess) : (wait reply q).1 <> Panic.
Proof using order p Hsane.
  unfold wait. destruct (rp_closed q); [done|]. pose proof (sane_reply _ _ Hsane (Command_ProcessWait (rp_uuid q))).
  destruct (reply _) as [[]|e|]; try done. by case_bool_decide.
Qed.
Lemma start_drains_exact (q : RunningProcess) :
  let '(r, _) := start_output_drains q (do_host_route (direct_process_stdio (pp_stdout p))) (do_host_route (direct_process_stdio (pp_stderr p))) in
  match r with
  | Ok d => d = {| od_tasks := routed (pp_stdout p) Stream_Stdout ++ routed (pp_stderr p) Stream_Stderr; od_completed := [] |}
  | Err _ => True
  | Panic => False
  end.
Proof using Hsane.
  unfold start_output_drains, bind_one, routed.
  pose proof (sane_bind _ _ Hsane Output_Stdout) as H1. pose proof (sane_bind _ _ Hsane Output_Stderr) as H2.
  destruct (do_host_route (direct_process_stdio (pp_stdout p))), (do_host_route (direct_process_stdio (pp_stderr p)));
    repeat case_match; simplify_eq; done.
Qed.
Lemma routed_NoDup : NoDup (routed (pp_stdout p) Stream_Stdout ++ routed (pp_stderr p) Stream_Stderr).*1.
Proof. unfold routed. repeat case_match; cbn; repeat constructor; set_solver. Qed.
Lemma finish_not_panic d r : finish_output_drains order d = Some r -> r <> Panic.
Proof. unfold finish_output_drains. intros H ->. repeat case_match; simplify_eq. Qed.

(** What became of the process: nothing was sent, only the start was, or the
    process was stopped and then closed or handed to the cleanup tasks. *)
Definition accounted_for (cancelled : bool) (calls : list call) : Prop :=
  if cancelled then calls = []
  else if acknowledged then
    exists before rest, calls = before ++ Requested (Command_ProcessStop uuid) :: rest /\
      (rest = [Requested (Command_ProcessClose uuid)] \/ last rest = Some (CleanupEnqueued (Command_ProcessClose uuid)))
  else calls = [Requested (start_command uuid (direct_builder p))].
Lemma closed_accounted_for (q q' : RunningProcess) r before calls closes :
  rp_uuid q = uuid -> rp_closed q = false -> close reply q = (r, q', closes) -> calls = before ++ closes ++ drop_process q' ->
  exists before rest, calls = before ++ Requested (Command_ProcessStop uuid) :: rest /\
      (rest = [Requested (Command_ProcessClose uuid)] \/ last rest = Some (CleanupEnqueued (Command_ProcessClose uuid))).
Proof using order p Hsane.
  intros HU HC HE ->. pose proof (close_exact q HC) as H. rewrite HE in H. destruct H as [(rest & ->) H]. rewrite HU in *.
  exists before, (rest ++ drop_process q'). split; [done|]. destruct H as [(_ & HQ & E)|(_ & ->)].
  - left. injection E as ->. unfold drop_process. by rewrite HQ.
  - right. unfold drop_process. rewrite HC, HU. by rewrite last_snoc.
Qed.

Definition fresh (l : option lifecycle) : Prop := forall before, l = Some before -> state_terminal (lc_state before) = false.
Lemma fresh_set s l : state_terminal s = false -> fresh l -> fresh (set s <$> l).
Proof. intros HS HF b HB. destruct l as [x|]; simplify_eq/=. unfold set. by rewrite (HF _ eq_refl). Qed.
Lemma reported_set s l r : state_terminal s = false -> fresh l -> reported (set s <$> l) r -> reported l r.
Proof.
  intros HS HF [HP HR]. split; [done|]. destruct l as [x|]; [|done]. cbn in HR. unfold set in HR. by rewrite (HF _ eq_refl) in HR.
Qed.
Lemma output_set s l : fresh (Some l) -> lc_output (set s l) = lc_output l.
Proof. intros HF. unfold set. by rewrite (HF _ eq_refl). Qed.

Definition succeeded (exit : ProcessExit) (l : option lifecycle) : Prop :=
  exit_success exit = true /\ acknowledged = true /\
  reply (Command_ProcessWait uuid) = Ok (Event_ProcessExited uuid (exit_code exit) (exit_signal exit)) /\
  l = (fun before => {| lc_state := Finished exit;
                        lc_output := {| out_stdout := retained (pp_stdout p) Stream_Stdout (out_stdout (lc_output before));
                                        out_stderr := retained (pp_stderr p) Stream_Stderr (out_stderr (lc_output before)) |} |}) <$> pp_lifecycle p.

Lemma run_exact cancelled events wait_polled r calls :
  fresh (pp_lifecycle p) -> run_direct_process cancelled events wait_polled order p = Some (r, calls) ->
  reported (pp_lifecycle p) r /\ accounted_for cancelled calls /\ (forall exit, r.1 = Ok exit -> succeeded exit r.2).
Proof using Hsane.
  intros HF HR. unfold run_direct_process in HR. unfold accounted_for.
  assert (HF1 : fresh (set Starting <$> pp_lifecycle p)) by (by apply fresh_set).
  assert (HF2 : fresh (set Running <$> (set Starting <$> pp_lifecycle p))) by (by apply fresh_set).
  destruct cancelled.
  { simplify_eq. split; [|done]. apply (reported_set Starting); [done|done|]. by apply fail_reported. }
  pose proof spawn_exact as HS. destruct acknowledged eqn:EA.
  2: { destruct HS as (e & HS). rewrite HS in HR. simplify_eq. split; [|done]. apply (reported_set Starting); [done|done|]. by apply fail_reported. }
  rewrite HS in HR. set (q := {| rp_uuid := uuid; rp_closed := false |}) in *.
  pose proof (start_drains_exact q) as HD. destruct (start_output_drains _ _ _) as [[d|e|] binds]; [|clear HD|done].
  - destruct (wait reply q) as [waited waits] eqn:EW. destruct (select_loop _ _ _ _) as [[outcome d']|] eqn:ES; [|done].
    subst d. assert (HA : accounted (routed (pp_stdout p) Stream_Stdout ++ routed (pp_stderr p) Stream_Stderr)
                            {| od_tasks := routed (pp_stdout p) Stream_Stdout ++ routed (pp_stderr p) Stream_Stderr; od_completed := [] |}) by by exists [].
    pose proof (select_loop_accounted _ _ _ _ _ _ _ routed_NoDup HA ES) as HO.
    assert (HW : outcome <> Out_Wait Panic).
    { intros ->. destruct HO as [HO _]. pose proof (wait_not_panic q) as HN. rewrite EW in HN. by subst. }
    set (outs := match outcome with Out_Wait _ => waits | _ => if wait_polled then waits else [] end) in *.
    destruct (close reply q) as [[cleanup q'] closes] eqn:EC. pose proof (close_exact q eq_refl) as HC. rewrite EC in HC.
    assert (HP : cleanup <> Panic) by (destruct HC as [_ [(-> & _)|((e & ->) & _)]]; done).
    assert (HR' : exists output, finish_output_drains order d' = Some output /\
              r = settle (set Running <$> (set Starting <$> pp_lifecycle p)) outcome cleanup output /\
              calls = ([Requested (start_command uuid (direct_builder p))] ++ binds ++ outs) ++ closes ++ drop_process q').
    { destruct outcome as [[]| | |]; try done; destruct cleanup; try done; destruct (finish_output_drains order d') as [output|]; simplify_eq;
        eexists; (split; [reflexivity|]); (split; [reflexivity|]); by rewrite <- !app_assoc. }
    clear HR. destruct HR' as (output & EF & -> & ->). split; [|split].
    + apply (reported_set Starting); [done|done|]. apply (reported_set Running); [done|done|].
      apply settle_reported; [done|done|by eapply finish_not_panic].
    + eapply (closed_accounted_for q q'); [done|done|exact EC|reflexivity].
    + intros exit HX. destruct (settle _ outcome cleanup output) as [r l'] eqn:EE. cbn in HX. subst r. cbn.
      apply settle_ok in EE as (-> & _ & HS' & completed & -> & ->). destruct HO as [EO HO]. subst waited.
      split; [done|]. split; [done|]. split; [by apply (wait_exact q) in EW|].
      destruct (finish_accounted _ _ _ _ (sane_order _ _ Hsane) HO EF) as (ended & HE1 & HE2).
      destruct (pp_lifecycle p) as [before|] eqn:EL; [|done]. cbn. f_equal.
      assert (HB : state_terminal (lc_state before) = false) by (by apply HF).
      rewrite (retained_exact _ _ _ HE1 HE2). unfold set. by rewrite HB.
  - destruct (close reply q) as [[cleanup q'] closes] eqn:EC. pose proof (close_exact q eq_refl) as HC. rewrite EC in HC.
    assert (HP : cleanup <> Panic) by (destruct HC as [_ [(-> & _)|((e' & ->) & _)]]; done).
    assert (HR' : r = fail_direct_process (set Running <$> (set Starting <$> pp_lifecycle p)) (with_cleanup e (error_text cleanup)) /\
              calls = ([Requested (start_command uuid (direct_builder p))] ++ binds) ++ closes ++ drop_process q').
    { destruct cleanup; try done; simplify_eq; (split; [reflexivity|]); by rewrite <- !app_assoc. }
    destruct HR' as [-> ->]. split; [|split; [eapply (closed_accounted_for q q'); [done|done|exact EC|reflexivity]|done]].
    apply (reported_set Starting); [done|done|]. apply (reported_set Running); [done|done|]. by apply fail_reported.
Qed.

(** *** Returning *)

Lemma drain_capture_ends s pieces finish : is_Some finish -> forall a, is_Some (drain_capture s a pieces finish).
Proof.
  intros [x ->]. induction pieces as [|y pieces IH]; intros a; cbn; [destruct x as [[]|e|]; eauto|].
  destruct (is_empty y); [eauto|]. destruct (push reserve a y); eauto.
Qed.
Lemma joined_drain_ends t : is_Some (src_end (stream t.1)) -> is_Some (joined_drain t).
Proof.
  intros HE. unfold joined_drain. destruct (join_failure t.1); [eauto|]. unfold drain_host_output.
  destruct t.2 as [options|path]; cbn; [|destruct (host_file path t.1); eauto].
  destruct (drain_capture_ends t.1 (src_pieces (stream t.1)) _ HE (CaptureAccumulator_new options t.1)) as [[c|e|] ->]; eauto.
Qed.
Lemma finish_ends d : (forall s, is_Some (src_end (stream s))) -> is_Some (finish_output_drains order d).
Proof.
  intros HE. unfold finish_output_drains. set (results := map joined_drain (order (od_tasks d))).
  assert (HB : forallb (fun r : option (res ProcessError DrainedOutput) => match r with Some _ => true | None => false end) results = true).
  { unfold results. induction (order (od_tasks d)) as [|t ts IH]; cbn; [done|]. by destruct (joined_drain_ends t (HE t.1)) as [x ->]. }
  rewrite HB. destruct (List.find _ _) as [[[]|]|]; eauto.
Qed.
Lemma joined_not_panic t : joined_drain t <> Some Panic.
Proof. unfold joined_drain. repeat case_match; done. Qed.
Lemma select_ends timeout waited events : Sel_Wait ∈ events \/ Sel_Cancelled ∈ events -> forall d, is_Some (select_loop timeout waited events d).
Proof.
  induction events as [|e events IH]; intros HI d; [by destruct HI as [HI|HI]; apply elem_of_nil in HI|].
  assert (HX : e = Sel_Wait \/ e = Sel_Cancelled \/ (Sel_Wait ∈ events \/ Sel_Cancelled ∈ events)).
  { rewrite !elem_of_cons in HI. naive_solver. }
  destruct HX as [->|[->|HX]]; [cbn; eauto..|]. specialize (IH HX). destruct e as [|s| |]; cbn; eauto.
  - destruct (List.find _ _) as [t|]; [|done]. pose proof (joined_not_panic t). destruct (joined_drain t) as [[]|]; eauto. done.
  - destruct timeout; eauto.
Qed.
Lemma run_returns cancelled events wait_polled :
  Sel_Wait ∈ events \/ Sel_Cancelled ∈ events -> (forall s, is_Some (src_end (stream s))) ->
  is_Some (run_direct_process cancelled events wait_polled order p).
Proof.
  intros HE HS. unfold run_direct_process. destruct cancelled; [eauto|]. destruct (spawn _ _ _) as [[q|e|] calls]; [|eauto..].
  destruct (start_output_drains _ _ _) as [[d|e|] binds]; [| |eauto].
  - destruct (wait reply q) as [waited waits]. destruct (select_ends (pp_timeout p) waited events HE d) as [[outcome d'] ->].
    destruct (close reply q) as [[cleanup q'] closes]. destruct (finish_ends d' HS) as [output ->].
    destruct outcome as [[]| | |]; destruct cleanup; eauto.
  - destruct (close reply q) as [[cleanup q'] closes]. destruct cleanup; eauto.
Qed.
End Run.

(** ** Cleanup tasks *)

Record cleanup_task := { ck_request : HostRequest; ck_finished : bool }.
Record CleanupTaskState := { ct_closed : bool; ct_tasks : list cleanup_task }.
Definition CleanupTasks_new : CleanupTaskState := {| ct_closed := false; ct_tasks := [] |}.
(** [enqueue] on a thread with or without a runtime; the second component is
    what is sent at once, when the queue has room. *)
Definition enqueue (runtime room : bool) (request : HostRequest) (st : CleanupTaskState) : CleanupTaskState * list HostRequest :=
  if runtime then
    let tasks := List.filter (fun t => negb (ck_finished t)) (ct_tasks st) in
    if ct_closed st then ({| ct_closed := true; ct_tasks := tasks |}, [])
    else ({| ct_closed := false; ct_tasks := tasks ++ [{| ck_request := request; ck_finished := false |}] |}, [])
  else (st, if negb (ct_closed st) && room then [request] else []).
(** The tasks [close_and_join] awaits, [abort_all] aborts. *)
Definition close_tasks (st : CleanupTaskState) : CleanupTaskState * list cleanup_task := ({| ct_closed := true; ct_tasks := [] |}, ct_tasks st).

Definition pending_tasks (ts : list cleanup_task) : list HostRequest := map ck_request (List.filter (fun t => negb (ck_finished t)) ts).
#[global] Arguments pending_tasks : simpl never.

Inductive cleanup_op := Enqueue (runtime room : bool) (request : HostRequest) | TaskSends (i : nat) | CloseTasks.
Record cleanup_run := {
  cr_state : CleanupTaskState;
  cr_sent : list HostRequest;      (** reached the dispatcher's queue *)
  cr_awaited : list HostRequest }. (** awaited by [close_and_join] *)
Definition cleanup_op_step (r : cleanup_run) (o : cleanup_op) : cleanup_run :=
  match o with
  | Enqueue runtime room request =>
      let '(st, sent) := enqueue runtime room request (cr_state r) in
      {| cr_state := st; cr_sent := cr_sent r ++ sent; cr_awaited := cr_awaited r |}
  | TaskSends i =>
      match ct_tasks (cr_state r) !! i with
      | Some t =>
          if ck_finished t then r else
          {| cr_state := {| ct_closed := ct_closed (cr_state r);
                            ct_tasks := <[i := {| ck_request := ck_request t; ck_finished := true |}]> (ct_tasks (cr_state r)) |};
             cr_sent := cr_sent r ++ [ck_request t]; cr_awaited := cr_awaited r |}
      | None => r
      end
  | CloseTasks =>
      let '(st, tasks) := close_tasks (cr_state r) in
      {| cr_state := st; cr_sent := cr_sent r;
         cr_awaited := cr_awaited r ++ pending_tasks tasks |}
  end.
Definition tracked (r : cleanup_run) : list HostRequest :=
  cr_sent r ++ pending_tasks (ct_tasks (cr_state r)) ++ cr_awaited r.
(** What is accepted before the registry closes. *)
Fixpoint accepted (closed : bool) (ops : list cleanup_op) : list HostRequest :=
  match ops with
  | [] => []
  | Enqueue runtime room request :: ops => (if negb closed && (runtime || room) then [request] else []) ++ accepted closed ops
  | TaskSends _ :: ops => accepted closed ops
  | CloseTasks :: ops => accepted true ops
  end.
Lemma pending_idem ts : pending_tasks (List.filter (fun t => negb (ck_finished t)) ts) = pending_tasks ts.
Proof. unfold pending_tasks. induction ts as [|t ts IH]; cbn; [done|]. destruct (ck_finished t) eqn:E; cbn; [done|]. rewrite E. cbn. by rewrite IH. Qed.
Lemma pending_app ts us : pending_tasks (ts ++ us) = pending_tasks ts ++ pending_tasks us.
Proof. unfold pending_tasks. by rewrite List.filter_app, map_app. Qed.
Lemma pending_nil : pending_tasks [] = [].
Proof. done. Qed.
Lemma pending_cons t ts : pending_tasks (t :: ts) = (if ck_finished t then [] else [ck_request t]) ++ pending_tasks ts.
Proof. unfold pending_tasks. cbn. by destruct (ck_finished t). Qed.
Lemma pending_sends ts i t : ts !! i = Some t -> ck_finished t = false ->
  pending_tasks ts ≡ₚ ck_request t :: pending_tasks (<[i := {| ck_request := ck_request t; ck_finished := true |}]> ts).
Proof.
  intros HT HF. rewrite <- (take_drop_middle _ _ _ HT) at 1. rewrite insert_take_drop by (by eapply lookup_lt_Some).
  rewrite !pending_app. cbn [app]. rewrite !pending_cons. cbn. rewrite HF. solve_Permutation.
Qed.
Lemma tracked_run ops r :
  tracked (foldl cleanup_op_step r ops) ≡ₚ tracked r ++ accepted (ct_closed (cr_state r)) ops.
Proof.
  revert r. induction ops as [|o ops IH]; intros r; [cbn; by rewrite app_nil_r|]. cbn. rewrite IH. clear IH.
  destruct o as [runtime room request|i|]; cbn.
  - unfold tracked, enqueue. destruct runtime, (ct_closed (cr_state r)) eqn:EC; cbn; rewrite ?EC, ?pending_app, ?pending_idem, ?pending_cons, ?pending_nil; cbn.
    + by rewrite app_nil_r.
    + rewrite app_nil_r. solve_Permutation.
    + by rewrite app_nil_r.
    + destruct room; cbn; rewrite ?app_nil_r; [solve_Permutation|done].
  - destruct (ct_tasks (cr_state r) !! i) as [t|] eqn:ET; [|done]. destruct (ck_finished t) eqn:EF; [done|]. cbn.
    apply Permutation_app_tail. unfold tracked. cbn. rewrite (pending_sends _ _ _ ET EF). solve_Permutation.
  - apply Permutation_app_tail. unfold tracked. cbn. solve_Permutation.
Qed.
(** Every cleanup request accepted before the registry closed was sent, is
    still with its task, or is awaited by the close; later ones are dropped. *)
Lemma cleanup_accepted_exactly ops :
  tracked (foldl cleanup_op_step {| cr_state := CleanupTasks_new; cr_sent := []; cr_awaited := [] |} ops) ≡ₚ accepted false ops.
Proof. by rewrite tracked_run. Qed.

(** ** The claim *)

(** C31: A directly run process ends with what its observer sees: the run returns
    once the wait or a cancellation is seen and the routed streams end; the
    observer's terminal state is the returned exit or error; a failed run
    retains no output.  A run succeeds only for an acknowledged start, the
    guest's own exit report with code zero, and drained streams, and then the
    observer retains of each captured stream the captured value of all its
    bytes, whatever order the drains ended in.  Every acknowledged process is
    stopped, and then closed or handed to the cleanup tasks; for a start that
    was not acknowledged nothing more is sent. *)
Theorem direct_process_exact number duration reserve reply uuid bind stream host_file join_failure order p cancelled events wait_polled :
  sane_surroundings reserve reply bind stream order p -> fresh (pp_lifecycle p) ->
  let run := run_direct_process number duration reserve reply uuid bind stream host_file join_failure cancelled events wait_polled order p in
  ((Sel_Wait ∈ events \/ Sel_Cancelled ∈ events) -> (forall s, is_Some (src_end (stream s))) -> is_Some run) /\
  (forall r calls, run = Some (r, calls) ->
     reported (pp_lifecycle p) r /\ accounted_for reply uuid p cancelled calls /\
     (forall exit, r.1 = Ok exit -> succeeded reply uuid stream p exit r.2)).
Proof.
  intros HS HF run. split.
  - intros HE HX. by apply run_returns.
  - intros r calls HR. eapply run_exact; [exact HS|done|exact HR].
Qed.

Module DirectProcessExample.

Definition uuid : bytes := str "u".
(** A guest that starts, exits with code zero and is closed. *)
Definition reply (c : Command) : res GuestClientError Event :=
  match c with
  | Command_ProcessStart u _ _ _ _ _ _ => Ok (Event_ProcessStarted u)
  | Command_ProcessWait u | Command_ProcessStop u => Ok (Event_ProcessExited u (Some 0) None)
  | Command_ProcessClose u => Ok (Event_ProcessClosed u)
  | _ => Err GC_Transport
  end.
Definition stream (s : OutputStream) : source :=
  {| src_pieces := match s with Stream_Stdout => [str "he"; str "llo"] | Stream_Stderr => [str "warn"] end; src_end := Some (Ok tt) |}.
Definition process : PreparedProcess := {|
  pp_path := str "/bin/hello"; pp_args := [str "-v"]; pp_envs := []; pp_cwd := None; pp_timeout := Some 5;
  pp_stdout := Capture_ CaptureOptions_default; pp_stderr := Capture_ CaptureOptions_default; pp_lifecycle := Some lifecycle_new |}.
Definition number (n : Z) : bytes := [z2b n].
Definition run (reply : Command -> res GuestClientError Event) (stream : OutputStream -> source) (events : list selected) :=
  run_direct_process number number CaptureExample.roomy reply uuid (fun _ => Ok tt) stream (fun _ _ => Ok tt) (fun _ => None)
    false events true reverse process.
Lemma surroundings : sane_surroundings CaptureExample.roomy reply (fun _ => Ok tt) stream reverse process.
Proof.
  split.
  - intros n Hn. apply Z.ltb_lt in Hn. lia.
  - intros []; repeat constructor; done.
  - intros o [= <-]. split; [split; by vm_compute|done].
  - intros o [= <-]. split; [split; by vm_compute|done].
  - by intros [].
  - done.
  - intros l. apply reverse_Permutation.
Qed.
Definition done_run := run reply stream [Sel_Drain Stream_Stderr; Sel_Wait].
Example done_run_evaluated : done_run = Some
  ((Ok {| exit_code := Some 0; exit_signal := None |},
    Some {| lc_state := Finished {| exit_code := Some 0; exit_signal := None |};
            lc_output := {| out_stdout := Some (str "hello"); out_stderr := Some (str "warn") |} |}),
   [Requested (start_command uuid (direct_builder process));
    Bound (Command_ProcessOutputBind uuid Output_Stdout); Bound (Command_ProcessOutputBind uuid Output_Stderr);
    Requested (Command_ProcessWait uuid); Requested (Command_ProcessStop uuid); Requested (Command_ProcessClose uuid)]).
Proof. vm_compute. reflexivity. Qed.
Lemma direct_process_exact_witness :
  is_Some done_run /\ forall r calls, done_run = Some (r, calls) -> reported (pp_lifecycle process) r /\ accounted_for reply uuid process false calls.
Proof.
  destruct (direct_process_exact number number CaptureExample.roomy reply uuid (fun _ => Ok tt) stream (fun _ _ => Ok tt) (fun _ => None) reverse
              process false [Sel_Drain Stream_Stderr; Sel_Wait] true surroundings ltac:(by intros b [= <-])) as [H1 H2].
  split.
  - apply H1; [left; right; left|intros s; eexists; reflexivity].
  - intros r calls HR. destruct (H2 r calls HR) as (H3 & H4 & _). split; [exact H3|exact H4].
Defined.

(** When the stop is not answered and the output stays open, a run whose
    timeout fired, or which was cancelled, does not return. *)
Definition silent (c : Command) : res GuestClientError Event :=
  match c with Command_ProcessStop _ => Err GC_RequestTimedOut | c => reply c end.
Definition open_stream (s : OutputStream) : source := {| src_pieces := []; src_end := None |}.
Example timeout_does_not_end_the_run : run silent open_stream [Sel_Timer] = None /\ run silent open_stream [Sel_Cancelled] = None.
Proof. vm_compute. done. Qed.
End DirectProcessExample.
