(* ===== verification/GuestProcess.v ===== *)
(** * The guest's process manager

    [libs/init/src/components/process_manager.rs]: the processes the guest has
    started, their pipes, and the results that are replayed to every waiter.

    A process's completion cell and stop token are shared between its entry, the
    reaper task and the waiters, so they live in lists indexed by the child's
    number; an entry names its child.  What the operating system answers is a
    parameter of each step, and so is the text describing a failed start. *)

From Stdlib Require Import ZArith Lia.
From stdpp Require Import base tactics option list numbers strings gmap sets relations.
From S2P Require Import Prelude Bytes Text Messages BootConfig AuthMessages Framing GuestDispatch.

(** ** Exit statuses *)

Notation completion := (ProcessExit + bytes)%type.
(** What wakes a reaper: the child's end, or the stop token with the answers
    of [try_status], [kill] and a further wait. *)
Inductive kill_answer := KillOk | KillInvalidInput | KillErr (e : bytes).
Inductive wake :=
  | Exited (status : completion)
  | Stopped (try_status : option ProcessExit + bytes) (kill : kill_answer) (status : completion).
Definition reap_status (w : wake) : completion :=
  match w with
  | Exited status => status
  | Stopped (inl (Some status)) _ _ => inl status
  | Stopped (inl None) KillOk status | Stopped (inl None) KillInvalidInput status => status
  | Stopped (inl None) (KillErr e) _ => inr e
  | Stopped (inr e) _ _ => inr e
  end.
Definition reaped (uuid_text : bytes) (w : wake) : completion :=
  match reap_status w with
  | inl exit => inl exit
  | inr e => inr (str "failed to wait for process " ++ uuid_text ++ str ": " ++ e)
  end.

(** ** The manager *)

Inductive pipe := PipeStdin | PipeStdout | PipeStderr.
Record Process := { pr_uuid : bytes; pr_stdin : bool; pr_stdout : bool; pr_stderr : bool; pr_child : nat }.
Record ProcessManager := {
  pm_inner : gmap bytes Process;
  pm_completions : list (option completion);
  pm_stops : list bool;
  pm_cancel : bool }.
Definition ProcessManager_new : ProcessManager :=
  {| pm_inner := ∅; pm_completions := []; pm_stops := []; pm_cancel := false |}.

Definition failure (context : InitError) (text : bytes) : report := {| rep_context := context; rep_debug := text |}.
Definition process_not_found : report := failure Init_ResourceNotFound (str "Process not found").

(** [Completion::record]: the first result stays. *)
Definition Completion_record (k : nat) (r : completion) (m : ProcessManager) : ProcessManager :=
  match pm_completions m !! k with
  | Some None => {| pm_inner := pm_inner m; pm_completions := <[k := Some r]> (pm_completions m); pm_stops := pm_stops m; pm_cancel := pm_cancel m |}
  | _ => m
  end.
(** [Completion::wait]; [None] while it is pending. *)
Definition Completion_wait (k : nat) (m : ProcessManager) : option (ProcessExit + report) :=
  match pm_completions m !! k with
  | Some (Some (inl exit)) => Some (inl exit)
  | Some (Some (inr message)) => Some (inr (failure Init_Io message))
  | _ => None
  end.

(** [process_stdio]; opening a file may fail. *)
Definition process_stdio (mode : ProcessStdio) (open : bytes -> unit + bytes) : bool + bytes :=
  match mode with
  | Stdio_Pipe => inl true
  | Stdio_Null => inl false
  | Stdio_File path => match open path with inl _ => inl false | inr e => inr e end
  end.
Definition spawn (uuid : bytes) (stdout stderr : ProcessStdio) (open : bytes -> unit + bytes) (started : unit + bytes) (m : ProcessManager)
    : (unit + report) * ProcessManager :=
  match process_stdio stdout open with
  | inr error => (inr (failure Init_Io (str "configuring process stdout: " ++ error)), m)
  | inl stdout_is_piped =>
      match process_stdio stderr open with
      | inr error => (inr (failure Init_Io (str "configuring process stderr: " ++ error)), m)
      | inl stderr_is_piped =>
          match started with
          | inr diag => (inr (failure Init_ProcessSpawn diag), m)
          | inl _ =>
              (inl tt,
               {| pm_inner := <[uuid := {| pr_uuid := uuid; pr_stdin := true; pr_stdout := stdout_is_piped; pr_stderr := stderr_is_piped;
                                           pr_child := length (pm_completions m) |}]> (pm_inner m);
                  pm_completions := pm_completions m ++ [None]; pm_stops := pm_stops m ++ [false]; pm_cancel := pm_cancel m |})
          end
      end
  end.
Definition stop_child (k : nat) (m : ProcessManager) : ProcessManager :=
  {| pm_inner := pm_inner m; pm_completions := pm_completions m; pm_stops := <[k := true]> (pm_stops m); pm_cancel := pm_cancel m |}.
(** [kill] and [wait] up to the completion they then wait for. *)
Definition kill (uuid : bytes) (m : ProcessManager) : (nat + report) * ProcessManager :=
  match pm_inner m !! uuid with
  | None => (inr process_not_found, m)
  | Some process => (inl (pr_child process), stop_child (pr_child process) m)
  end.
Definition wait (uuid : bytes) (m : ProcessManager) : nat + report :=
  match pm_inner m !! uuid with None => inr process_not_found | Some process => inl (pr_child process) end.
Definition close (uuid : bytes) (m : ProcessManager) : (unit + report) * ProcessManager :=
  match pm_inner m !! uuid with
  | None => (inr process_not_found, m)
  | Some process =>
      (inl tt, stop_child (pr_child process)
                 {| pm_inner := delete uuid (pm_inner m); pm_completions := pm_completions m; pm_stops := pm_stops m; pm_cancel := pm_cancel m |})
  end.
Definition set_entry (process : Process) (m : ProcessManager) : ProcessManager :=
  {| pm_inner := <[pr_uuid process := process]> (pm_inner m); pm_completions := pm_completions m; pm_stops := pm_stops m; pm_cancel := pm_cancel m |}.
(** The pipes [bind] and [bind_output] take out of the entry. *)
Definition bind (uuid : bytes) (m : ProcessManager) : (list pipe + report) * ProcessManager :=
  match pm_inner m !! uuid with
  | None => (inr process_not_found, m)
  | Some process =>
      if pr_stdin process then
        (inl (PipeStdin :: (if pr_stdout process then [PipeStdout] else []) ++ (if pr_stderr process then [PipeStderr] else [])),
         set_entry {| pr_uuid := pr_uuid process; pr_stdin := false; pr_stdout := false; pr_stderr := false; pr_child := pr_child process |} m)
      else (inr (failure Init_ResourceNotFound (str "Process already bound")), m)
  end.
Definition bind_output (uuid : bytes) (output : ProcessOutputStream) (m : ProcessManager) : (pipe + report) * ProcessManager :=
  match pm_inner m !! uuid with
  | None => (inr process_not_found, m)
  | Some process =>
      match output with
      | Output_Stdout =>
          if pr_stdout process then
            (inl PipeStdout,
             set_entry {| pr_uuid := pr_uuid process; pr_stdin := pr_stdin process; pr_stdout := false; pr_stderr := pr_stderr process;
                          pr_child := pr_child process |} m)
          else (inr (failure Init_ResourceNotFound (str "Process stdout is not available")), m)
      | Output_Stderr =>
          if pr_stderr process then
            (inl PipeStderr,
             set_entry {| pr_uuid := pr_uuid process; pr_stdin := pr_stdin process; pr_stdout := pr_stdout process; pr_stderr := false;
                          pr_child := pr_child process |} m)
          else (inr (failure Init_ResourceNotFound (str "Process stderr is not available")), m)
      end
  end.
(** A reaper may take its stop branch. *)
Definition stop_requested (k : nat) (m : ProcessManager) : bool := default false (pm_stops m !! k) || pm_cancel m.

(** ** Relayed input *)

(** The inbound loop of a framed [bind] on the bytes the host sends before it
    closes: the chunks written to the child, and how it ends. *)
Fixpoint inbound_framed (fuel : nat) (input : bytes) : list bytes * (unit + report) :=
  match fuel with
  | O => ([], inl tt)
  | S fuel =>
      if (length input <? 4)%nat then ([], inl tt) else
      let n := le_val (take 4 input) in
      if MAX_COMMAND_FRAME <? n then ([], inr (failure Init_FrameTooLarge (str "declared bind frame length")))
      else if len (drop 4 input) <? n then ([], inl tt)
      else let '(chunks, finish) := inbound_framed fuel (drop (Z.to_nat n) (drop 4 input)) in
           (take (Z.to_nat n) (drop 4 input) :: chunks, finish)
  end.
Definition bind_inbound (input : bytes) : list bytes * (unit + report) := inbound_framed (S (length input)) input.
(** A chunk as the outbound writer frames it. *)
Definition outbound_framed (chunk : bytes) : bytes := le_bytes 4 (len chunk) ++ chunk.

(** ** The manager at work *)

Record world := {
  w_pm : ProcessManager;
  w_waiters : list (nat * nat);                          (** call, child *)
  w_answers : list (nat * nat * (ProcessExit + report)); (** call, child, answer *)
  w_taken : list (nat * pipe);
  w_replaced : list nat;                                 (** children whose entry another start overwrote *)
  w_calls : nat }.
Definition world_new : world :=
  {| w_pm := ProcessManager_new; w_waiters := []; w_answers := []; w_taken := []; w_replaced := []; w_calls := 0 |}.
Definition with_pm (m : ProcessManager) (w : world) : world :=
  {| w_pm := m; w_waiters := w_waiters w; w_answers := w_answers w; w_taken := w_taken w; w_replaced := w_replaced w; w_calls := w_calls w |}.
Definition with_waiter (k : nat) (m : ProcessManager) (w : world) : world :=
  {| w_pm := m; w_waiters := w_waiters w ++ [(w_calls w, k)]; w_answers := w_answers w; w_taken := w_taken w; w_replaced := w_replaced w;
     w_calls := S (w_calls w) |}.
Definition with_taken (k : nat) (pipes : list pipe) (m : ProcessManager) (w : world) : world :=
  {| w_pm := m; w_waiters := w_waiters w; w_answers := w_answers w; w_taken := w_taken w ++ map (pair k) pipes; w_replaced := w_replaced w;
     w_calls := w_calls w |}.
Definition child_of (uuid : bytes) (m : ProcessManager) : list nat := match pm_inner m !! uuid with Some process => [pr_child process] | None => [] end.

(** Requests of connection handlers. *)
Inductive serve : world -> world -> Prop :=
  | serve_spawn w uuid stdout stderr open started m :
      spawn uuid stdout stderr open started (w_pm w) = (inl tt, m) ->
      serve w {| w_pm := m; w_waiters := w_waiters w; w_answers := w_answers w; w_taken := w_taken w;
                 w_replaced := w_replaced w ++ child_of uuid (w_pm w); w_calls := w_calls w |}
  | serve_kill w uuid k m : kill uuid (w_pm w) = (inl k, m) -> serve w (with_waiter k m w)
  | serve_wait w uuid k : wait uuid (w_pm w) = inl k -> serve w (with_waiter k (w_pm w) w)
  | serve_close w uuid m : close uuid (w_pm w) = (inl tt, m) -> serve w (with_pm m w)
  | serve_bind w uuid pipes m process :
      pm_inner (w_pm w) !! uuid = Some process -> bind uuid (w_pm w) = (inl pipes, m) -> serve w (with_taken (pr_child process) pipes m w)
  | serve_bind_output w uuid output p m process :
      pm_inner (w_pm w) !! uuid = Some process -> bind_output uuid output (w_pm w) = (inl p, m) -> serve w (with_taken (pr_child process) [p] m w)
  | serve_cancel w :
      serve w (with_pm {| pm_inner := pm_inner (w_pm w); pm_completions := pm_completions (w_pm w); pm_stops := pm_stops (w_pm w); pm_cancel := true |} w).
(** Reaper tasks and waiters. *)
Inductive settle : world -> world -> Prop :=
  | settle_exit w k uuid_text status :
      pm_completions (w_pm w) !! k = Some None -> settle w (with_pm (Completion_record k (reaped uuid_text (Exited status)) (w_pm w)) w)
  | settle_stop w k uuid_text try_status answer status :
      pm_completions (w_pm w) !! k = Some None -> stop_requested k (w_pm w) = true ->
      settle w (with_pm (Completion_record k (reaped uuid_text (Stopped try_status answer status)) (w_pm w)) w)
  | settle_answer w i call k answer :
      w_waiters w !! i = Some (call, k) -> Completion_wait k (w_pm w) = Some answer ->
      settle w {| w_pm := w_pm w; w_waiters := delete i (w_waiters w); w_answers := w_answers w ++ [(call, k, answer)]; w_taken := w_taken w;
                  w_replaced := w_replaced w; w_calls := w_calls w |}.
Definition pm_step (w w' : world) : Prop := serve w w' \/ settle w w'.

(** ** The invariant *)

Definition has_pipe (p : pipe) (process : Process) : bool :=
  match p with PipeStdin => pr_stdin process | PipeStdout => pr_stdout process | PipeStderr => pr_stderr process end.
Definition entry_of (m : ProcessManager) (u : bytes) (process : Process) : Prop := pm_inner m !! u = Some process.

Record world_inv (w : world) : Prop := {
  wi_length : length (pm_stops (w_pm w)) = length (pm_completions (w_pm w));
  wi_entry u process : entry_of (w_pm w) u process -> pr_uuid process = u /\ (pr_child process < length (pm_completions (w_pm w)))%nat;
  wi_inj u v p q : entry_of (w_pm w) u p -> entry_of (w_pm w) v q -> pr_child p = pr_child q -> u = v;
  wi_managed k : (k < length (pm_completions (w_pm w)))%nat ->
    (exists u process, entry_of (w_pm w) u process /\ pr_child process = k) \/ pm_stops (w_pm w) !! k = Some true \/ k ∈ w_replaced w;
  wi_taken : NoDup (w_taken w);
  wi_taken_pipe k p : (k, p) ∈ w_taken w ->
    (k < length (pm_completions (w_pm w)))%nat /\ forall u process, entry_of (w_pm w) u process -> pr_child process = k -> has_pipe p process = false;
  wi_answer call k a : (call, k, a) ∈ w_answers w -> Completion_wait k (w_pm w) = Some a;
  wi_calls : map fst (w_waiters w) ++ map (fst ∘ fst) (w_answers w) ≡ₚ seq 0 (w_calls w);
  wi_waiter call k : (call, k) ∈ w_waiters w -> (k < length (pm_completions (w_pm w)))%nat }.

Lemma world_new_inv : world_inv world_new.
Proof. split; cbn; try done; try (intros; by set_solver); try lia. constructor. Qed.

(** Recorded completions stay. *)
Lemma record_keeps k r m j a : Completion_wait j m = Some a -> Completion_wait j (Completion_record k r m) = Some a.
Proof.
  unfold Completion_record. destruct (pm_completions m !! k) as [[c|]|] eqn:E; try done.
  unfold Completion_wait. cbn [pm_completions]. intros H. destruct (decide (k = j)) as [->|Hn]; [|by rewrite list_lookup_insert_ne]. destruct (pm_completions m !! j); by simplify_eq.
Qed.
Lemma record_length k r m : length (pm_completions (Completion_record k r m)) = length (pm_completions m).
Proof. unfold Completion_record. by repeat case_match; cbn; rewrite ?length_insert. Qed.
Lemma record_inner k r m : pm_inner (Completion_record k r m) = pm_inner m /\ pm_stops (Completion_record k r m) = pm_stops m.
Proof. unfold Completion_record. by repeat case_match. Qed.
Lemma record_inv w k r : world_inv w -> world_inv (with_pm (Completion_record k r (w_pm w)) w).
Proof.
  intros []. destruct (record_inner k r (w_pm w)) as [E1 E2]. split; cbn; unfold entry_of in *; rewrite ?record_length, ?E1, ?E2; try done.
  - intros call j a HA. by eapply record_keeps, wi_answer0.
Qed.

Lemma stop_wait k m j : Completion_wait j (stop_child k m) = Completion_wait j m.
Proof. done. Qed.
Lemma stop_stays k m j : pm_stops m !! j = Some true -> pm_stops (stop_child k m) !! j = Some true.
Proof.
  intros H. cbn. destruct (decide (k = j)) as [->|Hn]; [rewrite list_lookup_insert_eq; [done|by eapply lookup_lt_Some]|by rewrite list_lookup_insert_ne].
Qed.
Lemma stop_child_inv w k : world_inv w -> world_inv (with_pm (stop_child k (w_pm w)) w).
Proof.
  intros []. split; cbn; try done.
  - by rewrite length_insert.
  - intros j HJ. destruct (wi_managed0 j HJ) as [H|[H|H]]; [by left| |by right; right]. right. left. by apply stop_stays.
Qed.
Lemma waiter_inv w k : world_inv w -> (k < length (pm_completions (w_pm w)))%nat -> world_inv (with_waiter k (w_pm w) w).
Proof.
  intros [] HK. split; cbn; try done.
  - change (0%nat :: seq 1 (w_calls w)) with (seq 0 (S (w_calls w))). rewrite map_app, seq_S. cbn. rewrite <- wi_calls0. solve_Permutation.
  - intros call j. rewrite elem_of_app, list_elem_of_singleton. intros [H|H]; [by eapply wi_waiter0|by simplify_eq].
Qed.
Lemma kill_inv w uuid k m : world_inv w -> kill uuid (w_pm w) = (inl k, m) -> world_inv (with_waiter k m w).
Proof.
  unfold kill. intros HI H. destruct (pm_inner (w_pm w) !! uuid) as [process|] eqn:E; simplify_eq.
  change (world_inv (with_waiter (pr_child process) (w_pm (with_pm (stop_child (pr_child process) (w_pm w)) w)) (with_pm (stop_child (pr_child process) (w_pm w)) w))).
  apply waiter_inv; [by apply stop_child_inv|]. cbn. by eapply (wi_entry w).
Qed.
Lemma wait_inv w uuid k : world_inv w -> wait uuid (w_pm w) = inl k -> world_inv (with_waiter k (w_pm w) w).
Proof.
  unfold wait. intros HI H. destruct (pm_inner (w_pm w) !! uuid) as [process|] eqn:E; simplify_eq. apply waiter_inv; [done|]. by eapply (wi_entry w).
Qed.
Lemma close_inv w uuid m : world_inv w -> close uuid (w_pm w) = (inl tt, m) -> world_inv (with_pm m w).
Proof.
  unfold close. intros HI H. destruct (pm_inner (w_pm w) !! uuid) as [process|] eqn:E; simplify_eq.
  destruct HI. assert (HD : forall u p, delete uuid (pm_inner (w_pm w)) !! u = Some p -> pm_inner (w_pm w) !! u = Some p).
  { intros u p. rewrite lookup_delete_Some. by intros [_ ?]. }
  unfold entry_of in *. split; cbn; unfold entry_of in *; cbn; eauto.
  - by rewrite length_insert.
  - intros k HK. destruct (decide (k = pr_child process)) as [->|Hn].
    { right. left. apply list_lookup_insert_eq. by rewrite wi_length0. }
    destruct (wi_managed0 k HK) as [(u & p & HU & HC)|[H|H]]; [left|right; left|by right; right].
    + exists u, p. split; [|done]. rewrite lookup_delete_ne; [done|]. intros ->. congruence.
    + by rewrite list_lookup_insert_ne.
  - intros k p HT. destruct (wi_taken_pipe0 k p HT). split; [done|]. eauto.
Qed.
(** Taking pipes out of an entry. *)
Lemma take_inv w u process process' pipes :
  world_inv w -> entry_of (w_pm w) u process -> pr_uuid process' = pr_uuid process -> pr_child process' = pr_child process ->
  NoDup pipes -> (forall p, p ∈ pipes -> has_pipe p process = true /\ has_pipe p process' = false) ->
  (forall p, has_pipe p process' = true -> has_pipe p process = true) ->
  world_inv (with_taken (pr_child process) pipes (set_entry process' (w_pm w)) w).
Proof.
  intros [] HE HU HC HN HP HM. destruct (wi_entry0 _ _ HE) as [EU HK].
  assert (HD : forall v p, entry_of (set_entry process' (w_pm w)) v p -> v = u /\ p = process' \/ entry_of (w_pm w) v p).
  { intros v p. unfold entry_of, set_entry. cbn. rewrite HU, EU, lookup_insert_Some. naive_solver. }
  split; cbn; try done.
  - intros v p HV. destruct (HD _ _ HV) as [[-> ->]|HV']; [|by apply wi_entry0]. by rewrite HU, HC.
  - intros v1 v2 p q H1 H2 E. destruct (HD _ _ H1) as [[-> ->]|H1'], (HD _ _ H2) as [[-> ->]|H2']; [done| | |by eapply wi_inj0].
    + eapply (wi_inj0 u v2); [done..|congruence].
    + eapply (wi_inj0 v1 u); [done..|congruence].
  - intros k Hk. destruct (wi_managed0 k Hk) as [(v & p & HV & Hc)|H]; [left|by right].
    destruct (decide (v = u)) as [->|Hn]; [exists u, process'|exists v, p].
    + unfold entry_of, set_entry. cbn. rewrite HU, EU, lookup_insert_eq. split; [done|]. unfold entry_of in *. congruence.
    + unfold entry_of, set_entry. cbn. rewrite HU, EU, lookup_insert_ne by done. done.
  - apply NoDup_app. split; [done|]. split.
    + intros [k p] H1 H2. apply list_elem_of_fmap in H2 as (p' & [= -> ->] & H2). destruct (HP _ H2) as [H3 _].
      destruct (wi_taken_pipe0 _ _ H1) as [_ H4]. rewrite (H4 u process) in H3; done.
    + apply NoDup_fmap; [by intros ?? [= ->]|done].
  - intros k p. rewrite elem_of_app. intros [H|H].
    + destruct (wi_taken_pipe0 _ _ H) as [? H']. split; [done|]. intros v q HV Hq. destruct (HD _ _ HV) as [[-> ->]|HV']; [|by eapply H'].
      destruct (has_pipe p process') eqn:EP; [|done]. apply HM in EP. rewrite (H' u process) in EP; [done|done|congruence].
    + apply list_elem_of_fmap in H as (p' & [= -> ->] & H). destruct (HP _ H) as [_ H']. split; [done|].
      intros v q HV Hq. destruct (HD _ _ HV) as [[-> ->]|HV']; [done|]. assert (v = u) as -> by by eapply wi_inj0.
      unfold entry_of, set_entry in HV. cbn in HV. rewrite HU, EU, lookup_insert_eq in HV. by simplify_eq.
Qed.
Lemma bind_inv w uuid pipes m process :
  world_inv w -> entry_of (w_pm w) uuid process -> bind uuid (w_pm w) = (inl pipes, m) -> world_inv (with_taken (pr_child process) pipes m w).
Proof.
  intros HI HE H. unfold bind in H. unfold entry_of in HE. rewrite HE in H. destruct (pr_stdin process) eqn:E; simplify_eq.
  eapply take_inv; try done.
  - destruct (pr_stdout process), (pr_stderr process); cbn; repeat constructor; set_solver.
  - intros [] HP; cbn; (split; [|done]); destruct (pr_stdout process) eqn:E1, (pr_stderr process) eqn:E2; try done; cbn in HP; set_solver.
  - by intros [].
Qed.
Lemma bind_output_inv w uuid output p m process :
  world_inv w -> entry_of (w_pm w) uuid process -> bind_output uuid output (w_pm w) = (inl p, m) -> world_inv (with_taken (pr_child process) [p] m w).
Proof.
  intros HI HE H. unfold bind_output in H. unfold entry_of in HE. rewrite HE in H.
  destruct output; [destruct (pr_stdout process) eqn:E|destruct (pr_stderr process) eqn:E]; simplify_eq;
    (eapply take_inv; [done|done|done|done|apply NoDup_singleton|intros q ->%list_elem_of_singleton; done|by intros []]).
Qed.
Lemma spawn_inv_ok w uuid stdout stderr open started m :
  world_inv w -> spawn uuid stdout stderr open started (w_pm w) = (inl tt, m) ->
  world_inv {| w_pm := m; w_waiters := w_waiters w; w_answers := w_answers w; w_taken := w_taken w;
               w_replaced := w_replaced w ++ child_of uuid (w_pm w); w_calls := w_calls w |}.
Proof.
  intros [] H. unfold spawn in H. destruct (process_stdio stdout open) as [so|]; [|done]. destruct (process_stdio stderr open) as [se|]; [|done].
  destruct started as [[]|]; [|done]. simplify_eq. set (n := length (pm_completions (w_pm w))) in *.
  set (process := {| pr_uuid := uuid; pr_stdin := true; pr_stdout := so; pr_stderr := se; pr_child := n |}).
  assert (HD : forall v p, <[uuid := process]> (pm_inner (w_pm w)) !! v = Some p -> v = uuid /\ p = process \/ v <> uuid /\ entry_of (w_pm w) v p).
  { intros v p. rewrite lookup_insert_Some. unfold entry_of. naive_solver. }
  split; cbn; unfold entry_of; cbn; rewrite ?length_app; cbn; fold n; try done.
  - rewrite wi_length0. lia.
  - intros v p HV. destruct (HD _ _ HV) as [[-> ->]|[_ HV']]; [cbn; split; [done|lia]|]. destruct (wi_entry0 _ _ HV'). split; [done|lia].
  - intros u v p q HP HQ E. destruct (HD _ _ HP) as [[-> ->]|[HU HP']], (HD _ _ HQ) as [[-> ->]|[HV HQ']]; [done| | |by eapply wi_inj0].
    + destruct (wi_entry0 _ _ HQ'). cbn in E. lia.
    + destruct (wi_entry0 _ _ HP'). cbn in E. lia.
  - intros k HK. destruct (decide (k = n)) as [->|Hn]; [left; exists uuid, process; by rewrite lookup_insert_eq|].
    destruct (wi_managed0 k ltac:(lia)) as [(v & p & HV & HC)|[H|H]].
    + destruct (decide (v = uuid)) as [->|Hu].
      * right. right. apply elem_of_app. right. unfold child_of. unfold entry_of in HV. rewrite HV. subst k. by apply list_elem_of_singleton.
      * left. exists v, p. by rewrite lookup_insert_ne.
    + right. left. by apply lookup_app_l_Some.
    + right. right. apply elem_of_app. by left.
  - intros k p HT. destruct (wi_taken_pipe0 _ _ HT) as [HK HX]. split; [lia|]. intros v q HV E.
    destruct (HD _ _ HV) as [[-> ->]|[_ HV']]; [cbn in E; lia|by eapply HX].
  - intros call k a HA. specialize (wi_answer0 _ _ _ HA). unfold Completion_wait in *. cbn.
    destruct (pm_completions (w_pm w) !! k) as [c|] eqn:E; [|done]. by rewrite (lookup_app_l_Some _ _ _ _ E).
  - intros call k HW. specialize (wi_waiter0 _ _ HW). lia.
Qed.
Lemma answer_inv w i call k answer :
  world_inv w -> w_waiters w !! i = Some (call, k) -> Completion_wait k (w_pm w) = Some answer ->
  world_inv {| w_pm := w_pm w; w_waiters := delete i (w_waiters w); w_answers := w_answers w ++ [(call, k, answer)]; w_taken := w_taken w;
               w_replaced := w_replaced w; w_calls := w_calls w |}.
Proof.
  intros [] HI HA. split; cbn; try done.
  - intros c j a. rewrite elem_of_app, list_elem_of_singleton. intros [H|H]; [by eapply wi_answer0|by simplify_eq].
  - rewrite <- wi_calls0. apply delete_Permutation in HI. rewrite map_app. cbn.
    rewrite (Permutation_map fst HI). cbn. solve_Permutation.
  - intros c j HW. eapply wi_waiter0. apply delete_Permutation in HI. rewrite HI. by right.
Qed.
Lemma step_keeps_inv w w' : pm_step w w' -> world_inv w -> world_inv w'.
Proof.
  intros [HS|HS] HI; destruct HS.
  - by eapply spawn_inv_ok.
  - by eapply kill_inv.
  - by eapply wait_inv.
  - by eapply close_inv.
  - by eapply bind_inv.
  - by eapply bind_output_inv.
  - destruct HI. by split.
  - by apply record_inv.
  - by apply record_inv.
  - by eapply answer_inv.
Qed.
Lemma reachable_world_inv w : rtc pm_step world_new w -> world_inv w.
Proof. intros H. eapply (rtc_ind_r world_inv); [exact world_new_inv|intros; by eapply step_keeps_inv|exact H]. Qed.

(** ** Results are replayed *)

Lemma step_keeps_completion w w' k a :
  pm_step w w' -> Completion_wait k (w_pm w) = Some a -> Completion_wait k (w_pm w') = Some a.
Proof.
  intros [HS|HS] HA; destruct HS; cbn; try done; try by apply record_keeps.
  - unfold spawn in H. repeat case_match; simplify_eq. unfold Completion_wait in *. cbn [pm_completions].
    destruct (pm_completions (w_pm w) !! k) as [c|] eqn:E; [|done]. by rewrite (lookup_app_l_Some _ _ _ _ E).
  - unfold kill in H. repeat case_match; by simplify_eq.
  - unfold close in H. repeat case_match; by simplify_eq.
  - unfold bind in H0. repeat case_match; by simplify_eq.
  - unfold bind_output in H0. repeat case_match; by simplify_eq.
Qed.
Lemma run_keeps_completion w w' k a : rtc pm_step w w' -> Completion_wait k (w_pm w) = Some a -> Completion_wait k (w_pm w') = Some a.
Proof. intros H. induction H as [|w1 w2 w3 H _ IH]; [done|]. intros HA. eapply IH, step_keeps_completion; done. Qed.

(** ** Every stopped process ends *)

Definition killed : completion := inl {| pe_exit_code := None; pe_signal := Some 9 |}.
Lemma reap_one w k : pm_cancel (w_pm w) = true -> (k < length (pm_completions (w_pm w)))%nat ->
  exists w', rtc settle w w' /\ is_Some (Completion_wait k (w_pm w')) /\ w_waiters w' = w_waiters w /\ pm_cancel (w_pm w') = true /\
    length (pm_completions (w_pm w')) = length (pm_completions (w_pm w)) /\
    forall j, is_Some (Completion_wait j (w_pm w)) -> is_Some (Completion_wait j (w_pm w')).
Proof.
  intros HC HK. destruct (pm_completions (w_pm w) !! k) as [[c|]|] eqn:E.
  - exists w. split; [constructor|]. split; [|done]. unfold Completion_wait. rewrite E. by destruct c; eauto.
  - eexists. split; [eapply rtc_once, (settle_stop w k [] (inl None) KillOk killed); [done|unfold stop_requested; by rewrite HC, orb_true_r]|].
    split; [|split; [done|split; [|split]]].
    + unfold Completion_record. rewrite E. unfold Completion_wait. cbn [w_pm with_pm pm_completions].
      rewrite list_lookup_insert_eq by done. cbn. eauto.
    + cbn. unfold Completion_record. by rewrite E.
    + apply record_length.
    + intros j [a HA]. exists a. by apply record_keeps.
  - apply lookup_ge_None in E. lia.
Qed.
Lemma reap_all n w : pm_cancel (w_pm w) = true -> (n <= length (pm_completions (w_pm w)))%nat ->
  exists w', rtc settle w w' /\ (forall k, (k < n)%nat -> is_Some (Completion_wait k (w_pm w'))) /\ w_waiters w' = w_waiters w /\
    pm_cancel (w_pm w') = true /\ length (pm_completions (w_pm w')) = length (pm_completions (w_pm w)).
Proof.
  intros HC. induction n as [|n IH]; intros HN; [exists w; split; [constructor|]; by repeat split; try lia|].
  destruct (IH ltac:(lia)) as (w1 & HR & HW & E1 & E2 & E3).
  destruct (reap_one w1 n E2 ltac:(lia)) as (w2 & HR2 & HK & F1 & F2 & F3 & HP). exists w2. split; [by etransitivity|].
  split; [|split_and!; congruence]. intros k Hk. destruct (decide (k = n)) as [->|]; [done|]. apply HP, HW. lia.
Qed.
Lemma answer_all w : (forall call k, (call, k) ∈ w_waiters w -> is_Some (Completion_wait k (w_pm w))) ->
  exists w', rtc settle w w' /\ w_waiters w' = [] /\ w_pm w' = w_pm w.
Proof.
  remember (w_waiters w) as ws eqn:E. revert w E. induction ws as [|[call k] ws IH]; intros w E HW; [exists w; split; [constructor|done]|].
  destruct (HW call k ltac:(left)) as [a HA].
  edestruct (IH {| w_pm := w_pm w; w_waiters := delete 0%nat (w_waiters w); w_answers := w_answers w ++ [(call, k, a)]; w_taken := w_taken w;
                   w_replaced := w_replaced w; w_calls := w_calls w |}) as (w' & HR & HE & HP).
  { cbn. by rewrite <- E. }
  { intros c j Hj. eapply HW. by right. }
  exists w'. split; [|done]. eapply rtc_l; [|exact HR]. apply (settle_answer w 0 call k a); [by rewrite <- E|done].
Qed.


(** ** Framed input *)

(** What a framed peer sends arrives chunk by chunk; an unfinished last frame
    is dropped. *)
Lemma inbound_framed_exact chunks rest fuel :
  Forall (fun c => len c <= MAX_COMMAND_FRAME) chunks -> (length rest < 4)%nat -> (length chunks < fuel)%nat ->
  inbound_framed fuel (concat (map outbound_framed chunks) ++ rest) = (chunks, inl tt).
Proof.
  intros HC HR. revert fuel. induction HC as [|c chunks Hc _ IH]; intros fuel HF; (destruct fuel as [|fuel]; [lia|]); cbn [concat map app inbound_framed].
  - by rewrite (proj2 (Nat.ltb_lt _ _) HR).
  - set (tail := concat (map outbound_framed chunks) ++ rest) in *.
    replace ((outbound_framed c ++ concat (map outbound_framed chunks)) ++ rest) with (le_bytes 4 (len c) ++ c ++ tail)
      by (unfold tail, outbound_framed; by rewrite <- !app_assoc).
    assert (HL : length (le_bytes 4 (len c)) = 4%nat) by apply length_le_bytes.
    rewrite (proj2 (Nat.ltb_ge _ _)) by (rewrite length_app, HL; lia).
    rewrite (take_app_length' (le_bytes 4 (len c))), (drop_app_length' (le_bytes 4 (len c))) by done.
    assert (HV : le_val (le_bytes 4 (len c)) = len c).
    { apply le_val_le_bytes_u. split; [apply len_nonneg|]. eapply Z.le_lt_trans; [exact Hc|]. by vm_compute. }
    rewrite HV, (proj2 (Z.ltb_ge _ _) Hc). rewrite (proj2 (Z.ltb_ge (len (c ++ tail)) (len c))) by (rewrite len_app; pose proof (len_nonneg tail); lia).
    assert (HN : Z.to_nat (len c) = length c) by (unfold len; lia). rewrite HN, drop_app_length, take_app_length, IH by (cbn in HF; lia). done.
Qed.
Lemma bind_inbound_exact chunks :
  Forall (fun c => len c <= MAX_COMMAND_FRAME) chunks -> bind_inbound (concat (map outbound_framed chunks)) = (chunks, inl tt).
Proof.
  intros HC. unfold bind_inbound. rewrite <- (app_nil_r (concat _)) at 2. apply inbound_framed_exact; [done|cbn; lia|].
  clear HC. induction chunks as [|c chunks IH]; cbn -[outbound_framed]; [lia|]. rewrite length_app. unfold outbound_framed at 1.
  rewrite length_app, length_le_bytes. lia.
Qed.
(** A frame that declares more than the limit ends the relay with an error. *)
Lemma inbound_oversized n rest : MAX_COMMAND_FRAME < n < 2 ^ 32 ->
  bind_inbound (le_bytes 4 n ++ rest) = ([], inr (failure Init_FrameTooLarge (str "declared bind frame length"))).
Proof.
  intros HN. unfold bind_inbound. cbn [inbound_framed]. rewrite (proj2 (Nat.ltb_ge _ _)) by (rewrite length_app, length_le_bytes; lia).
  rewrite (take_app_length' (le_bytes 4 n)) by (by rewrite length_le_bytes).
  rewrite le_val_le_bytes_u by (split; [unfold MAX_COMMAND_FRAME in HN; lia|apply HN]). by rewrite (proj2 (Z.ltb_lt _ _)) by apply HN.
Qed.

Module GuestProcessExample.

Definition u : bytes := str "u".
Definition exit : ProcessExit + report := inl {| pe_exit_code := None; pe_signal := Some 9 |}.
Definition started (w : world) : world :=
  {| w_pm := (spawn u Stdio_Pipe Stdio_Null (fun _ => inl tt) (inl tt) (w_pm w)).2; w_waiters := w_waiters w; w_answers := w_answers w;
     w_taken := w_taken w; w_replaced := w_replaced w ++ child_of u (w_pm w); w_calls := w_calls w |}.
Definition answered (w : world) : world :=
  match w_waiters w with
  | (call, k) :: waiters => {| w_pm := w_pm w; w_waiters := waiters; w_answers := w_answers w ++ [(call, k, exit)]; w_taken := w_taken w;
                               w_replaced := w_replaced w; w_calls := w_calls w |}
  | [] => w
  end.
Definition w1 : world := Eval vm_compute in started world_new.
Definition w2 : world := Eval vm_compute in with_waiter 0 (w_pm w1) w1.
Definition w3 : world := Eval vm_compute in with_taken 0 [PipeStdout] (bind_output u Output_Stdout (w_pm w2)).2 w2.
Definition w4 : world := Eval vm_compute in with_waiter 0 (kill u (w_pm w3)).2 w3.
Definition w5 : world := Eval vm_compute in with_pm (Completion_record 0 (reaped u (Stopped (inl None) KillOk killed)) (w_pm w4)) w4.
Definition w6 : world := Eval vm_compute in answered (answered w5).
Definition w7 : world := Eval vm_compute in with_pm (close u (w_pm w6)).2 w6.
Definition w8 : world := Eval vm_compute in
  with_pm {| pm_inner := pm_inner (w_pm w7); pm_completions := pm_completions (w_pm w7); pm_stops := pm_stops (w_pm w7); pm_cancel := true |} w7.
(** One process is started, waited for, stopped, killed by its reaper and
    closed; both calls see the same end. *)
Lemma stopped_process : rtc pm_step world_new w8.
Proof.
  apply (rtc_l _ _ w1). { left. by apply (serve_spawn world_new u Stdio_Pipe Stdio_Null (fun _ => inl tt) (inl tt) (w_pm w1)). }
  apply (rtc_l _ _ w2). { left. by apply (serve_wait w1 u 0%nat). }
  apply (rtc_l _ _ w3). { left. by apply (serve_bind_output w2 u Output_Stdout PipeStdout (w_pm w3) (Build_Process u true true false 0)). }
  apply (rtc_l _ _ w4). { left. by apply (serve_kill w3 u 0%nat (w_pm w4)). }
  apply (rtc_l _ _ w5). { right. by apply (settle_stop w4 0%nat u (inl None) KillOk killed). }
  apply (rtc_l _ _ (answered w5)). { right. by apply (settle_answer w5 0%nat 0%nat 0%nat exit). }
  apply (rtc_l _ _ w6). { right. by apply (settle_answer (answered w5) 0%nat 1%nat 0%nat exit). }
  apply (rtc_l _ _ w7). { left. by apply (serve_close w6 u (w_pm w7)). }
  apply (rtc_l _ _ w8); [left; apply (serve_cancel w7)|constructor].
Qed.
(** A start that reuses an identity leaves the first process running, out of
    reach of every request. *)
Example reused_identity :
  rtc pm_step world_new (started w1) /\ w_replaced (started w1) = [0%nat] /\ stop_requested 0 (w_pm (started w1)) = false /\
  wait u (w_pm (started w1)) = inl 1%nat.
Proof.
  split; [|repeat split; vm_compute; reflexivity].
  apply (rtc_l _ _ w1). { left. by apply (serve_spawn world_new u Stdio_Pipe Stdio_Null (fun _ => inl tt) (inl tt) (w_pm w1)). }
  apply rtc_once. left. by apply (serve_spawn w1 u Stdio_Pipe Stdio_Null (fun _ => inl tt) (inl tt)).
Qed.
End GuestProcessExample.
