(* ===== verification/GuestOps.v ===== *)
(** * The guest's disks and network

    [libs/init/src/ops/disks.rs]: device names, formatting and mounting of the
    disks of the boot configuration; [ops/netlink.rs] and the bring-up in
    [ops/bring_up_net.rs]: netlink messages and their replies.

    Commands the guest runs are recorded in order; whether one succeeds may
    depend on all that ran before it.  A netlink socket is the sequence of
    datagrams it delivers. *)

From Stdlib Require Import ZArith Lia Ascii.
From stdpp Require Import base tactics option list numbers strings.
From S2P Require Import Prelude Bytes Text BootConfig Framing.

(** ** Device names *)

Definition letter (n : nat) : byte := z2b (97 + Z.of_nat (n mod 26)).
(** The loop of [scsi_device_name]; the remaining number shrinks. *)
Fixpoint scsi_letters (fuel n : nat) : bytes :=
  match fuel with
  | O => []
  | S fuel => letter n :: (if (n / 26 =? 0)%nat then [] else scsi_letters fuel (n / 26 - 1))
  end.
Definition dev_sd : bytes := str "/dev/sd".
Definition scsi_device_name (idx : nat) : bytes := dev_sd ++ scsi_letters (S idx) idx.

(** The names the kernel gives: [sda] .. [sdz], [sdaa], [sdab], .. *)
Fixpoint sd_letters (fuel n : nat) : bytes :=
  match fuel with
  | O => []
  | S fuel => (if (n / 26 =? 0)%nat then [] else sd_letters fuel (n / 26 - 1)) ++ [letter n]
  end.
Definition sd_name (idx : nat) : bytes := dev_sd ++ sd_letters (S idx) idx.

(** ** Disks *)

Record shell_command := { cmd_name : bytes; cmd_args : list bytes }.
Record MountEntry := { me_device : bytes; me_mount : bytes; me_initialize : bool }.
Definition cmd (name : string) (args : list bytes) : shell_command := {| cmd_name := str name; cmd_args := args |}.

Section Apply.
(** Whether a command succeeds after those that ran, and whether a device
    node appears in time. *)
Context (runs : list shell_command -> shell_command -> bool) (appears : bytes -> bool).

(** [run_ok] and [run_fatal]. *)
Definition run_ok (ran : list shell_command) (x : shell_command) : bool * list shell_command := (runs ran x, ran ++ [x]).
Definition run_fatal (ran : list shell_command) (x : shell_command) (on_failure : InitError) : res InitError unit * list shell_command :=
  (if runs ran x then Ok tt else Err on_failure, ran ++ [x]).

Definition attempts (device : bytes) : list shell_command :=
  [cmd "mkfs.ext4" [device]; cmd "mkfs.ext2" [device]; cmd "mke2fs" [str "-t"; str "ext2"; device];
   cmd "busybox" [str "mke2fs"; str "-t"; str "ext2"; device]; cmd "busybox" [str "mkfs.ext2"; device]].
Fixpoint ladder (ran : list shell_command) (tools : list shell_command) : bool * list shell_command :=
  match tools with
  | [] => (false, ran)
  | tool :: tools => let '(ok, ran) := run_ok ran tool in if ok then (true, ran) else ladder ran tools
  end.
Definition provision_formatter (ran : list shell_command) : bool * list shell_command :=
  let '(_, ran) := run_ok ran (cmd "apk" [str "update"]) in run_ok ran (cmd "apk" [str "add"; str "e2fsprogs"]).
Definition format_disk (ran : list shell_command) (device : bytes) : res InitError unit * list shell_command :=
  let '(ok, ran) := ladder ran (attempts device) in
  if ok then (Ok tt, ran) else
  let '(provisioned, ran) := provision_formatter ran in
  if provisioned then
    let '(ok, ran) := ladder ran (attempts device) in
    (if ok then Ok tt else Err Init_DiskFormatFailed, ran)
  else (Err Init_DiskFormatFailed, ran).

Definition mkdir_command (e : MountEntry) : shell_command := cmd "mkdir" [str "-p"; me_mount e].
Definition mount_command (e : MountEntry) : shell_command := cmd "mount" [me_device e; me_mount e].
Definition apply_disk (ran : list shell_command) (e : MountEntry) : res InitError unit * list shell_command :=
  if negb (appears (me_device e)) then (Err Init_DiskDeviceMissing, ran) else
  match run_fatal ran (mkdir_command e) Init_Io with
  | (Ok _, ran) =>
      match (if me_initialize e then format_disk ran (me_device e) else (Ok tt, ran)) with
      | (Ok _, ran) => run_fatal ran (mount_command e) Init_DiskMountFailed
      | other => other
      end
  | other => other
  end.
Fixpoint apply_disks (ran : list shell_command) (entries : list MountEntry) : res InitError unit * list shell_command :=
  match entries with
  | [] => (Ok tt, ran)
  | e :: entries => match apply_disk ran e with (Ok _, ran) => apply_disks ran entries | other => other end
  end.
Definition mount_entry (d : GuestDiskConfigV1) : MountEntry :=
  {| me_device := scsi_device_name (Z.to_nat (gd_device_index d)); me_mount := gd_mount_path d; me_initialize := gd_initialize d |}.
Definition mount_disks_with_config (disks : list GuestDiskConfigV1) : res InitError unit * list shell_command :=
  apply_disks [] (map mount_entry disks).
End Apply.

(** *** Names *)

Lemma scsi_letters_reversed fuel n : scsi_letters fuel n = reverse (sd_letters fuel n).
Proof.
  revert n. induction fuel as [|fuel IH]; intros n; cbn [scsi_letters sd_letters]; [done|]. rewrite reverse_app, reverse_singleton. cbn [app].
  f_equal. destruct (n / 26 =? 0)%nat; [done|apply IH].
Qed.
Definition letter_value (b : byte) : nat := Z.to_nat (b2z b - 97).
Fixpoint letters_value (l : bytes) : nat :=
  match l with
  | [] => 0
  | [b] => letter_value b
  | b :: l => (letter_value b + 26 * S (letters_value l))%nat
  end.
Lemma letter_value_letter n : letter_value (letter n) = (n mod 26)%nat.
Proof.
  unfold letter_value, letter. pose proof (Nat.mod_upper_bound n 26 ltac:(lia)). rewrite b2z_z2b, Z.mod_small by lia. lia.
Qed.
Lemma scsi_letters_value fuel n : (n < fuel)%nat -> letters_value (scsi_letters fuel n) = n.
Proof.
  revert n. induction fuel as [|fuel IH]; intros n HF; [lia|]. cbn [scsi_letters]. pose proof (Nat.div_mod_eq n 26).
  destruct (Nat.eqb_spec (n / 26) 0) as [E|E]; cbn [letters_value]; [rewrite letter_value_letter; lia|].
  assert (HN : (n / 26 - 1 < fuel)%nat) by lia. specialize (IH _ HN). destruct (scsi_letters fuel (n / 26 - 1)) as [|b l] eqn:EL.
  - destruct fuel; [lia|done].
  - cbn [letters_value] in IH |- *. rewrite letter_value_letter, IH. lia.
Qed.
Lemma scsi_device_name_inj i j : scsi_device_name i = scsi_device_name j -> i = j.
Proof.
  intros E. apply app_inv_head in E. rewrite <- (scsi_letters_value (S i) i), <- (scsi_letters_value (S j) j) by lia. by rewrite E.
Qed.
(** Up to index 26 the names are the kernel's. *)
Lemma scsi_device_name_kernel i : (i <= 26)%nat -> scsi_device_name i = sd_name i.
Proof. intros H. do 27 (destruct i as [|i]; [vm_compute; reflexivity|]). lia. Qed.

(** *** What runs *)

Section Traces.
Context (runs : list shell_command -> shell_command -> bool) (appears : bytes -> bool).
Implicit Types (ran : list shell_command) (e : MountEntry).

Definition provisioning : list shell_command := [cmd "apk" [str "update"]; cmd "apk" [str "add"; str "e2fsprogs"]].
(** A command about an entry. *)
Definition concerns e (x : shell_command) : Prop :=
  x = mkdir_command e \/ x = mount_command e \/ me_initialize e = true /\ (x ∈ attempts (me_device e) \/ x ∈ provisioning).
Definition is_mount (x : shell_command) : bool := bool_decide (cmd_name x = str "mount").

Lemma ladder_trace ran tools ok ran' : ladder runs ran tools = (ok, ran') -> exists xs, ran' = ran ++ xs /\ Forall (fun x => x ∈ tools) xs.
Proof.
  revert ran. induction tools as [|tool tools IH]; intros ran H; cbn in H; simplify_eq; [exists []; by rewrite app_nil_r|].
  destruct (runs ran tool); simplify_eq.
  - exists [tool]. split; [done|]. apply Forall_singleton. left.
  - destruct (IH _ H) as (xs & -> & HX). exists (tool :: xs). split; [by rewrite <- app_assoc|].
    constructor; [left|]. eapply Forall_impl; [exact HX|]. intros x Hx. by right.
Qed.
Lemma format_trace ran device r ran' : format_disk runs ran device = (r, ran') ->
  r <> Panic /\ exists xs, ran' = ran ++ xs /\ Forall (fun x => x ∈ attempts device \/ x ∈ provisioning) xs.
Proof.
  unfold format_disk, provision_formatter, run_ok. cbn [fst snd].
  destruct (ladder runs ran (attempts device)) as [ok ran1] eqn:E1. apply ladder_trace in E1 as (xs & -> & HX).
  assert (HX' : Forall (fun x => x ∈ attempts device \/ x ∈ provisioning) xs) by (eapply Forall_impl; [exact HX|by left]).
  destruct ok; [intros; simplify_eq; split; [done|]; by exists xs|].
  set (ran2 := ((ran ++ xs) ++ [cmd "apk" [str "update"]]) ++ [cmd "apk" [str "add"; str "e2fsprogs"]]).
  assert (HR : ran2 = ran ++ xs ++ provisioning) by (unfold ran2, provisioning; by rewrite <- !app_assoc).
  assert (HP : Forall (fun x => x ∈ attempts device \/ x ∈ provisioning) (xs ++ provisioning)).
  { apply Forall_app. split; [done|]. constructor; [right; left|]. constructor; [right; right; left|]. constructor. }
  destruct (runs _ _).
  - destruct (ladder runs ran2 (attempts device)) as [ok ran3] eqn:E3. apply ladder_trace in E3 as (ys & -> & HY). intros H. simplify_eq.
    split; [by destruct ok|]. exists ((xs ++ provisioning) ++ ys). split; [by rewrite HR, <- !app_assoc|]. apply Forall_app. split; [done|].
    eapply Forall_impl; [exact HY|by left].
  - intros H. simplify_eq. split; [done|]. exists (xs ++ provisioning). by rewrite HR.
Qed.
Lemma not_mount device x : x ∈ attempts device \/ x ∈ provisioning -> is_mount x = false.
Proof. intros [H|H]; repeat (apply elem_of_cons in H as [->|H]); try reflexivity; by apply elem_of_nil in H. Qed.
Lemma filter_no_mount xs device : Forall (fun x => x ∈ attempts device \/ x ∈ provisioning) xs -> List.filter is_mount xs = [].
Proof. induction 1 as [|x xs H _ IH]; cbn; [done|]. by rewrite (not_mount _ _ H). Qed.
(** One disk: its commands, and its mount last when it succeeds. *)
Lemma apply_disk_trace ran e r ran' : apply_disk runs appears ran e = (r, ran') ->
  r <> Panic /\ exists xs, ran' = ran ++ xs /\ Forall (concerns e) xs /\
    (r = Ok tt -> appears (me_device e) = true /\ List.filter is_mount xs = [mount_command e]).
Proof.
  unfold apply_disk, run_fatal. destruct (appears (me_device e)); cbn [negb].
  2: { intros H. simplify_eq. split; [done|]. exists []. by rewrite app_nil_r. }
  destruct (runs ran (mkdir_command e)).
  2: { intros H. simplify_eq. split; [done|]. exists [mkdir_command e]. split; [done|]. split; [apply Forall_singleton; by left|done]. }
  assert (HF : exists r1 xs, (if me_initialize e then format_disk runs (ran ++ [mkdir_command e]) (me_device e) else (Ok tt, ran ++ [mkdir_command e]))
              = (r1, (ran ++ [mkdir_command e]) ++ xs) /\ r1 <> Panic /\ Forall (concerns e) xs /\ List.filter is_mount xs = []).
  { destruct (me_initialize e) eqn:EI; [|exists (Ok tt), []; by rewrite app_nil_r].
    destruct (format_disk _ _ _) as [r1 ran1] eqn:EF. apply format_trace in EF as (HP & xs & -> & HX). exists r1, xs. split; [done|]. split; [done|].
    split; [|by eapply filter_no_mount]. eapply Forall_impl; [exact HX|]. intros x Hx. right. right. done. }
  destruct HF as (r1 & xs & -> & HP & HX & HM). destruct r1 as [[]|err|]; [| |done].
  - intros H. simplify_eq. split; [by destruct (runs _ _)|]. exists ([mkdir_command e] ++ xs ++ [mount_command e]).
    split; [by rewrite <- !app_assoc|]. split.
    + apply Forall_app. split; [apply Forall_singleton; by left|]. apply Forall_app. split; [done|]. apply Forall_singleton. by right; left.
    + intros _. split; [done|]. rewrite !List.filter_app, HM. done.
  - intros H. simplify_eq. split; [done|]. exists ([mkdir_command e] ++ xs). split; [by rewrite <- app_assoc|].
    split; [|done]. apply Forall_app. split; [apply Forall_singleton; by left|done].
Qed.
Lemma apply_disks_trace ran entries r ran' : apply_disks runs appears ran entries = (r, ran') ->
  r <> Panic /\ exists xs, ran' = ran ++ xs /\ Forall (fun x => exists e, e ∈ entries /\ concerns e x) xs /\
    (r = Ok tt -> Forall (fun e => appears (me_device e) = true) entries /\ List.filter is_mount xs = map mount_command entries).
Proof.
  revert ran. induction entries as [|e entries IH]; intros ran H; cbn in H.
  { simplify_eq. split; [done|]. exists []. rewrite app_nil_r. split; [done|]. split; [constructor|]. intros _. by split; [constructor|]. }
  destruct (apply_disk runs appears ran e) as [r1 ran1] eqn:E1. apply apply_disk_trace in E1 as (HP & xs & -> & HX & HM).
  assert (HX' : Forall (fun x => exists e', e' ∈ e :: entries /\ concerns e' x) xs).
  { eapply Forall_impl; [exact HX|]. intros x Hx. exists e. split; [left|done]. }
  destruct r1 as [[]|err|]; [| |done].
  - destruct (IH _ H) as (HP' & ys & -> & HY & HM'). split; [done|]. exists (xs ++ ys). split; [by rewrite app_assoc|]. split.
    + apply Forall_app. split; [done|]. eapply Forall_impl; [exact HY|]. intros x (e' & ? & ?). exists e'. split; [by right|done].
    + intros ->. destruct (HM eq_refl) as [? HM1], (HM' eq_refl) as [? HM2]. split; [by constructor|]. rewrite List.filter_app, HM1, HM2. done.
  - simplify_eq. split; [done|]. exists xs. split; [done|]. by split.
Qed.
(** A formatting attempt names its device. *)
Lemma attempts_device device device' x : x ∈ attempts device -> x ∈ attempts device' -> device = device'.
Proof.
  assert (HL : forall d y, y ∈ attempts d -> last (cmd_args y) = Some d).
  { intros d y H. repeat (apply elem_of_cons in H as [->|H]); try reflexivity. by apply elem_of_nil in H. }
  intros H1%HL H2%HL. congruence.
Qed.
Lemma concerns_attempts e x device : concerns e x -> x ∈ attempts device -> me_initialize e = true /\ me_device e = device.
Proof.
  intros [->|[->|[HI [H|H]]]] HA.
  - repeat (apply elem_of_cons in HA as [HA|HA]; [by inv HA|]). by apply elem_of_nil in HA.
  - repeat (apply elem_of_cons in HA as [HA|HA]; [by inv HA|]). by apply elem_of_nil in HA.
  - split; [done|]. by eapply attempts_device.
  - repeat (apply elem_of_cons in H as [->|H]; [repeat (apply elem_of_cons in HA as [HA|HA]; [by inv HA|]); by apply elem_of_nil in HA|]).
    by apply elem_of_nil in H.
Qed.
End Traces.

(** C18: Mounting the configured disks formats only disks marked for
    initialisation.  Whatever commands fail, for disks with distinct indexes up
    to 26 no formatting tool is ever run on the kernel's device of a disk that
    existed before; the guest succeeds only when every device appeared and
    every disk was mounted, in order, at its path; and it never panics. *)
Theorem existing_disks_never_formatted runs appears (disks : list GuestDiskConfigV1) r ran :
  NoDup (map gd_device_index disks) -> Forall (fun d => 0 <= gd_device_index d <= 26) disks ->
  mount_disks_with_config runs appears disks = (r, ran) ->
  r <> Panic /\
  (forall d x, d ∈ disks -> gd_initialize d = false -> x ∈ ran -> x ∉ attempts (sd_name (Z.to_nat (gd_device_index d)))) /\
  (r = Ok tt ->
     Forall (fun d => appears (sd_name (Z.to_nat (gd_device_index d))) = true) disks /\
     List.filter is_mount ran = map (fun d => cmd "mount" [sd_name (Z.to_nat (gd_device_index d)); gd_mount_path d]) disks).
Proof.
  intros HN HI H. apply apply_disks_trace in H as (HP & xs & -> & HX & HM).
  assert (HK : forall d, d ∈ disks -> scsi_device_name (Z.to_nat (gd_device_index d)) = sd_name (Z.to_nat (gd_device_index d))).
  { intros d Hd. apply scsi_device_name_kernel. rewrite Forall_forall in HI. specialize (HI d Hd). cbn in HI. lia. }
  split; [done|]. cbn [app] in *. split.
  - intros d x Hd HF Hx HA. rewrite <- HK in HA by done. rewrite Forall_forall in HX. destruct (HX x Hx) as (e & He & HC).
    apply list_elem_of_fmap in He as (d' & -> & Hd'). destruct (concerns_attempts _ _ _ HC HA) as [HI' HD]. cbn [me_initialize me_device mount_entry] in HI', HD.
    apply scsi_device_name_inj in HD. rewrite Forall_forall in HI. pose proof (HI d Hd) as H1. pose proof (HI d' Hd') as H2. cbn in H1, H2.
    assert (HE : gd_device_index d' = gd_device_index d) by lia.
    assert (d' = d) as ->; [|congruence]. apply list_elem_of_lookup in Hd as (i & Hi), Hd' as (j & Hj).
    assert (i = j) as <-; [|congruence]. eapply (NoDup_lookup _ i j (gd_device_index d) HN); rewrite list_lookup_fmap; [by rewrite Hi|by rewrite Hj; cbn; congruence].
  - intros ->. destruct (HM eq_refl) as [HA HM']. split.
    + apply Forall_forall. intros d Hd. rewrite <- HK by done. rewrite Forall_forall in HA. apply (HA (mount_entry d)). by apply list_elem_of_fmap_2.
    + rewrite HM', map_map. apply map_ext_in. intros d Hd. apply list_elem_of_In in Hd. unfold mount_command. cbn [me_device me_mount mount_entry]. by rewrite HK.
Qed.

(** ** Netlink *)

Definition NLM_F_REQUEST : Z := 1.
Definition NLM_F_ACK : Z := 4.
Definition NLM_F_EXCL : Z := 0x200.
Definition NLM_F_CREATE : Z := 0x400.
Definition NLMSG_ERROR : Z := 2.
Definition NLMSG_DONE : Z := 3.
Definition RTM_NEWLINK : Z := 16.
Definition RTM_NEWADDR : Z := 20.
Definition RTM_GETADDR : Z := 22.
Definition RTM_NEWROUTE : Z := 24.
Definition RTM_GETROUTE : Z := 26.
Definition IFF_UP : Z := 1.
Definition IFA_ADDRESS : Z := 1.
Definition IFA_LOCAL : Z := 2.
Definition IFLA_IFNAME : Z := 3.
Definition RTA_DST : Z := 1.
Definition RTA_OIF : Z := 4.
Definition RTA_GATEWAY : Z := 5.
Definition RT_TABLE_MAIN : Z := 254.
Definition AF_INET : Z := 2.
Definition EEXIST : Z := 17.
Definition NLMSG_HDRLEN : Z := 16.
Definition IFADDRMSG_LEN : Z := 8.
Definition RTMSG_LEN : Z := 12.
Definition ATTR_HDRLEN : Z := 4.
Definition MAX_MSG : nat := 4096.

Definition nlmsg_align (n : Z) : Z := Z.land (n + 3) (Z.lnot 3).
Definition build_message (msg_type flags seq : Z) (payload : bytes) : bytes :=
  le_bytes 4 (NLMSG_HDRLEN + len payload) ++ le_bytes 2 msg_type ++ le_bytes 2 flags ++ le_bytes 4 seq ++ le_bytes 4 0 ++ payload.
Definition push_attr (payload : bytes) (attr : Z * bytes) : bytes :=
  let p := payload ++ le_bytes 2 (ATTR_HDRLEN + len attr.2) ++ le_bytes 2 attr.1 ++ attr.2 in
  p ++ repeat (z2b 0) (Z.to_nat (nlmsg_align (len p) - len p)).
Definition ifinfomsg (ifindex flags change : Z) : bytes :=
  [z2b AF_INET; z2b 0] ++ le_bytes 2 0 ++ le_bytes 4 ifindex ++ le_bytes 4 flags ++ le_bytes 4 change.
Definition ifaddrmsg (ifindex prefix_len : Z) : bytes := [z2b AF_INET; z2b prefix_len; z2b 0; z2b 0] ++ le_bytes 4 ifindex.
Definition rtmsg : bytes :=
  [z2b AF_INET; z2b 0; z2b 0; z2b 0; z2b RT_TABLE_MAIN; z2b 0; z2b 0; z2b 1] ++ le_bytes 4 0.

(** [buffer\[i..j\]]. *)
Definition slice (buffer : bytes) (i j : Z) : res InitError bytes :=
  if (0 <=? i) && (i <=? j) && (j <=? len buffer) then Ok (take (Z.to_nat (j - i)) (drop (Z.to_nat i) buffer)) else Panic.
(** A datagram overwrites the start of the buffer. *)
Definition recv (buffer datagram : bytes) : Z * bytes :=
  let d := take MAX_MSG datagram in (len d, d ++ drop (length d) buffer).
Record header := { h_type : Z; h_seq : Z; h_len : Z; h_received : Z }.
Definition read_message (buffer : bytes) (received : option bytes) : res InitError (header * bytes) :=
  match received with
  | None => Err Init_NetworkConfig
  | Some datagram =>
      let '(n, buffer) := recv buffer datagram in
      _ ← fail_if (n <? NLMSG_HDRLEN) Init_NetworkConfig;
      msg_type ← slice buffer 4 6;
      seq ← slice buffer 8 12;
      length ← slice buffer 0 4;
      Ok ({| h_type := le_val msg_type; h_seq := le_val seq; h_len := le_val length; h_received := n |}, buffer)
  end.
(** An [i32] read from four bytes, and [unsigned_abs() as i32]. *)
Definition i32_of (b : bytes) : Z := let v := le_val b in if v <? 2 ^ 31 then v else v - 2 ^ 32.
Definition unsigned_abs_i32 (v : Z) : Z := if Z.abs v =? 2 ^ 31 then - 2 ^ 31 else Z.abs v.

(** The datagrams still to come; [None] as a result when the call blocks. *)
Fixpoint await_ack (seq : Z) (buffer : bytes) (datagrams : list (option bytes)) : option (res InitError (option Z) * list (option bytes)) :=
  match datagrams with
  | [] => None
  | d :: rest =>
      match read_message buffer d with
      | Err e => Some (Err e, rest)
      | Panic => Some (Panic, rest)
      | Ok (h, buffer) =>
          if negb (h_seq h =? seq) then await_ack seq buffer rest
          else if h_type h =? NLMSG_ERROR then
            Some (_ ← fail_if (h_received h <? NLMSG_HDRLEN + 4) Init_NetworkConfig;
                  raw ← slice buffer NLMSG_HDRLEN (NLMSG_HDRLEN + 4);
                  Ok (Some (if i32_of raw =? 0 then 0 else unsigned_abs_i32 (i32_of raw))), rest)
          else if h_type h =? NLMSG_DONE then Some (Ok None, rest)
          else await_ack seq buffer rest
      end
  end.
(** The attributes the loops over a reply visit. *)
Fixpoint attributes (fuel : nat) (buffer : bytes) (offset finish : Z) : res InitError (list (Z * bytes)) :=
  match fuel with
  | O => Ok []
  | S fuel =>
      if finish <? offset + ATTR_HDRLEN then Ok [] else
      attr_len ← slice buffer offset (offset + 2);
      attr_type ← slice buffer (offset + 2) (offset + 4);
      let n := le_val attr_len in
      if (n <? ATTR_HDRLEN) || (finish <? offset + n) then Ok [] else
      value ← slice buffer (offset + ATTR_HDRLEN) (offset + n);
      rest ← attributes fuel buffer (offset + nlmsg_align n) finish;
      Ok ((le_val attr_type, value) :: rest)
  end.
Definition reply_attributes (h : header) (buffer : bytes) (fixed : Z) : res InitError (list (Z * bytes)) :=
  let finish := Z.min (h_received h) (h_len h) in attributes (S (Z.to_nat finish)) buffer (NLMSG_HDRLEN + fixed) finish.
Definition names_address (ip : bytes) (a : Z * bytes) : bool :=
  ((a.1 =? IFA_LOCAL) || (a.1 =? IFA_ADDRESS)) && (4 <=? len a.2) && bool_decide (take 4 a.2 = ip).
Definition is_default_route (gateway : bytes) (attrs : list (Z * bytes)) : bool :=
  negb (existsb (fun a => a.1 =? RTA_DST) attrs)
  && existsb (fun a => (a.1 =? RTA_GATEWAY) && (4 <=? len a.2) && bool_decide (take 4 a.2 = gateway)) attrs
  && existsb (fun a => a.1 =? RTA_OIF) attrs.
(** Both verification loops: [accepts] decides on a reply's attributes. *)
Fixpoint effective_matches (fixed : Z) (accepts : list (Z * bytes) -> bool) (seq : Z) (buffer : bytes) (datagrams : list (option bytes))
    : option (res InitError bool) :=
  match datagrams with
  | [] => None
  | d :: rest =>
      match read_message buffer d with
      | Err _ => Some (Ok false)
      | Panic => Some Panic
      | Ok (h, buffer) =>
          if (h_type h =? NLMSG_ERROR) || (h_type h =? NLMSG_DONE) then Some (Ok false)
          else if negb (h_seq h =? seq) then effective_matches fixed accepts seq buffer rest
          else match reply_attributes h buffer fixed with
               | Ok attrs => if accepts attrs then Some (Ok true) else effective_matches fixed accepts seq buffer rest
               | Err e => Some (Err e)
               | Panic => Some Panic
               end
      end
  end.
Definition zero_buffer : bytes := repeat (z2b 0) MAX_MSG.
#[global] Arguments zero_buffer : simpl never.
Definition effective_address_matches (sent : bool) (seq : Z) (ip : bytes) (datagrams : list (option bytes)) : option (res InitError bool) :=
  if sent then effective_matches IFADDRMSG_LEN (existsb (names_address ip)) seq zero_buffer datagrams else Some (Ok false).
Definition effective_default_route_matches (sent : bool) (seq : Z) (gateway : bytes) (datagrams : list (option bytes)) : option (res InitError bool) :=
  if sent then effective_matches RTMSG_LEN (is_default_route gateway) seq zero_buffer datagrams else Some (Ok false).

(** The three requests.  [socket] and [ifindex] are the system's answers;
    [sends] says whether the n-th send succeeds.  A request yields the messages
    it tried to send and its result, [None] while it blocks. *)
Definition request_result : Type := list bytes * option (res InitError unit).
Section Requests.
Context (socket : res InitError unit) (ifindex : res InitError Z) (sends : nat -> bool) (datagrams : list (option bytes)).

(** [RouteSocket::open], [ifindex_of], the send and its acknowledgement. *)
Definition requested (request : Z -> bytes) (seq : Z) (settled : Z -> option Z -> list (option bytes) -> request_result) : request_result :=
  match socket, ifindex with
  | Ok _, Ok index =>
      if sends 0%nat then
        match await_ack seq zero_buffer datagrams with
        | None => ([request index], None)
        | Some (Ok outcome, rest) => let '(queries, result) := settled index outcome rest in (request index :: queries, result)
        | Some (Err e, _) => ([request index], Some (Err e))
        | Some (Panic, _) => ([request index], Some Panic)
        end
      else ([request index], Some (Err Init_NetworkConfig))
  | Ok _, Err e => ([], Some (Err e))
  | Err e, _ => ([], Some (Err e))
  | _, _ => ([], Some Panic)
  end.
Definition settled_by (query : Z -> bytes) (verify : list (option bytes) -> option (res InitError bool)) (index : Z) (outcome : option Z)
    (rest : list (option bytes)) : request_result :=
  match outcome with
  | None => ([], Some (Ok tt))
  | Some errno =>
      if errno =? 0 then ([], Some (Ok tt))
      else if errno =? EEXIST then
        ([query index],
         match verify rest with
         | None => None
         | Some (Ok matches) => Some (if matches then Ok tt else Err Init_NetworkConfig)
         | Some (Err e) => Some (Err e)
         | Some Panic => Some Panic
         end)
      else ([], Some (Err Init_NetworkConfig))
  end.
Definition create_flags : Z := Z.lor (Z.lor (Z.lor NLM_F_REQUEST NLM_F_ACK) NLM_F_CREATE) NLM_F_EXCL.

Definition link_up (name : bytes) : request_result :=
  requested (fun index => build_message RTM_NEWLINK (Z.lor NLM_F_REQUEST NLM_F_ACK) 1 (push_attr (ifinfomsg index IFF_UP IFF_UP) (IFLA_IFNAME, name))) 1
    (fun _ outcome _ => ([], Some (match outcome with Some errno => if errno =? 0 then Ok tt else Err Init_NetworkConfig | None => Ok tt end))).
Definition assign_address (ip : bytes) (prefix_len : Z) : request_result :=
  requested (fun index => build_message RTM_NEWADDR create_flags 2 (push_attr (push_attr (ifaddrmsg index prefix_len) (IFA_LOCAL, ip)) (IFA_ADDRESS, ip))) 2
    (settled_by (fun index => build_message RTM_GETADDR NLM_F_REQUEST 3 (ifaddrmsg index 0)) (effective_address_matches (sends 1%nat) 3 ip)).
Definition set_default_route (gateway : bytes) : request_result :=
  requested (fun index => build_message RTM_NEWROUTE create_flags 4 (push_attr (push_attr rtmsg (RTA_GATEWAY, gateway)) (RTA_OIF, le_bytes 4 index))) 4
    (settled_by (fun _ => build_message RTM_GETROUTE NLM_F_REQUEST 5 rtmsg) (effective_default_route_matches (sends 1%nat) 5 gateway)).
End Requests.

(** *** No reply makes the guest panic *)

Lemma slice_ok buffer i j : 0 <= i <= j -> j <= len buffer -> slice buffer i j = Ok (take (Z.to_nat (j - i)) (drop (Z.to_nat i) buffer)).
Proof. intros H1 H2. unfold slice. destruct (Z.leb_spec 0 i), (Z.leb_spec i j), (Z.leb_spec j (len buffer)); try lia. done. Qed.
Lemma recv_length buffer datagram : length buffer = MAX_MSG ->
  let '(n, buffer') := recv buffer datagram in 0 <= n <= 4096 /\ length buffer' = MAX_MSG.
Proof.
  intros H. unfold recv. assert (HT : (length (take MAX_MSG datagram) <= MAX_MSG)%nat) by (rewrite length_take; lia). unfold len.
  split; [unfold MAX_MSG in *; lia|]. rewrite length_app, length_drop, H. lia.
Qed.
Lemma read_message_ok buffer received : length buffer = MAX_MSG ->
  match read_message buffer received with
  | Ok (h, buffer') => length buffer' = MAX_MSG /\ 16 <= h_received h <= 4096
  | Err _ => True
  | Panic => False
  end.
Proof.
  intros H. unfold read_message. destruct received as [d|]; [|done]. pose proof (recv_length buffer d H) as HR.
  destruct (recv buffer d) as [n buffer']. destruct HR as [HN HL]. unfold NLMSG_HDRLEN. destruct (Z.ltb_spec n 16); cbn [fail_if mbind res_bind]; [done|].
  assert (HB : len buffer' = 4096) by (unfold len; rewrite HL; done).
  rewrite !slice_ok by (rewrite ?HB; lia). cbn. split; [done|lia].
Qed.
Lemma align_lower n : n <= nlmsg_align n.
Proof.
  unfold nlmsg_align. rewrite <- (Z.ldiff_land (n + 3) 3). change 3 with (Z.ones 2) at 2. rewrite Z.ldiff_ones_r by lia.
  rewrite Z.shiftr_div_pow2, Z.shiftl_mul_pow2 by lia. pose proof (Z.div_mod (n + 3) (2 ^ 2) ltac:(lia)).
  pose proof (Z.mod_pos_bound (n + 3) (2 ^ 2) ltac:(lia)). lia.
Qed.
Lemma attributes_ok fuel buffer offset finish : len buffer = 4096 -> 0 <= offset -> finish <= 4096 ->
  exists attrs, attributes fuel buffer offset finish = Ok attrs.
Proof.
  intros HB. revert offset. induction fuel as [|fuel IH]; intros offset HO HF; cbn [attributes]; [eauto|]. unfold ATTR_HDRLEN.
  destruct (Z.ltb_spec finish (offset + 4)); [eauto|]. rewrite !slice_ok by lia. cbn [mbind res_bind].
  set (n := le_val _). destruct (Z.ltb_spec n 4); cbn [orb]; [eauto|]. destruct (Z.ltb_spec finish (offset + n)); [eauto|].
  rewrite slice_ok by lia. cbn [mbind res_bind]. destruct (IH (offset + nlmsg_align n)) as [attrs ->]; [pose proof (align_lower n); lia|lia|].
  cbn. eauto.
Qed.
Lemma reply_attributes_ok h buffer fixed : length buffer = MAX_MSG -> 16 <= h_received h <= 4096 -> 0 <= fixed ->
  exists attrs, reply_attributes h buffer fixed = Ok attrs.
Proof. intros HL HR HF. apply attributes_ok; [unfold len; by rewrite HL|unfold NLMSG_HDRLEN; lia|lia]. Qed.
Lemma await_ack_total seq datagrams buffer r rest : length buffer = MAX_MSG -> await_ack seq buffer datagrams = Some (r, rest) -> r <> Panic.
Proof.
  revert buffer. induction datagrams as [|d datagrams IH]; intros buffer HL H; cbn [await_ack] in H; [done|].
  pose proof (read_message_ok buffer d HL) as HR. destruct (read_message buffer d) as [[h buffer']|e|]; [|by simplify_eq|done].
  destruct HR as [HL' HN]. destruct (negb _); [by eapply IH|]. destruct (h_type h =? NLMSG_ERROR).
  - simplify_eq. unfold NLMSG_HDRLEN in *. destruct (Z.ltb_spec (h_received h) (16 + 4)); cbn [fail_if mbind res_bind]; [done|].
    rewrite slice_ok; [done|lia|unfold len; rewrite HL'; unfold MAX_MSG; lia].
  - destruct (h_type h =? NLMSG_DONE); [by simplify_eq|by eapply IH].
Qed.
Lemma effective_matches_total fixed accepts seq datagrams buffer r : 0 <= fixed -> length buffer = MAX_MSG ->
  effective_matches fixed accepts seq buffer datagrams = Some r -> exists b, r = Ok b.
Proof.
  intros HF. revert buffer. induction datagrams as [|d datagrams IH]; intros buffer HL H; cbn [effective_matches] in H; [done|].
  pose proof (read_message_ok buffer d HL) as HR. destruct (read_message buffer d) as [[h buffer']|e|]; [|simplify_eq; eauto|done].
  destruct HR as [HL' HN]. destruct (_ || _); [simplify_eq; eauto|]. destruct (negb _); [by eapply IH|].
  destruct (reply_attributes_ok h buffer' fixed HL' HN HF) as [attrs E]. rewrite E in H.
  destruct (accepts attrs); [simplify_eq; eauto|by eapply IH].
Qed.

(** *** Attributes round trip *)

Definition attr_ok (a : Z * bytes) : Prop := in_u 16 a.1 /\ len a.2 <= 65531.
Definition encoded_attr (a : Z * bytes) : bytes :=
  le_bytes 2 (ATTR_HDRLEN + len a.2) ++ le_bytes 2 a.1 ++ a.2
    ++ repeat (z2b 0) (Z.to_nat (nlmsg_align (ATTR_HDRLEN + len a.2) - (ATTR_HDRLEN + len a.2))).
Lemma align_exact n : nlmsg_align n = (n + 3) / 4 * 4.
Proof.
  unfold nlmsg_align. rewrite <- (Z.ldiff_land (n + 3) 3). change 3 with (Z.ones 2) at 2. rewrite Z.ldiff_ones_r by lia.
  by rewrite Z.shiftr_div_pow2, Z.shiftl_mul_pow2 by lia.
Qed.
Lemma align_add a n : a mod 4 = 0 -> nlmsg_align (a + n) = a + nlmsg_align n.
Proof.
  intros H. rewrite !align_exact. apply Z.mod_divide in H as [k ->]; [|lia]. replace (k * 4 + n + 3) with (n + 3 + k * 4) by lia.
  rewrite Z.div_add by lia. lia.
Qed.
Lemma align_mod n : nlmsg_align n mod 4 = 0.
Proof. rewrite align_exact. apply Z.mod_mul. lia. Qed.
Lemma len_repeat {A} (x : A) n : len (repeat x n) = Z.of_nat n.
Proof. unfold len. by rewrite repeat_length. Qed.
Lemma len_encoded_attr a : len (encoded_attr a) = nlmsg_align (ATTR_HDRLEN + len a.2).
Proof.
  unfold encoded_attr. rewrite !len_app, !len_le_bytes, len_repeat. pose proof (align_lower (ATTR_HDRLEN + len a.2)). unfold ATTR_HDRLEN in *. lia.
Qed.
Lemma push_attr_encoded payload a : len payload mod 4 = 0 -> push_attr payload a = payload ++ encoded_attr a.
Proof.
  intros H. unfold push_attr, encoded_attr. rewrite <- !app_assoc. do 4 f_equal. f_equal. rewrite !len_app, !len_le_bytes.
  replace (len payload + (Z.of_nat 2 + (Z.of_nat 2 + len a.2))) with (len payload + (ATTR_HDRLEN + len a.2)) by (unfold ATTR_HDRLEN; lia).
  rewrite align_add by done. f_equal. lia.
Qed.
Lemma push_attrs_encoded attrs payload : len payload mod 4 = 0 -> foldl push_attr payload attrs = payload ++ concat (map encoded_attr attrs).
Proof.
  revert payload. induction attrs as [|a attrs IH]; intros payload H; cbn [foldl map concat]; [by rewrite app_nil_r|].
  rewrite push_attr_encoded, IH by (rewrite ?len_app, ?len_encoded_attr; try done; rewrite Z.add_mod, H, align_mod by lia; done).
  by rewrite <- app_assoc.
Qed.
Lemma slice_middle pre x post i j : i = len pre -> j = len pre + len x -> slice (pre ++ x ++ post) i j = Ok x.
Proof.
  intros -> ->. pose proof (len_nonneg pre). pose proof (len_nonneg x). pose proof (len_nonneg post).
  rewrite slice_ok by (rewrite ?len_app; lia). f_equal. replace (Z.to_nat (len pre)) with (length pre) by (unfold len; lia).
  rewrite drop_app_length. replace (Z.to_nat (len pre + len x - len pre)) with (length x) by (unfold len; lia). by rewrite take_app_length.
Qed.
Lemma attributes_encoded attrs pre post fuel : Forall attr_ok attrs -> (length attrs < fuel)%nat ->
  attributes fuel (pre ++ concat (map encoded_attr attrs) ++ post) (len pre) (len pre + len (concat (map encoded_attr attrs))) = Ok attrs.
Proof.
  intros HA. revert pre fuel. induction HA as [|[ty v] attrs [HT HV] _ IH]; intros pre fuel HF; (destruct fuel as [|fuel]; [lia|]); cbn [attributes map concat].
  { unfold ATTR_HDRLEN. rewrite len_nil, Z.add_0_r, (proj2 (Z.ltb_lt _ _)) by lia. done. }
  set (rest := concat (map encoded_attr attrs)) in *. cbn in HT, HV. pose proof (len_nonneg v) as HV0. pose proof (len_nonneg rest).
  pose proof (align_lower (4 + len v)) as HL.
  rewrite (proj2 (Z.ltb_ge _ _)) by (rewrite len_app, len_encoded_attr; unfold ATTR_HDRLEN; cbn; lia).
  set (pad := repeat (z2b 0) (Z.to_nat (nlmsg_align (4 + len v) - (4 + len v)))).
  assert (HE : encoded_attr (ty, v) = le_bytes 2 (4 + len v) ++ le_bytes 2 ty ++ v ++ pad) by done.
  assert (H1 : slice (pre ++ (encoded_attr (ty, v) ++ rest) ++ post) (len pre) (len pre + 2) = Ok (le_bytes 2 (4 + len v))).
  { rewrite HE, <- !app_assoc. apply slice_middle; [done|]. by rewrite len_le_bytes. }
  assert (H2 : slice (pre ++ (encoded_attr (ty, v) ++ rest) ++ post) (len pre + 2) (len pre + 4) = Ok (le_bytes 2 ty)).
  { rewrite HE, <- !app_assoc. rewrite (app_assoc pre). apply slice_middle; rewrite len_app, !len_le_bytes; lia. }
  assert (H3 : slice (pre ++ (encoded_attr (ty, v) ++ rest) ++ post) (len pre + 4) (len pre + (4 + len v)) = Ok v).
  { rewrite HE, <- !app_assoc. rewrite (app_assoc (le_bytes 2 (4 + len v))), (app_assoc pre). apply slice_middle; rewrite !len_app, !len_le_bytes; lia. }
  rewrite H1, H2. cbn [mbind res_bind]. rewrite !le_val_le_bytes_u by (first [exact HT|split; [lia|change (2 ^ (8 * Z.of_nat 2)) with 65536; lia]]).
  unfold ATTR_HDRLEN. rewrite (proj2 (Z.ltb_ge (4 + len v) 4)) by lia.
  rewrite (proj2 (Z.ltb_ge _ (len pre + (4 + len v)))) by (rewrite len_app, len_encoded_attr; unfold ATTR_HDRLEN; cbn; lia). cbn [orb].
  rewrite H3. cbn [mbind res_bind].
  replace (pre ++ (encoded_attr (ty, v) ++ rest) ++ post) with ((pre ++ encoded_attr (ty, v)) ++ rest ++ post) by (by rewrite <- !app_assoc).
  replace (len pre + nlmsg_align (4 + len v)) with (len (pre ++ encoded_attr (ty, v))) by (rewrite len_app, len_encoded_attr; done).
  replace (len pre + len (encoded_attr (ty, v) ++ rest)) with (len (pre ++ encoded_attr (ty, v)) + len rest) by (rewrite !len_app; lia).
  rewrite IH by (cbn in HF; lia). done.
Qed.

(** A message the size of the buffer or less is read as it was built. *)
Lemma read_built msg_type flags seq payload buffer :
  in_u 16 msg_type -> in_u 32 seq -> NLMSG_HDRLEN + len payload <= 4096 ->
  let m := build_message msg_type flags seq payload in
  read_message buffer (Some m) =
  Ok ({| h_type := msg_type; h_seq := seq; h_len := NLMSG_HDRLEN + len payload; h_received := NLMSG_HDRLEN + len payload |}, m ++ drop (length m) buffer).
Proof.
  intros HT HS HL m. pose proof (len_nonneg payload) as HP. unfold NLMSG_HDRLEN in *.
  assert (HM : len m = 16 + len payload) by (unfold m, build_message; rewrite !len_app, !len_le_bytes; lia).
  unfold read_message, recv. rewrite take_ge by (unfold len, MAX_MSG in *; lia). rewrite HM, (proj2 (Z.ltb_ge _ _)) by (unfold NLMSG_HDRLEN; lia).
  cbn [fail_if mbind res_bind]. set (post := drop (length m) buffer). unfold m, build_message. rewrite <- !app_assoc.
  assert (H0 : forall x, slice (le_bytes 4 (NLMSG_HDRLEN + len payload) ++ x) 0 4 = Ok (le_bytes 4 (NLMSG_HDRLEN + len payload))).
  { intros x. apply (slice_middle []); by rewrite ?len_le_bytes. }
  assert (H1 : forall x, slice (le_bytes 4 (NLMSG_HDRLEN + len payload) ++ le_bytes 2 msg_type ++ x) 4 6 = Ok (le_bytes 2 msg_type)).
  { intros x. apply slice_middle; by rewrite !len_le_bytes. }
  assert (H2 : forall x, slice (le_bytes 4 (NLMSG_HDRLEN + len payload) ++ le_bytes 2 msg_type ++ le_bytes 2 flags ++ le_bytes 4 seq ++ x) 8 12 = Ok (le_bytes 4 seq)).
  { intros x. rewrite (app_assoc (le_bytes 2 msg_type)), (app_assoc (le_bytes 4 (NLMSG_HDRLEN + len payload))).
    apply slice_middle; rewrite !len_app, !len_le_bytes; done. }
  rewrite H1. cbn [mbind res_bind]. rewrite H2. cbn [mbind res_bind]. rewrite H0. cbn [mbind res_bind]. rewrite !le_val_le_bytes_u; [done|..]; try done.
  unfold NLMSG_HDRLEN. split; [lia|]. change (2 ^ (8 * Z.of_nat 4)) with 4294967296. lia.
Qed.
(** The verification loops see exactly the attributes of a reply. *)
Lemma effective_matches_built fixed accepts seq buffer rest msg_type flags head attrs :
  in_u 16 msg_type -> in_u 32 seq -> msg_type <> NLMSG_ERROR -> msg_type <> NLMSG_DONE ->
  len head = fixed -> fixed mod 4 = 0 -> Forall attr_ok attrs ->
  let m := build_message msg_type flags seq (foldl push_attr head attrs) in
  len m <= 4096 ->
  effective_matches fixed accepts seq buffer (Some m :: rest) =
  if accepts attrs then Some (Ok true) else effective_matches fixed accepts seq (m ++ drop (length m) buffer) rest.
Proof.
  intros HT HS HE HD HF HM HA. rewrite push_attrs_encoded by (by rewrite HF). intros m HL. pose proof (len_nonneg head).
  set (body := concat (map encoded_attr attrs)) in *. pose proof (len_nonneg body).
  assert (HL' : NLMSG_HDRLEN + len (head ++ body) <= 4096).
  { unfold m, build_message in HL. rewrite !len_app, !len_le_bytes in HL. rewrite len_app. unfold NLMSG_HDRLEN. lia. }
  cbn [effective_matches]. unfold m at 1. rewrite (read_built _ _ _ _ _ HT HS HL'). fold m. cbn [h_type h_seq].
  rewrite (proj2 (Z.eqb_neq _ _) HE), (proj2 (Z.eqb_neq _ _) HD), Z.eqb_refl. cbn [orb negb].
  unfold reply_attributes. cbn [h_received h_len]. rewrite Z.min_id.
  set (post := drop (length m) buffer). set (pre := le_bytes 4 (NLMSG_HDRLEN + len (head ++ body)) ++ le_bytes 2 msg_type ++ le_bytes 2 flags ++ le_bytes 4 seq ++ le_bytes 4 0 ++ head).
  assert (HP : len pre = NLMSG_HDRLEN + fixed) by (unfold pre; rewrite !len_app, !len_le_bytes, HF; unfold NLMSG_HDRLEN; lia).
  replace (m ++ post) with (pre ++ body ++ post) by (unfold m, pre, build_message; by rewrite <- !app_assoc).
  replace (NLMSG_HDRLEN + len (head ++ body)) with (len pre + len body) by (rewrite len_app, HP, HF; lia). rewrite <- HP.
  unfold body. rewrite attributes_encoded; [done|done|].
  assert (HC : (length attrs <= length (concat (map encoded_attr attrs)))%nat).
  { clear. induction attrs as [|a attrs IH]; cbn [map concat length]; [lia|]. rewrite length_app. pose proof (len_encoded_attr a) as HE.
    pose proof (align_lower (ATTR_HDRLEN + len a.2)). pose proof (len_nonneg a.2). unfold ATTR_HDRLEN, len in *. lia. }
  fold body in HC |- *. pose proof (len_nonneg pre). unfold len in *. lia.
Qed.

Lemma zero_buffer_length : length zero_buffer = MAX_MSG.
Proof. apply repeat_length. Qed.
Lemma requested_total socket ifindex sends datagrams request seq settled r :
  socket <> Panic -> ifindex <> Panic -> (forall index outcome rest x, (settled index outcome rest).2 = Some x -> x <> Panic) ->
  (requested socket ifindex sends datagrams request seq settled).2 = Some r -> r <> Panic.
Proof.
  intros H1 H2 H3. unfold requested. destruct socket as [[]|e|], ifindex as [index|e'|]; try done; cbn; try (intros; by simplify_eq).
  destruct (sends 0%nat); cbn; [|intros; by simplify_eq]. destruct (await_ack seq zero_buffer datagrams) as [[[outcome|e|] rest]|] eqn:E; cbn; try (intros; by simplify_eq).
  - specialize (H3 index outcome rest r). destruct (settled index outcome rest) as [q o]. exact H3.
  - apply await_ack_total in E; [done|apply zero_buffer_length].
Qed.
(** Whatever the kernel sends, bringing up the network does not panic. *)
Lemma network_bring_up_total socket ifindex sends datagrams name ip prefix_len gateway :
  socket <> Panic -> ifindex <> Panic ->
  (forall r, (link_up socket ifindex sends datagrams name).2 = Some r -> r <> Panic) /\
  (forall r, (assign_address socket ifindex sends datagrams ip prefix_len).2 = Some r -> r <> Panic) /\
  (forall r, (set_default_route socket ifindex sends datagrams gateway).2 = Some r -> r <> Panic).
Proof.
  intros H1 H2. split_and!; intros r; apply requested_total; try done; intros index outcome rest x; cbn.
  - destruct outcome as [errno|]; [destruct (errno =? 0)|]; cbn; intros; by simplify_eq.
  - unfold settled_by. destruct outcome as [errno|]; [|cbn; intros; by simplify_eq]. destruct (errno =? 0); [cbn; intros; by simplify_eq|].
    destruct (errno =? EEXIST); cbn; [|intros; by simplify_eq]. unfold effective_address_matches.
    destruct (sends 1%nat); [|cbn; intros; by simplify_eq].
    destruct (effective_matches _ _ _ _ rest) as [y|] eqn:E; [|done].
    apply effective_matches_total in E as [b ->]; [|done|apply zero_buffer_length]. intros; simplify_eq. by destruct b.
  - unfold settled_by. destruct outcome as [errno|]; [|cbn; intros; by simplify_eq]. destruct (errno =? 0); [cbn; intros; by simplify_eq|].
    destruct (errno =? EEXIST); cbn; [|intros; by simplify_eq]. unfold effective_default_route_matches.
    destruct (sends 1%nat); [|cbn; intros; by simplify_eq].
    destruct (effective_matches _ _ _ _ rest) as [y|] eqn:E; [|done].
    apply effective_matches_total in E as [b ->]; [|done|apply zero_buffer_length]. intros; simplify_eq. by destruct b.
Qed.

Module GuestOpsExample.

Definition disk (index : Z) (path : bytes) (initialize : bool) : GuestDiskConfigV1 :=
  {| gd_device_index := index; gd_mount_path := path; gd_initialize := initialize |}.
(** Every formatter but the second fails. *)
Definition runs (_ : list shell_command) (x : shell_command) : bool := negb (bool_decide (cmd_name x = str "mkfs.ext4")).
Definition disks : list GuestDiskConfigV1 := [disk 0 (str "/build") true; disk 1 (str "/data") false].
Lemma existing_disks_never_formatted_witness :
  mount_disks_with_config runs (fun _ => true) disks =
    (Ok tt, [cmd "mkdir" [str "-p"; str "/build"]; cmd "mkfs.ext4" [str "/dev/sda"]; cmd "mkfs.ext2" [str "/dev/sda"]; cmd "mount" [str "/dev/sda"; str "/build"];
             cmd "mkdir" [str "-p"; str "/data"]; cmd "mount" [str "/dev/sdb"; str "/data"]]) /\
  forall x, x ∈ (mount_disks_with_config runs (fun _ => true) disks).2 -> x ∉ attempts (str "/dev/sdb").
Proof.
  split; [vm_compute; reflexivity|]. intros x Hx.
  destruct (existing_disks_never_formatted runs (fun _ => true) disks (mount_disks_with_config runs (fun _ => true) disks).1
              (mount_disks_with_config runs (fun _ => true) disks).2) as (_ & H & _).
  - repeat constructor; [by apply not_elem_of_cons; split; [|apply not_elem_of_nil]|apply not_elem_of_nil].
  - repeat constructor; cbn; lia.
  - vm_compute. reflexivity.
  - apply (H (disk 1 (str "/data") false) x); [right; left|reflexivity|exact Hx].
Defined.
(** From index 27 on the letters come in the wrong order. *)
Example device_names :
  scsi_device_name 26 = str "/dev/sdaa" /\ scsi_device_name 27 = str "/dev/sdba" /\ sd_name 27 = str "/dev/sdab" /\ scsi_device_name 27 = sd_name 52.
Proof. vm_compute. done. Qed.
(** A new disk at index 27 makes the guest format the existing disk at 52. *)
Definition many_disks : list GuestDiskConfigV1 := [disk 27 (str "/new") true; disk 52 (str "/data") false].
Example existing_disk_formatted : exists x, x ∈ (mount_disks_with_config (fun _ _ => true) (fun _ => true) many_disks).2 /\ x ∈ attempts (sd_name 52).
Proof. exists (cmd "mkfs.ext4" [str "/dev/sdba"]). split; [vm_compute; right; left|vm_compute; left]. Qed.
(** The address of another interface is accepted as effective. *)
Definition ip : bytes := [z2b 10; z2b 0; z2b 0; z2b 2].
Example foreign_interface_accepted :
  effective_address_matches true 3 ip [Some (build_message RTM_NEWADDR 0 3 (push_attr (ifaddrmsg 7 8) (IFA_LOCAL, ip)))] = Some (Ok true).
Proof. vm_compute. reflexivity. Qed.
End GuestOpsExample.
