(* ===== verification/Triggers.v ===== *)
(** * Conditions that start processes

    The [On] combinators of [libs/jyth/src/builder/mod.rs] and their conversion
    into the boolean triggers of the scheduler.  A trigger future is a tree: a
    leaf awaits one future of the caller, an inner node spawns its children
    into a join set and collects them in the order in which they end.  What
    the futures of the caller do is the environment: each resolves with a
    success or a failure, panics, or never ends; any of them may end before
    any other. *)

From Stdlib Require Import ZArith Lia.
From stdpp Require Import base tactics option list relations.
From S2P Require Import Prelude.

(** ** Conditions *)

Inductive On (F : Type) : Type :=
  | On_All (conditions : list (On F))
  | On_AllFail (conditions : list (On F))
  | On_Any (conditions : list (On F))
  | On_AnyFail (conditions : list (On F))
  | On_Resolve (future : F)
  | On_Success (future : F)
  | On_Fail (future : F).
Arguments On_All {F} _.
Arguments On_AllFail {F} _.
Arguments On_Any {F} _.
Arguments On_AnyFail {F} _.
Arguments On_Resolve {F} _.
Arguments On_Success {F} _.
Arguments On_Fail {F} _.

(** ** Trigger futures *)

(** The three leaf futures, and the two functions that join a set. *)
Inductive await_kind : Type := Await_Resolve | Await_Success | Await_Fail.
Inductive join_kind : Type := Join_All | Join_Any.

(** What a task ends with: the boolean of the trigger, [None] for a panic. *)
Abbreviation ended := (option bool).

(** A trigger future where it is suspended.  A [Joining] future has not been
    polled before [spawned]; then its children run as tasks. *)
Inductive Trigger (F : Type) : Type :=
  | Awaiting (k : await_kind) (future : F)
  | Joining (k : join_kind) (expected spawned : bool) (tasks : list (Trigger F))
  | Ended (value : ended).
Arguments Awaiting {F} _ _.
Arguments Joining {F} _ _ _ _.
Arguments Ended {F} _.

Definition all_triggers {F} (triggers : list (Trigger F)) (expected : bool) : Trigger F := Joining Join_All expected false triggers.
Definition any_trigger {F} (triggers : list (Trigger F)) (expected : bool) : Trigger F := Joining Join_Any expected false triggers.

Fixpoint into_trigger {F} (on : On F) : Trigger F :=
  match on with
  | On_Resolve future => Awaiting Await_Resolve future
  | On_Success future => Awaiting Await_Success future
  | On_Fail future => Awaiting Await_Fail future
  | On_All conditions => all_triggers (map into_trigger conditions) true
  | On_AllFail conditions => all_triggers (map into_trigger conditions) false
  | On_Any conditions => any_trigger (map into_trigger conditions) true
  | On_AnyFail conditions => any_trigger (map into_trigger conditions) false
  end.

(** ** Execution *)

(** How a future of the caller ends: its output's [is_success], or a panic. *)
Inductive future_end : Type := Resolves (is_success : bool) | Panics.

(** The value of a leaf future whose inner future ended so. *)
Definition leaf_value (k : await_kind) (e : future_end) : ended :=
  match e, k with
  | Panics, _ => None
  | Resolves _, Await_Resolve => Some true
  | Resolves is_success, Await_Success => Some is_success
  | Resolves is_success, Await_Fail => Some (negb is_success)
  end.

(** The body of the [while let] loops: [Some] is the value returned after
    [abort_all], [None] goes on. *)
Definition joined (k : join_kind) (expected : bool) (result : ended) : option bool :=
  match k with
  | Join_All =>
      match result with
      | Some value => if bool_decide (value = expected) then None else Some false
      | None => Some false
      end
  | Join_Any =>
      match result with
      | Some value => if bool_decide (value = expected) then Some true else None
      | None => None
      end
  end.
(** What is returned when [join_next] has no task left. *)
Definition drained (k : join_kind) : bool := match k with Join_All => true | Join_Any => false end.

Section Execution.
(** What the caller's futures do; [None] never ends. *)
Context {F : Type} (outcome : F -> option future_end).

Inductive tstep : Trigger F -> Trigger F -> Prop :=
  | step_leaf k future e :
      outcome future = Some e -> tstep (Awaiting k future) (Ended (leaf_value k e))
  | step_spawn k expected tasks :
      tstep (Joining k expected false tasks) (Joining k expected true tasks)
  | step_task k expected before t t' after :
      tstep t t' -> tstep (Joining k expected true (before ++ t :: after)) (Joining k expected true (before ++ t' :: after))
  | step_join k expected before result after :
      tstep (Joining k expected true (before ++ Ended result :: after))
        match joined k expected result with
        | Some value => Ended (Some value)
        | None => Joining k expected true (before ++ after)
        end
  | step_drained k expected : tstep (Joining k expected true []) (Ended (Some (drained k))).

(** ** What a condition means *)

(** Three-valued: [None] is a condition that is never decided.  A set is
    decided by one member, or by all of them. *)
Definition decided_by (k : join_kind) (expected : bool) (member : option ended) : Prop :=
  exists result, member = Some result /\ joined k expected result <> None.
#[local] Instance decided_by_dec k expected member : Decision (decided_by k expected member).
Proof.
  destruct member as [result|]; [|by right; intros (? & ? & _)].
  destruct (decide (joined k expected result = None)) as [E|E].
  - right. intros (r & [= <-] & ?). done.
  - left. by exists result.
Defined.
Definition set_verdict (k : join_kind) (expected : bool) (members : list (option ended)) : option ended :=
  if decide (Exists (decided_by k expected) members) then Some (Some (negb (drained k)))
  else if decide (Forall is_Some members) then Some (Some (drained k)) else None.

Fixpoint verdict (on : On F) : option ended :=
  match on with
  | On_Resolve future => leaf_value Await_Resolve <$> outcome future
  | On_Success future => leaf_value Await_Success <$> outcome future
  | On_Fail future => leaf_value Await_Fail <$> outcome future
  | On_All conditions => set_verdict Join_All true (map verdict conditions)
  | On_AllFail conditions => set_verdict Join_All false (map verdict conditions)
  | On_Any conditions => set_verdict Join_Any true (map verdict conditions)
  | On_AnyFail conditions => set_verdict Join_Any false (map verdict conditions)
  end.

(** The same on futures in progress. *)
Fixpoint trigger_verdict (t : Trigger F) : option ended :=
  match t with
  | Awaiting k future => leaf_value k <$> outcome future
  | Joining k expected _ tasks => set_verdict k expected (map trigger_verdict tasks)
  | Ended value => Some value
  end.

(** The boolean reading of the documentation of [On]. *)
Fixpoint holds (success : F -> bool) (on : On F) : bool :=
  match on with
  | On_All conditions => forallb (holds success) conditions
  | On_AllFail conditions => forallb (fun c => negb (holds success c)) conditions
  | On_Any conditions => existsb (holds success) conditions
  | On_AnyFail conditions => existsb (fun c => negb (holds success c)) conditions
  | On_Resolve _ => true
  | On_Success future => success future
  | On_Fail future => negb (success future)
  end.

(** ** Induction over the trees *)

Lemma On_tree_ind (P : On F -> Prop) :
  (forall l, Forall P l -> P (On_All l)) -> (forall l, Forall P l -> P (On_AllFail l)) ->
  (forall l, Forall P l -> P (On_Any l)) -> (forall l, Forall P l -> P (On_AnyFail l)) ->
  (forall f, P (On_Resolve f)) -> (forall f, P (On_Success f)) -> (forall f, P (On_Fail f)) -> forall on, P on.
Proof.
  intros H1 H2 H3 H4 H5 H6 H7. fix IH 1. intros on.
  destruct on as [l|l|l|l|f|f|f]; [apply H1|apply H2|apply H3|apply H4|apply H5|apply H6|apply H7];
    induction l; constructor; auto.
Qed.
Lemma Trigger_tree_ind (P : Trigger F -> Prop) :
  (forall k f, P (Awaiting k f)) -> (forall k e s l, Forall P l -> P (Joining k e s l)) ->
  (forall v, P (Ended v)) -> forall t, P t.
Proof.
  intros H1 H2 H3. fix IH 1. intros t. destruct t as [k f|k e s l|v]; [apply H1|apply H2|apply H3].
  induction l; constructor; auto.
Qed.

(** ** The conversion keeps the meaning *)

Lemma into_trigger_verdict on : trigger_verdict (into_trigger on) = verdict on.
Proof.
  induction on as [l IH|l IH|l IH|l IH|f|f|f] using On_tree_ind; cbn; try done.
  all: f_equal; rewrite map_map; by apply map_ext_Forall.
Qed.

Lemma joined_decides k expected result value : joined k expected result = Some value -> value = negb (drained k).
Proof. destruct k, result as [b|]; cbn; try case_bool_decide; cbn; congruence. Qed.
Lemma set_decided k expected members :
  Exists (decided_by k expected) members -> set_verdict k expected members = Some (Some (negb (drained k))).
Proof. intros H. unfold set_verdict. by rewrite decide_True. Qed.

(** A collected task that does not decide leaves the set's verdict. *)
Lemma set_verdict_skip k expected before result after :
  joined k expected result = None ->
  set_verdict k expected (before ++ Some result :: after) = set_verdict k expected (before ++ after).
Proof.
  intros Hj. unfold set_verdict.
  assert (~ decided_by k expected (Some result)) as Hn by (intros (r & [= <-] & ?); done).
  rewrite (decide_ext (Exists _ (before ++ Some result :: after)) (Exists (decided_by k expected) (before ++ after)))
    by (rewrite !Exists_app, Exists_cons; tauto).
  rewrite (decide_ext (Forall is_Some (before ++ Some result :: after)) (Forall is_Some (before ++ after))); [done|].
  rewrite !Forall_app, Forall_cons. split; [tauto|]. intros [? ?]. split_and!; [done|by eexists|done].
Qed.

Lemma tstep_verdict t t' : tstep t t' -> trigger_verdict t' = trigger_verdict t.
Proof.
  induction 1 as [k f e E|k expected tasks|k expected before t t' after _ IH|k expected before result after|k expected]; cbn.
  - by rewrite E.
  - done.
  - rewrite !map_app. cbn. by rewrite IH.
  - rewrite map_app. cbn. destruct (joined k expected result) as [value|] eqn:Ej.
    + rewrite set_decided; [by rewrite (joined_decides _ _ _ _ Ej)|].
      apply Exists_app. right. constructor. exists result. split; [done|congruence].
    + by rewrite set_verdict_skip by done; cbn; rewrite map_app.
  - by destruct k.
Qed.
Lemma tsteps_verdict t t' : rtc tstep t t' -> trigger_verdict t' = trigger_verdict t.
Proof. induction 1 as [|x y z Hs _ IH]; [done|]. by rewrite IH, (tstep_verdict _ _ Hs). Qed.

(** ** Decided futures can move *)

Definition is_ended (t : Trigger F) : Prop := exists v, t = Ended v.
#[local] Instance is_ended_dec t : Decision (is_ended t).
Proof. destruct t as [| |v]; [right|right|left]; [by intros (? & ?)..|by exists v]. Defined.

Lemma decided_moves t : is_Some (trigger_verdict t) -> is_ended t \/ red tstep t.
Proof.
  induction t as [k f|k e s l IH|v] using Trigger_tree_ind; cbn.
  - intros [v Hv]. right. destruct (outcome f) as [r|] eqn:E; [|done]. eexists. by apply step_leaf.
  - intros Hv. right. destruct s; [|eexists; apply step_spawn].
    destruct (decide (Exists is_ended l)) as [(t & Hin & v & ->)%Exists_exists|Hn].
    { apply list_elem_of_split in Hin as (l1 & l2 & ->). eexists. apply step_join. }
    assert (l = [] \/ Exists (fun t => is_Some (trigger_verdict t)) l) as [->|(t & Hin & Ht)%Exists_exists].
    { unfold set_verdict in Hv. destruct (decide (Exists (decided_by k e) _)) as [(m & Hm & r & -> & _)%Exists_exists|_].
      - right. apply list_elem_of_fmap in Hm as (t & Ht & Hin). apply Exists_exists. exists t. split; [done|]. by rewrite <-Ht.
      - destruct (decide (Forall is_Some _)) as [Hf|_]; [|by destruct Hv]. destruct l as [|t l]; [by left|right].
        apply Forall_cons in Hf as [? _]. by constructor. }
    + eexists. apply step_drained.
    + rewrite Forall_forall in IH. destruct (IH t Hin Ht) as [He|[t' Hs]].
      * destruct Hn. apply Exists_exists. eauto.
      * apply list_elem_of_split in Hin as (l1 & l2 & ->). eexists. by apply step_task.
  - left. by eexists.
Qed.

(** ** Every run is short *)

Fixpoint weight (t : Trigger F) : nat :=
  match t with
  | Awaiting _ _ => 1
  | Joining _ _ spawned tasks => (if spawned then 1 else 2) + sum_list (map (fun t => S (weight t)) tasks)
  | Ended _ => 0
  end.
Fixpoint on_weight (on : On F) : nat :=
  match on with
  | On_All l | On_AllFail l | On_Any l | On_AnyFail l => 2 + sum_list (map (fun c => S (on_weight c)) l)
  | On_Resolve _ | On_Success _ | On_Fail _ => 1
  end.
Lemma into_trigger_weight on : weight (into_trigger on) = on_weight on.
Proof.
  induction on as [l IH|l IH|l IH|l IH|f|f|f] using On_tree_ind; cbn; try done.
  all: do 3 f_equal; rewrite map_map; apply map_ext_Forall; eapply Forall_impl; [done|]; intros ? ->; done.
Qed.
Lemma tstep_weight t t' : tstep t t' -> (weight t' < weight t)%nat.
Proof.
  induction 1 as [k f e E|k expected tasks|k expected before t t' after _ IH|k expected before result after|k expected]; cbn.
  1, 2, 5: lia.
  - rewrite !map_app, !sum_list_with_app. cbn. lia.
  - destruct (joined k expected result); cbn; rewrite !map_app, ?sum_list_with_app; cbn; lia.
Qed.
Lemma nsteps_weight n t t' : nsteps tstep n t t' -> (n + weight t' <= weight t)%nat.
Proof. induction 1 as [|n x y z Hs _ IH]; [done|]. apply tstep_weight in Hs. lia. Qed.

(** ** The boolean reading *)

Lemma set_verdict_forall k expected (bs : list bool) :
  set_verdict k expected (map (fun b => Some (Some b)) bs) =
  Some (Some (match k with Join_All => forallb (eqb expected) bs | Join_Any => existsb (eqb expected) bs end)).
Proof.
  induction bs as [|b bs IH]; [by destruct k|]. cbn [map].
  destruct (joined k expected (Some b)) as [value|] eqn:Ej.
  - rewrite set_decided by (constructor; exists (Some b); split; [done|congruence]).
    apply joined_decides in Ej as Ev. destruct k; cbn in Ej |- *; case_bool_decide; simplify_eq; destruct expected; try destruct b; done.
  - etrans; [exact (set_verdict_skip k expected [] (Some b) _ Ej)|]. cbn [app]. rewrite IH.
    destruct k; cbn in Ej |- *; case_bool_decide; simplify_eq; destruct expected; try destruct b; done.
Qed.

Lemma verdict_holds (success : F -> bool) on :
  (forall f, outcome f = Some (Resolves (success f))) -> verdict on = Some (Some (holds success on)).
Proof.
  intros Ho.
  assert (forall l, Forall (fun on => verdict on = Some (Some (holds success on))) l ->
            map verdict l = map (fun b => Some (Some b)) (map (holds success) l)) as Hl.
  { intros l H. rewrite map_map. by apply map_ext_Forall. }
  induction on as [l IH|l IH|l IH|l IH|f|f|f] using On_tree_ind; cbn; rewrite ?Ho; try done.
  all: rewrite (Hl l IH), set_verdict_forall; do 2 f_equal.
  all: clear; induction l as [|c l IH]; cbn; [done|]; rewrite IH; by destruct (holds success c).
Qed.

(** C34: A trigger built from a condition decides exactly the condition, in
    whatever order the futures end.  Whatever the futures of the caller do,
    and however the tasks of the join sets interleave: a run of the trigger
    has at most [on_weight on] steps; a run that ends yields the condition's
    verdict; and a run that can go no further has ended if the condition has a
    verdict, even when futures that no longer matter never end, and is still
    waiting if it has none.  When all futures resolve, the verdict is the
    boolean the documentation of the combinators describes. *)
Theorem trigger_decides_condition (on : On F) (t : Trigger F) (n : nat) :
  nsteps tstep n (into_trigger on) t ->
  (n <= on_weight on)%nat
  /\ (forall value, t = Ended value -> verdict on = Some value)
  /\ (nf tstep t -> t = default t (Ended <$> verdict on) /\ (verdict on = None -> ~ is_ended t))
  /\ (forall success, (forall f, outcome f = Some (Resolves (success f))) -> nf tstep t -> t = Ended (Some (holds success on))).
Proof.
  intros Hn. pose proof (nsteps_weight _ _ _ Hn) as Hw. rewrite into_trigger_weight in Hw.
  assert (trigger_verdict t = verdict on) as Hv.
  { rewrite (tsteps_verdict (into_trigger on)); [apply into_trigger_verdict|by eapply rtc_nsteps_2]. }
  assert (nf tstep t -> t = default t (Ended <$> verdict on)) as Hnf.
  { intros Ht. destruct (verdict on) as [v|] eqn:E; [|done]. cbn.
    destruct (decided_moves t) as [[w ->]|?]; [by rewrite Hv| |done]. cbn in Hv. congruence. }
  split_and!.
  - lia.
  - intros value ->. by rewrite <-Hv.
  - intros Ht. split; [by apply Hnf|]. intros E [w ->]. cbn in Hv. congruence.
  - intros success Ho Ht. rewrite Hnf by done. by rewrite (verdict_holds success).
Qed.
End Execution.

(** ** A condition at work *)

Module TriggerExample.
(** A service that never ends, a check that failed and one that succeeded. *)
Inductive job := Service | FailedCheck | GoodCheck.
Definition ends (j : job) : option future_end :=
  match j with Service => None | FailedCheck => Some (Resolves false) | GoodCheck => Some (Resolves true) end.
Definition condition : On job := On_Any [On_Success Service; On_AllFail [On_Success FailedCheck; On_Fail GoodCheck]].

Definition waiting : Trigger job := Awaiting Await_Success Service.
Definition pending : Trigger job := Awaiting Await_Success FailedCheck.
Lemma condition_runs : nsteps (tstep ends) 8 (into_trigger condition) (Ended (Some true)).
Proof.
  eapply nsteps_l; [apply step_spawn|]. cbn.
  eapply nsteps_l; [eapply (step_task ends _ _ [waiting] _ _ []); apply step_spawn|].
  eapply nsteps_l; [eapply (step_task ends _ _ [waiting] _ _ []); eapply (step_task ends _ _ [pending] _ _ []); by eapply step_leaf|].
  eapply nsteps_l; [eapply (step_task ends _ _ [waiting] _ _ []); eapply (step_join ends _ _ [pending] _ [])|]. cbn.
  eapply nsteps_l; [eapply (step_task ends _ _ [waiting] _ _ []); eapply (step_task ends _ _ [] _ _ []); by eapply step_leaf|]. cbn.
  eapply nsteps_l; [eapply (step_task ends _ _ [waiting] _ _ []); eapply (step_join ends _ _ [] _ [])|]. cbn.
  eapply nsteps_l; [eapply (step_task ends _ _ [waiting] _ _ []); apply step_drained|]. cbn.
  eapply nsteps_l; [eapply (step_join ends _ _ [waiting] _ [])|]. cbn. constructor.
Qed.
Lemma trigger_decides_condition_witness :
  nsteps (tstep ends) 8 (into_trigger condition) (Ended (Some true)) /\ verdict ends condition = Some (Some true).
Proof.
  split; [exact condition_runs|].
  by apply (trigger_decides_condition ends condition (Ended (Some true)) 8 condition_runs).
Defined.

(** A panicking future fails [AllFail] and does not satisfy [AnyFail]. *)
Example panic_is_neither :
  verdict (fun _ : unit => Some Panics) (On_AllFail [On_Success tt]) = Some (Some false)
  /\ verdict (fun _ : unit => Some Panics) (On_AnyFail [On_Success tt]) = Some (Some false).
Proof. by vm_compute. Qed.
End TriggerExample.
