(* ===== verification/Facade.v ===== *)
(** * The builder and the launch request

    The facade crate [libs/jyth/src]: process descriptions ([vm/process.rs]),
    injected files and directories ([builder/file.rs], [builder/dir.rs]), the
    machine builder ([builder/mod.rs]), and the build stage that turns them
    into the launch request of the runtime ([build]).  Materialisation is the
    pipelines of [Materialize]; launching is the flow of [Runtime]; triggers are
    those of [Triggers].

    Compiling a Rust binary runs [cargo]; its outcome is a parameter, like the
    probe for a directory and the BLAKE3 function.  Reports are their current
    context. *)

From Stdlib Require Import ZArith Lia Ascii.
From stdpp Require Import base tactics option list numbers strings.
From S2P Require Import Prelude Bytes Text BTree AuthProof Net AuthSession BootConfig Messages Guid IpAddr HcsJournal VmModel LaunchConfig Runtime RuntimeSafe Boot IndexCodec IndexStore KernelSpec KernelRequest Materialize Overlay Capture HostDispatch DirectProcess Triggers.

(** ** Paths and modes *)

(** [Path::to_str]: the text, unless a surrogate is unpaired. *)
Fixpoint to_str (p : OsString) : option bytes :=
  match p with
  | [] => Some []
  | u :: p1 =>
    if is_high u then
      match p1 with
      | v :: p2 => if is_low v then app (utf8_encode (65536 + (u - 55296) * 1024 + (v - 56320))) <$> to_str p2 else None
      | [] => None
      end
    else if is_low u then None else app (utf8_encode u) <$> to_str p1
  end.
(** [PathBuf::from] of an ASCII text. *)
Definition ascii_path (text : bytes) : OsString := map b2z text.

Definition READ : Z := 4.
Definition WRITE : Z := 2.
Definition EXECUTE : Z := 1.
Definition ALL : Z := 7.
(** [mode & !bits] and [bits << n] on [u32]. *)
Definition without (mode bits : Z) : Z := Z.land mode (Z.lxor (2 ^ 32 - 1) bits).
Definition shl32 (bits n : Z) : Z := Z.shiftl bits n mod 2 ^ 32.
Definition with_permissions (mode p : Z) : Z := Z.lor (Z.lor (Z.lor (without mode 511) (shl32 p 6)) (shl32 p 3)) p.
Definition with_user_permissions (mode p : Z) : Z := Z.lor (without mode 448) (shl32 p 6).
Definition with_group_permissions (mode p : Z) : Z := Z.lor (without mode 56) (shl32 p 3).

(** ** Directories and files of the overlay *)

Record Dir : Type := { dir_path : option OsString; dir_mode : Z }.
Definition Dir_new : Dir := {| dir_path := None; dir_mode := 493 |}.
Definition Dir_path (path : OsString) (d : Dir) : Dir := {| dir_path := Some path; dir_mode := dir_mode d |}.
Definition Dir_permissions (p : Z) (d : Dir) : Dir := {| dir_path := dir_path d; dir_mode := with_permissions (dir_mode d) p |}.
Definition Dir_user_permissions (p : Z) (d : Dir) : Dir :=
  {| dir_path := dir_path d; dir_mode := with_user_permissions (dir_mode d) p |}.
Definition Dir_group_permissions (p : Z) (d : Dir) : Dir :=
  {| dir_path := dir_path d; dir_mode := with_group_permissions (dir_mode d) p |}.

Record RustBinary : Type := { manifest_path : OsString; binary_name : option bytes }.
Definition RustBinary_new (path : OsString) : RustBinary := {| manifest_path := path; binary_name := None |}.
Definition RustBinary_bin (name : bytes) (b : RustBinary) : RustBinary :=
  {| manifest_path := manifest_path b; binary_name := Some name |}.
Definition cache_identity (b : RustBinary) : bytes :=
  to_string_lossy (manifest_path b) ++
  match binary_name b with Some name => str "|bin=" ++ name | None => [] end.

Inductive FileContent : Type := Content_Bytes (data : bytes) | Content_Crate (binary : RustBinary).
Record File : Type := { file_path : option OsString; file_mode : Z; file_content : option FileContent }.
Definition File_new : File := {| file_path := None; file_mode := 420; file_content := None |}.
Definition File_path (path : OsString) (f : File) : File :=
  {| file_path := Some path; file_mode := file_mode f; file_content := file_content f |}.
Definition File_content (content : FileContent) (f : File) : File :=
  {| file_path := file_path f; file_mode := file_mode f; file_content := Some content |}.
Definition set_file_mode (mode : Z) (f : File) : File :=
  {| file_path := file_path f; file_mode := mode; file_content := file_content f |}.
Definition File_permissions (p : Z) (f : File) : File := set_file_mode (with_permissions (file_mode f) p) f.
Definition File_user_permissions (p : Z) (f : File) : File := set_file_mode (with_user_permissions (file_mode f) p) f.
Definition File_group_permissions (p : Z) (f : File) : File := set_file_mode (with_group_permissions (file_mode f) p) f.

(** ** Process descriptions *)

Inductive Executable : Type :=
  | Executable_Shell (command : bytes)
  | Executable_Exec (path : OsString)
  | Executable_Rust (binary : RustBinary)
  | Executable_Bytes (data : bytes).

Record Process : Type := {
  pr_executable : Executable; pr_args : list bytes; pr_envs : btree bytes bytes; pr_cwd : option OsString;
  pr_timeout : option Z; pr_stdout : Output; pr_stderr : Output; pr_lifecycle : option lifecycle }.
Definition replace_executable (e : Executable) (p : Process) : Process := {|
  pr_executable := e; pr_args := pr_args p; pr_envs := pr_envs p; pr_cwd := pr_cwd p; pr_timeout := pr_timeout p;
  pr_stdout := pr_stdout p; pr_stderr := pr_stderr p; pr_lifecycle := pr_lifecycle p |}.

(** The prepared form, and what the retained observer shows on failure. *)
Definition into_prepared (p : Process) : res ProcessError PreparedProcess * option lifecycle :=
  let prepared path args := (Ok {|
    pp_path := path; pp_args := args; pp_envs := pr_envs p; pp_cwd := to_string_lossy <$> pr_cwd p;
    pp_timeout := pr_timeout p; pp_stdout := pr_stdout p; pp_stderr := pr_stderr p; pp_lifecycle := pr_lifecycle p |},
    pr_lifecycle p) in
  match pr_executable p with
  | Executable_Shell command => prepared (str "/bin/sh") ([str "-c"; command; str "jyth-shell"] ++ pr_args p)
  | Executable_Exec path => prepared (to_string_lossy path) (pr_args p)
  | Executable_Rust _ | Executable_Bytes _ =>
      (Err UnpreparedExecutable, Capture.set (Capture.Failed UnpreparedExecutable) <$> pr_lifecycle p)
  end.

(** [ProcessBuilder]: the stages are types, the draft is shared. *)
Record Draft : Type := {
  df_executable : option Executable; df_args : list bytes; df_envs : btree bytes bytes; df_cwd : option OsString;
  df_timeout : option Z; df_stdout : Output; df_stderr : Output; df_lifecycle : option lifecycle }.
Definition Draft_new : Draft := {|
  df_executable := None; df_args := []; df_envs := []; df_cwd := None; df_timeout := None;
  df_stdout := Discard; df_stderr := Discard; df_lifecycle := None |}.
Inductive stage : Type := MissingExecutable | Configured.
Record ProcessBuilder (s : stage) : Type := { draft : Draft }.
Arguments draft {s} _.

Definition ProcessBuilder_new : ProcessBuilder MissingExecutable := {| draft := Draft_new |}.
Definition ProcessBuilder_with_observer : ProcessBuilder MissingExecutable := {| draft := {|
  df_executable := None; df_args := []; df_envs := []; df_cwd := None; df_timeout := None;
  df_stdout := Discard; df_stderr := Discard; df_lifecycle := Some lifecycle_new |} |}.
Definition process (e : Executable) (b : ProcessBuilder MissingExecutable) : ProcessBuilder Configured := {| draft := {|
  df_executable := Some e; df_args := df_args (draft b); df_envs := df_envs (draft b); df_cwd := df_cwd (draft b);
  df_timeout := df_timeout (draft b); df_stdout := df_stdout (draft b); df_stderr := df_stderr (draft b);
  df_lifecycle := df_lifecycle (draft b) |} |}.

(** The setters of the configured stage. *)
Inductive config : Type :=
  | Config_arg (arg : bytes) | Config_args (args : list bytes) | Config_env (key value : bytes)
  | Config_envs (envs : list (bytes * bytes)) | Config_cwd (cwd : OsString) | Config_timeout (timeout : Z)
  | Config_stdout (output : Output) | Config_stderr (output : Output).
Definition extend_envs (envs : btree bytes bytes) (kvs : list (bytes * bytes)) : btree bytes bytes :=
  foldl (fun m kv => bt_insert kv.1 kv.2 m) envs kvs.
Definition configure (b : ProcessBuilder Configured) (c : config) : ProcessBuilder Configured :=
  let d := draft b in
  let upd args envs cwd timeout out err : ProcessBuilder Configured := {| draft := {|
    df_executable := df_executable d; df_args := args; df_envs := envs; df_cwd := cwd; df_timeout := timeout;
    df_stdout := out; df_stderr := err; df_lifecycle := df_lifecycle d |} |} in
  match c with
  | Config_arg arg => upd (df_args d ++ [arg]) (df_envs d) (df_cwd d) (df_timeout d) (df_stdout d) (df_stderr d)
  | Config_args args => upd (df_args d ++ args) (df_envs d) (df_cwd d) (df_timeout d) (df_stdout d) (df_stderr d)
  | Config_env key value => upd (df_args d) (bt_insert key value (df_envs d)) (df_cwd d) (df_timeout d) (df_stdout d) (df_stderr d)
  | Config_envs envs => upd (df_args d) (extend_envs (df_envs d) envs) (df_cwd d) (df_timeout d) (df_stdout d) (df_stderr d)
  | Config_cwd cwd => upd (df_args d) (df_envs d) (Some cwd) (df_timeout d) (df_stdout d) (df_stderr d)
  | Config_timeout timeout => upd (df_args d) (df_envs d) (df_cwd d) (Some timeout) (df_stdout d) (df_stderr d)
  | Config_stdout output => upd (df_args d) (df_envs d) (df_cwd d) (df_timeout d) output (df_stderr d)
  | Config_stderr output => upd (df_args d) (df_envs d) (df_cwd d) (df_timeout d) (df_stdout d) output
  end.

Inductive ProcessBuildError : Type :=
  | EmptyExecutablePath | EmptyCaptureLimit | CaptureLimitTooLarge (requested maximum : Z)
  | EmptyCaptureEndSize | EmptyCaptureDelimiter.
Definition validate_executable (e : Executable) : res ProcessBuildError unit :=
  match e with
  | Executable_Exec path => fail_if (is_empty path) EmptyExecutablePath
  | Executable_Rust binary => fail_if (is_empty (manifest_path binary)) EmptyExecutablePath
  | _ => Ok tt
  end.
Definition validate_output (o : Output) : res ProcessBuildError unit :=
  match o with
  | Capture_ options =>
      _ ← fail_if (co_limit options =? 0) EmptyCaptureLimit;
      _ ← fail_if (MAX_CAPTURE_LIMIT <? co_limit options) (CaptureLimitTooLarge (co_limit options) MAX_CAPTURE_LIMIT);
      match co_end options with
      | CaptureBytes n => fail_if (n =? 0) EmptyCaptureEndSize
      | Delimiter delimiter => fail_if (is_empty delimiter) EmptyCaptureDelimiter
      | _ => Ok tt
      end
  | _ => Ok tt
  end.
Definition ProcessBuilder_build (b : ProcessBuilder Configured) : res ProcessBuildError Process :=
  executable ← expect (df_executable (draft b));
  _ ← validate_executable executable;
  _ ← validate_output (df_stdout (draft b));
  _ ← validate_output (df_stderr (draft b));
  Ok {| pr_executable := executable; pr_args := df_args (draft b); pr_envs := df_envs (draft b); pr_cwd := df_cwd (draft b);
        pr_timeout := df_timeout (draft b); pr_stdout := df_stdout (draft b); pr_stderr := df_stderr (draft b);
        pr_lifecycle := df_lifecycle (draft b) |}.

(** ** The machine builder *)

Definition MATERIALIZED_PROCESS_ROOT : bytes := str "/jyth/processes".

(** Stopping at the first error, like [collect::<Result<Vec<_>, _>>]. *)
Fixpoint collect {E A B} (f : A -> res E B) (xs : list A) : res E (list B) :=
  match xs with
  | [] => Ok []
  | x :: xs => y ← f x; ys ← collect f xs; Ok (y :: ys)
  end.

(** [validate_disks]; the hash sets are lists of what was inserted. *)
Definition parent (p : Path) : option Path :=
  match last p with
  | None | Some RootDir | Some (Prefix _) => None
  | _ => Some (removelast p)
  end.
Definition check_disk_spec (is_dir : Path -> bool) (seen : list Path * list bytes) (spec : DiskSpec)
    : res ApiError (list Path * list bytes) :=
  let '(paths, mounts) := seen in
  let normalized := normalized_host_path spec in
  _ ← fail_if (bool_decide (normalized ∈ paths)) Api_Disk;
  parent ← ok_or (parent normalized) Api_Disk;
  _ ← fail_if (negb (is_dir parent)) Api_Disk;
  let mount := gm_path (ds_guest_mount spec) in
  _ ← fail_if (bool_decide (mount ∈ mounts)) Api_Disk;
  Ok (paths ++ [normalized], mounts ++ [mount]).
Definition validate_disks (is_dir : Path -> bool) (disks : list DiskSpec) : res ApiError unit :=
  _ ← for_each (check_disk_spec is_dir) disks ([], []); Ok tt.

Definition map_runtime_error (e : RuntimeError) : ApiError :=
  match e with
  | RE_Build => Api_Build
  | RE_Transport => Api_Transport
  | RE_NetworkRequired => Api_NetworkRequired
  | RE_RequestTimedOut => Api_RequestTimedOut
  | RE_Protocol => Api_Protocol
  | RE_Authentication => Api_Authentication
  | RE_Hypervisor => Api_Hypervisor
  | RE_Guest code => Api_Guest code
  | RE_UnexpectedReply => Api_UnexpectedReply
  | RE_ReadyTimeout => Api_ReadyTimeout
  | RE_VmCreate => Api_VmCreate
  | RE_Shutdown => Api_Shutdown
  | RE_ProcessClose => Api_ProcessClose
  | RE_Bind => Api_Bind
  | RE_InvalidState => Api_InvalidState
  end.
Definition facade_client_error (e : GuestClientError) : ApiError :=
  match e with
  | GC_Transport => Api_Transport
  | GC_RequestTimedOut => Api_RequestTimedOut
  | GC_Guest code _ => Api_Guest code
  | GC_UnexpectedReply => Api_UnexpectedReply
  | GC_Shutdown => Api_Shutdown
  | GC_InvalidState => Api_InvalidState
  | GC_ProcessClose => Api_ProcessClose
  | GC_Bind => Api_Bind
  end.

(** The serial bootstrap: the operation, and the result of the transfer and
    of closing the machine afterwards. *)
Record BootstrapSpec : Type := {
  bo_program : bytes; bo_args : list bytes; bo_artifact : bytes; bo_output : OsString; bo_timeout : Z }.
Definition BootstrapSpec_new (program artifact : bytes) (output : OsString) : BootstrapSpec :=
  {| bo_program := program; bo_args := []; bo_artifact := artifact; bo_output := output; bo_timeout := 30 * 60 |}.
Definition protocol_config (spec : BootstrapSpec) : res ApiError BootstrapConfigV1 :=
  map_err (fun _ => Api_Protocol) (BootstrapConfigV1_new (bo_program spec) (bo_args spec) (bo_artifact spec)).
Definition bootstrap_result {A} (transfer : res ApiError A) (close : res BackendError unit) : res ApiError A :=
  match transfer, map_err (fun _ => Api_Hypervisor) close with
  | Ok timings, Ok _ => Ok timings
  | Err error, Ok _ => Err error
  | Ok _, Err error => Err error
  | Err error, Err _ => Err error
  | Panic, _ | _, Panic => Panic
  end.

Inductive BuildError : Type :=
  | MissingKernel | MissingRootfs | ImageBuild | BE_Overlay | BE_Cancelled
  | BE_InvalidGuestPath (path : bytes) | MissingOverlayPath (kind : bytes).
Inductive MaterializeError : Type := ME_KernelBuild | ME_RootfsBuild.

(** What [bounded_join] of the worker that compiles a binary yields. *)
Inductive crate_build : Type := Crate_Built (data : bytes) | Crate_Failed | Crate_JoinError | Crate_Cancelled.

Section Builder.
Context {P : Platform} `{U : UrlCrate} `{IpNet} {F : Type}.
(** The futures of the conditions, the hash, the compiled binaries, the
    directory probe, the kernel compiler's identity and where artifacts are. *)
Context (blake3 : bytes -> bytes) (build_crate : RustBinary -> crate_build) (is_dir : Path -> bool).
Context (path_from : bytes -> PathBuf) (compiler : option KernelCompilerIdentity) (artifact_path : ArtifactId -> Path).

#[local] Instance facade_scheduled : Scheduled :=
  {| Runtime.Trigger := Triggers.Trigger F; Runtime.PreparedProcess := DirectProcess.PreparedProcess |}.

Record BuilderProcess : Type := { bp_trigger : Triggers.Trigger F; bp_process : Process }.
Record VmBuilder : Type := {
  vb_kernel : option (Kernel (Path:=PathBuf)); vb_rootfs : option (Link (Path:=PathBuf)); vb_files : list File; vb_dirs : list Dir;
  vb_cpu : option Cpu; vb_mem : option Memory; vb_network : option Nat; vb_disks : list DiskSpec; vb_observer : bool;
  vb_scheduled : list BuilderProcess; vb_shutdown : option (Triggers.Trigger F) }.
Definition VmBuilder_new : VmBuilder := {|
  vb_kernel := None; vb_rootfs := None; vb_files := []; vb_dirs := []; vb_cpu := None; vb_mem := None; vb_network := None;
  vb_disks := []; vb_observer := false; vb_scheduled := []; vb_shutdown := None |}.
Definition VmBuilder_with_observer : VmBuilder := {|
  vb_kernel := None; vb_rootfs := None; vb_files := []; vb_dirs := []; vb_cpu := None; vb_mem := None; vb_network := None;
  vb_disks := []; vb_observer := true; vb_scheduled := []; vb_shutdown := None |}.

(** The setters. *)
Inductive setter : Type :=
  | Set_cpu (cpu : Cpu) | Set_mem (mem : Memory) | Set_kernel (kernel : Kernel (Path:=PathBuf)) | Set_rootfs (rootfs : Link (Path:=PathBuf))
  | Add_file (file : File) | Add_dir (dir : Dir) | Set_network (network : Nat) | Add_disk (spec : DiskSpec)
  | Add_disks (specs : list DiskSpec) | Run_on (on : On F) (process : Process) | Shutdown_on (on : On F).
Definition set_field (b : VmBuilder) (s : setter) : VmBuilder := {|
  vb_kernel := match s with Set_kernel k => Some k | _ => vb_kernel b end;
  vb_rootfs := match s with Set_rootfs r => Some r | _ => vb_rootfs b end;
  vb_files := match s with Add_file f => vb_files b ++ [f] | _ => vb_files b end;
  vb_dirs := match s with Add_dir d => vb_dirs b ++ [d] | _ => vb_dirs b end;
  vb_cpu := match s with Set_cpu c => Some c | _ => vb_cpu b end;
  vb_mem := match s with Set_mem m => Some m | _ => vb_mem b end;
  vb_network := match s with Set_network n => Some n | _ => vb_network b end;
  vb_disks := match s with Add_disk d => vb_disks b ++ [d] | Add_disks ds => vb_disks b ++ ds | _ => vb_disks b end;
  vb_observer := vb_observer b;
  vb_scheduled := match s with
                  | Run_on on process => vb_scheduled b ++ [{| bp_trigger := into_trigger on; bp_process := process |}]
                  | _ => vb_scheduled b end;
  vb_shutdown := match s with Shutdown_on on => Some (into_trigger on) | _ => vb_shutdown b end |}.

(** *** Executables that come from the host *)

Definition materialized_process_path (kind identity : bytes) : bytes :=
  MATERIALIZED_PROCESS_ROOT ++ str "/" ++ kind ++ str "-" ++ hex_text (blake3 (kind ++ [nul] ++ identity)).
Definition host_source (e : Executable) : option (bytes * bytes * FileContent) :=
  match e with
  | Executable_Rust binary => Some (str "rust", cache_identity binary, Content_Crate binary)
  | Executable_Bytes data => Some (str "bytes", data, Content_Bytes data)
  | Executable_Shell _ | Executable_Exec _ => None
  end.
(** One round of the loop.  The keys of the map are paths that differ in their
    last component only, so that their order is the order of their texts. *)
Definition materialize_one (injections : btree bytes FileContent) (s : BuilderProcess) : btree bytes FileContent * BuilderProcess :=
  match host_source (pr_executable (bp_process s)) with
  | None => (injections, s)
  | Some (kind, identity, content) =>
      let guest_path := materialized_process_path kind identity in
      (if bt_contains guest_path injections then injections else bt_insert guest_path content injections,
       {| bp_trigger := bp_trigger s;
          bp_process := replace_executable (Executable_Exec (ascii_path guest_path)) (bp_process s) |})
  end.
Fixpoint materialize_each_process (injections : btree bytes FileContent) (ss : list BuilderProcess)
    : btree bytes FileContent * list BuilderProcess :=
  match ss with
  | [] => (injections, [])
  | s :: ss =>
      let '(injections, s) := materialize_one injections s in
      let '(injections, ss) := materialize_each_process injections ss in
      (injections, s :: ss)
  end.
Definition injected_file (injection : bytes * FileContent) : File :=
  File_user_permissions ALL (File_permissions (Z.lor READ EXECUTE)
    (File_content injection.2 (File_path (ascii_path injection.1) File_new))).
Definition injected_dirs : list Dir :=
  [Dir_path (ascii_path (str "/jyth")) Dir_new; Dir_path (ascii_path MATERIALIZED_PROCESS_ROOT) Dir_new].
Definition materialize_process_executables (b : VmBuilder) : VmBuilder :=
  let '(injections, scheduled) := materialize_each_process [] (vb_scheduled b) in {|
  vb_kernel := vb_kernel b; vb_rootfs := vb_rootfs b;
  vb_files := if is_empty injections then vb_files b else vb_files b ++ map injected_file injections;
  vb_dirs := if is_empty injections then vb_dirs b else vb_dirs b ++ injected_dirs;
  vb_cpu := vb_cpu b; vb_mem := vb_mem b; vb_network := vb_network b; vb_disks := vb_disks b; vb_observer := vb_observer b;
  vb_scheduled := scheduled; vb_shutdown := vb_shutdown b |}.

(** *** The build stage *)

Definition overlay_path_string (path : OsString) : res BuildError bytes :=
  ok_or (to_str path) (BE_InvalidGuestPath (to_string_lossy path)).
Definition dir_entry (d : Dir) : res BuildError BootOverlayEntry :=
  path ← ok_or (dir_path d) (MissingOverlayPath (str "directory"));
  text ← overlay_path_string path;
  Ok {| oe_path := text; oe_kind := Runtime.Overlay_Directory (dir_mode d) |}.
Definition resolve_content (c : FileContent) : res BuildError (bytes * bytes) :=
  match c with
  | Content_Bytes data => Ok (data, str "bytes:" ++ digest_text blake3 data)
  | Content_Crate binary =>
      match build_crate binary with
      | Crate_Built data => Ok (data, str "crate:" ++ cache_identity binary)
      | Crate_Failed | Crate_JoinError => Err BE_Overlay
      | Crate_Cancelled => Err BE_Cancelled
      end
  end.
Definition file_entry (f : File) : res BuildError BootOverlayEntry :=
  path ← ok_or (file_path f) (MissingOverlayPath (str "file"));
  text ← overlay_path_string path;
  content ← ok_or (file_content f) BE_Overlay;
  '(data, origin) ← resolve_content content;
  Ok {| oe_path := text; oe_kind := Runtime.Overlay_File data (file_mode f) origin |}.
Definition build_overlay_entries (files : list File) (dirs : list Dir) : res BuildError (list BootOverlayEntry) :=
  dir_entries ← collect dir_entry dirs;
  file_entries ← collect file_entry files;
  Ok (dir_entries ++ file_entries).

Definition materialize_image (kernel : Kernel (Path:=PathBuf)) (rootfs : option (Link (Path:=PathBuf)))
    : prog mat MaterializeError (ArtifactId * option ArtifactId) :=
  identity ← Net.of_res (ok_or compiler ME_KernelBuild);
  materialized ← pmap_err (fun _ => ME_KernelBuild) (materialize_with_outcome blake3 path_from kernel identity);
  let materialized_kernel := materialized.1 in
  rootfs ← match rootfs with
           | None => mret None
           | Some source =>
               base ← pmap_err (fun _ => ME_RootfsBuild) (build_rootfs source);
               match mk_modules materialized_kernel with
               | Some modules =>
                   merged ← pmap_err (fun _ => ME_RootfsBuild) (merge_modules blake3 base modules);
                   mret (Some merged)
               | None => mret (Some (id_of_file base))
               end
           end;
  mret (mk_kernel materialized_kernel, rootfs).

Record BuildInput : Type := { bi_kernel : Path; bi_rootfs : Path; bi_entries : list BootOverlayEntry }.
Definition build (b : VmBuilder) : prog mat BuildError BuildInput :=
  kernel ← Net.of_res (ok_or (vb_kernel b) MissingKernel);
  image ← pmap_err (fun _ => ImageBuild) (materialize_image kernel (vb_rootfs b));
  rootfs ← Net.of_res (ok_or image.2 MissingRootfs);
  entries ← Net.of_res (build_overlay_entries (vb_files b) (vb_dirs b));
  mret {| bi_kernel := artifact_path image.1; bi_rootfs := artifact_path rootfs; bi_entries := entries |}.

Definition prepare_process (s : BuilderProcess) : res ApiError ScheduledProcess :=
  prepared ← map_err (fun _ => Api_Build) (into_prepared (bp_process s)).1;
  Ok {| sp_trigger := bp_trigger s; sp_process := prepared |}.

Definition prepare_launch (host : HostPlatform) (cmdline : bytes) (b : VmBuilder) : prog mat ApiError Launch :=
  _ ← Net.of_res (ensure_supported_platform host);
  let b := materialize_process_executables b in
  _ ← Net.of_res (validate_disks is_dir (vb_disks b));
  input ← pmap_err (fun _ => Api_Build) (build b);
  scheduled ← Net.of_res (collect prepare_process (vb_scheduled b));
  mret {| Runtime.request := {|
            kernel_source := bi_kernel input; rootfs_source := bi_rootfs input; overlay_entries := bi_entries input;
            req_memory_mb := memory_mb <$> vb_mem b; req_vcpu_count := cpu_units <$> vb_cpu b; req_cmdline := cmdline;
            req_network := vb_network b; req_disks := vb_disks b |};
          Runtime.scheduled_processes := scheduled; Runtime.shutdown_trigger := vb_shutdown b |}.

(** *** Launching, and what the observer sees *)

Context (debug : ApiError -> bytes).

Definition guard_failed (observed : bool) (message : bytes) : list effect :=
  observe observed (Runtime.Failed {| vf_phase := Phase_Launch; vf_message := message |}).
Definition launch_cancelled : bytes := str "VM launch was cancelled".
(** [prepared] and [launcher]: the results of [prepare_launch] and
    [default_launcher]. *)
Definition facade_launch_inner (network : option Nat) (prepared : res ApiError Launch) (launcher : res ApiError RetryPolicy)
    (observed : bool) : flow (res ApiError LiveVm) :=
  match network with
  | None => Ret (Err Api_NetworkRequired)
  | Some _ =>
      try_ (Ret prepared) (fun launch =>
      try_ (Ret launcher) (fun retry =>
      try_map map_runtime_error (Launcher_launch retry launch observed) (fun live => Ret (Ok live))))
  end.
Definition facade_launch (b : VmBuilder) (prepared : res ApiError Launch) (launcher : res ApiError RetryPolicy)
    : flow (res ApiError LiveVm) :=
  let observed := vb_observer b in
  emits (observe observed Launching) (
  flow_bind (holding (guard_failed observed launch_cancelled) (facade_launch_inner (vb_network b) prepared launcher observed)) (fun r =>
  match r with
  | Ok live => Ret (Ok live)
  | Err error => emits (guard_failed observed (debug error)) (Ret (Err error))
  | Panic => emits (guard_failed observed launch_cancelled) (Ret Panic)
  end)).
(** The future dropped while it still prepares, and the builder dropped
    without a launch. *)
Definition dropped_preparing (b : VmBuilder) : list effect :=
  observe (vb_observer b) Launching ++ guard_failed (vb_observer b) launch_cancelled.
Definition drop_builder (b : VmBuilder) : list effect :=
  guard_failed (vb_observer b) (str "builder dropped before launch was called").

(** ** Texts and modes *)

Lemma ascii_units b : is_ascii b = true -> is_high (b2z b) = false /\ is_low (b2z b) = false /\ utf8_encode (b2z b) = [b].
Proof.
  unfold is_ascii, in_range, is_high, is_low, utf8_encode. intros Hb. pose proof (z2b_b2z b) as Hz.
  assert (0 <= b2z b < 128) by lia. rewrite (proj2 (Z.ltb_lt (b2z b) 128)), Hz by lia. split_and!; [lia|lia|done].
Qed.
Lemma ascii_path_text t : forallb is_ascii t = true -> to_str (ascii_path t) = Some t /\ to_string_lossy (ascii_path t) = t.
Proof.
  induction t as [|b t IH]; [done|]. cbn [forallb]. intros [Hb Ht]%andb_true_iff.
  destruct (IH Ht) as [IH1 IH2], (ascii_units b Hb) as (E1 & E2 & E3).
  unfold ascii_path in *. cbn [map to_str to_string_lossy]. rewrite E1, E2, E3, IH1, IH2. done.
Qed.
Lemma hex_text_ascii b : forallb is_ascii (hex_text b) = true.
Proof.
  assert (forall n v, forallb is_ascii (hex_lower n v) = true) as Hh.
  { induction n as [|n IH]; intros v; [done|]. cbn [hex_lower forallb]. rewrite IH, andb_true_r.
    unfold hex_char. pose proof (Z.land_nonneg (Z.shiftr v (4 * Z.of_nat n)) 15).
    assert (0 <= Z.land (Z.shiftr v (4 * Z.of_nat n)) 15 < 16) as Hr.
    { rewrite (Z.land_ones _ 4) by lia. apply Z.mod_pos_bound. lia. }
    unfold is_ascii, in_range. rewrite b2z_z2b_small by (destruct (_ <? _) eqn:?; lia). destruct (_ <? _) eqn:?; lia. }
  unfold hex_text. induction b as [|x b IH]; [done|]. cbn [map concat]. by rewrite forallb_app, Hh, IH.
Qed.

(** Both texts of a reserved path are the path. *)
Lemma materialized_path_text kind identity : forallb is_ascii kind = true ->
  let p := materialized_process_path kind identity in to_str (ascii_path p) = Some p /\ to_string_lossy (ascii_path p) = p.
Proof.
  intros Hk p. apply ascii_path_text. unfold p, materialized_process_path.
  by rewrite !forallb_app, Hk, hex_text_ascii.
Qed.
Lemma host_source_ascii e kind identity content : host_source e = Some (kind, identity, content) -> forallb is_ascii kind = true.
Proof. destruct e; cbn; intros [= <- <- <-]; done. Qed.

(** A path determines what it was made from. *)
Lemma materialized_path_inj e e' kind identity content kind' identity' content' :
  host_source e = Some (kind, identity, content) -> host_source e' = Some (kind', identity', content') ->
  materialized_process_path kind identity = materialized_process_path kind' identity' ->
  collision blake3 \/ kind = kind' /\ identity = identity'.
Proof.
  unfold materialized_process_path. intros He He' E. apply app_inv_head in E. apply app_inv_head in E.
  destruct e, e'; try done; cbn in He, He'; injection He as <- <- <-; injection He' as <- <- <-; try done.
  all: apply app_inv_head, app_inv_head, hex_text_inj, sha256_inj in E as [E|?]; [right|by left].
  all: by do 2 apply app_inv_head in E.
Qed.

(** ** Injection *)

(** An injection holds the source of one of the processes. *)
Definition sourced (all : list BuilderProcess) (injections : btree bytes FileContent) : Prop :=
  forall path content, bt_get path injections = Some content -> exists s kind identity,
    s ∈ all /\ host_source (pr_executable (bp_process s)) = Some (kind, identity, content)
    /\ path = materialized_process_path kind identity.
(** What becomes of a scheduled process. *)
Definition rewritten (injections : btree bytes FileContent) (s s' : BuilderProcess) : Prop :=
  match host_source (pr_executable (bp_process s)) with
  | None => s' = s
  | Some (kind, identity, _) =>
      let path := materialized_process_path kind identity in
      is_Some (bt_get path injections)
      /\ s' = {| bp_trigger := bp_trigger s; bp_process := replace_executable (Executable_Exec (ascii_path path)) (bp_process s) |}
  end.
Definition extends (m m' : btree bytes FileContent) : Prop := forall k v, bt_get k m = Some v -> bt_get k m' = Some v.

Lemma materialize_one_ok all m s m' s' :
  bt_wf m -> sourced all m -> s ∈ all -> materialize_one m s = (m', s') ->
  bt_wf m' /\ sourced all m' /\ extends m m' /\ rewritten m' s s'.
Proof.
  unfold materialize_one, rewritten. intros Hw Hs Hin.
  destruct (host_source (pr_executable (bp_process s))) as [[[kind identity] content]|] eqn:E; [|intros [= <- <-]; split_and!; [done|done|by intros ?|done]].
  cbv zeta. intros [= <- <-]. destruct (bt_contains _ m) eqn:Ec.
  { apply bt_contains_get in Ec. split_and!; [done|done|by intros ?|done|done]. }
  assert (bt_get (materialized_process_path kind identity) m = None) as Hn.
  { destruct (bt_get _ m) eqn:Eg; [|done]. apply not_true_iff_false in Ec. destruct Ec. apply bt_contains_get. eauto. }
  split_and!; [by apply bt_wf_insert| | |rewrite bt_get_insert, decide_True by done; by eexists|done].
  - intros path c. rewrite bt_get_insert by done. case_decide as Hp; [intros [= <-]; eauto 10|apply Hs].
  - intros k v Hk. rewrite bt_get_insert by done. case_decide as Hp; [congruence|done].
Qed.
Lemma extends_rewritten m m' s s' : extends m m' -> rewritten m s s' -> rewritten m' s s'.
Proof.
  unfold rewritten. intros Hx. destruct (host_source _) as [[[kind identity] content]|]; [|done].
  intros [[c Hc] ->]. split; [eexists; by apply Hx|done].
Qed.
Lemma materialize_each_ok all ss m m' ss' :
  bt_wf m -> sourced all m -> ss ⊆ all -> materialize_each_process m ss = (m', ss') ->
  bt_wf m' /\ sourced all m' /\ extends m m' /\ Forall2 (rewritten m') ss ss'.
Proof.
  revert m ss'. induction ss as [|s ss IH]; intros m ss' Hw Hs Hin; cbn [materialize_each_process].
  - intros [= <- <-]. split_and!; [done|done|by intros ?|constructor].
  - destruct (materialize_one m s) as [m1 s1] eqn:E1, (materialize_each_process m1 ss) as [m2 ss2] eqn:E2.
    intros [= <- <-]. apply (materialize_one_ok all) in E1 as (Hw1 & Hs1 & Hx1 & Hr1); [|done|done|apply Hin; by left].
    apply IH in E2 as (Hw2 & Hs2 & Hx2 & Hr2); [|done|done|intros x Hx; apply Hin; by right].
    split_and!; [done|done|by intros k v Hk; apply Hx2, Hx1|]. constructor; [|done]. by eapply extends_rewritten.
Qed.

(** ** The build stage *)

Lemma collect_ok {E A B} (f : A -> res E B) xs ys : collect f xs = Ok ys <-> Forall2 (fun x y => f x = Ok y) xs ys.
Proof.
  revert ys. induction xs as [|x xs IH]; intros ys; cbn [collect].
  - split; [intros [= <-]; constructor|intros ->%Forall2_nil_inv_l; done].
  - rewrite bind_ok_iff. setoid_rewrite bind_ok_iff. setoid_rewrite IH. split.
    + intros (y & Hy & zs & Hz & [= <-]). by constructor.
    + intros (y & zs & Hy & Hz & ->)%Forall2_cons_inv_l. eauto.
Qed.

Lemma injected_entry path content entry :
  to_str (ascii_path path) = Some path ->
  file_entry (injected_file (path, content)) = Ok entry <->
  exists data origin, resolve_content content = Ok (data, origin)
    /\ entry = {| oe_path := path; oe_kind := Runtime.Overlay_File data 493 origin |}.
Proof.
  intros Hp. unfold file_entry.
  change (file_path (injected_file (path, content))) with (Some (ascii_path path)).
  change (file_content (injected_file (path, content))) with (Some content).
  change (file_mode (injected_file (path, content))) with 493.
  cbn [ok_or mbind res_bind]. unfold overlay_path_string. rewrite Hp. cbn [ok_or mbind res_bind].
  destruct (resolve_content content) as [[data origin]|e|]; cbn [mbind res_bind]; naive_solver.
Qed.

(** Different paths, different mounts, existing parent directories. *)
Definition disks_valid (disks : list DiskSpec) : Prop :=
  NoDup (map normalized_host_path disks) /\ NoDup (map (fun d => gm_path (ds_guest_mount d)) disks)
  /\ Forall (fun d => exists p, parent (normalized_host_path d) = Some p /\ is_dir p = true) disks.
Lemma validate_disks_iff disks : validate_disks is_dir disks = Ok tt <-> disks_valid disks.
Proof.
  assert (forall ps ts, NoDup ps -> NoDup ts -> (exists r, for_each (check_disk_spec is_dir) disks (ps, ts) = Ok r) <->
    NoDup (ps ++ map normalized_host_path disks) /\ NoDup (ts ++ map (fun d => gm_path (ds_guest_mount d)) disks)
    /\ Forall (fun d => exists p, parent (normalized_host_path d) = Some p /\ is_dir p = true) disks) as H1.
  { induction disks as [|d disks IH]; intros ps ts Hp Ht; cbn [for_each map].
    - rewrite !app_nil_r. split; [done|eauto].
    - rewrite (app_cons_snoc ps (map _ disks)), (app_cons_snoc ts (map _ disks)), Forall_cons. split.
      + intros (r & (q & Hq & Hr)%bind_ok_iff). cbn [check_disk_spec] in Hq. apply guard_ok_iff in Hq as [H1%bool_decide_eq_false Hq].
        apply bind_ok_iff in Hq as (p & Hpar & Hq). apply guard_ok_iff in Hq as [Hd%negb_false_iff Hq].
        apply guard_ok_iff in Hq as [H2%bool_decide_eq_false [= <-]].
        destruct (proj1 (IH (ps ++ [_]) (ts ++ [_]) ltac:(by apply NoDup_snoc_iff) ltac:(by apply NoDup_snoc_iff)) (ex_intro _ r Hr)) as (? & ? & ?).
        split_and!; try done. exists p. split; [|done]. by destruct (parent _); cbn in Hpar; simplify_eq.
      + intros (Hps & Hts & (p & Hpar & Hd) & Hf). pose proof Hps as Hps'. pose proof Hts as Hts'.
        apply NoDup_app in Hps' as (Hps' & _), Hts' as (Hts' & _).
        pose proof (proj1 (NoDup_snoc_iff _ _) Hps') as [_ ?]. pose proof (proj1 (NoDup_snoc_iff _ _) Hts') as [_ ?].
        destruct (proj2 (IH (ps ++ [_]) (ts ++ [_]) Hps' Hts') (conj Hps (conj Hts Hf))) as [r Hr]. exists r.
        cbn [check_disk_spec]. rewrite bool_decide_eq_false_2 by done. rewrite Hpar. cbn. rewrite Hd. cbn.
        rewrite bool_decide_eq_false_2 by done. done. }
  unfold validate_disks, disks_valid. specialize (H1 [] [] (NoDup_nil_2) (NoDup_nil_2)). cbn [app] in H1. rewrite <-H1.
  rewrite bind_ok_iff. naive_solver.
Qed.

(** ** The launch request *)

Lemma sourced_path all m : sourced all m -> forall path content, bt_get path m = Some content -> to_str (ascii_path path) = Some path.
Proof.
  intros Hs path content (s & kind & identity & _ & He & ->)%Hs. apply materialized_path_text. by eapply host_source_ascii.
Qed.

Lemma injected_entries all m es :
  bt_wf m -> sourced all m -> Forall2 (fun f e => file_entry f = Ok e) (map injected_file m) es ->
  map oe_path es = bt_keys m
  /\ forall path content, bt_get path m = Some content -> exists data origin, resolve_content content = Ok (data, origin)
       /\ {| oe_path := path; oe_kind := Runtime.Overlay_File data 493 origin |} ∈ es.
Proof.
  intros Hw Hs He. rewrite Forall2_fmap_l in He.
  assert (Forall2 (fun x e => exists data origin, resolve_content x.2 = Ok (data, origin)
            /\ e = {| oe_path := x.1; oe_kind := Runtime.Overlay_File data 493 origin |}) m es) as Hf.
  { assert (Forall (fun x => to_str (ascii_path x.1) = Some x.1) m) as Ht.
    { apply Forall_forall. intros [path content] Hx. apply bt_get_elem in Hx; [|done]. by eapply sourced_path. }
    clear Hw Hs. induction He as [|x e m es Hx _ IH]; [constructor|]. apply Forall_cons in Ht as [Hx' Ht].
    constructor; [|by apply IH]. destruct x as [path content]. by apply injected_entry in Hx. }
  split.
  - clear -Hf. induction Hf as [|x e m es (data & origin & _ & ->) _ IH]; [done|]. cbn. by rewrite IH.
  - intros path content Hg%bt_get_elem; [|done]. apply list_elem_of_lookup in Hg as [i Hi].
    destruct (Forall2_lookup_l _ _ _ _ _ Hf Hi) as (e & Hei & data & origin & Hr & ->). exists data, origin.
    split; [done|]. by eapply list_elem_of_lookup_2.
Qed.

(** The overlay holds the file with this content, readable and executable. *)
Definition injected (entries : list BootOverlayEntry) (path data : bytes) : Prop :=
  exists origin, {| oe_path := path; oe_kind := Runtime.Overlay_File data 493 origin |} ∈ entries.

(** What a scheduled process runs: its own shell command, its own guest path,
    its own bytes, or the compiled binary of its own cache identity, where it
    looks for it. *)
Definition runs_own (all : list BuilderProcess) (entries : list BootOverlayEntry) (p : Process) (path : bytes) (args : list bytes) : Prop :=
  match pr_executable p with
  | Executable_Shell command => path = str "/bin/sh" /\ args = [str "-c"; command; str "jyth-shell"] ++ pr_args p
  | Executable_Exec guest => path = to_string_lossy guest /\ args = pr_args p
  | Executable_Bytes data => args = pr_args p /\ (collision blake3 \/ injected entries path data)
  | Executable_Rust binary =>
      args = pr_args p /\
      (collision blake3 \/ exists binary' data s, s ∈ all /\ pr_executable (bp_process s) = Executable_Rust binary'
         /\ cache_identity binary' = cache_identity binary /\ build_crate binary' = Crate_Built data /\ injected entries path data)
  end.
Definition launched_as (all : list BuilderProcess) (entries : list BootOverlayEntry) (s : BuilderProcess) (s' : ScheduledProcess) : Prop :=
  let p := bp_process s in let q : DirectProcess.PreparedProcess := sp_process s' in
  sp_trigger s' = bp_trigger s /\ pp_envs q = pr_envs p /\ pp_cwd q = to_string_lossy <$> pr_cwd p /\ pp_timeout q = pr_timeout p
  /\ pp_stdout q = pr_stdout p /\ pp_stderr q = pr_stderr p /\ pp_lifecycle q = pr_lifecycle p
  /\ runs_own all entries p (pp_path q) (pp_args q).

Lemma rewritten_launched all m entries s s' q :
  sourced all m ->
  (forall path content, bt_get path m = Some content -> exists data origin, resolve_content content = Ok (data, origin)
     /\ {| oe_path := path; oe_kind := Runtime.Overlay_File data 493 origin |} ∈ entries) ->
  rewritten m s s' -> prepare_process s' = Ok q -> launched_as all entries s q.
Proof.
  unfold rewritten, prepare_process, launched_as, runs_own. intros Hs He Hr Hq.
  apply bind_ok_iff in Hq as (pp & Hp%map_err_ok & [= <-]). cbn [sp_trigger sp_process].
  destruct (host_source (pr_executable (bp_process s))) as [[[kind identity] content]|] eqn:E.
  - destruct Hr as [[found Hg] ->]. cbv zeta in *.
    destruct (materialized_path_text kind identity) as [_ Et]; [by eapply host_source_ascii|].
    unfold into_prepared in Hp. cbn [bp_process pr_executable replace_executable fst] in Hp. rewrite Et in Hp. injection Hp as <-.
    cbn [pp_path pp_args pp_envs pp_cwd pp_timeout pp_stdout pp_stderr pp_lifecycle bp_trigger].
    destruct (He _ _ Hg) as (data & origin & Hc & Hin). destruct (Hs _ _ Hg) as (s0 & kind0 & identity0 & H0 & E0 & Ep).
    split_and!; try done.
    destruct (materialized_path_inj _ _ _ _ _ _ _ _ E E0 Ep) as [Hcol|[<- <-]].
    + destruct (pr_executable (bp_process s)); try done; (split; [done|by left]).
    + destruct (pr_executable (bp_process s)) as [| |binary|d] eqn:Es; try done; injection E as <- <- <-;
        destruct (pr_executable (bp_process s0)) as [| |binary0|d0] eqn:E1; try done; (split; [done|right]).
      * injection E0 as Ei <-. cbn in Hc. destruct (build_crate binary0) as [d| | |] eqn:Eb; try done. injection Hc as -> <-.
        exists binary0, data, s0. split_and!; [done|done|done|done|by exists (str "crate:" ++ cache_identity binary0)].
      * injection E0 as <- <-. injection Hc as <- <-. by eexists.
  - subst s'. unfold into_prepared in Hp. destruct (pr_executable (bp_process s)); try done; injection Hp as <-; cbn; done.
Qed.

Lemma all_launched all m entries ss ss' ps :
  sourced all m ->
  (forall path content, bt_get path m = Some content -> exists data origin, resolve_content content = Ok (data, origin)
     /\ {| oe_path := path; oe_kind := Runtime.Overlay_File data 493 origin |} ∈ entries) ->
  Forall2 (rewritten m) ss ss' -> Forall2 (fun s q => prepare_process s = Ok q) ss' ps -> Forall2 (launched_as all entries) ss ps.
Proof.
  intros Hs He Hr. revert ps. induction Hr as [|s s' ss ss' Hr _ IH]; intros ps Hp.
  - apply Forall2_nil_inv_l in Hp as ->. constructor.
  - apply Forall2_cons_inv_l in Hp as (q & qs & Hq & Hqs & ->). constructor; [|by apply IH]. by eapply rewritten_launched.
Qed.

(** The build stage never meets a process it cannot prepare. *)
Lemma rewritten_prepares m s s' : rewritten m s s' -> is_ok (prepare_process s') = true.
Proof.
  unfold rewritten, prepare_process, into_prepared. destruct (pr_executable (bp_process s)) eqn:E; cbn [host_source].
  1, 2: by intros ->; rewrite E.
  all: by intros [_ ->].
Qed.

(** The request the runtime gets. *)
Record requested (b : VmBuilder) (cmdline : bytes) (tr : list (Net.event mat)) (l : Launch) : Prop := {
  rq_image : exists kernel kernel_id rootfs_id, vb_kernel b = Some kernel
    /\ yields tr (materialize_image kernel (vb_rootfs b)) (kernel_id, Some rootfs_id)
    /\ kernel_source (Runtime.request l) = artifact_path kernel_id /\ rootfs_source (Runtime.request l) = artifact_path rootfs_id;
  rq_overlay : exists dirs files own,
    Forall2 (fun d e => dir_entry d = Ok e) (vb_dirs b) dirs /\ Forall2 (fun f e => file_entry f = Ok e) (vb_files b) files
    /\ NoDup (map oe_path own)
    /\ overlay_entries (Runtime.request l) = dirs ++ (if is_empty own then [] else
         [{| oe_path := str "/jyth"; oe_kind := Runtime.Overlay_Directory 493 |};
          {| oe_path := MATERIALIZED_PROCESS_ROOT; oe_kind := Runtime.Overlay_Directory 493 |}]) ++ files ++ own;
  rq_machine : req_memory_mb (Runtime.request l) = memory_mb <$> vb_mem b /\ req_vcpu_count (Runtime.request l) = cpu_units <$> vb_cpu b
    /\ req_cmdline (Runtime.request l) = cmdline /\ req_network (Runtime.request l) = vb_network b /\ req_disks (Runtime.request l) = vb_disks b;
  rq_shutdown : Runtime.shutdown_trigger l = vb_shutdown b;
  rq_processes : Forall2 (launched_as (vb_scheduled b) (overlay_entries (Runtime.request l))) (vb_scheduled b) (Runtime.scheduled_processes l) }.

Lemma build_overlay_ok files dirs es :
  build_overlay_entries files dirs = Ok es <-> exists ds fs, es = ds ++ fs
    /\ Forall2 (fun d e => dir_entry d = Ok e) dirs ds /\ Forall2 (fun f e => file_entry f = Ok e) files fs.
Proof.
  unfold build_overlay_entries. split.
  - intros (ds & Hd%collect_ok & (fs & Hf%collect_ok & [= <-])%bind_ok_iff)%bind_ok_iff. by exists ds, fs.
  - intros (ds & fs & -> & Hd%collect_ok & Hf%collect_ok). rewrite Hd. cbn [mbind res_bind]. by rewrite Hf.
Qed.

Lemma build_yields T b input : yields T (build b) input ->
  exists kernel kernel_id rootfs_id, vb_kernel b = Some kernel /\ yields T (materialize_image kernel (vb_rootfs b)) (kernel_id, Some rootfs_id)
    /\ bi_kernel input = artifact_path kernel_id /\ bi_rootfs input = artifact_path rootfs_id
    /\ build_overlay_entries (vb_files b) (vb_dirs b) = Ok (bi_entries input).
Proof.
  intros (kernel & Hk%yields_res & ([kid rid] & Hm%yields_map_err & (r & Hr%yields_res & (es & Hes%yields_res & ->%yields_ret)%yields_bind)%yields_bind)%yields_bind)%yields_bind.
  destruct (vb_kernel b) as [k|]; [|done]. injection Hk as ->. cbn in Hr. destruct rid as [rid|]; [|done]. injection Hr as ->.
  exists kernel, kid, r. done.
Qed.

(** The overlay of a builder whose executables were injected. *)
Lemma injected_overlay b m scheduled es :
  materialize_each_process [] (vb_scheduled b) = (m, scheduled) ->
  build_overlay_entries (vb_files (materialize_process_executables b)) (vb_dirs (materialize_process_executables b)) = Ok es ->
  exists dirs files own,
    Forall2 (fun d e => dir_entry d = Ok e) (vb_dirs b) dirs /\ Forall2 (fun f e => file_entry f = Ok e) (vb_files b) files
    /\ Forall2 (fun f e => file_entry f = Ok e) (map injected_file m) own
    /\ es = dirs ++ (if is_empty own then [] else
         [{| oe_path := str "/jyth"; oe_kind := Runtime.Overlay_Directory 493 |};
          {| oe_path := MATERIALIZED_PROCESS_ROOT; oe_kind := Runtime.Overlay_Directory 493 |}]) ++ files ++ own.
Proof.
  intros Em. unfold materialize_process_executables. rewrite Em. cbn [vb_files vb_dirs].
  intros (ds & fs & -> & Hd & Hf)%build_overlay_ok. destruct m as [|x m]; cbn [is_empty] in Hd, Hf.
  - exists ds, fs, []. cbn. rewrite app_nil_r. by split_and!.
  - apply Forall2_app_inv_l in Hd as (d1 & d2 & Hd1 & Hd2 & ->), Hf as (f1 & f2 & Hf1 & Hf2 & ->).
    exists d1, f1, f2. destruct f2 as [|e f2]; [by apply Forall2_nil_inv_r in Hf2|]. split_and!; [done|done|done|].
    unfold injected_dirs in Hd2. apply Forall2_cons_inv_l in Hd2 as (e1 & r1 & H1 & Hd2 & ->).
    apply Forall2_cons_inv_l in Hd2 as (e2 & r2 & H2 & ->%Forall2_nil_inv_l & ->).
    vm_compute in H1, H2. injection H1 as <-. injection H2 as <-. by rewrite <-app_assoc.
Qed.

Lemma prepared_exact host cmdline b tr l :
  exec (prepare_launch host cmdline b) tr (Ok l) -> host = WindowsHcs /\ disks_valid (vb_disks b) /\ requested b cmdline tr l.
Proof.
  intros H1%yields_self. apply yields_bind in H1 as ([] & Hh%yields_res & H1).
  apply yields_bind in H1 as ([] & Hd%yields_res & (input & Hb%yields_map_err & (ps & Hp%yields_res & ->%yields_ret)%yields_bind)%yields_bind).
  apply build_yields in Hb as (kernel & kid & rid & Hk & Hm & Ek & Er & Hes). apply collect_ok in Hp.
  destruct (materialize_each_process [] (vb_scheduled b)) as [m scheduled] eqn:Em.
  assert (vb_scheduled (materialize_process_executables b) = scheduled) as Esc by (unfold materialize_process_executables; by rewrite Em).
  rewrite Esc in Hp. destruct (injected_overlay b m scheduled _ Em Hes) as (dirs & files & own & Hds & Hfs & Hown & Ees).
  assert (forall A (f : VmBuilder -> A), (forall k r fs ds c me n di o s1 s2 sh fs' ds',
    f (Build_VmBuilder k r fs ds c me n di o s1 sh) = f (Build_VmBuilder k r fs' ds' c me n di o s2 sh)) ->
    f (materialize_process_executables b) = f b) as Hkeep.
  { intros A f Hf. unfold materialize_process_executables. rewrite Em. destruct b. apply Hf. }
  rewrite (Hkeep _ vb_disks) in Hd by done. rewrite (Hkeep _ vb_kernel) in Hk by done. rewrite (Hkeep _ vb_rootfs) in Hm by done.
  apply validate_disks_iff in Hd.
  apply (materialize_each_ok (vb_scheduled b)) in Em as (Hw & Hs & _ & Hr); [|apply bt_wf_nil|done|done].
  destruct (injected_entries _ _ _ Hw Hs Hown) as [Hkeys Hget].
  split_and!; [by destruct host|done|]. split; cbn [Runtime.request overlay_entries kernel_source rootfs_source req_memory_mb req_vcpu_count req_cmdline req_network req_disks Runtime.scheduled_processes Runtime.shutdown_trigger].
  - by exists kernel, kid, rid.
  - exists dirs, files, own. split_and!; [done|done| |done]. rewrite Hkeys. by apply bt_keys_NoDup.
  - split_and!; [by rewrite (Hkeep _ vb_mem)|by rewrite (Hkeep _ vb_cpu)|done|by rewrite (Hkeep _ vb_network)|by rewrite (Hkeep _ vb_disks)].
  - by rewrite (Hkeep _ vb_shutdown).
  - rewrite Ees. eapply all_launched; [done| |done|done]. intros path content Hg.
    destruct (Hget _ _ Hg) as (data & origin & Hc & Hin). exists data, origin. split; [done|]. rewrite !elem_of_app. auto.
Qed.

(** And nothing else can go wrong. *)
Lemma prepares cmdline b tr kernel kernel_id rootfs_id entries :
  disks_valid (vb_disks b) -> vb_kernel b = Some kernel ->
  exec (materialize_image kernel (vb_rootfs b)) tr (Ok (kernel_id, Some rootfs_id)) ->
  build_overlay_entries (vb_files (materialize_process_executables b)) (vb_dirs (materialize_process_executables b)) = Ok entries ->
  exists l, exec (prepare_launch WindowsHcs cmdline b) tr (Ok l).
Proof.
  intros Hd Hk Hm He. destruct (materialize_each_process [] (vb_scheduled b)) as [m scheduled] eqn:Em.
  pose proof (materialize_each_ok (vb_scheduled b) _ _ _ _ bt_wf_nil ltac:(done) ltac:(done) Em) as (_ & _ & _ & Hr).
  assert (exists ps, collect prepare_process scheduled = Ok ps) as [ps Hps].
  { clear -Hr. induction Hr as [|s s' ss ss' Hr _ [ps IH]]; [by exists []|]. apply rewritten_prepares in Hr. cbn [collect].
    destruct (prepare_process s'); [|done..]. cbn [mbind res_bind]. rewrite IH. by eexists. }
  set (b' := materialize_process_executables b) in *.
  assert (b' = materialize_process_executables b) as Eb by done. unfold materialize_process_executables in Eb. rewrite Em in Eb.
  eexists. unfold prepare_launch. fold b'.
  apply (exec_bind_intro _ _ [] tr tt); [done|]. apply (exec_bind_intro _ _ [] tr tt); [split; [done|]; symmetry; apply validate_disks_iff; by rewrite Eb|].
  rewrite <-(app_nil_r tr). eapply exec_bind_intro; [apply exec_map_err|].
  - unfold build. apply (exec_bind_intro _ _ [] tr kernel); [by rewrite Eb; cbn; rewrite Hk|]. rewrite <-(app_nil_r tr).
    eapply exec_bind_intro; [apply exec_map_err; rewrite Eb; exact Hm|]. apply (exec_bind_intro _ _ [] [] rootfs_id); [done|].
    apply (exec_bind_intro _ _ [] [] entries); [by rewrite He|]. done.
  - apply (exec_bind_intro _ _ [] [] ps); [|done]. by rewrite Eb.
Qed.


(** ** What the observer sees *)

(** A flow that publishes no state, not even when it is dropped. *)
Definition observes (e : effect) : bool := match e with Observe _ => true | _ => false end.
Fixpoint unobserving {A} (m : flow A) : Prop :=
  match m with
  | Ret _ => True
  | Await _ cleanup k => forallb (fun e => negb (observes e)) cleanup = true /\ forall r, unobserving (k r)
  | Now _ k => forall r, unobserving (k r)
  | Emit e k => observes e = false /\ unobserving k
  end.
Lemma observed_did s es : forallb (fun e => negb (observes e)) es = true -> observed s (Did <$> es) = s.
Proof. induction es as [|[] es IH]; cbn; try done. Qed.
Lemma unobserving_runs {A} (m : flow A) s t o : unobserving m -> runs m t o -> observed s t = s.
Proof.
  revert t. induction m as [a|c cl k IH|c k IH|e k IH]; intros t; cbn [unobserving runs].
  - by intros _ [-> _].
  - intros [Hc Hk] [(r & t' & -> & Hr)|[-> _]]; cbn [observed]; [by eapply IH|]. by apply observed_did.
  - intros Hk (r & t' & -> & Hr). cbn [observed]. by eapply IH.
  - intros [He Hk] (t' & -> & Hr). destruct e; try done; cbn; by apply IH.
Qed.
Lemma unobserving_bind {A B} (m : flow A) (f : A -> flow B) : unobserving m -> (forall a, unobserving (f a)) -> unobserving (flow_bind m f).
Proof.
  intros Hm Hf. induction m as [a|c cl k IH|c k IH|e k IH]; cbn [flow_bind unobserving] in *; [done|..].
  - destruct Hm as [? Hm]. split; [done|]. intros r. by apply IH.
  - intros r. by apply IH.
  - destruct Hm as [? Hm]. split; [done|]. by apply IH.
Qed.
Lemma unobserving_holding {A} d (m : flow A) : observes d = false -> unobserving m -> unobserving (holding [d] m).
Proof.
  intros Hd Hm. induction m as [a|c cl k IH|c k IH|e k IH]; cbn [holding unobserving] in *; [done|..].
  - destruct Hm as [Hc Hm]. split; [rewrite forallb_app, Hc; cbn; by rewrite Hd|]. intros r. by apply IH.
  - intros r. by apply IH.
  - destruct Hm as [? Hm]. split; [done|]. by apply IH.
Qed.
Lemma unobserving_scoped {E A} d (m : flow (res E A)) : observes d = false -> unobserving m -> unobserving (scoped d m).
Proof. intros Hd Hm. apply unobserving_bind; [by apply unobserving_holding|]. by intros []. Qed.
Lemma unobserving_try {E E' A B} (g : E -> E') (m : flow (res E A)) (f : A -> flow (res E' B)) :
  unobserving m -> (forall a, unobserving (f a)) -> unobserving (try_map g m f).
Proof. intros Hm Hf. apply unobserving_bind; [done|]. by intros []. Qed.
Lemma unobserving_try_ {E A B} (m : flow (res E A)) (f : A -> flow (res E B)) :
  unobserving m -> (forall a, unobserving (f a)) -> unobserving (try_ m f).
Proof. intros Hm Hf. apply unobserving_bind; [done|]. by intros []. Qed.
Lemma unobserving_await c : unobserving (await c).
Proof. done. Qed.

(** The runtime's own flow publishes through [Launcher_launch] only. *)
Ltac unobserving_flow :=
  repeat match goal with
  | |- unobserving (try_map _ _ _) => apply unobserving_try; [|intros ?]
  | |- unobserving (try_ _ _) => apply unobserving_try_; [|intros ?]
  | |- unobserving (flow_bind _ _) => apply unobserving_bind; [|intros ?]
  | |- unobserving (scoped _ _) => apply unobserving_scoped; [done|]
  | |- unobserving (await _) => apply unobserving_await
  | |- unobserving (now _) => intros ?
  | |- unobserving (if ?c then _ else _) => destruct c
  | |- unobserving (Ret _) => exact I
  end.
Lemma unobserving_create retry spec n attempt last : unobserving (create_attempts retry spec n attempt last).
Proof.
  revert attempt last. induction n as [|n IH]; intros attempt last; cbn [create_attempts]; [done|]. unfold create_once.
  unobserving_flow. destruct a as [i|e|]; [done| |done]. unobserving_flow. apply IH.
Qed.
Lemma unobserving_launch_inner retry l observer : unobserving (launch_inner retry l observer).
Proof.
  unfold launch_inner, prepare, create_and_start, LiveVm_new. destruct (req_network _); [|done].
  unobserving_flow; try apply unobserving_create. by destruct (negb _).
Qed.

Definition launch_failed (message : bytes) : VmState := Runtime.Failed {| vf_phase := Phase_Launch; vf_message := message |}.

(** The runtime leaves the observer running, failed with its own message, or,
    on a panic or a drop, launching. *)
Lemma launcher_observed retry l t o : runs (Launcher_launch retry l true) t o ->
  observed Launching t = match o with
                         | Returned (Ok _) => VmRunning
                         | Returned (Err e) => launch_failed (RuntimeError_display e)
                         | Returned Panic | Dropped => Launching
                         end.
Proof.
  unfold Launcher_launch. intros (t' & -> & [(t1 & r & t2 & -> & H1 & H2)|[H1 ->]]%flow_runs_bind); cbn [observed Runtime.set is_terminal].
  - rewrite observed_app, (unobserving_runs _ _ _ _ (unobserving_launch_inner _ _ _) H1).
    destruct r as [live|e|]; cbn in H2.
    + destruct H2 as (t3 & -> & -> & ->). done.
    + destruct H2 as (t3 & -> & -> & ->). done.
    + destruct H2 as [-> ->]. done.
  - by rewrite (unobserving_runs _ _ _ _ (unobserving_launch_inner _ _ _) H1).
Qed.

(** However a launch ends, its observer ends in the state that tells how: it
    is running exactly if a machine was returned; an error before the runtime
    is published with its full diagnostic, one of the runtime with the
    runtime's message; a panic or a dropped future as a cancellation. *)
Theorem launch_observed b prepared launcher t o :
  vb_observer b = true -> runs (facade_launch b prepared launcher) t o ->
  match o with
  | Returned (Ok _) => observed Runtime.Pending t = VmRunning
  | Returned (Err e) => observed Runtime.Pending t = launch_failed (debug e)
      \/ exists re, e = map_runtime_error re /\ observed Runtime.Pending t = launch_failed (RuntimeError_display re)
  | Returned Panic | Dropped => observed Runtime.Pending t = launch_failed launch_cancelled
  end.
Proof.
  intros Hb. unfold facade_launch. rewrite Hb. intros (t' & -> & Ht). cbn [observed Runtime.set is_terminal].
  apply flow_runs_bind in Ht as [(t1 & r & t2 & -> & H1 & H2)|[H1 ->]].
  - apply runs_holding in H1 as [(r' & [= <-] & H1)|[? _]]; [|done]. rewrite observed_app.
    assert ((match r with Ok _ => observed Launching t1 = VmRunning
             | Err e => observed Launching t1 = Launching \/ exists re, e = map_runtime_error re /\ observed Launching t1 = launch_failed (RuntimeError_display re)
             | Panic => observed Launching t1 = Launching end)) as Hr.
    { unfold facade_launch_inner in H1. destruct (vb_network b); [|destruct H1 as [-> [= ->]]; by left].
      unfold try_ in H1. cbn [flow_bind] in H1. destruct prepared as [l|e|]; [|destruct H1 as [-> [= ->]]; by left|by destruct H1 as [-> [= ->]]].
      destruct launcher as [retry|e|]; [|destruct H1 as [-> [= ->]]; by left|by destruct H1 as [-> [= ->]]].
      apply flow_runs_bind in H1 as [(u1 & a & u2 & -> & Hl & Hu)|[_ ?]]; [|done]. rewrite observed_app, (launcher_observed _ _ _ _ Hl).
      destruct a as [live|e|]; destruct Hu as [-> [= ->]]; [done|right; by exists e|done]. }
    destruct r as [live|e|].
    + destruct H2 as [-> ->]. done.
    + destruct H2 as (t3 & -> & -> & ->). cbn. destruct Hr as [->|(re & -> & ->)]; [by left|right; by exists re].
    + destruct H2 as (t3 & -> & -> & ->). cbn. by rewrite Hr.
  - apply runs_holding in H1 as [(? & ? & _)|(_ & u & -> & H1)]; [done|]. rewrite observed_app.
    unfold facade_launch_inner in H1. destruct (vb_network b); [|by destruct H1 as [_ ?]].
    unfold try_ in H1. cbn [flow_bind] in H1. destruct prepared as [l|e|]; [|by destruct H1 as [_ ?]..].
    destruct launcher as [retry|e|]; [|by destruct H1 as [_ ?]..].
    apply flow_runs_bind in H1 as [(u1 & a & u2 & -> & _ & Hu)|[Hl _]]; [by destruct a; destruct Hu as [_ ?]|].
    by rewrite (launcher_observed _ _ _ _ Hl).
Qed.
End Builder.

(** ** Process descriptions *)

(** A builder on which an executable was selected builds, or says which of its
    limits is wrong; it never panics. *)
Definition output_valid (o : Output) : Prop :=
  match o with
  | Capture_ options => 0 <> co_limit options /\ co_limit options <= MAX_CAPTURE_LIMIT /\
      match co_end options with CaptureBytes n => n <> 0 | Delimiter d => d <> [] | _ => True end
  | _ => True
  end.
Definition executable_valid (e : Executable) : Prop :=
  match e with Executable_Exec path => path <> [] | Executable_Rust binary => manifest_path binary <> [] | _ => True end.
Lemma validate_output_iff o : validate_output o = Ok tt <-> output_valid o.
Proof.
  destruct o as [|options| |]; cbn [validate_output output_valid]; try done. rewrite !guard_ok_iff, Z.eqb_neq, Z.ltb_ge.
  destruct (co_end options) as [|n|d|]; rewrite ?unit_ok_iff; unfold fail_if;
    [| destruct (n =? 0) eqn:?| destruct (is_empty d) eqn:Ed|]; try (destruct d; try done); naive_solver lia.
Qed.
Lemma validate_executable_iff e : validate_executable e = Ok tt <-> executable_valid e.
Proof. destruct e as [|[|]|[[|] ?]|]; cbn; naive_solver. Qed.

Lemma configured_executable base e configs :
  df_executable (draft (foldl configure (process e base) configs)) = Some e.
Proof.
  assert (forall b : ProcessBuilder Configured, df_executable (draft b) = Some e ->
    df_executable (draft (foldl configure b configs)) = Some e) as H; [|by apply H].
  induction configs as [|c configs IH]; intros b Hb; [done|]. cbn [foldl]. apply IH. by destruct c.
Qed.
Theorem process_built base e configs :
  let b := foldl configure (process e base) configs in
  ProcessBuilder_build b <> Panic
  /\ (is_ok (ProcessBuilder_build b) = true <->
      executable_valid e /\ output_valid (df_stdout (draft b)) /\ output_valid (df_stderr (draft b))).
Proof.
  intros b. unfold ProcessBuilder_build. rewrite (configured_executable base e configs : df_executable (draft b) = Some e).
  cbn [expect mbind res_bind]. rewrite <-validate_executable_iff, <-!validate_output_iff.
  assert (validate_executable e <> Panic) by (destruct e as [|[|]|[[|] ?]|]; done).
  assert (forall o, validate_output o <> Panic) as Ho.
  { intros [|options| |]; cbn; try done. apply guard_not_panic. intros _. apply guard_not_panic. intros _.
    destruct (co_end options); try done; apply fail_if_not_panic. }
  pose proof (Ho (df_stdout (draft b))). pose proof (Ho (df_stderr (draft b))).
  destruct (validate_executable e) as [[]| |]; [|naive_solver..]. cbn [mbind res_bind].
  destruct (validate_output (df_stdout (draft b))) as [[]| |]; [|naive_solver..]. cbn [mbind res_bind].
  destruct (validate_output (df_stderr (draft b))) as [[]| |]; naive_solver.
Qed.

(** ** A builder at work *)

Module FacadeExample.
#[local] Existing Instances KernelExample.toy_url unix simple_net.

(** Two processes that run the same bytes, one that runs a shell command, and
    a file of the caller; the kernel and its modules come out of an archive,
    the root file system is cached. *)
Definition program : bytes := str "ELF".
Definition plain (e : Executable) : Process := {|
  pr_executable := e; pr_args := [str "-v"]; pr_envs := []; pr_cwd := None; pr_timeout := None;
  pr_stdout := Discard; pr_stderr := Discard; pr_lifecycle := None |}.
Definition hash (b : bytes) : bytes := b.
Definition crates (b : RustBinary) : crate_build := Crate_Failed.
Definition somewhere (_ : ArtifactId) : Path := [RootDir].
Definition builder : VmBuilder (F:=nat) :=
  foldl set_field VmBuilder_new [
    Set_kernel MaterializeExample.the_archive; Set_rootfs (Link_local (str "/root.cpio" : PathBuf));
    Add_file (File_content (Content_Bytes (str "guest")) (File_path (ascii_path (str "/etc/hostname")) File_new));
    Run_on (On_Success 0%nat) (plain (Executable_Bytes program));
    Run_on (On_Fail 0%nat) (plain (Executable_Shell (str "reboot")));
    Run_on (On_Resolve 1%nat) (plain (Executable_Bytes program)) ].

Definition root_digest : LinkDigest := MaterializeExample.digest_of 7.
Definition root_at : LinkRef := MaterializeExample.key NS_Rootfs root_digest.
Definition root_file : FileRef := MaterializeExample.file NS_Rootfs ContainerCpio.
Definition merged_at : LinkRef :=
  MaterializeExample.key NS_Rootfs (merge_digest hash (fr_file_digest root_file) (fr_file_digest (MaterializeExample.file NS_Modules ContainerCpio))).
Definition image_run : list (Net.event mat) := MaterializeExample.run ++ [
  EvExt (F:=mat) (ResolveSource (Link_local (str "/root.cpio" : PathBuf)))
    (Some {| rs_link := AL_Local (str "/root.cpio" : PathBuf) 7; rs_is_image := false; rs_source_digest := root_digest |});
  EvExt (F:=mat) (ReserveLinkRef (kernel_key NS_Rootfs root_digest)) (Ok root_at);
  EvExt (F:=mat) (ReadFileRef root_at) (Ok (Some root_file));
  EvExt (F:=mat) (ValidateCpio root_file) (Ok tt);
  EvExt (F:=mat) (ReserveLinkRef (kernel_key NS_Rootfs (lr_link_digest merged_at))) (Ok merged_at);
  EvExt (F:=mat) (ReadFileRef merged_at) (Ok (Some root_file)) ].

Abbreviation prepare_it := (prepare_launch hash crates (fun _ => true) MaterializeExample.path_of (Some RequestExample.recipe_identity) somewhere).
Lemma image_materialized : exists kernel_id rootfs_id,
  exec (materialize_image hash MaterializeExample.path_of (Some RequestExample.recipe_identity) MaterializeExample.the_archive (vb_rootfs builder))
    image_run (Ok (kernel_id, Some rootfs_id)).
Proof.
  exists (id_of_file (MaterializeExample.file NS_Kernel FileBzImage)), (id_of_file root_file).
  repeat (hnf; eexists _, _; split; [reflexivity|]). by split.
Qed.

(** Both processes start the one injected file. *)
Definition injected_builder : VmBuilder (F:=nat) := materialize_process_executables hash builder.
Example bytes_shared :
  map (fun s => pr_executable (bp_process s)) (vb_scheduled injected_builder) =
    [Executable_Exec (ascii_path (materialized_process_path hash (str "bytes") program)); Executable_Shell (str "reboot");
     Executable_Exec (ascii_path (materialized_process_path hash (str "bytes") program))]
  /\ length (vb_files injected_builder) = 2%nat.
Proof. by vm_compute. Qed.

(** Two binaries with one cache identity: the second process would run the
    first one's program. *)
Definition first_binary : RustBinary := RustBinary_new (ascii_path (str "Cargo.toml|bin=tool")).
Definition second_binary : RustBinary := RustBinary_bin (str "tool") (RustBinary_new (ascii_path (str "Cargo.toml"))).
Example identities_collide : first_binary <> second_binary /\ cache_identity first_binary = cache_identity second_binary.
Proof. by vm_compute. Qed.
End FacadeExample.
