(* ===== verification/Artifacts.v ===== *)
(** * Loading artifacts

    [libs/image-core/src/ops]: the formats recognised from an artifact's first
    bytes ([format.rs]), staging beside the destination with digests computed
    on the way ([io.rs]), loading a source ([load.rs]) and expanding a
    compressed artifact ([decompress.rs]).

    The operations are programs over file-system calls.  Any call may fail, and
    the destination, whose name is shared with other processes, may change
    between any two calls; the temporary file is private.  What a source or a
    decoder delivers is a list of reads, of which [None] is an error and an
    empty one the end.  The hash functions, the HTTP client and the first entry
    of the [tar] crate's reader are parameters. *)

From Stdlib Require Import ZArith Lia Ascii.
From stdpp Require Import base tactics option list numbers strings.
From S2P Require Import Prelude Bytes Text Cpio IndexCodec Extract Materialize Net.

(** ** Formats *)

Definition MIN_HEADER_LEN : nat := 1024.
Record Detected : Type := { det_type : ArtifactType; det_compression : ArtifactCompression }.

Definition detect_compression (b : bytes) : option Detected :=
  if bool_decide (take 2 b = [z2b 31; z2b 139]) then Some {| det_type := Compressed; det_compression := Gzip |}
  else if bool_decide (take 4 b = [z2b 40; z2b 181; z2b 47; z2b 253]) then Some {| det_type := Compressed; det_compression := Zstd |}
  else None.

Definition is_cpio_newc (b : bytes) : bool := bool_decide (take 6 b = str "070701") || bool_decide (take 6 b = str "070702").

(** Indexing out of range panics. *)
Definition index {E} (b : bytes) (i : nat) : res E byte := match b !! i with Some x => Ok x | None => Panic end.
Definition is_linux_bzimage (b : bytes) : res OperationError bool :=
  if len b <=? 510 then Ok false else
  x ← index b 510;
  if negb (is_byte (z2b 85) x) then Ok false else
  y ← index b 511;
  if negb (is_byte (z2b 170) y) then Ok false else
  if len b <? 518 then Ok false else Ok (bool_decide (take 4 (drop 514 b) = str "HdrS")).

Definition is_ascii_whitespace (b : byte) : bool :=
  is_byte (z2b 9) b || is_byte (z2b 10) b || is_byte (z2b 12) b || is_byte (z2b 13) b || is_byte (z2b 32) b.
Fixpoint take_while (p : byte -> bool) (b : bytes) : bytes :=
  match b with [] => [] | x :: b => if p x then x :: take_while p b else [] end.
Definition octal_value (digits : bytes) : Z := foldl (fun n d => 8 * n + (b2z d - 48)) 0 digits.
Definition parse_tar_octal (b : bytes) : option Z :=
  let trimmed := List.filter (fun x => negb (is_ascii_whitespace x))
                   (take_while (fun x => negb (is_byte Byte.x00 x) && negb (is_byte (chr " ") x)) b) in
  if is_empty trimmed || existsb (fun x => negb (in_range 48 55 x)) trimmed then None
  else if octal_value trimmed <? 2 ^ 32 then Some (octal_value trimmed) else None.
(** The checksum field counts as blanks; 512 bytes cannot overflow a [u32]. *)
Definition tar_checksum (header : bytes) : Z :=
  sum_z (imap (fun i x => if (148 <=? i)%nat && (i <? 156)%nat then 32 else b2z x) header).
Definition valid_tar_checksum (header : bytes) : bool :=
  (len header =? 512) && bool_decide (parse_tar_octal (take 8 (drop 148 header)) = Some (tar_checksum header)).

Section Detect.
(** Whether the first entry of an archive reads without an error. *)
Context (tar_first : bytes -> bool).

Definition is_tar (b : bytes) : bool :=
  if len b <? 512 then false else
  if forallb (is_byte Byte.x00) (take 512 b) then (1024 <=? len b) && forallb (is_byte Byte.x00) (take 1024 b) else
  if negb (valid_tar_checksum (take 512 b)) then false else tar_first b.

Definition uncompressed (t : ArtifactType) : Detected := {| det_type := t; det_compression := AC_None |}.
Definition detect_container (b : bytes) : res OperationError (option Detected) :=
  if is_cpio_newc b then Ok (Some (uncompressed ContainerCpio)) else
  bzimage ← is_linux_bzimage b;
  if bzimage : bool then Ok (Some (uncompressed FileBzImage)) else
  if is_tar b then Ok (Some (uncompressed ContainerTar)) else Ok None.
Definition detect (b : bytes) : res OperationError (option Detected) :=
  match detect_compression b with Some detected => Ok (Some detected) | None => detect_container b end.
Definition detect_or_unsupported (b : bytes) : res OperationError Detected :=
  detected ← detect b; ok_or detected Op_UnsupportedArtifact.

(** ** Staging *)

Inductive ComputedDigest : Type := CD_Blake3 (b : bytes) | CD_Sha256 (b : bytes) | CD_Sha512 (b : bytes).
Definition verify (expected : ExpectedDigest) (computed : ComputedDigest) : bool :=
  match expected, computed with
  | ED_Blake3 e, CD_Blake3 c | ED_Sha256 e, CD_Sha256 c | ED_Sha512 e, CD_Sha512 c => bool_decide (e = c)
  | _, _ => false
  end.

(** Hashing in pieces is hashing what was fed. *)
Context (blake3 sha256 sha512 : bytes -> bytes).

Inductive AuxHasher : Type := Aux_None | Aux_Blake3 | Aux_Sha256 (fed : bytes) | Aux_Sha512 (fed : bytes).
Definition from_expected (expected : option ExpectedDigest) : AuxHasher :=
  match expected with
  | None => Aux_None
  | Some (ED_Blake3 _) => Aux_Blake3
  | Some (ED_Sha256 _) => Aux_Sha256 []
  | Some (ED_Sha512 _) => Aux_Sha512 []
  end.
Definition aux_update (a : AuxHasher) (b : bytes) : AuxHasher :=
  match a with
  | Aux_None | Aux_Blake3 => a
  | Aux_Sha256 fed => Aux_Sha256 (fed ++ b)
  | Aux_Sha512 fed => Aux_Sha512 (fed ++ b)
  end.
Definition aux_finalize (a : AuxHasher) : option ComputedDigest :=
  match a with
  | Aux_None | Aux_Blake3 => None
  | Aux_Sha256 fed => Some (CD_Sha256 (sha256 fed))
  | Aux_Sha512 fed => Some (CD_Sha512 (sha512 fed))
  end.

Record PublishedFile : Type := { pf_digest : FileDigest; pf_aux : option ComputedDigest }.
Definition computed_for (p : PublishedFile) (expected : option ExpectedDigest) : option ComputedDigest :=
  match expected with
  | None => None
  | Some (ED_Blake3 _) => Some (CD_Blake3 (file_hash (pf_digest p)))
  | Some (ED_Sha256 _) | Some (ED_Sha512 _) => pf_aux p
  end.

(** Errors of a rename or a read of the destination. *)
Inductive io_failure : Type := Contention | Failure.
Inductive TempFileError : Type := TF_Create | TF_Open | TF_Write | TF_Flush | TF_Read | TF_Publish.

Inductive io_call : Type :=
  | IsCancelled
  | Abandoned | OpenSource | SourceSize | HttpGet | SourceExists | SourceDigest | SeekSource
  | CreateTemp | WriteTemp (b : bytes) | FlushTemp | SyncTemp | ReadHeader (n : nat) | RemoveTemp
  | CreateDirs | IsDirectory | Rename | DestinationSize | ReadDestination | RemoveDestination.
Definition io_answer (c : io_call) : Type :=
  match c with
  | IsCancelled | Abandoned | OpenSource | SourceExists | SeekSource | CreateTemp | WriteTemp _ | FlushTemp | SyncTemp | CreateDirs | IsDirectory => bool
  | SourceSize => option Z
  | SourceDigest => option FileDigest
  | HttpGet => res OperationError (bool * option Z)       (* success status, content length *)
  | ReadHeader _ => option bytes
  | Rename => res io_failure unit
  | DestinationSize => res io_failure (option Z)           (* of a regular file *)
  | ReadDestination => res io_failure bytes
  | RemoveTemp | RemoveDestination => unit
  end.
Definition io : effects := {| ext := io_call; ext_ans := io_answer |}.
Definition ask {E} (c : io_call) : prog io E (io_answer c) := Ext (F:=io) c (fun a => Done (Ok a)).
Definition asks {E} (c : io_call) (as_ok : io_answer c -> bool) (e : E) : prog io E unit :=
  Ext (F:=io) c (fun a => Done (if as_ok a then Ok tt else Err e)).

(** A value that owns the temporary file, dropped unless moved out. *)
Definition owning_temp {E A} (p : prog io E A) : prog io E A :=
  ptry (fun r => match r with Ok a => Done (Ok a) | _ => Ext (F:=io) RemoveTemp (fun _ => Done r) end) p.

Record TempWriter : Type := { tw_hashed : bytes; tw_aux : AuxHasher; tw_written : Z }.
Definition TempWriter_open : prog io TempFileError TempWriter :=
  _ ← asks CreateTemp id TF_Create; mret {| tw_hashed := []; tw_aux := Aux_None; tw_written := 0 |}.
Definition set_expected_digest (expected : option ExpectedDigest) (w : TempWriter) : TempWriter :=
  {| tw_hashed := tw_hashed w; tw_aux := from_expected expected; tw_written := tw_written w |}.
Definition write_all (w : TempWriter) (b : bytes) : prog io TempFileError TempWriter :=
  _ ← asks (WriteTemp b) id TF_Write;
  mret {| tw_hashed := tw_hashed w ++ b; tw_aux := aux_update (tw_aux w) b; tw_written := tw_written w + len b |}.
Definition flush {E} (e : E) : prog io E unit := asks FlushTemp id e.
(** [finish]; a second call returns the same value, so [publish] does not
    repeat it. *)
Definition finish (w : TempWriter) : prog io TempFileError PublishedFile :=
  _ ← flush TF_Flush;
  _ ← asks SyncTemp id TF_Flush;
  mret {| pf_digest := {| file_hash := blake3 (tw_hashed w); fd_file_size := tw_written w |}; pf_aux := aux_finalize (tw_aux w) |}.

(** ** Publication *)

Definition PUBLISH_RETRY_ATTEMPTS : nat := 3.
Definition destination_matches (expected : FileDigest) : prog io io_failure bool :=
  size ← Ext (F:=io) DestinationSize (fun a => Done a);
  if bool_decide (size = Some (fd_file_size expected))
  then content ← Ext (F:=io) ReadDestination (fun a => Done a); mret (bool_decide (blake3 content = file_hash expected))
  else mret false.
Definition removing_temp {A} : prog io TempFileError A := _ ← ask RemoveTemp; Done (Err TF_Publish).
Inductive loop_end : Type := Loop_renamed | Loop_accepted | Loop_exhausted.
Definition rename_or {A} (renamed contended : prog io TempFileError A) : prog io TempFileError A :=
  Ext (F:=io) Rename (fun r =>
    match r with
    | Ok _ => renamed
    | Err Contention => contended
    | Err Failure => removing_temp
    | Panic => Done Panic
    end).
Fixpoint publish_attempts (attempts : nat) (expected : FileDigest) : prog io TempFileError loop_end :=
  match attempts with
  | O => mret Loop_exhausted
  | S attempts =>
      let next := rename_or (mret Loop_renamed) (publish_attempts attempts expected) in
      ptry (fun m =>
        match m with
        | Ok true => mret Loop_accepted
        | Ok false | Err Contention => next
        | Err Failure => removing_temp
        | Panic => Done Panic
        end) (destination_matches expected)
  end.
Definition finish_publication (e : loop_end) : prog io TempFileError unit :=
  match e with
  | Loop_renamed => mret tt
  | Loop_accepted => _ ← ask RemoveTemp; mret tt
  | Loop_exhausted =>
      _ ← ask RemoveDestination;
      Ext (F:=io) Rename (fun r => match r with Ok _ => mret tt | Err _ => removing_temp | Panic => Done Panic end)
  end.
Definition publish_with (expected : FileDigest) : prog io TempFileError unit :=
  _ ← asks CreateDirs id TF_Publish;
  directory ← ask IsDirectory;
  if directory : bool then removing_temp else
  rename_or (mret tt) (publish_attempts (S PUBLISH_RETRY_ATTEMPTS) expected ≫= finish_publication).
(** [StagedFile::publish]; an unpublished writer removes its file. *)
Definition publish_staged (staged : PublishedFile) : prog io TempFileError PublishedFile :=
  owning_temp (_ ← publish_with (pf_digest staged); mret staged).

(** [replace_file_atomically]: the parents of the two paths, and attempts that
    never remove the destination. *)
Definition STRICT_REPLACE_RETRY_ATTEMPTS : nat := 3.
Inductive replace_error : Type := RE_InvalidInput | RE_IsADirectory | RE_Io (e : io_failure).
Definition parent_or_dot (parent : option bytes) : bytes := match parent with Some (c :: p) => c :: p | _ => str "." end.
Fixpoint strict_attempts (attempts : nat) : prog io replace_error unit :=
  Ext (F:=io) Rename (fun r =>
    match r, attempts with
    | Ok _, _ => mret tt
    | Err Contention, S attempts => strict_attempts attempts
    | Err e, _ => Done (Err (RE_Io e))
    | Panic, _ => Done Panic
    end).
Definition replace_file_atomically (staging_parent destination_parent : option bytes) : prog io replace_error unit :=
  _ ← Net.of_res (fail_if (bool_decide (parent_or_dot staging_parent <> parent_or_dot destination_parent)) RE_InvalidInput);
  _ ← asks IsDirectory negb RE_IsADirectory;
  strict_attempts STRICT_REPLACE_RETRY_ATTEMPTS.

(** ** Loading *)

(** [stream_copy]: the loop over the reads. *)
Fixpoint stream_loop (w : TempWriter) (reads : list (option bytes)) : prog io TempFileError TempWriter :=
  match reads with
  | [] | Some [] :: _ => mret w
  | None :: _ => Done (Err TF_Read)
  | Some b :: reads => w ← write_all w b; stream_loop w reads
  end.
Definition stream_copy (expected : option ExpectedDigest) (reads : list (option bytes)) : prog io TempFileError PublishedFile :=
  w ← TempWriter_open;
  owning_temp (w ← stream_loop (set_expected_digest expected w) reads; finish w).

Definition verify_against_expected (p : PublishedFile) (expected : option ExpectedDigest) : res OperationError unit :=
  match expected with
  | None => Ok tt
  | Some e =>
      match computed_for p expected with
      | Some value => fail_if (negb (verify e value)) Op_DigestMismatch
      | None => Err Op_DigestMismatch
      end
  end.
Definition differs (known : option Z) (actual : Z) : bool :=
  match known with Some n => negb (actual =? n) | None => false end.
Definition validate_outcome (p : PublishedFile) (declared : Z) (expected : option ExpectedDigest) : res OperationError unit :=
  _ ← fail_if (negb (declared =? 0) && negb (fd_file_size (pf_digest p) =? declared)) Op_SizeMismatch;
  verify_against_expected p expected.
Definition validate_http_outcome (p : PublishedFile) (declared : Z) (content_length : option Z) (link_digest : LinkDigest)
    (expected : option ExpectedDigest) : res OperationError unit :=
  let actual := fd_file_size (pf_digest p) in
  let positive n := if 0 <? n then Some n else None in
  let http_declared := content_length ≫= positive in
  let link_known := positive (ld_file_size link_digest) in
  let declared_known := if declared =? 0 then None else Some declared in
  _ ← match http_declared with
      | Some n => fail_if (negb (actual =? n)) Op_SizeMismatch
      | None =>
          if differs link_known actual then Err Op_SizeMismatch
          else fail_if (differs declared_known actual) Op_SizeMismatch
      end;
  verify_against_expected p expected.

(** The staged file is dropped when it does not validate. *)
Definition validated (check : res OperationError unit) (p : PublishedFile) : prog io OperationError PublishedFile :=
  owning_temp (_ ← Net.of_res check; mret p).
Definition copy_local (declared : Z) (link_digest : LinkDigest) (expected : option ExpectedDigest) (reads : list (option bytes))
    : prog io OperationError PublishedFile :=
  _ ← asks OpenSource id Op_ReadSource;
  size ← Ext (F:=io) SourceSize (fun a => Done (ok_or a Op_ReadSource));
  _ ← Net.of_res (fail_if (negb (size =? declared) && negb (size =? ld_file_size link_digest)) Op_SizeMismatch);
  staged ← pmap_err (fun _ => Op_ReadSource) (stream_copy expected reads);
  validated (validate_outcome staged declared expected) staged.
Definition copy_bytes (payload : bytes) (declared : Z) (expected : option ExpectedDigest) (reads : list (option bytes))
    : prog io OperationError PublishedFile :=
  _ ← Net.of_res (fail_if (negb (len payload =? declared)) Op_SizeMismatch);
  staged ← pmap_err (fun _ => Op_WriteDestination) (stream_copy expected reads);
  validated (validate_outcome staged declared expected) staged.
Definition copy_http (declared : Z) (link_digest : LinkDigest) (expected : option ExpectedDigest) (reads : list (option bytes))
    : prog io OperationError PublishedFile :=
  response ← Ext (F:=io) HttpGet (fun a => Done a);
  _ ← Net.of_res (fail_if (negb response.1) Op_HttpStatus);
  _ ← Net.of_res (fail_if (match response.2 with
                       | Some n => negb (declared =? 0) && negb (n =? 0) && negb (n =? declared)
                       | None => false end) Op_SizeMismatch);
  staged ← pmap_err (fun _ => Op_HttpRequest) (stream_copy expected reads);
  validated (validate_http_outcome staged declared response.2 link_digest expected) staged.

(** A cursor over bytes, read with a buffer of 64 KiB. *)
Definition BUFFER_SIZE : Z := 64 * 1024.
Fixpoint cursor_reads (buffer fuel : nat) (b : bytes) : list (option bytes) :=
  match fuel, b with
  | S fuel, _ :: _ => Some (take buffer b) :: cursor_reads buffer fuel (drop buffer b)
  | _, _ => []
  end.

Context {P : Platform}.
(** The part that runs on a blocking worker. *)
Definition load_blocking (link : ArtifactLink) (link_ref : LinkRef) (expected : option ExpectedDigest) (reads : list (option bytes))
    : prog io OperationError FileRef :=
  _ ← asks IsCancelled negb Op_Cancelled;
  staged ← match link with
           | AL_Local _ size => copy_local size (lr_link_digest link_ref) expected reads
           | AL_Bytes payload size => copy_bytes payload size expected (cursor_reads (Z.to_nat BUFFER_SIZE) (length payload) payload)
           | AL_Http _ size => copy_http size (lr_link_digest link_ref) expected reads
           end;
  detected ← owning_temp (
    _ ← asks IsCancelled negb Op_Cancelled;
    header ← Ext (F:=io) (ReadHeader MIN_HEADER_LEN) (fun a => Done (ok_or a Op_ReadSource));
    Net.of_res (detect_or_unsupported header));
  published ← pmap_err (fun _ => Op_WriteDestination) (publish_staged staged);
  mret {| fr_uuid := lr_uuid link_ref; fr_namespace := lr_namespace link_ref; fr_file_digest := pf_digest published;
          artifact_type := det_type detected; artifact_compression := det_compression detected |}.
(** [bounded_join]: a panic of the worker is an error.  A worker that outlives
    the grace after a cancellation goes on; its caller is told of the
    cancellation, and a result of the worker that owns the temporary file is
    dropped. *)
Definition joined {A} (r : res OperationError A) : res OperationError A :=
  match r with Panic => Err Op_ReadSource | _ => r end.
Definition bounded_join {A} (owns_temp : bool) (worker : prog io OperationError A) : prog io OperationError A :=
  ptry (fun r => Ext (F:=io) Abandoned (fun abandoned : bool =>
    if abandoned then
      if owns_temp && is_ok r then Ext (F:=io) RemoveTemp (fun _ => Done (Err Op_Cancelled)) else Done (Err Op_Cancelled)
    else Done (joined r))) worker.
(** [computed]: what [link.digest()] returns. *)
Definition load (link : ArtifactLink) (link_ref : LinkRef) (expected : option ExpectedDigest) (expected_link_digest : LinkDigest)
    (computed : option LinkDigest) (reads : list (option bytes)) : prog io OperationError FileRef :=
  computed ← Net.of_res (ok_or computed Op_ReadSource);
  _ ← Net.of_res (fail_if (bool_decide (computed <> expected_link_digest)) Op_ReadSource);
  bounded_join false (load_blocking link link_ref expected reads).

(** ** Expanding *)

Definition MAX_DECOMPRESSED_BYTES : Z := 4 * 1024 * 1024 * 1024.
Fixpoint stream_decode (w : TempWriter) (max_bytes : Z) (reads : list (option bytes)) : prog io OperationError TempWriter :=
  match reads with
  | [] | Some [] :: _ => mret w
  | None :: _ => Done (Err Op_ReadSource)
  | Some b :: reads =>
      _ ← Net.of_res (fail_if (max_bytes <? tw_written w + len b) Op_SizeMismatch);
      w ← pmap_err (fun _ => Op_WriteDestination) (write_all w b);
      stream_decode w max_bytes reads
  end.
Definition inner_type (d : Detected) : res OperationError ArtifactType :=
  match det_type d with
  | ContainerTar | ContainerCpio | FileBzImage => Ok (det_type d)
  | Compressed => Err Op_UnsupportedArtifact
  end.
(** [decoder]: the reads of the decoder of the entry's compression, if it can
    be constructed. *)
Definition decompress_stage (entry : FileRef) (decoder : option (list (option bytes))) : prog io OperationError (FileRef * PublishedFile) :=
  _ ← asks OpenSource id Op_ReadSource;
  actual ← Ext (F:=io) SourceDigest (fun a => Done (ok_or a Op_ReadSource));
  _ ← Net.of_res (fail_if (bool_decide (actual <> fr_file_digest entry)) Op_DigestMismatch);
  _ ← asks SeekSource id Op_ReadSource;
  w ← pmap_err (fun _ => Op_WriteDestination) TempWriter_open;
  owning_temp (
    let max_bytes := Z.max MAX_DECOMPRESSED_BYTES (fd_file_size (fr_file_digest entry)) in
    reads ← Net.of_res (match artifact_compression entry with AC_None => Panic | _ => ok_or decoder Op_ReadSource end);
    w ← stream_decode w max_bytes reads;
    _ ← flush Op_WriteDestination;
    staged ← pmap_err (fun _ => Op_WriteDestination) (finish w);
    header ← Ext (F:=io) (ReadHeader MIN_HEADER_LEN) (fun a => Done (ok_or a Op_ReadSource));
    detected ← Net.of_res (detect_or_unsupported header);
    kind ← Net.of_res (inner_type detected);
    mret ({| fr_uuid := fr_uuid entry; fr_namespace := fr_namespace entry; fr_file_digest := pf_digest staged;
             artifact_type := kind; artifact_compression := AC_None |}, staged)).
Definition decompress (entry : FileRef) (decoder : option (list (option bytes))) : prog io OperationError (FileRef * PublishedFile) :=
  _ ← asks SourceExists id Op_ReadSource;
  _ ← Net.of_res (fail_if (bool_decide (artifact_type entry <> Compressed)) Op_UnsupportedArtifact);
  _ ← Net.of_res (fail_if (bool_decide (artifact_compression entry = AC_None)) Op_UnsupportedCompression);
  bounded_join true (_ ← asks IsCancelled negb Op_Cancelled; decompress_stage entry decoder).
(** [StagedDecompress::publish]. *)
Definition publish_decompressed (s : FileRef * PublishedFile) : prog io OperationError FileRef :=
  _ ← pmap_err (fun _ => Op_WriteDestination) (publish_staged s.2); mret s.1.

(** ** What detection says *)

Lemma lookup_len (b : bytes) i x : b !! i = Some x -> Z.of_nat i < len b.
Proof. intros H%lookup_lt_Some. unfold len. lia. Qed.
Lemma is_byte_false c x : is_byte c x = false <-> x <> c.
Proof. unfold is_byte. by rewrite bool_decide_eq_false. Qed.

(** The signature check reads one byte beyond the bound it tests. *)
Lemma bzimage_panics b : is_linux_bzimage b = Panic <-> length b = 511%nat /\ b !! 510%nat = Some (z2b 85).
Proof.
  unfold is_linux_bzimage, index. destruct (len b <=? 510) eqn:El.
  { split; [done|]. intros [Hl _]. unfold len in El. lia. }
  destruct (b !! 510%nat) as [x|] eqn:E0; [|apply lookup_ge_None in E0; unfold len in El; lia]. cbn [mbind res_bind].
  destruct (is_byte (z2b 85) x) eqn:Ex; cbn [negb]; [apply is_byte_true in Ex as ->|apply is_byte_false in Ex; naive_solver].
  destruct (b !! 511%nat) as [y|] eqn:E1; cbn [mbind res_bind].
  - split; [repeat case_match; done|]. intros [Hl _]. apply lookup_lt_Some in E1. lia.
  - apply lookup_ge_None in E1. apply lookup_lt_Some in E0. split; [|done]. intros _. split; [lia|done].
Qed.

(** What is taken for a boot image satisfies the extraction's check. *)
Lemma bzimage_signature b : is_linux_bzimage b = Ok true -> validate_bzimage_signature b = Ok tt.
Proof.
  unfold is_linux_bzimage, index, validate_bzimage_signature. destruct (len b <=? 510) eqn:El; [done|].
  destruct (b !! 510%nat) as [x|] eqn:E0; [|done]. cbn [mbind res_bind].
  destruct (is_byte (z2b 85) x) eqn:Ex; [apply is_byte_true in Ex as ->|done]. cbn [negb].
  destruct (b !! 511%nat) as [y|] eqn:E1; [|done]. cbn [mbind res_bind].
  destruct (is_byte (z2b 170) y) eqn:Ey; [apply is_byte_true in Ey as ->|done]. cbn [negb].
  destruct (len b <? 518) eqn:E2; [done|]. intros [= Hh%bool_decide_eq_true]. unfold MIN_BZIMAGE_LEN. rewrite E2. cbn [fail_if mbind res_bind].
  unfold slice. change (Z.to_nat BOOT_FLAG_OFFSET) with 510%nat. change (Z.to_nat 2) with 2%nat.
  change (Z.to_nat HDRS_OFFSET) with 514%nat. change (Z.to_nat 4) with 4%nat.
  rewrite (drop_S b (z2b 85) 510 E0), (drop_S b (z2b 170) 511 E1). rewrite Hh.
  by do 2 rewrite bool_decide_eq_false_2 by (intros Hx; by apply Hx).
Qed.

(** A header is refused with an error, never with a panic, unless it is 511
    bytes long and its last byte is the first of the boot flag. *)
Theorem detect_panics b :
  detect b = Panic <->
  detect_compression b = None /\ is_cpio_newc b = false /\ length b = 511%nat /\ b !! 510%nat = Some (z2b 85).
Proof.
  rewrite <-bzimage_panics. unfold detect, detect_container. destruct (detect_compression b); [naive_solver|].
  destruct (is_cpio_newc b); [naive_solver|]. destruct (is_linux_bzimage b) as [[]| |]; cbn [mbind res_bind]; [naive_solver| |naive_solver..].
  destruct (is_tar b); naive_solver.
Qed.
Theorem detected_bzimage b d : detect b = Ok (Some d) -> det_type d = FileBzImage -> validate_bzimage_signature b = Ok tt.
Proof.
  unfold detect, detect_container, detect_compression. repeat case_bool_decide; try (intros [= <-]; done).
  destruct (is_cpio_newc b); [by intros [= <-]|]. destruct (is_linux_bzimage b) as [[]| |] eqn:E; cbn [mbind res_bind]; [|repeat case_match; naive_solver..].
  intros _ _. by apply bzimage_signature.
Qed.

(** ** The file system *)

(** The two files, and what happened: the contents this operation moved into
    place, the contents it read there, whether it removed its temporary, and
    whether any call failed. *)
Record fs : Type := {
  f_temp : option bytes; f_dest : option bytes; f_published : list bytes; f_read : list bytes; f_removed : bool; f_failed : bool }.
Definition with_temp (t : option bytes) (s : fs) : fs :=
  {| f_temp := t; f_dest := f_dest s; f_published := f_published s; f_read := f_read s; f_removed := f_removed s; f_failed := f_failed s |}.
Definition with_dest (d : option bytes) (s : fs) : fs :=
  {| f_temp := f_temp s; f_dest := d; f_published := f_published s; f_read := f_read s; f_removed := f_removed s; f_failed := f_failed s |}.
Definition failing (s : fs) : fs :=
  {| f_temp := f_temp s; f_dest := f_dest s; f_published := f_published s; f_read := f_read s; f_removed := f_removed s; f_failed := true |}.
Definition untouched (d : option bytes) : fs :=
  {| f_temp := None; f_dest := d; f_published := []; f_read := []; f_removed := false; f_failed := false |}.

Definition succeeds_if (ok : bool) (s : fs) : fs := if ok then s else failing s.
Definition fs_step (x : io_call) : io_answer x -> fs -> fs -> Prop :=
  match x return io_answer x -> fs -> fs -> Prop with
  | IsCancelled | Abandoned | IsDirectory => fun b s s' => s' = succeeds_if (negb b) s
  | OpenSource | SourceExists | SeekSource | FlushTemp | SyncTemp | CreateDirs => fun ok s s' => s' = succeeds_if ok s
  | SourceSize => fun a s s' => s' = succeeds_if (bool_decide (is_Some a)) s
  | SourceDigest => fun a s s' => s' = succeeds_if (bool_decide (is_Some a)) s
  | HttpGet => fun a s s' => a <> Panic /\ s' = succeeds_if (match a with Ok (success, _) => success | _ => false end) s
  | CreateTemp => fun ok s s' => s' = if ok then with_temp (Some []) s else failing s
  | WriteTemp b => fun ok s s' =>
      if ok then s' = with_temp (Some (default [] (f_temp s) ++ b)) s else exists t, s' = failing (with_temp t s)
  | ReadHeader n => fun h s s' =>
      match h with Some h => h = take n (default [] (f_temp s)) /\ s' = s | None => s' = failing s end
  | RemoveTemp => fun _ s s' => exists t, (t = None \/ t = f_temp s) /\ s' =
      {| f_temp := t; f_dest := f_dest s; f_published := f_published s; f_read := f_read s; f_removed := true; f_failed := f_failed s |}
  | Rename => fun r s s' =>
      match r with
      | Ok _ => exists c, f_temp s = Some c /\ s' =
          {| f_temp := None; f_dest := Some c; f_published := f_published s ++ [c]; f_read := f_read s; f_removed := f_removed s; f_failed := f_failed s |}
      | Err _ => s' = failing s
      | Panic => False
      end
  | DestinationSize => fun r s s' => r <> Panic /\ s' = succeeds_if (is_ok r) s
  | ReadDestination => fun r s s' =>
      match r with
      | Ok c => f_dest s = Some c /\ s' =
          {| f_temp := f_temp s; f_dest := f_dest s; f_published := f_published s; f_read := f_read s ++ [c]; f_removed := f_removed s; f_failed := f_failed s |}
      | Err _ => s' = failing s
      | Panic => False
      end
  | RemoveDestination => fun _ s s' => exists d, (d = None \/ d = f_dest s) /\ s' = with_dest d s
  end.

(** Runs: other processes may change the destination before every call. *)
Fixpoint runs {E A} (p : prog io E A) (s : fs) (r : res E A) (s' : fs) : Prop :=
  match p with
  | Done r0 => r = r0 /\ s' = s
  | Ext x k => exists d a s1, fs_step x a (with_dest d s) s1 /\ runs (k a) s1 r s'
  | _ => False
  end.

(** Runs with no other process. *)
Fixpoint runs_alone {E A} (p : prog io E A) (s : fs) (r : res E A) (s' : fs) : Prop :=
  match p with
  | Done r0 => r = r0 /\ s' = s
  | Ext x k => exists a s1, fs_step x a s s1 /\ runs_alone (k a) s1 r s'
  | _ => False
  end.

(** What holds after every run. *)
Fixpoint wp {E A} (p : prog io E A) (s : fs) (Q : res E A -> fs -> Prop) : Prop :=
  match p with
  | Done r => Q r s
  | Ext x k => forall d a s1, fs_step x a (with_dest d s) s1 -> wp (k a) s1 Q
  | _ => True
  end.
Lemma wp_runs {E A} (p : prog io E A) s Q r s' : wp p s Q -> runs p s r s' -> Q r s'.
Proof.
  revert s. induction p as [r0| | | | |x k IH]; intros s; cbn [wp runs]; try done; [by intros ? [-> ->]|].
  intros Hw (d & a & s1 & Hs & Hr). eapply (IH a s1); [by eapply Hw|done].
Qed.
Lemma wp_mono {E A} (p : prog io E A) s (Q Q' : res E A -> fs -> Prop) :
  wp p s Q -> (forall r s', Q r s' -> Q' r s') -> wp p s Q'.
Proof. intros H HQ. revert s H. induction p as [r0| | | | |x k IH]; intros s; cbn [wp]; auto. intros H d a s1 Hs. eauto. Qed.
Lemma wp_bind {E A B} (p : prog io E A) (f : A -> prog io E B) s Q :
  wp p s (fun r s' => match r with Ok a => wp (f a) s' Q | Err e => Q (Err e) s' | Panic => Q Panic s' end) -> wp (p ≫= f) s Q.
Proof.
  unfold mbind, prog_bind. revert s. induction p as [r0| | | | |x k IH]; intros s; cbn [wp pbind]; try done; [by destruct r0|].
  intros H d a s1 Hs. by eapply IH, H.
Qed.
Lemma wp_try {E E' A B} (p : prog io E A) (f : res E A -> prog io E' B) s Q :
  wp p s (fun r s' => wp (f r) s' Q) -> wp (ptry f p) s Q.
Proof.
  revert s. induction p as [r0| | | | |x k IH]; intros s; cbn [wp ptry]; try done. intros H d a s1 Hs. by eapply IH, H.
Qed.
Lemma wp_map_err {E E' A} (g : E -> E') (p : prog io E A) s Q :
  wp p s (fun r s' => Q (map_err g r) s') -> wp (pmap_err g p) s Q.
Proof. intros H. by apply wp_try. Qed.
Lemma wp_owning {E A} (p : prog io E A) s Q :
  wp p s (fun r s' => match r with Ok a => Q (Ok a) s'
    | _ => forall t, t = None \/ t = f_temp s' -> forall d, Q r {| f_temp := t; f_dest := d; f_published := f_published s';
             f_read := f_read s'; f_removed := true; f_failed := f_failed s' |} end) -> wp (owning_temp p) s Q.
Proof.
  intros H. apply wp_try. eapply wp_mono; [exact H|]. intros [a|e|] s' HQ; cbn [wp fs_step]; [done|..].
  all: intros d [] s1 (t & Ht & ->); by apply HQ.
Qed.

(** ** Streams *)

(** What the reads deliver up to the end, if none of them fails. *)
Fixpoint content (reads : list (option bytes)) : option bytes :=
  match reads with
  | [] | Some [] :: _ => Some []
  | None :: _ => None
  | Some b :: reads => app b <$> content reads
  end.
Lemma cursor_content buffer fuel b : (0 < buffer)%nat -> (length b <= fuel)%nat -> content (cursor_reads buffer fuel b) = Some b.
Proof.
  intros Hb. revert b. induction fuel as [|fuel IH]; intros [|x b] Hl; [done|cbn in Hl; lia|done|].
  assert (content (cursor_reads buffer fuel (drop buffer (x :: b))) = Some (drop buffer (x :: b))) as E.
  { apply IH. rewrite length_drop. cbn in *. lia. }
  cbn [cursor_reads]. destruct (take buffer (x :: b)) as [|y t] eqn:Et; [by destruct buffer; [lia|]|].
  change (content (Some (y :: t) :: cursor_reads buffer fuel (drop buffer (x :: b))))
    with (app (y :: t) <$> content (cursor_reads buffer fuel (drop buffer (x :: b)))).
  rewrite E, <-Et. cbn [fmap option_fmap option_map]. by rewrite take_drop.
Qed.

(** What a writer that was fed [c] reports. *)
Definition describe (expected : option ExpectedDigest) (c : bytes) : PublishedFile := {|
  pf_digest := {| file_hash := blake3 c; fd_file_size := len c |};
  pf_aux := aux_finalize (aux_update (from_expected expected) c) |}.
Definition fed (expected : option ExpectedDigest) (c : bytes) (w : TempWriter) : Prop :=
  tw_hashed w = c /\ tw_written w = len c /\ tw_aux w = aux_update (from_expected expected) c.
Lemma aux_update_app a b c : aux_update (aux_update a b) c = aux_update a (b ++ c).
Proof. destruct a; cbn; by rewrite ?app_assoc. Qed.
Lemma fed_app expected c b w : fed expected c w ->
  fed expected (c ++ b) {| tw_hashed := tw_hashed w ++ b; tw_aux := aux_update (tw_aux w) b; tw_written := tw_written w + len b |}.
Proof. intros (-> & -> & ->). split_and!; cbn; [done|by rewrite len_app|apply aux_update_app]. Qed.

(** The temporary file holds [c] and nothing was published; nothing was
    published and the temporary is gone or was asked to go. *)
Definition holds (c : bytes) (s : fs) : Prop := f_published s = [] /\ f_temp s = Some c /\ f_failed s = false.
Definition gone (s : fs) : Prop := f_published s = [] /\ (f_temp s <> None -> f_removed s = true).

Ltac fs_call := cbn [wp asks ask]; intros ? ? ? ?; cbn [fs_step] in *.

Lemma stream_loop_wp expected w reads c s :
  fed expected c w -> holds c s ->
  wp (stream_loop w reads) s (fun r s' =>
    match r with
    | Ok w' => exists c', content reads = Some c' /\ fed expected (c ++ c') w' /\ holds (c ++ c') s'
    | Err _ => f_published s' = [] /\ (f_failed s' = true \/ content reads = None)
    | Panic => False
    end).
Proof.
  revert w c s. induction reads as [|[[|x b]|] reads IH]; intros w c s Hw (Hp & Ht & Hf); cbn [stream_loop content].
  1, 2: exists []; by rewrite !app_nil_r.
  - apply wp_bind. unfold write_all. apply wp_bind. fs_call. destruct a.
    + subst s1. cbn [with_dest f_temp default]. rewrite Ht. cbn [default wp mret prog_ret].
      eapply wp_mono; [apply (IH _ (c ++ x :: b)); [by apply fed_app|done]|]. intros [w'|e|] s' H; [| |done].
      * destruct H as (c' & E & Hw' & Hs'). exists ((x :: b) ++ c'). rewrite E, app_assoc. done.
      * destruct H as [? [?|E]]; (split; [done|]); [by left|right]. by rewrite E.
    + destruct H as [t ->]. cbn. split; [done|by left].
  - split; [done|by right].
Qed.

Lemma finish_wp expected c w s : fed expected c w -> holds c s ->
  wp (finish w) s (fun r s' =>
    match r with
    | Ok p => p = describe expected c /\ holds c s'
    | Err _ => f_published s' = [] /\ f_failed s' = true
    | Panic => False
    end).
Proof.
  intros (Eh & Ew & Ea) (Hp & Ht & Hf). unfold finish, flush. apply wp_bind. fs_call. subst s1. destruct a; [|done]. cbn [id].
  apply wp_bind. fs_call. subst s1. destruct a; [|done]. cbn [id wp mret prog_ret]. unfold describe. by rewrite Eh, Ew, Ea.
Qed.

Lemma stream_copy_wp expected reads d :
  forall s, f_published s = [] -> f_temp s = None -> f_failed s = false -> f_dest s = d ->
  wp (stream_copy expected reads) s (fun r s' =>
    match r with
    | Ok p => exists c, content reads = Some c /\ p = describe expected c /\ holds c s'
    | Err _ => gone s' /\ (f_failed s' = true \/ content reads = None)
    | Panic => False
    end).
Proof.
  intros s Hp Ht Hf _. unfold stream_copy, TempWriter_open. apply wp_bind, wp_bind. fs_call. subst s1.
  destruct a; cbn [id wp mret prog_ret]; [|split; [by split|by left]].
  apply wp_owning, wp_bind. eapply wp_mono; [apply (stream_loop_wp expected _ _ []); [|done]|].
  { by destruct expected as [[]|]. }
  intros [w|e|] s' H; [|destruct H as [H1 H2]; intros t _ d'; split; [by split|done]|done].
  destruct H as (c & E & Hw & Hs). eapply wp_mono; [by apply (finish_wp expected c)|].
  intros [p|e|] s2 H; [|destruct H as [H1 H2]; intros t _ d'; split; [by split|by left]|done].
  destruct H as [-> Hs2]. by exists c.
Qed.

(** ** Validation *)

Definition digest_ok (expected : option ExpectedDigest) (c : bytes) : Prop :=
  match expected with
  | None => True
  | Some (ED_Blake3 b) => b = blake3 c
  | Some (ED_Sha256 b) => b = sha256 c
  | Some (ED_Sha512 b) => b = sha512 c
  end.
Lemma verified_iff expected c : verify_against_expected (describe expected c) expected = Ok tt <-> digest_ok expected c.
Proof.
  destruct expected as [[b|b|b]|]; [..|done]; cbn; unfold fail_if; rewrite negb_if;
    (case_bool_decide; split; [done|done|done|done]).
Qed.
Lemma verified_no_panic expected c : verify_against_expected (describe expected c) expected <> Panic.
Proof. destruct expected as [[b|b|b]|]; cbn; unfold fail_if; by try case_match. Qed.

(** A staged file of accepted content. *)
Definition staged_ok (declared : Z) (expected : option ExpectedDigest) (reads : list (option bytes)) (p : PublishedFile) (s : fs) : Prop :=
  exists c, content reads = Some c /\ p = describe expected c /\ (declared = 0 \/ len c = declared) /\ digest_ok expected c /\ holds c s.

Lemma validated_wp check declared expected reads c s :
  content reads = Some c -> holds c s -> check <> Panic ->
  (check = Ok tt -> (declared = 0 \/ len c = declared) /\ digest_ok expected c) ->
  wp (validated check (describe expected c)) s (fun r s' =>
    match r with
    | Ok p => staged_ok declared expected reads p s'
    | Err _ => gone s' /\ check <> Ok tt
    | Panic => False
    end).
Proof.
  intros Hc Hs Hn Hk. apply wp_owning, wp_bind. destruct check as [[]|e|]; [|intros t _ d; destruct Hs; by repeat split|done].
  cbn [wp Net.of_res mret prog_ret]. destruct (Hk eq_refl). by exists c.
Qed.

Definition copied (declared : Z) (expected : option ExpectedDigest) (reads : list (option bytes)) (reason : Prop)
    (r : res OperationError PublishedFile) (s : fs) : Prop :=
  match r with
  | Ok p => staged_ok declared expected reads p s
  | Err _ => gone s /\ (f_failed s = true \/ reason)
  | Panic => False
  end.
Definition fresh (s : fs) : Prop := f_published s = [] /\ f_temp s = None /\ f_failed s = false.
Lemma fresh_gone s : fresh s -> gone s.
Proof. intros (? & Ht & _). split; [done|]. by rewrite Ht. Qed.

(** From the stream to the validated file. *)
Lemma staged_wp {e : OperationError} declared expected reads (check : PublishedFile -> res OperationError unit) (reason : Prop) s :
  fresh s -> (forall c, check (describe expected c) <> Panic) ->
  (forall c, content reads = Some c -> check (describe expected c) = Ok tt -> (declared = 0 \/ len c = declared) /\ digest_ok expected c) ->
  (content reads = None -> reason) ->
  (forall c, content reads = Some c -> check (describe expected c) <> Ok tt -> reason) ->
  wp (staged ← pmap_err (fun _ => e) (stream_copy expected reads); validated (check staged) staged) s (copied declared expected reads reason).
Proof.
  intros (Hp & Ht & Hf) Hn Hok Hr1 Hr2. apply wp_bind, wp_map_err. eapply wp_mono; [by eapply (stream_copy_wp expected reads _ s)|].
  intros [p|f|] s' H; [|by destruct H as [? [?|?%Hr1]]; split; auto|done]. cbn [map_err].
  destruct H as (c & Hc & -> & Hs). eapply wp_mono; [apply (validated_wp _ declared expected reads c); auto|].
  intros [p|f|] s2 H; [done| |done]. destruct H as [? ?]. split; [done|]. right. by eapply Hr2.
Qed.

Lemma validate_outcome_ok declared expected c :
  validate_outcome (describe expected c) declared expected = Ok tt <-> (declared = 0 \/ len c = declared) /\ digest_ok expected c.
Proof.
  unfold validate_outcome. rewrite guard_ok_iff, verified_iff. cbn [describe pf_digest fd_file_size].
  rewrite andb_false_iff, !negb_false_iff, !Z.eqb_eq. done.
Qed.
Lemma validate_outcome_no_panic declared expected c : validate_outcome (describe expected c) declared expected <> Panic.
Proof. unfold validate_outcome. apply guard_not_panic. intros _. apply verified_no_panic. Qed.
Lemma validate_http_ok declared content_length link_digest expected c :
  match content_length with Some n => negb (declared =? 0) && negb (n =? 0) && negb (n =? declared) | None => false end = false ->
  validate_http_outcome (describe expected c) declared content_length link_digest expected = Ok tt ->
  (declared = 0 \/ len c = declared) /\ digest_ok expected c.
Proof.
  intros Hcl H. unfold validate_http_outcome in H. cbn [describe pf_digest fd_file_size] in H.
  apply bind_unit_ok_iff in H as [Hs Hv%verified_iff]. split; [|done].
  destruct (content_length ≫= _) as [n|] eqn:E.
  - destruct content_length as [m|]; [|done]. cbn in E. destruct (0 <? m) eqn:Em; [|done]. injection E as ->.
    apply fail_if_ok, negb_false_iff, Z.eqb_eq in Hs. rewrite Hs. destruct (declared =? 0) eqn:E0; [left; lia|right].
    destruct (n =? 0) eqn:E1; [lia|]. cbn in Hcl. apply negb_false_iff, Z.eqb_eq in Hcl. done.
  - destruct (differs _ _); [done|]. apply fail_if_ok in Hs. destruct (declared =? 0) eqn:E0; [left; lia|right].
    cbn in Hs. apply negb_false_iff, Z.eqb_eq in Hs. done.
Qed.
Lemma validate_http_no_panic declared content_length link_digest expected c :
  validate_http_outcome (describe expected c) declared content_length link_digest expected <> Panic.
Proof.
  unfold validate_http_outcome. cbv zeta. intros H. apply res_bind_panic_inv in H as [H|(u & _ & H)].
  - repeat case_match; try done; by apply fail_if_not_panic in H.
  - by apply verified_no_panic in H.
Qed.

Lemma copy_bytes_wp payload declared expected reads s : fresh s -> content reads = Some payload ->
  wp (copy_bytes payload declared expected reads) s
    (copied declared expected reads (~ (len payload = declared /\ digest_ok expected payload))).
Proof.
  intros Hs Hc. unfold copy_bytes. apply wp_bind. cbn [wp Net.of_res]. unfold fail_if at 1.
  destruct (len payload =? declared) eqn:El; cbn [negb].
  - apply Z.eqb_eq in El. apply staged_wp; [done|intros; apply validate_outcome_no_panic|intros c _; apply validate_outcome_ok|congruence|].
    intros c Hc' Hn [_ Hd]. apply Hn, validate_outcome_ok. rewrite Hc in Hc'. injection Hc' as <-. auto.
  - apply Z.eqb_neq in El. split; [by apply (fresh_gone s)|]. right. tauto.
Qed.
Lemma copy_local_wp declared link_digest expected reads s : fresh s ->
  wp (copy_local declared link_digest expected reads) s (copied declared expected reads True).
Proof.
  intros Hs. unfold copy_local. apply wp_bind. fs_call. subst s1. destruct a; cbn [id]; [|split; [by apply (fresh_gone s)|by left]].
  apply wp_bind. fs_call. destruct a as [size|]; cbn [ok_or wp]; [|subst s1; split; [by apply (fresh_gone s)|by left]].
  rewrite bool_decide_eq_true_2 in H by by eexists. cbn in H. subst s1.
  apply wp_bind. cbn [wp Net.of_res]. unfold fail_if at 1. destruct (negb _ && negb _); [split; [by apply (fresh_gone s)|by right]|].
  apply staged_wp; [done|intros; apply validate_outcome_no_panic|intros c _; apply validate_outcome_ok|done|done].
Qed.
Lemma copy_http_wp declared link_digest expected reads s : fresh s ->
  wp (copy_http declared link_digest expected reads) s (copied declared expected reads True).
Proof.
  intros Hs. unfold copy_http. apply wp_bind. fs_call. destruct H as [Hn ->].
  destruct a as [[success length]|e|]; cbn [wp]; [|split; [by apply (fresh_gone s)|by right]|done]. cbn [fst snd].
  apply wp_bind. cbn [wp Net.of_res]. unfold fail_if at 1. destruct success; cbn [negb]; [|split; [by apply (fresh_gone s)|by left]].
  apply wp_bind. cbn [wp Net.of_res]. unfold fail_if at 1.
  destruct (match length with Some n => _ | None => false end) eqn:El; [split; [by apply (fresh_gone s)|by right]|].
  apply staged_wp; [done|intros; apply validate_http_no_panic|intros c _; by apply validate_http_ok|done|done].
Qed.

(** ** Publication *)

(** The content is in place, or a file with the same digest was. *)
Definition in_place (c : bytes) (s : fs) : Prop :=
  (f_published s = [c] \/ f_published s = [] /\ f_failed s = true /\ exists c', c' ∈ f_read s /\ blake3 c' = blake3 c)
  /\ (f_temp s <> None -> f_removed s = true).
Definition not_published (s : fs) : Prop := gone s /\ f_failed s = true.
(** The temporary is still there; a call has failed. *)
Definition contending (c : bytes) (s : fs) : Prop := f_published s = [] /\ f_temp s = Some c /\ f_failed s = true.

Lemma removing_temp_wp {A} s (Q : res TempFileError A -> fs -> Prop) :
  f_published s = [] -> f_failed s = true -> (forall s', not_published s' -> Q (Err TF_Publish) s') -> wp removing_temp s Q.
Proof.
  intros Hp Hf HQ. unfold removing_temp. apply wp_bind. fs_call. destruct H as (t & _ & ->). cbn [wp]. apply HQ. by repeat split.
Qed.
Lemma rename_or_wp {A} c (renamed contended : prog io TempFileError A) s (Q : res TempFileError A -> fs -> Prop) :
  f_published s = [] -> f_temp s = Some c ->
  (forall s', f_published s' = [c] -> f_temp s' = None -> wp renamed s' Q) -> (forall s', contending c s' -> wp contended s' Q) ->
  (forall s', not_published s' -> Q (Err TF_Publish) s') -> wp (rename_or renamed contended) s Q.
Proof.
  intros Hp Ht H1 H2 H3. unfold rename_or. fs_call. destruct a as [u|[]|]; [| | |done].
  - destruct H as (c' & Ht' & ->). cbn in Ht'. rewrite Ht in Ht'. injection Ht' as <-. apply H1; cbn; [by rewrite Hp|done].
  - subst s1. by apply H2.
  - subst s1. by apply removing_temp_wp.
Qed.
Lemma matches_wp c d s : contending c s ->
  wp (destination_matches d) s (fun r s' =>
    match r with
    | Ok true => contending c s' /\ exists c', c' ∈ f_read s' /\ blake3 c' = file_hash d
    | Ok false | Err _ => contending c s'
    | Panic => False
    end).
Proof.
  intros (Hp & Ht & Hf). unfold destination_matches. apply wp_bind. fs_call. destruct H as [Hn ->].
  destruct a as [size|e|]; cbn [is_ok succeeds_if wp]; [|by repeat split|done].
  case_bool_decide; [|by repeat split]. apply wp_bind. fs_call. destruct a as [c'|e|]; [|by subst s1; repeat split|done].
  destruct H0 as [_ ->]. cbn [wp mret prog_ret]. case_bool_decide as Hh; [|by repeat split].
  split; [by repeat split|]. exists c'. split; [cbn; apply elem_of_app; right; by left|done].
Qed.
Lemma attempts_wp c d n s : contending c s -> file_hash d = blake3 c ->
  wp (publish_attempts n d) s (fun r s' =>
    match r with
    | Ok Loop_renamed => f_published s' = [c] /\ f_temp s' = None
    | Ok Loop_accepted => contending c s' /\ exists c', c' ∈ f_read s' /\ blake3 c' = blake3 c
    | Ok Loop_exhausted => contending c s'
    | Err _ => not_published s'
    | Panic => False
    end).
Proof.
  intros Hs Hd. revert s Hs. induction n as [|n IH]; intros s Hs; cbn [publish_attempts]; [done|].
  assert (forall s', contending c s' -> wp (rename_or (mret Loop_renamed) (publish_attempts n d)) s' (fun r s' =>
    match r with
    | Ok Loop_renamed => f_published s' = [c] /\ f_temp s' = None
    | Ok Loop_accepted => contending c s' /\ exists c', c' ∈ f_read s' /\ blake3 c' = blake3 c
    | Ok Loop_exhausted => contending c s'
    | Err _ => not_published s'
    | Panic => False
    end)) as Hnext.
  { intros s' Hs'. eapply (rename_or_wp c); [apply Hs'|apply Hs'|by intros ? ? ?|apply IH|done]. }
  apply wp_try. eapply wp_mono; [by apply (matches_wp c)|]. intros [[]|[]|] s' H; [|by apply Hnext..| |done].
  - cbn [wp mret prog_ret]. rewrite <-Hd. done.
  - destruct H as (? & ? & ?). by apply removing_temp_wp.
Qed.
Lemma publish_staged_wp p c s : holds c s -> file_hash (pf_digest p) = blake3 c ->
  wp (publish_staged p) s (fun r s' =>
    match r with
    | Ok p' => p' = p /\ in_place c s'
    | Err _ => not_published s'
    | Panic => False
    end).
Proof.
  intros (Hp & Ht & Hf) Hd.
  assert (wp (publish_with (pf_digest p)) s (fun r s' => match r with Ok _ => in_place c s' | Err _ => f_published s' = [] /\ f_failed s' = true | Panic => False end)) as H.
  { unfold publish_with. apply wp_bind. fs_call. subst s1. destruct a; cbn [id]; [|done]. apply wp_bind. fs_call. subst s1.
    destruct a; cbn [negb wp succeeds_if]; [apply removing_temp_wp; [done|done|by intros s' [[? _] ?]]|].
    apply (rename_or_wp c); [done|done| | |by intros s' [[? _] ?]].
    - intros s' H1 H2. split; [by left|]. by rewrite H2.
    - intros s' Hs'. apply wp_bind. eapply wp_mono; [by apply (attempts_wp c)|].
      intros [[]|e|] s2 H; [| | |by destruct H as [[? _] ?]|done]; cbn [finish_publication].
      + destruct H as [H1 H2]. split; [by left|]. by rewrite H2.
      + destruct H as [(H1 & H2 & H3) H4]. apply wp_bind. fs_call. destruct H as (t & _ & ->). split; [right|done]. done.
      + destruct H as (H1 & H2 & H3). apply wp_bind. fs_call. destruct H as (d' & _ & ->). cbn [wp].
        fs_call. destruct a0 as [u|e|]; [| |done].
        * destruct H as (c' & Hc' & ->). cbn in Hc'. rewrite H2 in Hc'. injection Hc' as <-. split; [left; cbn; by rewrite H1|done].
        * subst s1. apply removing_temp_wp; [done|done|by intros s3 [[? _] ?]]. }
  unfold publish_staged. apply wp_owning, wp_bind. eapply wp_mono; [exact H|]. intros [u|e|] s' Hq; [done| |done].
  destruct Hq as [? ?]. intros t _ d. by repeat split.
Qed.
(** ** What is loaded *)

Definition link_reads (link : ArtifactLink) (reads : list (option bytes)) : list (option bytes) :=
  match link with AL_Bytes payload _ => cursor_reads (Z.to_nat BUFFER_SIZE) (length payload) payload | _ => reads end.
Definition recognised (c : bytes) (d : Detected) : Prop := detect (take MIN_HEADER_LEN c) = Ok (Some d).
Definition loaded (link_ref : LinkRef) (declared : Z) (expected : option ExpectedDigest) (reads : list (option bytes)) (reason : Prop)
    (r : res OperationError FileRef) (s : fs) : Prop :=
  match r with
  | Ok f => exists c d, content reads = Some c /\ (declared = 0 \/ len c = declared) /\ digest_ok expected c /\ recognised c d /\
      f = {| fr_uuid := lr_uuid link_ref; fr_namespace := lr_namespace link_ref;
             fr_file_digest := {| file_hash := blake3 c; fd_file_size := len c |};
             artifact_type := det_type d; artifact_compression := det_compression d |} /\ in_place c s
  | _ => gone s /\ (f_failed s = true \/ reason)
  end.
Lemma bytes_content payload : content (cursor_reads (Z.to_nat BUFFER_SIZE) (length payload) payload) = Some payload.
Proof. apply cursor_content; [unfold BUFFER_SIZE; lia|done]. Qed.
Definition told {A} (worker r : res OperationError A) : Prop :=
  r = joined worker \/ r = Err Op_Cancelled.
(** Why content that arrives without a failure is refused. *)
Definition refused (link : ArtifactLink) (expected : option ExpectedDigest) : Prop :=
  match link with
  | AL_Bytes payload n => ~ (len payload = n /\ digest_ok expected payload /\ exists d, recognised payload d)
  | _ => True
  end.

(** The staged file is recognised and moved into place. *)
Lemma published_wp link_ref declared expected reads (reason : Prop) p s :
  staged_ok declared expected reads p s ->
  (forall c, content reads = Some c -> (~ exists d, recognised c d) -> reason) ->
  wp (detected ← owning_temp (
        _ ← asks IsCancelled negb Op_Cancelled;
        header ← Ext (F:=io) (ReadHeader MIN_HEADER_LEN) (fun a => Done (ok_or a Op_ReadSource));
        Net.of_res (detect_or_unsupported header));
      published ← pmap_err (fun _ => Op_WriteDestination) (publish_staged p);
      mret {| fr_uuid := lr_uuid link_ref; fr_namespace := lr_namespace link_ref; fr_file_digest := pf_digest published;
              artifact_type := det_type detected; artifact_compression := det_compression detected |})
    s (loaded link_ref declared expected reads reason).
Proof.
  intros (c & Hc & -> & Hd & Hx & Hs) Hr. destruct Hs as (Hp & Ht & Hf).
  apply wp_bind, wp_owning, wp_bind. fs_call. subst s1. destruct a; cbn [negb wp]; [intros t _ d'; by repeat split; auto|].
  apply wp_bind. fs_call. destruct a as [h|]; [|subst s1; intros t _ d'; by repeat split; auto].
  destruct H as [Hh ->]. assert (h = take MIN_HEADER_LEN c) as -> by (rewrite Hh; cbn [f_temp with_dest succeeds_if]; by rewrite Ht).
  cbn [ok_or wp Net.of_res]. unfold detect_or_unsupported. destruct (detect (take MIN_HEADER_LEN c)) as [[dt|]|e|] eqn:Ed; cbn [mbind res_bind ok_or wp Net.of_res].
  2-4: intros t _ d'; split; [by repeat split|]; right; apply (Hr c Hc); unfold recognised; rewrite Ed; naive_solver.
  apply wp_bind, wp_map_err. eapply wp_mono; [by apply (publish_staged_wp _ c)|].
  intros [p|e|] s' H; [|destruct H; split; [done|by left]|done]. destruct H as [-> H]. exists c, dt. done.
Qed.
Lemma load_blocking_wp link link_ref expected reads s : fresh s ->
  wp (load_blocking link link_ref expected reads) s
    (loaded link_ref (link_size link) expected (link_reads link reads) (refused link expected)).
Proof.
  intros Hs. unfold load_blocking. apply wp_bind. fs_call. subst s1. destruct a; cbn [negb]; [split; [by apply (fresh_gone s)|by left]|].
  apply wp_bind. eapply wp_mono with (Q := copied (link_size link) expected (link_reads link reads) (refused link expected)).
  { destruct link as [path n|payload n|url n]; [by apply copy_local_wp| |by apply copy_http_wp].
    eapply wp_mono; [apply copy_bytes_wp; [done|apply bytes_content]|]. intros [p|e|] s' H; [done| |done].
    destruct H as [? [?|H]]; (split; [done|]); [by left|right]. cbn [refused]. tauto. }
  intros [p|e|] s' H; [|done|done]. apply published_wp; [done|]. intros c Hc Hn.
  destruct link as [path n|payload n|url n]; [done| |done]. cbn [refused]. intros (_ & _ & He).
  cbn [link_reads] in Hc. rewrite bytes_content in Hc. injection Hc as ->. done.
Qed.

Lemma join_wp {A} (worker : prog io OperationError A) s (Q : res OperationError A -> fs -> Prop) :
  (forall r s d ok, Q r s -> Q r (succeeds_if ok (with_dest d s))) ->
  wp worker s Q -> wp (bounded_join false worker) s (fun r s' => exists w, Q w s' /\ told w r).
Proof.
  intros HQ H. apply wp_try. eapply wp_mono; [exact H|]. intros r s' Hr. fs_call. subst s1.
  destruct a; exists r; (split; [by apply HQ|]); [by right|by left].
Qed.
Lemma loaded_stable link_ref declared expected reads reason r s d ok :
  loaded link_ref declared expected reads reason r s -> loaded link_ref declared expected reads reason r (succeeds_if ok (with_dest d s)).
Proof.
  destruct ok; [by destruct r|]. destruct r as [f|e|]; [|intros [? _]; split; [done|by left]..].
  intros (c & dt & H1 & H2 & H3 & H4 & H5 & H6 & H7). exists c, dt. split_and!; [done..|].
  split; [|done]. destruct H6 as [?|(? & _ & ?)]; [by left|by right].
Qed.

(** C22: Whatever file-system calls fail and whatever other processes do to the
    destination, what loading moves into place is, whole and at most once, what
    the source delivered, of the declared size and the expected digest, and the
    returned record has its digest, size and format; at most a file with the
    same BLAKE3 digest is left there instead, after contention.  When the worker
    ends otherwise it moved nothing and its temporary is gone or its removal
    was tried.  In-memory bytes of the declared size, the expected digest and a
    known format, with an unchanged link, are refused only if a call failed.
    The caller is told what the worker did, unless it gave up waiting after a
    cancellation. *)
Theorem load_verified link link_ref expected expected_link computed reads s r s' :
  fresh s -> runs (load link link_ref expected expected_link computed reads) s r s' ->
  exists worker, told worker r /\
    loaded link_ref (link_size link) expected (link_reads link reads) (computed <> Some expected_link \/ refused link expected) worker s'.
Proof.
  intros Hs. apply wp_runs with (Q := fun r s' => exists worker, told worker r /\ loaded _ _ _ _ _ worker s').
  assert (forall e : OperationError, computed <> Some expected_link -> exists worker : res OperationError FileRef, told worker (Err e) /\
    loaded link_ref (link_size link) expected (link_reads link reads) (computed <> Some expected_link \/ refused link expected) worker s) as Hk.
  { intros e Hn. exists (Err e). split; [by left|]. split; [by apply (fresh_gone s)|auto]. }
  unfold load. apply wp_bind. destruct computed as [l|]; cbn [wp Net.of_res ok_or]; [|by apply Hk].
  apply wp_bind. cbn [wp Net.of_res]. unfold fail_if. case_bool_decide as Hl; [apply Hk; congruence|].
  eapply wp_mono; [apply join_wp, (load_blocking_wp _ _ _ _ _ Hs); intros; by apply loaded_stable|].
  intros r' s2 (w & Hw & Ht). exists w. split; [done|]. destruct w as [f|e|]; [done|..]; destruct Hw as [? [?|?]]; split; auto.
Qed.

(** ** What is expanded *)

Definition output_bound (entry : FileRef) : Z := Z.max MAX_DECOMPRESSED_BYTES (fd_file_size (fr_file_digest entry)).
Definition expanded_from (entry : FileRef) (reads : list (option bytes)) (f : FileRef) (c : bytes) : Prop :=
  content reads = Some c /\ len c <= output_bound entry /\ exists d, recognised c d /\ det_type d <> Compressed /\
  f = {| fr_uuid := fr_uuid entry; fr_namespace := fr_namespace entry;
         fr_file_digest := {| file_hash := blake3 c; fd_file_size := len c |};
         artifact_type := det_type d; artifact_compression := AC_None |}.

Lemma stream_decode_wp bound w reads c s : fed None c w -> holds c s -> len c <= bound ->
  wp (stream_decode w bound reads) s (fun r s' =>
    match r with
    | Ok w' => exists c', content reads = Some c' /\ len (c ++ c') <= bound /\ fed None (c ++ c') w' /\ holds (c ++ c') s'
    | Err _ => f_published s' = []
    | Panic => False
    end).
Proof.
  revert w c s. induction reads as [|[[|x b]|] reads IH]; intros w c s Hw Hs Hl; cbn [stream_decode content].
  1, 2: exists []; by rewrite !app_nil_r.
  - destruct Hs as (Hp & Ht & Hf). pose proof Hw as (_ & Ew & _).
    apply wp_bind. cbn [wp Net.of_res]. unfold fail_if. destruct (bound <? _) eqn:Eb; [done|].
    apply wp_bind, wp_map_err. unfold write_all. apply wp_bind. fs_call. destruct a; [|by destruct H as [t ->]].
    subst s1. cbn [with_dest f_temp default]. rewrite Ht. cbn [default wp mret prog_ret map_err].
    eapply wp_mono; [apply (IH _ (c ++ x :: b)); [by apply fed_app|done|rewrite len_app; lia]|].
    intros [w'|e|] s' H; [|done|done]. destruct H as (c' & E & Hl' & Hw' & Hs').
    exists ((x :: b) ++ c'). rewrite E, app_assoc. done.
  - by destruct Hs.
Qed.
(** From an open writer to the staged, recognised file. *)
Lemma expanding_wp entry decoder w s : fed None [] w -> holds [] s -> artifact_compression entry <> AC_None ->
  wp (reads ← Net.of_res (match artifact_compression entry with AC_None => Panic | _ => ok_or decoder Op_ReadSource end);
      w ← stream_decode w (output_bound entry) reads;
      _ ← flush Op_WriteDestination;
      staged ← pmap_err (fun _ => Op_WriteDestination) (finish w);
      header ← Ext (F:=io) (ReadHeader MIN_HEADER_LEN) (fun a => Done (ok_or a Op_ReadSource));
      detected ← Net.of_res (detect_or_unsupported header);
      kind ← Net.of_res (inner_type detected);
      mret ({| fr_uuid := fr_uuid entry; fr_namespace := fr_namespace entry; fr_file_digest := pf_digest staged;
               artifact_type := kind; artifact_compression := AC_None |}, staged)) s (fun r s' =>
    match r with
    | Ok (f, p) => exists reads c, decoder = Some reads /\ expanded_from entry reads f c /\ p = describe None c /\ holds c s'
    | _ => f_published s' = []
    end).
Proof.
  intros Hw Hs Hn. apply wp_bind.
  assert (match artifact_compression entry with AC_None => Panic | _ => ok_or decoder Op_ReadSource end = ok_or decoder Op_ReadSource) as ->
    by by destruct (artifact_compression entry).
  destruct decoder as [reads|]; cbn [wp Net.of_res ok_or]; [|by destruct Hs].
  apply wp_bind. eapply wp_mono; [apply (stream_decode_wp _ _ _ []); [done|done|unfold output_bound, MAX_DECOMPRESSED_BYTES, len; cbn [length]; lia]|].
  intros [w'|e|] s2 H; [|done|done]. destruct H as (c & Hc & Hl & Hw' & Hs2). cbn [app] in *.
  destruct Hs2 as (Hp & Ht & Hf). apply wp_bind. unfold flush at 1. fs_call. subst s1. destruct a; cbn [id]; [|done].
  apply wp_bind, wp_map_err. eapply wp_mono; [by apply (finish_wp None c)|]. intros [p|e|] s3 H; [|by destruct H|done].
  destruct H as [-> (Hp3 & Ht3 & Hf3)]. cbn [map_err]. apply wp_bind. fs_call. destruct a as [h|]; [|by subst s1].
  destruct H as [Hh ->]. assert (h = take MIN_HEADER_LEN c) as -> by (rewrite Hh; cbn [f_temp with_dest]; by rewrite Ht3).
  apply wp_bind. cbn [ok_or wp Net.of_res]. unfold detect_or_unsupported.
  destruct (detect (take MIN_HEADER_LEN c)) as [[dt|]|e|] eqn:Ed; cbn [mbind res_bind ok_or wp Net.of_res]; [|done..].
  destruct (inner_type dt) as [k|e|] eqn:Ek; cbn [wp mret prog_ret]; [|done..].
  exists reads, c. assert (k = det_type dt /\ det_type dt <> Compressed) as [-> ?] by by unfold inner_type in Ek; destruct (det_type dt); simplify_eq.
  split_and!; [done| |done|done]. split; [done|]. split; [done|]. by exists dt.
Qed.

Definition decompressed (entry : FileRef) (decoder : option (list (option bytes))) (r : res OperationError (FileRef * PublishedFile)) (s : fs) : Prop :=
  match r with
  | Ok (f, p) => exists reads c, decoder = Some reads /\ expanded_from entry reads f c /\ p = describe None c /\ holds c s
  | _ => gone s
  end.
Lemma decompress_stage_wp entry decoder s : fresh s -> artifact_compression entry <> AC_None ->
  wp (decompress_stage entry decoder) s (decompressed entry decoder).
Proof.
  intros Hs Hn. pose proof Hs as (Hp & Ht & Hf). unfold decompress_stage. apply wp_bind. fs_call. subst s1.
  destruct a; cbn [id]; [|by apply (fresh_gone s)].
  apply wp_bind. fs_call. destruct a as [digest|]; cbn [ok_or wp]; [|subst s1; by apply (fresh_gone s)].
  rewrite bool_decide_eq_true_2 in H by by eexists. cbn in H. subst s1.
  apply wp_bind. cbn [wp Net.of_res]. unfold fail_if. case_bool_decide; [by apply (fresh_gone s)|].
  apply wp_bind. fs_call. subst s1. destruct a; cbn [id]; [|by apply (fresh_gone s)].
  apply wp_bind, wp_map_err. unfold TempWriter_open. apply wp_bind. fs_call. subst s1.
  destruct a; cbn [id wp mret prog_ret map_err]; [|by apply (fresh_gone s)].
  apply wp_owning. eapply wp_mono; [by apply (expanding_wp entry decoder)|].
  intros [[f p]|e|] s' Hr; [done|..]; intros t _ d'; by split.
Qed.

(** The caller gets a staged file of what the decoder delivered, within the
    bound and of a known uncompressed format, with its record; otherwise no
    temporary is left and in no case was anything moved into place. *)
Theorem decompress_staged entry decoder s r s' : fresh s -> runs (decompress entry decoder) s r s' ->
  decompressed entry decoder r s' /\ r <> Panic /\ (is_ok r = true -> artifact_type entry = Compressed).
Proof.
  intros Hs. apply wp_runs with (Q := fun r s' => decompressed entry decoder r s' /\ r <> Panic /\ (is_ok r = true -> artifact_type entry = Compressed)).
  unfold decompress. apply wp_bind. fs_call. subst s1. destruct a; cbn [id]; [|split; [by apply (fresh_gone s)|done]].
  apply wp_bind. cbn [wp Net.of_res]. unfold fail_if at 1. case_bool_decide as Ht; [split; [by apply (fresh_gone s)|done]|].
  apply wp_bind. cbn [wp Net.of_res]. unfold fail_if at 1. case_bool_decide as Hc; [split; [by apply (fresh_gone s)|done]|].
  apply wp_try, wp_bind. fs_call. subst s1.
  assert (forall s2 e, gone s2 -> wp (Ext (F:=io) Abandoned (fun abandoned : bool => if abandoned then Done (Err Op_Cancelled) else Done (Err e))) s2
    (fun (r : res OperationError (FileRef * PublishedFile)) s' => decompressed entry decoder r s' /\ r <> Panic /\ (is_ok r = true -> artifact_type entry = Compressed))) as Hend.
  { intros s2 e Hg. fs_call. subst s1. by destruct a0. }
  destruct a; cbn [negb]; [apply Hend; by apply (fresh_gone s)|].
  eapply wp_mono; [by apply decompress_stage_wp|].
  intros [[f p]|e|] s2 H; [|by apply Hend|by apply Hend]. fs_call. subst s1. destruct a.
  - fs_call. destruct H0 as (t & _ & ->). destruct H as (? & ? & ? & ? & ? & ? & ? & ?). by repeat split.
  - split; [done|]. split; [done|]. intros _. destruct (decide (artifact_type entry = Compressed)); [done|]. by destruct Ht.
Qed.
Theorem decompressed_published f p c s r s' : holds c s -> p = describe None c -> runs (publish_decompressed (f, p)) s r s' ->
  match r with Ok f' => f' = f /\ in_place c s' | Err _ => not_published s' | Panic => False end.
Proof.
  intros Hs ->. apply wp_runs with (Q := fun r s' => match r with Ok f' => f' = f /\ in_place c s' | Err _ => not_published s' | Panic => False end).
  unfold publish_decompressed. apply wp_bind, wp_map_err. eapply wp_mono; [by apply (publish_staged_wp _ c)|].
  intros [p|e|] s2 H; [|done|done]. by destruct H.
Qed.

(** ** Replacing a caller's file *)

Definition replaced_whole (c : bytes) (s : fs) (r : res replace_error unit) (s' : fs) : Prop :=
  match r with
  | Ok _ => f_dest s' = Some c /\ f_temp s' = None
  | Err _ => f_dest s' = f_dest s /\ f_temp s' = Some c
  | Panic => False
  end.
Lemma strict_attempts_alone c n s r s' : f_temp s = Some c -> runs_alone (strict_attempts n) s r s' -> replaced_whole c s r s'.
Proof.
  revert s. induction n as [|n IH]; intros s Ht; cbn [strict_attempts runs_alone]; intros (a & s1 & Hs1 & H1); cbn [fs_step] in Hs1.
  all: destruct a as [u|[]|]; [destruct Hs1 as (c' & Hc' & ->); destruct H1 as [-> ->]; cbn; naive_solver| | |done]; subst s1.
  1, 2, 4: by destruct H1 as [-> ->].
  by apply (IH (failing s)).
Qed.
(** A caller's file is replaced whole or left as it was. *)
Theorem replaced_or_kept staging_parent destination_parent c s r s' :
  f_temp s = Some c -> runs_alone (replace_file_atomically staging_parent destination_parent) s r s' -> replaced_whole c s r s'.
Proof.
  intros Ht. unfold replace_file_atomically, mbind, prog_bind. cbn [pbind Net.of_res]. unfold fail_if.
  case_bool_decide; cbn [runs_alone pbind asks]; [by intros [-> ->]|]. intros (a & s1 & Hs1 & H1). cbn [fs_step] in Hs1.
  destruct a; cbn [negb pbind runs_alone] in H1; [by destruct H1 as [-> ->]; subst s1|]. cbn in Hs1. subst s1.
  by eapply strict_attempts_alone.
Qed.

(** Publication is not such: after attempts that all met contention it removes
    the destination, and the last attempt may fail. *)
Lemma alone_try {E E' A B} (p : prog io E A) (f : res E A -> prog io E' B) s r1 s1 r s' :
  runs_alone p s r1 s1 -> runs_alone (f r1) s1 r s' -> runs_alone (ptry f p) s r s'.
Proof.
  revert s. induction p as [r0| | | | |x k IH]; intros s; cbn [runs_alone ptry]; try done; [by intros [-> ->]|].
  intros (a & s2 & Hs & Hr) Hf. exists a, s2. split; [done|]. by apply (IH a s2).
Qed.
Lemma alone_bind {E A B} (p : prog io E A) (f : A -> prog io E B) s a s1 r s' :
  runs_alone p s (Ok a) s1 -> runs_alone (f a) s1 r s' -> runs_alone (p ≫= f) s r s'.
Proof.
  unfold mbind, prog_bind. revert s. induction p as [r0| | | | |x k IH]; intros s; cbn [runs_alone pbind]; try done; [by intros [<- ->]|].
  intros (b & s2 & Hs & Hr) Hf. exists b, s2. split; [done|]. by apply (IH b s2).
Qed.
Lemma alone_matches size d s : fd_file_size d <> size -> runs_alone (destination_matches d) s (Ok false) s.
Proof.
  intros Hd. apply (alone_bind _ _ _ (Some size) s); [exists (Ok (Some size)), s; repeat split; done|].
  rewrite bool_decide_eq_false_2 by congruence. done.
Qed.
Lemma alone_exhausted size d n s : fd_file_size d <> size -> failing s = s -> runs_alone (publish_attempts n d) s (Ok Loop_exhausted) s.
Proof.
  intros Hd Hf. induction n as [|n IH]; [done|]. cbn [publish_attempts]. eapply alone_try; [by eapply alone_matches|].
  exists (Err Contention), s. split; [by cbn|done].
Qed.
Theorem publication_destroys c old d s : holds c s -> f_dest s = Some old -> fd_file_size d <> len old ->
  exists s', runs_alone (publish_with d) s (Err TF_Publish) s' /\ f_dest s' = None /\ f_temp s' = None.
Proof.
  intros (Hp & Ht & Hf) Ho Hd.
  exists {| f_temp := None; f_dest := None; f_published := f_published s; f_read := f_read s; f_removed := true; f_failed := true |}.
  split; [|done]. apply (alone_bind _ _ _ tt s); [exists true, s; done|]. apply (alone_bind _ _ _ false s); [exists false, s; done|].
  exists (Err Contention), (failing s). split; [done|]. apply (alone_bind _ _ _ Loop_exhausted (failing s)).
  { by eapply alone_exhausted. }
  apply (alone_bind _ _ _ tt (with_dest None (failing s))); [exists tt, (with_dest None (failing s)); repeat split; eexists; split; [by left|done]|].
  exists (Err Contention), (with_dest None (failing s)). split; [done|].
  apply (alone_bind _ _ _ tt {| f_temp := None; f_dest := None; f_published := f_published s; f_read := f_read s; f_removed := true; f_failed := true |}); [|done].
  exists tt. eexists. split; [|done]. exists None. split; [by left|done].
Qed.

End Detect.

(** ** Examples *)

Module ArtifactsExample.
(** A file system on which every call succeeds. *)
Definition smooth (x : io_call) : fs -> io_answer x * fs :=
  match x return fs -> io_answer x * fs with
  | IsCancelled | Abandoned | IsDirectory => fun s => (false, s)
  | OpenSource | SourceExists | SeekSource | FlushTemp | SyncTemp | CreateDirs => fun s => (true, s)
  | SourceSize => fun s => (Some (len (default [] (f_dest s))), s)
  | SourceDigest => fun s => (Some {| file_hash := z2b 0 :: default [] (f_dest s); fd_file_size := len (default [] (f_dest s)) |}, s)
  | HttpGet => fun s => (Ok (true, None), s)
  | CreateTemp => fun s => (true, with_temp (Some []) s)
  | WriteTemp b => fun s => (true, with_temp (Some (default [] (f_temp s) ++ b)) s)
  | ReadHeader n => fun s => (Some (take n (default [] (f_temp s))), s)
  | RemoveTemp => fun s => (tt, {| f_temp := None; f_dest := f_dest s; f_published := f_published s; f_read := f_read s;
                                   f_removed := true; f_failed := f_failed s |})
  | Rename => fun s =>
      match f_temp s with
      | Some c => (Ok tt, {| f_temp := None; f_dest := Some c; f_published := f_published s ++ [c]; f_read := f_read s;
                             f_removed := f_removed s; f_failed := f_failed s |})
      | None => (Err Failure, failing s)
      end
  | DestinationSize => fun s => (Ok (len <$> f_dest s), s)
  | ReadDestination => fun s => (Err Failure, failing s)
  | RemoveDestination => fun s => (tt, with_dest None s)
  end.
Fixpoint play {E A} (p : prog io E A) (s : fs) : option (res E A * fs) :=
  match p with
  | Done r => Some (r, s)
  | Ext x k => let '(a, s1) := smooth x s in play (k a) s1
  | _ => None
  end.
Lemma smooth_step x s : fs_step x (smooth x s).1 s (smooth x s).2.
Proof.
  destruct x; cbn; try done; try (by eexists; split; [by left|]).
  destruct (f_temp s) as [c|] eqn:E; cbn; [by exists c|done].
Qed.
Lemma with_own_dest s : with_dest (f_dest s) s = s.
Proof. by destruct s. Qed.
Lemma smooth_runs {E A} (p : prog io E A) s r s' : play p s = Some (r, s') -> runs p s r s'.
Proof.
  revert s. induction p as [r0| | | | |x k IH]; intros s; cbn [play runs]; try done; [by intros [= -> ->]|].
  pose proof (smooth_step x s) as Hs. destruct (smooth x s) as [a s1]. intros H. exists (f_dest s), a, s1. rewrite with_own_dest. auto.
Qed.

(** In place of the hash functions. *)
Definition tagged (tag : Z) (b : bytes) : bytes := z2b tag :: b.
Definition no_tar (b : bytes) : bool := false.
#[local] Existing Instance unix.
Definition the_digest : LinkDigest := {| link_hash := replicate 32 (chr "d"); ld_file_size := 7 |}.
Definition the_ref : LinkRef := {| lr_uuid := []; lr_namespace := NS_Rootfs; lr_link_digest := the_digest |}.
Definition loading (payload : bytes) (expected : option ExpectedDigest) : prog io OperationError FileRef :=
  load no_tar (tagged 0) (tagged 1) (tagged 2) (AL_Bytes payload (len payload)) the_ref expected the_digest (Some the_digest) [].
Definition archive : bytes := str "070701x".
Definition stored (kind : ArtifactType) (compression : ArtifactCompression) (c : bytes) : FileRef := {|
  fr_uuid := []; fr_namespace := NS_Rootfs; fr_file_digest := {| file_hash := tagged 0 c; fd_file_size := len c |};
  artifact_type := kind; artifact_compression := compression |}.
Definition in_place_of (c : bytes) : fs := {|
  f_temp := None; f_dest := Some c; f_published := [c]; f_read := []; f_removed := false; f_failed := false |}.

Example archive_loaded :
  play (loading archive (Some (ED_Sha256 (tagged 1 archive)))) (untouched None) = Some (Ok (stored ContainerCpio AC_None archive), in_place_of archive).
Proof. by vm_compute. Qed.
Example digest_refused :
  (play (loading archive (Some (ED_Sha256 (tagged 2 archive)))) (untouched None)) ≫= (fun p => Some (p.1, f_published p.2, f_temp p.2)) =
  Some (Err Op_DigestMismatch, [], None).
Proof. by vm_compute. Qed.

(** An artifact of 511 bytes that ends in the first byte of the boot flag makes
    detection read beyond its end; the panic of the worker is reported as a
    source that cannot be read. *)
Definition short_image : bytes := replicate 510 (z2b 1) ++ [z2b 85].
Example short_image_panics :
  detect no_tar short_image = Panic /\ fst <$> play (loading short_image None) (untouched None) = Some (Err Op_ReadSource).
Proof. split; by vm_compute. Qed.

Lemma load_verified_witness :
  exists worker, told worker (Ok (stored ContainerCpio AC_None archive)) /\
    loaded no_tar (tagged 0) (tagged 1) (tagged 2) the_ref 7 (Some (ED_Sha256 (tagged 1 archive)))
      (link_reads (AL_Bytes archive 7) []) (Some the_digest <> Some the_digest \/
        refused no_tar (tagged 0) (tagged 1) (tagged 2) (AL_Bytes archive 7) (Some (ED_Sha256 (tagged 1 archive)))) worker (in_place_of archive).
Proof.
  apply (load_verified no_tar (tagged 0) (tagged 1) (tagged 2) (AL_Bytes archive 7) the_ref (Some (ED_Sha256 (tagged 1 archive))) the_digest
    (Some the_digest) [] (untouched None)); [done|]. apply smooth_runs. by vm_compute.
Defined.

(** A file that decompresses to an archive, expanded in place of its source. *)
Definition gzipped : FileRef := stored Compressed Gzip (str "gz").
Definition expanding : prog io OperationError FileRef :=
  s ← decompress no_tar (tagged 0) (tagged 1) (tagged 2) gzipped (Some [Some (str "0707"); Some (str "01x"); Some []]); publish_decompressed (tagged 0) s.
Example expanded_in_place :
  play expanding (untouched (Some (str "gz"))) = Some (Ok (stored ContainerCpio AC_None archive), in_place_of archive).
Proof. by vm_compute. Qed.
End ArtifactsExample.
